(* ===== verification/_CoqProject ===== *)
-Q . S2P
Prelude.v
Async.v
Hoare.v
JsString.v
JsNumber.v
FloatOrder.v
SearchKit.v
MonitorLine.v
ValueRedactor.v
CaptureStorage.v
CaptureWriter.v
HealthGate.v
MonitorCapture.v
CaptureTriggers.v
CaptureScheduler.v
CrossReference.v
CommandSafety.v
Preflight.v
Json.v
JsonText.v
RateLimiter.v
ProposalStorage.v
ProposalWorld.v
CacheProposals.v
MemoryProposals.v
AnomalyTypes.v
SpikeDetector.v
Hysteresis.v
LoadSaturation.v
MemoryOverhead.v
ForkMemoryRisk.v
ControlPlane.v
ClientLockout.v
Correlator.v
ClusterTopology.v
FailoverChurn.v
FleetDrift.v
NodeViews.v
GhostMembership.v
CobPressure.v
AuthFailures.v
AnomalyStorage.v
AnomalyFeed.v
PersistenceGate.v
WebhookTypes.v
WebhookStorage.v
WebhooksService.v
WebhookDispatcher.v
WebhookProcessor.v
BulkDelete.v
BulkDeleteJobs.v
MigrationKeys.v
MigrationWorker.v
MigrationToml.v
MigrationLogs.v
MigrationExecution.v
MemoryRecords.v
FactReconciliation.v
MemoryStore.v
MemoryServer.v
MemorySafety.v
CanonicalJson.v
AgentCache.v
AgentCacheServer.v
AgentCacheSafety.v
LatencyRegression.v
