(* ===== verification/Prelude.v ===== *)
(** * BetterDB Monitor: a verification library for its core services

    BetterDB Monitor watches Redis and Valkey servers.  This library models the
    subsystems that carry its own logic, command capture, webhook delivery,
    proposals with approval, anomaly detection, bulk deletion, migration and the
    memory and the cache of its agent libraries, as executable definitions translated from the
    TypeScript under [src/], and proves what makes them correct.

    ** The program and the files

    _Shared._  This file has outcomes and a state-and-error monad, arrays and
    [Map]s with their lemmas, tactics and the hint database [js].  [Async] has the
    resumption monad of asynchronous methods, the scheduler that interleaves them
    and two ways to reason about every interleaving; [Hoare] the weakest
    preconditions of the error monad; [JsString] and [JsNumber] the strings and
    the fractional numbers of the language, [FloatOrder] the order of numbers that
    comparators compute, [Json] the JSON values with [JSON.stringify] and
    [JSON.parse], [JsonText] the round trip of the two.

    _Capture_ ([apps/api/src/monitor]): a capture opens a MONITOR connection to a
    server and records the commands it runs.

    - [MonitorLine]: [monitor-line.parser.ts] and the line formatter of
      [iovalkey-monitor-source.ts].  [ValueRedactor]: [value-redactor.ts].
    - [CaptureStorage]: the tables of the capture subsystem in
      [storage/adapters/memory.adapter.ts].
    - [CaptureWriter]: [capture-writer.ts]: the buffer between a source of lines
      and the storage as a machine that takes one event at a time.
    - [HealthGate]: [health-gate.ts], [health-gate.service.ts].  [MonitorCapture]:
      [monitor-capture.service.ts].  [CaptureTriggers]:
      [capture-trigger-registry.ts].  [CaptureScheduler]: [capture-scheduler.ts].
    - [CrossReference]: [cross-reference.engine.ts].
    - [Preflight]: [acl-checker.ts], [config-hazard.ts], [provider-detector.ts],
      the estimate of [preflight.service.ts].
    - [CommandSafety]: [command-safety.ts] of [packages/shared], the CLI's parser
      and gate ([cli/]) and the cloud agent's ([packages/agent]).

    _Webhooks_ ([webhooks/] of the API) tell the outside about events:
    [WebhookTypes] ([packages/shared/src/webhooks]), [WebhookStorage],
    [WebhooksService] (validation, creation, update, secrets), [WebhookDispatcher]
    (alert hysteresis, the signed request, one attempt), [WebhookProcessor]
    (retries, health, the dead letter queue and the machine in which attempts
    overlap).

    _Proposals_ ([proprietary/cache-proposals], [proprietary/memory-proposals]): a
    tool proposes a change, a person decides, the service applies.  [RateLimiter];
    [ProposalStorage] (the tables of the memory adapter, payload schemas);
    [ProposalWorld] (the state the methods share and what they may do to it);
    [CacheProposals] and [MemoryProposals] (the services, as [async] methods).

    _Anomalies_ ([proprietary/anomaly-detection]).  [AnomalyTypes];
    [SpikeDetector] (sample buffers, z-scores); detectors with alert levels over
    one interface, [Hysteresis]: [LoadSaturation], [MemoryOverhead],
    [ForkMemoryRisk], [CobPressure]; [ControlPlane] and [ClientLockout];
    detectors over views of a cluster: [ClusterTopology], [FailoverChurn],
    [FleetDrift], [NodeViews], [GhostMembership]; [AuthFailures]; [Correlator]
    (groups); [AnomalyStorage] (tables and an interface of the adapters),
    [AnomalyFeed] and [PersistenceGate] (what [anomaly.service.ts] does with the
    events).  [LatencyRegression] ([proprietary/latency-regression]): the p99 of
    the commands after an upgrade and over a day.

    _Bulk deletion_ ([proprietary/bulk-delete]): [BulkDelete] (the walk of SCAN and
    UNLINK over the nodes) and [BulkDeleteJobs] (jobs, audit rows).

    _Migration_ ([apps/api/src/migration/execution]): [MigrationKeys] (one key),
    [MigrationWorker] (a keyspace), [MigrationToml] (the configuration of the
    external RedisShake), [MigrationLogs] (its output), [MigrationExecution]
    (jobs, as a step relation).

    _Search and agent memory_ ([packages/valkey-search-kit],
    [packages/agent-memory]): [SearchKit] (tags, vectors, replies of the search
    module), [MemoryRecords] (records, filters, scores), [FactReconciliation],
    [MemoryStore] (the store's methods), [MemoryServer] (what the server documents
    and the specification of each method), [MemorySafety] (the properties of every
    run, and a server that keeps its data in a map).

    _The agent cache_ ([packages/agent-cache]): [CanonicalJson] ([utils.ts]: the
    canonical text of a request, the keys made of it), [AgentCache] (the tiers of
    completions, tool results and sessions, the walk over a cluster and the
    statistics: [tiers/], [cluster.ts], [AgentCache.ts]), [AgentCacheServer] (what
    the server documents and what the methods do to the keys), [AgentCacheSafety]
    (the properties of every run, and a server that keeps its keys in a map).

    The parts call each other as the code does: the trigger registry and the
    scheduler call the health gate and the capture service, the capture service
    owns the writers, the writers call the storage through an interface
    ([CaptureSink]); the engine reads the stored chunks back; the dispatcher and
    the processor work on the webhook store, the service guards what enters it;
    the proposal services share the rate limiter and the table; the feed correlates
    with [Correlator] and stores through [AnomalyStore]; migration jobs run the
    worker, which copies each key with [migrateKey]; the memory store writes the
    records, searches with the filters and reconciles facts; the tiers of the agent
    cache keep entries under the keys of [CanonicalJson] and walk them with
    [clusterScan].

    ** How the code is represented

    - A method that throws or changes state is a function from the state to an
      outcome and the new state; a throw keeps the state reached.  Names are the
      source's; where one name occurs twice a prefix tells the parts apart
      ([service_], [target_] and the like).
    - A string is the UTF-8 text of the JavaScript string, a fractional number an
      IEEE 754 binary64 value computed with [SpecFloat], a timestamp, counter or
      size a [Z] (they stay below 2^53, where JavaScript's numbers are integers).
      A [Map] is an association list in insertion order, because iteration order
      shows; [undefined] is [None].
    - What the code gets from outside is an argument: the clock, random ids, the
      answers of servers, DNS and [fetch], HMAC and SHA-256, the URL parser, the
      cron parser, [toLocaleString], [localeCompare], [toLowerCase] beyond ASCII,
      [Math.exp], the order of rows SQLite returns.  Servers and libraries with a
      state are type classes: operations, and in a second class the laws their
      documentation states ([AlertCacheLaws], [AnomalyStoreLaws], [ScanLaws],
      [ServerLaws], [WorkerLaws], [MemoryServer], [ExactIndex], [CacheServer]); a concrete
      instance of each shows that the laws can hold, and carries the witnesses.
    - Asynchronous code runs as one function where nothing it shares changes while
      it waits.  Where that is not so, the segments between two [await]s are
      separate steps, interleaved by a relation or by the scheduler of [Async]:
      [writer_step], the starts of the capture service, the trigger registry's
      steps, [System] of the webhook processor, the proposal services,
      [service_step] of the bulk deletions, the steps of migration jobs.  The keys
      of a migration batch, copied concurrently, take effect in an order the
      environment chooses.  The operations of the anomaly feed, of the memory
      store and of the agent cache run alone, one after the other.

    ** Bounds and fuel

    The numeric limits are the source's constants.  Loops over SCAN take as many
    rounds as the server has pages: their fuel is compared with what the laws say
    is left of the iteration ([sl_left], [sv_left], [wl_left], [cv_left]), and
    [migration_complete], [migrate_key_copies] and [bulk_delete_terminates] prove
    that such fuel suffices.  The 10000 rounds of [forgetByScope] are the code's
    own bound.  [collect_pages] runs 26 rounds: the loop reads pages of 200 up to
    5000; its lemma holds for every sufficient fuel.  [parseQuoted] gets the length
    of its input plus one ([parseQuoted_loop] proves that it satisfies the loop's
    equation), as do the JSON reader, whose every round takes a byte, and
    [replace_go]; [ws_suffixes] spends at most one unit a byte.  [dec_exponent] has
    800 steps, more than the 633 decimal exponents of binary64 values, and
    [shortest] at most 17 digits.  All other recursion is structural.

    ** What the theorems show

    - _A capture is faithful_: every accepted line is stored once, in order
      ([writer_persists_capture], [writer_save_failures]), reads back as the same
      commands ([capture_reads_back], [monitor_line_roundtrip]) and holds no
      payload of the redacted commands ([redaction_hides_values]); triggers end
      for good ([trigger_lifecycle_final]); captures start when they may
      ([health_gate_decision], [cli_gate_sound]).
    - _Webhooks_: no internal address ([ssrf_guard]); one alert per episode against
      an abstract machine ([alert_hysteresis]); the row of an attempt follows the
      policy ([attempt_settles]); under every interleaving a delivery is sent at
      most as often as its policy allows ([delivery_attempts_bounded]).
    - _Proposals_: whatever requests overlap, statuses follow the lifecycle and
      nothing is forgotten twice or without approval ([forget_at_most_once],
      [cache_proposal_lifecycle], [cache_proposals_well_formed]); the rate limit
      holds for every window ([rate_limit_window]).
    - _Detectors_: an alert rests on the evidence its rule names and is raised once
      an episode ([spike_alerts], [auth_failures_real], [cob_levels_keep_contract],
      [churn_needs_changes], [upgrade_regression_real],
      [sustained_degradation_real], [rejoin_is_real], [duplicate_primaries_exact] and the
      like, [gate_alerts_once_per_episode]); correlation splits the events into
      groups ([correlate_groups]); open anomalies stay listed and resolved ones do
      not return ([open_anomaly_stays_listed], [resolved_anomaly_stays_unlisted]).
    - _Bulk deletion_: it removes only what was asked for, a clean report means a
      clean keyspace, one walk per connection, a true audit trail
      ([bulk_delete_safe], [bulk_delete_complete], [one_walk_per_connection],
      [audit_trail_final]).
    - _Migration_: a migrated key is a true copy, all or nothing, time to live
      included; a migration that skipped nothing copied the keyspace
      ([migrate_key_copies], [migrate_key_all_or_nothing], [migration_complete]);
      a stopped job destroys nothing more and a finished one stays as it finished
      ([cancel_stops_destruction], [terminal_job_is_final]); the TOML file says
      what the connections say ([scan_toml_roundtrip]).
    - _Agent memory_: records and filters read back as they were meant
      ([memory_record_roundtrip], [filters_read_back]); recall returns the best
      hits, capacity is kept, forgetting a scope is exact, consolidation loses
      nothing whatever fails ([recall_returns_best], [remember_keeps_capacity],
      [forget_by_scope_exact], [consolidation_keeps_content],
      [consolidated_facts_settled]); reconciling facts refines a specification that
      follows one subject at a time ([reconcile_refines]).
    - _The agent cache_: two requests share a key just when they are the same data
      ([tool_key_exact], [llm_key_exact]); a hit is the last result stored for its
      request and not removed since, in every run with other clients and expiry
      ([tool_hit_sound], [llm_hit_sound]), and a stored result is found
      ([stored_result_hits]); reading a thread and destroying it reach its fields
      and nothing else ([getAll_reads_thread], [destroyed_thread_is_gone]); the
      gauge counts the tracked threads ([sessions_counted]).
    Beside them stand theorems on where the code stops short of its comments, for
    instance [overlapping_starts_two_sessions], [manual_retry_double_send],
    [concurrent_approvals_dispatch_twice], [applying_is_stuck],
    [spikes_not_consecutive], [suspected_primary_left_out],
    [type_error_loses_key], [undated_rerun_changes],
    [destroying_takes_others], [tracker_over_limit], [gap_counts].

    In every file definitions come first, then specifications and samples, then
    lemmas, then theorems.  A theorem with hypotheses is followed by a witness
    that applies it to concrete data.

    ** What is not modelled

    The SQL adapters but for the anomaly tables (the semantics of SQLite and
    Postgres is outside the repository), HTTP controllers and module wiring, the
    connection registry and client pools, the web interface, pollers that only
    fetch or aggregate (analytics, metrics, forecasting, Prometheus), licensing,
    entitlement, billing and provisioning (cryptographic tokens, Stripe, Prisma and
    Kubernetes), the MCP server and the installers, the other client
    libraries and the adapters of the agent cache and the Python ports.
    Of the modelled services: log output, tracing, product analytics and
    telemetry; timers other than those whose events are modelled.  Retry policies
    have integer fields. *)
From stdpp Require Export base list gmap strings pretty sorting.
From Stdlib Require Export ZArith Lia Ascii.
From stdpp Require Import options.

#[global] Open Scope Z_scope.

(** ** Definitions *)

(** *** Outcomes and the effect monad

    A TypeScript function that may throw and that reads and writes some state
    [S] is a function from the state to an outcome and the state it leaves.
    A throw keeps the state reached so far: JavaScript exceptions do not roll
    anything back. *)
Inductive outcome (E A : Type) : Type :=
  | Ok (a : A)
  | Throw (e : E).
Arguments Ok {E A} a.
Arguments Throw {E A} e.

Definition M (S E A : Type) : Type := S → outcome E A * S.

#[global] Instance M_ret {S E} : MRet (M S E) := λ A a s, (Ok a, s).
#[global] Instance M_bind {S E} : MBind (M S E) := λ A B k m s,
  match m s with
  | (Ok a, s') => k a s'
  | (Throw e, s') => (Throw e, s')
  end.

Definition throw {S E A} (e : E) : M S E A := λ s, (Throw e, s).
Definition get_state {S E} : M S E S := λ s, (Ok s, s).
Definition put_state {S E} (s : S) : M S E unit := λ _, (Ok tt, s).
Definition gets {S E A} (f : S → A) : M S E A := λ s, (Ok (f s), s).
Definition modify {S E} (f : S → S) : M S E unit := λ s, (Ok tt, f s).

(** [try { m } catch (e) { h e }] *)
Definition try_catch {S E F A} (m : M S E A) (h : E → M S F A) : M S F A := λ s,
  match m s with
  | (Ok a, s') => (Ok a, s')
  | (Throw e, s') => h e s'
  end.

(** [for (const x of l) { body x }] *)
Fixpoint for_each {S E A} (l : list A) (body : A → M S E unit) : M S E unit :=
  match l with
  | [] => mret tt
  | x :: l' => body x ≫= λ _, for_each l' body
  end.

(** *** JavaScript [Map]

    A [Map] iterates in insertion order; [set] on a present key keeps its place
    and [delete] removes it. *)
Section jsmap_defs.
Context {K : Type} `{EqDecision K} {V : Type}.

Fixpoint jm_get (k : K) (m : list (K * V)) : option V :=
  match m with
  | [] => None
  | (k', v) :: m' => if decide (k = k') then Some v else jm_get k m'
  end.

Fixpoint jm_set (k : K) (v : V) (m : list (K * V)) : list (K * V) :=
  match m with
  | [] => [(k, v)]
  | (k', v') :: m' =>
      if decide (k = k') then (k, v) :: m' else (k', v') :: jm_set k v m'
  end.

Definition jm_delete (k : K) (m : list (K * V)) : list (K * V) :=
  filter (λ kv, kv.1 ≠ k) m.

Definition jm_has (k : K) (m : list (K * V)) : bool :=
  match jm_get k m with Some _ => true | None => false end.

Definition jm_values (m : list (K * V)) : list V := m.*2.

(** The object [{ ...base, ...over }] *)
Definition js_spread (base over : list (K * V)) : list (K * V) :=
  foldl (λ m kv, jm_set kv.1 kv.2 m) base over.

(** The keys of a [Map] are pairwise distinct. *)
Definition jm_wf (m : list (K * V)) : Prop := NoDup m.*1.

(** [ks.forEach((k) => m.delete(k))] *)
Definition jm_deletes (ks : list K) (m : list (K * V)) : list (K * V) :=
  foldl (λ m k, jm_delete k m) m ks.
End jsmap_defs.

(** The maps hold each row under its own id. *)
Definition keyed {V} (id : V → string) (m : list (string * V)) : Prop :=
  jm_wf m ∧ ∀ k v, (k, v) ∈ m → id v = k.

(** *** Arrays *)

(** [Array.prototype.sort] with a comparator: stable, so an insertion sort that
    puts an element in front of the later elements it does not exceed. *)
Section sort_defs.
Context {A : Type} (cmp : A → A → Z).

Fixpoint js_insert (x : A) (l : list A) : list A :=
  match l with
  | [] => [x]
  | y :: l' => if cmp x y <=? 0 then x :: l else y :: js_insert x l'
  end.

Definition js_sort (l : list A) : list A := foldr js_insert [] l.
End sort_defs.

(** [(a, b) => a.key - b.key] and [(a, b) => b.key - a.key] *)
Definition by_asc {A} (key : A → Z) (a b : A) : Z := key a - key b.
Definition by_desc {A} (key : A → Z) (a b : A) : Z := key b - key a.

(** [l.slice(from, to)], with the clamping of negative and large bounds. *)
Definition js_clamp (len i : Z) : Z :=
  if i <? 0 then Z.max (len + i) 0 else Z.min i len.
Definition js_slice {A} (from to : Z) (l : list A) : list A :=
  let len := Z.of_nat (length l) in
  let a := js_clamp len from in
  let b := js_clamp len to in
  take (Z.to_nat (b - a)) (drop (Z.to_nat a) l).

(** [l.filter(p)] *)
Fixpoint js_filter {A} (p : A → bool) (l : list A) : list A :=
  match l with
  | [] => []
  | x :: l' => if p x then x :: js_filter p l' else js_filter p l'
  end.

(** [l.find(p)] *)
Fixpoint js_find {A} (p : A → bool) (l : list A) : option A :=
  match l with
  | [] => None
  | x :: l' => if p x then Some x else js_find p l'
  end.

(** [l.findIndex(p)]; [None] stands for [-1]. *)
Fixpoint js_find_index {A} (p : A → bool) (l : list A) : option nat :=
  match l with
  | [] => None
  | x :: l' => if p x then Some 0%nat else S <$> js_find_index p l'
  end.

Definition js_some {A} (p : A → bool) (l : list A) : bool := existsb p l.
Definition js_every {A} (p : A → bool) (l : list A) : bool := forallb p l.

(** [l.includes(x)] *)
Definition js_includes {A} `{EqDecision A} (x : A) (l : list A) : bool :=
  bool_decide (x ∈ l).

(** [length] as a JavaScript number *)
Definition js_len {A} (l : list A) : Z := Z.of_nat (length l).

(** [[...new Set(l)]]: the elements in the order of their first occurrence *)
Definition js_set {A} `{EqDecision A} (l : list A) : list A :=
  foldl (λ acc x, if decide (x ∈ acc) then acc else acc ++ [x]) [] l.

(** A [Map] of arrays filled by pushing each element under its key *)
Definition group_step {A} (key : A → string) (m : list (string * list A)) (x : A)
    : list (string * list A) :=
  jm_set (key x) (default [] (jm_get (key x) m) ++ [x]) m.
Definition js_group {A} (key : A → string) (l : list A) : list (string * list A) :=
  foldl (group_step key) [] l.

(** *** Truthiness *)
Definition truthy_string (o : option string) : bool :=
  match o with Some (String _ _) => true | _ => false end.
Definition truthy_number (o : option Z) : bool :=
  match o with Some n => negb (n =? 0) | None => false end.

(** A filter of the shape [if (opt) l = l.filter(x => p x opt)]. *)
Definition when_some {A} (o : option A) (p : A → bool) : bool :=
  match o with Some a => p a | None => true end.

(** ** Lemmas *)

(** *** Outcomes *)
Definition ran_ok {E A} (r : outcome E A) : bool :=
  match r with Ok _ => true | Throw _ => false end.

(** A property of states kept by a computation whatever its outcome. *)
Definition preserves {S E A} (I : S → Prop) (m : M S E A) : Prop :=
  ∀ s, I s → I (m s).2.

Lemma preserves_ret {S E A} (I : S → Prop) (a : A) :
  preserves I (mret a : M S E A).
Proof. by intros s Hs. Qed.

Lemma preserves_throw {S E A} (I : S → Prop) (e : E) :
  preserves I (throw e : M S E A).
Proof. by intros s Hs. Qed.

Lemma preserves_gets {S E A} (I : S → Prop) (f : S → A) :
  preserves I (gets f : M S E A).
Proof. by intros s Hs. Qed.

Lemma preserves_modify {S E} (I : S → Prop) (f : S → S) :
  (∀ s, I s → I (f s)) → preserves I (modify f : M S E unit).
Proof. intros Hf s Hs. by apply Hf. Qed.

Lemma preserves_bind {S E A B} (I : S → Prop) (m : M S E A) (k : A → M S E B) :
  preserves I m → (∀ a, preserves I (k a)) → preserves I (m ≫= k).
Proof.
  intros Hm Hk s Hs. specialize (Hm s Hs).
  unfold mbind, M_bind. destruct (m s) as [[a|e] s'] eqn:Em; simpl in *; [|done].
  by apply Hk.
Qed.

Lemma preserves_try_catch {S E F A} (I : S → Prop) (m : M S E A) (h : E → M S F A) :
  preserves I m → (∀ e, preserves I (h e)) → preserves I (try_catch m h).
Proof.
  intros Hm Hh s Hs. specialize (Hm s Hs).
  unfold try_catch. destruct (m s) as [[a|e] s'] eqn:Em; [done|].
  by apply Hh.
Qed.

Lemma preserves_for_each {S E A} (I : S → Prop) (l : list A) (body : A → M S E unit) :
  (∀ x, preserves I (body x)) → preserves I (for_each l body).
Proof.
  intros Hb. induction l as [|x l IH]; simpl; [apply preserves_ret|].
  by apply preserves_bind.
Qed.

(** *** Filters and searches *)
Section list_lemmas.
Context {A : Type} (p : A → bool).
Implicit Types (l : list A).

Lemma js_filter_elem l x : x ∈ js_filter p l ↔ p x = true ∧ x ∈ l.
Proof.
  induction l as [|y l IH]; simpl; [set_solver|].
  destruct (p y) eqn:Hy; rewrite ?elem_of_cons, IH; split; intros H; destruct_and?;
    destruct_or?; subst; try congruence; tauto.
Qed.

Lemma js_filter_all l : (∀ x, x ∈ l → p x = true) → js_filter p l = l.
Proof.
  induction l as [|y l IH]; intros H; simpl; [done|].
  rewrite H, IH; set_solver.
Qed.

Lemma js_filter_none l : (∀ x, x ∈ l → p x = false) → js_filter p l = [].
Proof.
  induction l as [|y l IH]; intros H; simpl; [done|].
  rewrite H, IH; set_solver.
Qed.

Lemma js_filter_length l : (length (js_filter p l) ≤ length l)%nat.
Proof. induction l as [|y l IH]; simpl; [lia|]. destruct (p y); simpl; lia. Qed.

Lemma js_filter_sublist l : js_filter p l `sublist_of` l.
Proof.
  induction l as [|y l IH]; simpl; [done|].
  destruct (p y); by constructor.
Qed.

Lemma js_filter_Forall (P : A → Prop) l : Forall P l → Forall P (js_filter p l).
Proof. rewrite !Forall_forall. intros H x [_ Hx]%js_filter_elem. by apply H. Qed.

Lemma js_filter_app l k : js_filter p (l ++ k) = js_filter p l ++ js_filter p k.
Proof. induction l as [|y l IH]; simpl; [done|]. destruct (p y); simpl; by rewrite IH. Qed.

Lemma js_filter_perm l k : l ≡ₚ k → js_filter p l ≡ₚ js_filter p k.
Proof.
  induction 1 as [|x l k _ IH|x y l|l k m _ IH1 _ IH2]; simpl; [done| | |by etrans].
  - destruct (p x); by rewrite ?IH.
  - destruct (p x), (p y); try done. by rewrite Permutation_swap.
Qed.

Lemma js_find_Some l x : js_find p l = Some x → p x = true ∧ x ∈ l.
Proof.
  induction l as [|y l IH]; simpl; [done|].
  destruct (p y) eqn:Hy; intros; simplify_eq; set_solver.
Qed.

Lemma js_find_None l : js_find p l = None ↔ ∀ x, x ∈ l → p x = false.
Proof.
  induction l as [|y l IH]; simpl; [set_solver|].
  destruct (p y) eqn:Hy; [|rewrite IH; set_solver].
  split; [done|]. intros H. specialize (H y (list_elem_of_here _ _)). congruence.
Qed.

Lemma js_find_index_Some l i :
  js_find_index p l = Some i →
  ∃ x, l !! i = Some x ∧ p x = true ∧
       ∀ j y, (j < i)%nat → l !! j = Some y → p y = false.
Proof.
  revert i. induction l as [|y l IH]; intros i; simpl; [done|].
  destruct (p y) eqn:Hy; [intros [= <-]; exists y; split_and!; [done..|lia]|].
  destruct (js_find_index p l) as [k|] eqn:Hk; [|done]. intros [= <-].
  destruct (IH k eq_refl) as (x & Hx & Hp & Hmin).
  exists x. split_and!; [done..|]. intros [|j] z Hj Hz; simplify_eq/=; [done|].
  eapply Hmin; [|done]. lia.
Qed.

Lemma js_some_true l : js_some p l = true ↔ ∃ x, x ∈ l ∧ p x = true.
Proof.
  unfold js_some. rewrite existsb_exists. setoid_rewrite list_elem_of_In. done.
Qed.

Lemma js_every_true l : js_every p l = true ↔ ∀ x, x ∈ l → p x = true.
Proof.
  unfold js_every. rewrite forallb_forall. setoid_rewrite list_elem_of_In. done.
Qed.
End list_lemmas.

Lemma js_some_ext {A} (p q : A → bool) l : (∀ x, p x = q x) → js_some p l = js_some q l.
Proof. intros H. unfold js_some. induction l as [|x l IH]; simpl; [done|]. by rewrite H, IH. Qed.

Lemma js_includes_true {A} `{EqDecision A} (x : A) l :
  js_includes x l = true ↔ x ∈ l.
Proof. apply bool_decide_eq_true. Qed.

Lemma js_includes_false {A} `{EqDecision A} (x : A) l :
  js_includes x l = false ↔ x ∉ l.
Proof. apply bool_decide_eq_false. Qed.

(** *** Sorting *)
Lemma js_insert_perm {A} (cmp : A → A → Z) x l : js_insert cmp x l ≡ₚ x :: l.
Proof.
  induction l as [|y l IH]; simpl; [done|].
  destruct (_ <=? _); [done|]. rewrite IH. apply Permutation_swap.
Qed.

Lemma js_sort_perm {A} (cmp : A → A → Z) l : js_sort cmp l ≡ₚ l.
Proof. induction l as [|x l IH]; simpl; [done|]. by rewrite js_insert_perm, IH. Qed.

Lemma js_sort_elem {A} (cmp : A → A → Z) l x : x ∈ js_sort cmp l ↔ x ∈ l.
Proof. by rewrite js_sort_perm. Qed.

Lemma js_sort_length {A} (cmp : A → A → Z) l : length (js_sort cmp l) = length l.
Proof. by rewrite js_sort_perm. Qed.

Section sort_lemmas.
Context {A : Type} (cmp : A → A → Z).
Let le (x y : A) : Prop := cmp x y ≤ 0.
Hypothesis cmp_total : ∀ x y, 0 < cmp x y → cmp y x ≤ 0.
Hypothesis cmp_trans : ∀ x y z, cmp x y ≤ 0 → cmp y z ≤ 0 → cmp x z ≤ 0.

Lemma js_insert_sorted x l : StronglySorted le l → StronglySorted le (js_insert cmp x l).
Proof using All.
  induction 1 as [|y l Hl IH Hy]; simpl; [repeat constructor|].
  destruct (Z.leb_spec (cmp x y) 0).
  - constructor; [by constructor|]. constructor; [done|].
    eapply Forall_impl; [exact Hy|]. intros z Hz. unfold le in *. by eapply cmp_trans.
  - constructor; [done|]. rewrite js_insert_perm. constructor; [|done].
    unfold le. by apply cmp_total.
Qed.

Lemma js_sort_sorted l : StronglySorted le (js_sort cmp l).
Proof using All. induction l; simpl; [constructor|]. by apply js_insert_sorted. Qed.

(** Sorting a list that is sorted already changes nothing. *)
Lemma js_sort_id l : StronglySorted le l → js_sort cmp l = l.
Proof using Type.
  induction 1 as [|x l Hl IH Hx]; simpl; [done|]. rewrite IH.
  destruct l as [|y l']; simpl; [done|].
  apply Forall_cons in Hx as [Hxy _]. unfold le in Hxy.
  by destruct (Z.leb_spec (cmp x y) 0); [|lia].
Qed.
End sort_lemmas.

Lemma js_sort_desc_sorted {A} (key : A → Z) l :
  StronglySorted (λ x y, key y ≤ key x) (js_sort (by_desc key) l).
Proof.
  assert (H : StronglySorted (λ x y, by_desc key x y ≤ 0) (js_sort (by_desc key) l)).
  { apply js_sort_sorted; unfold by_desc; lia. }
  induction H as [|x l' _ IH Hx]; constructor; [done|].
  eapply Forall_impl; [exact Hx|]. unfold by_desc. simpl. lia.
Qed.

Lemma js_sort_asc_sorted {A} (key : A → Z) l :
  StronglySorted (λ x y, key x ≤ key y) (js_sort (by_asc key) l).
Proof.
  assert (H : StronglySorted (λ x y, by_asc key x y ≤ 0) (js_sort (by_asc key) l)).
  { apply js_sort_sorted; unfold by_asc; lia. }
  induction H as [|x l' _ IH Hx]; constructor; [done|].
  eapply Forall_impl; [exact Hx|]. unfold by_asc. simpl. lia.
Qed.

(** In a strongly sorted list, what [take] keeps is related to what it drops. *)
Lemma sorted_take_drop {A} (R : A → A → Prop) l n x y :
  StronglySorted R l → x ∈ take n l → y ∈ drop n l → R x y.
Proof.
  intros Hl. revert n. induction Hl as [|z l _ IH Hz]; intros n Hx Hy.
  - rewrite take_nil in Hx. set_solver.
  - destruct n as [|n]; simpl in *; [set_solver|].
    apply elem_of_cons in Hx as [->|Hx]; [|by eapply IH].
    rewrite Forall_forall in Hz. apply Hz.
    rewrite <-(take_drop n l). set_solver.
Qed.

(** *** Slices *)
Lemma js_slice_page {A} (off n : Z) (l : list A) :
  0 ≤ off → 0 ≤ n →
  js_slice off (off + n) l = take (Z.to_nat n) (drop (Z.to_nat off) l).
Proof.
  intros Ho Hn. unfold js_slice, js_clamp.
  destruct (Z.ltb_spec off 0); [lia|]. destruct (Z.ltb_spec (off + n) 0); [lia|].
  destruct (Z.le_gt_cases off (Z.of_nat (length l))).
  - rewrite (Z.min_l off) by lia.
    destruct (Z.le_gt_cases (off + n) (Z.of_nat (length l))).
    + rewrite Z.min_l by lia. f_equal. lia.
    + rewrite Z.min_r by lia. rewrite !take_ge; [done|rewrite length_drop; lia..].
  - rewrite !Z.min_r by lia. rewrite Z.sub_diag. simpl.
    rewrite (drop_ge l (Z.to_nat off)) by lia. by rewrite take_nil.
Qed.

(** [l.slice(n, l.length)] *)
Lemma js_slice_rest {A} (n : Z) (l : list A) :
  0 ≤ n → js_slice n (js_len l) l = drop (Z.to_nat n) l.
Proof.
  intros Hn. destruct (Z.le_gt_cases n (js_len l)) as [Hle|Hgt].
  - replace (js_len l) with (n + (js_len l - n)) at 1 by lia.
    rewrite js_slice_page by lia. apply take_ge. rewrite length_drop. unfold js_len. lia.
  - unfold js_slice, js_clamp, js_len in *.
    destruct (Z.ltb_spec n 0) as [?|_]; [lia|].
    destruct (Z.ltb_spec (Z.of_nat (length l)) 0) as [?|_]; [lia|].
    rewrite (Z.min_r n), Z.min_id, Z.sub_diag by lia. simpl. symmetry. apply drop_ge. lia.
Qed.

Lemma js_slice_prefix {A} (n : Z) (l : list A) :
  0 ≤ n → js_slice 0 (0 + n) l = take (Z.to_nat n) l.
Proof. intros Hn. rewrite js_slice_page by lia. simpl. by rewrite drop_0. Qed.

Lemma js_slice_sub {A} (a b : Z) (l : list A) x : x ∈ js_slice a b l → x ∈ l.
Proof.
  unfold js_slice. intros H%subseteq_take. by apply subseteq_drop in H.
Qed.

(** *** Maps *)
Section jsmap_lemmas.
Context {K : Type} `{EqDecision K} {V : Type}.
Implicit Types (m : list (K * V)) (k : K) (v : V).

Lemma jm_get_set_eq k v m : jm_get k (jm_set k v m) = Some v.
Proof.
  induction m as [|[k' v'] m IH]; csimpl; [by rewrite decide_True|].
  destruct (decide (k = k')); csimpl; [by rewrite decide_True|by rewrite decide_False].
Qed.

Lemma jm_get_set_ne k k' v m : k ≠ k' → jm_get k (jm_set k' v m) = jm_get k m.
Proof.
  intros Hne. induction m as [|[k0 v0] m IH]; csimpl; [by rewrite decide_False|].
  destruct (decide (k' = k0)) as [->|]; csimpl; [by rewrite !decide_False|].
  by destruct (decide (k = k0)).
Qed.

Lemma jm_get_set k k' v m :
  jm_get k (jm_set k' v m) = if decide (k = k') then Some v else jm_get k m.
Proof.
  destruct (decide (k = k')) as [->|]; [apply jm_get_set_eq|by apply jm_get_set_ne].
Qed.

Lemma jm_get_delete k k' m :
  jm_get k (jm_delete k' m) = if decide (k = k') then None else jm_get k m.
Proof.
  unfold jm_delete. induction m as [|[k0 v0] m IH]; csimpl; [by case_decide|].
  rewrite filter_cons; csimpl. destruct (decide (k0 ≠ k')) as [Hn|Hn].
  - csimpl. rewrite IH. repeat case_decide; congruence.
  - apply dec_stable in Hn. subst. rewrite IH. repeat case_decide; congruence.
Qed.

Lemma jm_get_None k m : jm_get k m = None ↔ k ∉ m.*1.
Proof.
  induction m as [|[k' v'] m IH]; csimpl; [set_solver|].
  rewrite not_elem_of_cons, <-IH. case_decide; naive_solver.
Qed.

Lemma jm_get_elem k v m : jm_get k m = Some v → (k, v) ∈ m.
Proof.
  induction m as [|[k' v'] m IH]; csimpl; [done|].
  case_decide; intros; simplify_eq; set_solver.
Qed.

Lemma jm_elem_get k v m : jm_wf m → (k, v) ∈ m → jm_get k m = Some v.
Proof.
  unfold jm_wf. induction m as [|[k' v'] m IH]; csimpl; [set_solver|].
  rewrite NoDup_cons, elem_of_cons. intros [Hk Hwf] [[= -> ->]|Hin].
  - by rewrite decide_True.
  - rewrite decide_False; [by apply IH|]. intros ->. apply Hk.
    apply list_elem_of_fmap. by exists (k', v).
Qed.

Lemma jm_values_elem v m : jm_wf m → v ∈ jm_values m ↔ ∃ k, jm_get k m = Some v.
Proof.
  intros Hwf. unfold jm_values. rewrite list_elem_of_fmap. split.
  - intros ([k v'] & -> & Hin). exists k. by apply jm_elem_get.
  - intros [k Hk]. exists (k, v). split; [done|by apply jm_get_elem].
Qed.

Lemma jm_values_get v m : v ∈ jm_values m → ∃ k, (k, v) ∈ m.
Proof.
  unfold jm_values. rewrite list_elem_of_fmap. intros ([k v'] & -> & Hin). by exists k.
Qed.

Lemma jm_set_keys_old k v m : k ∈ m.*1 → (jm_set k v m).*1 = m.*1.
Proof.
  induction m as [|[k' v'] m IH]; csimpl; [set_solver|].
  destruct (decide (k = k')) as [->|Hne]; csimpl; [done|].
  intros [?|Hin]%elem_of_cons; [done|]. by rewrite IH.
Qed.

Lemma jm_set_keys_new k v m : k ∉ m.*1 → (jm_set k v m).*1 = m.*1 ++ [k].
Proof.
  induction m as [|[k' v'] m IH]; csimpl; [done|].
  rewrite not_elem_of_cons. intros [Hne Hk]. rewrite decide_False by done.
  csimpl. by rewrite IH.
Qed.

Lemma jm_wf_nil : jm_wf (V:=V) ([] : list (K * V)).
Proof. constructor. Qed.

Lemma jm_wf_set k v m : jm_wf m → jm_wf (jm_set k v m).
Proof.
  unfold jm_wf. intros Hm. destruct (decide (k ∈ m.*1)) as [Hk|Hk].
  - by rewrite jm_set_keys_old.
  - rewrite jm_set_keys_new by done. apply NoDup_app.
    split_and!; [done| |apply NoDup_singleton]. by intros x Hx ->%list_elem_of_singleton.
Qed.

Lemma jm_wf_delete k m : jm_wf m → jm_wf (jm_delete k m).
Proof.
  unfold jm_wf, jm_delete. induction m as [|[k' v'] m IH]; csimpl; [done|].
  rewrite NoDup_cons, filter_cons; csimpl. intros [Hk Hm].
  case_decide; csimpl; [|by apply IH]. apply NoDup_cons; split; [|by apply IH].
  intros Hin. apply Hk. apply list_elem_of_fmap in Hin as ([k0 v0] & -> & Hin).
  apply list_elem_of_filter in Hin as [_ Hin]. apply list_elem_of_fmap. by exists (k0, v0).
Qed.

Lemma jm_has_spec k m : jm_has k m = true ↔ ∃ v, jm_get k m = Some v.
Proof. unfold jm_has. destruct (jm_get k m); naive_solver. Qed.

Lemma jm_has_false k m : jm_has k m = false ↔ jm_get k m = None.
Proof. unfold jm_has. destruct (jm_get k m); naive_solver. Qed.

(** Setting the same key twice keeps the last value, and sets on distinct keys
    leave the other lookups alone: two maps built by different orders of the
    same sets agree on every lookup. *)
Lemma jm_set_set k v w m : jm_set k w (jm_set k v m) = jm_set k w m.
Proof.
  induction m as [|[k' v'] m IH]; csimpl; [by rewrite decide_True|].
  destruct (decide (k = k')); csimpl; [by rewrite decide_True|by rewrite decide_False, IH].
Qed.

(** A spread object looks a key up in the overriding object first. *)
Lemma jm_get_spread k (base over : list (K * V)) :
  jm_wf over →
  jm_get k (js_spread base over)
  = match jm_get k over with Some v => Some v | None => jm_get k base end.
Proof.
  unfold js_spread, jm_wf. revert base.
  induction over as [|[k' v'] over IH]; intros base; csimpl; [done|].
  rewrite NoDup_cons. intros [Hk Hwf]. rewrite IH by done.
  destruct (decide (k = k')) as [->|Hne].
  - apply jm_get_None in Hk. by rewrite Hk, jm_get_set_eq.
  - destruct (jm_get k over); [done|]. by apply jm_get_set_ne.
Qed.

Lemma jm_values_set_fresh k v m : k ∉ m.*1 → jm_values (jm_set k v m) = jm_values m ++ [v].
Proof.
  unfold jm_values. induction m as [|[k' v'] m IH]; csimpl; [done|].
  rewrite not_elem_of_cons. intros [Hne Hk]. rewrite decide_False by done.
  csimpl. by rewrite IH.
Qed.

Lemma jm_get_deletes k ks m :
  jm_get k (jm_deletes ks m) = if decide (k ∈ ks) then None else jm_get k m.
Proof.
  unfold jm_deletes. revert m. induction ks as [|k' ks IH]; intros m; cbn [foldl].
  - rewrite decide_False; [done|set_solver].
  - rewrite IH, jm_get_delete. repeat case_decide; set_solver.
Qed.

Lemma jm_wf_deletes ks m : jm_wf m → jm_wf (jm_deletes ks m).
Proof.
  unfold jm_deletes. revert m. induction ks as [|k' ks IH]; intros m Hm; simpl; [done|].
  by apply IH, jm_wf_delete.
Qed.
End jsmap_lemmas.

(** *** Rows under their ids *)
Section row_lemmas.
Context {V : Type}.
Implicit Types (m : list (string * V)).

Lemma jm_set_elem (k : string) (v : V) m k' v' :
  (k', v') ∈ jm_set k v m → (k' = k ∧ v' = v) ∨ (k', v') ∈ m.
Proof.
  induction m as [|[k0 v0] m IH]; csimpl.
  - intros ?%list_elem_of_singleton. simplify_eq. by left.
  - case_decide; rewrite !elem_of_cons; naive_solver.
Qed.

Lemma js_filter_wf (p : string * V → bool) m : jm_wf m → jm_wf (js_filter p m).
Proof.
  unfold jm_wf. induction m as [|[k v] m IH]; csimpl; [done|].
  rewrite NoDup_cons. intros [Hk Hm]. destruct (p (k, v)); csimpl; [|by apply IH].
  apply NoDup_cons. split; [|by apply IH]. intros Hin. apply Hk.
  apply list_elem_of_fmap in Hin as (kv & -> & Hin).
  apply js_filter_elem in Hin as [_ Hin]. apply list_elem_of_fmap. by exists kv.
Qed.
End row_lemmas.

Section keyed_lemmas.
Context {V : Type} (id : V → string).
Implicit Types (m : list (string * V)).

Lemma keyed_nil : keyed id [].
Proof using All. split; [apply jm_wf_nil|]. set_solver. Qed.

Lemma keyed_set k v m : id v = k → keyed id m → keyed id (jm_set k v m).
Proof using All.
  intros Hk [Hwf Hid]. split; [by apply jm_wf_set|].
  intros k' v' [[-> ->]|Hin]%jm_set_elem; [done|by apply Hid].
Qed.

Lemma keyed_get k v m : keyed id m → jm_get k m = Some v → id v = k.
Proof using All. intros [_ Hid] Hg. apply Hid. by apply jm_get_elem. Qed.

Lemma keyed_filter p m : keyed id m → keyed id (js_filter p m).
Proof using All.
  intros [Hwf Hid]. split; [by apply js_filter_wf|].
  intros k v [_ Hin]%js_filter_elem. by apply Hid.
Qed.

Lemma keyed_delete k m : keyed id m → keyed id (jm_delete k m).
Proof using All.
  intros [Hwf Hid]. split; [by apply jm_wf_delete|].
  intros k' v [_ Hin]%list_elem_of_filter. by apply Hid.
Qed.
End keyed_lemmas.

Lemma keyed_deletes {V} (id : V → string) ks m : keyed id m → keyed id (jm_deletes ks m).
Proof.
  unfold jm_deletes. revert m. induction ks as [|k ks IH]; intros m Hm; simpl; [done|].
  by apply IH, keyed_delete.
Qed.

(** A row of a keyed map is found under its id, and conversely. *)
Lemma keyed_elem {V} (id : V → string) m v :
  keyed id m → v ∈ jm_values m ↔ jm_get (id v) m = Some v.
Proof.
  intros Hk. rewrite jm_values_elem by apply Hk. split; [|by exists (id v)].
  intros [k Hg]. by rewrite (keyed_get id k v m) by done.
Qed.

(** *** Sets and groups *)
Section set_lemmas.
Context {A : Type} `{EqDecision A}.
Implicit Types (l acc : list A) (x : A).

Lemma js_set_snoc l x :
  js_set (l ++ [x]) = if decide (x ∈ js_set l) then js_set l else js_set l ++ [x].
Proof. unfold js_set. by rewrite foldl_app. Qed.

Lemma js_set_elem x l : x ∈ js_set l ↔ x ∈ l.
Proof.
  induction l as [|y l IH] using rev_ind; [done|].
  rewrite js_set_snoc, elem_of_app, list_elem_of_singleton.
  case_decide as Hy; rewrite ?elem_of_app, ?list_elem_of_singleton, IH; [|done].
  split; [by left|]. intros [?| ->]; [done|by apply IH].
Qed.

Lemma js_set_NoDup l : NoDup (js_set l).
Proof.
  induction l as [|y l IH] using rev_ind; [constructor|].
  rewrite js_set_snoc. case_decide; [done|]. apply NoDup_app.
  split_and!; [done| |apply NoDup_singleton]. by intros z Hz ->%list_elem_of_singleton.
Qed.

(** More than one distinct element: two elements that differ. *)
Lemma js_set_two l : 1 < js_len (js_set l) ↔ ∃ x y, x ∈ l ∧ y ∈ l ∧ x ≠ y.
Proof.
  unfold js_len. split.
  - pose proof (js_set_NoDup l) as Hnd. destruct (js_set l) as [|x [|y k]] eqn:Hl; simpl; [lia|lia|].
    intros _. exists x, y. pose proof (js_set_elem x l) as Hex. pose proof (js_set_elem y l) as Hey.
    rewrite Hl in Hex, Hey.
    apply NoDup_cons in Hnd as [Hx _]. split_and!; [apply Hex; by left|apply Hey; right; by left|].
    intros ->. apply Hx. by left.
  - intros (x & y & Hx & Hy & Hne). apply js_set_elem in Hx, Hy.
    destruct (js_set l) as [|a [|b k]]; [by apply not_elem_of_nil in Hx| |simpl; lia].
    apply list_elem_of_singleton in Hx, Hy. congruence.
Qed.
End set_lemmas.

Section group_lemmas.
Context {A : Type} (key : A → string).
Implicit Types (l : list A) (m : list (string * list A)) (k : string).

Lemma js_group_snoc l x : js_group key (l ++ [x]) = group_step key (js_group key l) x.
Proof. unfold js_group. by rewrite foldl_app. Qed.

Lemma js_group_wf l : jm_wf (js_group key l).
Proof.
  induction l as [|x l IH] using rev_ind; [apply jm_wf_nil|].
  rewrite js_group_snoc. by apply jm_wf_set.
Qed.

(** A group holds the elements of its key, in order; only keys in use have one. *)
Lemma js_group_get k l :
  jm_get k (js_group key l)
  = match js_filter (λ x, bool_decide (key x = k)) l with [] => None | g => Some g end.
Proof.
  induction l as [|x l IH] using rev_ind; [done|].
  rewrite js_group_snoc, js_filter_app. unfold group_step. rewrite jm_get_set. csimpl.
  destruct (decide (k = key x)) as [->|Hne].
  - rewrite bool_decide_eq_true_2, IH by done. by destruct (js_filter _ l).
  - rewrite bool_decide_eq_false_2, app_nil_r by congruence. done.
Qed.

Lemma js_group_elem k g l :
  (k, g) ∈ js_group key l ↔ g = js_filter (λ x, bool_decide (key x = k)) l ∧ g ≠ [].
Proof.
  split.
  - intros Hin. apply jm_elem_get in Hin; [|apply js_group_wf]. rewrite js_group_get in Hin.
    destruct (js_filter _ l) as [|y l'] eqn:Hf; [done|]. by simplify_eq.
  - intros [-> Hg]. apply jm_get_elem. rewrite js_group_get. by destruct (js_filter _ l).
Qed.
End group_lemmas.

(** *** Automation *)
Create HintDb js discriminated.
Create Rewrite HintDb js_rw.
#[export] Hint Resolve jm_wf_nil jm_wf_set jm_wf_delete jm_wf_deletes : js.
#[export] Hint Resolve keyed_nil keyed_set keyed_filter keyed_delete keyed_deletes : js.
#[export] Hint Resolve preserves_ret preserves_throw preserves_gets preserves_modify
  preserves_bind preserves_try_catch preserves_for_each : js.
#[export] Hint Rewrite @jm_get_set_eq @jm_get_set @jm_get_delete @jm_set_set : js_rw.
#[export] Hint Rewrite @js_filter_elem @js_sort_elem : js_rw.

(** Split the boolean tests of the code into the propositions they decide. *)
Ltac js_bools :=
  repeat match goal with
  | H : _ && _ = true |- _ => apply andb_true_iff in H as [? ?]
  | H : _ || _ = false |- _ => apply orb_false_iff in H as [? ?]
  | H : negb _ = true |- _ => apply negb_true_iff in H
  | H : negb _ = false |- _ => apply negb_false_iff in H
  | H : bool_decide _ = true |- _ => apply bool_decide_eq_true in H
  | H : bool_decide _ = false |- _ => apply bool_decide_eq_false in H
  | H : (_ <=? _) = true |- _ => apply Z.leb_le in H
  | H : (_ <=? _) = false |- _ => apply Z.leb_gt in H
  | H : (_ <? _) = true |- _ => apply Z.ltb_lt in H
  | H : (_ <? _) = false |- _ => apply Z.ltb_ge in H
  | H : (_ =? _) = true |- _ => apply Z.eqb_eq in H
  | H : (_ =? _) = false |- _ => apply Z.eqb_neq in H
  | H : (_ >=? _) = true |- _ => rewrite Z.geb_leb in H
  | H : (_ >=? _) = false |- _ => rewrite Z.geb_leb in H
  | H : (_ >? _) = true |- _ => rewrite Z.gtb_ltb in H
  | H : (_ >? _) = false |- _ => rewrite Z.gtb_ltb in H
  end.

(** Case analysis on the scrutinee of the first match or conditional of the goal. *)
Ltac js_case :=
  match goal with
  | |- context [match ?x with _ => _ end] =>
      lazymatch x with
      | context [match _ with _ => _ end] => fail
      | _ => destruct x eqn:?
      end
  end; simplify_eq/=.
