(* ===== verification/Async.v ===== *)
(** * Asynchronous methods

    An [async] method runs without interruption up to an [await]; then other
    methods may run before it goes on.  A computation of [async S E A] is what
    remains of such a method: resumed in a shared state, it runs to its next
    [await] or to its end.  The file has the combinators in which the methods of
    the services are written, the scheduler that interleaves several of them, and
    two ways to reason about every interleaving: the whole method under the
    guarantee of each of its segments, and the simulation of a method by the
    steps of a protocol with a state of its own. *)
From S2P Require Export Prelude.
From stdpp Require Import options.

(** ** Definitions *)
#[warnings="-register-all"]
Inductive async (S E A : Type) : Type :=
  | Async (run : S → (outcome E A + async S E A) * S).
Arguments Async {S E A} run.

Definition resume {S E A} (m : async S E A) : S → (outcome E A + async S E A) * S :=
  match m with Async run => run end.

#[global] Instance async_ret {S E} : MRet (async S E) := λ A a, Async (λ s, (inl (Ok a), s)).

(** The end of [m] and the beginning of its continuation are one segment. *)
Fixpoint async_bind_ {S E A B} (k : A → async S E B) (m : async S E A) : async S E B :=
  Async (λ s,
    match m with
    | Async run =>
        match run s with
        | (inl (Ok a), s') => resume (k a) s'
        | (inl (Throw e), s') => (inl (Throw e), s')
        | (inr m', s') => (inr (async_bind_ k m'), s')
        end
    end).
#[global] Instance async_bind {S E} : MBind (async S E) := λ A B k m, async_bind_ k m.

(** Synchronous code. *)
Definition sync {S E A} (m : M S E A) : async S E A :=
  Async (λ s, let '(r, s') := m s in (inl r, s')).

Definition raise {S E A} (e : E) : async S E A := sync (throw e).

(** [await f()]: the body of [f] runs, then the method is suspended. *)
Definition await {S E A} (m : M S E A) : async S E A :=
  Async (λ s, let '(r, s') := m s in (inr (sync (λ s, (r, s))), s')).

(** [try { m } catch (e) { h e }] *)
Fixpoint async_catch {S E F A} (h : E → async S F A) (m : async S E A) : async S F A :=
  Async (λ s,
    match m with
    | Async run =>
        match run s with
        | (inl (Ok a), s') => (inl (Ok a), s')
        | (inl (Throw e), s') => resume (h e) s'
        | (inr m', s') => (inr (async_catch h m'), s')
        end
    end).

(** [for (const x of l) { await body x }] *)
Fixpoint async_each {S E A} (l : list A) (body : A → async S E unit) : async S E unit :=
  match l with
  | [] => mret tt
  | x :: l' => body x ≫= λ _, async_each l' body
  end.

(** The method alone, from its call to its end. *)
Fixpoint async_run {S E A} (m : async S E A) (s : S) : outcome E A * S :=
  match m with
  | Async run =>
      match run s with
      | (inl r, s') => (r, s')
      | (inr m', s') => async_run m' s'
      end
  end.

(** *** Several methods at once *)
Inductive thread (S E A : Type) : Type :=
  | Finished (r : outcome E A)
  | Running (m : async S E A).
Arguments Finished {S E A} r.
Arguments Running {S E A} m.

Definition thread_step {S E A} (t : thread S E A) (s : S) : thread S E A * S :=
  match t with
  | Finished _ => (t, s)
  | Running m =>
      match resume m s with
      | (inl r, s') => (Finished r, s')
      | (inr m', s') => (Running m', s')
      end
  end.

(** The methods that run, and the state they share. *)
Record pool {S E A : Type} := Pool {
  pl_threads : list (thread S E A);
  pl_state : S;
}.
Arguments pool : clear implicits.
Arguments Pool {S E A} _ _.

(** One move of the world: a method is called, a method goes on, or something
    outside the methods changes the state (time passes). *)
Inductive move (S E A : Type) : Type :=
  | Call (m : async S E A)
  | Continue (i : nat)
  | Outside (f : S → S).
Arguments Call {S E A} m.
Arguments Continue {S E A} i.
Arguments Outside {S E A} f.

Definition pool_step {S E A} (p : pool S E A) (v : move S E A) : pool S E A :=
  match v with
  | Call m =>
      let '(t, s) := thread_step (Running m) (pl_state p) in Pool (pl_threads p ++ [t]) s
  | Continue i =>
      match pl_threads p !! i with
      | None => p
      | Some t =>
          let '(t, s) := thread_step t (pl_state p) in Pool (<[i := t]> (pl_threads p)) s
      end
  | Outside f => Pool (pl_threads p) (f (pl_state p))
  end.

Definition pool_run {S E A} (vs : list (move S E A)) (s : S) : pool S E A :=
  foldl pool_step (Pool [] s) vs.

Definition is_finished {S E A} (t : thread S E A) : bool :=
  match t with Finished _ => true | Running _ => false end.

(** ** Specification *)

(** Every segment of the method, from every state, stays within [G]. *)
Fixpoint guarantees {S E A} (G : S → S → Prop) (m : async S E A) : Prop :=
  match m with
  | Async run =>
      ∀ s, match run s with
           | (inl _, s') => G s s'
           | (inr m', s') => G s s' ∧ guarantees G m'
           end
  end.

(** The method with ghost state [t] simulates the steps [R] of a protocol, and
    ends with [Q].  [R t s t' s'] is a segment from [s] to [s'] that takes the
    ghost state from [t] to [t']; it is only asked of the states [s] in which
    [P t s] holds. *)
Section simulates.
Context {T S E A : Type} (P : T → S → Prop) (R : T → S → T → S → Prop)
  (Q : outcome E A → T → Prop).

Fixpoint simulates (t : T) (m : async S E A) : Prop :=
  match m with
  | Async run =>
      ∀ s, P t s →
        match run s with
        | (inl r, s') => ∃ t', R t s t' s' ∧ Q r t'
        | (inr m', s') => ∃ t', R t s t' s' ∧ simulates t' m'
        end
  end.
End simulates.

(** ** Lemmas *)
Lemma async_rect_ {S E A} (Φ : async S E A → Prop) :
  (∀ run, (∀ s m' s', run s = (inr m', s') → Φ m') → Φ (Async run)) → ∀ m, Φ m.
Proof.
  intros Hstep. fix IH 1. intros [run]. apply Hstep. intros s m' s'.
  destruct (run s) as [[r|m''] s'']; [discriminate|]. pose proof (IH m'') as Hm. by intros [= <- _].
Qed.

Section guarantees.
Context {S E : Type} (G : S → S → Prop) `{!PreOrder G}.

Lemma guarantees_sync {A} (m : M S E A) : (∀ s, G s (m s).2) → guarantees G (sync m).
Proof using Type. intros H s. specialize (H s). by destruct (m s). Qed.

Lemma guarantees_ret {A} (a : A) : guarantees (E:=E) G (mret a).
Proof using All. intros s. by cbn. Qed.

(** A return and what follows it are one. *)
Lemma guarantees_ret_bind {A B} (a : A) (k : A → async S E B) :
  guarantees G (k a) → guarantees G (mret a ≫= k).
Proof using Type. intros Hk s. cbn. destruct (k a) as [run]. exact (Hk s). Qed.

Lemma guarantees_raise {A} (e : E) : guarantees (A:=A) G (raise e).
Proof using All. intros s. by cbn. Qed.

Lemma guarantees_await {A} (m : M S E A) : (∀ s, G s (m s).2) → guarantees G (await m).
Proof using All.
  intros H s. specialize (H s). destruct (m s) as [r s']. cbn in *. by split.
Qed.

Lemma guarantees_bind {A B} (m : async S E A) (k : A → async S E B) :
  guarantees G m → (∀ a, guarantees G (k a)) → guarantees G (m ≫= k).
Proof using All.
  intros Hm Hk. induction m as [run IH] using async_rect_. intros s. cbn in Hm.
  specialize (Hm s). specialize (IH s). destruct (run s) as [[[a|e]|m'] s'].
  - specialize (Hk a). destruct (k a) as [run']. specialize (Hk s'). cbn.
    destruct (run' s') as [[r|m'] s''].
    + by etrans.
    + destruct Hk. split; [by etrans|done].
  - done.
  - destruct Hm as [HG Hm]. split; [done|]. by apply IH with (s' := s').
Qed.

Lemma guarantees_catch {F A} (h : F → async S E A) (m : async S F A) :
  guarantees G m → (∀ e, guarantees G (h e)) → guarantees G (async_catch h m).
Proof using All.
  intros Hm Hh. induction m as [run IH] using async_rect_. intros s. cbn in Hm.
  specialize (Hm s). specialize (IH s). destruct (run s) as [[[a|e]|m'] s'].
  - done.
  - specialize (Hh e). destruct (h e) as [run']. specialize (Hh s'). cbn.
    destruct (run' s') as [[r|m'] s''].
    + by etrans.
    + destruct Hh. split; [by etrans|done].
  - destruct Hm as [HG Hm]. split; [done|]. by apply IH with (s' := s').
Qed.

Lemma guarantees_each {A} (l : list A) (body : A → async S E unit) :
  (∀ x, guarantees G (body x)) → guarantees G (async_each l body).
Proof using All.
  intros Hb. induction l as [|x l IH]; cbn [async_each]; [apply guarantees_ret|].
  by apply guarantees_bind.
Qed.

Lemma guarantees_run {A} (m : async S E A) s : guarantees G m → G s (async_run m s).2.
Proof using All.
  revert s. induction m as [run IH] using async_rect_. intros s Hm. cbn in *.
  specialize (Hm s). specialize (IH s). destruct (run s) as [[r|m'] s']; [done|].
  destruct Hm as [HG Hm]. etrans; [exact HG|]. by eapply IH.
Qed.
End guarantees.

Section simulates_lemmas.
Context {T S E : Type} (P : T → S → Prop) (R : T → S → T → S → Prop).

(** A weaker postcondition. *)
Lemma simulates_mono {A} (Q Q' : outcome E A → T → Prop) t (m : async S E A) :
  (∀ r t, Q r t → Q' r t) → simulates P R Q t m → simulates P R Q' t m.
Proof using Type.
  intros HQ. revert t. induction m as [run IH] using async_rect_. intros t Hm s Ht. cbn in Hm.
  specialize (Hm s Ht). specialize (IH s). destruct (run s) as [[r|m'] s'].
  - destruct Hm as (t' & ? & ?). eauto.
  - destruct Hm as (t' & ? & ?). exists t'. split; [done|]. by eapply IH.
Qed.

Lemma simulates_sync {A} Q t (m : M S E A) :
  (∀ s, P t s → ∃ t', R t s t' (m s).2 ∧ Q (m s).1 t') → simulates P R Q t (sync m).
Proof using Type. intros H s Ht. specialize (H s Ht). by destruct (m s). Qed.

Lemma simulates_ret_bind {A B} Q t (a : A) (k : A → async S E B) :
  simulates P R Q t (k a) → simulates P R Q t (mret a ≫= k).
Proof using Type. intros Hk s Hs. cbn. destruct (k a) as [run]. exact (Hk s Hs). Qed.

Lemma simulates_await {A} Q t (m : M S E A) :
  (∀ s, P t s → ∃ t', R t s t' (m s).2
          ∧ ∀ s', P t' s' → ∃ t'', R t' s' t'' s' ∧ Q (m s).1 t'') →
  simulates P R Q t (await m).
Proof using Type.
  intros H s Ht. specialize (H s Ht). destruct (m s) as [r s']. cbn in *.
  destruct H as (t' & HR & HQ). exists t'. split; [done|]. intros s'' Ht'. by apply HQ.
Qed.

(** The protocol's steps compose within a segment: what a method does after its
    last [await] and what its caller does next are one step. *)
Context (R_trans : ∀ t s t' s' t'' s'', P t s → R t s t' s' → R t' s' t'' s'' → R t s t'' s'').
Context (R_keeps : ∀ t s t' s', P t s → R t s t' s' → P t' s').

Lemma simulates_bind {A B} (Q : outcome E A → T → Prop) (Q' : outcome E B → T → Prop) t
    (m : async S E A) (k : A → async S E B) :
  simulates P R Q t m →
  (∀ a t, Q (Ok a) t → simulates P R Q' t (k a)) →
  (∀ e t, Q (Throw e) t → Q' (Throw e) t) →
  simulates P R Q' t (m ≫= k).
Proof using R_trans R_keeps.
  intros Hm Hk He. revert t Hm. induction m as [run IH] using async_rect_.
  intros t Hm s Ht. cbn in Hm. specialize (Hm s Ht). specialize (IH s).
  destruct (run s) as [[[a|e]|m'] s'].
  - destruct Hm as (t' & HR & HQ). specialize (Hk a t' HQ). destruct (k a) as [run'].
    specialize (Hk s' (R_keeps _ _ _ _ Ht HR)). cbn.
    destruct (run' s') as [[r|m'] s'']; destruct Hk as (t'' & HR' & ?); exists t''; eauto.
  - destruct Hm as (t' & HR & HQ). exists t'. eauto.
  - destruct Hm as (t' & HR & HQ). exists t'. split; [done|]. by eapply IH.
Qed.

Lemma simulates_catch {F A} (Q : outcome F A → T → Prop) (Q' : outcome E A → T → Prop) t
    (m : async S F A) (h : F → async S E A) :
  simulates P R Q t m →
  (∀ a t, Q (Ok a) t → Q' (Ok a) t) →
  (∀ e t, Q (Throw e) t → simulates P R Q' t (h e)) →
  simulates P R Q' t (async_catch h m).
Proof using R_trans R_keeps.
  intros Hm Hk He. revert t Hm. induction m as [run IH] using async_rect_.
  intros t Hm s Ht. cbn in Hm. specialize (Hm s Ht). specialize (IH s).
  destruct (run s) as [[[a|e]|m'] s'].
  - destruct Hm as (t' & HR & HQ). exists t'. eauto.
  - destruct Hm as (t' & HR & HQ). specialize (He e t' HQ). destruct (h e) as [run'].
    specialize (He s' (R_keeps _ _ _ _ Ht HR)). cbn.
    destruct (run' s') as [[r|m'] s'']; destruct He as (t'' & HR' & ?); exists t''; eauto.
  - destruct Hm as (t' & HR & HQ). exists t'. split; [done|]. by eapply IH.
Qed.
End simulates_lemmas.

Section pool.
Context {T S E A : Type} (P : T → S → Prop) (R : T → S → T → S → Prop)
  (Q : outcome E A → T → Prop) (start : T) (Inv : list T → S → Prop).

Definition thread_simulates (t : T) (th : thread S E A) : Prop :=
  match th with Finished r => Q r t | Running m => simulates P R Q t m end.

Context (Inv_P : ∀ ts s i t, Inv ts s → ts !! i = Some t → P t s).
Context (Inv_R : ∀ ts s i t t' s',
  Inv ts s → ts !! i = Some t → R t s t' s' → Inv (<[i := t']> ts) s').
Context (Inv_call : ∀ ts s, Inv ts s → Inv (ts ++ [start]) s).

(** A protocol's invariant holds in every interleaving of methods that simulate
    the protocol. *)
Lemma simulates_pool_from (vs : list (move S E A)) ts p :
  Inv ts (pl_state p) →
  Forall2 thread_simulates ts (pl_threads p) →
  (∀ m, Call m ∈ vs → simulates P R Q start m) →
  (∀ f, Outside f ∈ vs → ∀ ts s, Inv ts s → Inv ts (f s)) →
  ∃ ts', Inv ts' (pl_state (foldl pool_step p vs))
         ∧ Forall2 thread_simulates ts' (pl_threads (foldl pool_step p vs)).
Proof using Inv_P Inv_R Inv_call.
  intros HI Hts Hcall Hout.
  assert (H : ∃ ts, Inv ts (pl_state p) ∧ Forall2 thread_simulates ts (pl_threads p)).
  { by exists ts. }
  clear HI Hts ts. revert p H.
  induction vs as [|v vs IH]; intros p (ts & HI & Hts); [by exists ts|].
  cbn [foldl]. apply IH; [set_solver|set_solver|].
  destruct v as [m|i|f]; cbn.
  - assert (Hm : simulates P R Q start m) by (apply Hcall; set_solver).
    apply Inv_call in HI. assert (Hi : (ts ++ [start]) !! length ts = Some start).
    { by apply list_lookup_middle. }
    destruct m as [run]. cbn in *.
    specialize (Hm _ (Inv_P _ _ _ _ HI Hi)). destruct (run (pl_state p)) as [[r|m'] s'];
      destruct Hm as (t' & HR & Hm); exists (<[length ts := t']> (ts ++ [start]));
      (split; [by eapply Inv_R|]); cbn;
      rewrite insert_app_r_alt, Nat.sub_diag by done; by apply Forall2_app; repeat constructor.
  - destruct (pl_threads p !! i) as [th|] eqn:Hi; [|by exists ts].
    destruct (Forall2_lookup_r _ _ _ _ _ Hts Hi) as (t & Hti & Ht).
    destruct th as [r|[run]]; cbn in *.
    + exists ts. rewrite list_insert_id by done. by split.
    + specialize (Ht _ (Inv_P _ _ _ _ HI Hti)). destruct (run (pl_state p)) as [[r|m'] s'];
        destruct Ht as (t' & HR & Ht); exists (<[i := t']> ts);
        (split; [by eapply Inv_R|]); cbn; by apply Forall2_insert.
  - exists ts. split; [|done]. apply Hout; [set_solver|done].
Qed.

Lemma simulates_pool (vs : list (move S E A)) s :
  Inv [] s →
  (∀ m, Call m ∈ vs → simulates P R Q start m) →
  (∀ f, Outside f ∈ vs → ∀ ts s, Inv ts s → Inv ts (f s)) →
  ∃ ts, Inv ts (pl_state (pool_run vs s))
        ∧ Forall2 thread_simulates ts (pl_threads (pool_run vs s)).
Proof using Inv_P Inv_R Inv_call.
  intros Hs. by apply simulates_pool_from with (ts := []) (p := Pool [] s).
Qed.
End pool.

Lemma all_finished {S E A} (ths : list (thread S E A)) :
  js_every is_finished ths = true → ∀ th, th ∈ ths → ∃ r, th = Finished r.
Proof.
  intros H th Hth. rewrite js_every_true in H. specialize (H th Hth). destruct th; [by eexists|done].
Qed.

(** A guarantee is the protocol with no ghost state. *)
Lemma guarantees_simulates {S E A} (G : S → S → Prop) (m : async S E A) :
  guarantees G m →
  simulates (λ _ _, True) (λ _ s _ s', G s s') (λ _ _, True) tt m.
Proof.
  induction m as [run IH] using async_rect_. intros Hm s _. cbn in Hm. specialize (Hm s).
  specialize (IH s). destruct (run s) as [[r|m'] s']; [by exists tt|].
  destruct Hm. exists tt. split; [done|]. by eapply IH.
Qed.

(** Every interleaving of methods that guarantee [G] stays within [G], from any of
    its states to any later one. *)
Section guarantees_pool.
Context {S E A : Type} (G : S → S → Prop) `{!PreOrder G}.
Implicit Types (p : pool S E A) (vs : list (move S E A)).

Definition pool_ok p : Prop := ∀ m, Running m ∈ pl_threads p → guarantees G m.

Lemma guarantees_pool_from vs p :
  pool_ok p →
  (∀ m, Call m ∈ vs → guarantees G m) →
  (∀ f, Outside f ∈ vs → ∀ s, G s (f s)) →
  G (pl_state p) (pl_state (foldl pool_step p vs)).
Proof using All.
  intros Hp Hcall Hout.
  destruct (simulates_pool_from (T:=unit) (λ _ _, True) (λ _ s _ s', G s s') (λ _ _, True) tt
    (λ _ s', G (pl_state p) s') ltac:(done) ltac:(cbv beta; intros; by etrans) ltac:(done)
    vs (replicate (length (pl_threads p)) tt) p) as (ts & HG & _); [done| | | |done].
  - clear Hcall Hout. unfold pool_ok in Hp. induction (pl_threads p) as [|[r|m] ths IH]; cbn;
      constructor; cbn; try done; [apply IH; set_solver| |apply IH; set_solver].
    apply guarantees_simulates, Hp. set_solver.
  - intros m Hm. by apply guarantees_simulates, Hcall.
  - intros f Hf _ s' Hs'. etrans; [exact Hs'|]. by apply Hout.
Qed.

Lemma guarantees_step p v :
  (∀ m, v = Call m → guarantees G m) → pool_ok p → pool_ok (pool_step p v).
Proof using All.
  intros Hv Hp.
  assert (Hth : ∀ (m : async S E A) s m' s', guarantees G m → thread_step (Running m) s = (Running m', s') →
                guarantees G m').
  { intros [run] s m' s' Hm. cbn. specialize (Hm s). destruct (run s) as [[r|m''] s''];
      intros; simplify_eq. by destruct Hm. }
  destruct v as [m|i|f]; cbn -[thread_step].
  - destruct (thread_step (Running m) (pl_state p)) as [t s'] eqn:Et.
    intros m' [Hm'|Hm']%elem_of_app; cbn in *; [by apply Hp|].
    apply list_elem_of_singleton in Hm' as <-. eapply Hth; [by apply Hv|exact Et].
  - destruct (pl_threads p !! i) as [t|] eqn:Hi; [|done].
    destruct (thread_step t (pl_state p)) as [t' s'] eqn:Et.
    intros m' Hm'. cbn in Hm'. apply list_elem_of_lookup in Hm' as [j Hj].
    destruct (decide (i = j)) as [<-|Hne].
    + rewrite list_lookup_insert_eq in Hj by (by eapply lookup_lt_Some). simplify_eq.
      destruct t as [r|m]; [done|]. eapply Hth; [|exact Et].
      apply Hp. by eapply list_elem_of_lookup_2.
    + rewrite list_lookup_insert_ne in Hj by done. apply Hp. by eapply list_elem_of_lookup_2.
  - exact Hp.
Qed.

Lemma guarantees_run_ok vs s :
  (∀ m, Call m ∈ vs → guarantees G m) → pool_ok (pool_run vs s).
Proof using All.
  intros Hcall. unfold pool_run.
  assert (H : pool_ok (Pool [] s)) by (intros m Hm; cbn in Hm; set_solver).
  revert H. generalize (Pool (E:=E) (A:=A) [] s).
  induction vs as [|v vs IH]; intros p Hp; [done|]. cbn [foldl]. apply IH; [set_solver|].
  apply guarantees_step; [|done]. intros m ->. apply Hcall. set_solver.
Qed.

Lemma guarantees_pool vs s :
  (∀ m, Call m ∈ vs → guarantees G m) →
  (∀ f, Outside f ∈ vs → ∀ s, G s (f s)) →
  G s (pl_state (pool_run vs s)).
Proof using All.
  intros Hcall Hout. apply (guarantees_pool_from vs (Pool [] s)); [|done..].
  intros m Hm. cbn in Hm. set_solver.
Qed.

Lemma guarantees_pool_later vs vs' s :
  (∀ m, Call m ∈ vs ++ vs' → guarantees G m) →
  (∀ f, Outside f ∈ vs ++ vs' → ∀ s, G s (f s)) →
  G (pl_state (pool_run vs s)) (pl_state (pool_run (vs ++ vs') s)).
Proof using All.
  intros Hcall Hout. unfold pool_run at 2. rewrite foldl_app.
  apply (guarantees_pool_from vs'); [|set_solver..].
  apply guarantees_run_ok. set_solver.
Qed.
End guarantees_pool.

(** *** A method on its own *)
Section run.
Context {S E : Type}.
Implicit Types (s : S).

Lemma run_step {A} (m : async S E A) s :
  async_run m s = match resume m s with
                  | (inl r, s') => (r, s')
                  | (inr m', s') => async_run m' s'
                  end.
Proof using Type. by destruct m. Qed.

Lemma run_ret {A} (a : A) s : async_run (mret a : async S E A) s = (Ok a, s).
Proof using Type. done. Qed.

Lemma run_raise {A} (e : E) s : async_run (raise e : async S E A) s = (Throw e, s).
Proof using Type. done. Qed.

Lemma run_sync {A} (m : M S E A) s : async_run (sync m) s = m s.
Proof using Type. cbn. by destruct (m s). Qed.

Lemma run_await {A} (m : M S E A) s : async_run (await m) s = m s.
Proof using Type. cbn. by destruct (m s). Qed.

Lemma run_bind {A B} (m : async S E A) (k : A → async S E B) s :
  async_run (m ≫= k) s = match async_run m s with
                         | (Ok a, s') => async_run (k a) s'
                         | (Throw e, s') => (Throw e, s')
                         end.
Proof using Type.
  revert s. induction m as [run IH] using async_rect_. intros s. specialize (IH s).
  rewrite (run_step (Async run ≫= k)). cbn. destruct (run s) as [[[a|e]|m'] s']; [|done|].
  - by rewrite run_step.
  - by apply IH with (s' := s').
Qed.

Lemma run_catch {F A} (h : F → async S E A) (m : async S F A) s :
  async_run (async_catch h m) s = match async_run m s with
                                  | (Ok a, s') => (Ok a, s')
                                  | (Throw e, s') => async_run (h e) s'
                                  end.
Proof using Type.
  revert s. induction m as [run IH] using async_rect_. intros s. specialize (IH s).
  rewrite (run_step (async_catch h (Async run))). cbn.
  destruct (run s) as [[[a|e]|m'] s']; [done| |].
  - by rewrite run_step.
  - by apply IH with (s' := s').
Qed.
End run.

Create Rewrite HintDb js_run.
#[export] Hint Rewrite @run_ret @run_raise @run_sync @run_await @run_bind @run_catch : js_run.

#[export] Hint Resolve guarantees_ret guarantees_raise guarantees_bind guarantees_catch
  guarantees_each : js.
