(* ===== verification/Hoare.v ===== *)
(** * A program logic for the effect monad

    [wp m Q R s]: run from [s], the computation [m] ends with a result and a state in [Q] or
    throws an error and leaves a state in [R].  The rules follow the structure of a program, so a
    proof about a handler is read off its text. *)
From S2P Require Export Prelude.
From stdpp Require Import options.

(** ** Definitions *)
Definition wp {S E A} (m : M S E A) (Q : A → S → Prop) (R : E → S → Prop) (s : S) : Prop :=
  match m s with
  | (Ok a, s') => Q a s'
  | (Throw e, s') => R e s'
  end.

(** ** Lemmas *)
Section rules.
Context {S E : Type}.
Implicit Types (s : S) (R : E → S → Prop).

Lemma wp_ret {A} (a : A) Q R s : Q a s → wp (mret a) Q R s.
Proof. done. Qed.
Lemma wp_throw {A} (e : E) (Q : A → S → Prop) R s : R e s → wp (throw e) Q R s.
Proof. done. Qed.
Lemma wp_bind {A B} (m : M S E A) (k : A → M S E B) Q R s :
  wp m (λ a, wp (k a) Q R) R s → wp (m ≫= k) Q R s.
Proof. unfold wp, mbind, M_bind. by destruct (m s) as [[a|e] s']. Qed.
Lemma wp_catch {F A} (m : M S E A) (h : E → M S F A) Q (R : F → S → Prop) s :
  wp m Q (λ e, wp (h e) Q R) s → wp (try_catch m h) Q R s.
Proof. unfold wp, try_catch. by destruct (m s) as [[a|e] s']. Qed.
Lemma wp_mono {A} (m : M S E A) (Q Q' : A → S → Prop) (R R' : E → S → Prop) s :
  wp m Q R s → (∀ a s', Q a s' → Q' a s') → (∀ e s', R e s' → R' e s') → wp m Q' R' s.
Proof. unfold wp. destruct (m s) as [[a|e] s']; auto. Qed.
Lemma wp_and {A} (m : M S E A) (Q Q' : A → S → Prop) (R R' : E → S → Prop) s :
  wp m Q R s → wp m Q' R' s → wp m (λ a s', Q a s' ∧ Q' a s') (λ e s', R e s' ∧ R' e s') s.
Proof. unfold wp. destruct (m s) as [[a|e] s']; auto. Qed.

Lemma wp_gets {A} (f : S → A) Q R s : Q (f s) s → wp (gets f) Q R s.
Proof. done. Qed.
Lemma wp_get_state (Q : S → S → Prop) R s : Q s s → wp get_state Q R s.
Proof. done. Qed.
Lemma wp_put_state s' (Q : unit → S → Prop) R s : Q tt s' → wp (put_state s') Q R s.
Proof. done. Qed.
Lemma wp_modify f (Q : unit → S → Prop) R s : Q tt (f s) → wp (modify f) Q R s.
Proof. done. Qed.

(** What a proof about [wp] says of the outcome of a run *)
Lemma wp_run {A} (m : M S E A) Q R s r s' :
  wp m Q R s → m s = (r, s') → match r with Ok a => Q a s' | Throw e => R e s' end.
Proof. unfold wp. intros H Hm. rewrite Hm in H. by destruct r. Qed.

(** An invariant of the steps of a loop over a list *)
Lemma wp_for_each {A} (body : A → M S E unit) (I : list A → S → Prop) R l s :
  I l s → (∀ x k s', I (x :: k) s' → wp (body x) (λ _, I k) R s') →
  wp (for_each l body) (λ _, I []) R s.
Proof.
  intros HI Hb. revert s HI. induction l as [|x l IH]; intros s HI; [done|].
  apply wp_bind. eapply wp_mono; [by apply Hb| |done]. intros [] s' HI'. by apply IH.
Qed.
End rules.
