(* ===== verification/JsString.v ===== *)
(** * Strings as the TypeScript code uses them

    A string is the byte sequence of its UTF-8 encoding.  Byte lengths
    ([Buffer.byteLength]) are then plain lengths, [js_length] counts UTF-16 code
    units, and [\s] recognises every white space character of the language.  Case
    mapping changes ASCII letters only: every literal the code compares an upper-
    or lower-cased text with is ASCII. *)
From S2P Require Export Prelude.
From stdpp Require Import options.

(** ** Definitions *)
Definition code (c : ascii) : N := N_of_ascii c.
Definition in_range (lo hi : N) (c : ascii) : bool :=
  ((lo <=? code c) && (code c <=? hi))%N.

Definition quote_char : ascii := "034".
Definition backslash : ascii := "\".
Definition newline : ascii := "010".

Definition is_digit : ascii → bool := in_range 48 57.

Definition upper_char (c : ascii) : ascii :=
  if in_range 97 122 c then ascii_of_N (code c - 32) else c.
Definition lower_char (c : ascii) : ascii :=
  if in_range 65 90 c then ascii_of_N (code c + 32) else c.

Fixpoint str_map (f : ascii → ascii) (s : string) : string :=
  match s with
  | EmptyString => EmptyString
  | String c s' => String (f c) (str_map f s')
  end.

(** [s.toUpperCase()], [s.toLowerCase()] *)
Definition to_upper : string → string := str_map upper_char.
Definition to_lower : string → string := str_map lower_char.

(** [s.replace(/[...]/g, ...)] with one-character patterns *)
Fixpoint str_flat_map (f : ascii → string) (s : string) : string :=
  match s with
  | EmptyString => EmptyString
  | String c s' => f c +:+ str_flat_map f s'
  end.

Fixpoint str_forall (p : ascii → bool) (s : string) : bool :=
  match s with
  | EmptyString => true
  | String c s' => p c && str_forall p s'
  end.

Definition str_eqb (s t : string) : bool := bool_decide (s = t).
Definition is_empty (s : string) : bool :=
  match s with EmptyString => true | _ => false end.

(** [s.startsWith(p)], [s.endsWith(p)], [s.includes(p)] *)
Fixpoint starts_with (p s : string) : bool :=
  match p, s with
  | EmptyString, _ => true
  | String a p', String b s' => if ascii_dec a b then starts_with p' s' else false
  | _, EmptyString => false
  end.

Fixpoint includes (p s : string) : bool :=
  starts_with p s ||
  match s with EmptyString => false | String _ s' => includes p s' end.

Fixpoint ends_with (p s : string) : bool :=
  str_eqb p s ||
  match s with EmptyString => false | String _ s' => ends_with p s' end.

(** [l.join(sep)] *)
Fixpoint join (sep : string) (l : list string) : string :=
  match l with
  | [] => EmptyString
  | [s] => s
  | s :: l' => s +:+ sep +:+ join sep l'
  end.

(** [s.split(c)] for a one-character separator *)
Fixpoint split_char (c : ascii) (s : string) : list string :=
  match s with
  | EmptyString => [EmptyString]
  | String a s' =>
      if ascii_dec a c then EmptyString :: split_char c s'
      else match split_char c s' with
           | [] => [String a EmptyString]
           | w :: ws => String a w :: ws
           end
  end.

(** The UTF-16 code units of a string, the elements [s[i]] and a regular
    expression dot range over. *)
Fixpoint utf16 (s : string) : list N :=
  match s with
  | EmptyString => []
  | String a s1 =>
      let x := code a in
      if (x <? 192)%N then x :: utf16 s1
      else match s1 with
      | EmptyString => [x]
      | String b s2 =>
          let y := (code b `mod` 64)%N in
          if (x <? 224)%N then ((x `mod` 32) * 64 + y)%N :: utf16 s2
          else match s2 with
          | EmptyString => [x; y]
          | String c s3 =>
              let z := (code c `mod` 64)%N in
              if (x <? 240)%N then ((x `mod` 16) * 4096 + y * 64 + z)%N :: utf16 s3
              else match s3 with
              | EmptyString => [x; y; z]
              | String d s4 =>
                  let p := ((x `mod` 8) * 262144 + y * 4096 + z * 64
                            + code d `mod` 64 - 65536)%N in
                  (55296 + p `div` 1024)%N :: (56320 + p `mod` 1024)%N :: utf16 s4
              end
          end
      end
  end.

(** The order of [Array.prototype.sort] on strings: by UTF-16 code units. *)
Fixpoint units_cmp (a b : list N) : Z :=
  match a, b with
  | [], [] => 0
  | [], _ :: _ => -1
  | _ :: _, [] => 1
  | x :: a, y :: b => if (x <? y)%N then -1 else if (y <? x)%N then 1 else units_cmp a b
  end.
Definition sort_strings : list string → list string :=
  js_sort (λ s t, units_cmp (utf16 s) (utf16 t)).
(** [s < t] *)
Definition str_ltb (s t : string) : bool := units_cmp (utf16 s) (utf16 t) <? 0.

(** The three-byte form of a code unit, for a surrogate on its own. *)
Definition lone_unit (u : N) : string :=
  String (ascii_of_N (224 + u `div` 4096))
    (String (ascii_of_N (128 + (u `div` 64) `mod` 64))
       (String (ascii_of_N (128 + u `mod` 64)) EmptyString)).

(** [s.substring(0, n)]: the first [n] code units *)
Fixpoint utf16_take (n : nat) (s : string) {struct s} : string :=
  match n, s with
  | O, _ => EmptyString
  | _, EmptyString => EmptyString
  | S n', String a s1 =>
      let x := code a in
      if (x <? 192)%N then String a (utf16_take n' s1)
      else match s1 with
      | EmptyString => s
      | String b s2 =>
          if (x <? 224)%N then String a (String b (utf16_take n' s2))
          else match s2 with
          | EmptyString => if n' is O then String a EmptyString else s
          | String c s3 =>
              if (x <? 240)%N then String a (String b (String c (utf16_take n' s3)))
              else match s3 with
              | EmptyString => match n' with
                               | O => String a EmptyString
                               | S O => String a (String b EmptyString)
                               | _ => s
                               end
              | String d s4 =>
                  match n' with
                  | O => lone_unit (nth 0 (utf16 s) 0)%N
                  | S n'' => String a (String b (String c (String d (utf16_take n'' s4))))
                  end
              end
          end
      end
  end.

(** [s.length] *)
Definition js_length (s : string) : Z := Z.of_nat (length (utf16 s)).

(** [Buffer.byteLength(s, 'utf-8')] *)
Definition byte_length (s : string) : Z := Z.of_nat (String.length s).

(** The length in bytes of the [\s] character at the head of a string, [0] when
    the head is not white space. *)
Definition ws_len (s : string) : nat :=
  match s with
  | EmptyString => 0
  | String a s1 =>
      if in_range 9 13 a || (code a =? 32)%N then 1
      else match s1 with
      | EmptyString => 0
      | String b s2 =>
          if ((code a =? 194) && (code b =? 160))%N then 2
          else match s2 with
          | EmptyString => 0
          | String c _ =>
              let '(x, y, z) := (code a, code b, code c) in
              if (((x =? 225) && (y =? 154) && (z =? 128)) ||
                  ((x =? 226) && (y =? 128) && (in_range 128 138 c || (z =? 168) ||
                                                (z =? 169) || (z =? 175))) ||
                  ((x =? 226) && (y =? 129) && (z =? 159)) ||
                  ((x =? 227) && (y =? 128) && (z =? 128)) ||
                  ((x =? 239) && (y =? 187) && (z =? 191)))%N
              then 3 else 0
          end
      end
  end.

Fixpoint str_drop (n : nat) (s : string) : string :=
  match n, s with
  | S n', String _ s' => str_drop n' s'
  | _, _ => s
  end.

Fixpoint str_take (n : nat) (s : string) : string :=
  match n, s with
  | S n', String c s' => String c (str_take n' s')
  | _, _ => EmptyString
  end.

(** Skip a maximal run of white space; [k] bytes of the current character remain. *)
Fixpoint skip_ws_go (k : nat) (s : string) : string :=
  match k, s with
  | S k', String _ s' => skip_ws_go k' s'
  | O, String _ s' =>
      match ws_len s with O => s | S k' => skip_ws_go k' s' end
  | _, EmptyString => EmptyString
  end.
Definition skip_ws : string → string := skip_ws_go 0.

Definition all_ws (s : string) : bool := is_empty (skip_ws s).

Fixpoint trim_end (s : string) : string :=
  match s with
  | EmptyString => EmptyString
  | String c s' => if all_ws s then EmptyString else String c (trim_end s')
  end.
Definition trim (s : string) : string := trim_end (skip_ws s).

(** [s.split(/\s+/)]; [cur] is the word read so far, reversed. *)
Fixpoint split_ws_go (k : nat) (in_ws : bool) (cur s : string) : list string :=
  match s with
  | EmptyString => [String.rev cur]
  | String c s' =>
      match k with
      | S k' => split_ws_go k' in_ws cur s'
      | O => match ws_len s with
             | O => split_ws_go 0 false (String c cur) s'
             | S k' =>
                 if in_ws then split_ws_go k' true cur s'
                 else String.rev cur :: split_ws_go k' true EmptyString s'
             end
      end
  end.
Definition split_ws : string → list string := split_ws_go 0 false EmptyString.

(** [s.split(/\s+/).filter(Boolean)] *)
Definition ws_tokens (s : string) : list string :=
  js_filter (λ w, negb (is_empty w)) (split_ws s).

(** A regular expression dot does not match a line terminator.  [line_end_at s]
    holds when [s] begins with one. *)
Definition line_end_at (s : string) : bool :=
  match s with
  | EmptyString => false
  | String a s1 =>
      ((code a =? 10) || (code a =? 13))%N ||
      match s1 with
      | String b (String c _) =>
          ((code a =? 226) && (code b =? 128) && ((code c =? 168) || (code c =? 169)))%N
      | _ => false
      end
  end.

Fixpoint no_line_end (s : string) : bool :=
  negb (line_end_at s) &&
  match s with EmptyString => true | String _ s' => no_line_end s' end.

(** The longest prefix of characters satisfying [p], and what follows. *)
Fixpoint span (p : ascii → bool) (s : string) : string * string :=
  match s with
  | EmptyString => (EmptyString, EmptyString)
  | String c s' =>
      if p c then let '(a, b) := span p s' in (String c a, b)
      else (EmptyString, s)
  end.

(** The value of a digit string, most significant digit first. *)
Fixpoint digits_value_go (acc : Z) (s : string) : Z :=
  match s with
  | EmptyString => acc
  | String c s' => digits_value_go (acc * 10 + (Z.of_N (code c) - 48)) s'
  end.
Definition digits_value : string → Z := digits_value_go 0.

(** [String(n)] for an integer *)
Definition string_of_Z (n : Z) : string := pretty n.

(** ** Lemmas *)
#[global] Arguments String.append : simpl nomatch.

Lemma str_app_nil_r s : s +:+ EmptyString = s.
Proof. induction s as [|c s IH]; simpl; [done|]. by rewrite IH. Qed.

Lemma str_app_assoc s t u : (s +:+ t) +:+ u = s +:+ (t +:+ u).
Proof. induction s as [|c s IH]; simpl; [done|]. by rewrite IH. Qed.

Lemma str_app_length s t : String.length (s +:+ t) = (String.length s + String.length t)%nat.
Proof. induction s as [|c s IH]; simpl; [done|]. by rewrite IH. Qed.

Lemma byte_length_app s t : byte_length (s +:+ t) = byte_length s + byte_length t.
Proof. unfold byte_length. rewrite str_app_length. lia. Qed.

Lemma byte_length_nonneg s : 0 ≤ byte_length s.
Proof. unfold byte_length. lia. Qed.

Lemma str_drop_app s t : str_drop (String.length s) (s +:+ t) = t.
Proof. by induction s. Qed.
Lemma str_take_app s t : str_take (String.length s) (s +:+ t) = s.
Proof. induction s as [|a s IH]; cbn; [by destruct t|by rewrite IH]. Qed.

Lemma starts_with_app p s : starts_with p (p +:+ s) = true.
Proof. induction p as [|c p IH]; simpl; [done|]. by destruct (ascii_dec c c). Qed.

Lemma starts_with_spec p s : starts_with p s = true ↔ ∃ t, s = p +:+ t.
Proof.
  revert s. induction p as [|a p IH]; intros s; simpl; [naive_solver|].
  destruct s as [|b s]; simpl.
  { split; [done|]. by intros [t ?]. }
  destruct (ascii_dec a b) as [->|Hne].
  - rewrite IH. split; intros [t Ht]; exists t; [by subst|by simplify_eq].
  - split; [done|]. by intros [t [=]].
Qed.

Lemma str_flat_map_app f s t : str_flat_map f (s +:+ t) = str_flat_map f s +:+ str_flat_map f t.
Proof. induction s as [|c s IH]; simpl; [done|]. by rewrite IH, str_app_assoc. Qed.

Lemma str_forall_app p s t : str_forall p (s +:+ t) = str_forall p s && str_forall p t.
Proof. induction s as [|c s IH]; simpl; [done|]. by rewrite IH, andb_assoc. Qed.

Lemma str_forall_impl (p q : ascii → bool) s :
  (∀ c, p c = true → q c = true) → str_forall p s = true → str_forall q s = true.
Proof.
  intros Hpq. induction s as [|c s IH]; [done|]. cbn. intros [Hc Hs]%andb_prop.
  by rewrite (Hpq c Hc), IH.
Qed.
Lemma str_forall_take p n s : str_forall p s = true → str_forall p (str_take n s) = true.
Proof.
  revert n. induction s as [|c s IH]; intros [|n]; cbn; try done. intros [-> Hs]%andb_prop. by apply IH.
Qed.
Lemma str_forall_drop p n s : str_forall p s = true → str_forall p (str_drop n s) = true.
Proof.
  revert n. induction s as [|c s IH]; intros [|n]; cbn; try done. intros [_ Hs]%andb_prop. by apply IH.
Qed.

Lemma span_app p s t :
  str_forall p s = true →
  match t with String c _ => p c = false | EmptyString => True end →
  span p (s +:+ t) = (s, t).
Proof.
  intros Hs Ht. induction s as [|c s IH]; simpl.
  - destruct t as [|c t]; simpl; [done|]. by rewrite Ht.
  - simpl in Hs. apply andb_true_iff in Hs as [Hc Hs]. rewrite Hc, IH by done. done.
Qed.

Lemma split_char_none c s :
  str_forall (λ a, negb (bool_decide (a = c))) s = true → split_char c s = [s].
Proof.
  induction s as [|a s IH]; simpl; [done|]. intros [Ha Hs]%andb_true_iff.
  destruct (ascii_dec a c) as [->|_]; [by rewrite bool_decide_eq_true_2 in Ha|].
  by rewrite IH.
Qed.

Lemma split_char_cons c s t :
  str_forall (λ a, negb (bool_decide (a = c))) s = true →
  split_char c (s +:+ String c t) = s :: split_char c t.
Proof.
  induction s as [|a s IH]; simpl.
  - by destruct (ascii_dec c c).
  - intros [Ha Hs]%andb_true_iff. rewrite IH by done.
    destruct (ascii_dec a c) as [->|_]; [by rewrite bool_decide_eq_true_2 in Ha|done].
Qed.

(** Splitting a text joined on a character the parts do not contain. *)
Lemma split_join c (l : list string) :
  l ≠ [] →
  (∀ s, s ∈ l → str_forall (λ a, negb (bool_decide (a = c))) s = true) →
  split_char c (join (String c EmptyString) l) = l.
Proof.
  intros Hl. induction l as [|s l IH]; [done|]. intros Hs.
  destruct l as [|s' l]; [by apply split_char_none, Hs; set_solver|].
  change (join _ (s :: s' :: l)) with (s +:+ String c (join (String c EmptyString) (s' :: l))).
  rewrite split_char_cons by (apply Hs; set_solver).
  rewrite IH; [done..|]. intros; apply Hs; set_solver.
Qed.

(** *** Decimal integers *)
Lemma pretty_N_char_code (x : N) : (x < 10)%N → code (pretty_N_char x) = (48 + x)%N.
Proof.
  intros Hx. assert (x = 0 ∨ x = 1 ∨ x = 2 ∨ x = 3 ∨ x = 4 ∨ x = 5 ∨ x = 6 ∨ x = 7 ∨ x = 8
    ∨ x = 9)%N as Hc by lia. by destruct_or! Hc; subst.
Qed.

Lemma digits_value_pretty_go (x : N) s :
  digits_value_go 0 (pretty_N_go x s) = digits_value_go (Z.of_N x) s.
Proof.
  revert s. induction (N.lt_wf_0 x) as [x _ IH]; intros s.
  destruct (decide (x = 0)%N) as [->|Hx]; [by rewrite pretty_N_go_0|].
  rewrite pretty_N_go_step by lia. rewrite IH by (apply N.div_lt; lia).
  cbn [digits_value_go].
  assert (x `mod` 10 < 10)%N by (apply N.mod_lt; lia).
  rewrite pretty_N_char_code by done. f_equal.
  pose proof (N.div_mod x 10 ltac:(done)). lia.
Qed.

Lemma pretty_go_digits (x : N) s :
  str_forall is_digit s = true → str_forall is_digit (pretty_N_go x s) = true.
Proof.
  revert s. induction (N.lt_wf_0 x) as [x _ IH]; intros s Hs.
  destruct (decide (x = 0)%N) as [->|Hx]; [by rewrite pretty_N_go_0|].
  rewrite pretty_N_go_step by lia. apply IH; [apply N.div_lt; lia|].
  assert (x `mod` 10 < 10)%N by (apply N.mod_lt; lia).
  simpl. rewrite Hs, andb_true_r. unfold is_digit, in_range.
  rewrite pretty_N_char_code by done. generalize dependent (x `mod` 10)%N. intros r Hr.
  apply andb_true_iff; split; apply N.leb_le; lia.
Qed.

Lemma string_of_Z_N (n : Z) : 0 < n → string_of_Z n = pretty_N_go (Z.to_N n) EmptyString.
Proof.
  intros Hn. destruct n as [|p|p]; [lia| |lia].
  done.
Qed.

(** Printing a natural number and reading the digits back. *)
Lemma digits_value_string (n : Z) : 0 ≤ n → digits_value (string_of_Z n) = n.
Proof.
  intros Hn. destruct (decide (n = 0)) as [->|Hne]; [done|].
  rewrite string_of_Z_N by lia. unfold digits_value.
  rewrite digits_value_pretty_go. simpl. lia.
Qed.

Lemma string_of_Z_digits (n : Z) : 0 ≤ n → str_forall is_digit (string_of_Z n) = true.
Proof.
  intros Hn. destruct (decide (n = 0)) as [->|Hne]; [done|].
  rewrite string_of_Z_N by lia. by apply pretty_go_digits.
Qed.

Lemma string_of_Z_nonempty (n : Z) : 0 ≤ n → is_empty (string_of_Z n) = false.
Proof.
  intros Hn. destruct (string_of_Z n) eqn:E; [|done].
  pose proof (digits_value_string n Hn) as H. rewrite E in H.
  destruct (decide (n = 0)) as [->|Hne]; [done|]. unfold digits_value in H. simpl in H. lia.
Qed.

(** *** White space *)
Definition plain_char (c : ascii) : bool := in_range 33 126 c.

Lemma ws_len_ascii c s :
  (code c < 128)%N → in_range 9 13 c = false → code c ≠ 32%N → ws_len (String c s) = 0%nat.
Proof.
  intros Hlt Hr H32. unfold ws_len. rewrite Hr.
  destruct (N.eqb_spec (code c) 32) as [|_]; [done|]. simpl.
  repeat match goal with
  | |- context [(code c =? ?k)%N] => destruct (N.eqb_spec (code c) k) as [?|_]; [lia|]
  end.
  simpl. by destruct s as [|b [|d s]].
Qed.

Lemma ws_len_plain c s : plain_char c = true → ws_len (String c s) = 0%nat.
Proof.
  unfold plain_char, in_range. intros [H1%N.leb_le H2%N.leb_le]%andb_true_iff.
  apply ws_len_ascii; [lia| |lia]. unfold in_range.
  apply andb_false_iff. right. apply N.leb_gt. lia.
Qed.

Lemma skip_ws_plain c s : plain_char c = true → skip_ws (String c s) = String c s.
Proof. intros H. unfold skip_ws. cbn [skip_ws_go]. by rewrite (ws_len_plain _ _ H). Qed.

Lemma skip_ws_space s : skip_ws (String " " s) = skip_ws s.
Proof. done. Qed.

Lemma skip_ws_length k s : (String.length (skip_ws_go k s) ≤ String.length s)%nat.
Proof.
  revert k. induction s as [|c s IH]; intros k; [by destruct k|].
  destruct k as [|k]; cbn [skip_ws_go].
  - destruct (ws_len (String c s)); simpl; [lia|]. specialize (IH n). lia.
  - specialize (IH k). simpl. lia.
Qed.

(** *** Line terminators *)
Lemma line_end_at_other c s :
  code c ≠ 10%N → code c ≠ 13%N → code c ≠ 226%N → line_end_at (String c s) = false.
Proof.
  intros H1 H2 H3. unfold line_end_at.
  destruct (N.eqb_spec (code c) 10) as [|_]; [done|].
  destruct (N.eqb_spec (code c) 13) as [|_]; [done|].
  destruct (N.eqb_spec (code c) 226) as [|_]; [done|]. simpl.
  by destruct s as [|b [|d s]].
Qed.

Lemma line_end_at_plain c s : plain_char c = true → line_end_at (String c s) = false.
Proof.
  unfold plain_char, in_range. intros [H1%N.leb_le H2%N.leb_le]%andb_true_iff.
  apply line_end_at_other; lia.
Qed.

Lemma no_line_end_cons c s :
  no_line_end (String c s) = negb (line_end_at (String c s)) && no_line_end s.
Proof. done. Qed.

(** *** Code units *)
Lemma code_ascii_of_N n : (n < 256)%N → code (ascii_of_N n) = n.
Proof. apply N_ascii_embedding. Qed.

Lemma utf16_lone_unit u : (u < 65536)%N → utf16 (lone_unit u) = [u].
Proof.
  intros Hu. unfold lone_unit. cbn [utf16].
  assert (Hq : (u = 64 * (u `div` 64) + u `mod` 64)%N) by (apply N.div_mod; done).
  assert (Hq' : (u `div` 64 = 64 * (u `div` 4096) + (u `div` 64) `mod` 64)%N).
  { replace (u `div` 4096)%N with ((u `div` 64) `div` 64)%N by by rewrite N.Div0.div_div.
    apply N.div_mod. done. }
  assert (u `div` 4096 < 16)%N by (apply N.Div0.div_lt_upper_bound; lia).
  pose proof (N.mod_lt (u `div` 64) 64 ltac:(done)). pose proof (N.mod_lt u 64 ltac:(done)).
  revert Hq Hq'. generalize dependent (u `div` 4096)%N. intros x Hx.
  generalize dependent ((u `div` 64) `mod` 64)%N. intros y Hy.
  generalize dependent (u `mod` 64)%N. intros z Hz Hq Hq'.
  rewrite !code_ascii_of_N by lia.
  destruct (N.ltb_spec (224 + x) 192); [lia|].
  destruct (N.ltb_spec (224 + x) 224); [lia|].
  destruct (N.ltb_spec (224 + x) 240); [|lia].
  rewrite <-(N.mod_unique (224 + x) 16 14 x), <-(N.mod_unique (128 + y) 64 2 y),
    <-(N.mod_unique (128 + z) 64 2 z) by lia.
  f_equal. lia.
Qed.

(** A substring is a prefix of the code units. *)
Lemma utf16_utf16_take n s : utf16 (utf16_take n s) = take n (utf16 s).
Proof.
  remember (String.length s) as len eqn:Hlen.
  assert (Hle : (String.length s ≤ len)%nat) by lia. clear Hlen.
  revert n s Hle. induction len as [|len IH]; intros n s Hle.
  { destruct s; [by destruct n|simpl in Hle; lia]. }
  destruct n as [|n]; [by destruct s|].
  destruct s as [|a s1]; [done|]. simpl in Hle.
  cbn [utf16_take utf16]. destruct (code a <? 192)%N eqn:Ha.
  { cbn [utf16]. rewrite Ha. cbn [take]. rewrite IH by lia. done. }
  destruct s1 as [|b s2]; [cbn [utf16]; rewrite Ha; by destruct n|]. simpl in Hle.
  destruct (code a <? 224)%N eqn:Ha2.
  { cbn [utf16]. rewrite Ha, Ha2. cbn [take]. rewrite IH by lia. done. }
  destruct s2 as [|c s3].
  { destruct n as [|n]; cbn [utf16]; rewrite ?Ha, ?Ha2; simpl; by rewrite ?take_nil. }
  simpl in Hle. destruct (code a <? 240)%N eqn:Ha3.
  { cbn [utf16]. rewrite Ha, Ha2, Ha3. cbn [take]. rewrite IH by lia. done. }
  destruct s3 as [|d s4].
  { destruct n as [|[|n]]; cbn [utf16]; rewrite ?Ha, ?Ha2, ?Ha3; simpl; by rewrite ?take_nil. }
  simpl in Hle. destruct n as [|n].
  - cbn [utf16 nth take]. rewrite ?Ha, ?Ha2, ?Ha3. cbn [nth]. apply utf16_lone_unit.
    set (p := (_ - 65536)%N). assert (p < 2097152)%N.
    { pose proof (N.mod_lt (code a) 8 ltac:(done)). pose proof (N.mod_lt (code b) 64 ltac:(done)).
      pose proof (N.mod_lt (code c) 64 ltac:(done)). pose proof (N.mod_lt (code d) 64 ltac:(done)).
      unfold p. lia. }
    assert (p `div` 1024 < 2048)%N by (apply N.Div0.div_lt_upper_bound; lia). lia.
  - cbn [utf16]. rewrite Ha, Ha2, Ha3. cbn [take]. rewrite IH by lia. done.
Qed.

(** *** Sorting strings *)
Lemma units_cmp_swap a b : units_cmp b a = - units_cmp a b.
Proof.
  revert b. induction a as [|x a IH]; intros [|y b]; simpl; [done..|].
  destruct (N.ltb_spec x y), (N.ltb_spec y x); [lia|done|done|apply IH].
Qed.

Lemma units_cmp_eq a b : units_cmp a b = 0 → a = b.
Proof.
  revert b. induction a as [|x a IH]; intros [|y b]; simpl; [done..|].
  destruct (N.ltb_spec x y), (N.ltb_spec y x); [lia|done|done|].
  intros Hc%IH. f_equal; [lia|done].
Qed.

Lemma units_cmp_refl a : units_cmp a a = 0.
Proof. induction a as [|x a IH]; simpl; [done|]. by rewrite N.ltb_irrefl. Qed.

Lemma units_cmp_trans a b c : units_cmp a b ≤ 0 → units_cmp b c ≤ 0 → units_cmp a c ≤ 0.
Proof.
  revert b c. induction a as [|x a IH]; intros [|y b] [|z c]; simpl; try lia.
  destruct (N.ltb_spec x y), (N.ltb_spec y x), (N.ltb_spec y z), (N.ltb_spec z y),
    (N.ltb_spec x z), (N.ltb_spec z x); try lia. apply IH.
Qed.

Lemma sort_strings_sorted l :
  StronglySorted (λ s t, units_cmp (utf16 s) (utf16 t) ≤ 0) (sort_strings l).
Proof.
  apply js_sort_sorted.
  - intros s t. rewrite (units_cmp_swap (utf16 s)). lia.
  - intros s t u. apply units_cmp_trans.
Qed.

(** No two strings of the list have the same code units. *)
Definition units_distinct (l : list string) : Prop :=
  ∀ s t, s ∈ l → t ∈ l → utf16 s = utf16 t → s = t.

(** Sorting forgets the order of the list. *)
Lemma sort_strings_perm l k : units_distinct l → l ≡ₚ k → sort_strings l = sort_strings k.
Proof.
  intros Hd Hp. unfold sort_strings.
  apply (StronglySorted_unique_strong (λ s t, units_cmp (utf16 s) (utf16 t) ≤ 0)).
  - intros s t Hs Ht H1 H2. apply js_sort_elem in Hs, Ht.
    apply Hd; [done|by rewrite Hp|]. apply units_cmp_eq. rewrite (units_cmp_swap (utf16 s)) in H2. lia.
  - apply sort_strings_sorted.
  - apply sort_strings_sorted.
  - by rewrite !js_sort_perm.
Qed.
