(* ===== verification/JsNumber.v ===== *)
(** * JavaScript numbers

    A number that can be fractional is an IEEE 754 binary64 value, computed with
    the Standard Library's specification of the format ([SpecFloat]), so that a
    rate, a ratio or a threshold rounds as in the program and [NaN] compares as
    it does there.  Timestamps, counters and sizes, which the code only adds and
    compares as integers below 2^53, are plain [Z] elsewhere in the library. *)
From Stdlib Require Export SpecFloat.
From S2P Require Export JsString.
From stdpp Require Import options.

(** ** Definitions *)
Abbreviation number := spec_float.

Definition prec : Z := 53.
Definition emax : Z := 1024.

Definition num_of_Z (z : Z) : number := binary_normalize prec emax z 0 false.
Definition num_add : number → number → number := SFadd prec emax.
Definition num_sub : number → number → number := SFsub prec emax.
Definition num_mul : number → number → number := SFmul prec emax.
Definition num_div : number → number → number := SFdiv prec emax.
Definition num_ltb : number → number → bool := SFltb.
Definition num_leb : number → number → bool := SFleb.
Definition num_eqb : number → number → bool := SFeqb.
Definition nan : number := S754_nan.

Definition is_nan (x : number) : bool :=
  match x with S754_nan => true | _ => false end.
(** [Number.isFinite(x)] *)
Definition is_finite (x : number) : bool :=
  match x with S754_zero _ | S754_finite _ _ _ => true | _ => false end.

(** [Math.max(a, b)] *)
Definition num_max (a b : number) : number :=
  if is_nan a || is_nan b then nan
  else match a, b with
       | S754_zero s, S754_zero t => S754_zero (s && t)
       | _, _ => if num_ltb a b then b else a
       end.

Definition num_abs : number → number := SFabs.
Definition num_neg : number → number := SFopp.
(** [Math.min(a, b)] *)
Definition num_min (a b : number) : number := num_neg (num_max (num_neg a) (num_neg b)).
Definition num_sqrt : number → number := SFsqrt prec emax.
(** [Math.pow(x, 2)], as the square that is nearest *)
Definition num_square (x : number) : number := num_mul x x.

(** The integer part of a finite number, rounded down, of [x] and of [2 x]. *)
Definition signed (s : bool) (m : positive) : Z := if s then Z.neg m else Z.pos m.
Definition floor_Z (s : bool) (m : positive) (e : Z) : Z := Z.shiftl (signed s m) e.

Definition math_floor (x : number) : number :=
  match x with
  | S754_finite s m e => num_of_Z (floor_Z s m e)
  | _ => x
  end.
Definition math_ceil (x : number) : number :=
  match x with
  | S754_finite s m e =>
      let n := - floor_Z (negb s) m e in
      if n =? 0 then S754_zero s else num_of_Z n
  | _ => x
  end.
(** [Math.round(x)], the integer at [floor(x + 1/2)] *)
Definition math_round (x : number) : number :=
  match x with
  | S754_finite s m e =>
      let n := (floor_Z s m (e + 1) + 1) / 2 in
      if n =? 0 then S754_zero s else num_of_Z n
  | _ => x
  end.

(** The integer a number denotes, when it denotes one. *)
Definition num_to_Z (x : number) : option Z :=
  match x with
  | S754_zero _ => Some 0
  | S754_finite s m e =>
      if (0 <=? e) || (Z.shiftl (floor_Z s m e) (- e) =? signed s m)
      then Some (floor_Z s m e) else None
  | _ => None
  end.

(** The binary64 value nearest to [m * 10 ^ e], ties to even. *)
Definition num_of_decimal (neg : bool) (m e : Z) : number :=
  match m with
  | Zpos p =>
      if 0 <=? e then
        match m * 10 ^ e with
        | Zpos q => binary_round prec emax neg q 0
        | _ => S754_zero neg
        end
      else match 10 ^ (- e) with
           | Zpos q => SFdiv prec emax (S754_finite neg p 0) (S754_finite false q 0)
           | _ => S754_zero neg
           end
  | _ => S754_zero neg
  end.

Definition parse_sign (s : string) : bool * string :=
  match s with
  | String c s' =>
      if ascii_dec c "-" then (true, s')
      else if ascii_dec c "+" then (false, s') else (false, s)
  | EmptyString => (false, s)
  end.

(** The exponent part of a decimal literal, [0] when there is none. *)
Definition parse_exponent (s : string) : Z :=
  match s with
  | String c s' =>
      if bool_decide (c = "e"%char) || bool_decide (c = "E"%char) then
        let '(neg, s1) := parse_sign s' in
        let '(ds, _) := span is_digit s1 in
        if neg then - digits_value ds else digits_value ds
      else 0
  | EmptyString => 0
  end.

(** [parseFloat(s)]: the longest prefix that is a decimal literal *)
Definition parse_float (s : string) : number :=
  let '(neg, s1) := parse_sign (skip_ws s) in
  if starts_with "Infinity" s1 then S754_infinity neg
  else
    let '(ip, s2) := span is_digit s1 in
    let '(fp, s3) :=
      match s2 with
      | String c s' => if ascii_dec c "." then span is_digit s' else (EmptyString, s2)
      | EmptyString => (EmptyString, s2)
      end in
    if is_empty ip && is_empty fp then nan
    else num_of_decimal neg (digits_value (ip +:+ fp)) (parse_exponent s3 - byte_length fp).

(** [parseInt(s, 10)]; [None] stands for [NaN] *)
Definition parse_int (s : string) : option Z :=
  let '(neg, s1) := parse_sign (skip_ws s) in
  let '(ds, _) := span is_digit s1 in
  if is_empty ds then None
  else Some (if neg then - digits_value ds else digits_value ds).

(** [Number(s)] on a string: all of it, but for white space around it. *)
Definition digit_value (c : ascii) : option Z :=
  if is_digit c then Some (Z.of_N (code c - 48))
  else if in_range 97 122 (lower_char c) then Some (Z.of_N (code (lower_char c) - 87))
  else None.
Fixpoint radix_value (radix acc : Z) (s : string) : option Z :=
  match s with
  | EmptyString => Some acc
  | String c s' =>
      match digit_value c with
      | Some d => if d <? radix then radix_value radix (acc * radix + d) s' else None
      | None => None
      end
  end.
Definition radix_literal (radix : Z) (s : string) : number :=
  if is_empty s then nan
  else match radix_value radix 0 s with Some z => num_of_Z z | None => nan end.

(** An exponent part that ends the text. *)
Definition exponent_to_end (s : string) : option Z :=
  match s with
  | EmptyString => Some 0
  | String c s' =>
      if bool_decide (c = "e"%char) || bool_decide (c = "E"%char) then
        let '(neg, s1) := parse_sign s' in
        let '(ds, rest) := span is_digit s1 in
        if is_empty ds || negb (is_empty rest) then None
        else Some (if neg then - digits_value ds else digits_value ds)
      else None
  end.

Definition num_of_string (s : string) : number :=
  let t := trim s in
  if is_empty t then num_of_Z 0
  else if starts_with "0x" (to_lower t) then radix_literal 16 (str_drop 2 t)
  else if starts_with "0o" (to_lower t) then radix_literal 8 (str_drop 2 t)
  else if starts_with "0b" (to_lower t) then radix_literal 2 (str_drop 2 t)
  else
    let '(neg, s1) := parse_sign t in
    if str_eqb s1 "Infinity" then S754_infinity neg
    else
      let '(ip, s2) := span is_digit s1 in
      let '(fp, s3) :=
        match s2 with
        | String c s' => if ascii_dec c "." then span is_digit s' else (EmptyString, s2)
        | EmptyString => (EmptyString, s2)
        end in
      match exponent_to_end s3 with
      | Some e =>
          if is_empty ip && is_empty fp then nan
          else num_of_decimal neg (digits_value (ip +:+ fp)) (e - byte_length fp)
      | None => nan
      end.

(** *** Printing

    [Number.prototype.toString] prints the shortest decimal that reads back as
    the same number: [shortest m e fuel k] tries [k], [k + 1], ... digits for the
    magnitude [m * 2 ^ e], whose decimal exponent is [n] ([10 ^ (n - 1) <= v < 10 ^ n]);
    17 digits always suffice.  When the digits round up to a power of ten, that is
    one digit with the next exponent. *)
Definition ratio (m : positive) (e : Z) : Z * Z :=
  if 0 <=? e then (Z.pos m * 2 ^ e, 1) else (Z.pos m, 2 ^ (- e)).

Definition div_nearest (a b : Z) : Z := (2 * a + b) / (2 * b).

Fixpoint dec_exponent (fuel : nat) (num den n : Z) : Z :=
  match fuel with
  | O => n
  | S f =>
      let '(a, b) := if 0 <=? n then (num, den * 10 ^ n) else (num * 10 ^ (- n), den) in
      if b <=? a then dec_exponent f num den (n + 1)
      else if b <=? 10 * a then n
      else dec_exponent f num den (n - 1)
  end.

Fixpoint shortest (fuel : nat) (m : positive) (e num den n k : Z) : Z * Z :=
  let ex := n - k in
  let s := if 0 <=? ex then div_nearest num (den * 10 ^ ex)
           else div_nearest (num * 10 ^ (- ex)) den in
  match fuel with
  | O => (s, k)
  | S f =>
      if num_eqb (num_of_decimal false s ex) (S754_finite false m e) then (s, k)
      else shortest f m e num den n (k + 1)
  end.

Definition zeros (n : Z) : string := Nat.iter (Z.to_nat n) (String "0") EmptyString.

Definition num_to_string (x : number) : string :=
  match x with
  | S754_nan => "NaN"
  | S754_infinity s => if s then "-Infinity" else "Infinity"
  | S754_zero _ => "0"
  | S754_finite sg m e =>
      let '(num, den) := ratio m e in
      let n := dec_exponent 800 num den (Z.log2 num / 3 - Z.log2 den / 3) in
      let '(s, k) := shortest 16 m e num den n 1 in
      let '(s, k, n) := if s =? 10 ^ k then (1, 1, n + 1) else (s, k, n) in
      let ds := string_of_Z s in
      (if sg then "-" else EmptyString) +:+
      (if (k <=? n) && (n <=? 21) then ds +:+ zeros (n - k)
       else if (0 <? n) && (n <=? 21) then
         str_take (Z.to_nat n) ds +:+ "." +:+ str_drop (Z.to_nat n) ds
       else if (-6 <? n) && (n <=? 0) then "0." +:+ zeros (- n) +:+ ds
       else
         let ex := (if 0 <? n - 1 then "e+" else "e-") +:+ string_of_Z (Z.abs (n - 1)) in
         if k =? 1 then ds +:+ ex
         else str_take 1 ds +:+ "." +:+ str_drop 1 ds +:+ ex)
  end.

(** [x.toFixed(f)]: the nearest decimal with [f] digits after the point, the larger
    one of two. *)
Definition pad_start (n : Z) (s : string) : string := zeros (n - byte_length s) +:+ s.
Definition num_to_fixed (f : Z) (x : number) : string :=
  match x with
  | S754_finite sg m e =>
      let '(num, den) := ratio m e in
      if 10 ^ 21 * den <=? num then num_to_string x
      else
        let n := div_nearest (num * 10 ^ f) den in
        let ds := pad_start (f + 1) (string_of_Z n) in
        let k := Z.to_nat (byte_length ds - f) in
        (if sg then "-" else EmptyString)
        +:+ (if f =? 0 then ds else str_take k ds +:+ "." +:+ str_drop k ds)
  | S754_zero _ => if f =? 0 then "0" else "0." +:+ zeros f
  | _ => num_to_string x
  end.

(** ** Checks *)
Example num_to_fixed_ex :
  map (λ '(f, s), num_to_fixed f (parse_float s))
    [(2, "1.005"); (1, "0.25"); (0, "2.5"); (2, "-1.5"); (2, "0"); (2, "0.001"); (1, "-0.01"); (0, "0.4")]
  = ["1.00"; "0.3"; "3"; "-1.50"; "0.00"; "0.00"; "-0.0"; "0"].
Proof. vm_compute. reflexivity. Qed.

Example num_of_string_ex :
  map (λ s, num_to_string (num_of_string s))
    [""; " 12 "; "0x1F"; "1e3"; "1e"; "12px"; ".5"; "5."; "-Infinity"; "."; "0b102"; "+7"]
  = ["0"; "12"; "31"; "1000"; "NaN"; "NaN"; "0.5"; "5"; "-Infinity"; "NaN"; "NaN"; "7"].
Proof. vm_compute. reflexivity. Qed.

Example num_to_string_ex1 :
  map (λ s, num_to_string (parse_float s))
    ["0.1"; "1234567890.123456"; "1e21"; "123456789012345680000"; "-0.0000015"; "5e-324"; "."; "100"; "0.9"]
  = ["0.1"; "1234567890.123456"; "1e+21"; "123456789012345680000"; "-0.0000015"; "5e-324"; "NaN"; "100"; "0.9"].
Proof. vm_compute. reflexivity. Qed.

(** Shortest digits that round up to a power of ten, and numbers next to one *)
Example num_to_string_ex2 :
  map (λ s, num_to_string (parse_float s))
    ["1e23"; "1e-7"; "0.000001"; "1e29"; "9.5e22"; "1e22"; "1e20"; "1.5e-7"; "-1e-9"]
  = ["1e+23"; "1e-7"; "0.000001"; "1e+29"; "9.5e+22"; "1e+22"; "100000000000000000000"; "1.5e-7"; "-1e-9"].
Proof. vm_compute. reflexivity. Qed.

Example num_arith_ex :
  num_to_string (num_add (parse_float "0.1") (parse_float "0.2")) = "0.30000000000000004"
  ∧ num_to_string (math_round (parse_float "2.5")) = "3"
  ∧ num_to_string (math_round (parse_float "-2.5")) = "-2"
  ∧ num_to_string (math_floor (parse_float "-0.5")) = "-1"
  ∧ num_to_string (math_ceil (parse_float "1.2")) = "2".
Proof. vm_compute. done. Qed.

(** ** Lemmas *)
Lemma str_forall_zeros p n : p "0"%char = true → str_forall p (zeros n) = true.
Proof. intros Hp. unfold zeros. induction (Z.to_nat n) as [|k IH]; cbn; [done|]. by rewrite Hp. Qed.

(** The cases of a comparison of two numbers and of the converse one *)
Ltac compare_cases x y :=
  let mx := fresh "mx" in let ex := fresh "ex" in let my := fresh "my" in let ey := fresh "ey" in
  destruct x as [ | | |? mx ex], y as [ | | |? my ey];
  repeat match goal with b : bool |- _ => destruct b end; try done; intros;
  rewrite (Z.compare_antisym ex ey) in *; destruct (ex ?= ey); simpl in *; try done;
  change (Pos.compare_cont Eq mx my) with (mx ?= my)%positive in *;
  change (Pos.compare_cont Eq my mx) with (my ?= mx)%positive in *;
  rewrite (Pos.compare_antisym mx my) in *; by destruct (mx ?= my)%positive.
Lemma num_ltb_antisym x y : num_ltb x y = true → num_ltb y x = false.
Proof.
  unfold num_ltb, SFltb, SFcompare. compare_cases x y.
Qed.

Lemma num_leb_ltb x y : num_leb x y = true → num_ltb y x = false.
Proof.
  unfold num_ltb, num_leb, SFltb, SFleb, SFcompare. compare_cases x y.
Qed.

(** For numbers that are not [NaN], [a >= b] and [a < b] are complementary. *)
Lemma num_ltb_leb_complement x y :
  is_nan x = false → is_nan y = false → num_leb x y = negb (num_ltb y x).
Proof.
  unfold num_ltb, num_leb, SFltb, SFleb, SFcompare. compare_cases x y.
Qed.

Lemma digit_plain c : is_digit c = true → plain_char c = true.
Proof.
  unfold is_digit, plain_char, in_range. intros [H1 H2]%andb_prop. apply N.leb_le in H1, H2.
  apply andb_true_intro. split; apply N.leb_le; lia.
Qed.

(** A decimal number reads back from its text. *)
Lemma parse_int_string z : 0 ≤ z → parse_int (string_of_Z z) = Some z.
Proof.
  intros Hz. pose proof (string_of_Z_digits z Hz) as Hd. pose proof (string_of_Z_nonempty z Hz) as Hne.
  pose proof (digits_value_string z Hz) as Hv. unfold parse_int.
  destruct (string_of_Z z) as [|c s] eqn:Hs; [done|].
  assert (Hc : is_digit c = true) by (cbn in Hd; by apply andb_prop in Hd as [? _]).
  rewrite skip_ws_plain by by apply digit_plain. cbn [parse_sign].
  destruct (ascii_dec c "-") as [->|_]; [done|]. destruct (ascii_dec c "+") as [->|_]; [done|].
  pose proof (span_app is_digit (String c s) EmptyString Hd I) as Hsp. rewrite str_app_nil_r in Hsp.
  by rewrite Hsp, Hv.
Qed.
