(* ===== verification/FloatOrder.v ===== *)
(** * The order of binary64 numbers

    Comparators such as [(a, b) => b.score - a.score] sort by the sign of a rounded difference.
    Here: the results of the arithmetic are canonical, a canonical finite number has an exact value
    [val], and the sign of a difference and the comparisons are those of the values, so such
    comparators sort as an order on integers does. *)
From S2P Require Export JsNumber.
From stdpp Require Import options.

Create HintDb canonical.

(** ** Definitions *)
Abbreviation femin := (emin prec emax).
Abbreviation ffexp := (fexp prec emax).
Definition digits (m : positive) : Z := Z.pos (digits2_pos m).
(** The exponent of a finite number is the one its digits call for. *)
Definition canonical (x : number) : Prop :=
  match x with S754_finite _ m e => ffexp (digits m + e) = e | _ => True end.
(** The value in units of the least positive number *)
Definition val (x : number) : Z :=
  match x with S754_finite s m e => signed s m * 2 ^ (e - femin) | _ => 0 end.
(** The sign of a number, as a comparator's result is used *)
Definition num_sign (x : number) : Z :=
  match x with
  | S754_zero _ | S754_nan => 0
  | S754_infinity s | S754_finite s _ _ => if s then -1 else 1
  end.

(** ** Lemmas *)
Lemma femin_value : femin = -1074.
Proof. done. Qed.
Lemma ffexp_value e : ffexp e = Z.max (e - 53) (-1074).
Proof. done. Qed.
Lemma digits_bounds m : 2 ^ (digits m - 1) ≤ Z.pos m < 2 ^ digits m.
Proof.
  unfold digits. induction m as [m IH|m IH|]; cbn [digits2_pos]; [| |done];
    rewrite Pos2Z.inj_succ, Z.sub_succ_l;
    assert (0 ≤ Z.pos (digits2_pos m) - 1) by lia;
    rewrite !Z.pow_succ_r by lia; lia.
Qed.
Lemma digits_pos m : 1 ≤ digits m.
Proof. unfold digits. lia. Qed.
Lemma digits_unique m d : 1 ≤ d → 2 ^ (d - 1) ≤ Z.pos m < 2 ^ d → digits m = d.
Proof.
  intros Hd [H1 H2]. destruct (digits_bounds m) as [H3 H4].
  assert (d - 1 < digits m) by (apply (Z.pow_lt_mono_r_iff 2); [lia|pose proof (digits_pos m); lia|lia]).
  assert (digits m - 1 < d) by (apply (Z.pow_lt_mono_r_iff 2); lia). lia.
Qed.

(** Shifts to the right *)
Lemma iter_pos_add {A} (f : A → A) p x : SpecFloat.iter_pos f p x = Nat.iter (Pos.to_nat p) f x.
Proof.
  revert x. induction p as [p IH|p IH|]; intros x; cbn [SpecFloat.iter_pos]; [| |done].
  - rewrite !IH, Pos2Nat.inj_xI. rewrite <-Nat.iter_succ_r, <-Nat.iter_add. f_equal. lia.
  - rewrite !IH, Pos2Nat.inj_xO. rewrite <-Nat.iter_add. f_equal. lia.
Qed.
Lemma shr_1_half r : 0 ≤ shr_m r → shr_m (shr_1 r) = shr_m r / 2.
Proof.
  destruct r as [m b s]. cbn [shr_m]. intros Hm. destruct m as [|p|p]; [done| |lia].
  destruct p as [p|p|]; cbn [shr_1 shr_m]; [| |done].
  - rewrite Pos2Z.inj_xI. rewrite <-(Z.div_unique (2 * Z.pos p + 1) 2 (Z.pos p) 1); lia.
  - rewrite Pos2Z.inj_xO. rewrite <-(Z.div_unique (2 * Z.pos p) 2 (Z.pos p) 0); lia.
Qed.
Lemma shr_shift r e n :
  0 ≤ shr_m r → 0 < n → shr_m (shr r e n).1 = shr_m r / 2 ^ n ∧ (shr r e n).2 = e + n.
Proof.
  intros Hr Hn. destruct n as [|p|p]; [lia| |lia]. cbn [shr fst snd]. split; [|done].
  rewrite iter_pos_add, <-(Z2Nat.inj_pos p). remember (Z.to_nat (Z.pos p)) as k eqn:Hk.
  assert (Z.pos p = Z.of_nat k) as -> by lia. clear p Hk Hn. induction k as [|k IH].
  - cbn. by rewrite Z.div_1_r.
  - change (Nat.iter (S k) shr_1 r) with (shr_1 (Nat.iter k shr_1 r)).
    assert (0 ≤ shr_m (Nat.iter k shr_1 r)) by (rewrite IH; apply Z.div_pos; lia).
    rewrite shr_1_half, IH by done. rewrite Zdiv_Zdiv by lia. f_equal.
    rewrite Nat2Z.inj_succ, Z.pow_succ_r by lia. lia.
Qed.
Lemma shr_noop r e n : n ≤ 0 → shr r e n = (r, e).
Proof. destruct n; [done|lia|done]. Qed.
Lemma shr_record_m m l : shr_m (shr_record_of_loc m l) = m.
Proof. by destruct l as [|[]]. Qed.

(** *** The two steps of rounding *)
(** [shr_fexp] shifts just enough. *)
Lemma shr_fexp_noop m e l :
  ffexp (Zdigits2 m + e) ≤ e → shr_fexp prec emax m e l = (shr_record_of_loc m l, e).
Proof. intros H. unfold shr_fexp. apply shr_noop. lia. Qed.
Lemma shr_fexp_shift m e l :
  e < ffexp (digits m + e) →
  let k := ffexp (digits m + e) - e in
  shr_m (shr_fexp prec emax (Z.pos m) e l).1 = Z.pos m / 2 ^ k
  ∧ (shr_fexp prec emax (Z.pos m) e l).2 = e + k.
Proof.
  intros H k. unfold shr_fexp. change (Zdigits2 (Z.pos m)) with (digits m).
  destruct (shr_shift (shr_record_of_loc (Z.pos m) l) e k) as [H1 H2]; [by rewrite shr_record_m|lia|].
  rewrite shr_record_m in H1. done.
Qed.
(** After it, a mantissa that is left has the digits its exponent calls for. *)
Definition settled_at (m e : Z) : Prop :=
  0 ≤ m ∧ (m = 0 → e = femin) ∧ ∀ p, m = Z.pos p → ffexp (digits p + e) = e.
(** What the callers hand to the rounding: no bits too many for the exponent *)
Definition unsettled (m e : Z) : Prop :=
  match m with Z.pos p => e ≤ ffexp (digits p + e) | 0 => e ≤ femin | Z.neg _ => False end.
Lemma digits_shift m k p :
  0 ≤ k → Z.pos m / 2 ^ k = Z.pos p → digits p = digits m - k.
Proof.
  intros Hk Hp. destruct (digits_bounds m) as [Hlo Hhi].
  assert (Hd : k < digits m).
  { destruct (Z.lt_ge_cases k (digits m)) as [|Hge]; [done|]. exfalso.
    rewrite Z.div_small in Hp; [lia|]. split; [lia|].
    eapply Z.lt_le_trans; [exact Hhi|]. apply Z.pow_le_mono_r; lia. }
  apply digits_unique; [lia|]. rewrite <-Hp. split.
  - apply Z.div_le_lower_bound; [lia|]. rewrite <-Z.pow_add_r by lia.
    by replace (k + (digits m - k - 1)) with (digits m - 1) by lia.
  - apply Z.div_lt_upper_bound; [lia|]. rewrite <-Z.pow_add_r by lia.
    by replace (k + (digits m - k)) with (digits m) by lia.
Qed.
Lemma shift_zero m k : 0 ≤ k → Z.pos m / 2 ^ k = 0 → digits m ≤ k.
Proof.
  intros Hk Hz. destruct (Z.lt_ge_cases k (digits m)) as [Hlt|]; [|done]. exfalso.
  destruct (digits_bounds m) as [Hlo _].
  assert (1 ≤ Z.pos m / 2 ^ k); [|lia]. apply Z.div_le_lower_bound; [lia|].
  rewrite Z.mul_1_r. etrans; [|exact Hlo]. apply Z.pow_le_mono_r; lia.
Qed.
Lemma shr_fexp_settles m e l :
  unsettled m e →
  settled_at (shr_m (shr_fexp prec emax m e l).1) (shr_fexp prec emax m e l).2.
Proof.
  intros H. destruct m as [|m|]; cbn [unsettled] in H; [| |done].
  - unfold shr_fexp. change (Zdigits2 0) with 0. rewrite Z.add_0_l.
    assert (He : ffexp e = femin) by (rewrite ffexp_value, femin_value in *; lia).
    rewrite He. destruct (Z.eq_dec e femin) as [->|Hne].
    + rewrite shr_noop by lia. cbn [fst snd]. rewrite shr_record_m. by split.
    + destruct (shr_shift (shr_record_of_loc 0 l) e (femin - e)) as [-> ->];
        [by rewrite shr_record_m|lia|]. rewrite shr_record_m, Z.div_0_l by lia.
      split; [lia|]. split; [lia|done].
  - destruct (Z.eq_dec e (ffexp (digits m + e))) as [He|He].
    + rewrite shr_fexp_noop by (change (Zdigits2 (Z.pos m)) with (digits m); lia). cbn [fst snd].
      rewrite shr_record_m. split; [lia|]. split; [done|]. by intros p [= <-].
    + destruct (shr_fexp_shift m e l) as [-> ->]; [lia|]. set (k := ffexp (digits m + e) - e).
      split; [apply Z.div_pos; lia|]. split.
      * intros Hz%shift_zero; [|subst k; lia]. subst k. pose proof (digits_pos m).
        rewrite !ffexp_value, ?femin_value in *. lia.
      * intros p Hp%digits_shift; [|subst k; lia]. rewrite Hp. subst k.
        replace (digits m - _ + _) with (digits m + e) by lia. lia.
Qed.
Lemma digits_mono p q : (p ≤ q)%positive → digits p ≤ digits q.
Proof.
  intros Hpq. destruct (digits_bounds p) as [H1 _], (digits_bounds q) as [_ H2].
  assert (digits p - 1 < digits q); [|lia].
  apply (Z.pow_lt_mono_r_iff 2); [lia|pose proof (digits_pos q); lia|lia].
Qed.
Lemma round_up_by_one m l : 0 ≤ m → m ≤ round_nearest_even m l ≤ m + 1.
Proof. intros Hm. destruct l as [|[]]; cbn; [lia| |lia|lia]. destruct (Z.even m); lia. Qed.
Lemma settled_round m m' e : settled_at m e → m ≤ m' ≤ m + 1 → unsettled m' e.
Proof.
  intros (Hm & Hz & Hp) Hle. destruct m' as [|q|]; cbn; [|..|lia].
  - rewrite Hz by lia. done.
  - destruct m as [|p|]; [| |lia].
    + rewrite (Hz eq_refl), ffexp_value, femin_value. lia.
    + rewrite <-(Hp p eq_refl) at 1. pose proof (digits_mono p q ltac:(lia)).
      rewrite !ffexp_value. lia.
Qed.
(** What rounding makes of its input *)
Lemma aux_canonical sx m e l : unsettled m e → canonical (binary_round_aux prec emax sx m e l).
Proof.
  intros H. unfold binary_round_aux. pose proof (shr_fexp_settles m e l H) as H1.
  destruct (shr_fexp prec emax m e l) as [r1 e1]. cbn [fst snd] in H1.
  pose proof (settled_round _ _ _ H1 (round_up_by_one _ (loc_of_shr_record r1) (proj1 H1))) as H2.
  pose proof (shr_fexp_settles _ _ loc_Exact H2) as H3.
  destruct (shr_fexp prec emax (round_nearest_even _ _) e1 loc_Exact) as [r2 e2]. cbn [fst snd] in H3.
  destruct (shr_m r2) as [|p|p]; [done| |done]. destruct (e2 <=? _); [|done]. by apply H3.
Qed.

(** A mantissa whose exponent is in range does not round to nothing. *)
Definition signed_as (sx : bool) (x : number) : Prop :=
  match x with S754_infinity s | S754_finite s _ _ => s = sx | _ => False end.
Lemma shr_fexp_positive m e l :
  0 < m → femin ≤ e →
  0 < shr_m (shr_fexp prec emax m e l).1 ∧ femin ≤ (shr_fexp prec emax m e l).2.
Proof.
  intros Hm He. destruct m as [|m|]; [lia| |lia].
  destruct (Z.le_gt_cases (ffexp (digits m + e)) e) as [Hle|Hlt].
  - rewrite shr_fexp_noop by (change (Zdigits2 (Z.pos m)) with (digits m); lia). cbn [fst snd].
    by rewrite shr_record_m.
  - destruct (shr_fexp_shift m e l) as [-> ->]; [lia|]. set (k := ffexp (digits m + e) - e).
    assert (Hk : k = digits m - 53).
    { subst k. rewrite ffexp_value, femin_value in *. lia. }
    split; [|lia]. apply Z.lt_le_trans with 1; [lia|]. apply Z.div_le_lower_bound; [lia|].
    destruct (digits_bounds m) as [Hlo _]. rewrite Z.mul_1_r. etrans; [|exact Hlo].
    apply Z.pow_le_mono_r; lia.
Qed.
Lemma aux_signed sx m e l :
  0 < m → femin ≤ e → signed_as sx (binary_round_aux prec emax sx m e l).
Proof.
  intros Hm He. unfold binary_round_aux. destruct (shr_fexp_positive m e l Hm He) as [H1 H1'].
  destruct (shr_fexp prec emax m e l) as [r1 e1]. cbn [fst snd] in *.
  pose proof (round_up_by_one (shr_m r1) (loc_of_shr_record r1) ltac:(lia)) as Hr.
  destruct (shr_fexp_positive (round_nearest_even (shr_m r1) (loc_of_shr_record r1)) e1 loc_Exact
    ltac:(lia) H1') as [H2 _].
  destruct (shr_fexp prec emax (round_nearest_even _ _) e1 loc_Exact) as [r2 e2]. cbn [fst snd] in *.
  destruct (shr_m r2); [lia| |lia]. by destruct (_ <=? _).
Qed.
(** Aligning to a smaller exponent *)
Lemma iter_xO d m : Z.pos (Pos.iter xO m d) = Z.pos m * 2 ^ Z.pos d.
Proof.
  induction d as [|d IH] using Pos.peano_ind; [cbn; lia|].
  rewrite Pos.iter_succ, Pos2Z.inj_xO, IH, Pos2Z.inj_succ, Z.pow_succ_r by lia. lia.
Qed.
Lemma shl_align_spec m e e' :
  e' ≤ e → Z.pos (shl_align m e e').1 = Z.pos m * 2 ^ (e - e') ∧ (e' < e → (shl_align m e e').2 = e').
Proof.
  intros Hle. unfold shl_align. destruct (e' - e) as [|d|d] eqn:Hd; cbn [fst snd]; [| |].
  - split; [|lia]. replace (e - e') with 0 by lia. lia.
  - lia.
  - split; [|done]. rewrite iter_xO. f_equal. f_equal. lia.
Qed.
Lemma digits_shifted m k p : 0 ≤ k → Z.pos p = Z.pos m * 2 ^ k → digits p = digits m + k.
Proof.
  intros Hk Hp. apply digits_unique; [pose proof (digits_pos m); lia|]. rewrite Hp.
  destruct (digits_bounds m) as [Hlo Hhi]. pose proof (digits_pos m). split.
  - replace (digits m + k - 1) with (digits m - 1 + k) by lia. rewrite Z.pow_add_r by lia.
    apply Z.mul_le_mono_nonneg_r; lia.
  - rewrite Z.pow_add_r by lia. apply Z.mul_lt_mono_pos_r; lia.
Qed.
Lemma round_unsettled m e :
  unsettled (Z.pos (shl_align m e (ffexp (digits m + e))).1) (shl_align m e (ffexp (digits m + e))).2.
Proof.
  destruct (Z.le_gt_cases (ffexp (digits m + e)) e) as [Hle|Hgt].
  - destruct (Z.eq_dec (ffexp (digits m + e)) e) as [Heq|Hne].
    + unfold shl_align. rewrite Heq, Z.sub_diag. cbn. lia.
    + destruct (shl_align_spec m e (ffexp (digits m + e)) Hle) as [H1 H2].
      rewrite H2 by lia. cbn [unsettled]. rewrite (digits_shifted m _ _ (proj2 (Z.le_0_sub _ _) Hle) H1).
      set (f := ffexp (digits m + e)). replace (digits m + (e - f) + f) with (digits m + e) by lia.
      subst f. lia.
  - unfold shl_align. destruct (ffexp (digits m + e) - e) as [|d|d] eqn:Hd; [lia| |lia]. cbn. lia.
Qed.
Lemma binary_round_canonical sx m e : canonical (binary_round prec emax sx m e).
Proof.
  unfold binary_round. change (Z.pos (digits2_pos m)) with (digits m).
  pose proof (round_unsettled m e) as H. destruct (shl_align m e _) as [mz ez]. by apply aux_canonical.
Qed.
Lemma binary_round_signed sx m e : femin ≤ e → signed_as sx (binary_round prec emax sx m e).
Proof.
  intros He. unfold binary_round. change (Z.pos (digits2_pos m)) with (digits m).
  destruct (shl_align m e _) as [mz ez] eqn:Hs. apply aux_signed; [lia|].
  revert Hs. unfold shl_align. destruct (ffexp (digits m + e) - e) eqn:Hd; intros [= <- <-]; [lia|lia|].
  rewrite ffexp_value, femin_value. lia.
Qed.

(** *** The operations give canonical numbers *)
Lemma num_of_Z_canonical z : canonical (num_of_Z z).
Proof. unfold num_of_Z, binary_normalize. destruct z; [done|apply binary_round_canonical..]. Qed.
Lemma normalize_canonical m e s : canonical (binary_normalize prec emax m e s).
Proof. unfold binary_normalize. destruct m; [done|apply binary_round_canonical..]. Qed.
Lemma num_add_canonical x y : canonical x → canonical y → canonical (num_add x y).
Proof.
  intros Hx Hy. destruct x as [s|s| |s m e], y as [t|t| |t m' e']; try done; cbn.
  - by destruct s, t.
  - by destruct s, t.
  - apply normalize_canonical.
Qed.
Lemma num_sub_canonical x y : canonical x → canonical y → canonical (num_sub x y).
Proof.
  intros Hx Hy. destruct x as [s|s| |s m e], y as [t|t| |t m' e']; try done; cbn.
  - by destruct s, t.
  - by destruct s, t.
  - apply normalize_canonical.
Qed.
Lemma canonical_range s m e : canonical (S754_finite s m e) → femin ≤ e ∧ digits m ≤ 53 ∧ (femin < e → digits m = 53).
Proof. cbn. rewrite ffexp_value, femin_value. lia. Qed.
Lemma digits_mul m n : digits m + digits n - 1 ≤ digits (m * n).
Proof.
  destruct (digits_bounds m) as [Hm _], (digits_bounds n) as [Hn _], (digits_bounds (m * n)) as [_ H].
  pose proof (digits_pos m). pose proof (digits_pos n). pose proof (digits_pos (m * n)).
  assert (digits m - 1 + (digits n - 1) < digits (m * n)); [|lia].
  apply (Z.pow_lt_mono_r_iff 2); [lia|lia|]. eapply Z.le_lt_trans; [|exact H].
  rewrite Z.pow_add_r, Pos2Z.inj_mul by lia. apply Z.mul_le_mono_nonneg; lia.
Qed.
Lemma num_mul_canonical x y : canonical x → canonical y → canonical (num_mul x y).
Proof.
  intros Hx Hy. destruct x as [s|s| |s m e], y as [t|t| |t m' e']; try done.
  apply canonical_range in Hx as (Hx1 & Hx2 & Hx3), Hy as (Hy1 & Hy2 & Hy3).
  apply aux_canonical. cbn [unsettled]. pose proof (digits_mul m m'). pose proof (digits_pos m).
  pose proof (digits_pos m'). rewrite ffexp_value, femin_value in *.
  destruct (Z.eq_dec e (-1074)) as [->|He]; [destruct (Z.eq_dec e' (-1074)) as [->|He']|]; lia.
Qed.
Lemma digits_quotient m1 m2 s q :
  0 ≤ s → (Z.pos m1 * 2 ^ s) / Z.pos m2 = Z.pos q → digits m1 + s - digits m2 ≤ digits q.
Proof.
  intros Hs Hq. destruct (digits_bounds m1) as [H1 _], (digits_bounds m2) as [_ H2].
  destruct (digits_bounds q) as [_ H3]. pose proof (digits_pos m1). pose proof (digits_pos m2).
  pose proof (digits_pos q). destruct (Z.lt_ge_cases (digits m1 + s - 1) (digits q + digits m2)) as [|Hge]; [lia|].
  exfalso. assert (Hlt : Z.pos m1 * 2 ^ s < Z.pos m2 * (Z.pos q + 1)).
  { pose proof (Z.mul_succ_div_gt (Z.pos m1 * 2 ^ s) (Z.pos m2) ltac:(lia)) as Hmul. rewrite Hq in Hmul. lia. }
  assert (2 ^ (digits m1 - 1) * 2 ^ s ≤ Z.pos m1 * 2 ^ s) by (apply Z.mul_le_mono_nonneg_r; lia).
  assert (Z.pos m2 * (Z.pos q + 1) ≤ 2 ^ digits m2 * 2 ^ digits q) by (apply Z.mul_le_mono_nonneg; lia).
  rewrite <-!Z.pow_add_r in * by lia.
  assert (2 ^ (digits m2 + digits q) ≤ 2 ^ (digits m1 - 1 + s)) by (apply Z.pow_le_mono_r; lia). lia.
Qed.
Lemma num_div_canonical x y : canonical (num_div x y).
Proof.
  destruct x as [s|s| |s m1 e1], y as [t|t| |t m2 e2]; try done.
  unfold num_div, SFdiv, SFdiv_core_binary.
  change (Zdigits2 (Z.pos m1)) with (digits m1). change (Zdigits2 (Z.pos m2)) with (digits m2).
  set (f := ffexp (digits m1 + e1 - (digits m2 + e2))). set (e' := Z.min f (e1 - e2)). cbv zeta.
  set (k := e1 - e2 - e'). assert (Hk : 0 ≤ k) by (subst k e'; lia).
  set (m' := match k with Z0 => _ | Z.pos _ => _ | Z.neg _ => _ end).
  assert (Hm' : m' = Z.pos m1 * 2 ^ k).
  { subst m'. destruct k; [by rewrite Z.mul_1_r|by apply Z.shiftl_mul_pow2|lia]. }
  clearbody m'. subst m'.
  pose proof (Z.div_mod (Z.pos m1 * 2 ^ k) (Z.pos m2) ltac:(lia)) as _.
  destruct (Z.div_eucl (Z.pos m1 * 2 ^ k) (Z.pos m2)) as [q r] eqn:Hq.
  assert (Hq' : (Z.pos m1 * 2 ^ k) / Z.pos m2 = q) by (unfold Z.div; by rewrite Hq).
  apply aux_canonical. destruct q as [|q|q]; cbn [unsettled].
  - assert (Hlt : Z.pos m1 * 2 ^ k < Z.pos m2).
    { pose proof (Z.mul_succ_div_gt (Z.pos m1 * 2 ^ k) (Z.pos m2) ltac:(lia)) as H. rewrite Hq' in H. lia. }
    destruct (digits_bounds m1) as [H1 _], (digits_bounds m2) as [_ H2]. pose proof (digits_pos m1).
    pose proof (digits_pos m2).
    assert (2 ^ (digits m1 - 1) * 2 ^ k ≤ Z.pos m1 * 2 ^ k) by (apply Z.mul_le_mono_nonneg_r; lia).
    rewrite <-Z.pow_add_r in * by lia.
    assert (digits m1 - 1 + k < digits m2) by (apply (Z.pow_lt_mono_r_iff 2); lia).
    subst k e' f. rewrite ffexp_value, femin_value in *. lia.
  - pose proof (digits_quotient m1 m2 k q Hk Hq') as Hd. subst k e'.
    assert (Hf : f ≤ ffexp (digits q + Z.min f (e1 - e2))); [|lia].
    subst f. rewrite !ffexp_value in *. lia.
  - assert (0 ≤ Z.pos m1 * 2 ^ k / Z.pos m2) by (apply Z.div_pos; lia). lia.
Qed.
Lemma num_of_decimal_canonical s m e : canonical (num_of_decimal s m e).
Proof.
  unfold num_of_decimal. destruct m as [|p|p]; [done| |done]. destruct (0 <=? e).
  - destruct (Z.pos p * 10 ^ e); [done| |done]. apply binary_round_canonical.
  - destruct (10 ^ (- e)); [done| |done]. apply num_div_canonical.
Qed.
Lemma num_neg_canonical x : canonical x → canonical (num_neg x).
Proof. by destruct x. Qed.
Lemma num_max_canonical x y : canonical x → canonical y → canonical (num_max x y).
Proof.
  intros Hx Hy. unfold num_max. destruct (is_nan x || is_nan y); [done|].
  assert (canonical (if num_ltb x y then y else x)) by by destruct (num_ltb x y).
  by destruct x, y.
Qed.
#[export] Hint Resolve num_of_Z_canonical num_add_canonical num_sub_canonical num_mul_canonical
  num_div_canonical num_of_decimal_canonical num_neg_canonical num_max_canonical : canonical.

(** *** Comparisons *)
Lemma val_finite s m e : val (S754_finite s m e) = signed s (1) * (Z.pos m * 2 ^ (e - femin)).
Proof. unfold val, signed. destruct s; lia. Qed.
Lemma canonical_lt m1 e1 m2 e2 :
  canonical (S754_finite false m1 e1) → canonical (S754_finite false m2 e2) → e1 < e2 →
  Z.pos m1 * 2 ^ (e1 - femin) < Z.pos m2 * 2 ^ (e2 - femin).
Proof.
  intros (H1 & Hd1 & _)%canonical_range (H2 & _ & Hd2)%canonical_range Hlt.
  specialize (Hd2 ltac:(lia)). destruct (digits_bounds m1) as [_ Hm1], (digits_bounds m2) as [Hm2 _].
  assert (Z.pos m1 < 2 ^ 53) by (eapply Z.lt_le_trans; [exact Hm1|apply Z.pow_le_mono_r; lia]).
  rewrite Hd2 in Hm2. change (53 - 1) with 52 in Hm2.
  apply Z.lt_le_trans with (2 ^ 53 * 2 ^ (e1 - femin)); [apply Z.mul_lt_mono_pos_r; lia|].
  rewrite <-Z.pow_add_r by lia. apply Z.le_trans with (2 ^ (52 + (e2 - femin))).
  - apply Z.pow_le_mono_r; lia.
  - rewrite Z.pow_add_r by lia. apply Z.mul_le_mono_nonneg_r; lia.
Qed.
Lemma compare_pos m1 e1 m2 e2 :
  canonical (S754_finite false m1 e1) → canonical (S754_finite false m2 e2) →
  (match e1 ?= e2 with Lt => Lt | Gt => Gt | Eq => Pos.compare_cont Eq m1 m2 end)
  = (Z.pos m1 * 2 ^ (e1 - femin) ?= Z.pos m2 * 2 ^ (e2 - femin)).
Proof.
  intros H1 H2. pose proof (canonical_range _ _ _ H1) as (Hr1 & _). 
  destruct (Z.compare_spec e1 e2) as [<-|Hlt|Hgt].
  - change (Pos.compare_cont Eq m1 m2) with (Z.pos m1 ?= Z.pos m2).
    assert (Hp : 0 < 2 ^ (e1 - femin)) by (apply Z.pow_pos_nonneg; lia).
    rewrite !(Z.mul_comm _ (2 ^ (e1 - femin))). apply Zmult_compare_compat_l. lia.
  - symmetry. apply Z.compare_lt_iff. by apply canonical_lt.
  - symmetry. apply Z.compare_gt_iff. by apply canonical_lt.
Qed.
Lemma val_zero_range x : is_finite x = true → canonical x → val x = 0 ↔ ∃ s, x = S754_zero s.
Proof.
  intros Hf Hc. destruct x as [s|s| |s m e]; [by split; [exists s|]|done|done|].
  apply canonical_range in Hc as (He & _). assert (0 < 2 ^ (e - femin)) by (apply Z.pow_pos_nonneg; lia).
  split; [|by intros [t Ht]]. cbn. destruct s; cbn [signed]; intros Hz; nia.
Qed.
Lemma val_pos m e : femin ≤ e → 0 < Z.pos m * 2 ^ (e - femin).
Proof. intros He. assert (0 < 2 ^ (e - femin)) by (apply Z.pow_pos_nonneg; lia). nia. Qed.
(** Finite numbers compare as their values do. *)
Lemma num_compare x y :
  is_finite x = true → is_finite y = true → canonical x → canonical y →
  SFcompare x y = Some (val x ?= val y).
Proof.
  intros Hfx Hfy Hx Hy. destruct x as [s|s| |s m e]; try done; destruct y as [t|t| |t m' e']; try done.
  - pose proof (val_pos m' e' (proj1 (canonical_range _ _ _ Hy))). destruct t; cbn [SFcompare val signed];
      f_equal; symmetry; [apply Z.compare_gt_iff|apply Z.compare_lt_iff]; lia.
  - pose proof (val_pos m e (proj1 (canonical_range _ _ _ Hx))). destruct s; cbn [SFcompare val signed];
      f_equal; symmetry; [apply Z.compare_lt_iff|apply Z.compare_gt_iff]; lia.
  - pose proof (val_pos m e (proj1 (canonical_range _ _ _ Hx))).
    pose proof (val_pos m' e' (proj1 (canonical_range _ _ _ Hy))).
    pose proof (compare_pos m e m' e' Hx Hy) as Hcmp.
    destruct s, t; cbn [SFcompare val signed]; f_equal.
    + rewrite <-!Pos2Z.opp_pos, !Z.mul_opp_l, Z.compare_opp, (Z.compare_antisym (Z.pos m * 2 ^ (e - femin))), <-Hcmp.
      by destruct (e ?= e').
    + symmetry. apply Z.compare_lt_iff. lia.
    + symmetry. apply Z.compare_gt_iff. lia.
    + exact Hcmp.
Qed.
Lemma num_ltb_val x y :
  is_finite x = true → is_finite y = true → canonical x → canonical y → num_ltb x y = (val x <? val y).
Proof. intros. unfold num_ltb, SFltb. rewrite num_compare by done. unfold Z.ltb. by destruct (_ ?= _). Qed.
Lemma num_leb_val x y :
  is_finite x = true → is_finite y = true → canonical x → canonical y → num_leb x y = (val x <=? val y).
Proof. intros. unfold num_leb, SFleb. rewrite num_compare by done. unfold Z.leb. by destruct (_ ?= _). Qed.
Lemma num_eqb_val x y :
  is_finite x = true → is_finite y = true → canonical x → canonical y → num_eqb x y = (val x =? val y).
Proof.
  intros. unfold num_eqb, SFeqb. rewrite num_compare by done.
  destruct (Z.compare_spec (val x) (val y)) as [->|Hlt|Hgt]; symmetry.
  - apply Z.eqb_refl.
  - apply Z.eqb_neq. lia.
  - apply Z.eqb_neq. lia.
Qed.
(** The sign of a difference is the sign of the difference of the values. *)
Lemma signed_as_sign s x : signed_as s x → num_sign x = if s then -1 else 1.
Proof. by destruct x; cbn; intros Hs; try done; subst. Qed.
Lemma normalize_sign m e : femin ≤ e → num_sign (binary_normalize prec emax m e false) = Z.sgn m.
Proof.
  intros He. destruct m as [|p|p]; [done| |]; cbn [binary_normalize];
    by rewrite (signed_as_sign _ _ (binary_round_signed _ p e He)).
Qed.
Lemma aligned m e ez : ez ≤ e → femin ≤ ez →
  Z.pos (shl_align m e ez).1 * 2 ^ (ez - femin) = Z.pos m * 2 ^ (e - femin).
Proof.
  intros Hle He. destruct (shl_align_spec m e ez Hle) as [-> _].
  rewrite <-Z.mul_assoc, <-Z.pow_add_r by lia. f_equal. f_equal. lia.
Qed.
Lemma cond_opp_signed s p : cond_Zopp s (Z.pos p) = signed s p.
Proof. by destruct s. Qed.
Lemma num_sub_sign x y :
  is_finite x = true → is_finite y = true → canonical x → canonical y →
  num_sign (num_sub x y) = Z.sgn (val x - val y).
Proof.
  intros Hfx Hfy Hx Hy. destruct x as [s|s| |s m e]; try done; destruct y as [t|t| |t m' e']; try done.
  - by destruct s, t.
  - pose proof (val_pos m' e' (proj1 (canonical_range _ _ _ Hy))). destruct t; cbn; lia.
  - pose proof (val_pos m e (proj1 (canonical_range _ _ _ Hx))). destruct s; cbn; lia.
  - apply canonical_range in Hx as (He & _), Hy as (He' & _).
    unfold num_sub, SFsub. set (ez := Z.min e e'). cbv zeta.
    rewrite normalize_sign by lia. rewrite !cond_opp_signed.
    assert (Hp : 0 < 2 ^ (ez - femin)) by (apply Z.pow_pos_nonneg; lia).
    assert (Hv : ∀ u p d, ez ≤ d → val (S754_finite u p d) = signed u (shl_align p d ez).1 * 2 ^ (ez - femin)).
    { intros u p d Hd. cbn [val]. destruct u; cbn [signed]; rewrite <-?Pos2Z.opp_pos, ?Z.mul_opp_l;
        rewrite aligned by lia; lia. }
    rewrite (Hv s m e), (Hv t m' e') by lia.
    rewrite <-Z.mul_sub_distr_r, Z.sgn_mul, (Z.sgn_pos (2 ^ _)) by done. lia.
Qed.

(** *** Sorting by a rounded difference *)
Lemma js_insert_ext {A} (f g : A → A → Z) x l :
  (∀ y, y ∈ l → (f x y <=? 0) = (g x y <=? 0)) → js_insert f x l = js_insert g x l.
Proof.
  induction l as [|y l IH]; intros H; [done|]. cbn. rewrite (H y) by by left.
  destruct (g x y <=? 0); [done|]. f_equal. apply IH. intros z Hz. apply H. by right.
Qed.
(** Only the signs of a comparator on the elements of the list matter. *)
Lemma js_sort_ext {A} (f g : A → A → Z) l :
  (∀ x y, x ∈ l → y ∈ l → (f x y <=? 0) = (g x y <=? 0)) → js_sort f l = js_sort g l.
Proof.
  induction l as [|x l IH]; intros H; [done|]. cbn.
  change (foldr (js_insert f) [] l) with (js_sort f l).
  change (foldr (js_insert g) [] l) with (js_sort g l).
  rewrite IH by (intros y z Hy Hz; apply H; by right).
  apply js_insert_ext. intros y Hy%js_sort_elem. apply H; [by left|by right].
Qed.
Definition good_number (x : number) : Prop := is_finite x = true ∧ canonical x.
(** [(a, b) => b.key - a.key] on numbers *)
Definition by_num_desc {A} (key : A → number) (a b : A) : Z := num_sign (num_sub (key b) (key a)).
Lemma by_num_desc_sorts {A} (key : A → number) l :
  Forall (λ x, good_number (key x)) l →
  js_sort (by_num_desc key) l = js_sort (by_desc (λ x, val (key x))) l.
Proof.
  intros Hl. rewrite Forall_forall in Hl. apply js_sort_ext. intros x y Hx Hy.
  destruct (Hl x Hx) as [Fx Cx], (Hl y Hy) as [Fy Cy].
  unfold by_num_desc, by_desc. rewrite num_sub_sign by done.
  destruct (Z.leb_spec (Z.sgn (val (key y) - val (key x))) 0), (Z.leb_spec (val (key y) - val (key x)) 0); lia.
Qed.
