(* ===== verification/SearchKit.v ===== *)
(** * Queries and replies of the search module

    [packages/valkey-search-kit/src] ([tags.ts], [ft-search.ts], [errors.ts], [ft-info.ts]) and the
    replies of [client.call] it reads, with the query reader the specification uses: what a search
    server takes a filter built from escaped tags for. *)
From S2P Require Export JsNumber.
From stdpp Require Import options.

(** ** Definitions *)

(** A value [client.call] resolves to: null, a string, an integer, an array or a plain object *)
Inductive reply :=
  | R_null
  | R_str (s : string)
  | R_int (z : Z)
  | R_arr (l : list reply)
  | R_obj (fields : list (string * reply)).
(** [String(value)]: inside an array null prints as the empty string *)
Fixpoint string_of_reply (r : reply) : string :=
  match r with
  | R_null => "null"
  | R_str s => s
  | R_int z => string_of_Z z
  | R_arr l => join "," (map (λ e, match e with R_null => EmptyString | _ => string_of_reply e end) l)
  | R_obj _ => "[object Object]"
  end.
(** [Number(value)], [None] for [NaN]; commands send no fractions, which are not told apart *)
Definition int_of_reply (r : reply) : option Z :=
  match r with
  | R_null => Some 0
  | R_str s => num_to_Z (num_of_string s)
  | R_int z => Some z
  | R_arr _ => num_to_Z (num_of_string (string_of_reply r))
  | R_obj _ => None
  end.

(** *** Tags *)
Definition tag_special (c : ascii) : bool :=
  includes (String c EmptyString) ",.<>{}[]':;!@#$%^&*()-+=~|/ "
  || bool_decide (c = quote_char) || bool_decide (c = backslash).
Definition escape_tag_char (c : ascii) : string :=
  if tag_special c then String backslash (String c EmptyString) else String c EmptyString.
Definition escapeTag : string → string := str_flat_map escape_tag_char.

(** *** Vectors: the little-endian bytes of the numbers rounded to binary32 *)
Definition f32_round (x : number) : number :=
  match x with S754_finite s m e => binary_normalize 24 128 (signed s m) e s | _ => x end.
Definition f32_bits (x : number) : Z :=
  let sign (s : bool) := if s then 2 ^ 31 else 0 in
  match f32_round x with
  | S754_zero s => sign s
  | S754_infinity s => sign s + 255 * 2 ^ 23
  | S754_nan => 255 * 2 ^ 23 + 2 ^ 22
  | S754_finite s m e =>
      sign s + (if Z.pos m <? 2 ^ 23 then Z.pos m else (e + 150) * 2 ^ 23 + (Z.pos m - 2 ^ 23))
  end.
Definition byte_at (k bits : Z) : ascii := ascii_of_N (Z.to_N (Z.land (Z.shiftr bits (8 * k)) 255)).
Definition writeFloatLE (x : number) : string :=
  let b := f32_bits x in
  String (byte_at 0 b) (String (byte_at 1 b) (String (byte_at 2 b) (String (byte_at 3 b) EmptyString))).
Definition encodeFloat32 (vec : list number) : string := foldr (λ x s, writeFloatLE x +:+ s) EmptyString vec.

(** *** Search replies *)
Record FtSearchHit := { fh_key : string; fh_fields : list (string * string) }.
(** The field list, two entries at a time; an odd one at the end is dropped. *)
Fixpoint field_pairs (l : list reply) (fields : list (string * string)) : list (string * string) :=
  match l with
  | name :: value :: l =>
      field_pairs l (jm_set (string_of_reply name) (string_of_reply value) fields)
  | _ => fields
  end.
Fixpoint search_hits (l : list reply) : list FtSearchHit :=
  match l with
  | [] => []
  | R_str key :: R_arr fieldList :: l =>
      {| fh_key := key; fh_fields := field_pairs fieldList [] |} :: search_hits l
  | R_str key :: l => {| fh_key := key; fh_fields := [] |} :: search_hits l
  | _ :: l => search_hits l
  end.
Definition total_of (r : reply) : option Z :=
  match r with R_str s => parse_int s | _ => int_of_reply r end.
Definition parseFtSearchResponse (raw : reply) : list FtSearchHit :=
  match raw with
  | R_arr (count :: l) =>
      match total_of count with
      | Some totalCount => if totalCount <=? 0 then [] else search_hits l
      | None => []
      end
  | _ => []
  end.

(** *** Errors and index statistics *)
Definition isIndexNotFoundError (msg : string) : bool :=
  let msg := to_lower msg in
  includes "unknown index name" msg || includes "no such index" msg
  || (includes "not found" msg && includes "index" msg).
Record FtIndexStats := { fi_numDocs : Z; fi_indexingState : string }.
(** [parseInt(text, 10) || 0] *)
Definition int_or_zero (s : string) : Z := default 0 (parse_int s).
Fixpoint info_stats (l : list reply) (st : FtIndexStats) : FtIndexStats :=
  match l with
  | key :: value :: l =>
      let key := string_of_reply key in
      info_stats l
        (if str_eqb key "num_docs" then
           {| fi_numDocs := int_or_zero (string_of_reply value); fi_indexingState := fi_indexingState st |}
         else if str_eqb key "indexing" then
           {| fi_numDocs := fi_numDocs st; fi_indexingState := string_of_reply value |}
         else st)
  | _ => st
  end.
Definition parseFtInfoStats (info : list reply) : FtIndexStats :=
  info_stats info {| fi_numDocs := 0; fi_indexingState := "unknown" |}.

(** The loops over neighbouring entries: each entry but the last is a name. *)
Fixpoint neighbours {A B} (f : A → A → B → B) (l : list A) (acc : B) : B :=
  match l with
  | a :: l' => match l' with b :: _ => neighbours f l' (f a b acc) | [] => acc end
  | [] => acc
  end.
Definition dimensions_in (indexArr : list reply) (dim : Z) : Z :=
  neighbours (λ name value dim,
    if str_eqb (string_of_reply name) "dimensions" then
      let d := int_or_zero (string_of_reply value) in
      if 0 <? d then d else dim
    else dim) indexArr dim.
(** Whether an attribute is a vector, and its dimension *)
Definition attribute_dim (attr : list reply) : bool * Z :=
  neighbours (λ name value '(isVector, dim),
    let attrKey := string_of_reply name in
    let isVector := isVector || (str_eqb attrKey "type" && str_eqb (string_of_reply value) "VECTOR") in
    let dim := if str_eqb (to_lower attrKey) "dim" then int_or_zero (string_of_reply value) else dim in
    let dim := match value with
               | R_arr indexArr => if str_eqb attrKey "index" then dimensions_in indexArr dim else dim
               | _ => dim
               end in
    (isVector, dim)) attr (false, 0).
Fixpoint first_dim (attributes : list reply) : option Z :=
  match attributes with
  | [] => None
  | R_arr attr :: attributes =>
      let '(isVector, dim) := attribute_dim attr in
      if isVector && (0 <? dim) then Some dim else first_dim attributes
  | _ :: attributes => first_dim attributes
  end.
Fixpoint parseDimensionFromInfo (info : list reply) : Z :=
  match info with
  | key :: attributes :: info =>
      let key := string_of_reply key in
      match attributes with
      | R_arr attributes =>
          if str_eqb key "attributes" || str_eqb key "fields" then
            match first_dim attributes with Some dim => dim | None => parseDimensionFromInfo info end
          else parseDimensionFromInfo info
      | _ => parseDimensionFromInfo info
      end
  | _ => 0
  end.

(** ** Checks *)
Example encode_ex :
  map f32_bits [parse_float "1.5"; parse_float "-0.1"; parse_float "1e-40"; parse_float "1e39"; nan]
  = [0x3fc00000; 0xbdcccccd; 71362; 0x7f800000; 0x7fc00000].
Proof. vm_compute. reflexivity. Qed.
Example escape_ex : escapeTag "a-b c|d}" = "a\-b\ c\|d\}".
Proof. reflexivity. Qed.

(** ** Specification *)

(** What the server reads: clauses on a field, tags (one of the values; [-] excludes them) or a
    closed range.  Inside braces a backslash takes the next character as it is; [|] and a space
    separate values. *)
Inductive clause :=
  | K_tag (negated : bool) (field : string) (values : list string)
  | K_range (field lo hi : string).
Definition word_char (c : ascii) : bool :=
  is_digit c || in_range 65 90 c || in_range 97 122 c || in_range 95 95 c.
(** The value being read, the values after it and the text after the closing brace *)
Fixpoint read_tag (s : string) : option (string * list string * string) :=
  match s with
  | EmptyString => None
  | String c s' =>
      if ascii_dec c "}" then Some (EmptyString, [], s')
      else if ascii_dec c backslash then
        match s' with
        | String d s'' => '(v, vs, rest) ← read_tag s''; Some (String d v, vs, rest)
        | EmptyString => None
        end
      else '(v, vs, rest) ← read_tag s';
           if ascii_dec c "|" then Some (EmptyString, v :: vs, rest)
           else if ascii_dec c " " then Some (EmptyString, v :: vs, rest)
           else Some (String c v, vs, rest)
  end.
Definition bound_char (c : ascii) : bool :=
  word_char c || includes (String c EmptyString) "+-.".
Definition read_char (c : ascii) (s : string) : option string :=
  match s with String d s' => if ascii_dec c d then Some s' else None | EmptyString => None end.
Definition read_clause (s : string) : option (clause * string) :=
  let '(negated, s) := match read_char "-" s with Some s' => (true, s') | None => (false, s) end in
  s ← read_char "@" s;
  let '(field, s) := span word_char s in
  s ← read_char ":" s;
  match read_char "{" s with
  | Some s => '(v, vs, rest) ← read_tag s; Some (K_tag negated field (v :: vs), rest)
  | None =>
      s ← read_char "[" s;
      let '(lo, s) := span bound_char s in
      s ← read_char " " s;
      let '(hi, s) := span bound_char s in
      rest ← read_char "]" s;
      if negated then None else Some (K_range field lo hi, rest)
  end.
Fixpoint read_clauses (fuel : nat) (s : string) : option (list clause * string) :=
  match fuel with
  | 0%nat => None
  | S fuel =>
      '(c, s) ← read_clause s;
      match read_char ")" s with
      | Some rest => Some ([c], rest)
      | None => s ← read_char " " s; '(cs, rest) ← read_clauses fuel s; Some (c :: cs, rest)
      end
  end.
(** A query is one clause, or clauses in parentheses; what follows is left. *)
Definition read_query (s : string) : option (list clause * string) :=
  match read_char "(" s with
  | Some s' => read_clauses (String.length s') s'
  | None => '(c, rest) ← read_clause s; Some ([c], rest)
  end.

(** The text of a clause *)
Definition tag_clause (negated : bool) (field value : string) : string :=
  (if negated then "-@" else "@") +:+ field +:+ ":{" +:+ escapeTag value +:+ "}".
Definition range_clause (field lo hi : string) : string :=
  "@" +:+ field +:+ ":[" +:+ lo +:+ " " +:+ hi +:+ "]".
(** [text] reads as [c], whatever comes after it. *)
Definition reads_clause (text : string) (c : clause) : Prop :=
  ∀ rest, read_clause (text +:+ rest) = Some (c, rest).

(** ** Lemmas *)
Lemma read_tag_escaped v rest :
  read_tag (escapeTag v +:+ String "}" rest) = Some (v, [], rest).
Proof.
  unfold escapeTag. induction v as [|c v IH]; [done|]. cbn [str_flat_map]. rewrite str_app_assoc.
  unfold escape_tag_char at 1. destruct (tag_special c) eqn:Hc; cbn [String.append].
  - cbn [read_tag]. by rewrite IH.
  - cbn [read_tag]. rewrite IH. cbn.
    destruct (ascii_dec c "}") as [->|]; [done|]. destruct (ascii_dec c backslash) as [->|]; [done|].
    destruct (ascii_dec c "|") as [->|]; [done|]. by destruct (ascii_dec c " ") as [->|].
Qed.
Lemma tag_clause_reads negated field value :
  str_forall word_char field = true →
  reads_clause (tag_clause negated field value) (K_tag negated field [value]).
Proof.
  intros Hf rest. unfold tag_clause.
  assert (Hr : ∀ t, read_clause ((if negated then "-@" else "@") +:+ t)
    = (let '(f, s) := span word_char t in
       s ← read_char ":" s;
       match read_char "{" s with
       | Some s => '(v, vs, rest) ← read_tag s; Some (K_tag negated f (v :: vs), rest)
       | None =>
           s ← read_char "[" s; let '(lo, s) := span bound_char s in
           s ← read_char " " s; let '(hi, s) := span bound_char s in
           rest ← read_char "]" s; if negated then None else Some (K_range f lo hi, rest)
       end)) by by destruct negated.
  rewrite !str_app_assoc, Hr. cbn [String.append]. rewrite (span_app word_char field) by done. cbn.
  by rewrite read_tag_escaped.
Qed.
Lemma range_clause_reads field lo hi :
  str_forall word_char field = true → str_forall bound_char lo = true → str_forall bound_char hi = true →
  reads_clause (range_clause field lo hi) (K_range field lo hi).
Proof.
  intros Hf Hlo Hhi rest. unfold range_clause, read_clause. cbn [String.append read_char].
  rewrite !str_app_assoc. cbn [String.append]. cbn. rewrite (span_app word_char field) by done. cbn.
  rewrite str_app_assoc. cbn [String.append]. rewrite (span_app bound_char lo) by done. cbn.
  rewrite ?str_app_assoc. cbn [String.append]. rewrite (span_app bound_char hi) by done. done.
Qed.
Lemma read_clauses_joined texts cs rest :
  texts ≠ [] → Forall2 reads_clause texts cs → ∀ fuel, (length texts ≤ fuel)%nat →
  read_clauses fuel (join " " texts +:+ String ")" rest) = Some (cs, rest).
Proof.
  intros Hne HF. induction HF as [|t c texts cs Hread HF IH]; [done|]. intros fuel Hfuel.
  destruct fuel as [|fuel]; [cbn in Hfuel; lia|]. cbn [read_clauses].
  destruct texts as [|t' texts].
  - inversion HF; subst. cbn [join]. by rewrite Hread.
  - change (join " " (t :: t' :: texts)) with (t +:+ " " +:+ join " " (t' :: texts)).
    rewrite !str_app_assoc. cbn [String.append]. rewrite Hread. cbn [mbind option_bind read_char].
    destruct (ascii_dec ")" " ") as [|_]; [done|]. destruct (ascii_dec " " " ") as [_|]; [|done].
    cbn. rewrite IH; [done|done|]. cbn in *. lia.
Qed.
Lemma read_query_joined texts cs rest :
  texts ≠ [] → Forall2 reads_clause texts cs →
  read_query ("(" +:+ join " " texts +:+ ")" +:+ rest) = Some (cs, rest).
Proof.
  intros Hne HF. unfold read_query. cbn [String.append read_char].
  destruct (ascii_dec "(" "(") as [_|]; [|done]. apply read_clauses_joined; [done|done|].
  rewrite str_app_length. etrans; [|apply Nat.le_add_r].
  assert (Hlen : Forall (λ t, t ≠ EmptyString) texts).
  { clear Hne. induction HF as [|t c texts cs Ht _ IH]; constructor; [|done].
    intros ->. by specialize (Ht EmptyString). }
  clear HF Hne. induction Hlen as [|t texts Ht _ IH]; [done|].
  destruct t as [|a t]; [done|]. destruct texts as [|t' texts]; [cbn; lia|].
  change (join " " (String a t :: t' :: texts)) with (String a t +:+ " " +:+ join " " (t' :: texts)).
  rewrite !str_app_length. cbn [length String.length] in *. lia.
Qed.

(** A reply of the server, in the two shapes of [total] *)
Definition hit_reply (h : FtSearchHit) : list reply :=
  [R_str (fh_key h); R_arr (flat_map (λ '(k, v), [R_str k; R_str v]) (fh_fields h))].
Definition search_reply (total : Z) (hits : list FtSearchHit) : reply :=
  R_arr (R_int total :: flat_map hit_reply hits).

Lemma jm_set_new k v (m : list (string * string)) : k ∉ m.*1 → jm_set k v m = m ++ [(k, v)].
Proof.
  induction m as [|[k' v'] m IH]; intros Hk; [done|]. cbn in *.
  apply not_elem_of_cons in Hk as [Hne Hk]. rewrite decide_False by done. by rewrite IH.
Qed.
Lemma field_pairs_read fields : ∀ acc,
  NoDup (acc.*1 ++ fields.*1) →
  field_pairs (flat_map (λ '(k, v), [R_str k; R_str v]) fields) acc = acc ++ fields.
Proof.
  induction fields as [|[k v] fields IH]; intros acc Hnd; cbn; [by rewrite app_nil_r|].
  cbn in Hnd. rewrite jm_set_new.
  - rewrite IH; [by rewrite <-app_assoc|]. rewrite fmap_app. cbn. by rewrite <-app_assoc.
  - intros Hin. apply NoDup_app in Hnd as (_ & Hd & _). apply (Hd k Hin). by left.
Qed.
Lemma search_hits_read hits :
  Forall (λ h, NoDup (fh_fields h).*1) hits → search_hits (flat_map hit_reply hits) = hits.
Proof.
  induction 1 as [|h hits Hh _ IH]; [done|]. cbn. rewrite field_pairs_read by done. rewrite IH.
  by destruct h.
Qed.
Lemma search_reply_read total hits :
  0 < total → Forall (λ h, NoDup (fh_fields h).*1) hits →
  parseFtSearchResponse (search_reply total hits) = hits.
Proof.
  intros Ht Hh. cbn. destruct (Z.leb_spec total 0); [lia|]. by apply search_hits_read.
Qed.
