(* ===== verification/MonitorLine.v ===== *)
(** * Monitor lines

    [apps/api/src/monitor/monitor-line.parser.ts] (parsing, filtering and CSV
    export of the text lines of a capture) and the line formatter of
    [apps/api/src/monitor/iovalkey-monitor-source.ts], which produces them.
    The header regular expression is written out as the search its backtracking
    performs, the glob filter as the regular expression it compiles to. *)
From S2P Require Export JsNumber.
From stdpp Require Import options.

(** ** Definitions *)
Record ParsedMonitorLine := {
  pl_ts : number;
  pl_tsRaw : string;
  pl_db : Z;
  pl_addr : string;
  pl_cmd : string;
  pl_args : list string;
  pl_key : option string;
  pl_raw : string
}.

(** *** The header

    [HEADER_RE] reads a timestamp of digits and dots, white space, [\[], the
    database digits, white space, the shortest non-empty address, [\]], white
    space, and a tail that begins with a quote and runs to the end of the line. *)
Definition is_ts_char (c : ascii) : bool := is_digit c || bool_decide (c = "."%char).

(** The closing bracket, the white space and the tail: the quote is not white space, so [\s+] takes the whole run;
    the tail has to reach the end of the input. *)
Definition close_match (u : string) : option string :=
  match u with
  | String c v =>
      if ascii_dec c "]" then
        match ws_len v with
        | O => None
        | _ =>
            match skip_ws v with
            | String q x =>
                if bool_decide (q = quote_char) && negb (is_empty x) && no_line_end x
                then Some (String q x) else None
            | EmptyString => None
            end
        end
      else None
  | EmptyString => None
  end.

(** The address, read lazily: the shortest non-empty address that lets the rest match. *)
Fixpoint addr_match (u : string) : option (string * string) :=
  match u with
  | EmptyString => None
  | String c u' =>
      if line_end_at u then None
      else match close_match u' with
           | Some rest => Some (String c EmptyString, rest)
           | None =>
               match addr_match u' with
               | Some (a, rest) => Some (String c a, rest)
               | None => None
               end
           end
  end.

(** The suffixes [\s+] can leave, longest match first. *)
Fixpoint ws_suffixes (fuel : nat) (s : string) : list string :=
  match fuel with
  | O => []
  | S f =>
      match ws_len s with
      | O => []
      | S k => let s' := str_drop (S k) s in ws_suffixes f s' ++ [s']
      end
  end.

Fixpoint first_some {A B} (f : A → option B) (l : list A) : option B :=
  match l with
  | [] => None
  | x :: l' => match f x with Some b => Some b | None => first_some f l' end
  end.

Definition match_header (line : string) : option (string * string * string * string) :=
  let '(t, s1) := span is_ts_char line in
  if is_empty t then None else
  match ws_len s1, skip_ws s1 with
  | O, _ => None
  | _, String c s3 =>
      if ascii_dec c "[" then
        let '(d, s4) := span is_digit s3 in
        if is_empty d then None else
        match first_some addr_match (ws_suffixes (String.length s4) s4) with
        | Some (a, rest) => Some (t, d, a, rest)
        | None => None
        end
      else None
  | _, EmptyString => None
  end.

(** *** [parseQuoted] *)

(** The inner loop: the text up to the closing quote (or the end), unescaped. *)
Fixpoint read_token (s : string) : string * string :=
  match s with
  | EmptyString => (EmptyString, EmptyString)
  | String c s' =>
      if ascii_dec c backslash then
        match s' with
        | EmptyString => (String c EmptyString, EmptyString)
        | String d s'' => let '(b, r) := read_token s'' in (String d b, r)
        end
      else if ascii_dec c quote_char then (EmptyString, s')
      else let '(b, r) := read_token s' in (String c b, r)
  end.

(** The outer loop; every turn consumes a quote, so the length bounds the turns. *)
Fixpoint parseQuoted_go (fuel : nat) (s : string) : list string :=
  match fuel with
  | O => []
  | S f =>
      match skip_ws s with
      | EmptyString => []
      | String c s' =>
          if ascii_dec c quote_char then
            let '(b, r) := read_token s' in b :: parseQuoted_go f r
          else []
      end
  end.
Definition parseQuoted (s : string) : list string := parseQuoted_go (S (String.length s)) s.

Definition parseMonitorLine (line : string) : option ParsedMonitorLine :=
  if is_empty line then None else
  match match_header line with
  | None => None
  | Some (tsRaw, dbRaw, addr, rest) =>
      match parseQuoted rest with
      | [] => None
      | c :: args =>
          Some {| pl_ts := math_round (num_mul (parse_float tsRaw) (num_of_Z 1000));
                  pl_tsRaw := tsRaw;
                  pl_db := digits_value dbRaw;
                  pl_addr := addr;
                  pl_cmd := to_upper c;
                  pl_args := args;
                  pl_key := head args;
                  pl_raw := line |}
      end
  end.

(** *** The formatter of the MONITOR adapter *)
Definition escape_char (c : ascii) : string :=
  if ascii_dec c backslash then String backslash (String backslash EmptyString)
  else if ascii_dec c quote_char then String backslash (String quote_char EmptyString)
  else String c EmptyString.
Definition escapeArg (s : string) : string := str_flat_map escape_char s.

Definition quoted (a : string) : string :=
  String quote_char (escapeArg a +:+ String quote_char EmptyString).
Definition formatMonitorLine (time : string) (args : list string) (source : string) (database : Z) : string :=
  time +:+ " [" +:+ string_of_Z database +:+ " " +:+ source +:+ "] " +:+ join " " (map quoted args).

(** *** Filters *)
Record MonitorLineFilters := {
  f_command : option string;
  f_client : option string;
  f_key : option string;
  f_afterTs : option number;
  f_beforeTs : option number
}.

(** The regular expression of a glob: the escaped characters stand for
    themselves, [*] becomes [.*] and [?] becomes [.]. *)
Inductive re_item := ReChar (c : N) | ReDot | ReDotStar.

Definition globToRegex (glob : string) : list re_item :=
  map (λ c : N, if (c =? 42)%N then ReDotStar else if (c =? 63)%N then ReDot else ReChar c)
      (utf16 glob).

Definition line_terminator (c : N) : bool :=
  ((c =? 10) || (c =? 13) || (c =? 8232) || (c =? 8233))%N.

(** [new RegExp('^' + re + '$').test(u)] *)
Fixpoint re_test (re : list re_item) (u : list N) : bool :=
  match re with
  | [] => match u with [] => true | _ => false end
  | ReChar c :: re' => match u with x :: u' => (x =? c)%N && re_test re' u' | [] => false end
  | ReDot :: re' => match u with x :: u' => negb (line_terminator x) && re_test re' u' | [] => false end
  | ReDotStar :: re' =>
      (fix star (u : list N) : bool :=
         re_test re' u ||
         match u with x :: u' => negb (line_terminator x) && star u' | [] => false end) u
  end.

Definition matchesFilters (line : ParsedMonitorLine) (filters : MonitorLineFilters) : bool :=
  let cmd_ok :=
    if truthy_string (f_command filters)
    then str_eqb (pl_cmd line) (to_upper (default EmptyString (f_command filters))) else true in
  let client_ok :=
    if truthy_string (f_client filters)
    then includes (default EmptyString (f_client filters)) (pl_addr line) else true in
  let key_ok :=
    if truthy_string (f_key filters)
    then match pl_key line with
         | None => false
         | Some k => re_test (globToRegex (default EmptyString (f_key filters))) (utf16 k)
         end
    else true in
  let after_ok := when_some (f_afterTs filters) (λ t, negb (num_ltb (pl_ts line) t)) in
  let before_ok := when_some (f_beforeTs filters) (λ t, negb (num_ltb t (pl_ts line))) in
  cmd_ok && client_ok && key_ok && after_ok && before_ok.

(** *** CSV export *)
Definition double_quote (c : ascii) : string :=
  if ascii_dec c quote_char then String quote_char (String quote_char EmptyString)
  else String c EmptyString.

Definition csvField (s : string) : string :=
  if includes "," s || includes (String quote_char EmptyString) s
     || includes (String newline EmptyString) s
  then String quote_char (str_flat_map double_quote s +:+ String quote_char EmptyString)
  else s.

Definition csv_cells (line : ParsedMonitorLine) : list string :=
  [num_to_string (pl_ts line); pl_tsRaw line; string_of_Z (pl_db line); pl_addr line;
   pl_cmd line; join " " (pl_args line); default EmptyString (pl_key line)].
Definition lineToCsvRow (line : ParsedMonitorLine) : string :=
  join "," (map csvField (csv_cells line)).

(** *** Reference definitions *)

(** Glob matching over code units, as a reader of the filter documentation
    understands it. *)
Inductive glob_matches : list N → list N → Prop :=
  | gm_nil : glob_matches [] []
  | gm_char c g u : c ≠ 42%N → c ≠ 63%N → glob_matches g u → glob_matches (c :: g) (c :: u)
  | gm_one g x u : glob_matches g u → glob_matches (63%N :: g) (x :: u)
  | gm_star_skip g u : glob_matches g u → glob_matches (42%N :: g) u
  | gm_star_more g x u : glob_matches (42%N :: g) u → glob_matches (42%N :: g) (x :: u).

(** A reader of one RFC 4180 record: [cur] is the cell read so far. *)
Inductive csv_mode := CsvPlain | CsvQuoted | CsvAfterQuote.

Fixpoint csv_read (m : csv_mode) (cur s : string) : list string :=
  match s with
  | EmptyString => [cur]
  | String c s' =>
      let keep := cur +:+ String c EmptyString in
      match m with
      | CsvPlain =>
          if ascii_dec c "," then cur :: csv_read CsvPlain EmptyString s'
          else if ascii_dec c quote_char then
            if is_empty cur then csv_read CsvQuoted EmptyString s' else csv_read CsvPlain keep s'
          else csv_read CsvPlain keep s'
      | CsvQuoted =>
          if ascii_dec c quote_char then csv_read CsvAfterQuote cur s' else csv_read CsvQuoted keep s'
      | CsvAfterQuote =>
          if ascii_dec c quote_char then csv_read CsvQuoted keep s'
          else if ascii_dec c "," then cur :: csv_read CsvPlain EmptyString s'
          else csv_read CsvPlain keep s'
      end
  end.

(** A client address the formatter can embed: visible ASCII, as in
    [127.0.0.1:6379], [[::1]:6379] or [unix:/tmp/valkey.sock]. *)
Definition addr_ok (a : string) : bool := negb (is_empty a) && str_forall plain_char a.

(** ** Lemmas *)

(** *** Tokens *)
#[local] Arguments escape_char : simpl never.
#[local] Arguments double_quote : simpl never.
#[local] Arguments line_end_at : simpl never.

Lemma escapeArg_cons c a : escapeArg (String c a) = escape_char c +:+ escapeArg a.
Proof. done. Qed.

Lemma read_token_escape a r :
  read_token (escapeArg a +:+ String quote_char r) = (a, r).
Proof.
  induction a as [|c a IH]; [done|].
  rewrite escapeArg_cons. unfold escape_char.
  destruct (ascii_dec c backslash) as [->|Hb]; [simpl; by rewrite IH|].
  destruct (ascii_dec c quote_char) as [->|Hq]; [simpl; by rewrite IH|].
  simpl. destruct (ascii_dec c backslash); [done|]. destruct (ascii_dec c quote_char); [done|].
  by rewrite IH.
Qed.

Lemma quoted_app a r : quoted a +:+ r = String quote_char (escapeArg a +:+ String quote_char r).
Proof. unfold quoted. simpl. by rewrite str_app_assoc. Qed.

Lemma join_quoted_cons a l :
  join " " (map quoted (a :: l)) =
  String quote_char (escapeArg a +:+ String quote_char
    match l with [] => EmptyString | _ => " " +:+ join " " (map quoted l) end).
Proof. destruct l as [|b l]; simpl; [done|]. apply quoted_app. Qed.

Lemma parseQuoted_go_join fuel (l : list string) (lead : bool) :
  (length l < fuel)%nat →
  parseQuoted_go fuel ((if lead then " " else EmptyString) +:+ join " " (map quoted l)) = l.
Proof.
  revert fuel lead. induction l as [|a l IH]; intros [|f] lead Hf; simpl in Hf; try lia.
  { by destruct lead. }
  rewrite join_quoted_cons. cbn [parseQuoted_go].
  replace (skip_ws _) with (String quote_char (escapeArg a +:+ String quote_char
    match l with [] => EmptyString | _ => " " +:+ join " " (map quoted l) end))
    by (destruct lead; cbn [String.append]; by rewrite ?skip_ws_space, skip_ws_plain).
  destruct (ascii_dec quote_char quote_char); [|done].
  rewrite read_token_escape. f_equal.
  destruct l as [|b l]; [by destruct f|]. apply (IH f true). simpl in *. lia.
Qed.

(** Fuel beyond the length of the input changes nothing: every turn of the outer
    loop consumes at least the opening quote. *)
Lemma read_token_length s : (String.length (read_token s).2 ≤ String.length s)%nat.
Proof.
  induction s as [s IH] using (induction_ltof1 _ String.length); unfold ltof in IH.
  destruct s as [|c s]; simpl; [lia|].
  destruct (ascii_dec c backslash); [|destruct (ascii_dec c quote_char)]; simpl; [| lia |].
  - destruct s as [|d s]; simpl; [lia|].
    specialize (IH s). destruct (read_token s); simpl in *. lia.
  - specialize (IH s). destruct (read_token s); simpl in *. lia.
Qed.

Lemma parseQuoted_go_fuel f1 f2 s :
  (String.length s < f1)%nat → (String.length s < f2)%nat →
  parseQuoted_go f1 s = parseQuoted_go f2 s.
Proof.
  revert f2 s. induction f1 as [|f1 IH]; intros [|f2] s H1 H2; try lia.
  cbn [parseQuoted_go]. pose proof (skip_ws_length 0 s) as Hs. unfold skip_ws in *.
  destruct (skip_ws_go 0 s) as [|c t]; [done|].
  destruct (ascii_dec c quote_char); [|done].
  pose proof (read_token_length t). destruct (read_token t) as [b r]. f_equal.
  apply IH; simpl in *; lia.
Qed.

(** *** The header *)
Lemma no_line_end_escape a r :
  no_line_end a = true → no_line_end r = true →
  no_line_end (escapeArg a +:+ String quote_char r) = true.
Proof.
  intros Ha Hr. induction a as [|c a IH].
  { change (no_line_end (String quote_char r) = true).
    by rewrite no_line_end_cons, Hr, line_end_at_other. }
  rewrite no_line_end_cons in Ha. apply andb_true_iff in Ha as [Hc Ha].
  specialize (IH Ha). rewrite escapeArg_cons. unfold escape_char.
  destruct (ascii_dec c backslash) as [->|Hb].
  { cbn [String.append]. by rewrite !no_line_end_cons, IH, !line_end_at_other. }
  destruct (ascii_dec c quote_char) as [->|Hq].
  { cbn [String.append]. by rewrite !no_line_end_cons, IH, !line_end_at_other. }
  cbn [String.append]. rewrite no_line_end_cons, IH, andb_true_r.
  apply negb_true_iff in Hc. apply negb_true_iff.
  revert Hc. unfold line_end_at at 1 2. intros [Hc Hrest]%orb_false_iff. rewrite Hc. simpl.
  assert (Hsep : ∀ d, d = backslash ∨ d = quote_char →
    (code d =? 128)%N = false ∧ ((code d =? 168)%N || (code d =? 169)%N) = false)
    by (by intros d [->| ->]).
  pose proof (Hsep backslash (or_introl eq_refl)) as [Hb1 Hb2].
  pose proof (Hsep quote_char (or_intror eq_refl)) as [Hq1 Hq2].
  destruct a as [|b a].
  { change (escapeArg EmptyString +:+ String quote_char r) with (String quote_char r).
    destruct r; [done|]. by rewrite Hq1, andb_false_r. }
  rewrite escapeArg_cons. unfold escape_char.
  destruct (ascii_dec b backslash) as [->|]; [cbn [String.append]; by rewrite Hb1, andb_false_r|].
  destruct (ascii_dec b quote_char) as [->|]; [cbn [String.append]; by rewrite Hb1, andb_false_r|].
  destruct a as [|d a]; [change (escapeArg EmptyString) with EmptyString; cbn [String.append]; by rewrite Hq2, andb_false_r|].
  rewrite escapeArg_cons. unfold escape_char.
  destruct (ascii_dec d backslash) as [->|]; [cbn [String.append]; by rewrite Hb2, andb_false_r|].
  destruct (ascii_dec d quote_char) as [->|]; [cbn [String.append]; by rewrite Hb2, andb_false_r|].
  exact Hrest.
Qed.

Lemma no_line_end_join (l : list string) :
  (∀ a, a ∈ l → no_line_end a = true) → no_line_end (join " " (map quoted l)) = true.
Proof.
  induction l as [|a l IH]; intros Hl; [done|].
  rewrite join_quoted_cons, no_line_end_cons, line_end_at_other by done.
  apply no_line_end_escape; [apply Hl; set_solver|].
  destruct l as [|b l]; [done|]. cbn [String.append]. rewrite no_line_end_cons, IH by set_solver.
  by rewrite line_end_at_other.
Qed.

Lemma close_match_tail rest :
  match rest with String q x => q = quote_char ∧ x ≠ EmptyString ∧ no_line_end x = true
             | EmptyString => False end →
  close_match ("] " +:+ rest) = Some rest.
Proof.
  destruct rest as [|q x]; [done|]. intros (-> & Hx & Hn).
  unfold close_match. cbn [String.append].
  destruct (ascii_dec "]" "]"); [|done].
  replace (ws_len _) with 1%nat by done.
  rewrite skip_ws_space, skip_ws_plain by done.
  rewrite bool_decide_eq_true_2 by done. rewrite Hn. by destruct x.
Qed.

Lemma close_match_plain_none c u :
  plain_char c = true → close_match (String "]" (String c u)) = None.
Proof.
  intros Hc. unfold close_match. destruct (ascii_dec "]" "]"); [|done].
  by rewrite ws_len_plain.
Qed.

Lemma addr_match_plain a rest :
  addr_ok a = true →
  match rest with String q x => q = quote_char ∧ x ≠ EmptyString ∧ no_line_end x = true
             | EmptyString => False end →
  addr_match (a +:+ "] " +:+ rest) = Some (a, rest).
Proof.
  unfold addr_ok. intros [Hne Ha]%andb_true_iff Hrest.
  induction a as [|c a IH]; [done|]. simpl in Ha. apply andb_true_iff in Ha as [Hc Ha].
  cbn [String.append addr_match]. rewrite line_end_at_plain by done.
  destruct a as [|d a].
  - pose proof (close_match_tail rest Hrest) as Hcm. cbn [String.append] in *. by rewrite Hcm.
  - assert (Hcm : close_match (String d a +:+ "] " +:+ rest) = None).
    { cbn [String.append]. destruct (ascii_dec d "]") as [->|Hd].
      - destruct a as [|e a]; cbn [String.append].
        + apply close_match_plain_none. done.
        + apply close_match_plain_none. simpl in Ha. by destruct (plain_char e).
      - unfold close_match. by destruct (ascii_dec d "]"). }
    cbn [String.append] in *. by rewrite Hcm, IH.
Qed.

Lemma match_header_format time source db (l : list string) :
  is_empty time = false → str_forall is_ts_char time = true → 0 ≤ db →
  addr_ok source = true → l ≠ [] → (∀ a, a ∈ l → no_line_end a = true) →
  match_header (formatMonitorLine time l source db)
  = Some (time, string_of_Z db, source, join " " (map quoted l)).
Proof.
  intros Ht Hts Hdb Hsrc Hl Hargs. unfold match_header, formatMonitorLine.
  rewrite span_app by done. rewrite Ht.
  set (tail := source +:+ "] " +:+ join " " (map quoted l)).
  replace (ws_len _) with 1%nat by done.
  replace (skip_ws (" [" +:+ string_of_Z db +:+ " " +:+ tail))
    with (String "[" (string_of_Z db +:+ " " +:+ tail)).
  2:{ change (" [" +:+ string_of_Z db +:+ " " +:+ tail)
        with (String " " (String "[" (string_of_Z db +:+ " " +:+ tail))).
      by rewrite skip_ws_space, skip_ws_plain. }
  destruct (ascii_dec "[" "["); [|done].
  rewrite span_app by (done || by apply string_of_Z_digits).
  rewrite string_of_Z_nonempty by done.
  assert (Htail : ws_len tail = 0%nat).
  { unfold tail, addr_ok in *. destruct source as [|c s]; [done|]. simpl in Hsrc.
    apply andb_true_iff in Hsrc as [Hc _]. by apply ws_len_plain. }
  assert (Hsuf : ws_suffixes (String.length (" " +:+ tail)) (" " +:+ tail) = [tail]).
  { cbn [String.append String.length ws_suffixes].
    replace (ws_len (String " " tail)) with 1%nat by done. cbn [str_drop].
    destruct (String.length tail); cbn [ws_suffixes]; by rewrite ?Htail. }
  rewrite Hsuf. cbn [first_some]. unfold tail. rewrite addr_match_plain; [done..|].
  pose proof (no_line_end_join l Hargs) as Hn. destruct l as [|a l]; [done|].
  rewrite join_quoted_cons in *. rewrite no_line_end_cons in Hn.
  apply andb_true_iff in Hn as [_ Hn]. split_and!; [done| |done].
  by destruct (escapeArg a).
Qed.

(** *** Globs *)
Lemma re_test_star re u :
  re_test (ReDotStar :: re) u =
  re_test re u || match u with x :: u' => negb (line_terminator x) && re_test (ReDotStar :: re) u'
                       | [] => false end.
Proof. by destruct u. Qed.

Definition glob_items (g : list N) : list re_item :=
  map (λ c : N, if (c =? 42)%N then ReDotStar else if (c =? 63)%N then ReDot else ReChar c) g.

Lemma re_test_glob g u :
  Forall (λ x, line_terminator x = false) u →
  re_test (glob_items g) u = true ↔ glob_matches g u.
Proof.
  revert u. induction g as [|c g IH]; intros u Hu.
  { destruct u; simpl; split; [constructor|done|done|inversion 1]. }
  unfold glob_items in *. cbn [map].
  destruct (N.eqb_spec c 42) as [->|H42].
  - induction Hu as [|x u Hx Hu IHu]; rewrite re_test_star.
    + rewrite orb_false_r, IH by constructor. split; [by constructor|]. by inversion 1.
    + rewrite Hx. cbn [negb andb]. rewrite orb_true_iff, IH, IHu by (by constructor).
      split; [intros [?|?]; by constructor|]. inversion 1; subst; [done|by left|by right].
  - destruct (N.eqb_spec c 63) as [->|H63].
    + destruct Hu as [|x u Hx Hu]; simpl; [split; [done|inversion 1]|].
      rewrite Hx. simpl. rewrite IH by done. split; [by constructor|]. by inversion 1.
    + destruct Hu as [|x u Hx Hu]; simpl; [split; [done|inversion 1]; congruence|].
      rewrite andb_true_iff, N.eqb_eq, IH by done.
      split; [intros [-> ?]; by constructor|]. inversion 1; subst; congruence || done.
Qed.

(** *** CSV *)
Lemma includes_char_false c s :
  includes (String c EmptyString) s = false → str_forall (λ a, negb (bool_decide (a = c))) s = true.
Proof.
  induction s as [|a s IH]; simpl; [done|].
  intros [H1 H2]%orb_false_iff. rewrite IH by done. rewrite andb_true_r.
  destruct (ascii_dec c a) as [->|Hne]; [by destruct s|].
  by rewrite bool_decide_eq_false_2.
Qed.

Lemma csv_read_plain cur s r :
  str_forall (λ a, negb (bool_decide (a = ","%char))) s = true →
  str_forall (λ a, negb (bool_decide (a = quote_char))) s = true →
  csv_read CsvPlain cur (s +:+ r) = csv_read CsvPlain (cur +:+ s) r.
Proof.
  revert cur. induction s as [|a s IH]; intros cur Hc Hq; simpl in *.
  { by rewrite str_app_nil_r. }
  apply andb_true_iff in Hc as [Hc Hcs], Hq as [Hq Hqs]. js_bools.
  destruct (ascii_dec a ","); [done|]. destruct (ascii_dec a quote_char); [done|].
  rewrite IH by done. by rewrite str_app_assoc.
Qed.

Lemma csv_read_quoted cur s r :
  csv_read CsvQuoted cur (str_flat_map double_quote s +:+ String quote_char r)
  = csv_read CsvAfterQuote (cur +:+ s) r.
Proof.
  revert cur. induction s as [|a s IH]; intros cur; simpl.
  { by rewrite str_app_nil_r. }
  unfold double_quote at 1. destruct (ascii_dec a quote_char) as [->|Ha]; simpl.
  - rewrite IH. by rewrite str_app_assoc.
  - destruct (ascii_dec a quote_char); [done|]. rewrite IH. by rewrite str_app_assoc.
Qed.

Lemma csv_read_field s (r : option string) :
  csv_read CsvPlain EmptyString (csvField s +:+ match r with Some t => "," +:+ t | None => EmptyString end)
  = s :: match r with Some t => csv_read CsvPlain EmptyString t | None => [] end.
Proof.
  unfold csvField. destruct (includes "," s) eqn:Hc; simpl orb.
  2: destruct (includes (String quote_char EmptyString) s) eqn:Hq; simpl orb.
  3: destruct (includes (String newline EmptyString) s) eqn:Hn; simpl orb.
  4: rewrite csv_read_plain by (by apply includes_char_false); by destruct r.
  all: cbn [String.append csv_read]; destruct (ascii_dec quote_char ","); [done|];
    destruct (ascii_dec quote_char quote_char); [|done]; cbn [is_empty];
    rewrite str_app_assoc; cbn [String.append]; rewrite csv_read_quoted; by destruct r.
Qed.

Lemma csv_read_join (l : list string) :
  l ≠ [] → csv_read CsvPlain EmptyString (join "," (map csvField l)) = l.
Proof.
  induction l as [|s l IH]; [done|]. intros _. destruct l as [|t l].
  - simpl. pose proof (csv_read_field s None) as H. simpl in H. by rewrite str_app_nil_r in H.
  - change (join "," (map csvField (s :: t :: l)))
      with (csvField s +:+ "," +:+ join "," (map csvField (t :: l))).
    rewrite (csv_read_field s (Some _)). by rewrite IH.
Qed.

(** ** Properties *)

(** C3: a line formatted by the MONITOR adapter parses back to what was formatted:
    timestamp text, database, client address, upper-cased verb and every
    argument, whatever quotes and backslashes the arguments hold. *)
Theorem monitor_line_roundtrip time verb args source db :
  is_empty time = false → str_forall is_ts_char time = true → 0 ≤ db →
  addr_ok source = true → (∀ a, a ∈ verb :: args → no_line_end a = true) →
  parseMonitorLine (formatMonitorLine time (verb :: args) source db) =
  Some {| pl_ts := math_round (num_mul (parse_float time) (num_of_Z 1000));
          pl_tsRaw := time; pl_db := db; pl_addr := source;
          pl_cmd := to_upper verb; pl_args := args; pl_key := head args;
          pl_raw := formatMonitorLine time (verb :: args) source db |}.
Proof.
  intros Ht Hts Hdb Hsrc Hargs. unfold parseMonitorLine.
  rewrite match_header_format by done.
  replace (is_empty (formatMonitorLine _ _ _ _)) with false by (by destruct time).
  unfold parseQuoted. rewrite (parseQuoted_go_join _ (verb :: args) false).
  - by rewrite digits_value_string.
  - assert (Hlen : ∀ l, (length l ≤ String.length (join " " (map quoted l)))%nat).
    { induction l as [|a l IH]; [done|]. rewrite join_quoted_cons.
      destruct l as [|b l]; cbn [length String.length]; rewrite str_app_length;
        cbn [String.length String.append]; cbn [length] in IH; lia. }
    specialize (Hlen (verb :: args)). lia.
Qed.

(** the fuel of [parseQuoted] is never the reason it stops: the function
    satisfies the equation of the source's loop, so it reads every token. *)
Theorem parseQuoted_loop s :
  parseQuoted s =
  match skip_ws s with
  | EmptyString => []
  | String c s' =>
      if ascii_dec c quote_char
      then let '(b, r) := read_token s' in b :: parseQuoted r else []
  end.
Proof.
  unfold parseQuoted at 1. cbn [parseQuoted_go].
  pose proof (skip_ws_length 0 s) as Hs. unfold skip_ws in *.
  destruct (skip_ws_go 0 s) as [|c t]; [done|].
  destruct (ascii_dec c quote_char); [|done].
  pose proof (read_token_length t). destruct (read_token t) as [b r]. f_equal.
  apply parseQuoted_go_fuel; simpl in *; lia.
Qed.

(** a reader of RFC 4180 records gets the seven cells of an exported line back,
    whatever commas, quotes or newlines they hold. *)
Theorem csv_row_roundtrip line :
  csv_read CsvPlain EmptyString (lineToCsvRow line) = csv_cells line.
Proof. by apply csv_read_join. Qed.

(** the key filter accepts a line exactly when the key matches the glob, [*]
    for any run of characters, [?] for one, everything else literally. *)
Theorem key_filter_is_glob line k g :
  pl_key line = Some k → is_empty g = false →
  Forall (λ x, line_terminator x = false) (utf16 k) →
  matchesFilters line {| f_command := None; f_client := None; f_key := Some g;
                         f_afterTs := None; f_beforeTs := None |} = true
  ↔ glob_matches (utf16 g) (utf16 k).
Proof.
  intros Hk Hg Hu. unfold matchesFilters. simpl. rewrite Hk.
  destruct g as [|c g]; [done|]. rewrite !andb_true_r. by apply re_test_glob.
Qed.

(** ** Witnesses *)
Definition sample_args : list string := ["user:42"; String quote_char "a\b"].

Lemma monitor_line_roundtrip_witness :
  pl_args <$> parseMonitorLine
    (formatMonitorLine "1234567890.123456" ("get" :: sample_args) "[::1]:50000" 3)
  = Some sample_args.
Proof.
  rewrite (monitor_line_roundtrip "1234567890.123456" "get" sample_args "[::1]:50000" 3);
    [reflexivity|reflexivity|reflexivity|lia|reflexivity|].
  intros a Ha. repeat (apply elem_of_cons in Ha as [->|Ha]; [reflexivity|]).
  by apply not_elem_of_nil in Ha.
Defined.

Definition sample_line : ParsedMonitorLine :=
  {| pl_ts := num_of_Z 1; pl_tsRaw := "0.001"; pl_db := 0; pl_addr := "127.0.0.1:1";
     pl_cmd := "GET"; pl_args := ["user:42"]; pl_key := Some "user:42"; pl_raw := "raw" |}.

Lemma key_filter_is_glob_witness : glob_matches (utf16 "us*:?2") (utf16 "user:42").
Proof.
  apply (key_filter_is_glob sample_line "user:42" "us*:?2").
  - reflexivity.
  - reflexivity.
  - repeat constructor.
  - reflexivity.
Defined.
