(* ===== verification/ValueRedactor.v ===== *)
(** * Value redaction

    [apps/api/src/monitor/value-redactor.ts]: the payload of well-known write
    commands is replaced by a placeholder before a captured line is formatted,
    stored or streamed ([createIovalkeyMonitorSource]). *)
From S2P Require Export MonitorLine.
From stdpp Require Import options.

(** ** Definitions *)
Definition REDACTED_PLACEHOLDER : string := "<redacted>".

Definition RedactionStrategy : Type := list string → list string.

Definition single (valueIndex : nat) : RedactionStrategy := λ args,
  if (length args <=? valueIndex)%nat then args
  else <[valueIndex := REDACTED_PLACEHOLDER]> args.

Definition trailing (firstValueIndex : nat) : RedactionStrategy := λ args,
  if (length args <=? firstValueIndex)%nat then args
  else take firstValueIndex args
       ++ replicate (length args - firstValueIndex) REDACTED_PLACEHOLDER.

(** The loop [for (i = first; i < out.length; i += 2)] *)
Fixpoint every_other (l : list string) : list string :=
  match l with
  | [] => []
  | [_] => [REDACTED_PLACEHOLDER]
  | _ :: y :: l' => REDACTED_PLACEHOLDER :: y :: every_other l'
  end.
Definition pairs (firstValueIndex : nat) : RedactionStrategy := λ args,
  if (length args <=? firstValueIndex)%nat then args
  else take firstValueIndex args ++ every_other (drop firstValueIndex args).

Definition linsert : RedactionStrategy := λ args,
  if (length args <? 5)%nat then args
  else <[4%nat := REDACTED_PLACEHOLDER]> (<[3%nat := REDACTED_PLACEHOLDER]> args).

Definition STRATEGIES : list (string * RedactionStrategy) :=
  [("SET", single 2); ("SETEX", single 3); ("PSETEX", single 3); ("SETNX", single 2);
   ("GETSET", single 2); ("APPEND", single 2); ("LSET", single 3); ("LINSERT", linsert);
   ("MSET", pairs 2); ("MSETNX", pairs 2); ("HSET", pairs 3); ("HMSET", pairs 3);
   ("HSETNX", single 3); ("LPUSH", trailing 2); ("RPUSH", trailing 2); ("LPUSHX", trailing 2);
   ("RPUSHX", trailing 2); ("SADD", trailing 2); ("SREM", trailing 2);
   ("PUBLISH", single 2); ("SPUBLISH", single 2)].

Definition redactWriteCommandArgs (args : list string) : list string :=
  match args with
  | [] => args
  | verb :: _ =>
      match jm_get (to_upper verb) STRATEGIES with
      | None => args
      | Some strategy => strategy args
      end
  end.

(** The [monitor] event handler of [createIovalkeyMonitorSource]: the line the
    capture sees. *)
Definition monitor_line (redactionEnabled : bool) (time : string) (args : list string)
    (source : string) (database : Z) : string :=
  let finalArgs := if redactionEnabled then redactWriteCommandArgs args else args in
  formatMonitorLine time finalArgs source database.

(** ** Specification

    The positions that carry payload, by verb and number of arguments, as the
    command reference describes them. *)
Definition value_position_upper (u : string) (n i : nat) : bool :=
  let one_of l := js_includes u l in
  if one_of ["SET"; "SETNX"; "GETSET"; "APPEND"; "PUBLISH"; "SPUBLISH"] then (i =? 2)%nat
  else if one_of ["SETEX"; "PSETEX"; "LSET"; "HSETNX"] then (i =? 3)%nat
  else if one_of ["LINSERT"] then (5 <=? n)%nat && ((i =? 3)%nat || (i =? 4)%nat)
  else if one_of ["MSET"; "MSETNX"] then (2 <=? i)%nat && Nat.even i
  else if one_of ["HSET"; "HMSET"] then (3 <=? i)%nat && Nat.odd i
  else if one_of ["LPUSH"; "RPUSH"; "LPUSHX"; "RPUSHX"; "SADD"; "SREM"] then (2 <=? i)%nat
  else false.
Definition value_position (verb : string) : nat → nat → bool :=
  value_position_upper (to_upper verb).

(** The redaction the positions describe. *)
Definition mask (verb : string) (args : list string) : list string :=
  imap (λ i a, if value_position verb (length args) i then REDACTED_PLACEHOLDER else a) args.

(** ** Lemmas *)
Definition mask_by (p : nat → bool) (args : list string) : list string :=
  imap (λ i a, if p i then REDACTED_PLACEHOLDER else a) args.

Lemma mask_by_lookup p args i :
  mask_by p args !! i = (λ a, if p i then REDACTED_PLACEHOLDER else a) <$> args !! i.
Proof. apply list_lookup_imap. Qed.

Lemma mask_by_ext p q args :
  (∀ i, (i < length args)%nat → p i = q i) → mask_by p args = mask_by q args.
Proof.
  intros H. apply list_eq. intros i. rewrite !mask_by_lookup.
  destruct (args !! i) eqn:E; simpl; [|done].
  by rewrite H by (eapply lookup_lt_Some; done).
Qed.

Lemma single_mask k args : single k args = mask_by (λ i, (i =? k)%nat) args.
Proof.
  unfold single. apply list_eq. intros i. rewrite mask_by_lookup.
  destruct (Nat.leb_spec (length args) k) as [Hl|Hl].
  - destruct (args !! i) eqn:E; simpl; [|done].
    apply lookup_lt_Some in E. by destruct (Nat.eqb_spec i k); [lia|].
  - destruct (Nat.eqb_spec i k) as [->|Hne].
    + rewrite list_lookup_insert_eq by done.
      by destruct (lookup_lt_is_Some_2 args k Hl) as [a ->].
    + rewrite list_lookup_insert_ne by done. by destruct (args !! i).
Qed.

Lemma trailing_mask k args : trailing k args = mask_by (λ i, (k <=? i)%nat) args.
Proof.
  unfold trailing. apply list_eq. intros i. rewrite mask_by_lookup.
  destruct (Nat.leb_spec (length args) k) as [Hl|Hl].
  - destruct (args !! i) eqn:E; simpl; [|done].
    apply lookup_lt_Some in E. by destruct (Nat.leb_spec k i); [lia|].
  - destruct (Nat.leb_spec k i) as [Hi|Hi].
    + rewrite lookup_app_r by (rewrite length_take; lia). rewrite length_take.
      rewrite Nat.min_l by lia. destruct (args !! i) eqn:E; simpl.
      * apply lookup_lt_Some in E. apply lookup_replicate_2. lia.
      * apply lookup_ge_None in E. apply lookup_ge_None. rewrite length_replicate. lia.
    + rewrite lookup_app_l by (rewrite length_take; lia).
      rewrite lookup_take_lt by done. by destruct (args !! i).
Qed.

Lemma every_other_lookup l i :
  every_other l !! i = (λ a, if Nat.even i then REDACTED_PLACEHOLDER else a) <$> l !! i.
Proof.
  revert i. induction l as [l IH] using (induction_ltof1 _ length); unfold ltof in IH.
  intros i. destruct l as [|x [|y l]]; [by destruct i| |].
  - by destruct i as [|[|i]].
  - destruct i as [|[|i]]; [done..|]. simpl. rewrite IH by (simpl; lia). done.
Qed.

Lemma pairs_mask k args :
  pairs k args = mask_by (λ i, (k <=? i)%nat && Nat.even (i - k)) args.
Proof.
  unfold pairs. apply list_eq. intros i. rewrite mask_by_lookup.
  destruct (Nat.leb_spec (length args) k) as [Hl|Hl].
  - destruct (args !! i) eqn:E; simpl; [|done].
    apply lookup_lt_Some in E. by destruct (Nat.leb_spec k i); [lia|].
  - destruct (Nat.leb_spec k i) as [Hi|Hi]; simpl.
    + rewrite lookup_app_r by (rewrite length_take; lia). rewrite length_take.
      rewrite Nat.min_l by lia. rewrite every_other_lookup, lookup_drop.
      by replace (k + (i - k))%nat with i by lia.
    + rewrite lookup_app_l by (rewrite length_take; lia).
      rewrite lookup_take_lt by done. by destruct (args !! i).
Qed.

Lemma linsert_mask args :
  linsert args = mask_by (λ i, (5 <=? length args)%nat && ((i =? 3)%nat || (i =? 4)%nat)) args.
Proof.
  unfold linsert. apply list_eq. intros i. rewrite mask_by_lookup.
  destruct (Nat.ltb_spec (length args) 5) as [Hl|Hl].
  - destruct (Nat.leb_spec 5 (length args)); [lia|]. by destruct (args !! i).
  - destruct (Nat.leb_spec 5 (length args)); [|lia]. simpl.
    destruct (decide (i = 4%nat)) as [->|H4]; [|rewrite list_lookup_insert_ne by done].
    { rewrite list_lookup_insert_eq by (rewrite length_insert; lia).
      by destruct (lookup_lt_is_Some_2 args 4%nat ltac:(lia)) as [a ->]. }
    destruct (decide (i = 3%nat)) as [->|H3]; [|rewrite list_lookup_insert_ne by done].
    { rewrite list_lookup_insert_eq by lia.
      by destruct (lookup_lt_is_Some_2 args 3%nat ltac:(lia)) as [a ->]. }
    destruct (Nat.eqb_spec i 3%nat); [done|]. destruct (Nat.eqb_spec i 4%nat); [done|].
    by destruct (args !! i).
Qed.

Lemma even_sub2 i : (2 <= i)%nat → Nat.even (i - 2) = Nat.even i.
Proof. intros H. replace i with (S (S (i - 2)))%nat at 2 by lia. done. Qed.
Lemma even_sub3 i : (3 <= i)%nat → Nat.even (i - 3) = Nat.odd i.
Proof.
  intros H. replace i with (S (S (S (i - 3))))%nat at 2 by lia.
  by rewrite Nat.odd_succ.
Qed.

Lemma mask_by_false args : mask_by (λ _, false) args = args.
Proof.
  apply list_eq. intros i. rewrite mask_by_lookup. by destruct (args !! i).
Qed.

(** The lookup in the strategy table, verb by verb. *)
Lemma js_includes_cons {A} `{EqDecision A} (x y : A) l :
  js_includes x (y :: l) = (if decide (x = y) then true else js_includes x l).
Proof.
  unfold js_includes. destruct (decide (x = y)) as [->|Hne].
  - apply bool_decide_eq_true_2. constructor.
  - apply bool_decide_ext. rewrite elem_of_cons. naive_solver.
Qed.

Lemma redact_mask u rest :
  match jm_get u STRATEGIES with Some f => f rest | None => rest end
  = mask_by (value_position_upper u (length rest)) rest.
Proof.
  unfold STRATEGIES. cbn [jm_get].
  repeat match goal with
  | |- context [decide (u = ?k)] => destruct (decide (u = k)) as [->|?]
  end.
  all: rewrite ?single_mask, ?trailing_mask, ?pairs_mask, ?linsert_mask;
    try (apply mask_by_ext; intros i _; try reflexivity).
  all: try match goal with |- (?a <=? ?j)%nat && _ = _ =>
    first [transitivity ((a <=? j)%nat && Nat.even j); [|reflexivity]
          |transitivity ((a <=? j)%nat && Nat.odd j); [|reflexivity]];
    destruct (Nat.leb_spec a j); cbn [andb];
      [first [by apply even_sub2|by apply even_sub3]|done] end.
  rewrite <-(mask_by_false rest) at 1. apply mask_by_ext. intros i _.
  unfold value_position_upper. by rewrite !js_includes_cons, !decide_False by done.
Qed.

Lemma redact_is_mask verb rest :
  redactWriteCommandArgs (verb :: rest)
  = mask_by (value_position verb (length (verb :: rest))) (verb :: rest).
Proof. unfold redactWriteCommandArgs. apply redact_mask. Qed.

(** ** Properties *)

(** Redaction touches exactly the payload positions: argument [i] of a
    command becomes the placeholder when the command reference puts a value
    there, and every other argument (the verb, the keys, the fields, and every
    argument of a command outside the table) is left as it is. *)
Theorem redaction_positions verb rest i :
  redactWriteCommandArgs (verb :: rest) !! i
  = (λ a, if value_position verb (S (length rest)) i then REDACTED_PLACEHOLDER else a)
      <$> (verb :: rest) !! i.
Proof. rewrite redact_is_mask. apply mask_by_lookup. Qed.

(** C4: With redaction on, the captured line does not depend on any payload
    byte: two runs of a command that agree outside the value positions yield
    the same line. *)
Theorem redaction_hides_values time verb rest rest' source database :
  length rest = length rest' →
  (∀ i, value_position verb (S (length rest)) i = false →
        (verb :: rest) !! i = (verb :: rest') !! i) →
  monitor_line true time (verb :: rest) source database
  = monitor_line true time (verb :: rest') source database.
Proof.
  intros Hlen Hagree. unfold monitor_line. f_equal. rewrite !redact_is_mask.
  apply list_eq. intros i. rewrite !mask_by_lookup. cbn [length]. rewrite <-Hlen.
  destruct (value_position verb (S (length rest)) i) eqn:Hv; [|by rewrite Hagree].
  destruct ((verb :: rest) !! i) eqn:E1, ((verb :: rest') !! i) eqn:E2; try done.
  - apply lookup_lt_Some in E1. apply lookup_ge_None in E2. simpl in *. lia.
  - apply lookup_lt_Some in E2. apply lookup_ge_None in E1. simpl in *. lia.
Qed.

Lemma redaction_hides_values_witness :
  monitor_line true "1.5" ["hset"; "k"; "f"; "secret"; "g"; "token"] "10.0.0.1:1" 0
  = monitor_line true "1.5" ["hset"; "k"; "f"; "a"; "g"; "b"] "10.0.0.1:1" 0.
Proof.
  apply (redaction_hides_values "1.5" "hset" ["k"; "f"; "secret"; "g"; "token"]
    ["k"; "f"; "a"; "g"; "b"]); [reflexivity|].
  intros i. do 6 (destruct i as [|i]; [vm_compute; congruence|]). done.
Defined.
