(* ===== verification/CaptureStorage.v ===== *)
(** * The storage port of the capture subsystem

    The stored types of [packages/shared/src/types/monitor.ts] and the
    operations on sessions, chunks, triggers, schedules and anomaly events of
    the in-memory adapter ([apps/api/src/storage/adapters/memory.adapter.ts]).
    Records are copied on the way in and out by the code, so a value here is a
    stored row.  A patch field is an [option]: [None] is an absent field; a
    field that callers also set to [undefined] explicitly is an
    [option (option A)]. *)
From S2P Require Export JsString JsNumber.
From stdpp Require Import options.

(** ** Definitions *)

(** *** Stored types *)
Inductive CaptureSessionStatus := CS_running | CS_completed | CS_truncated | CS_failed | CS_skipped.
#[global] Instance CaptureSessionStatus_eq_dec : EqDecision CaptureSessionStatus.
Proof. solve_decision. Defined.

Inductive CaptureSessionSource := Src_manual | Src_trigger | Src_schedule.
#[global] Instance CaptureSessionSource_eq_dec : EqDecision CaptureSessionSource.
Proof. solve_decision. Defined.

Record CaptureNodeSegment := {
  seg_nodeId : string;
  seg_address : string;
  seg_status : CaptureSessionStatus;
  seg_byteCount : Z;
  seg_lineCount : Z;
  seg_endedAt : option Z;
  seg_terminationReason : option string
}.

Record StoredCaptureSession := {
  cs_id : string;
  cs_connectionId : string;
  cs_status : CaptureSessionStatus;
  cs_source : CaptureSessionSource;
  cs_triggerId : option string;
  cs_scheduleId : option string;
  cs_requestedBy : option string;
  cs_startedAt : Z;
  cs_endedAt : option Z;
  cs_durationMs : option Z;
  cs_byteCount : Z;
  cs_lineCount : Z;
  cs_byteCap : Z;
  cs_lineCap : Z;
  cs_terminationReason : option string;
  cs_targetNode : option string;
  cs_nodeSegments : option (list CaptureNodeSegment)
}.

Record CaptureSessionQueryOptions := {
  csq_connectionId : option string;
  csq_status : option CaptureSessionStatus;
  csq_source : option CaptureSessionSource;
  csq_startedAfter : option Z;
  csq_startedBefore : option Z;
  csq_limit : option Z;
  csq_offset : option Z
}.

Inductive CaptureTriggerStatus :=
  | TS_configured | TS_queued | TS_fired | TS_skipped | TS_expired | TS_cancelled.
#[global] Instance CaptureTriggerStatus_eq_dec : EqDecision CaptureTriggerStatus.
Proof. solve_decision. Defined.

Record StoredCaptureTrigger := {
  ct_id : string;
  ct_connectionId : string;
  ct_metricType : string;
  ct_anomalyType : string;
  ct_expiresAt : Z;
  ct_createdAt : Z;
  ct_createdBy : option string;
  ct_status : CaptureTriggerStatus;
  ct_firedAt : option Z;
  ct_firedSessionId : option string;
  ct_skipReason : option string
}.

Record CaptureTriggerQueryOptions := {
  ctq_connectionId : option string;
  ctq_status : option CaptureTriggerStatus;
  ctq_limit : option Z;
  ctq_offset : option Z
}.

Record CaptureTriggerPatch := {
  ctp_status : option CaptureTriggerStatus;
  ctp_firedAt : option Z;
  ctp_firedSessionId : option string;
  ctp_skipReason : option string
}.

Inductive ScheduledCaptureStatus := SS_enabled | SS_disabled.
#[global] Instance ScheduledCaptureStatus_eq_dec : EqDecision ScheduledCaptureStatus.
Proof. solve_decision. Defined.

(** [intervalSeconds] is checked with [Number.isFinite] by the scheduler, so it
    is a double here. *)
Record StoredScheduledCapture := {
  sc_id : string;
  sc_connectionId : string;
  sc_intervalSeconds : option number;
  sc_cronExpression : option string;
  sc_durationMs : number;
  sc_status : ScheduledCaptureStatus;
  sc_createdAt : Z;
  sc_createdBy : option string;
  sc_lastFiredAt : option Z;
  sc_lastFiredSessionId : option string;
  sc_lastSkipReason : option string
}.

Record ScheduledCaptureQueryOptions := {
  scq_connectionId : option string;
  scq_status : option ScheduledCaptureStatus;
  scq_limit : option Z;
  scq_offset : option Z
}.

Record ScheduledCapturePatch := {
  scp_status : option ScheduledCaptureStatus;
  scp_intervalSeconds : option (option number);
  scp_cronExpression : option (option string);
  scp_durationMs : option number;
  scp_lastFiredAt : option (option Z);
  scp_lastFiredSessionId : option (option string);
  scp_lastSkipReason : option (option string)
}.

Record StoredCaptureChunk := {
  cc_sessionId : string;
  cc_chunkIndex : Z;
  cc_bytes : string;
  cc_lineCount : Z;
  cc_firstTs : Z;
  cc_lastTs : Z;
  cc_nodeId : option string
}.

Record CaptureSessionPatch := {
  csp_status : option CaptureSessionStatus;
  csp_endedAt : option Z;
  csp_durationMs : option Z;
  csp_byteCount : option Z;
  csp_lineCount : option Z;
  csp_terminationReason : option string;
  csp_nodeSegments : option (list CaptureNodeSegment)
}.

Record StoredAnomalyEvent := {
  ae_id : string;
  ae_timestamp : Z;
  ae_metricType : string;
  ae_anomalyType : string;
  ae_severity : string;
  ae_value : number;
  ae_baseline : number;
  ae_stdDev : number;
  ae_zScore : number;
  ae_threshold : number;
  ae_message : string;
  ae_correlationId : option string;
  ae_relatedMetrics : option (list string);
  ae_resolved : bool;
  ae_resolvedAt : option Z;
  ae_durationMs : option Z;
  ae_sourceHost : option string;
  ae_sourcePort : option Z;
  ae_connectionId : option string
}.

Record AnomalyQueryOptions := {
  aq_startTime : option Z;
  aq_endTime : option Z;
  aq_severity : option string;
  aq_metricType : option string;
  aq_resolved : option bool;
  aq_limit : option Z;
  aq_offset : option Z;
  aq_connectionId : option string
}.

Definition no_session_query : CaptureSessionQueryOptions :=
  {| csq_connectionId := None; csq_status := None; csq_source := None;
     csq_startedAfter := None; csq_startedBefore := None; csq_limit := None; csq_offset := None |}.
Definition no_trigger_patch : CaptureTriggerPatch :=
  {| ctp_status := None; ctp_firedAt := None; ctp_firedSessionId := None; ctp_skipReason := None |}.
Definition no_schedule_patch : ScheduledCapturePatch :=
  {| scp_status := None; scp_intervalSeconds := None; scp_cronExpression := None;
     scp_durationMs := None; scp_lastFiredAt := None; scp_lastFiredSessionId := None;
     scp_lastSkipReason := None |}.
Definition no_anomaly_query : AnomalyQueryOptions :=
  {| aq_startTime := None; aq_endTime := None; aq_severity := None; aq_metricType := None;
     aq_resolved := None; aq_limit := None; aq_offset := None; aq_connectionId := None |}.

(** *** The adapter's state: its private fields *)
Record CaptureStore := {
  captureSessions : list (string * StoredCaptureSession);
  captureChunks : list StoredCaptureChunk;
  captureTriggers : list (string * StoredCaptureTrigger);
  scheduledCaptures : list (string * StoredScheduledCapture);
  anomalyEvents : list StoredAnomalyEvent
}.

Definition empty_store : CaptureStore :=
  {| captureSessions := []; captureChunks := []; captureTriggers := [];
     scheduledCaptures := []; anomalyEvents := [] |}.

Definition with_sessions (f : list (string * StoredCaptureSession) → list (string * StoredCaptureSession))
    (st : CaptureStore) : CaptureStore :=
  {| captureSessions := f (captureSessions st); captureChunks := captureChunks st;
     captureTriggers := captureTriggers st; scheduledCaptures := scheduledCaptures st;
     anomalyEvents := anomalyEvents st |}.
Definition with_chunks (f : list StoredCaptureChunk → list StoredCaptureChunk)
    (st : CaptureStore) : CaptureStore :=
  {| captureSessions := captureSessions st; captureChunks := f (captureChunks st);
     captureTriggers := captureTriggers st; scheduledCaptures := scheduledCaptures st;
     anomalyEvents := anomalyEvents st |}.
Definition with_triggers (f : list (string * StoredCaptureTrigger) → list (string * StoredCaptureTrigger))
    (st : CaptureStore) : CaptureStore :=
  {| captureSessions := captureSessions st; captureChunks := captureChunks st;
     captureTriggers := f (captureTriggers st); scheduledCaptures := scheduledCaptures st;
     anomalyEvents := anomalyEvents st |}.
Definition with_schedules (f : list (string * StoredScheduledCapture) → list (string * StoredScheduledCapture))
    (st : CaptureStore) : CaptureStore :=
  {| captureSessions := captureSessions st; captureChunks := captureChunks st;
     captureTriggers := captureTriggers st; scheduledCaptures := f (scheduledCaptures st);
     anomalyEvents := anomalyEvents st |}.
Definition with_anomalies (f : list StoredAnomalyEvent → list StoredAnomalyEvent)
    (st : CaptureStore) : CaptureStore :=
  {| captureSessions := captureSessions st; captureChunks := captureChunks st;
     captureTriggers := captureTriggers st; scheduledCaptures := scheduledCaptures st;
     anomalyEvents := f (anomalyEvents st) |}.

(** [if (patch.x !== undefined) row.x = patch.x], on a required and on an
    optional field. *)
Definition patched {A} (p : option A) (old : A) : A := default old p.
Definition patched_opt {A} (p old : option A) : option A :=
  match p with Some _ => p | None => old end.

(** *** Sessions *)
Definition session_on (connectionId : string) (s : StoredCaptureSession) : StoredCaptureSession :=
  {| cs_id := cs_id s; cs_connectionId := connectionId; cs_status := cs_status s;
     cs_source := cs_source s; cs_triggerId := cs_triggerId s; cs_scheduleId := cs_scheduleId s;
     cs_requestedBy := cs_requestedBy s; cs_startedAt := cs_startedAt s;
     cs_endedAt := cs_endedAt s; cs_durationMs := cs_durationMs s;
     cs_byteCount := cs_byteCount s; cs_lineCount := cs_lineCount s;
     cs_byteCap := cs_byteCap s; cs_lineCap := cs_lineCap s;
     cs_terminationReason := cs_terminationReason s; cs_targetNode := cs_targetNode s;
     cs_nodeSegments := cs_nodeSegments s |}.

Definition patch_session (patch : CaptureSessionPatch) (s : StoredCaptureSession)
    : StoredCaptureSession :=
  {| cs_id := cs_id s; cs_connectionId := cs_connectionId s;
     cs_status := patched (csp_status patch) (cs_status s);
     cs_source := cs_source s; cs_triggerId := cs_triggerId s; cs_scheduleId := cs_scheduleId s;
     cs_requestedBy := cs_requestedBy s; cs_startedAt := cs_startedAt s;
     cs_endedAt := patched_opt (csp_endedAt patch) (cs_endedAt s);
     cs_durationMs := patched_opt (csp_durationMs patch) (cs_durationMs s);
     cs_byteCount := patched (csp_byteCount patch) (cs_byteCount s);
     cs_lineCount := patched (csp_lineCount patch) (cs_lineCount s);
     cs_byteCap := cs_byteCap s; cs_lineCap := cs_lineCap s;
     cs_terminationReason := patched_opt (csp_terminationReason patch) (cs_terminationReason s);
     cs_targetNode := cs_targetNode s;
     cs_nodeSegments := patched_opt (csp_nodeSegments patch) (cs_nodeSegments s) |}.

Definition saveCaptureSession (session : StoredCaptureSession) (connectionId : string)
    (st : CaptureStore) : CaptureStore :=
  with_sessions (jm_set (cs_id session) (session_on connectionId session)) st.

Definition getCaptureSession (id : string) (st : CaptureStore) : option StoredCaptureSession :=
  jm_get id (captureSessions st).

Definition updateCaptureSession (id : string) (patch : CaptureSessionPatch)
    (st : CaptureStore) : bool * CaptureStore :=
  match jm_get id (captureSessions st) with
  | None => (false, st)
  | Some session => (true, with_sessions (jm_set id (patch_session patch session)) st)
  end.

(** [xs.slice(offset, offset + limit)] with the defaults of every query. *)
Definition page {A} (offset limit : option Z) (l : list A) : list A :=
  let offset := default 0 offset in
  let limit := default 100 limit in
  js_slice offset (offset + limit) l.

(** [if (opt) l = l.filter(...)] on a string option: the empty string filters
    nothing. *)
Definition when_string (o : option string) (p : string → bool) : bool :=
  match o with Some (String _ _ as s) => p s | _ => true end.
(** The same on a number: [0] filters nothing. *)
Definition when_number (o : option Z) (p : Z → bool) : bool :=
  match o with Some n => if n =? 0 then true else p n | None => true end.

Definition session_matches (options : CaptureSessionQueryOptions) (s : StoredCaptureSession) : bool :=
  when_string (csq_connectionId options) (λ c, str_eqb (cs_connectionId s) c)
  && when_some (csq_status options) (λ x, bool_decide (cs_status s = x))
  && when_some (csq_source options) (λ x, bool_decide (cs_source s = x))
  && when_some (csq_startedAfter options) (λ t, t <=? cs_startedAt s)
  && when_some (csq_startedBefore options) (λ t, cs_startedAt s <=? t).

Definition getCaptureSessions (options : CaptureSessionQueryOptions) (st : CaptureStore)
    : list StoredCaptureSession :=
  page (csq_offset options) (csq_limit options)
    (js_sort (by_desc cs_startedAt)
       (js_filter (session_matches options) (jm_values (captureSessions st)))).

(** The entries of a [Map] a loop deletes under a test, and how many it deletes. *)
Definition prune_map {V} (dead : V → bool) (m : list (string * V)) : Z * list (string * V) :=
  (js_len (js_filter (λ kv : string * V, dead kv.2) m),
   js_filter (λ kv : string * V, negb (dead kv.2)) m).

Definition session_prunable (cutoff : Z) (s : StoredCaptureSession) : bool :=
  match cs_endedAt s with
  | None => false
  | Some e => (e <? cutoff) && negb (bool_decide (cs_status s = CS_running))
  end.

Definition pruneOldCaptureSessions (cutoff : Z) (st : CaptureStore) : Z * CaptureStore :=
  let r := prune_map (session_prunable cutoff) (captureSessions st) in
  (r.1, with_sessions (λ _, r.2) st).

(** *** Chunks *)
Definition saveCaptureChunk (chunk : StoredCaptureChunk) (st : CaptureStore) : Z * CaptureStore :=
  (1, with_chunks (λ l, l ++ [chunk]) st).

Definition getCaptureChunks (sessionId : string) (st : CaptureStore) : list StoredCaptureChunk :=
  js_sort (by_asc cc_chunkIndex)
    (js_filter (λ c, str_eqb (cc_sessionId c) sessionId) (captureChunks st)).

Definition pruneOldCaptureChunks (cutoff : Z) (st : CaptureStore) : Z * CaptureStore :=
  let kept := js_filter (λ c, cutoff <=? cc_lastTs c) (captureChunks st) in
  (js_len (captureChunks st) - js_len kept, with_chunks (λ _, kept) st).

(** *** Triggers *)
Definition patch_trigger (patch : CaptureTriggerPatch) (t : StoredCaptureTrigger)
    : StoredCaptureTrigger :=
  {| ct_id := ct_id t; ct_connectionId := ct_connectionId t; ct_metricType := ct_metricType t;
     ct_anomalyType := ct_anomalyType t; ct_expiresAt := ct_expiresAt t;
     ct_createdAt := ct_createdAt t; ct_createdBy := ct_createdBy t;
     ct_status := patched (ctp_status patch) (ct_status t);
     ct_firedAt := patched_opt (ctp_firedAt patch) (ct_firedAt t);
     ct_firedSessionId := patched_opt (ctp_firedSessionId patch) (ct_firedSessionId t);
     ct_skipReason := patched_opt (ctp_skipReason patch) (ct_skipReason t) |}.

Definition saveCaptureTrigger (trigger : StoredCaptureTrigger) (st : CaptureStore) : CaptureStore :=
  with_triggers (jm_set (ct_id trigger) trigger) st.

Definition updateCaptureTrigger (id : string) (patch : CaptureTriggerPatch)
    (st : CaptureStore) : bool * CaptureStore :=
  match jm_get id (captureTriggers st) with
  | None => (false, st)
  | Some existing => (true, with_triggers (jm_set id (patch_trigger patch existing)) st)
  end.

Definition getCaptureTrigger (id : string) (st : CaptureStore) : option StoredCaptureTrigger :=
  jm_get id (captureTriggers st).

Definition trigger_matches (options : CaptureTriggerQueryOptions) (t : StoredCaptureTrigger) : bool :=
  when_string (ctq_connectionId options) (λ c, str_eqb (ct_connectionId t) c)
  && when_some (ctq_status options) (λ x, bool_decide (ct_status t = x)).

Definition getCaptureTriggers (options : CaptureTriggerQueryOptions) (st : CaptureStore)
    : list StoredCaptureTrigger :=
  page (ctq_offset options) (ctq_limit options)
    (js_sort (by_desc ct_createdAt)
       (js_filter (trigger_matches options) (jm_values (captureTriggers st)))).

Definition trigger_terminal (s : CaptureTriggerStatus) : bool :=
  match s with TS_fired | TS_skipped | TS_expired | TS_cancelled => true | _ => false end.

Definition pruneOldCaptureTriggers (cutoff : Z) (st : CaptureStore) : Z * CaptureStore :=
  let r := prune_map (λ t, (ct_createdAt t <? cutoff) && trigger_terminal (ct_status t))
             (captureTriggers st) in
  (r.1, with_triggers (λ _, r.2) st).

(** *** Schedules *)
Definition patch_schedule (patch : ScheduledCapturePatch) (s : StoredScheduledCapture)
    : StoredScheduledCapture :=
  {| sc_id := sc_id s; sc_connectionId := sc_connectionId s;
     sc_intervalSeconds := patched (scp_intervalSeconds patch) (sc_intervalSeconds s);
     sc_cronExpression := patched (scp_cronExpression patch) (sc_cronExpression s);
     sc_durationMs := patched (scp_durationMs patch) (sc_durationMs s);
     sc_status := patched (scp_status patch) (sc_status s);
     sc_createdAt := sc_createdAt s; sc_createdBy := sc_createdBy s;
     sc_lastFiredAt := patched (scp_lastFiredAt patch) (sc_lastFiredAt s);
     sc_lastFiredSessionId := patched (scp_lastFiredSessionId patch) (sc_lastFiredSessionId s);
     sc_lastSkipReason := patched (scp_lastSkipReason patch) (sc_lastSkipReason s) |}.

Definition saveScheduledCapture (schedule : StoredScheduledCapture) (st : CaptureStore) : CaptureStore :=
  with_schedules (jm_set (sc_id schedule) schedule) st.

Definition updateScheduledCapture (id : string) (patch : ScheduledCapturePatch)
    (st : CaptureStore) : bool * CaptureStore :=
  match jm_get id (scheduledCaptures st) with
  | None => (false, st)
  | Some existing => (true, with_schedules (jm_set id (patch_schedule patch existing)) st)
  end.

Definition deleteScheduledCapture (id : string) (st : CaptureStore) : bool * CaptureStore :=
  (jm_has id (scheduledCaptures st), with_schedules (jm_delete id) st).

Definition getScheduledCapture (id : string) (st : CaptureStore) : option StoredScheduledCapture :=
  jm_get id (scheduledCaptures st).

Definition schedule_matches (options : ScheduledCaptureQueryOptions) (s : StoredScheduledCapture) : bool :=
  when_string (scq_connectionId options) (λ c, str_eqb (sc_connectionId s) c)
  && when_some (scq_status options) (λ x, bool_decide (sc_status s = x)).

Definition getScheduledCaptures (options : ScheduledCaptureQueryOptions) (st : CaptureStore)
    : list StoredScheduledCapture :=
  page (scq_offset options) (scq_limit options)
    (js_sort (by_desc sc_createdAt)
       (js_filter (schedule_matches options) (jm_values (scheduledCaptures st)))).

Definition pruneOldScheduledCaptures (cutoff : Z) (st : CaptureStore) : Z * CaptureStore :=
  let r := prune_map (λ s, (sc_createdAt s <? cutoff) && bool_decide (sc_status s = SS_disabled))
             (scheduledCaptures st) in
  (r.1, with_schedules (λ _, r.2) st).

(** *** Anomaly events *)
Definition event_on (connectionId : string) (e : StoredAnomalyEvent) : StoredAnomalyEvent :=
  {| ae_id := ae_id e; ae_timestamp := ae_timestamp e; ae_metricType := ae_metricType e;
     ae_anomalyType := ae_anomalyType e; ae_severity := ae_severity e; ae_value := ae_value e;
     ae_baseline := ae_baseline e; ae_stdDev := ae_stdDev e; ae_zScore := ae_zScore e;
     ae_threshold := ae_threshold e; ae_message := ae_message e;
     ae_correlationId := ae_correlationId e; ae_relatedMetrics := ae_relatedMetrics e;
     ae_resolved := ae_resolved e; ae_resolvedAt := ae_resolvedAt e;
     ae_durationMs := ae_durationMs e; ae_sourceHost := ae_sourceHost e;
     ae_sourcePort := ae_sourcePort e; ae_connectionId := Some connectionId |}.

Definition saveAnomalyEvent (event : StoredAnomalyEvent) (connectionId : string)
    (st : CaptureStore) : CaptureStore :=
  with_anomalies (λ l, l ++ [event_on connectionId event]) st.

Definition saveAnomalyEvents (events : list StoredAnomalyEvent) (connectionId : string)
    (st : CaptureStore) : Z * CaptureStore :=
  (js_len events, foldl (λ st e, saveAnomalyEvent e connectionId st) st events).

Definition anomaly_matches (options : AnomalyQueryOptions) (e : StoredAnomalyEvent) : bool :=
  when_string (aq_connectionId options) (λ c, bool_decide (ae_connectionId e = Some c))
  && when_number (aq_startTime options) (λ t, t <=? ae_timestamp e)
  && when_number (aq_endTime options) (λ t, ae_timestamp e <=? t)
  && when_string (aq_severity options) (λ s, str_eqb (ae_severity e) s)
  && when_string (aq_metricType options) (λ m, str_eqb (ae_metricType e) m)
  && when_some (aq_resolved options) (λ r, Bool.eqb (ae_resolved e) r).

Definition getAnomalyEvents (options : AnomalyQueryOptions) (st : CaptureStore)
    : list StoredAnomalyEvent :=
  page (aq_offset options) (aq_limit options)
    (js_sort (by_desc ae_timestamp) (js_filter (anomaly_matches options) (anomalyEvents st))).

Definition resolve_event (resolvedAt : Z) (e : StoredAnomalyEvent) : StoredAnomalyEvent :=
  if ae_resolved e then e else
  {| ae_id := ae_id e; ae_timestamp := ae_timestamp e; ae_metricType := ae_metricType e;
     ae_anomalyType := ae_anomalyType e; ae_severity := ae_severity e; ae_value := ae_value e;
     ae_baseline := ae_baseline e; ae_stdDev := ae_stdDev e; ae_zScore := ae_zScore e;
     ae_threshold := ae_threshold e; ae_message := ae_message e;
     ae_correlationId := ae_correlationId e; ae_relatedMetrics := ae_relatedMetrics e;
     ae_resolved := true; ae_resolvedAt := Some resolvedAt;
     ae_durationMs := Some (resolvedAt - ae_timestamp e); ae_sourceHost := ae_sourceHost e;
     ae_sourcePort := ae_sourcePort e; ae_connectionId := ae_connectionId e |}.

Fixpoint resolve_first (id : string) (resolvedAt : Z) (l : list StoredAnomalyEvent)
    : list StoredAnomalyEvent :=
  match l with
  | [] => []
  | e :: l' =>
      if str_eqb (ae_id e) id then resolve_event resolvedAt e :: l'
      else e :: resolve_first id resolvedAt l'
  end.

Definition resolveAnomaly (id : string) (resolvedAt : Z) (st : CaptureStore)
    : bool * CaptureStore :=
  match js_find (λ e, str_eqb (ae_id e) id) (anomalyEvents st) with
  | None => (false, st)
  | Some _ => (true, with_anomalies (resolve_first id resolvedAt) st)
  end.

Definition pruneOldAnomalyEvents (cutoff : Z) (connectionId : option string)
    (st : CaptureStore) : Z * CaptureStore :=
  let keep e := (cutoff <=? ae_timestamp e)
    || match connectionId with
       | Some (String _ _ as c) => negb (bool_decide (ae_connectionId e = Some c))
       | _ => false
       end in
  let kept := js_filter keep (anomalyEvents st) in
  (js_len (anomalyEvents st) - js_len kept, with_anomalies (λ _, kept) st).

(** The whole listing a query pages through. *)
Definition session_listing (options : CaptureSessionQueryOptions) (st : CaptureStore)
    : list StoredCaptureSession :=
  js_sort (by_desc cs_startedAt)
    (js_filter (session_matches options) (jm_values (captureSessions st))).

Definition session_page (options : CaptureSessionQueryOptions) (offset limit : Z)
    : CaptureSessionQueryOptions :=
  {| csq_connectionId := csq_connectionId options; csq_status := csq_status options;
     csq_source := csq_source options; csq_startedAfter := csq_startedAfter options;
     csq_startedBefore := csq_startedBefore options;
     csq_limit := Some limit; csq_offset := Some offset |}.

Record store_wf (st : CaptureStore) : Prop := {
  wf_sessions : keyed cs_id (captureSessions st);
  wf_triggers : keyed ct_id (captureTriggers st);
  wf_schedules : keyed sc_id (scheduledCaptures st)
}.

(** One write of the port. *)
Inductive store_step : CaptureStore → CaptureStore → Prop :=
  | step_save_session s c st : store_step st (saveCaptureSession s c st)
  | step_update_session id p st : store_step st (updateCaptureSession id p st).2
  | step_prune_sessions cut st : store_step st (pruneOldCaptureSessions cut st).2
  | step_save_chunk c st : store_step st (saveCaptureChunk c st).2
  | step_prune_chunks cut st : store_step st (pruneOldCaptureChunks cut st).2
  | step_save_trigger t st : store_step st (saveCaptureTrigger t st)
  | step_update_trigger id p st : store_step st (updateCaptureTrigger id p st).2
  | step_prune_triggers cut st : store_step st (pruneOldCaptureTriggers cut st).2
  | step_save_schedule s st : store_step st (saveScheduledCapture s st)
  | step_update_schedule id p st : store_step st (updateScheduledCapture id p st).2
  | step_delete_schedule id st : store_step st (deleteScheduledCapture id st).2
  | step_prune_schedules cut st : store_step st (pruneOldScheduledCaptures cut st).2
  | step_save_event e c st : store_step st (saveAnomalyEvent e c st)
  | step_resolve_event id t st : store_step st (resolveAnomaly id t st).2
  | step_prune_events cut c st : store_step st (pruneOldAnomalyEvents cut c st).2.

(** ** Lemmas *)

(** *** Pages *)
Lemma page_default_small {A} (l : list A) :
  (length l ≤ 100)%nat → page None None l = l.
Proof.
  intros Hl. unfold page. simpl. rewrite js_slice_prefix by lia.
  apply take_ge. lia.
Qed.

Lemma page_default {A} (l : list A) : page None None l = take 100 l.
Proof. unfold page. simpl. by rewrite js_slice_prefix by lia. Qed.

Lemma page_elem {A} o n (l : list A) x : x ∈ page o n l → x ∈ l.
Proof. apply js_slice_sub. Qed.

(** Consecutive pages lay the list out without gap or overlap. *)
Lemma pages_tile {A} (l : list A) (n : Z) (k : nat) :
  0 ≤ n →
  mjoin ((λ i, page (Some (Z.of_nat i * n)) (Some n) l) <$> seq 0 k)
  = take (k * Z.to_nat n) l.
Proof.
  intros Hn. induction k as [|k IH]; [done|].
  rewrite seq_S, fmap_app, join_app, IH. cbn [fmap list_fmap mjoin list_join]. rewrite app_nil_r.
  unfold page. simpl. rewrite js_slice_page by lia.
  replace (Z.to_nat (Z.of_nat k * n)) with (k * Z.to_nat n)%nat by lia.
  replace (Z.to_nat n + k * Z.to_nat n)%nat with (k * Z.to_nat n + Z.to_nat n)%nat by lia.
  by rewrite <-take_take_drop.
Qed.

(** *** Rows under their ids *)
Section row_lemmas.
Context {V : Type}.
Implicit Types (m : list (string * V)).

(** Pruning a map removes exactly the rows the test selects. *)
Lemma prune_map_get dead k m :
  jm_wf m →
  jm_get k (prune_map dead m).2
  = match jm_get k m with Some v => if dead v then None else Some v | None => None end.
Proof.
  intros Hwf. unfold prune_map. cbn [snd]. induction m as [|[k' v] m IH]; csimpl; [done|].
  unfold jm_wf in *. csimpl. apply NoDup_cons in Hwf as [Hk Hm].
  destruct (dead v) eqn:Hd; csimpl; rewrite IH by done.
  - case_decide as Hkk; [subst|done]. rewrite Hd.
    by rewrite (proj2 (jm_get_None k' m) Hk).
  - case_decide; [by rewrite Hd|done].
Qed.

Lemma prune_map_count dead m :
  (prune_map dead m).1 = js_len m - js_len (prune_map dead m).2.
Proof.
  unfold prune_map, js_len. simpl. induction m as [|[k v] m IH]; simpl; [lia|].
  destruct (dead v); simpl; lia.
Qed.
End row_lemmas.

Lemma store_step_wf st st' : store_step st st' → store_wf st → store_wf st'.
Proof.
  intros Hstep [Hs Ht Hc]. destruct Hstep; split; simpl; auto with js;
    unfold updateCaptureSession, updateCaptureTrigger, updateScheduledCapture, resolveAnomaly;
    repeat case_match; simpl; auto; apply keyed_set; auto; simpl; by eapply keyed_get.
Qed.

Lemma empty_store_wf : store_wf empty_store.
Proof. split; apply keyed_nil. Qed.

Lemma session_wf_row st id s :
  store_wf st → getCaptureSession id st = Some s → cs_id s = id.
Proof. intros [Hs _ _]. by apply keyed_get. Qed.

Lemma trigger_wf_row st id t :
  store_wf st → getCaptureTrigger id st = Some t → ct_id t = id.
Proof. intros [_ Ht _]. by apply keyed_get. Qed.

(** *** Reads after writes *)
Lemma getCaptureSession_update id id' p st :
  getCaptureSession id (updateCaptureSession id' p st).2
  = if decide (id = id') then patch_session p <$> getCaptureSession id st
    else getCaptureSession id st.
Proof.
  unfold getCaptureSession, updateCaptureSession.
  destruct (jm_get id' (captureSessions st)) eqn:E; simpl; case_decide; subst;
    rewrite ?E; simpl; [by rewrite jm_get_set_eq|by rewrite jm_get_set_ne|done..].
Qed.

Lemma getCaptureTrigger_update id id' p st :
  getCaptureTrigger id (updateCaptureTrigger id' p st).2
  = if decide (id = id') then patch_trigger p <$> getCaptureTrigger id st
    else getCaptureTrigger id st.
Proof.
  unfold getCaptureTrigger, updateCaptureTrigger.
  destruct (jm_get id' (captureTriggers st)) eqn:E; simpl; case_decide; subst;
    rewrite ?E; simpl; [by rewrite jm_get_set_eq|by rewrite jm_get_set_ne|done..].
Qed.

Lemma getScheduledCapture_update id id' p st :
  getScheduledCapture id (updateScheduledCapture id' p st).2
  = if decide (id = id') then patch_schedule p <$> getScheduledCapture id st
    else getScheduledCapture id st.
Proof.
  unfold getScheduledCapture, updateScheduledCapture.
  destruct (jm_get id' (scheduledCaptures st)) eqn:E; simpl; case_decide; subst;
    rewrite ?E; simpl; [by rewrite jm_get_set_eq|by rewrite jm_get_set_ne|done..].
Qed.

(** A query that finds a trigger finds a stored row that matches. *)
Lemma getCaptureTriggers_elem o st t :
  t ∈ getCaptureTriggers o st →
  trigger_matches o t = true ∧ t ∈ jm_values (captureTriggers st).
Proof.
  intros Hin. apply page_elem in Hin. apply js_sort_elem in Hin. by apply js_filter_elem in Hin.
Qed.

Lemma getCaptureTriggers_get o st t :
  store_wf st → t ∈ getCaptureTriggers o st →
  trigger_matches o t = true ∧ getCaptureTrigger (ct_id t) st = Some t.
Proof.
  intros [_ Ht _] [Hm Hv]%getCaptureTriggers_elem. split; [done|].
  destruct Ht as [Hwf Hid]. apply jm_values_get in Hv as [k Hk].
  rewrite (Hid _ _ Hk). by apply jm_elem_get.
Qed.

(** *** Chunks *)
Lemma getCaptureChunks_perm id st :
  getCaptureChunks id st ≡ₚ js_filter (λ c, str_eqb (cc_sessionId c) id) (captureChunks st).
Proof. apply js_sort_perm. Qed.

(** Chunks saved with increasing indexes are read back in the order they were
    saved. *)
Lemma getCaptureChunks_in_order id st :
  StronglySorted (λ a b, cc_chunkIndex a ≤ cc_chunkIndex b)
    (js_filter (λ c, str_eqb (cc_sessionId c) id) (captureChunks st)) →
  getCaptureChunks id st
  = js_filter (λ c, str_eqb (cc_sessionId c) id) (captureChunks st).
Proof.
  intros Hs. apply js_sort_id. induction Hs as [|c l _ IH Hc]; constructor; [done|].
  eapply Forall_impl; [exact Hc|]. unfold by_asc. simpl. lia.
Qed.

(** ** Properties *)

(** Every state the port's writes reach from the empty store keeps each
    session, trigger and schedule under its own id, once. *)
Theorem store_reachable_wf st : rtc store_step empty_store st → store_wf st.
Proof.
  generalize empty_store_wf. generalize empty_store as s0. intros s0 H0 Hr. revert H0.
  induction Hr as [|s1 s2 s3 Hstep _ IH]; [done|]. intros H. apply IH. by eapply store_step_wf.
Qed.

Lemma store_reachable_wf_witness :
  store_wf (saveCaptureTrigger
    {| ct_id := "t1"; ct_connectionId := "c1"; ct_metricType := "memory_used";
       ct_anomalyType := "spike"; ct_expiresAt := 100; ct_createdAt := 5; ct_createdBy := None;
       ct_status := TS_configured; ct_firedAt := None; ct_firedSessionId := None;
       ct_skipReason := None |} empty_store).
Proof. apply (store_reachable_wf _). apply rtc_once. constructor. Defined.

(** Paging through the sessions enumerates the listing: for every page
    size, the first [k] pages put together are the first [k * limit] matching
    sessions, newest first, so no session is skipped and none is repeated. *)
Theorem capture_session_pages options st limit k :
  0 ≤ limit →
  mjoin ((λ i, getCaptureSessions (session_page options (Z.of_nat i * limit) limit) st) <$> seq 0 k)
  = take (k * Z.to_nat limit) (session_listing options st)
  ∧ StronglySorted (λ a b, cs_startedAt b ≤ cs_startedAt a) (session_listing options st)
  ∧ session_listing options st
    ≡ₚ js_filter (session_matches options) (jm_values (captureSessions st)).
Proof.
  intros Hn. split_and!; [|apply js_sort_desc_sorted|apply js_sort_perm].
  rewrite <-pages_tile by done. done.
Qed.

Lemma capture_session_pages_witness :
  mjoin ((λ i, getCaptureSessions (session_page no_session_query (Z.of_nat i * 1) 1)
     (saveCaptureSession {| cs_id := "b"; cs_connectionId := "c"; cs_status := CS_running;
        cs_source := Src_manual; cs_triggerId := None; cs_scheduleId := None;
        cs_requestedBy := None; cs_startedAt := 2; cs_endedAt := None; cs_durationMs := None;
        cs_byteCount := 0; cs_lineCount := 0; cs_byteCap := 1; cs_lineCap := 1;
        cs_terminationReason := None; cs_targetNode := None; cs_nodeSegments := None |} "c"
        empty_store)) <$> seq 0 2) ≠ [].
Proof.
  rewrite (proj1 (capture_session_pages no_session_query _ 1 2 ltac:(lia))).
  vm_compute. congruence.
Defined.

(** Pruning sessions at a cutoff deletes exactly the rows that ended
    before it and are not running, reports how many it deleted, and leaves
    every other lookup unchanged; a running session is never pruned. *)
Theorem prune_sessions_exact cutoff st id :
  store_wf st →
  getCaptureSession id (pruneOldCaptureSessions cutoff st).2
  = match getCaptureSession id st with
    | Some s => if session_prunable cutoff s then None else Some s
    | None => None
    end
  ∧ (pruneOldCaptureSessions cutoff st).1
    = js_len (captureSessions st)
      - js_len (captureSessions (pruneOldCaptureSessions cutoff st).2)
  ∧ ∀ s, getCaptureSession id st = Some s → cs_status s = CS_running →
      getCaptureSession id (pruneOldCaptureSessions cutoff st).2 = Some s.
Proof.
  intros [[Hwf _] _ _].
  assert (H : getCaptureSession id (pruneOldCaptureSessions cutoff st).2
    = match getCaptureSession id st with
      | Some s => if session_prunable cutoff s then None else Some s
      | None => None
      end) by (by apply prune_map_get).
  split_and!; [done|apply prune_map_count|].
  intros s Hs Hrun. rewrite H, Hs. unfold session_prunable. rewrite Hrun.
  destruct (cs_endedAt s); [|done]. by rewrite bool_decide_eq_true_2, andb_false_r.
Qed.

Lemma prune_sessions_exact_witness :
  getCaptureSession "b" (pruneOldCaptureSessions 10 (saveCaptureSession
    {| cs_id := "b"; cs_connectionId := "c"; cs_status := CS_running;
       cs_source := Src_manual; cs_triggerId := None; cs_scheduleId := None;
       cs_requestedBy := None; cs_startedAt := 2; cs_endedAt := Some 3; cs_durationMs := None;
       cs_byteCount := 0; cs_lineCount := 0; cs_byteCap := 1; cs_lineCap := 1;
       cs_terminationReason := None; cs_targetNode := None; cs_nodeSegments := None |} "c"
       empty_store)).2 ≠ None.
Proof.
  rewrite (proj1 (prune_sessions_exact 10 _ "b"
    (store_step_wf _ _ (step_save_session _ _ _) empty_store_wf))).
  vm_compute. congruence.
Defined.
