(* ===== verification/CaptureWriter.v ===== *)
(** * The capture writer

    [apps/api/src/monitor/capture-writer.ts].  A writer reacts to events: a line
    of the source, its error and end, the two timers, an external stop, viewers
    that come and go, the write queue settling one chunk, and the continuation
    of [terminate] once the queue has drained.  [writer_step] is one event; a run
    of the writer is a list of events.  The storage behind the writer is any type
    with the two operations the options pick ([CaptureSink]). *)
From S2P Require Export CaptureStorage.
From stdpp Require Import options.

(** ** Definitions *)

(** [Pick<StoragePort, 'saveCaptureChunk' | 'updateCaptureSession'>], with the
    rows the store holds, in the order they were inserted, to state what a save
    promises. *)
Class CaptureSink (T : Type) := {
  sink_save : StoredCaptureChunk → T → outcome string Z * T;
  sink_update : string → CaptureSessionPatch → T → outcome string bool * T;
  sink_chunks : T → list StoredCaptureChunk
}.
Class CaptureSinkLaws (T : Type) `{CaptureSink T} := {
  sink_save_ok c s n s' : sink_save c s = (Ok n, s') → sink_chunks s' = sink_chunks s ++ [c];
  sink_save_throw c s e s' : sink_save c s = (Throw e, s') → sink_chunks s' = sink_chunks s;
  sink_update_chunks id p s : sink_chunks (sink_update id p s).2 = sink_chunks s
}.
(** A store whose saves do not fail. *)
Class ReliableSink (T : Type) `{CaptureSink T} :=
  sink_reliable c s : ran_ok (sink_save c s).1 = true.

#[global] Instance memory_sink : CaptureSink CaptureStore := {
  sink_save c st := let r := saveCaptureChunk c st in (Ok r.1, r.2);
  sink_update id p st := let r := updateCaptureSession id p st in (Ok r.1, r.2);
  sink_chunks := captureChunks
}.

Record CaptureWriterOptions := {
  wo_sessionId : string;
  wo_byteCap : Z;
  wo_lineCap : Z;
  wo_durationMs : number;
  wo_flushIntervalMs : option Z;
  wo_flushLineThreshold : option Z;
  wo_ringBufferSize : option Z;
  wo_nodeId : option string;
  wo_startChunkIndex : option Z;
  wo_skipSessionFinalize : option bool
}.

Inductive CaptureWriterStatus := WS_completed | WS_truncated | WS_failed.
#[global] Instance CaptureWriterStatus_eq_dec : EqDecision CaptureWriterStatus.
Proof. solve_decision. Defined.

Definition session_status (s : CaptureWriterStatus) : CaptureSessionStatus :=
  match s with
  | WS_completed => CS_completed
  | WS_truncated => CS_truncated
  | WS_failed => CS_failed
  end.

Record CaptureWriterResult := {
  wr_status : CaptureWriterStatus;
  wr_terminationReason : string;
  wr_byteCount : Z;
  wr_lineCount : Z;
  wr_endedAt : Z
}.

Definition DEFAULT_FLUSH_INTERVAL_MS : Z := 1000.
Definition DEFAULT_FLUSH_LINE_THRESHOLD : Z := 5000.
Definition DEFAULT_RING_BUFFER_SIZE : Z := 10000.

(** What a writer does to the outside, in order. *)
Inductive WriterEffect :=
  | EffLine (subscriber : nat) (line : string)
  | EffEnd (subscriber : nat)
  | EffSourceStop
  | EffResolve (result : CaptureWriterResult).

(** The [readonly] fields the constructor sets. *)
Record WriterConfig := {
  wc_sessionId : string;
  wc_byteCap : Z;
  wc_lineCap : Z;
  wc_durationMs : number;
  wc_flushIntervalMs : Z;
  wc_flushLineThreshold : Z;
  wc_ringBufferSize : Z;
  wc_nodeId : option string;
  wc_skipSessionFinalize : bool
}.

Record CaptureWriter := {
  w_config : WriterConfig;
  w_buffer : list string;
  w_bufferBytes : Z;
  w_bufferFirstTs : Z;
  w_byteCount : Z;
  w_lineCount : Z;
  w_chunkIndex : Z;
  w_ringBuffer : list string;
  w_lineSubscribers : list nat;
  w_endSubscribers : list nat;
  w_status : CaptureWriterStatus;
  w_terminationReason : string;
  w_stopped : bool;
  w_flushTimer : bool;
  w_durationTimer : bool;
  w_writeQueue : list StoredCaptureChunk;  (* chunks queued and not settled *)
  w_resolved : bool;                       (* [resolveDone] is null *)
  w_effects : list WriterEffect
}.

(** The constructor. *)
Definition writer_config (opts : CaptureWriterOptions) : WriterConfig :=
  {| wc_sessionId := wo_sessionId opts; wc_byteCap := wo_byteCap opts;
     wc_lineCap := wo_lineCap opts; wc_durationMs := wo_durationMs opts;
     wc_flushIntervalMs := default DEFAULT_FLUSH_INTERVAL_MS (wo_flushIntervalMs opts);
     wc_flushLineThreshold := default DEFAULT_FLUSH_LINE_THRESHOLD (wo_flushLineThreshold opts);
     wc_ringBufferSize := default DEFAULT_RING_BUFFER_SIZE (wo_ringBufferSize opts);
     wc_nodeId := wo_nodeId opts;
     wc_skipSessionFinalize := default false (wo_skipSessionFinalize opts) |}.

Definition new_CaptureWriter (opts : CaptureWriterOptions) : CaptureWriter :=
  {| w_config := writer_config opts;
     w_buffer := []; w_bufferBytes := 0; w_bufferFirstTs := 0;
     w_byteCount := 0; w_lineCount := 0;
     w_chunkIndex := default 0 (wo_startChunkIndex opts);
     w_ringBuffer := []; w_lineSubscribers := []; w_endSubscribers := [];
     w_status := WS_completed; w_terminationReason := "source_ended"; w_stopped := false;
     w_flushTimer := false; w_durationTimer := false; w_writeQueue := [];
     w_resolved := false; w_effects := [] |}.

(** Assignments to the fields the handlers change. *)
Definition set_duration_timer (b : bool) (w : CaptureWriter) : CaptureWriter :=
  {| w_config := w_config w;
     w_buffer := w_buffer w; w_bufferBytes := w_bufferBytes w;
     w_bufferFirstTs := w_bufferFirstTs w; w_byteCount := w_byteCount w;
     w_lineCount := w_lineCount w; w_chunkIndex := w_chunkIndex w;
     w_ringBuffer := w_ringBuffer w; w_lineSubscribers := w_lineSubscribers w;
     w_endSubscribers := w_endSubscribers w; w_status := w_status w;
     w_terminationReason := w_terminationReason w; w_stopped := w_stopped w;
     w_flushTimer := w_flushTimer w; w_durationTimer := b;
     w_writeQueue := w_writeQueue w; w_resolved := w_resolved w; w_effects := w_effects w |}.

Definition set_subscribers (lines ends : list nat) (w : CaptureWriter) : CaptureWriter :=
  {| w_config := w_config w;
     w_buffer := w_buffer w; w_bufferBytes := w_bufferBytes w;
     w_bufferFirstTs := w_bufferFirstTs w; w_byteCount := w_byteCount w;
     w_lineCount := w_lineCount w; w_chunkIndex := w_chunkIndex w;
     w_ringBuffer := w_ringBuffer w; w_lineSubscribers := lines;
     w_endSubscribers := ends; w_status := w_status w;
     w_terminationReason := w_terminationReason w; w_stopped := w_stopped w;
     w_flushTimer := w_flushTimer w; w_durationTimer := w_durationTimer w;
     w_writeQueue := w_writeQueue w; w_resolved := w_resolved w; w_effects := w_effects w |}.

Definition emit (effects : list WriterEffect) (w : CaptureWriter) : CaptureWriter :=
  {| w_config := w_config w;
     w_buffer := w_buffer w; w_bufferBytes := w_bufferBytes w;
     w_bufferFirstTs := w_bufferFirstTs w; w_byteCount := w_byteCount w;
     w_lineCount := w_lineCount w; w_chunkIndex := w_chunkIndex w;
     w_ringBuffer := w_ringBuffer w; w_lineSubscribers := w_lineSubscribers w;
     w_endSubscribers := w_endSubscribers w; w_status := w_status w;
     w_terminationReason := w_terminationReason w; w_stopped := w_stopped w;
     w_flushTimer := w_flushTimer w; w_durationTimer := w_durationTimer w;
     w_writeQueue := w_writeQueue w; w_resolved := w_resolved w;
     w_effects := w_effects w ++ effects |}.

Definition set_queue (q : list StoredCaptureChunk) (w : CaptureWriter) : CaptureWriter :=
  {| w_config := w_config w;
     w_buffer := w_buffer w; w_bufferBytes := w_bufferBytes w;
     w_bufferFirstTs := w_bufferFirstTs w; w_byteCount := w_byteCount w;
     w_lineCount := w_lineCount w; w_chunkIndex := w_chunkIndex w;
     w_ringBuffer := w_ringBuffer w; w_lineSubscribers := w_lineSubscribers w;
     w_endSubscribers := w_endSubscribers w; w_status := w_status w;
     w_terminationReason := w_terminationReason w; w_stopped := w_stopped w;
     w_flushTimer := w_flushTimer w; w_durationTimer := w_durationTimer w;
     w_writeQueue := q; w_resolved := w_resolved w; w_effects := w_effects w |}.

(** [start()]: the listeners are registered and the duration timer armed. *)
Definition start (w : CaptureWriter) : CaptureWriter := set_duration_timer true w.

(** [this.ringBuffer.push(line)] and the splice. *)
Definition pushRingBuffer (size : Z) (ring : list string) (line : string) : list string :=
  let ring := ring ++ [line] in
  if js_len ring >? size then drop (Z.to_nat (js_len ring - size)) ring else ring.

(** [flush()]; [now] is the clock at [lastTs]. *)
Definition flush (now : Z) (w : CaptureWriter) : CaptureWriter :=
  let empty := match w_buffer w with [] => true | _ => false end in
  let chunk :=
    {| cc_sessionId := wc_sessionId (w_config w); cc_chunkIndex := w_chunkIndex w;
       cc_bytes := join (String newline EmptyString) (w_buffer w);
       cc_lineCount := js_len (w_buffer w);
       cc_firstTs := w_bufferFirstTs w; cc_lastTs := now; cc_nodeId := wc_nodeId (w_config w) |} in
  {| w_config := w_config w;
     w_buffer := [];
     w_bufferBytes := if empty then w_bufferBytes w else 0;
     w_bufferFirstTs := if empty then w_bufferFirstTs w else 0;
     w_byteCount := w_byteCount w; w_lineCount := w_lineCount w;
     w_chunkIndex := if empty then w_chunkIndex w else w_chunkIndex w + 1;
     w_ringBuffer := w_ringBuffer w; w_lineSubscribers := w_lineSubscribers w;
     w_endSubscribers := w_endSubscribers w; w_status := w_status w;
     w_terminationReason := w_terminationReason w; w_stopped := w_stopped w;
     w_flushTimer := false; w_durationTimer := w_durationTimer w;
     w_writeQueue := if empty then w_writeQueue w else w_writeQueue w ++ [chunk];
     w_resolved := w_resolved w; w_effects := w_effects w |}.

(** [terminate(status, reason)] up to its first [await]. *)
Definition terminate (status : CaptureWriterStatus) (reason : string) (now : Z)
    (w : CaptureWriter) : CaptureWriter :=
  if w_stopped w then w else
  flush now
  {| w_config := w_config w;
     w_buffer := w_buffer w; w_bufferBytes := w_bufferBytes w;
     w_bufferFirstTs := w_bufferFirstTs w; w_byteCount := w_byteCount w;
     w_lineCount := w_lineCount w; w_chunkIndex := w_chunkIndex w;
     w_ringBuffer := w_ringBuffer w; w_lineSubscribers := w_lineSubscribers w;
     w_endSubscribers := w_endSubscribers w; w_status := status;
     w_terminationReason := reason; w_stopped := true;
     w_flushTimer := w_flushTimer w; w_durationTimer := false;
     w_writeQueue := w_writeQueue w; w_resolved := w_resolved w;
     w_effects := w_effects w ++ [EffSourceStop] |}.

(** The part of [handleLine] that takes a line in; [tFirst] is the clock at
    [bufferFirstTs]. *)
Definition accept_line (line : string) (tFirst : Z) (w : CaptureWriter) : CaptureWriter :=
  let lineBytes := byte_length line + 1 in
  let first := match w_buffer w with [] => true | _ => false end in
  {| w_config := w_config w;
     w_buffer := w_buffer w ++ [line];
     w_bufferBytes := w_bufferBytes w + lineBytes;
     w_bufferFirstTs := if first then tFirst else w_bufferFirstTs w;
     w_byteCount := w_byteCount w + lineBytes; w_lineCount := w_lineCount w + 1;
     w_chunkIndex := w_chunkIndex w;
     w_ringBuffer := pushRingBuffer (wc_ringBufferSize (w_config w)) (w_ringBuffer w) line;
     w_lineSubscribers := w_lineSubscribers w;
     w_endSubscribers := w_endSubscribers w; w_status := w_status w;
     w_terminationReason := w_terminationReason w; w_stopped := w_stopped w;
     w_flushTimer := if first then true else w_flushTimer w;
     w_durationTimer := w_durationTimer w;
     w_writeQueue := w_writeQueue w; w_resolved := w_resolved w;
     w_effects := w_effects w ++ ((λ i, EffLine i line) <$> w_lineSubscribers w) |}.

Definition handleLine (line : string) (tFirst tFlush : Z) (w : CaptureWriter) : CaptureWriter :=
  if w_stopped w then w else
  let w := accept_line line tFirst w in
  if wc_byteCap (w_config w) <=? w_byteCount w then terminate WS_truncated "byte_cap" tFlush w
  else if wc_lineCap (w_config w) <=? w_lineCount w then terminate WS_truncated "line_cap" tFlush w
  else if wc_flushLineThreshold (w_config w) <=? js_len (w_buffer w) then flush tFlush w
  else w.

Definition stop (reason : string) (now : Z) (w : CaptureWriter) : CaptureWriter :=
  terminate WS_completed reason now w.

Definition getRingBuffer (w : CaptureWriter) : list string := w_ringBuffer w.
Definition getCounters (w : CaptureWriter) : Z * Z := (w_byteCount w, w_lineCount w).

Definition set_add (x : nat) (l : list nat) : list nat := if js_includes x l then l else l ++ [x].
Definition set_remove (x : nat) (l : list nat) : list nat :=
  js_filter (λ y, negb (Nat.eqb x y)) l.

Definition subscribe (i : nat) (w : CaptureWriter) : CaptureWriter :=
  if w_stopped w then w
  else set_subscribers (set_add i (w_lineSubscribers w)) (w_endSubscribers w) w.
Definition unsubscribe (i : nat) (w : CaptureWriter) : CaptureWriter :=
  set_subscribers (set_remove i (w_lineSubscribers w)) (w_endSubscribers w) w.
Definition onEnd (i : nat) (w : CaptureWriter) : CaptureWriter :=
  if w_stopped w then emit [EffEnd i] w
  else set_subscribers (w_lineSubscribers w) (set_add i (w_endSubscribers w)) w.
Definition offEnd (i : nat) (w : CaptureWriter) : CaptureWriter :=
  set_subscribers (w_lineSubscribers w) (set_remove i (w_endSubscribers w)) w.

(** The head of the write queue settles: it is saved, or its error is logged. *)
Definition settle_write `{CaptureSink T} (ws : CaptureWriter * T) : CaptureWriter * T :=
  match w_writeQueue ws.1 with
  | [] => ws
  | c :: q => (set_queue q ws.1, (sink_save c ws.2).2)
  end.

Definition final_patch (now : Z) (w : CaptureWriter) : CaptureSessionPatch :=
  {| csp_status := Some (session_status (w_status w)); csp_endedAt := Some now;
     csp_durationMs := None; csp_byteCount := Some (w_byteCount w);
     csp_lineCount := Some (w_lineCount w);
     csp_terminationReason := Some (w_terminationReason w); csp_nodeSegments := None |}.

Definition final_result (now : Z) (w : CaptureWriter) : CaptureWriterResult :=
  {| wr_status := w_status w; wr_terminationReason := w_terminationReason w;
     wr_byteCount := w_byteCount w; wr_lineCount := w_lineCount w; wr_endedAt := now |}.

Definition set_resolved (w : CaptureWriter) : CaptureWriter :=
  {| w_config := w_config w;
     w_buffer := w_buffer w; w_bufferBytes := w_bufferBytes w;
     w_bufferFirstTs := w_bufferFirstTs w; w_byteCount := w_byteCount w;
     w_lineCount := w_lineCount w; w_chunkIndex := w_chunkIndex w;
     w_ringBuffer := w_ringBuffer w; w_lineSubscribers := w_lineSubscribers w;
     w_endSubscribers := w_endSubscribers w; w_status := w_status w;
     w_terminationReason := w_terminationReason w; w_stopped := w_stopped w;
     w_flushTimer := w_flushTimer w; w_durationTimer := w_durationTimer w;
     w_writeQueue := w_writeQueue w; w_resolved := true; w_effects := w_effects w |}.

(** The rest of [terminate], which runs once the write queue has drained. *)
Definition finalize `{CaptureSink T} (now : Z) (ws : CaptureWriter * T) : CaptureWriter * T :=
  let '(w, s) := ws in
  match w_stopped w, w_writeQueue w, w_resolved w with
  | true, [], false =>
      let s := if wc_skipSessionFinalize (w_config w) then s
               else (sink_update (wc_sessionId (w_config w)) (final_patch now w) s).2 in
      (set_resolved
         (emit [EffResolve (final_result now w)]
            (set_subscribers [] [] (emit (EffEnd <$> w_endSubscribers w) w))), s)
  | _, _, _ => ws
  end.

Inductive WriterEvent :=
  | EvLine (line : string) (tFirst tFlush : Z)
  | EvSourceError (message : string) (now : Z)
  | EvSourceEnd (now : Z)
  | EvDurationTimer (now : Z)
  | EvFlushTimer (now : Z)
  | EvStop (reason : string) (now : Z)
  | EvSubscribe (i : nat)
  | EvUnsubscribe (i : nat)
  | EvOnEnd (i : nat)
  | EvOffEnd (i : nat)
  | EvQueue
  | EvFinalize (now : Z).

(** A timer that is not armed does not fire. *)
Definition writer_step `{CaptureSink T} (e : WriterEvent) (ws : CaptureWriter * T)
    : CaptureWriter * T :=
  let '(w, s) := ws in
  match e with
  | EvLine line tFirst tFlush => (handleLine line tFirst tFlush w, s)
  | EvSourceError m now => (terminate WS_failed ("source_error: " +:+ m) now w, s)
  | EvSourceEnd now => (terminate (w_status w) (w_terminationReason w) now w, s)
  | EvDurationTimer now =>
      (if w_durationTimer w then terminate WS_completed "duration_cap" now w else w, s)
  | EvFlushTimer now => (if w_flushTimer w then flush now w else w, s)
  | EvStop reason now => (stop reason now w, s)
  | EvSubscribe i => (subscribe i w, s)
  | EvUnsubscribe i => (unsubscribe i w, s)
  | EvOnEnd i => (onEnd i w, s)
  | EvOffEnd i => (offEnd i w, s)
  | EvQueue => settle_write ws
  | EvFinalize now => finalize now ws
  end.

Definition writer_run `{CaptureSink T} (evs : list WriterEvent) (ws : CaptureWriter * T)
    : CaptureWriter * T :=
  foldl (λ ws e, writer_step e ws) ws evs.

#[global] Instance memory_sink_laws : CaptureSinkLaws CaptureStore.
Proof.
  split; simpl; [by intros c s n s' [= <- <-]|done|].
  intros id p s. unfold updateCaptureSession. by destruct (jm_get id (captureSessions s)).
Qed.
#[global] Instance memory_sink_reliable : ReliableSink CaptureStore.
Proof. done. Qed.

(** A store whose saves fail when its flag is up, and flip the flag: it shows
    that the interface admits failing stores. *)
Definition flaky_store : Type := bool * list StoredCaptureChunk.
Definition flaky_empty : flaky_store := (true, []).
#[global] Instance flaky_sink : CaptureSink flaky_store := {
  sink_save c s := if s.1 then (Throw "disk full", (false, s.2)) else (Ok 1, (true, s.2 ++ [c]));
  sink_update _ _ s := (Ok true, s);
  sink_chunks s := s.2
}.
#[global] Instance flaky_sink_laws : CaptureSinkLaws flaky_store.
Proof. split; simpl; [intros c [[] l]; naive_solver..|done]. Qed.

Definition sample_options : CaptureWriterOptions :=
  {| wo_sessionId := "s"; wo_byteCap := 1000; wo_lineCap := 3; wo_durationMs := num_of_Z 500;
     wo_flushIntervalMs := None; wo_flushLineThreshold := Some 2; wo_ringBufferSize := Some 2;
     wo_nodeId := None; wo_startChunkIndex := None; wo_skipSessionFinalize := None |}.
Definition sample_events : list WriterEvent :=
  [EvLine "l1" 1 1; EvLine "l2" 2 2; EvLine "l3" 3 3; EvLine "late" 4 4;
   EvQueue; EvQueue; EvFinalize 5].

(** *** Specification *)

(** The lines of a run the writer takes in: those that arrive before it stops. *)
Definition accepted1 (e : WriterEvent) (w : CaptureWriter) : list string :=
  match e with
  | EvLine line _ _ => if w_stopped w then [] else [line]
  | _ => []
  end.
Fixpoint accepted `{CaptureSink T} (evs : list WriterEvent) (ws : CaptureWriter * T)
    : list string :=
  match evs with
  | [] => []
  | e :: evs' => accepted1 e ws.1 ++ accepted evs' (writer_step e ws)
  end.

Definition nl : string := String newline EmptyString.

(** The bytes lines take, each with its newline. *)
Fixpoint text_bytes (lines : list string) : Z :=
  match lines with
  | [] => 0
  | l :: lines' => byte_length l + 1 + text_bytes lines'
  end.

Definition last_n {A} (n : nat) (l : list A) : list A := drop (length l - n) l.

(** A chunk without its timestamps. *)
Definition chunk_row (c : StoredCaptureChunk) : string * Z * Z * string * option string :=
  (cc_bytes c, cc_lineCount c, cc_chunkIndex c, cc_sessionId c, cc_nodeId c).

(** The rows that store groups of lines under consecutive indexes. *)
Definition rows_of (cfg : WriterConfig) (start : Z) (groups : list (list string))
    : list (string * Z * Z * string * option string) :=
  imap (λ i g, (join nl g, js_len g, start + Z.of_nat i, wc_sessionId cfg, wc_nodeId cfg)) groups.

Definition group_ok (cfg : WriterConfig) (g : list string) : Prop :=
  g ≠ [] ∧ js_len g ≤ Z.max 1 (wc_flushLineThreshold cfg).

Definition over_cap (cfg : WriterConfig) (acc : list string) : Prop :=
  acc ≠ [] ∧ (wc_byteCap cfg ≤ text_bytes acc ∨ wc_lineCap cfg ≤ js_len acc).

Definition resolves (effects : list WriterEffect) : list CaptureWriterResult :=
  omap (λ e, match e with EffResolve r => Some r | _ => None end) effects.
Definition source_stops (effects : list WriterEffect) : nat :=
  length (js_filter (λ e, match e with EffSourceStop => true | _ => false end) effects).

(** A writer that has taken [acc] in, of whose chunks [settled] left the queue. *)
Record core_inv (cfg : WriterConfig) (start : Z) (acc : list string)
    (settled : list StoredCaptureChunk) (w : CaptureWriter) : Prop := {
  ci_config : w_config w = cfg;
  ci_groups : ∃ groups,
    chunk_row <$> (settled ++ w_writeQueue w) = rows_of cfg start groups ∧
    acc = mjoin groups ++ w_buffer w ∧ Forall (group_ok cfg) groups ∧
    w_chunkIndex w = start + js_len groups;
  ci_lines : w_lineCount w = js_len acc;
  ci_bytes : w_byteCount w = text_bytes acc;
  ci_ring : w_ringBuffer w = last_n (Z.to_nat (wc_ringBufferSize cfg)) acc;
  ci_caps : ∀ pre l, acc = pre ++ [l] → ¬ over_cap cfg pre
}.

Record status_inv (cfg : WriterConfig) (acc : list string) (w : CaptureWriter) : Prop := {
  si_running : w_stopped w = false →
    js_len (w_buffer w) < Z.max 1 (wc_flushLineThreshold cfg) ∧
    w_flushTimer w = negb (bool_decide (w_buffer w = [])) ∧
    ¬ over_cap cfg acc ∧
    w_status w = WS_completed ∧ w_terminationReason w = "source_ended" ∧
    w_resolved w = false;
  si_stopped : w_stopped w = true →
    w_buffer w = [] ∧ w_flushTimer w = false ∧ w_durationTimer w = false ∧
    (w_status w = WS_truncated ↔ over_cap cfg acc);
  si_reason : w_status w = WS_truncated →
    (w_terminationReason w = "byte_cap" ∧ wc_byteCap cfg ≤ text_bytes acc) ∨
    (w_terminationReason w = "line_cap" ∧ wc_lineCap cfg ≤ js_len acc);
  si_resolved : w_resolved w = true → w_writeQueue w = [];
  si_stops : source_stops (w_effects w) = if w_stopped w then 1%nat else 0%nat;
  si_resolves : ∃ now, resolves (w_effects w)
                       = if w_resolved w then [final_result now w] else []
}.

Definition writer_inv (cfg : WriterConfig) (start : Z) (acc : list string)
    (settled : list StoredCaptureChunk) (w : CaptureWriter) : Prop :=
  core_inv cfg start acc settled w ∧ status_inv cfg acc w.

(** What a run has captured and what the store holds of it. *)
Definition sys_inv `{CaptureSink T} (cfg : WriterConfig) (start : Z) (base : list StoredCaptureChunk)
    (acc : list string) (ws : CaptureWriter * T) : Prop :=
  ∃ settled kept, writer_inv cfg start acc settled ws.1 ∧
    sink_chunks ws.2 = base ++ kept ∧ kept `sublist_of` settled ∧
    (ReliableSink T → kept = settled).

Definition sum_lines (l : list StoredCaptureChunk) : Z := foldr (λ c n, cc_lineCount c + n) 0 l.

(** Every chunk of the rows has between one line and the flush threshold, the
    session and the node of the writer. *)
Definition chunk_of (cfg : WriterConfig) (c : StoredCaptureChunk) : Prop :=
  1 ≤ cc_lineCount c ≤ Z.max 1 (wc_flushLineThreshold cfg) ∧
  cc_sessionId c = wc_sessionId cfg ∧ cc_nodeId c = wc_nodeId cfg.

Definition fresh_writer {T} (opts : CaptureWriterOptions) (s : T) : CaptureWriter * T :=
  (start (new_CaptureWriter opts), s).

(** ** Lemmas *)
Lemma text_bytes_app l k : text_bytes (l ++ k) = text_bytes l + text_bytes k.
Proof. induction l as [|x l IH]; simpl; lia. Qed.

Lemma last_n_push {A} (n : nat) (l : list A) x :
  last_n n (l ++ [x])
  = (let r := last_n n l ++ [x] in drop (length r - n) r).
Proof.
  unfold last_n. cbv zeta. rewrite !length_app, length_drop. simpl.
  destruct (Nat.le_gt_cases (length l) n) as [Hl|Hl].
  - replace (length l - n)%nat with 0%nat by lia. rewrite drop_0.
    f_equal; lia.
  - replace (length l + 1 - n)%nat with (S (length l - n)) by lia.
    replace (length l - (length l - n) + 1 - n)%nat with 1%nat by lia.
    destruct n as [|n].
    + rewrite Nat.sub_0_r, (drop_ge l) by lia. rewrite drop_ge; [done|].
      rewrite length_app. simpl. lia.
    + rewrite !drop_app_le by (rewrite ?length_drop; lia).
      rewrite drop_drop. do 2 f_equal. lia.
Qed.

Lemma pushRingBuffer_last size acc line :
  pushRingBuffer size (last_n (Z.to_nat size) acc) line
  = last_n (Z.to_nat size) (acc ++ [line]).
Proof.
  rewrite last_n_push. cbv zeta. unfold pushRingBuffer, js_len.
  set (r := last_n (Z.to_nat size) acc ++ [line]).
  rewrite Z.gtb_ltb. destruct (Z.ltb_spec size (Z.of_nat (length r))).
  - destruct (Z.le_gt_cases 0 size); [f_equal; lia|].
    rewrite !drop_ge; [done|lia..].
  - replace (length r - Z.to_nat size)%nat with 0%nat by lia. by rewrite drop_0.
Qed.

Lemma rows_of_snoc cfg start groups g :
  rows_of cfg start (groups ++ [g])
  = rows_of cfg start groups
    ++ [(join nl g, js_len g, start + js_len groups, wc_sessionId cfg, wc_nodeId cfg)].
Proof. unfold rows_of. rewrite imap_app. simpl. by rewrite Nat.add_0_r. Qed.

Lemma resolves_app e1 e2 : resolves (e1 ++ e2) = resolves e1 ++ resolves e2.
Proof. apply omap_app. Qed.
Lemma source_stops_app e1 e2 :
  source_stops (e1 ++ e2) = (source_stops e1 + source_stops e2)%nat.
Proof. unfold source_stops. by rewrite js_filter_app, length_app. Qed.
Lemma resolves_lines line l : resolves ((λ i, EffLine i line) <$> l) = [].
Proof. induction l; simpl; done. Qed.
Lemma source_stops_lines line l : source_stops ((λ i, EffLine i line) <$> l) = 0%nat.
Proof. induction l; simpl; done. Qed.
Lemma resolves_ends l : resolves (EffEnd <$> l) = [].
Proof. induction l; simpl; done. Qed.
Lemma source_stops_ends l : source_stops (EffEnd <$> l) = 0%nat.
Proof. induction l; simpl; done. Qed.

(** *** Flushing and accepting *)
Lemma flush_buffer now w : w_buffer (flush now w) = [].
Proof. done. Qed.

Lemma core_inv_flush cfg start acc settled now w :
  js_len (w_buffer w) ≤ Z.max 1 (wc_flushLineThreshold cfg) →
  core_inv cfg start acc settled w → core_inv cfg start acc settled (flush now w).
Proof.
  intros Hlen [Hc (groups & Hrows & Hacc & Hok & Hidx) Hl Hb Hr Hcaps].
  split; try done. destruct (w_buffer w) as [|x b] eqn:Hbuf.
  { exists groups. simpl. by rewrite Hbuf. }
  exists (groups ++ [x :: b]). unfold flush. simpl. rewrite Hbuf. split_and!.
  - rewrite app_assoc, fmap_app, Hrows, rows_of_snoc. unfold chunk_row. simpl.
    by rewrite Hidx, Hc.
  - rewrite Hacc, join_app. simpl. by rewrite !app_nil_r.
  - apply Forall_app; split; [done|]. repeat constructor; done.
  - rewrite Hidx. unfold js_len. rewrite length_app. simpl. lia.
Qed.

Lemma core_inv_accept cfg start acc settled line tFirst w :
  ¬ over_cap cfg acc →
  core_inv cfg start acc settled w →
  core_inv cfg start (acc ++ [line]) settled (accept_line line tFirst w).
Proof.
  intros Hcap [Hc (groups & Hrows & Hacc & Hok & Hidx) Hl Hb Hr Hcaps]. split; simpl.
  - done.
  - exists groups. split_and!; try done. rewrite Hacc. by rewrite app_assoc.
  - rewrite Hl. unfold js_len. rewrite length_app. simpl. lia.
  - rewrite Hb, text_bytes_app. simpl. lia.
  - rewrite Hr, Hc. apply pushRingBuffer_last.
  - intros pre l [-> _]%app_inj_tail. done.
Qed.

Lemma core_inv_queue cfg start acc settled c q w :
  w_writeQueue w = c :: q →
  core_inv cfg start acc settled w →
  core_inv cfg start acc (settled ++ [c]) (set_queue q w).
Proof.
  intros Hq [Hc (groups & Hrows & Hg) Hl Hb Hr Hcaps]. split; simpl; try done.
  exists groups. split; [|done]. rewrite Hq in Hrows. by rewrite <-app_assoc.
Qed.

(** *** Termination *)
Lemma terminate_stopped status reason now w :
  w_stopped w = true → terminate status reason now w = w.
Proof. intros H. unfold terminate. by rewrite H. Qed.

Lemma terminate_inv cfg start acc settled status reason now w :
  core_inv cfg start acc settled w →
  w_stopped w = false →
  js_len (w_buffer w) ≤ Z.max 1 (wc_flushLineThreshold cfg) →
  w_resolved w = false →
  source_stops (w_effects w) = 0%nat → resolves (w_effects w) = [] →
  (status = WS_truncated ↔ over_cap cfg acc) →
  (status = WS_truncated →
    (reason = "byte_cap" ∧ wc_byteCap cfg ≤ text_bytes acc) ∨
    (reason = "line_cap" ∧ wc_lineCap cfg ≤ js_len acc)) →
  writer_inv cfg start acc settled (terminate status reason now w).
Proof.
  intros Hcore Hs Hlen Hres Hst Hrs Hcap Hreason. unfold terminate. rewrite Hs. split.
  - apply core_inv_flush; [done|]. destruct Hcore. by split.
  - split; simpl; try done.
    + by rewrite Hres.
    + by rewrite source_stops_app, Hst.
    + exists 0. by rewrite resolves_app, Hrs, Hres.
Qed.

(** A terminating event other than a cap leaves the captured lines alone. *)
Lemma terminate_running cfg start acc settled status reason now w :
  writer_inv cfg start acc settled w → status ≠ WS_truncated →
  writer_inv cfg start acc settled (terminate status reason now w).
Proof.
  intros [Hc Hs] Hne. destruct (w_stopped w) eqn:Est; [by rewrite terminate_stopped|].
  destruct (si_running _ _ _ Hs Est) as (Hlen & _ & Hcap & _ & _ & Hres).
  destruct (si_resolves _ _ _ Hs) as [t Ht]. rewrite Hres in Ht.
  pose proof (si_stops _ _ _ Hs) as Hst. rewrite Est in Hst.
  apply terminate_inv; try done; lia.
Qed.

Lemma flush_running cfg start acc settled now w :
  writer_inv cfg start acc settled w → w_stopped w = false →
  writer_inv cfg start acc settled (flush now w).
Proof.
  intros [Hc Hs] Est. destruct (si_running _ _ _ Hs Est) as (Hlen & Htim & Hcap & Hst & Hre & Hres).
  split; [apply core_inv_flush; [lia|done]|].
  destruct Hs as [_ Hstop Hreason Hresd Hstops Hrs]. split; simpl; try done.
  - intros _. split_and!; try done; unfold js_len; simpl; lia.
  - intros. congruence.
  - intros Hr. congruence.
Qed.

Lemma handleLine_inv cfg start acc settled line tFirst tFlush w :
  writer_inv cfg start acc settled w →
  writer_inv cfg start (acc ++ accepted1 (EvLine line tFirst tFlush) w) settled
    (handleLine line tFirst tFlush w).
Proof.
  intros [Hc Hs]. unfold handleLine. cbn [accepted1]. destruct (w_stopped w) eqn:Est.
  { by rewrite app_nil_r. }
  destruct (si_running _ _ _ Hs Est) as (Hlen & Htim & Hcap & Hst & Hre & Hres).
  pose proof (core_inv_accept _ _ _ _ line tFirst _ Hcap Hc) as Hc'.
  pose proof (si_stops _ _ _ Hs) as Hstops. rewrite Est in Hstops.
  destruct (si_resolves _ _ _ Hs) as [t Hrs]. rewrite Hres in Hrs.
  set (w' := accept_line line tFirst w) in *. cbv zeta.
  assert (Hlen' : js_len (w_buffer w') ≤ Z.max 1 (wc_flushLineThreshold cfg)).
  { unfold w', js_len in *. simpl. rewrite length_app. simpl. lia. }
  assert (Hst' : source_stops (w_effects w') = 0%nat)
    by (simpl; by rewrite source_stops_app, source_stops_lines, Hstops).
  assert (Hrs' : resolves (w_effects w') = [])
    by (simpl; by rewrite resolves_app, resolves_lines, Hrs).
  assert (Hne : acc ++ [line] ≠ []) by (by destruct acc).
  rewrite (ci_config _ _ _ _ _ Hc'), (ci_bytes _ _ _ _ _ Hc'), (ci_lines _ _ _ _ _ Hc').
  destruct (Z.leb_spec (wc_byteCap cfg) (text_bytes (acc ++ [line]))) as [Hb|Hb].
  { apply terminate_inv; try done; [|by auto]. split; [|done]. intros _. by split; [|left]. }
  destruct (Z.leb_spec (wc_lineCap cfg) (js_len (acc ++ [line]))) as [Hl|Hl].
  { apply terminate_inv; try done; [|by auto]. split; [|done]. intros _. by split; [|right]. }
  assert (Hncap : ¬ over_cap cfg (acc ++ [line])) by (intros [_ [?|?]]; lia).
  destruct (Z.leb_spec (wc_flushLineThreshold cfg) (js_len (w_buffer w'))) as [Hf|Hf].
  - split; [by apply core_inv_flush|]. split; simpl; try done.
    + intros _. split_and!; try done. unfold js_len. simpl. lia.
    + by rewrite Est.
    + rewrite Hst. done.
    + by rewrite Hres.
    + by rewrite Est.
    + exists 0. by rewrite Hres.
  - split; [done|]. split; try done.
    + intros _. split_and!; try done; [lia|]. simpl.
      rewrite bool_decide_eq_false_2 by (by destruct (w_buffer w)).
      destruct (w_buffer w); [done|]. by rewrite Htim.
    + simpl. by rewrite Est.
    + simpl. rewrite Hst. done.
    + simpl. by rewrite Hres.
    + simpl. by rewrite Est.
    + exists 0. simpl. by rewrite Hres.
Qed.

(** Viewers come and go without touching what is captured. *)
Lemma set_subscribers_inv cfg start acc settled l k w :
  writer_inv cfg start acc settled w → writer_inv cfg start acc settled (set_subscribers l k w).
Proof. intros [[] []]. split; by split. Qed.

Lemma emit_end_inv cfg start acc settled l w :
  writer_inv cfg start acc settled w → writer_inv cfg start acc settled (emit (EffEnd <$> l) w).
Proof.
  intros [[] [Hr Hs Hre Hres Hst [now Hrs]]]. split; [by split|]. split; simpl; try done.
  - by rewrite source_stops_app, source_stops_ends, Nat.add_0_r.
  - exists now. by rewrite resolves_app, resolves_ends, app_nil_r.
Qed.

Lemma settle_inv cfg start acc settled c q w :
  w_writeQueue w = c :: q →
  writer_inv cfg start acc settled w →
  writer_inv cfg start acc (settled ++ [c]) (set_queue q w).
Proof.
  intros Hq [Hc [Hr Hs Hre Hres Hst Hrs]]. split; [by apply core_inv_queue|].
  split; simpl; try done. intros Hd. specialize (Hres Hd). congruence.
Qed.

Lemma set_duration_timer_inv cfg start acc settled w :
  w_stopped w = false →
  writer_inv cfg start acc settled w → writer_inv cfg start acc settled (set_duration_timer true w).
Proof.
  intros Est [[] [Hr Hs Hre Hres Hst Hrs]]. split; [by split|]. split; simpl; try done.
  intros. congruence.
Qed.

Section sink.
Context `{CaptureSinkLaws T}.

Lemma finalize_inv cfg start acc settled now (w : CaptureWriter) (s : T) :
  writer_inv cfg start acc settled w →
  writer_inv cfg start acc settled (finalize now (w, s)).1
  ∧ sink_chunks (finalize now (w, s)).2 = sink_chunks s.
Proof using All.
  intros Hw. unfold finalize.
  destruct (w_stopped w) eqn:Est; [|done]. destruct (w_writeQueue w) eqn:Eq; [|done].
  destruct (w_resolved w) eqn:Er; [done|]. split.
  - destruct (emit_end_inv _ _ _ _ (w_endSubscribers w) _ Hw)
      as [[] [Hr Hs Hre Hres Hst [t Hrs]]].
    simpl in *. rewrite Er, ?Est in *. split; [by split|]. split; simpl; try done.
    + intros. congruence.
    + intros _. by apply Hs.
    + rewrite source_stops_app, Hst, Est. done.
    + exists now. rewrite resolves_app, Hrs. done.
  - simpl. destruct (wc_skipSessionFinalize _); [done|]. apply sink_update_chunks.
Qed.

Lemma sys_inv_step cfg start base acc e ws :
  sys_inv cfg start base acc ws →
  sys_inv cfg start base (acc ++ accepted1 e ws.1) (writer_step e ws).
Proof using All.
  destruct ws as [w s]. intros (settled & kept & Hw & Hsink & Hsub & Hrel). simpl in *.
  assert (Hpure : ∀ w', writer_inv cfg start acc settled w' →
    sys_inv cfg start base acc (w', s)) by (intros w' Hw'; by exists settled, kept).
  destruct e; cbn [writer_step accepted1]; rewrite ?app_nil_r.
  - exists settled, kept. split_and!; try done. by apply handleLine_inv.
  - apply Hpure. by apply terminate_running.
  - apply Hpure. destruct (w_stopped w) eqn:Est; [by rewrite terminate_stopped|].
    apply terminate_running; [done|].
    destruct Hw as [_ Hs]. destruct (si_running _ _ _ Hs Est) as (_ & _ & _ & -> & _). done.
  - apply Hpure. destruct (w_durationTimer w); [|done]. by apply terminate_running.
  - apply Hpure. destruct (w_flushTimer w) eqn:Ef; [|done].
    destruct (w_stopped w) eqn:Est; [|by apply flush_running].
    destruct Hw as [_ Hs]. destruct (si_stopped _ _ _ Hs Est) as (_ & ? & _). congruence.
  - apply Hpure. by apply terminate_running.
  - apply Hpure. unfold subscribe. destruct (w_stopped w); [done|]. by apply set_subscribers_inv.
  - apply Hpure. by apply set_subscribers_inv.
  - apply Hpure. unfold onEnd. destruct (w_stopped w); [by apply (emit_end_inv _ _ _ _ [i])|].
    by apply set_subscribers_inv.
  - apply Hpure. by apply set_subscribers_inv.
  - unfold settle_write. simpl. destruct (w_writeQueue w) as [|c q] eqn:Eq; [by apply Hpure|].
    exists (settled ++ [c]). pose proof (settle_inv _ _ _ _ _ _ _ Eq Hw) as Hw'.
    destruct (sink_save c s) as [[n|err] s'] eqn:Esave.
    + exists (kept ++ [c]). split_and!; [done| |by apply sublist_app|].
      * simpl. by rewrite (sink_save_ok _ _ _ _ Esave), Hsink, app_assoc.
      * intros Hr. by rewrite (Hrel Hr).
    + exists kept. split_and!; [done| |by apply sublist_inserts_r|].
      * simpl. by rewrite (sink_save_throw _ _ _ _ Esave).
      * intros Hr. pose proof (Hr c s) as Hok. by rewrite Esave in Hok.
  - destruct (finalize_inv _ _ _ _ now _ s Hw) as [Hw' Hs'].
    exists settled, kept. split_and!; try done. exact (eq_trans Hs' Hsink).
Qed.

Lemma sys_inv_run cfg start base evs acc ws :
  sys_inv cfg start base acc ws →
  sys_inv cfg start base (acc ++ accepted evs ws) (writer_run evs ws).
Proof using All.
  revert acc ws. induction evs as [|e evs IH]; intros acc ws Hinv; simpl.
  - by rewrite app_nil_r.
  - rewrite app_assoc. apply IH. by apply sys_inv_step.
Qed.

Lemma sys_inv_init opts (s : T) :
  sys_inv (writer_config opts) (default 0 (wo_startChunkIndex opts)) (sink_chunks s) []
    (start (new_CaptureWriter opts), s).
Proof using All.
  exists [], []. split_and!; try done; [|by rewrite app_nil_r].
  apply set_duration_timer_inv; [done|]. split; split; simpl; try done.
  - exists []. split_and!; try done. unfold js_len. simpl. lia.
  - intros pre l Heq. by destruct pre.
  - intros _. split_and!; try done; [unfold js_len; simpl; lia|]. by intros [? _].
  - by exists 0.
Qed.

Lemma run_inv opts evs (s : T) :
  sys_inv (writer_config opts) (default 0 (wo_startChunkIndex opts)) (sink_chunks s)
    (accepted evs (start (new_CaptureWriter opts), s))
    (writer_run evs (start (new_CaptureWriter opts), s)).
Proof using All. apply (sys_inv_run _ _ _ _ []). apply sys_inv_init. Qed.
End sink.

(** *** The text of the chunks *)
Lemma join_nonempty_cons sep x l : l ≠ [] → join sep (x :: l) = x +:+ sep +:+ join sep l.
Proof. by destruct l. Qed.

Lemma join_app sep l k :
  l ≠ [] → k ≠ [] → join sep (l ++ k) = join sep l +:+ sep +:+ join sep k.
Proof.
  intros Hl Hk. induction l as [|x l IH]; [done|].
  destruct l as [|y l].
  - by destruct k.
  - change ((x :: y :: l) ++ k) with (x :: ((y :: l) ++ k)).
    rewrite !join_nonempty_cons by done. rewrite IH by done. by rewrite !str_app_assoc.
Qed.

(** Joining the joined groups joins all the lines. *)
Lemma join_groups sep (groups : list (list string)) :
  Forall (λ g, g ≠ []) groups → join sep (join sep <$> groups) = join sep (mjoin groups).
Proof.
  induction 1 as [|g groups Hg Hgs IH]; [done|]. cbn [fmap list_fmap mjoin list_join].
  destruct groups as [|g' groups]; [by rewrite app_nil_r|].
  rewrite join_nonempty_cons by done. rewrite IH. rewrite join_app; try done.
  apply Forall_cons in Hgs as [Hg' _]. simpl. by destruct g'.
Qed.

Lemma rows_bytes cfg start groups :
  (λ r : string * Z * Z * string * option string, r.1.1.1.1) <$> rows_of cfg start groups
  = join nl <$> groups.
Proof.
  unfold rows_of. rewrite fmap_imap. apply list_eq. intros i.
  rewrite list_lookup_imap, list_lookup_fmap. by destruct (groups !! i).
Qed.

Lemma rows_index cfg start groups :
  (λ r : string * Z * Z * string * option string, r.1.1.2) <$> rows_of cfg start groups
  = seqZ start (js_len groups).
Proof.
  unfold rows_of. rewrite fmap_imap. apply list_eq. intros i. rewrite list_lookup_imap.
  destruct (groups !! i) eqn:E; simpl.
  - symmetry. apply lookup_seqZ. apply lookup_lt_Some in E. unfold js_len. lia.
  - symmetry. apply lookup_ge_None in E. apply lookup_seqZ_ge. unfold js_len. lia.
Qed.

Lemma sum_lines_rows cfg start groups l :
  chunk_row <$> l = rows_of cfg start groups → sum_lines l = js_len (mjoin groups).
Proof.
  revert start l. induction groups as [|g groups IH]; intros start [|c l] Heq; try done.
  unfold rows_of in Heq. csimpl in Heq. injection Heq as _ Hlines _ _ _ Hrest. simpl.
  rewrite (IH (start + 1) l).
  - rewrite Hlines. unfold js_len. rewrite length_app. lia.
  - rewrite Hrest. unfold rows_of. apply imap_ext. intros i x _. simpl.
    by replace (start + 1 + Z.of_nat i) with (start + Z.of_nat (S i)) by lia.
Qed.

Lemma rows_chunk_of cfg start groups l :
  Forall (group_ok cfg) groups →
  chunk_row <$> l = rows_of cfg start groups → Forall (chunk_of cfg) l.
Proof.
  intros Hg Heq. apply Forall_lookup. intros i c Hc.
  assert (Hr : rows_of cfg start groups !! i = Some (chunk_row c))
    by (rewrite <-Heq, list_lookup_fmap, Hc; done).
  unfold rows_of in Hr. rewrite list_lookup_imap in Hr.
  destruct (groups !! i) as [g|] eqn:Eg; [|done]. simpl in Hr. injection Hr as Hb Hn Hi Hs Hd.
  pose proof (Forall_lookup_1 _ _ _ _ Hg Eg) as [Hne Hlen].
  unfold chunk_of. rewrite <-Hn, <-Hs, <-Hd. split_and!; try done.
  unfold js_len. destruct g; [done|]. simpl. lia.
Qed.

(** What a resolved writer has added to a store that does not fail. *)
Lemma writer_groups `{CaptureSinkLaws T} `{!ReliableSink T} opts evs (s : T) :
  w_resolved (writer_run evs (fresh_writer opts s)).1 = true →
  ∃ new groups, sink_chunks (writer_run evs (fresh_writer opts s)).2 = sink_chunks s ++ new
    ∧ chunk_row <$> new
      = rows_of (writer_config opts) (default 0 (wo_startChunkIndex opts)) groups
    ∧ accepted evs (fresh_writer opts s) = mjoin groups
    ∧ Forall (group_ok (writer_config opts)) groups.
Proof.
  intros Hres. destruct (run_inv opts evs s) as (settled & kept & [Hc Hs] & Hsink & _ & Hrel).
  specialize (Hrel _). subst kept. fold (fresh_writer opts s) in *.
  destruct (ci_groups _ _ _ _ _ Hc) as (groups & Hrows & Hacc & Hok & _).
  rewrite (si_resolved _ _ _ Hs Hres), app_nil_r in Hrows.
  destruct (w_stopped (writer_run evs (fresh_writer opts s)).1) eqn:Est;
    [|by destruct (si_running _ _ _ Hs Est) as (_ & _ & _ & _ & _ & ?); congruence].
  destruct (si_stopped _ _ _ Hs Est) as (Hbuf & _). rewrite Hbuf, app_nil_r in Hacc.
  by exists settled, groups.
Qed.

(** ** Properties *)

(** C1: A capture is persisted exactly once and in order.  When a writer over a
    store that does not fail resolves, the chunks it added carry consecutive
    indexes from [startChunkIndex], each between one line and the flush
    threshold, all of the writer's session and node; their texts joined by
    newlines are the accepted lines joined by newlines, and their line counts
    add up to the accepted lines. *)
Theorem writer_persists_capture `{CaptureSinkLaws T} `{!ReliableSink T} opts evs (s : T) :
  w_resolved (writer_run evs (fresh_writer opts s)).1 = true →
  ∃ new, sink_chunks (writer_run evs (fresh_writer opts s)).2 = sink_chunks s ++ new
    ∧ join nl (cc_bytes <$> new) = join nl (accepted evs (fresh_writer opts s))
    ∧ cc_chunkIndex <$> new = seqZ (default 0 (wo_startChunkIndex opts)) (js_len new)
    ∧ sum_lines new = js_len (accepted evs (fresh_writer opts s))
    ∧ Forall (chunk_of (writer_config opts)) new.
Proof.
  intros Hres. destruct (writer_groups opts evs s Hres) as (settled & groups & Hsink & Hrows & Hacc & Hok).
  exists settled. split; [done|]. rewrite Hacc. split_and!.
  - rewrite <-join_groups by (eapply Forall_impl; [exact Hok|]; by intros g [? _]).
    erewrite <-rows_bytes, <-Hrows, <-list_fmap_compose. done.
  - assert (Hlen : js_len settled = js_len groups).
    { unfold js_len. f_equal. rewrite <-(length_fmap chunk_row settled), Hrows.
      apply length_imap. }
    rewrite Hlen. erewrite <-rows_index, <-Hrows, <-list_fmap_compose. done.
  - by eapply sum_lines_rows.
  - by eapply rows_chunk_of.
Qed.


(** The caps hold with an overshoot of at most the line that reaches them,
    the counters are exactly the accepted lines and their bytes, and the
    capture is reported truncated if and only if a cap was reached. *)
Theorem writer_caps `{CaptureSinkLaws T} opts evs (s : T) :
  let w := (writer_run evs (fresh_writer opts s)).1 in
  let acc := accepted evs (fresh_writer opts s) in
  getCounters w = (text_bytes acc, js_len acc)
  ∧ (∀ pre l, acc = pre ++ [l] →
      pre = [] ∨ (text_bytes pre < wo_byteCap opts ∧ js_len pre < wo_lineCap opts))
  ∧ (w_stopped w = true →
      (w_status w = WS_truncated ↔
       acc ≠ [] ∧ (wo_byteCap opts ≤ text_bytes acc ∨ wo_lineCap opts ≤ js_len acc))).
Proof.
  intros w acc. destruct (run_inv opts evs s) as (settled & kept & [Hc Hs] & _).
  fold (fresh_writer opts s) in *. fold w in Hc, Hs. fold acc in Hc, Hs. split_and!.
  - unfold getCounters. by rewrite (ci_bytes _ _ _ _ _ Hc), (ci_lines _ _ _ _ _ Hc).
  - intros pre l Heq. pose proof (ci_caps _ _ _ _ _ Hc pre l Heq) as Hn.
    destruct pre as [|x pre]; [by left|]. right. unfold over_cap in Hn. simpl in Hn |- *.
    destruct (decide (wo_byteCap opts ≤ byte_length x + 1 + text_bytes pre)); [naive_solver|].
    destruct (decide (wo_lineCap opts ≤ js_len (x :: pre))); [naive_solver|]. lia.
  - intros Est. by destruct (si_stopped _ _ _ Hs Est) as (_ & _ & _ & ?).
Qed.

(** The ring buffer a tail reader sees is the last [ringBufferSize] accepted
    lines, oldest first, at every moment of the capture. *)
Theorem writer_ring_buffer `{CaptureSinkLaws T} opts evs (s : T) :
  getRingBuffer (writer_run evs (fresh_writer opts s)).1
  = last_n (Z.to_nat (default DEFAULT_RING_BUFFER_SIZE (wo_ringBufferSize opts)))
      (accepted evs (fresh_writer opts s)).
Proof.
  destruct (run_inv opts evs s) as (settled & kept & [Hc _] & _). apply (ci_ring _ _ _ _ _ Hc).
Qed.

(** A writer terminates once.  It stops its source exactly when it has
    stopped and only once, resolves its promise at most once with the counters
    of the lines it accepted, and once it is stopped, settling the chunks still
    queued and letting [terminate] continue resolves it. *)
Theorem writer_terminates_once `{CaptureSinkLaws T} opts evs (s : T) now :
  let ws := writer_run evs (fresh_writer opts s) in
  let acc := accepted evs (fresh_writer opts s) in
  source_stops (w_effects ws.1) = (if w_stopped ws.1 then 1 else 0)%nat
  ∧ (if w_resolved ws.1
     then ∃ r, resolves (w_effects ws.1) = [r] ∧ wr_lineCount r = js_len acc
               ∧ wr_byteCount r = text_bytes acc ∧ wr_status r = w_status ws.1
     else resolves (w_effects ws.1) = [])
  ∧ (w_stopped ws.1 = true →
     w_resolved (writer_run (replicate (length (w_writeQueue ws.1)) EvQueue ++ [EvFinalize now]) ws).1
     = true).
Proof.
  intros ws acc. destruct (run_inv opts evs s) as (settled & kept & [Hc Hs] & _).
  fold (fresh_writer opts s) in *. fold ws in Hc, Hs. fold acc in Hc, Hs. split_and!.
  - apply (si_stops _ _ _ Hs).
  - destruct (si_resolves _ _ _ Hs) as [t Ht]. destruct (w_resolved ws.1); [|done].
    exists (final_result t ws.1). split_and!; try done.
    + apply (ci_lines _ _ _ _ _ Hc).
    + apply (ci_bytes _ _ _ _ _ Hc).
  - clear. destruct ws as [w s']. simpl. intros Est.
    remember (w_writeQueue w) as q eqn:Eq. revert w s' Est Eq.
    induction q as [|c q IH]; intros w s' Est Eq; simpl.
    + rewrite Est, <-Eq. by destruct (w_resolved w) eqn:Er.
    + unfold settle_write. simpl. rewrite <-Eq. by apply IH.
Qed.

Lemma writer_persists_capture_witness :
  ∃ new, sink_chunks (writer_run sample_events (fresh_writer sample_options empty_store)).2 = new
    ∧ join nl (cc_bytes <$> new) = join nl ["l1"; "l2"; "l3"] ∧ cc_chunkIndex <$> new = [0; 1].
Proof.
  destruct (writer_persists_capture sample_options sample_events empty_store eq_refl)
    as (new & Hnew & Htext & Hidx & _).
  exists new. split_and!; [exact Hnew|exact Htext|]. rewrite Hidx.
  change (sink_chunks empty_store ++ new) with new in Hnew. rewrite <-Hnew. reflexivity.
Defined.


Lemma writer_caps_witness :
  getCounters (writer_run sample_events (fresh_writer sample_options empty_store)).1 = (9, 3).
Proof. apply (proj1 (writer_caps sample_options sample_events empty_store)). Defined.

Lemma writer_ring_buffer_witness :
  getRingBuffer (writer_run sample_events (fresh_writer sample_options empty_store)).1
  = ["l2"; "l3"].
Proof. apply (writer_ring_buffer sample_options sample_events empty_store). Defined.

Lemma writer_terminates_once_witness :
  source_stops (w_effects (writer_run sample_events (fresh_writer sample_options empty_store)).1)
  = 1%nat.
Proof. apply (proj1 (writer_terminates_once sample_options sample_events empty_store 9)). Defined.
