(* ===== verification/HealthGate.v ===== *)
(** * The health gate

    [apps/api/src/monitor/health-gate.ts] and [health-gate.service.ts]: before a
    triggered or scheduled capture starts, the connection's memory pressure,
    recent out-of-memory and role-change anomalies, failover state and
    replication lag decide whether it may.  [INFO] is third party: its parsed
    sections are an argument. *)
From S2P Require Export CaptureStorage.
From stdpp Require Import options.

(** ** Definitions *)
Inductive HealthGateSkipReason :=
  | memory_above_threshold | recent_oom | failover_in_progress | replication_lag_elevated.
#[global] Instance HealthGateSkipReason_eq_dec : EqDecision HealthGateSkipReason.
Proof. solve_decision. Defined.

Definition skip_reason_text (r : HealthGateSkipReason) : string :=
  match r with
  | memory_above_threshold => "memory_above_threshold"
  | recent_oom => "recent_oom"
  | failover_in_progress => "failover_in_progress"
  | replication_lag_elevated => "replication_lag_elevated"
  end.

Record HealthGateSignals := {
  hs_memoryPct : number;
  hs_oomEventsRecent : Z;
  hs_replicationLagBytes : number;
  hs_failoverInProgress : bool
}.
Record HealthGateThresholds := {
  ht_memoryPctThreshold : number;
  ht_replicationLagThresholdBytes : number
}.
Record HealthGateResult := {
  hr_allow : bool;
  hr_skipReason : option HealthGateSkipReason;
  hr_signals : HealthGateSignals;
  hr_thresholds : HealthGateThresholds
}.

Definition evaluateHealthGate (signals : HealthGateSignals) (thresholds : HealthGateThresholds)
    : HealthGateResult :=
  let base allow reason :=
    {| hr_allow := allow; hr_skipReason := reason; hr_signals := signals;
       hr_thresholds := thresholds |} in
  if num_leb (ht_memoryPctThreshold thresholds) (hs_memoryPct signals)
  then base false (Some memory_above_threshold)
  else if 0 <? hs_oomEventsRecent signals then base false (Some recent_oom)
  else if hs_failoverInProgress signals then base false (Some failover_in_progress)
  else if num_leb (ht_replicationLagThresholdBytes thresholds) (hs_replicationLagBytes signals)
  then base false (Some replication_lag_elevated)
  else base true None.

(** *** The service *)
Definition info_section : Type := list (string * string).
Record ParsedInfo := {
  info_memory : option info_section;
  info_replication : option info_section
}.

Definition toNumber (raw : option string) : number :=
  match raw with
  | None => num_of_Z 0
  | Some raw =>
      match parse_int raw with
      | None => num_of_Z 0
      | Some n => num_of_Z n
      end
  end.

Definition readMemoryPct (info : ParsedInfo) : number :=
  match info_memory info with
  | None => num_of_Z 0
  | Some memory =>
      let used := toNumber (jm_get "used_memory" memory) in
      let max := toNumber (jm_get "maxmemory" memory) in
      if num_leb max (num_of_Z 0) then num_of_Z 0 else num_div used max
  end.

Definition readReplication (info : ParsedInfo) : number * bool :=
  match info_replication info with
  | None => (num_of_Z 0, false)
  | Some replication =>
      let role := jm_get "role" replication in
      let isReplica := bool_decide (role = Some "slave") || bool_decide (role = Some "replica") in
      let lag :=
        if isReplica then
          num_max (num_of_Z 0)
            (num_sub (toNumber (jm_get "master_repl_offset" replication))
                     (toNumber (jm_get "slave_repl_offset" replication)))
        else num_of_Z 0 in
      let infoFailoverInProgress :=
        match jm_get "master_failover_state" replication with
        | None => false
        | Some st => negb (is_empty st) && negb (str_eqb st "no-failover")
        end in
      (lag, infoFailoverInProgress)
  end.

(** The fields the constructor reads from the configuration. *)
Record HealthGateConfig := {
  hg_oomWindowMs : Z;
  hg_failoverWindowMs : Z;
  hg_thresholds : HealthGateThresholds
}.

Definition countRecentEvents (connectionId metricType : string) (sinceTimestamp : Z)
    (st : CaptureStore) : Z :=
  js_len (getAnomalyEvents
    {| aq_startTime := Some sinceTimestamp; aq_endTime := None; aq_severity := None;
       aq_metricType := Some metricType; aq_resolved := None; aq_limit := Some 100;
       aq_offset := None; aq_connectionId := Some connectionId |} st).

Definition evaluate (cfg : HealthGateConfig) (connectionId : string) (info : ParsedInfo)
    (now : Z) (st : CaptureStore) : HealthGateResult :=
  let memoryPct := readMemoryPct info in
  let '(replicationLagBytes, infoFailoverInProgress) := readReplication info in
  let oomEvents :=
    countRecentEvents connectionId "memory_used" (now - hg_oomWindowMs cfg) st in
  let roleChangeEvents :=
    countRecentEvents connectionId "replication_role" (now - hg_failoverWindowMs cfg) st in
  evaluateHealthGate
    {| hs_memoryPct := memoryPct;
       hs_oomEventsRecent := oomEvents;
       hs_replicationLagBytes := replicationLagBytes;
       hs_failoverInProgress := infoFailoverInProgress || (0 <? roleChangeEvents) |}
    (hg_thresholds cfg).

Definition sample_gate : HealthGateConfig :=
  {| hg_oomWindowMs := 300000; hg_failoverWindowMs := 120000;
     hg_thresholds := {| ht_memoryPctThreshold := num_div (num_of_Z 85) (num_of_Z 100);
                         ht_replicationLagThresholdBytes := num_of_Z 10485760 |} |}.
Definition sample_info : ParsedInfo :=
  {| info_memory := Some [("used_memory", "10"); ("maxmemory", "100")];
     info_replication := None |}.

(** *** Specification *)

(** An anomaly of the metric on the connection since the given moment. *)
Definition recent_anomaly (connectionId metricType : string) (since : Z) (st : CaptureStore) : Prop :=
  ∃ e, e ∈ anomalyEvents st ∧ ae_connectionId e = Some connectionId ∧
       ae_metricType e = metricType ∧ since ≤ ae_timestamp e.

(** ** Lemmas *)
Lemma page_first_nonempty {A} (n : Z) (l : list A) :
  0 < n → 0 < js_len (page None (Some n) l) ↔ l ≠ [].
Proof.
  intros Hn. unfold page, js_len. simpl. rewrite js_slice_prefix by lia.
  rewrite length_take. destruct l; simpl; [split; [lia|done]|]. split; [done|]. lia.
Qed.

Lemma nonempty_elem {A} (l : list A) : l ≠ [] ↔ ∃ x, x ∈ l.
Proof. destruct l as [|x l]; split; [done|by intros [x ?%elem_of_nil]| |done]. by exists x; left. Qed.

Lemma countRecentEvents_pos connectionId metricType since st :
  is_empty connectionId = false → is_empty metricType = false → since ≠ 0 →
  0 < countRecentEvents connectionId metricType since st
  ↔ recent_anomaly connectionId metricType since st.
Proof.
  intros Hc Hm Hs. unfold countRecentEvents, getAnomalyEvents. cbn [aq_offset aq_limit].
  rewrite page_first_nonempty by lia. rewrite nonempty_elem.
  setoid_rewrite js_sort_elem. setoid_rewrite js_filter_elem.
  unfold anomaly_matches. cbn [aq_connectionId aq_startTime aq_endTime aq_severity aq_metricType aq_resolved].
  apply Z.eqb_neq in Hs. unfold when_number, when_some, str_eqb. rewrite Hs.
  destruct connectionId as [|a c]; [done|]. destruct metricType as [|b m]; [done|].
  cbn [when_string]. unfold recent_anomaly. split.
  - intros (e & Hb & He). js_bools. by exists e.
  - intros (e & He & Hc' & Hm' & Ht). exists e. split; [|done].
    rewrite Hc', Hm', !bool_decide_eq_true_2 by done. apply Z.leb_le in Ht. by rewrite Ht.
Qed.

(** ** Properties *)

(** The gate opens exactly when memory use is below its threshold, no
    memory anomaly of the connection falls in the out-of-memory window, neither
    [INFO] nor a role change in the failover window shows a failover, and the
    replication lag is below its threshold; a closed gate always carries a
    reason, and an open one none. *)
Theorem health_gate_decision cfg connectionId info now st :
  is_empty connectionId = false →
  now - hg_oomWindowMs cfg ≠ 0 → now - hg_failoverWindowMs cfg ≠ 0 →
  let r := evaluate cfg connectionId info now st in
  (hr_allow r = true ↔
     num_leb (ht_memoryPctThreshold (hg_thresholds cfg)) (readMemoryPct info) = false
     ∧ ¬ recent_anomaly connectionId "memory_used" (now - hg_oomWindowMs cfg) st
     ∧ (readReplication info).2 = false
     ∧ ¬ recent_anomaly connectionId "replication_role" (now - hg_failoverWindowMs cfg) st
     ∧ num_leb (ht_replicationLagThresholdBytes (hg_thresholds cfg)) (readReplication info).1
       = false)
  ∧ (hr_skipReason r = None ↔ hr_allow r = true).
Proof.
  intros Hc Ho Hf r. subst r. unfold evaluate.
  pose proof (countRecentEvents_pos connectionId "memory_used" _ st Hc eq_refl Ho) as Hoom.
  pose proof (countRecentEvents_pos connectionId "replication_role" _ st Hc eq_refl Hf) as Hrole.
  destruct (readReplication info) as [lag failover]. cbn [fst snd].
  unfold evaluateHealthGate. cbn [hs_memoryPct hs_oomEventsRecent hs_failoverInProgress
    hs_replicationLagBytes].
  destruct (num_leb (ht_memoryPctThreshold _) _); [naive_solver|].
  destruct (Z.ltb_spec 0 (countRecentEvents connectionId "memory_used" (now - hg_oomWindowMs cfg) st));
    [naive_solver|].
  destruct (Z.ltb_spec 0 (countRecentEvents connectionId "replication_role"
    (now - hg_failoverWindowMs cfg) st)); [rewrite orb_true_r; naive_solver|].
  rewrite orb_false_r. destruct failover; [naive_solver|].
  destruct (num_leb (ht_replicationLagThresholdBytes _) _); [naive_solver|].
  split; [|done]. split; [|done]. intros _. split_and!; try done.
  - rewrite <-Hoom. lia.
  - rewrite <-Hrole. lia.
Qed.

Lemma health_gate_decision_witness :
  hr_allow (evaluate sample_gate "c1" sample_info 1000000 empty_store) = true.
Proof.
  destruct (health_gate_decision sample_gate "c1" sample_info 1000000 empty_store)
    as [H _]; [done..|].
  apply H. split_and!; try reflexivity; intros (e & He & _); by apply elem_of_nil in He.
Defined.
