(* ===== verification/MonitorCapture.v ===== *)
(** * The capture service

    [apps/api/src/monitor/monitor-capture.service.ts].  Its state is the [active]
    map, the store behind the port, the promise chains of the sessions whose
    writers run ([ms_running]) and the webhook events it dispatched.  The cluster
    discovery and the MONITOR connections are third party: a start takes their
    answers, the fresh id and the clock readings as an environment.  A start is
    the composition of the three segments its [await]s separate, so the step
    relation below can interleave two starts. *)
From S2P Require Export CaptureWriter.
From stdpp Require Import options.

(** ** Definitions *)
Definition COMMUNITY_BYTE_CAP : Z := 50 * 1024 * 1024.
Definition COMMUNITY_LINE_CAP : Z := 5000000.
Definition CHUNK_INDEX_NAMESPACE : Z := 10000000.
Definition DEFAULT_DURATION_MS : number := num_of_Z 30000.

Definition parsePositiveInt (raw : option string) (fallback : Z) : Z :=
  match raw with
  | None | Some EmptyString => fallback
  | Some raw =>
      match parse_int raw with
      | None => fallback
      | Some n => if n <=? 0 then fallback else n
      end
  end.

(** The process environment the module reads when it loads. *)
Record CaptureDefaults := {
  cd_byteCap : option string;   (* MONITOR_DEFAULT_BYTE_CAP *)
  cd_lineCap : option string    (* MONITOR_DEFAULT_LINE_CAP *)
}.
Definition DEFAULT_BYTE_CAP (d : CaptureDefaults) : Z :=
  parsePositiveInt (cd_byteCap d) COMMUNITY_BYTE_CAP.
Definition DEFAULT_LINE_CAP (d : CaptureDefaults) : Z :=
  parsePositiveInt (cd_lineCap d) COMMUNITY_LINE_CAP.

Record StartSessionInput := {
  si_connectionId : string;
  si_durationMs : option number;
  si_byteCap : option Z;
  si_lineCap : option Z;
  si_source : option CaptureSessionSource;
  si_triggerId : option string;
  si_scheduleId : option string;
  si_requestedBy : option string;
  si_targetNodeId : option string;
  si_fanOut : bool
}.

(** A node as cluster discovery reports it. *)
Record DiscoveredNode := {
  dn_id : string;
  dn_address : string;
  dn_role : string;
  dn_healthy : bool
}.

Record FanOutNode := { fn_id : string; fn_address : string }.

Record ActiveWriter := {
  aw_options : CaptureWriterOptions;
  aw_nodeId : option string;
  aw_address : option string
}.
Record ActiveSession := {
  as_session : StoredCaptureSession;
  as_writers : list ActiveWriter
}.

(** The promise chain of a session: what its [then] and [finally] close over.
    [rn_pending] are the writers that have not resolved. *)
Record RunningSession := {
  rn_session : StoredCaptureSession;
  rn_fanOut : bool;
  rn_segments : list (string * CaptureNodeSegment);
  rn_pending : list (option string)
}.

Inductive MonitorDispatch :=
  | SessionStarted (session : StoredCaptureSession)
  | SessionTruncated (session : StoredCaptureSession) (result : CaptureWriterResult) (durationMs : Z)
  | SessionCompleted (session : StoredCaptureSession) (result : CaptureWriterResult) (durationMs : Z).

Record MonitorState := {
  ms_active : list (string * ActiveSession);
  ms_store : CaptureStore;
  ms_running : list RunningSession;
  ms_dispatched : list MonitorDispatch
}.

Definition with_active (f : list (string * ActiveSession) → list (string * ActiveSession))
    (s : MonitorState) : MonitorState :=
  {| ms_active := f (ms_active s); ms_store := ms_store s; ms_running := ms_running s;
     ms_dispatched := ms_dispatched s |}.
Definition with_store (f : CaptureStore → CaptureStore) (s : MonitorState) : MonitorState :=
  {| ms_active := ms_active s; ms_store := f (ms_store s); ms_running := ms_running s;
     ms_dispatched := ms_dispatched s |}.
Definition with_running (f : list RunningSession → list RunningSession)
    (s : MonitorState) : MonitorState :=
  {| ms_active := ms_active s; ms_store := ms_store s; ms_running := f (ms_running s);
     ms_dispatched := ms_dispatched s |}.
Definition dispatch (d : MonitorDispatch) (s : MonitorState) : MonitorState :=
  {| ms_active := ms_active s; ms_store := ms_store s; ms_running := ms_running s;
     ms_dispatched := ms_dispatched s ++ [d] |}.

(** What a start reads from outside: the discovery's answer, [randomUUID], the
    clock, and for each node the answer of the source factory with the clock at
    its failure. *)
Record StartEnv := {
  se_defaults : CaptureDefaults;
  se_discover : outcome string (list DiscoveredNode);
  se_id : string;
  se_now : Z;
  se_open : option string → outcome string unit;
  se_openFailedAt : option string → Z
}.

Definition resolveTargetNodeAddress (env : StartEnv) (targetNodeId : option string) : option string :=
  match targetNodeId with
  | None | Some EmptyString => None
  | Some target =>
      match se_discover env with
      | Ok nodes =>
          Some (match js_find (λ n, str_eqb (dn_id n) target) nodes with
                | Some n => dn_address n
                | None => target
                end)
      | Throw _ => Some target
      end
  end.

Definition resolveFanOutNodes (env : StartEnv) : list FanOutNode :=
  match se_discover env with
  | Ok nodes =>
      (λ n, {| fn_id := dn_id n; fn_address := dn_address n |})
        <$> js_filter (λ n, str_eqb (dn_role n) "master" && dn_healthy n) nodes
  | Throw _ => []
  end.

(** *** Aggregation over the segments of a fan-out capture *)
Definition segment_is (st : CaptureSessionStatus) (s : CaptureNodeSegment) : bool :=
  bool_decide (seg_status s = st).

Definition aggregateSegmentStatus (segments : list CaptureNodeSegment) : CaptureSessionStatus :=
  match segments with
  | [] => CS_completed
  | _ =>
      if js_some (segment_is CS_failed) segments then CS_failed
      else if js_some (segment_is CS_truncated) segments then CS_truncated
      else CS_completed
  end.

(** [new Set(l)] *)
Fixpoint str_set (seen l : list string) : list string :=
  match l with
  | [] => []
  | x :: l' => if js_includes x seen then str_set seen l' else x :: str_set (x :: seen) l'
  end.

Definition aggregateTerminationReason (segments : list CaptureNodeSegment)
    (status : CaptureSessionStatus) : string :=
  match status with
  | CS_failed =>
      match js_find (segment_is CS_failed) segments with
      | Some s => default "fan_out_node_failed" (seg_terminationReason s)
      | None => "fan_out_node_failed"
      end
  | CS_truncated =>
      "fan_out_truncated: " +:+
      join ", " (str_set [] ((λ s, default "truncated" (seg_terminationReason s))
                               <$> js_filter (segment_is CS_truncated) segments))
  | _ => "fan_out_complete"
  end.

(** *** Dispatch *)
Definition dispatchSessionEnded (session : StoredCaptureSession) (result : CaptureWriterResult)
    (s : MonitorState) : MonitorState :=
  let durationMs := wr_endedAt result - cs_startedAt session in
  match wr_status result with
  | WS_failed => s
  | WS_truncated => dispatch (SessionTruncated session result durationMs) s
  | WS_completed => dispatch (SessionCompleted session result durationMs) s
  end.

(** *** Starting *)
Definition conflict_message (connectionId : string) : string :=
  "A capture session is already active on connection " +:+ connectionId.

Definition hasActiveSessionOn (connectionId : string) (s : MonitorState) : bool :=
  jm_has connectionId (ms_active s).

(** Up to the first [await]: the check. *)
Definition start_check (input : StartSessionInput) : M MonitorState string unit := λ s,
  if hasActiveSessionOn (si_connectionId input) s
  then (Throw (conflict_message (si_connectionId input)), s)
  else (Ok tt, s).

(** The row of the session, with its initial segments. *)
Definition initial_session (env : StartEnv) (input : StartSessionInput)
    (fanOutNodes : list FanOutNode) : StoredCaptureSession :=
  let isFanOut := match fanOutNodes with [] => false | _ => true end in
  {| cs_id := se_id env; cs_connectionId := si_connectionId input; cs_status := CS_running;
     cs_source := default Src_manual (si_source input);
     cs_triggerId := si_triggerId input; cs_scheduleId := si_scheduleId input;
     cs_requestedBy := si_requestedBy input; cs_startedAt := se_now env;
     cs_endedAt := None; cs_durationMs := None; cs_byteCount := 0; cs_lineCount := 0;
     cs_byteCap := default (DEFAULT_BYTE_CAP (se_defaults env)) (si_byteCap input);
     cs_lineCap := default (DEFAULT_LINE_CAP (se_defaults env)) (si_lineCap input);
     cs_terminationReason := None;
     cs_targetNode := if isFanOut then None else resolveTargetNodeAddress env (si_targetNodeId input);
     cs_nodeSegments :=
       if isFanOut then
         Some ((λ n, {| seg_nodeId := fn_id n; seg_address := fn_address n;
                        seg_status := CS_running; seg_byteCount := 0; seg_lineCount := 0;
                        seg_endedAt := None; seg_terminationReason := None |}) <$> fanOutNodes)
       else None |}.

(** From the discovery to the [await] on the insert. *)
Definition start_insert (env : StartEnv) (input : StartSessionInput)
    : M MonitorState string (StoredCaptureSession * list FanOutNode) := λ s,
  let fanOutNodes := if si_fanOut input then resolveFanOutNodes env else [] in
  let session := initial_session env input fanOutNodes in
  (Ok (session, fanOutNodes),
   with_store (saveCaptureSession session (si_connectionId input)) s).

Definition open_failed_patch (now : Z) (message : string) : CaptureSessionPatch :=
  {| csp_status := Some CS_failed; csp_endedAt := Some now; csp_durationMs := None;
     csp_byteCount := None; csp_lineCount := None;
     csp_terminationReason := Some ("monitor_open_failed: " +:+ message);
     csp_nodeSegments := None |}.

Definition writer_options (session : StoredCaptureSession) (durationMs : number)
    (nodeId : option string) (startChunkIndex : option Z) (skip : option bool)
    : CaptureWriterOptions :=
  {| wo_sessionId := cs_id session; wo_byteCap := cs_byteCap session;
     wo_lineCap := cs_lineCap session; wo_durationMs := durationMs;
     wo_flushIntervalMs := None; wo_flushLineThreshold := None; wo_ringBufferSize := None;
     wo_nodeId := nodeId; wo_startChunkIndex := startChunkIndex;
     wo_skipSessionFinalize := skip |}.

Definition startSingleSession (env : StartEnv) (session : StoredCaptureSession)
    (targetNodeId : option string) (durationMs : number)
    : M MonitorState string StoredCaptureSession := λ s,
  match se_open env targetNodeId with
  | Throw message =>
      (Throw message,
       with_store (λ st, (updateCaptureSession (cs_id session)
         (open_failed_patch (se_openFailedAt env targetNodeId) message) st).2) s)
  | Ok _ =>
      let entry :=
        {| as_session := session;
           as_writers := [{| aw_options := writer_options session durationMs None None None;
                             aw_nodeId := None; aw_address := None |}] |} in
      let chain := {| rn_session := session; rn_fanOut := false; rn_segments := [];
                      rn_pending := [None] |} in
      (Ok session,
       dispatch (SessionStarted session)
         (with_running (λ l, l ++ [chain])
            (with_active (jm_set (cs_connectionId session) entry) s)))
  end.

Definition fail_segment (endedAt : Z) (reason : string) (seg : CaptureNodeSegment)
    : CaptureNodeSegment :=
  {| seg_nodeId := seg_nodeId seg; seg_address := seg_address seg; seg_status := CS_failed;
     seg_byteCount := seg_byteCount seg; seg_lineCount := seg_lineCount seg;
     seg_endedAt := Some endedAt; seg_terminationReason := Some reason |}.

Definition update_segment (nodeId : string) (f : CaptureNodeSegment → CaptureNodeSegment)
    (segments : list (string * CaptureNodeSegment)) : list (string * CaptureNodeSegment) :=
  match jm_get nodeId segments with
  | None => segments
  | Some seg => jm_set nodeId (f seg) segments
  end.

(** The loop over the nodes: the segments it leaves and the writers it starts. *)
Fixpoint open_nodes (env : StartEnv) (session : StoredCaptureSession) (durationMs : number)
    (i : Z) (nodes : list FanOutNode) (segments : list (string * CaptureNodeSegment))
    : list (string * CaptureNodeSegment) * list ActiveWriter :=
  match nodes with
  | [] => (segments, [])
  | node :: nodes' =>
      match se_open env (Some (fn_id node)) with
      | Throw message =>
          open_nodes env session durationMs (i + 1) nodes'
            (update_segment (fn_id node)
               (fail_segment (se_openFailedAt env (Some (fn_id node)))
                  ("monitor_open_failed: " +:+ message)) segments)
      | Ok _ =>
          let r := open_nodes env session durationMs (i + 1) nodes' segments in
          (r.1,
           {| aw_options := writer_options session durationMs (Some (fn_id node))
                              (Some (i * CHUNK_INDEX_NAMESPACE)) (Some true);
              aw_nodeId := Some (fn_id node); aw_address := Some (fn_address node) |} :: r.2)
      end
  end.

Definition startFanOutSession (env : StartEnv) (session : StoredCaptureSession)
    (nodes : list FanOutNode) (durationMs : number)
    : M MonitorState string StoredCaptureSession := λ s,
  let segments := foldl (λ m seg, jm_set (seg_nodeId seg) seg m) []
                    (default [] (cs_nodeSegments session)) in
  let '(segments, writers) := open_nodes env session durationMs 0 nodes segments in
  let chain := {| rn_session := session; rn_fanOut := true; rn_segments := segments;
                  rn_pending := aw_nodeId <$> writers |} in
  (Ok session,
   dispatch (SessionStarted session)
     (with_running (λ l, l ++ [chain])
        (with_active (jm_set (cs_connectionId session)
           {| as_session := session; as_writers := writers |}) s))).

(** The rest of the start. *)
Definition start_open (env : StartEnv) (input : StartSessionInput)
    (sn : StoredCaptureSession * list FanOutNode) : M MonitorState string StoredCaptureSession :=
  let durationMs := default DEFAULT_DURATION_MS (si_durationMs input) in
  match sn.2 with
  | [] => startSingleSession env sn.1 (si_targetNodeId input) durationMs
  | _ => startFanOutSession env sn.1 sn.2 durationMs
  end.

Definition startSession (env : StartEnv) (input : StartSessionInput)
    : M MonitorState string StoredCaptureSession :=
  start_check input ≫= λ _, start_insert env input ≫= start_open env input.

(** *** Ending *)
Definition remove_running (id : string) : list RunningSession → list RunningSession :=
  js_filter (λ r, negb (str_eqb (cs_id (rn_session r)) id)).

Definition result_patch (result : CaptureWriterResult) : CaptureSessionPatch :=
  {| csp_status := Some (session_status (wr_status result));
     csp_endedAt := Some (wr_endedAt result); csp_durationMs := None;
     csp_byteCount := Some (wr_byteCount result); csp_lineCount := Some (wr_lineCount result);
     csp_terminationReason := Some (wr_terminationReason result); csp_nodeSegments := None |}.

(** The writer of a single-node session resolves: its own [finalize] has updated
    the row, then the chain dispatches and leaves the [active] map. *)
Definition single_resolved (r : RunningSession) (result : CaptureWriterResult)
    (s : MonitorState) : MonitorState :=
  let session := rn_session r in
  let s := with_store (λ st, (updateCaptureSession (cs_id session) (result_patch result) st).2) s in
  let s := dispatchSessionEnded session result s in
  with_running (remove_running (cs_id session))
    (with_active (jm_delete (cs_connectionId session)) s).

Definition resolve_segment (result : CaptureWriterResult) (seg : CaptureNodeSegment)
    : CaptureNodeSegment :=
  {| seg_nodeId := seg_nodeId seg; seg_address := seg_address seg;
     seg_status := session_status (wr_status result);
     seg_byteCount := wr_byteCount result; seg_lineCount := wr_lineCount result;
     seg_endedAt := Some (wr_endedAt result);
     seg_terminationReason := Some (wr_terminationReason result) |}.

Fixpoint remove_first (x : option string) (l : list (option string)) : list (option string) :=
  match l with
  | [] => []
  | y :: l' => if decide (x = y) then l' else y :: remove_first x l'
  end.

(** One writer of a fan-out session resolves. *)
Definition fanout_resolved (nodeId : string) (result : CaptureWriterResult) (r : RunningSession)
    : RunningSession :=
  {| rn_session := rn_session r; rn_fanOut := rn_fanOut r;
     rn_segments := update_segment nodeId (resolve_segment result) (rn_segments r);
     rn_pending := remove_first (Some nodeId) (rn_pending r) |}.

Definition sum_by {A} (f : A → Z) (l : list A) : Z := foldl (λ s x, s + f x) 0 l.
Definition max_by {A} (f : A → Z) (init : Z) (l : list A) : Z := foldl (λ m x, Z.max m (f x)) init l.

Definition capture_status (s : CaptureSessionStatus) : CaptureWriterStatus :=
  match s with CS_failed => WS_failed | CS_truncated => WS_truncated | _ => WS_completed end.

(** [now] stands for the clock readings of segments without an end. *)
Definition finalizeFanOutSession (now : Z) (r : RunningSession) (s : MonitorState) : MonitorState :=
  let session := rn_session r in
  let segmentList := jm_values (rn_segments r) in
  let totalBytes := sum_by seg_byteCount segmentList in
  let totalLines := sum_by seg_lineCount segmentList in
  let endedAt := max_by (λ x, default now (seg_endedAt x)) (cs_startedAt session) segmentList in
  let status := aggregateSegmentStatus segmentList in
  let reason := aggregateTerminationReason segmentList status in
  let s := with_store (λ st, (updateCaptureSession (cs_id session)
    {| csp_status := Some status; csp_endedAt := Some endedAt; csp_durationMs := None;
       csp_byteCount := Some totalBytes; csp_lineCount := Some totalLines;
       csp_terminationReason := Some reason; csp_nodeSegments := Some segmentList |} st).2) s in
  let s := dispatchSessionEnded session
    {| wr_status := capture_status status; wr_terminationReason := reason;
       wr_byteCount := totalBytes; wr_lineCount := totalLines; wr_endedAt := endedAt |} s in
  with_running (remove_running (cs_id session))
    (with_active (jm_delete (cs_connectionId session)) s).

(** *** Reading *)
Definition findActiveById (sessionId : string) (s : MonitorState) : option ActiveSession :=
  js_find (λ a, str_eqb (cs_id (as_session a)) sessionId) (jm_values (ms_active s)).

(** The writers [stopSession] stops, and the row it returns when they are done. *)
Definition stopSession (id : string) (s : MonitorState) : list ActiveWriter * option StoredCaptureSession :=
  (match findActiveById id s with Some a => as_writers a | None => [] end,
   getCaptureSession id (ms_store s)).

Definition getActiveWriter (connectionId : string) (s : MonitorState) : option ActiveWriter :=
  a ← jm_get connectionId (ms_active s); head (as_writers a).

Definition getSession (id : string) (s : MonitorState) : option StoredCaptureSession :=
  getCaptureSession id (ms_store s).
Definition listSessions (options : CaptureSessionQueryOptions) (s : MonitorState)
    : list StoredCaptureSession :=
  getCaptureSessions options (ms_store s).

(** *** Steps *)

(** What the service does in one turn, a start being one turn. *)
Inductive svc_turn : MonitorState → MonitorState → Prop :=
  | turn_start env input s :
      (∀ r, r ∈ ms_running s → cs_id (rn_session r) ≠ se_id env) →
      svc_turn s (startSession env input s).2
  | turn_single r result s :
      r ∈ ms_running s → rn_fanOut r = false → svc_turn s (single_resolved r result s)
  | turn_fanout r nodeId result s :
      r ∈ ms_running s → rn_fanOut r = true → Some nodeId ∈ rn_pending r →
      svc_turn s (with_running (λ l, (λ r',
        if str_eqb (cs_id (rn_session r')) (cs_id (rn_session r))
        then fanout_resolved nodeId result r' else r') <$> l) s)
  | turn_finalize r now s :
      r ∈ ms_running s → rn_fanOut r = true → rn_pending r = [] →
      svc_turn s (finalizeFanOutSession now r s).

(** The starts in flight, between their [await]s. *)
Inductive StartCall :=
  | Checked (input : StartSessionInput)
  | Inserted (input : StartSessionInput) (env : StartEnv) (sn : StoredCaptureSession * list FanOutNode).

Inductive svc_step : MonitorState * list StartCall → MonitorState * list StartCall → Prop :=
  | step_check input s calls :
      ran_ok (start_check input s).1 = true →
      svc_step (s, calls) (s, calls ++ [Checked input])
  | step_insert env input sn s s' before after :
      start_insert env input s = (Ok sn, s') →
      svc_step (s, before ++ [Checked input] ++ after) (s', before ++ [Inserted input env sn] ++ after)
  | step_open env input sn s before after :
      svc_step (s, before ++ [Inserted input env sn] ++ after)
               ((start_open env input sn s).2, before ++ after)
  | step_turn s s' calls :
      svc_turn s s' → svc_step (s, calls) (s', calls).

Definition initial_state (st : CaptureStore) : MonitorState :=
  {| ms_active := []; ms_store := st; ms_running := []; ms_dispatched := [] |}.

Definition running_on (connectionId : string) (s : MonitorState) : list string :=
  (λ r, cs_id (rn_session r)) <$>
    js_filter (λ r, str_eqb (cs_connectionId (rn_session r)) connectionId) (ms_running s).

Definition session_ids (l : list RunningSession) : list string := (λ r, cs_id (rn_session r)) <$> l.
Definition connections (l : list RunningSession) : list string :=
  (λ r, cs_connectionId (rn_session r)) <$> l.

(** The [active] map holds exactly the connections of the running sessions, one
    session each. *)
Record svc_inv (s : MonitorState) : Prop := {
  sv_ids : NoDup (session_ids (ms_running s));
  sv_conns : NoDup (connections (ms_running s));
  sv_active : ∀ c, jm_has c (ms_active s) = true ↔ c ∈ connections (ms_running s)
}.

(** How bad a segment's end is. *)
Definition severity (s : CaptureSessionStatus) : Z :=
  match s with CS_failed => 2 | CS_truncated => 1 | _ => 0 end.

Definition sample_env (id : string) : StartEnv :=
  {| se_defaults := {| cd_byteCap := None; cd_lineCap := None |};
     se_discover := Ok []; se_id := id; se_now := 100;
     se_open := λ _, Ok tt; se_openFailedAt := λ _, 0 |}.
Definition sample_start : StartSessionInput :=
  {| si_connectionId := "c"; si_durationMs := None; si_byteCap := None; si_lineCap := None;
     si_source := None; si_triggerId := None; si_scheduleId := None; si_requestedBy := None;
     si_targetNodeId := None; si_fanOut := false |}.
Definition sample_result : CaptureWriterResult :=
  {| wr_status := WS_completed; wr_terminationReason := "duration_cap"; wr_byteCount := 9;
     wr_lineCount := 3; wr_endedAt := 200 |}.

Definition sample_fanout : RunningSession :=
  {| rn_session := initial_session (sample_env "s1") sample_start []; rn_fanOut := true;
     rn_segments :=
       [("n1", {| seg_nodeId := "n1"; seg_address := "a:1"; seg_status := CS_truncated;
                  seg_byteCount := 10; seg_lineCount := 2; seg_endedAt := Some 150;
                  seg_terminationReason := Some "byte_cap" |});
        ("n2", {| seg_nodeId := "n2"; seg_address := "b:1"; seg_status := CS_completed;
                  seg_byteCount := 5; seg_lineCount := 1; seg_endedAt := Some 160;
                  seg_terminationReason := Some "duration_cap" |})];
     rn_pending := [] |}.

Definition sample_nodes : list FanOutNode :=
  [{| fn_id := "n1"; fn_address := "a:1" |}; {| fn_id := "n2"; fn_address := "b:1" |}].

(** ** Lemmas *)
Lemma jm_has_set (k k' : string) {V} (v : V) m :
  jm_has k (jm_set k' v m) = true ↔ k = k' ∨ jm_has k m = true.
Proof.
  unfold jm_has. rewrite jm_get_set. case_decide; [naive_solver|]. naive_solver.
Qed.

Lemma jm_has_delete (k k' : string) {V} (m : list (string * V)) :
  jm_has k (jm_delete k' m) = true ↔ k ≠ k' ∧ jm_has k m = true.
Proof.
  unfold jm_has. rewrite jm_get_delete. case_decide; naive_solver.
Qed.

(** Removing a running session by its id removes its connection. *)
Lemma remove_running_spec l r :
  NoDup (session_ids l) → NoDup (connections l) → r ∈ l →
  let l' := remove_running (cs_id (rn_session r)) l in
  NoDup (session_ids l') ∧ NoDup (connections l') ∧
  ∀ c, c ∈ connections l' ↔ c ∈ connections l ∧ c ≠ cs_connectionId (rn_session r).
Proof.
  intros Hids Hconns Hr l'.
  assert (Hsub : l' `sublist_of` l) by apply js_filter_sublist.
  split_and!; [by eapply sublist_NoDup, fmap_sublist|by eapply sublist_NoDup, fmap_sublist|].
  intros c. unfold connections. rewrite !list_elem_of_fmap. split.
  - intros (r' & -> & Hr'). apply js_filter_elem in Hr' as [Hne Hin].
    split; [by exists r'|]. intros Heq. js_bools. unfold str_eqb in Hne. js_bools.
    apply Hne. f_equal.
    clear Hids Hsub l'. induction l as [|x l IH]; [set_solver|].
    unfold connections in Hconns. csimpl in Hconns. apply NoDup_cons in Hconns as [Hx Hl].
    apply elem_of_cons in Hr as [->|Hr], Hin as [->|Hin]; try done.
    + exfalso. apply Hx. apply list_elem_of_fmap. by exists r'.
    + exfalso. apply Hx. apply list_elem_of_fmap. by exists r.
    + by apply IH.
  - intros [(r' & -> & Hr') Hne]. exists r'. split; [done|].
    apply js_filter_elem. split; [|done]. apply negb_true_iff, bool_decide_eq_false.
    intros Heq. apply Hne. do 2 f_equal.
    clear Hconns Hsub l'. induction l as [|x l IH]; [set_solver|].
    unfold session_ids in Hids. csimpl in Hids. apply NoDup_cons in Hids as [Hx Hl].
    apply elem_of_cons in Hr as [->|Hr], Hr' as [->|Hr']; try done.
    + exfalso. apply Hx. apply list_elem_of_fmap. by exists r'.
    + exfalso. apply Hx. apply list_elem_of_fmap. by exists r.
    + by apply IH.
Qed.

Lemma dispatchSessionEnded_state session result s :
  ms_active (dispatchSessionEnded session result s) = ms_active s
  ∧ ms_running (dispatchSessionEnded session result s) = ms_running s
  ∧ ms_store (dispatchSessionEnded session result s) = ms_store s.
Proof. unfold dispatchSessionEnded. by destruct (wr_status result). Qed.

(** The end of a session, single-node or fan-out, keeps the invariant. *)
Lemma svc_inv_end s s' r :
  svc_inv s → r ∈ ms_running s →
  ms_running s' = remove_running (cs_id (rn_session r)) (ms_running s) →
  ms_active s' = jm_delete (cs_connectionId (rn_session r)) (ms_active s) →
  svc_inv s'.
Proof.
  intros [Hids Hconns Hact] Hr Hrun Hac.
  destruct (remove_running_spec _ r Hids Hconns Hr) as (H1 & H2 & H3).
  split; rewrite ?Hrun; [done..|]. intros c. rewrite Hac, jm_has_delete, H3, Hact. tauto.
Qed.

(** The beginning of a session on a free connection keeps the invariant. *)
Lemma svc_inv_begin s s' entry r :
  svc_inv s →
  ms_running s' = ms_running s ++ [r] →
  ms_active s' = jm_set (cs_connectionId (rn_session r)) entry (ms_active s) →
  cs_connectionId (rn_session r) ∉ connections (ms_running s) →
  cs_id (rn_session r) ∉ session_ids (ms_running s) →
  svc_inv s'.
Proof.
  intros [Hids Hconns Hact] Hrun Hac Hc Hi. split; rewrite ?Hrun.
  - unfold session_ids. rewrite fmap_app. apply NoDup_app.
    split_and!; [done| |apply NoDup_singleton]. intros x Hx ->%list_elem_of_singleton. done.
  - unfold connections. rewrite fmap_app. apply NoDup_app.
    split_and!; [done| |apply NoDup_singleton]. intros x Hx ->%list_elem_of_singleton. done.
  - intros c. rewrite Hac, jm_has_set, Hact. unfold connections. rewrite fmap_app.
    rewrite elem_of_app. csimpl. rewrite list_elem_of_singleton. tauto.
Qed.

Lemma start_busy env input s :
  hasActiveSessionOn (si_connectionId input) s = true →
  startSession env input s = (Throw (conflict_message (si_connectionId input)), s).
Proof.
  intros H. unfold startSession, mbind, M_bind, start_check. by rewrite H.
Qed.

Lemma startSession_inv env input s :
  svc_inv s → (∀ r, r ∈ ms_running s → cs_id (rn_session r) ≠ se_id env) →
  svc_inv (startSession env input s).2.
Proof.
  intros Hinv Hfresh. destruct (hasActiveSessionOn (si_connectionId input) s) eqn:Hb;
    [by rewrite start_busy|].
  unfold startSession, mbind, M_bind, start_check. rewrite Hb. cbn [start_insert].
  set (nodes := if si_fanOut input then resolveFanOutNodes env else []).
  set (session := initial_session env input nodes).
  set (s1 := with_store _ s). unfold start_open. cbn [fst snd].
  assert (Hc : si_connectionId input ∉ connections (ms_running s)).
  { intros Hin. apply (sv_active _ Hinv) in Hin. unfold hasActiveSessionOn in Hb. congruence. }
  assert (Hi : se_id env ∉ session_ids (ms_running s)).
  { unfold session_ids. rewrite list_elem_of_fmap. intros (r & Heq & Hin). by eapply Hfresh. }
  destruct nodes as [|n nodes'] eqn:En.
  - unfold startSingleSession. destruct (se_open env (si_targetNodeId input)) as [|err].
    + eapply (svc_inv_begin s); [done|..]; done.
    + by destruct Hinv.
  - unfold startFanOutSession.
    destruct (open_nodes env session _ _ _ _) as [segs writers].
    eapply (svc_inv_begin s); [done|..]; done.
Qed.

Lemma svc_turn_inv s s' : svc_turn s s' → svc_inv s → svc_inv s'.
Proof.
  intros Hturn Hinv. destruct Hturn as [env input s Hf|r result s Hr|r nodeId result s Hr|r now s Hr].
  - by apply startSession_inv.
  - eapply (svc_inv_end s); [done|exact Hr|..]; unfold single_resolved; simpl;
      by rewrite !(proj1 (dispatchSessionEnded_state _ _ _))
        || by rewrite (proj1 (proj2 (dispatchSessionEnded_state _ _ _))).
  - destruct Hinv as [Hids Hconns Hact].
    assert (Hsame : ∀ f : RunningSession → string,
      (∀ r', f (fanout_resolved nodeId result r') = f r') →
      f <$> ((λ r', if str_eqb (cs_id (rn_session r')) (cs_id (rn_session r))
                    then fanout_resolved nodeId result r' else r') <$> ms_running s)
      = f <$> ms_running s).
    { intros f Hf. rewrite <-list_fmap_compose. apply list_fmap_ext. intros i x _. simpl.
      by destruct (str_eqb _ _). }
    split; simpl; unfold session_ids, connections in *.
    + change (list_fmap RunningSession RunningSession) with (@fmap list _ RunningSession RunningSession).
      by rewrite Hsame.
    + change (list_fmap RunningSession RunningSession) with (@fmap list _ RunningSession RunningSession).
      by rewrite Hsame.
    + intros c. rewrite Hact.
      by rewrite Hsame.
  - eapply (svc_inv_end s); [done|exact Hr|..]; unfold finalizeFanOutSession; simpl;
      by rewrite !(proj1 (dispatchSessionEnded_state _ _ _))
        || by rewrite (proj1 (proj2 (dispatchSessionEnded_state _ _ _))).
Qed.

Lemma initial_inv st : svc_inv (initial_state st).
Proof. split; simpl; [constructor..|]. intros c. rewrite elem_of_nil. done. Qed.

Lemma svc_reachable_inv st s : rtc svc_turn (initial_state st) s → svc_inv s.
Proof.
  generalize (initial_inv st). generalize (initial_state st) as s0. intros s0 H0 Hr. revert H0.
  induction Hr as [|s1 s2 s3 Hstep _ IH]; [done|]. intros H. apply IH. by eapply svc_turn_inv.
Qed.

(** *** Aggregation *)
Lemma severity_bounds s : 0 ≤ severity s ≤ 2.
Proof. destruct s; simpl; lia. Qed.

Lemma some_segment_status st l :
  js_some (segment_is st) l = true ↔ ∃ x, x ∈ l ∧ seg_status x = st.
Proof.
  rewrite js_some_true. unfold segment_is. split; intros (x & Hx & Hs); exists x; split; try done.
  - by js_bools.
  - by apply bool_decide_eq_true.
Qed.

Lemma aggregate_upper l x : x ∈ l → severity (seg_status x) ≤ severity (aggregateSegmentStatus l).
Proof.
  intros Hx. unfold aggregateSegmentStatus. destruct l as [|y l]; [by apply elem_of_nil in Hx|].
  destruct (js_some (segment_is CS_failed) (y :: l)) eqn:Ef.
  { cbn [severity]. pose proof (severity_bounds (seg_status x)). lia. }
  destruct (js_some (segment_is CS_truncated) (y :: l)) eqn:Et.
  - destruct (seg_status x) eqn:Es; simpl; try lia. exfalso.
    apply not_true_iff_false in Ef. apply Ef. apply some_segment_status. by exists x.
  - destruct (seg_status x) eqn:Es; simpl; try lia; exfalso.
    + apply not_true_iff_false in Et. apply Et. apply some_segment_status. by exists x.
    + apply not_true_iff_false in Ef. apply Ef. apply some_segment_status. by exists x.
Qed.

Lemma aggregate_attained l :
  severity (aggregateSegmentStatus l) = 0 ∨
  ∃ x, x ∈ l ∧ seg_status x = aggregateSegmentStatus l.
Proof.
  unfold aggregateSegmentStatus. destruct l as [|y l]; [by left|].
  destruct (js_some (segment_is CS_failed) (y :: l)) eqn:Ef.
  { right. by apply some_segment_status. }
  destruct (js_some (segment_is CS_truncated) (y :: l)) eqn:Et; [|by left].
  right. by apply some_segment_status.
Qed.

Lemma max_by_ge {A} (f : A → Z) init l :
  init ≤ max_by f init l ∧ ∀ x, x ∈ l → f x ≤ max_by f init l.
Proof.
  unfold max_by. revert init. induction l as [|y l IH]; intros init; simpl.
  - split; [lia|]. by intros x ?%elem_of_nil.
  - destruct (IH (Z.max init (f y))) as [H1 H2]. split; [lia|].
    intros x [->|Hx]%elem_of_cons; [lia|by apply H2].
Qed.

(** *** Chunk index namespaces *)
Lemma open_nodes_index env session durationMs nodes i segments k w :
  (open_nodes env session durationMs i nodes segments).2 !! k = Some w →
  ∃ j, i + Z.of_nat k ≤ j ∧
       wo_startChunkIndex (aw_options w) = Some (j * CHUNK_INDEX_NAMESPACE) ∧
       wo_sessionId (aw_options w) = cs_id session.
Proof.
  revert i segments k w. induction nodes as [|n nodes IH]; intros i segments k w; simpl; [done|].
  destruct (se_open env (Some (fn_id n))) as [[]|m]; simpl.
  - destruct k as [|k]; simpl; [intros [= <-]; exists i; simpl; split_and!; [lia|done..]|].
    intros (j & Hj & Hr)%IH. exists j. split; [lia|done].
  - intros (j & Hj & Hr)%IH. exists j. split; [lia|done].
Qed.

Lemma open_nodes_index_lt env session durationMs nodes i segments a b wa wb :
  (a < b)%nat →
  (open_nodes env session durationMs i nodes segments).2 !! a = Some wa →
  (open_nodes env session durationMs i nodes segments).2 !! b = Some wb →
  ∃ ja jb, ja < jb ∧
    wo_startChunkIndex (aw_options wa) = Some (ja * CHUNK_INDEX_NAMESPACE) ∧
    wo_startChunkIndex (aw_options wb) = Some (jb * CHUNK_INDEX_NAMESPACE).
Proof.
  revert i segments a b. induction nodes as [|n nodes IH]; intros i segments a b Hab; simpl; [done|].
  destruct (se_open env (Some (fn_id n))) as [[]|m]; simpl; [|by apply IH].
  destruct b as [|b]; [lia|]. destruct a as [|a]; simpl; [|apply IH; lia].
  intros [= <-] (j & Hj & Hs & _)%open_nodes_index. exists i, j. split_and!; [lia|done..].
Qed.

(** ** Properties *)

(** When starts do not overlap, a connection has at most one running
    session: at every reachable state the running sessions have pairwise
    distinct connections, [hasActiveSessionOn] answers exactly for the
    connections that have one, and a start on such a connection throws the
    conflict and changes nothing. *)
Theorem one_session_per_connection st s :
  rtc svc_turn (initial_state st) s →
  NoDup (connections (ms_running s))
  ∧ (∀ c, hasActiveSessionOn c s = true ↔ c ∈ connections (ms_running s))
  ∧ ∀ env input, si_connectionId input ∈ connections (ms_running s) →
      startSession env input s = (Throw (conflict_message (si_connectionId input)), s).
Proof.
  intros Hr. destruct (svc_reachable_inv _ _ Hr) as [_ Hconns Hact].
  split_and!; [done|exact Hact|]. intros env input Hin. apply start_busy. by apply Hact.
Qed.

Lemma one_session_per_connection_witness :
  startSession (sample_env "s2") sample_start
    (startSession (sample_env "s1") sample_start (initial_state empty_store)).2
  = (Throw (conflict_message "c"),
     (startSession (sample_env "s1") sample_start (initial_state empty_store)).2).
Proof.
  apply (one_session_per_connection empty_store).
  - apply rtc_once, turn_start. intros r Hr. by apply elem_of_nil in Hr.
  - vm_compute. left.
Defined.

(** Overlapping starts escape the check.  The [await]s between the check of
    the [active] map and the insertion into it let two starts on one connection
    both succeed: two sessions run on the connection, and when the first ends it
    removes the other's entry, so the service reports no active session and
    would admit a third start while one still runs. *)
Theorem overlapping_starts_two_sessions :
  ∃ s s' : MonitorState,
    rtc svc_step (initial_state empty_store, []) (s, [])
    ∧ running_on "c" s = ["s1"; "s2"]
    ∧ svc_step (s, []) (s', [])
    ∧ running_on "c" s' = ["s2"]
    ∧ hasActiveSessionOn "c" s' = false
    ∧ ran_ok (start_check sample_start s').1 = true.
Proof.
  pose (s1 := (start_insert (sample_env "s1") sample_start (initial_state empty_store)).2).
  pose (s2 := (start_insert (sample_env "s2") sample_start s1).2).
  pose (n1 := (initial_session (sample_env "s1") sample_start [], @nil FanOutNode)).
  pose (n2 := (initial_session (sample_env "s2") sample_start [], @nil FanOutNode)).
  pose (s3 := (start_open (sample_env "s1") sample_start n1 s2).2).
  pose (s4 := (start_open (sample_env "s2") sample_start n2 s3).2).
  destruct (ms_running s4) as [|r1 rs] eqn:Er; [done|].
  exists s4, (single_resolved r1 sample_result s4). split_and!.
  - eapply rtc_l; [apply (step_check sample_start); reflexivity|].
    eapply rtc_l; [apply (step_check sample_start); reflexivity|].
    eapply rtc_l; [apply (step_insert (sample_env "s1") sample_start n1 _ s1 [] [Checked sample_start]);
      reflexivity|].
    eapply rtc_l; [apply (step_insert (sample_env "s2") sample_start n2 _ s2
      [Inserted sample_start (sample_env "s1") n1] []); reflexivity|].
    eapply rtc_l; [apply (step_open (sample_env "s1") sample_start n1 s2 []
      [Inserted sample_start (sample_env "s2") n2])|].
    apply rtc_once. apply (step_open (sample_env "s2") sample_start n2 s3 [] []).
  - reflexivity.
  - apply step_turn. apply turn_single; [rewrite Er; left|].
    vm_compute in Er. injection Er as <- _. reflexivity.
  - vm_compute in Er. injection Er as <- _. reflexivity.
  - vm_compute in Er. injection Er as <- _. reflexivity.
  - vm_compute in Er. injection Er as <- _. reflexivity.
Qed.

(** The aggregate status of a fan-out capture is the worst of its nodes: no
    segment ended worse, and a status worse than completed is some segment's. *)
Theorem aggregate_status_worst segments :
  (∀ x, x ∈ segments → severity (seg_status x) ≤ severity (aggregateSegmentStatus segments))
  ∧ (aggregateSegmentStatus segments = CS_completed
     ∨ ∃ x, x ∈ segments ∧ seg_status x = aggregateSegmentStatus segments).
Proof.
  split; [intros x; apply aggregate_upper|].
  destruct (aggregate_attained segments) as [H|H]; [left|by right].
  unfold aggregateSegmentStatus in *. destruct segments; [done|].
  destruct (js_some _ _); [done|]. by destruct (js_some _ _).
Qed.

(** Finalising a fan-out session writes the aggregate of its segments to the
    session's row (worst status, summed counters, an end no earlier than the
    start and than any node's end), frees the connection, and announces the end
    unless a node failed. *)
Theorem fanout_finalize_row now r s row :
  getSession (cs_id (rn_session r)) s = Some row →
  ∃ row', getSession (cs_id (rn_session r)) (finalizeFanOutSession now r s) = Some row'
    ∧ cs_status row' = aggregateSegmentStatus (jm_values (rn_segments r))
    ∧ cs_byteCount row' = sum_by seg_byteCount (jm_values (rn_segments r))
    ∧ cs_lineCount row' = sum_by seg_lineCount (jm_values (rn_segments r))
    ∧ cs_nodeSegments row' = Some (jm_values (rn_segments r))
    ∧ (∃ e, cs_endedAt row' = Some e ∧ cs_startedAt (rn_session r) ≤ e ∧
         ∀ x t, x ∈ jm_values (rn_segments r) → seg_endedAt x = Some t → t ≤ e)
    ∧ hasActiveSessionOn (cs_connectionId (rn_session r)) (finalizeFanOutSession now r s) = false
    ∧ (cs_status row' = CS_failed →
         ms_dispatched (finalizeFanOutSession now r s) = ms_dispatched s)
    ∧ (cs_status row' ≠ CS_failed →
         length (ms_dispatched (finalizeFanOutSession now r s)) = S (length (ms_dispatched s))).
Proof.
  intros Hrow. unfold getSession, finalizeFanOutSession. cbv zeta. cbn [with_running with_active ms_store].
  rewrite (proj2 (proj2 (dispatchSessionEnded_state _ _ _))). cbn [with_store ms_store].
  rewrite getCaptureSession_update, decide_True by done. unfold getSession in Hrow. rewrite Hrow.
  eexists. split; [reflexivity|]. cbn [patch_session cs_status cs_byteCount cs_lineCount
    cs_nodeSegments cs_endedAt csp_status csp_byteCount csp_lineCount csp_nodeSegments csp_endedAt
    patched patched_opt from_option id].
  destruct (max_by_ge (λ x, default now (seg_endedAt x)) (cs_startedAt (rn_session r))
    (jm_values (rn_segments r))) as [Hge Hall].
  split_and!; try done.
  - eexists. split_and!; [reflexivity|done|]. intros x t Hx Ht.
    specialize (Hall x Hx). simpl in Hall. by rewrite Ht in Hall.
  - unfold hasActiveSessionOn. cbn [ms_active with_running with_active]. apply jm_has_false.
    by rewrite jm_get_delete, decide_True.
  - intros ->. done.
  - intros Hne. unfold dispatchSessionEnded. cbn [wr_status ms_dispatched with_running with_active].
    destruct (aggregateSegmentStatus _); try done; simpl; rewrite length_app; simpl; lia.
Qed.

Lemma fanout_finalize_row_witness :
  ∃ row', getSession "s1" (finalizeFanOutSession 170 sample_fanout
      (startSession (sample_env "s1") sample_start (initial_state empty_store)).2) = Some row'
    ∧ cs_status row' = CS_truncated.
Proof.
  destruct (fanout_finalize_row 170 sample_fanout
    (startSession (sample_env "s1") sample_start (initial_state empty_store)).2
    (initial_session (sample_env "s1") sample_start []) eq_refl) as (row' & Hrow & Hst & _).
  exists row'. split; [exact Hrow|exact Hst].
Defined.

(** The writers of a fan-out session never collide on the primary key of the
    chunk table: with at most [CHUNK_INDEX_NAMESPACE] chunks each, the chunk
    index ranges of two writers of one session are disjoint. *)
Theorem fanout_chunk_ranges env session durationMs nodes segments a b wa wb ca cb (na nb : Z) :
  a ≠ b →
  (open_nodes env session durationMs 0 nodes segments).2 !! a = Some wa →
  (open_nodes env session durationMs 0 nodes segments).2 !! b = Some wb →
  na ≤ CHUNK_INDEX_NAMESPACE → nb ≤ CHUNK_INDEX_NAMESPACE →
  ca ∈ seqZ (default 0 (wo_startChunkIndex (aw_options wa))) na →
  cb ∈ seqZ (default 0 (wo_startChunkIndex (aw_options wb))) nb →
  ca ≠ cb.
Proof.
  intros Hab Ha Hb Hna Hnb Hca Hcb.
  rewrite elem_of_seqZ in Hca. rewrite elem_of_seqZ in Hcb. unfold CHUNK_INDEX_NAMESPACE in *.
  destruct (Nat.lt_total a b) as [H|[H|H]]; [|done|].
  - destruct (open_nodes_index_lt _ _ _ _ _ _ _ _ _ _ H Ha Hb) as (ja & jb & Hj & Ea & Eb).
    rewrite Ea in Hca. rewrite Eb in Hcb. simpl in *. unfold CHUNK_INDEX_NAMESPACE in *. nia.
  - destruct (open_nodes_index_lt _ _ _ _ _ _ _ _ _ _ H Hb Ha) as (jb & ja & Hj & Eb & Ea).
    rewrite Ea in Hca. rewrite Eb in Hcb. simpl in *. unfold CHUNK_INDEX_NAMESPACE in *. nia.
Qed.

Lemma fanout_chunk_ranges_witness : 3 ≠ 10000003.
Proof.
  apply (fanout_chunk_ranges (sample_env "s1") (initial_session (sample_env "s1") sample_start [])
    DEFAULT_DURATION_MS sample_nodes [] 0 1 _ _ 3 10000003 5 5 ltac:(done) eq_refl eq_refl);
    try (unfold CHUNK_INDEX_NAMESPACE; lia); apply elem_of_seqZ; simpl;
    unfold CHUNK_INDEX_NAMESPACE; lia.
Defined.

(** When MONITOR cannot be opened, the start rethrows the error, the session
    row says failed with the reason, the connection is not left marked active
    and no event is dispatched. *)
Theorem start_open_failure env input s message :
  si_fanOut input = false →
  hasActiveSessionOn (si_connectionId input) s = false →
  se_open env (si_targetNodeId input) = Throw message →
  let r := startSession env input s in
  r.1 = Throw message
  ∧ (∃ row, getSession (se_id env) r.2 = Some row ∧ cs_status row = CS_failed
       ∧ cs_terminationReason row = Some ("monitor_open_failed: " +:+ message))
  ∧ ms_active r.2 = ms_active s ∧ ms_running r.2 = ms_running s
  ∧ ms_dispatched r.2 = ms_dispatched s.
Proof.
  intros Hf Hb Ho r. subst r. unfold startSession, mbind, M_bind, start_check. rewrite Hb.
  cbn [start_insert]. rewrite Hf. unfold start_open, startSingleSession. cbn [fst snd].
  rewrite Ho. cbn [fst snd]. split_and!; try done.
  unfold getSession. cbn [ms_store with_store]. rewrite getCaptureSession_update.
  rewrite decide_True by done. unfold getCaptureSession. simpl. rewrite jm_get_set_eq. simpl.
  by eexists.
Qed.

Lemma start_open_failure_witness :
  (startSession {| se_defaults := {| cd_byteCap := None; cd_lineCap := None |};
     se_discover := Ok []; se_id := "s1"; se_now := 100;
     se_open := λ _, Throw "refused"; se_openFailedAt := λ _, 120 |} sample_start
     (initial_state empty_store)).1 = Throw "refused".
Proof. apply (start_open_failure _ sample_start); reflexivity. Defined.
