(* ===== verification/CaptureTriggers.v ===== *)
(** * The capture trigger registry

    [apps/api/src/monitor/capture-trigger-registry.ts]: triggers are created,
    cancelled, and driven by a polling tick that expires the stale ones, retries
    the queued ones and fires those that match a new anomaly.  The registry calls
    the capture service and the health gate; [INFO] answers, fresh ids and clock
    readings come from an oracle indexed by the number of fire attempts so far. *)
From S2P Require Export MonitorCapture HealthGate.
From stdpp Require Import options.

(** ** Definitions *)
Definition DEFAULT_TRIGGER_EXPIRY_MS : Z := 24 * 60 * 60 * 1000.

Record CreateTriggerInput := {
  cti_connectionId : string;
  cti_metricType : string;
  cti_anomalyType : string;
  cti_expiresAt : option Z;
  cti_createdBy : option string
}.

Inductive TriggerDispatch :=
  | TriggerCreated (trigger : StoredCaptureTrigger)
  | SessionSkipped (trigger : StoredCaptureTrigger) (reason : string).

Record Registry := {
  rg_lastAnomalyAt : Z;
  rg_ticking : bool;
  rg_service : MonitorState;
  rg_attempts : nat;
  rg_dispatched : list TriggerDispatch
}.

Definition rg_store (s : Registry) : CaptureStore := ms_store (rg_service s).

(** The outside of one fire attempt: the [INFO] answer of the connection, the
    clock the gate reads, the environment of the start and the clock at
    [firedAt]. *)
Record FireEnv := {
  fe_info : outcome string ParsedInfo;
  fe_gateNow : Z;
  fe_start : StartEnv;
  fe_firedAt : Z
}.
Record TickEnv := {
  tk_gate : HealthGateConfig;
  tk_fire : nat → FireEnv;
  tk_sweepNow : Z
}.

Definition with_service (f : MonitorState → MonitorState) (s : Registry) : Registry :=
  {| rg_lastAnomalyAt := rg_lastAnomalyAt s; rg_ticking := rg_ticking s;
     rg_service := f (rg_service s); rg_attempts := rg_attempts s;
     rg_dispatched := rg_dispatched s |}.
Definition set_ticking (b : bool) (s : Registry) : Registry :=
  {| rg_lastAnomalyAt := rg_lastAnomalyAt s; rg_ticking := b; rg_service := rg_service s;
     rg_attempts := rg_attempts s; rg_dispatched := rg_dispatched s |}.
Definition set_lastAnomalyAt (t : Z) (s : Registry) : Registry :=
  {| rg_lastAnomalyAt := t; rg_ticking := rg_ticking s; rg_service := rg_service s;
     rg_attempts := rg_attempts s; rg_dispatched := rg_dispatched s |}.
Definition count_attempt (s : Registry) : Registry :=
  {| rg_lastAnomalyAt := rg_lastAnomalyAt s; rg_ticking := rg_ticking s;
     rg_service := rg_service s; rg_attempts := S (rg_attempts s);
     rg_dispatched := rg_dispatched s |}.
Definition announce (d : TriggerDispatch) (s : Registry) : Registry :=
  {| rg_lastAnomalyAt := rg_lastAnomalyAt s; rg_ticking := rg_ticking s;
     rg_service := rg_service s; rg_attempts := rg_attempts s;
     rg_dispatched := rg_dispatched s ++ [d] |}.

Definition resetAnomalyWatermark : Registry → Registry := set_lastAnomalyAt 0.

Definition by_status (connectionId : option string) (status : CaptureTriggerStatus)
    : CaptureTriggerQueryOptions :=
  {| ctq_connectionId := connectionId; ctq_status := Some status;
     ctq_limit := None; ctq_offset := None |}.

Definition findActiveTrigger (connectionId metricType anomalyType : string) (st : CaptureStore)
    : option StoredCaptureTrigger :=
  js_find (λ t, str_eqb (ct_metricType t) metricType && str_eqb (ct_anomalyType t) anomalyType)
    (getCaptureTriggers (by_status (Some connectionId) TS_configured) st
     ++ getCaptureTriggers (by_status (Some connectionId) TS_queued) st).

Definition patch (id : string) (p : CaptureTriggerPatch) (s : Registry) : Registry :=
  with_service (with_store (λ st, (updateCaptureTrigger id p st).2)) s.

Definition status_patch (status : CaptureTriggerStatus) : CaptureTriggerPatch :=
  {| ctp_status := Some status; ctp_firedAt := None; ctp_firedSessionId := None;
     ctp_skipReason := None |}.
Definition skip_patch (reason : string) : CaptureTriggerPatch :=
  {| ctp_status := Some TS_skipped; ctp_firedAt := None; ctp_firedSessionId := None;
     ctp_skipReason := Some reason |}.
Definition fired_patch (firedAt : Z) (sessionId : string) : CaptureTriggerPatch :=
  {| ctp_status := Some TS_fired; ctp_firedAt := Some firedAt;
     ctp_firedSessionId := Some sessionId; ctp_skipReason := None |}.

(** [id] and [now] are [randomUUID()] and [Date.now()]. *)
Definition new_trigger (id : string) (now : Z) (input : CreateTriggerInput) : StoredCaptureTrigger :=
  {| ct_id := id; ct_connectionId := cti_connectionId input;
     ct_metricType := cti_metricType input; ct_anomalyType := cti_anomalyType input;
     ct_expiresAt := default (now + DEFAULT_TRIGGER_EXPIRY_MS) (cti_expiresAt input);
     ct_createdAt := now; ct_createdBy := cti_createdBy input; ct_status := TS_configured;
     ct_firedAt := None; ct_firedSessionId := None; ct_skipReason := None |}.

Definition trigger_conflict (input : CreateTriggerInput) : string :=
  "A capture trigger for " +:+ cti_metricType input +:+ "/" +:+ cti_anomalyType input
  +:+ " on " +:+ cti_connectionId input +:+ " already exists".

Definition createTrigger (id : string) (now : Z) (input : CreateTriggerInput)
    : M Registry string StoredCaptureTrigger := λ s,
  match findActiveTrigger (cti_connectionId input) (cti_metricType input)
          (cti_anomalyType input) (rg_store s) with
  | Some _ => (Throw (trigger_conflict input), s)
  | None =>
      let trigger := new_trigger id now input in
      (Ok trigger,
       announce (TriggerCreated trigger)
         (with_service (with_store (saveCaptureTrigger trigger)) s))
  end.

Definition cancelTrigger (id : string) (s : Registry) : bool * Registry :=
  match getCaptureTrigger id (rg_store s) with
  | None => (false, s)
  | Some existing =>
      match ct_status existing with
      | TS_configured | TS_queued =>
          ((updateCaptureTrigger id (status_patch TS_cancelled) (rg_store s)).1,
           patch id (status_patch TS_cancelled) s)
      | _ => (false, s)
      end
  end.

Definition listTriggers (options : CaptureTriggerQueryOptions) (s : Registry)
    : list StoredCaptureTrigger := getCaptureTriggers options (rg_store s).
Definition getTrigger (id : string) (s : Registry) : option StoredCaptureTrigger :=
  getCaptureTrigger id (rg_store s).

(** *** The tick *)
Definition sweepExpired (now : Z) (s : Registry) : Registry :=
  let configured := getCaptureTriggers (by_status None TS_configured) (rg_store s) in
  let queued := getCaptureTriggers (by_status None TS_queued) (rg_store s) in
  foldl (λ s t, if ct_expiresAt t <=? now then patch (ct_id t) (status_patch TS_expired) s else s)
    s (configured ++ queued).

(** [healthGate.evaluate(connectionId)] *)
Definition gate_of (env : TickEnv) (fe : FireEnv) (connectionId : string) (s : Registry)
    : outcome string HealthGateResult :=
  match fe_info fe with
  | Throw e => Throw e
  | Ok info => Ok (evaluate (tk_gate env) connectionId info (fe_gateNow fe) (rg_store s))
  end.

Definition tryFire (env : TickEnv) (trigger : StoredCaptureTrigger) : M Registry string unit := λ s0,
  let fe := tk_fire env (rg_attempts s0) in
  let s := count_attempt s0 in
  match gate_of env fe (ct_connectionId trigger) s with
  | Throw e => (Throw e, s)
  | Ok gate =>
      if negb (hr_allow gate) then
        let reason := match hr_skipReason gate with
                      | Some r => skip_reason_text r
                      | None => "health_gate_blocked"
                      end in
        (Ok tt, announce (SessionSkipped trigger reason) (patch (ct_id trigger) (skip_patch reason) s))
      else if hasActiveSessionOn (ct_connectionId trigger) (rg_service s) then
        (Ok tt, if bool_decide (ct_status trigger = TS_queued) then s
                else patch (ct_id trigger) (status_patch TS_queued) s)
      else
        let input := {| si_connectionId := ct_connectionId trigger; si_durationMs := None;
                        si_byteCap := None; si_lineCap := None; si_source := Some Src_trigger;
                        si_triggerId := Some (ct_id trigger); si_scheduleId := None;
                        si_requestedBy := None; si_targetNodeId := None; si_fanOut := false |} in
        let '(r, svc) := startSession (fe_start fe) input (rg_service s) in
        let s := with_service (λ _, svc) s in
        match r with
        | Ok session =>
            (Ok tt, patch (ct_id trigger) (fired_patch (fe_firedAt fe) (cs_id session)) s)
        | Throw message =>
            if includes "already active" message
            then (Ok tt, patch (ct_id trigger) (status_patch TS_queued) s)
            else (Ok tt, patch (ct_id trigger) (skip_patch ("start_failed: " +:+ message)) s)
        end
  end.

(** The body of the loop over the queued triggers. *)
Definition retry_queued (env : TickEnv) (t : StoredCaptureTrigger) : M Registry string unit := λ s,
  if hasActiveSessionOn (ct_connectionId t) (rg_service s) then (Ok tt, s) else tryFire env t s.

Definition processQueued (env : TickEnv) : M Registry string unit := λ s,
  for_each (getCaptureTriggers (by_status None TS_queued) (rg_store s)) (retry_queued env) s.

Definition pageSize : Z := 200.
Definition maxPerTick : Z := 5000.

Definition anomaly_poll (startTime offset : Z) : AnomalyQueryOptions :=
  {| aq_startTime := Some startTime; aq_endTime := None; aq_severity := None;
     aq_metricType := None; aq_resolved := None; aq_limit := Some pageSize;
     aq_offset := Some offset; aq_connectionId := None |}.

(** The loop over the pages; [fuel] bounds it by [maxPerTick / pageSize] rounds. *)
Fixpoint collect_pages (fuel : nat) (startTime offset : Z) (st : CaptureStore)
    : list StoredAnomalyEvent :=
  match fuel with
  | O => []
  | S fuel =>
      if maxPerTick <=? offset then [] else
      let page := getAnomalyEvents (anomaly_poll startTime offset) st in
      match page with
      | [] => []
      | _ => if js_len page <? pageSize then page
             else page ++ collect_pages fuel startTime (offset + pageSize) st
      end
  end.

Definition poll_start (s : Registry) : Z :=
  if rg_lastAnomalyAt s =? 0 then 0 else rg_lastAnomalyAt s + 1.

Definition collect_anomalies (s : Registry) : list StoredAnomalyEvent :=
  collect_pages 26 (poll_start s) 0 (rg_store s).

(** The body of the loop over the events. *)
Definition process_event (env : TickEnv) (evt : StoredAnomalyEvent) : M Registry string unit := λ s,
  match ae_connectionId evt with
  | None | Some EmptyString => (Ok tt, s)
  | Some connectionId =>
      match findActiveTrigger connectionId (ae_metricType evt) (ae_anomalyType evt) (rg_store s) with
      | Some t =>
          if bool_decide (ct_status t = TS_configured) && (ct_createdAt t <=? ae_timestamp evt)
          then tryFire env t s else (Ok tt, s)
      | None => (Ok tt, s)
      end
  end.

Definition processNewAnomalies (env : TickEnv) : M Registry string unit := λ s,
  match collect_anomalies s with
  | [] => (Ok tt, s)
  | collected =>
      let sorted := js_sort (by_asc ae_timestamp) collected in
      let maxTs := foldl (λ m e, Z.max m (ae_timestamp e)) (rg_lastAnomalyAt s) sorted in
      (for_each sorted (process_event env) ≫= λ _, modify (set_lastAnomalyAt maxTs)) s
  end.

Definition tick (env : TickEnv) : M Registry string unit := λ s,
  if rg_ticking s then (Ok tt, s) else
  let s := set_ticking true s in
  let '(r, s) := (modify (sweepExpired (tk_sweepNow env)) ≫= λ _,
                  processQueued env ≫= λ _, processNewAnomalies env) s in
  (r, set_ticking false s).

(** *** Specification *)

(** A trigger row whose lifecycle is over does not change. *)
Definition finals_kept (s s' : Registry) : Prop :=
  ∀ id t, getTrigger id s = Some t → trigger_terminal (ct_status t) = true →
          getTrigger id s' = Some t.

(** Only rows of [ids] differ. *)
Definition only_rows (ids : list string) (s s' : Registry) : Prop :=
  ∀ id, id ∉ ids → getTrigger id s' = getTrigger id s.

(** The trigger has a stored row that is not in a terminal state. *)
Definition live (s : Registry) (id : string) : Prop :=
  ∃ t, getTrigger id s = Some t ∧ trigger_terminal (ct_status t) = false.

(** The operations of the registry, one at a time. *)
Inductive registry_op : Registry → Registry → Prop :=
  | op_create id now input s :
      getTrigger id s = None → registry_op s (createTrigger id now input s).2
  | op_cancel id s : registry_op s (cancelTrigger id s).2
  | op_tick env s : registry_op s (tick env s).2.

(** The triggers with a status, in the order the queries list them. *)
Definition all_with_status (status : CaptureTriggerStatus) (st : CaptureStore)
    : list StoredCaptureTrigger :=
  js_sort (by_desc ct_createdAt)
    (js_filter (trigger_matches (by_status None status)) (jm_values (captureTriggers st))).

(** The anomaly events a poll has to look at, newest first. *)
Definition pending_events (s : Registry) : list StoredAnomalyEvent :=
  js_sort (by_desc ae_timestamp)
    (js_filter (anomaly_matches (anomaly_poll (poll_start s) 0)) (anomalyEvents (rg_store s))).

(** ** Lemmas *)

(** *** What the calls touch *)
Lemma with_sessions_wf f st :
  keyed cs_id (f (captureSessions st)) → store_wf st → store_wf (with_sessions f st).
Proof. intros Hf []. by split. Qed.

Lemma updateCaptureSession_frame id p st :
  captureTriggers (updateCaptureSession id p st).2 = captureTriggers st
  ∧ anomalyEvents (updateCaptureSession id p st).2 = anomalyEvents st.
Proof. unfold updateCaptureSession. by destruct (jm_get id (captureSessions st)). Qed.

Lemma startSession_frame env input s :
  captureTriggers (ms_store (startSession env input s).2) = captureTriggers (ms_store s)
  ∧ anomalyEvents (ms_store (startSession env input s).2) = anomalyEvents (ms_store s)
  ∧ (store_wf (ms_store s) → store_wf (ms_store (startSession env input s).2)).
Proof.
  unfold startSession, mbind, M_bind, start_check.
  destruct (hasActiveSessionOn _ s); [done|]. cbn [start_insert]. unfold start_open.
  cbn [fst snd]. set (nodes := if si_fanOut input then _ else _).
  set (session := initial_session env input nodes).
  assert (Hwf : store_wf (ms_store s) →
    store_wf (saveCaptureSession session (si_connectionId input) (ms_store s)))
    by (intros; by eapply store_step_wf; [constructor|]).
  destruct nodes.
  - unfold startSingleSession. destruct (se_open env _); [done|].
    cbn [fst snd ms_store with_store]. rewrite !(proj1 (updateCaptureSession_frame _ _ _)),
      !(proj2 (updateCaptureSession_frame _ _ _)). split_and!; [done..|].
    intros Hs. eapply store_step_wf; [constructor|]. by apply Hwf.
  - unfold startFanOutSession. by destruct (open_nodes env session _ _ _ _).
Qed.

Lemma getTrigger_patch id id' p s :
  getTrigger id (patch id' p s)
  = if decide (id = id') then patch_trigger p <$> getTrigger id s else getTrigger id s.
Proof. unfold getTrigger, patch, rg_store. simpl. apply getCaptureTrigger_update. Qed.

Lemma patch_wf id p s : store_wf (rg_store s) → store_wf (rg_store (patch id p s)).
Proof. intros H. eapply store_step_wf; [apply (step_update_trigger id p)|done]. Qed.

Lemma only_rows_refl ids s : only_rows ids s s.
Proof. by intros id _. Qed.
Lemma only_rows_trans ids s1 s2 s3 :
  only_rows ids s1 s2 → only_rows ids s2 s3 → only_rows ids s1 s3.
Proof. intros H1 H2 id Hid. by rewrite H2, H1. Qed.
Lemma only_rows_weaken ids ids' s s' : ids ⊆ ids' → only_rows ids s s' → only_rows ids' s s'.
Proof. intros Hsub H id Hid. apply H. set_solver. Qed.
Lemma only_rows_patch id p s : only_rows [id] s (patch id p s).
Proof. intros id' Hid. rewrite getTrigger_patch, decide_False by set_solver. done. Qed.
#[local] Hint Resolve only_rows_refl only_rows_patch : js.

Lemma finals_of_rows ids s s' :
  only_rows ids s s' → (∀ id, id ∈ ids → live s id) → finals_kept s s'.
Proof.
  intros Hrows Hlive id t Hget Hterm. rewrite Hrows; [done|].
  intros Hin. destruct (Hlive id Hin) as (t' & Hget' & Hnt). congruence.
Qed.

Lemma finals_kept_trans s1 s2 s3 : finals_kept s1 s2 → finals_kept s2 s3 → finals_kept s1 s3.
Proof. intros H1 H2 id t Hget Hterm. apply H2; [by apply H1|done]. Qed.

(** A trigger a status query returns is stored with that status. *)
Lemma query_status c status st t :
  store_wf st → t ∈ getCaptureTriggers (by_status c status) st →
  getCaptureTrigger (ct_id t) st = Some t ∧ ct_status t = status.
Proof.
  intros Hwf Ht. apply getCaptureTriggers_get in Ht as [Hm Hg]; [|done]. split; [done|].
  unfold trigger_matches in Hm. apply andb_true_iff in Hm as [_ Hs]. simpl in Hs.
  by js_bools.
Qed.

Lemma query_live c status s t :
  store_wf (rg_store s) → trigger_terminal status = false →
  t ∈ getCaptureTriggers (by_status c status) (rg_store s) → live s (ct_id t).
Proof.
  intros Hwf Hnt Ht. destruct (query_status _ _ _ _ Hwf Ht) as [Hg Hs].
  exists t. split; [done|]. by rewrite Hs.
Qed.

(** *** The steps of the tick *)
Lemma tryFire_rows env t s :
  only_rows [ct_id t] s (tryFire env t s).2
  ∧ anomalyEvents (rg_store (tryFire env t s).2) = anomalyEvents (rg_store s)
  ∧ rg_lastAnomalyAt (tryFire env t s).2 = rg_lastAnomalyAt s
  ∧ (store_wf (rg_store s) → store_wf (rg_store (tryFire env t s).2)).
Proof.
  assert (Hp : ∀ p s', only_rows [ct_id t] s s' →
    anomalyEvents (rg_store s') = anomalyEvents (rg_store s) →
    rg_lastAnomalyAt s' = rg_lastAnomalyAt s →
    (store_wf (rg_store s) → store_wf (rg_store s')) →
    let s'' := patch (ct_id t) p s' in
    only_rows [ct_id t] s s'' ∧ anomalyEvents (rg_store s'') = anomalyEvents (rg_store s)
    ∧ rg_lastAnomalyAt s'' = rg_lastAnomalyAt s
    ∧ (store_wf (rg_store s) → store_wf (rg_store s''))).
  { intros p s' Hr Ha Hl Hw s''. split_and!; [|rewrite <-Ha|done|].
    - eapply only_rows_trans; [done|]. apply only_rows_patch.
    - unfold s'', patch, rg_store. simpl. unfold updateCaptureTrigger.
      by destruct (jm_get _ _).
    - intros Hs. apply patch_wf. by apply Hw. }
  unfold tryFire. destruct (gate_of _ _ _ _) as [gate|e]; [|done].
  destruct (negb (hr_allow gate)).
  { cbn [snd]. by apply (Hp _ (count_attempt s)). }
  destruct (hasActiveSessionOn _ _).
  { cbn [snd]. destruct (bool_decide _); [done|]. by apply (Hp _ (count_attempt s)). }
  match goal with |- context [startSession ?e ?i ?m] =>
    destruct (startSession_frame e i m) as (Ht & Ha & Hw); destruct (startSession e i m) as [r svc] end.
  cbn [fst snd] in *.
  assert (Hrow : only_rows [ct_id t] s (with_service (λ _, svc) (count_attempt s))).
  { intros id _. unfold getTrigger, getCaptureTrigger, rg_store. simpl. by rewrite Ht. }
  destruct r as [session|m]; [by apply Hp|]. destruct (includes _ m); by apply Hp.
Qed.

Lemma sweepExpired_rows now s :
  let ts := getCaptureTriggers (by_status None TS_configured) (rg_store s)
            ++ getCaptureTriggers (by_status None TS_queued) (rg_store s) in
  only_rows (ct_id <$> js_filter (λ t, ct_expiresAt t <=? now) ts) s (sweepExpired now s)
  ∧ anomalyEvents (rg_store (sweepExpired now s)) = anomalyEvents (rg_store s)
  ∧ rg_lastAnomalyAt (sweepExpired now s) = rg_lastAnomalyAt s
  ∧ (store_wf (rg_store s) → store_wf (rg_store (sweepExpired now s))).
Proof.
  intros ts. unfold sweepExpired. fold ts. generalize ts as l. intros l. clear ts. revert s.
  induction l as [|t l IH]; intros s; [by split_and!|]. cbn [foldl js_filter].
  destruct (ct_expiresAt t <=? now); [|apply IH].
  destruct (IH (patch (ct_id t) (status_patch TS_expired) s)) as (H1 & H2 & H3 & H4).
  split_and!.
  - eapply only_rows_trans; [|eapply only_rows_weaken; [|exact H1]].
    + eapply only_rows_weaken; [|apply only_rows_patch]. csimpl. set_solver.
    + csimpl. set_solver.
  - rewrite H2. unfold patch, rg_store. simpl. unfold updateCaptureTrigger.
    by destruct (jm_get _ _).
  - by rewrite H3.
  - intros Hw. apply H4. by apply patch_wf.
Qed.

(** What every part of a tick keeps. *)
Definition part_ok (s s' : Registry) : Prop :=
  store_wf (rg_store s') ∧ finals_kept s s'
  ∧ anomalyEvents (rg_store s') = anomalyEvents (rg_store s).

Lemma part_ok_trans s1 s2 s3 : part_ok s1 s2 → part_ok s2 s3 → part_ok s1 s3.
Proof.
  intros (_ & H1 & E1) (H2 & H3 & E2). split_and!; [done|by eapply finals_kept_trans|congruence].
Qed.

Lemma part_ok_refl s : store_wf (rg_store s) → part_ok s s.
Proof. by intros Hs; split_and!; [|intros ????|]. Qed.

Lemma tryFire_part env t s :
  store_wf (rg_store s) → live s (ct_id t) → part_ok s (tryFire env t s).2.
Proof.
  intros Hwf Hl. destruct (tryFire_rows env t s) as (Hr & Ha & _ & Hw). split_and!; [by apply Hw| |done].
  eapply finals_of_rows; [exact Hr|]. by intros id ->%list_elem_of_singleton.
Qed.

Lemma sweepExpired_part now s : store_wf (rg_store s) → part_ok s (sweepExpired now s).
Proof.
  intros Hwf. destruct (sweepExpired_rows now s) as (Hr & Ha & _ & Hw).
  split_and!; [by apply Hw| |done]. eapply finals_of_rows; [exact Hr|].
  intros id (t & -> & [_ Ht]%js_filter_elem)%list_elem_of_fmap.
  apply elem_of_app in Ht as [Ht|Ht].
  - by apply (query_live None TS_configured).
  - by apply (query_live None TS_queued).
Qed.

(** The loop over the queued triggers touches the rows of those triggers only. *)
Lemma retry_rows env l s :
  let s' := (for_each l (retry_queued env) s).2 in
  only_rows (ct_id <$> l) s s'
  ∧ anomalyEvents (rg_store s') = anomalyEvents (rg_store s)
  ∧ rg_lastAnomalyAt s' = rg_lastAnomalyAt s
  ∧ (store_wf (rg_store s) → store_wf (rg_store s')).
Proof.
  revert s. induction l as [|t l IH]; intros s; [by split_and!|].
  cbn [for_each]. unfold mbind, M_bind.
  assert (H1 : let s1 := (retry_queued env t s).2 in
    only_rows [ct_id t] s s1 ∧ anomalyEvents (rg_store s1) = anomalyEvents (rg_store s)
    ∧ rg_lastAnomalyAt s1 = rg_lastAnomalyAt s
    ∧ (store_wf (rg_store s) → store_wf (rg_store s1))).
  { unfold retry_queued. destruct (hasActiveSessionOn _ _); [by split_and!|apply tryFire_rows]. }
  destruct (retry_queued env t s) as [[[]|e] s1]; cbn [snd] in *;
    destruct H1 as (Hr & Ha & Hl & Hw).
  - destruct (IH s1) as (Hr' & Ha' & Hl' & Hw'). split_and!; try congruence; [|tauto].
    eapply only_rows_trans; (eapply only_rows_weaken; [|done]); csimpl; set_solver.
  - split_and!; try done. eapply only_rows_weaken; [|done]. csimpl. set_solver.
Qed.

Lemma processQueued_part env s : store_wf (rg_store s) → part_ok s (processQueued env s).2.
Proof.
  intros Hwf. unfold processQueued.
  destruct (retry_rows env (getCaptureTriggers (by_status None TS_queued) (rg_store s)) s)
    as (Hr & Ha & _ & Hw).
  split_and!; [by apply Hw| |done]. eapply finals_of_rows; [exact Hr|].
  intros id (t & -> & Ht)%list_elem_of_fmap. by apply (query_live None TS_queued).
Qed.

Lemma findActive_live c m a s t :
  store_wf (rg_store s) → findActiveTrigger c m a (rg_store s) = Some t → live s (ct_id t).
Proof.
  intros Hwf [_ Hin]%js_find_Some.
  apply elem_of_app in Hin as [Hin|Hin].
  - by apply (query_live (Some c) TS_configured).
  - by apply (query_live (Some c) TS_queued).
Qed.

Lemma process_event_part env e s : store_wf (rg_store s) → part_ok s (process_event env e s).2.
Proof.
  intros Hwf. unfold process_event.
  destruct (ae_connectionId e) as [[|a c]|]; [by apply part_ok_refl| |by apply part_ok_refl].
  destruct (findActiveTrigger _ _ _ _) as [t|] eqn:Ef; [|by apply part_ok_refl].
  destruct (_ && _); [|by apply part_ok_refl]. apply tryFire_part; [done|].
  by eapply findActive_live.
Qed.

Lemma process_events_part env l s :
  store_wf (rg_store s) → part_ok s (for_each l (process_event env) s).2.
Proof.
  revert s. induction l as [|e l IH]; intros s Hwf; [by apply part_ok_refl|].
  cbn [for_each]. unfold mbind, M_bind. pose proof (process_event_part env e s Hwf) as Hp.
  destruct (process_event env e s) as [[[]|err] s1]; cbn [snd] in *; [|done].
  eapply part_ok_trans; [done|]. apply IH. apply Hp.
Qed.

Lemma processNewAnomalies_part env s :
  store_wf (rg_store s) → part_ok s (processNewAnomalies env s).2.
Proof.
  intros Hwf. unfold processNewAnomalies. destruct (collect_anomalies s) as [|e l];
    [by apply part_ok_refl|].
  unfold mbind, M_bind. pose proof (process_events_part env (js_sort (by_asc ae_timestamp) (e :: l)) s Hwf) as Hp.
  destruct (for_each _ _ s) as [[[]|err] s1]; cbn [snd] in *; done.
Qed.

Lemma tick_part env s : store_wf (rg_store s) → part_ok s (tick env s).2.
Proof.
  intros Hwf. unfold tick. destruct (rg_ticking s); [by apply part_ok_refl|].
  unfold mbind, M_bind, modify. set (s0 := set_ticking true s).
  assert (H0 : part_ok s s0) by (by split_and!; [|intros ????|]).
  pose proof (part_ok_trans _ _ _ H0 (sweepExpired_part (tk_sweepNow env) s0 (proj1 H0))) as H1.
  set (s1 := sweepExpired (tk_sweepNow env) s0) in *.
  pose proof (processQueued_part env s1 (proj1 H1)) as H2.
  destruct (processQueued env s1) as [[[]|e] s2]; cbn [snd] in *.
  - pose proof (processNewAnomalies_part env s2 (proj1 H2)) as H3.
    destruct (processNewAnomalies env s2) as [r s3]; cbn [snd] in *.
    pose proof (part_ok_trans _ _ _ (part_ok_trans _ _ _ H1 H2) H3) as (A & B & C).
    by split_and!.
  - pose proof (part_ok_trans _ _ _ H1 H2) as (A & B & C). by split_and!.
Qed.

Lemma registry_op_ok s s' :
  registry_op s s' → store_wf (rg_store s) → store_wf (rg_store s') ∧ finals_kept s s'.
Proof.
  intros Hop Hwf. destruct Hop as [id now input s Hfresh|id s|env s].
  - unfold createTrigger. destruct (findActiveTrigger _ _ _ _).
    { split; [done|]. by intros ????. }
    cbn [snd]. split; [eapply store_step_wf; [apply step_save_trigger|done]|].
    intros id' t Hget _. unfold getTrigger, getCaptureTrigger, rg_store in *. simpl.
    rewrite jm_get_set_ne; [done|]. intros ->. congruence.
  - unfold cancelTrigger. destruct (getCaptureTrigger id (rg_store s)) as [t|] eqn:Eg;
      [|split; [done|by intros ????]].
    assert (Hpatch : trigger_terminal (ct_status t) = false →
      store_wf (rg_store (patch id (status_patch TS_cancelled) s)) ∧
      finals_kept s (patch id (status_patch TS_cancelled) s)).
    { intros Hnt. split; [by apply patch_wf|]. eapply finals_of_rows; [apply only_rows_patch|].
      intros ? ->%list_elem_of_singleton. by exists t. }
    destruct (ct_status t); try (by apply Hpatch); split; try done; by intros ????.
  - destruct (tick_part env s Hwf) as (H1 & H2 & _). done.
Qed.

(** *** The sweep *)
Lemma patch_trigger_idem p t : patch_trigger p (patch_trigger p t) = patch_trigger p t.
Proof. destruct p as [[] [] [] []], t; done. Qed.

Lemma sweep_fold_get now l s id :
  getTrigger id (foldl (λ s t, if ct_expiresAt t <=? now
                               then patch (ct_id t) (status_patch TS_expired) s else s) s l)
  = if bool_decide (id ∈ ct_id <$> js_filter (λ t, ct_expiresAt t <=? now) l)
    then patch_trigger (status_patch TS_expired) <$> getTrigger id s else getTrigger id s.
Proof.
  revert s. induction l as [|t l IH]; intros s; cbn [foldl js_filter].
  { by rewrite bool_decide_eq_false_2 by apply not_elem_of_nil. }
  destruct (ct_expiresAt t <=? now); [|apply IH]. rewrite IH, getTrigger_patch. csimpl.
  destruct (decide (id = ct_id t)) as [->|Hne].
  - rewrite (bool_decide_eq_true_2 (_ ∈ ct_id t :: _)) by (by left).
    case_bool_decide; [|done]. rewrite <-option_fmap_compose.
    apply option_fmap_ext. intros x. apply patch_trigger_idem.
  - erewrite bool_decide_ext; [reflexivity|]. rewrite elem_of_cons. naive_solver.
Qed.

Lemma all_with_status_page status st :
  getCaptureTriggers (by_status None status) st = take 100 (all_with_status status st).
Proof. apply page_default. Qed.

Lemma all_with_status_elem status st t :
  store_wf st →
  t ∈ all_with_status status st ↔ getCaptureTrigger (ct_id t) st = Some t ∧ ct_status t = status.
Proof.
  intros [_ [Hwf Hid] _]. unfold all_with_status. rewrite js_sort_elem, js_filter_elem.
  unfold trigger_matches. simpl. rewrite bool_decide_eq_true. split.
  - intros [Hs Hv]. split; [|done]. apply jm_values_get in Hv as [k Hk].
    rewrite (Hid _ _ Hk). by apply jm_elem_get.
  - intros [Hg Hs]. split; [done|]. apply jm_values_elem; [done|]. by exists (ct_id t).
Qed.

Lemma all_with_status_NoDup status st : store_wf st → NoDup (all_with_status status st).
Proof.
  intros [_ [Hwf Hid] _]. unfold all_with_status. rewrite js_sort_perm.
  eapply sublist_NoDup; [|apply js_filter_sublist]. apply (NoDup_fmap_1 ct_id).
  assert (Heq : ct_id <$> jm_values (captureTriggers st) = (captureTriggers st).*1).
  { unfold jm_values. revert Hid. generalize (captureTriggers st) as m. clear. intros m Hid.
    induction m as [|[k v] m IH]; csimpl; [done|]. f_equal; [apply Hid; by left|].
    apply IH. intros k' v' Hin. apply Hid. by right. }
  by rewrite Heq.
Qed.

(** *** The polling of anomalies *)
Lemma anomaly_page_list startTime offset st :
  0 ≤ offset →
  getAnomalyEvents (anomaly_poll startTime offset) st
  = take (Z.to_nat pageSize) (drop (Z.to_nat offset)
      (js_sort (by_desc ae_timestamp)
         (js_filter (anomaly_matches (anomaly_poll startTime 0)) (anomalyEvents st)))).
Proof.
  intros Ho. unfold getAnomalyEvents, page. cbn [aq_offset aq_limit anomaly_poll from_option id].
  rewrite js_slice_page by (unfold pageSize; lia). done.
Qed.

(** The pages collected are a prefix of the pending events, newest first. *)
Lemma collect_pages_take fuel startTime offset st l :
  0 ≤ offset →
  l = js_sort (by_desc ae_timestamp)
        (js_filter (anomaly_matches (anomaly_poll startTime 0)) (anomalyEvents st)) →
  (Z.to_nat (maxPerTick - offset) ≤ fuel * 200)%nat → (200 | maxPerTick - offset) →
  collect_pages fuel startTime offset st
  = take (Z.to_nat (maxPerTick - offset)) (drop (Z.to_nat offset) l).
Proof.
  intros Ho Hl. revert offset Ho. induction fuel as [|fuel IH]; intros offset Ho Hf Hdiv.
  { by replace (Z.to_nat (maxPerTick - offset)) with 0%nat by lia. }
  cbn [collect_pages]. destruct (Z.leb_spec maxPerTick offset) as [Hm|Hm].
  { by replace (Z.to_nat (maxPerTick - offset)) with 0%nat by lia. }
  rewrite anomaly_page_list, <-Hl by done.
  destruct Hdiv as [q Hq]. assert (Hq1 : 1 ≤ q) by lia.
  set (rest := drop (Z.to_nat offset) l).
  assert (Hpage : take (Z.to_nat (maxPerTick - offset)) rest
    = take (Z.to_nat pageSize) rest
      ++ take (Z.to_nat (maxPerTick - (offset + pageSize))) (drop (Z.to_nat pageSize) rest)).
  { rewrite take_take_drop. f_equal. unfold pageSize in *. lia. }
  destruct (take (Z.to_nat pageSize) rest) as [|e p] eqn:Ep.
  { assert (Hr : rest = []).
    { destruct rest; [done|]. unfold pageSize in Ep. simpl in Ep. done. }
    rewrite Hr. by rewrite take_nil. }
  rewrite Hpage. destruct (Z.ltb_spec (js_len (e :: p)) pageSize) as [Hs|Hs].
  - rewrite drop_ge; [by rewrite take_nil, app_nil_r|].
    assert (Hlen : length (take (Z.to_nat pageSize) rest) = length (e :: p)) by (by rewrite Ep).
    rewrite length_take in Hlen. unfold js_len, pageSize in *. lia.
  - f_equal. rewrite IH; [|unfold pageSize; lia|unfold pageSize in *; lia|exists (q - 1); unfold pageSize; lia].
    unfold rest. rewrite drop_drop. f_equal. f_equal. unfold pageSize. lia.
Qed.

Lemma collect_anomalies_take s : collect_anomalies s = take 5000 (pending_events s).
Proof.
  unfold collect_anomalies, pending_events.
  rewrite (collect_pages_take 26 _ 0 _ _ ltac:(lia) eq_refl).
  - simpl. by rewrite drop_0.
  - unfold maxPerTick. lia.
  - exists 25. unfold maxPerTick. lia.
Qed.

Lemma foldl_max_ge (l : list StoredAnomalyEvent) m :
  m ≤ foldl (λ m e, Z.max m (ae_timestamp e)) m l ∧
  ∀ e, e ∈ l → ae_timestamp e ≤ foldl (λ m e, Z.max m (ae_timestamp e)) m l.
Proof. apply (max_by_ge ae_timestamp m l). Qed.

Lemma process_events_watermark env l s :
  rg_lastAnomalyAt (for_each l (process_event env) s).2 = rg_lastAnomalyAt s.
Proof.
  revert s. induction l as [|e l IH]; intros s; [done|]. cbn [for_each]. unfold mbind, M_bind.
  assert (H1 : rg_lastAnomalyAt (process_event env e s).2 = rg_lastAnomalyAt s).
  { unfold process_event. destruct (ae_connectionId e) as [[|a c]|]; [done| |done].
    destruct (findActiveTrigger _ _ _ _); [|done]. destruct (_ && _); [|done].
    apply tryFire_rows. }
  destruct (process_event env e s) as [[[]|err] s1]; cbn [snd] in *; [by rewrite IH|done].
Qed.

Lemma pending_elem s e :
  e ∈ pending_events s ↔
  e ∈ anomalyEvents (rg_store s) ∧ (poll_start s = 0 ∨ poll_start s ≤ ae_timestamp e).
Proof.
  unfold pending_events. rewrite js_sort_elem, js_filter_elem. unfold anomaly_matches. simpl.
  unfold when_number, when_some. destruct (Z.eqb_spec (poll_start s) 0); simpl.
  - naive_solver.
  - rewrite !andb_true_r, Z.leb_le. naive_solver.
Qed.

Lemma sweep_now_live now s id t :
  store_wf (rg_store s) →
  (length (all_with_status TS_configured (rg_store s)) ≤ 100)%nat →
  (length (all_with_status TS_queued (rg_store s)) ≤ 100)%nat →
  getTrigger id (sweepExpired now s) = Some t →
  ct_status t = TS_configured ∨ ct_status t = TS_queued → now < ct_expiresAt t.
Proof.
  intros Hwf Hc Hq Hget Hst. unfold sweepExpired in Hget. rewrite sweep_fold_get in Hget.
  case_bool_decide as Hin.
  { destruct (getTrigger id s); [|done]. simplify_eq/=. by destruct Hst. }
  destruct (Z.lt_ge_cases now (ct_expiresAt t)) as [|Hexp]; [done|]. exfalso. apply Hin.
  pose proof (trigger_wf_row _ _ _ Hwf Hget) as Hid.
  apply list_elem_of_fmap. exists t. split; [done|]. apply js_filter_elem. split; [by apply Z.leb_le|].
  rewrite !all_with_status_page, !take_ge by done. apply elem_of_app.
  rewrite !all_with_status_elem, Hid by done. destruct Hst; [left|right]; done.
Qed.

Lemma sweep_kept_beyond now s status t :
  store_wf (rg_store s) →
  t ∈ drop 100 (all_with_status status (rg_store s)) →
  getTrigger (ct_id t) (sweepExpired now s) = Some t.
Proof.
  intros Hwf Hd.
  assert (Ht : t ∈ all_with_status status (rg_store s)) by (by eapply subseteq_drop).
  apply all_with_status_elem in Ht as [Hget Hst]; [|done].
  unfold sweepExpired. rewrite sweep_fold_get. rewrite bool_decide_eq_false_2; [done|].
  intros (t2 & Hid & [_ Hin]%js_filter_elem)%list_elem_of_fmap.
  rewrite !all_with_status_page in Hin.
  assert (Hin2 : ∃ st2, t2 ∈ take 100 (all_with_status st2 (rg_store s))).
  { apply elem_of_app in Hin as [Hin|Hin]; eauto. }
  destruct Hin2 as [st2 Hin2].
  assert (H2 : t2 ∈ all_with_status st2 (rg_store s)) by (by eapply subseteq_take).
  apply all_with_status_elem in H2 as [Hget2 Hst2]; [|done].
  rewrite <-Hid, Hget in Hget2. injection Hget2 as <-. rewrite <-Hst2, Hst in Hin2.
  pose proof (all_with_status_NoDup status (rg_store s) Hwf) as Hnd.
  rewrite <-(take_drop 100) in Hnd. apply NoDup_app in Hnd as (_ & Hdis & _).
  by eapply Hdis.
Qed.

(** A registry with the given trigger rows. *)
Definition sample_trigger (id : string) (created expires : Z) (status : CaptureTriggerStatus)
    : StoredCaptureTrigger :=
  {| ct_id := id; ct_connectionId := "c"; ct_metricType := "memory_used";
     ct_anomalyType := "spike"; ct_expiresAt := expires; ct_createdAt := created;
     ct_createdBy := None; ct_status := status; ct_firedAt := None;
     ct_firedSessionId := None; ct_skipReason := None |}.
Definition registry_of (triggers : list StoredCaptureTrigger) (events : list StoredAnomalyEvent)
    : Registry :=
  {| rg_lastAnomalyAt := 0; rg_ticking := false;
     rg_service := initial_state
       {| captureSessions := []; captureChunks := [];
          captureTriggers := (λ t, (ct_id t, t)) <$> triggers;
          scheduledCaptures := []; anomalyEvents := events |};
     rg_attempts := 0; rg_dispatched := [] |}.
Definition sample_tick : TickEnv :=
  {| tk_gate := sample_gate;
     tk_fire := λ n, {| fe_info := Ok sample_info; fe_gateNow := 1000000;
                        fe_start := sample_env ("s" +:+ string_of_Z (Z.of_nat n));
                        fe_firedAt := 1000001 |};
     tk_sweepNow := 1000000 |}.
Definition sample_event (id : string) (t : Z) : StoredAnomalyEvent :=
  {| ae_id := id; ae_timestamp := t; ae_metricType := "memory_used"; ae_anomalyType := "spike";
     ae_severity := "critical"; ae_value := num_of_Z 1; ae_baseline := num_of_Z 1;
     ae_stdDev := num_of_Z 1; ae_zScore := num_of_Z 1; ae_threshold := num_of_Z 1;
     ae_message := "m"; ae_correlationId := None; ae_relatedMetrics := None;
     ae_resolved := false; ae_resolvedAt := None; ae_durationMs := None;
     ae_sourceHost := None; ae_sourcePort := None; ae_connectionId := Some "c" |}.

Lemma registry_of_wf triggers events :
  NoDup (ct_id <$> triggers) → store_wf (rg_store (registry_of triggers events)).
Proof.
  intros Hnd. split; [apply keyed_nil| |apply keyed_nil]. split; simpl.
  - unfold jm_wf. rewrite <-list_fmap_compose. exact Hnd.
  - intros k v (t & [= -> ->] & _)%list_elem_of_fmap. done.
Qed.

(** ** Properties *)



(** After the expiry step of a tick, every trigger still waiting to fire has
    its expiry ahead of the clock, as long as at most one page of triggers is
    configured and at most one page queued. *)
Theorem sweep_leaves_unexpired now s id t :
  store_wf (rg_store s) →
  (length (all_with_status TS_configured (rg_store s)) ≤ 100)%nat →
  (length (all_with_status TS_queued (rg_store s)) ≤ 100)%nat →
  getTrigger id (sweepExpired now s) = Some t →
  ct_status t = TS_configured ∨ ct_status t = TS_queued → now < ct_expiresAt t.
Proof. apply sweep_now_live. Qed.

Lemma sweep_leaves_unexpired_witness : 20 < 30.
Proof.
  apply (sweep_leaves_unexpired 20 (registry_of [sample_trigger "a" 1 10 TS_configured;
    sample_trigger "b" 2 30 TS_configured] []) "b" (sample_trigger "b" 2 30 TS_configured)).
  - apply registry_of_wf. apply (bool_decide_unpack _). reflexivity.
  - apply (bool_decide_unpack _). reflexivity.
  - apply (bool_decide_unpack _). reflexivity.
  - reflexivity.
  - by left.
Defined.

(** The sweep reads one default page: a configured or queued trigger behind
    the hundred newest of its status is left as it is, expired or not, whatever
    the clock. *)
Theorem sweep_misses_older_triggers now s status t :
  store_wf (rg_store s) →
  t ∈ drop 100 (all_with_status status (rg_store s)) →
  getTrigger (ct_id t) (sweepExpired now s) = Some t.
Proof. apply sweep_kept_beyond. Qed.

Definition many_triggers : list StoredCaptureTrigger :=
  (λ i, sample_trigger (string_of_Z i) i 10 TS_configured) <$> seqZ 1 101.

Lemma sweep_misses_older_triggers_witness :
  getTrigger "1" (sweepExpired 1000 (registry_of many_triggers []))
  = Some (sample_trigger "1" 1 10 TS_configured).
Proof.
  apply (sweep_misses_older_triggers 1000 _ TS_configured (sample_trigger "1" 1 10 TS_configured)).
  - apply registry_of_wf. apply (bool_decide_unpack _). vm_compute. exact I.
  - assert (Hd : drop 100 (all_with_status TS_configured (rg_store (registry_of many_triggers [])))
      = [sample_trigger "1" 1 10 TS_configured]) by (vm_compute; reflexivity).
    rewrite Hd. left.
Defined.

(** A poll that looks at the pending anomalies looks at all of them when
    there are at most [maxPerTick]: the pages it walks put together are exactly
    the events after the watermark, newest first. *)
Theorem poll_collects_pending s :
  collect_anomalies s = take 5000 (pending_events s)
  ∧ ((length (pending_events s) ≤ 5000)%nat → collect_anomalies s = pending_events s)
  ∧ ∀ e, e ∈ pending_events s ↔
      e ∈ anomalyEvents (rg_store s) ∧ (poll_start s = 0 ∨ poll_start s ≤ ae_timestamp e).
Proof.
  rewrite collect_anomalies_take. split_and!; [done| |by intros; apply pending_elem].
  intros H. by apply take_ge.
Qed.

(** Past [maxPerTick] the oldest anomalies are lost, not deferred: an event
    beyond the newest 5000 is not looked at by the poll, and once the poll
    returns, the watermark has passed it, so no later poll with that watermark
    or a higher one looks at it either. *)
Theorem backlog_overflow_lost env s s1 s2 e :
  e ∈ drop 5000 (pending_events s) → 0 < ae_timestamp e →
  processNewAnomalies env s = (Ok tt, s1) →
  rg_lastAnomalyAt s1 ≤ rg_lastAnomalyAt s2 →
  NoDup (pending_events s) →
  (e ∉ collect_anomalies s) ∧ (e ∉ pending_events s2).
Proof.
  intros Hd Hpos Hrun Hmono Hnd. rewrite collect_anomalies_take.
  rewrite <-(take_drop 5000) in Hnd. apply NoDup_app in Hnd as (_ & Hdis & _).
  split; [intros Hin; by eapply Hdis|].
  assert (Hne : take 5000 (pending_events s) ≠ []).
  { intros Hn. assert (Hl : length (take 5000 (pending_events s)) = 0%nat) by (by rewrite Hn).
    rewrite length_take in Hl. destruct (pending_events s); [by apply elem_of_nil in Hd|done]. }
  assert (Hmark : ae_timestamp e ≤ rg_lastAnomalyAt s1).
  { unfold processNewAnomalies in Hrun. rewrite collect_anomalies_take in Hrun.
    destruct (take 5000 (pending_events s)) as [|x l] eqn:El; [done|].
    unfold mbind, M_bind in Hrun.
    destruct (for_each _ _ s) as [[[]|err] s'] in Hrun; [|done].
    unfold modify in Hrun. simplify_eq. cbn [rg_lastAnomalyAt set_lastAnomalyAt].
    assert (Hx : ae_timestamp e ≤ ae_timestamp x).
    { apply (sorted_take_drop (λ a b, ae_timestamp b ≤ ae_timestamp a) (pending_events s) 5000);
        [apply js_sort_desc_sorted|rewrite El; left|done]. }
    destruct (foldl_max_ge (js_sort (by_asc ae_timestamp) (x :: l)) (rg_lastAnomalyAt s)) as [_ Hall].
    specialize (Hall x). rewrite js_sort_elem in Hall. specialize (Hall (list_elem_of_here _ _)). lia. }
  rewrite pending_elem. intros [_ Hp]. unfold poll_start in Hp.
  destruct (Z.eqb_spec (rg_lastAnomalyAt s2) 0); lia.
Qed.

(** 5001 events of one moment. *)
Definition backlog : list StoredAnomalyEvent :=
  (λ i, sample_event (string_of_Z i) 7) <$> seqZ 1 5001.

Lemma backlog_NoDup : NoDup (pending_events (registry_of [] backlog)).
Proof.
  unfold pending_events. rewrite js_sort_perm.
  eapply sublist_NoDup; [|apply js_filter_sublist].
  apply NoDup_fmap_2_strong; [|apply NoDup_seqZ].
  intros i j Hi Hj [= Hs]. apply elem_of_seqZ in Hi, Hj.
  rewrite <-(digits_value_string i), <-(digits_value_string j) by lia. by rewrite Hs.
Qed.

Lemma backlog_drop :
  drop 5000 (pending_events (registry_of [] backlog)) = [sample_event "5001" 7].
Proof. vm_compute. reflexivity. Qed.

Lemma backlog_run :
  processNewAnomalies sample_tick (registry_of [] backlog)
  = (Ok tt, (processNewAnomalies sample_tick (registry_of [] backlog)).2).
Proof.
  assert (Hok : (processNewAnomalies sample_tick (registry_of [] backlog)).1 = Ok tt)
    by (vm_compute; reflexivity).
  rewrite <-Hok. apply surjective_pairing.
Qed.

Lemma backlog_overflow_lost_witness :
  sample_event "5001" 7 ∉ collect_anomalies (registry_of [] backlog).
Proof.
  refine (proj1 (backlog_overflow_lost sample_tick (registry_of [] backlog)
    (processNewAnomalies sample_tick (registry_of [] backlog)).2
    (processNewAnomalies sample_tick (registry_of [] backlog)).2 (sample_event "5001" 7)
    _ eq_refl backlog_run (Z.le_refl _) backlog_NoDup)).
  rewrite backlog_drop. left.
Defined.

(** A tick always leaves the registry ready for the next one: the
    re-entrancy flag is down whatever happened, and when the anomaly step throws
    the watermark has not moved, so its events are polled again. *)
Theorem tick_recovers env s :
  rg_ticking s = false →
  rg_ticking (tick env s).2 = false
  ∧ ∀ e, (processNewAnomalies env s).1 = Throw e →
      rg_lastAnomalyAt (processNewAnomalies env s).2 = rg_lastAnomalyAt s.
Proof.
  intros Hs. split.
  - unfold tick. rewrite Hs.
    match goal with |- context [let '(_, _) := ?x in _] => by destruct x end.
  - intros e. unfold processNewAnomalies. destruct (collect_anomalies s); [done|].
    pose proof (process_events_watermark env (js_sort (by_asc ae_timestamp) (s0 :: l)) s) as Hw.
    unfold mbind, M_bind. by destruct (for_each _ _ s) as [[[]|err] s1].
Qed.

Lemma tick_recovers_witness :
  rg_ticking (tick sample_tick
    (registry_of [sample_trigger "t" 5 2000000 TS_configured] [sample_event "e" 10])).2 = false.
Proof. apply (tick_recovers sample_tick); reflexivity. Defined.

Lemma startSession_ok env input s session s' :
  si_fanOut input = false →
  startSession env input s = (Ok session, s') →
  session = initial_session env input []
  ∧ getSession (cs_id session) s' = Some session
  ∧ hasActiveSessionOn (si_connectionId input) s = false
  ∧ hasActiveSessionOn (si_connectionId input) s' = true.
Proof.
  intros Hf. unfold startSession, mbind, M_bind, start_check.
  destruct (hasActiveSessionOn (si_connectionId input) s) eqn:Hb; [done|].
  cbn [start_insert]. rewrite Hf. unfold start_open, startSingleSession. cbn [fst snd].
  destruct (se_open env (si_targetNodeId input)) as [|e]; [|done]. intros [= <- <-].
  split_and!; try done.
  - unfold getSession, getCaptureSession. simpl. by rewrite jm_get_set_eq.
  - unfold hasActiveSessionOn. simpl. apply jm_has_set. by left.
Qed.

Lemma getSession_patch sid id p s :
  getSession sid (rg_service (patch id p s)) = getSession sid (rg_service s).
Proof.
  unfold getSession, patch. simpl. unfold getCaptureSession, updateCaptureTrigger.
  by destruct (jm_get id _).
Qed.

(** A trigger that a fire attempt marks fired has its capture: the gate
    allowed it on the store of that moment, the connection was free and is now
    active, and the session recorded on the trigger is a running session of that
    trigger on that connection. *)
Theorem tryFire_fired env t s old row' :
  getTrigger (ct_id t) s = Some old → ct_status old ≠ TS_fired →
  getTrigger (ct_id t) (tryFire env t s).2 = Some row' → ct_status row' = TS_fired →
  (∃ gate, gate_of env (tk_fire env (rg_attempts s)) (ct_connectionId t) s = Ok gate
           ∧ hr_allow gate = true)
  ∧ hasActiveSessionOn (ct_connectionId t) (rg_service s) = false
  ∧ hasActiveSessionOn (ct_connectionId t) (rg_service (tryFire env t s).2) = true
  ∧ ∃ sid session, ct_firedSessionId row' = Some sid
    ∧ getSession sid (rg_service (tryFire env t s).2) = Some session
    ∧ cs_status session = CS_running ∧ cs_triggerId session = Some (ct_id t)
    ∧ cs_connectionId session = ct_connectionId t ∧ cs_source session = Src_trigger.
Proof.
  intros Hold Hnf. unfold tryFire. change (gate_of env ?fe ?c (count_attempt s)) with (gate_of env fe c s).
  destruct (gate_of _ _ _ _) as [gate|e].
  2:{ intros H1. change (getTrigger (ct_id t) s = Some row') in H1. congruence. }
  assert (Hp : ∀ p s', getTrigger (ct_id t) s' = Some old → ctp_status p ≠ Some TS_fired →
    getTrigger (ct_id t) (patch (ct_id t) p s') = Some row' → ct_status row' = TS_fired → False).
  { intros p s' Ho Hps. rewrite getTrigger_patch, decide_True, Ho by done. intros [= <-]. simpl.
    destruct (ctp_status p) as [st|]; simpl; [|done]. by intros ->. }
  destruct (hr_allow gate) eqn:Ha; cbn [negb snd].
  2:{ intros H1 H2. exfalso.
      match type of H1 with getTrigger _ (announce _ (patch _ ?p ?s')) = _ =>
        apply (Hp p s'); [exact Hold|done|exact H1|exact H2] end. }
  change (rg_service (count_attempt s)) with (rg_service s).
  destruct (hasActiveSessionOn (ct_connectionId t) (rg_service s)) eqn:Hb.
  { cbn [snd]. destruct (bool_decide _); intros H1 H2; exfalso;
      [|by apply (Hp (status_patch TS_queued) (count_attempt s))].
    change (getTrigger (ct_id t) s = Some row') in H1. congruence. }
  match goal with |- context [startSession ?e ?i ?m] =>
    destruct (startSession_frame e i m) as (Ht & _);
    destruct (startSession e i m) as [[session|m'] svc] eqn:Es end; cbn [fst snd] in *.
  - apply startSession_ok in Es as (-> & Hget & _ & Hact); [|done].
    intros H1 _. rewrite getTrigger_patch, decide_True in H1 by done.
    assert (Hs : getTrigger (ct_id t) (with_service (λ _, svc) (count_attempt s)) = Some old)
      by (unfold getTrigger, getCaptureTrigger, rg_store; simpl; by rewrite Ht).
    rewrite Hs in H1. injection H1 as <-. split_and!; [by exists gate|done|done|].
    eexists _, _. split; [reflexivity|].
    rewrite getSession_patch. split; [exact Hget|done].
  - assert (Hs : getTrigger (ct_id t) (with_service (λ _, svc) (count_attempt s)) = Some old)
      by (unfold getTrigger, getCaptureTrigger, rg_store; simpl; by rewrite Ht).
    intros H1 H2. exfalso. revert H1 H2.
    destruct (includes _ m'); cbn [snd]; intros H1 H2;
      (eapply Hp; [exact Hs| |exact H1|exact H2]; done).
Qed.

Lemma tryFire_fired_witness :
  hasActiveSessionOn "c" (rg_service (tryFire sample_tick (sample_trigger "t" 5 9 TS_configured)
    (registry_of [sample_trigger "t" 5 9 TS_configured] [])).2) = true.
Proof.
  refine (proj1 (proj2 (proj2 (tryFire_fired sample_tick (sample_trigger "t" 5 9 TS_configured)
    (registry_of [sample_trigger "t" 5 9 TS_configured] [])
    (sample_trigger "t" 5 9 TS_configured) _ eq_refl ltac:(done) eq_refl _)))).
  reflexivity.
Defined.

(** A fire attempt trusts the trigger it was handed: started from a copy read
    before the user cancelled, it captures anyway and overwrites the cancelled
    row with fired. *)
Theorem stale_fire_overrides_cancel :
  ∃ s t s1,
    getTrigger "t" s = Some t ∧ ct_status t = TS_configured
    ∧ cancelTrigger "t" s = (true, s1)
    ∧ (∃ t1, getTrigger "t" s1 = Some t1 ∧ ct_status t1 = TS_cancelled)
    ∧ ∃ t2, getTrigger "t" (tryFire sample_tick t s1).2 = Some t2 ∧ ct_status t2 = TS_fired.
Proof.
  exists (registry_of [sample_trigger "t" 5 9 TS_configured] []),
    (sample_trigger "t" 5 9 TS_configured),
    (cancelTrigger "t" (registry_of [sample_trigger "t" 5 9 TS_configured] [])).2.
  split_and!; [reflexivity..| |]; eexists; split; reflexivity.
Qed.
