(* ===== verification/CaptureScheduler.v ===== *)
(** * Scheduled captures

    [apps/api/src/monitor/capture-scheduler.ts].  The state adds Nest's
    [SchedulerRegistry] to the capture service: the interval and cron timers by
    name, each with the schedule its callback closes over.  The [cron] package is
    third party: [cron_error] is the error its constructor throws on an
    expression, if any. *)
From S2P Require Export CaptureTriggers.
From stdpp Require Import options.

(** ** Definitions *)
Definition INTERVAL_PREFIX : string := "monitor-schedule-interval-".
Definition CRON_PREFIX : string := "monitor-schedule-cron-".
Definition MIN_INTERVAL_SECONDS : number := num_of_Z 10.
Definition MAX_INTERVAL_SECONDS : number := num_of_Z (24 * 60 * 60).
Definition MIN_DURATION_MS : number := num_of_Z 500.
Definition MAX_DURATION_MS : number := num_of_Z (15 * 60 * 1000).

Record CreateScheduleInput := {
  csi_connectionId : string;
  csi_intervalSeconds : option number;
  csi_cronExpression : option string;
  csi_durationMs : number;
  csi_createdBy : option string
}.

Record Scheduler := {
  sd_service : MonitorState;
  sd_intervals : list (string * StoredScheduledCapture);
  sd_crons : list (string * StoredScheduledCapture)
}.
Definition sd_store (s : Scheduler) : CaptureStore := ms_store (sd_service s).

Definition sd_with_service (f : MonitorState → MonitorState) (s : Scheduler) : Scheduler :=
  {| sd_service := f (sd_service s); sd_intervals := sd_intervals s; sd_crons := sd_crons s |}.
Definition sd_with_intervals
    (f : list (string * StoredScheduledCapture) → list (string * StoredScheduledCapture))
    (s : Scheduler) : Scheduler :=
  {| sd_service := sd_service s; sd_intervals := f (sd_intervals s); sd_crons := sd_crons s |}.
Definition sd_with_crons
    (f : list (string * StoredScheduledCapture) → list (string * StoredScheduledCapture))
    (s : Scheduler) : Scheduler :=
  {| sd_service := sd_service s; sd_intervals := sd_intervals s; sd_crons := f (sd_crons s) |}.

Definition intervalName (id : string) : string := INTERVAL_PREFIX +:+ id.
Definition cronName (id : string) : string := CRON_PREFIX +:+ id.

Section scheduler.
Context (cron_error : string → option string).

Definition validateInterval (seconds : number) : option string :=
  if negb (is_finite seconds) || num_ltb seconds MIN_INTERVAL_SECONDS
  then Some "intervalSeconds must be at least 10"
  else if num_ltb MAX_INTERVAL_SECONDS seconds
  then Some "intervalSeconds must be at most 86400"
  else None.

Definition validateCron (expression : string) : option string :=
  match cron_error expression with
  | Some e => Some ("Invalid cron expression: " +:+ e)
  | None => None
  end.

Definition validateScheduleSpec (input : CreateScheduleInput) : option string :=
  match csi_intervalSeconds input, csi_cronExpression input with
  | Some seconds, None => validateInterval seconds
  | None, Some expression => validateCron expression
  | _, _ => Some "Exactly one of intervalSeconds or cronExpression must be provided"
  end.

Definition validateDuration (ms : number) : option string :=
  if negb (is_finite ms) || num_ltb ms MIN_DURATION_MS
  then Some "durationMs must be at least 500"
  else if num_ltb MAX_DURATION_MS ms
  then Some "durationMs must be at most 900000"
  else None.

(** [registerCronJob]: the constructor throws on a bad expression after the old
    job of the name is gone. *)
Definition registerCronJob (schedule : StoredScheduledCapture) (expression : string)
    : M Scheduler string unit := λ s,
  let name := cronName (sc_id schedule) in
  let s := if jm_has name (sd_crons s) then sd_with_crons (jm_delete name) s else s in
  match cron_error expression with
  | Some e => (Throw e, s)
  | None => (Ok tt, sd_with_crons (jm_set name schedule) s)
  end.

Definition registerTimer (schedule : StoredScheduledCapture) : M Scheduler string unit := λ s,
  match sc_cronExpression schedule with
  | Some (String _ _ as expression) => registerCronJob schedule expression s
  | _ =>
      match sc_intervalSeconds schedule with
      | None =>
          (Throw ("Schedule " +:+ sc_id schedule +:+
                  " has neither intervalSeconds nor cronExpression"), s)
      | Some _ =>
          let name := intervalName (sc_id schedule) in
          let s := if jm_has name (sd_intervals s) then sd_with_intervals (jm_delete name) s else s in
          (Ok tt, sd_with_intervals (jm_set name schedule) s)
      end
  end.

Definition unregisterTimer (id : string) (s : Scheduler) : Scheduler :=
  let intervalKey := intervalName id in
  let s := if jm_has intervalKey (sd_intervals s)
           then sd_with_intervals (jm_delete intervalKey) s else s in
  let cronKey := cronName id in
  if jm_has cronKey (sd_crons s) then sd_with_crons (jm_delete cronKey) s else s.

Definition new_schedule (id : string) (now : Z) (input : CreateScheduleInput)
    : StoredScheduledCapture :=
  {| sc_id := id; sc_connectionId := csi_connectionId input;
     sc_intervalSeconds := csi_intervalSeconds input;
     sc_cronExpression := csi_cronExpression input;
     sc_durationMs := csi_durationMs input; sc_status := SS_enabled; sc_createdAt := now;
     sc_createdBy := csi_createdBy input; sc_lastFiredAt := None;
     sc_lastFiredSessionId := None; sc_lastSkipReason := None |}.

Definition createSchedule (id : string) (now : Z) (input : CreateScheduleInput)
    : M Scheduler string StoredScheduledCapture := λ s,
  match validateScheduleSpec input with
  | Some e => (Throw e, s)
  | None =>
      match validateDuration (csi_durationMs input) with
      | Some e => (Throw e, s)
      | None =>
          let schedule := new_schedule id now input in
          let s := sd_with_service (with_store (saveScheduledCapture schedule)) s in
          match registerTimer schedule s with
          | (Ok _, s) => (Ok schedule, s)
          | (Throw e, s) =>
              (Throw e, sd_with_service (with_store (λ st, (deleteScheduledCapture id st).2)) s)
          end
      end
  end.

Definition deleteSchedule (id : string) : M Scheduler string bool := λ s,
  match getScheduledCapture id (sd_store s) with
  | None => (Throw ("Schedule " +:+ id +:+ " not found"), s)
  | Some _ =>
      let s := unregisterTimer id s in
      (Ok (deleteScheduledCapture id (sd_store s)).1,
       sd_with_service (with_store (λ st, (deleteScheduledCapture id st).2)) s)
  end.

Definition listSchedules (options : ScheduledCaptureQueryOptions) (s : Scheduler)
    : list StoredScheduledCapture := getScheduledCaptures options (sd_store s).
Definition getSchedule (id : string) (s : Scheduler) : option StoredScheduledCapture :=
  getScheduledCapture id (sd_store s).

Definition enabled_query : ScheduledCaptureQueryOptions :=
  {| scq_connectionId := None; scq_status := Some SS_enabled; scq_limit := None;
     scq_offset := None |}.

(** [onModuleInit] with [autoStart]. *)
Definition onModuleInit : M Scheduler string unit := λ s,
  for_each (getScheduledCaptures enabled_query (sd_store s)) registerTimer s.

(** [onModuleDestroy] *)
Definition onModuleDestroy (s : Scheduler) : Scheduler :=
  sd_with_crons (js_filter (λ kv, negb (starts_with CRON_PREFIX kv.1)))
    (sd_with_intervals (js_filter (λ kv, negb (starts_with INTERVAL_PREFIX kv.1))) s).

Definition skip_reason_patch (reason : string) : ScheduledCapturePatch :=
  {| scp_status := None; scp_intervalSeconds := None; scp_cronExpression := None;
     scp_durationMs := None; scp_lastFiredAt := None; scp_lastFiredSessionId := None;
     scp_lastSkipReason := Some (Some reason) |}.
(** [lastSkipReason: undefined] is set explicitly. *)
Definition fired_schedule_patch (now : Z) (sessionId : string) : ScheduledCapturePatch :=
  {| scp_status := None; scp_intervalSeconds := None; scp_cronExpression := None;
     scp_durationMs := None; scp_lastFiredAt := Some (Some now);
     scp_lastFiredSessionId := Some (Some sessionId); scp_lastSkipReason := Some None |}.

Definition sd_patch (id : string) (p : ScheduledCapturePatch) (s : Scheduler) : Scheduler :=
  sd_with_service (with_store (λ st, (updateScheduledCapture id p st).2)) s.

(** [tick(schedule)]: one firing of a timer. *)
Definition schedule_tick (gate : HealthGateConfig) (fe : FireEnv)
    (schedule : StoredScheduledCapture) : M Scheduler string unit := λ s,
  if hasActiveSessionOn (sc_connectionId schedule) (sd_service s) then
    (Ok tt, sd_patch (sc_id schedule) (skip_reason_patch "session_already_active") s)
  else
    match fe_info fe with
    | Throw e => (Throw e, s)
    | Ok info =>
        let g := evaluate gate (sc_connectionId schedule) info (fe_gateNow fe) (sd_store s) in
        if negb (hr_allow g) then
          let reason := match hr_skipReason g with
                        | Some r => skip_reason_text r
                        | None => "health_gate_blocked"
                        end in
          (Ok tt, sd_patch (sc_id schedule) (skip_reason_patch reason) s)
        else
          let input := {| si_connectionId := sc_connectionId schedule;
                          si_durationMs := Some (sc_durationMs schedule);
                          si_byteCap := None; si_lineCap := None; si_source := Some Src_schedule;
                          si_triggerId := None; si_scheduleId := Some (sc_id schedule);
                          si_requestedBy := None; si_targetNodeId := None; si_fanOut := false |} in
          let '(r, svc) := startSession (fe_start fe) input (sd_service s) in
          let s := sd_with_service (λ _, svc) s in
          match r with
          | Ok session =>
              (Ok tt, sd_patch (sc_id schedule) (fired_schedule_patch (fe_firedAt fe) (cs_id session)) s)
          | Throw message =>
              (Ok tt, sd_patch (sc_id schedule) (skip_reason_patch ("start_failed: " +:+ message)) s)
          end
    end.

Definition fireOnce (gate : HealthGateConfig) (fe : FireEnv) (id : string)
    : M Scheduler string unit := λ s,
  match getScheduledCapture id (sd_store s) with
  | None => (Ok tt, s)
  | Some schedule => schedule_tick gate fe schedule s
  end.

(** *** Specification *)

(** The specs a schedule may have. *)
Definition spec_ok (input : CreateScheduleInput) : Prop :=
  match csi_intervalSeconds input, csi_cronExpression input with
  | Some sec, None =>
      is_finite sec = true ∧ num_ltb sec MIN_INTERVAL_SECONDS = false
      ∧ num_ltb MAX_INTERVAL_SECONDS sec = false
  | None, Some e => cron_error e = None
  | _, _ => False
  end
  ∧ is_finite (csi_durationMs input) = true
  ∧ num_ltb (csi_durationMs input) MIN_DURATION_MS = false
  ∧ num_ltb MAX_DURATION_MS (csi_durationMs input) = false.

Definition has_timer (id : string) (s : Scheduler) : bool :=
  jm_has (intervalName id) (sd_intervals s) || jm_has (cronName id) (sd_crons s).

(** Storage and timers agree. *)
Definition in_sync (s : Scheduler) : Prop :=
  ∀ id, has_timer id s = true ↔ ∃ row, getSchedule id s = Some row.

(** What happens to the scheduler between start and stop. *)
Inductive scheduler_op : Scheduler → Scheduler → Prop :=
  | so_create id now input s :
      getSchedule id s = None → scheduler_op s (createSchedule id now input s).2
  | so_delete id s : scheduler_op s (deleteSchedule id s).2
  | so_tick gate fe schedule s :
      scheduler_op s (schedule_tick gate fe schedule s).2
  | so_fire gate fe id s : scheduler_op s (fireOnce gate fe id s).2.
End scheduler.

(** Standard cron expressions have five fields. *)
Definition sample_cron_error (e : string) : option string :=
  if (length (ws_tokens e) =? 5)%nat then None else Some "Unknown field count".
Definition no_timers (st : CaptureStore) : Scheduler :=
  {| sd_service := initial_state st; sd_intervals := []; sd_crons := [] |}.
Definition sample_schedule_input : CreateScheduleInput :=
  {| csi_connectionId := "c"; csi_intervalSeconds := Some (num_of_Z 60);
     csi_cronExpression := None; csi_durationMs := num_of_Z 1000; csi_createdBy := None |}.

(** ** Lemmas *)
Lemma starts_with_inj p x y : p +:+ x = p +:+ y → x = y.
Proof. induction p as [|a p IH]; simpl; [done|]. intros [= H]. by apply IH. Qed.

Lemma intervalName_inj x y : intervalName x = intervalName y → x = y.
Proof. apply starts_with_inj. Qed.
Lemma cronName_inj x y : cronName x = cronName y → x = y.
Proof. apply starts_with_inj. Qed.

Lemma validate_spec_ok cron_error input :
  validateScheduleSpec cron_error input = None ∧ validateDuration (csi_durationMs input) = None
  ↔ spec_ok cron_error input.
Proof.
  unfold validateScheduleSpec, validateDuration, validateInterval, validateCron, spec_ok.
  destruct (csi_intervalSeconds input) as [sec|], (csi_cronExpression input) as [e|];
    try (split; [by intros [? ?]|by intros [[] ?]]).
  - destruct (is_finite sec), (num_ltb sec _), (num_ltb _ sec), (is_finite (csi_durationMs _)),
      (num_ltb (csi_durationMs _) _), (num_ltb _ (csi_durationMs _)); simpl; naive_solver.
  - destruct (cron_error e), (is_finite (csi_durationMs _)),
      (num_ltb (csi_durationMs _) _), (num_ltb _ (csi_durationMs _)); simpl; naive_solver.
Qed.

Lemma jm_delete_absent {V} (k : string) (m : list (string * V)) :
  jm_has k m = false → jm_delete k m = m.
Proof.
  unfold jm_has, jm_delete. induction m as [|[k' v] m IH]; csimpl; [done|].
  rewrite filter_cons. csimpl. destruct (decide (k = k')); [done|]. intros H.
  rewrite decide_True by congruence. by rewrite IH.
Qed.

(** Deleting a name before setting it changes no lookup. *)
Lemma has_replace {V} (k k' : string) (v : V) m :
  jm_has k (jm_set k' v (if jm_has k' m then jm_delete k' m else m)) = true
  ↔ k = k' ∨ jm_has k m = true.
Proof.
  rewrite jm_has_set. destruct (jm_has k' m) eqn:E; [|done].
  rewrite jm_has_delete. destruct (decide (k = k')); naive_solver.
Qed.

Lemma has_remove {V} (k k' : string) (m : list (string * V)) :
  jm_has k (if jm_has k' m then jm_delete k' m else m) = true ↔ k ≠ k' ∧ jm_has k m = true.
Proof.
  destruct (jm_has k' m) eqn:E; [apply jm_has_delete|]. split; [|by intros [_ ?]].
  intros H. split; [|done]. intros ->. congruence.
Qed.

(** Registering a timer never fails after validation and adds that timer. *)
Lemma registerTimer_ok cron_error id now input s :
  spec_ok cron_error input →
  (∀ e, csi_cronExpression input = Some e → is_empty e = false) →
  ∃ s', registerTimer cron_error (new_schedule id now input) s = (Ok tt, s')
    ∧ sd_service s' = sd_service s
    ∧ ∀ id', has_timer id' s' = true ↔ id' = id ∨ has_timer id' s = true.
Proof.
  intros [Hspec _] Hne. unfold registerTimer, registerCronJob, has_timer. simpl.
  destruct (csi_intervalSeconds input) as [sec|], (csi_cronExpression input) as [e|]; try done.
  - eexists. split; [reflexivity|]. split; [by destruct (jm_has _ _)|]. intros id'.
    assert (Hc : sd_crons (if jm_has (intervalName id) (sd_intervals s)
      then sd_with_intervals (jm_delete (intervalName id)) s else s) = sd_crons s)
      by (by destruct (jm_has _ _)).
    assert (Hi : sd_intervals (if jm_has (intervalName id) (sd_intervals s)
      then sd_with_intervals (jm_delete (intervalName id)) s else s)
      = if jm_has (intervalName id) (sd_intervals s)
        then jm_delete (intervalName id) (sd_intervals s) else sd_intervals s)
      by (by destruct (jm_has _ _)).
    simpl. rewrite Hc, Hi, !orb_true_iff, has_replace.
    split; [intros [[?%intervalName_inj|?]|?]; tauto|intros [->|[?|?]]; tauto].
  - specialize (Hne e eq_refl). destruct e as [|a e']; [done|]. rewrite Hspec.
    eexists. split; [reflexivity|]. split; [by destruct (jm_has _ _)|]. intros id'.
    assert (Hi : sd_intervals (if jm_has (cronName id) (sd_crons s)
      then sd_with_crons (jm_delete (cronName id)) s else s) = sd_intervals s)
      by (by destruct (jm_has _ _)).
    assert (Hc : sd_crons (if jm_has (cronName id) (sd_crons s)
      then sd_with_crons (jm_delete (cronName id)) s else s)
      = if jm_has (cronName id) (sd_crons s)
        then jm_delete (cronName id) (sd_crons s) else sd_crons s)
      by (by destruct (jm_has _ _)).
    simpl. rewrite Hc, Hi, !orb_true_iff, has_replace.
    split; [intros [?|[?%cronName_inj|?]]; tauto|intros [->|[?|?]]; tauto].
Qed.

Lemma unregisterTimer_spec id id' s :
  sd_service (unregisterTimer id s) = sd_service s
  ∧ (has_timer id' (unregisterTimer id s) = true ↔ id' ≠ id ∧ has_timer id' s = true).
Proof.
  unfold unregisterTimer, has_timer.
  set (s1 := if jm_has (intervalName id) (sd_intervals s) then _ else s).
  assert (Hs1 : sd_service s1 = sd_service s ∧ sd_crons s1 = sd_crons s ∧
    sd_intervals s1 = if jm_has (intervalName id) (sd_intervals s)
      then jm_delete (intervalName id) (sd_intervals s) else sd_intervals s)
    by (unfold s1; by destruct (jm_has _ _)).
  destruct Hs1 as (H1 & H2 & H3). rewrite H2.
  assert (Hs2 : let s2 := if jm_has (cronName id) (sd_crons s)
      then sd_with_crons (jm_delete (cronName id)) s1 else s1 in
    sd_service s2 = sd_service s ∧ sd_intervals s2 = sd_intervals s1 ∧
    sd_crons s2 = if jm_has (cronName id) (sd_crons s)
      then jm_delete (cronName id) (sd_crons s) else sd_crons s)
    by (destruct (jm_has (cronName id) _); simpl; by rewrite ?H2).
  destruct Hs2 as (H4 & H5 & H6). split; [done|].
  rewrite H5, H6, H3, !orb_true_iff, !has_remove.
  split; [|naive_solver].
  intros [[Hne ?]|[Hne ?]]; (split; [congruence|tauto]).
Qed.

Lemma getSchedule_patch id id' p s :
  getSchedule id (sd_patch id' p s)
  = if decide (id = id') then patch_schedule p <$> getSchedule id s else getSchedule id s.
Proof. unfold getSchedule, sd_patch, sd_store. simpl. apply getScheduledCapture_update. Qed.

Lemma startSession_schedules env input s :
  scheduledCaptures (ms_store (startSession env input s).2) = scheduledCaptures (ms_store s).
Proof.
  unfold startSession, mbind, M_bind, start_check.
  destruct (hasActiveSessionOn _ s); [done|]. cbn [start_insert]. unfold start_open.
  cbn [fst snd]. set (nodes := if si_fanOut input then _ else _).
  destruct nodes.
  - unfold startSingleSession. destruct (se_open env _); [done|]. simpl.
    unfold updateCaptureSession. by destruct (jm_get _ _).
  - unfold startFanOutSession. by destruct (open_nodes env _ _ _ _ _).
Qed.

(** A tick changes rows but neither adds nor removes schedules or timers. *)
Lemma in_sync_frame s s' :
  (∀ id, has_timer id s' = has_timer id s) →
  (∀ id, (∃ row, getSchedule id s' = Some row) ↔ ∃ row, getSchedule id s = Some row) →
  in_sync s → in_sync s'.
Proof. intros Ht Hg Hs id. by rewrite Ht, Hg. Qed.

Lemma in_sync_patch id p s : in_sync s → in_sync (sd_patch id p s).
Proof.
  apply in_sync_frame; [done|]. intros id'. rewrite getSchedule_patch.
  case_decide; [|done]. destruct (getSchedule id' s); simpl; naive_solver.
Qed.

Lemma schedule_tick_sync gate fe schedule s :
  in_sync s → in_sync (schedule_tick gate fe schedule s).2.
Proof.
  intros Hs. unfold schedule_tick. destruct (hasActiveSessionOn _ _); [by apply in_sync_patch|].
  destruct (fe_info fe) as [info|e]; [|done].
  destruct (negb _); [by apply in_sync_patch|].
  match goal with |- context [startSession ?e ?i ?m] =>
    pose proof (startSession_schedules e i m) as Hsch; destruct (startSession e i m) as [r svc] end.
  assert (H1 : in_sync (sd_with_service (λ _, svc) s)).
  { revert Hs. apply in_sync_frame; [done|]. intros id. unfold getSchedule, getScheduledCapture, sd_store.
    simpl in *. by rewrite Hsch. }
  destruct r; by apply in_sync_patch.
Qed.

Lemma spec_ok_dec cron_error input : {spec_ok cron_error input} + {¬ spec_ok cron_error input}.
Proof.
  destruct (decide (validateScheduleSpec cron_error input = None
    ∧ validateDuration (csi_durationMs input) = None)) as [H|H];
    rewrite validate_spec_ok in H; [by left|by right].
Defined.

Lemma createSchedule_throw cron_error id now input s :
  ¬ spec_ok cron_error input →
  ∃ e, createSchedule cron_error id now input s = (Throw e, s).
Proof.
  intros Hn. rewrite <-validate_spec_ok in Hn. unfold createSchedule.
  destruct (validateScheduleSpec cron_error input); [by eexists|].
  destruct (validateDuration _); [by eexists|]. naive_solver.
Qed.

Lemma createSchedule_ok cron_error id now input s :
  cron_error "" ≠ None → spec_ok cron_error input →
  ∃ s', createSchedule cron_error id now input s = (Ok (new_schedule id now input), s')
    ∧ getSchedule id s' = Some (new_schedule id now input)
    ∧ (∀ id', id' ≠ id → getSchedule id' s' = getSchedule id' s)
    ∧ ∀ id', has_timer id' s' = true ↔ id' = id ∨ has_timer id' s = true.
Proof.
  intros Hempty Hspec. unfold createSchedule.
  destruct (proj2 (validate_spec_ok cron_error input) Hspec) as [-> ->].
  destruct (registerTimer_ok cron_error id now input
    (sd_with_service (with_store (saveScheduledCapture (new_schedule id now input))) s) Hspec)
    as (s' & Hreg & Hsvc & Htim).
  { intros [|a e] He; [|done]. exfalso. apply Hempty. destruct Hspec as [Hspec _].
    rewrite He in Hspec. by destruct (csi_intervalSeconds input). }
  rewrite Hreg. exists s'. split_and!; [done|..].
  - unfold getSchedule, getScheduledCapture, sd_store. rewrite Hsvc. simpl. apply jm_get_set_eq.
  - intros id' Hne. unfold getSchedule, getScheduledCapture, sd_store. rewrite Hsvc. simpl.
    by apply jm_get_set_ne.
  - exact Htim.
Qed.

Lemma deleteSchedule_sync id s : in_sync s → in_sync (deleteSchedule id s).2.
Proof.
  intros Hs. unfold deleteSchedule. destruct (getScheduledCapture id (sd_store s)); [|done].
  intros id'. destruct (unregisterTimer_spec id id' s) as [Hsvc Htim]. simpl.
  unfold has_timer in *. simpl. rewrite Htim. unfold in_sync, has_timer in Hs. rewrite Hs.
  unfold getSchedule, getScheduledCapture, sd_store. simpl. rewrite Hsvc. simpl.
  rewrite jm_get_delete. case_decide; naive_solver.
Qed.

Lemma scheduler_op_sync cron_error s s' :
  cron_error "" ≠ None → scheduler_op cron_error s s' → in_sync s → in_sync s'.
Proof.
  intros Hempty Hop Hs. destruct Hop as [id now input s Hfresh|id s|gate fe schedule s|gate fe id s].
  - destruct (spec_ok_dec cron_error input) as [Hspec|Hspec].
    + destruct (createSchedule_ok cron_error id now input s Hempty Hspec)
        as (s' & -> & Hget & Hother & Htim).
      intros id'. cbn [snd]. rewrite Htim, (Hs id'). destruct (decide (id' = id)) as [->|Hne].
      * rewrite Hget. naive_solver.
      * rewrite (Hother _ Hne). naive_solver.
    + destruct (createSchedule_throw cron_error id now input s Hspec) as [e ->]. done.
  - by apply deleteSchedule_sync.
  - by apply schedule_tick_sync.
  - unfold fireOnce. destruct (getScheduledCapture id (sd_store s)); [|done].
    by apply schedule_tick_sync.
Qed.

(** *** Restart *)
Lemma registerTimer_adds cron_error schedule s s' :
  registerTimer cron_error schedule s = (Ok tt, s') →
  sd_service s' = sd_service s
  ∧ ∀ id, has_timer id s' = true ↔ id = sc_id schedule ∨ has_timer id s = true.
Proof.
  unfold registerTimer, registerCronJob. intros H.
  assert (Hi : ∀ s1, s1 = sd_with_intervals (jm_set (intervalName (sc_id schedule)) schedule)
      (if jm_has (intervalName (sc_id schedule)) (sd_intervals s)
       then sd_with_intervals (jm_delete (intervalName (sc_id schedule))) s else s) →
    sd_service s1 = sd_service s
    ∧ ∀ id, has_timer id s1 = true ↔ id = sc_id schedule ∨ has_timer id s = true).
  { intros s1 ->. unfold has_timer. split; [by destruct (jm_has _ _)|]. intros id.
    rewrite !orb_true_iff.
    pose proof (has_replace (intervalName id) (intervalName (sc_id schedule)) schedule (sd_intervals s)) as Hr.
    destruct (jm_has (intervalName (sc_id schedule)) (sd_intervals s)); simpl; rewrite Hr;
      split; [intros [[?%intervalName_inj|?]|?]; tauto|intros [->|[?|?]]; tauto
             |intros [[?%intervalName_inj|?]|?]; tauto|intros [->|[?|?]]; tauto]. }
  assert (Hc : ∀ s1, s1 = sd_with_crons (jm_set (cronName (sc_id schedule)) schedule)
      (if jm_has (cronName (sc_id schedule)) (sd_crons s)
       then sd_with_crons (jm_delete (cronName (sc_id schedule))) s else s) →
    sd_service s1 = sd_service s
    ∧ ∀ id, has_timer id s1 = true ↔ id = sc_id schedule ∨ has_timer id s = true).
  { intros s1 ->. unfold has_timer.
    split; [by destruct (jm_has (cronName (sc_id schedule)) (sd_crons s))|]. intros id.
    rewrite !orb_true_iff.
    pose proof (has_replace (cronName id) (cronName (sc_id schedule)) schedule (sd_crons s)) as Hr.
    destruct (jm_has (cronName (sc_id schedule)) (sd_crons s)); simpl; rewrite Hr;
      split; [intros [?|[?%cronName_inj|?]]; tauto|intros [->|[?|?]]; tauto
             |intros [?|[?%cronName_inj|?]]; tauto|intros [->|[?|?]]; tauto]. }
  destruct (sc_cronExpression schedule) as [[|a e]|].
  - destruct (sc_intervalSeconds schedule); [|done]. injection H as <-. by apply Hi.
  - destruct (cron_error (String a e)); [done|]. injection H as <-. by apply Hc.
  - destruct (sc_intervalSeconds schedule); [|done]. injection H as <-. by apply Hi.
Qed.

Lemma register_all cron_error l s s' :
  for_each l (registerTimer cron_error) s = (Ok tt, s') →
  ∀ id, has_timer id s' = true ↔ id ∈ sc_id <$> l ∨ has_timer id s = true.
Proof.
  revert s. induction l as [|x l IH]; intros s; cbn [for_each].
  - intros [= <-] id. csimpl. rewrite elem_of_nil. tauto.
  - unfold mbind, M_bind. destruct (registerTimer cron_error x s) as [[[]|e] s1] eqn:E; [|done].
    intros Hrest id. rewrite (IH _ Hrest). csimpl. rewrite elem_of_cons.
    destruct (registerTimer_adds _ _ _ _ E) as [_ Ht]. rewrite Ht. tauto.
Qed.

(** ** Properties *)

(** A schedule is created exactly when its spec is valid: one of interval and
    cron expression, the interval within a day and at least ten seconds, the
    cron expression accepted by the cron package, the duration within its
    bounds.  A valid one is stored with exactly its own timer added, an invalid
    one is refused with storage and timers as they were. *)
Theorem createSchedule_spec cron_error id now input s :
  cron_error "" ≠ None →
  (spec_ok cron_error input →
   ∃ s', createSchedule cron_error id now input s = (Ok (new_schedule id now input), s')
     ∧ getSchedule id s' = Some (new_schedule id now input)
     ∧ (∀ id', id' ≠ id → getSchedule id' s' = getSchedule id' s)
     ∧ ∀ id', has_timer id' s' = true ↔ id' = id ∨ has_timer id' s = true)
  ∧ (¬ spec_ok cron_error input →
     ∃ e, createSchedule cron_error id now input s = (Throw e, s)).
Proof. intros H. split; [by apply createSchedule_ok|apply createSchedule_throw]. Qed.

Lemma createSchedule_spec_witness :
  ∃ s', createSchedule sample_cron_error "x" 5 sample_schedule_input (no_timers empty_store)
    = (Ok (new_schedule "x" 5 sample_schedule_input), s').
Proof.
  destruct (proj1 (createSchedule_spec sample_cron_error "x" 5 sample_schedule_input
    (no_timers empty_store) ltac:(done))) as (s' & H & _); [repeat split; reflexivity|].
  by exists s'.
Defined.

(** Timers and storage stay in step: whatever schedules are created, deleted
    and ticked, a schedule has a timer exactly when it has a row. *)
Theorem scheduler_in_sync cron_error s s' :
  cron_error "" ≠ None → rtc (scheduler_op cron_error) s s' → in_sync s → in_sync s'.
Proof.
  intros Hempty Hr. induction Hr as [|s1 s2 s3 Hop _ IH]; [done|].
  intros Hs. apply IH. by eapply scheduler_op_sync.
Qed.

Lemma scheduler_in_sync_witness :
  in_sync (deleteSchedule "x"
    (createSchedule sample_cron_error "x" 5 sample_schedule_input (no_timers empty_store)).2).2.
Proof.
  apply (scheduler_in_sync sample_cron_error (no_timers empty_store)); [done| |].
  - eapply rtc_l; [by apply so_create|]. apply rtc_once, so_delete.
  - intros id. split; [done|]. by intros [row Hrow].
Defined.

(** A restart restores one default page of timers: when [onModuleInit]
    succeeds, the schedules with a timer are the hundred newest enabled ones, so
    any further enabled schedule stays stored but never fires again. *)
Theorem restart_restores_page cron_error st s' :
  onModuleInit cron_error (no_timers st) = (Ok tt, s') →
  ∀ id, has_timer id s' = true ↔
    id ∈ sc_id <$> take 100 (js_sort (by_desc sc_createdAt)
      (js_filter (schedule_matches enabled_query) (jm_values (scheduledCaptures st)))).
Proof.
  intros Hrun id. unfold onModuleInit in Hrun.
  rewrite (register_all _ _ _ _ Hrun). unfold getScheduledCaptures, enabled_query, sd_store. simpl.
  rewrite page_default. unfold has_timer. simpl. split; [by intros [?|?]|by left].
Qed.

Lemma restart_restores_page_witness :
  has_timer "x" (onModuleInit sample_cron_error (no_timers
    (saveScheduledCapture (new_schedule "x" 5 sample_schedule_input) empty_store))).2 = true.
Proof.
  apply (restart_restores_page sample_cron_error
    (saveScheduledCapture (new_schedule "x" 5 sample_schedule_input) empty_store) _ eq_refl).
  vm_compute. left.
Defined.
