(* ===== verification/CrossReference.v ===== *)
(** * The cross-reference engine

    [apps/api/src/monitor/cross-reference.engine.ts]: a capture is compared with
    the connection's history, or with another capture, along command shapes, hot
    keys and slow-log rates.  The history queries are the operations of an
    interface, [HistoryPort]; the engine reads only the fields listed there. *)
From S2P Require Export CaptureWriter MonitorLine.
From stdpp Require Import options.

(** ** Definitions *)
Inductive BaselineWindow := W_6h | W_24h | W_7d | W_same_hour_last_week.

Definition SCRIPTED_VERBS : list string := ["EVAL"; "EVALSHA"; "FCALL"; "FCALL_RO"].
Definition HOT_KEY_TOP_K : Z := 50.

Record NewShape := {
  ns_shape : string;
  ns_cmd : string;
  ns_arity : option Z;
  ns_scriptSha : option string;
  ns_countInCapture : Z
}.
Record HotKey := {
  hk_key : string;
  hk_countInCapture : Z;
  hk_countInBaseline : Z;
  hk_rankInCapture : Z;
  hk_rankInBaseline : option Z
}.
Record HotKeyDelta := { hd_newInTopK : list HotKey; hd_rankChanges : list HotKey }.
Record SlowlogRegression := {
  sr_cmd : string;
  sr_shape : string;
  sr_slowlogCountInSession : Z;
  sr_observedRatePerSec : number;
  sr_baselineRatePerSec : number;
  sr_baselineP95RatePerSec : number
}.

(** The history of a connection in a window: the commands of the slow log and
    the command log, the [cmd] field of the client snapshots, and the number of
    ACL audit entries. *)
Record HistoryPort := {
  hp_slowLog : string → Z → Z → list (list string);
  hp_commandLog : string → Z → Z → list (list string);
  hp_clientCmds : string → Z → Z → list (option string);
  hp_aclEntries : string → Z → Z → Z
}.

Inductive BaselineSource := FromWindow (w : BaselineWindow) | FromCapture (sessionId : string).

Record CrossReferenceResult := {
  cr_sessionId : string;
  cr_baseline : BaselineSource;
  cr_baselineStartTs : Z;
  cr_baselineEndTs : Z;
  cr_startTs : Z;
  cr_endTs : Z;
  cr_capturedLineCount : Z;
  cr_newShapes : list NewShape;
  cr_hotKeyDelta : HotKeyDelta;
  cr_slowlogRegressions : list SlowlogRegression;
  cr_auditEntriesInWindow : Z
}.

Definition HOUR_MS : Z := 60 * 60 * 1000.
Definition DAY_MS : Z := 24 * HOUR_MS.
Definition WEEK_MS : Z := 7 * DAY_MS.

Definition computeBaselineRange (window : BaselineWindow) (sessionStartMs : Z) : Z * Z :=
  match window with
  | W_6h => (sessionStartMs - 6 * HOUR_MS, sessionStartMs)
  | W_24h => (sessionStartMs - DAY_MS, sessionStartMs)
  | W_7d => (sessionStartMs - 7 * DAY_MS, sessionStartMs)
  | W_same_hour_last_week => (sessionStartMs - WEEK_MS, sessionStartMs - WEEK_MS + HOUR_MS)
  end.

(** *** Shapes *)
Record Shape := {
  sh_shape : string;
  sh_cmd : string;
  sh_arity : option Z;
  sh_scriptSha : option string
}.

Definition shapeOf (line : ParsedMonitorLine) : Shape :=
  let cmd := to_upper (pl_cmd line) in
  if js_includes cmd SCRIPTED_VERBS then
    let sha := default "<unknown>" (head (pl_args line)) in
    {| sh_shape := cmd +:+ ":" +:+ sha; sh_cmd := cmd; sh_arity := None; sh_scriptSha := Some sha |}
  else
    {| sh_shape := cmd +:+ ":" +:+ string_of_Z (js_len (pl_args line)); sh_cmd := cmd;
       sh_arity := Some (js_len (pl_args line)); sh_scriptSha := None |}.

Definition shapeOfStringArray (command : list string) : string :=
  match command with
  | [] => ":0"
  | verb :: args =>
      let cmd := to_upper verb in
      if js_includes cmd SCRIPTED_VERBS then cmd +:+ ":" +:+ default "<unknown>" (head args)
      else cmd +:+ ":" +:+ string_of_Z (js_len command - 1)
  end.

Definition firstArgOf (command : list string) : option string :=
  match command with _ :: a :: _ => Some a | _ => None end.

(** [set.add(x)] *)
Definition add_once (x : string) (l : list string) : list string :=
  if js_includes x l then l else l ++ [x].

Definition collectShapesFromLines (lines : list ParsedMonitorLine) : list string :=
  foldl (λ shapes line, add_once (sh_shape (shapeOf line)) shapes) [] lines.

(** [counts.set(k, (counts.get(k) ?? 0) + 1)] *)
Definition count_one (k : string) (counts : list (string * Z)) : list (string * Z) :=
  jm_set k (default 0 (jm_get k counts) + 1) counts.

Definition count_key (counts : list (string * Z)) (key : option string) : list (string * Z) :=
  match key with
  | None | Some EmptyString => counts
  | Some key => count_one key counts
  end.

Definition collectKeyCountsFromLines (lines : list ParsedMonitorLine) : list (string * Z) :=
  foldl (λ counts line, count_key counts (pl_key line)) [] lines.

Definition collectBaselineShapes (port : HistoryPort) (connectionId : string) (startMs endMs : Z)
    : list string :=
  let slowlog := hp_slowLog port connectionId (startMs / 1000) (endMs / 1000) in
  let commandlog := hp_commandLog port connectionId (startMs / 1000) (endMs / 1000) in
  let clientSnapshots := hp_clientCmds port connectionId startMs endMs in
  let shapes := foldl (λ s e, add_once (shapeOfStringArray e) s) [] slowlog in
  let shapes := foldl (λ s e, add_once (shapeOfStringArray e) s) shapes commandlog in
  foldl (λ s c, match c with
                | None | Some EmptyString => s
                | Some cmd => add_once (to_upper cmd +:+ ":*") s
                end) shapes clientSnapshots.

Definition collectBaselineKeyCounts (port : HistoryPort) (connectionId : string) (startMs endMs : Z)
    : list (string * Z) :=
  foldl (λ counts e, count_key counts (firstArgOf e)) []
    (hp_slowLog port connectionId (startMs / 1000) (endMs / 1000)).

(** *** New shapes *)
Definition capture_counts (capturedLines : list ParsedMonitorLine) : list (string * (Z * Shape)) :=
  foldl (λ m line,
    let meta := shapeOf line in
    match jm_get (sh_shape meta) m with
    | Some (count, meta0) => jm_set (sh_shape meta) (count + 1, meta0) m
    | None => jm_set (sh_shape meta) (1, meta) m
    end) [] capturedLines.

Definition in_baseline (baselineShapes : list string) (shape cmd : string) : bool :=
  js_includes shape baselineShapes || js_includes (cmd +:+ ":*") baselineShapes.

Definition computeNewShapes (capturedLines : list ParsedMonitorLine) (baselineShapes : list string)
    : list NewShape :=
  js_sort (by_desc ns_countInCapture)
    ((λ e : string * (Z * Shape),
        {| ns_shape := e.1; ns_cmd := sh_cmd e.2.2; ns_arity := sh_arity e.2.2;
           ns_scriptSha := sh_scriptSha e.2.2; ns_countInCapture := e.2.1 |})
       <$> js_filter (λ e : string * (Z * Shape), negb (in_baseline baselineShapes e.1 (sh_cmd e.2.2)))
             (capture_counts capturedLines)).

(** *** Hot keys *)
Definition rank_counts (counts : list (string * Z)) : list (string * Z) :=
  js_slice 0 HOT_KEY_TOP_K (js_sort (by_desc snd) counts).

Definition ranks_of (ranked : list (string * Z)) : list (string * Z) :=
  foldl (λ m p, jm_set p.1 p.2 m) [] (imap (λ i e, (e.1, Z.of_nat i + 1)) ranked).

Definition hot_row (ranks counts : list (string * Z)) (i : nat) (e : string * Z) : HotKey :=
  {| hk_key := e.1; hk_countInCapture := e.2;
     hk_countInBaseline := default 0 (jm_get e.1 counts);
     hk_rankInCapture := Z.of_nat i + 1; hk_rankInBaseline := jm_get e.1 ranks |}.

Definition computeHotKeyDelta (capturedLines : list ParsedMonitorLine)
    (baselineKeyCounts : list (string * Z)) : HotKeyDelta :=
  let captureRanked := rank_counts (collectKeyCountsFromLines capturedLines) in
  let baselineRankByKey := ranks_of (rank_counts baselineKeyCounts) in
  let rows := imap (hot_row baselineRankByKey baselineKeyCounts) captureRanked in
  {| hd_newInTopK :=
       js_filter (λ r, match hk_rankInBaseline r with None => true | Some _ => false end) rows;
     hd_rankChanges :=
       js_filter (λ r, match hk_rankInBaseline r with
                       | None => false
                       | Some b => negb (hk_rankInCapture r =? b)
                       end) rows |}.

(** *** Slow-log regressions *)
Definition countByVerb (entries : list (list string)) : list (string * Z) :=
  foldl (λ out e, match e with [] => out | v :: _ => count_one (to_upper v) out end) [] entries.

Definition num_cmp (a b : number) : Z :=
  if num_ltb a b then -1 else if num_ltb b a then 1 else 0.
Definition by_num_desc {A} (f : A → number) (a b : A) : Z := num_cmp (f b) (f a).

Definition percentile (values : list number) (q : number) : number :=
  match values with
  | [] => num_of_Z 0
  | _ =>
      let sorted := js_sort num_cmp values in
      let pos := num_mul (num_of_Z (js_len sorted - 1)) q in
      let lo := math_floor pos in
      let hi := math_ceil pos in
      let at_index n := match num_to_Z n with
                        | Some z => default nan (sorted !! Z.to_nat z)
                        | None => nan
                        end in
      if num_eqb lo hi then at_index lo
      else num_add (at_index lo)
             (num_mul (num_sub (at_index hi) (at_index lo)) (num_sub pos lo))
  end.

Definition seconds_between (startMs endMs : Z) : number :=
  num_max (num_of_Z 1) (num_div (num_of_Z (endMs - startMs)) (num_of_Z 1000)).

Definition computeSlowlogRegressions (capturedLines : list ParsedMonitorLine)
    (slowlogBaseline slowlogSession : list (list string))
    (baselineStartMs baselineEndMs sessionStartMs sessionEndMs : Z) : list SlowlogRegression :=
  let captureVerbs := foldl (λ s line, add_once (to_upper (pl_cmd line)) s) [] capturedLines in
  let baselineDurationSec := seconds_between baselineStartMs baselineEndMs in
  let sessionDurationSec := seconds_between sessionStartMs sessionEndMs in
  let baselineCountsByVerb := countByVerb slowlogBaseline in
  let sessionCountsByVerb := countByVerb slowlogSession in
  let baselineRates := (λ c, num_div (num_of_Z c) baselineDurationSec) <$> jm_values baselineCountsByVerb in
  let p95 := percentile baselineRates (num_div (num_of_Z 95) (num_of_Z 100)) in
  js_sort (by_num_desc sr_observedRatePerSec)
    (omap (λ verb,
       let sessionCount := default 0 (jm_get verb sessionCountsByVerb) in
       if sessionCount =? 0 then None else
       let observedRate := num_div (num_of_Z sessionCount) sessionDurationSec in
       let baselineCount := default 0 (jm_get verb baselineCountsByVerb) in
       let baselineRate := num_div (num_of_Z baselineCount) baselineDurationSec in
       if num_leb observedRate p95 then None else
       Some {| sr_cmd := verb; sr_shape := verb +:+ ":slowlog";
               sr_slowlogCountInSession := sessionCount;
               sr_observedRatePerSec := observedRate; sr_baselineRatePerSec := baselineRate;
               sr_baselineP95RatePerSec := p95 |}) captureVerbs).

(** *** The engine *)
Definition parse_chunk (bytes : string) : list ParsedMonitorLine :=
  omap (λ raw, if is_empty raw then None else parseMonitorLine raw) (split_char newline bytes).

Definition parseCapturedLines (sessionId : string) (st : CaptureStore) : list ParsedMonitorLine :=
  mjoin ((λ c, parse_chunk (cc_bytes c)) <$> getCaptureChunks sessionId st).

Definition compute (port : HistoryPort) (now : Z) (sessionId : string) (baseline : BaselineWindow)
    (st : CaptureStore) : outcome string CrossReferenceResult :=
  match getCaptureSession sessionId st with
  | None => Throw ("Session " +:+ sessionId +:+ " not found")
  | Some session =>
      let connectionId := cs_connectionId session in
      let sessionStartMs := cs_startedAt session in
      let sessionEndMs := default now (cs_endedAt session) in
      let '(baselineStartMs, baselineEndMs) := computeBaselineRange baseline sessionStartMs in
      let capturedLines := parseCapturedLines sessionId st in
      let slowlogBaseline :=
        hp_slowLog port connectionId (baselineStartMs / 1000) (baselineEndMs / 1000) in
      let slowlogSession :=
        hp_slowLog port connectionId (sessionStartMs / 1000) (sessionEndMs / 1000) in
      let baselineShapes := collectBaselineShapes port connectionId baselineStartMs baselineEndMs in
      let baselineKeyCounts :=
        collectBaselineKeyCounts port connectionId baselineStartMs baselineEndMs in
      let auditEntries := hp_aclEntries port connectionId (sessionStartMs / 1000) (sessionEndMs / 1000) in
      Ok {| cr_sessionId := sessionId; cr_baseline := FromWindow baseline;
            cr_baselineStartTs := baselineStartMs; cr_baselineEndTs := baselineEndMs;
            cr_startTs := sessionStartMs; cr_endTs := sessionEndMs;
            cr_capturedLineCount := js_len capturedLines;
            cr_newShapes := computeNewShapes capturedLines baselineShapes;
            cr_hotKeyDelta := computeHotKeyDelta capturedLines baselineKeyCounts;
            cr_slowlogRegressions :=
              computeSlowlogRegressions capturedLines slowlogBaseline slowlogSession
                baselineStartMs baselineEndMs sessionStartMs sessionEndMs;
            cr_auditEntriesInWindow := auditEntries |}
  end.

Definition computeCaptureDiff (sessionId baselineSessionId : string) (st : CaptureStore)
    : outcome string CrossReferenceResult :=
  if str_eqb sessionId baselineSessionId then Throw "Cannot diff a capture against itself" else
  match getCaptureSession sessionId st, getCaptureSession baselineSessionId st with
  | None, _ => Throw ("Session " +:+ sessionId +:+ " not found")
  | Some _, None => Throw ("Baseline session " +:+ baselineSessionId +:+ " not found")
  | Some session, Some baselineSession =>
      let capturedLines := parseCapturedLines sessionId st in
      let baselineLines := parseCapturedLines baselineSessionId st in
      Ok {| cr_sessionId := sessionId; cr_baseline := FromCapture baselineSessionId;
            cr_baselineStartTs := cs_startedAt baselineSession;
            cr_baselineEndTs := default (cs_startedAt baselineSession) (cs_endedAt baselineSession);
            cr_startTs := cs_startedAt session;
            cr_endTs := default (cs_startedAt session) (cs_endedAt session);
            cr_capturedLineCount := js_len capturedLines;
            cr_newShapes := computeNewShapes capturedLines (collectShapesFromLines baselineLines);
            cr_hotKeyDelta :=
              computeHotKeyDelta capturedLines (collectKeyCountsFromLines baselineLines);
            cr_slowlogRegressions := []; cr_auditEntriesInWindow := 0 |}
  end.

(** *** Specification *)

(** The captured lines of a shape, and how often a key occurs. *)
Definition has_shape (shape : string) (line : ParsedMonitorLine) : bool :=
  str_eqb (sh_shape (shapeOf line)) shape.
Definition count_if {A} (p : A → bool) (l : list A) : Z := js_len (js_filter p l).
Definition key_count (key : string) (keys : list (option string)) : Z :=
  count_if (λ k, bool_decide (k = Some key)) keys.

(** The line ends the stored text must not contain. *)
Definition single_line (s : string) : Prop :=
  str_forall (λ a, negb (bool_decide (a = newline))) s = true.

Definition parse_lines (raws : list string) : list ParsedMonitorLine :=
  omap (λ raw, if is_empty raw then None else parseMonitorLine raw) raws.

(** ** Lemmas *)
Lemma count_if_snoc {A} (p : A → bool) l x :
  count_if p (l ++ [x]) = count_if p l + (if p x then 1 else 0).
Proof.
  unfold count_if, js_len. rewrite js_filter_app, length_app. simpl.
  destruct (p x); simpl; lia.
Qed.

Lemma count_if_nonneg {A} (p : A → bool) l : 0 ≤ count_if p l.
Proof. unfold count_if, js_len. lia. Qed.

Lemma js_find_snoc {A} (p : A → bool) l x :
  js_find p (l ++ [x])
  = match js_find p l with Some y => Some y | None => if p x then Some x else None end.
Proof. induction l as [|y l IH]; simpl; [done|]. by destruct (p y). Qed.

(** *** Shapes *)
Lemma capture_counts_snoc lines line :
  capture_counts (lines ++ [line])
  = match jm_get (sh_shape (shapeOf line)) (capture_counts lines) with
    | Some (count, meta0) => jm_set (sh_shape (shapeOf line)) (count + 1, meta0) (capture_counts lines)
    | None => jm_set (sh_shape (shapeOf line)) (1, shapeOf line) (capture_counts lines)
    end.
Proof. unfold capture_counts. by rewrite foldl_app. Qed.

Lemma capture_counts_get lines shape :
  jm_get shape (capture_counts lines)
  = (λ l, (count_if (has_shape shape) lines, shapeOf l)) <$> js_find (has_shape shape) lines.
Proof.
  induction lines as [|line lines IH] using rev_ind; [done|].
  rewrite capture_counts_snoc, js_find_snoc, count_if_snoc. unfold has_shape at 2 4. unfold str_eqb.
  destruct (decide (sh_shape (shapeOf line) = shape)) as [Hs|Hs].
  - rewrite !bool_decide_eq_true_2 by done. rewrite Hs, IH.
    destruct (js_find (has_shape shape) lines) as [l|] eqn:Ef; csimpl; rewrite jm_get_set_eq; [done|].
    do 3 f_equal. unfold count_if. rewrite js_filter_none; [done|]. by apply js_find_None.
  - rewrite !bool_decide_eq_false_2 by done.
    assert (Hset : ∀ v, jm_get shape (jm_set (sh_shape (shapeOf line)) v (capture_counts lines))
      = jm_get shape (capture_counts lines)) by (intros; apply jm_get_set_ne; congruence).
    rewrite Z.add_0_r.
    destruct (jm_get (sh_shape (shapeOf line)) (capture_counts lines)) as [[c m]|];
      rewrite Hset, IH; by destruct (js_find (has_shape shape) lines).
Qed.

Lemma capture_counts_wf lines : jm_wf (capture_counts lines).
Proof.
  induction lines as [|line lines IH] using rev_ind; [constructor|].
  rewrite capture_counts_snoc. destruct (jm_get _ _) as [[c m]|]; by apply jm_wf_set.
Qed.

Lemma has_shape_find shape lines l :
  js_find (has_shape shape) lines = Some l → sh_shape (shapeOf l) = shape.
Proof. intros [H _]%js_find_Some. unfold has_shape, str_eqb in H. by js_bools. Qed.

(** *** Counting keys *)
Lemma count_keys_snoc keys key :
  foldl count_key [] (keys ++ [key]) = count_key (foldl count_key [] keys) key.
Proof. by rewrite foldl_app. Qed.

Lemma count_keys_get keys k :
  is_empty k = false →
  jm_get k (foldl count_key [] keys)
  = if key_count k keys =? 0 then None else Some (key_count k keys).
Proof.
  intros Hk. induction keys as [|key keys IH] using rev_ind; [done|].
  rewrite count_keys_snoc. unfold key_count in *. rewrite count_if_snoc.
  pose proof (count_if_nonneg (λ k', bool_decide (k' = Some k)) keys) as Hn.
  assert (Hother : key ≠ Some k →
    jm_get k (count_key (foldl count_key [] keys) key) = jm_get k (foldl count_key [] keys)).
  { intros Hne. destruct key as [[|a s]|]; [done| |done]. apply jm_get_set_ne. congruence. }
  destruct (decide (key = Some k)) as [->|Hne].
  - rewrite bool_decide_eq_true_2 by done. destruct k as [|a s]; [done|].
    change (count_key ?m (Some (String a s))) with (count_one (String a s) m).
    unfold count_one. rewrite jm_get_set_eq, IH.
    destruct (Z.eqb_spec (count_if (λ k', bool_decide (k' = Some (String a s))) keys) 0) as [E|E];
      simpl; rewrite ?E; destruct (Z.eqb_spec (count_if (λ k', bool_decide (k' = Some (String a s))) keys + 1) 0);
      try done; lia.
  - rewrite bool_decide_eq_false_2 by done. by rewrite Z.add_0_r, Hother.
Qed.

Lemma count_keys_wf keys : jm_wf (foldl count_key [] keys).
Proof.
  induction keys as [|key keys IH] using rev_ind; [constructor|]. rewrite count_keys_snoc.
  destruct key as [[|a s]|]; simpl; [done|by apply jm_wf_set|done].
Qed.

Lemma count_keys_nonempty keys : ∀ k, k ∈ (foldl count_key [] keys).*1 → is_empty k = false.
Proof.
  induction keys as [|key keys IH] using rev_ind; [by intros k ?%elem_of_nil|]. rewrite count_keys_snoc.
  intros k. destruct key as [[|a s]|]; [apply IH| |apply IH].
  change (count_key ?m (Some (String a s))) with (count_one (String a s) m). unfold count_one.
  destruct (decide (String a s ∈ (foldl count_key [] keys).*1)) as [Hin|Hin].
  - rewrite jm_set_keys_old by done. apply IH.
  - rewrite jm_set_keys_new by done. rewrite elem_of_app, list_elem_of_singleton.
    intros [?| ->]; [by apply IH|done].
Qed.

Lemma collect_key_counts lines :
  collectKeyCountsFromLines lines = foldl count_key [] (pl_key <$> lines).
Proof.
  unfold collectKeyCountsFromLines. generalize (@nil (string * Z)).
  induction lines as [|l lines IH]; intros m; csimpl; [done|]. apply IH.
Qed.

(** *** Ranks *)
Lemma rank_counts_sub counts : ∀ e, e ∈ rank_counts counts → e ∈ counts.
Proof. intros e He. apply js_slice_sub in He. by apply js_sort_elem in He. Qed.

Lemma rank_counts_take counts :
  rank_counts counts = take 50 (js_sort (by_desc snd) counts).
Proof. unfold rank_counts, HOT_KEY_TOP_K. apply (js_slice_prefix 50). lia. Qed.

Lemma rank_counts_wf counts : jm_wf counts → jm_wf (rank_counts counts).
Proof.
  unfold jm_wf. intros Hwf. rewrite rank_counts_take, fmap_take.
  eapply sublist_NoDup; [|apply sublist_take]. by rewrite js_sort_perm.
Qed.

Lemma ranks_of_get ranked k :
  jm_wf ranked →
  match jm_get k (ranks_of ranked) with
  | Some r => ∃ i c, ranked !! i = Some (k, c) ∧ r = Z.of_nat i + 1
  | None => k ∉ ranked.*1
  end.
Proof.
  unfold jm_wf, ranks_of. induction ranked as [|[k' c'] ranked IH] using rev_ind;
    [intros _; apply not_elem_of_nil|].
  rewrite fmap_app, NoDup_app. intros (Hnd & Hdis & _). specialize (IH Hnd).
  rewrite imap_app, foldl_app. simpl. rewrite jm_get_set, Nat.add_0_r. case_decide as Hk.
  - subst. exists (length ranked), c'. split; [|done]. by rewrite list_lookup_middle.
  - destruct (jm_get k _) as [r|].
    + destruct IH as (i & c & Hi & ->). exists i, c. split; [|done]. by apply lookup_app_l_Some.
    + rewrite not_elem_of_app. split; [done|]. csimpl. by rewrite list_elem_of_singleton.
Qed.

(** *** Reading a capture back *)
Lemma parse_group g :
  g ≠ [] → Forall single_line g → parse_chunk (join nl g) = parse_lines g.
Proof.
  intros Hne Hs. unfold parse_chunk, nl. rewrite split_join; [done|done|].
  intros s Hin. by eapply Forall_forall in Hs.
Qed.

Lemma parse_groups groups :
  Forall (λ g, g ≠ []) groups → Forall single_line (mjoin groups) →
  mjoin (parse_chunk <$> (join nl <$> groups)) = parse_lines (mjoin groups).
Proof.
  induction 1 as [|g groups Hg _ IH]; [done|]. cbn [mjoin list_join fmap list_fmap].
  rewrite Forall_app. intros [H1 H2]. unfold parse_lines. rewrite omap_app.
  f_equal; [by apply parse_group|by apply IH].
Qed.

Lemma rows_sorted cfg start groups l :
  chunk_row <$> l = rows_of cfg start groups →
  StronglySorted (λ a b, cc_chunkIndex a ≤ cc_chunkIndex b) l.
Proof.
  revert start l. induction groups as [|g groups IH]; intros start [|c l] Heq; try done; [constructor|].
  unfold rows_of in Heq. csimpl in Heq. injection Heq as _ _ Hidx _ _ Hrest.
  assert (Hrow : chunk_row <$> l = rows_of cfg (start + 1) groups).
  { rewrite Hrest. unfold rows_of. apply imap_ext. intros i x _. simpl.
    by replace (start + 1 + Z.of_nat i) with (start + Z.of_nat (S i)) by lia. }
  constructor; [by eapply IH|]. apply Forall_lookup. intros i c' Hc'.
  assert (Hr : rows_of cfg (start + 1) groups !! i = Some (chunk_row c'))
    by (rewrite <-Hrow, list_lookup_fmap, Hc'; done).
  unfold rows_of in Hr. rewrite list_lookup_imap in Hr.
  destruct (groups !! i); [|done]. csimpl in Hr. injection Hr as _ _ Hi _ _. lia.
Qed.

(** The chunks of a fresh session, read back, are those the writer saved. *)
Lemma read_back opts evs st :
  w_resolved (writer_run evs (fresh_writer opts st)).1 = true →
  (∀ c, c ∈ captureChunks st → cc_sessionId c ≠ wo_sessionId opts) →
  Forall single_line (accepted evs (fresh_writer opts st)) →
  parseCapturedLines (wo_sessionId opts) (writer_run evs (fresh_writer opts st)).2
  = parse_lines (accepted evs (fresh_writer opts st)).
Proof.
  intros Hres Hfresh Hlines.
  destruct (writer_groups opts evs st Hres) as (new & groups & Hsink & Hrows & Hacc & Hok).
  change (sink_chunks ?s) with (captureChunks s) in Hsink.
  assert (Hids : ∀ c, c ∈ new → str_eqb (cc_sessionId c) (wo_sessionId opts) = true).
  { intros c Hc. pose proof (rows_chunk_of _ _ _ _ Hok Hrows) as Hof.
    rewrite Forall_forall in Hof. destruct (Hof c Hc) as (_ & Hs & _).
    apply bool_decide_eq_true. exact Hs. }
  assert (Hfilter : js_filter (λ c, str_eqb (cc_sessionId c) (wo_sessionId opts))
    (captureChunks (writer_run evs (fresh_writer opts st)).2) = new).
  { rewrite Hsink, js_filter_app, js_filter_none, js_filter_all; [done..|].
    intros c Hc. apply bool_decide_eq_false. by apply Hfresh. }
  unfold parseCapturedLines. rewrite getCaptureChunks_in_order; rewrite Hfilter;
    [|by eapply rows_sorted].
  assert (Hbytes : cc_bytes <$> new = join nl <$> groups).
  { erewrite <-rows_bytes, <-Hrows, <-list_fmap_compose. done. }
  rewrite (list_fmap_compose cc_bytes parse_chunk), Hbytes, Hacc in *.
  apply parse_groups; [|done]. eapply Forall_impl; [exact Hok|]. by intros g [? _].
Qed.

(** ** Properties *)

(** C2: What is captured is what is analysed: after a capture into a store
    without chunks of the session, the engine's lines are the accepted lines,
    in order, each parsed once, however the writer cut them into chunks. *)
Theorem capture_reads_back opts evs st :
  w_resolved (writer_run evs (fresh_writer opts st)).1 = true →
  (∀ c, c ∈ captureChunks st → cc_sessionId c ≠ wo_sessionId opts) →
  Forall single_line (accepted evs (fresh_writer opts st)) →
  parseCapturedLines (wo_sessionId opts) (writer_run evs (fresh_writer opts st)).2
  = parse_lines (accepted evs (fresh_writer opts st)).
Proof. apply read_back. Qed.

Definition sample_lines : list WriterEvent :=
  [EvLine (formatMonitorLine "1.5" ["get"; "k1"] "10.0.0.1:1" 0) 1 1;
   EvLine (formatMonitorLine "1.6" ["set"; "k1"; "v"] "10.0.0.1:1" 0) 2 2;
   EvLine (formatMonitorLine "1.7" ["get"; "k2"] "10.0.0.1:1" 0) 3 3;
   EvQueue; EvQueue; EvFinalize 5].

Lemma capture_reads_back_witness :
  pl_cmd <$> parseCapturedLines "s" (writer_run sample_lines (fresh_writer sample_options empty_store)).2
  = ["GET"; "SET"; "GET"].
Proof.
  change "s" with (wo_sessionId sample_options).
  rewrite (capture_reads_back sample_options sample_lines empty_store eq_refl).
  - vm_compute. reflexivity.
  - intros c Hc. by apply elem_of_nil in Hc.
  - repeat constructor.
Defined.

(** The new shapes are exactly the captured shapes the baseline has not
    seen: each captured shape that neither it nor its verb-wide marker covers is
    reported once, with the number of its lines, most frequent first, and
    nothing else is reported. *)
Theorem new_shapes_exact lines baselineShapes :
  (∀ ns, ns ∈ computeNewShapes lines baselineShapes ↔
    ∃ line, js_find (has_shape (ns_shape ns)) lines = Some line
      ∧ in_baseline baselineShapes (ns_shape ns) (sh_cmd (shapeOf line)) = false
      ∧ ns = {| ns_shape := sh_shape (shapeOf line); ns_cmd := sh_cmd (shapeOf line);
                ns_arity := sh_arity (shapeOf line); ns_scriptSha := sh_scriptSha (shapeOf line);
                ns_countInCapture := count_if (has_shape (ns_shape ns)) lines |})
  ∧ NoDup (ns_shape <$> computeNewShapes lines baselineShapes)
  ∧ StronglySorted (λ a b, ns_countInCapture b ≤ ns_countInCapture a)
      (computeNewShapes lines baselineShapes).
Proof.
  unfold computeNewShapes. split_and!.
  - intros ns. rewrite js_sort_elem, list_elem_of_fmap. split.
    + intros ([shape [count meta]] & -> & [Hb Hin]%js_filter_elem). cbn [fst snd ns_shape] in *.
      apply jm_elem_get in Hin; [|apply capture_counts_wf]. rewrite capture_counts_get in Hin.
      destruct (js_find (has_shape shape) lines) as [line|] eqn:Ef; [|done].
      injection Hin as <- <-. apply negb_true_iff in Hb. exists line.
      rewrite (has_shape_find _ _ _ Ef). done.
    + intros (line & Hf & Hb & Hns). pose proof (has_shape_find _ _ _ Hf) as Hs.
      exists (ns_shape ns, (count_if (has_shape (ns_shape ns)) lines, shapeOf line)). cbn [fst snd].
      split; [rewrite Hns at 1; by rewrite Hs|]. apply js_filter_elem. split; [cbn [fst snd]; by rewrite Hb|].
      apply jm_get_elem. by rewrite capture_counts_get, Hf.
  - rewrite js_sort_perm, <-list_fmap_compose.
    change (ns_shape ∘ _) with (fst (A:=string) (B:=Z*Shape)).
    eapply sublist_NoDup; [apply (capture_counts_wf lines)|].
    apply fmap_sublist, js_filter_sublist.
  - apply js_sort_desc_sorted.
Qed.

(** A capture line and the same command in the slow log have the same shape,
    so comparing shapes compares commands. *)
Theorem shape_encodings_agree line :
  sh_shape (shapeOf line) = shapeOfStringArray (pl_cmd line :: pl_args line).
Proof.
  unfold shapeOf, shapeOfStringArray. destruct (js_includes _ _); [done|]. simpl.
  do 3 f_equal. unfold js_len. simpl. lia.
Qed.

(** The hot-key delta is right about counts and ranks: a key new in the top
    [K] is one of the [K] most frequent of the capture and not of the baseline,
    a rank change is a key of both whose positions differ, and every row carries
    the true number of its lines in the capture. *)
Theorem hot_key_delta_exact lines baseline r :
  jm_wf baseline →
  (r ∈ hd_newInTopK (computeHotKeyDelta lines baseline) →
     (hk_key r ∉ (rank_counts baseline).*1)
     ∧ rank_counts (collectKeyCountsFromLines lines) !! Z.to_nat (hk_rankInCapture r - 1)
       = Some (hk_key r, hk_countInCapture r)
     ∧ hk_countInCapture r = key_count (hk_key r) (pl_key <$> lines))
  ∧ (r ∈ hd_rankChanges (computeHotKeyDelta lines baseline) →
     (∃ b c, hk_rankInBaseline r = Some b ∧ b ≠ hk_rankInCapture r
        ∧ rank_counts baseline !! Z.to_nat (b - 1) = Some (hk_key r, c))
     ∧ rank_counts (collectKeyCountsFromLines lines) !! Z.to_nat (hk_rankInCapture r - 1)
       = Some (hk_key r, hk_countInCapture r)
     ∧ hk_countInCapture r = key_count (hk_key r) (pl_key <$> lines)).
Proof.
  intros Hwf. unfold computeHotKeyDelta. cbn [hd_newInTopK hd_rankChanges].
  set (ranked := rank_counts (collectKeyCountsFromLines lines)).
  set (ranks := ranks_of (rank_counts baseline)).
  assert (Hrow : r ∈ imap (hot_row ranks baseline) ranked →
    hk_rankInBaseline r = jm_get (hk_key r) ranks
    ∧ ranked !! Z.to_nat (hk_rankInCapture r - 1) = Some (hk_key r, hk_countInCapture r)
    ∧ hk_countInCapture r = key_count (hk_key r) (pl_key <$> lines)).
  { intros (i & Hi)%list_elem_of_lookup. rewrite list_lookup_imap in Hi.
    destruct (ranked !! i) as [[k c]|] eqn:Ei; [|done]. csimpl in Hi. injection Hi as <-.
    unfold hot_row. cbn [hk_rankInBaseline hk_key hk_rankInCapture hk_countInCapture fst snd].
    replace (Z.to_nat (Z.of_nat i + 1 - 1)) with i by lia. split_and!; [done..|].
    assert (Hin : (k, c) ∈ collectKeyCountsFromLines lines)
      by (apply rank_counts_sub, list_elem_of_lookup; by exists i).
    rewrite collect_key_counts in Hin.
    assert (Hk : is_empty k = false)
      by (eapply count_keys_nonempty, list_elem_of_fmap; by exists (k, c)).
    apply jm_elem_get in Hin; [|apply count_keys_wf]. rewrite count_keys_get in Hin by done.
    destruct (_ =? 0); [done|]. by injection Hin. }
  pose proof (ranks_of_get (rank_counts baseline) (hk_key r) (rank_counts_wf _ Hwf)) as Hget.
  fold ranks in Hget. split.
  - intros [Hb Hin]%js_filter_elem. destruct (Hrow Hin) as (H1 & H2 & H3). rewrite H1 in Hb.
    destruct (jm_get (hk_key r) ranks); [done|]. done.
  - intros [Hb Hin]%js_filter_elem. destruct (Hrow Hin) as (H1 & H2 & H3). rewrite H1 in Hb.
    destruct (jm_get (hk_key r) ranks) as [b|]; [|done]. split; [|done].
    destruct Hget as (i & c & Hi & Hb'). exists b, c. split_and!; [done| |].
    + apply negb_true_iff, Z.eqb_neq in Hb. congruence.
    + rewrite Hb'. by replace (Z.to_nat (Z.of_nat i + 1 - 1)) with i by lia.
Qed.

Lemma hot_key_delta_exact_witness :
  "k1" ∉ (rank_counts [("k2", 1)]).*1.
Proof.
  pose (lines := parseCapturedLines "s"
    (writer_run sample_lines (fresh_writer sample_options empty_store)).2).
  refine (proj1 (proj1 (hot_key_delta_exact lines [("k2", 1)]
    {| hk_key := "k1"; hk_countInCapture := 2; hk_countInBaseline := 0;
       hk_rankInCapture := 1; hk_rankInBaseline := None |} _) _)).
  - apply NoDup_singleton.
  - vm_compute. left.
Defined.
