(* ===== verification/CommandSafety.v ===== *)
(** * Which commands may reach the database

    The allow and block lists shared by the CLI and the cloud agent
    ([packages/shared/src/types/command-safety.ts]), the CLI's command line parser
    and gate ([apps/api/src/cli/command-parser.ts], [cli.service.ts]) and the
    agent's gate and command routing ([packages/agent/src/command-executor.ts]).
    A call to the database client is a value, [client_call]. *)
From S2P Require Export JsString.
From stdpp Require Import options.

(** ** Definitions *)
Definition ALLOWED_COMMANDS : list string :=
  ["PING"; "INFO"; "DBSIZE"; "SLOWLOG"; "COMMANDLOG"; "LATENCY"; "CLIENT"; "ACL"; "CONFIG";
   "CLUSTER"; "SENTINEL"; "MEMORY"; "COMMAND"; "ROLE"; "LASTSAVE"; "COLLECT_KEY_ANALYTICS";
   "FT"; "HGETFIELD_BUFFER"].

Definition ALLOWED_SUBCOMMANDS : list (string * list string) :=
  [("CONFIG", ["GET"]);
   ("CLIENT", ["LIST"; "INFO"; "GETNAME"]);
   ("ACL", ["LOG"; "LIST"; "WHOAMI"; "USERS"]);
   ("SLOWLOG", ["GET"; "LEN"; "RESET"]);
   ("COMMANDLOG", ["GET"; "LEN"; "RESET"]);
   ("LATENCY", ["LATEST"; "HISTORY"; "HISTOGRAM"; "RESET"; "DOCTOR"]);
   ("CLUSTER", ["INFO"; "SLOTS"; "SLOT-STATS"; "NODES"]);
   ("SENTINEL", ["MASTERS"; "REPLICAS"; "SENTINELS"]);
   ("MEMORY", ["DOCTOR"; "STATS"]);
   ("COMMAND", ["COUNT"; "DOCS"]);
   ("FT", ["_LIST"; "INFO"; "SEARCH"])].

Definition BLOCKED_COMMANDS : list string :=
  ["SUBSCRIBE"; "PSUBSCRIBE"; "SSUBSCRIBE"; "BLPOP"; "BRPOP"; "BRPOPLPUSH"; "BLMOVE"; "BLMPOP";
   "BZPOPMIN"; "BZPOPMAX"; "BZMPOP"; "XREAD"; "XREADGROUP"; "WAIT"; "WAITAOF"; "MONITOR"; "DEBUG"].

Definition BLOCKED_SUBCOMMANDS : list (string * list string) := [("CLIENT", ["PAUSE"])].

Definition checkBlocked (command : string) (subCommand : option string) : option string :=
  if js_includes command BLOCKED_COMMANDS
  then Some ("Command " +:+ command +:+ " is blocked. It may block the connection or is dangerous.")
  else match subCommand with
       | Some (String _ _ as sub) =>
           match jm_get command BLOCKED_SUBCOMMANDS with
           | Some subs =>
               if js_includes sub subs
               then Some ("Command " +:+ command +:+ " " +:+ sub +:+ " is blocked.") else None
           | None => None
           end
       | _ => None
       end.

Definition checkSafeMode (command : string) (subCommand : option string) : option string :=
  if negb (js_includes command ALLOWED_COMMANDS)
  then Some ("Command " +:+ command +:+ " is not allowed in safe mode.")
  else match jm_get command ALLOWED_SUBCOMMANDS with
       | None => None
       | Some allowedSubs =>
           match subCommand with
           | Some (String _ _ as sub) =>
               if negb (js_includes sub allowedSubs)
               then Some ("Command " +:+ command +:+ " " +:+ sub +:+ " is not allowed in safe mode.")
               else None
           | _ =>
               Some ("Command " +:+ command +:+ " requires a sub-command in safe mode (e.g., "
                     +:+ command +:+ " " +:+ default EmptyString (head allowedSubs) +:+ ").")
           end
       end.

(** *** The command line *)
Definition single_quote : ascii := "'".
Definition space_char : ascii := " ".

Definition push_current (parts : list string) (current : string) : list string :=
  if is_empty current then parts else parts ++ [current].
Definition push_char (current : string) (c : ascii) : string := current +:+ String c EmptyString.

(** The loop: [quoteChar] is [None] outside quotes. *)
Fixpoint parse_loop (parts : list string) (current : string) (quoteChar : option ascii)
    (escape : bool) (input : string) : list string :=
  match input with
  | EmptyString => push_current parts current
  | String char rest =>
      if escape then parse_loop parts (push_char current char) quoteChar false rest
      else
        match quoteChar with
        | Some q =>
            if bool_decide (char = backslash) && negb (is_empty rest)
            then parse_loop parts current quoteChar true rest
            else if bool_decide (char = q) then parse_loop parts current None false rest
            else parse_loop parts (push_char current char) quoteChar false rest
        | None =>
            if bool_decide (char = quote_char) || bool_decide (char = single_quote)
            then parse_loop parts current (Some char) false rest
            else if bool_decide (char = space_char)
            then parse_loop (push_current parts current) EmptyString None false rest
            else parse_loop parts (push_char current char) None false rest
        end
  end.

Definition parseCommandLine (input : string) : list string :=
  parse_loop [] EmptyString None false input.

(** *** The CLI gate: [execute] up to the call it makes *)
Inductive cli_gate_result :=
  | GateError (message : string)
  | GateCall (command : string) (restArgs : list string).

Definition cli_gate (unsafeMode : bool) (commandLine : string) : cli_gate_result :=
  match parseCommandLine (trim commandLine) with
  | [] => GateError "Empty command"
  | verb :: restArgs =>
      let command := to_upper verb in
      let subCommand := to_upper <$> head restArgs in
      match checkBlocked command subCommand with
      | Some blockError => GateError blockError
      | None =>
          if unsafeMode then GateCall command restArgs
          else match checkSafeMode command subCommand with
               | Some safeError =>
                   GateError (safeError +:+ " Set BETTERDB_UNSAFE_CLI=true to enable all commands.")
               | None => GateCall command restArgs
               end
      end
  end.

(** *** The agent *)
Definition isAllowed (unsafeMode : bool) (cmd : string) (args : option (list string)) : bool :=
  let upperCmd := to_upper cmd in
  let subCommand := match args with Some (a :: _) => Some (to_upper a) | _ => None end in
  match checkBlocked upperCmd subCommand with
  | Some _ => false
  | None =>
      if unsafeMode then true
      else match checkSafeMode upperCmd subCommand with Some _ => false | None => true end
  end.

Inductive client_call :=
  | Ping
  | Info (section : option string)
  | Dbsize
  | Lastsave
  | ConfigGet (patterns : list string)
  | CollectKeyAnalytics (optionsJson : option string)
  | HgetBuffer (key field : string)
  | Call (words : list string).

(** [execute] without binary arguments, up to the client call. *)
Definition agent_execute (unsafeMode : bool) (cmd : string) (args : option (list string))
    : outcome string client_call :=
  let upperCmd := to_upper cmd in
  if negb (isAllowed unsafeMode upperCmd args) then
    Throw ("Command not allowed: " +:+
           match args with Some a => upperCmd +:+ " " +:+ join " " a | None => upperCmd end)
  else if str_eqb upperCmd "PING" then Ok Ping
  else if str_eqb upperCmd "INFO" then
    Ok (Info match args with Some ((_ :: _) as a) => Some (join " " a) | _ => None end)
  else if str_eqb upperCmd "DBSIZE" then Ok Dbsize
  else if str_eqb upperCmd "LASTSAVE" then Ok Lastsave
  else
    match args with
    | Some a =>
        if str_eqb upperCmd "CONFIG" then Ok (ConfigGet (drop 1 a))
        else if str_eqb upperCmd "COLLECT_KEY_ANALYTICS" then Ok (CollectKeyAnalytics (head a))
        else if str_eqb upperCmd "HGETFIELD_BUFFER" && (2 <=? js_len a) then
          match a with k :: f :: _ => Ok (HgetBuffer k f) | _ => Ok (Call (upperCmd :: a)) end
        else if str_eqb upperCmd "FT" && (0 <? js_len a) then
          match a with s :: rest => Ok (Call (("FT." +:+ to_upper s) :: rest)) | [] => Ok (Call [upperCmd]) end
        else Ok (Call (upperCmd :: a))
    | None => Ok (Call [upperCmd])
    end.

(** *** Specification *)

(** A command and its first argument that safe mode lets through: listed, and
    with a listed subcommand where the list has some. *)
Definition safe_pair (command : string) (sub : option string) : Prop :=
  command ∈ ALLOWED_COMMANDS ∧
  ∀ subs, jm_get command ALLOWED_SUBCOMMANDS = Some subs → ∃ s, sub = Some s ∧ s ∈ subs.

(** Never let through, in any mode. *)
Definition blocked_pair (command : string) (sub : option string) : Prop :=
  command ∈ BLOCKED_COMMANDS ∨ (command = "CLIENT" ∧ sub = Some "PAUSE").

(** An argument as a user quotes it. *)
Definition escape_cli (c : ascii) : string :=
  if bool_decide (c = quote_char) || bool_decide (c = backslash)
  then String backslash (String c EmptyString) else String c EmptyString.
Definition quote_arg (a : string) : string :=
  String quote_char (str_flat_map escape_cli a +:+ String quote_char EmptyString).

(** ** Lemmas *)
Lemma push_char_app s c t : push_char s c +:+ t = s +:+ String c t.
Proof. unfold push_char. by rewrite str_app_assoc. Qed.

(** Inside double quotes the escaped text of an argument adds the argument. *)
Lemma parse_loop_escaped parts current a rest :
  is_empty rest = false →
  parse_loop parts current (Some quote_char) false (str_flat_map escape_cli a +:+ rest)
  = parse_loop parts (current +:+ a) (Some quote_char) false rest.
Proof.
  intros Hrest. revert current. induction a as [|c a IH]; intros current.
  - simpl. by rewrite str_app_nil_r.
  - cbn [str_flat_map]. rewrite str_app_assoc.
    assert (Hne : is_empty (str_flat_map escape_cli a +:+ rest) = false)
      by (by destruct (str_flat_map escape_cli a)).
    unfold escape_cli at 1.
    destruct (bool_decide (c = quote_char) || bool_decide (c = backslash)) eqn:Ec.
    + cbn [String.append parse_loop]. rewrite bool_decide_eq_true_2 by done. cbn [is_empty negb andb].
      rewrite IH. by rewrite push_char_app.
    + cbn [String.append parse_loop]. apply orb_false_iff in Ec as [Eq Eb].
      rewrite Eb, Eq. cbn [andb]. rewrite IH. by rewrite push_char_app.
Qed.

Lemma parse_quoted_arg parts a rest :
  parse_loop parts EmptyString None false (quote_arg a +:+ rest)
  = parse_loop parts a None false rest.
Proof.
  unfold quote_arg. cbn [String.append parse_loop]. rewrite bool_decide_eq_true_2 by done.
  cbn [orb]. rewrite str_app_assoc, parse_loop_escaped by done. cbn [String.append parse_loop].
  rewrite bool_decide_eq_false_2 by done. rewrite bool_decide_eq_true_2 by done. done.
Qed.

Lemma parse_quoted_args parts args :
  (∀ a, a ∈ args → is_empty a = false) →
  parse_loop parts EmptyString None false (join " " (quote_arg <$> args)) = parts ++ args.
Proof.
  revert parts. induction args as [|a args IH]; intros parts Hne; [by rewrite app_nil_r|].
  assert (Ha : is_empty a = false) by (apply Hne; left).
  destruct args as [|b args].
  - change (join " " (quote_arg <$> [a])) with (quote_arg a).
    rewrite <-(str_app_nil_r (quote_arg a)), parse_quoted_arg. cbn [parse_loop].
    unfold push_current. by rewrite Ha.
  - change (join " " (quote_arg <$> a :: b :: args))
      with (quote_arg a +:+ String " " (join " " (quote_arg <$> b :: args))).
    rewrite parse_quoted_arg. cbn [parse_loop].
    rewrite !(bool_decide_eq_false_2 (" "%char = _)) by done. cbn [orb].
    rewrite bool_decide_eq_true_2 by done. unfold push_current at 1. rewrite Ha.
    rewrite IH by (intros x Hx; apply Hne; by right). by rewrite <-app_assoc.
Qed.

Lemma checkBlocked_None command sub :
  checkBlocked command sub = None → ¬ blocked_pair command sub.
Proof.
  unfold checkBlocked, blocked_pair. destruct (js_includes command BLOCKED_COMMANDS) eqn:E; [done|].
  apply js_includes_false in E. intros H [?|[-> ->]]; [done|]. vm_compute in H. done.
Qed.

Lemma checkSafeMode_None command sub : checkSafeMode command sub = None → safe_pair command sub.
Proof.
  unfold checkSafeMode, safe_pair. destruct (js_includes command ALLOWED_COMMANDS) eqn:E; [|done].
  apply js_includes_true in E. cbn [negb]. intros H. split; [done|]. intros subs Hs.
  rewrite Hs in H. destruct sub as [[|c s]|]; [done| |done].
  destruct (js_includes (String c s) subs) eqn:Ei; [|done]. apply js_includes_true in Ei.
  by exists (String c s).
Qed.

(** The two lists do not overlap. *)
Lemma safe_not_blocked command sub : safe_pair command sub → ¬ blocked_pair command sub.
Proof.
  intros [Hin Hsub] [Hb|[-> ->]].
  - assert (Hd : Forall (λ c, c ∉ BLOCKED_COMMANDS) ALLOWED_COMMANDS)
      by (apply (bool_decide_unpack _); vm_compute; exact I).
    rewrite Forall_forall in Hd. by apply (Hd command).
  - destruct (Hsub _ eq_refl) as (s & [= <-] & Hs). revert Hs.
    apply (bool_decide_unpack _). vm_compute. exact I.
Qed.

Lemma cli_gate_call unsafeMode line command args :
  cli_gate unsafeMode line = GateCall command args →
  ∃ verb, parseCommandLine (trim line) = verb :: args ∧ command = to_upper verb
    ∧ ¬ blocked_pair command (to_upper <$> head args)
    ∧ (unsafeMode = false → safe_pair command (to_upper <$> head args)).
Proof.
  unfold cli_gate. destruct (parseCommandLine (trim line)) as [|verb rest]; [done|].
  destruct (checkBlocked (to_upper verb) (to_upper <$> head rest)) eqn:Eb; [done|].
  pose proof (checkBlocked_None _ _ Eb) as Hb. destruct unsafeMode.
  - intros [= <- <-]. by exists verb.
  - destruct (checkSafeMode (to_upper verb) (to_upper <$> head rest)) eqn:Es; [done|].
    intros [= <- <-]. exists verb. split_and!; [done..|]. intros _. by apply checkSafeMode_None.
Qed.

(** ** Properties *)

(** Whatever the user types, the CLI calls the database only with the parsed
    arguments of the line, never with a blocked command, and in safe mode only
    with a listed command and, where the list restricts it, a listed
    subcommand. *)
Theorem cli_gate_sound unsafeMode line command args :
  cli_gate unsafeMode line = GateCall command args →
  (∃ verb, parseCommandLine (trim line) = verb :: args ∧ command = to_upper verb)
  ∧ ¬ blocked_pair command (to_upper <$> head args)
  ∧ (unsafeMode = false → safe_pair command (to_upper <$> head args)).
Proof.
  intros H. destruct (cli_gate_call _ _ _ _ H) as (verb & Hp & Hc & Hb & Hs).
  split_and!; [by exists verb|done|done].
Qed.

Lemma cli_gate_sound_witness : safe_pair "CONFIG" (Some "GET").
Proof.
  apply (proj2 (proj2 (cli_gate_sound false "config get maxmemory" "CONFIG" ["get"; "maxmemory"]
    eq_refl))). reflexivity.
Defined.

(** The two gates agree: the CLI in a mode lets a command line through exactly
    when the agent in the same mode executes its words. *)
Theorem cli_agent_agree unsafeMode line verb args :
  parseCommandLine (trim line) = verb :: args →
  cli_gate unsafeMode line = GateCall (to_upper verb) args
  ↔ isAllowed unsafeMode verb (Some args) = true.
Proof.
  intros Hp. unfold cli_gate, isAllowed. rewrite Hp.
  replace (match args with a :: _ => Some (to_upper a) | [] => None end)
    with (to_upper <$> head args) by (by destruct args).
  destruct (checkBlocked _ _); [done|]. destruct unsafeMode; [done|].
  by destruct (checkSafeMode _ _).
Qed.

Lemma cli_agent_agree_witness : isAllowed false "slowlog" (Some ["get"; "10"]) = true.
Proof. apply (cli_agent_agree false "slowlog get 10" "slowlog" ["get"; "10"]); reflexivity. Defined.

(** Quoting is understood: arguments written in double quotes, with quotes and
    backslashes escaped, parse back to themselves, spaces included, as long as
    none is empty. *)
Theorem parseCommandLine_quoted args :
  (∀ a, a ∈ args → is_empty a = false) →
  parseCommandLine (join " " (quote_arg <$> args)) = args.
Proof. intros H. by apply (parse_quoted_args []). Qed.

Lemma parseCommandLine_quoted_witness :
  parseCommandLine (join " " (quote_arg <$> ["SET"; "my key"; "it's \ here"]))
  = ["SET"; "my key"; "it's \ here"].
Proof.
  apply parseCommandLine_quoted. apply Forall_forall. repeat constructor.
Defined.

(** An empty argument is dropped: the words of [SET k] followed by an empty
    quoted string are [SET] and [k] alone. *)
Theorem empty_argument_dropped :
  parseCommandLine (join " " (quote_arg <$> ["SET"; "k"; EmptyString])) = ["SET"; "k"].
Proof. reflexivity. Qed.

(** In unsafe mode the agent accepts CONFIG SET and runs CONFIG GET: whatever
    the subcommand, CONFIG with arguments becomes a read of the remaining
    words. *)
Theorem agent_config_always_get args :
  agent_execute true "CONFIG" (Some args) = Ok (ConfigGet (drop 1 args)).
Proof.
  unfold agent_execute. change (to_upper "CONFIG") with "CONFIG".
  assert (Ha : isAllowed true "CONFIG" (Some args) = true).
  { unfold isAllowed. change (to_upper "CONFIG") with "CONFIG". unfold checkBlocked.
    assert (Hn : js_includes "CONFIG" BLOCKED_COMMANDS = false) by (vm_compute; reflexivity).
    rewrite Hn. destruct args as [|a args]; [done|]. destruct (to_upper a); done. }
  rewrite Ha. reflexivity.
Qed.

(** Safe mode is not read-only: the CLI in safe mode passes commands that
    erase the server's slow log, command log and latency history. *)
Theorem safe_mode_resets :
  cli_gate false "SLOWLOG RESET" = GateCall "SLOWLOG" ["RESET"]
  ∧ cli_gate false "COMMANDLOG RESET" = GateCall "COMMANDLOG" ["RESET"]
  ∧ cli_gate false "LATENCY RESET" = GateCall "LATENCY" ["RESET"].
Proof. vm_compute. done. Qed.
