(* ===== verification/Preflight.v ===== *)
(** * Checks before a capture: ACL, provider, configuration hazards, size

    [acl-checker.ts], [config-hazard.ts], [provider-detector.ts] and the estimate of
    [preflight.service.ts] (all under [apps/api/src/monitor]).  A reply of the
    server is a value of [reply]; the environment variable of the provider
    override is an argument. *)
From S2P Require Export JsString JsNumber.
From stdpp Require Import options.

(** ** Definitions *)

(** What a client library hands back: nil, a string, an array, a record, or a
    value of another type. *)
#[warnings="-register-all"]
Inductive reply :=
  | RNil
  | RStr (s : string)
  | RArr (l : list reply)
  | RMap (fields : list (string * reply))
  | ROther.

(** *** ACL *)
Record AclCheckResult := {
  acl_username : string;
  acl_hasMonitor : bool;
  acl_setUserSnippet : option string;
  acl_rawRules : option string
}.

(** The flat array [key, value, ...]: the first string under [commands]. *)
Fixpoint pairs_commands (l : list reply) : string :=
  match l with
  | k :: v :: l' =>
      match k, v with
      | RStr k, RStr v => if str_eqb k "commands" then v else pairs_commands l'
      | _, _ => pairs_commands l'
      end
  | _ => EmptyString
  end.

Definition extractRules (raw : reply) : string :=
  match raw with
  | RMap fields =>
      match jm_get "commands" fields with Some (RStr c) => c | _ => EmptyString end
  | RArr l => pairs_commands l
  | _ => EmptyString
  end.

Definition grantsMonitor (rules : string) : bool :=
  if is_empty rules then false else
  let tokens := ws_tokens rules in
  if js_includes "-monitor" tokens then false
  else if js_includes "+monitor" tokens then true
  else if js_includes "allcommands" tokens then true
  else if js_includes "+@all" tokens then true
  else if js_includes "+@dangerous" tokens then true
  else false.

Definition buildSnippet (username : string) : string :=
  "ACL SETUSER " +:+ username +:+ " +monitor".

(** [check], with the answers of [ACL WHOAMI] and of [ACL GETUSER username]. *)
Definition check (whoami : outcome string reply) (getuser : string → outcome string reply)
    : AclCheckResult :=
  let username := match whoami with Ok (RStr u) => u | _ => "default" end in
  match getuser username with
  | Throw _ =>
      {| acl_username := username; acl_hasMonitor := false;
         acl_setUserSnippet := Some (buildSnippet username); acl_rawRules := None |}
  | Ok raw =>
      let rules := extractRules raw in
      if grantsMonitor rules
      then {| acl_username := username; acl_hasMonitor := true; acl_setUserSnippet := None;
              acl_rawRules := Some rules |}
      else {| acl_username := username; acl_hasMonitor := false;
              acl_setUserSnippet := Some (buildSnippet username); acl_rawRules := Some rules |}
  end.

(** *** Configuration hazards *)
Inductive HazardSeverity := Sev_warning | Sev_info.
Inductive HazardStatus := Hz_hazard | Hz_unverified | Hz_advisory.
Record ConfigHazardFinding := {
  hf_id : string;
  hf_severity : HazardSeverity;
  hf_status : HazardStatus;
  hf_message : string
}.

(** [aclGetUserResult]: the reply, or the marker of a refused probe. *)
Inductive acl_probe := Denied | Replied (raw : reply).
Record ConfigHazardInput := {
  hi_appendonly : option string;
  hi_version : option string;
  hi_aclGetUserResult : acl_probe
}.

Definition HAZARD_MESSAGE : string :=
  "The default user is disabled with AOF enabled — EXEC/function writes can be silently lost on "
  +:+ "AOF reload (valkey#3983). Grant `default +@all ~* &*`, or keep the user enabled.".
Definition UNVERIFIED_MESSAGE : string :=
  "AOF is enabled but the default user ACL could not be verified — if the "
  +:+ "default user is disabled without `+@all ~* &*`, EXEC/function writes can be silently lost on "
  +:+ "AOF reload (valkey#3983).".

Definition unverifiedFinding (reason : string) : ConfigHazardFinding :=
  {| hf_id := "default-user-aof-data-loss"; hf_severity := Sev_warning; hf_status := Hz_unverified;
     hf_message := UNVERIFIED_MESSAGE +:+ " (could not verify the default user's grants: "
                   +:+ reason +:+ ")" |}.

Record ParsedAclUser := {
  au_flags : list string;
  au_commands : string;
  au_keys : string;
  au_channels : string
}.

Definition toStringArray (value : option reply) : list string :=
  match value with
  | Some (RArr l) => omap (λ r, match r with RStr s => Some s | _ => None end) l
  | Some (RStr s) => ws_tokens s
  | _ => []
  end.
Definition toStringValue (value : option reply) : string :=
  match value with Some (RStr s) => s | _ => EmptyString end.

(** The object the pair array builds: a later pair of a key replaces an earlier. *)
Fixpoint pair_fields (fields : list (string * reply)) (l : list reply) : list (string * reply) :=
  match l with
  | k :: v :: l' =>
      pair_fields (match k with RStr k => jm_set k v fields | _ => fields end) l'
  | _ => fields
  end.

Definition user_of_fields (fields : list (string * reply)) : ParsedAclUser :=
  {| au_flags := toStringArray (jm_get "flags" fields);
     au_commands := toStringValue (jm_get "commands" fields);
     au_keys := toStringValue (jm_get "keys" fields);
     au_channels := toStringValue (jm_get "channels" fields) |}.

Definition parseAclUser (raw : reply) : option ParsedAclUser :=
  match raw with
  | RMap fields => Some (user_of_fields fields)
  | RArr l => Some (user_of_fields (pair_fields [] l))
  | _ => None
  end.

Definition hasUnrestrictedGrant (user : ParsedAclUser) : bool :=
  let commandTokens := ws_tokens (au_commands user) in
  if js_some (starts_with "-") commandTokens then false else
  let allCommands := js_includes "+@all" commandTokens || js_includes "allcommands" commandTokens
                     || js_includes "allcommands" (au_flags user) in
  let allKeys := js_includes "~*" (split_ws (au_keys user)) || js_includes "allkeys" (au_flags user) in
  let allChannels := js_includes "&*" (split_ws (au_channels user))
                     || js_includes "allchannels" (au_flags user) in
  allCommands && allKeys && allChannels.

Definition isPreAclVersion (version : option string) : bool :=
  match version with
  | None | Some EmptyString => false
  | Some v => match parse_int v with None => false | Some major => major <? 6 end
  end.

Definition evaluateAclAofHazard (input : ConfigHazardInput) : option ConfigHazardFinding :=
  if negb (bool_decide (hi_appendonly input = Some "yes")) then None
  else if isPreAclVersion (hi_version input) then None
  else match hi_aclGetUserResult input with
       | Denied => Some (unverifiedFinding "ACL GETUSER was denied")
       | Replied (RStr "denied") => Some (unverifiedFinding "ACL GETUSER was denied")
       | Replied raw =>
           match parseAclUser raw with
           | None => Some (unverifiedFinding "unexpected ACL GETUSER reply")
           | Some user =>
               if negb (js_includes "off" (au_flags user)) then None
               else if hasUnrestrictedGrant user then None
               else Some {| hf_id := "default-user-aof-data-loss"; hf_severity := Sev_warning;
                            hf_status := Hz_hazard; hf_message := HAZARD_MESSAGE |}
           end
       end.

Record AppendfsyncHazardInput := {
  fi_appendonly : option string;
  fi_appendfsync : option string;
  fi_aofDelayedFsync : option Z;
  fi_delayedFsyncRisingStreak : Z;
  fi_aofLastWriteStatus : option string;
  fi_latencyEvents : list string
}.
Definition AOF_LATENCY_EVENTS : list string := ["aof-fsync-always"; "aof-write"].

Definition ALWAYS_ADVICE : string :=
  "Consider appendfsync everysec unless per-write durability is a hard requirement, and check "
  +:+ "disk latency (valkey#3515).".

Definition evaluateAppendfsyncHazard (input : AppendfsyncHazardInput) : option ConfigHazardFinding :=
  if negb (bool_decide (fi_appendonly input = Some "yes")) then None
  else if bool_decide (fi_appendfsync input = Some "always") then
    let writeSymptoms :=
      match fi_aofLastWriteStatus input with
      | Some s => if str_eqb s "ok" then [] else ["aof_last_write_status=" +:+ s]
      | None => []
      end in
    let aofLatencyHits := js_filter (λ e, js_includes e AOF_LATENCY_EVENTS) (fi_latencyEvents input) in
    let symptoms := writeSymptoms ++
      (if 0 <? js_len aofLatencyHits then ["LATENCY events: " +:+ join ", " aofLatencyHits] else []) in
    if 0 <? js_len symptoms
    then Some {| hf_id := "appendfsync-always-blocking"; hf_severity := Sev_warning;
                 hf_status := Hz_hazard;
                 hf_message :=
                   "appendfsync=always is blocking the main thread on this instance: "
                   +:+ join "; " symptoms
                   +:+ ". Every write fsyncs synchronously in the command path, so disk latency becomes command "
                   +:+ "latency. " +:+ ALWAYS_ADVICE |}
    else Some {| hf_id := "appendfsync-always-blocking"; hf_severity := Sev_info;
                 hf_status := Hz_advisory;
                 hf_message :=
                   "appendfsync=always fsyncs on the main thread for every write — a known latency risk on "
                   +:+ "non-NVMe or contended disks. No blocking symptoms observed on this instance yet. "
                   +:+ ALWAYS_ADVICE |}
  else if bool_decide (fi_appendfsync input = Some "everysec") then
    match fi_aofDelayedFsync input with
    | Some delayed =>
        if 2 <=? fi_delayedFsyncRisingStreak input
        then Some {| hf_id := "appendfsync-everysec-backlog"; hf_severity := Sev_warning;
                     hf_status := Hz_hazard;
                     hf_message :=
                       "The appendfsync=everysec background fsync is backing up: aof_delayed_fsync has risen on "
                       +:+ string_of_Z (fi_delayedFsyncRisingStreak input)
                       +:+ " consecutive probes (now " +:+ string_of_Z delayed
                       +:+ ") — writes were delayed because the previous fsync was still running. The disk cannot keep "
                       +:+ "up with the once-per-second fsync; check disk latency and I/O contention (valkey#3515)." |}
        else None
    | None => None
    end
  else None.

(** *** Provider *)
Inductive Provider :=
  | aws_elasticache | gcp_memorystore | redis_cloud | upstash | self_hosted | unknown.
#[global] Instance Provider_eq_dec : EqDecision Provider.
Proof. solve_decision. Defined.

Definition HOST_SUFFIXES : list (string * Provider) :=
  [(".internal.memorystore.googleapis.com", gcp_memorystore);
   (".serverless.cache.amazonaws.com", aws_elasticache);
   (".redis.cache.windows.net", unknown);
   (".gcp.cloud.rlrcp.com", redis_cloud);
   (".cache.amazonaws.com", aws_elasticache);
   (".redis-cloud.com", redis_cloud);
   (".redislabs.com", redis_cloud);
   (".upstash.io", upstash)].

Definition PROVIDER_OVERRIDE_ALIASES : list (string * Provider) :=
  [("elasticache", aws_elasticache); ("aws-elasticache", aws_elasticache);
   ("memorystore", gcp_memorystore); ("gcp-memorystore", gcp_memorystore);
   ("redis-cloud", redis_cloud); ("rediscloud", redis_cloud); ("upstash", upstash);
   ("self-hosted", self_hosted); ("selfhosted", self_hosted); ("unknown", unknown)].

Definition readProviderOverride (raw : option string) : option Provider :=
  match raw with
  | None | Some EmptyString => None
  | Some raw => jm_get (to_lower (trim raw)) PROVIDER_OVERRIDE_ALIASES
  end.

Definition matchByHost (host : option string) : option Provider :=
  match host with
  | None | Some EmptyString => None
  | Some host => snd <$> js_find (λ e, ends_with e.1 (to_lower host)) HOST_SUFFIXES
  end.

Definition matchByServerInfo (server : list (string * string)) : option Provider :=
  let buildId := to_lower (default EmptyString (jm_get "redis_build_id" server)) in
  let os := to_lower (default EmptyString (jm_get "os" server)) in
  if includes "redislabs" buildId then Some redis_cloud
  else if includes "amazon" os then Some aws_elasticache
  else None.

Definition detectProvider (override : option string) (server : list (string * string))
    (host : option string) : Provider :=
  match readProviderOverride override with
  | Some p => p
  | None =>
      match matchByHost host with
      | Some p => p
      | None => default self_hosted (matchByServerInfo server)
      end
  end.

(** *** The size estimate *)
Definition AVG_MONITOR_LINE_BYTES : number := num_of_Z 120.
Definition parseOptionalNumber (raw : option string) : option number :=
  match raw with
  | None | Some EmptyString => None
  | Some raw => let n := parse_float raw in if is_nan n then None else Some n
  end.
Definition estimate (opsField : option string) (durationMs : number) : number * number :=
  let opsPerSec := default (num_of_Z 0) (parseOptionalNumber opsField) in
  let estimatedLines := math_round (num_mul opsPerSec (num_div durationMs (num_of_Z 1000))) in
  (estimatedLines, num_mul estimatedLines AVG_MONITOR_LINE_BYTES).

(** *** Specification

    How the server reads the command rules: left to right, each token that
    concerns MONITOR (itself, its categories, or all commands) overriding the
    earlier ones. *)
Definition acl_grants : list string :=
  ["+monitor"; "allcommands"; "+@all"; "+@dangerous"; "+@admin"; "+@slow"].
Definition acl_denies : list string :=
  ["-monitor"; "nocommands"; "-@all"; "-@dangerous"; "-@admin"; "-@slow"].
Definition acl_step (allowed : bool) (token : string) : bool :=
  if js_includes token acl_grants then true
  else if js_includes token acl_denies then false
  else allowed.
Definition server_allows_monitor (rules : string) : bool := foldl acl_step false (ws_tokens rules).

(** ** Lemmas *)
Lemma acl_fold_grants tokens b :
  (∀ t, t ∈ tokens → t ∉ acl_denies) →
  foldl acl_step b tokens = true ↔ b = true ∨ ∃ t, t ∈ tokens ∧ t ∈ acl_grants.
Proof.
  revert b. induction tokens as [|t tokens IH]; intros b Hd; simpl.
  - split; [by left|]. intros [?|(t & Ht & _)]; [done|by apply elem_of_nil in Ht].
  - rewrite IH by (intros t' Ht'; apply Hd; by right). unfold acl_step.
    destruct (js_includes t acl_grants) eqn:Eg.
    + apply js_includes_true in Eg. split; [|by left]. intros _. right. exists t. by split; [left|].
    + apply js_includes_false in Eg.
      assert (Hn : js_includes t acl_denies = false)
        by (apply js_includes_false, Hd; by left).
      rewrite Hn. split.
      * intros [?|(t' & Ht' & Hg)]; [by left|]. right. exists t'. by split; [right|].
      * intros [?|(t' & [->|Ht']%elem_of_cons & Hg)]; [by left|done|].
        right. by exists t'.
Qed.

Lemma grantsMonitor_token rules :
  grantsMonitor rules = true → ∃ t, t ∈ ws_tokens rules ∧ t ∈ acl_grants.
Proof.
  unfold grantsMonitor. destruct (is_empty rules); [done|].
  destruct (js_includes "-monitor" _); [done|].
  repeat match goal with
  | |- context [js_includes ?t (ws_tokens rules)] =>
      destruct (js_includes t (ws_tokens rules)) eqn:?;
      [intros _; exists t; split; [by apply js_includes_true|by apply (bool_decide_unpack _)]|]
  end. done.
Qed.

(** ** Properties *)

(** The MONITOR check is sound on additive rules: when no rule takes a
    command or category of MONITOR away, a user reported as able to run MONITOR
    is one the server lets run it. *)
Theorem acl_check_sound rules :
  (∀ t, t ∈ ws_tokens rules → t ∉ acl_denies) →
  grantsMonitor rules = true → server_allows_monitor rules = true.
Proof.
  intros Hd Hg. apply acl_fold_grants; [done|]. right. by apply grantsMonitor_token.
Qed.

Lemma acl_check_sound_witness : server_allows_monitor "~* +@read +@dangerous" = true.
Proof.
  apply acl_check_sound; [|reflexivity]. apply Forall_forall. apply (bool_decide_unpack _).
  vm_compute. exact I.
Defined.

(** With a category denied after a broad grant the check is wrong: a user with
    all commands but the dangerous ones is reported as having MONITOR, which
    the server refuses. *)
Theorem acl_dangerous_denied :
  grantsMonitor "+@all -@dangerous" = true ∧ server_allows_monitor "+@all -@dangerous" = false.
Proof. vm_compute. done. Qed.

(** The data-loss check stays silent only with a reason: append-only files are
    off, the server predates ACLs, or a reply was parsed in which the default
    user is not flagged off or carries the unrestricted grant with no denial. *)
Theorem aof_hazard_silent input :
  evaluateAclAofHazard input = None →
  hi_appendonly input ≠ Some "yes" ∨ isPreAclVersion (hi_version input) = true
  ∨ ∃ raw user, hi_aclGetUserResult input = Replied raw ∧ parseAclUser raw = Some user
      ∧ ("off" ∉ au_flags user
         ∨ (∀ t, t ∈ ws_tokens (au_commands user) → starts_with "-" t = false)
           ∧ hasUnrestrictedGrant user = true).
Proof.
  unfold evaluateAclAofHazard. destruct (bool_decide (hi_appendonly input = Some "yes")) eqn:Ea;
    [|js_bools; by left].
  destruct (isPreAclVersion (hi_version input)) eqn:Ev; [by right; left|]. cbn [negb].
  destruct (hi_aclGetUserResult input) as [|raw]; [done|]. intros H. right; right.
  destruct (parseAclUser raw) as [user|] eqn:Ep.
  2:{ exfalso. destruct raw; try done. simpl in H. revert H. repeat case_match; done. }
  exists raw, user. split_and!; [done..|].
  assert (H' : (if negb (js_includes "off" (au_flags user)) then None
    else if hasUnrestrictedGrant user then None
    else Some {| hf_id := "default-user-aof-data-loss"; hf_severity := Sev_warning;
                 hf_status := Hz_hazard; hf_message := HAZARD_MESSAGE |}) = None) by (destruct raw; done).
  destruct (js_includes "off" (au_flags user)) eqn:Eo.
  - right. cbn [negb] in H'. destruct (hasUnrestrictedGrant user) eqn:Eg; [|done].
    split; [|done]. unfold hasUnrestrictedGrant in Eg.
    destruct (js_some _ _) eqn:Es; [done|]. intros t Ht.
    apply not_true_iff_false. intros Hs. apply not_true_iff_false in Es. apply Es.
    apply js_some_true. by exists t.
  - left. by apply js_includes_false.
Qed.

Definition sample_hazard_input : ConfigHazardInput :=
  {| hi_appendonly := Some "yes"; hi_version := Some "7.2.0";
     hi_aclGetUserResult := Replied (RArr [RStr "flags"; RArr [RStr "on"]]) |}.

Lemma aof_hazard_silent_witness :
  hi_appendonly sample_hazard_input ≠ Some "yes"
  ∨ isPreAclVersion (hi_version sample_hazard_input) = true
  ∨ ∃ raw user, hi_aclGetUserResult sample_hazard_input = Replied raw ∧ parseAclUser raw = Some user
      ∧ ("off" ∉ au_flags user
         ∨ (∀ t, t ∈ ws_tokens (au_commands user) → starts_with "-" t = false)
           ∧ hasUnrestrictedGrant user = true).
Proof. apply (aof_hazard_silent sample_hazard_input). reflexivity. Defined.

(** A reply that says nothing reads as clean: with append-only files on and an
    empty answer to ACL GETUSER, the check reports no finding although it has
    verified nothing. *)
Theorem aof_hazard_empty_reply :
  evaluateAclAofHazard {| hi_appendonly := Some "yes"; hi_version := Some "7.2.0";
                          hi_aclGetUserResult := Replied (RArr []) |} = None.
Proof. reflexivity. Qed.
