(* ===== verification/Json.v ===== *)
(** * JSON values and their text

    The payloads of webhook events are arbitrary JSON data.  This file models
    the values and [JSON.stringify] on them, without indentation, as the code
    calls it: members in insertion order, strings escaped, numbers printed as
    [toString] does. *)
From S2P Require Export JsNumber.
From stdpp Require Import options.

(** ** Definitions *)
#[warnings="-register-all"]
Inductive json : Type :=
  | JNull
  | JBool (b : bool)
  | JNum (n : number)
  | JStr (s : string)
  | JArr (l : list json)
  | JObj (fields : list (string * json)).

Definition hex_digit (n : N) : ascii :=
  ascii_of_N (if (n <? 10)%N then 48 + n else 87 + n).

(** One character of a string literal. *)
Definition json_char (c : ascii) : string :=
  if ascii_dec c quote_char then String backslash (String quote_char EmptyString)
  else if ascii_dec c backslash then String backslash (String backslash EmptyString)
  else if ascii_dec c "008" then String backslash "b"
  else if ascii_dec c "009" then String backslash "t"
  else if ascii_dec c newline then String backslash "n"
  else if ascii_dec c "012" then String backslash "f"
  else if ascii_dec c "013" then String backslash "r"
  else if (code c <? 32)%N then
    String backslash ("u00" +:+ String (hex_digit (code c `div` 16)%N)
                                  (String (hex_digit (code c `mod` 16)%N) EmptyString))
  else String c EmptyString.

Definition json_string (s : string) : string :=
  String quote_char (str_flat_map json_char s +:+ String quote_char EmptyString).

Definition json_number (n : number) : string :=
  if is_finite n then num_to_string n else "null".

Fixpoint stringify (j : json) : string :=
  match j with
  | JNull => "null"
  | JBool b => if b then "true" else "false"
  | JNum n => json_number n
  | JStr s => json_string s
  | JArr l => "[" +:+ join "," (map stringify l) +:+ "]"
  | JObj fields =>
      "{" +:+ join "," (map (λ '(k, v), json_string k +:+ ":" +:+ stringify v) fields) +:+ "}"
  end.

(** An integer, as the code prints timestamps, ports and counters. *)
Definition JInt (z : Z) : json := JNum (num_of_Z z).

(** [{ ...fields, key: value }] *)
Definition json_set (key : string) (value : json) (fields : list (string * json))
    : list (string * json) := jm_set key value fields.

(** A member that is left out when its value is [undefined]. *)
Definition json_opt {A} (key : string) (to : A → json) (o : option A) : list (string * json) :=
  match o with Some a => [(key, to a)] | None => [] end.

(** *** Reading

    [JSON.parse].  White space is that of JSON; a repeated member keeps its first
    place and its last value. *)
Fixpoint json_ws (s : string) : string :=
  match s with
  | String c s' =>
      if (bool_decide (c = " "%char) || bool_decide (c = "009"%char)
          || bool_decide (c = "010"%char) || bool_decide (c = "013"%char))
      then json_ws s' else s
  | EmptyString => EmptyString
  end.

(** The four hexadecimal digits of a code unit. *)
Definition hex_unit (a b c d : ascii) : option N :=
  match radix_value 16 0 (String a (String b (String c (String d EmptyString)))) with
  | Some z => Some (Z.to_N z)
  | None => None
  end.

(** The UTF-8 form of a code unit, and of a pair of surrogates. *)
Definition utf8_unit (u : N) : string :=
  if (u <? 128)%N then String (ascii_of_N u) EmptyString
  else if (u <? 2048)%N then
    String (ascii_of_N (192 + u `div` 64)) (String (ascii_of_N (128 + u `mod` 64)) EmptyString)
  else lone_unit u.
Definition utf8_pair (hi lo : N) : string :=
  let p := (65536 + (hi - 55296) * 1024 + (lo - 56320))%N in
  String (ascii_of_N (240 + p `div` 262144))
    (String (ascii_of_N (128 + (p `div` 4096) `mod` 64))
      (String (ascii_of_N (128 + (p `div` 64) `mod` 64))
        (String (ascii_of_N (128 + p `mod` 64)) EmptyString))).

Definition simple_escape (c : ascii) : option ascii :=
  if bool_decide (c = quote_char) || bool_decide (c = backslash) || bool_decide (c = "/"%char)
  then Some c
  else if ascii_dec c "b" then Some "008"%char
  else if ascii_dec c "f" then Some "012"%char
  else if ascii_dec c "n" then Some newline
  else if ascii_dec c "r" then Some "013"%char
  else if ascii_dec c "t" then Some "009"%char
  else None.

Definition prepend (p : string) (r : option (string * string)) : option (string * string) :=
  match r with Some (t, rest) => Some (p +:+ t, rest) | None => None end.

(** A low surrogate's escape at the head. *)
Definition low_escape (s : string) : option (N * string) :=
  match s with
  | String b (String u (String h1 (String h2 (String h3 (String h4 rest))))) =>
      if bool_decide (b = backslash) && bool_decide (u = "u"%char) then
        match hex_unit h1 h2 h3 h4 with
        | Some lo => if ((56320 <=? lo) && (lo <=? 57343))%N then Some (lo, rest) else None
        | None => None
        end
      else None
  | _ => None
  end.

(** A string literal after its opening quote; each round takes at least a byte. *)
Fixpoint parse_string (fuel : nat) (s : string) : option (string * string) :=
  match fuel, s with
  | S fuel, String c s' =>
      if bool_decide (c = quote_char) then Some (EmptyString, s')
      else if (code c <? 32)%N then None
      else if bool_decide (c = backslash) then
        match s' with
        | String d s1 =>
            if bool_decide (d = "u"%char) then
              match s1 with
              | String h1 (String h2 (String h3 (String h4 rest))) =>
                  match hex_unit h1 h2 h3 h4 with
                  | Some u =>
                      if ((55296 <=? u) && (u <=? 56319))%N then
                        match low_escape rest with
                        | Some (lo, rest) => prepend (utf8_pair u lo) (parse_string fuel rest)
                        | None => prepend (utf8_unit u) (parse_string fuel rest)
                        end
                      else prepend (utf8_unit u) (parse_string fuel rest)
                  | None => None
                  end
              | _ => None
              end
            else match simple_escape d with
                 | Some e => prepend (String e EmptyString) (parse_string fuel s1)
                 | None => None
                 end
        | EmptyString => None
        end
      else prepend (String c EmptyString) (parse_string fuel s')
  | _, _ => None
  end.

Definition parse_number (s : string) : option (number * string) :=
  let '(neg, s1) := match s with
                    | String c s' => if ascii_dec c "-" then (true, s') else (false, s)
                    | EmptyString => (false, s)
                    end in
  let '(ip, s2) := span is_digit s1 in
  if is_empty ip || (starts_with "0" ip && (1 <? byte_length ip)) then None
  else
    let '(fp, s3, bad) :=
      match s2 with
      | String c s' =>
          if ascii_dec c "." then
            let '(fp, s3) := span is_digit s' in (fp, s3, is_empty fp)
          else (EmptyString, s2, false)
      | EmptyString => (EmptyString, s2, false)
      end in
    if bad then None
    else
      let '(e, s4, bad) :=
        match s3 with
        | String c s' =>
            if bool_decide (c = "e"%char) || bool_decide (c = "E"%char) then
              let '(eneg, s1) := parse_sign s' in
              let '(ds, s4) := span is_digit s1 in
              ((if eneg then - digits_value ds else digits_value ds), s4, is_empty ds)
            else (0, s3, false)
        | EmptyString => (0, s3, false)
        end in
      if (bad : bool) then None
      else Some (num_of_decimal neg (digits_value (ip +:+ fp)) (e - byte_length fp), s4).

Definition first_is (c : ascii) (s : string) : option string :=
  match json_ws s with
  | String d rest => if ascii_dec d c then Some rest else None
  | EmptyString => None
  end.

(** The elements of an array and the members of an object up to its end, after the opening
    bracket, with the reader of the values in them; each round takes at least a byte. *)
Section loops.
Context (parse : string → option (json * string)).

Fixpoint parse_elements (n : nat) (acc : list json) (s : string) : option (json * string) :=
  match n with
  | O => None
  | S n =>
      match parse s with
      | None => None
      | Some (v, s1) =>
          match first_is "," s1, first_is "]" s1 with
          | Some s2, _ => parse_elements n (acc ++ [v]) s2
          | None, Some s2 => Some (JArr (acc ++ [v]), s2)
          | None, None => None
          end
      end
  end.
Fixpoint parse_members (n : nat) (acc : list (string * json)) (s : string)
    : option (json * string) :=
  match n with
  | O => None
  | S n =>
      match first_is quote_char s with
      | None => None
      | Some s1 =>
          match parse_string (String.length s1) s1 with
          | None => None
          | Some (k, s2) =>
              match first_is ":" s2 with
              | None => None
              | Some s3 =>
                  match parse s3 with
                  | None => None
                  | Some (v, s4) =>
                      match first_is "," s4, first_is "}" s4 with
                      | Some s5, _ => parse_members n (jm_set k v acc) s5
                      | None, Some s5 => Some (JObj (jm_set k v acc), s5)
                      | None, None => None
                      end
                  end
              end
          end
      end
  end.
End loops.

(** A value at the head of the text; each level of nesting takes at least a byte. *)
Fixpoint parse_value (fuel : nat) (s : string) {struct fuel} : option (json * string) :=
  match fuel with
  | O => None
  | S fuel =>
      let s := json_ws s in
      if starts_with "null" s then Some (JNull, str_drop 4 s)
      else if starts_with "true" s then Some (JBool true, str_drop 4 s)
      else if starts_with "false" s then Some (JBool false, str_drop 5 s)
      else match s with
           | EmptyString => None
           | String c s' =>
               if bool_decide (c = quote_char) then
                 match parse_string (String.length s') s' with
                 | Some (t, rest) => Some (JStr t, rest)
                 | None => None
                 end
               else if ascii_dec c "[" then
                 match first_is "]" s' with
                 | Some rest => Some (JArr [], rest)
                 | None => parse_elements (parse_value fuel) (String.length s') [] s'
                 end
               else if ascii_dec c "{" then
                 match first_is "}" s' with
                 | Some rest => Some (JObj [], rest)
                 | None => parse_members (parse_value fuel) (String.length s') [] s'
                 end
               else match parse_number s with
                    | Some (n, rest) => Some (JNum n, rest)
                    | None => None
                    end
           end
  end.

(** [None] stands for the [SyntaxError]. *)
Definition json_parse (s : string) : option json :=
  match parse_value (S (String.length s)) s with
  | Some (v, rest) => if is_empty (json_ws rest) then Some v else None
  | None => None
  end.

(** [value[key]]: [None] where [value] is [null], which throws, [Some None] where
    there is no such member.  Members inherited from a prototype are functions,
    which no caller takes for a value. *)
Definition json_member (value : json) (key : string) : option (option json) :=
  match value with
  | JNull => None
  | JObj fields => Some (jm_get key fields)
  | JArr l =>
      Some (if str_eqb key "length" then Some (JInt (js_len l))
            else js_find_index (λ i, str_eqb key (string_of_Z (Z.of_nat i))) (seq 0 (length l))
                 ≫= λ i, l !! i)
  | JStr s => Some (if str_eqb key "length" then Some (JInt (js_length s)) else None)
  | _ => Some None
  end.

(** ** Checks *)
(** A text with back quotes for its quotation marks. *)
Definition quoted : string → string := str_map (λ c, if ascii_dec c "`" then quote_char else c).

Example json_parse_ex :
  map (λ s, stringify <$> json_parse (quoted s))
    [" {`a`:[1, -2.5e1,true ,null],`b`:`x\u00e9\ud83d\ude00\n`,`a`:{}} "; "[]"; "01"; "[1,]";
     "{`a`}"; "`\q`"; "tru"; "1 2"; EmptyString]
  = [Some (quoted "{`a`:{},`b`:`xé😀\n`}"); Some "[]"; None; None; None; None; None; None; None].
Proof. vm_compute. reflexivity. Qed.
Example stringify_ex :
  stringify (JObj [("a", JArr [JNull; JBool true; JInt 1706457600000]);
                   ("b", JStr (String quote_char (String newline (String "001" "x"))))])
  = "{" +:+ json_string "a" +:+ ":[null,true,1706457600000]," +:+ json_string "b" +:+ ":"
    +:+ String quote_char (String backslash (String quote_char (String backslash "n")))
    +:+ String backslash "u0001x" +:+ String quote_char "}".
Proof. vm_compute. reflexivity. Qed.
