(* ===== verification/JsonText.v ===== *)
(** * JSON text and back

    What [JSON.parse] makes of the text [JSON.stringify] printed, and what two values have in
    common that print alike.  A number reads back as the number its text denotes; everything else
    reads back as it was. *)
From S2P Require Export FloatOrder Json.
From stdpp Require Import options.

(** ** Specification *)
Definition json_ind' (P : json → Prop)
    (Hnull : P JNull) (Hbool : ∀ b, P (JBool b)) (Hnum : ∀ n, P (JNum n)) (Hstr : ∀ s, P (JStr s))
    (Harr : ∀ l, Forall P l → P (JArr l))
    (Hobj : ∀ fields, Forall (λ kv, P kv.2) fields → P (JObj fields)) : ∀ j, P j :=
  fix go j :=
    match j with
    | JNull => Hnull
    | JBool b => Hbool b
    | JNum n => Hnum n
    | JStr s => Hstr s
    | JArr l => Harr l ((fix go_list l : Forall P l := match l with
                                         | [] => Forall_nil_2 P
                                         | x :: l => Forall_cons_2 P x l (go x) (go_list l)
                                         end) l)
    | JObj fields =>
        Hobj fields ((fix go_fields l : Forall (λ kv, P kv.2) l := match l with
                                         | [] => Forall_nil_2 _
                                         | kv :: l => Forall_cons_2 _ kv l (go kv.2) (go_fields l)
                                         end) fields)
    end.

(** The values of the language that are JSON data: binary64 numbers, and at most one member of
    a name. *)
Fixpoint json_ok (j : json) : Prop :=
  match j with
  | JNum n => SpecFloat.valid_binary prec emax n = true
  | JArr l => foldr (λ x P, json_ok x ∧ P) True l
  | JObj fields => NoDup fields.*1 ∧ foldr (λ kv P, json_ok kv.2 ∧ P) True fields
  | _ => True
  end.

(** The number a reader takes the text of a number for. *)
Definition reread_num (x : number) : number :=
  match parse_number (num_to_string x) with Some (y, _) => y | None => x end.
(** The value a reader takes the text of a value for. *)
Fixpoint reread (j : json) : json :=
  match j with
  | JNum n => if is_finite n then JNum (reread_num n) else JNull
  | JArr l => JArr (map reread l)
  | JObj fields => JObj (map (λ '(k, v), (k, reread v)) fields)
  | _ => j
  end.

(** ** Lemmas *)

(** *** String literals *)
Lemma parse_string_char c n t :
  parse_string (S n) (json_char c +:+ t) = prepend (String c EmptyString) (parse_string n t).
Proof. destruct c as [[] [] [] [] [] [] [] []]; reflexivity. Qed.
Lemma json_char_nonempty c : (0 < String.length (json_char c))%nat.
Proof. destruct c as [[] [] [] [] [] [] [] []]; by apply Nat.ltb_lt. Qed.
Lemma parse_string_text s n rest :
  (String.length s < n)%nat →
  parse_string n (str_flat_map json_char s +:+ String quote_char rest) = Some (s, rest).
Proof.
  revert n. induction s as [|c s IH]; intros [|n] Hn; cbn [String.length] in Hn; try lia; [done|].
  cbn [str_flat_map]. rewrite str_app_assoc, parse_string_char, IH by lia. done.
Qed.
Lemma flat_map_length s : (String.length s ≤ String.length (str_flat_map json_char s))%nat.
Proof.
  induction s as [|c s IH]; [done|]. cbn [str_flat_map]. rewrite str_app_length.
  pose proof (json_char_nonempty c). cbn [String.length]. lia.
Qed.

(** *** The text of a number *)

(** The decimal exponent is found. *)
Definition reaches (num den n : Z) : Prop :=
  if 0 <=? n then den * 10 ^ n ≤ num else den ≤ num * 10 ^ (- n).
Lemma reaches_pred num den n : 0 < num → 0 < den →
  (if 0 <=? n then den * 10 ^ n else den) ≤ 10 * (if 0 <=? n then num else num * 10 ^ (- n))
  ↔ reaches num den (n - 1).
Proof.
  intros Hnum Hden. unfold reaches.
  destruct (Z.leb_spec 0 n), (Z.leb_spec 0 (n - 1)); try lia.
  - replace n with (Z.succ (n - 1)) at 1 by lia. rewrite Z.pow_succ_r by lia. nia.
  - assert (n = 0) as -> by lia. cbn. lia.
  - replace (- (n - 1)) with (Z.succ (- n)) by lia. rewrite Z.pow_succ_r by lia. nia.
Qed.
Lemma reaches_step num den n : 0 < num → 0 < den → reaches num den n → reaches num den (n - 1).
Proof.
  intros Hnum Hden Hr. apply reaches_pred; [done..|]. revert Hr. unfold reaches.
  destruct (Z.leb_spec 0 n); intros Hr; [nia|].
  assert (0 ≤ num * 10 ^ (- n)) by (apply Z.mul_nonneg_nonneg; [lia|apply Z.pow_nonneg; lia]). lia.
Qed.
Lemma reaches_below num den n m : 0 < num → 0 < den → m ≤ n → reaches num den n → reaches num den m.
Proof.
  intros Hnum Hden Hm. replace m with (n - Z.of_nat (Z.to_nat (n - m))) by lia.
  induction (Z.to_nat (n - m)) as [|k IH]; intros Hr.
  - by rewrite Z.sub_0_r.
  - rewrite Nat2Z.inj_succ. replace (n - Z.succ (Z.of_nat k)) with (n - Z.of_nat k - 1) by lia.
    apply reaches_step; auto.
Qed.
Lemma dec_exponent_finds num den N n fuel :
  0 < num → 0 < den → reaches num den (N - 1) → ¬ reaches num den N → Z.abs (n - N) < Z.of_nat fuel →
  dec_exponent fuel num den n = N.
Proof.
  intros Hnum Hden Hlo Hhi. revert n. induction fuel as [|fuel IH]; intros n Hf; [lia|].
  cbn [dec_exponent].
  assert (Hab : (if 0 <=? n then (num, den * 10 ^ n) else (num * 10 ^ (- n), den))
                = (if 0 <=? n then num else num * 10 ^ (- n), if 0 <=? n then den * 10 ^ n else den))
    by (destruct (0 <=? n); done).
  rewrite Hab. clear Hab.
  destruct (Z.leb_spec (if 0 <=? n then den * 10 ^ n else den) (if 0 <=? n then num else num * 10 ^ (- n)))
    as [Hr|Hr].
  - assert (reaches num den n) by (unfold reaches; destruct (0 <=? n); done).
    assert (n < N) by (apply Z.nle_gt; intros ?; apply Hhi; by eapply reaches_below).
    apply IH. lia.
  - assert (¬ reaches num den n) by (unfold reaches; destruct (0 <=? n); lia).
    destruct (Z.leb_spec (if 0 <=? n then den * 10 ^ n else den)
                (10 * (if 0 <=? n then num else num * 10 ^ (- n)))) as [Hp|Hp].
    + apply reaches_pred in Hp; [|done..].
      destruct (Z.lt_trichotomy n N) as [?|[?|?]]; [|done|].
      * exfalso. apply H. apply (reaches_below num den (N - 1)); [done..|lia|done].
      * exfalso. apply Hhi. apply (reaches_below num den (n - 1)); [done..|lia|done].
    + apply IH. assert (¬ reaches num den (n - 1)) by (rewrite <-reaches_pred by done; lia).
      assert (N < n) by (apply Z.nle_gt; intros ?; apply H0; apply (reaches_below num den (N - 1)); [done..|lia|done]).
      lia.
Qed.
Lemma exponent_between num den lo (k : nat) :
  reaches num den lo → ¬ reaches num den (lo + Z.of_nat k) →
  ∃ N, lo < N ≤ lo + Z.of_nat k ∧ reaches num den (N - 1) ∧ ¬ reaches num den N.
Proof.
  intros Hlo. induction k as [|k IH]; intros Hhi; [by rewrite Z.add_0_r in Hhi|].
  assert (Hd : reaches num den (lo + Z.of_nat k) ∨ ¬ reaches num den (lo + Z.of_nat k)).
  { unfold reaches. destruct (0 <=? lo + Z.of_nat k); lia. }
  destruct Hd as [Hr|Hr].
  - exists (lo + Z.of_nat (S k)). replace (lo + Z.of_nat (S k) - 1) with (lo + Z.of_nat k) by lia.
    split; [lia|done].
  - destruct (IH Hr) as (N & HN & H1 & H2). exists N. split; [lia|done].
Qed.

(** The magnitude of a binary64 number and the first guess at its exponent *)
Lemma binary64_range s m e :
  SpecFloat.valid_binary prec emax (S754_finite s m e) = true → -1074 ≤ e ≤ 971 ∧ Z.pos m < 2 ^ 53.
Proof.
  cbn. unfold bounded, canonical_mantissa. intros [Hc%Z.eqb_eq He%Z.leb_le]%andb_prop.
  change (prec) with 53 in *. change emax with 1024 in *.
  change (Z.pos (digits2_pos m)) with (digits m) in Hc. rewrite ffexp_value in Hc.
  pose proof (digits_bounds m) as [_ Hm].
  split; [lia|]. eapply Z.lt_le_trans; [exact Hm|]. apply Z.pow_le_mono_r; lia.
Qed.
Lemma ratio_pos m e : 0 < (ratio m e).1 ∧ 0 < (ratio m e).2.
Proof.
  unfold ratio. destruct (Z.leb_spec 0 e); cbn [fst snd]; (split; [|try lia]); try lia;
    try apply Z.mul_pos_pos; try apply Z.pow_pos_nonneg; lia.
Qed.
Lemma pow2_le_pow10 : 2 ^ 1074 ≤ 10 ^ 400.
Proof. apply Z.leb_le. vm_compute. done. Qed.
Lemma ratio_bounds m e :
  -1074 ≤ e ≤ 971 → Z.pos m < 2 ^ 53 →
  1 ≤ (ratio m e).1 < 2 ^ 1024 ∧ 1 ≤ (ratio m e).2 ≤ 2 ^ 1074.
Proof.
  intros He Hm. pose proof (ratio_pos m e) as [H1 H2]. split; (split; [lia|]); clear H1 H2;
    unfold ratio; destruct (Z.leb_spec 0 e); cbn [fst snd].
  - replace (2 ^ 1024) with (2 ^ 53 * 2 ^ 971) by (rewrite <-Z.pow_add_r; [done|lia..]).
    assert (2 ^ e ≤ 2 ^ 971) by (apply Z.pow_le_mono_r; lia).
    assert (0 < 2 ^ e) by (apply Z.pow_pos_nonneg; lia). nia.
  - eapply Z.lt_le_trans; [exact Hm|]. apply Z.pow_le_mono_r; lia.
  - change 1 with (2 ^ 0). apply Z.pow_le_mono_r; lia.
  - apply Z.pow_le_mono_r; lia.
Qed.
Lemma log2_bound x k : 1 ≤ x → x < 2 ^ (k + 1) → 0 ≤ k → 0 ≤ Z.log2 x ≤ k.
Proof.
  intros H1 H2 Hk. split; [apply Z.log2_nonneg|].
  assert (Z.log2 x < k + 1) by (apply Z.log2_lt_pow2; lia). lia.
Qed.
(** The exponent that is printed: the number is not less than [10 ^ (n - 1)]. *)
Lemma dec_exponent_spec s m e :
  SpecFloat.valid_binary prec emax (S754_finite s m e) = true →
  let '(num, den) := ratio m e in
  reaches num den (dec_exponent 800 num den (Z.log2 num / 3 - Z.log2 den / 3) - 1).
Proof.
  intros Hv. destruct (binary64_range s m e Hv) as [He Hm].
  destruct (ratio_bounds m e He Hm) as [Hnum Hden]. destruct (ratio m e) as [num den]. cbn [fst snd] in *.
  pose proof pow2_le_pow10 as Hp. assert (Hp' : 2 ^ 1024 ≤ 2 ^ 1074) by (apply Z.pow_le_mono_r; lia).
  assert (Hln : 0 ≤ Z.log2 num ≤ 1023) by (apply log2_bound; [lia| |lia]; cbn [Z.add]; lia).
  assert (Hld : 0 ≤ Z.log2 den ≤ 1074).
  { apply log2_bound; [lia| |lia]. eapply Z.le_lt_trans; [apply Hden|]. apply Z.pow_lt_mono_r; lia. }
  assert (Hlo : reaches num den (-400)).
  { unfold reaches. cbn [Z.leb Z.compare Z.opp]. nia. }
  assert (Hhi : ¬ reaches num den (-400 + Z.of_nat 800)).
  { unfold reaches. change (-400 + Z.of_nat 800) with 400. cbn [Z.leb Z.compare]. nia. }
  destruct (exponent_between num den (-400) 800 Hlo Hhi) as (N & HN & H1 & H2).
  rewrite (dec_exponent_finds num den N) by (first [done|lia|idtac]; try lia; 
    pose proof (Z.div_mod (Z.log2 num) 3); pose proof (Z.div_mod (Z.log2 den) 3);
    pose proof (Z.mod_pos_bound (Z.log2 num) 3); pose proof (Z.mod_pos_bound (Z.log2 den) 3); lia).
  done.
Qed.

(** The digits that are printed: [k] of them, or a power of ten. *)
Definition digits_at (num den n k : Z) : Z :=
  if 0 <=? n - k then div_nearest num (den * 10 ^ (n - k)) else div_nearest (num * 10 ^ (- (n - k))) den.
Lemma shortest_digits fuel m e num den n : ∀ k,
  ∃ k', k ≤ k' ∧ shortest fuel m e num den n k = (digits_at num den n k', k').
Proof.
  induction fuel as [|fuel IH]; intros k; cbn [shortest].
  - exists k. split; [lia|done].
  - destruct (num_eqb _ _); [exists k; split; [lia|done]|].
    destruct (IH (k + 1)) as (k' & Hk & Hs). exists k'. split; [lia|done].
Qed.
Lemma div_nearest_ge a b q : 0 < b → q * b ≤ a → q ≤ div_nearest a b.
Proof. intros Hb Hq. unfold div_nearest. apply Z.div_le_lower_bound; lia. Qed.
Lemma digits_at_ge num den n k :
  0 < num → 0 < den → 1 ≤ k → reaches num den (n - 1) → 10 ^ (k - 1) ≤ digits_at num den n k.
Proof.
  intros Hnum Hden Hk Hr. unfold digits_at. revert Hr. unfold reaches.
  destruct (Z.leb_spec 0 (n - k)) as [H|H].
  - destruct (Z.leb_spec 0 (n - 1)) as [H'|H']; [|lia]. intros Hr.
    assert (0 < 10 ^ (n - k)) by (apply Z.pow_pos_nonneg; lia).
    apply div_nearest_ge; [nia|].
    replace (n - 1) with (k - 1 + (n - k)) in Hr by lia. rewrite Z.pow_add_r in Hr by lia. nia.
  - assert (0 < 10 ^ (- (n - k))) by (apply Z.pow_pos_nonneg; lia).
    destruct (Z.leb_spec 0 (n - 1)) as [H'|H']; intros Hr; (apply div_nearest_ge; [done|]).
    + replace (k - 1) with (n - 1 + (- (n - k))) by lia. rewrite Z.pow_add_r by lia. nia.
    + replace (- (n - k)) with (k - 1 + (- (n - 1))) by lia. rewrite Z.pow_add_r by lia.
      assert (0 ≤ 10 ^ (k - 1)) by (apply Z.pow_nonneg; lia). nia.
Qed.
(** A positive number is printed without a leading zero, in at least the digits it has. *)
Lemma string_of_Z_pos s : 0 < s →
  ∃ c t, string_of_Z s = String c t ∧ c ≠ "0"%char ∧ is_digit c = true ∧ str_forall is_digit t = true.
Proof.
  intros Hs. pose proof (string_of_Z_digits s ltac:(lia)) as Hd.
  assert (Hgo : ∀ (x : N) t, (0 < x)%N → ∃ c t', pretty_N_go x t = String c t' ∧ c ≠ "0"%char).
  { intros x. induction (N.lt_wf_0 x) as [x _ IH]. intros t Hx. rewrite pretty_N_go_step by done.
    destruct (decide (x / 10 = 0)%N) as [H0|H0].
    - rewrite H0, pretty_N_go_0. exists (pretty_N_char (x `mod` 10)), t. split; [done|].
      assert (Hsmall : (x < 10)%N) by (apply N.div_small_iff in H0; lia).
      rewrite N.mod_small by done. intros Hc. apply (f_equal code) in Hc.
      rewrite pretty_N_char_code in Hc by done. cbn in Hc. lia.
    - apply IH; [apply N.div_lt; lia|by apply N.neq_0_lt_0]. }
  rewrite string_of_Z_N in * by done.
  destruct (Hgo (Z.to_N s) EmptyString ltac:(lia)) as (c & t & Ht & Hc). rewrite Ht in *.
  cbn in Hd. apply andb_prop in Hd as [? ?]. by exists c, t.
Qed.
Lemma digits_value_bound acc s :
  str_forall is_digit s = true → 0 ≤ acc →
  0 ≤ digits_value_go acc s < (acc + 1) * 10 ^ byte_length s.
Proof.
  unfold byte_length. revert acc. induction s as [|c s IH]; intros acc Hs Ha; cbn [digits_value_go String.length].
  - cbn. lia.
  - cbn in Hs. apply andb_prop in Hs as [Hc Hs].
    assert (Hd : 0 ≤ Z.of_N (code c) - 48 ≤ 9).
    { unfold is_digit, in_range in Hc. apply andb_prop in Hc as [H1%N.leb_le H2%N.leb_le]. lia. }
    destruct (IH (acc * 10 + (Z.of_N (code c) - 48)) Hs ltac:(lia)) as [H1 H2].
    rewrite Nat2Z.inj_succ, Z.pow_succ_r by lia. split; [done|]. eapply Z.lt_le_trans; [exact H2|].
    assert (0 < 10 ^ Z.of_nat (String.length s)) by (apply Z.pow_pos_nonneg; lia). nia.
Qed.
Lemma string_of_Z_long s k : 10 ^ (k - 1) ≤ s → 1 ≤ k → k ≤ byte_length (string_of_Z s).
Proof.
  intros Hs Hk. assert (0 < 10 ^ (k - 1)) by (apply Z.pow_pos_nonneg; lia).
  pose proof (digits_value_bound 0 (string_of_Z s) (string_of_Z_digits s ltac:(lia)) ltac:(lia)) as [_ Hb].
  change (digits_value_go 0) with digits_value in Hb. rewrite digits_value_string in Hb by lia.
  assert (k - 1 < byte_length (string_of_Z s)); [|lia].
  apply (Z.pow_lt_mono_r_iff 10); [lia|apply byte_length_nonneg|lia].
Qed.

(** The shape of the text *)
Definition sign_text (neg : bool) : string := if neg then "-" else EmptyString.
Definition frac_text (fp : string) : string := if is_empty fp then EmptyString else "." +:+ fp.
Definition exp_text (ex : option (bool * string)) : string :=
  match ex with
  | Some (neg, ds) => (if neg then "e-" else "e+") +:+ ds
  | None => EmptyString
  end.
Definition shape (neg : bool) (ip fp : string) (ex : option (bool * string)) : string :=
  sign_text neg +:+ ip +:+ frac_text fp +:+ exp_text ex.
Definition all_digits (s : string) : Prop := str_forall is_digit s = true.
Definition shaped (ip fp : string) (ex : option (bool * string)) : Prop :=
  all_digits ip ∧ is_empty ip = false ∧ (starts_with "0" ip && (1 <? byte_length ip)) = false
  ∧ all_digits fp ∧ (∀ b ds, ex = Some (b, ds) → all_digits ds ∧ is_empty ds = false).
Definition shape_value (neg : bool) (ip fp : string) (ex : option (bool * string)) : number :=
  num_of_decimal neg (digits_value (ip +:+ fp))
    (match ex with
     | Some (b, ds) => if b then - digits_value ds else digits_value ds
     | None => 0
     end - byte_length fp).
(** What may follow a number *)
Definition ends (rest : string) : Prop :=
  match rest with
  | EmptyString => True
  | String c _ => is_digit c = false ∧ c ≠ "."%char ∧ c ≠ "e"%char ∧ c ≠ "E"%char
  end.
Lemma digit_not_minus c s : all_digits (String c s) → (if ascii_dec c "-" then true else false) = false.
Proof.
  unfold all_digits. cbn. intros [Hc _]%andb_prop. destruct (ascii_dec c "-") as [->|]; done.
Qed.
Lemma parse_exp_text ex rest :
  ends rest → (∀ b ds, ex = Some (b, ds) → all_digits ds ∧ is_empty ds = false) →
  match exp_text ex +:+ rest with
  | String c s' =>
      if bool_decide (c = "e"%char) || bool_decide (c = "E"%char) then
        let '(eneg, s1) := parse_sign s' in
        let '(ds, s4) := span is_digit s1 in
        ((if eneg then - digits_value ds else digits_value ds), s4, is_empty ds)
      else (0, exp_text ex +:+ rest, false)
  | EmptyString => (0, exp_text ex +:+ rest, false)
  end = (match ex with
         | Some (b, ds) => if b then - digits_value ds else digits_value ds
         | None => 0
         end, rest, false).
Proof.
  intros Hr Hex. destruct ex as [[b ds]|].
  - destruct (Hex b ds eq_refl) as [Hd He].
    assert (Hs : span is_digit (ds +:+ rest) = (ds, rest))
      by (apply span_app; [done|destruct rest; [done|apply Hr]]).
    destruct b; cbn; rewrite Hs, He; done.
  - change (exp_text None +:+ rest) with rest. destruct rest as [|c rest]; [done|].
    destruct Hr as (_ & _ & Hl & Hu). by rewrite !bool_decide_eq_false_2.
Qed.
Lemma parse_number_shape neg ip fp ex rest :
  shaped ip fp ex → ends rest →
  parse_number (shape neg ip fp ex +:+ rest) = Some (shape_value neg ip fp ex, rest).
Proof.
  intros (Hip & Hne & Hz & Hfp & Hex) Hr. unfold parse_number, shape.
  assert (Hsign : ∀ t, match sign_text neg +:+ ip +:+ t with
                       | String c s' => if ascii_dec c "-" then (true, s') else (false, sign_text neg +:+ ip +:+ t)
                       | EmptyString => (false, sign_text neg +:+ ip +:+ t)
                       end = (neg, ip +:+ t)).
  { intros t. destruct neg; [done|]. cbn. destruct ip as [|c ip]; [done|]. cbn.
    pose proof (digit_not_minus c ip Hip). by destruct (ascii_dec c "-"). }
  rewrite !str_app_assoc, Hsign.
  assert (Htail : ∀ t, ends t → match t with String c _ => is_digit c = false | EmptyString => True end)
    by (intros [|c t]; [done|by intros []]).
  assert (Hend : match exp_text ex +:+ rest with String c _ => is_digit c = false | EmptyString => True end).
  { destruct ex as [[[] ds]|]; [done..|]. by apply Htail. }
  rewrite span_app by (done || (unfold frac_text; destruct (is_empty fp); [exact Hend|done])).
  rewrite Hne, Hz. cbn [orb].
  assert (Hfrac : match frac_text fp +:+ exp_text ex +:+ rest with
                  | String c s' =>
                      if ascii_dec c "." then let '(fp, s3) := span is_digit s' in (fp, s3, is_empty fp)
                      else (EmptyString, frac_text fp +:+ exp_text ex +:+ rest, false)
                  | EmptyString => (EmptyString, frac_text fp +:+ exp_text ex +:+ rest, false)
                  end = (fp, exp_text ex +:+ rest, false)).
  { unfold frac_text. destruct (is_empty fp) eqn:Hf.
    - assert (fp = EmptyString) as -> by (destruct fp; done). cbn [String.append].
      destruct ex as [[[] ds]|]; [done..|]. cbn. destruct rest as [|c rest]; [done|].
      destruct Hr as (_ & Hdot & _). by destruct (ascii_dec c ".").
    - cbn. rewrite span_app, Hf by done. done. }
  rewrite Hfrac. rewrite (parse_exp_text ex rest Hr Hex). done.
Qed.

(** Cutting digits in two *)
Lemma digits_take n s : all_digits s → all_digits (str_take n s).
Proof. apply str_forall_take. Qed.
Lemma digits_drop n s : all_digits s → all_digits (str_drop n s).
Proof. apply str_forall_drop. Qed.
Lemma digits_zeros n : all_digits (zeros n).
Proof. by apply str_forall_zeros. Qed.
Lemma digits_app s t : all_digits s → all_digits t → all_digits (s +:+ t).
Proof. unfold all_digits. intros Hs Ht. by rewrite str_forall_app, Hs, Ht. Qed.
Lemma drop_nonempty n s : Z.of_nat n < byte_length s → is_empty (str_drop n s) = false.
Proof.
  unfold byte_length. revert n. induction s as [|c s IH]; intros [|n]; cbn [String.length str_drop]; try done; try lia.
  intros H. apply IH. lia.
Qed.
Lemma frac_nonempty fp : is_empty fp = false → frac_text fp = "." +:+ fp.
Proof. unfold frac_text. by intros ->. Qed.
(** Digits without a leading zero stay so when cut after the first, or followed by more. *)
Lemma no_leading_zero c t : c ≠ "0"%char → (starts_with "0" (String c t) && (1 <? byte_length (String c t))) = false.
Proof.
  intros Hc. cbn [starts_with]. destruct (ascii_dec "0" c) as [<-|Hne]; [done|].
  by rewrite ?bool_decide_eq_false_2.
Qed.
Lemma num_to_string_shape x :
  SpecFloat.valid_binary prec emax x = true → is_finite x = true →
  ∃ neg ip fp ex, num_to_string x = shape neg ip fp ex ∧ shaped ip fp ex.
Proof.
  intros Hv Hf. destruct x as [s|s| |s m e]; [|done|done|].
  { by exists false, "0", EmptyString, None. }
  pose proof (dec_exponent_spec s m e Hv) as Hn. cbn [num_to_string].
  pose proof (ratio_pos m e) as Hpos. destruct (ratio m e) as [num den]. cbn [fst snd] in Hpos.
  destruct Hpos as [Hnum Hden].
  set (n := dec_exponent _ _ _ _) in *. clearbody n.
  destruct (shortest_digits 16 m e num den n 1) as (k & Hk & ->).
  pose proof (digits_at_ge num den n k Hnum Hden Hk Hn) as Hge.
  set (ds0 := digits_at num den n k) in *. clearbody ds0.
  destruct (if ds0 =? 10 ^ k then (1, 1, n + 1) else (ds0, k, n)) as [[ds k'] n'] eqn:Hx.
  assert (Hds : 1 ≤ k' ∧ 10 ^ (k' - 1) ≤ ds) by (destruct (ds0 =? 10 ^ k); simplify_eq; split; [lia|done|lia|done]).
  clear Hx Hge Hk Hn. destruct Hds as [Hk Hge].
  assert (Hds : 0 < ds) by (assert (0 < 10 ^ (k' - 1)) by (apply Z.pow_pos_nonneg; lia); lia).
  pose proof (string_of_Z_long ds k' Hge Hk) as Hlen.
  destruct (string_of_Z_pos ds Hds) as (c & t & Ht & Hc & Hcd & Htd). rewrite Ht in *.
  assert (Had : all_digits (String c t)) by (unfold all_digits; cbn; by rewrite Hcd).
  exists s.
  destruct ((k' <=? n') && (n' <=? 21)) eqn:Hbig.
  { exists (String c t +:+ zeros (n' - k')), EmptyString, None. split.
    - unfold shape, sign_text. cbn. by rewrite str_app_nil_r.
    - split_and!; try done; [apply digits_app; [done|apply digits_zeros]|by apply no_leading_zero]. }
  destruct ((0 <? n') && (n' <=? 21)) eqn:Hin.
  { apply andb_prop in Hin as [Hpos%Z.ltb_lt H21]. rewrite H21, andb_true_r in Hbig. apply Z.leb_gt in Hbig.
    exists (str_take (Z.to_nat n') (String c t)), (str_drop (Z.to_nat n') (String c t)), None.
    destruct (Z.to_nat n') as [|j] eqn:Hj; [lia|]. split.
    - unfold shape, sign_text. rewrite frac_nonempty; [by rewrite ?str_app_nil_r|]. apply drop_nonempty. lia.
    - split_and!; try done; [by apply digits_take|by apply no_leading_zero|by apply digits_drop]. }
  destruct ((-6 <? n') && (n' <=? 0)).
  { exists "0", (zeros (- n') +:+ String c t), None. split.
    - unfold shape, sign_text. rewrite frac_nonempty; [by rewrite ?str_app_nil_r|]. by destruct (zeros _).
    - split_and!; try done. apply digits_app; [apply digits_zeros|done]. }
  set (z := Z.abs (n' - 1)). assert (Hz : 0 ≤ z) by lia.
  assert (Hex : ∀ b ds', Some (negb (0 <? n' - 1), string_of_Z z) = Some (b, ds') → all_digits ds' ∧ is_empty ds' = false)
    by (intros ? ? [= _ <-]; split; [by apply string_of_Z_digits|by apply string_of_Z_nonempty]).
  destruct (Z.eqb_spec k' 1) as [->|Hk1].
  - exists (String c t), EmptyString, (Some (negb (0 <? n' - 1), string_of_Z z)). split.
    + unfold shape, sign_text. cbn. by destruct (0 <? n' - 1).
    + split_and!; try done. by apply no_leading_zero.
  - exists (str_take 1 (String c t)), (str_drop 1 (String c t)), (Some (negb (0 <? n' - 1), string_of_Z z)). split.
    + unfold shape, sign_text. rewrite frac_nonempty; [by destruct (0 <? n' - 1)|]. apply drop_nonempty. lia.
    + split_and!; try done; [by apply digits_take|by apply no_leading_zero].
Qed.

Lemma reread_number x rest :
  SpecFloat.valid_binary prec emax x = true → is_finite x = true → ends rest →
  parse_number (num_to_string x +:+ rest) = Some (reread_num x, rest).
Proof.
  intros Hv Hf Hr. destruct (num_to_string_shape x Hv Hf) as (neg & ip & fp & ex & Hx & Hs).
  unfold reread_num. rewrite Hx, parse_number_shape by done.
  pose proof (parse_number_shape neg ip fp ex EmptyString Hs I) as He.
  rewrite str_app_nil_r in He. by rewrite He.
Qed.

(** *** The first byte of a value *)
Definition value_start (c : ascii) : bool :=
  is_digit c || bool_decide (c ∈ [quote_char; "["; "{"; "n"; "t"; "f"; "-"]%char).
Lemma start_not_space c t : value_start c = true → json_ws (String c t) = String c t.
Proof. destruct c as [[] [] [] [] [] [] [] []]; by first [discriminate|reflexivity]. Qed.
Lemma start_not_close c t : value_start c = true → first_is "]" (String c t) = None.
Proof. destruct c as [[] [] [] [] [] [] [] []]; by first [discriminate|reflexivity]. Qed.
Lemma number_start x : 
  SpecFloat.valid_binary prec emax x = true → is_finite x = true →
  ∃ c t, num_to_string x = String c t ∧ (is_digit c = true ∨ c = "-"%char).
Proof.
  intros Hv Hf. destruct (num_to_string_shape x Hv Hf) as (neg & ip & fp & ex & Hx & Hip & Hne & _).
  rewrite Hx. destruct neg; [by eexists _, _; split; [|right]|].
  destruct ip as [|c ip]; [done|]. cbn in Hip. apply andb_prop in Hip as [Hc _].
  eexists c, _. split; [|by left]. done.
Qed.
Lemma value_text j : json_ok j → ∃ c t, stringify j = String c t ∧ value_start c = true.
Proof.
  intros Hok. destruct j as [|[]|n|s|l|fields]; try by eexists _, _; split.
  cbn [stringify]. unfold json_number. destruct (is_finite n) eqn:Hf; [|by eexists _, _; split].
  destruct (number_start n Hok Hf) as (c & t & -> & Hc). exists c, t. split; [done|].
  unfold value_start. by destruct Hc as [->| ->].
Qed.

(** *** Values *)
Lemma jm_set_fresh {V} (k : string) (v : V) m : k ∉ m.*1 → jm_set k v m = m ++ [(k, v)].
Proof.
  induction m as [|[k' v'] m IH]; csimpl; [done|]. intros [Hk Hm]%not_elem_of_cons.
  rewrite decide_False by done. by rewrite IH.
Qed.
Definition follows (c : ascii) : bool := bool_decide (c ∈ [","; "]"; "}"]%char).
Lemma ends_follows c t : follows c = true → ends (String c t).
Proof. intros Hc%bool_decide_eq_true. cbn. set_unfold in Hc. destruct_or! Hc; subst; done. Qed.
Lemma stringify_length j : json_ok j → (0 < String.length (stringify j))%nat.
Proof. intros Hj. destruct (value_text j Hj) as (c & t & -> & _). apply Nat.lt_0_succ. Qed.

(** What the readers of arrays and objects need of the reader of values *)
Definition reads_back (parse : string → option (json * string)) (j : json) : Prop :=
  ∀ rest, ends rest → parse (stringify j +:+ rest) = Some (reread j, rest).
Lemma elements_read parse l acc n rest :
  Forall (reads_back parse) l → l ≠ [] → (length l ≤ n)%nat →
  parse_elements parse n acc (join "," (map stringify l) +:+ "]" +:+ rest)
  = Some (JArr (acc ++ map reread l), rest).
Proof.
  intros Hl. revert acc n. induction Hl as [|x l Hx Hl IH]; intros acc [|n] Hne Hn; cbn in Hn; try done; try lia.
  destruct l as [|y l]; cbn [map join parse_elements].
  - rewrite Hx by (by apply ends_follows). done.
  - rewrite !str_app_assoc, Hx by (by apply ends_follows).
    change (first_is "," ("," +:+ ?t)) with (Some t). cbv iota beta.
    change (join "," (map stringify (y :: l))) with (join "," (stringify y :: map stringify l)) in IH.
    cbn [map] in IH. rewrite IH; [|done|cbn in *; lia]. by rewrite <-app_assoc.
Qed.
Definition member_text (kv : string * json) : string := json_string kv.1 +:+ ":" +:+ stringify kv.2.
Lemma members_read parse l acc n rest :
  Forall (λ kv, reads_back parse kv.2) l → l ≠ [] → (length l ≤ n)%nat → NoDup (acc.*1 ++ l.*1) →
  parse_members parse n acc (join "," (map member_text l) +:+ "}" +:+ rest)
  = Some (JObj (acc ++ map (λ '(k, v), (k, reread v)) l), rest).
Proof.
  intros Hl. revert acc n. induction Hl as [|[k v] l Hx Hl IH]; intros acc [|n] Hne Hn Hnd; cbn in Hn; try done; try lia.
  cbn [fst snd] in Hx.
  assert (Hk : k ∉ acc.*1) by (apply NoDup_app in Hnd as (_ & Hd & _); intros Hk; apply (Hd k Hk); by left).
  assert (Hkey : ∀ t, first_is quote_char (json_string k +:+ t)
                      = Some (str_flat_map json_char k +:+ String quote_char t)).
  { intros t. unfold json_string. cbn. by rewrite str_app_assoc. }
  assert (Hstr : ∀ t, parse_string (String.length (str_flat_map json_char k +:+ String quote_char t))
                        (str_flat_map json_char k +:+ String quote_char t) = Some (k, t)).
  { intros t. apply parse_string_text. rewrite str_app_length. pose proof (flat_map_length k). cbn. lia. }
  destruct l as [|y l]; cbn [map join parse_members]; unfold member_text at 1; cbn [fst snd];
    rewrite !str_app_assoc, Hkey, Hstr; change (first_is ":" (":" +:+ ?t)) with (Some t); cbv iota beta;
    rewrite Hx by (by apply ends_follows); rewrite jm_set_fresh by done.
  - done.
  - change (first_is "," ("," +:+ ?t)) with (Some t). cbv iota beta.
    cbn [map] in IH. rewrite IH; [|done|cbn in *; lia|].
    + by rewrite <-app_assoc.
    + rewrite fmap_app. cbn [fmap list_fmap fst]. by rewrite <-app_assoc.
Qed.
Lemma join_length (l : list string) :
  Forall (λ s, (0 < String.length s)%nat) l → (length l ≤ String.length (join "," l) + 1)%nat
  ∧ Forall (λ s, (String.length s ≤ String.length (join "," l))%nat) l.
Proof.
  induction 1 as [|s l Hs Hl [IH1 IH2]]; [by split; [cbn; lia|constructor]|].
  destruct l as [|t l]; [by split; [cbn; lia|repeat constructor]|].
  change (join "," (s :: t :: l)) with (s +:+ "," +:+ join "," (t :: l)).
  rewrite !str_app_length. change (String.length ",") with 1%nat. split; [cbn [length] in *; lia|].
  constructor; [lia|]. eapply Forall_impl; [exact IH2|]. cbn beta. lia.
Qed.
Lemma json_ok_all l : foldr (λ x P, json_ok x ∧ P) True l ↔ Forall json_ok l.
Proof. induction l as [|x l IH]; cbn; [by split; [constructor|]|]. by rewrite IH, Forall_cons. Qed.
Lemma json_ok_members l :
  foldr (λ (kv : string * json) P, json_ok kv.2 ∧ P) True l ↔ Forall (λ kv, json_ok kv.2) l.
Proof. induction l as [|x l IH]; cbn; [by split; [constructor|]|]. by rewrite IH, Forall_cons. Qed.

Lemma parse_value_number f x rest :
  SpecFloat.valid_binary prec emax x = true → is_finite x = true → ends rest →
  parse_value (S f) (num_to_string x +:+ rest) = Some (JNum (reread_num x), rest).
Proof.
  intros Hv Hf Hr. pose proof (reread_number x rest Hv Hf Hr) as Hp.
  destruct (number_start x Hv Hf) as (c & t & Ht & Hc). rewrite Ht in *.
  change (String c t +:+ rest) with (String c (t +:+ rest)) in *.
  cbn [parse_value]. rewrite start_not_space by (unfold value_start; by destruct Hc as [->| ->]).
  rewrite Hp. assert (Hd : is_digit c || bool_decide (c = "-"%char) = true).
  { destruct Hc as [->| ->]; [done|]. by rewrite orb_true_r. }
  clear - Hd. destruct c as [[] [] [] [] [] [] [] []]; by first [discriminate|reflexivity].
Qed.
Lemma parse_value_string f t :
  parse_value (S f) (String quote_char t)
  = match parse_string (String.length t) t with Some (s, rest) => Some (JStr s, rest) | None => None end.
Proof. done. Qed.
Lemma parse_value_array f t :
  parse_value (S f) (String "[" t)
  = match first_is "]" t with
    | Some rest => Some (JArr [], rest)
    | None => parse_elements (parse_value f) (String.length t) [] t
    end.
Proof. done. Qed.
Lemma parse_value_object f t :
  parse_value (S f) (String "{" t)
  = match first_is "}" t with
    | Some rest => Some (JObj [], rest)
    | None => parse_members (parse_value f) (String.length t) [] t
    end.
Proof. done. Qed.
Lemma texts_nonempty l : Forall json_ok l → Forall (λ s, (0 < String.length s)%nat) (map stringify l).
Proof. induction 1; constructor; [by apply stringify_length|done]. Qed.
Lemma member_text_length kv : (String.length (stringify kv.2) < String.length (member_text kv))%nat.
Proof. unfold member_text. rewrite !str_app_length. change (String.length ":") with 1%nat. lia. Qed.

(** The text of a value in front of whatever may follow one reads back as the value. *)
Lemma parse_value_text j : json_ok j → ∀ f, (String.length (stringify j) ≤ f)%nat →
  reads_back (parse_value f) j.
Proof.
  induction j as [|b|n|s|l IH|fields IH] using json_ind'; intros Hok f Hf rest Hr;
    (destruct f as [|f]; [exfalso; pose proof (stringify_length _ Hok); lia|]).
  - done.
  - by destruct b.
  - cbn [stringify reread]. unfold json_number. destruct (is_finite n) eqn:Hn; [|done].
    by apply parse_value_number.
  - cbn [stringify]. unfold json_string. cbn [String.append].
    rewrite parse_value_string, str_app_assoc. change (String quote_char EmptyString +:+ rest) with (String quote_char rest).
    rewrite parse_string_text; [done|]. rewrite str_app_length. pose proof (flat_map_length s). cbn. lia.
  - cbn [json_ok] in Hok. rewrite json_ok_all in Hok. cbn [stringify reread] in *.
    destruct (join_length _ (texts_nonempty l Hok)) as [Hlen Hall].
    rewrite !str_app_length in Hf. change (String.length "[") with 1%nat in Hf.
    rewrite !str_app_assoc. change ("[" +:+ ?t) with (String "[" t). rewrite parse_value_array.
    destruct l as [|x l]; [done|].
    replace (first_is "]" _) with (@None string).
    + rewrite elements_read; [done| |done|].
      * apply Forall_forall. intros y Hy. apply (Forall_forall _ _) with (x := y) in IH; [|done].
        apply (Forall_forall _ _) with (x := y) in Hok; [|done].
        apply (Forall_forall _ _) with (x := stringify y) in Hall; [|by apply list_elem_of_fmap_2].
        apply IH; [done|]. lia.
      * rewrite length_map in Hlen. rewrite !str_app_length. change (String.length "]") with 1%nat. lia.
    + apply Forall_cons in Hok as [Hx _]. destruct (value_text x Hx) as (c & t & Ht & Hc).
      cbn [map join]. rewrite Ht. destruct (map stringify l); symmetry; by apply start_not_close.
  - cbn [json_ok] in Hok. destruct Hok as [Hnd Hok]. rewrite json_ok_members in Hok. cbn [stringify reread] in *.
    assert (Hne : Forall (λ s, (0 < String.length s)%nat) (map member_text fields)).
    { clear. induction fields; constructor; [|done]. pose proof (member_text_length a). lia. }
    destruct (join_length _ Hne) as [Hlen Hall].
    change (map (λ '(k, v), json_string k +:+ ":" +:+ stringify v) fields) with (map (λ '(k, v), json_string k +:+ ":" +:+ stringify v) fields) in *.
    assert (Hm : map (λ '(k, v), json_string k +:+ ":" +:+ stringify v) fields = map member_text fields)
      by (apply map_ext; by intros []).
    rewrite Hm in *. clear Hm.
    rewrite !str_app_length in Hf. change (String.length "{") with 1%nat in Hf.
    rewrite !str_app_assoc. change ("{" +:+ ?t) with (String "{" t). rewrite parse_value_object.
    destruct fields as [|x fields]; [done|].
    replace (first_is "}" _) with (@None string) by (destruct x, fields; done).
    rewrite members_read; [done| |done| |done].
    + apply Forall_forall. intros y Hy. apply (Forall_forall _ _) with (x := y) in IH; [|done].
        apply (Forall_forall _ _) with (x := y) in Hok; [|done].
      apply (Forall_forall _ _) with (x := member_text y) in Hall; [|by apply list_elem_of_fmap_2].
      apply IH; [done|].
      pose proof (member_text_length y). lia.
    + rewrite length_map in Hlen. rewrite !str_app_length. change (String.length "}") with 1%nat. lia.
Qed.
(** [JSON.parse(JSON.stringify(v))] *)
Lemma json_parse_stringify j : json_ok j → json_parse (stringify j) = Some (reread j).
Proof.
  intros Hok. unfold json_parse. pose proof (parse_value_text j Hok (S (String.length (stringify j))) ltac:(lia) EmptyString I) as Hp.
  rewrite str_app_nil_r in Hp. by rewrite Hp.
Qed.

(** *** Numbers of the format *)
(** Results of the arithmetic are numbers of the format. *)
Definition small_exponent (x : number) : Prop := match x with S754_finite _ _ e => e ≤ emax - prec | _ => True end.
Lemma valid_number x : canonical x → small_exponent x → SpecFloat.valid_binary prec emax x = true.
Proof.
  destruct x as [s|s| |s m e]; try done. cbn. intros Hc He. unfold bounded, canonical_mantissa.
  change (Z.pos (digits2_pos m)) with (digits m). rewrite Hc, Z.eqb_refl. cbn. by apply Z.leb_le.
Qed.
Lemma aux_small sx m e l : small_exponent (binary_round_aux prec emax sx m e l).
Proof.
  unfold binary_round_aux. destruct (shr_fexp prec emax m e l) as [r1 e1].
  destruct (shr_fexp prec emax _ e1 loc_Exact) as [r2 e2].
  destruct (shr_m r2) as [|p|p]; try done. destruct (e2 <=? emax - prec) eqn:He; [|done].
  by apply Z.leb_le.
Qed.
Lemma round_small sx m e : small_exponent (binary_round prec emax sx m e).
Proof. unfold binary_round. destruct (shl_align _ _ _). apply aux_small. Qed.
Lemma valid_small x : SpecFloat.valid_binary prec emax x = true → canonical x ∧ small_exponent x.
Proof.
  destruct x as [s|s| |s m e]; try done. cbn. unfold bounded, canonical_mantissa.
  intros [Hc%Z.eqb_eq He%Z.leb_le]%andb_prop. done.
Qed.
Lemma num_of_Z_valid z : SpecFloat.valid_binary prec emax (num_of_Z z) = true.
Proof.
  apply valid_number; [apply num_of_Z_canonical|]. unfold num_of_Z, binary_normalize.
  destruct z; [done|apply round_small..].
Qed.
Lemma num_mul_valid x y :
  SpecFloat.valid_binary prec emax x = true → SpecFloat.valid_binary prec emax y = true →
  SpecFloat.valid_binary prec emax (num_mul x y) = true.
Proof.
  intros [Hx _]%valid_small [Hy _]%valid_small. apply valid_number; [by apply num_mul_canonical|].
  unfold num_mul, SFmul. destruct x, y; try done. apply aux_small.
Qed.
Lemma num_div_valid x y : SpecFloat.valid_binary prec emax (num_div x y) = true.
Proof.
  apply valid_number; [apply num_div_canonical|]. unfold num_div, SFdiv. destruct x, y; try done.
  destruct (SFdiv_core_binary _ _ _ _ _ _) as [[mz ez] lz]. apply aux_small.
Qed.
Lemma num_add_valid x y :
  SpecFloat.valid_binary prec emax x = true → SpecFloat.valid_binary prec emax y = true →
  SpecFloat.valid_binary prec emax (num_add x y) = true.
Proof.
  intros [Hx Hx']%valid_small [Hy Hy']%valid_small. apply valid_number; [by apply num_add_canonical|].
  unfold num_add, SFadd. destruct x as [[]|[]| |sx mx ex], y as [[]|[]| |sy my ey]; try done; cbn.
  all: unfold binary_normalize; destruct (_ + _); [done|apply round_small..].
Qed.
