(* ===== verification/RateLimiter.v ===== *)
(** * The sliding-window rate limiter

    [proprietary/cache-proposals/rate-limiter.ts], which limits how often cache
    and memory proposals are made on a connection.  Each key has the events of
    the last window, oldest first; [Date.now()] is an argument of each call.  A
    method never awaits, so a call is one step. *)
From S2P Require Export JsString.
From stdpp Require Import options.

(** ** Definitions *)
Record BucketEntry := {
  be_ts : Z;
  be_token : Z;
}.

Record RateLimiter := {
  rl_buckets : list (string * list BucketEntry);
  rl_nextToken : Z;
}.
Definition new_RateLimiter : RateLimiter := {| rl_buckets := []; rl_nextToken := 1 |}.

Record RateLimiterCheck := {
  rc_allowed : bool;
  rc_retryAfterMs : Z;
  rc_remaining : Z;
}.

(** The result of [reserve]: a check and, when it is allowed, a token. *)
Record RateLimiterReservation := {
  rr_check : RateLimiterCheck;
  rr_releaseToken : option Z;
}.

Definition with_buckets (f : list (string * list BucketEntry) → list (string * list BucketEntry))
    (r : RateLimiter) : RateLimiter :=
  {| rl_buckets := f (rl_buckets r); rl_nextToken := rl_nextToken r |}.

(** The events from the first one that is not stale. *)
Fixpoint fresh_from (cutoff : Z) (events : list BucketEntry) : list BucketEntry :=
  match events with
  | [] => []
  | e :: rest => if be_ts e <=? cutoff then fresh_from cutoff rest else events
  end.

Definition prune (key : string) (cutoff : Z) (r : RateLimiter) : list BucketEntry * RateLimiter :=
  let existing := default [] (jm_get key (rl_buckets r)) in
  let pruned := fresh_from cutoff existing in
  if js_len pruned =? js_len existing then (existing, r)
  else (pruned, with_buckets (jm_set key pruned) r).

Section limiter.
Context (limit windowMs : Z).

(** Reading [events[0].ts] of an empty bucket throws, which takes a limit below
    one. *)
Definition check (ts : Z) (key : string) : M RateLimiter string RateLimiterCheck := λ r,
  let '(events, r) := prune key (ts - windowMs) r in
  if limit <=? js_len events then
    match events with
    | [] => (Throw "TypeError", r)
    | oldest :: _ =>
        (Ok {| rc_allowed := false; rc_retryAfterMs := Z.max 0 (be_ts oldest + windowMs - ts);
               rc_remaining := 0 |}, r)
    end
  else (Ok {| rc_allowed := true; rc_retryAfterMs := 0;
              rc_remaining := limit - js_len events |}, r).

Definition record (ts : Z) (key : string) (r : RateLimiter) : Z * RateLimiter :=
  let '(events, r) := prune key (ts - windowMs) r in
  let token := rl_nextToken r in
  (token,
   {| rl_buckets := jm_set key (events ++ [{| be_ts := ts; be_token := token |}]) (rl_buckets r);
      rl_nextToken := token + 1 |}).

(** [check] and [record] read the clock each: [ts] and [ts']. *)
Definition reserve (ts ts' : Z) (key : string) : M RateLimiter string RateLimiterReservation := λ r,
  match check ts key r with
  | (Throw e, r) => (Throw e, r)
  | (Ok result, r) =>
      if negb (rc_allowed result) then (Ok {| rr_check := result; rr_releaseToken := None |}, r)
      else
        let '(releaseToken, r) := record ts' key r in
        (Ok {| rr_check := {| rc_allowed := rc_allowed result;
                              rc_retryAfterMs := rc_retryAfterMs result;
                              rc_remaining := Z.max 0 (rc_remaining result - 1) |};
               rr_releaseToken := Some releaseToken |}, r)
  end.
End limiter.

Definition release (key : string) (token : Z) (r : RateLimiter) : RateLimiter :=
  match jm_get key (rl_buckets r) with
  | None | Some [] => r
  | Some events =>
      match js_find_index (λ e, be_token e =? token) events with
      | None => r
      | Some idx =>
          match delete idx events with
          | [] => with_buckets (jm_delete key) r
          | events => with_buckets (jm_set key events) r
          end
      end
  end.

Definition reset (key : option string) (r : RateLimiter) : RateLimiter :=
  match key with
  | None => with_buckets (λ _, []) r
  | Some key => with_buckets (jm_delete key) r
  end.

(** ** Specification *)

(** A call of a client, with the clock it reads. *)
Inductive LimiterCall :=
  | Reserve (ts : Z) (key : string)
  | Release (key : string) (token : Z).

(** A granted reservation. *)
Record Grant := {
  gr_key : string;
  gr_ts : Z;
  gr_token : Z;
}.

(** The limiter, its clock, and the grants that have not been given back. *)
Record LimiterRun := {
  lr_now : Z;
  lr_limiter : RateLimiter;
  lr_grants : list Grant;
}.
Definition start_run (now : Z) : LimiterRun :=
  {| lr_now := now; lr_limiter := new_RateLimiter; lr_grants := [] |}.

Definition call_step (limit windowMs : Z) (s : LimiterRun) (c : LimiterCall) : LimiterRun :=
  match c with
  | Reserve ts key =>
      let now := Z.max ts (lr_now s) in
      match reserve limit windowMs now now key (lr_limiter s) with
      | (Ok {| rr_releaseToken := Some token |}, r) =>
          {| lr_now := now; lr_limiter := r;
             lr_grants := lr_grants s ++ [{| gr_key := key; gr_ts := now; gr_token := token |}] |}
      | (_, r) => {| lr_now := now; lr_limiter := r; lr_grants := lr_grants s |}
      end
  | Release key token =>
      {| lr_now := lr_now s; lr_limiter := release key token (lr_limiter s);
         lr_grants := js_filter (λ g, negb (str_eqb (gr_key g) key && (gr_token g =? token)))
                        (lr_grants s) |}
  end.

(** A run of calls; the clock does not go back. *)
Definition limiter_run (limit windowMs now : Z) (calls : list LimiterCall) : LimiterRun :=
  foldl (call_step limit windowMs) (start_run now) calls.

(** The grants of a key in the window that ends at [t]. *)
Definition in_window (windowMs : Z) (key : string) (t : Z) (g : Grant) : bool :=
  str_eqb (gr_key g) key && (t - windowMs <? gr_ts g) && (gr_ts g <=? t).

(** The events of a key, and its grants as events. *)
Definition bucket (key : string) (r : RateLimiter) : list BucketEntry :=
  default [] (jm_get key (rl_buckets r)).
Definition grant_event (g : Grant) : BucketEntry :=
  {| be_ts := gr_ts g; be_token := gr_token g |}.
Definition grants_of (key : string) (gs : list Grant) : list BucketEntry :=
  grant_event <$> js_filter (λ g, str_eqb (gr_key g) key) gs.

(** What every run keeps. *)
Record run_ok (limit windowMs : Z) (s : LimiterRun) : Prop := {
  ro_tokens : NoDup (gr_token <$> lr_grants s)
              ∧ Forall (λ g, gr_token g < rl_nextToken (lr_limiter s)) (lr_grants s);
  ro_split key : ∃ old, grants_of key (lr_grants s) = old ++ bucket key (lr_limiter s)
                 ∧ Forall (λ e, be_ts e ≤ lr_now s - windowMs) old;
  ro_length key : js_len (bucket key (lr_limiter s)) ≤ limit;
  ro_past : Forall (λ g, gr_ts g ≤ lr_now s) (lr_grants s);
  ro_windows key t : js_len (js_filter (in_window windowMs key t) (lr_grants s)) ≤ limit;
}.

(** ** Lemmas *)
Lemma fresh_from_spec cutoff l :
  ∃ old, l = old ++ fresh_from cutoff l ∧ Forall (λ e, be_ts e ≤ cutoff) old.
Proof.
  induction l as [|e l (old & IH & Hold)]; simpl; [by exists []|].
  destruct (Z.leb_spec (be_ts e) cutoff); [|by exists []].
  exists (e :: old). split; [by rewrite IH at 1|by constructor].
Qed.

Lemma fresh_from_head cutoff l e l' : fresh_from cutoff l = e :: l' → cutoff < be_ts e.
Proof.
  induction l as [|x l IH]; simpl; [done|].
  destruct (Z.leb_spec (be_ts x) cutoff); [apply IH|]. intros [= -> ->]. lia.
Qed.

Lemma prune_spec key cutoff r :
  (prune key cutoff r).1 = fresh_from cutoff (bucket key r)
  ∧ rl_nextToken (prune key cutoff r).2 = rl_nextToken r
  ∧ ∀ k, bucket k (prune key cutoff r).2
         = if decide (k = key) then fresh_from cutoff (bucket key r) else bucket k r.
Proof.
  unfold prune. fold (bucket key r).
  destruct (fresh_from_spec cutoff (bucket key r)) as (old & Hold & _).
  destruct (Z.eqb_spec (js_len (fresh_from cutoff (bucket key r))) (js_len (bucket key r))) as [E|E].
  - assert (old = []) as ->.
    { apply (f_equal length) in Hold. rewrite length_app in Hold. unfold js_len in E.
      destruct old; simpl in *; [done|lia]. }
    simpl in Hold. simpl. split_and!; [done..|]. intros k. case_decide as Hk; [by rewrite Hk|done].
  - simpl. split_and!; [done..|]. intros k. unfold bucket at 1. simpl.
    rewrite jm_get_set. by case_decide.
Qed.

Lemma bucket_set k key v r :
  bucket k (with_buckets (jm_set key v) r) = if decide (k = key) then v else bucket k r.
Proof. unfold bucket. simpl. rewrite jm_get_set. by case_decide. Qed.

Lemma grants_of_app key gs gs' : grants_of key (gs ++ gs') = grants_of key gs ++ grants_of key gs'.
Proof. unfold grants_of. by rewrite js_filter_app, fmap_app. Qed.

Lemma js_len_sublist {A} (l k : list A) : l `sublist_of` k → js_len l ≤ js_len k.
Proof. intros H%sublist_length. unfold js_len. lia. Qed.

(** The grants of a window are among the events that are not stale at its end. *)
Lemma window_events windowMs key t gs :
  js_len (js_filter (in_window windowMs key t) gs)
  ≤ js_len (js_filter (λ e, t - windowMs <? be_ts e) (grants_of key gs)).
Proof.
  unfold grants_of, js_len, in_window. induction gs as [|g gs IH]; csimpl; [lia|].
  destruct (str_eqb (gr_key g) key); csimpl; [|done].
  destruct (_ <? gr_ts g); csimpl; [|done]. destruct (_ <=? t); csimpl; lia.
Qed.

Lemma window_in_bucket windowMs key t gs old b :
  grants_of key gs = old ++ b → Forall (λ e, be_ts e ≤ t - windowMs) old →
  js_len (js_filter (in_window windowMs key t) gs) ≤ js_len b.
Proof.
  intros Hs Hold. etrans; [apply window_events|]. rewrite Hs, js_filter_app.
  rewrite (js_filter_none _ old); simpl.
  - apply js_len_sublist, js_filter_sublist.
  - intros e He. rewrite Forall_forall in Hold. apply Z.ltb_ge. by apply Hold.
Qed.

Lemma check_spec limit windowMs ts key r :
  0 < limit →
  bucket key (check limit windowMs ts key r).2 = fresh_from (ts - windowMs) (bucket key r)
  ∧ rl_nextToken (check limit windowMs ts key r).2 = rl_nextToken r
  ∧ (∀ k, k ≠ key → bucket k (check limit windowMs ts key r).2 = bucket k r)
  ∧ ∃ c, (check limit windowMs ts key r).1 = Ok c
    ∧ rc_allowed c = (js_len (fresh_from (ts - windowMs) (bucket key r)) <? limit)
    ∧ (rc_allowed c = false → ∃ e rest, fresh_from (ts - windowMs) (bucket key r) = e :: rest
         ∧ rc_retryAfterMs c = be_ts e + windowMs - ts).
Proof.
  intros Hl. unfold check. destruct (prune_spec key (ts - windowMs) r) as (He & Ht & Hb).
  destruct (prune key (ts - windowMs) r) as [events r']. simpl in *. subst events.
  pose proof (Hb key) as Hbk. rewrite decide_True in Hbk by done.
  pose proof (fresh_from_head (ts - windowMs) (bucket key r)) as Hhead.
  destruct (Z.leb_spec limit (js_len (fresh_from (ts - windowMs) (bucket key r)))) as [Hle|Hgt].
  - destruct (fresh_from _ _) as [|e rest] eqn:E; [unfold js_len in Hle; simpl in Hle; lia|].
    simpl. split_and!; [done..|intros k Hk; by rewrite Hb, decide_False|].
    eexists. split_and!; [done| |].
    + simpl. symmetry. by apply Z.ltb_ge.
    + intros _. exists e, rest. split; [done|]. simpl. specialize (Hhead _ _ eq_refl). lia.
  - simpl. split_and!; [done..|intros k Hk; by rewrite Hb, decide_False|].
    eexists. split_and!; [done| |done]. simpl. symmetry. by apply Z.ltb_lt.
Qed.

Lemma record_spec windowMs ts key r :
  (record windowMs ts key r).1 = rl_nextToken r
  ∧ rl_nextToken (record windowMs ts key r).2 = rl_nextToken r + 1
  ∧ ∀ k, bucket k (record windowMs ts key r).2
         = if decide (k = key)
           then fresh_from (ts - windowMs) (bucket key r)
                ++ [{| be_ts := ts; be_token := rl_nextToken r |}]
           else bucket k r.
Proof.
  unfold record. destruct (prune_spec key (ts - windowMs) r) as (He & Ht & Hb).
  destruct (prune key (ts - windowMs) r) as [events r']. simpl in *. subst events.
  rewrite Ht. split_and!; [done..|]. intros k. unfold bucket at 1. simpl. rewrite jm_get_set.
  case_decide as Hk; [done|]. fold (bucket k r'). by rewrite Hb, decide_False.
Qed.

Lemma fresh_from_idem cutoff l : fresh_from cutoff (fresh_from cutoff l) = fresh_from cutoff l.
Proof.
  induction l as [|e l IH]; simpl; [done|].
  destruct (Z.leb_spec (be_ts e) cutoff); [done|]. simpl.
  by destruct (Z.leb_spec (be_ts e) cutoff); [lia|].
Qed.

(** [reserve] grants when the events of the window leave room, and the bucket is
    then those events and the new one. *)
Lemma reserve_spec limit windowMs ts key r :
  0 < limit →
  let events := fresh_from (ts - windowMs) (bucket key r) in
  ∃ res r', reserve limit windowMs ts ts key r = (Ok res, r')
    ∧ (∀ k, k ≠ key → bucket k r' = bucket k r)
    ∧ if js_len events <? limit
      then rr_releaseToken res = Some (rl_nextToken r)
           ∧ rl_nextToken r' = rl_nextToken r + 1
           ∧ bucket key r' = events ++ [{| be_ts := ts; be_token := rl_nextToken r |}]
      else rr_releaseToken res = None ∧ rl_nextToken r' = rl_nextToken r ∧ bucket key r' = events.
Proof.
  intros Hl events. unfold reserve.
  destruct (check_spec limit windowMs ts key r Hl) as (Hb & Ht & Hk & c & Hc & Hallow & _).
  destruct (check limit windowMs ts key r) as [o r1]. simpl in *. subst o.
  fold events in Hallow, Hb. rewrite Hallow. destruct (js_len events <? limit) eqn:E; simpl.
  - destruct (record_spec windowMs ts key r1) as (Htok & Hnext & Hrec).
    destruct (record windowMs ts key r1) as [token r2]. simpl in *. subst token.
    do 2 eexists. split; [done|]. split_and!.
    + intros k Hne. rewrite Hrec, decide_False by done. by apply Hk.
    + simpl. congruence.
    + congruence.
    + rewrite Hrec, decide_True, Hb, Ht by done. unfold events. by rewrite fresh_from_idem.
  - do 2 eexists. split; [done|]. done.
Qed.

Lemma reserve_allowed limit windowMs ts key r res r' :
  0 < limit → reserve limit windowMs ts ts key r = (Ok res, r') →
  rc_allowed (rr_check res) = (js_len (fresh_from (ts - windowMs) (bucket key r)) <? limit).
Proof.
  intros Hl. unfold reserve.
  destruct (check_spec limit windowMs ts key r Hl) as (_ & _ & _ & c & Hc & <- & _).
  destruct (check limit windowMs ts key r) as [o r1]. simpl in *. subst o.
  destruct (rc_allowed c) eqn:E; simpl; [|by intros [= <- <-]].
  destruct (record windowMs ts key r1). by intros [= <- <-].
Qed.

Definition other_token (token : Z) (e : BucketEntry) : bool := negb (be_token e =? token).

(** Taking out the first event with a token takes out all of them. *)
Lemma delete_token token l :
  NoDup (be_token <$> l) →
  js_filter (other_token token) l
  = match js_find_index (λ e, be_token e =? token) l with
    | None => l
    | Some idx => delete idx l
    end.
Proof.
  induction l as [|e l IH]; csimpl; [done|]. rewrite NoDup_cons. intros [He Hnd].
  unfold other_token at 1. destruct (Z.eqb_spec (be_token e) token) as [Et|Et]; csimpl.
  - apply js_filter_all. intros x Hx. apply negb_true_iff, Z.eqb_neq. intros Hxt.
    apply He. rewrite Et, <-Hxt. by apply list_elem_of_fmap_2.
  - rewrite IH by done. by destruct (js_find_index _ l).
Qed.

Lemma release_spec key token r :
  NoDup (be_token <$> bucket key r) →
  rl_nextToken (release key token r) = rl_nextToken r
  ∧ ∀ k, bucket k (release key token r)
         = if decide (k = key) then js_filter (other_token token) (bucket key r) else bucket k r.
Proof.
  intros Hnd. pose proof (delete_token token _ Hnd) as Hf. unfold release.
  destruct (jm_get key (rl_buckets r)) as [[|e l]|] eqn:E;
    try (split; [done|]; intros k; case_decide as Hk; [|done]; rewrite Hk; unfold bucket; by rewrite E).
  assert (Hb : bucket key r = e :: l) by (unfold bucket; by rewrite E). rewrite Hb in Hf.
  destruct (js_find_index _ (e :: l)) as [idx|] eqn:Hi.
  - destruct (delete idx (e :: l)) as [|e' l'] eqn:Hd; (split; [done|]); intros k.
    + unfold bucket at 1. simpl. rewrite jm_get_delete. case_decide; [|done]. by rewrite Hb, Hf.
    + rewrite bucket_set. case_decide; [|done]. by rewrite Hb, Hf.
  - split; [done|]. intros k. case_decide as Hk; [|done]. by rewrite Hk, Hb, Hf.
Qed.

Lemma grants_filter key key' token gs :
  grants_of key (js_filter (λ g, negb (str_eqb (gr_key g) key' && (gr_token g =? token))) gs)
  = if decide (key = key') then js_filter (other_token token) (grants_of key gs)
    else grants_of key gs.
Proof.
  unfold grants_of. induction gs as [|g gs IH]; csimpl; [by case_decide|].
  destruct (decide (key = key')) as [<-|Hne].
  - destruct (str_eqb (gr_key g) key) eqn:Hk; csimpl.
    + unfold other_token at 1. csimpl. destruct (gr_token g =? token); csimpl; [done|].
      rewrite Hk. csimpl. by rewrite IH.
    + by rewrite Hk.
  - destruct (str_eqb (gr_key g) key) eqn:Hk; csimpl.
    + apply bool_decide_eq_true in Hk as Hk'. 
      assert (str_eqb (gr_key g) key' = false) as -> by (apply bool_decide_eq_false; congruence).
      csimpl. rewrite Hk. csimpl. by rewrite IH.
    + destruct (negb _); csimpl; by rewrite ?Hk.
Qed.

(** The tokens in a bucket are distinct. *)
Lemma ok_bucket_tokens limit windowMs s key :
  run_ok limit windowMs s → NoDup (be_token <$> bucket key (lr_limiter s)).
Proof.
  intros H. destruct (ro_split _ _ _ H key) as (old & Hs & _). destruct (ro_tokens _ _ _ H) as [Hnd _].
  assert (Hk : NoDup (be_token <$> grants_of key (lr_grants s))).
  { unfold grants_of. rewrite <-list_fmap_compose.
    change (be_token ∘ grant_event) with gr_token.
    eapply sublist_NoDup; [exact Hnd|]. apply fmap_sublist, js_filter_sublist. }
  rewrite Hs, fmap_app in Hk. by apply NoDup_app in Hk as (_ & _ & Hk).
Qed.

Lemma ok_start limit windowMs now : 0 < limit → run_ok limit windowMs (start_run now).
Proof.
  intros Hl. split; simpl.
  - split; [constructor|done].
  - intros key. exists []. done.
  - intros key. unfold js_len. simpl. lia.
  - done.
  - intros key t. unfold js_len. simpl. lia.
Qed.

Lemma ok_release limit windowMs s key token :
  run_ok limit windowMs s → run_ok limit windowMs (call_step limit windowMs s (Release key token)).
Proof.
  intros H. pose proof (ok_bucket_tokens _ _ _ key H) as Hnd.
  destruct (release_spec key token _ Hnd) as (Ht & Hb). destruct H as [[Hn Hlt] Hsplit Hlen Hpast Hwin].
  set (keep := λ g, negb (str_eqb (gr_key g) key && (gr_token g =? token))).
  assert (Hsub : js_filter keep (lr_grants s) `sublist_of` lr_grants s) by apply js_filter_sublist.
  split; simpl; fold keep.
  - rewrite Ht. split; [|by apply js_filter_Forall].
    eapply sublist_NoDup; [exact Hn|]. by apply fmap_sublist.
  - intros k. destruct (Hsplit k) as (old & Hs & Hold). rewrite Hb.
    unfold keep. rewrite grants_filter, Hs. case_decide as Hk; [|by exists old].
    exists (js_filter (other_token token) old). rewrite js_filter_app, <-Hk. split; [done|].
    by apply js_filter_Forall.
  - intros k. rewrite Hb. case_decide as Hk; [|done].
    etrans; [apply js_len_sublist, js_filter_sublist|apply Hlen].
  - by apply js_filter_Forall.
  - intros k t. etrans; [|apply (Hwin k t)]. apply js_len_sublist.
    clear. induction (lr_grants s) as [|g gs IH]; simpl; [constructor|].
    destruct (keep g), (in_window windowMs k t g) eqn:E; simpl; rewrite ?E;
      first [exact IH|by constructor].
Qed.

(** The events [reserve] keeps for a key are its last grants. *)
Lemma ok_events limit windowMs s now key :
  run_ok limit windowMs s → lr_now s ≤ now →
  ∃ old, grants_of key (lr_grants s)
         = old ++ fresh_from (now - windowMs) (bucket key (lr_limiter s))
    ∧ Forall (λ e, be_ts e ≤ now - windowMs) old.
Proof.
  intros H Hnow. destruct (ro_split _ _ _ H key) as (old & Hs & Ho).
  destruct (fresh_from_spec (now - windowMs) (bucket key (lr_limiter s))) as (old' & Hs' & Ho').
  exists (old ++ old'). rewrite Hs, Hs' at 1. rewrite (assoc_L (++)). split; [done|].
  apply Forall_app. split; [|done]. eapply Forall_impl; [exact Ho|]. simpl. lia.
Qed.

Lemma ok_deny limit windowMs s now key r' :
  run_ok limit windowMs s → lr_now s ≤ now →
  rl_nextToken r' = rl_nextToken (lr_limiter s) →
  (∀ k, k ≠ key → bucket k r' = bucket k (lr_limiter s)) →
  bucket key r' = fresh_from (now - windowMs) (bucket key (lr_limiter s)) →
  run_ok limit windowMs {| lr_now := now; lr_limiter := r'; lr_grants := lr_grants s |}.
Proof.
  intros H Hnow Hnext Hother Hb. pose proof (ok_events _ _ _ now key H Hnow) as Hkey.
  destruct H as [Htok Hsplit Hlen Hpast Hwin]. split; simpl; [by rewrite Hnext| | | |done].
  - intros k. destruct (decide (k = key)) as [->|Hk]; [by rewrite Hb|].
    rewrite Hother by done. destruct (Hsplit k) as (old & Hs & Ho). exists old. split; [done|].
    eapply Forall_impl; [exact Ho|]. simpl. lia.
  - intros k. destruct (decide (k = key)) as [->|Hk]; [|by rewrite Hother]. rewrite Hb.
    destruct (fresh_from_spec (now - windowMs) (bucket key (lr_limiter s))) as (old & Hs & _).
    specialize (Hlen key). rewrite Hs in Hlen. unfold js_len in *. rewrite length_app in Hlen. lia.
  - eapply Forall_impl; [exact Hpast|]. simpl. lia.
Qed.

Lemma ok_grant limit windowMs s now key r' :
  run_ok limit windowMs s → lr_now s ≤ now →
  js_len (fresh_from (now - windowMs) (bucket key (lr_limiter s))) < limit →
  rl_nextToken r' = rl_nextToken (lr_limiter s) + 1 →
  (∀ k, k ≠ key → bucket k r' = bucket k (lr_limiter s)) →
  let g := {| gr_key := key; gr_ts := now; gr_token := rl_nextToken (lr_limiter s) |} in
  bucket key r' = fresh_from (now - windowMs) (bucket key (lr_limiter s)) ++ [grant_event g] →
  run_ok limit windowMs {| lr_now := now; lr_limiter := r'; lr_grants := lr_grants s ++ [g] |}.
Proof.
  intros H Hnow Hroom Hnext Hother g Hb. destruct (ok_events _ _ _ now key H Hnow) as (oldk & Hsk & Hok).
  destruct H as [[Hn Hlt] Hsplit Hlen Hpast Hwin]. split; simpl.
  - rewrite Hnext, fmap_app, NoDup_app, Forall_app. split_and!; [done| |apply NoDup_singleton| |].
    + intros x Hx ->%list_elem_of_singleton. rewrite Forall_forall in Hlt.
      apply list_elem_of_fmap in Hx as (y & Hy & Hin). specialize (Hlt y Hin). simpl in *. lia.
    + eapply Forall_impl; [exact Hlt|]. simpl. lia.
    + repeat constructor. simpl. lia.
  - intros k. rewrite grants_of_app. unfold grants_of at 2. csimpl. destruct (str_eqb key k) eqn:Hk.
    + apply bool_decide_eq_true in Hk as <-. exists oldk. by rewrite Hb, Hsk, (assoc_L (++)).
    + apply bool_decide_eq_false in Hk. destruct (Hsplit k) as (old & Hs & Ho). exists old.
      rewrite Hother, app_nil_r by done. split; [done|]. eapply Forall_impl; [exact Ho|]. simpl. lia.
  - intros k. destruct (decide (k = key)) as [->|Hk]; [|by rewrite Hother].
    rewrite Hb. unfold js_len in *. rewrite length_app. simpl. lia.
  - apply Forall_app. split; [|by repeat constructor]. eapply Forall_impl; [exact Hpast|]. simpl. lia.
  - intros k t. pose proof (Hwin k t) as Hold. rewrite js_filter_app. csimpl. unfold in_window at 2. simpl.
    unfold js_len in *. rewrite length_app.
    destruct (str_eqb key k) eqn:Hk; simpl; [|lia]. apply bool_decide_eq_true in Hk as <-.
    destruct (Z.ltb_spec (t - windowMs) now); simpl; [|lia].
    destruct (Z.leb_spec now t); simpl; [|lia].
    assert (Hw : js_len (js_filter (in_window windowMs key t) (lr_grants s))
                 ≤ js_len (fresh_from (now - windowMs) (bucket key (lr_limiter s)))).
    { eapply window_in_bucket; [exact Hsk|]. eapply Forall_impl; [exact Hok|]. simpl. lia. }
    unfold js_len in Hw. lia.
Qed.

Lemma ok_call limit windowMs s c :
  0 < limit → run_ok limit windowMs s → run_ok limit windowMs (call_step limit windowMs s c).
Proof.
  intros Hl H. destruct c as [ts key|key token]; [|by apply ok_release]. simpl.
  set (now := Z.max ts (lr_now s)). assert (Hnow : lr_now s ≤ now) by lia.
  destruct (reserve_spec limit windowMs now key (lr_limiter s) Hl) as ([c tok] & r' & -> & Hother & Hres).
  simpl in Hres. destruct (Z.ltb_spec (js_len (fresh_from (now - windowMs) (bucket key (lr_limiter s)))) limit);
    destruct Hres as (-> & Hnext & Hb); [by eapply ok_grant|by eapply ok_deny].
Qed.

Lemma limiter_run_ok limit windowMs now calls :
  0 < limit → run_ok limit windowMs (limiter_run limit windowMs now calls).
Proof.
  intros Hl. unfold limiter_run. rewrite <-(rev_involutive calls).
  induction (rev calls) as [|c l IH]; simpl; [by apply ok_start|].
  rewrite foldl_app. simpl. by apply ok_call.
Qed.

(** ** Theorems *)

(** However calls of clients to reserve and to give back interleave, no window
    of [windowMs] that ends at any time holds more than [limit] reservations of
    a key that were granted and not given back. *)
Theorem rate_limit_window limit windowMs now calls key t :
  0 < limit →
  js_len (js_filter (in_window windowMs key t) (lr_grants (limiter_run limit windowMs now calls)))
  ≤ limit.
Proof. intros Hl. apply (ro_windows _ _ _ (limiter_run_ok limit windowMs now calls Hl)). Qed.

Lemma rate_limit_window_witness :
  js_len (js_filter (in_window 100 "c" 120)
            (lr_grants (limiter_run 2 100 0 [Reserve 10 "c"; Reserve 30 "c"; Reserve 60 "c";
                                             Release "c" 1; Reserve 70 "c"; Reserve 120 "c"]))) ≤ 2
  ∧ lr_grants (limiter_run 2 100 0 [Reserve 10 "c"; Reserve 30 "c"; Reserve 60 "c";
                                    Release "c" 1; Reserve 70 "c"; Reserve 120 "c"])
    = [{| gr_key := "c"; gr_ts := 30; gr_token := 2 |}; {| gr_key := "c"; gr_ts := 70; gr_token := 3 |}].
Proof. split; [by apply rate_limit_window|vm_compute; reflexivity]. Defined.

(** [retryAfterMs] is exact: after a refusal, the key is refused until that many
    milliseconds have passed, and allowed from then on, as long as nobody else
    asks for it. *)
Theorem retry_after_exact limit windowMs now calls key ts c r' ts' :
  0 < limit → ts ≤ ts' →
  check limit windowMs ts key (lr_limiter (limiter_run limit windowMs now calls)) = (Ok c, r') →
  rc_allowed c = false →
  ∃ c', (check limit windowMs ts' key r').1 = Ok c'
    ∧ 0 < rc_retryAfterMs c
    ∧ rc_allowed c' = bool_decide (ts + rc_retryAfterMs c ≤ ts').
Proof.
  intros Hl Hts Hc Hdeny. set (r := lr_limiter _) in *.
  pose proof (ro_length _ _ _ (limiter_run_ok limit windowMs now calls Hl) key) as Hlen. fold r in Hlen.
  destruct (check_spec limit windowMs ts key r Hl) as (Hb & _ & _ & c1 & Hc1 & Hallow & Hret).
  rewrite Hc in *. simpl in *. injection Hc1 as <-. destruct (Hret Hdeny) as (e & rest & He & Hr).
  destruct (check_spec limit windowMs ts' key r' Hl) as (_ & _ & _ & c' & Hc' & Hallow' & _).
  exists c'. split; [done|]. pose proof (fresh_from_head _ _ _ _ He) as Hhead. split; [lia|].
  rewrite Hallow', Hb, He, Hr. rewrite Hdeny, He in Hallow.
  destruct (fresh_from_spec (ts - windowMs) (bucket key r)) as (old & Hold & _). rewrite He in Hold.
  rewrite Hold in Hlen. unfold js_len in *. rewrite length_app in Hlen. simpl in *.
  destruct (Z.leb_spec (be_ts e) (ts' - windowMs)) as [Hstale|Hfresh].
  - rewrite bool_decide_eq_true_2 by lia. apply Z.ltb_lt.
    destruct (fresh_from_spec (ts' - windowMs) rest) as (old' & Hrest & _).
    apply (f_equal length) in Hrest. rewrite length_app in Hrest. lia.
  - rewrite bool_decide_eq_false_2 by lia. done.
Qed.

Lemma retry_after_exact_witness :
  let r := lr_limiter (limiter_run 2 100 0 [Reserve 10 "c"; Reserve 30 "c"]) in
  ∃ c r' c', check 2 100 60 "c" r = (Ok c, r') ∧ (check 2 100 110 "c" r').1 = Ok c'
    ∧ rc_retryAfterMs c = 50 ∧ rc_allowed c' = true.
Proof.
  intros r. destruct (check 2 100 60 "c" r) as [o r'] eqn:E. vm_compute in E.
  injection E as <- <-.
  destruct (retry_after_exact 2 100 0 [Reserve 10 "c"; Reserve 30 "c"] "c" 60
    {| rc_allowed := false; rc_retryAfterMs := 50; rc_remaining := 0 |} r 110)
    as (c' & Hc' & _ & Ha); [done|done|vm_compute; reflexivity|done|].
  eexists _, _, c'. split_and!; [done|exact Hc'|done|]. rewrite Ha. vm_compute. reflexivity.
Defined.
