(* ===== verification/ProposalStorage.v ===== *)
(** * Proposals and their storage

    The proposal types of [packages/shared/src/utils/cache-proposals.ts] and
    [memory-proposals.ts], and the proposal tables of the in-memory adapter
    ([apps/api/src/storage/adapters/memory.adapter.ts]).

    The adapter has two copies of the same table, one for cache and one for
    memory proposals, which differ in the statuses, the payloads, the test for a
    clashing pending proposal and the validation of an edited payload.  The
    shared part is a section over those; the operations under their names in the
    code follow it.  [structuredClone] makes every row a value. *)
From S2P Require Export Json.
From stdpp Require Import options.

(** ** Definitions *)

(** *** Shared types *)
Inductive ActorSource := Ui | Mcp | System.

Inductive ProposalAuditEvent :=
  | ev_proposed | ev_approved | ev_rejected | ev_edited_and_approved | ev_applied | ev_failed
  | ev_expired | ev_outcome_evaluated.
#[export] Instance ProposalAuditEvent_eq_dec : EqDecision ProposalAuditEvent.
Proof. solve_decision. Defined.

Record AppliedResult := {
  ar_success : bool;
  ar_error : option string;
  ar_details : option (list (string * json));
}.

Record ProposalAudit := {
  pa_id : string;
  pa_proposal_id : string;
  pa_event_type : ProposalAuditEvent;
  pa_event_payload : option (list (string * json));
  pa_event_at : Z;
  pa_actor : option string;
  pa_actor_source : ActorSource;
}.

(** A stored proposal with a status in [St] and a payload in [P]; [sp_name] is the
    cache or the memory store it is about. *)
Record StoredProposal {St P : Type} := {
  sp_id : string;
  sp_connection_id : string;
  sp_name : string;
  sp_payload : P;
  sp_reasoning : option string;
  sp_status : St;
  sp_proposed_by : option string;
  sp_proposed_at : Z;
  sp_reviewed_by : option string;
  sp_reviewed_at : option Z;
  sp_applied_at : option Z;
  sp_applied_result : option AppliedResult;
  sp_expires_at : Z;
}.
Arguments StoredProposal : clear implicits.

Record CreateProposalInput {P : Type} := {
  ci_id : string;
  ci_connection_id : string;
  ci_name : string;
  ci_payload : P;
  ci_reasoning : option string;
  ci_proposed_by : option string;
  ci_proposed_at : option Z;
  ci_expires_at : option Z;
}.
Arguments CreateProposalInput : clear implicits.

(** An update; [None] is an absent member, [Some None] a [null]. *)
Record UpdateStatusInput {St P : Type} := {
  ui_id : string;
  ui_expected_status : option (list St);
  ui_status : St;
  ui_reviewed_by : option (option string);
  ui_reviewed_at : option (option Z);
  ui_applied_at : option (option Z);
  ui_applied_result : option (option AppliedResult);
  ui_payload : option P;
}.
Arguments UpdateStatusInput : clear implicits.

Record ProposalTable {St P : Type} := {
  pt_proposals : list (string * StoredProposal St P);
  pt_audit : list (string * ProposalAudit);
}.
Arguments ProposalTable : clear implicits.

Section table.
Context {St P : Type} `{EqDecision St}.
Context (pending expired : St).

Definition empty_table : ProposalTable St P := {| pt_proposals := []; pt_audit := [] |}.

Definition with_proposals
    (f : list (string * StoredProposal St P) → list (string * StoredProposal St P))
    (t : ProposalTable St P) : ProposalTable St P :=
  {| pt_proposals := f (pt_proposals t); pt_audit := pt_audit t |}.

Definition has_status (s : St) (p : StoredProposal St P) : bool := bool_decide (sp_status p = s).

Definition new_proposal (defaultExpiryMs now : Z) (input : CreateProposalInput P)
    : StoredProposal St P :=
  let proposedAt := default now (ci_proposed_at input) in
  {| sp_id := ci_id input; sp_connection_id := ci_connection_id input; sp_name := ci_name input;
     sp_payload := ci_payload input; sp_reasoning := ci_reasoning input; sp_status := pending;
     sp_proposed_by := ci_proposed_by input; sp_proposed_at := proposedAt;
     sp_reviewed_by := None; sp_reviewed_at := None; sp_applied_at := None;
     sp_applied_result := None;
     sp_expires_at := default (proposedAt + defaultExpiryMs) (ci_expires_at input) |}.

Definition get_proposal (id : string) (t : ProposalTable St P) : option (StoredProposal St P) :=
  jm_get id (pt_proposals t).

(** [clash input existing] holds when [existing], if pending, blocks [input]. *)
Definition create_proposal (unique_error : string)
    (clash : CreateProposalInput P → StoredProposal St P → bool)
    (defaultExpiryMs now : Z) (input : CreateProposalInput P)
    : M (ProposalTable St P) string (StoredProposal St P) := λ t,
  if js_some (λ existing, has_status pending existing && clash input existing)
       (jm_values (pt_proposals t))
  then (Throw unique_error, t)
  else let proposal := new_proposal defaultExpiryMs now input in
       (Ok proposal, with_proposals (jm_set (sp_id proposal) proposal) t).

(** The filters a list query applies after the connection. *)
Definition status_in (statuses : option (list St)) (p : StoredProposal St P) : bool :=
  match statuses with None => true | Some l => js_includes (sp_status p) l end.

Definition list_proposals (connection_id : string) (statuses : option (list St))
    (more : StoredProposal St P → bool) (limit offset : option Z) (t : ProposalTable St P)
    : list (StoredProposal St P) :=
  let filtered := js_filter (λ p, str_eqb (sp_connection_id p) connection_id && status_in statuses p
                                  && more p) (jm_values (pt_proposals t)) in
  let offset := default 0 offset in
  js_slice offset (offset + default 100 limit) (js_sort (by_desc sp_proposed_at) filtered).

Definition update_row (u : UpdateStatusInput St P) (p : StoredProposal St P)
    : StoredProposal St P :=
  {| sp_id := sp_id p; sp_connection_id := sp_connection_id p; sp_name := sp_name p;
     sp_payload := default (sp_payload p) (ui_payload u); sp_reasoning := sp_reasoning p;
     sp_status := ui_status u; sp_proposed_by := sp_proposed_by p;
     sp_proposed_at := sp_proposed_at p;
     sp_reviewed_by := default (sp_reviewed_by p) (ui_reviewed_by u);
     sp_reviewed_at := default (sp_reviewed_at p) (ui_reviewed_at u);
     sp_applied_at := default (sp_applied_at p) (ui_applied_at u);
     sp_applied_result := default (sp_applied_result p) (ui_applied_result u);
     sp_expires_at := sp_expires_at p |}.

(** [valid existing payload] is the validation of an edited payload. *)
Definition update_status (valid : StoredProposal St P → P → bool) (u : UpdateStatusInput St P)
    : M (ProposalTable St P) string (option (StoredProposal St P)) := λ t,
  match get_proposal (ui_id u) t with
  | None => (Ok None, t)
  | Some existing =>
      if match ui_expected_status u with
         | None => false
         | Some allowed => negb (js_includes (sp_status existing) allowed)
         end
      then (Ok None, t)
      else if match ui_payload u with
              | None => false
              | Some payload => negb (valid existing payload)
              end
      then (Throw "ZodError", t)
      else let updated := update_row u existing in
           (Ok (Some updated), with_proposals (jm_set (ui_id u) updated) t)
  end.

Definition set_status (s : St) (p : StoredProposal St P) : StoredProposal St P :=
  {| sp_id := sp_id p; sp_connection_id := sp_connection_id p; sp_name := sp_name p;
     sp_payload := sp_payload p; sp_reasoning := sp_reasoning p; sp_status := s;
     sp_proposed_by := sp_proposed_by p; sp_proposed_at := sp_proposed_at p;
     sp_reviewed_by := sp_reviewed_by p; sp_reviewed_at := sp_reviewed_at p;
     sp_applied_at := sp_applied_at p; sp_applied_result := sp_applied_result p;
     sp_expires_at := sp_expires_at p |}.

Definition expirable (now : Z) (p : StoredProposal St P) : bool :=
  has_status pending p && (sp_expires_at p <=? now).

(** The loop overwrites the rows it visits in place. *)
Definition expire_before (now : Z) (t : ProposalTable St P)
    : list (StoredProposal St P) * ProposalTable St P :=
  (set_status expired <$> js_filter (expirable now) (jm_values (pt_proposals t)),
   with_proposals
     (fmap (λ e, (e.1, if expirable now e.2 then set_status expired e.2 else e.2))) t).

Definition append_audit (audit : ProposalAudit) (t : ProposalTable St P) : ProposalTable St P :=
  {| pt_proposals := pt_proposals t; pt_audit := jm_set (pa_id audit) audit (pt_audit t) |}.

Definition get_audit (proposalId : string) (t : ProposalTable St P) : list ProposalAudit :=
  js_sort (by_asc pa_event_at)
    (js_filter (λ a, str_eqb (pa_proposal_id a) proposalId) (jm_values (pt_audit t))).
End table.

#[global] Arguments get_proposal : simpl never.

(** *** Cache proposals *)
Inductive CacheType := agent_cache | semantic_cache.
#[export] Instance CacheType_eq_dec : EqDecision CacheType.
Proof. solve_decision. Defined.

Inductive ProposalType := threshold_adjust | tool_ttl_adjust | invalidate.
#[export] Instance ProposalType_eq_dec : EqDecision ProposalType.
Proof. solve_decision. Defined.

Inductive ProposalStatus := pending | approved | rejected | applied | failed | expired.
#[export] Instance ProposalStatus_eq_dec : EqDecision ProposalStatus.
Proof. solve_decision. Defined.

Inductive AgentFilterKind := tool_filter | key_prefix_filter | session_filter.
#[export] Instance AgentFilterKind_eq_dec : EqDecision AgentFilterKind.
Proof. solve_decision. Defined.

(** The four variants of [CacheProposalUnion]. *)
Inductive CachePayload :=
  | SemanticThresholdAdjust (category : option string) (current_threshold new_threshold : number)
  | SemanticInvalidate (filter_expression : string) (estimated_affected : number)
  | AgentToolTtlAdjust (tool_name : string) (current_ttl_seconds new_ttl_seconds : number)
  | AgentInvalidate (filter_kind : AgentFilterKind) (filter_value : string)
      (estimated_affected : number).

Definition cache_type_of (p : CachePayload) : CacheType :=
  match p with
  | SemanticThresholdAdjust _ _ _ | SemanticInvalidate _ _ => semantic_cache
  | AgentToolTtlAdjust _ _ _ | AgentInvalidate _ _ _ => agent_cache
  end.
Definition proposal_type_of (p : CachePayload) : ProposalType :=
  match p with
  | SemanticThresholdAdjust _ _ _ => threshold_adjust
  | AgentToolTtlAdjust _ _ _ => tool_ttl_adjust
  | SemanticInvalidate _ _ | AgentInvalidate _ _ _ => invalidate
  end.

(** [z.number().min(lo).max(hi)], and [z.number().int()], whose integers are the
    safe ones. *)
Definition z_between (lo hi : Z) (x : number) : bool :=
  num_leb (num_of_Z lo) x && num_leb x (num_of_Z hi).
Definition z_int (x : number) : bool :=
  match num_to_Z x with Some z => Z.abs z <=? 2 ^ 53 - 1 | None => false end.

Definition schema_valid (p : CachePayload) : bool :=
  match p with
  | SemanticThresholdAdjust _ current_threshold new_threshold =>
      z_between 0 2 current_threshold && z_between 0 2 new_threshold
  | SemanticInvalidate filter_expression estimated_affected =>
      negb (is_empty filter_expression) && z_int estimated_affected
      && num_leb (num_of_Z 0) estimated_affected
  | AgentToolTtlAdjust tool_name current_ttl_seconds new_ttl_seconds =>
      negb (is_empty tool_name) && z_int current_ttl_seconds
      && num_leb (num_of_Z 0) current_ttl_seconds
      && z_int new_ttl_seconds && z_between 10 86400 new_ttl_seconds
  | AgentInvalidate _ filter_value estimated_affected =>
      negb (is_empty filter_value) && z_int estimated_affected
      && num_leb (num_of_Z 0) estimated_affected
  end.

(** [variantPayloadSchemaFor(cache_type, proposal_type).parse(payload)]: a payload
    of another variant lacks the members of the schema. *)
Definition variant_valid (cache_type : CacheType) (proposal_type : ProposalType)
    (payload : CachePayload) : bool :=
  bool_decide (cache_type_of payload = cache_type)
  && bool_decide (proposal_type_of payload = proposal_type) && schema_valid payload.

Definition StoredCacheProposal : Type := StoredProposal ProposalStatus CachePayload.
Definition CacheProposalTable : Type := ProposalTable ProposalStatus CachePayload.

Definition PROPOSAL_DEFAULT_EXPIRY_MS : Z := 24 * 60 * 60 * 1000.
Definition NULL_SUB_DISCRIMINATOR : string := "__betterdb_null__".

Definition pendingProposalSubDiscriminator (p : CachePayload) : option string :=
  match p with
  | SemanticThresholdAdjust category _ _ => Some (default NULL_SUB_DISCRIMINATOR category)
  | AgentToolTtlAdjust tool_name _ _ => Some tool_name
  | _ => None
  end.

Definition cache_clash (input : CreateProposalInput CachePayload) (existing : StoredCacheProposal)
    : bool :=
  match pendingProposalSubDiscriminator (ci_payload input) with
  | None => false
  | Some subDiscriminator =>
      str_eqb (sp_connection_id existing) (ci_connection_id input)
      && str_eqb (sp_name existing) (ci_name input)
      && bool_decide (proposal_type_of (sp_payload existing) = proposal_type_of (ci_payload input))
      && bool_decide (pendingProposalSubDiscriminator (sp_payload existing) = Some subDiscriminator)
  end.

Definition cache_unique_error : string :=
  "UNIQUE constraint failed: cache_proposals (connection_id, cache_name, proposal_type, sub_discriminator) where status='pending'".

Definition createCacheProposal : Z → CreateProposalInput CachePayload →
    M CacheProposalTable string StoredCacheProposal :=
  create_proposal pending cache_unique_error cache_clash PROPOSAL_DEFAULT_EXPIRY_MS.

Definition getCacheProposal (id : string) (t : CacheProposalTable) : option StoredCacheProposal :=
  get_proposal id t.

Record ListCacheProposalsOptions := {
  lc_connection_id : string;
  lc_status : option (list ProposalStatus);
  lc_cache_name : option string;
  lc_cache_type : option CacheType;
  lc_proposal_type : option ProposalType;
  lc_limit : option Z;
  lc_offset : option Z;
}.
Definition listCacheProposals (options : ListCacheProposalsOptions) (t : CacheProposalTable)
    : list StoredCacheProposal :=
  list_proposals (lc_connection_id options) (lc_status options)
    (λ p, (negb (truthy_string (lc_cache_name options))
           || bool_decide (lc_cache_name options = Some (sp_name p)))
          && when_some (lc_cache_type options) (λ c, bool_decide (cache_type_of (sp_payload p) = c))
          && when_some (lc_proposal_type options)
               (λ c, bool_decide (proposal_type_of (sp_payload p) = c)))
    (lc_limit options) (lc_offset options) t.

Definition updateCacheProposalStatus : UpdateStatusInput ProposalStatus CachePayload →
    M CacheProposalTable string (option StoredCacheProposal) :=
  update_status (λ existing payload,
    variant_valid (cache_type_of (sp_payload existing)) (proposal_type_of (sp_payload existing))
      payload).

Definition expireCacheProposalsBefore : Z → CacheProposalTable →
    list StoredCacheProposal * CacheProposalTable := expire_before pending expired.

Definition appendCacheProposalAudit : ProposalAudit → CacheProposalTable → CacheProposalTable :=
  append_audit.
Definition getCacheProposalAudit : string → CacheProposalTable → list ProposalAudit := get_audit.

(** *** Memory proposals *)
Inductive MemoryProposalStatus :=
  | m_pending | m_approved | m_applying | m_applied | m_failed | m_rejected | m_expired.
#[export] Instance MemoryProposalStatus_eq_dec : EqDecision MemoryProposalStatus.
Proof. solve_decision. Defined.

(** What to forget: one memory, or those of a scope (its defined members, in
    insertion order) with all of the tags. *)
Inductive MemoryForgetPayload :=
  | ForgetById (memory_id : string)
  | ForgetByScope (scope : option (list (string * string))) (tags : option (list string)).

Definition StoredMemoryProposal : Type := StoredProposal MemoryProposalStatus MemoryForgetPayload.
Definition MemoryProposalTable : Type := ProposalTable MemoryProposalStatus MemoryForgetPayload.

Definition MEMORY_PROPOSAL_DEFAULT_EXPIRY_MS : Z := 24 * 60 * 60 * 1000.

Definition memoryProposalTargetDiscriminator (p : MemoryForgetPayload) : string :=
  match p with
  | ForgetById memory_id => "id:" +:+ memory_id
  | ForgetByScope scope tags =>
      "scope:" +:+ stringify (JObj ((λ kv, (kv.1, JStr kv.2)) <$> default [] scope))
      +:+ "|tags:" +:+ join "," (sort_strings (default [] tags))
  end.

Definition memory_clash (input : CreateProposalInput MemoryForgetPayload)
    (existing : StoredMemoryProposal) : bool :=
  str_eqb (sp_connection_id existing) (ci_connection_id input)
  && str_eqb (sp_name existing) (ci_name input)
  && str_eqb (memoryProposalTargetDiscriminator (sp_payload existing))
             (memoryProposalTargetDiscriminator (ci_payload input)).

Definition memory_unique_error : string :=
  "UNIQUE constraint failed: memory_proposals (connection_id, store_name, target) where status='pending'".

Definition createMemoryProposal : Z → CreateProposalInput MemoryForgetPayload →
    M MemoryProposalTable string StoredMemoryProposal :=
  create_proposal m_pending memory_unique_error memory_clash MEMORY_PROPOSAL_DEFAULT_EXPIRY_MS.

Definition getMemoryProposal (id : string) (t : MemoryProposalTable)
    : option StoredMemoryProposal := get_proposal id t.

Definition listMemoryProposals (connection_id : string)
    (statuses : option (list MemoryProposalStatus)) (store_name : option string)
    (limit offset : option Z) (t : MemoryProposalTable) : list StoredMemoryProposal :=
  list_proposals connection_id statuses
    (λ p, negb (truthy_string store_name) || bool_decide (store_name = Some (sp_name p)))
    limit offset t.

Definition updateMemoryProposalStatus :
    UpdateStatusInput MemoryProposalStatus MemoryForgetPayload →
    M MemoryProposalTable string (option StoredMemoryProposal) :=
  update_status (λ _ _, true).

Definition expireMemoryProposalsBefore : Z → MemoryProposalTable →
    list StoredMemoryProposal * MemoryProposalTable := expire_before m_pending m_expired.

Definition appendMemoryProposalAudit : ProposalAudit → MemoryProposalTable → MemoryProposalTable :=
  append_audit.
Definition getMemoryProposalAudit : string → MemoryProposalTable → list ProposalAudit := get_audit.

(** ** Specification *)

(** How rows change over time.  A row keeps what it was created with, up to an
    edit of its payload, and its status follows [edge]. *)
Section evolution.
Context {St P : Type} (edge : St → St → Prop) (same : P → P → Prop).

Record row_evolves (p p' : StoredProposal St P) : Prop := {
  re_id : sp_id p' = sp_id p;
  re_connection_id : sp_connection_id p' = sp_connection_id p;
  re_name : sp_name p' = sp_name p;
  re_payload : same (sp_payload p) (sp_payload p');
  re_reasoning : sp_reasoning p' = sp_reasoning p;
  re_proposed_by : sp_proposed_by p' = sp_proposed_by p;
  re_proposed_at : sp_proposed_at p' = sp_proposed_at p;
  re_expires_at : sp_expires_at p' = sp_expires_at p;
  re_status : rtc edge (sp_status p) (sp_status p');
}.

Definition table_evolves (t t' : ProposalTable St P) : Prop :=
  ∀ id p, get_proposal id t = Some p →
    ∃ p', get_proposal id t' = Some p' ∧ row_evolves p p'.
End evolution.

(** At most one pending proposal a target. *)
Definition pending_unique {St P K} `{EqDecision St} (pending : St)
    (target : StoredProposal St P → option K) (t : ProposalTable St P) : Prop :=
  ∀ p q k, p ∈ jm_values (pt_proposals t) → q ∈ jm_values (pt_proposals t) →
    sp_status p = pending → sp_status q = pending →
    target p = Some k → target q = Some k → p = q.

(** What a proposal is about, if it may have only one pending: the connection, the
    cache, the kind of change and the category or tool. *)
Definition cache_target (p : StoredCacheProposal)
    : option (string * string * ProposalType * string) :=
  d ← pendingProposalSubDiscriminator (sp_payload p);
  Some (sp_connection_id p, sp_name p, proposal_type_of (sp_payload p), d).

Definition memory_target (p : StoredMemoryProposal) : option (string * string * string) :=
  Some (sp_connection_id p, sp_name p, memoryProposalTargetDiscriminator (sp_payload p)).

(** ** Lemmas *)
Section evolution_lemmas.
Context {St P : Type} (edge : St → St → Prop) (same : P → P → Prop) `{!PreOrder same}.

#[export] Instance row_evolves_preorder : PreOrder (row_evolves edge same).
Proof using All.
  split.
  - by intros p.
  - intros p q r [] []. split; try congruence; by etrans.
Qed.

#[export] Instance table_evolves_preorder : PreOrder (table_evolves edge same).
Proof using All.
  split.
  - intros t id p Hp. by exists p.
  - intros t t' t'' H H' id p Hp. destruct (H id p Hp) as (p' & Hp' & ?).
    destruct (H' id p' Hp') as (p'' & ? & ?). exists p''. split; [done|]. by etrans.
Qed.
End evolution_lemmas.

Section table_lemmas.
Context {St P : Type} `{EqDecision St}.
Context (pending expired : St).
Implicit Types (t : ProposalTable St P) (p : StoredProposal St P).

Lemma get_set id k p t :
  get_proposal id (with_proposals (jm_set k p) t) = if decide (id = k) then Some p
                                                    else get_proposal id t.
Proof using Type. apply jm_get_set. Qed.

Lemma create_proposal_spec err clash dflt now input t r t' :
  create_proposal pending err clash dflt now input t = (r, t') →
  (r = Throw err ∧ t' = t
   ∧ ∃ x, x ∈ jm_values (pt_proposals t) ∧ sp_status x = pending ∧ clash input x = true)
  ∨ (∃ p, r = Ok p ∧ p = new_proposal pending dflt now input
     ∧ t' = with_proposals (jm_set (sp_id p) p) t
     ∧ ∀ x, x ∈ jm_values (pt_proposals t) → sp_status x = pending → clash input x = false).
Proof using Type.
  unfold create_proposal, has_status. destruct (js_some _ _) eqn:E; intros [= <- <-].
  - left. apply js_some_true in E as (x & Hx & Hc). js_bools. eauto 6.
  - right. eexists. split_and!; [done..|]. intros x Hx Hs.
    destruct (clash input x) eqn:Hc; [|done]. exfalso.
    apply not_true_iff_false in E. apply E, js_some_true. exists x.
    split; [done|]. by rewrite Hc, bool_decide_true.
Qed.

Lemma update_status_spec valid (u : UpdateStatusInput St P) t r t' :
  update_status valid u t = (r, t') →
  (r = Ok None ∧ t' = t
   ∧ ∀ p, get_proposal (ui_id u) t = Some p →
       ∃ allowed, ui_expected_status u = Some allowed ∧ sp_status p ∉ allowed)
  ∨ (∃ p payload, r = Throw "ZodError" ∧ t' = t ∧ get_proposal (ui_id u) t = Some p
     ∧ ui_payload u = Some payload ∧ valid p payload = false)
  ∨ (∃ p, r = Ok (Some (update_row u p)) ∧ get_proposal (ui_id u) t = Some p
     ∧ t' = with_proposals (jm_set (ui_id u) (update_row u p)) t
     ∧ (∀ allowed, ui_expected_status u = Some allowed → sp_status p ∈ allowed)
     ∧ ∀ payload, ui_payload u = Some payload → valid p payload = true).
Proof using Type.
  unfold update_status. destruct (get_proposal _ t) as [p|] eqn:Hp.
  - destruct (ui_expected_status u) as [allowed|] eqn:Ha.
    + destruct (js_includes (sp_status p) allowed) eqn:Hi; cbn [negb].
      * apply js_includes_true in Hi.
        destruct (ui_payload u) as [payload|] eqn:Hl;
          [destruct (valid p payload) eqn:Hv; cbn [negb]|]; intros [= <- <-].
        -- right; right. exists p. split_and!; [done..| |]; intros; by simplify_eq.
        -- right; left. eauto 8.
        -- right; right. exists p. split_and!; [done..| |]; intros; by simplify_eq.
      * intros [= <- <-]. left. split_and!; [done..|]. intros ? [= <-].
        exists allowed. split; [done|]. by apply js_includes_false in Hi.
    + destruct (ui_payload u) as [payload|] eqn:Hl;
        [destruct (valid p payload) eqn:Hv; cbn [negb]|]; intros [= <- <-].
      * right; right. exists p. split_and!; [done..| |]; intros; by simplify_eq.
      * right; left. eauto 8.
      * right; right. by exists p.
  - intros [= <- <-]. left. by split_and!.
Qed.

(** The row an expiry leaves. *)
Definition expire_row (now : Z) p : StoredProposal St P :=
  if expirable pending now p then set_status expired p else p.

Lemma expire_row_id now p : sp_id (expire_row now p) = sp_id p.
Proof using Type. unfold expire_row. by case_match. Qed.

Lemma expire_before_get now t id :
  get_proposal id (expire_before pending expired now t).2 = expire_row now <$> get_proposal id t.
Proof using Type.
  unfold expire_before, get_proposal, with_proposals. cbn. induction (pt_proposals t) as [|[k v] m IH]; csimpl;
    [done|]. by case_decide.
Qed.

Lemma expire_before_elem now t p :
  p ∈ jm_values (pt_proposals (expire_before pending expired now t).2) ↔
  ∃ q, q ∈ jm_values (pt_proposals t) ∧ p = expire_row now q.
Proof using Type.
  unfold expire_before, jm_values, with_proposals. cbn. rewrite !list_elem_of_fmap. split.
  - intros (e & -> & He). apply list_elem_of_fmap in He as ([k q] & -> & He).
    exists q. split; [apply list_elem_of_fmap; by exists (k, q)|done].
  - intros (q & Hq & ->). apply list_elem_of_fmap in Hq as ([k q'] & -> & Hq).
    exists (k, expire_row now q'). split; [done|]. apply list_elem_of_fmap. by exists (k, q').
Qed.

Lemma expire_before_result now t p :
  p ∈ (expire_before pending expired now t).1 ↔
  ∃ q, q ∈ jm_values (pt_proposals t) ∧ sp_status q = pending ∧ sp_expires_at q ≤ now
       ∧ p = set_status expired q.
Proof using Type.
  unfold expire_before. cbn. rewrite list_elem_of_fmap.
  setoid_rewrite js_filter_elem. unfold expirable, has_status. split.
  - intros (q & -> & Hq & ?). js_bools. exists q. by split_and!.
  - intros (q & ? & ? & ? & ->). exists q. split_and!; [done| |done].
    rewrite bool_decide_true by done. by apply Z.leb_le.
Qed.

(** Every operation keeps each row under its id. *)
Definition table_keyed t : Prop := keyed sp_id (pt_proposals t).

Lemma create_keyed err clash dflt now input t :
  table_keyed t → table_keyed (create_proposal pending err clash dflt now input t).2.
Proof using Type.
  intros Ht. unfold create_proposal. case_match; [done|]. by apply keyed_set.
Qed.

Lemma update_keyed valid (u : UpdateStatusInput St P) t :
  table_keyed t → table_keyed (update_status valid u t).2.
Proof using Type.
  intros Ht. destruct (update_status valid u t) as [r t'] eqn:E.
  apply update_status_spec in E as [(_ & -> & _)|[(p & l & _ & -> & _)|(p & _ & Hp & -> & _)]];
    [done..|]. apply keyed_set; [|done].
  by apply (keyed_get sp_id _ _ _ Ht) in Hp.
Qed.

Lemma expire_keyed now t : table_keyed t → table_keyed (expire_before pending expired now t).2.
Proof using Type.
  intros [Hwf Hid]. unfold table_keyed, expire_before. cbn. split.
  - unfold jm_wf in *. rewrite <-list_fmap_compose.
    rewrite (list_fmap_ext _ fst (pt_proposals t)); [done|]. by intros ? [].
  - intros k p Hin. apply list_elem_of_fmap in Hin as ([k' q] & [= -> ->] & Hin).
    rewrite <-(Hid _ _ Hin). apply (expire_row_id now q).
Qed.

Section target.
Context {K : Type} (target : StoredProposal St P → option K).

(** Creation keeps pending proposals unique when a clash is an equal target. *)
Lemma create_unique err clash dflt now input t :
  (∀ q k, target (new_proposal pending dflt now input) = Some k → target q = Some k →
          clash input q = true) →
  pending_unique pending target t →
  pending_unique pending target (create_proposal pending err clash dflt now input t).2.
Proof using Type.
  intros Hc Hu. destruct (create_proposal _ _ _ _ _ _ _) as [r t'] eqn:E.
  apply create_proposal_spec in E as [(_ & -> & _)|(p & _ & -> & -> & Hno)]; [done|]. cbn.
  intros x y k Hx Hy Hsx Hsy Hkx Hky.
  set (p := new_proposal pending dflt now input) in *.
  apply jm_values_get in Hx as [kx Hx]. apply jm_values_get in Hy as [ky Hy].
  assert (Hold : ∀ kz z, (kz, z) ∈ pt_proposals t → z ∈ jm_values (pt_proposals t)).
  { intros kz z Hz. apply list_elem_of_fmap. by exists (kz, z). }
  apply jm_set_elem in Hx as [[_ ->]|Hx%Hold]; apply jm_set_elem in Hy as [[_ ->]|Hy%Hold].
  - done.
  - pose proof (Hc y k Hkx Hky). rewrite Hno in * by done. done.
  - pose proof (Hc x k Hky Hkx). rewrite Hno in * by done. done.
  - by eapply Hu.
Qed.

(** An update that does not make a proposal pending keeps them unique. *)
Lemma update_unique valid (u : UpdateStatusInput St P) t :
  ui_status u ≠ pending →
  pending_unique pending target t →
  pending_unique pending target (update_status valid u t).2.
Proof using Type.
  intros Hs Hu. destruct (update_status valid u t) as [r t'] eqn:E.
  apply update_status_spec in E as [(_ & -> & _)|[(p & l & _ & -> & _)|(p & _ & Hp & -> & _)]];
    [done..|]. cbn. intros x y k Hx Hy Hsx Hsy.
  apply jm_values_get in Hx as [kx Hx]. apply jm_values_get in Hy as [ky Hy].
  apply jm_set_elem in Hx as [[_ ->]|Hx]; [done|].
  apply jm_set_elem in Hy as [[_ ->]|Hy]; [done|].
  apply Hu; [..|done|done]; apply list_elem_of_fmap; by eexists (_, _).
Qed.

Lemma expire_unique now t :
  expired ≠ pending →
  pending_unique pending target t →
  pending_unique pending target (expire_before pending expired now t).2.
Proof using Type.
  intros He Hu x y k Hx Hy Hsx Hsy.
  apply expire_before_elem in Hx as (x' & Hx' & ->).
  apply expire_before_elem in Hy as (y' & Hy' & ->).
  revert Hsx Hsy. unfold expire_row. repeat case_match; try done. by apply Hu.
Qed.
End target.
End table_lemmas.

#[export] Hint Resolve create_keyed update_keyed expire_keyed : js.
