(* ===== verification/ProposalWorld.v ===== *)
(** * What the proposal services share

    The services of cache and of memory proposals are asynchronous methods over
    one state: the proposal table, the rate limiter, the clock, the random ids,
    and whatever their collaborators keep ([w_outside]: connections, the caches
    and memories of the servers).  A storage call can fail, before or after it has
    taken effect.

    [world_ok] is the invariant of that state and [world_step] what the services
    may do to it: rows only appear under fresh ids, their statuses follow [edge],
    and they keep what they were proposed with. *)
From S2P Require Export Async RateLimiter ProposalStorage.
From stdpp Require Import options.

(** ** Definitions *)

(** How a storage call fails: it is lost, or it is done and its answer is lost. *)
Inductive StorageFault :=
  | Lost (message : string)
  | Unanswered (message : string).

Record World {St P X : Type} := {
  w_table : ProposalTable St P;
  w_rateLimiter : RateLimiter;
  w_now : Z;
  w_ids : nat;
  w_calls : nat;
  w_outside : X;
  w_dispatched : list (StoredProposal St P);
}.
Arguments World : clear implicits.

Section world.
Context {St P X : Type}.
(** The [n]th random id, and the failure of the [n]th storage call. *)
Context (uuid : nat → string) (fault : nat → option StorageFault).
Implicit Types (w : World St P X).

Definition set_table (t : ProposalTable St P) w : World St P X :=
  {| w_table := t; w_rateLimiter := w_rateLimiter w; w_now := w_now w; w_ids := w_ids w;
     w_calls := w_calls w; w_outside := w_outside w; w_dispatched := w_dispatched w |}.
Definition set_limiter (r : RateLimiter) w : World St P X :=
  {| w_table := w_table w; w_rateLimiter := r; w_now := w_now w; w_ids := w_ids w;
     w_calls := w_calls w; w_outside := w_outside w; w_dispatched := w_dispatched w |}.
Definition set_outside (x : X) w : World St P X :=
  {| w_table := w_table w; w_rateLimiter := w_rateLimiter w; w_now := w_now w;
     w_ids := w_ids w; w_calls := w_calls w; w_outside := x; w_dispatched := w_dispatched w |}.
Definition count_id w : World St P X :=
  {| w_table := w_table w; w_rateLimiter := w_rateLimiter w; w_now := w_now w;
     w_ids := S (w_ids w); w_calls := w_calls w; w_outside := w_outside w;
     w_dispatched := w_dispatched w |}.
Definition count_call w : World St P X :=
  {| w_table := w_table w; w_rateLimiter := w_rateLimiter w; w_now := w_now w;
     w_ids := w_ids w; w_calls := S (w_calls w); w_outside := w_outside w;
     w_dispatched := w_dispatched w |}.
Definition log_dispatch (p : StoredProposal St P) w : World St P X :=
  {| w_table := w_table w; w_rateLimiter := w_rateLimiter w; w_now := w_now w;
     w_ids := w_ids w; w_calls := w_calls w; w_outside := w_outside w;
     w_dispatched := w_dispatched w ++ [p] |}.
(** Time passes. *)
Definition pass (ms : Z) w : World St P X :=
  {| w_table := w_table w; w_rateLimiter := w_rateLimiter w; w_now := w_now w + Z.max 0 ms;
     w_ids := w_ids w; w_calls := w_calls w; w_outside := w_outside w;
     w_dispatched := w_dispatched w |}.

Context {E : Type}.

(** [Date.now()] and [randomUUID()] *)
Definition Date_now : M (World St P X) E Z := gets w_now.
Definition randomUUID : M (World St P X) E string := λ w, (Ok (uuid (w_ids w)), count_id w).

(** A call of the storage, whose errors are messages. *)
Definition storage {A} (wrap : string → E) (m : M (ProposalTable St P) string A)
    : M (World St P X) E A := λ w,
  let '(r, t) := m (w_table w) in
  match fault (w_calls w) with
  | Some (Lost e) => (Throw (wrap e), count_call w)
  | Some (Unanswered e) => (Throw (wrap e), count_call (set_table t w))
  | None =>
      (match r with Ok a => Ok a | Throw e => Throw (wrap e) end, count_call (set_table t w))
  end.

(** A call of a collaborator. *)
Definition outside {F A} (wrap : F → E) (m : M X F A) : M (World St P X) E A := λ w,
  let '(r, x) := m (w_outside w) in
  (match r with Ok a => Ok a | Throw e => Throw (wrap e) end, set_outside x w).

(** The dispatch of a proposal to its server, which the model keeps a log of. *)
Definition dispatched {F A} (wrap : F → E) (p : StoredProposal St P) (m : M X F A)
    : M (World St P X) E A := λ w, outside wrap m (log_dispatch p w).

Section limiter.
Context (limit windowMs : Z).

Definition limiter_reserve (wrap : string → E) (key : string)
    : M (World St P X) E RateLimiterReservation := λ w,
  let '(r, l) := reserve limit windowMs (w_now w) (w_now w) key (w_rateLimiter w) in
  (match r with Ok a => Ok a | Throw e => Throw (wrap e) end, set_limiter l w).
End limiter.

Definition limiter_release (key : string) (token : Z) : M (World St P X) E unit :=
  modify (λ w, set_limiter (release key token (w_rateLimiter w)) w).
End world.

Definition start_world {St P X} (now : Z) (x : X) : World St P X :=
  {| w_table := empty_table; w_rateLimiter := new_RateLimiter; w_now := now; w_ids := 0;
     w_calls := 0; w_outside := x; w_dispatched := [] |}.

(** ** Specification *)
Section spec.
Context {St P X K : Type} `{EqDecision St}.
Context (uuid : nat → string) (pending : St).
Context (target : StoredProposal St P → option K) (payload_ok : P → bool).
Context (edge : St → St → Prop) (same : P → P → Prop).
Implicit Types (w : World St P X).

Record world_ok w : Prop := {
  wo_keyed : table_keyed (w_table w);
  wo_issued : ∀ id p, get_proposal id (w_table w) = Some p → ∃ n, (n < w_ids w)%nat ∧ id = uuid n;
  wo_unique : pending_unique pending target (w_table w);
  wo_payload : ∀ id p, get_proposal id (w_table w) = Some p → payload_ok (sp_payload p) = true;
}.

Definition world_step w w' : Prop :=
  (w_ids w ≤ w_ids w')%nat ∧ w_now w ≤ w_now w'
  ∧ (world_ok w → world_ok w' ∧ table_evolves edge same (w_table w) (w_table w')).
End spec.

(** ** Lemmas *)
Section lemmas.
Context {St P X K : Type} `{EqDecision St}.
Context (uuid : nat → string) `{!Inj (=) (=) uuid} (fault : nat → option StorageFault).
Context (pending : St).
Context (target : StoredProposal St P → option K) (payload_ok : P → bool).
Context (edge : St → St → Prop) (same : P → P → Prop) `{!PreOrder same}.
Implicit Types (w : World St P X) (t : ProposalTable St P).
Abbreviation ok := (world_ok (X:=X) uuid pending target payload_ok).
Abbreviation step := (world_step (X:=X) uuid pending target payload_ok edge same).

#[export] Instance world_step_preorder : PreOrder step.
Proof using Type*.
  split.
  - intros w. split_and!; [done|done|]. by intros.
  - intros w w' w'' (? & ? & H) (? & ? & H'). split_and!; [lia|lia|].
    intros Hw. destruct (H Hw) as [Hw' ?]. destruct (H' Hw') as [? ?]. split; [done|]. by etrans.
Qed.

(** A table on which a storage operation may leave [t']. *)
Definition table_step (ids : nat) t t' : Prop :=
  ∀ w, w_table w = t → w_ids w = ids → ok w →
    ok (set_table t' w) ∧ table_evolves edge same t t'.

(** A change that leaves the table alone. *)
Lemma step_same w w' :
  w_table w' = w_table w → w_ids w' = w_ids w → w_now w ≤ w_now w' → step w w'.
Proof using Type*.
  intros Ht Hi Hn. split_and!; [by rewrite Hi|done|]. intros []. rewrite Ht. split; [|done].
  by split; rewrite ?Ht, ?Hi.
Qed.

Lemma step_count_id w : step w (count_id w).
Proof using Type*.
  split_and!; [cbn; lia|done|]. intros []. split; [|done]. split; cbn; try done.
  intros id p Hp. destruct (wo_issued0 id p Hp) as (n & ? & ?). exists n. split; [lia|done].
Qed.

Lemma step_pass ms w : step w (pass ms w).
Proof using Type*. apply step_same; cbn; [done..|lia]. Qed.

Lemma step_storage {E A} (wrap : string → E) (m : M (ProposalTable St P) string A) w :
  table_step (w_ids w) (w_table w) (m (w_table w)).2 → step w (storage fault wrap m w).2.
Proof using Type*.
  intros H. unfold storage. destruct (m (w_table w)) as [r t'] eqn:Em. cbn in H.
  destruct (fault (w_calls w)) as [[e|e]|]; cbn; [by apply step_same| |];
    (split_and!; [done..|]); intros Hw; destruct (H w eq_refl eq_refl Hw) as [[] ?]; by split.
Qed.

Lemma step_outside {E F A} (wrap : F → E) (m : M X F A) w : step w (outside wrap m w).2.
Proof using Type*.
  unfold outside. destruct (m (w_outside w)). by apply step_same.
Qed.

Lemma step_dispatched {E F A} (wrap : F → E) p (m : M X F A) w :
  step w (dispatched wrap p m w).2.
Proof using Type*.
  unfold dispatched, outside. destruct (m _). by apply step_same.
Qed.

Lemma step_reserve {E} limit windowMs (wrap : string → E) key w :
  step w (limiter_reserve limit windowMs wrap key w).2.
Proof using Type*. unfold limiter_reserve. destruct (reserve _ _ _ _ _ _). by apply step_same. Qed.

Lemma step_release {E} key token w : step w (limiter_release (E:=E) key token w).2.
Proof using Type*. by apply step_same. Qed.

(** Reading changes nothing. *)
Lemma table_step_refl ids t : table_step ids t t.
Proof using Type*. intros w <- _ []. by split. Qed.

Lemma table_step_audit ids t a : table_step ids t (append_audit a t).
Proof using Type*. intros w <- _ []. split; [|by intros id p Hp; exists p]. by split. Qed.

(** A proposal under the last id that was issued, when that id is new. *)
Lemma step_create {E} (wrap : string → E) err clash dflt now input w :
  (∀ q k, target (new_proposal pending dflt now (input (uuid (w_ids w)))) = Some k →
          target q = Some k → clash (input (uuid (w_ids w))) q = true) →
  ci_id (input (uuid (w_ids w))) = uuid (w_ids w) →
  payload_ok (ci_payload (input (uuid (w_ids w)))) = true →
  step w ((randomUUID uuid ≫= λ id, storage fault wrap
             (create_proposal pending err clash dflt now (input id))) w).2.
Proof using Type*.
  intros Hc Hid Hpl. unfold mbind, M_bind, randomUUID. cbn [fst snd].
  set (i := input (uuid (w_ids w))) in *. unfold storage. cbn [w_table w_calls count_id].
  destruct (create_proposal pending err clash dflt now i (w_table w)) as [r t'] eqn:Ec.
  assert (Hok : ok w → ok (count_call (set_table t' (count_id w)))
                ∧ table_evolves edge same (w_table w) t').
  { intros Hw. pose proof Hw as [Hk Hi Hu Hp].
    pose proof (create_keyed pending err clash dflt now i _ Hk) as Hk'.
    pose proof (create_unique pending target err clash dflt now i _ Hc Hu) as Hu'.
    rewrite Ec in Hk', Hu'. cbn in Hk', Hu'.
    apply create_proposal_spec in Ec as [(_ & -> & _)|(p & _ & Hpe & -> & _)].
    { split; [|done]. destruct (step_count_id w) as (_ & _ & H). by destruct (H Hw) as [[] _]. }
    assert (Hpid : sp_id p = uuid (w_ids w)) by (by subst p).
    assert (Hfresh : ∀ q, get_proposal (sp_id p) (w_table w) = Some q → False).
    { intros q Hq. apply Hi in Hq as (n & Hn & Heq). rewrite Hpid in Heq.
      apply (inj uuid) in Heq. lia. }
    split.
    - split; [done| |done|]; intros id q; cbn [w_table w_ids set_table count_call count_id]; rewrite get_set; case_decide; subst.
      + intros _. exists (w_ids w). split; [lia|done].
      + intros (n & ? & ?)%Hi. exists n. split; [lia|done].
      + intros [= <-]. by subst.
      + apply Hp.
    - intros id q Hq. cbn [w_table w_ids set_table count_call count_id]. rewrite get_set. case_decide; subst; [by apply Hfresh in Hq|].
      by exists q. }
  destruct (fault (w_calls w)) as [[e|e]|]; cbn.
  - etrans; [apply step_count_id|]. by apply step_same.
  - split_and!; [cbn; lia|done|]. intros Hw. by apply Hok.
  - split_and!; [cbn; lia|done|]. intros Hw. by apply Hok.
Qed.

(** An update along an edge, from the statuses it expects. *)
Lemma table_step_update ids t valid (u : UpdateStatusInput St P) :
  ui_status u ≠ pending →
  (∀ p, get_proposal (ui_id u) t = Some p →
     (∀ allowed, ui_expected_status u = Some allowed → sp_status p ∈ allowed) →
     rtc edge (sp_status p) (ui_status u)) →
  (∀ p payload, get_proposal (ui_id u) t = Some p → ui_payload u = Some payload →
     payload_ok (sp_payload p) = true → valid p payload = true →
     payload_ok payload = true ∧ same (sp_payload p) payload) →
  table_step ids t (update_status valid u t).2.
Proof using Type*.
  intros Hns Hedge Hpl w Ht Hids [Hk Hi Hu Hp]. subst t.
  pose proof (update_keyed valid u _ Hk) as Hk'.
  pose proof (update_unique pending target valid u _ Hns Hu) as Hu'.
  destruct (update_status valid u (w_table w)) as [r t'] eqn:E. cbn in *.
  apply update_status_spec in E as [(_ & -> & ?)|[(p & l & _ & -> & _)|(p & _ & Hg & -> & Ha & Hv)]];
    [by split|by split|].
  assert (Hpay : payload_ok (sp_payload (update_row u p)) = true
                 ∧ same (sp_payload p) (sp_payload (update_row u p))).
  { cbn. destruct (ui_payload u) as [l|] eqn:Hl; cbn; [|by split; [eapply Hp|]].
    eapply Hpl; [done|done|by eapply Hp|by apply Hv]. }
  split.
  - split; [done| |done|]; intros id q; cbn [w_table w_ids set_table count_call count_id]; rewrite get_set; case_decide; subst.
    + intros _. by eapply Hi.
    + apply Hi.
    + intros [= <-]. apply Hpay.
    + apply Hp.
  - intros id q Hq. cbn [w_table w_ids set_table count_call count_id]. rewrite get_set. case_decide; subst; [|by exists q]. simplify_eq.
    eexists. split; [done|]. split; cbn; try done; [apply Hpay|]. by apply Hedge.
Qed.

Lemma table_step_expire expired ids t now :
  expired ≠ pending → edge pending expired →
  table_step ids t (expire_before pending expired now t).2.
Proof using Type*.
  intros Hne Hedge w <- _ [Hk Hi Hu Hp].
  assert (Hrow : ∀ p, payload_ok (sp_payload p) = true →
    payload_ok (sp_payload (expire_row pending expired now p)) = true).
  { intros p. unfold expire_row. by case_match. }
  split.
  - split; [by apply expire_keyed| |by apply expire_unique|];
      intros id q; cbn [w_table w_ids set_table]; rewrite expire_before_get;
      destruct (get_proposal id _) eqn:Hg; [|done| |done]; cbn; intros [= <-].
    + by eapply Hi.
    + eapply Hrow, Hp. done.
  - intros id p Hg. rewrite expire_before_get, Hg. cbn. eexists. split; [done|].
    unfold expire_row, expirable, has_status. destruct (bool_decide _ && _) eqn:He; [|done].
    js_bools. split; cbn; try done. rewrite H. by apply rtc_once.
Qed.

Lemma start_ok now (x : X) : ok (start_world now x).
Proof using Type.
  clear edge same PreOrder0.
  split; cbn; try done; [split; [apply jm_wf_nil|]; intros k v Hv; by apply elem_of_nil in Hv|].
  intros p q k Hp. by apply elem_of_nil in Hp.
Qed.

(** What a method knows of rows it has read: they are where their rows have come
    from. *)
Definition knows (seen : list (StoredProposal St P)) w : Prop :=
  ∀ p, p ∈ seen → ∃ p', get_proposal (sp_id p) (w_table w) = Some p' ∧ row_evolves edge same p p'.

Definition knows_ok (seen : list (StoredProposal St P)) w : Prop := ok w ∧ knows seen w.
Definition knows_step (seen : list (StoredProposal St P)) w
    (seen' : list (StoredProposal St P)) w' : Prop :=
  step w w' ∧ knows seen' w'.

Lemma knows_later seen w w' : ok w → step w w' → knows seen w → knows seen w'.
Proof using Type*.
  intros Hw (_ & _ & Hs) Hk p Hp. destruct (Hs Hw) as [_ He].
  destruct (Hk p Hp) as (p' & Hp' & ?). destruct (He _ _ Hp') as (p'' & ? & ?).
  exists p''. split; [done|]. by etrans.
Qed.

Lemma knows_keeps seen w seen' w' :
  knows_ok seen w → knows_step seen w seen' w' → knows_ok seen' w'.
Proof using Type*. intros [Hw _] [(_ & _ & Hs) ?]. split; [by apply Hs|done]. Qed.

Lemma knows_trans seen w seen' w' seen'' w'' :
  knows_ok seen w → knows_step seen w seen' w' → knows_step seen' w' seen'' w'' →
  knows_step seen w seen'' w''.
Proof using Type*. intros _ [? _] [? ?]. split; [by etrans|done]. Qed.

(** A method whose segments stay within [step], whatever it knows. *)
Definition respects {E A} (Q : outcome E A → list (StoredProposal St P) → Prop)
    (seen : list (StoredProposal St P)) (m : async (World St P X) E A) : Prop :=
  simulates knows_ok knows_step Q seen m.

Lemma respects_guarantees {E A} Q seen (m : async (World St P X) E A) :
  (∀ r, Q r seen) → guarantees step m → respects Q seen m.
Proof using Type*.
  intros HQ. induction m as [run IH] using async_rect_. intros Hm w [Hw Hk]. cbn in Hm.
  specialize (Hm w). specialize (IH w). destruct (run w) as [[r|m'] w'].
  - exists seen. split; [|done]. split; [done|]. by eapply knows_later.
  - destruct Hm as [Hs Hm]. exists seen. split; [|by eapply IH].
    split; [done|]. by eapply knows_later.
Qed.

Lemma respects_bind {E A B} (Q : outcome E A → list (StoredProposal St P) → Prop)
    (Q' : outcome E B → list (StoredProposal St P) → Prop) seen
    (m : async (World St P X) E A) k :
  respects Q seen m →
  (∀ a seen, Q (Ok a) seen → respects Q' seen (k a)) →
  (∀ e seen, Q (Throw e) seen → Q' (Throw e) seen) →
  respects Q' seen (m ≫= k).
Proof using Type*.
  apply simulates_bind; [apply knows_trans|apply knows_keeps].
Qed.

(** An [await] that stays within [step] and tells the method of some rows. *)
Lemma respects_await {E A} (Q : outcome E A → list (StoredProposal St P) → Prop)
    seen (m : M (World St P X) E A) :
  (∀ w, knows_ok seen w → step w (m w).2 ∧ ∃ seen', knows seen' (m w).2 ∧ Q (m w).1 seen') →
  respects Q seen (await m).
Proof using Type*.
  intros H. apply simulates_await. intros w Hw. destruct (H w Hw) as (Hs & seen' & Hk & HQ).
  exists seen'. split; [done|]. intros w' [? ?]. exists seen'. split; [|done]. by split.
Qed.

Lemma respects_mono {E A} (Q Q' : outcome E A → list (StoredProposal St P) → Prop) seen
    (m : async (World St P X) E A) :
  (∀ r seen, Q r seen → Q' r seen) → respects Q seen m → respects Q' seen m.
Proof using Type*. apply simulates_mono. Qed.

Lemma knows_same seen w w' : w_table w' = w_table w → knows seen w → knows seen w'.
Proof using Type*. intros Ht H p Hp. rewrite Ht. by apply H. Qed.

Lemma respects_raise {E A} (Q : outcome E A → list (StoredProposal St P) → Prop) e seen :
  Q (Throw e) seen → respects Q seen (raise (S:=World St P X) e).
Proof using Type*. intros HQ w [Hw Hk]. exists seen. split; [|done]. by split. Qed.

Lemma respects_ret {E A} (Q : outcome E A → list (StoredProposal St P) → Prop) a seen :
  Q (Ok a) seen → respects Q seen (mret a : async (World St P X) E A).
Proof using Type*. intros HQ w [Hw Hk]. exists seen. split; [|done]. by split. Qed.

(** Synchronous code that changes nothing. *)
Lemma respects_gets {E A B} (Q : outcome E B → list (StoredProposal St P) → Prop) seen
    (f : World St P X → A) (k : A → async (World St P X) E B) :
  (∀ a, respects Q seen (k a)) → respects Q seen (sync (gets f) ≫= k).
Proof using Type*.
  intros Hk w Hw. cbn. specialize (Hk (f w)). destruct (k (f w)) as [run]. exact (Hk w Hw).
Qed.

(** The method that reads a row knows it from then on. *)
Lemma respects_get {E A} (wrap : string → E) (Q : outcome E A → _ → Prop) id seen
    (k : option (StoredProposal St P) → async (World St P X) E A) :
  respects Q seen (k None) →
  (∀ p, sp_id p = id → respects Q [p] (k (Some p))) →
  (∀ e seen, Q (Throw e) seen) →
  respects Q seen (await (storage fault wrap (gets (get_proposal id))) ≫= k).
Proof using Type*.
  intros Hn Hs He.
  apply respects_bind with (Q := λ r seen', match r with
    | Ok None => seen' = seen
    | Ok (Some p) => seen' = [p] ∧ sp_id p = id
    | Throw _ => True
    end); [| |done].
  - apply respects_await. intros w [Hw Hk]. split; [apply step_storage, table_step_refl|].
    unfold storage, gets. destruct (fault (w_calls w)) as [[e|e]|]; cbn.
    + exists seen. split; [by eapply knows_same|done].
    + exists seen. split; [by eapply knows_same|done].
    + destruct (get_proposal id (w_table w)) as [p|] eqn:Hp.
      * exists [p]. assert (Hid : sp_id p = id).
        { apply (keyed_get sp_id _ _ _ (wo_keyed _ _ _ _ _ Hw) Hp). }
        split; [|done]. intros q ->%list_elem_of_singleton. exists p. by rewrite Hid.
      * exists seen. split; [by eapply knows_same|done].
  - intros [p|] seen'; [|by intros ->]. intros [-> ?]. by apply Hs.
Qed.

(** The invariant and the evolution of rows hold in every interleaving of methods
    that respect [step]. *)
Section pool.
Context {E A : Type} (vs vs' : list (move (World St P X) E A)) (now : Z) (x : X).
Context (Hcall : ∀ m, Call m ∈ vs ++ vs' → respects (λ _ _, True) [] m).
Context (Hout : ∀ f, Outside f ∈ vs ++ vs' → ∃ ms, f = pass ms).

Definition pool_inv w0 (ts : list (list (StoredProposal St P))) w : Prop :=
  ok w ∧ step w0 w ∧ ∀ seen, seen ∈ ts → knows seen w.

Lemma pool_inv_run w0 ts p us :
  (∀ v, v ∈ us → v ∈ vs ++ vs') →
  pool_inv w0 ts (pl_state p) →
  Forall2 (thread_simulates knows_ok knows_step (λ _ _, True)) ts (pl_threads p) →
  ∃ ts', pool_inv w0 ts' (pl_state (foldl pool_step p us))
    ∧ Forall2 (thread_simulates knows_ok knows_step (λ _ _, True)) ts'
        (pl_threads (foldl pool_step p us)).
Proof using Type*.
  intros Hus HI Hts.
  apply (simulates_pool_from knows_ok knows_step (λ _ _, True) [] (pool_inv w0))
    with (ts := ts); [..|exact HI|exact Hts| |].
  - intros ts0 w i t (Hw & _ & Hk) Hi. split; [done|]. apply Hk. by eapply list_elem_of_lookup_2.
  - intros ts0 w i t t' w' (Hw & Hs & Hk) Hi [Hs' Hk']. split_and!; [by apply Hs'|by etrans|].
    intros seen Hseen. apply list_elem_of_lookup in Hseen as [j Hj].
    destruct (decide (i = j)) as [<-|Hne].
    + rewrite list_lookup_insert_eq in Hj by (by eapply lookup_lt_Some). by simplify_eq.
    + rewrite list_lookup_insert_ne in Hj by done. eapply knows_later; [done..|].
      apply Hk. by eapply list_elem_of_lookup_2.
  - intros ts0 w (Hw & Hs & Hk). split_and!; [done..|].
    intros seen [?|Hs']%elem_of_app; [by apply Hk|].
    apply list_elem_of_singleton in Hs' as ->. intros q Hq. set_solver.
  - intros m Hm. by apply Hcall, Hus.
  - intros f Hf ts0 w (Hw & Hs & Hk). destruct (Hout f) as [ms ->]; [by apply Hus|].
    pose proof (step_pass ms w) as Hp. split_and!; [by apply Hp|by etrans|].
    intros seen Hseen. eapply knows_later; [done..|]. by apply Hk.
Qed.

Lemma pool_inv_start :
  ∃ ts, pool_inv (start_world now x) ts (pl_state (pool_run vs (start_world now x)))
    ∧ Forall2 (thread_simulates knows_ok knows_step (λ _ _, True)) ts
        (pl_threads (pool_run vs (start_world now x))).
Proof using Type*.
  apply (pool_inv_run (start_world now x) [] (Pool [] (start_world now x))); [set_solver| |done].
  split_and!; [apply start_ok|done|set_solver].
Qed.

Lemma world_pool_ok : ok (pl_state (pool_run vs (start_world now x))).
Proof using Type*. by destruct pool_inv_start as (ts & [? _] & _). Qed.

Lemma world_pool_evolves :
  table_evolves edge same (w_table (pl_state (pool_run vs (start_world now x))))
    (w_table (pl_state (pool_run (vs ++ vs') (start_world now x)))).
Proof using Type*.
  destruct pool_inv_start as (ts & (Hw & _ & Hk) & Hts).
  destruct (pool_inv_run (pl_state (pool_run vs (start_world now x))) ts
    (pool_run vs (start_world now x)) vs') as (ts' & (_ & (_ & _ & Hs) & _) & _);
    [set_solver|by split_and!|done|].
  unfold pool_run at 2. rewrite foldl_app. by apply Hs.
Qed.
End pool.
End lemmas.

#[export] Hint Resolve step_outside step_dispatched step_reserve step_release step_count_id
  step_pass : js.
