(* ===== verification/CacheProposals.v ===== *)
(** * Cache proposals: proposing, reviewing, applying

    [proprietary/cache-proposals]: [cache-proposal.service.ts],
    [cache-apply.service.ts], [errors.ts] and the tick of
    [cache-expiration.cron.ts].  A tool proposes a change to a cache (its
    similarity threshold, the time to live of a tool's results, an invalidation);
    a person approves, edits or rejects it; an approved proposal is applied, and a
    pending one expires.

    The methods are asynchronous over [World].  What they ask of their
    collaborators, the cache resolver, the connections and the dispatcher, is the
    class [CacheBackend]. *)
From S2P Require Export ProposalWorld.
From stdpp Require Import options.

(** ** Definitions *)

(** *** Errors *)
Inductive CacheProposalError :=
  | CacheProposalValidationError (message : string)
  | InvalidCacheTypeError (expected actual : CacheType) (cacheName : string)
  | CacheNotFoundError (cacheName : string)
  | DuplicatePendingProposalError (cacheName : string) (proposalType : ProposalType)
      (scope : list (string * string))
  | ProposalNotFoundError (proposalId : string)
  | ProposalExpiredError (proposalId : string) (expiresAt : Z)
  | ProposalNotPendingError (proposalId : string) (currentStatus : option ProposalStatus)
  | ProposalEditNotAllowedError (proposalId reason : string)
  | ApplyFailedError (proposalId message : string) (details : option (list (string * json)))
  | RateLimitedError (retryAfterMs : Z)
  | ZodError
  | ThrownError (message : string).

(** [null] and [undefined] have no status; the code says ['unknown']. *)
Abbreviation unknown := (None : option ProposalStatus).

Record ResolvedCache := {
  rs_name : string;
  rs_type : CacheType;
  rs_prefix : string;
  rs_capabilities : list string;
  rs_protocol_version : number;
  rs_live : bool;
}.

Record ApplyOutcome := {
  ao_actualAffected : option Z;
  ao_durationMs : Z;
  ao_details : list (string * json);
}.

(** What a dispatch throws: an [ApplyFailedError] has details. *)
Record DispatchError := {
  de_message : string;
  de_details : option (list (string * json));
}.

(** The collaborators of the services, on a state of their own. *)
Class CacheBackend (X : Type) := {
  resolveCacheByName : Z → string → string → M X string (option ResolvedCache);
  client_hgetall : string → string → M X string (list (string * string));
  client_hget : string → string → string → M X string (option string);
  dispatch : Z → StoredCacheProposal → M X DispatchError ApplyOutcome;
}.

Definition REASONING_MIN_LENGTH : Z := 20.
Definition PROPOSAL_RATE_LIMIT : Z := 30.
Definition PROPOSAL_RATE_WINDOW_MS : Z := 60 * 60 * 1000.
Definition ESTIMATED_AFFECTED_WARN_THRESHOLD : Z := 10000.
Definition ESTIMATED_AFFECTED_OVERSHOOT_FACTOR : Z := 10.

(** [/UNIQUE constraint failed/i]; the errors of the storage have a message only. *)
Definition isUniqueConstraintViolation (err : CacheProposalError) : bool :=
  match err with
  | ThrownError message => includes "UNIQUE CONSTRAINT FAILED" (to_upper message)
  | _ => false
  end.

Record ProposeThresholdAdjustInput := {
  pta_cacheName : string;
  pta_category : option string;
  pta_newThreshold : number;
  pta_reasoning : string;
  pta_proposedBy : option string;
}.
Record ProposeToolTtlAdjustInput := {
  ptt_cacheName : string;
  ptt_toolName : string;
  ptt_newTtlSeconds : number;
  ptt_reasoning : string;
  ptt_proposedBy : option string;
}.
(** The filter of an invalidation; the two shapes of [ProposeInvalidateInput]. *)
Inductive InvalidateFilter :=
  | ValkeySearch (filterExpression : string)
  | AgentFilter (filterKind : AgentFilterKind) (filterValue : string).
Record ProposeInvalidateInput := {
  pin_cacheName : string;
  pin_filter : InvalidateFilter;
  pin_estimatedAffected : number;
  pin_reasoning : string;
  pin_proposedBy : option string;
}.

Record ProposeResult := {
  po_proposal : StoredCacheProposal;
  po_warnings : list string;
}.

Record ReviewInput := {
  ri_proposalId : string;
  ri_actor : option string;
  ri_actorSource : ActorSource;
}.
Record ProposalEdits := {
  ed_newThreshold : option number;
  ed_newTtlSeconds : option number;
}.

Record ApplyResult := {
  ap_proposal : StoredCacheProposal;
  ap_appliedResult : AppliedResult;
}.

Definition filter_kind_name (k : AgentFilterKind) : string :=
  match k with tool_filter => "tool" | key_prefix_filter => "key_prefix" | session_filter => "session" end.

Definition json_of_applied (r : AppliedResult) : json :=
  JObj ([("success", JBool (ar_success r))] ++ json_opt "error" JStr (ar_error r)
        ++ json_opt "details" JObj (ar_details r)).

(** *** The current value of what a proposal changes *)
Definition number_field (raw : list (string * string)) (key : string) : option number :=
  match jm_get key raw with
  | Some s => if is_empty s then None else Some (num_of_string s)
  | None => None
  end.

(** A dispatcher's override, else the SDK's baseline; zero when there is none. *)
Definition threshold_of (raw : list (string * string)) (category : option string) : number :=
  let zero := num_of_Z 0 in
  let overrideField := match category with
                       | None => "threshold"
                       | Some category => "threshold:" +:+ category
                       end in
  let overrideValue := default nan (number_field raw overrideField) in
  if is_finite overrideValue then overrideValue
  else
    match category with
    | Some category =>
        match jm_get "category_thresholds" raw with
        | None => zero
        | Some categoryRaw =>
            match json_parse categoryRaw ≫= λ parsed, json_member parsed category with
            | Some (Some (JNum value)) => if is_finite value then value else zero
            | _ => zero
            end
        end
    | None =>
        let value := match jm_get "default_threshold" raw with
                     | Some s => num_of_string s
                     | None => nan
                     end in
        if is_finite value then value else zero
    end.

Definition ttl_of (raw : option string) : number :=
  let zero := num_of_Z 0 in
  match raw with
  | None => zero
  | Some raw =>
      match json_parse raw ≫= λ parsed, json_member parsed "ttl" with
      | Some (Some (JNum ttl)) => if is_finite ttl then ttl else zero
      | _ => zero
      end
  end.

(** *** The services *)
Section service.
Context {X : Type} `{!CacheBackend X}.
Context (uuid : nat → string) (fault : nat → option StorageFault).
(** Are the optional collaborators there? *)
Context (registry applyService : bool).

Definition W : Type := World ProposalStatus CachePayload X.
Abbreviation method A := (async W CacheProposalError A).

Definition Date_now' : method Z := sync Date_now.
Definition store {A} (m : M CacheProposalTable string A) : M W CacheProposalError A :=
  storage fault ThrownError m.
Definition get_row (id : string) : method (option StoredCacheProposal) :=
  await (store (gets (getCacheProposal id))).
Definition backend {A} (m : Z → M X string A) : method A :=
  now ← Date_now'; await (outside ThrownError (m now)).

(** [this.storage.appendCacheProposalAudit({ id: randomUUID(), ... })] *)
Definition audit_of (proposal_id : string) (event_type : ProposalAuditEvent)
    (event_payload : option (list (string * json))) (event_at : Z) (actor : option string)
    (actor_source : ActorSource) (id : string) : ProposalAudit :=
  {| pa_id := id; pa_proposal_id := proposal_id; pa_event_type := event_type;
     pa_event_payload := event_payload; pa_event_at := event_at; pa_actor := actor;
     pa_actor_source := actor_source |}.
Definition append (audit : string → ProposalAudit) : method unit :=
  await (id ← randomUUID uuid;
         store (modify (appendCacheProposalAudit (audit id)))).

(** **** Proposing *)
Definition requireReasoning (reasoning : string) : method unit :=
  if js_length (trim reasoning) <? REASONING_MIN_LENGTH
  then raise (CacheProposalValidationError "reasoning must be at least 20 characters")
  else mret tt.

Definition requireCacheAny (connectionId cacheName : string) : method ResolvedCache :=
  cache ← backend (λ now, resolveCacheByName now connectionId cacheName);
  match cache with
  | None => raise (CacheNotFoundError cacheName)
  | Some cache => mret cache
  end.

Definition requireCache (connectionId cacheName : string) (expected : CacheType)
    : method ResolvedCache :=
  cache ← requireCacheAny connectionId cacheName;
  if bool_decide (rs_type cache = expected) then mret cache
  else raise (InvalidCacheTypeError expected (rs_type cache) cacheName).

Definition readCurrentThreshold (connectionId : string) (cache : ResolvedCache)
    (category : option string) : method number :=
  if negb registry then mret (num_of_Z 0)
  else async_catch (λ _, mret (num_of_Z 0) : method number)
         (raw ← backend (λ _, client_hgetall connectionId (rs_prefix cache +:+ ":__config"));
          mret (threshold_of raw category)).

Definition readCurrentToolTtl (connectionId : string) (cache : ResolvedCache)
    (toolName : string) : method number :=
  if negb registry then mret (num_of_Z 0)
  else async_catch (λ _, mret (num_of_Z 0) : method number)
         (raw ← backend (λ _, client_hget connectionId (rs_prefix cache +:+ ":__tool_policies")
                                toolName);
          mret (ttl_of raw)).

(** [...Schema.parse(payload)] *)
Definition parse (payload : CachePayload) : method CachePayload :=
  if schema_valid payload then mret payload else raise ZodError.

Fixpoint find_pending_page (connectionId cacheName : string) (proposalType : ProposalType)
    (matches : StoredCacheProposal → bool) (pages : nat) (page : Z)
    : method (option StoredCacheProposal) :=
  match pages with
  | O => mret None
  | S pages =>
      batch ← await (store (gets (listCacheProposals
        {| lc_connection_id := connectionId; lc_status := Some [pending];
           lc_cache_name := Some cacheName; lc_cache_type := None;
           lc_proposal_type := Some proposalType; lc_limit := Some 200;
           lc_offset := Some (page * 200) |})));
      match js_find matches batch with
      | Some found => mret (Some found)
      | None =>
          if js_len batch <? 200 then mret None
          else find_pending_page connectionId cacheName proposalType matches pages (page + 1)
      end
  end.
Definition findFirstPendingMatch (connectionId cacheName : string) (proposalType : ProposalType)
    (matches : StoredCacheProposal → bool) : method (option StoredCacheProposal) :=
  find_pending_page connectionId cacheName proposalType matches 10 0.

Definition rejectIfDuplicatePending (connectionId cacheName : string)
    (proposalType : ProposalType) (matches : StoredCacheProposal → bool) : method unit :=
  conflict ← findFirstPendingMatch connectionId cacheName proposalType matches;
  match conflict with
  | Some conflict =>
      raise (DuplicatePendingProposalError cacheName proposalType
               [("existing_proposal_id", sp_id conflict)])
  | None => mret tt
  end.

Definition persist (connectionId cacheName : string) (payload : CachePayload)
    (reasoning : string) (proposedBy : option string) (warnings : list string)
    : method ProposeResult :=
  reservation ← sync (limiter_reserve PROPOSAL_RATE_LIMIT PROPOSAL_RATE_WINDOW_MS ThrownError
                        connectionId);
  if negb (rc_allowed (rr_check reservation))
  then raise (RateLimitedError (rc_retryAfterMs (rr_check reservation)))
  else
    proposedAt ← Date_now';
    let input id :=
      {| ci_id := id; ci_connection_id := connectionId; ci_name := cacheName;
         ci_payload := payload; ci_reasoning := Some reasoning; ci_proposed_by := proposedBy;
         ci_proposed_at := Some proposedAt;
         ci_expires_at := Some (proposedAt + PROPOSAL_DEFAULT_EXPIRY_MS) |} in
    proposal ←
      async_catch (λ err,
          if isUniqueConstraintViolation err then
            raise (DuplicatePendingProposalError cacheName (proposal_type_of payload)
                     [("reason", "concurrent insert lost the race against an existing pending proposal")])
          else match rr_releaseToken reservation with
               | Some token => sync (limiter_release connectionId token) ≫= λ _, raise err
               | None => raise err
               end)
        (await (id ← randomUUID uuid; store (createCacheProposal proposedAt (input id))));
    mret {| po_proposal := proposal; po_warnings := warnings |}.

Definition proposeThresholdAdjust (connectionId : string) (input : ProposeThresholdAdjustInput)
    : method ProposeResult :=
  requireReasoning (pta_reasoning input) ≫= λ _,
  cache ← requireCache connectionId (pta_cacheName input) semantic_cache;
  currentThreshold ← readCurrentThreshold connectionId cache (pta_category input);
  payload ← parse (SemanticThresholdAdjust (pta_category input) currentThreshold
                     (pta_newThreshold input));
  rejectIfDuplicatePending connectionId (pta_cacheName input) threshold_adjust
    (λ p, match sp_payload p with
          | SemanticThresholdAdjust category _ _ => bool_decide (category = pta_category input)
          | _ => false
          end) ≫= λ _,
  persist connectionId (pta_cacheName input) payload (pta_reasoning input)
    (pta_proposedBy input) [].

Definition proposeToolTtlAdjust (connectionId : string) (input : ProposeToolTtlAdjustInput)
    : method ProposeResult :=
  requireReasoning (ptt_reasoning input) ≫= λ _,
  cache ← requireCache connectionId (ptt_cacheName input) agent_cache;
  currentTtlSeconds ← readCurrentToolTtl connectionId cache (ptt_toolName input);
  payload ← parse (AgentToolTtlAdjust (ptt_toolName input) currentTtlSeconds
                     (ptt_newTtlSeconds input));
  rejectIfDuplicatePending connectionId (ptt_cacheName input) tool_ttl_adjust
    (λ p, match sp_payload p with
          | AgentToolTtlAdjust tool_name _ _ => str_eqb tool_name (ptt_toolName input)
          | _ => false
          end) ≫= λ _,
  persist connectionId (ptt_cacheName input) payload (ptt_reasoning input)
    (ptt_proposedBy input) [].

Definition proposeInvalidate (connectionId : string) (input : ProposeInvalidateInput)
    : method ProposeResult :=
  requireReasoning (pin_reasoning input) ≫= λ _,
  cache ← requireCacheAny connectionId (pin_cacheName input);
  let warnings :=
    if num_ltb (num_of_Z ESTIMATED_AFFECTED_WARN_THRESHOLD) (pin_estimatedAffected input)
    then ["estimated_affected=" +:+ num_to_string (pin_estimatedAffected input)
          +:+ " exceeds advisory threshold 10000"]
    else [] in
  let persist payload :=
    persist connectionId (pin_cacheName input) payload (pin_reasoning input)
      (pin_proposedBy input) warnings in
  match rs_type cache, pin_filter input with
  | semantic_cache, ValkeySearch expression =>
      parse (SemanticInvalidate expression (pin_estimatedAffected input)) ≫= persist
  | semantic_cache, AgentFilter kind _ =>
      raise (CacheProposalValidationError
        ("Semantic cache invalidate requires filter_kind='valkey_search', got '"
         +:+ filter_kind_name kind +:+ "'"))
  | agent_cache, ValkeySearch _ =>
      raise (CacheProposalValidationError
        "Agent cache invalidate requires filter_kind in ('tool','key_prefix','session'), got 'valkey_search'")
  | agent_cache, AgentFilter kind value =>
      parse (AgentInvalidate kind value (pin_estimatedAffected input)) ≫= persist
  end.

(** **** Applying *)
Definition is_done (status : ProposalStatus) : bool :=
  match status with applied | failed => true | _ => false end.

Definition estimatedAffectedOf (payload : CachePayload) : option number :=
  match payload with
  | SemanticInvalidate _ estimated | AgentInvalidate _ _ estimated => Some estimated
  | _ => None
  end.

(** [CacheApplyService.appendAudit]: a failure is logged only. *)
Definition apply_audit (proposal : StoredCacheProposal) (eventType : ProposalAuditEvent)
    (appliedResult : AppliedResult) (context : ReviewInput) : method unit :=
  async_catch (λ _, mret tt : method unit)
    (now ← Date_now';
     append (audit_of (sp_id proposal) eventType
               (Some [("applied_result", json_of_applied appliedResult)]) now
               (ri_actor context) (ri_actorSource context))).

(** An update of the status alone, and with what an application found. *)
Definition review_update (id : string) (status : ProposalStatus) (actor : option string)
    (now : Z) (payload : option CachePayload) : UpdateStatusInput ProposalStatus CachePayload :=
  {| ui_id := id; ui_expected_status := Some [pending]; ui_status := status;
     ui_reviewed_by := Some actor; ui_reviewed_at := Some (Some now); ui_applied_at := None;
     ui_applied_result := None; ui_payload := payload |}.
Definition apply_update (id : string) (status : ProposalStatus) (now : Z)
    (appliedResult : AppliedResult) : UpdateStatusInput ProposalStatus CachePayload :=
  {| ui_id := id; ui_expected_status := Some [approved]; ui_status := status;
     ui_reviewed_by := None; ui_reviewed_at := None; ui_applied_at := Some (Some now);
     ui_applied_result := Some (Some appliedResult); ui_payload := None |}.

Definition update (u : UpdateStatusInput ProposalStatus CachePayload)
    : method (option StoredCacheProposal) :=
  await (store (updateCacheProposalStatus u)).

(** The result recorded for an outcome. *)
Definition success_result (payload : CachePayload) (outcome : ApplyOutcome) : AppliedResult :=
  let overshoot :=
    match ao_actualAffected outcome, estimatedAffectedOf payload with
    | Some actual, Some estimated =>
        num_ltb (num_of_Z 0) estimated
        && num_ltb (num_mul estimated (num_of_Z ESTIMATED_AFFECTED_OVERSHOOT_FACTOR))
             (num_of_Z actual)
    | _, _ => false
    end in
  {| ar_success := true; ar_error := None;
     ar_details := Some (js_spread (ao_details outcome)
       (json_opt "actual_affected" JInt (ao_actualAffected outcome)
        ++ [("duration_ms", JInt (ao_durationMs outcome))]
        ++ (if overshoot then [("overshoot", JBool true)] else []))) |}.

Definition failure_result (err : DispatchError) : AppliedResult :=
  {| ar_success := false; ar_error := Some (de_message err);
     ar_details := Some (default [("error", JStr (de_message err))] (de_details err)) |}.

(** The dispatch and its outcome, thrown or returned. *)
Definition try_dispatch (proposal : StoredCacheProposal) : method (DispatchError + ApplyOutcome) :=
  now ← Date_now';
  await (λ w, match dispatched id proposal (dispatch now proposal) w with
              | (Ok outcome, w) => (Ok (inr outcome), w)
              | (Throw err, w) => (Ok (inl err), w)
              end).

Definition apply (approved : StoredCacheProposal) (context : ReviewInput) : method ApplyResult :=
  if is_done (sp_status approved) then
    mret {| ap_proposal := approved;
            ap_appliedResult :=
              default {| ar_success := bool_decide (sp_status approved = applied);
                         ar_error := None; ar_details := None |} (sp_applied_result approved) |}
  else
    outcome ← try_dispatch approved;
    match outcome with
    | inl err =>
        let appliedResult := failure_result err in
        now ← Date_now';
        row ← update (apply_update (sp_id approved) failed now appliedResult);
        let finalProposal := default approved row in
        apply_audit finalProposal ev_failed appliedResult context ≫= λ _,
        mret {| ap_proposal := finalProposal; ap_appliedResult := appliedResult |}
    | inr outcome =>
        let appliedResult := success_result (sp_payload approved) outcome in
        now ← Date_now';
        row ← update (apply_update (sp_id approved) applied now appliedResult);
        match row with
        | None => mret {| ap_proposal := approved; ap_appliedResult := appliedResult |}
        | Some row =>
            apply_audit row ev_applied appliedResult context ≫= λ _,
            mret {| ap_proposal := row; ap_appliedResult := appliedResult |}
        end
    end.

(** The proposal and, when it was dispatched, the result. *)
Definition runApply (proposal : StoredCacheProposal) (context : ReviewInput)
    : method (StoredCacheProposal * option AppliedResult) :=
  if negb applyService then mret (proposal, None)
  else
    let wasAlreadyTerminal := is_done (sp_status proposal) in
    result ← apply proposal context;
    if negb (ar_success (ap_appliedResult result)) && negb wasAlreadyTerminal
    then raise (ApplyFailedError (sp_id proposal)
                  (default "apply failed" (ar_error (ap_appliedResult result)))
                  (ar_details (ap_appliedResult result)))
    else mret (ap_proposal result, Some (ap_appliedResult result)).

(** **** Reviewing *)
Definition reviewed (status : ProposalStatus) : bool :=
  match status with approved | applied | failed => true | _ => false end.

Definition transitionToApproved (input : ReviewInput) : method StoredCacheProposal :=
  existing ← get_row (ri_proposalId input);
  match existing with
  | None => raise (ProposalNotFoundError (ri_proposalId input))
  | Some existing =>
      if reviewed (sp_status existing) then mret existing
      else if bool_decide (sp_status existing ≠ pending)
      then raise (ProposalNotPendingError (ri_proposalId input) (Some (sp_status existing)))
      else
        now ← Date_now';
        if sp_expires_at existing <=? now
        then raise (ProposalExpiredError (ri_proposalId input) (sp_expires_at existing))
        else
          reviewedAt ← Date_now';
          row ← update (review_update (sp_id existing) approved (ri_actor input) reviewedAt None);
          match row with
          | None =>
              reread ← get_row (ri_proposalId input);
              match reread with
              | Some reread =>
                  if reviewed (sp_status reread) then mret reread
                  else raise (ProposalNotPendingError (ri_proposalId input)
                                (Some (sp_status reread)))
              | None => raise (ProposalNotPendingError (ri_proposalId input) unknown)
              end
          | Some row =>
              append (audit_of (sp_id row) ev_approved None reviewedAt (ri_actor input)
                        (ri_actorSource input)) ≫= λ _,
              mret row
          end
  end.

Definition approve (input : ReviewInput)
    : method (StoredCacheProposal * option AppliedResult) :=
  proposal ← transitionToApproved input;
  runApply proposal input.

Definition requireFreshPending (proposalId : string) : method StoredCacheProposal :=
  existing ← get_row proposalId;
  match existing with
  | None => raise (ProposalNotFoundError proposalId)
  | Some existing =>
      if bool_decide (sp_status existing ≠ pending)
      then raise (ProposalNotPendingError proposalId (Some (sp_status existing)))
      else
        now ← Date_now';
        if sp_expires_at existing <? now
        then raise (ProposalExpiredError proposalId (sp_expires_at existing))
        else mret existing
  end.

(** The answer to a review whose update found another status. *)
Definition lost_race {A} (proposalId : string) : method A :=
  reread ← get_row proposalId;
  raise (ProposalNotPendingError proposalId (sp_status <$> reread)).

Definition reject (input : ReviewInput) (reason : option string) : method StoredCacheProposal :=
  existing ← requireFreshPending (ri_proposalId input);
  reviewedAt ← Date_now';
  row ← update (review_update (sp_id existing) rejected (ri_actor input) reviewedAt None);
  match row with
  | None => lost_race (ri_proposalId input)
  | Some row =>
      append (audit_of (sp_id row) ev_rejected
                (if truthy_string reason then Some (json_opt "reason" JStr reason) else None)
                reviewedAt (ri_actor input) (ri_actorSource input)) ≫= λ _,
      mret row
  end.

(** The edited payload. *)
Definition edit_payload (proposalId : string) (payload : CachePayload) (edits : ProposalEdits)
    : method CachePayload :=
  match payload with
  | SemanticInvalidate _ _ | AgentInvalidate _ _ _ =>
      raise (ProposalEditNotAllowedError proposalId
               "Invalidate proposals cannot be edited in v1 — reject and re-propose")
  | SemanticThresholdAdjust category current _ =>
      match ed_newThreshold edits, ed_newTtlSeconds edits with
      | None, _ => raise (CacheProposalValidationError
                            "new_threshold is required for editing a threshold_adjust proposal")
      | Some _, Some _ =>
          raise (CacheProposalValidationError
                   "new_ttl_seconds is not valid for a threshold_adjust proposal")
      | Some newThreshold, None => parse (SemanticThresholdAdjust category current newThreshold)
      end
  | AgentToolTtlAdjust tool_name current _ =>
      match ed_newTtlSeconds edits, ed_newThreshold edits with
      | None, _ => raise (CacheProposalValidationError
                            "new_ttl_seconds is required for editing a tool_ttl_adjust proposal")
      | Some _, Some _ =>
          raise (CacheProposalValidationError
                   "new_threshold is not valid for a tool_ttl_adjust proposal")
      | Some newTtlSeconds, None => parse (AgentToolTtlAdjust tool_name current newTtlSeconds)
      end
  end.

Definition json_of_edits (edits : ProposalEdits) : json :=
  JObj (json_opt "newThreshold" JNum (ed_newThreshold edits)
        ++ json_opt "newTtlSeconds" JNum (ed_newTtlSeconds edits)).

Definition editAndApprove (input : ReviewInput) (edits : ProposalEdits)
    : method (StoredCacheProposal * option AppliedResult) :=
  existing ← requireFreshPending (ri_proposalId input);
  newPayload ← edit_payload (ri_proposalId input) (sp_payload existing) edits;
  reviewedAt ← Date_now';
  row ← update (review_update (sp_id existing) approved (ri_actor input) reviewedAt
                  (Some newPayload));
  match row with
  | None => lost_race (ri_proposalId input)
  | Some row =>
      append (audit_of (sp_id row) ev_edited_and_approved (Some [("edits", json_of_edits edits)])
                reviewedAt (ri_actor input) (ri_actorSource input)) ≫= λ _,
      runApply row input
  end.

(** **** Expiry *)
Definition expireProposals (now : Z) (actorSource : ActorSource) : method Z :=
  rows ← await (store (λ t, let '(rows, t) := expireCacheProposalsBefore now t in (Ok rows, t)));
  async_each rows (λ proposal,
    async_catch (λ _, mret tt : method unit)
      (append (audit_of (sp_id proposal) ev_expired
                 (Some [("expires_at", JInt (sp_expires_at proposal))]) now (Some "system")
                 actorSource))) ≫= λ _,
  mret (js_len rows).

(** The tick of the cron. *)
Definition tick : method Z :=
  now ← Date_now'; expireProposals now System.

(** **** Reading *)
Definition getProposal (proposalId : string) : method StoredCacheProposal :=
  proposal ← get_row proposalId;
  match proposal with
  | None => raise (ProposalNotFoundError proposalId)
  | Some proposal => mret proposal
  end.

Definition getProposalWithAudit (proposalId : string)
    : method (StoredCacheProposal * list ProposalAudit) :=
  proposal ← getProposal proposalId;
  audit ← await (store (gets (getCacheProposalAudit proposalId)));
  mret (proposal, audit).

Definition listProposals (options : ListCacheProposalsOptions)
    : method (list StoredCacheProposal) :=
  await (store (gets (listCacheProposals options))).
End service.

(** The requests the service is sent. *)
Inductive CacheRequest :=
  | ProposeThresholdAdjust (connectionId : string) (input : ProposeThresholdAdjustInput)
  | ProposeToolTtlAdjust (connectionId : string) (input : ProposeToolTtlAdjustInput)
  | ProposeInvalidate (connectionId : string) (input : ProposeInvalidateInput)
  | Approve (input : ReviewInput)
  | Reject (input : ReviewInput) (reason : option string)
  | EditAndApprove (input : ReviewInput) (edits : ProposalEdits)
  | Tick
  | GetProposalWithAudit (proposalId : string)
  | ListProposals (options : ListCacheProposalsOptions).

Inductive CacheResponse :=
  | Proposed (result : ProposeResult)
  | Approved (proposal : StoredCacheProposal) (appliedResult : option AppliedResult)
  | Rejected (proposal : StoredCacheProposal)
  | Ticked (expired : Z)
  | Details (proposal : StoredCacheProposal) (audit : list ProposalAudit)
  | Listed (proposals : list StoredCacheProposal).

Definition handle {X} `{!CacheBackend X} (uuid : nat → string)
    (fault : nat → option StorageFault) (registry applyService : bool) (request : CacheRequest)
    : async (W (X:=X)) CacheProposalError CacheResponse :=
  match request with
  | ProposeThresholdAdjust connectionId input =>
      r ← proposeThresholdAdjust uuid fault registry connectionId input; mret (Proposed r)
  | ProposeToolTtlAdjust connectionId input =>
      r ← proposeToolTtlAdjust uuid fault registry connectionId input; mret (Proposed r)
  | ProposeInvalidate connectionId input =>
      r ← proposeInvalidate uuid fault connectionId input; mret (Proposed r)
  | Approve input =>
      r ← approve uuid fault applyService input; mret (Approved r.1 r.2)
  | Reject input reason => r ← reject uuid fault input reason; mret (Rejected r)
  | EditAndApprove input edits =>
      r ← editAndApprove uuid fault applyService input edits; mret (Approved r.1 r.2)
  | Tick => n ← tick uuid fault; mret (Ticked n)
  | GetProposalWithAudit id => r ← getProposalWithAudit fault id; mret (Details r.1 r.2)
  | ListProposals options => r ← listProposals fault options; mret (Listed r)
  end.

(** ** Specification *)

(** What happens to the service: a request arrives, one of the requests goes on,
    time passes. *)
Inductive CacheMove :=
  | Request (request : CacheRequest)
  | Resume (i : nat)
  | Wait (ms : Z).

Definition cache_move {X} `{!CacheBackend X} (uuid : nat → string)
    (fault : nat → option StorageFault) (registry applyService : bool) (m : CacheMove)
    : move (W (X:=X)) CacheProposalError CacheResponse :=
  match m with
  | Request request => Call (handle uuid fault registry applyService request)
  | Resume i => Continue i
  | Wait ms => Outside (pass ms)
  end.

Definition cache_run {X} `{!CacheBackend X} (uuid : nat → string)
    (fault : nat → option StorageFault) (registry applyService : bool) (moves : list CacheMove)
    (now : Z) (x : X) : pool (W (X:=X)) CacheProposalError CacheResponse :=
  pool_run (cache_move uuid fault registry applyService <$> moves) (start_world now x).

(** The life of a proposal. *)
Inductive cache_edge : ProposalStatus → ProposalStatus → Prop :=
  | edge_approve : cache_edge pending approved
  | edge_reject : cache_edge pending rejected
  | edge_expire : cache_edge pending expired
  | edge_apply : cache_edge approved applied
  | edge_fail : cache_edge approved failed.

(** Two payloads that differ in the proposed value only. *)
Definition edited (p q : CachePayload) : Prop :=
  match p, q with
  | SemanticThresholdAdjust category current _, SemanticThresholdAdjust category' current' _ =>
      category' = category ∧ current' = current
  | AgentToolTtlAdjust tool_name current _, AgentToolTtlAdjust tool_name' current' _ =>
      tool_name' = tool_name ∧ current' = current
  | _, _ => q = p
  end.

(** What becomes of an approved proposal once it is dispatched. *)
Definition approved_row (input : ReviewInput) (now : Z) (payload : option CachePayload)
    (p : StoredCacheProposal) : StoredCacheProposal :=
  update_row (review_update (sp_id p) approved (ri_actor input) now payload) p.
Definition applied_row (now : Z) (r : outcome DispatchError ApplyOutcome)
    (p : StoredCacheProposal) : StoredCacheProposal :=
  update_row (match r with
              | Ok outcome => apply_update (sp_id p) applied now (success_result (sp_payload p) outcome)
              | Throw err => apply_update (sp_id p) failed now (failure_result err)
              end) p.
Definition applied_response (r : outcome DispatchError ApplyOutcome) (now : Z)
    (p : StoredCacheProposal)
    : outcome CacheProposalError (StoredCacheProposal * option AppliedResult) :=
  match r with
  | Ok outcome => Ok (applied_row now r p, Some (success_result (sp_payload p) outcome))
  | Throw err => Throw (ApplyFailedError (sp_id p) (de_message err)
                          (ar_details (failure_result err)))
  end.

(** Is there a pending proposal about the same thing? *)
Definition same_target (p q : StoredCacheProposal) : bool :=
  bool_decide (is_Some (cache_target p)) && bool_decide (cache_target q = cache_target p).
Definition blocked (p : StoredCacheProposal) (t : CacheProposalTable) : bool :=
  js_some (λ q, has_status pending q && same_target p q) (jm_values (pt_proposals t)).

(** *** Samples *)
Definition sample_uuid (n : nat) : string := "id" +:+ pretty n.
#[export] Instance sample_uuid_inj : Inj (=) (=) sample_uuid.
Proof. intros m n H. apply (inj (String.append "id")) in H. by apply (inj pretty). Qed.

(** A server on which the first dispatch succeeds and the others fail; its state is
    their number. *)
#[export] Instance sample_backend : CacheBackend nat := {|
  resolveCacheByName := λ _ _ name, mret (Some
    {| rs_name := name; rs_type := agent_cache; rs_prefix := name; rs_capabilities := [];
       rs_protocol_version := num_of_Z 1; rs_live := true |});
  client_hgetall := λ _ _, mret [];
  client_hget := λ _ _ _, mret None;
  dispatch := λ _ _ n,
    (if bool_decide (n = 0%nat)
     then Ok {| ao_actualAffected := Some 3; ao_durationMs := 5; ao_details := [] |}
     else Throw {| de_message := "HSET failed"; de_details := None |}, S n)
|}.

Definition sample_input : ProposeToolTtlAdjustInput :=
  {| ptt_cacheName := "tools"; ptt_toolName := "search"; ptt_newTtlSeconds := num_of_Z 600;
     ptt_reasoning := "results change about every ten minutes"; ptt_proposedBy := None |}.
Definition sample_review (actor : string) : ReviewInput :=
  {| ri_proposalId := "id0"; ri_actor := Some actor; ri_actorSource := Ui |}.

(** A tool proposes, and two people approve at the same time. *)
Definition sample_propose : list CacheMove :=
  Request (ProposeToolTtlAdjust "c" sample_input) :: replicate 5 (Resume 0).
Definition sample_moves : list CacheMove :=
  sample_propose
  ++ [Request (Approve (sample_review "ann")); Resume 1; Resume 1;
      Request (Approve (sample_review "bob"))]
  ++ [Resume 1; Resume 2; Resume 1; Resume 2; Resume 1; Resume 2; Resume 1; Resume 2; Resume 1; Resume 2].

(** ** Lemmas *)
#[export] Instance edited_equiv : Equivalence edited.
Proof.
  split.
  - by intros [].
  - intros [] []; cbn; naive_solver.
  - intros [] [] []; cbn; naive_solver.
Qed.

Lemma cache_edge_final s s' :
  rtc cache_edge s s' → s = rejected ∨ s = applied ∨ s = failed ∨ s = expired → s' = s.
Proof. intros Hr Hs. destruct Hr as [|s s1 s' He _]; [done|]. inversion He; subst; naive_solver. Qed.

Lemma cache_edge_pending s : rtc cache_edge s pending → s = pending.
Proof. intros Hr. apply rtc_inv_r in Hr as [?|(s1 & _ & He)]; [done|]. inversion He. Qed.

Section guarantees_cache.
Context {X : Type} `{!CacheBackend X}.
Context (uuid : nat → string) `{!Inj (=) (=) uuid} (fault : nat → option StorageFault).
Context (registry applyService : bool).
Abbreviation cache_ok := (world_ok (X:=X) uuid pending cache_target schema_valid).
Abbreviation cache_step := (world_step (X:=X) uuid pending cache_target schema_valid cache_edge edited).
Abbreviation cache_table_step :=
  (table_step (X:=X) uuid pending cache_target schema_valid cache_edge edited).
Abbreviation cache_respects :=
  (respects (X:=X) uuid pending cache_target schema_valid cache_edge edited).

#[local] Instance step_preorder : PreOrder cache_step.
Proof using Type*. apply _. Qed.

Lemma guar_store {A} (m : M CacheProposalTable string A) :
  (∀ ids t, cache_table_step ids t (m t).2) → guarantees cache_step (await (store fault m)).
Proof using Type*.
  intros H. apply guarantees_await; [apply _|]. intros w.
  apply (step_storage uuid fault pending cache_target schema_valid cache_edge edited). apply H.
Qed.

Lemma guar_read {A} (f : CacheProposalTable → A) :
  guarantees cache_step (await (store fault (gets f))).
Proof using Type*. apply guar_store. intros ids t. cbn. apply table_step_refl; apply _. Qed.

Lemma guar_append audit : guarantees cache_step (append (X:=X) uuid fault audit).
Proof using Type*.
  apply guarantees_await; [apply _|]. intros w. unfold mbind, M_bind, randomUUID. cbn [fst snd].
  etrans; [apply step_count_id; apply _|].
  apply (step_storage uuid fault pending cache_target schema_valid cache_edge edited).
  cbn. apply table_step_audit; apply _.
Qed.

Lemma guar_update u s :
  ui_expected_status u = Some [s] → cache_edge s (ui_status u) → ui_payload u = None →
  guarantees cache_step (update (X:=X) fault u).
Proof using Type*.
  intros Hs He Hp. apply guar_store. intros ids t. apply table_step_update; [done|apply _| | |].
  - intros Heq. rewrite Heq in He. inversion He.
  - intros p _ Ha. specialize (Ha _ Hs). apply list_elem_of_singleton in Ha as ->.
    by apply rtc_once.
  - intros p payload _ Hpl. by rewrite Hp in Hpl.
Qed.

Lemma guar_now : guarantees cache_step (Date_now' (X:=X)).
Proof using Type*. by apply guarantees_sync. Qed.

Lemma guar_backend {A} (m : Z → M X string A) : guarantees cache_step (backend m).
Proof using Type*.
  apply guarantees_bind; [apply _|apply guar_now|]. intros now.
  apply guarantees_await; [apply _|]. intros w. apply step_outside; apply _.
Qed.

Lemma guar_try_dispatch p : guarantees cache_step (try_dispatch p).
Proof using Type*.
  apply guarantees_bind; [apply _|apply guar_now|]. intros now.
  apply guarantees_await; [apply _|]. intros w.
  pose proof (step_dispatched uuid pending cache_target schema_valid cache_edge edited
    (λ e : DispatchError, e) p (dispatch now p) w) as H.
  unfold dispatched, outside in *. destruct (dispatch _ _ _) as [[o|e] x]; exact H.
Qed.

Lemma guar_create proposedAt (input : string → CreateProposalInput CachePayload) :
  (∀ id, ci_id (input id) = id ∧ schema_valid (ci_payload (input id)) = true) →
  guarantees cache_step
    (await (id ← randomUUID uuid; store fault (createCacheProposal proposedAt (input id)))).
Proof using Type*.
  intros Hi. apply guarantees_await; [apply _|]. intros w.
  apply (step_create uuid fault pending cache_target schema_valid cache_edge edited); [|apply Hi..].
  intros q k. unfold cache_target, cache_clash, new_proposal. cbn.
  destruct (pendingProposalSubDiscriminator (ci_payload _)) as [d|]; [|done]. cbn.
  intros [= <-]. destruct (pendingProposalSubDiscriminator (sp_payload q)) as [d'|]; [|done].
  cbn. intros [= -> -> -> ->]. unfold str_eqb. by rewrite !bool_decide_true.
Qed.

(** Goes through a method segment by segment. *)
Ltac guar :=
  repeat first
    [ progress cbv zeta
    | apply guar_append | apply guar_now | apply guar_backend | apply guar_try_dispatch
    | apply guar_read | eapply guar_update; [reflexivity|constructor|reflexivity]
    | apply guarantees_ret; apply _ | apply guarantees_raise; apply _
    | lazymatch goal with
      | |- guarantees _ (mbind _ (parse _)) => fail
      | |- _ => apply guarantees_bind; [apply _| |intros ?]
      end
    | apply guarantees_catch; [apply _| |intros ?]
    | apply guarantees_each; [apply _|intros ?]
    | match goal with
      | |- guarantees _ (match ?x with _ => _ end) => destruct x eqn:?
      end ].

Lemma guar_requireCacheAny connectionId cacheName :
  guarantees cache_step (requireCacheAny connectionId cacheName).
Proof using Type*. unfold requireCacheAny. guar. Qed.

Lemma guar_find connectionId cacheName proposalType matches pages page :
  guarantees cache_step
    (find_pending_page (X:=X) fault connectionId cacheName proposalType matches pages page).
Proof using Type*.
  revert page. induction pages as [|pages IH]; intros page; cbn [find_pending_page]; guar; apply IH.
Qed.

#[local] Opaque find_pending_page.

Lemma guar_persist connectionId cacheName payload reasoning proposedBy warnings :
  schema_valid payload = true →
  guarantees cache_step
    (persist (X:=X) uuid fault connectionId cacheName payload reasoning proposedBy warnings).
Proof using Type*.
  intros Hv. unfold persist. apply guarantees_bind; [apply _| |intros r].
  { apply guarantees_sync. intros w. apply step_reserve; apply _. }
  guar; [by apply guar_create|].
  apply guarantees_sync. intros w. apply step_release; apply _.
Qed.

#[local] Opaque persist.

(** What [parse] lets through is valid. *)
Lemma guar_parse {A} payload (k : CachePayload → async W CacheProposalError A) :
  (schema_valid payload = true → guarantees cache_step (k payload)) →
  guarantees cache_step (parse (X:=X) payload ≫= k).
Proof using Type*.
  intros Hk. unfold parse. destruct (schema_valid payload).
  - by apply guarantees_ret_bind, Hk.
  - intros w. cbn. reflexivity.
Qed.

Lemma guar_approve input : guarantees cache_step (approve (X:=X) uuid fault applyService input).
Proof using Type*.
  unfold approve, transitionToApproved, runApply, apply, apply_audit, get_row. guar.
Qed.

Lemma guar_reject input reason : guarantees cache_step (reject (X:=X) uuid fault input reason).
Proof using Type*. unfold reject, requireFreshPending, lost_race, get_row. guar. Qed.

Lemma guar_expire now source :
  guarantees cache_step (expireProposals (X:=X) uuid fault now source).
Proof using Type*.
  unfold expireProposals. apply guarantees_bind; [apply _| |intros ?; guar].
  apply guar_store. intros ids t. unfold expireCacheProposalsBefore.
  pose proof (table_step_expire (X:=X) uuid pending cache_target schema_valid cache_edge edited
    expired ids t now ltac:(done) ltac:(constructor)) as H.
  by destruct (expire_before _ _ _ _).
Qed.

Lemma guar_propose_threshold connectionId input :
  guarantees cache_step (proposeThresholdAdjust (X:=X) uuid fault registry connectionId input).
Proof using Type*.
  unfold proposeThresholdAdjust, requireReasoning, requireCache, requireCacheAny,
    readCurrentThreshold, rejectIfDuplicatePending, findFirstPendingMatch.
  guar. apply guar_parse. intros Hv. guar; [apply guar_find|by apply guar_persist].
Qed.

Lemma guar_propose_ttl connectionId input :
  guarantees cache_step (proposeToolTtlAdjust (X:=X) uuid fault registry connectionId input).
Proof using Type*.
  unfold proposeToolTtlAdjust, requireReasoning, requireCache, requireCacheAny,
    readCurrentToolTtl, rejectIfDuplicatePending, findFirstPendingMatch.
  guar. apply guar_parse. intros Hv. guar; [apply guar_find|by apply guar_persist].
Qed.

Lemma guar_propose_invalidate connectionId input :
  guarantees cache_step (proposeInvalidate (X:=X) uuid fault connectionId input).
Proof using Type*.
  unfold proposeInvalidate, requireReasoning, requireCacheAny.
  guar; apply guar_parse; intros Hv; by apply guar_persist.
Qed.

(** An edit of a row that was read pending. *)
Lemma respects_edit {A} p payload (now : Z) actor
    (k : option StoredCacheProposal → async W CacheProposalError A) :
  sp_status p = pending → schema_valid payload = true → edited (sp_payload p) payload →
  (∀ r, guarantees cache_step (k r)) →
  cache_respects (λ _ _, True) [p]
    (update (X:=X) fault (review_update (sp_id p) approved actor now (Some payload)) ≫= k).
Proof using Type*.
  intros Hs Hv Hed Hk.
  apply respects_bind with (Q := λ _ _, True); [apply _|apply _| |..|done].
  - apply respects_await; [apply _|apply _|]. intros w [Hw Hkn].
    split; [|exists []; split; [intros q Hq; set_solver|done]].
    apply step_storage; [apply _|apply _|]. intros w' Ht Hi Hok.
    destruct (Hkn p) as (p' & Hp' & Hev); [set_solver|].
    apply (table_step_update uuid pending cache_target schema_valid cache_edge edited
             (w_ids w) (w_table w)); [done| | |done|done|done].
    + intros q _ Ha. specialize (Ha _ eq_refl). apply list_elem_of_singleton in Ha as ->.
      apply rtc_once. constructor.
    + cbn. intros q payload' Hq [= <-] _ _. split; [done|]. simplify_eq.
      etrans; [|exact Hed]. symmetry. apply Hev.
  - intros r seen _. by apply respects_guarantees; [apply _|apply _|..].
Qed.

Lemma respects_parse {A} Q seen payload (k : CachePayload → async W CacheProposalError A) :
  (schema_valid payload = true → cache_respects Q seen (k payload)) →
  (∀ e, Q (Throw e) seen) →
  cache_respects Q seen (parse (X:=X) payload ≫= k).
Proof using Type*.
  intros Hk He. unfold parse. destruct (schema_valid payload).
  - by apply simulates_ret_bind, Hk.
  - intros w [Hw Hkn]. exists seen. split; [by split|done].
Qed.

Lemma respects_requireFreshPending {A} Q id seen
    (k : StoredCacheProposal → async W CacheProposalError A) :
  (∀ p, sp_id p = id → sp_status p = pending → cache_respects Q [p] (k p)) →
  (∀ e seen, Q (Throw e) seen) →
  cache_respects Q seen (requireFreshPending (X:=X) fault id ≫= k).
Proof using Type*.
  intros Hk He.
  apply respects_bind with (Q := λ r seen, match r with
    | Ok p => seen = [p] ∧ sp_id p = id ∧ sp_status p = pending
    | Throw _ => True
    end); [apply _|apply _| | |done].
  - unfold requireFreshPending, get_row. apply respects_get; [apply _|apply _|..|done].
    + by apply respects_raise; [apply _|apply _|].
    + intros p Hid. case_bool_decide as Hs; [by apply respects_raise; [apply _|apply _|]|].
      apply respects_gets; [apply _|apply _|]. intros now.
      case_match; [by apply respects_raise; [apply _|apply _|]|].
      by apply respects_ret; [apply _|apply _|].
  - intros p seen' (-> & ? & ?). by apply Hk.
Qed.

(** An edited payload is valid and differs in the proposed value only. *)
Lemma respects_edit_payload {A} Q seen id before edits
    (k : CachePayload → async W CacheProposalError A) :
  (∀ payload, schema_valid payload = true → edited before payload → cache_respects Q seen (k payload)) →
  (∀ e seen, Q (Throw e) seen) →
  cache_respects Q seen (edit_payload (X:=X) id before edits ≫= k).
Proof using Type*.
  intros Hk He. unfold edit_payload.
  destruct before; destruct (ed_newThreshold edits), (ed_newTtlSeconds edits);
    try (apply respects_parse; [|done]; intros Hv; by apply Hk; [|split]);
    (intros w [Hw Hkn]; exists seen; split; [by split|done]).
Qed.

Lemma respects_editAndApprove input edits :
  cache_respects (λ _ _, True) [] (editAndApprove (X:=X) uuid fault applyService input edits).
Proof using Type*.
  unfold editAndApprove. apply respects_requireFreshPending; [|done]. intros p Hid Hs.
  apply respects_edit_payload; [|done]. intros payload Hv Hed. apply respects_gets; [apply _|apply _|]. intros now.
  apply respects_edit; [done..|]. intros r. unfold lost_race, runApply, apply, apply_audit, get_row.
  guar.
Qed.

(** Every request respects the protocol. *)
Lemma respects_handle request :
  cache_respects (λ _ _, True) [] (handle (X:=X) uuid fault registry applyService request).
Proof using Type*.
  destruct request; cbn [handle].
  6: { apply respects_bind with (Q := λ _ _, True); [apply _|apply _| |..|done].
    - apply respects_editAndApprove.
    - intros r seen _. by apply respects_ret; [apply _|apply _|]. }
  all: apply respects_guarantees; [apply _|apply _|done|]; apply guarantees_bind; [apply _| |];
    [|intros r; apply guarantees_ret; apply _].
  - apply guar_propose_threshold.
  - apply guar_propose_ttl.
  - apply guar_propose_invalidate.
  - apply guar_approve.
  - apply guar_reject.
  - apply guarantees_bind; [apply _|apply guar_now|]. intros now. apply guar_expire.
  - unfold getProposalWithAudit, getProposal, get_row. guar.
  - unfold listProposals. guar.
Qed.
End guarantees_cache.

Lemma cache_clash_target dflt now input q :
  cache_clash input q = same_target (new_proposal pending dflt now input) q.
Proof.
  unfold cache_clash, same_target, cache_target, str_eqb. cbn.
  destruct (pendingProposalSubDiscriminator (ci_payload input)) as [d|]; cbn; [|done].
  apply eq_bool_prop_intro. rewrite !andb_True, !bool_decide_spec.
  destruct (pendingProposalSubDiscriminator (sp_payload q)) as [d'|]; cbn;
    (split; [intros ([[? ?] ?] & ?); congruence|intros [=]; split_and!; congruence]).
Qed.

Lemma create_blocked now input t :
  createCacheProposal now input t
  = (let p := new_proposal pending PROPOSAL_DEFAULT_EXPIRY_MS now input in
     if blocked p t then (Throw cache_unique_error, t)
     else (Ok p, with_proposals (jm_set (sp_id p) p) t)).
Proof.
  unfold createCacheProposal, create_proposal, blocked. cbv zeta. f_equal.
  rewrite (js_some_ext _ (λ q, has_status pending q
    && same_target (new_proposal pending PROPOSAL_DEFAULT_EXPIRY_MS now input) q)); [done|].
  intros q. by rewrite (cache_clash_target PROPOSAL_DEFAULT_EXPIRY_MS now).
Qed.

(** *** A request on its own, when no storage call fails *)
Definition nofault : nat → option StorageFault := λ _, None.

Section alone.
Context {X : Type} `{!CacheBackend X} (uuid : nat → string).
Implicit Types (w : W (X:=X)) (p : StoredCacheProposal).

Lemma run_get_row id w :
  async_run (get_row nofault id) w = (Ok (getCacheProposal id (w_table w)), count_call w).
Proof using Type. unfold get_row. rewrite run_await. unfold store, storage, gets. by destruct w. Qed.

Lemma run_update u s p w :
  getCacheProposal (ui_id u) (w_table w) = Some p → sp_status p = s →
  ui_expected_status u = Some [s] → ui_payload u = None →
  async_run (update nofault u) w
  = (Ok (Some (update_row u p)),
     count_call (set_table (with_proposals (jm_set (ui_id u) (update_row u p)) (w_table w)) w)).
Proof using Type.
  intros Hg Hs He Hp. unfold update. rewrite run_await.
  unfold store, storage, updateCacheProposalStatus, update_status. cbv beta.
  unfold getCacheProposal in Hg. rewrite Hg, He, Hp. cbn. unfold js_includes.
  rewrite (bool_decide_eq_true_2 (sp_status p ∈ [s])) by set_solver. done.
Qed.

Lemma run_append audit w :
  async_run (append uuid nofault audit) w
  = (Ok tt, count_call (set_table (append_audit (audit (uuid (w_ids w))) (w_table w)) (count_id w))).
Proof using Type. unfold append. rewrite run_await. by destruct w. Qed.

Lemma run_apply_audit p e r context w :
  ∃ w', async_run (apply_audit uuid nofault p e r context) w = (Ok tt, w')
        ∧ pt_proposals (w_table w') = pt_proposals (w_table w)
        ∧ w_dispatched w' = w_dispatched w.
Proof using Type.
  unfold apply_audit, Date_now'. rewrite run_catch, run_bind, run_sync. cbn [Date_now gets fst snd].
  unfold Date_now, gets. cbv beta iota. rewrite run_append. eexists. split; [done|]. by destruct w.
Qed.

Lemma run_try_dispatch p w :
  async_run (try_dispatch p) w
  = (let '(r, x) := dispatch (w_now w) p (w_outside w) in
     (Ok (match r with Ok o => inr o | Throw e => inl e end), set_outside x (log_dispatch p w))).
Proof using Type.
  unfold try_dispatch, Date_now'. rewrite run_bind, run_sync. unfold Date_now, gets. cbv beta iota.
  rewrite run_await. unfold dispatched, outside. cbn [w_outside log_dispatch].
  by destruct (dispatch (w_now w) p (w_outside w)) as [[o|e] x].
Qed.

(** The application of a row that is approved. *)
Lemma run_runApply input p w :
  getCacheProposal (sp_id p) (w_table w) = Some p → sp_status p = approved →
  let d := (dispatch (w_now w) p (w_outside w)).1 in
  ∃ w', async_run (runApply uuid nofault true p input) w = (applied_response d (w_now w) p, w')
        ∧ getCacheProposal (sp_id p) (w_table w') = Some (applied_row (w_now w) d p)
        ∧ w_dispatched w' = w_dispatched w ++ [p].
Proof using Type.
  intros Hg Hs. unfold runApply, apply. rewrite Hs. cbn [negb is_done].
  rewrite !run_bind, run_try_dispatch.
  destruct (dispatch (w_now w) p (w_outside w)) as [[o|e] x] eqn:Hd; cbn [fst];
    rewrite run_bind; unfold Date_now'; rewrite run_sync; unfold Date_now, gets; cbv beta iota;
    rewrite run_bind, (run_update _ approved p) by done; cbv beta iota; rewrite run_bind;
    match goal with |- context [async_run (apply_audit _ _ ?q ?e ?r ?c) ?w0] =>
      destruct (run_apply_audit q e r c w0) as (w' & -> & Ht & Hl) end;
    exists w'; (split; [done|]); unfold getCacheProposal, get_proposal; rewrite Ht, Hl;
    cbn; by rewrite jm_get_set_eq.
Qed.
End alone.

(** ** Theorems *)
Section theorems.
Context {X : Type} `{!CacheBackend X}.
Context (uuid : nat → string) `{!Inj (=) (=) uuid} (fault : nat → option StorageFault).
Context (registry applyService : bool).
Abbreviation run := (cache_run (X:=X) uuid fault registry applyService).

Lemma cache_moves_respect (moves : list CacheMove) :
  (∀ m, Call m ∈ cache_move (X:=X) uuid fault registry applyService <$> moves →
     respects uuid pending cache_target schema_valid cache_edge edited (λ _ _, True) [] m)
  ∧ ∀ f, Outside f ∈ cache_move (X:=X) uuid fault registry applyService <$> moves →
     ∃ ms, f = pass ms.
Proof using Type*.
  split.
  - intros m ([] & [= ->] & _)%list_elem_of_fmap. by apply respects_handle.
  - intros f ([] & [= ->] & _)%list_elem_of_fmap. eauto.
Qed.
End theorems.

(** what a proposal costs.  A connection has thirty proposals an hour.  One that
    is stored takes a slot, one that a pending proposal blocks takes a slot all the
    same, and one that the storage fails on gives its slot back; when no slot is left
    nothing is stored. *)
Theorem propose_slot {X} `{!CacheBackend X} uuid fault connectionId cacheName payload reasoning
    proposedBy warnings (w : W (X:=X)) :
  let now := w_now w in
  let events := fresh_from (now - PROPOSAL_RATE_WINDOW_MS) (bucket connectionId (w_rateLimiter w)) in
  let slot := {| be_ts := now; be_token := rl_nextToken (w_rateLimiter w) |} in
  let p := new_proposal pending PROPOSAL_DEFAULT_EXPIRY_MS now
             {| ci_id := uuid (w_ids w); ci_connection_id := connectionId; ci_name := cacheName;
                ci_payload := payload; ci_reasoning := Some reasoning;
                ci_proposed_by := proposedBy; ci_proposed_at := Some now;
                ci_expires_at := Some (now + PROPOSAL_DEFAULT_EXPIRY_MS) |} in
  let duplicate r := ∃ scope,
    r = Throw (DuplicatePendingProposalError cacheName (proposal_type_of payload) scope) in
  NoDup (be_token <$> events) →
  Forall (λ e, be_token e < rl_nextToken (w_rateLimiter w)) events →
  let '(r, w') := async_run (persist uuid fault connectionId cacheName payload reasoning
                               proposedBy warnings) w in
  let slots := bucket connectionId (w_rateLimiter w') in
  if js_len events <? 30 then
    match fault (w_calls w) with
    | None =>
        slots = events ++ [slot] ∧
        if blocked p (w_table w) then w_table w' = w_table w ∧ duplicate r
        else r = Ok {| po_proposal := p; po_warnings := warnings |}
             ∧ getCacheProposal (uuid (w_ids w)) (w_table w') = Some p
    | Some (Lost e) | Some (Unanswered e) =>
        if isUniqueConstraintViolation (ThrownError e)
        then slots = events ++ [slot] ∧ duplicate r
        else slots = events ∧ r = Throw (ThrownError e)
    end
  else slots = events ∧ w_table w' = w_table w ∧ ∃ ms, r = Throw (RateLimitedError ms).
Proof.
  cbv zeta. intros Hnd Htok. unfold persist. rewrite run_bind, run_sync. unfold limiter_reserve.
  destruct (reserve_spec PROPOSAL_RATE_LIMIT PROPOSAL_RATE_WINDOW_MS (w_now w) connectionId
    (w_rateLimiter w) eq_refl) as (res & l & Hr & _ & Hres).
  pose proof (reserve_allowed PROPOSAL_RATE_LIMIT _ _ _ _ _ _ eq_refl Hr) as Ha.
  rewrite Hr. cbv beta iota zeta. rewrite Ha. clear Hr Ha.
  unfold PROPOSAL_RATE_LIMIT in *. set (events := fresh_from _ _) in *.
  destruct (js_len events <? 30); cbn [negb];
    [|destruct Hres as (_ & _ & Hb); rewrite run_raise; eauto].
  destruct Hres as (Htoken & Hnext & Hb). rewrite Htoken.
  unfold Date_now'. rewrite run_bind, run_sync. unfold Date_now, gets. cbv beta iota.
  rewrite run_bind, run_catch, run_await.
  unfold mbind, M_bind, randomUUID. cbv beta iota. unfold store, storage.
  cbn [w_table w_ids w_now w_calls set_limiter count_id].
  assert (Hrel : bucket connectionId (release connectionId (rl_nextToken (w_rateLimiter w)) l) = events).
  { destruct (release_spec connectionId (rl_nextToken (w_rateLimiter w)) l) as [_ Hrel].
    - rewrite Hb, fmap_app. apply NoDup_app. split_and!; [done| |apply NoDup_singleton].
      intros t Ht ->%list_elem_of_singleton. apply list_elem_of_fmap in Ht as (e & He & Hin).
      rewrite Forall_forall in Htok. specialize (Htok e Hin). cbn in He. lia.
    - rewrite Hrel, decide_True, Hb, js_filter_app by done. unfold other_token. cbn.
      rewrite Z.eqb_refl. cbn. rewrite app_nil_r. apply js_filter_all. intros e He.
      rewrite Forall_forall in Htok. specialize (Htok e He).
      apply negb_true_iff, Z.eqb_neq. lia. }
  destruct (fault (w_calls w)) as [f|].
  - destruct (createCacheProposal _ _ _) as [r t].
    destruct f as [e|e]; cbv beta iota zeta;
      destruct (isUniqueConstraintViolation (ThrownError e)); cbn; eauto.
  - rewrite create_blocked. cbv zeta. destruct (blocked _ _).
    + split; [exact Hb|]. split; [done|]. by eexists.
    + split; [exact Hb|]. split; [done|]. apply jm_get_set_eq.
Qed.

Lemma propose_slot_witness :
  let w : W := start_world 0 0%nat in
  let '(r, w') := async_run (persist sample_uuid nofault "c" "tools"
    (AgentToolTtlAdjust "search" (num_of_Z 0) (num_of_Z 600)) "hourly" None []) w in
  ran_ok r = true ∧ js_len (bucket "c" (w_rateLimiter w')) = 1.
Proof.
  pose proof (propose_slot sample_uuid nofault "c" "tools"
    (AgentToolTtlAdjust "search" (num_of_Z 0) (num_of_Z 600)) "hourly" None []
    (start_world 0 0%nat) ltac:(constructor) ltac:(constructor)) as H. cbv zeta in H |- *.
  destruct (async_run _ _) as [r w'].
  assert (Hr : ran_ok r = true ∧ bucket "c" (w_rateLimiter w') = [{| be_ts := 0; be_token := 1 |}]).
  { destruct H as (Hb & -> & _). split; [done|]. rewrite Hb. vm_compute. done. }
  destruct Hr as [Hr Hb]. by rewrite Hb.
Defined.

(** an approval that nothing interrupts answers and acts by the state of the
    row: an unknown, rejected or expired proposal is refused, also one that expires
    now; a pending one is marked approved, dispatched once and marked applied or
    failed by the outcome; an approved one is dispatched again; one that is applied
    or failed only gets its recorded result. *)
Theorem approve_outcome {X} `{!CacheBackend X} uuid (input : ReviewInput) (w : W (X:=X)) :
  table_keyed (w_table w) →
  let id := ri_proposalId input in
  let '(r, w') := async_run (approve uuid nofault true input) w in
  let applies p :=
    let d := (dispatch (w_now w) p (w_outside w)).1 in
    r = applied_response d (w_now w) p
    ∧ getCacheProposal id (w_table w') = Some (applied_row (w_now w) d p)
    ∧ w_dispatched w' = w_dispatched w ++ [p] in
  let refused e := r = Throw e ∧ w_table w' = w_table w ∧ w_dispatched w' = w_dispatched w in
  match getCacheProposal id (w_table w) with
  | None => refused (ProposalNotFoundError id)
  | Some p =>
      match sp_status p with
      | pending =>
          if sp_expires_at p <=? w_now w then refused (ProposalExpiredError id (sp_expires_at p))
          else applies (approved_row input (w_now w) None p)
      | approved => applies p
      | applied | failed =>
          r = Ok (p, Some (default {| ar_success := bool_decide (sp_status p = applied);
                                      ar_error := None; ar_details := None |}
                                   (sp_applied_result p)))
          ∧ w_table w' = w_table w ∧ w_dispatched w' = w_dispatched w
      | rejected | expired => refused (ProposalNotPendingError id (Some (sp_status p)))
      end
  end.
Proof.
  intros Hk. cbv zeta. unfold approve, transitionToApproved. rewrite run_bind, run_bind, run_get_row.
  destruct (getCacheProposal _ (w_table w)) as [p|] eqn:Hg; [|by rewrite run_raise].
  assert (Hid : sp_id p = ri_proposalId input) by by apply (keyed_get sp_id _ _ _ Hk) in Hg.
  destruct (sp_status p) eqn:Hs; cbn [reviewed].
  2, 4, 5: rewrite run_ret.
  - rewrite bool_decide_eq_false_2 by (by intros []). unfold Date_now'.
    rewrite run_bind, run_sync. unfold Date_now, gets. cbv beta iota. cbn [w_now count_call].
    destruct (sp_expires_at p <=? w_now w); [by rewrite run_raise|].
    rewrite run_bind, run_sync. cbv beta iota.
    rewrite run_bind, (run_update _ pending p); [|by rewrite <-Hid in Hg|done..].
    cbv beta iota. rewrite run_bind, run_append. cbv beta iota. rewrite run_ret.
    cbn [w_now count_call set_table count_id]. rewrite <-Hid.
    match goal with |- context [runApply _ _ _ ?q _] =>
      edestruct (run_runApply (X:=X) uuid input q) as (w' & Hr & Hrow & Hl); [..|rewrite Hr] end.
    + cbn. apply jm_get_set_eq.
    + done.
    + by split_and!.
  - destruct (run_runApply uuid input p (count_call w)) as (w' & -> & Hrow & Hl).
    + by rewrite Hid.
    + done.
    + rewrite <-Hid. by split_and!.
  - unfold runApply, apply. rewrite Hs. cbn [negb is_done]. rewrite run_bind, run_ret. cbv beta iota.
    cbn [ap_appliedResult ap_proposal]. rewrite andb_false_r. by rewrite run_ret.
  - unfold runApply, apply. rewrite Hs. cbn [negb is_done]. rewrite run_bind, run_ret. cbv beta iota.
    cbn [ap_appliedResult ap_proposal]. rewrite andb_false_r. by rewrite run_ret.
  - by rewrite bool_decide_eq_true_2, run_raise.
  - by rewrite bool_decide_eq_true_2, run_raise.
Qed.

Lemma approve_outcome_witness :
  let w := pl_state (cache_run sample_uuid nofault true true sample_propose 0 0%nat) in
  table_keyed (w_table w)
  ∧ let '(r, w') := async_run (approve sample_uuid nofault true (sample_review "ann")) w in
    ran_ok r = true ∧ (sp_status <$> getCacheProposal "id0" (w_table w')) = Some applied.
Proof.
  set (w := pl_state (cache_run sample_uuid nofault true true sample_propose 0 0%nat)).
  assert (Hk : table_keyed (w_table w)).
  { split; [apply (bool_decide_unpack (NoDup _)); vm_compute; done|].
    intros k v Hkv. vm_compute in Hkv. apply list_elem_of_singleton in Hkv. by simplify_eq. }
  split; [exact Hk|].
  pose proof (approve_outcome sample_uuid (sample_review "ann") w Hk) as H.
  assert (Hg : ∃ p o, getCacheProposal "id0" (w_table w) = Some p ∧ sp_status p = pending
    ∧ (sp_expires_at p <=? w_now w) = false
    ∧ (dispatch (w_now w) (approved_row (sample_review "ann") (w_now w) None p) (w_outside w)).1 = Ok o).
  { do 2 eexists. split_and!; vm_compute; reflexivity. }
  destruct Hg as (p & o & Hg & Hs & He & Hd). cbv zeta in H. cbn [ri_proposalId sample_review] in H.
  rewrite Hg, Hs, He, Hd in H. destruct (async_run _ w) as [r w'].
  destruct H as (-> & -> & _). done.
Defined.


(** C40: in every state the requests can reach, each stored proposal has a payload
    its schema accepts and is stored under its id, and no two pending proposals of
    a connection are about the same threshold category or the same tool of a
    cache. *)
Theorem cache_proposals_well_formed {X} `{!CacheBackend X} uuid `{!Inj (=) (=) uuid} fault registry
    applyService (moves : list CacheMove) now (x : X) :
  let t := w_table (pl_state (cache_run uuid fault registry applyService moves now x)) in
  (∀ id p, getCacheProposal id t = Some p → sp_id p = id ∧ schema_valid (sp_payload p) = true)
  ∧ pending_unique pending cache_target t.
Proof.
  destruct (cache_moves_respect (X:=X) uuid fault registry applyService (moves ++ [])) as [Hc Ho].
  rewrite fmap_app in *. cbv zeta. unfold cache_run.
  destruct (world_pool_ok uuid pending cache_target schema_valid cache_edge edited
              _ _ now x Hc Ho) as [Hk _ Hu Hp].
  split; [|done]. intros id p Hg. split; [|by eapply Hp]. by eapply keyed_get.
Qed.


Lemma cache_proposals_well_formed_witness :
  ∃ p : StoredCacheProposal, sp_id p = "id0" ∧ schema_valid (sp_payload p) = true.
Proof.
  pose proof (cache_proposals_well_formed sample_uuid nofault true true sample_moves 0 0%nat) as H.
  cbv zeta in H. destruct H as [H _].
  destruct (getCacheProposal "id0" (w_table (pl_state
    (cache_run sample_uuid nofault true true sample_moves 0 0%nat)))) as [p|] eqn:Hp;
    [|exfalso; vm_compute in Hp; done].
  exists p. by apply H.
Defined.

(** two approvals of one proposal that overlap both dispatch it: nothing claims
    the row before the dispatch.  The second outcome is then reported and audited
    although the row keeps the first: the row is applied, the second reviewer is told
    that the change failed, and the audit trail holds both. *)
Theorem concurrent_approvals_dispatch_twice :
  ∃ moves : list CacheMove,
    let p := cache_run sample_uuid nofault true true moves 0 0%nat in
    let w := pl_state p in
    (sp_id <$> w_dispatched w) = ["id0"; "id0"]
    ∧ (sp_status <$> getCacheProposal "id0" (w_table w)) = Some applied
    ∧ (pa_event_type <$> getCacheProposalAudit "id0" (w_table w))
      = [ev_approved; ev_applied; ev_failed]
    ∧ ∃ row, (pl_threads p !! 1%nat) = Some (Finished (Ok row))
    ∧ ∃ details, (pl_threads p !! 2%nat)
                 = Some (Finished (Throw (ApplyFailedError "id0" "HSET failed" details))).
Proof.
  exists sample_moves. cbv zeta. split_and!; [vm_compute; reflexivity..|].
  eexists. split; [vm_compute; reflexivity|]. eexists. vm_compute. reflexivity.
Qed.
