(* ===== verification/MemoryProposals.v ===== *)
(** * Memory proposals: forgetting with approval

    [proprietary/memory-proposals]: [memory-proposal.service.ts],
    [memory-apply.service.ts], [memory-apply.dispatcher.ts], [errors.ts] and the
    tick of [memory-expiration.cron.ts].  An agent proposes to forget a memory, or
    all memories of a scope; a person approves or rejects.  Forgetting cannot be
    undone, so an application first claims the row: its status goes from approved to
    applying, and only the one who made that change forgets.

    The methods are asynchronous over [World], as those of [CacheProposals]; the
    memory store of the client library is the class [MemoryStoreBackend]. *)
From S2P Require Export ProposalWorld.
From stdpp Require Import options.

(** ** Definitions *)
Inductive MemoryProposalError :=
  | MemoryProposalValidationError (message : string)
  | DuplicatePendingMemoryProposalError (store_name : string)
  | MemoryProposalNotFoundError (proposalId : string)
  | MemoryProposalNotPendingError (proposalId : string)
  | MemoryProposalExpiredError (proposalId : string)
  | MemoryProposalRateLimitedError (retryAfterMs : Z)
  | MemoryThrown (message : string).

(** [MemoryStore] of a connection and a name: [forget] tells whether the memory was
    there, [forgetByScope] how many were; [elapsed] is how long the call took. *)
Class MemoryStoreBackend (X : Type) := {
  store_forget : string → string → string → M X string bool;
  store_forgetByScope : string → string → list (string * string) → option (list string) →
    M X string Z;
  elapsed : X → Z;
}.

Record MemoryApplyOutcome := {
  mo_actualAffected : Z;
  mo_durationMs : Z;
  mo_details : list (string * json);
}.

Definition REASONING_MIN_LENGTH : Z := 20.
Definition PROPOSAL_RATE_LIMIT : Z := 30.
Definition PROPOSAL_RATE_WINDOW_MS : Z := 60 * 60 * 1000.

Record ProposeForgetInput := {
  pf_storeName : string;
  pf_reasoning : string;
  pf_memoryId : option string;
  pf_scope : option (list (string * string));
  pf_tags : option (list string);
  pf_proposedBy : option string;
}.
Record ProposeForgetResult := {
  pr_proposal : StoredMemoryProposal;
  pr_warnings : list string;
}.
Record MemoryReviewInput := {
  mr_proposalId : string;
  mr_actor : option string;
  mr_actorSource : ActorSource;
}.
Record MemoryApplyResult := {
  ma_proposal : StoredMemoryProposal;
  ma_appliedResult : AppliedResult;
}.

Definition no_details (success : bool) : AppliedResult :=
  {| ar_success := success; ar_error := None; ar_details := None |}.

(** [/unique/i] on the message of an error of the storage *)
Definition isUniqueViolation (err : MemoryProposalError) : bool :=
  match err with
  | MemoryThrown message => includes "UNIQUE" (to_upper message)
  | _ => false
  end.

Definition targetDiscriminator (payload : MemoryForgetPayload) : string :=
  match payload with
  | ForgetById memory_id => "id:" +:+ memory_id
  | ForgetByScope scope tags =>
      "scope:" +:+ stringify (JObj ((λ kv, (kv.1, JStr kv.2)) <$> default [] scope))
      +:+ "|tags:" +:+ join "," (sort_strings (default [] tags))
  end.

Definition status_name (s : MemoryProposalStatus) : string :=
  match s with
  | m_pending => "pending" | m_approved => "approved" | m_applying => "applying"
  | m_applied => "applied" | m_failed => "failed" | m_rejected => "rejected"
  | m_expired => "expired"
  end.

Definition resultFor (proposal : StoredMemoryProposal) : AppliedResult :=
  default
    (match sp_status proposal with
     | m_applied => no_details true
     | m_failed => no_details false
     | s => {| ar_success := false; ar_error := None;
               ar_details := Some [("status", JStr (status_name s))] |}
     end) (sp_applied_result proposal).

(** *** The dispatcher *)
Definition json_tags (tags : list string) : json := JArr (JStr <$> tags).
Definition json_scope (scope : list (string * string)) : json :=
  JObj ((λ kv, (kv.1, JStr kv.2)) <$> scope).

Definition dispatch {X} `{!MemoryStoreBackend X} (proposal : StoredMemoryProposal)
    : M X string MemoryApplyOutcome :=
  match sp_payload proposal with
  | ForgetById memory_id =>
      removed ← store_forget (sp_connection_id proposal) (sp_name proposal) memory_id;
      durationMs ← gets elapsed;
      mret {| mo_actualAffected := if (removed : bool) then 1 else 0;
              mo_durationMs := durationMs;
              mo_details := [("target_kind", JStr "id"); ("memory_id", JStr memory_id);
                             ("removed", JBool removed)] |}
  | ForgetByScope scope tags =>
      removed ← store_forgetByScope (sp_connection_id proposal) (sp_name proposal)
                  (default [] scope) tags;
      durationMs ← gets elapsed;
      mret {| mo_actualAffected := removed; mo_durationMs := durationMs;
              mo_details := [("target_kind", JStr "scope"); ("scope", json_scope (default [] scope));
                             ("tags", json_tags (default [] tags)); ("removed", JInt removed)] |}
  end.

(** *** The services *)
Section service.
Context {X : Type} `{!MemoryStoreBackend X}.
Context (uuid : nat → string) (fault : nat → option StorageFault).
Context (applyService : bool).

Definition W : Type := World MemoryProposalStatus MemoryForgetPayload X.
Abbreviation method A := (async W MemoryProposalError A).

Definition now' : method Z := sync Date_now.
Definition store {A} (m : M MemoryProposalTable string A) : M W MemoryProposalError A :=
  storage fault MemoryThrown m.
Definition get_row (id : string) : method (option StoredMemoryProposal) :=
  await (store (gets (getMemoryProposal id))).
Definition update (u : UpdateStatusInput MemoryProposalStatus MemoryForgetPayload)
    : method (option StoredMemoryProposal) :=
  await (store (updateMemoryProposalStatus u)).

(** [appendAudit] of both services *)
Definition appendAudit (proposalId : string) (eventType : ProposalAuditEvent)
    (eventPayload : option (list (string * json))) (actor : option string)
    (actorSource : ActorSource) : method unit :=
  await (id ← randomUUID uuid; event_at ← Date_now;
         store (modify (appendMemoryProposalAudit
           {| pa_id := id; pa_proposal_id := proposalId; pa_event_type := eventType;
              pa_event_payload := eventPayload; pa_event_at := event_at; pa_actor := actor;
              pa_actor_source := actorSource |}))).

(** **** Proposing *)
Definition requireReasoning (reasoning : string) : method unit :=
  if js_length (trim reasoning) <? REASONING_MIN_LENGTH
  then raise (MemoryProposalValidationError "reasoning must be at least 20 characters")
  else mret tt.

Definition buildForgetPayload (input : ProposeForgetInput) : method MemoryForgetPayload :=
  match pf_memoryId input with
  | Some (String _ _ as memory_id) => mret (ForgetById memory_id)
  | _ =>
      let scope := default [] (pf_scope input) in
      let hasScope := jm_has "threadId" scope || jm_has "agentId" scope || jm_has "namespace" scope in
      let hasTags := match pf_tags input with Some (_ :: _) => true | _ => false end in
      if negb hasScope && negb hasTags
      then raise (MemoryProposalValidationError
                    "forget requires a memory id, or at least one scope field or tag")
      else mret (ForgetByScope (if hasScope then Some scope else None) (pf_tags input))
  end.

Definition rejectIfDuplicatePending (connectionId storeName : string)
    (payload : MemoryForgetPayload) : method unit :=
  rows ← await (store (gets (listMemoryProposals connectionId (Some [m_pending])
                               (Some storeName) (Some 1000) None)));
  let target := targetDiscriminator payload in
  if js_some (λ p, str_eqb (targetDiscriminator (sp_payload p)) target) rows
  then raise (DuplicatePendingMemoryProposalError storeName)
  else mret tt.

Definition proposeForget (connectionId : string) (input : ProposeForgetInput)
    : method ProposeForgetResult :=
  requireReasoning (pf_reasoning input) ≫= λ _,
  payload ← buildForgetPayload input;
  rejectIfDuplicatePending connectionId (pf_storeName input) payload ≫= λ _,
  reservation ← sync (limiter_reserve PROPOSAL_RATE_LIMIT PROPOSAL_RATE_WINDOW_MS MemoryThrown
                        connectionId);
  if negb (rc_allowed (rr_check reservation))
  then raise (MemoryProposalRateLimitedError (rc_retryAfterMs (rr_check reservation)))
  else
    proposedAt ← now';
    let createInput id :=
      {| ci_id := id; ci_connection_id := connectionId; ci_name := pf_storeName input;
         ci_payload := payload; ci_reasoning := Some (pf_reasoning input);
         ci_proposed_by := pf_proposedBy input; ci_proposed_at := Some proposedAt;
         ci_expires_at := Some (proposedAt + MEMORY_PROPOSAL_DEFAULT_EXPIRY_MS) |} in
    proposal ←
      async_catch (λ err,
          if isUniqueViolation err
          then raise (DuplicatePendingMemoryProposalError (pf_storeName input))
          else match rr_releaseToken reservation with
               | Some token => sync (limiter_release connectionId token) ≫= λ _, raise err
               | None => raise err
               end)
        (await (id ← randomUUID uuid; store (createMemoryProposal proposedAt (createInput id))));
    appendAudit (sp_id proposal) ev_proposed None (pf_proposedBy input) Mcp ≫= λ _,
    mret {| pr_proposal := proposal; pr_warnings := [] |}.

Definition listPending (connectionId : string) (storeName : option string) (limit : option Z)
    : method (list StoredMemoryProposal) :=
  await (store (gets (listMemoryProposals connectionId (Some [m_pending]) storeName
                        (Some (default 50 limit)) None))).

(** **** Applying *)
Definition apply_update (id : string) (status : MemoryProposalStatus) (appliedAt : Z)
    (appliedResult : AppliedResult)
    : UpdateStatusInput MemoryProposalStatus MemoryForgetPayload :=
  {| ui_id := id; ui_expected_status := None; ui_status := status; ui_reviewed_by := None;
     ui_reviewed_at := None; ui_applied_at := Some (Some appliedAt);
     ui_applied_result := Some (Some appliedResult); ui_payload := None |}.
Definition claim_update (id : string)
    : UpdateStatusInput MemoryProposalStatus MemoryForgetPayload :=
  {| ui_id := id; ui_expected_status := Some [m_approved]; ui_status := m_applying;
     ui_reviewed_by := None; ui_reviewed_at := None; ui_applied_at := None;
     ui_applied_result := None; ui_payload := None |}.
Definition review_update (id : string) (status : MemoryProposalStatus) (actor : option string)
    (now : Z) : UpdateStatusInput MemoryProposalStatus MemoryForgetPayload :=
  {| ui_id := id; ui_expected_status := Some [m_pending]; ui_status := status;
     ui_reviewed_by := Some actor; ui_reviewed_at := Some (Some now); ui_applied_at := None;
     ui_applied_result := None; ui_payload := None |}.

(** The dispatch and its outcome, thrown or returned. *)
Definition try_dispatch (proposal : StoredMemoryProposal) : method (string + MemoryApplyOutcome) :=
  await (λ w, match dispatched id proposal (dispatch proposal) w with
              | (Ok outcome, w) => (Ok (inr outcome), w)
              | (Throw err, w) => (Ok (inl err), w)
              end).

Definition is_done (status : MemoryProposalStatus) : bool :=
  match status with m_applied | m_failed => true | _ => false end.

Definition apply (approved : StoredMemoryProposal) (context : MemoryReviewInput)
    : method MemoryApplyResult :=
  if is_done (sp_status approved) then
    mret {| ma_proposal := approved;
            ma_appliedResult := default (no_details (bool_decide (sp_status approved = m_applied)))
                                  (sp_applied_result approved) |}
  else
    claimed ← update (claim_update (sp_id approved));
    match claimed with
    | None =>
        row ← get_row (sp_id approved);
        let current := default approved row in
        mret {| ma_proposal := current; ma_appliedResult := resultFor current |}
    | Some claimed =>
        appliedAt ← now';
        outcome ← try_dispatch claimed;
        match outcome with
        | inl message =>
            let appliedResult :=
              {| ar_success := false; ar_error := Some message;
                 ar_details := Some [("proposal_id", JStr (sp_id approved))] |} in
            updated ← update (apply_update (sp_id approved) m_failed appliedAt appliedResult);
            async_catch (λ _, mret tt : method unit)
              (appendAudit (sp_id approved) ev_failed (Some [("error", JStr message)])
                 (mr_actor context) (mr_actorSource context)) ≫= λ _,
            mret {| ma_proposal := default claimed updated; ma_appliedResult := appliedResult |}
        | inr outcome =>
            let details :=
              js_spread (mo_details outcome)
                [("actualAffected", JInt (mo_actualAffected outcome));
                 ("durationMs", JInt (mo_durationMs outcome))] in
            let appliedResult :=
              {| ar_success := true; ar_error := None; ar_details := Some details |} in
            updated ←
              async_catch (λ _, mret None : method (option StoredMemoryProposal))
                (updated ← update (apply_update (sp_id approved) m_applied appliedAt appliedResult);
                 async_catch (λ _, mret tt : method unit)
                   (appendAudit (sp_id approved) ev_applied (Some details)
                      (mr_actor context) (mr_actorSource context)) ≫= λ _,
                 mret updated);
            mret {| ma_proposal := default claimed updated; ma_appliedResult := appliedResult |}
        end
    end.

(** **** Reviewing *)
Definition transitionToApproved (input : MemoryReviewInput) : method StoredMemoryProposal :=
  existing ← get_row (mr_proposalId input);
  match existing with
  | None => raise (MemoryProposalNotFoundError (mr_proposalId input))
  | Some existing =>
      match sp_status existing with
      | m_approved | m_applying | m_applied | m_failed => mret existing
      | m_rejected | m_expired => raise (MemoryProposalNotPendingError (mr_proposalId input))
      | m_pending =>
          now ← now';
          if sp_expires_at existing <=? now
          then raise (MemoryProposalExpiredError (mr_proposalId input))
          else
            reviewedAt ← now';
            updated ← update (review_update (mr_proposalId input) m_approved (mr_actor input) reviewedAt);
            match updated with
            | None => raise (MemoryProposalNotPendingError (mr_proposalId input))
            | Some updated =>
                appendAudit (mr_proposalId input) ev_approved None (mr_actor input)
                  (mr_actorSource input) ≫= λ _,
                mret updated
            end
      end
  end.

Definition approve (input : MemoryReviewInput) : method MemoryApplyResult :=
  approved ← transitionToApproved input;
  if negb applyService then
    mret {| ma_proposal := approved;
            ma_appliedResult :=
              default {| ar_success := false; ar_error := Some "apply unavailable";
                         ar_details := None |} (sp_applied_result approved) |}
  else apply approved input.

Definition requireFreshPending (proposalId : string) : method StoredMemoryProposal :=
  existing ← get_row proposalId;
  match existing with
  | None => raise (MemoryProposalNotFoundError proposalId)
  | Some existing =>
      if bool_decide (sp_status existing ≠ m_pending)
      then raise (MemoryProposalNotPendingError proposalId)
      else
        now ← now';
        if sp_expires_at existing <=? now
        then raise (MemoryProposalExpiredError proposalId)
        else mret existing
  end.

Definition reject (input : MemoryReviewInput) (reason : option string)
    : method StoredMemoryProposal :=
  requireFreshPending (mr_proposalId input) ≫= λ _,
  reviewedAt ← now';
  updated ← update (review_update (mr_proposalId input) m_rejected (mr_actor input) reviewedAt);
  match updated with
  | None => raise (MemoryProposalNotPendingError (mr_proposalId input))
  | Some updated =>
      appendAudit (mr_proposalId input) ev_rejected
        (if truthy_string reason then Some (json_opt "reason" JStr reason) else None)
        (mr_actor input) (mr_actorSource input) ≫= λ _,
      mret updated
  end.

(** **** Expiry *)
Definition expireProposals (now : Z) (actorSource : ActorSource) : method Z :=
  rows ← await (store (λ t, let '(rows, t) := expireMemoryProposalsBefore now t in (Ok rows, t)));
  async_each rows (λ proposal,
    async_catch (λ _, mret tt : method unit)
      (appendAudit (sp_id proposal) ev_expired
         (Some [("expires_at", JInt (sp_expires_at proposal))]) (Some "system") actorSource)) ≫= λ _,
  mret (js_len rows).

(** The tick of the cron. *)
Definition tick : method Z :=
  now ← now'; expireProposals now System.
End service.

(** The requests the service is sent. *)
Inductive MemoryRequest :=
  | ProposeForget (connectionId : string) (input : ProposeForgetInput)
  | ApproveForget (input : MemoryReviewInput)
  | RejectForget (input : MemoryReviewInput) (reason : option string)
  | MemoryTick
  | ListPending (connectionId : string) (storeName : option string) (limit : option Z)
  | GetMemoryProposal (proposalId : string).

Inductive MemoryResponse :=
  | ForgetProposed (result : ProposeForgetResult)
  | ForgetApproved (result : MemoryApplyResult)
  | ForgetRejected (proposal : StoredMemoryProposal)
  | MemoryTicked (expired : Z)
  | PendingListed (proposals : list StoredMemoryProposal)
  | GotProposal (proposal : option StoredMemoryProposal).

Definition handle {X} `{!MemoryStoreBackend X} (uuid : nat → string)
    (fault : nat → option StorageFault) (applyService : bool) (request : MemoryRequest)
    : async (W (X:=X)) MemoryProposalError MemoryResponse :=
  match request with
  | ProposeForget connectionId input =>
      r ← proposeForget uuid fault connectionId input; mret (ForgetProposed r)
  | ApproveForget input => r ← approve uuid fault applyService input; mret (ForgetApproved r)
  | RejectForget input reason => r ← reject uuid fault input reason; mret (ForgetRejected r)
  | MemoryTick => n ← tick uuid fault; mret (MemoryTicked n)
  | ListPending connectionId storeName limit =>
      r ← listPending fault connectionId storeName limit; mret (PendingListed r)
  | GetMemoryProposal id => r ← get_row fault id; mret (GotProposal r)
  end.

(** ** Specification *)
Inductive MemoryMove :=
  | Request (request : MemoryRequest)
  | Resume (i : nat)
  | Wait (ms : Z).

Definition memory_move {X} `{!MemoryStoreBackend X} (uuid : nat → string)
    (fault : nat → option StorageFault) (applyService : bool) (m : MemoryMove)
    : move (W (X:=X)) MemoryProposalError MemoryResponse :=
  match m with
  | Request request => Call (handle uuid fault applyService request)
  | Resume i => Continue i
  | Wait ms => Outside (pass ms)
  end.

Definition memory_run {X} `{!MemoryStoreBackend X} (uuid : nat → string)
    (fault : nat → option StorageFault) (applyService : bool) (moves : list MemoryMove)
    (now : Z) (x : X) : pool (W (X:=X)) MemoryProposalError MemoryResponse :=
  pool_run (memory_move uuid fault applyService <$> moves) (start_world now x).

(** The life of a proposal. *)
Inductive memory_edge : MemoryProposalStatus → MemoryProposalStatus → Prop :=
  | m_edge_approve : memory_edge m_pending m_approved
  | m_edge_reject : memory_edge m_pending m_rejected
  | m_edge_expire : memory_edge m_pending m_expired
  | m_edge_claim : memory_edge m_approved m_applying
  | m_edge_apply : memory_edge m_applying m_applied
  | m_edge_fail : memory_edge m_applying m_failed.

(** How far a proposal has got. *)
Inductive phase := Before | Applying | Done.
#[export] Instance phase_eq_dec : EqDecision phase.
Proof. solve_decision. Defined.
Definition phase_of (s : MemoryProposalStatus) : phase :=
  match s with
  | m_applying => Applying
  | m_applied | m_failed => Done
  | _ => Before
  end.

(** What a request holds: nothing, the claim on a proposal, or the claim after its
    dispatch. *)
Inductive claim := Idle | Claimed (id : string) | Sent (id : string).

Section protocol.
Context {X : Type}.
Implicit Types (w : W (X:=X)) (t : claim).

Definition phase_at w (id : string) : phase :=
  match getMemoryProposal id (w_table w) with Some p => phase_of (sp_status p) | None => Before end.

(** How often a proposal was dispatched. *)
Definition dispatches w (id : string) : nat :=
  length (js_filter (λ p, str_eqb (sp_id p) id) (w_dispatched w)).

Definition holds t (id : string) : nat :=
  match t with
  | Idle => 0
  | Claimed id' | Sent id' => if str_eqb id' id then 1 else 0
  end.
Definition may t (id : string) : nat :=
  match t with Claimed id' => if str_eqb id' id then 1 else 0 | _ => 0 end.
Definition sent t (id : string) : nat :=
  match t with Sent id' => if str_eqb id' id then 1 else 0 | _ => 0 end.
Definition is_applying w id : nat := match phase_at w id with Applying => 1 | _ => 0 end.
Definition is_past w id : nat := match phase_at w id with Before => 0 | _ => 1 end.
Definition is_ended w id : nat := match phase_at w id with Done => 1 | _ => 0 end.

Context (uuid : nat → string).
Definition memory_ok : W (X:=X) → Prop :=
  world_ok uuid m_pending memory_target (λ _, true).
Definition memory_step : W (X:=X) → W (X:=X) → Prop :=
  world_step uuid m_pending memory_target (λ _, true) memory_edge (=).

(** A request that holds a claim finds the proposal applying. *)
Definition claim_ok t w : Prop :=
  memory_ok w ∧ ∀ id, (holds t id ≤ is_applying w id)%nat.

(** A segment gives up a claim with the phase it stands for, takes one with a claim
    of the row, dispatches what it has claimed and has not dispatched, and ends what
    it has dispatched. *)
Definition claim_step t w t' w' : Prop :=
  memory_step w w'
  ∧ (memory_ok w → ∀ id,
       (holds t' id + is_applying w id ≤ holds t id + is_applying w' id
        ∧ dispatches w' id + may t' id + is_past w id
          ≤ dispatches w id + may t id + is_past w' id
        ∧ dispatches w id + is_ended w' id + sent t' id
          ≤ dispatches w' id + is_ended w id + sent t id)%nat).

(** A segment that neither claims, dispatches nor ends anything. *)
Definition quiet w w' : Prop :=
  memory_step w w'
  ∧ (memory_ok w → w_dispatched w' = w_dispatched w ∧ ∀ id, phase_at w' id = phase_at w id).

(** The requests together: at most one holds a proposal, and only while it is
    applying; a proposal was or may be dispatched at most once, and not before it is
    claimed; one that has ended was dispatched. *)
Definition claims_inv (ts : list claim) w : Prop :=
  memory_ok w ∧ ∀ id,
    (sum_list_with (λ t, holds t id) ts ≤ is_applying w id
     ∧ dispatches w id + sum_list_with (λ t, may t id) ts ≤ is_past w id
     ∧ is_ended w id + sum_list_with (λ t, sent t id) ts ≤ dispatches w id)%nat.
End protocol.

(** *** Samples *)
Definition sample_uuid (n : nat) : string := "id" +:+ pretty n.
#[export] Instance sample_uuid_inj : Inj (=) (=) sample_uuid.
Proof. intros m n H. apply (inj (String.append "id")) in H. by apply (inj pretty). Qed.

(** A store in which every memory is there. *)
#[export] Instance sample_store : MemoryStoreBackend unit := {|
  store_forget := λ _ _ _, mret true;
  store_forgetByScope := λ _ _ _ _, mret 2;
  elapsed := λ _, 7
|}.
Definition sample_forget : ProposeForgetInput :=
  {| pf_storeName := "notes"; pf_reasoning := "the user asked to forget the address";
     pf_memoryId := Some "m1"; pf_scope := None; pf_tags := None; pf_proposedBy := None |}.
Definition sample_review (actor : string) : MemoryReviewInput :=
  {| mr_proposalId := "id0"; mr_actor := Some actor; mr_actorSource := Ui |}.

(** An agent proposes, and two people approve at the same time. *)
Definition sample_propose : list MemoryMove :=
  Request (ProposeForget "c" sample_forget) :: replicate 3 (Resume 0).
Definition sample_moves : list MemoryMove :=
  sample_propose
  ++ [Request (ApproveForget (sample_review "ann")); Resume 1; Resume 1;
      Request (ApproveForget (sample_review "bob"))]
  ++ [Resume 1; Resume 2; Resume 1; Resume 2; Resume 1; Resume 2; Resume 1; Resume 2; Resume 1; Resume 2].
(** The storage loses a call. *)
Definition lost_call (n : nat) : nat → option StorageFault :=
  λ m, if bool_decide (m = n) then Some (Lost "connection lost") else None.
(** The storage loses the answer's record of an application: the call that would
    mark it applied. *)
Definition stuck_moves : list MemoryMove :=
  sample_propose ++ Request (ApproveForget (sample_review "ann")) :: replicate 6 (Resume 1).

(** ** Lemmas *)
Lemma sum_insert {A} (f : A → nat) (l : list A) i x y :
  l !! i = Some x →
  (sum_list_with f (<[i := y]> l) + f x = sum_list_with f l + f y)%nat.
Proof.
  revert i. induction l as [|z l IH]; intros [|i] H; simplify_eq/=; [lia|].
  specialize (IH i H). lia.
Qed.

Lemma sum_lookup {A} (f : A → nat) (l : list A) i x :
  l !! i = Some x → (f x ≤ sum_list_with f l)%nat.
Proof.
  revert i. induction l as [|z l IH]; intros [|i] H; simplify_eq/=; [lia|].
  specialize (IH i H). lia.
Qed.

Section claims.
Context {X : Type} `{!MemoryStoreBackend X}.
Context (uuid : nat → string) `{!Inj (=) (=) uuid} (fault : nat → option StorageFault).
Context (applyService : bool).
Implicit Types (w : W (X:=X)) (t : claim).
Abbreviation mstep := (memory_step (X:=X) uuid).
Abbreviation cstep := (claim_step (X:=X) uuid).
Abbreviation calm := (quiet (X:=X) uuid).

#[local] Instance mstep_preorder : PreOrder mstep.
Proof using Type*. unfold memory_step. apply _. Qed.

Lemma mstep_ok w w' : memory_ok uuid w → mstep w w' → memory_ok uuid w'.
Proof using Type*. intros Hw (_ & _ & H). by apply H. Qed.

#[local] Instance calm_preorder : PreOrder calm.
Proof using Type*.
  split.
  - intros w. by split.
  - intros w w' w'' [Hs H] [Hs' H']. split; [by etrans|]. intros Hw.
    destruct (H Hw) as [Hd Hp]. destruct (H' (mstep_ok _ _ Hw Hs)) as [Hd' Hp'].
    split; [by rewrite Hd'|]. intros id. by rewrite Hp'.
Qed.

Lemma claim_trans t w t' w' t'' w'' :
  claim_ok uuid t w → cstep t w t' w' → cstep t' w' t'' w'' → cstep t w t'' w''.
Proof using Type*.
  intros _ [Hs H] [Hs' H']. split; [by etrans|]. intros Hw id.
  pose proof (H Hw id) as (? & ? & ?). pose proof (H' (mstep_ok _ _ Hw Hs) id) as (? & ? & ?). lia.
Qed.

Lemma claim_keeps t w t' w' : claim_ok uuid t w → cstep t w t' w' → claim_ok uuid t' w'.
Proof using Type*.
  intros [Hw Ht] [Hs H]. split; [by eapply mstep_ok|]. intros id.
  pose proof (H Hw id) as (? & _ & _). specialize (Ht id). lia.
Qed.

Lemma claim_calm t w w' : calm w w' → cstep t w t w'.
Proof using Type*.
  intros [Hs H]. split; [done|]. intros Hw id. destruct (H Hw) as [Hd Hp].
  unfold dispatches, is_applying, is_past, is_ended. rewrite Hd, Hp. lia.
Qed.

Lemma claims_inv_ok ts w i t : claims_inv uuid ts w → ts !! i = Some t → claim_ok uuid t w.
Proof using Type*.
  intros [Hw H] Hi. split; [done|]. intros id. destruct (H id) as (Hh & _ & _).
  pose proof (sum_lookup (λ t, holds t id) ts i t Hi). cbn in *. lia.
Qed.

Lemma claims_inv_step ts w i t t' w' :
  claims_inv uuid ts w → ts !! i = Some t → cstep t w t' w' → claims_inv uuid (<[i := t']> ts) w'.
Proof using Type*.
  intros [Hw H] Hi [Hs Hc]. split; [by eapply mstep_ok|]. intros id.
  destruct (H id) as (H1 & H2 & H3). destruct (Hc Hw id) as (C1 & C2 & C3).
  pose proof (sum_insert (λ t, holds t id) ts i t t' Hi) as S1.
  pose proof (sum_insert (λ t, may t id) ts i t t' Hi) as S2.
  pose proof (sum_insert (λ t, sent t id) ts i t t' Hi) as S3. cbn beta in *. lia.
Qed.

Lemma claims_inv_call ts w : claims_inv uuid ts w → claims_inv uuid (ts ++ [Idle]) w.
Proof using Type*.
  intros [Hw H]. split; [done|]. intros id. rewrite !sum_list_with_app. cbn. specialize (H id). lia.
Qed.

Lemma claims_inv_pass ts w ms : claims_inv uuid ts w → claims_inv uuid ts (pass ms w).
Proof using Type*.
  intros [Hw H]. split; [|exact H]. eapply mstep_ok; [done|].
  apply step_pass; apply _.
Qed.

Lemma claims_inv_start now (x : X) : claims_inv uuid [] (start_world now x).
Proof using Type*.
  split; [apply start_ok|]. intros id. cbn.
  unfold is_applying, is_past, is_ended, dispatches, phase_at, getMemoryProposal, get_proposal. cbn. lia.
Qed.

(** *** Calm segments *)
Lemma calm_same w w' :
  w_table w' = w_table w → w_ids w' = w_ids w → w_now w ≤ w_now w' →
  w_dispatched w' = w_dispatched w → calm w w'.
Proof using Type*.
  intros Ht Hi Hn Hd. split; [apply step_same; [apply _|apply _|done..]|]. intros _.
  split; [done|]. intros id. unfold phase_at. by rewrite Ht.
Qed.

Lemma store_frame {A} (m : M MemoryProposalTable string A) w :
  let w' := (store fault m w).2 in
  w_dispatched w' = w_dispatched w
  ∧ (w_table w' = w_table w ∨ w_table w' = (m (w_table w)).2).
Proof using Type.
  unfold store, storage. destruct (m (w_table w)) as [r t].
  destruct (fault (w_calls w)) as [[e|e]|]; cbn; auto.
Qed.

Definition table_phase (t : MemoryProposalTable) (id : string) : phase :=
  match getMemoryProposal id t with Some p => phase_of (sp_status p) | None => Before end.

Lemma calm_store {A} (m : M MemoryProposalTable string A) :
  (∀ w, table_step (X:=X) uuid m_pending memory_target (λ _, true) memory_edge (=) (w_ids w)
          (w_table w) (m (w_table w)).2) →
  (∀ (t : MemoryProposalTable) id, table_phase (m t).2 id = table_phase t id) →
  guarantees calm (await (store fault m)).
Proof using Type*.
  intros Hm Hp. apply guarantees_await; [apply _|]. intros w.
  destruct (store_frame m w) as [Hd Ht].
  split; [apply step_storage; [apply _|apply _|apply Hm]|]. intros _. split; [done|].
  intros id. unfold phase_at. fold (table_phase (w_table w) id). rewrite <-(Hp (w_table w) id).
  unfold table_phase. destruct Ht as [Ht|Ht]; rewrite Ht; [|done].
  symmetry. apply Hp.
Qed.

Lemma calm_read {A} (f : MemoryProposalTable → A) : guarantees calm (await (store fault (gets f))).
Proof using Type*. apply calm_store; [|done]. intros w. apply table_step_refl; apply _. Qed.

Lemma calm_get id : guarantees calm (get_row fault id).
Proof using Type*. apply calm_read. Qed.

Lemma calm_now : guarantees calm (now' (X:=X)).
Proof using Type*. by apply guarantees_sync. Qed.

Lemma calm_count_id w : calm w (count_id w).
Proof using Type*. split; [apply step_count_id; apply _|]. by intros _. Qed.

Lemma calm_audit a b c d e : guarantees calm (appendAudit (X:=X) uuid fault a b c d e).
Proof using Type*.
  apply guarantees_await; [apply _|]. intros w. unfold mbind, M_bind, randomUUID, Date_now, gets.
  cbv beta iota. etrans; [apply calm_count_id|].
  match goal with |- calm ?w1 ((store _ ?m _).2) =>
    pose proof (guarantees_run calm (await (store fault m)) w1) as H end.
  rewrite run_await in H. apply H. apply calm_store; [|done].
  intros w'. apply table_step_audit; apply _.
Qed.

Lemma table_phase_update (u : UpdateStatusInput MemoryProposalStatus MemoryForgetPayload)
    (t : MemoryProposalTable) id :
  (∀ p, getMemoryProposal (ui_id u) t = Some p →
     (∀ allowed, ui_expected_status u = Some allowed → sp_status p ∈ allowed) →
     phase_of (ui_status u) = phase_of (sp_status p)) →
  table_phase (updateMemoryProposalStatus u t).2 id = table_phase t id.
Proof using Type.
  intros Hp. unfold table_phase, updateMemoryProposalStatus, getMemoryProposal in *.
  destruct (update_status _ u t) as [r t'] eqn:E. cbn.
  apply update_status_spec in E as [(_ & -> & ?)|[(p & l & _ & -> & _)|(p & _ & Hg & -> & Ha & _)]];
    [done..|]. rewrite get_set. case_decide; [|done]. subst. rewrite Hg. by apply Hp.
Qed.

Lemma calm_review id status actor now :
  memory_edge m_pending status →
  guarantees calm (update (X:=X) fault (review_update id status actor now)).
Proof using Type*.
  intros He. apply calm_store.
  - intros w. apply table_step_update; [apply _|apply _| | |done].
    + cbn. intros ->. inversion He.
    + intros p _ Ha. specialize (Ha _ eq_refl). apply list_elem_of_singleton in Ha as ->.
      by apply rtc_once.
  - intros t i. apply table_phase_update. intros p _ Ha. specialize (Ha _ eq_refl).
    apply list_elem_of_singleton in Ha as ->. cbn. by inversion He.
Qed.

Lemma calm_expire now :
  guarantees calm (await (store fault (λ t : MemoryProposalTable, let '(rows, t) := expireMemoryProposalsBefore now t in
                                            (Ok rows : outcome string _, t)))).
Proof using Type*.
  assert (Hp : ∀ t : MemoryProposalTable, (let '(rows, t) := expireMemoryProposalsBefore now t in
                     (Ok rows : outcome string (list StoredMemoryProposal), t)).2
                    = (expire_before m_pending m_expired now t).2).
  { intros t. unfold expireMemoryProposalsBefore. by destruct (expire_before _ _ _ _). }
  apply calm_store.
  - intros w. rewrite Hp. apply table_step_expire; [apply _|apply _|done|constructor].
  - intros t id. rewrite Hp. unfold table_phase, getMemoryProposal. rewrite expire_before_get.
    destruct (get_proposal id t) as [p|]; [|done]. cbn. unfold expire_row, expirable, has_status.
    case_match eqn:E; [|done]. js_bools. cbn. by rewrite H.
Qed.

Lemma calm_create proposedAt (input : string → CreateProposalInput MemoryForgetPayload) :
  (∀ id, ci_id (input id) = id) →
  guarantees calm
    (await (id ← randomUUID uuid; store fault (createMemoryProposal proposedAt (input id)))).
Proof using Type*.
  intros Hi. apply guarantees_await; [apply _|]. intros w.
  assert (Hs : mstep w ((randomUUID uuid ≫= λ id, store fault (createMemoryProposal proposedAt (input id))) w).2).
  { apply step_create; [apply _|apply _| |apply Hi|done].
    intros q k. unfold memory_target, memory_clash, new_proposal. cbn. intros [= <-] [= -> -> ->].
    unfold str_eqb. by rewrite !bool_decide_true. }
  split; [exact Hs|]. intros Hw. unfold mbind, M_bind, randomUUID in *. cbv beta iota in *.
  destruct (store_frame (createMemoryProposal proposedAt (input (uuid (w_ids w))))
    (count_id w)) as [Hd Ht].
  split; [done|]. intros id. unfold phase_at. cbn [w_table count_id] in Ht.
  destruct Ht as [Ht|Ht]; rewrite Ht; [done|]. unfold createMemoryProposal.
  destruct (create_proposal _ _ _ _ _ _ _) as [r t'] eqn:Ec. cbn.
  apply create_proposal_spec in Ec as [(_ & -> & _)|(p & _ & -> & -> & _)]; [done|].
  unfold getMemoryProposal. rewrite get_set. case_decide as Hid; [|done]. cbn in *.
  destruct (get_proposal id (w_table w)) as [q|] eqn:Hq; [|done]. exfalso.
  destruct Hw as [_ Hissued _ _]. apply Hissued in Hq as (n & Hn & ->).
  rewrite Hi in Hid. apply (inj uuid) in Hid. lia.
Qed.

(** Goes through a method segment by segment. *)
Ltac calm :=
  repeat first
    [ progress cbv zeta
    | apply calm_audit | apply calm_now | apply calm_get | apply calm_read | apply calm_expire
    | apply calm_review; constructor
    | apply calm_create; reflexivity
    | apply guarantees_ret; apply _ | apply guarantees_raise; apply _
    | apply guarantees_sync; intros ?;
      first [ unfold limiter_reserve; destruct (reserve _ _ _ _ _ _) | idtac ]; by apply calm_same
    | apply guarantees_bind; [apply _| |intros ?]
    | apply guarantees_catch; [apply _| |intros ?]
    | apply guarantees_each; [apply _|intros ?]
    | match goal with
      | |- guarantees _ (match ?x with _ => _ end) => destruct x eqn:?
      end ].

Lemma calm_propose connectionId input :
  guarantees calm (proposeForget (X:=X) uuid fault connectionId input).
Proof using Type*.
  unfold proposeForget, requireReasoning, buildForgetPayload, rejectIfDuplicatePending. calm.
Qed.

Lemma calm_reject input reason : guarantees calm (reject (X:=X) uuid fault input reason).
Proof using Type*. unfold reject, requireFreshPending. calm. Qed.

Lemma calm_tick : guarantees calm (tick (X:=X) uuid fault).
Proof using Type*. unfold tick, expireProposals. calm. Qed.

Lemma calm_transition input : guarantees calm (transitionToApproved (X:=X) uuid fault input).
Proof using Type*. unfold transitionToApproved. calm. Qed.

(** *** The segments of an application *)
Abbreviation csim := (simulates (claim_ok (X:=X) uuid) cstep).

Lemma sim_calm {A} (Q : outcome MemoryProposalError A → claim → Prop) t (m : async W _ A) :
  guarantees calm m → (∀ r, Q r t) → csim Q t m.
Proof using Type*.
  intros Hm HQ. induction m as [run IH] using async_rect_. intros w Hw. cbn in Hm.
  specialize (Hm w). specialize (IH w). destruct (run w) as [[r|m'] w'].
  - exists t. split; [by apply claim_calm|done].
  - destruct Hm as [Hc Hm]. exists t. split; [by apply claim_calm|]. by eapply IH.
Qed.

Lemma sim_bind {A B} (Q : outcome MemoryProposalError A → claim → Prop)
    (Q' : outcome MemoryProposalError B → claim → Prop) t m k :
  csim Q t m → (∀ a t, Q (Ok a) t → csim Q' t (k a)) →
  (∀ e t, Q (Throw e) t → Q' (Throw e) t) → csim Q' t (m ≫= k).
Proof using Type*. apply simulates_bind; [apply claim_trans|apply claim_keeps]. Qed.

Lemma sim_catch {A} (Q : outcome MemoryProposalError A → claim → Prop)
    (Q' : outcome MemoryProposalError A → claim → Prop) t (m : async W MemoryProposalError A) h :
  csim Q t m → (∀ a t, Q (Ok a) t → Q' (Ok a) t) →
  (∀ e t, Q (Throw e) t → csim Q' t (h e)) → csim Q' t (async_catch h m).
Proof using Type*. apply simulates_catch; [apply claim_trans|apply claim_keeps]. Qed.

Lemma sim_await {A} (Q : outcome MemoryProposalError A → claim → Prop) t (m : M W _ A) :
  (∀ w, claim_ok uuid t w → ∃ t', cstep t w t' (m w).2 ∧ Q (m w).1 t') → csim Q t (await m).
Proof using Type*.
  intros H. apply simulates_await. intros w Hw. destruct (H w Hw) as (t' & ? & ?).
  exists t'. split; [done|]. intros w' _. exists t'. split; [|done]. by apply claim_calm.
Qed.

Lemma sim_now {A} Q t (k : Z → async W MemoryProposalError A) :
  (∀ now, csim Q t (k now)) → csim Q t (now' (X:=X) ≫= k).
Proof using Type*.
  intros Hk w Hw. cbn. specialize (Hk (w_now w)). destruct (k (w_now w)) as [run]. exact (Hk w Hw).
Qed.

(** An update that takes effect moves the phase of its row only. *)
Lemma update_phase (u : UpdateStatusInput MemoryProposalStatus MemoryForgetPayload) w p i :
  getMemoryProposal (ui_id u) (w_table w) = Some p →
  table_phase (with_proposals (jm_set (ui_id u) (update_row u p)) (w_table w)) i
  = if decide (i = ui_id u) then phase_of (ui_status u) else phase_at w i.
Proof using Type.
  intros Hg. unfold table_phase, phase_at, getMemoryProposal. rewrite get_set. by case_decide.
Qed.

(** A call of the storage that updates a row: nothing happened, or the row moved. *)
Lemma update_cases u w :
  let r := (store fault (updateMemoryProposalStatus u) w).1 in
  let w' := (store fault (updateMemoryProposalStatus u) w).2 in
  w_dispatched w' = w_dispatched w
  ∧ ((w_table w' = w_table w ∧ ∀ c, r ≠ Ok (Some c))
     ∨ ∃ p, getMemoryProposal (ui_id u) (w_table w) = Some p
       ∧ (∀ allowed, ui_expected_status u = Some allowed → sp_status p ∈ allowed)
       ∧ (∀ i, phase_at w' i = if decide (i = ui_id u) then phase_of (ui_status u) else phase_at w i)
       ∧ ∀ c, r = Ok (Some c) → sp_id c = sp_id p).
Proof using Type.
  cbv zeta. destruct (store_frame (updateMemoryProposalStatus u) w) as [Hd _]. split; [exact Hd|].
  unfold store, storage, updateMemoryProposalStatus.
  destruct (update_status _ u (w_table w)) as [r t'] eqn:E.
  apply update_status_spec in E as [(-> & -> & _)|[(p & l & -> & -> & _)|(p & -> & Hg & -> & Ha & _)]];
    [left; destruct (fault (w_calls w)) as [[e|e]|]; done..|].
  destruct (fault (w_calls w)) as [[e|e]|]; [by left| |]; right; exists p;
    (split_and!; [done|done| |]); try (intros i; by apply update_phase).
  - done.
  - intros c [= <-]. done.
Qed.

Lemma same_claims t w w' :
  mstep w w' → w_table w' = w_table w → w_dispatched w' = w_dispatched w → cstep t w t w'.
Proof using Type*.
  intros Hs Ht Hd. apply claim_calm. split; [done|]. intros _. split; [done|].
  intros id. unfold phase_at. by rewrite Ht.
Qed.

Lemma sim_claim id :
  csim (λ r t, match r with Ok (Some c) => t = Claimed id ∧ sp_id c = id | _ => t = Idle end) Idle
    (update (X:=X) fault (claim_update id)).
Proof using Type*.
  apply sim_await. intros w [Hw Hcl].
  assert (Hs : mstep w (store fault (updateMemoryProposalStatus (claim_update id)) w).2).
  { apply step_storage; [apply _|apply _|].
    apply table_step_update; [apply _|apply _|done| |done].
    intros p _ Ha. specialize (Ha _ eq_refl). apply list_elem_of_singleton in Ha as ->.
    apply rtc_once. constructor. }
  destruct (update_cases (claim_update id) w) as [Hd Hcases].
  destruct (store fault _ w) as [r w'].
  destruct Hcases as [[Ht Hr]|(p & Hg & Ha & Hp & Hr)]; cbn [fst snd] in *.
  { exists Idle. split; [by apply same_claims|]. destruct r as [[c|]|e]; [by destruct (Hr c)|done..]. }
  specialize (Ha _ eq_refl). apply list_elem_of_singleton in Ha.
  assert (Hb : phase_at w id = Before) by (unfold phase_at; cbn in Hg; by rewrite Hg, Ha).
  assert (Hid : sp_id p = id) by apply (keyed_get sp_id _ _ _ (wo_keyed _ _ _ _ _ Hw) Hg).
  assert (Hstep : ∀ t', t' = Idle ∨ t' = Claimed id → cstep Idle w t' w').
  { intros t' Ht'. split; [done|]. intros _ i. unfold is_applying, is_past, is_ended, dispatches.
    rewrite Hd, Hp. cbn. case_decide as Hi; [subst i; rewrite Hb|];
      destruct Ht' as [-> | ->]; cbn; unfold str_eqb;
      rewrite ?bool_decide_true by done; rewrite ?bool_decide_false by done; lia. }
  destruct r as [[c|]|e].
  - exists (Claimed id). split; [by apply Hstep; right|]. split; [done|]. by rewrite (Hr c).
  - exists Idle. split; [by apply Hstep; left|done].
  - exists Idle. split; [by apply Hstep; left|done].
Qed.

Lemma sim_dispatch id (c : StoredMemoryProposal) :
  sp_id c = id →
  csim (λ r t, ran_ok r = true ∧ t = Sent id) (Claimed id) (try_dispatch (X:=X) c).
Proof using Type*.
  intros Hid. apply sim_await. intros w Hw. exists (Sent id).
  assert (Hs : ∀ x, cstep (Claimed id) w (Sent id) (set_outside x (log_dispatch c w))).
  { intros x. split; [by apply step_same; [apply _|apply _|..]|]. intros _ i.
    assert (Hn : dispatches (set_outside x (log_dispatch c w)) i
                 = (dispatches w i + if str_eqb id i then 1 else 0)%nat).
    { unfold dispatches. cbn. rewrite js_filter_app, length_app. cbn. rewrite Hid.
      by destruct (str_eqb id i). }
    rewrite Hn. unfold is_applying, is_past, is_ended, phase_at. cbn. destruct (str_eqb id i); lia. }
  unfold dispatched, outside.
  by destruct (dispatch c (w_outside (log_dispatch c w))) as [[o|e] x]; split; [apply Hs| |apply Hs|].
Qed.

Lemma sim_finish id status at_ result :
  status = m_applied ∨ status = m_failed →
  csim (λ _ t, t = Idle) (Sent id) (update (X:=X) fault (apply_update id status at_ result)).
Proof using Type*.
  intros Hst. apply sim_await. intros w [Hw Hcl].
  assert (Happ : phase_at w id = Applying).
  { specialize (Hcl id). cbn in Hcl. unfold str_eqb, is_applying in Hcl.
    rewrite bool_decide_true in Hcl by done. by destruct (phase_at w id); [lia| |lia]. }
  assert (Hrow : ∀ p, getMemoryProposal id (w_table w) = Some p → sp_status p = m_applying).
  { intros p Hg. unfold phase_at in Happ. rewrite Hg in Happ. by destruct (sp_status p). }
  assert (Hs : mstep w (store fault (updateMemoryProposalStatus (apply_update id status at_ result)) w).2).
  { apply step_storage; [apply _|apply _|].
    apply table_step_update; [apply _|apply _|cbn; by destruct Hst as [-> | ->]| |done].
    intros p Hg _. rewrite (Hrow p Hg). apply rtc_once. destruct Hst as [-> | ->]; constructor. }
  exists Idle. split; [|done].
  destruct (update_cases (apply_update id status at_ result) w) as [Hd Hcases].
  destruct (store fault _ w) as [r w']. cbn [fst snd] in *.
  split; [done|]. intros _ i. unfold is_applying, is_past, is_ended, dispatches. rewrite Hd.
  destruct Hcases as [[Ht _]|(p & _ & _ & Hp & _)].
  - unfold phase_at. rewrite Ht. cbn. lia.
  - rewrite Hp. cbn. unfold str_eqb. case_decide as Hi.
    + subst i. rewrite Happ, bool_decide_true by done. destruct Hst as [-> | ->]; cbn; lia.
    + rewrite bool_decide_false by done. lia.
Qed.

Lemma sim_apply approved context :
  csim (λ _ t, t = Idle) Idle (apply (X:=X) uuid fault approved context).
Proof using Type*.
  unfold apply. destruct (is_done _); [by apply sim_calm; [calm|]|].
  eapply sim_bind; [apply sim_claim| |by intros].
  intros [c|] t; [|intros ->; by apply sim_calm; [calm|]]. intros [-> Hid].
  apply sim_now. intros appliedAt.
  eapply sim_bind; [by apply (sim_dispatch (sp_id approved))| |by intros e t' []].
  intros [message|outcome] t [_ ->].
  - eapply sim_bind; [apply sim_finish; by right| |by intros].
    intros r t ->. apply sim_calm; [calm|done].
  - eapply sim_bind with (Q := λ _ t, t = Idle); [|intros r t ->; by apply sim_calm; [calm|]|by intros].
    apply sim_catch with (Q := λ _ t, t = Idle); [|by intros|intros e t ->; by apply sim_calm; [calm|]].
    eapply sim_bind; [apply sim_finish; by left| |by intros].
    intros r t ->. apply sim_calm; [calm|done].
Qed.

Lemma sim_handle request :
  csim (λ _ t, t = Idle) Idle (handle (X:=X) uuid fault applyService request).
Proof using Type*.
  destruct request; cbn [handle].
  - apply sim_calm; [|done]. apply guarantees_bind; [apply _|apply calm_propose|]. intros; calm.
  - apply sim_bind with (Q := λ _ t, t = Idle); [|intros r t ->; by apply sim_calm; [calm|]|done].
    unfold approve.
    apply sim_bind with (Q := λ _ t, t = Idle); [by apply sim_calm; [apply calm_transition|]| |done].
    intros approved t ->. destruct applyService; cbn [negb]; [|by apply sim_calm; [calm|]].
    apply sim_apply.
  - apply sim_calm; [|done]. apply guarantees_bind; [apply _|apply calm_reject|]. intros; calm.
  - apply sim_calm; [|done]. apply guarantees_bind; [apply _|apply calm_tick|]. intros; calm.
  - apply sim_calm; [|done]. unfold listPending. calm.
  - apply sim_calm; [|done]. calm.
Qed.

(** *** Every interleaving *)
Abbreviation run moves now x := (memory_run (X:=X) uuid fault applyService moves now x).
Abbreviation fits := (Forall2 (thread_simulates (E:=MemoryProposalError) (A:=MemoryResponse)
  (claim_ok (X:=X) uuid) cstep (λ _ t, t = Idle))).

Lemma run_moves (I : list claim → W → Prop) moves ts p :
  (∀ ts w, I ts w → claims_inv uuid ts w) →
  (∀ ts w i t t' w', I ts w → ts !! i = Some t → cstep t w t' w' → I (<[i := t']> ts) w') →
  (∀ ts w, I ts w → I (ts ++ [Idle]) w) →
  (∀ ts w ms, I ts w → I ts (pass ms w)) →
  I ts (pl_state p) → fits ts (pl_threads p) →
  let p' := foldl pool_step p (memory_move uuid fault applyService <$> moves) in
  ∃ ts', I ts' (pl_state p') ∧ fits ts' (pl_threads p').
Proof using Type*.
  intros Hinv Hstep Hcall Hpass HI Hts. cbv zeta.
  apply (simulates_pool_from (claim_ok uuid) cstep (λ _ t, t = Idle) Idle I)
    with (ts := ts); [|exact Hstep|exact Hcall|exact HI|exact Hts| |].
  - intros ts0 w i t Hw Hi. eapply claims_inv_ok; [|exact Hi]. by apply Hinv.
  - intros m ([] & [= ->] & _)%list_elem_of_fmap. apply sim_handle.
  - intros f ([] & [= ->] & _)%list_elem_of_fmap ts0 w Hw. by apply Hpass.
Qed.

(** The invariant, and where the run has come from. *)
Definition run_inv (w0 : W (X:=X)) (ts : list claim) w : Prop := claims_inv uuid ts w ∧ mstep w0 w.

Lemma run_inv_moves w0 moves ts p :
  run_inv w0 ts (pl_state p) → fits ts (pl_threads p) →
  let p' := foldl pool_step p (memory_move uuid fault applyService <$> moves) in
  ∃ ts', run_inv w0 ts' (pl_state p') ∧ fits ts' (pl_threads p').
Proof using Type*.
  apply run_moves.
  - by intros ts0 w [? _].
  - intros ts0 w i t t' w' [Hi Hs] Ht Hc. split; [by eapply claims_inv_step|].
    etrans; [exact Hs|]. apply Hc.
  - intros ts0 w [Hi Hs]. split; [by apply claims_inv_call|done].
  - intros ts0 w ms [Hi Hs]. split; [by apply claims_inv_pass|].
    etrans; [exact Hs|]. apply step_pass; apply _.
Qed.

Lemma run_inv_run moves now x :
  ∃ ts, run_inv (start_world now x) ts (pl_state (run moves now x))
        ∧ fits ts (pl_threads (run moves now x)).
Proof using Type*.
  apply (run_inv_moves (start_world now x) moves [] (Pool [] (start_world now x))); [|done].
  split; [apply claims_inv_start|done].
Qed.

(** A proposal that is applying and that no request holds stays so. *)
Lemma run_stuck id moves ts p :
  claims_inv uuid ts (pl_state p) → fits ts (pl_threads p) →
  sum_list_with (λ t, holds t id) ts = 0%nat → phase_at (pl_state p) id = Applying →
  phase_at (pl_state (foldl pool_step p (memory_move uuid fault applyService <$> moves))) id
  = Applying.
Proof using Type*.
  intros Hi Hts Hh Hp.
  destruct (run_moves (λ ts w, claims_inv uuid ts w ∧ sum_list_with (λ t, holds t id) ts = 0%nat
    ∧ phase_at w id = Applying) moves ts p) as (ts' & (_ & _ & Hp') & _); [..|done].
  - by intros ts0 w [? _].
  - intros ts0 w i t t' w' (Hi0 & Hh0 & Hp0) Ht Hc.
    pose proof (claims_inv_step _ _ _ _ _ _ Hi0 Ht Hc) as Hi'. split; [exact Hi'|].
    pose proof (sum_lookup (λ t, holds t id) ts0 i t Ht) as Hle. cbn beta in Hle.
    pose proof (sum_insert (λ t, holds t id) ts0 i t t' Ht) as Hin. cbn beta in Hin.
    destruct Hc as [_ Hc]. destruct Hi0 as [Hw _]. destruct (Hc Hw id) as (Hc1 & _ & _).
    unfold is_applying in Hc1. rewrite Hp0 in Hc1. destruct (phase_at w' id); (split; [lia|]); lia || done.
  - intros ts0 w (Hi0 & Hh0 & Hp0). split; [by apply claims_inv_call|]. split; [|done].
    rewrite sum_list_with_app. cbn. lia.
  - intros ts0 w ms (Hi0 & Hh0 & Hp0). split; [by apply claims_inv_pass|]. by split.
  - by split_and!.
  - done.
Qed.
End claims.

(** ** Theorems *)

(** C7: however requests overlap, and whatever storage calls fail, a proposal is
    dispatched to the memory store at most once; it was dispatched only if it is
    applying, applied or failed, and it is marked applied or failed only if it was
    dispatched. *)
Theorem forget_at_most_once {X} `{!MemoryStoreBackend X} uuid `{!Inj (=) (=) uuid} fault
    applyService (moves : list MemoryMove) now (x : X) id :
  let w := pl_state (memory_run uuid fault applyService moves now x) in
  let status := sp_status <$> getMemoryProposal id (w_table w) in
  (dispatches w id ≤ 1)%nat
  ∧ (dispatches w id = 1%nat →
     status = Some m_applying ∨ status = Some m_applied ∨ status = Some m_failed)
  ∧ (status = Some m_applied ∨ status = Some m_failed → dispatches w id = 1%nat).
Proof.
  destruct (run_inv_run uuid fault applyService moves now x) as (ts & [[_ Hi] _] & _).
  cbv zeta. destruct (Hi id) as (_ & H2 & H3). revert H2 H3.
  unfold is_past, is_ended, phase_at.
  destruct (getMemoryProposal id _) as [p|]; cbn; [|intros; split_and!; [lia|lia|naive_solver]].
  destruct (sp_status p); cbn; intros; split_and!; try lia; intros; destruct_or?; simplify_eq; lia || auto.
Qed.

Lemma forget_at_most_once_witness :
  dispatches (pl_state (memory_run sample_uuid (λ _, None) true sample_moves 0 tt)) "id0" = 1%nat.
Proof.
  destruct (forget_at_most_once sample_uuid (λ _, None) true sample_moves 0 tt "id0") as (_ & _ & H).
  apply H. left. vm_compute. reflexivity.
Defined.

(** however requests overlap, and whatever storage calls fail, a proposal stays
    where it is with its content, its status only moves along pending -> approved ->
    applying -> applied or failed, pending -> rejected and pending -> expired, and no
    two pending proposals of a connection and a store are about the same target. *)
Theorem memory_proposal_lifecycle {X} `{!MemoryStoreBackend X} uuid `{!Inj (=) (=) uuid} fault
    applyService (moves later : list MemoryMove) now (x : X) id p :
  let t := w_table (pl_state (memory_run uuid fault applyService moves now x)) in
  let t' := w_table (pl_state (memory_run uuid fault applyService (moves ++ later) now x)) in
  getMemoryProposal id t = Some p →
  sp_id p = id ∧ pending_unique m_pending memory_target t
  ∧ ∃ p', getMemoryProposal id t' = Some p' ∧ row_evolves memory_edge (=) p p'.
Proof.
  cbv zeta. intros Hp.
  destruct (run_inv_run uuid fault applyService moves now x) as (ts & [Hi Hs] & Hts).
  pose proof Hi as [[Hk _ Hu _] _].
  destruct (run_inv_moves uuid fault applyService
    (pl_state (memory_run uuid fault applyService moves now x)) later ts
    (memory_run uuid fault applyService moves now x)) as (ts' & [_ (_ & _ & He)] & _);
    [split; [done|unfold memory_step; reflexivity]|done|].
  split; [by eapply keyed_get|]. split; [done|].
  unfold memory_run, pool_run at 1. rewrite fmap_app, foldl_app.
  destruct (He (proj1 Hi)) as [_ Hev]. by apply Hev.
Qed.

Lemma memory_proposal_lifecycle_witness :
  ∃ p p' : StoredMemoryProposal, sp_status p = m_pending ∧ sp_status p' = m_applied
    ∧ row_evolves memory_edge (=) p p'.
Proof.
  pose proof (memory_proposal_lifecycle sample_uuid (λ _, None) true sample_propose
    (drop 4 sample_moves) 0 tt "id0") as H. cbv zeta in H.
  destruct (getMemoryProposal "id0" (w_table (pl_state
    (memory_run sample_uuid (λ _, None) true sample_propose 0 tt)))) as [p|] eqn:Hp;
    [|exfalso; vm_compute in Hp; done].
  destruct (H p eq_refl) as (_ & _ & p' & Hp' & He). exists p, p'. split_and!; [..|exact He].
  - vm_compute in Hp. injection Hp as <-. done.
  - vm_compute in Hp'. injection Hp' as <-. done.
Defined.

(** a proposal that no running request is applying, but that is marked applying,
    stays so for good: the claim is not taken back when its holder fails to record
    the outcome, and no later approval, rejection or expiry moves it. *)
Theorem applying_is_stuck {X} `{!MemoryStoreBackend X} uuid `{!Inj (=) (=) uuid} fault
    applyService (moves later : list MemoryMove) now (x : X) id :
  let p := memory_run uuid fault applyService moves now x in
  let status q := sp_status <$> getMemoryProposal id (w_table (pl_state q)) in
  (∀ th, th ∈ pl_threads p → ∃ r, th = Finished r) →
  status p = Some m_applying →
  status (memory_run uuid fault applyService (moves ++ later) now x) = Some m_applying.
Proof.
  cbv zeta. intros Hdone Hst.
  destruct (run_inv_run uuid fault applyService moves now x) as (ts & [Hi _] & Hts).
  assert (Hp : phase_at (pl_state (memory_run uuid fault applyService moves now x)) id = Applying).
  { revert Hst. unfold phase_at. destruct (getMemoryProposal id _) as [q|]; [|done].
    cbn. by intros [= ->]. }
  assert (Hh : sum_list_with (λ t, holds t id) ts = 0%nat).
  { clear Hi Hp Hst. induction Hts as [|t th ts ths Ht _ IH]; [done|]. cbn.
    rewrite IH by (intros; apply Hdone; set_solver).
    destruct (Hdone th) as [r ->]; [set_solver|]. cbn in Ht. by subst. }
  pose proof (run_stuck uuid fault applyService id later ts _ Hi Hts Hh Hp) as H.
  unfold memory_run, pool_run at 1. rewrite fmap_app, foldl_app.
  unfold phase_at in H. fold (pool_run (memory_move uuid fault applyService <$> moves) (start_world now x)).
  unfold memory_run in H.
  destruct (getMemoryProposal id _) as [q|]; [|done]. cbn in *. by destruct (sp_status q).
Qed.

Lemma applying_is_stuck_witness :
  (sp_status <$> getMemoryProposal "id0" (w_table (pl_state
     (memory_run sample_uuid (lost_call 7) true
        (stuck_moves ++ [Request (ApproveForget (sample_review "bob"))]) 0 tt))))
  = Some m_applying.
Proof.
  apply (applying_is_stuck sample_uuid (lost_call 7) true stuck_moves
    [Request (ApproveForget (sample_review "bob"))] 0 tt "id0").
  - apply all_finished. vm_compute. reflexivity.
  - vm_compute. reflexivity.
Defined.
