(* ===== verification/AnomalyTypes.v ===== *)
(** * Anomaly detection: data

    [proprietary/anomaly-detection/types.ts]: the metrics, severities and patterns
    of the anomaly detectors, the event they raise, the group the correlator makes
    of several events, and the metrics the sample buffers do not handle. *)
From S2P Require Export JsNumber.
From stdpp Require Import options.

(** ** Definitions *)
Inductive MetricType :=
  | CONNECTIONS
  | OPS_PER_SEC
  | MEMORY_USED
  | INPUT_KBPS
  | OUTPUT_KBPS
  | SLOWLOG_LAST_ID
  | ACL_DENIED
  | AUTH_FAILURE_BURST
  | REJECTED_CONNECTIONS
  | CLIENT_SATURATION
  | CLIENT_LOCKOUT_RISK
  | EVICTED_CLIENTS
  | RAFT_HEALTH
  | FAILOVER_CHURN
  | REPL_BUFFER_PRESSURE
  | MEMORY_OVERHEAD
  | LOAD_SATURATION
  | FORK_MEMORY_RISK
  | EVICTED_KEYS
  | BLOCKED_CLIENTS
  | KEYSPACE_MISSES
  | FRAGMENTATION_RATIO
  | CPU_UTILIZATION
  | REPLICATION_ROLE
  | CLUSTER_STATE
  | RESYNC_LOOP
  | REPLICA_SLOT_STATE
  | ORPHANED_SLOT_KEYS
  | GHOST_MEMBERSHIP
  | LAGGING_PROMOTION
  | DATASET_KEYS
  | COMMAND_P99
  | PERSISTENCE_CHILD
  | CLUSTER_TOPOLOGY
  | HOSTNAME_STALENESS
  | LARGE_REPLY_PRESSURE
  | SLOWLOG_COUNT
  | CONFIG_DRIFT
  | ACL_DRIFT
  | SENTINEL_ENDPOINT_DRIFT.
#[global] Instance MetricType_eq : EqDecision MetricType.
Proof. solve_decision. Defined.

(** The string a metric is, in messages and in storage. *)
Definition metric_string (m : MetricType) : string :=
  match m with
  | CONNECTIONS => "connections"
  | OPS_PER_SEC => "ops_per_sec"
  | MEMORY_USED => "memory_used"
  | INPUT_KBPS => "input_kbps"
  | OUTPUT_KBPS => "output_kbps"
  | SLOWLOG_LAST_ID => "slowlog_last_id"
  | ACL_DENIED => "acl_denied"
  | AUTH_FAILURE_BURST => "auth_failure_burst"
  | REJECTED_CONNECTIONS => "rejected_connections"
  | CLIENT_SATURATION => "client_saturation"
  | CLIENT_LOCKOUT_RISK => "client_lockout_risk"
  | EVICTED_CLIENTS => "evicted_clients"
  | RAFT_HEALTH => "raft_health"
  | FAILOVER_CHURN => "failover_churn"
  | REPL_BUFFER_PRESSURE => "repl_buffer_pressure"
  | MEMORY_OVERHEAD => "memory_overhead"
  | LOAD_SATURATION => "load_saturation"
  | FORK_MEMORY_RISK => "fork_memory_risk"
  | EVICTED_KEYS => "evicted_keys"
  | BLOCKED_CLIENTS => "blocked_clients"
  | KEYSPACE_MISSES => "keyspace_misses"
  | FRAGMENTATION_RATIO => "fragmentation_ratio"
  | CPU_UTILIZATION => "cpu_utilization"
  | REPLICATION_ROLE => "replication_role"
  | CLUSTER_STATE => "cluster_state"
  | RESYNC_LOOP => "resync_loop"
  | REPLICA_SLOT_STATE => "replica_slot_state"
  | ORPHANED_SLOT_KEYS => "orphaned_slot_keys"
  | GHOST_MEMBERSHIP => "ghost_membership"
  | LAGGING_PROMOTION => "lagging_promotion"
  | DATASET_KEYS => "dataset_keys"
  | COMMAND_P99 => "command_p99"
  | PERSISTENCE_CHILD => "persistence_child"
  | CLUSTER_TOPOLOGY => "cluster_topology"
  | HOSTNAME_STALENESS => "hostname_staleness"
  | LARGE_REPLY_PRESSURE => "large_reply_pressure"
  | SLOWLOG_COUNT => "slowlog_count"
  | CONFIG_DRIFT => "config_drift"
  | ACL_DRIFT => "acl_drift"
  | SENTINEL_ENDPOINT_DRIFT => "sentinel_endpoint_drift"
  end.

(** [Object.values(MetricType)] *)
Definition all_metrics : list MetricType :=
  [CONNECTIONS; OPS_PER_SEC; MEMORY_USED; INPUT_KBPS;
   OUTPUT_KBPS; SLOWLOG_LAST_ID; ACL_DENIED; AUTH_FAILURE_BURST;
   REJECTED_CONNECTIONS; CLIENT_SATURATION; CLIENT_LOCKOUT_RISK; EVICTED_CLIENTS;
   RAFT_HEALTH; FAILOVER_CHURN; REPL_BUFFER_PRESSURE; MEMORY_OVERHEAD;
   LOAD_SATURATION; FORK_MEMORY_RISK; EVICTED_KEYS; BLOCKED_CLIENTS;
   KEYSPACE_MISSES; FRAGMENTATION_RATIO; CPU_UTILIZATION; REPLICATION_ROLE;
   CLUSTER_STATE; RESYNC_LOOP; REPLICA_SLOT_STATE; ORPHANED_SLOT_KEYS;
   GHOST_MEMBERSHIP; LAGGING_PROMOTION; DATASET_KEYS; COMMAND_P99;
   PERSISTENCE_CHILD; CLUSTER_TOPOLOGY; HOSTNAME_STALENESS; LARGE_REPLY_PRESSURE;
   SLOWLOG_COUNT; CONFIG_DRIFT; ACL_DRIFT; SENTINEL_ENDPOINT_DRIFT].

Definition METRICS_HANDLED_OUTSIDE_EXTRACTOR : list MetricType :=
  [REPLICATION_ROLE; CLUSTER_STATE; RESYNC_LOOP; REPLICA_SLOT_STATE;
   ORPHANED_SLOT_KEYS; GHOST_MEMBERSHIP; LAGGING_PROMOTION; DATASET_KEYS;
   COMMAND_P99; PERSISTENCE_CHILD; CLUSTER_TOPOLOGY; HOSTNAME_STALENESS;
   SLOWLOG_LAST_ID; REJECTED_CONNECTIONS; CLIENT_SATURATION; CLIENT_LOCKOUT_RISK;
   AUTH_FAILURE_BURST; ACL_DRIFT; SENTINEL_ENDPOINT_DRIFT; EVICTED_CLIENTS;
   RAFT_HEALTH; FAILOVER_CHURN; REPL_BUFFER_PRESSURE; MEMORY_OVERHEAD;
   LOAD_SATURATION; FORK_MEMORY_RISK; SLOWLOG_COUNT; CONFIG_DRIFT;
   LARGE_REPLY_PRESSURE].

Inductive AnomalySeverity := INFO | WARNING | CRITICAL.
#[global] Instance AnomalySeverity_eq : EqDecision AnomalySeverity.
Proof. solve_decision. Defined.
Definition severity_string (s : AnomalySeverity) : string :=
  match s with INFO => "info" | WARNING => "warning" | CRITICAL => "critical" end.

Inductive AnomalyType := SPIKE | DROP.
#[global] Instance AnomalyType_eq : EqDecision AnomalyType.
Proof. solve_decision. Defined.
Definition type_string (t : AnomalyType) : string :=
  match t with SPIKE => "spike" | DROP => "drop" end.

Inductive AnomalyPattern :=
  | TRAFFIC_BURST
  | BATCH_JOB
  | MEMORY_PRESSURE
  | SLOW_QUERIES
  | AUTH_ATTACK
  | CONNECTION_LEAK
  | CACHE_THRASHING
  | NODE_FAILOVER
  | PERSISTENCE_STALL
  | SPLIT_BRAIN
  | CONTROL_PLANE_SATURATION
  | UNKNOWN.
#[global] Instance AnomalyPattern_eq : EqDecision AnomalyPattern.
Proof. solve_decision. Defined.
Definition pattern_string (p : AnomalyPattern) : string :=
  match p with
  | TRAFFIC_BURST => "traffic_burst"
  | BATCH_JOB => "batch_job"
  | MEMORY_PRESSURE => "memory_pressure"
  | SLOW_QUERIES => "slow_queries"
  | AUTH_ATTACK => "auth_attack"
  | CONNECTION_LEAK => "connection_leak"
  | CACHE_THRASHING => "cache_thrashing"
  | NODE_FAILOVER => "node_failover"
  | PERSISTENCE_STALL => "persistence_stall"
  | SPLIT_BRAIN => "split_brain"
  | CONTROL_PLANE_SATURATION => "control_plane_saturation"
  | UNKNOWN => "unknown"
  end.

(** [undefined] is [None]; [persisted] is set once the event is in storage. *)
Record AnomalyEvent := {
  ev_id : string;
  ev_timestamp : Z;
  ev_metricType : MetricType;
  ev_anomalyType : AnomalyType;
  ev_severity : AnomalySeverity;
  ev_value : number;
  ev_baseline : number;
  ev_stdDev : number;
  ev_zScore : number;
  ev_threshold : number;
  ev_message : string;
  ev_correlationId : option string;
  ev_relatedMetrics : option (list MetricType);
  ev_resolved : bool;
  ev_connectionId : option string;
  ev_syntheticPattern : option AnomalyPattern;
  ev_persisted : option bool
}.

(** The anomalies of a group are objects, named by their places in the store of
    events ([EventStore]). *)
Abbreviation ref := nat (only parsing).
Record CorrelatedAnomalyGroup := {
  g_correlationId : string;
  g_timestamp : Z;
  g_anomalies : list ref;
  g_pattern : AnomalyPattern;
  g_diagnosis : string;
  g_recommendations : list string;
  g_severity : AnomalySeverity
}.

Record MetricSample := { s_timestamp : Z; s_value : number }.

Record BufferStats := {
  bs_metricType : MetricType;
  bs_sampleCount : Z;
  bs_mean : number;
  bs_stdDev : number;
  bs_min : number;
  bs_max : number;
  bs_latest : number;
  bs_isReady : bool
}.

Record SpikeDetectorConfig := {
  sd_warningZScore : option number;
  sd_criticalZScore : option number;
  sd_warningThreshold : option number;
  sd_criticalThreshold : option number;
  sd_consecutiveRequired : option Z;
  sd_cooldownMs : option Z;
  sd_detectDrops : option bool
}.

(** *** The events as objects

    The service, the correlator and the groups hold references to the same event
    objects; [e.field = x] changes what all of them see. *)
Definition EventStore := list AnomalyEvent.

Definition assign (f : AnomalyEvent → AnomalyEvent) (r : ref) (h : EventStore) : EventStore :=
  alter f r h.

(** The objects a list of references denotes. *)
Definition deref (h : EventStore) (rs : list ref) : list AnomalyEvent :=
  omap (λ r, h !! r) rs.

Definition set_correlation (c : string) (related : list MetricType) (e : AnomalyEvent) : AnomalyEvent :=
  {| ev_id := ev_id e; ev_timestamp := ev_timestamp e; ev_metricType := ev_metricType e;
     ev_anomalyType := ev_anomalyType e; ev_severity := ev_severity e; ev_value := ev_value e;
     ev_baseline := ev_baseline e; ev_stdDev := ev_stdDev e; ev_zScore := ev_zScore e;
     ev_threshold := ev_threshold e; ev_message := ev_message e;
     ev_correlationId := Some c; ev_relatedMetrics := Some related; ev_resolved := ev_resolved e;
     ev_connectionId := ev_connectionId e; ev_syntheticPattern := ev_syntheticPattern e;
     ev_persisted := ev_persisted e |}.

Definition set_resolved (e : AnomalyEvent) : AnomalyEvent :=
  {| ev_id := ev_id e; ev_timestamp := ev_timestamp e; ev_metricType := ev_metricType e;
     ev_anomalyType := ev_anomalyType e; ev_severity := ev_severity e; ev_value := ev_value e;
     ev_baseline := ev_baseline e; ev_stdDev := ev_stdDev e; ev_zScore := ev_zScore e;
     ev_threshold := ev_threshold e; ev_message := ev_message e;
     ev_correlationId := ev_correlationId e; ev_relatedMetrics := ev_relatedMetrics e; ev_resolved := true;
     ev_connectionId := ev_connectionId e; ev_syntheticPattern := ev_syntheticPattern e;
     ev_persisted := ev_persisted e |}.

Definition set_persisted (e : AnomalyEvent) : AnomalyEvent :=
  {| ev_id := ev_id e; ev_timestamp := ev_timestamp e; ev_metricType := ev_metricType e;
     ev_anomalyType := ev_anomalyType e; ev_severity := ev_severity e; ev_value := ev_value e;
     ev_baseline := ev_baseline e; ev_stdDev := ev_stdDev e; ev_zScore := ev_zScore e;
     ev_threshold := ev_threshold e; ev_message := ev_message e;
     ev_correlationId := ev_correlationId e; ev_relatedMetrics := ev_relatedMetrics e;
     ev_resolved := ev_resolved e; ev_connectionId := ev_connectionId e;
     ev_syntheticPattern := ev_syntheticPattern e; ev_persisted := Some true |}.

Definition set_connection (c : string) (e : AnomalyEvent) : AnomalyEvent :=
  {| ev_id := ev_id e; ev_timestamp := ev_timestamp e; ev_metricType := ev_metricType e;
     ev_anomalyType := ev_anomalyType e; ev_severity := ev_severity e; ev_value := ev_value e;
     ev_baseline := ev_baseline e; ev_stdDev := ev_stdDev e; ev_zScore := ev_zScore e;
     ev_threshold := ev_threshold e; ev_message := ev_message e;
     ev_correlationId := ev_correlationId e; ev_relatedMetrics := ev_relatedMetrics e;
     ev_resolved := ev_resolved e; ev_connectionId := Some c;
     ev_syntheticPattern := ev_syntheticPattern e; ev_persisted := ev_persisted e |}.

(** ** Lemmas *)
Lemma assign_lookup f r r' h :
  assign f r h !! r' = (if decide (r = r') then f <$> h !! r' else h !! r').
Proof.
  unfold assign. case_decide as Hr; [subst; apply list_lookup_alter_eq|].
  by apply list_lookup_alter_ne.
Qed.

Lemma assign_length f r h : length (assign f r h) = length h.
Proof. apply length_alter. Qed.

Lemma deref_cons h r rs e : h !! r = Some e → deref h (r :: rs) = e :: deref h rs.
Proof. intros Hr. unfold deref. csimpl. by rewrite Hr. Qed.

Lemma deref_elem h rs e : e ∈ deref h rs ↔ ∃ r, r ∈ rs ∧ h !! r = Some e.
Proof. unfold deref. rewrite list_elem_of_omap. naive_solver. Qed.

(** Every metric has its own string. *)
Lemma metric_string_inj : Inj (=) (=) metric_string.
Proof. intros [] []; (reflexivity || discriminate). Qed.

(** The metrics with a buffer from the start are the eleven the extractors and the
    CPU computation feed. *)
Example buffered_metrics :
  filter (λ m, m ∉ METRICS_HANDLED_OUTSIDE_EXTRACTOR) all_metrics
  = [CONNECTIONS; OPS_PER_SEC; MEMORY_USED; INPUT_KBPS; OUTPUT_KBPS; ACL_DENIED; EVICTED_KEYS;
     BLOCKED_CLIENTS; KEYSPACE_MISSES; FRAGMENTATION_RATIO; CPU_UTILIZATION].
Proof. reflexivity. Qed.
