(* ===== verification/SpikeDetector.v ===== *)
(** * Sample buffers and the spike detector

    [metric-buffer.ts] and [spike-detector.ts] of
    [proprietary/anomaly-detection]: a sliding window of samples with its mean and
    deviation, and the detector that compares each sample with the window, counts
    the samples that stand out and raises an event, at most one per cooldown.  The
    two maps of a detector have the detector's own metric as their only key. *)
From S2P Require Export AnomalyTypes.
From stdpp Require Import options.

(** ** Definitions *)

(** *** MetricBuffer *)
Record MetricBuffer := {
  mb_samples : list MetricSample;
  mb_metricType : MetricType;
  mb_maxSamples : Z;
  mb_minSamples : Z
}.

Definition new_MetricBuffer (metricType : MetricType) : MetricBuffer :=
  {| mb_samples := []; mb_metricType := metricType; mb_maxSamples := 300; mb_minSamples := 30 |}.

Definition set_samples (l : list MetricSample) (b : MetricBuffer) : MetricBuffer :=
  {| mb_samples := l; mb_metricType := mb_metricType b; mb_maxSamples := mb_maxSamples b;
     mb_minSamples := mb_minSamples b |}.

Definition addSample (value : number) (timestamp : Z) (b : MetricBuffer) : MetricBuffer :=
  let l := mb_samples b ++ [{| s_timestamp := timestamp; s_value := value |}] in
  set_samples (if mb_maxSamples b <? js_len l then tail l else l) b.

Definition isReady (b : MetricBuffer) : bool := mb_minSamples b <=? js_len (mb_samples b).

Definition zero : number := num_of_Z 0.
Definition num_len {A} (l : list A) : number := num_of_Z (js_len l).

Definition getMean (b : MetricBuffer) : number :=
  if js_len (mb_samples b) =? 0 then zero
  else num_div (foldl (λ acc s, num_add acc (s_value s)) zero (mb_samples b))
         (num_len (mb_samples b)).

Definition getStdDev (b : MetricBuffer) : number :=
  if js_len (mb_samples b) <? 2 then zero
  else
    let mean := getMean b in
    let squaredDiffs := map (λ s, num_square (num_sub (s_value s) mean)) (mb_samples b) in
    let variance := num_div (foldl num_add zero squaredDiffs) (num_len (mb_samples b)) in
    num_sqrt variance.

Definition getZScore (value : number) (b : MetricBuffer) : number :=
  let mean := getMean b in
  let stdDev := getStdDev b in
  if num_eqb stdDev zero then zero else num_div (num_sub value mean) stdDev.

Definition getLatest (b : MetricBuffer) : option number := s_value <$> last (mb_samples b).

Definition getMin (b : MetricBuffer) : number :=
  if js_len (mb_samples b) =? 0 then zero
  else foldl num_min (S754_infinity false) (s_value <$> mb_samples b).
Definition getMax (b : MetricBuffer) : number :=
  if js_len (mb_samples b) =? 0 then zero
  else foldl num_max (S754_infinity true) (s_value <$> mb_samples b).

Definition getStats (b : MetricBuffer) : BufferStats :=
  {| bs_metricType := mb_metricType b; bs_sampleCount := js_len (mb_samples b);
     bs_mean := getMean b; bs_stdDev := getStdDev b; bs_min := getMin b; bs_max := getMax b;
     bs_latest := default zero (getLatest b); bs_isReady := isReady b |}.

Definition getSampleCount (b : MetricBuffer) : Z := js_len (mb_samples b).
Definition clear : MetricBuffer → MetricBuffer := set_samples [].

(** *** SpikeDetector *)
Record ConsecutiveCounter := { cc_count : Z; cc_lastValue : number; cc_lastTimestamp : Z }.

(** [Required<SpikeDetectorConfig>] *)
Record DetectorConfig := {
  dc_warningZScore : number;
  dc_criticalZScore : number;
  dc_warningThreshold : number;
  dc_criticalThreshold : number;
  dc_consecutiveRequired : Z;
  dc_cooldownMs : Z;
  dc_detectDrops : bool
}.

Record SpikeDetector := {
  sd_metricType : MetricType;
  sd_config : DetectorConfig;
  sd_consecutiveCount : option ConsecutiveCounter;
  sd_lastAlertTime : option Z
}.

Definition infinity : number := S754_infinity false.

Definition new_SpikeDetector (metricType : MetricType) (config : SpikeDetectorConfig) : SpikeDetector :=
  {| sd_metricType := metricType;
     sd_config :=
       {| dc_warningZScore := default (num_of_Z 2) (sd_warningZScore config);
          dc_criticalZScore := default (num_of_Z 3) (sd_criticalZScore config);
          dc_warningThreshold := default infinity (sd_warningThreshold config);
          dc_criticalThreshold := default infinity (sd_criticalThreshold config);
          dc_consecutiveRequired := default 3 (sd_consecutiveRequired config);
          dc_cooldownMs := default 60000 (sd_cooldownMs config);
          dc_detectDrops := default false (sd_detectDrops config) |};
     sd_consecutiveCount := None; sd_lastAlertTime := None |}.

Definition set_count (c : option ConsecutiveCounter) (d : SpikeDetector) : SpikeDetector :=
  {| sd_metricType := sd_metricType d; sd_config := sd_config d; sd_consecutiveCount := c;
     sd_lastAlertTime := sd_lastAlertTime d |}.
Definition set_alerted (t : Z) (d : SpikeDetector) : SpikeDetector :=
  {| sd_metricType := sd_metricType d; sd_config := sd_config d; sd_consecutiveCount := None;
     sd_lastAlertTime := Some t |}.

Definition e9 : number := num_of_Z 1000000000.
Definition e6 : number := num_of_Z 1000000.
Definition e3 : number := num_of_Z 1000.

Definition formatValue (m : MetricType) (value : number) : string :=
  match m with
  | MEMORY_USED =>
      if num_leb e9 value then num_to_fixed 2 (num_div value e9) +:+ " GB"
      else if num_leb e6 value then num_to_fixed 2 (num_div value e6) +:+ " MB"
      else if num_leb e3 value then num_to_fixed 2 (num_div value e3) +:+ " KB"
      else num_to_string value +:+ " B"
  | FRAGMENTATION_RATIO => num_to_fixed 2 value
  | _ =>
      if num_leb e6 value then num_to_fixed 2 (num_div value e6) +:+ "M"
      else if num_leb e3 value then num_to_fixed 2 (num_div value e3) +:+ "K"
      else num_to_fixed 0 value
  end.

Definition generateMessage (m : MetricType) (type : AnomalyType) (severity : AnomalySeverity)
    (value baseline zScore : number) : string :=
  let typeStr := match type with SPIKE => "spike" | DROP => "drop" end in
  let change := num_to_fixed 1
    (num_mul (num_div (num_sub value baseline) baseline) (num_of_Z 100)) in
  let direction := match type with SPIKE => "above" | DROP => "below" end in
  to_upper (severity_string severity) +:+ ": " +:+ metric_string m +:+ " " +:+ typeStr
  +:+ " detected. Value: " +:+ formatValue m value +:+ ", Baseline: " +:+ formatValue m baseline
  +:+ " (" +:+ change +:+ "% " +:+ direction +:+ " normal, Z-score: " +:+ num_to_fixed 2 zScore +:+ ")".

(** The two passes over the thresholds: by z-score, then by absolute value. *)
Definition z_severity (c : DetectorConfig) (absZScore : number) : option AnomalySeverity * number :=
  if num_leb (dc_criticalZScore c) absZScore then (Some CRITICAL, dc_criticalZScore c)
  else if num_leb (dc_warningZScore c) absZScore then (Some WARNING, dc_warningZScore c)
  else (None, zero).
Definition judge (c : DetectorConfig) (absZScore currentValue : number)
    : option AnomalySeverity * number :=
  let '(severity, threshold) := z_severity c absZScore in
  if num_leb (dc_criticalThreshold c) currentValue then (Some CRITICAL, dc_criticalThreshold c)
  else if num_leb (dc_warningThreshold c) currentValue && negb (bool_decide (is_Some severity))
  then (Some WARNING, dc_warningThreshold c)
  else (severity, threshold).

(** [lastAlert && timestamp - lastAlert < cooldownMs] *)
Definition cooling (d : SpikeDetector) (timestamp : Z) : bool :=
  match sd_lastAlertTime d with
  | Some lastAlert => negb (lastAlert =? 0) && (timestamp - lastAlert <? dc_cooldownMs (sd_config d))
  | None => false
  end.

Definition count_sample (currentValue : number) (timestamp : Z) (d : SpikeDetector)
    : ConsecutiveCounter :=
  {| cc_count := match sd_consecutiveCount d with Some c => cc_count c + 1 | None => 1 end;
     cc_lastValue := currentValue; cc_lastTimestamp := timestamp |}.

(** [detect]; [uuid] is the answer of [randomUUID] *)
Definition detect (uuid : string) (buffer : MetricBuffer) (currentValue : number) (timestamp : Z)
    (d : SpikeDetector) : option AnomalyEvent * SpikeDetector :=
  let c := sd_config d in
  if negb (isReady buffer) then (None, d)
  else if cooling d timestamp then (None, d)
  else
    let mean := getMean buffer in
    let stdDev := getStdDev buffer in
    let zScore := getZScore currentValue buffer in
    let isSpike := num_ltb zero zScore in
    let isDrop := num_ltb zScore zero in
    if isDrop && negb (dc_detectDrops c) then (None, d)
    else
      match judge c (num_abs zScore) currentValue with
      | (None, _) => (None, set_count None d)
      | (Some severity, threshold) =>
          let counter := count_sample currentValue timestamp d in
          if cc_count counter <? dc_consecutiveRequired c then (None, set_count (Some counter) d)
          else
            let anomalyType := if isSpike then SPIKE else DROP in
            (Some {| ev_id := uuid; ev_timestamp := timestamp; ev_metricType := sd_metricType d;
                     ev_anomalyType := anomalyType; ev_severity := severity;
                     ev_value := currentValue; ev_baseline := mean; ev_stdDev := stdDev;
                     ev_zScore := zScore; ev_threshold := threshold;
                     ev_message := generateMessage (sd_metricType d) anomalyType severity
                                     currentValue mean zScore;
                     ev_correlationId := None; ev_relatedMetrics := None; ev_resolved := false;
                     ev_connectionId := None; ev_syntheticPattern := None; ev_persisted := None |},
             set_alerted timestamp d)
      end.

(** *** The loop around them: [pollConnection] adds a sample, then asks the detector. *)
Record Tracked := { tr_buffer : MetricBuffer; tr_detector : SpikeDetector }.

Definition observe (uuid : string) (sample : MetricSample) (t : Tracked)
    : option AnomalyEvent * Tracked :=
  let buffer := addSample (s_value sample) (s_timestamp sample) (tr_buffer t) in
  let '(anomaly, detector) := detect uuid buffer (s_value sample) (s_timestamp sample) (tr_detector t) in
  (anomaly, {| tr_buffer := buffer; tr_detector := detector |}).

(** ** Specification

    A run of the loop, one step a sample with the state before it. *)
Record Step := { pre : Tracked; sp_uuid : string; sp_sample : MetricSample }.
Definition alert_of (p : Step) : option AnomalyEvent := (observe (sp_uuid p) (sp_sample p) (pre p)).1.
Definition post (p : Step) : Tracked := (observe (sp_uuid p) (sp_sample p) (pre p)).2.
Definition time_of (p : Step) : Z := s_timestamp (sp_sample p).

Fixpoint watch (l : list (string * MetricSample)) (t : Tracked) : list Step :=
  match l with
  | [] => []
  | (u, s) :: l' =>
      let p := {| pre := t; sp_uuid := u; sp_sample := s |} in p :: watch l' (post p)
  end.

Definition started (m : MetricType) (config : SpikeDetectorConfig) : Tracked :=
  {| tr_buffer := new_MetricBuffer m; tr_detector := new_SpikeDetector m config |}.

(** Did the detector judge the sample, and find that it stands out? *)
Definition judged (p : Step) : bool :=
  let v := s_value (sp_sample p) in
  let b := addSample v (time_of p) (tr_buffer (pre p)) in
  let d := tr_detector (pre p) in
  let z := getZScore v b in
  isReady b && negb (cooling d (time_of p))
  && negb (num_ltb z zero && negb (dc_detectDrops (sd_config d))).
Definition stands_out (p : Step) : bool :=
  let v := s_value (sp_sample p) in
  let b := addSample v (time_of p) (tr_buffer (pre p)) in
  judged p
  && bool_decide (is_Some (judge (sd_config (tr_detector (pre p))) (num_abs (getZScore v b)) v).1).
Definition evidence (l : list Step) : Z := js_len (js_filter stands_out l).

(** The samples of a list of values taken every second. *)
Fixpoint seconds (t : Z) (l : list number) : list (string * MetricSample) :=
  match l with
  | [] => []
  | v :: l' => ("00000000-0000-4000-8000-000000000000", {| s_timestamp := t; s_value := v |})
               :: seconds (t + 1000) l'
  end.
Definition ints : list Z → list number := map num_of_Z.

(** ** Lemmas *)
Lemma addSample_config s t b :
  mb_maxSamples (addSample s t b) = mb_maxSamples b ∧ mb_minSamples (addSample s t b) = mb_minSamples b.
Proof. done. Qed.

Lemma detect_config u b v t d : sd_config (detect u b v t d).2 = sd_config d.
Proof.
  unfold detect. repeat (case_match; try done); simplify_eq/=; done.
Qed.

Lemma post_config p : sd_config (tr_detector (post p)) = sd_config (tr_detector (pre p)).
Proof.
  unfold post, observe. destruct (detect _ _ _ _ _) as [r d] eqn:Hd. simpl.
  pose proof (detect_config (sp_uuid p)
    (addSample (s_value (sp_sample p)) (s_timestamp (sp_sample p)) (tr_buffer (pre p)))
    (s_value (sp_sample p)) (s_timestamp (sp_sample p)) (tr_detector (pre p))) as Hc.
  by rewrite Hd in Hc.
Qed.

Definition pending (t : Tracked) : Z :=
  match sd_consecutiveCount (tr_detector t) with Some c => cc_count c | None => 0 end.

Lemma cooling_false d t last :
  cooling d t = false → sd_lastAlertTime d = Some last → last ≠ 0 →
  dc_cooldownMs (sd_config d) ≤ t - last.
Proof.
  unfold cooling. intros Hc Hlast Hl. rewrite Hlast in Hc. destruct (Z.eqb_spec last 0); simpl in Hc; [done|].
  by apply Z.ltb_ge in Hc.
Qed.

#[local] Opaque getZScore getMean getStdDev addSample isReady cooling judge num_ltb num_abs
  generateMessage zero.

(** One step, by its verdict. *)
Lemma step_cases p :
  0 ≤ pending (pre p) →
  let required := dc_consecutiveRequired (sd_config (tr_detector (pre p))) in
  match alert_of p with
  | Some ev =>
      stands_out p = true ∧ required ≤ pending (pre p) + 1
      ∧ pending (post p) = 0 ∧ sd_lastAlertTime (tr_detector (post p)) = Some (time_of p)
      ∧ cooling (tr_detector (pre p)) (time_of p) = false
  | None =>
      0 ≤ pending (post p) ≤ pending (pre p) + (if stands_out p then 1 else 0)
      ∧ sd_lastAlertTime (tr_detector (post p)) = sd_lastAlertTime (tr_detector (pre p))
  end.
Proof.
  destruct p as [[b d] u [t v]].
  unfold alert_of, post, observe, stands_out, judged, pending, time_of, detect; simpl.
  set (b' := addSample v t b). intros Hp.
  destruct (isReady b') eqn:Hr; simpl; [|by split; [lia|]].
  destruct (cooling d t) eqn:Hc; simpl; [by split; [lia|]|].
  destruct (num_ltb (getZScore v b') zero && negb (dc_detectDrops (sd_config d))); simpl;
    [by split; [lia|]|].
  destruct (judge (sd_config d) (num_abs (getZScore v b')) v) as [[sev|] thr]; simpl;
    [|by split; [lia|]].
  destruct (Z.ltb_spec (match sd_consecutiveCount d with Some c => cc_count c + 1 | None => 1 end)
              (dc_consecutiveRequired (sd_config d))) as [Hn|Hn]; simpl.
  - split; [|done]. destruct (sd_consecutiveCount d); simpl; lia.
  - split_and!; try done. destruct (sd_consecutiveCount d); simpl in *; lia.
Qed.

Lemma post_pending p : 0 ≤ pending (pre p) → 0 ≤ pending (post p).
Proof.
  intros Hp. pose proof (step_cases p Hp) as H. cbn in H. destruct (alert_of p); destruct_and?; lia.
Qed.

Lemma watch_lookup l t i p :
  0 ≤ pending t → watch l t !! i = Some p →
  0 ≤ pending (pre p) ∧ sd_config (tr_detector (pre p)) = sd_config (tr_detector t)
  ∧ drop (S i) (watch l t) = watch (drop (S i) l) (post p).
Proof.
  revert t i. induction l as [|[u s] l IH]; intros t i Ht Hi; [done|].
  destruct i as [|i]; simpl in Hi |- *.
  - simplify_eq. simpl. by rewrite !drop_0.
  - apply IH in Hi as (Hp & Hc & Hd); [|by apply post_pending].
    rewrite post_config in Hc. by split_and!.
Qed.

Lemma watch_time l t i q :
  Forall (λ us : string * MetricSample, 0 < s_timestamp us.2) l → watch l t !! i = Some q →
  0 < time_of q.
Proof.
  intros Hl. revert t i. induction Hl as [|[u s] l Hs Hl IH]; intros t i Hi; [done|].
  destruct i as [|i]; simpl in Hi; simplify_eq; [done|]. by eapply IH.
Qed.

Lemma evidence_cons p l : evidence (p :: l) = (if stands_out p then 1 else 0) + evidence l.
Proof. unfold evidence, js_len. simpl. destruct (stands_out p); simpl; lia. Qed.

Lemma evidence_nonneg l : 0 ≤ evidence l.
Proof. unfold evidence, js_len. lia. Qed.

(** An alert has used up [required] samples that stand out, those already counted
    included. *)
Lemma watch_evidence l t j p ev :
  0 ≤ pending t → watch l t !! j = Some p → alert_of p = Some ev →
  dc_consecutiveRequired (sd_config (tr_detector t)) ≤ pending t + evidence (take (S j) (watch l t)).
Proof.
  revert t j. induction l as [|[u s] l IH]; intros t j Ht Hj Ha; [done|].
  cbn [watch] in *. set (q := {| pre := t; sp_uuid := u; sp_sample := s |}) in *.
  pose proof (step_cases q Ht) as Hq. cbn zeta in Hq.
  rewrite firstn_cons, evidence_cons. destruct j as [|j]; simpl in Hj.
  - simplify_eq. rewrite Ha in Hq. destruct Hq as (-> & Hq & _). simpl. simpl in Hq.
    unfold evidence. simpl. unfold js_len. simpl. lia.
  - pose proof (IH (post q) j (post_pending q Ht) Hj Ha) as H.
    rewrite post_config in H. change (sd_config _) with (sd_config (tr_detector t)) in H.
    change (pre q) with t in Hq. destruct (alert_of q); destruct_and?; [|lia].
    destruct (stands_out q); lia.
Qed.

(** No alert comes within the cooldown of the one the detector remembers. *)
Lemma watch_spaced l t j p ev last :
  0 ≤ pending t → 0 ≤ dc_cooldownMs (sd_config (tr_detector t)) →
  Forall (λ us, 0 < s_timestamp us.2) l →
  sd_lastAlertTime (tr_detector t) = Some last → 0 < last →
  watch l t !! j = Some p → alert_of p = Some ev →
  dc_cooldownMs (sd_config (tr_detector t)) ≤ time_of p - last.
Proof.
  revert t j last. induction l as [|[u s] l IH]; intros t j last Ht Hcd Hl Hla Hlast Hj Ha; [done|].
  apply Forall_cons in Hl as [Hs Hl]. simpl in Hs.
  cbn [watch] in *. set (q := {| pre := t; sp_uuid := u; sp_sample := s |}) in *.
  pose proof (step_cases q Ht) as Hq. cbn zeta in Hq. change (pre q) with t in Hq.
  assert (Hq1 : alert_of q ≠ None → dc_cooldownMs (sd_config (tr_detector t)) ≤ time_of q - last).
  { intros Hn. destruct (alert_of q); [|done]. destruct Hq as (_ & _ & _ & _ & Hcool).
    eapply cooling_false; [done|done|lia]. }
  destruct j as [|j]; simpl in Hj.
  - simplify_eq. apply Hq1. by rewrite Ha.
  - pose proof (post_config q : _ = sd_config (tr_detector t)) as Hcfg.
    pose proof (post_pending q Ht) as Hp. rewrite <-Hcfg in Hcd, Hq1 |- *.
    destruct (alert_of q) eqn:Haq.
    + destruct Hq as (_ & _ & _ & Hla' & _). specialize (Hq1 ltac:(done)).
      pose proof (IH (post q) j (time_of q) Hp Hcd Hl Hla' Hs Hj Ha). lia.
    + destruct Hq as [_ Hla']. rewrite Hla in Hla'. by apply (IH (post q) j last).
Qed.

(** The buffer keeps the newest samples. *)
Lemma addSample_keeps v t b l :
  0 ≤ mb_maxSamples b → mb_samples b = drop (length l - Z.to_nat (mb_maxSamples b)) l →
  mb_samples (addSample v t b)
  = let l' := l ++ [{| s_timestamp := t; s_value := v |}] in
    drop (length l' - Z.to_nat (mb_maxSamples b)) l'.
Proof.
  intros Hm Hb. with_strategy transparent [addSample] unfold addSample, set_samples. simpl.
  unfold js_len. rewrite Hb, !length_app, length_drop. simpl.
  set (n := Z.to_nat (mb_maxSamples b)). set (x := {| s_timestamp := t; s_value := v |}).
  destruct (Z.ltb_spec (mb_maxSamples b) (Z.of_nat (length l - (length l - n) + 1))) as [H|H].
  - replace (length l + 1 - n)%nat with (S (length l - n)) by lia.
    destruct (decide (length l - n < length l)%nat) as [Hlt|Hge].
    + destruct (drop (length l - n) l) as [|y k] eqn:Hd.
      { apply (f_equal length) in Hd. rewrite length_drop in Hd. simpl in Hd. lia. }
      rewrite drop_app_le by lia. simpl. f_equal.
      rewrite <-(Nat.add_1_r (length l - n)), <-drop_drop, Hd. done.
    + rewrite (drop_ge l) by lia. simpl. symmetry. apply drop_ge. rewrite length_app. simpl. lia.
  - replace (length l - n)%nat with 0%nat by lia. replace (length l + 1 - n)%nat with 0%nat by lia.
    by rewrite !drop_0.
Qed.

(** ** Theorems *)

(** A buffer holds exactly the newest 300 samples it was given, oldest first. *)
Theorem buffer_window m l :
  mb_samples (foldl (λ b s, addSample (s_value s) (s_timestamp s) b) (new_MetricBuffer m) l)
  = drop (length l - 300) l.
Proof.
  induction l as [|[t v] l IH] using rev_ind; [done|].
  rewrite foldl_app. cbn [foldl s_value s_timestamp].
  set (b := foldl _ _ l) in *.
  assert (Hm : mb_maxSamples b = 300).
  { unfold b. clear IH. induction l as [|x l IHl] using rev_ind; [done|].
    rewrite foldl_app. simpl. by rewrite (proj1 (addSample_config _ _ _)). }
  rewrite (addSample_keeps v t b l); rewrite ?Hm; done.
Qed.


(** Thirty readings around 100, then spikes with readings below the mean between them. *)
Definition warmup : list Z := mjoin (replicate 15 [90; 110]).
Definition dips : list (string * MetricSample) :=
  seconds 1000 (ints (warmup ++ [140; 90; 90; 140; 90; 90; 140; 90])).
Definition no_config : SpikeDetectorConfig :=
  {| sd_warningZScore := None; sd_criticalZScore := None; sd_warningThreshold := None;
     sd_criticalThreshold := None; sd_consecutiveRequired := None; sd_cooldownMs := None;
     sd_detectDrops := None |}.


(** The required samples need not be consecutive: a reading below the mean is
    left out without resetting the count, so three spikes with ordinary readings
    between them raise the alert meant for three in a row, although no two adjacent
    readings stand out. *)
Theorem spikes_not_consecutive :
  map (λ p, (bool_decide (is_Some (alert_of p)), stands_out p))
    (drop 30 (watch dips (started CONNECTIONS no_config)))
  = [(false, true); (false, false); (false, false); (false, true); (false, false);
     (false, false); (true, true); (false, false)].
Proof. vm_compute. reflexivity. Qed.

(** The configuration the service gives to the fragmentation ratio. *)
Definition fragmentation_config : SpikeDetectorConfig :=
  {| sd_warningZScore := Some (num_of_Z 2); sd_criticalZScore := Some (num_of_Z 3);
     sd_warningThreshold := Some (num_of_decimal false 15 (-1));
     sd_criticalThreshold := Some (num_of_Z 2); sd_consecutiveRequired := Some 5;
     sd_cooldownMs := Some 120000; sd_detectDrops := None |}.

(** A metric that stays at a value beyond its absolute threshold has z-score 0,
    and the alert calls it a drop below normal. *)
Theorem steady_high_is_a_drop :
  (λ p, (λ e, (ev_anomalyType e, ev_severity e, ev_message e)) <$> alert_of p)
    <$> last (watch (seconds 1000 (replicate 34 (num_of_decimal false 25 (-1))))
                (started FRAGMENTATION_RATIO fragmentation_config))
  = Some (Some (DROP, CRITICAL,
      "CRITICAL: fragmentation_ratio drop detected. Value: 2.50, Baseline: 2.50 (0.0% below normal, Z-score: 0.00)")).
Proof. vm_compute. reflexivity. Qed.
