(* ===== verification/Hysteresis.v ===== *)
(** * The alert contract of the state-based detectors

    The detectors of [proprietary/anomaly-detection] that watch one connection for a
    risk with several levels document one contract: alert only when the level rises
    above the one acknowledged, go on until an alert was delivered, re-arm when the
    level drops.  [HysteresisDetector] is the interface: a detector's state, its two
    operations and what relates them to an abstract machine that knows only the
    score of each sample.  The theorems about alerts are proved once, against the
    interface. *)
From S2P Require Export AnomalyTypes.
From stdpp Require Import options.

(** ** Definitions *)

(** The levels of the detectors, which declare the same type and ranks. *)
Inductive RiskLevel := L_none | L_warning | L_critical.
#[global] Instance RiskLevel_eq : EqDecision RiskLevel.
Proof. solve_decision. Defined.
Definition LEVEL_RANK (l : RiskLevel) : Z :=
  match l with L_none => 0 | L_warning => 1 | L_critical => 2 end.

(** ** Specification *)

(** The machine: the acknowledged score, the score of the last usable sample and for
    how many samples it has held.  Score 0 means no risk. *)
Record Alarm := { al_acked : Z; al_last : Z; al_run : Z }.
Definition quiet : Alarm := {| al_acked := 0; al_last := 0; al_run := 0 |}.

(** One sample: [None] when it cannot be used.  [hold] is how many samples in a row
    a score must last. *)
Definition alarm_step (hold : Z) (score : option Z) (a : Alarm) : bool * Alarm :=
  match score with
  | None => (false, a)
  | Some s =>
      if s =? 0 then (false, quiet)
      else
        let run := if s =? al_last a then al_run a + 1 else 1 in
        let acked := Z.min (al_acked a) s in
        ((hold <=? run) && (acked <? s), {| al_acked := acked; al_last := s; al_run := run |})
  end.
Definition alarm_ack (score : Z) (a : Alarm) : Alarm :=
  {| al_acked := score; al_last := al_last a; al_run := al_run a |}.

(** A detector with state [S], samples [I] and findings [F]. *)
Class HysteresisDetector (S I F : Type) := {
  hd_create : S;
  hd_evaluate : I → S → option F * S;
  hd_acknowledge : F → S → S;
  hd_score : I → option Z;
  (** [None] for a note that is not an alert *)
  hd_finding_score : F → option Z;
  hd_hold : Z;
  (** what the detector's state means *)
  hd_means : S → Alarm → Prop
}.

Class HysteresisLaws (S I F : Type) `{HysteresisDetector S I F} : Prop := {
  hd_score_nonneg i s : hd_score i = Some s → 0 ≤ s;
  hd_create_means : hd_means hd_create quiet;
  hd_evaluate_means i s a :
    hd_means s a → 0 ≤ al_acked a →
    let r := hd_evaluate i s in
    let b := alarm_step hd_hold (hd_score i) a in
    hd_means r.2 b.2
    ∧ match r.1 ≫= hd_finding_score with
      | Some e => b.1 = true ∧ hd_score i = Some e
      | None => b.1 = false
      end;
  hd_acknowledge_means f s a :
    hd_means s a →
    hd_means (hd_acknowledge f s)
      (match hd_finding_score f with Some e => alarm_ack e a | None => a end)
}.

(** A history of polls, each with whether an alert of it could be delivered. *)
Section history.
Context {S I F : Type} `{HysteresisDetector S I F}.

Definition poll (i : I) (delivered : bool) (s : S) : option F * S :=
  match hd_evaluate i s with
  | (Some f, s') => (Some f, if delivered then hd_acknowledge f s' else s')
  | (None, s') => (None, s')
  end.

Fixpoint polls (l : list (I * bool)) (s : S) : list (I * bool * option F) :=
  match l with
  | [] => []
  | (i, d) :: l' => (i, d, (poll i d s).1) :: polls l' (poll i d s).2
  end.

(** The scores of the usable samples. *)
Definition scores (l : list (I * bool * option F)) : list Z := omap (λ p, hd_score p.1.1) l.
End history.

(** The contract of a detector over any history of polls: after a delivered alert
    the next one is higher, unless the risk went below it in between; an alert that
    was not delivered comes again with the next equal sample; an alert means that
    the last [hold] usable samples had its score. *)
Definition keeps_contract (S I F : Type) `{HysteresisDetector S I F} : Prop :=
  ∀ l : list (I * bool), let h := polls l hd_create in
    (∀ i j x y d f g e e', (i < j)%nat →
       h !! i = Some (x, true, Some f) → hd_finding_score f = Some e →
       h !! j = Some (y, d, Some g) → hd_finding_score g = Some e' → e' ≤ e →
       ∃ k p v, (i < k < j)%nat ∧ h !! k = Some p ∧ hd_score p.1.1 = Some v ∧ v < e')
    ∧ (∀ i x f e y d r,
         h !! i = Some (x, false, Some f) → hd_finding_score f = Some e →
         h !! Datatypes.S i = Some (y, d, r) → hd_score y = hd_score x →
         r ≫= hd_finding_score = Some e)
    ∧ (∀ j y d g e, h !! j = Some (y, d, Some g) → hd_finding_score g = Some e →
         hd_score y = Some e
         ∧ ∃ before, scores (take (Datatypes.S j) h) = before ++ replicate (Z.to_nat hd_hold) e).

(** ** Lemmas *)
Section machine.
Context (hold : Z).

(** One poll of the abstract machine. *)
Definition alarm_poll (score : option Z) (delivered : bool) (a : Alarm) : bool * Alarm :=
  let '(fires, a') := alarm_step hold score a in
  (fires, if fires && delivered then alarm_ack (default 0 score) a' else a').

(** Unless a lower sample comes, the acknowledged score stays at least [s]. *)
Lemma alarm_poll_acked score delivered a s :
  s ≤ al_acked a → (∀ x, score = Some x → s ≤ x) → s ≤ al_acked (alarm_poll score delivered a).2.
Proof.
  intros Ha Hx. unfold alarm_poll, alarm_step. destruct score as [x|]; simpl; [|by destruct delivered].
  specialize (Hx x eq_refl). destruct (Z.eqb_spec x 0); simpl; [lia|].
  destruct (_ && _); simpl; [|lia]. destruct delivered; simpl; lia.
Qed.

Lemma alarm_poll_fires score delivered a :
  (alarm_poll score delivered a).1 = true →
  ∃ s, score = Some s ∧ al_acked a < s ∧ s ≠ 0.
Proof.
  unfold alarm_poll, alarm_step. destruct score as [x|]; simpl; [|done].
  destruct (Z.eqb_spec x 0); simpl; [done|]. intros Hf%andb_true_iff. destruct Hf as [_ Hf%Z.ltb_lt].
  exists x. split_and!; [done| |done]. lia.
Qed.

Lemma alarm_poll_nonneg score delivered a :
  (∀ x, score = Some x → 0 ≤ x) → 0 ≤ al_acked a → 0 ≤ al_acked (alarm_poll score delivered a).2.
Proof. intros. by apply alarm_poll_acked. Qed.

(** An alarm that fires and is not acknowledged fires again on the same score. *)
Lemma alarm_refires score d a :
  (alarm_poll score false a).1 = true →
  (alarm_poll score d (alarm_poll score false a).2).1 = true.
Proof using Type.
  unfold alarm_poll, alarm_step. destruct score as [x|]; simpl; [|done].
  destruct (Z.eqb_spec x 0) as [|Hx]; simpl; [done|]. rewrite andb_false_r. simpl.
  rewrite Z.eqb_refl, !andb_true_iff, !Z.leb_le, !Z.ltb_lt.
  destruct (Z.eqb_spec x (al_last a)); lia.
Qed.

(** An alarm that fires has seen its score often enough. *)
Lemma alarm_fires_run s d a :
  (alarm_poll (Some s) d a).1 = true →
  al_last (alarm_poll (Some s) d a).2 = s ∧ hold ≤ al_run (alarm_poll (Some s) d a).2.
Proof using Type.
  unfold alarm_poll, alarm_step. simpl. destruct (Z.eqb_spec s 0); simpl; [done|].
  rewrite andb_true_iff, Z.leb_le. intros [Hr Hs]. rewrite Hs.
  destruct (hold <=? _), d; simpl; split; try done; lia.
Qed.
End machine.

(** A machine without a holding time. *)
Lemma alarm_step_now s a :
  0 ≤ s → 0 ≤ al_acked a → 0 ≤ al_run a →
  (alarm_step 1 (Some s) a).1 = (al_acked a <? s)
  ∧ al_acked (alarm_step 1 (Some s) a).2 = Z.min (al_acked a) s
  ∧ 0 ≤ al_run (alarm_step 1 (Some s) a).2.
Proof.
  intros Hs Ha Hr. unfold alarm_step. destruct (Z.eqb_spec s 0) as [->|Hn]; simpl.
  - split_and!; [symmetry; by apply Z.ltb_ge|lia|lia].
  - assert (Hrun : 1 ≤ (if s =? al_last a then al_run a + 1 else 1)) by (case_match; lia).
    rewrite (proj2 (Z.leb_le _ _) Hrun). simpl. split_and!; [|done|lia].
    destruct (Z.ltb_spec (Z.min (al_acked a) s) s), (Z.ltb_spec (al_acked a) s); lia || done.
Qed.

(** The scores so far end with the last score, as often as the machine counted. *)
Definition trailing (hist : list Z) (a : Alarm) : Prop :=
  0 ≤ al_run a ∧ ∃ l0, hist = l0 ++ replicate (Z.to_nat (al_run a)) (al_last a).

Lemma trailing_quiet hist : trailing hist quiet.
Proof. split; [done|]. exists hist. by rewrite app_nil_r. Qed.

Lemma alarm_poll_trailing hold score delivered a hist :
  trailing hist a → trailing (hist ++ option_list score) (alarm_poll hold score delivered a).2.
Proof.
  intros [Hr [l0 ->]]. unfold alarm_poll, alarm_step. destruct score as [x|]; simpl.
  2: { rewrite app_nil_r. destruct delivered; split; try done; by exists l0. }
  destruct (Z.eqb_spec x 0); simpl; [apply trailing_quiet|].
  assert (trailing ((l0 ++ replicate (Z.to_nat (al_run a)) (al_last a)) ++ [x])
            {| al_acked := Z.min (al_acked a) x; al_last := x;
               al_run := if x =? al_last a then al_run a + 1 else 1 |}) as [Hr' Ht].
  { destruct (Z.eqb_spec x (al_last a)) as [->|_]; split; simpl; try lia.
    - exists l0. rewrite <-app_assoc, Z2Nat.inj_add, Nat.add_1_r by lia.
      by rewrite replicate_S_end.
    - by exists (l0 ++ replicate (Z.to_nat (al_run a)) (al_last a)). }
  destruct (_ && delivered); by split.
Qed.

Section contract.
Context {S I F : Type} `{HysteresisLaws S I F}.
Implicit Types (l : list (I * bool)) (s : S) (a : Alarm).

Lemma poll_means i d s a :
  hd_means s a → 0 ≤ al_acked a →
  let r := poll i d s in
  let b := alarm_poll hd_hold (hd_score i) d a in
  hd_means r.2 b.2
  ∧ match r.1 ≫= hd_finding_score with
    | Some e => b.1 = true ∧ hd_score i = Some e
    | None => b.1 = false
    end.
Proof using Type*.
  intros Hm Ha. pose proof (hd_evaluate_means i s a Hm Ha) as He. cbn zeta in He |- *.
  unfold poll, alarm_poll. destruct (hd_evaluate i s) as [[f|] s'], (alarm_step _ _ _) as [b a'];
    simpl in *; destruct He as [Hm' Hb].
  - pose proof (hd_acknowledge_means f s' a' Hm') as Hk.
    destruct (hd_finding_score f) as [e|]; [destruct Hb as [-> Hs]; rewrite Hs|rewrite Hb];
      simpl; (split; [|done]); by destruct d.
  - rewrite Hb. done.
Qed.

Lemma poll_acked i d s a :
  0 ≤ al_acked a → 0 ≤ al_acked (alarm_poll hd_hold (hd_score (F:=F) (S:=S) i) d a).2.
Proof using Type*. apply alarm_poll_nonneg. apply hd_score_nonneg. Qed.

Lemma polls_split l s a hist i x d r :
  hd_means s a → 0 ≤ al_acked a → trailing hist a →
  polls l s !! i = Some (x, d, r) →
  ∃ si ai, hd_means si ai ∧ 0 ≤ al_acked ai ∧ trailing (hist ++ scores (take i (polls l s))) ai
    ∧ r = (poll x d si).1
    ∧ drop (Datatypes.S i) (polls l s) = polls (drop (Datatypes.S i) l) (poll x d si).2.
Proof using Type*.
  revert s a hist i. induction l as [|[y e] l IH]; intros s a hist i Hm Ha Ht Hi; [done|].
  destruct i as [|i]; simpl in Hi.
  - simplify_eq. exists s, a. rewrite app_nil_r. simpl. by rewrite !drop_0.
  - pose proof (poll_means y e s a Hm Ha) as [Hm' _].
    pose proof (alarm_poll_trailing hd_hold (hd_score y) e a hist Ht) as Ht'.
    destruct (IH _ _ _ _ Hm' (poll_acked y e s a Ha) Ht' Hi) as (si & ai & ? & ? & Htr & ? & ?).
    exists si, ai. split_and!; try done.
    rewrite <-app_assoc in Htr. unfold scores in Htr |- *. simpl.
    destruct (hd_score y); done.
Qed.

Lemma poll_finding i d s a f e :
  hd_means s a → 0 ≤ al_acked a → (poll i d s).1 = Some f → hd_finding_score f = Some e →
  hd_score i = Some e ∧ (alarm_poll hd_hold (hd_score i) d a).1 = true ∧ al_acked a < e.
Proof using Type*.
  intros Hm Ha Hf He. pose proof (poll_means i d s a Hm Ha) as [_ Hp]. rewrite Hf in Hp.
  simpl in Hp. rewrite He in Hp. destruct Hp as [Hb Hs]. split_and!; [done..|].
  apply alarm_poll_fires in Hb as (x & Hx & Hlt & _). rewrite Hs in Hx. by simplify_eq.
Qed.

(** An acknowledged score lasts until a lower one comes. *)
Lemma no_realert l s a j i d f e :
  hd_means s a → 0 ≤ al_acked a → e ≤ al_acked a → hd_finding_score f = Some e →
  polls l s !! j = Some (i, d, Some f) →
  ∃ k p x, (k < j)%nat ∧ polls l s !! k = Some p ∧ hd_score p.1.1 = Some x ∧ x < e.
Proof using Type*.
  intros Hm Ha Hf He. revert s a j Hm Ha Hf.
  induction l as [|[y o] l IH]; intros s a j Hm Ha Hf Hj; [done|].
  destruct j as [|j]; simpl in Hj.
  - injection Hj as -> -> Hj. apply (poll_finding i d s a f e Hm Ha) in Hj as (_ & _ & Hlt); [lia|done].
  - pose proof (poll_means y o s a Hm Ha) as [Hm' _].
    assert ((∃ x, hd_score y = Some x ∧ x < e) ∨ ∀ x, hd_score y = Some x → e ≤ x)
      as [(x & Hx & Hlt)|Hn].
    { destruct (hd_score y) as [x|]; [|right; naive_solver].
      destruct (Z.lt_ge_cases x e); [left; eauto|right; naive_solver]. }
    + exists 0%nat, (y, o, (poll y o s).1), x. simpl. split_and!; [lia|done..].
    + pose proof (alarm_poll_acked hd_hold _ o a _ Hf Hn) as Hf'.
      destruct (IH _ _ j Hm' (poll_acked y o s a Ha) Hf' Hj) as (k & p & x & Hk & Hp & Hx).
      exists (Datatypes.S k), p, x. split_and!; [lia|exact Hp|apply Hx..].
Qed.

(** The state a poll runs in, with the scores so far. *)
Lemma polls_at l i x d r :
  polls l hd_create !! i = Some (x, d, r) →
  ∃ si ai, hd_means si ai ∧ 0 ≤ al_acked ai ∧ trailing (scores (take i (polls l hd_create))) ai
    ∧ r = (poll x d si).1
    ∧ drop (Datatypes.S i) (polls l hd_create) = polls (drop (Datatypes.S i) l) (poll x d si).2.
Proof using Type*.
  intros Hi. exact (polls_split l _ _ [] i x d r hd_create_means ltac:(done) (trailing_quiet []) Hi).
Qed.

Lemma contract_escalates l i j x y d f g e e' :
  (i < j)%nat → polls l hd_create !! i = Some (x, true, Some f) → hd_finding_score f = Some e →
  polls l hd_create !! j = Some (y, d, Some g) → hd_finding_score g = Some e' → e' ≤ e →
  ∃ k p v, (i < k < j)%nat ∧ polls l hd_create !! k = Some p ∧ hd_score p.1.1 = Some v ∧ v < e'.
Proof using Type*.
  intros Hij Hi He Hj He' Hle.
  destruct (polls_at l i x true (Some f) Hi) as (si & ai & Hm & Ha & _ & Hr & Hd).
  pose proof (poll_means x true si ai Hm Ha) as [Hm' _].
  destruct (poll_finding x true si ai f e Hm Ha (eq_sym Hr) He) as (Hs & Hb & _).
  assert (Hack : al_acked (alarm_poll hd_hold (hd_score x) true ai).2 = e).
  { revert Hb. rewrite Hs. unfold alarm_poll.
    destruct (alarm_step _ _ _) as [b a']. simpl. by intros ->. }
  assert (Hjd : polls (drop (Datatypes.S i) l) (poll x true si).2 !! (j - Datatypes.S i)%nat
                = Some (y, d, Some g)).
  { rewrite <-Hd, lookup_drop. by replace (Datatypes.S i + (j - Datatypes.S i))%nat with j by lia. }
  destruct (no_realert _ _ _ _ _ _ _ e' Hm' ltac:(by apply poll_acked) ltac:(by rewrite Hack) He' Hjd)
    as (k & p & v & Hk & Hp & Hv).
  exists (Datatypes.S i + k)%nat, p, v. split_and!; [lia|lia| |apply Hv..].
  by rewrite <-Hp, <-Hd, lookup_drop.
Qed.

Lemma contract_retries l i x f e y d r :
  polls l hd_create !! i = Some (x, false, Some f) → hd_finding_score f = Some e →
  polls l hd_create !! Datatypes.S i = Some (y, d, r) → hd_score y = hd_score x →
  r ≫= hd_finding_score = Some e.
Proof using Type*.
  intros Hi He Hj Hxy. destruct (polls_at l i x false (Some f) Hi) as (si & ai & Hm & Ha & _ & Hr & Hd).
  pose proof (poll_means x false si ai Hm Ha) as [Hm' _].
  destruct (poll_finding x false si ai f e Hm Ha (eq_sym Hr) He) as (Hs & Hb & _).
  assert (Hj' : polls (drop (Datatypes.S i) l) (poll x false si).2 !! 0%nat = Some (y, d, r)).
  { by rewrite <-Hd, lookup_drop, Nat.add_0_r. }
  destruct (drop (Datatypes.S i) l) as [|[y' d'] l']; [done|]. simpl in Hj'. injection Hj' as -> -> <-.
  pose proof (poll_means y d _ _ Hm' ltac:(by apply poll_acked)) as [_ Hq].
  apply (alarm_refires _ _ d) in Hb. rewrite Hxy, Hs in Hq. rewrite Hs in Hb.
  destruct ((poll y d _).1 ≫= hd_finding_score) as [e'|]; [naive_solver|congruence].
Qed.

Lemma contract_lasts l j y d g e :
  polls l hd_create !! j = Some (y, d, Some g) → hd_finding_score g = Some e →
  hd_score y = Some e
  ∧ ∃ before, scores (take (Datatypes.S j) (polls l hd_create))
              = before ++ replicate (Z.to_nat hd_hold) e.
Proof using Type*.
  intros Hj He. destruct (polls_at l j y d (Some g) Hj) as (sj & aj & Hm & Ha & Ht & Hr & _).
  destruct (poll_finding y d sj aj g e Hm Ha (eq_sym Hr) He) as (Hs & Hb & _). split; [done|].
  apply (alarm_poll_trailing hd_hold (hd_score y) d) in Ht as Ht'. rewrite Hs in Hb, Ht'.
  rewrite (take_S_r _ _ _ Hj). unfold scores in *. rewrite omap_app. simpl. rewrite Hs.
  destruct Ht' as [_ [l0 Hl]]. simpl in Hl. rewrite Hl.
  apply alarm_fires_run in Hb as [-> Hle].
  set (run := al_run _) in *.
  replace (Z.to_nat run) with ((Z.to_nat run - Z.to_nat hd_hold) + Z.to_nat hd_hold)%nat by lia.
  rewrite replicate_add, app_assoc. by eexists.
Qed.

Lemma contract : keeps_contract S I F.
Proof using Type*.
  intros l h. split_and!.
  - intros i j x y d f g e e'. apply contract_escalates.
  - intros i x f e y d r. apply contract_retries.
  - intros j y d g e. apply contract_lasts.
Qed.
End contract.
