(* ===== verification/LoadSaturation.v ===== *)
(** * Event-loop load saturation

    [load-saturation-detector.ts]: the fraction of wall-clock time the event loop
    is busy, classified into levels that must hold for three polls.  The number
    format of the host's locale ([toLocaleString]) is an argument; it only shows in
    the message. *)
From S2P Require Export Hysteresis.
From stdpp Require Import options.

(** ** Definitions *)
Definition LOAD_WARN_FRACTION : number := num_of_decimal false 8 (-1).
Definition LOAD_CRIT_FRACTION : number := num_of_decimal false 95 (-2).
Definition LOAD_CONSECUTIVE_REQUIRED : Z := 3.
Definition LOAD_CPU_UNDERSTATE_GAP : number := num_of_Z 15.

Record LoadSaturationInput := {
  ls_eventloopDurationUsecPerCycle : option number;
  ls_eventloopCyclesPerSec : option number;
  ls_cpuUtilizationPct : option number;
  ls_opsPerSec : option number;
  ls_timestamp : Z
}.

Record LoadSaturationState := {
  lss_ackedLevel : RiskLevel;
  lss_lastLevel : RiskLevel;
  lss_consecutive : Z
}.

Record LoadSaturationFinding := {
  lf_level : RiskLevel;
  lf_busyFraction : number;
  lf_message : string;
  lf_timestamp : Z
}.

Definition createLoadSaturationState : LoadSaturationState :=
  {| lss_ackedLevel := L_none; lss_lastLevel := L_none; lss_consecutive := 0 |}.

Definition classify (busyFraction : number) : RiskLevel :=
  if num_leb LOAD_CRIT_FRACTION busyFraction then L_critical
  else if num_leb LOAD_WARN_FRACTION busyFraction then L_warning
  else L_none.

Section load.
Context (toLocaleString : number → string).

Definition buildMessage (level : RiskLevel) (busyFraction : number) (input : LoadSaturationInput)
    : string :=
  let busyPct := num_mul busyFraction (num_of_Z 100) in
  let cyclesPart :=
    match ls_eventloopCyclesPerSec input with
    | Some c => toLocaleString (math_round c) +:+ " event-loop cycles/sec"
    | None => "event-loop cycles"
    end in
  let opsPart :=
    match ls_opsPerSec input with
    | Some o => ", " +:+ toLocaleString (math_round o) +:+ " ops/sec"
    | None => EmptyString
    end in
  let cpuPart :=
    match ls_cpuUtilizationPct input with
    | Some cpu =>
        if num_ltb cpu (num_sub busyPct LOAD_CPU_UNDERSTATE_GAP) then
          " CPU utilization reads only " +:+ num_to_fixed 1 cpu
          +:+ "%, which UNDERSTATES the real load — on a largely single-threaded server CPU% is not a comprehensive busyness indicator (valkey#2055)."
        else " (CPU utilization " +:+ num_to_fixed 1 cpu +:+ "%.)"
    | None => EmptyString
    end in
  (if decide (level = L_critical) then "CRITICAL" else "WARNING")
  +:+ ": Event loop busy " +:+ num_to_fixed 1 busyPct +:+ "% of wall-clock time ("
  +:+ cyclesPart +:+ opsPart +:+ ") — the server is "
  +:+ (if decide (level = L_critical) then "saturated" else "approaching saturation")
  +:+ " and cannot do meaningfully more work." +:+ cpuPart
  +:+ " Look for slow commands, big O(N) operations (KEYS, large SMEMBERS/HGETALL, unbounded ranges), or a single-thread bottleneck rather than just adding CPU (valkey#2055).".

(** The sample's busy fraction, [None] when the server does not report it. *)
Definition busy_fraction (input : LoadSaturationInput) : option number :=
  match ls_eventloopDurationUsecPerCycle input, ls_eventloopCyclesPerSec input with
  | Some duration, Some cycles =>
      if negb (is_finite duration) || negb (is_finite cycles)
         || num_ltb duration (num_of_Z 0) || num_ltb cycles (num_of_Z 0)
      then None
      else
        let rawFraction := num_div (num_mul duration cycles) (num_of_Z 1000000) in
        Some (num_max (num_of_Z 0) (num_min (num_of_Z 1) rawFraction))
  | _, _ => None
  end.

Definition evaluateLoadSaturation (input : LoadSaturationInput) (state : LoadSaturationState)
    : option LoadSaturationFinding * LoadSaturationState :=
  match busy_fraction input with
  | None => (None, state)
  | Some busyFraction =>
      let level := classify busyFraction in
      if decide (level = L_none) then
        (None, {| lss_ackedLevel := L_none; lss_lastLevel := L_none; lss_consecutive := 0 |})
      else
        let consecutive :=
          (if decide (level = lss_lastLevel state) then lss_consecutive state else 0) + 1 in
        let ackedLevel :=
          if LEVEL_RANK level <? LEVEL_RANK (lss_ackedLevel state) then level
          else lss_ackedLevel state in
        let state' := {| lss_ackedLevel := ackedLevel; lss_lastLevel := level;
                         lss_consecutive := consecutive |} in
        if consecutive <? LOAD_CONSECUTIVE_REQUIRED then (None, state')
        else if negb (LEVEL_RANK ackedLevel <? LEVEL_RANK level) then (None, state')
        else (Some {| lf_level := level; lf_busyFraction := busyFraction;
                      lf_message := buildMessage level busyFraction input;
                      lf_timestamp := ls_timestamp input |}, state')
  end.

Definition acknowledgeLoadSaturationFinding (finding : LoadSaturationFinding)
    (state : LoadSaturationState) : LoadSaturationState :=
  {| lss_ackedLevel := lf_level finding; lss_lastLevel := lss_lastLevel state;
     lss_consecutive := lss_consecutive state |}.

(** ** Specification *)
Definition load_means (s : LoadSaturationState) (a : Alarm) : Prop :=
  al_acked a = LEVEL_RANK (lss_ackedLevel s) ∧ al_last a = LEVEL_RANK (lss_lastLevel s)
  ∧ al_run a = lss_consecutive s.

#[global] Instance load_detector
    : HysteresisDetector LoadSaturationState LoadSaturationInput LoadSaturationFinding := {
  hd_create := createLoadSaturationState;
  hd_evaluate := evaluateLoadSaturation;
  hd_acknowledge := acknowledgeLoadSaturationFinding;
  hd_score i := LEVEL_RANK ∘ classify <$> busy_fraction i;
  hd_finding_score f := Some (LEVEL_RANK (lf_level f));
  hd_hold := LOAD_CONSECUTIVE_REQUIRED;
  hd_means := load_means
}.

(** ** Lemmas *)
#[global] Instance load_laws
    : HysteresisLaws LoadSaturationState LoadSaturationInput LoadSaturationFinding.
Proof using Type.
  split.
  - intros i s. cbn. destruct (busy_fraction i); [|done]. intros [= <-]. cbn.
    destruct (classify _); done.
  - done.
  - intros i s a (Ha & Hl & Hr) _. cbn. unfold evaluateLoadSaturation, LOAD_CONSECUTIVE_REQUIRED.
    destruct (busy_fraction i) as [f|]; cbn; [|by split].
    destruct a as [acked last run], s as [sa sl sc]; cbn in *; subst.
    destruct (classify f) eqn:Hc; [done|..];
      destruct sl; repeat (case_decide; try congruence); unfold load_means; cbn;
      (destruct (Z.ltb_spec (sc + 1) 3) as [Hn|Hn] || idtac);
      destruct sa; cbn; rewrite ?(proj2 (Z.leb_le 3 (sc + 1))), ?(proj2 (Z.leb_gt 3 (sc + 1))) by lia;
      cbn; split_and!; done.
  - intros f s a (Ha & Hl & Hr). done.
Qed.

(** ** Theorems *)

(** Whatever the samples and whichever alerts could be delivered, the load
    detector keeps the alert contract: an alert means three usable polls in a row in
    its band; a delivered alert is followed by a higher one or by a drop first; an
    alert that was not delivered comes again. *)
Theorem load_keeps_contract :
  keeps_contract LoadSaturationState LoadSaturationInput LoadSaturationFinding.
Proof using Type. apply contract; apply _. Qed.
End load.
