(* ===== verification/MemoryOverhead.v ===== *)
(** * Non-dataset memory overhead

    [memory-overhead-detector.ts]: the share of [maxmemory] that goes to buffers,
    backlogs and scripts.  A sample whose numbers contradict each other is left out;
    a long run of such samples is worth one note. *)
From S2P Require Export Hysteresis.
From stdpp Require Import options.

(** ** Definitions *)
Definition OVERHEAD_WARN_FRACTION : number := num_of_decimal false 3 (-1).
Definition OVERHEAD_CRIT_FRACTION : number := num_of_decimal false 5 (-1).
Definition EVICTION_OVERHEAD_MIN_FRACTION : number := OVERHEAD_WARN_FRACTION.
Definition INVALID_SAMPLE_NOTE_STREAK : Z := 10.

(** The keys of [OverheadComponents], in the order of the object. *)
Inductive Component :=
  | clientsNormal | clientsSlaves | replBacklog | replBuffers | aofBuffer
  | scriptsFunctions | clusterLinks.
Definition component_keys : list Component :=
  [clientsNormal; clientsSlaves; replBacklog; replBuffers; aofBuffer; scriptsFunctions; clusterLinks].
Definition OverheadComponents := Component → number.
Definition component_key (c : Component) : string :=
  match c with
  | clientsNormal => "clientsNormal"
  | clientsSlaves => "clientsSlaves"
  | replBacklog => "replBacklog"
  | replBuffers => "replBuffers"
  | aofBuffer => "aofBuffer"
  | scriptsFunctions => "scriptsFunctions"
  | clusterLinks => "clusterLinks"
  end.

Record MemoryOverheadInput := {
  mi_usedMemory : number;
  mi_usedMemoryOverhead : number;
  mi_usedMemoryStartup : number;
  mi_usedMemoryDataset : number;
  mi_usedMemoryDatasetPerc : option number;
  mi_maxmemory : number;
  mi_maxmemoryPolicy : string;
  mi_components : OverheadComponents;
  mi_evictedKeysDelta : number;
  mi_timestamp : Z
}.

Record MemoryOverheadState := {
  mos_ackedLevel : RiskLevel;
  mos_invalidSampleStreak : Z;
  mos_inconsistencyNoted : bool
}.

(** The level of a finding: a note, or one of the two levels above none. *)
Inductive FindingLevel := F_info | F_level (level : RiskLevel).

Record MemoryOverheadFinding := {
  mf_level : FindingLevel;
  mf_overheadBytes : number;
  mf_overheadFraction : number;
  mf_thresholdFraction : number;
  mf_dominantComponent : string;
  mf_message : string;
  mf_timestamp : Z
}.

Definition COMPONENT_LABELS (c : Component) : string :=
  match c with
  | clientsNormal => "normal client output buffers"
  | clientsSlaves => "replica client output buffers"
  | replBacklog => "replication backlog"
  | replBuffers => "replication buffers"
  | aofBuffer => "AOF buffer"
  | scriptsFunctions => "scripts/functions"
  | clusterLinks => "cluster links"
  end.

Definition COMPONENT_REMEDY (c : Component) : string :=
  match c with
  | clientsNormal => "tune client-output-buffer-limit normal or shed slow/idle clients"
  | clientsSlaves => "tune client-output-buffer-limit slave or reduce the write burst to replicas"
  | replBacklog => "lower repl-backlog-size"
  | replBuffers => "lower repl-backlog-size or reduce the replication write burst"
  | aofBuffer => "investigate a stalled AOF rewrite / slow disk flushing the AOF buffer"
  | scriptsFunctions => "reduce the number/size of cached scripts (SCRIPT FLUSH) or functions"
  | clusterLinks => "investigate cluster-bus link buffering (large cluster / unstable links)"
  end.

Definition createMemoryOverheadState : MemoryOverheadState :=
  {| mos_ackedLevel := L_none; mos_invalidSampleStreak := 0; mos_inconsistencyNoted := false |}.

Definition n0 : number := num_of_Z 0.
Definition n1024 : number := num_of_Z 1024.

Definition formatBytes (bytes : number) : string :=
  if num_ltb bytes n1024 then num_to_string (num_max n0 (math_round bytes)) +:+ "B"
  else
    let kb := num_div bytes n1024 in
    if num_ltb kb n1024 then num_to_string (math_round kb) +:+ "KB"
    else
      let mb := num_div kb n1024 in
      if num_ltb mb n1024 then num_to_string (math_round mb) +:+ "MB"
      else num_to_fixed 1 (num_div mb n1024) +:+ "GB".

Definition dominantComponent (components : OverheadComponents) : option Component * number :=
  let '(bestKey, bestBytes) :=
    foldl (λ '(bestKey, bestBytes) key,
             if num_ltb bestBytes (components key) then (key, components key)
             else (bestKey, bestBytes))
      (clientsNormal, components clientsNormal) component_keys in
  if num_leb bestBytes n0 then (None, n0) else (Some bestKey, bestBytes).

Definition sampleInconsistent (input : MemoryOverheadInput) : bool :=
  num_ltb (mi_usedMemory input) (mi_usedMemoryOverhead input)
  || num_ltb (mi_usedMemory input) (mi_usedMemoryDataset input)
  || match mi_usedMemoryDatasetPerc input with
     | Some p => num_ltb (num_of_Z 100) p
     | None => false
     end.

Definition operationalOverhead (input : MemoryOverheadInput) : number :=
  num_max n0 (num_sub (mi_usedMemoryOverhead input) (mi_usedMemoryStartup input)).
Definition overheadFraction (input : MemoryOverheadInput) : number :=
  num_div (operationalOverhead input) (mi_maxmemory input).
Definition overheadSqueezingData (input : MemoryOverheadInput) : bool :=
  let evictionActive := negb (str_eqb (mi_maxmemoryPolicy input) "noeviction")
                        && num_ltb n0 (mi_evictedKeysDelta input) in
  evictionActive
  && num_leb EVICTION_OVERHEAD_MIN_FRACTION (overheadFraction input)
  && num_ltb (mi_usedMemoryDataset input) (operationalOverhead input).
Definition overhead_level (input : MemoryOverheadInput) : RiskLevel :=
  if num_leb OVERHEAD_CRIT_FRACTION (overheadFraction input) || overheadSqueezingData input
  then L_critical
  else if num_leb OVERHEAD_WARN_FRACTION (overheadFraction input) then L_warning
  else L_none.

Definition inconsistency_note (streak : Z) (input : MemoryOverheadInput) : MemoryOverheadFinding :=
  {| mf_level := F_info; mf_overheadBytes := n0; mf_overheadFraction := n0;
     mf_thresholdFraction := n0; mf_dominantComponent := "unknown";
     mf_message := "INFO: Memory accounting has looked inconsistent for " +:+ string_of_Z streak
       +:+ " consecutive polls (used_memory_overhead exceeds used_memory, so used_memory_dataset underflows). A single such sample is a known transient reporting artifact (valkey#1373, most visible on replicas) and is skipped by the memory-overhead detector to avoid false alerts — but a run this long is worth a look at the instance's memory accounting.";
     mf_timestamp := mi_timestamp input |}.

Definition overhead_message (level : RiskLevel) (input : MemoryOverheadInput) : string :=
  let '(key, bytes) := dominantComponent (mi_components input) in
  let pct := num_to_fixed 1 (num_mul (overheadFraction input) (num_of_Z 100)) in
  let dominantClause :=
    match key with
    | Some k => ", dominated by " +:+ COMPONENT_LABELS k +:+ " (" +:+ formatBytes bytes +:+ ")"
    | None => " (per-component mem_* breakdown unavailable)"
    end in
  let remedy :=
    match key with
    | Some k => COMPONENT_REMEDY k
    | None => "inspect the INFO memory mem_* fields to find the dominant consumer"
    end in
  let squeezeClause :=
    if overheadSqueezingData input then
      " Eviction is active (" +:+ num_to_string (mi_evictedKeysDelta input)
      +:+ " keys evicted since last poll under maxmemory-policy " +:+ mi_maxmemoryPolicy input
      +:+ ") and overhead (" +:+ formatBytes (operationalOverhead input)
      +:+ ") now exceeds the user dataset itself ("
      +:+ formatBytes (num_max n0 (mi_usedMemoryDataset input))
      +:+ ") — non-dataset memory is the dominant consumer driving eviction."
    else EmptyString in
  (if decide (level = L_critical) then "CRITICAL" else "WARNING")
  +:+ ": Non-dataset memory overhead is " +:+ formatBytes (operationalOverhead input)
  +:+ " (" +:+ pct +:+ "% of maxmemory " +:+ formatBytes (mi_maxmemory input) +:+ ")"
  +:+ dominantClause
  +:+ ". This overhead is charged against the maxmemory budget, leaving less room for user data (valkey#1792)."
  +:+ squeezeClause +:+ " Remediation: " +:+ remedy +:+ ", or raise maxmemory.".

Definition overhead_finding (level : RiskLevel) (input : MemoryOverheadInput) : MemoryOverheadFinding :=
  {| mf_level := F_level level; mf_overheadBytes := operationalOverhead input;
     mf_overheadFraction := overheadFraction input;
     mf_thresholdFraction :=
       if decide (level = L_critical) then
         if num_leb OVERHEAD_CRIT_FRACTION (overheadFraction input) then OVERHEAD_CRIT_FRACTION
         else EVICTION_OVERHEAD_MIN_FRACTION
       else OVERHEAD_WARN_FRACTION;
     mf_dominantComponent :=
       match (dominantComponent (mi_components input)).1 with
       | Some k => component_key k
       | None => "unknown"
       end;
     mf_message := overhead_message level input; mf_timestamp := mi_timestamp input |}.

Definition evaluateMemoryOverhead (input : MemoryOverheadInput) (state : MemoryOverheadState)
    : option MemoryOverheadFinding * MemoryOverheadState :=
  if sampleInconsistent input then
    let streak := mos_invalidSampleStreak state + 1 in
    let state' := {| mos_ackedLevel := mos_ackedLevel state; mos_invalidSampleStreak := streak;
                     mos_inconsistencyNoted := mos_inconsistencyNoted state |} in
    if (INVALID_SAMPLE_NOTE_STREAK <=? streak) && negb (mos_inconsistencyNoted state)
    then (Some (inconsistency_note streak input), state')
    else (None, state')
  else
    let state1 := {| mos_ackedLevel := mos_ackedLevel state; mos_invalidSampleStreak := 0;
                     mos_inconsistencyNoted := false |} in
    if num_leb (mi_maxmemory input) n0 then (None, state1)
    else
      let level := overhead_level input in
      let acked := if LEVEL_RANK level <? LEVEL_RANK (mos_ackedLevel state) then level
                   else mos_ackedLevel state in
      let state2 := {| mos_ackedLevel := acked; mos_invalidSampleStreak := 0;
                       mos_inconsistencyNoted := false |} in
      if (LEVEL_RANK level <=? LEVEL_RANK acked) || bool_decide (level = L_none)
      then (None, state2)
      else (Some (overhead_finding level input), state2).

Definition acknowledgeMemoryOverheadFinding (finding : MemoryOverheadFinding)
    (state : MemoryOverheadState) : MemoryOverheadState :=
  match mf_level finding with
  | F_info =>
      {| mos_ackedLevel := mos_ackedLevel state;
         mos_invalidSampleStreak := mos_invalidSampleStreak state; mos_inconsistencyNoted := true |}
  | F_level level =>
      {| mos_ackedLevel := level; mos_invalidSampleStreak := mos_invalidSampleStreak state;
         mos_inconsistencyNoted := mos_inconsistencyNoted state |}
  end.

(** ** Specification *)
Definition usable (input : MemoryOverheadInput) : bool :=
  negb (sampleInconsistent input) && negb (num_leb (mi_maxmemory input) n0).

#[global] Instance overhead_detector
    : HysteresisDetector MemoryOverheadState MemoryOverheadInput MemoryOverheadFinding := {
  hd_create := createMemoryOverheadState;
  hd_evaluate := evaluateMemoryOverhead;
  hd_acknowledge := acknowledgeMemoryOverheadFinding;
  hd_score i := if usable i then Some (LEVEL_RANK (overhead_level i)) else None;
  hd_finding_score f := match mf_level f with F_info => None | F_level l => Some (LEVEL_RANK l) end;
  hd_hold := 1;
  hd_means s a := al_acked a = LEVEL_RANK (mos_ackedLevel s) ∧ 0 ≤ al_run a
}.

(** ** Lemmas *)
#[local] Opaque n0.
#[global] Instance overhead_laws
    : HysteresisLaws MemoryOverheadState MemoryOverheadInput MemoryOverheadFinding.
Proof.
  split.
  - intros i s. cbn. destruct (usable i); [|done]. intros [= <-]. by destruct (overhead_level i).
  - done.
  - intros i s a (Ha & Hr) Hacked. cbn -[alarm_step]. unfold evaluateMemoryOverhead, usable.
    destruct (sampleInconsistent i); cbn -[alarm_step].
    { destruct ((_ <=? _) && _); cbn; by split_and!. }
    destruct (num_leb (mi_maxmemory i) n0); cbn -[alarm_step]; [by split_and!|].
    destruct (alarm_step_now (LEVEL_RANK (overhead_level i)) a) as (-> & -> & Hr');
      [by destruct (overhead_level i)|done|done|]. rewrite Ha.
    destruct (overhead_level i), (mos_ackedLevel s); cbn; repeat case_bool_decide; try congruence; done.
  - intros f s a (Ha & Hr). cbn. unfold acknowledgeMemoryOverheadFinding. by destruct (mf_level f).
Qed.

(** ** Theorems *)

(** The memory overhead detector keeps the alert contract over any history of
    polls, samples with contradicting numbers included: those neither raise, nor
    lower, nor acknowledge anything. *)
Theorem overhead_keeps_contract :
  keeps_contract MemoryOverheadState MemoryOverheadInput MemoryOverheadFinding.
Proof. apply contract; apply _. Qed.
