(* ===== verification/ForkMemoryRisk.v ===== *)
(** * Copy-on-write memory risk of a fork

    [fork-memory-risk-detector.ts]: the memory a running save, or the next one, may
    need against the memory of the host.  A risk of a running save outranks the
    projected one of the same level.  [toLocaleString] is an argument; it only shows
    in the message. *)
From S2P Require Export Hysteresis.
From stdpp Require Import options.

(** ** Definitions *)
Definition FORK_OOM_WARN_FRACTION : number := num_of_decimal false 8 (-1).
Definition FORK_OOM_CRIT_FRACTION : number := num_of_decimal false 9 (-1).
Definition SLOW_FORK_USEC : number := num_of_Z 500000.
Definition FORK_PROJECT_WRITE_RATE_PER_SEC : number := num_of_Z 1000.

Inductive ForkRiskKind := live_cow_oom | projected_fork_oom.

Record ForkMemoryInput := {
  fi_bgsaveInProgress : bool;
  fi_aofRewriteInProgress : bool;
  fi_currentCowSize : option number;
  fi_rdbLastCowSize : option number;
  fi_aofLastCowSize : option number;
  fi_latestForkUsec : option number;
  fi_usedMemory : number;
  fi_usedMemoryRss : option number;
  fi_totalSystemMemory : option number;
  fi_writeRatePerSec : option number;
  fi_timestamp : Z
}.

Record ForkMemoryState := { fs_ackedLevel : RiskLevel; fs_ackedKind : ForkRiskKind }.

Record ForkMemoryFinding := {
  ff_level : RiskLevel;
  ff_kind : ForkRiskKind;
  ff_projectedFraction : number;
  ff_message : string;
  ff_timestamp : Z
}.

Definition severityScore (level : RiskLevel) (kind : ForkRiskKind) : Z :=
  match level with
  | L_none => 0
  | _ =>
      let levelPart := match level with L_critical => 2 | _ => 1 end in
      let kindPart := match kind with live_cow_oom => 1 | projected_fork_oom => 0 end in
      levelPart * 10 + kindPart
  end.

Definition createForkMemoryState : ForkMemoryState :=
  {| fs_ackedLevel := L_none; fs_ackedKind := projected_fork_oom |}.

Definition num0 : number := num_of_Z 0.

Definition formatBytes (bytes : number) : string :=
  let gb := num_div bytes (num_of_Z (1024 * 1024 * 1024)) in
  if num_leb (num_of_Z 1) gb then num_to_fixed 1 gb +:+ "GB"
  else num_to_string (math_round (num_div bytes (num_of_Z (1024 * 1024)))) +:+ "MB".

Definition OVERCOMMIT_REMEDY : string :=
  "Ensure vm.overcommit_memory=1 (not readable from INFO — verify on the host) and enough RAM headroom, reduce the write burst during saves, or consider a replica-offloaded / forkless save.".

Definition saveLabel (input : ForkMemoryInput) : string :=
  if fi_bgsaveInProgress input && fi_aofRewriteInProgress input then "BGSAVE + AOF rewrite"
  else if fi_aofRewriteInProgress input then "AOF rewrite"
  else "BGSAVE".

Definition slowForkNote (latestForkUsec : option number) : string :=
  match latestForkUsec with
  | Some u =>
      if num_ltb SLOW_FORK_USEC u then
        " The last fork itself took " +:+ num_to_fixed 2 (num_div u (num_of_Z 1000000))
        +:+ "s (latest_fork_usec) — a slow fork points to a large dataset or transparent huge pages (THP), which also stalls the main thread during the fork."
      else EmptyString
  | None => EmptyString
  end.

Record Assessment := {
  as_level : RiskLevel;
  as_kind : ForkRiskKind;
  as_projectedFraction : number;
  as_message : string
}.
Definition NONE_LIVE : Assessment :=
  {| as_level := L_none; as_kind := live_cow_oom; as_projectedFraction := num0;
     as_message := EmptyString |}.
Definition NONE_PROJECTED : Assessment :=
  {| as_level := L_none; as_kind := projected_fork_oom; as_projectedFraction := num0;
     as_message := EmptyString |}.

(** [total_system_memory] when it is known and positive *)
Definition system_memory (input : ForkMemoryInput) : option number :=
  match fi_totalSystemMemory input with
  | Some m => if num_ltb num0 m then Some m else None
  | None => None
  end.
Definition basis (input : ForkMemoryInput) : number :=
  default (fi_usedMemory input) (fi_usedMemoryRss input).
Definition percent (fraction : number) : string := num_to_fixed 1 (num_mul fraction (num_of_Z 100)).

(** The path of a save in progress *)
Definition assess_live (input : ForkMemoryInput) : Assessment :=
  match system_memory input with
  | None => NONE_LIVE
  | Some systemMemory =>
      let cow := default num0 (fi_currentCowSize input) in
      let projectedPeak := num_add (basis input) cow in
      let fraction := num_div projectedPeak systemMemory in
      let level := if num_leb FORK_OOM_CRIT_FRACTION fraction then L_critical
                   else if num_leb FORK_OOM_WARN_FRACTION fraction then L_warning else L_none in
      if decide (level = L_none) then NONE_LIVE
      else
        {| as_level := level; as_kind := live_cow_oom; as_projectedFraction := fraction;
           as_message :=
             saveLabel input +:+ " in progress: projected peak RSS ~" +:+ formatBytes projectedPeak
             +:+ " (current RSS " +:+ formatBytes (basis input) +:+ " + COW " +:+ formatBytes cow
             +:+ ") is " +:+ percent fraction +:+ "% of total system memory ("
             +:+ formatBytes systemMemory
             +:+ "). Copy-on-write amplification from writes during the save can push RSS past available RAM and let the OOM killer terminate the server mid-save (valkey#3609). "
             +:+ OVERCOMMIT_REMEDY +:+ slowForkNote (fi_latestForkUsec input) |}
  end.

Section fork.
Context (toLocaleString : number → string).

(** The path with no save in progress *)
Definition assess_projected (input : ForkMemoryInput) : Assessment :=
  match system_memory input with
  | None => NONE_PROJECTED
  | Some systemMemory =>
      let lastCow := num_max (default num0 (fi_rdbLastCowSize input))
                             (default num0 (fi_aofLastCowSize input)) in
      if num_leb lastCow num0 then NONE_PROJECTED
      else
        match fi_writeRatePerSec input with
        | None => NONE_PROJECTED
        | Some rate =>
            if negb (num_leb FORK_PROJECT_WRITE_RATE_PER_SEC rate) then NONE_PROJECTED
            else
              let projectedPeak := num_add (basis input) lastCow in
              let fraction := num_div projectedPeak systemMemory in
              if num_ltb fraction FORK_OOM_WARN_FRACTION then NONE_PROJECTED
              else
                {| as_level := L_warning; as_kind := projected_fork_oom;
                   as_projectedFraction := fraction;
                   as_message :=
                     "No save in progress but write pressure is high (write rate ~"
                     +:+ toLocaleString (math_round rate)
                     +:+ " writes/s): the next BGSAVE / AOF rewrite fork is projected to reach ~"
                     +:+ formatBytes projectedPeak +:+ " RSS (current RSS "
                     +:+ formatBytes (basis input) +:+ " + last-save COW " +:+ formatBytes lastCow
                     +:+ ") = " +:+ percent fraction +:+ "% of total system memory ("
                     +:+ formatBytes systemMemory
                     +:+ "), past safe headroom — risks a copy-on-write OOM kill when a save is next triggered (valkey#3609). "
                     +:+ OVERCOMMIT_REMEDY +:+ slowForkNote (fi_latestForkUsec input) |}
        end
  end.

Definition assess (input : ForkMemoryInput) : Assessment :=
  if fi_bgsaveInProgress input || fi_aofRewriteInProgress input then assess_live input
  else assess_projected input.

Definition evaluateForkMemoryRisk (input : ForkMemoryInput) (state : ForkMemoryState)
    : option ForkMemoryFinding * ForkMemoryState :=
  let assessment := assess input in
  let currentScore := severityScore (as_level assessment) (as_kind assessment) in
  let state' :=
    if currentScore <? severityScore (fs_ackedLevel state) (fs_ackedKind state) then
      {| fs_ackedLevel := as_level assessment; fs_ackedKind := as_kind assessment |}
    else state in
  if negb (severityScore (fs_ackedLevel state') (fs_ackedKind state') <? currentScore)
  then (None, state')
  else (Some {| ff_level := if decide (as_level assessment = L_critical) then L_critical
                            else L_warning;
                ff_kind := as_kind assessment;
                ff_projectedFraction := as_projectedFraction assessment;
                ff_message := as_message assessment; ff_timestamp := fi_timestamp input |}, state').

Definition acknowledgeForkMemoryFinding (finding : ForkMemoryFinding) (state : ForkMemoryState)
    : ForkMemoryState :=
  {| fs_ackedLevel := ff_level finding; fs_ackedKind := ff_kind finding |}.

(** ** Specification *)
Definition fork_score (input : ForkMemoryInput) : Z :=
  severityScore (as_level (assess input)) (as_kind (assess input)).

#[global] Instance fork_detector
    : HysteresisDetector ForkMemoryState ForkMemoryInput ForkMemoryFinding := {
  hd_create := createForkMemoryState;
  hd_evaluate := evaluateForkMemoryRisk;
  hd_acknowledge := acknowledgeForkMemoryFinding;
  hd_score i := Some (fork_score i);
  hd_finding_score f := Some (severityScore (ff_level f) (ff_kind f));
  hd_hold := 1;
  hd_means s a := al_acked a = severityScore (fs_ackedLevel s) (fs_ackedKind s) ∧ 0 ≤ al_run a
}.

(** ** Lemmas *)
Lemma severityScore_nonneg l k : 0 ≤ severityScore l k.
Proof using Type. by destruct l, k. Qed.

#[global] Instance fork_laws : HysteresisLaws ForkMemoryState ForkMemoryInput ForkMemoryFinding.
Proof using Type.
  split.
  - intros i s [= <-]. apply severityScore_nonneg.
  - done.
  - intros i s a (Ha & Hr) Hacked. cbn -[alarm_step].
    destruct (alarm_step_now (fork_score i) a) as (-> & -> & Hr'); [apply severityScore_nonneg|done|done|].
    rewrite Ha. revert Hr'. unfold evaluateForkMemoryRisk, fork_score.
    destruct (assess i) as [al ak f m], s as [sl sk]. intros Hr'.
    destruct al, ak, sl, sk; cbn; done.
  - intros f s a (Ha & Hr). done.
Qed.

(** ** Theorems *)

(** The fork memory detector keeps the alert contract, with a score in which
    the risk of a running save outranks a projected risk of the same level. *)
Theorem fork_keeps_contract : keeps_contract ForkMemoryState ForkMemoryInput ForkMemoryFinding.
Proof using Type. apply contract; apply _. Qed.

(** An acknowledged projected risk never hides the alert of a running save: once
    the save is a risk, the detector reports it, whatever it had acknowledged for the
    next fork; and the projected path alone is never critical. *)
Theorem live_risk_not_masked input state :
  fs_ackedKind state = projected_fork_oom → fs_ackedLevel state ≠ L_critical →
  (fi_bgsaveInProgress input || fi_aofRewriteInProgress input = true →
   as_level (assess_live input) ≠ L_none →
   ∃ f, (evaluateForkMemoryRisk input state).1 = Some f ∧ ff_kind f = live_cow_oom
        ∧ ff_level f = as_level (assess_live input))
  ∧ (fi_bgsaveInProgress input || fi_aofRewriteInProgress input = false →
     ∀ f, (evaluateForkMemoryRisk input state).1 = Some f →
       ff_kind f = projected_fork_oom ∧ ff_level f = L_warning).
Proof using Type.
  destruct state as [sl sk]. cbn. intros -> Hsl. unfold evaluateForkMemoryRisk, assess. split.
  - intros -> Hl. assert (Hk : as_kind (assess_live input) = live_cow_oom).
    { unfold assess_live. destruct (system_memory input); [|done]. by case_decide. }
    destruct (assess_live input) as [al ak f m]. cbn in *. subst ak.
    destruct al, sl; try done; cbn; eexists; (split; [reflexivity|done]).
  - intros -> f. assert (Hp : as_kind (assess_projected input) = projected_fork_oom
                             ∧ as_level (assess_projected input) ≠ L_critical).
    { unfold assess_projected. repeat (case_match; try done). }
    destruct (assess_projected input) as [al ak fr m]. cbn in *. destruct Hp as [-> Hal].
    destruct al, sl; try done; cbn; intros [= <-]; done.
Qed.
End fork.

(** A host of 1 GB: a projected warning was acknowledged, then a save starts. *)
Definition sample_fork : ForkMemoryInput :=
  {| fi_bgsaveInProgress := true; fi_aofRewriteInProgress := false;
     fi_currentCowSize := Some (num_of_Z 52428800); fi_rdbLastCowSize := None;
     fi_aofLastCowSize := None; fi_latestForkUsec := None; fi_usedMemory := num_of_Z 800000000;
     fi_usedMemoryRss := Some (num_of_Z 838860800);
     fi_totalSystemMemory := Some (num_of_Z 1073741824); fi_writeRatePerSec := None;
     fi_timestamp := 1000 |}.

Lemma live_risk_not_masked_witness :
  ∃ f, (evaluateForkMemoryRisk num_to_string sample_fork
          {| fs_ackedLevel := L_warning; fs_ackedKind := projected_fork_oom |}).1 = Some f
       ∧ ff_kind f = live_cow_oom ∧ ff_level f = as_level (assess_live sample_fork).
Proof.
  apply (live_risk_not_masked num_to_string sample_fork
           {| fs_ackedLevel := L_warning; fs_ackedKind := projected_fork_oom |});
    [reflexivity|discriminate|reflexivity|vm_compute; discriminate].
Defined.
