(* ===== verification/ControlPlane.v ===== *)
(** * Control-plane saturation

    [control-plane-saturation-detector.ts]: three polls in a row of high CPU together
    with a sign that the control plane suffers (slow probes, replicas dropped, role
    or cluster events) raise one alert an episode.  Evidence must be newer than the
    last alert and than the last restart of the server. *)
From S2P Require Export AnomalyTypes.
From stdpp Require Import options.

(** ** Definitions *)
Definition SATURATION_CPU_PCT : number := num_of_Z 90.
Definition SATURATION_MIN_STREAK : Z := 3.
Definition SATURATION_RTT_MULT : number := num_of_Z 4.
Definition SATURATION_RTT_FLOOR_MS : number := num_of_Z 100.
Definition SATURATION_CORROBORATION_WINDOW_MS : Z := 60000.
Definition RTT_SAMPLE_LIMIT : Z := 30.
Definition RTT_MIN_SAMPLES : Z := 5.

Definition CONTROL_PLANE_CORROBORATING_METRICS : list MetricType :=
  [REPLICATION_ROLE; CLUSTER_STATE; CLUSTER_TOPOLOGY; RAFT_HEALTH; FAILOVER_CHURN;
   REPL_BUFFER_PRESSURE].

Record ControlPlaneState := {
  cps_cpuHighStreak : Z;
  cps_rttSamples : list number;
  cps_episodeActive : bool;
  cps_replicaDropTimes : list Z;
  cps_evidenceFloorAt : option Z
}.

Record ControlPlaneInput := {
  cpi_cpuUtilization : option number;
  cpi_cpuCounterReset : bool;
  cpi_probeRttMs : option number;
  cpi_replicaDropCount : Z;
  cpi_recentControlPlaneEvents : list (string * Z);
  cpi_timestamp : Z
}.

Record SaturationFinding := {
  sf_cpuUtilization : number;
  sf_corroboration : string;
  sf_message : string
}.

Definition createControlPlaneState : ControlPlaneState :=
  {| cps_cpuHighStreak := 0; cps_rttSamples := []; cps_episodeActive := false;
     cps_replicaDropTimes := []; cps_evidenceFloorAt := None |}.

(** [(a, b) => a - b] on numbers *)
Definition num_compare (a b : number) : Z :=
  if num_ltb a b then -1 else if num_ltb b a then 1 else 0.

Definition rollingMedian (samples : list number) : option number :=
  if js_len samples <? RTT_MIN_SAMPLES then None
  else js_sort num_compare samples !! (length samples / 2)%nat.

Record RttJudgement := { rj_spike : bool; rj_baseline : option number }.

Definition judgeRtt (rttSamples : list number) (probeRttMs : option number)
    : RttJudgement * list number :=
  match probeRttMs with
  | None => ({| rj_spike := false; rj_baseline := None |}, rttSamples)
  | Some probe =>
      let baseline := rollingMedian rttSamples in
      let spike :=
        match baseline with
        | Some m => num_leb SATURATION_RTT_FLOOR_MS probe
                    && num_leb (num_mul m SATURATION_RTT_MULT) probe
        | None => false
        end in
      let samples := rttSamples ++ [probe] in
      ({| rj_spike := spike; rj_baseline := baseline |},
       if RTT_SAMPLE_LIMIT <? js_len samples then tail samples else samples)
  end.

Definition describeCorroboration (input : ControlPlaneInput) (rtt : RttJudgement)
    (replicasDropped : Z) (freshEventTypes : list string) : option string :=
  let rttReason :=
    match rj_spike rtt, cpi_probeRttMs input, rj_baseline rtt with
    | true, Some probe, Some m =>
        ["probe RTT spiked to " +:+ num_to_string (math_round probe) +:+ "ms (~"
         +:+ num_to_string (math_round m) +:+ "ms baseline)"]
    | _, _, _ => []
    end in
  let eventReason :=
    if 0 <? js_len freshEventTypes then
      ["recent control-plane anomalies (" +:+ join ", " (js_set freshEventTypes) +:+ ")"]
    else [] in
  let reasons := rttReason ++ eventReason in
  let replicaDropCorroborates :=
    (2 <=? replicasDropped) || ((replicasDropped =? 1) && (0 <? js_len reasons)) in
  let detail := if replicasDropped =? 1 then EmptyString
                else " (" +:+ string_of_Z replicasDropped +:+ " within the window)" in
  let reasons := reasons ++
    (if replicaDropCorroborates then ["replica count dropped" +:+ detail] else []) in
  if js_len reasons =? 0 then None else Some (join "; " reasons).

Definition after_floor (floor : option Z) (t : Z) : bool :=
  match floor with Some f => f <? t | None => true end.

(** The streak and the episode after a sample of CPU *)
Definition cpu_step (cpu : option number) (streak : Z) (active : bool) : Z * bool :=
  match cpu with
  | Some c => if num_leb SATURATION_CPU_PCT c then (streak + 1, active) else (0, false)
  | None => (streak, active)
  end.

Definition evaluateControlPlaneSaturation (input : ControlPlaneInput) (state : ControlPlaneState)
    : option SaturationFinding * ControlPlaneState :=
  let '(rtt, rttSamples) := judgeRtt (cps_rttSamples state) (cpi_probeRttMs input) in
  if cpi_cpuCounterReset input then
    (None, {| cps_cpuHighStreak := 0; cps_rttSamples := []; cps_episodeActive := false;
              cps_replicaDropTimes := []; cps_evidenceFloorAt := Some (cpi_timestamp input) |})
  else
    let pushed := cps_replicaDropTimes state
                  ++ replicate (Z.to_nat (cpi_replicaDropCount input)) (cpi_timestamp input) in
    let dropTimes :=
      js_filter (λ t, cpi_timestamp input - t <=? SATURATION_CORROBORATION_WINDOW_MS) pushed in
    let '(streak, active) :=
      cpu_step (cpi_cpuUtilization input) (cps_cpuHighStreak state) (cps_episodeActive state) in
    let state' := {| cps_cpuHighStreak := streak; cps_rttSamples := rttSamples;
                     cps_episodeActive := active; cps_replicaDropTimes := dropTimes;
                     cps_evidenceFloorAt := cps_evidenceFloorAt state |} in
    if streak <? SATURATION_MIN_STREAK then (None, state')
    else if active then (None, state')
    else
      let floor := cps_evidenceFloorAt state in
      let replicasDropped := js_len (js_filter (after_floor floor) dropTimes) in
      let freshEventTypes :=
        (js_filter (λ e, after_floor floor e.2) (cpi_recentControlPlaneEvents input)).*1 in
      match describeCorroboration input rtt replicasDropped freshEventTypes with
      | None => (None, state')
      | Some corroboration =>
          let cpuUtilization := default SATURATION_CPU_PCT (cpi_cpuUtilization input) in
          (Some {| sf_cpuUtilization := cpuUtilization; sf_corroboration := corroboration;
                   sf_message := "Engine near CPU saturation ("
                     +:+ num_to_string (math_round cpuUtilization) +:+ "% for "
                     +:+ string_of_Z streak
                     +:+ " consecutive polls) with control-plane impact: " +:+ corroboration
                     +:+ " — cluster stability at risk (valkey#3927). Shed load or isolate expensive queries; upgrade to a QoS-capable version when the upstream feature lands." |},
           state')
      end.

Definition acknowledgeSaturationFinding (timestamp : Z) (state : ControlPlaneState)
    : ControlPlaneState :=
  {| cps_cpuHighStreak := cps_cpuHighStreak state; cps_rttSamples := cps_rttSamples state;
     cps_episodeActive := true; cps_replicaDropTimes := cps_replicaDropTimes state;
     cps_evidenceFloorAt := Some timestamp |}.

Definition createControlPlaneSaturationEvent (finding : SaturationFinding) (id : string)
    (timestamp : Z) (connectionId : option string) : AnomalyEvent :=
  {| ev_id := id; ev_timestamp := timestamp; ev_metricType := CPU_UTILIZATION;
     ev_anomalyType := SPIKE; ev_severity := CRITICAL; ev_value := sf_cpuUtilization finding;
     ev_baseline := num_of_Z 0; ev_zScore := num_of_Z 0; ev_stdDev := num_of_Z 0;
     ev_threshold := SATURATION_CPU_PCT; ev_message := "CRITICAL: " +:+ sf_message finding;
     ev_resolved := false; ev_connectionId := connectionId;
     ev_syntheticPattern := Some CONTROL_PLANE_SATURATION;
     ev_correlationId := None; ev_relatedMetrics := None; ev_persisted := None |}.

Definition isControlPlaneSaturationEvent (event : AnomalyEvent) : bool :=
  bool_decide (ev_syntheticPattern event = Some CONTROL_PLANE_SATURATION).

(** ** Specification *)

(** A history: each poll with whether its alert could be delivered. *)
Definition saturation_poll (i : ControlPlaneInput) (delivered : bool) (s : ControlPlaneState)
    : option SaturationFinding * ControlPlaneState :=
  match evaluateControlPlaneSaturation i s with
  | (Some f, s') =>
      (Some f, if delivered then acknowledgeSaturationFinding (cpi_timestamp i) s' else s')
  | (None, s') => (None, s')
  end.

Record SaturationStep := {
  ss_input : ControlPlaneInput; ss_delivered : bool; ss_before : ControlPlaneState
}.
Definition ss_finding (p : SaturationStep) : option SaturationFinding :=
  (saturation_poll (ss_input p) (ss_delivered p) (ss_before p)).1.

Fixpoint saturation_run (l : list (ControlPlaneInput * bool)) (s : ControlPlaneState)
    : list SaturationStep :=
  match l with
  | [] => []
  | (i, d) :: l' =>
      {| ss_input := i; ss_delivered := d; ss_before := s |}
      :: saturation_run l' (saturation_poll i d s).2
  end.

(** What a poll says of the CPU: high, low or restarted, or nothing. *)
Definition cpu_mark (i : ControlPlaneInput) : option bool :=
  if cpi_cpuCounterReset i then Some false
  else num_leb SATURATION_CPU_PCT <$> cpi_cpuUtilization i.
Definition cpu_marks (l : list SaturationStep) : list bool := omap (λ p, cpu_mark (ss_input p)) l.

(** Evidence newer than the floor: a slow probe, an event, or two dropped replicas. *)
Definition corroborated (p : SaturationStep) : Prop :=
  let s := ss_before p in
  let i := ss_input p in
  rj_spike (judgeRtt (cps_rttSamples s) (cpi_probeRttMs i)).1 = true
  ∨ (∃ e, e ∈ cpi_recentControlPlaneEvents i ∧ after_floor (cps_evidenceFloorAt s) e.2 = true)
  ∨ 2 ≤ js_len (js_filter (λ t, after_floor (cps_evidenceFloorAt s) t
                               && (cpi_timestamp i - t <=? SATURATION_CORROBORATION_WINDOW_MS))
                  (cps_replicaDropTimes s
                   ++ replicate (Z.to_nat (cpi_replicaDropCount i)) (cpi_timestamp i))).

(** ** Lemmas *)
Lemma describe_corroborated i rtt n l c :
  describeCorroboration i rtt n l = Some c → rj_spike rtt = true ∨ l ≠ [] ∨ 2 ≤ n.
Proof.
  unfold describeCorroboration, js_len. intros H. destruct (rj_spike rtt); [by left|]. right.
  destruct l as [|x l]; [right|by left].
  destruct (Z.leb_spec 2 n) as [Hn|Hn]; [done|]. exfalso. revert H. simpl. by rewrite andb_false_r.
Qed.

Lemma js_filter_filter {A} (p q : A → bool) l :
  js_filter p (js_filter q l) = js_filter (λ x, p x && q x) l.
Proof.
  induction l as [|x l IH]; simpl; [done|].
  destruct (q x), (p x) eqn:Hp; simpl; rewrite ?Hp, ?IH; done.
Qed.

Definition is_delivered (p : SaturationStep) : bool :=
  ss_delivered p && bool_decide (is_Some (ss_finding p)).
Definition ss_after (p : SaturationStep) : ControlPlaneState :=
  (saturation_poll (ss_input p) (ss_delivered p) (ss_before p)).2.

Definition kept_active (p : SaturationStep) : bool :=
  match cpu_mark (ss_input p) with
  | Some false => false
  | _ => cps_episodeActive (ss_before p)
  end.

(** One poll, seen from outside. *)
Lemma saturation_step p :
  cps_cpuHighStreak (ss_after p)
    = match cpu_mark (ss_input p) with
      | Some true => cps_cpuHighStreak (ss_before p) + 1
      | Some false => 0
      | None => cps_cpuHighStreak (ss_before p)
      end
  ∧ cps_episodeActive (ss_after p) = is_delivered p || kept_active p
  ∧ cps_evidenceFloorAt (ss_after p)
    = (if cpi_cpuCounterReset (ss_input p) || is_delivered p
       then Some (cpi_timestamp (ss_input p)) else cps_evidenceFloorAt (ss_before p))
  ∧ (is_Some (ss_finding p) →
     SATURATION_MIN_STREAK ≤ cps_cpuHighStreak (ss_after p) ∧ kept_active p = false ∧ corroborated p).
Proof.
  destruct p as [i d s]. unfold ss_after, is_delivered, kept_active, ss_finding, corroborated,
    saturation_poll, evaluateControlPlaneSaturation, cpu_mark, cpu_step; simpl.
  destruct (judgeRtt (cps_rttSamples s) (cpi_probeRttMs i)) as [rtt samples].
  destruct (cpi_cpuCounterReset i); simpl.
  { rewrite andb_false_r. simpl. split_and!; try done; by intros [? ?]. }
  set (dt := js_filter _ (_ ++ _)).
  assert (Hcase : ∃ streak active,
    match cpi_cpuUtilization i with
    | Some c => if num_leb SATURATION_CPU_PCT c then (cps_cpuHighStreak s + 1, cps_episodeActive s)
                else (0, false)
    | None => (cps_cpuHighStreak s, cps_episodeActive s)
    end = (streak, active)
    ∧ streak = match num_leb SATURATION_CPU_PCT <$> cpi_cpuUtilization i with
               | Some true => cps_cpuHighStreak s + 1 | Some false => 0
               | None => cps_cpuHighStreak s end
    ∧ active = match num_leb SATURATION_CPU_PCT <$> cpi_cpuUtilization i with
               | Some false => false | _ => cps_episodeActive s end).
  { destruct (cpi_cpuUtilization i) as [c|]; simpl; [destruct (num_leb _ c)|]; naive_solver. }
  destruct Hcase as (streak & active & -> & <- & <-).
  destruct (Z.ltb_spec streak SATURATION_MIN_STREAK) as [Hs|Hs]; simpl.
  { rewrite andb_false_r. simpl. split_and!; try done; by intros [? ?]. }
  destruct active; simpl.
  { rewrite andb_false_r. simpl. split_and!; try done; by intros [? ?]. }
  destruct (describeCorroboration _ _ _ _) as [c|] eqn:Hc; simpl.
  2: { rewrite andb_false_r. simpl. split_and!; try done; by intros [? ?]. }
  rewrite andb_true_r, orb_false_r.
  apply describe_corroborated in Hc.
  assert (Hev : rj_spike rtt = true
    ∨ (∃ e, e ∈ cpi_recentControlPlaneEvents i ∧ after_floor (cps_evidenceFloorAt s) e.2 = true)
    ∨ 2 ≤ js_len (js_filter (after_floor (cps_evidenceFloorAt s)) dt)).
  { destruct Hc as [?|[Hc|?]]; [by left| |by right; right]. right; left.
    destruct (js_filter _ (cpi_recentControlPlaneEvents i)) as [|e l] eqn:Hf; [done|].
    exists e. assert (He : e ∈ js_filter (λ e, after_floor (cps_evidenceFloorAt s) e.2)
                              (cpi_recentControlPlaneEvents i)) by (rewrite Hf; set_solver).
    by apply js_filter_elem in He as [? ?]. }
  unfold dt in Hev. rewrite js_filter_filter in Hev.
  destruct d; simpl; split_and!; try done; intros _; split_and!; done.
Qed.

(** The state of a run: the streak counts the trailing marks of high CPU, an active
    episode lasts until a mark of low CPU, the floor is not before the last alert. *)
Definition ends_high (marks : list bool) (s : ControlPlaneState) : Prop :=
  0 ≤ cps_cpuHighStreak s
  ∧ ∃ before, marks = before ++ replicate (Z.to_nat (cps_cpuHighStreak s)) true.

Lemma ends_high_step marks p :
  ends_high marks (ss_before p) →
  ends_high (marks ++ option_list (cpu_mark (ss_input p))) (ss_after p).
Proof.
  intros [Hs [before ->]]. unfold ends_high. rewrite (proj1 (saturation_step p)).
  destruct (cpu_mark (ss_input p)) as [[|]|]; simpl.
  - split; [lia|]. exists before. rewrite Z2Nat.inj_add, Nat.add_1_r, replicate_S_end by lia.
    by rewrite app_assoc.
  - split; [done|]. eexists. by rewrite app_nil_r.
  - split; [done|]. exists before. by rewrite app_nil_r.
Qed.

Lemma run_lookup l s marks i p :
  ends_high marks s → saturation_run l s !! i = Some p →
  ends_high (marks ++ cpu_marks (take i (saturation_run l s))) (ss_before p)
  ∧ drop (S i) (saturation_run l s) = saturation_run (drop (S i) l) (ss_after p)
  ∧ l !! i = Some (ss_input p, ss_delivered p).
Proof.
  revert s marks i. induction l as [|[x d] l IH]; intros s marks i Hs Hi; [done|].
  destruct i as [|i]; simpl in Hi.
  - simplify_eq. simpl. rewrite app_nil_r. by rewrite !drop_0.
  - set (q := {| ss_input := x; ss_delivered := d; ss_before := s |}).
    pose proof (ends_high_step marks q Hs) as Hq.
    destruct (IH (ss_after q) _ i Hq Hi) as (Hm & Hd & Hl). split_and!; [|done..].
    rewrite <-app_assoc in Hm. revert Hm. unfold cpu_marks. cbn [take firstn saturation_run omap list_omap].
    simpl. by destruct (cpu_mark x).
Qed.

(** Without a mark of low CPU an active episode hides every further finding. *)
Lemma active_silent l s j p :
  cps_episodeActive s = true → saturation_run l s !! j = Some p → is_Some (ss_finding p) →
  ∃ k q, (k ≤ j)%nat ∧ saturation_run l s !! k = Some q ∧ cpu_mark (ss_input q) = Some false.
Proof.
  revert s j. induction l as [|[x d] l IH]; intros s j Hs Hj Hf; [done|].
  set (q := {| ss_input := x; ss_delivered := d; ss_before := s |}).
  destruct (decide (cpu_mark x = Some false)) as [Hm|Hm]; [exists 0%nat, q; naive_solver lia|].
  pose proof (saturation_step q) as (_ & Ha & _ & Hfin).
  assert (Hk : kept_active q = true).
  { unfold kept_active. simpl. by destruct (cpu_mark x) as [[|]|]. }
  destruct j as [|j]; simpl in Hj.
  - simplify_eq. destruct Hfin as (_ & Hno & _); [done|]. congruence.
  - destruct (IH (ss_after q) j) as (k & r & Hkj & Hr & Hlow); [|done..|].
    + by rewrite Ha, Hk, orb_true_r.
    + exists (S k), r. split_and!; [lia|done..].
Qed.

(** The floor only rises, as long as time does not go back. *)
Lemma floor_rises l s j p t :
  Forall (λ x, t ≤ cpi_timestamp x.1) l →
  (∃ f, cps_evidenceFloorAt s = Some f ∧ t ≤ f) → saturation_run l s !! j = Some p →
  ∃ f, cps_evidenceFloorAt (ss_before p) = Some f ∧ t ≤ f.
Proof.
  revert s j. induction l as [|[x d] l IH]; intros s j Hl Hs Hj; [done|].
  apply Forall_cons in Hl as [Hx Hl]. destruct j as [|j]; simpl in Hj; [by simplify_eq|].
  set (q := {| ss_input := x; ss_delivered := d; ss_before := s |}).
  apply (IH (ss_after q) j); [done| |done].
  rewrite (proj1 (proj2 (proj2 (saturation_step q)))). destruct (_ || _); [by eexists|done].
Qed.

(** ** Theorems *)

(** Over any history of polls, an alert of control-plane saturation means that
    the last three CPU samples were high, with no restart between them, and that
    there is evidence newer than the floor; between a delivered alert and the next
    one the CPU was low or the server restarted, and the floor of the later alert is
    not before the earlier one, so no alert rests on evidence already used. *)
Theorem saturation_alerts l j p :
  let h := saturation_run l createControlPlaneState in
  h !! j = Some p → is_Some (ss_finding p) →
  (∃ before, cpu_marks (take (S j) h) = before ++ [true; true; true])
  ∧ corroborated p
  ∧ ∀ i q, (i < j)%nat → h !! i = Some q → is_delivered q = true →
      Forall (λ x, cpi_timestamp (ss_input q) ≤ cpi_timestamp x.1) (drop (S i) l) →
      (∃ k r, (i < k ≤ j)%nat ∧ h !! k = Some r ∧ cpu_mark (ss_input r) = Some false)
      ∧ ∃ f, cps_evidenceFloorAt (ss_before p) = Some f ∧ cpi_timestamp (ss_input q) ≤ f.
Proof.
  intros h Hj Hf. assert (Hinit : ends_high [] createControlPlaneState) by (split; [done|by exists []]).
  destruct (run_lookup l _ [] j p Hinit Hj) as (Hm & _ & _).
  destruct (saturation_step p) as (_ & _ & _ & Hfin). destruct (Hfin Hf) as (H3 & _ & Hcor).
  split_and!; [|done|].
  - apply ends_high_step in Hm as [_ [before Hb]]. simpl in Hb. fold h in Hb.
    unfold cpu_marks in *. rewrite (take_S_r _ _ _ Hj), omap_app. simpl.
    assert (Heq : option_list (cpu_mark (ss_input p)) = omap (λ p, cpu_mark (ss_input p)) [p]).
    { simpl. by destruct (cpu_mark (ss_input p)). }
    simpl in Heq. rewrite <-Heq, Hb. unfold SATURATION_MIN_STREAK in H3.
    replace (Z.to_nat (cps_cpuHighStreak (ss_after p)))
      with ((Z.to_nat (cps_cpuHighStreak (ss_after p)) - 3) + 3)%nat by lia.
    rewrite replicate_add, app_assoc. by eexists.
  - intros i q Hij Hi Hd Htime. destruct (run_lookup l _ [] i q Hinit Hi) as (_ & Hdrop & _).
    assert (Hjd : saturation_run (drop (S i) l) (ss_after q) !! (j - S i)%nat = Some p).
    { rewrite <-Hdrop, lookup_drop. fold h. by replace (S i + (j - S i))%nat with j by lia. }
    destruct (saturation_step q) as (_ & Ha & Hfl & _). rewrite Hd in Ha, Hfl. split.
    + destruct (active_silent _ _ _ _ Ha Hjd Hf) as (k & r & Hk & Hr & Hlow).
      exists (S i + k)%nat, r. split_and!; [lia|lia| |done].
      unfold h. by rewrite <-Hr, <-Hdrop, lookup_drop.
    + eapply floor_rises; [exact Htime| |exact Hjd]. rewrite Hfl, orb_true_r. by eexists.
Qed.

(** The synthetic event is recognised by its marker and by nothing else. *)
Theorem saturation_marker f id t c e :
  isControlPlaneSaturationEvent (createControlPlaneSaturationEvent f id t c) = true
  ∧ (ev_syntheticPattern e = None → isControlPlaneSaturationEvent e = false).
Proof.
  split; [done|]. intros He. unfold isControlPlaneSaturationEvent. rewrite He. done.
Qed.

(** A server under load: two alerts with a pause between them. *)
Definition busy_poll (t : Z) (cpu : Z) (drops : Z) : ControlPlaneInput * bool :=
  ({| cpi_cpuUtilization := Some (num_of_Z cpu); cpi_cpuCounterReset := false;
      cpi_probeRttMs := None; cpi_replicaDropCount := drops;
      cpi_recentControlPlaneEvents := []; cpi_timestamp := t |}, true).
Definition busy_polls : list (ControlPlaneInput * bool) :=
  [busy_poll 1000 95 2; busy_poll 2000 96 0; busy_poll 3000 97 0; busy_poll 4000 50 0;
   busy_poll 5000 95 1; busy_poll 6000 95 2; busy_poll 7000 95 0].

Lemma saturation_alerts_witness :
  let h := saturation_run busy_polls createControlPlaneState in
  ∃ p q, h !! 6%nat = Some p ∧ is_Some (ss_finding p) ∧ h !! 2%nat = Some q
    ∧ is_delivered q = true
    ∧ (∃ k r, (2 < k ≤ 6)%nat ∧ h !! k = Some r ∧ cpu_mark (ss_input r) = Some false)
    ∧ ∃ f, cps_evidenceFloorAt (ss_before p) = Some f ∧ cpi_timestamp (ss_input q) ≤ f.
Proof.
  intros h.
  assert (is_Some (h !! 6%nat)) as [p Hp] by (apply (bool_decide_unpack (is_Some _)); vm_compute; exact I).
  assert (is_Some (h !! 2%nat)) as [q Hq] by (apply (bool_decide_unpack (is_Some _)); vm_compute; exact I).
  assert (Hf : is_Some (ss_finding p)).
  { assert (is_Some (h !! 6%nat ≫= ss_finding)) as H by (apply (bool_decide_unpack (is_Some _)); vm_compute; exact I).
    by rewrite Hp in H. }
  assert (Hd : is_delivered q = true).
  { assert ((is_delivered <$> h !! 2%nat) = Some true) as H by (vm_compute; reflexivity).
    rewrite Hq in H. by injection H. }
  assert (Ht : cpi_timestamp (ss_input q) = 3000).
  { assert (((λ q, cpi_timestamp (ss_input q)) <$> h !! 2%nat) = Some 3000) as H by (vm_compute; reflexivity).
    rewrite Hq in H. by injection H. }
  exists p, q. split; [done|]. split; [done|]. split; [done|]. split; [done|].
  apply (saturation_alerts busy_polls 6 p Hp Hf); [lia|exact Hq|exact Hd|].
  rewrite Ht. repeat constructor; cbn; lia.
Defined.
