(* ===== verification/ClientLockout.v ===== *)
(** * Connection exhaustion

    [client-lockout-detector.ts]: utilisation of [maxclients] that stays high, and
    connections that are refused, make two levels.  The counter of refusals is
    consumed only when the alert it caused was delivered.  Counts are integers; the
    utilisation is the fractional number the code computes. *)
From S2P Require Export Hysteresis.
From stdpp Require Import options.

(** ** Definitions *)
Definition LOCKOUT_UTILIZATION_PCT : number := num_of_Z 85.
Definition LOCKOUT_MIN_STREAK : Z := 3.

Record ClientLockoutState := {
  cl_highUtilStreak : Z;
  cl_level : RiskLevel;
  cl_lastRejected : option Z;
  cl_pendingRejected : option Z;
  cl_lastConnected : option Z
}.

Record ClientLockoutInput := {
  ci_connectedClients : option Z;
  ci_maxClients : option Z;
  ci_rejectedConnections : option Z;
  ci_blockedClients : option Z
}.

Record ClientLockoutFinding := {
  cf_level : RiskLevel;
  cf_connectedClients : Z;
  cf_maxClients : Z;
  cf_utilizationPct : number;
  cf_rejectedDelta : Z;
  cf_blockedClients : option Z;
  cf_rising : bool;
  cf_streak : Z
}.

Definition createClientLockoutState : ClientLockoutState :=
  {| cl_highUtilStreak := 0; cl_level := L_none; cl_lastRejected := None;
     cl_pendingRejected := None; cl_lastConnected := None |}.

Definition rejected_delta (input : ClientLockoutInput) (state : ClientLockoutState) : Z :=
  match ci_rejectedConnections input, cl_lastRejected state with
  | Some now, Some last => Z.max 0 (now - last)
  | _, _ => 0
  end.

Definition next_rejected (input : ClientLockoutInput) (state : ClientLockoutState) : option Z :=
  match ci_rejectedConnections input with
  | Some r => Some r
  | None => cl_lastRejected state
  end.

(** [(connectedClients / maxClients) * 100] *)
Definition utilization (connected maximum : Z) : number :=
  num_mul (num_div (num_of_Z connected) (num_of_Z maximum)) (num_of_Z 100).

Definition lockout_level (refusing sustained : bool) : RiskLevel :=
  if refusing && sustained then L_critical
  else if refusing || sustained then L_warning
  else L_none.

Definition evaluateClientLockout (input : ClientLockoutInput) (state : ClientLockoutState)
    : option ClientLockoutFinding * ClientLockoutState :=
  let rejectedDelta := rejected_delta input state in
  match ci_connectedClients input, ci_maxClients input with
  | Some connectedClients, Some maxClients =>
      if maxClients <=? 0 then (None, state)
      else
        let nextRejected := next_rejected input state in
        let previousConnected := cl_lastConnected state in
        let utilizationPct := utilization connectedClients maxClients in
        let streak := if num_leb LOCKOUT_UTILIZATION_PCT utilizationPct
                      then cl_highUtilStreak state + 1 else 0 in
        let level := lockout_level (0 <? rejectedDelta) (LOCKOUT_MIN_STREAK <=? streak) in
        let escalated := LEVEL_RANK (cl_level state) <? LEVEL_RANK level in
        let kept := if decide (level = L_none) then L_none else cl_level state in
        if negb escalated || bool_decide (level = L_none) then
          (None, {| cl_highUtilStreak := streak; cl_level := kept; cl_lastRejected := nextRejected;
                    cl_pendingRejected := cl_pendingRejected state;
                    cl_lastConnected := Some connectedClients |})
        else
          (Some {| cf_level := level; cf_connectedClients := connectedClients;
                   cf_maxClients := maxClients; cf_utilizationPct := utilizationPct;
                   cf_rejectedDelta := rejectedDelta;
                   cf_blockedClients := ci_blockedClients input;
                   cf_rising := match previousConnected with
                                | Some p => p <? connectedClients
                                | None => false
                                end;
                   cf_streak := streak |},
           {| cl_highUtilStreak := streak; cl_level := kept;
              cl_lastRejected := cl_lastRejected state; cl_pendingRejected := nextRejected;
              cl_lastConnected := Some connectedClients |})
  | _, _ => (None, state)
  end.

Definition commitClientLockoutLevel (level : RiskLevel) (state : ClientLockoutState)
    : ClientLockoutState :=
  match cl_pendingRejected state with
  | None =>
      {| cl_highUtilStreak := cl_highUtilStreak state; cl_level := level;
         cl_lastRejected := cl_lastRejected state; cl_pendingRejected := None;
         cl_lastConnected := cl_lastConnected state |}
  | Some r =>
      {| cl_highUtilStreak := cl_highUtilStreak state; cl_level := level;
         cl_lastRejected := Some r; cl_pendingRejected := None;
         cl_lastConnected := cl_lastConnected state |}
  end.

(** ** Specification *)

(** A history of polls, each with whether its alert could be delivered. *)
Definition lockout_poll (i : ClientLockoutInput) (delivered : bool) (s : ClientLockoutState)
    : option ClientLockoutFinding * ClientLockoutState :=
  match evaluateClientLockout i s with
  | (Some f, s') => (Some f, if delivered then commitClientLockoutLevel (cf_level f) s' else s')
  | (None, s') => (None, s')
  end.

Record LockoutStep := {
  lo_input : ClientLockoutInput; lo_delivered : bool; lo_before : ClientLockoutState
}.
Definition lo_finding (p : LockoutStep) : option ClientLockoutFinding :=
  (lockout_poll (lo_input p) (lo_delivered p) (lo_before p)).1.
Definition lo_after (p : LockoutStep) : ClientLockoutState :=
  (lockout_poll (lo_input p) (lo_delivered p) (lo_before p)).2.
Fixpoint lockout_run (l : list (ClientLockoutInput * bool)) (s : ClientLockoutState)
    : list LockoutStep :=
  match l with
  | [] => []
  | (i, d) :: l' =>
      let p := {| lo_input := i; lo_delivered := d; lo_before := s |} in
      p :: lockout_run l' (lo_after p)
  end.

(** A poll whose ceiling can be read *)
Definition readable (i : ClientLockoutInput) : bool :=
  match ci_connectedClients i, ci_maxClients i with
  | Some _, Some m => negb (m <=? 0)
  | _, _ => false
  end.
Definition streak_at (i : ClientLockoutInput) (s : ClientLockoutState) : Z :=
  match ci_connectedClients i, ci_maxClients i with
  | Some c, Some m =>
      if num_leb LOCKOUT_UTILIZATION_PCT (utilization c m) then cl_highUtilStreak s + 1 else 0
  | _, _ => cl_highUtilStreak s
  end.
Definition level_at (i : ClientLockoutInput) (s : ClientLockoutState) : RiskLevel :=
  lockout_level (0 <? rejected_delta i s) (LOCKOUT_MIN_STREAK <=? streak_at i s).

(** ** Lemmas *)

(** One poll, by what it decides. *)
Lemma lockout_step p :
  let i := lo_input p in let s := lo_before p in
  if readable i then
    cl_highUtilStreak (lo_after p) = streak_at i s
    ∧ match lo_finding p with
      | Some f =>
          cf_level f = level_at i s ∧ cf_rejectedDelta f = rejected_delta i s
          ∧ LEVEL_RANK (cl_level s) < LEVEL_RANK (level_at i s)
          ∧ cl_level (lo_after p) = (if lo_delivered p then level_at i s else cl_level s)
          ∧ cl_lastRejected (lo_after p)
            = (if lo_delivered p then next_rejected i s else cl_lastRejected s)
      | None =>
          LEVEL_RANK (level_at i s) ≤ LEVEL_RANK (cl_level s)
          ∧ cl_level (lo_after p) = (if decide (level_at i s = L_none) then L_none else cl_level s)
          ∧ cl_lastRejected (lo_after p) = next_rejected i s
      end
  else lo_finding p = None ∧ lo_after p = s.
Proof.
  destruct p as [i d s]. unfold lo_finding, lo_after, lockout_poll, evaluateClientLockout, readable,
    level_at, streak_at; simpl.
  destruct (ci_connectedClients i) as [c|]; [|done].
  destruct (ci_maxClients i) as [m|]; [|done].
  destruct (m <=? 0); simpl; [done|].
  set (streak := if num_leb _ _ then _ else _).
  set (level := lockout_level _ _).
  destruct (Z.ltb_spec (LEVEL_RANK (cl_level s)) (LEVEL_RANK level)) as [Hr|Hr]; simpl; [|done].
  destruct (decide (level = L_none)) as [Hn|Hn].
  { rewrite Hn in Hr. by destruct (cl_level s). }
  rewrite bool_decide_eq_false_2 by done. simpl. split.
  - destruct d; [|done]. unfold commitClientLockoutLevel. simpl. by destruct (next_rejected i s).
  - destruct d; [|done]. unfold commitClientLockoutLevel. simpl.
    destruct (next_rejected i s) eqn:Hnext; simpl; split_and!; try done.
    unfold next_rejected in Hnext. by destruct (ci_rejectedConnections i).
Qed.

Lemma lockout_lookup l s i p :
  lockout_run l s !! i = Some p →
  drop (S i) (lockout_run l s) = lockout_run (drop (S i) l) (lo_after p).
Proof.
  revert s i. induction l as [|[x d] l IH]; intros s i Hi; [done|].
  destruct i as [|i]; simpl in Hi; [by simplify_eq|]. by apply IH.
Qed.

(** The level that was paged stays until a readable poll with no risk. *)
Lemma level_kept l s j p f :
  lockout_run l s !! j = Some p → lo_finding p = Some f →
  LEVEL_RANK (cf_level f) ≤ LEVEL_RANK (cl_level s) →
  ∃ k q, (k < j)%nat ∧ lockout_run l s !! k = Some q ∧ readable (lo_input q) = true
         ∧ level_at (lo_input q) (lo_before q) = L_none.
Proof.
  revert s j. induction l as [|[x d] l IH]; intros s j Hj Hf Hle; [done|].
  set (q := {| lo_input := x; lo_delivered := d; lo_before := s |}).
  pose proof (lockout_step q) as Hq. cbn zeta in Hq.
  destruct j as [|j]; simpl in Hj.
  - assert (p = q) as Hpq by (by injection Hj). rewrite Hpq in Hf. rewrite Hf in Hq. simpl in Hq.
    destruct (readable x).
    + destruct Hq as (_ & Hl & _ & Hlt & _). rewrite Hl in Hle. lia.
    + by destruct Hq.
  - assert (Hor : (readable x = true ∧ level_at x s = L_none)
                  ∨ LEVEL_RANK (cl_level s) ≤ LEVEL_RANK (cl_level (lo_after q))).
    { simpl in Hq. destruct (readable x); [|destruct Hq as [_ ->]; by right].
      destruct Hq as [_ Hq]. destruct (lo_finding q).
      - destruct Hq as (_ & _ & Hlt & -> & _). right. destruct d; lia.
      - destruct Hq as (_ & Hlv & _). case_decide; [by left|]. right. by rewrite Hlv. }
    destruct Hor as [[Hr Hn]|Hor].
    + exists 0%nat, q. split_and!; [lia|done..].
    + destruct (IH (lo_after q) j Hj Hf ltac:(lia)) as (k & r & Hk & Hr).
      exists (S k), r. split; [lia|done].
Qed.

(** ** Theorems *)

(** Over any history, a lockout alert that was delivered is followed by a higher
    one only, until a readable poll shows no risk at all; a critical alert means that
    connections were refused and that utilisation was high for three readable polls;
    and an alert that was not delivered leaves the refusals it counted in place, so
    the next readable poll counts at least as many. *)
Theorem lockout_alerts l j p f :
  let h := lockout_run l createClientLockoutState in
  h !! j = Some p → lo_finding p = Some f →
  (cf_level f = L_critical →
     0 < cf_rejectedDelta f ∧ LOCKOUT_MIN_STREAK ≤ cl_highUtilStreak (lo_after p))
  ∧ (∀ i q g, (i < j)%nat → h !! i = Some q → lo_finding q = Some g → lo_delivered q = true →
       LEVEL_RANK (cf_level f) ≤ LEVEL_RANK (cf_level g) →
       ∃ k r, (i < k < j)%nat ∧ h !! k = Some r ∧ readable (lo_input r) = true
              ∧ level_at (lo_input r) (lo_before r) = L_none)
  ∧ (lo_delivered p = false → ∀ q x y, h !! S j = Some q →
       ci_rejectedConnections (lo_input p) = Some x →
       ci_rejectedConnections (lo_input q) = Some y → x ≤ y →
       cf_rejectedDelta f ≤ rejected_delta (lo_input q) (lo_before q)).
Proof.
  intros h Hj Hf. pose proof (lockout_step p) as Hp. cbn zeta in Hp. rewrite Hf in Hp.
  destruct (readable (lo_input p)); [|by destruct Hp].
  destruct Hp as (Hst & Hl & Hd & Hlt & Hlev & Hlast). split_and!.
  - rewrite Hl, Hd, Hst. unfold level_at, lockout_level.
    destruct (Z.ltb_spec 0 (rejected_delta (lo_input p) (lo_before p))),
      (Z.leb_spec LOCKOUT_MIN_STREAK (streak_at (lo_input p) (lo_before p))); simpl; try done.
  - intros i q g Hij Hi Hg Hdel Hle. pose proof (lockout_step q) as Hq. cbn zeta in Hq.
    rewrite Hg in Hq. destruct (readable (lo_input q)); [|by destruct Hq].
    destruct Hq as (_ & Hlg & _ & _ & Hlq & _). rewrite Hdel, <-Hlg in Hlq.
    pose proof (lockout_lookup l _ i q Hi) as Hdrop.
    assert (Hjd : lockout_run (drop (S i) l) (lo_after q) !! (j - S i)%nat = Some p).
    { rewrite <-Hdrop, lookup_drop. fold h. by replace (S i + (j - S i))%nat with j by lia. }
    destruct (level_kept _ _ _ _ f Hjd Hf ltac:(by rewrite Hlq)) as (k & r & Hk & Hr & Hn).
    exists (S i + k)%nat, r. split_and!; [lia|lia| |apply Hn..].
    unfold h. by rewrite <-Hr, <-Hdrop, lookup_drop.
  - intros Hdel q x y Hq Hx Hy Hxy.
    pose proof (lockout_lookup l _ j p Hj) as Hdrop.
    assert (Hq' : lockout_run (drop (S j) l) (lo_after p) !! 0%nat = Some q).
    { by rewrite <-Hdrop, lookup_drop, Nat.add_0_r. }
    assert (lo_before q = lo_after p) as ->.
    { destruct (drop (S j) l) as [|[i d] l']; simpl in Hq'; by simplify_eq. }
    rewrite Hd, Hdel in *. unfold rejected_delta. rewrite Hx, Hy, Hlast.
    destruct (cl_lastRejected (lo_before p)); lia.
Qed.

(** The baseline of the refusal counter moves to the reading of every readable
    poll but one: the poll whose alert could not be delivered leaves it. *)
Theorem lockout_baseline p r :
  readable (lo_input p) = true → ci_rejectedConnections (lo_input p) = Some r →
  cl_lastRejected (lo_after p)
  = match lo_finding p with
    | Some _ => if lo_delivered p then Some r else cl_lastRejected (lo_before p)
    | None => Some r
    end.
Proof.
  intros Hr Hx. pose proof (lockout_step p) as Hp. cbn zeta in Hp. rewrite Hr in Hp.
  destruct Hp as [_ Hp]. assert (Hn : next_rejected (lo_input p) (lo_before p) = Some r).
  { unfold next_rejected. by rewrite Hx. }
  rewrite Hn in Hp. destruct (lo_finding p); destruct_and!; done.
Qed.

(** A pool at its ceiling: a warning, then refusals. *)
Definition clients (connected rejected : Z) (delivered : bool) : ClientLockoutInput * bool :=
  ({| ci_connectedClients := Some connected; ci_maxClients := Some 100;
      ci_rejectedConnections := Some rejected; ci_blockedClients := None |}, delivered).
Definition full_pool : list (ClientLockoutInput * bool) :=
  [clients 90 5 true; clients 91 5 true; clients 95 5 true; clients 50 5 true; clients 95 5 true;
   clients 95 5 true; clients 99 9 false; clients 100 12 true].

Lemma lockout_alerts_witness :
  let h := lockout_run full_pool createClientLockoutState in
  ∃ p f q, h !! 6%nat = Some p ∧ lo_finding p = Some f ∧ h !! 7%nat = Some q
    ∧ (cf_level f = L_critical → 0 < cf_rejectedDelta f ∧ LOCKOUT_MIN_STREAK ≤ cl_highUtilStreak (lo_after p))
    ∧ cf_rejectedDelta f ≤ rejected_delta (lo_input q) (lo_before q).
Proof.
  intros h.
  assert (is_Some (h !! 6%nat ≫= lo_finding)) as [f Hf]
    by (apply (bool_decide_unpack (is_Some _)); vm_compute; exact I).
  apply bind_Some in Hf as (p & Hp & Hf).
  assert (is_Some (h !! 7%nat)) as [q Hq]
    by (apply (bool_decide_unpack (is_Some _)); vm_compute; exact I).
  pose proof (lockout_alerts full_pool 6 p f Hp Hf) as (H1 & _ & H3).
  assert (Hd : ((λ p, (lo_delivered p, ci_rejectedConnections (lo_input p))) <$> h !! 6%nat)
               = Some (false, Some 9)) by (vm_compute; reflexivity).
  assert (Hx : ((λ p, ci_rejectedConnections (lo_input p)) <$> h !! 7%nat) = Some (Some 12))
    by (vm_compute; reflexivity).
  rewrite Hp in Hd. rewrite Hq in Hx. simpl in Hd, Hx. injection Hd as Hd Hd'. injection Hx as Hx.
  exists p, f, q. split; [done|]. split; [done|]. split; [done|]. split; [done|].
  apply (H3 Hd q 9 12 Hq Hd' Hx). lia.
Defined.

Lemma lockout_baseline_witness :
  let p := {| lo_input := (clients 99 9 true).1; lo_delivered := true;
              lo_before := createClientLockoutState |} in
  cl_lastRejected (lo_after p) = Some 9.
Proof. intros p. exact (lockout_baseline p 9 eq_refl eq_refl). Defined.
