(* ===== verification/Correlator.v ===== *)
(** * Correlation of anomalies

    [correlator.ts]: events close in time form a group, a rule table names the
    pattern, and every event of a group is marked with the group's id.  The events
    are objects in an [EventStore] and the correlator assigns to them; a random id is
    asked for once a group, so the ids are a function of the group's number. *)
From S2P Require Export ControlPlane.
From stdpp Require Import options.

(** ** Definitions *)
Record PatternRule := {
  pr_pattern : AnomalyPattern;
  pr_requiredMetrics : list MetricType;
  pr_optionalMetrics : option (list MetricType);
  pr_diagnosis : string;
  pr_recommendations : list string;
  pr_check : option (list AnomalyEvent → bool)
}.

Definition of_metric (m : MetricType) (a : AnomalyEvent) : bool := bool_decide (ev_metricType a = m).
Definition spike_of (m : MetricType) (a : AnomalyEvent) : bool :=
  of_metric m a && bool_decide (ev_anomalyType a = SPIKE).

(** The [check] functions of the rules *)
Definition check_saturation (anomalies : list AnomalyEvent) : bool :=
  js_some isControlPlaneSaturationEvent anomalies.
Definition check_failover (anomalies : list AnomalyEvent) : bool :=
  js_some (of_metric REPLICATION_ROLE) anomalies.
Definition check_memory (anomalies : list AnomalyEvent) : bool :=
  js_some (spike_of MEMORY_USED) anomalies
  && (js_some (of_metric EVICTED_KEYS) anomalies || (js_len anomalies =? 1)).
Definition check_leak (anomalies : list AnomalyEvent) : bool :=
  match js_find (of_metric CONNECTIONS) anomalies with
  | Some a =>
      if decide (ev_anomalyType a = SPIKE) then negb (js_some (of_metric OPS_PER_SEC) anomalies)
      else false
  | None => false
  end.
Definition check_batch (anomalies : list AnomalyEvent) : bool :=
  js_some (spike_of CONNECTIONS) anomalies && js_some (spike_of OPS_PER_SEC) anomalies
  && js_some (spike_of MEMORY_USED) anomalies.
Definition check_burst (anomalies : list AnomalyEvent) : bool :=
  js_some (spike_of CONNECTIONS) anomalies && js_some (spike_of OPS_PER_SEC) anomalies
  && negb (js_some (spike_of MEMORY_USED) anomalies).

Definition patternRules : list PatternRule :=
 [
  {| pr_pattern := CONTROL_PLANE_SATURATION;
     pr_requiredMetrics := [CPU_UTILIZATION];
     pr_optionalMetrics := None;
     pr_diagnosis := "Engine near CPU saturation with control-plane impact (replica drops / node timeouts / slow admin commands) — cluster stability at risk (valkey#3927)";
     pr_recommendations := ["Shed load or isolate expensive queries (range scans, large-object serialization, heavy Lua)";
       "Check replica connection stability and cluster heartbeat health";
       "Keep a management path available: connect over a unix socket or reserved port for admin commands";
       "Upgrade to a QoS-capable version once the upstream trusted-sources feature (valkey#3927) lands"];
     pr_check := Some check_saturation |};
  {| pr_pattern := AUTH_ATTACK;
     pr_requiredMetrics := [ACL_DENIED];
     pr_optionalMetrics := None;
     pr_diagnosis := "Potential authentication attack detected with high ACL denial rate";
     pr_recommendations := ["Review ACL denied clients in the audit trail";
       "Check for suspicious IP addresses or patterns";
       "Consider implementing rate limiting or IP blocking";
       "Verify ACL rules are configured correctly"];
     pr_check := None |};
  {| pr_pattern := NODE_FAILOVER;
     pr_requiredMetrics := [REPLICATION_ROLE];
     pr_optionalMetrics := Some [SLOWLOG_LAST_ID; CLUSTER_STATE; OPS_PER_SEC];
     pr_diagnosis := "Node failover detected — this instance transitioned role";
     pr_recommendations := ["Verify the new primary is healthy and accepting writes";
       "Check replication lag on the new primary";
       "Review application connection strings for failover handling";
       "Inspect cluster logs for the cause of the failover";
       "Confirm no split-brain scenario exists"];
     pr_check := Some check_failover |};
  {| pr_pattern := NODE_FAILOVER;
     pr_requiredMetrics := [CLUSTER_STATE];
     pr_optionalMetrics := None;
     pr_diagnosis := "Cluster state transition detected — slot coverage changed";
     pr_recommendations := ["Check cluster slot coverage and reassign if needed";
       "Verify all master nodes are healthy and reachable";
       "Review cluster-level slow queries across nodes";
       "Inspect CLUSTER INFO for partially-failed slots";
       "Confirm no split-brain scenario exists"];
     pr_check := None |};
  {| pr_pattern := PERSISTENCE_STALL;
     pr_requiredMetrics := [PERSISTENCE_CHILD];
     pr_optionalMetrics := None;
     pr_diagnosis := "Persistence fork child not advancing — BGSAVE/AOF-rewrite may be stuck or failing";
     pr_recommendations := ["Check memory headroom and copy-on-write growth (current_cow_size)";
       "Inspect the server log for fork or allocator errors";
       "Consider BGSAVE CANCEL if the save is wedged";
       "Verify disk space and I/O on the persistence target"];
     pr_check := None |};
  {| pr_pattern := SLOW_QUERIES;
     pr_requiredMetrics := [SLOWLOG_LAST_ID];
     pr_optionalMetrics := None;
     pr_diagnosis := "Slow query rate spike detected — elevated rate of new slow queries per interval";
     pr_recommendations := ["Review slow log entries to identify problematic commands";
       "Check for operations on large data structures";
       "Consider optimizing data access patterns";
       "Monitor blocked clients for potential deadlocks"];
     pr_check := None |};
  {| pr_pattern := MEMORY_PRESSURE;
     pr_requiredMetrics := [MEMORY_USED];
     pr_optionalMetrics := Some [EVICTED_KEYS; FRAGMENTATION_RATIO];
     pr_diagnosis := "Memory pressure detected with potential evictions";
     pr_recommendations := ["Check memory usage trends and plan for scaling";
       "Review eviction policy settings";
       "Identify large keys or data structures";
       "Consider increasing maxmemory or adding shards"];
     pr_check := Some check_memory |};
  {| pr_pattern := CACHE_THRASHING;
     pr_requiredMetrics := [KEYSPACE_MISSES; EVICTED_KEYS];
     pr_optionalMetrics := None;
     pr_diagnosis := "Cache thrashing detected with high miss rate and evictions";
     pr_recommendations := ["Review cache hit ratio trends";
       "Check if working set exceeds available memory";
       "Consider increasing memory or adjusting TTLs";
       "Analyze access patterns for optimization opportunities"];
     pr_check := None |};
  {| pr_pattern := CONNECTION_LEAK;
     pr_requiredMetrics := [CONNECTIONS];
     pr_optionalMetrics := None;
     pr_diagnosis := "Potential connection leak: connections increasing without corresponding traffic";
     pr_recommendations := ["Check for idle connections in client analytics";
       "Review client applications for connection pool leaks";
       "Set timeout parameters (timeout, tcp-keepalive)";
       "Monitor connection creation vs. closure rates"];
     pr_check := Some check_leak |};
  {| pr_pattern := BATCH_JOB;
     pr_requiredMetrics := [CONNECTIONS; OPS_PER_SEC];
     pr_optionalMetrics := Some [MEMORY_USED];
     pr_diagnosis := "Batch job or bulk operation detected with concurrent spikes in connections, operations, and memory";
     pr_recommendations := ["Identify the client or job causing the spike";
       "Consider scheduling batch jobs during off-peak hours";
       "Implement rate limiting for bulk operations";
       "Monitor job duration and resource usage"];
     pr_check := Some check_batch |};
  {| pr_pattern := TRAFFIC_BURST;
     pr_requiredMetrics := [CONNECTIONS; OPS_PER_SEC];
     pr_optionalMetrics := None;
     pr_diagnosis := "Traffic burst detected with increased connections and operations";
     pr_recommendations := ["Monitor traffic patterns for recurring spikes";
       "Ensure sufficient capacity for peak loads";
       "Review client connection pooling settings";
       "Consider implementing auto-scaling if cloud-hosted"];
     pr_check := Some check_burst |};
  {| pr_pattern := TRAFFIC_BURST;
     pr_requiredMetrics := [OPS_PER_SEC];
     pr_optionalMetrics := None;
     pr_diagnosis := "High operations spike detected";
     pr_recommendations := ["Review command patterns in slow log and audit trail";
       "Check for batch operations or bulk imports";
       "Monitor client activity for unusual patterns";
       "Consider if this is expected traffic or an anomaly"];
     pr_check := None |};
  {| pr_pattern := TRAFFIC_BURST;
     pr_requiredMetrics := [INPUT_KBPS];
     pr_optionalMetrics := None;
     pr_diagnosis := "High input traffic detected";
     pr_recommendations := ["Check for large data imports or writes";
       "Review client write patterns";
       "Monitor network bandwidth utilization";
       "Verify this matches expected application behavior"];
     pr_check := None |};
  {| pr_pattern := TRAFFIC_BURST;
     pr_requiredMetrics := [OUTPUT_KBPS];
     pr_optionalMetrics := None;
     pr_diagnosis := "High output traffic detected";
     pr_recommendations := ["Check for large data exports or reads";
       "Review client read patterns";
       "Monitor network bandwidth utilization";
       "Consider implementing result pagination if needed"];
     pr_check := None |};
  {| pr_pattern := MEMORY_PRESSURE;
     pr_requiredMetrics := [FRAGMENTATION_RATIO];
     pr_optionalMetrics := None;
     pr_diagnosis := "Memory fragmentation spike detected";
     pr_recommendations := ["Monitor memory fragmentation trends over time";
       "Consider running MEMORY PURGE if fragmentation persists";
       "Review allocation patterns that may cause fragmentation";
       "Plan for instance restart during maintenance window if needed"];
     pr_check := None |};
  {| pr_pattern := MEMORY_PRESSURE;
     pr_requiredMetrics := [EVICTED_KEYS];
     pr_optionalMetrics := None;
     pr_diagnosis := "Key eviction spike detected";
     pr_recommendations := ["Check if maxmemory limit is being reached";
       "Review eviction policy (volatile-lru, allkeys-lru, etc.)";
       "Identify which keys are being evicted";
       "Consider increasing memory or optimizing data retention"];
     pr_check := None |};
  {| pr_pattern := CONNECTION_LEAK;
     pr_requiredMetrics := [CONNECTIONS];
     pr_optionalMetrics := None;
     pr_diagnosis := "Connection count spike detected";
     pr_recommendations := ["Review client connection patterns";
       "Check for connection pool exhaustion";
       "Monitor idle connections";
       "Verify connection cleanup in client applications"];
     pr_check := None |};
  {| pr_pattern := SLOW_QUERIES;
     pr_requiredMetrics := [BLOCKED_CLIENTS];
     pr_optionalMetrics := None;
     pr_diagnosis := "Blocked clients detected";
     pr_recommendations := ["Check for blocking operations (BLPOP, BRPOP, etc.)";
       "Review command execution times";
       "Monitor for potential deadlocks";
       "Consider timeout configurations"];
     pr_check := None |};
  {| pr_pattern := CACHE_THRASHING;
     pr_requiredMetrics := [KEYSPACE_MISSES];
     pr_optionalMetrics := None;
     pr_diagnosis := "High cache miss rate detected";
     pr_recommendations := ["Review cache hit ratio trends";
       "Check if working set has changed";
       "Analyze access patterns for optimization";
       "Consider cache warming strategies"];
     pr_check := None |}
  ].

Definition rule_matches (anomalies : list AnomalyEvent) (rule : PatternRule) : bool :=
  js_every (λ m, js_includes m (ev_metricType <$> anomalies)) (pr_requiredMetrics rule)
  && match pr_check rule with Some check => check anomalies | None => true end.

Definition detectPattern (anomalies : list AnomalyEvent) : option PatternRule :=
  js_find (rule_matches anomalies) patternRules.

(** The rule of a group that no pattern matches *)
Definition unknown_rule (anomalies : list AnomalyEvent) : PatternRule :=
  if js_len anomalies =? 1 then
    {| pr_pattern := UNKNOWN; pr_requiredMetrics := []; pr_optionalMetrics := None;
       pr_diagnosis := join ", " (metric_string ∘ ev_metricType <$> anomalies) +:+ " anomaly detected";
       pr_recommendations := ["Investigate the specific metric trend";
                              "Check for related system events"];
       pr_check := None |}
  else
    {| pr_pattern := UNKNOWN; pr_requiredMetrics := []; pr_optionalMetrics := None;
       pr_diagnosis := "Multiple concurrent anomalies detected: "
         +:+ join ", " (metric_string ∘ ev_metricType <$> anomalies);
       pr_recommendations := ["Investigate correlation between affected metrics";
                              "Check for external system events or changes";
                              "Review application behavior during this time"];
       pr_check := None |}.

Definition severityOrder (s : AnomalySeverity) : Z :=
  match s with INFO => 0 | WARNING => 1 | CRITICAL => 2 end.
Definition maxSeverity (l : list AnomalySeverity) : AnomalySeverity :=
  foldl (λ m s, if severityOrder m <? severityOrder s then s else m) INFO l.

(** [Math.min(...l)] of a list that is not empty *)
Definition min_time (l : list Z) : Z :=
  match l with [] => 0 | t :: l' => foldl Z.min t l' end.

Definition enrichDiagnosis (rule : PatternRule) (anomalies : list AnomalyEvent) : string :=
  if decide (pr_pattern rule = NODE_FAILOVER) then
    let hasSlowlogSpike := js_some (of_metric SLOWLOG_LAST_ID) anomalies in
    let hasClusterState := js_some (of_metric CLUSTER_STATE) anomalies in
    let hasRoleChange := js_some (of_metric REPLICATION_ROLE) anomalies in
    if hasRoleChange && hasSlowlogSpike then
      "Node failover detected with correlated slowlog spike — the slow queries are likely caused by the failover transition"
    else if hasClusterState && hasSlowlogSpike then
      "Cluster state transition detected with correlated slowlog spike — slot re-coverage may have caused latency"
    else pr_diagnosis rule
  else pr_diagnosis rule.

(** The metrics of the other events of a group *)
Definition related (h : EventStore) (refs : list ref) (a : AnomalyEvent) : list MetricType :=
  ev_metricType <$> js_filter (λ other, negb (str_eqb (ev_id other) (ev_id a))) (deref h refs).

(** [anomalies.forEach((a) => { a.correlationId = ...; a.relatedMetrics = ... })] *)
Definition mark_all (correlationId : string) (refs : list ref) (h : EventStore) : EventStore :=
  foldl (λ h r, assign (λ a, set_correlation correlationId (related h refs a) a) r h) h refs.

Definition createGroup (correlationId : string) (refs : list ref) (rule : PatternRule)
    (h : EventStore) : CorrelatedAnomalyGroup * EventStore :=
  let h' := mark_all correlationId refs h in
  let anomalies := deref h' refs in
  ({| g_correlationId := correlationId; g_timestamp := min_time (ev_timestamp <$> anomalies);
      g_anomalies := refs; g_pattern := pr_pattern rule;
      g_diagnosis := enrichDiagnosis rule anomalies;
      g_recommendations := pr_recommendations rule;
      g_severity := maxSeverity (ev_severity <$> anomalies) |}, h').

Definition group_rule (anomalies : list AnomalyEvent) : PatternRule :=
  match detectPattern anomalies with
  | Some pattern => pattern
  | None => unknown_rule anomalies
  end.

Definition time_at (h : EventStore) (r : ref) : Z :=
  match h !! r with Some e => ev_timestamp e | None => 0 end.

Section correlate.
Context (correlationWindowMs : Z).

(** The loop that cuts the sorted events into windows *)
Definition window_step (h : EventStore) (acc : list (list ref) * list ref * Z) (r : ref)
    : list (list ref) * list ref * Z :=
  let '(windows, currentWindow, windowStart) := acc in
  if time_at h r - windowStart <=? correlationWindowMs
  then (windows, currentWindow ++ [r], windowStart)
  else (if 0 <? js_len currentWindow then windows ++ [currentWindow] else windows, [r], time_at h r).

Definition windows (h : EventStore) (sorted : list ref) : list (list ref) :=
  match sorted with
  | [] => []
  | r :: _ =>
      let '(ws, currentWindow, _) := foldl (window_step h) ([], [], time_at h r) sorted in
      if 0 <? js_len currentWindow then ws ++ [currentWindow] else ws
  end.

(** [uuid n] is the [n]-th random id of the call. *)
Fixpoint make_groups (uuid : nat → string) (n : nat) (ws : list (list ref)) (h : EventStore)
    : list CorrelatedAnomalyGroup * EventStore :=
  match ws with
  | [] => ([], h)
  | w :: ws' =>
      let '(g, h1) := createGroup (uuid n) w (group_rule (deref h w)) h in
      let '(gs, h2) := make_groups uuid (S n) ws' h1 in
      (g :: gs, h2)
  end.

Definition correlate (uuid : nat → string) (anomalies : list ref) (h : EventStore)
    : list CorrelatedAnomalyGroup * EventStore :=
  if js_len anomalies =? 0 then ([], h)
  else
    let sorted := js_sort (by_asc (time_at h)) anomalies in
    make_groups uuid 0 (windows h sorted) h.
End correlate.

Definition getPatternDescription (pattern : AnomalyPattern) : string :=
  match js_find (λ r, bool_decide (pr_pattern r = pattern)) patternRules with
  | Some rule => if is_empty (pr_diagnosis rule) then "Unknown pattern" else pr_diagnosis rule
  | None => "Unknown pattern"
  end.
Definition getPatternRecommendations (pattern : AnomalyPattern) : list string :=
  match js_find (λ r, bool_decide (pr_pattern r = pattern)) patternRules with
  | Some rule => pr_recommendations rule
  | None => []
  end.

(** ** Specification *)

(** A group against the store [h] before the call and [h'] after it: its events were
    marked with its id and the metrics of the others and not changed otherwise, it
    spans at most the window from its earliest event, which gives it its time, and it
    has the pattern of its events and their highest severity. *)
Record group_ok (windowMs : Z) (h h' : EventStore) (g : CorrelatedAnomalyGroup) : Prop := {
  go_nonempty : g_anomalies g ≠ [];
  go_marked r : r ∈ g_anomalies g →
    ∃ e, h !! r = Some e
         ∧ h' !! r = Some (set_correlation (g_correlationId g) (related h (g_anomalies g) e) e);
  go_span r : r ∈ g_anomalies g → g_timestamp g ≤ time_at h r ≤ g_timestamp g + windowMs;
  go_first : ∃ r, r ∈ g_anomalies g ∧ time_at h r = g_timestamp g;
  go_pattern : g_pattern g = pr_pattern (group_rule (deref h (g_anomalies g)));
  go_severity :
    (∀ e, e ∈ deref h (g_anomalies g) → severityOrder (ev_severity e) ≤ severityOrder (g_severity g))
    ∧ ∃ e, e ∈ deref h (g_anomalies g) ∧ ev_severity e = g_severity g
}.

Definition start_of (h : EventStore) (w : list ref) : Z :=
  match w with [] => 0 | r :: _ => time_at h r end.

(** Each window starts more than the window length after the start of the one before. *)
Fixpoint spaced (ms : Z) (starts : list Z) : Prop :=
  match starts with
  | t :: (t' :: _) as rest => t + ms < t' ∧ spaced ms rest
  | _ => True
  end.
Definition good_window (ms : Z) (h : EventStore) (w : list ref) : Prop :=
  w ≠ [] ∧ ∀ r, r ∈ w → start_of h w ≤ time_at h r ≤ start_of h w + ms.

(** ** Lemmas *)

(** *** Marking *)
Lemma foldl_assign f refs h r :
  (∀ a, f (f a) = f a) →
  foldl (λ h r, assign f r h) h refs !! r = (if decide (r ∈ refs) then f <$> h !! r else h !! r).
Proof.
  intros Hf. revert h. induction refs as [|x refs IH]; intros h; cbn [foldl];
    [case_decide; [set_solver|done]|].
  rewrite IH, assign_lookup. repeat case_decide; subst; try set_solver.
  destruct (h !! r) as [a|]; simpl; [by rewrite Hf|done].
Qed.

(** What [related] reads of an event *)
Definition key_of (e : AnomalyEvent) : string * MetricType := (ev_id e, ev_metricType e).

Lemma related_keys h refs a :
  related h refs a
  = (js_filter (λ k, negb (str_eqb k.1 (ev_id a))) (key_of <$> deref h refs)).*2.
Proof.
  unfold related. induction (deref h refs) as [|e l IH]; [done|]. csimpl.
  destruct (negb (str_eqb (ev_id e) (ev_id a))); csimpl; by rewrite IH.
Qed.

Lemma deref_fmap {B} (f : AnomalyEvent → B) h h' rs :
  (∀ r, f <$> h' !! r = f <$> h !! r) → f <$> deref h' rs = f <$> deref h rs.
Proof.
  unfold deref. intros H. induction rs as [|r rs IH]; [done|]. csimpl. specialize (H r).
  destruct (h' !! r), (h !! r); simpl in H; simplify_eq; csimpl; rewrite ?IH; congruence.
Qed.

Lemma mark_all_frozen c refs h h1 l :
  (∀ r, key_of <$> h1 !! r = key_of <$> h !! r) →
  foldl (λ h r, assign (λ a, set_correlation c (related h refs a) a) r h) h1 l
  = foldl (λ h1 r, assign (λ a, set_correlation c (related h refs a) a) r h1) h1 l.
Proof.
  revert h1. induction l as [|x l IH]; intros h1 Hh; simpl; [done|].
  assert (Heq : assign (λ a, set_correlation c (related h1 refs a) a) x h1
                = assign (λ a, set_correlation c (related h refs a) a) x h1).
  { unfold assign. apply list_alter_ext; [|done]. intros a _. f_equal.
    rewrite !related_keys. by rewrite (deref_fmap key_of h h1). }
  rewrite Heq. apply IH. intros r. rewrite assign_lookup. case_decide; [|done].
  rewrite <-Hh. by destruct (h1 !! r).
Qed.

Lemma mark_all_lookup c refs h r :
  mark_all c refs h !! r
  = if decide (r ∈ refs) then (λ a, set_correlation c (related h refs a) a) <$> h !! r else h !! r.
Proof.
  unfold mark_all. rewrite (mark_all_frozen c refs h h) by done. by apply foldl_assign.
Qed.

(** Marking keeps what a group is computed from. *)
Lemma mark_all_time c refs h r : time_at (mark_all c refs h) r = time_at h r.
Proof. unfold time_at. rewrite mark_all_lookup. case_decide; [|done]. by destruct (h !! r). Qed.

Lemma mark_all_fmap {B} (f : AnomalyEvent → B) c refs h rs :
  (∀ c l a, f (set_correlation c l a) = f a) → f <$> deref (mark_all c refs h) rs = f <$> deref h rs.
Proof.
  intros Hf. apply deref_fmap. intros r. rewrite mark_all_lookup. case_decide; [|done].
  destruct (h !! r); simpl; [by rewrite Hf|done].
Qed.

(** *** Minimum and maximum *)
Lemma foldl_min_spec l t :
  foldl Z.min t l ≤ t ∧ (∀ x, x ∈ l → foldl Z.min t l ≤ x) ∧ (foldl Z.min t l = t ∨ foldl Z.min t l ∈ l).
Proof.
  revert t. induction l as [|x l IH]; intros t; simpl; [split_and!; [lia|set_solver|by left]|].
  destruct (IH (Z.min t x)) as (H1 & H2 & H3). split_and!.
  - lia.
  - intros y [->|Hy]%elem_of_cons; [lia|by apply H2].
  - destruct H3 as [H3|H3]; [|right; set_solver]. rewrite H3.
    destruct (Z.min_spec t x) as [[_ ->]|[_ ->]]; [by left|right; set_solver].
Qed.

Lemma min_time_spec l : l ≠ [] → min_time l ∈ l ∧ ∀ x, x ∈ l → min_time l ≤ x.
Proof.
  destruct l as [|t l]; [done|]. intros _. simpl. destruct (foldl_min_spec l t) as (H1 & H2 & H3).
  split; [destruct H3 as [->|]; set_solver|]. intros x [->|Hx]%elem_of_cons; [done|by apply H2].
Qed.

Lemma maxSeverity_spec l :
  (∀ s, s ∈ l → severityOrder s ≤ severityOrder (maxSeverity l))
  ∧ (l ≠ [] → maxSeverity l ∈ l).
Proof.
  unfold maxSeverity.
  assert (H : ∀ m, severityOrder m ≤ severityOrder (foldl (λ m s, if severityOrder m <? severityOrder s then s else m) m l)
    ∧ (∀ s, s ∈ l → severityOrder s ≤ severityOrder (foldl (λ m s, if severityOrder m <? severityOrder s then s else m) m l))
    ∧ (foldl (λ m s, if severityOrder m <? severityOrder s then s else m) m l = m
       ∨ foldl (λ m s, if severityOrder m <? severityOrder s then s else m) m l ∈ l)).
  { induction l as [|x l IH]; intros m; simpl; [split_and!; [done|set_solver|by left]|].
    destruct (IH (if severityOrder m <? severityOrder x then x else m)) as (H1 & H2 & H3).
    destruct (Z.ltb_spec (severityOrder m) (severityOrder x)); split_and!; try lia.
    1,3: intros s [->|Hs]%elem_of_cons; [lia|by apply H2].
    all: destruct H3 as [->|]; set_solver. }
  destruct (H INFO) as (_ & H2 & H3). split; [done|]. intros Hne.
  destruct H3 as [H3|]; [|done]. destruct l as [|s l]; [done|].
  pose proof (H2 s (list_elem_of_here _ _)) as Hs. rewrite H3 in Hs |- *.
  destruct s; simpl in Hs; [set_solver|lia|lia].
Qed.

(** *** Windows *)
Lemma spaced_snoc ms l t :
  spaced ms l → (∀ x, last l = Some x → x + ms < t) → spaced ms (l ++ [t]).
Proof.
  induction l as [|x l IH]; intros Hl Ht; [done|]. destruct l as [|y l]; simpl in *.
  - split; [by apply Ht|done].
  - destruct Hl as [Hxy Hl]. split; [done|]. apply IH; [done|]. intros z Hz. by apply Ht.
Qed.

Lemma spaced_lookup ms l i j a b :
  0 ≤ ms → spaced ms l → (i < j)%nat → l !! i = Some a → l !! j = Some b → a + ms < b.
Proof.
  intros Hms. revert i j a. induction l as [|x l IH]; intros i j a Hl Hij Hi Hj; [done|].
  destruct j as [|j]; [lia|]. destruct l as [|y l]; [done|]. destruct Hl as [Hxy Hl].
  destruct i as [|i]; simpl in Hi.
  - simplify_eq. destruct j as [|j]; simpl in Hj; [by simplify_eq|].
    pose proof (IH 0%nat (S j) y Hl ltac:(lia) eq_refl Hj). lia.
  - apply (IH i j a Hl); [lia|done|done].
Qed.

Section loop.
Context (ms : Z) (h : EventStore).
Hypothesis Hms : 0 ≤ ms.

(** Windows so far, the current one last *)
Definition windows_ok (ws : list (list ref)) : Prop :=
  Forall (good_window ms h) ws ∧ spaced ms (start_of h <$> ws).

Lemma windows_ok_grow ws w r :
  windows_ok (ws ++ [w]) → start_of h w ≤ time_at h r ≤ start_of h w + ms →
  windows_ok (ws ++ [w ++ [r]]) ∧ start_of h (w ++ [r]) = start_of h w.
Proof using Type.
  intros [Hg Hs] Hr. rewrite Forall_app, Forall_singleton in Hg. destruct Hg as [Hws [Hne Hw]].
  assert (Hst : start_of h (w ++ [r]) = start_of h w) by (by destruct w).
  split; [|done]. split.
  - rewrite Forall_app, Forall_singleton. split; [done|]. split; [by destruct w|]. rewrite Hst.
    intros x [Hx| ->%list_elem_of_singleton]%elem_of_app; [by apply Hw|done].
  - rewrite fmap_app in Hs |- *. simpl in Hs |- *. by rewrite Hst.
Qed.

Lemma windows_ok_new ws w r :
  windows_ok (ws ++ [w]) → start_of h w + ms < time_at h r → windows_ok ((ws ++ [w]) ++ [[r]]).
Proof using Hms.
  intros [Hg Hs] Hr. split.
  - rewrite Forall_app, Forall_singleton. split; [done|]. split; [done|].
    intros x ->%list_elem_of_singleton. simpl. lia.
  - rewrite fmap_app. apply spaced_snoc; [done|]. intros x Hx.
    rewrite fmap_app, last_app in Hx. simpl in Hx. by simplify_eq.
Qed.

Lemma window_loop l ws w :
  StronglySorted (λ x y, time_at h x ≤ time_at h y) l →
  (∀ x, x ∈ l → start_of h w ≤ time_at h x) → w ≠ [] → windows_ok (ws ++ [w]) →
  let '(ws', w', _) := foldl (window_step ms h) (ws, w, start_of h w) l in
  w' ≠ [] ∧ mjoin (ws' ++ [w']) = mjoin (ws ++ [w]) ++ l ∧ windows_ok (ws' ++ [w']).
Proof using Hms.
  revert ws w. induction l as [|r l IH]; intros ws w Hl Hstart Hne Hok.
  { simpl. by rewrite app_nil_r. }
  apply StronglySorted_inv in Hl as [Hl Hr]. rewrite Forall_forall in Hr.
  pose proof (Hstart r (list_elem_of_here _ _)) as Hr0.
  cbn [foldl]. unfold window_step at 2.
  destruct (Z.leb_spec (time_at h r - start_of h w) ms) as [Hle|Hgt].
  - destruct (windows_ok_grow ws w r Hok ltac:(lia)) as [Hok' Hst].
    specialize (IH ws (w ++ [r]) Hl). rewrite Hst in IH.
    specialize (IH ltac:(set_solver) ltac:(by destruct w) Hok').
    destruct (foldl _ _ l) as [[ws' w'] s']. destruct IH as (? & Hj & ?).
    split_and!; try done. rewrite Hj, !join_app. simpl. by rewrite !app_nil_r, <-!app_assoc.
  - rewrite (proj2 (Z.ltb_lt 0 (js_len w))) by (unfold js_len; destruct w; simpl; [done|lia]).
    pose proof (windows_ok_new ws w r Hok ltac:(lia)) as Hok'.
    specialize (IH (ws ++ [w]) [r] Hl Hr ltac:(done) Hok'). cbn [start_of] in IH.
    destruct (foldl _ _ l) as [[ws' w'] s']. destruct IH as (? & Hj & ?).
    split_and!; try done. rewrite Hj, (join_app (ws ++ [w])). simpl. by rewrite <-app_assoc.
Qed.

Lemma windows_spec l :
  StronglySorted (λ x y, time_at h x ≤ time_at h y) l →
  mjoin (windows ms h l) = l ∧ windows_ok (windows ms h l).
Proof using Hms.
  intros Hl. unfold windows. destruct l as [|r l]; [by repeat split|].
  cbn [foldl window_step]. rewrite Z.sub_diag, (proj2 (Z.leb_le 0 ms)) by done. cbn [app].
  apply StronglySorted_inv in Hl as [Hl Hr]. rewrite Forall_forall in Hr.
  assert (Hok : windows_ok ([] ++ [[r]])).
  { split; [|done]. simpl. rewrite Forall_singleton. split; [done|].
    intros x ->%list_elem_of_singleton. simpl. lia. }
  pose proof (window_loop l [] [r] Hl Hr ltac:(done) Hok) as Hloop. cbn [start_of] in Hloop.
  destruct (foldl _ _ l) as [[ws' w'] s']. destruct Hloop as (Hne & Hj & Hok').
  rewrite (proj2 (Z.ltb_lt 0 (js_len w'))) by (unfold js_len; destruct w'; simpl; [done|lia]).
  split; [by rewrite Hj|done].
Qed.
End loop.

(** *** Groups *)
Definition valid (h : EventStore) (rs : list ref) : Prop := ∀ r, r ∈ rs → is_Some (h !! r).

Lemma deref_ext h h' rs : (∀ r, r ∈ rs → h' !! r = h !! r) → deref h' rs = deref h rs.
Proof.
  unfold deref. induction rs as [|r rs IH]; intros H; [done|]. csimpl.
  rewrite (H r) by set_solver. rewrite IH by set_solver. done.
Qed.

Lemma deref_times h rs : valid h rs → ev_timestamp <$> deref h rs = time_at h <$> rs.
Proof.
  unfold deref, valid, time_at. induction rs as [|r rs IH]; intros H; [done|]. csimpl.
  destruct (H r (list_elem_of_here _ _)) as [e He]. rewrite He. csimpl. rewrite IH by set_solver. done.
Qed.

Lemma deref_nonempty h rs : valid h rs → rs ≠ [] → deref h rs ≠ [].
Proof.
  destruct rs as [|r rs]; [done|]. intros Hv _. destruct (Hv r (list_elem_of_here _ _)) as [e He].
  by rewrite (deref_cons _ _ _ e).
Qed.

Lemma good_window_min ms h w :
  good_window ms h w → min_time (time_at h <$> w) = start_of h w.
Proof.
  intros [Hne Hw]. destruct (min_time_spec (time_at h <$> w)) as [Hin Hmin]; [by destruct w|].
  apply list_elem_of_fmap in Hin as (r & Heq & Hr). destruct (Hw r Hr) as [Hle _].
  assert (min_time (time_at h <$> w) ≤ start_of h w); [|lia].
  destruct w as [|x w]; [done|]. apply Hmin. csimpl. set_solver.
Qed.

(** One group, against any later store that keeps its events. *)
Lemma createGroup_ok ms c w h h2 :
  0 ≤ ms → good_window ms h w → valid h w →
  let r := createGroup c w (group_rule (deref h w)) h in
  (∀ x, x ∈ w → h2 !! x = r.2 !! x) →
  group_ok ms h h2 r.1 ∧ g_timestamp r.1 = start_of h w.
Proof.
  intros Hms Hw Hv r Hh2. pose proof Hw as [Hne Hspan].
  assert (Ht : g_timestamp r.1 = start_of h w).
  { unfold r, createGroup. simpl. rewrite mark_all_fmap by done.
    rewrite deref_times by done. by apply good_window_min with ms. }
  split; [|done]. split; unfold r, createGroup; simpl.
  - done.
  - intros x Hx. destruct (Hv x Hx) as [e He]. exists e. split; [done|].
    rewrite Hh2 by done. unfold r, createGroup. simpl. rewrite mark_all_lookup, decide_True by done.
    by rewrite He.
  - intros x Hx. change (min_time _) with (g_timestamp r.1). rewrite Ht. by apply Hspan.
  - change (min_time _) with (g_timestamp r.1). rewrite Ht. destruct w as [|x w]; [done|].
    exists x. split; [set_solver|done].
  - done.
  - rewrite mark_all_fmap by done. destruct (maxSeverity_spec (ev_severity <$> deref h w)) as [Hmax Hin].
    split.
    + intros e He. apply Hmax. apply list_elem_of_fmap. by exists e.
    + pose proof (deref_nonempty h w Hv Hne) as Hd.
      assert (Hin' : maxSeverity (ev_severity <$> deref h w) ∈ ev_severity <$> deref h w).
      { apply Hin. by destruct (deref h w). }
      apply list_elem_of_fmap in Hin' as (e & He & Hel). exists e. by rewrite He.
Qed.

Lemma group_ok_frame ms h1 h h2 g :
  (∀ r, r ∈ g_anomalies g → h1 !! r = h !! r) → group_ok ms h1 h2 g → group_ok ms h h2 g.
Proof.
  intros Hf [? Hm Hspan Hfst Hp Hs].
  assert (Hd : deref h1 (g_anomalies g) = deref h (g_anomalies g)) by (by apply deref_ext).
  assert (Ht : ∀ r, r ∈ g_anomalies g → time_at h1 r = time_at h r).
  { intros r Hr. unfold time_at. by rewrite Hf. }
  rewrite Hd in Hp, Hs. split; try done.
  - intros r Hr. destruct (Hm r Hr) as (e & He & He2). exists e. rewrite <-Hf by done.
    split; [done|]. rewrite He2. do 2 f_equal. unfold related. by rewrite Hd.
  - intros r Hr. rewrite <-Ht by done. by apply Hspan.
  - destruct Hfst as (r & Hr & Htr). exists r. by rewrite <-Ht.
Qed.

Lemma make_groups_spec ms uuid n ws h :
  0 ≤ ms → Forall (good_window ms h) ws → NoDup (mjoin ws) → valid h (mjoin ws) →
  let r := make_groups uuid n ws h in
  g_anomalies <$> r.1 = ws ∧ g_correlationId <$> r.1 = uuid <$> seq n (length ws)
  ∧ g_timestamp <$> r.1 = start_of h <$> ws
  ∧ (∀ x, x ∉ mjoin ws → r.2 !! x = h !! x) ∧ Forall (group_ok ms h r.2) r.1.
Proof.
  intros Hms. revert n h. induction ws as [|w ws IH]; intros n h Hg Hnd Hv; [done|].
  apply Forall_cons in Hg as [Hw Hg]. change (mjoin (w :: ws)) with (w ++ mjoin ws) in *.
  cbn zeta. cbn [make_groups length]. apply NoDup_app in Hnd as (_ & Hdisj & Hnd).
  set (h1 := (createGroup (uuid n) w (group_rule (deref h w)) h).2).
  assert (Hh1 : ∀ x, x ∉ w → h1 !! x = h !! x).
  { intros x Hx. unfold h1, createGroup. simpl. by rewrite mark_all_lookup, decide_False. }
  assert (Ht1 : ∀ x, time_at h1 x = time_at h x) by (intros x; apply mark_all_time).
  assert (Hst1 : ∀ v, start_of h1 v = start_of h v) by (intros [|x v]; [done|apply Ht1]).
  assert (Hg1 : Forall (good_window ms h1) ws).
  { eapply Forall_impl; [exact Hg|]. intros v [Hne Hv']. split; [done|]. intros x Hx.
    rewrite Hst1, Ht1. by apply Hv'. }
  assert (Hv1 : valid h1 (mjoin ws)).
  { intros x Hx. rewrite Hh1; [apply Hv; set_solver|]. intros Hxw. by apply (Hdisj x). }
  pose proof (IH (S n) h1 Hg1 Hnd Hv1) as IHr.
  destruct (createGroup (uuid n) w (group_rule (deref h w)) h) as [g h1'] eqn:Hcg. cbn [snd] in h1.
  subst h1. destruct (make_groups uuid (S n) ws h1') as [gs h2] eqn:Hmg. cbn [fst snd] in IHr |- *.
  destruct IHr as (Ha & Hc & Hts & Hout & Hok).
  assert (Hgk : group_ok ms h h2 g ∧ g_timestamp g = start_of h w).
  { pose proof (createGroup_ok ms (uuid n) w h h2 Hms Hw ltac:(intros x Hx; apply Hv; set_solver)) as H.
    cbn zeta in H. rewrite Hcg in H. apply H. intros x Hx. simpl. apply Hout. intros Hxj. by apply (Hdisj x). }
  assert (Hga : g_anomalies g = w ∧ g_correlationId g = uuid n).
  { unfold createGroup in Hcg. by injection Hcg as <- _. }
  destruct Hga as [Hga Hgc], Hgk as [Hgk Hgt]. csimpl.
  rewrite Ha, Hc, Hts, Hga, Hgc, Hgt. split_and!; [done|done| | |].
  - f_equal. apply list_fmap_ext. intros _ v _. apply Hst1.
  - intros x Hx. rewrite Hout by set_solver. apply Hh1. set_solver.
  - constructor; [done|]. rewrite Forall_forall in Hok |- *. intros k Hk.
    apply (group_ok_frame ms h1'); [|by apply Hok]. intros x Hx. apply Hh1. intros Hxw.
    apply (Hdisj x Hxw). rewrite <-Ha. apply list_elem_of_join. exists (g_anomalies k).
    split; [done|]. apply list_elem_of_fmap. by exists k.
Qed.

(** ** Theorems *)

(** C30: Correlating distinct events splits them into groups: every event is in
    exactly one, a group spans at most the window and a later one starts more than
    the window after it, each group has its own id, and every event of a group is
    marked with the id and the metrics of the others and is otherwise unchanged; the
    group has the highest severity of its events and the pattern of the first rule
    that matches them.  No other event changes. *)
Theorem correlate_groups ms uuid refs h :
  0 ≤ ms → NoDup refs → valid h refs →
  let r := correlate ms uuid refs h in
  mjoin (g_anomalies <$> r.1) ≡ₚ refs
  ∧ g_correlationId <$> r.1 = uuid <$> seq 0 (length r.1)
  ∧ (∀ i j a b, (i < j)%nat → r.1 !! i = Some a → r.1 !! j = Some b →
       g_timestamp a + ms < g_timestamp b)
  ∧ Forall (group_ok ms h r.2) r.1
  ∧ ∀ x, x ∉ refs → r.2 !! x = h !! x.
Proof.
  intros Hms Hnd Hv r. unfold r, correlate, js_len. destruct (Z.eqb_spec (Z.of_nat (length refs)) 0) as [H0|H0].
  { destruct refs; [|simpl in H0; lia]. simpl. by split_and!. }
  set (sorted := js_sort (by_asc (time_at h)) refs).
  pose proof (js_sort_perm (by_asc (time_at h)) refs) as Hperm. fold sorted in Hperm.
  destruct (windows_spec ms h Hms sorted (js_sort_asc_sorted (time_at h) refs)) as [Hj [Hgood Hsp]].
  destruct (make_groups_spec ms uuid 0 (windows ms h sorted) h Hms Hgood) as (Ha & Hc & Ht & Hout & Hok).
  { by rewrite Hj, Hperm. }
  { rewrite Hj. intros x Hx. apply Hv. by rewrite <-Hperm. }
  set (p := make_groups uuid 0 (windows ms h sorted) h) in *.
  assert (Hlen : length p.1 = length (windows ms h sorted)) by (by rewrite <-Ha, length_fmap).
  split_and!.
  - by rewrite Ha, Hj.
  - by rewrite Hc, Hlen.
  - intros i j a b Hij Hi Hj'. apply (spaced_lookup ms (start_of h <$> windows ms h sorted) i j); try done.
    + rewrite <-Ht, list_lookup_fmap, Hi. done.
    + rewrite <-Ht, list_lookup_fmap, Hj'. done.
  - done.
  - intros x Hx. apply Hout. rewrite Hj, Hperm. done.
Qed.

(** *** The patterns *)
Definition has (m : MetricType) (l : list AnomalyEvent) : bool := js_some (of_metric m) l.
Definition spikes (m : MetricType) (l : list AnomalyEvent) : bool := js_some (spike_of m) l.

(** What the table decides, as one chain of questions about a group. *)
Definition pattern_of (l : list AnomalyEvent) : AnomalyPattern :=
  if has CPU_UTILIZATION l && js_some isControlPlaneSaturationEvent l then CONTROL_PLANE_SATURATION
  else if has ACL_DENIED l then AUTH_ATTACK
  else if has REPLICATION_ROLE l || has CLUSTER_STATE l then NODE_FAILOVER
  else if has PERSISTENCE_CHILD l then PERSISTENCE_STALL
  else if has SLOWLOG_LAST_ID l then SLOW_QUERIES
  else if spikes MEMORY_USED l && (has EVICTED_KEYS l || (js_len l =? 1)) then MEMORY_PRESSURE
  else if has KEYSPACE_MISSES l && has EVICTED_KEYS l then CACHE_THRASHING
  else if check_leak l then CONNECTION_LEAK
  else if spikes CONNECTIONS l && spikes OPS_PER_SEC l then
    (if spikes MEMORY_USED l then BATCH_JOB else TRAFFIC_BURST)
  else if has OPS_PER_SEC l || has INPUT_KBPS l || has OUTPUT_KBPS l then TRAFFIC_BURST
  else if has FRAGMENTATION_RATIO l || has EVICTED_KEYS l then MEMORY_PRESSURE
  else if has CONNECTIONS l then CONNECTION_LEAK
  else if has BLOCKED_CLIENTS l then SLOW_QUERIES
  else if has KEYSPACE_MISSES l then CACHE_THRASHING
  else UNKNOWN.

Lemma includes_has m l : js_includes m (ev_metricType <$> l) = has m l.
Proof.
  apply eq_bool_prop_intro. rewrite !Is_true_true. rewrite js_includes_true. unfold has.
  rewrite js_some_true, list_elem_of_fmap. unfold of_metric.
  split; intros (a & H1 & H2); exists a; rewrite ?bool_decide_eq_true in *; by subst.
Qed.

Lemma spikes_has m l : spikes m l = true → has m l = true.
Proof.
  unfold spikes, has. rewrite !js_some_true. unfold spike_of.
  intros (a & Ha & [? _]%andb_true_iff). by exists a.
Qed.

Lemma leak_has l : check_leak l = true → has CONNECTIONS l = true.
Proof.
  unfold check_leak, has. destruct (js_find _ l) as [a|] eqn:Ha; [|done]. intros _.
  apply js_find_Some in Ha as [? ?]. apply js_some_true. by exists a.
Qed.

Lemma and_implied a b : (b = true → a = true) → a && b = b.
Proof. destruct a, b; naive_solver. Qed.

(** The rule table gives every group the pattern of the decision chain
    [pattern_of]: saturation before failover before slow queries before memory, a
    leak only without traffic, and a batch job told from a burst by memory alone. *)
Theorem pattern_decided l : pr_pattern (group_rule l) = pattern_of l.
Proof.
  unfold group_rule, detectPattern, pattern_of.
  cbn [patternRules js_find]. unfold rule_matches.
  cbn [pr_requiredMetrics pr_check js_every forallb]. rewrite !includes_has, !andb_true_r.
  change (check_failover l) with (has REPLICATION_ROLE l). rewrite andb_diag.
  unfold check_saturation, check_memory, check_batch, check_burst.
  fold (spikes MEMORY_USED l) (spikes CONNECTIONS l) (spikes OPS_PER_SEC l) (has EVICTED_KEYS l).
  rewrite (and_implied (has MEMORY_USED l)) by (intros [H _]%andb_true_iff; by apply spikes_has).
  rewrite (and_implied (has CONNECTIONS l) (check_leak l)) by apply leak_has.
  destruct (has CPU_UTILIZATION l && _); [done|].
  destruct (has ACL_DENIED l); [done|]. destruct (has REPLICATION_ROLE l); [done|].
  destruct (has CLUSTER_STATE l); [done|]. destruct (has PERSISTENCE_CHILD l); [done|].
  destruct (has SLOWLOG_LAST_ID l); [done|]. destruct (spikes MEMORY_USED l && (_ || _)); [done|].
  destruct (has KEYSPACE_MISSES l && has EVICTED_KEYS l); [done|].
  destruct (check_leak l); [done|].
  rewrite (and_implied (has CONNECTIONS l && has OPS_PER_SEC l)
             (spikes CONNECTIONS l && spikes OPS_PER_SEC l && spikes MEMORY_USED l)),
    (and_implied (has CONNECTIONS l && has OPS_PER_SEC l)
             (spikes CONNECTIONS l && spikes OPS_PER_SEC l && negb (spikes MEMORY_USED l))).
  2,3: rewrite !andb_true_iff; intros [[? ?] ?]; split; by apply spikes_has.
  destruct (spikes CONNECTIONS l && spikes OPS_PER_SEC l); simpl; [by destruct (spikes MEMORY_USED l)|].
  destruct (has OPS_PER_SEC l); [done|]. destruct (has INPUT_KBPS l); [done|].
  destruct (has OUTPUT_KBPS l); [done|]. destruct (has FRAGMENTATION_RATIO l); [done|].
  destruct (has EVICTED_KEYS l); [done|]. destruct (has CONNECTIONS l); [done|].
  destruct (has BLOCKED_CLIENTS l); [done|]. destruct (has KEYSPACE_MISSES l); [done|].
  unfold unknown_rule. by destruct (js_len l =? 1).
Qed.

(** Five events of two connections within half a minute. *)
Definition sample_event (id : string) (t : Z) (m : MetricType) (s : AnomalySeverity) (c : string)
    : AnomalyEvent :=
  {| ev_id := id; ev_timestamp := t; ev_metricType := m; ev_anomalyType := SPIKE; ev_severity := s;
     ev_value := num_of_Z 1; ev_baseline := num_of_Z 0; ev_stdDev := num_of_Z 0;
     ev_zScore := num_of_Z 3; ev_threshold := num_of_Z 2; ev_message := EmptyString;
     ev_correlationId := None; ev_relatedMetrics := None; ev_resolved := false;
     ev_connectionId := Some c; ev_syntheticPattern := None; ev_persisted := None |}.
Definition sample_events : EventStore :=
  [sample_event "a" 10000 OPS_PER_SEC WARNING "c1"; sample_event "b" 9000 CONNECTIONS CRITICAL "c1";
   sample_event "c" 14000 MEMORY_USED INFO "c2"; sample_event "d" 14001 BLOCKED_CLIENTS INFO "c2";
   sample_event "e" 40000 CPU_UTILIZATION WARNING "c1"].
Definition group_id (n : nat) : string := "group-" +:+ string_of_Z (Z.of_nat n).

Example sample_groups :
  (λ g, (g_anomalies g, g_timestamp g, g_pattern g, g_severity g))
    <$> (correlate 5000 group_id [0; 1; 2; 3; 4]%nat sample_events).1
  = [([1; 0; 2]%nat, 9000, BATCH_JOB, CRITICAL); ([3%nat], 14001, SLOW_QUERIES, INFO);
     ([4%nat], 40000, UNKNOWN, WARNING)].
Proof. vm_compute. reflexivity. Qed.

Lemma correlate_groups_witness :
  let r := correlate 5000 group_id [0; 1; 2; 3; 4]%nat sample_events in
  mjoin (g_anomalies <$> r.1) ≡ₚ [0; 1; 2; 3; 4]%nat ∧ Forall (group_ok 5000 sample_events r.2) r.1.
Proof.
  destruct (correlate_groups 5000 group_id [0; 1; 2; 3; 4]%nat sample_events) as (H1 & _ & _ & H2 & _).
  - lia.
  - apply (bool_decide_unpack (NoDup _)). vm_compute. exact I.
  - intros r Hr. apply list_elem_of_In in Hr. simpl in Hr. destruct_or?; subst; by eexists.
  - split; [exact H1|exact H2].
Defined.
