(* ===== verification/ClusterTopology.v ===== *)
(** * Detectors over CLUSTER NODES and INFO replication

    [duplicate-primary-detector.ts], [stuck-replica-detector.ts],
    [lagging-promotion-detector.ts] and [raft-health-detector.ts] of
    [proprietary/anomaly-detection]: pure functions of one node's view of the
    cluster, and the state machine that recognises a replica looping on full
    resynchronisations.  A slot range is a pair; epochs, offsets and slots are
    integers, an offset that is not a finite number is [None]. *)
From S2P Require Export AnomalyTypes.
From stdpp Require Import options.

(** ** Definitions *)
Record ClusterNode := {
  cn_id : string;
  cn_address : string;
  cn_flags : list string;
  cn_master : string;
  cn_pingSent : Z;
  cn_pongReceived : Z;
  cn_configEpoch : Z;
  cn_linkState : string;
  cn_slots : list (Z * Z);
  cn_migratingSlots : option (list (Z * string));
  cn_importingSlots : option (list (Z * string));
  cn_hostname : option string
}.

Definition has_flag (node : ClusterNode) (flag : string) : bool := js_includes flag (cn_flags node).

(** *** Two primaries for one slot *)
Record ConflictingPrimary := { cp_id : string; cp_address : string; cp_configEpoch : Z }.
Record DuplicatePrimaryConflict := {
  dp_slotStart : Z;
  dp_slotEnd : Z;
  dp_masters : ConflictingPrimary * ConflictingPrimary;
  dp_phantomId : string
}.

Fixpoint overlap_with (aStart aEnd : Z) (b : list (Z * Z)) : option (Z * Z) :=
  match b with
  | [] => None
  | (bStart, bEnd) :: b' =>
      let start := Z.max aStart bStart in
      let fin := Z.min aEnd bEnd in
      if start <=? fin then Some (start, fin) else overlap_with aStart aEnd b'
  end.
Fixpoint firstOverlappingRange (a b : list (Z * Z)) : option (Z * Z) :=
  match a with
  | [] => None
  | (aStart, aEnd) :: a' =>
      match overlap_with aStart aEnd b with
      | Some r => Some r
      | None => firstOverlappingRange a' b
      end
  end.

Definition UNHEALTHY_PRIMARY_FLAGS : list string := ["fail"; "fail?"; "handshake"; "noaddr"].

Definition isLivePrimary (node : ClusterNode) : bool :=
  has_flag node "master" && (0 <? js_len (cn_slots node))
  && negb (js_some (has_flag node) UNHEALTHY_PRIMARY_FLAGS).

Definition primary_of (n : ClusterNode) : ConflictingPrimary :=
  {| cp_id := cn_id n; cp_address := cn_address n; cp_configEpoch := cn_configEpoch n |}.

(** [[x, y].sort((x, y) => y.configEpoch - x.configEpoch)] *)
Definition order_pair (x y : ClusterNode) : ClusterNode * ClusterNode :=
  if cn_configEpoch y - cn_configEpoch x <=? 0 then (x, y) else (y, x).

Definition conflict_between (x y : ClusterNode) : option DuplicatePrimaryConflict :=
  match firstOverlappingRange (cn_slots x) (cn_slots y) with
  | None => None
  | Some overlap =>
      let '(authoritative, phantom) := order_pair x y in
      Some {| dp_slotStart := overlap.1; dp_slotEnd := overlap.2;
              dp_masters := (primary_of authoritative, primary_of phantom);
              dp_phantomId := cn_id phantom |}
  end.

(** The two nested loops over the live primaries *)
Fixpoint conflicts (masters : list ClusterNode) : list DuplicatePrimaryConflict :=
  match masters with
  | [] => []
  | m :: rest => omap (conflict_between m) rest ++ conflicts rest
  end.

Definition detectDuplicatePrimaries (nodes : list ClusterNode) : list DuplicatePrimaryConflict :=
  conflicts (js_filter isLivePrimary nodes).

Definition conflictSignature (conflict : DuplicatePrimaryConflict) : string :=
  join "|" (sort_strings [cp_id (dp_masters conflict).1; cp_id (dp_masters conflict).2]).

(** *** Replicas whose primary is gone *)
Definition DEAD_PRIMARY_FLAGS : list string := ["fail"; "fail?"; "noaddr"; "handshake"].
Inductive StuckReplicaReason := primary_failed | primary_unknown.
Record StuckReplica := {
  sr_replicaId : string;
  sr_replicaAddress : string;
  sr_primaryId : string;
  sr_primaryAddress : option string;
  sr_reason : StuckReplicaReason
}.

Definition isReplica (node : ClusterNode) : bool :=
  (has_flag node "slave" || has_flag node "replica")
  && negb (is_empty (cn_master node)) && negb (str_eqb (cn_master node) "-").
Definition isHealthyPrimary (node : ClusterNode) : bool :=
  has_flag node "master" && negb (js_some (has_flag node) DEAD_PRIMARY_FLAGS).

Definition nodes_by_id (nodes : list ClusterNode) : list (string * ClusterNode) :=
  foldl (λ m node, if is_empty (cn_id node) then m else jm_set (cn_id node) node m) [] nodes.

Definition stuck_of (byId : list (string * ClusterNode)) (replica : ClusterNode)
    : option StuckReplica :=
  if negb (isReplica replica) then None
  else
    let primary := jm_get (cn_master replica) byId in
    if match primary with Some p => isHealthyPrimary p | None => false end then None
    else
      Some {| sr_replicaId := cn_id replica; sr_replicaAddress := cn_address replica;
              sr_primaryId := cn_master replica; sr_primaryAddress := cn_address <$> primary;
              sr_reason := match primary with Some _ => primary_failed | None => primary_unknown end |}.

Definition detectStuckReplicas (nodes : list ClusterNode) : list StuckReplica :=
  omap (stuck_of (nodes_by_id nodes)) nodes.

Definition stuckReplicaSignature (s : StuckReplica) : string :=
  sr_replicaId s +:+ "|" +:+ sr_primaryId s.

(** *** The resynchronisation loop *)
Definition RESYNC_LOOP_MIN_WINDOW_MS : Z := 300000.
Definition RESYNC_LOOP_MIN_CYCLES : Z := 2.

Record ResyncLoopInput := {
  ri_role : string;
  ri_masterLinkStatus : option string;
  ri_masterLinkDownSinceSeconds : option Z;
  ri_masterSyncInProgress : bool;
  ri_timestamp : Z
}.
Record ResyncLoopState := {
  rl_downWindowStart : option Z;
  rl_lastDownSinceSeconds : option Z;
  rl_syncWasInProgress : bool;
  rl_failedCycles : Z;
  rl_alerted : bool
}.
Record ResyncLoopFinding := {
  rf_downSeconds : Z;
  rf_failedCycles : Z;
  rf_message : string;
  rf_timestamp : Z
}.

Definition createResyncLoopState : ResyncLoopState :=
  {| rl_downWindowStart := None; rl_lastDownSinceSeconds := None; rl_syncWasInProgress := false;
     rl_failedCycles := 0; rl_alerted := false |}.
(** It assigns the initial value to every field. *)
Definition resetResyncLoopState (state : ResyncLoopState) : ResyncLoopState :=
  createResyncLoopState.

Definition link_down (input : ResyncLoopInput) : bool :=
  (str_eqb (ri_role input) "slave" || str_eqb (ri_role input) "replica")
  && bool_decide (ri_masterLinkStatus input = Some "down").
Definition downCounterDropped (input : ResyncLoopInput) (state : ResyncLoopState) : bool :=
  match rl_lastDownSinceSeconds state, ri_masterLinkDownSinceSeconds input with
  | Some last, Some now => now <? last
  | _, _ => false
  end.

(** [Math.round(ms / 1000)] on integers *)
Definition round_seconds (ms : Z) : Z := (ms + 500) / 1000.

Definition evaluateResyncLoop (input : ResyncLoopInput) (state : ResyncLoopState)
    : option ResyncLoopFinding * ResyncLoopState :=
  if negb (link_down input) then (None, resetResyncLoopState state)
  else
    let s := if downCounterDropped input state then resetResyncLoopState state else state in
    let lastDown := match ri_masterLinkDownSinceSeconds input with
                    | Some d => Some d
                    | None => rl_lastDownSinceSeconds s
                    end in
    let windowStart := default (ri_timestamp input) (rl_downWindowStart s) in
    let attemptEnded := rl_syncWasInProgress s && negb (ri_masterSyncInProgress input) in
    let failedCycles := if attemptEnded then rl_failedCycles s + 1 else rl_failedCycles s in
    let s' := {| rl_downWindowStart := Some windowStart; rl_lastDownSinceSeconds := lastDown;
                 rl_syncWasInProgress := ri_masterSyncInProgress input;
                 rl_failedCycles := failedCycles; rl_alerted := rl_alerted s |} in
    let windowElapsed := RESYNC_LOOP_MIN_WINDOW_MS <=? ri_timestamp input - windowStart in
    if negb windowElapsed || (failedCycles <? RESYNC_LOOP_MIN_CYCLES) || rl_alerted s then (None, s')
    else
      let downSeconds := default (round_seconds (ri_timestamp input - windowStart))
                           (ri_masterLinkDownSinceSeconds input) in
      (Some {| rf_downSeconds := downSeconds; rf_failedCycles := failedCycles;
               rf_message := "WARNING: Replica has been unable to sync with its primary for "
                 +:+ string_of_Z downSeconds +:+ "s: master_link_status has stayed down through "
                 +:+ string_of_Z failedCycles
                 +:+ " full-sync attempts that never completed — the replica is looping on full resync and serving stale data (valkey#1836). Check primary reachability and authentication, replica disk space and permissions, and RDB integrity on the replica side (a corrupted transfer, e.g. by a filesystem layer or antivirus, reproduces exactly this signature).";
               rf_timestamp := ri_timestamp input |}, s').

Definition acknowledgeResyncLoopFinding (state : ResyncLoopState) : ResyncLoopState :=
  {| rl_downWindowStart := rl_downWindowStart state;
     rl_lastDownSinceSeconds := rl_lastDownSinceSeconds state;
     rl_syncWasInProgress := rl_syncWasInProgress state;
     rl_failedCycles := rl_failedCycles state; rl_alerted := true |}.

(** *** A promotion that loses writes *)
Inductive ReplRole := R_master | R_slave.
#[global] Instance ReplRole_eq : EqDecision ReplRole.
Proof. solve_decision. Defined.
Record ReplPeer := {
  rp_connectionId : string; rp_name : option string; rp_offset : option Z; rp_role : ReplRole
}.
Record LaggingPromotion := {
  lp_promotedId : string;
  lp_promotedOffset : Z;
  lp_aheadId : string;
  lp_aheadName : option string;
  lp_aheadOffset : Z;
  lp_lagBytes : Z
}.

(** The loop's body: [ahead] with its offset, which is finite. *)
Definition ahead_step (promotedId : string) (ahead : option (ReplPeer * Z)) (peer : ReplPeer)
    : option (ReplPeer * Z) :=
  if str_eqb (rp_connectionId peer) promotedId then ahead
  else if negb (bool_decide (rp_role peer = R_slave)) then ahead
  else
    match rp_offset peer with
    | None => ahead
    | Some o =>
        match ahead with
        | None => Some (peer, o)
        | Some (_, best) => if best <? o then Some (peer, o) else ahead
        end
    end.

Definition detectLaggingPromotion (promotedId : string) (promotedOffset : option Z)
    (peers : list ReplPeer) (minGapBytes : Z) : option LaggingPromotion :=
  match promotedOffset with
  | None => None
  | Some offset =>
      match foldl (ahead_step promotedId) None peers with
      | None => None
      | Some (ahead, aheadOffset) =>
          let lagBytes := aheadOffset - offset in
          if lagBytes <? minGapBytes then None
          else Some {| lp_promotedId := promotedId; lp_promotedOffset := offset;
                       lp_aheadId := rp_connectionId ahead; lp_aheadName := rp_name ahead;
                       lp_aheadOffset := aheadOffset; lp_lagBytes := lagBytes |}
      end
  end.

(** *** Raft mode *)
Record RaftState := {
  ra_role : string;
  ra_currentTerm : number;
  ra_commitIndex : number;
  ra_lastApplied : number;
  ra_logEntries : number;
  ra_leaderId : string;
  ra_clusterState : string
}.

(** [num]: [Number(v)], 0 when it is not finite *)
Definition raft_num (v : option string) : number :=
  match v with
  | None => num_of_Z 0
  | Some s => let n := num_of_string s in if is_finite n then n else num_of_Z 0
  end.

Definition parseRaftState (clusterInfo : list (string * string)) : option RaftState :=
  match jm_get "cluster_raft_role" clusterInfo with
  | None => None
  | Some role =>
      Some {| ra_role := role;
              ra_currentTerm := raft_num (jm_get "cluster_raft_current_term" clusterInfo);
              ra_commitIndex := raft_num (jm_get "cluster_raft_commit_index" clusterInfo);
              ra_lastApplied := raft_num (jm_get "cluster_raft_last_applied" clusterInfo);
              ra_logEntries := raft_num (jm_get "cluster_raft_log_entries" clusterInfo);
              ra_leaderId := default EmptyString (jm_get "cluster_raft_leader" clusterInfo);
              ra_clusterState := default EmptyString (jm_get "cluster_state" clusterInfo) |}
  end.

Definition RAFT_SEEKING_ROLES : list string := ["candidate"; "pre-candidate"].
Definition isRaftSeeking (s : RaftState) : bool := js_includes (ra_role s) RAFT_SEEKING_ROLES.

(** ** Specification *)
Definition owns (n : ClusterNode) (slot : Z) : Prop := ∃ r, r ∈ cn_slots n ∧ r.1 ≤ slot ≤ r.2.

(** A replica pair in the view: the replica counts as stuck when no node with its
    primary's id is healthy. *)
Definition orphaned (nodes : list ClusterNode) (r : ClusterNode) : Prop :=
  isReplica r = true ∧ ∀ p, p ∈ nodes → cn_id p = cn_master r → isHealthyPrimary p = false.

(** A history of the resynchronisation detector: polls with their findings. *)
Record ResyncStep := {
  rs_input : ResyncLoopInput; rs_finding : option ResyncLoopFinding; rs_delivered : bool
}.
Definition resync_poll (i : ResyncLoopInput) (delivered : bool) (s : ResyncLoopState)
    : option ResyncLoopFinding * ResyncLoopState :=
  match evaluateResyncLoop i s with
  | (Some f, s') => (Some f, if delivered then acknowledgeResyncLoopFinding s' else s')
  | (None, s') => (None, s')
  end.
Fixpoint resync_run (l : list (ResyncLoopInput * bool)) (s : ResyncLoopState) : list ResyncStep :=
  match l with
  | [] => []
  | (i, d) :: l' =>
      {| rs_input := i; rs_finding := (resync_poll i d s).1; rs_delivered := d |}
      :: resync_run l' (resync_poll i d s).2
  end.
Fixpoint resync_end (l : list (ResyncLoopInput * bool)) (s : ResyncLoopState) : ResyncLoopState :=
  match l with [] => s | (i, d) :: l' => resync_end l' (resync_poll i d s).2 end.

Definition reported (p : ResyncStep) : bool := rs_delivered p && bool_decide (is_Some (rs_finding p)).

(** Attempts that ended in a stretch of polls: a sync in progress, then none. *)
Fixpoint ended (l : list ResyncStep) : Z :=
  match l with
  | p :: (q :: _) as l' =>
      (if ri_masterSyncInProgress (rs_input p) && negb (ri_masterSyncInProgress (rs_input q))
       then 1 else 0) + ended l'
  | _ => 0
  end.

(** ** Lemmas *)

(** *** Overlaps *)
Lemma overlap_with_spec x y b :
  match overlap_with x y b with
  | Some (s, e) => s ≤ e ∧ ∃ r, r ∈ b ∧ x ≤ s ∧ e ≤ y ∧ r.1 ≤ s ∧ e ≤ r.2
  | None => ∀ r, r ∈ b → ∀ z, x ≤ z ≤ y → ¬ r.1 ≤ z ≤ r.2
  end.
Proof.
  induction b as [|[u v] b IH]; simpl; [set_solver|].
  destruct (Z.leb_spec (Z.max x u) (Z.min y v)) as [H|H].
  - split; [done|]. exists (u, v). simpl. split; [set_solver|lia].
  - destruct (overlap_with x y b) as [[s e]|].
    + destruct IH as (Hse & r & Hr & Hin). split; [done|]. exists r. split; [set_solver|done].
    + intros r [->|Hr]%elem_of_cons z Hz; [simpl; lia|by apply IH].
Qed.

Lemma first_overlap_spec a b :
  match firstOverlappingRange a b with
  | Some (s, e) =>
      s ≤ e ∧ (∃ r, r ∈ a ∧ r.1 ≤ s ∧ e ≤ r.2) ∧ ∃ r, r ∈ b ∧ r.1 ≤ s ∧ e ≤ r.2
  | None => ∀ r q z, r ∈ a → q ∈ b → r.1 ≤ z ≤ r.2 → ¬ q.1 ≤ z ≤ q.2
  end.
Proof.
  induction a as [|[x y] a IH]; simpl; [set_solver|].
  pose proof (overlap_with_spec x y b) as Ho. destruct (overlap_with x y b) as [[s e]|].
  - destruct Ho as (Hse & r & Hr & ? & ? & Hin). split; [done|]. split; [|by exists r].
    exists (x, y). simpl. split; [set_solver|lia].
  - destruct (firstOverlappingRange a b) as [[s e]|].
    + destruct IH as (Hse & (r & Hr & Hin) & Hb). split; [done|]. split; [|done].
      exists r. split; [set_solver|done].
    + intros r q z [->|Hr]%elem_of_cons Hq Hz; [by apply (Ho q Hq z)|by eapply IH].
Qed.

Lemma sublist_pair {A} (a b m : A) l :
  [a; b] `sublist_of` (m :: l) ↔ (a = m ∧ b ∈ l) ∨ [a; b] `sublist_of` l.
Proof.
  rewrite sublist_cons_r. split.
  - intros [H|(l' & [= -> <-] & H)]; [by right|left]. split; [done|].
    apply elem_of_sublist with [b]; [set_solver|done].
  - intros [[-> Hb]|H]; [right|by left]. exists [b]. split; [done|]. by apply singleton_sublist_l.
Qed.

Lemma conflicts_elem c l :
  c ∈ conflicts l ↔ ∃ a b, [a; b] `sublist_of` l ∧ conflict_between a b = Some c.
Proof.
  induction l as [|m l IH]; simpl.
  - split; [set_solver|]. intros (a & b & H & _). by apply sublist_nil_r in H.
  - rewrite elem_of_app, list_elem_of_omap, IH. split.
    + intros [(b & Hb & Hc)|(a & b & H & Hc)].
      * exists m, b. rewrite sublist_pair. tauto.
      * exists a, b. rewrite sublist_pair. tauto.
    + intros (a & b & [[-> Hb]|H]%sublist_pair & Hc); [left|right]; eauto.
Qed.

Lemma js_filter_pair {A} (p : A → bool) a b l :
  [a; b] `sublist_of` js_filter p l ↔ [a; b] `sublist_of` l ∧ p a = true ∧ p b = true.
Proof.
  split.
  - intros H. assert (Hab : ∀ x, x ∈ [a; b] → p x = true).
    { intros x Hx. assert (Hin : x ∈ js_filter p l) by (by apply elem_of_sublist with [a; b]).
      by apply js_filter_elem in Hin as [? _]. }
    split; [etrans; [exact H|apply js_filter_sublist]|]. split; apply Hab; set_solver.
  - intros (H & Ha & Hb). induction l as [|m l IH]; [by apply sublist_nil_r in H|].
    simpl. apply sublist_pair in H as [[-> Hin]|H].
    + rewrite Ha, sublist_pair. left. split; [done|]. by apply js_filter_elem.
    + specialize (IH H). destruct (p m); [rewrite sublist_pair; by right|done].
Qed.

(** *** Nodes by id *)
Lemma nodes_by_id_get nodes k :
  NoDup (cn_id <$> nodes) → k ≠ EmptyString →
  jm_get k (nodes_by_id nodes) = js_find (λ n, str_eqb (cn_id n) k) nodes.
Proof.
  unfold nodes_by_id. intros Hnd Hk.
  assert (Hgen : ∀ m, (∀ n, n ∈ nodes → jm_get (cn_id n) m = None) →
    jm_get k (foldl (λ m node, if is_empty (cn_id node) then m else jm_set (cn_id node) node m) m nodes)
    = match js_find (λ n, str_eqb (cn_id n) k) nodes with Some n => Some n | None => jm_get k m end).
  { induction nodes as [|n nodes IH]; intros m Hm; [done|]. csimpl.
    apply NoDup_cons in Hnd as [Hn Hnd].
    set (m' := if is_empty (cn_id n) then m else jm_set (cn_id n) n m).
    rewrite IH; [|done|].
    2: { intros p Hp. unfold m'. destruct (is_empty (cn_id n)); [apply Hm; set_solver|].
         rewrite jm_get_set_ne; [apply Hm; set_solver|].
         intros Heq. apply Hn. rewrite <-Heq. apply list_elem_of_fmap. by exists p. }
    unfold str_eqb at 2. case_bool_decide as Hid.
    - assert (Hf : js_find (λ n, str_eqb (cn_id n) k) nodes = None).
      { apply js_find_None. intros p Hp. apply bool_decide_eq_false. intros Heq. apply Hn.
        rewrite Hid, <-Heq. apply list_elem_of_fmap. by exists p. }
      rewrite Hf. unfold m'. rewrite Hid. destruct k; [done|]. simpl. apply jm_get_set_eq.
    - destruct (js_find _ nodes); [done|]. unfold m'. destruct (is_empty (cn_id n)); [done|].
      apply jm_get_set_ne. congruence. }
  rewrite Hgen by done. by destruct (js_find _ nodes).
Qed.

Lemma replica_master r : isReplica r = true → cn_master r ≠ EmptyString.
Proof. unfold isReplica. intros [[_ H]%andb_true_iff _]%andb_true_iff Hm. by rewrite Hm in H. Qed.

(** *** The most advanced sibling *)
Definition sibling (promotedId : string) (p : ReplPeer) (o : Z) : Prop :=
  rp_connectionId p ≠ promotedId ∧ rp_role p = R_slave ∧ rp_offset p = Some o.

Lemma ahead_spec promotedId peers ahead :
  match foldl (ahead_step promotedId) ahead peers with
  | Some (p, o) =>
      (ahead = Some (p, o) ∨ p ∈ peers ∧ sibling promotedId p o)
      ∧ (∀ q b, ahead = Some (q, b) → b ≤ o) ∧ ∀ q b, q ∈ peers → sibling promotedId q b → b ≤ o
  | None => ahead = None ∧ ∀ q b, q ∈ peers → ¬ sibling promotedId q b
  end.
Proof.
  revert ahead. induction peers as [|x peers IH]; intros ahead.
  { simpl. destruct ahead as [[p o]|]; [|set_solver].
    split_and!; [by left|intros; simplify_eq; lia|set_solver]. }
  cbn [foldl]. specialize (IH (ahead_step promotedId ahead x)).
  assert (Hx : (ahead_step promotedId ahead x = ahead ∧
                 ∀ b, sibling promotedId x b → ∃ q o, ahead = Some (q, o) ∧ b ≤ o)
               ∨ ∃ b, sibling promotedId x b ∧ ahead_step promotedId ahead x = Some (x, b)
                      ∧ ∀ q o, ahead = Some (q, o) → o ≤ b).
  { unfold ahead_step, sibling, str_eqb.
    case_bool_decide; [left; split; [done|naive_solver]|].
    case_bool_decide; simpl; [|left; split; [done|naive_solver]].
    destruct (rp_offset x) as [o|] eqn:Ho; [|left; split; [done|naive_solver]].
    destruct ahead as [[p best]|]; [|right; exists o; naive_solver].
    destruct (Z.ltb_spec best o); [right; exists o; naive_solver lia|].
    left. split; [done|]. intros b (_ & _ & [= <-]). by exists p, best. }
  destruct Hx as [[Heq Hx]|(b & Hb & Heq & Hx)]; rewrite Heq in *;
    destruct (foldl _ _ peers) as [[p o]|].
  - destruct IH as (H1 & H2 & H3). split_and!; [set_solver|done|].
    intros q c [->|Hq]%elem_of_cons Hs; [|by eapply H3].
    destruct (Hx c Hs) as (r & v & Hr & Hv). pose proof (H2 _ _ Hr). lia.
  - destruct IH as (-> & H3). split; [done|]. intros q c [->|Hq]%elem_of_cons Hs; [|by eapply H3].
    by destruct (Hx c Hs) as (? & ? & ? & ?).
  - destruct IH as (H1 & H2 & H3). pose proof (H2 _ _ eq_refl) as Hbo. split_and!.
    + right. destruct H1 as [[= <- <-]|[? ?]]; split; try done; set_solver.
    + intros q c Hq. pose proof (Hx q c Hq). lia.
    + intros q c [->|Hq]%elem_of_cons Hs; [|by eapply H3].
      destruct Hs as (_ & _ & Hc), Hb as (_ & _ & Hb). rewrite Hc in Hb. by simplify_eq.
  - by destruct IH as [? _].
Qed.

(** *** The stretch of polls with the link down *)
Definition first_time (l : list ResyncStep) : option Z := (λ p, ri_timestamp (rs_input p)) <$> head l.
Record stretch (s : ResyncLoopState) (tl : list ResyncStep) : Prop := {
  st_down : Forall (λ p, link_down (rs_input p) = true) tl;
  st_start : rl_downWindowStart s = first_time tl;
  st_sync : rl_syncWasInProgress s = match last tl with
                                     | Some p => ri_masterSyncInProgress (rs_input p)
                                     | None => false
                                     end;
  st_cycles : rl_failedCycles s = ended tl;
  st_alerted : rl_alerted s = js_some reported tl
}.

Lemma stretch_nil : stretch createResyncLoopState [].
Proof. by split. Qed.

Lemma ended_snoc l p :
  ended (l ++ [p])
  = ended l + match last l with
              | Some q => if ri_masterSyncInProgress (rs_input q)
                             && negb (ri_masterSyncInProgress (rs_input p)) then 1 else 0
              | None => 0
              end.
Proof.
  induction l as [|x l IH]; [done|]. destruct l as [|y l].
  - simpl. by rewrite Z.add_0_r.
  - cbn [ended app] in *. change (last (x :: y :: l)) with (last (y :: l)). rewrite IH. lia.
Qed.

Lemma js_some_snoc {A} (p : A → bool) l x : js_some p (l ++ [x]) = js_some p l || p x.
Proof. unfold js_some. rewrite existsb_app. simpl. by rewrite orb_false_r. Qed.

Definition resync_step (i : ResyncLoopInput) (d : bool) (s : ResyncLoopState) : ResyncStep :=
  {| rs_input := i; rs_finding := (resync_poll i d s).1; rs_delivered := d |}.

Definition extends (tl : list ResyncStep) (p : ResyncStep) (tl' : list ResyncStep) : Prop :=
  tl' = [] ∨ tl' = [p] ∨ tl' = tl ++ [p].

(** A poll with the link down, from a state that belongs to a stretch. *)
Lemma down_step i d s0 s tl :
  link_down i = true → (s = s0 ∧ downCounterDropped i s0 = false
                        ∨ s = resetResyncLoopState s0 ∧ downCounterDropped i s0 = true) →
  stretch s tl →
  let p := resync_step i d s0 in
  stretch (resync_poll i d s0).2 (tl ++ [p])
  ∧ ∀ f, rs_finding p = Some f →
      js_some reported tl = false ∧ rf_failedCycles f = ended (tl ++ [p])
      ∧ RESYNC_LOOP_MIN_CYCLES ≤ rf_failedCycles f
      ∧ ∃ t0, first_time (tl ++ [p]) = Some t0 ∧ RESYNC_LOOP_MIN_WINDOW_MS ≤ ri_timestamp i - t0.
Proof.
  intros Hdown Hs [Hd Hst Hsy Hcy Hal] p.
  assert (Hfirst : first_time (tl ++ [p]) = Some (default (ri_timestamp i) (rl_downWindowStart s))).
  { rewrite Hst. by destruct tl. }
  assert (Hended : ended (tl ++ [p])
    = if rl_syncWasInProgress s && negb (ri_masterSyncInProgress i) then rl_failedCycles s + 1
      else rl_failedCycles s).
  { rewrite ended_snoc, Hcy, Hsy. destruct (last tl) as [q|]; [|simpl; lia]. simpl.
    destruct (_ && _); lia. }
  assert (Heval : ∃ r, evaluateResyncLoop i s0 = r
    ∧ rl_downWindowStart r.2 = first_time (tl ++ [p])
    ∧ rl_syncWasInProgress r.2 = ri_masterSyncInProgress i
    ∧ rl_failedCycles r.2 = ended (tl ++ [p]) ∧ rl_alerted r.2 = rl_alerted s
    ∧ ∀ f, r.1 = Some f → rl_alerted s = false ∧ rf_failedCycles f = ended (tl ++ [p])
        ∧ RESYNC_LOOP_MIN_CYCLES ≤ rf_failedCycles f
        ∧ ∃ t0, first_time (tl ++ [p]) = Some t0 ∧ RESYNC_LOOP_MIN_WINDOW_MS ≤ ri_timestamp i - t0).
  { eexists. split; [reflexivity|]. rewrite Hfirst, Hended. unfold evaluateResyncLoop. rewrite Hdown.
    cbn [negb]. assert ((if downCounterDropped i s0 then resetResyncLoopState s0 else s0) = s) as ->.
    { by destruct Hs as [[-> ->]|[-> ->]]. }
    destruct (Z.leb_spec RESYNC_LOOP_MIN_WINDOW_MS
                (ri_timestamp i - default (ri_timestamp i) (rl_downWindowStart s))) as [Hw|Hw];
      cbn [negb orb]; [|by split_and!].
    destruct (Z.ltb_spec (if rl_syncWasInProgress s && negb (ri_masterSyncInProgress i)
                          then rl_failedCycles s + 1 else rl_failedCycles s)
                RESYNC_LOOP_MIN_CYCLES) as [Hc|Hc]; cbn [orb]; [by split_and!|].
    destruct (rl_alerted s); cbn [orb]; split_and!; try done.
    intros f [= <-]. cbn. split_and!; try done. by eexists. }
  destruct Heval as ([o s'] & He & Hw & Hy & Hc & Ha & Hf). cbn in Hw, Hy, Hc, Ha, Hf.
  assert (Hfind : rs_finding p = o).
  { unfold p, resync_step, resync_poll. cbn. rewrite He. by destruct o. }
  assert (Hpost : (resync_poll i d s0).2
    = if reported p then acknowledgeResyncLoopFinding s' else s').
  { unfold reported. rewrite Hfind. unfold resync_poll. rewrite He. by destruct o, d. }
  split.
  - rewrite Hpost. split.
    + apply Forall_app. split; [done|]. by repeat constructor.
    + by destruct (reported p).
    + rewrite last_snoc. by destruct (reported p).
    + by destruct (reported p).
    + rewrite js_some_snoc, <-Hal, <-Ha. destruct (reported p); cbn; [by rewrite orb_true_r|].
      by rewrite orb_false_r.
  - intros f Hff. rewrite Hfind in Hff. rewrite <-Hal. by apply Hf.
Qed.

Lemma stretch_step i d s tl :
  stretch s tl →
  let p := resync_step i d s in
  ∃ pre tl', stretch (resync_poll i d s).2 tl' ∧ (pre = [] ∨ pre = tl)
    ∧ (tl' = [] ∨ tl' = pre ++ [p])
    ∧ ∀ f, rs_finding p = Some f →
        tl' = pre ++ [p] ∧ js_some reported pre = false ∧ rf_failedCycles f = ended tl'
        ∧ RESYNC_LOOP_MIN_CYCLES ≤ rf_failedCycles f
        ∧ ∃ t0, first_time tl' = Some t0 ∧ RESYNC_LOOP_MIN_WINDOW_MS ≤ ri_timestamp i - t0.
Proof.
  intros Hs p. destruct (link_down i) eqn:Hdown.
  - destruct (downCounterDropped i s) eqn:Hdrop.
    + destruct (down_step i d s (resetResyncLoopState s) [] Hdown) as [H1 H2];
        [by right|apply stretch_nil|].
      exists [], [p]. split_and!; [done|by left|by right|]. intros f Hf. split; [done|]. by apply H2.
    + destruct (down_step i d s s tl Hdown) as [H1 H2]; [by left|done|].
      exists tl, (tl ++ [p]). split_and!; [done|by right|by right|]. intros f Hf. split; [done|].
      by apply H2.
  - exists [], []. assert (He : resync_poll i d s = (None, resetResyncLoopState s)).
    { unfold resync_poll, evaluateResyncLoop. by rewrite Hdown. }
    unfold p, resync_step. rewrite He. split_and!; [apply stretch_nil|by left|by left|done].
Qed.

Lemma resync_lookup l s tl hist j p f :
  stretch s tl → (∃ b, hist = b ++ tl) → resync_run l s !! j = Some p → rs_finding p = Some f →
  ∃ before pre, hist ++ take (S j) (resync_run l s) = before ++ pre ++ [p]
    ∧ Forall (λ q, link_down (rs_input q) = true) (pre ++ [p])
    ∧ js_some reported pre = false ∧ rf_failedCycles f = ended (pre ++ [p])
    ∧ RESYNC_LOOP_MIN_CYCLES ≤ rf_failedCycles f
    ∧ ∃ t0, first_time (pre ++ [p]) = Some t0
            ∧ RESYNC_LOOP_MIN_WINDOW_MS ≤ ri_timestamp (rs_input p) - t0.
Proof.
  revert s tl hist j. induction l as [|[i d] l IH]; intros s tl hist j Hs [b ->] Hj Hf; [done|].
  destruct (stretch_step i d s tl Hs) as (pre & tl' & Hs' & Hpre & Htl & Hfin).
  change (resync_run ((i, d) :: l) s)
    with (resync_step i d s :: resync_run l (resync_poll i d s).2) in *.
  destruct j as [|j]; cbn in Hj.
  - injection Hj as <-. destruct (Hfin f Hf) as (-> & Hr & Hc & H2 & Ht).
    assert (∃ before, (b ++ tl) ++ take 1 (resync_step i d s :: resync_run l (resync_poll i d s).2)
                      = before ++ pre ++ [resync_step i d s]) as [before Hb].
    { cbn. rewrite take_0. destruct Hpre as [->| ->]; [by exists (b ++ tl)|].
      exists b. by rewrite <-app_assoc. }
    exists before, pre. split_and!; try done. apply Hs'.
  - destruct (IH _ tl' ((b ++ tl) ++ [resync_step i d s]) j Hs') as (before & pre' & Hb & Hrest);
      [|done|done|].
    + destruct Htl as [->| ->]; [eexists; by rewrite app_nil_r|].
      destruct Hpre as [->| ->]; [by exists (b ++ tl)|]. exists b. by rewrite <-app_assoc.
    + exists before, pre'. split; [|done]. rewrite <-Hb. cbn. by rewrite <-!app_assoc.
Qed.

(** ** Theorems *)

(** The duplicate-primary detector reports exactly the slots with two live
    primaries: two live primaries that own a common slot are reported as a pair, and
    every report names two live primaries of the view that both own each slot of its
    range, with the higher epoch first and the other as the phantom. *)
Theorem duplicate_primaries_exact nodes :
  (∀ a b slot, [a; b] `sublist_of` nodes → isLivePrimary a = true → isLivePrimary b = true →
     owns a slot → owns b slot →
     ∃ c, c ∈ detectDuplicatePrimaries nodes
          ∧ dp_masters c = (primary_of (order_pair a b).1, primary_of (order_pair a b).2))
  ∧ ∀ c, c ∈ detectDuplicatePrimaries nodes →
     ∃ a b hi lo, [a; b] `sublist_of` nodes ∧ isLivePrimary a = true ∧ isLivePrimary b = true
       ∧ dp_slotStart c ≤ dp_slotEnd c
       ∧ (∀ slot, dp_slotStart c ≤ slot ≤ dp_slotEnd c → owns a slot ∧ owns b slot)
       ∧ (hi = a ∧ lo = b ∨ hi = b ∧ lo = a) ∧ cn_configEpoch lo ≤ cn_configEpoch hi
       ∧ dp_masters c = (primary_of hi, primary_of lo) ∧ dp_phantomId c = cn_id lo.
Proof.
  unfold detectDuplicatePrimaries. split.
  - intros a b slot Hab Ha Hb (r & Hr & Hrs) (q & Hq & Hqs).
    pose proof (first_overlap_spec (cn_slots a) (cn_slots b)) as Ho.
    destruct (conflict_between a b) as [c|] eqn:Hc.
    + exists c. split.
      * apply conflicts_elem. exists a, b. split; [|done]. by apply js_filter_pair.
      * unfold conflict_between in Hc. destruct (firstOverlappingRange _ _) as [[? ?]|]; [|done].
        destruct (order_pair a b). by injection Hc as <-.
    + exfalso. unfold conflict_between in Hc. destruct (firstOverlappingRange _ _) as [[? ?]|].
      * by destruct (order_pair a b).
      * by eapply Ho.
  - intros c (a & b & [Hab [Ha Hb]]%js_filter_pair & Hc)%conflicts_elem.
    unfold conflict_between in Hc. pose proof (first_overlap_spec (cn_slots a) (cn_slots b)) as Ho.
    destruct (firstOverlappingRange _ _) as [[s e]|]; [|done].
    destruct Ho as (Hse & (r & Hr & Hra) & (q & Hq & Hqa)).
    unfold order_pair in Hc. exists a, b.
    destruct (Z.leb_spec (cn_configEpoch b - cn_configEpoch a) 0);
      [exists a, b|exists b, a]; injection Hc as <-; simpl; split_and!; try done; try lia;
      try (by left); try (by right);
      intros slot Hslot; (split; [exists r|exists q]; split; try done; lia).
Qed.

(** With distinct node ids, the stuck replicas are exactly the replicas whose
    primary is dead or absent from the view, and the reason says which. *)
Theorem stuck_replicas_exact nodes s :
  NoDup (cn_id <$> nodes) →
  s ∈ detectStuckReplicas nodes ↔
  ∃ r, r ∈ nodes ∧ orphaned nodes r ∧ sr_replicaId s = cn_id r ∧ sr_replicaAddress s = cn_address r
       ∧ sr_primaryId s = cn_master r
       ∧ ((∃ p, p ∈ nodes ∧ cn_id p = cn_master r ∧ sr_reason s = primary_failed
               ∧ sr_primaryAddress s = Some (cn_address p))
          ∨ (∀ p, p ∈ nodes → cn_id p ≠ cn_master r) ∧ sr_reason s = primary_unknown
            ∧ sr_primaryAddress s = None).
Proof.
  intros Hnd. unfold detectStuckReplicas. rewrite list_elem_of_omap.
  assert (Huniq : ∀ p q, p ∈ nodes → q ∈ nodes → cn_id p = cn_id q → p = q).
  { intros p q Hp Hq Hpq. apply list_elem_of_lookup in Hp as [i Hi], Hq as [j Hj].
    assert (i = j) as ->; [|by simplify_eq]. eapply (NoDup_lookup (cn_id <$> nodes)); [done|..].
    - rewrite list_lookup_fmap, Hi. done.
    - rewrite list_lookup_fmap, Hj. simpl. by rewrite Hpq. }
  split.
  - intros (r & Hr & Hs). unfold stuck_of in Hs. destruct (isReplica r) eqn:Hrep; [|done].
    cbn in Hs. rewrite nodes_by_id_get in Hs by (done || by apply replica_master).
    exists r. unfold orphaned. destruct (js_find _ nodes) as [p|] eqn:Hp.
    + apply js_find_Some in Hp as [Hid%bool_decide_eq_true Hp].
      destruct (isHealthyPrimary p) eqn:Hh; [done|]. injection Hs as <-. simpl. split_and!; try done.
      * intros q Hq Hqid. by rewrite (Huniq q p) by (done || congruence).
      * left. by exists p.
    + injection Hs as <-. simpl.
      assert (Hno : ∀ q, q ∈ nodes → cn_id q ≠ cn_master r).
      { intros q Hq Hqid. rewrite js_find_None in Hp. apply Hp in Hq.
        by apply bool_decide_eq_false in Hq. }
      split_and!; try done; [|by right]. intros q Hq Hqid. by destruct (Hno q Hq).
  - intros (r & Hr & [Hrep Horph] & H1 & H2 & H3 & H4). exists r. split; [done|].
    unfold stuck_of. rewrite Hrep. cbn. rewrite nodes_by_id_get by (done || by apply replica_master).
    destruct (js_find _ nodes) as [p|] eqn:Hp.
    + apply js_find_Some in Hp as [Hid%bool_decide_eq_true Hp]. rewrite (Horph p Hp Hid).
      destruct H4 as [(q & Hq & Hqid & Hr1 & Hr2)|[Hno _]]; [|by destruct (Hno p Hp)].
      rewrite (Huniq q p) in Hr2 by (done || congruence). destruct s. simpl in *. by subst.
    + destruct H4 as [(q & Hq & Hqid & _)|(_ & Hr1 & Hr2)].
      * rewrite js_find_None in Hp. apply Hp in Hq. by apply bool_decide_eq_false in Hq.
      * destruct s. simpl in *. by subst.
Qed.

(** A promotion is reported exactly when a sibling replica was ahead by the gap:
    the report names a sibling that no other is ahead of and the bytes between them,
    and without a report no sibling is that far ahead. *)
Theorem lagging_promotion_exact promotedId offset peers gap :
  match detectLaggingPromotion promotedId (Some offset) peers gap with
  | Some r =>
      gap ≤ lp_lagBytes r ∧ lp_lagBytes r = lp_aheadOffset r - offset
      ∧ (∃ p, p ∈ peers ∧ sibling promotedId p (lp_aheadOffset r) ∧ lp_aheadId r = rp_connectionId p)
      ∧ ∀ p o, p ∈ peers → sibling promotedId p o → o ≤ lp_aheadOffset r
  | None => ∀ p o, p ∈ peers → sibling promotedId p o → o - offset < gap
  end.
Proof.
  unfold detectLaggingPromotion. pose proof (ahead_spec promotedId peers None) as Ha.
  destruct (foldl _ None peers) as [[p o]|].
  - destruct Ha as ([?|[Hp Hs]] & _ & Hmax); [done|].
    destruct (Z.ltb_spec (o - offset) gap) as [H|H].
    + intros q b Hq Hb. specialize (Hmax q b Hq Hb). lia.
    + simpl. split_and!; [done|done|by exists p|done].
  - destruct Ha as [_ Hno]. intros q b Hq Hb. by destruct (Hno q b Hq).
Qed.

(** Over any history, a resynchronisation alert rests on an unbroken stretch of
    polls with the link down, at least five minutes long, in which at least two
    syncs ended and none of which was reported before; the alert counts them. *)
Theorem resync_alerts l j p f :
  let h := resync_run l createResyncLoopState in
  h !! j = Some p → rs_finding p = Some f →
  ∃ before pre, take (S j) h = before ++ pre ++ [p]
    ∧ Forall (λ q, link_down (rs_input q) = true) (pre ++ [p])
    ∧ js_some reported pre = false ∧ rf_failedCycles f = ended (pre ++ [p])
    ∧ RESYNC_LOOP_MIN_CYCLES ≤ rf_failedCycles f
    ∧ ∃ t0, first_time (pre ++ [p]) = Some t0
            ∧ RESYNC_LOOP_MIN_WINDOW_MS ≤ ri_timestamp (rs_input p) - t0.
Proof.
  intros h Hj Hf. apply (resync_lookup l _ [] [] j p f stretch_nil); [by exists []|done|done].
Qed.

(** *** Samples *)
Definition sample_node (id : string) (flags : list string) (master : string) (epoch : Z)
    (slots : list (Z * Z)) : ClusterNode :=
  {| cn_id := id; cn_address := id +:+ ":6379"; cn_flags := flags; cn_master := master;
     cn_pingSent := 0; cn_pongReceived := 0; cn_configEpoch := epoch; cn_linkState := "connected";
     cn_slots := slots; cn_migratingSlots := None; cn_importingSlots := None; cn_hostname := None |}.
Definition sample_view : list ClusterNode :=
  [sample_node "p1" ["master"] "-" 3 [(0, 100)]; sample_node "p2" ["master"; "fail"] "-" 2 [(101, 200)];
   sample_node "r2" ["slave"] "p2" 2 []; sample_node "r9" ["slave"] "gone" 2 [];
   sample_node "p3" ["master"] "-" 5 [(300, 400); (90, 95)]].

Example sample_conflicts :
  detectDuplicatePrimaries sample_view
  = [{| dp_slotStart := 90; dp_slotEnd := 95;
        dp_masters := ({| cp_id := "p3"; cp_address := "p3:6379"; cp_configEpoch := 5 |},
                       {| cp_id := "p1"; cp_address := "p1:6379"; cp_configEpoch := 3 |});
        dp_phantomId := "p1" |}].
Proof. reflexivity. Qed.

Lemma stuck_replicas_exact_witness :
  NoDup (cn_id <$> sample_view)
  ∧ ∃ s, s ∈ detectStuckReplicas sample_view ∧ sr_replicaId s = "r9" ∧ sr_reason s = primary_unknown.
Proof.
  assert (Hnd : NoDup (cn_id <$> sample_view)) by (apply (bool_decide_unpack _); vm_compute; exact I).
  split; [exact Hnd|].
  exists {| sr_replicaId := "r9"; sr_replicaAddress := "r9:6379"; sr_primaryId := "gone";
            sr_primaryAddress := None; sr_reason := primary_unknown |}.
  split; [|split; reflexivity]. apply (stuck_replicas_exact sample_view _ Hnd).
  exists (sample_node "r9" ["slave"] "gone" 2 []).
  assert (Hno : ∀ p, p ∈ sample_view → cn_id p ≠ "gone").
  { intros p Hp. apply list_elem_of_In in Hp. simpl in Hp. destruct_or?; subst; done. }
  split; [do 3 apply list_elem_of_further; apply list_elem_of_here|]. split; [|repeat split; by right].
  split; [reflexivity|]. intros p Hp Hid. by destruct (Hno p Hp).
Defined.

(** A replica that retries a full sync every two minutes. *)
Definition down_poll (t : Z) (syncing delivered : bool) : ResyncLoopInput * bool :=
  ({| ri_role := "slave"; ri_masterLinkStatus := Some "down"; ri_masterLinkDownSinceSeconds := Some (t / 1000);
      ri_masterSyncInProgress := syncing; ri_timestamp := t |}, delivered).
Definition looping : list (ResyncLoopInput * bool) :=
  [down_poll 0 true true; down_poll 120000 false true; down_poll 180000 true true;
   down_poll 240000 false true; down_poll 310000 true true; down_poll 400000 false true].

Lemma resync_alerts_witness :
  ∃ p f, resync_run looping createResyncLoopState !! 4%nat = Some p ∧ rs_finding p = Some f
    ∧ RESYNC_LOOP_MIN_CYCLES ≤ rf_failedCycles f.
Proof.
  assert (is_Some (resync_run looping createResyncLoopState !! 4%nat ≫= rs_finding)) as [f Hf]
    by (apply (bool_decide_unpack (is_Some _)); vm_compute; exact I).
  apply bind_Some in Hf as (p & Hp & Hf). exists p, f. split; [exact Hp|]. split; [exact Hf|].
  destruct (resync_alerts looping 4 p f Hp Hf) as (_ & _ & _ & _ & _ & _ & H & _). exact H.
Defined.
