(* ===== verification/FailoverChurn.v ===== *)
(** * Failover churn

    [failover-churn-detector.ts]: a shard whose configuration epoch or owner changes
    three times within a minute.  The state map has one entry a shard; the loop over
    the observations treats each shard on its own ([observe_shard]). *)
From S2P Require Export ClusterTopology.
From stdpp Require Import options.

(** ** Definitions *)
Definition FAILOVER_CHURN_WINDOW_MS : Z := 60000.
Definition FAILOVER_CHURN_MIN_CHANGES : Z := 3.
Definition SHARD_STATE_TTL_MS : Z := 2 * FAILOVER_CHURN_WINDOW_MS.
Definition ESCALATION_HORIZON_MS : Z := 2 * FAILOVER_CHURN_WINDOW_MS.
Definition EPOCH_TRAIL_LIMIT : Z := 6.

Record ShardObservation := {
  so_shardKey : string; so_ownerId : string; so_configEpoch : Z; so_resharding : bool
}.
Record ShardChurnState := {
  sc_lastEpoch : Z;
  sc_lastOwner : string;
  sc_epochBumpTimes : list Z;
  sc_ownerFlipTimes : list Z;
  sc_epochTrail : list Z;
  sc_lastFireAt : option Z;
  sc_lastSeenAt : Z
}.
Definition FailoverChurnStateMap := list (string * ShardChurnState).

Inductive ChurnSeverity := churn_warning | churn_critical.
Record FailoverChurnFinding := {
  fc_shardKey : string;
  fc_ownerId : string;
  fc_changes : Z;
  fc_windowMs : Z;
  fc_epochTrail : list Z;
  fc_severity : ChurnSeverity;
  fc_message : string
}.

Definition canonicalSlotKey (slots : list (Z * Z)) : string :=
  let ranges := (λ r : Z * Z, string_of_Z r.1 +:+ "-" +:+ string_of_Z r.2) <$> slots in
  join "," (js_sort (by_asc (λ s, default 0 (parse_int s))) ranges).

Definition isResharding (node : ClusterNode) : bool :=
  (0 <? js_len (default [] (cn_migratingSlots node)))
  || (0 <? js_len (default [] (cn_importingSlots node))).

Definition observation_of (candidate : ClusterNode) : ShardObservation :=
  {| so_shardKey := canonicalSlotKey (cn_slots candidate); so_ownerId := cn_id candidate;
     so_configEpoch := cn_configEpoch candidate; so_resharding := isResharding candidate |}.

Definition takesOwnership (o : ShardObservation) (existing : option ShardObservation) : bool :=
  match existing with
  | None => true
  | Some e =>
      (so_configEpoch e <? so_configEpoch o)
      || ((so_configEpoch o =? so_configEpoch e) && str_ltb (so_ownerId o) (so_ownerId e))
  end.

Definition extract_step (byShard : list (string * ShardObservation)) (candidate : ClusterNode)
    : list (string * ShardObservation) :=
  if negb (isLivePrimary candidate) then byShard
  else
    let observation := observation_of candidate in
    if takesOwnership observation (jm_get (so_shardKey observation) byShard)
    then jm_set (so_shardKey observation) observation byShard else byShard.
Definition by_shard (nodes : list ClusterNode) : list (string * ShardObservation) :=
  foldl extract_step [] nodes.
Definition extractShardOwnership (nodes : list ClusterNode) : list ShardObservation :=
  jm_values (by_shard nodes).

Definition unhealthyClaimantIds (nodes : list ClusterNode) : list string :=
  cn_id <$> js_filter (λ c, has_flag c "master" && (0 <? js_len (cn_slots c))
                            && js_some (has_flag c) UNHEALTHY_PRIMARY_FLAGS) nodes.

Definition inWindow (times : list Z) (timestamp : Z) : list Z :=
  js_filter (λ t, timestamp - t <=? FAILOVER_CHURN_WINDOW_MS) times.

Definition buildMessage (shardKey : string) (changes windowMs : Z) (epochTrail : list Z) : string :=
  "Shard " +:+ shardKey +:+ " has re-elected " +:+ string_of_Z changes +:+ " times in "
  +:+ string_of_Z (round_seconds windowMs) +:+ "s (configEpoch "
  +:+ join "→" (string_of_Z <$> epochTrail)
  +:+ ") — likely competing FAILOVER commands (valkey#3996). Ensure a single failover coordinator.".

Definition new_shard (o : ShardObservation) (timestamp : Z) : ShardChurnState :=
  {| sc_lastEpoch := so_configEpoch o; sc_lastOwner := so_ownerId o; sc_epochBumpTimes := [];
     sc_ownerFlipTimes := []; sc_epochTrail := [so_configEpoch o]; sc_lastFireAt := None;
     sc_lastSeenAt := timestamp |}.

(** The body of the loop over the observations *)
Definition observe_shard (flappingClaimants : list string) (timestamp : Z) (o : ShardObservation)
    (existing : option ShardChurnState) : option FailoverChurnFinding * ShardChurnState :=
  match existing with
  | None => (None, new_shard o timestamp)
  | Some s0 =>
      let s := {| sc_lastEpoch := sc_lastEpoch s0; sc_lastOwner := sc_lastOwner s0;
                  sc_epochBumpTimes := sc_epochBumpTimes s0;
                  sc_ownerFlipTimes := sc_ownerFlipTimes s0; sc_epochTrail := sc_epochTrail s0;
                  sc_lastFireAt := sc_lastFireAt s0; sc_lastSeenAt := timestamp |} in
      if so_configEpoch o <? sc_lastEpoch s then (None, s)
      else if (so_configEpoch o =? sc_lastEpoch s) && negb (str_eqb (so_ownerId o) (sc_lastOwner s))
              && js_includes (sc_lastOwner s) flappingClaimants
      then (None, s)
      else if so_resharding o then
        (None, {| sc_lastEpoch := so_configEpoch o; sc_lastOwner := so_ownerId o;
                  sc_epochBumpTimes := sc_epochBumpTimes s;
                  sc_ownerFlipTimes := sc_ownerFlipTimes s; sc_epochTrail := sc_epochTrail s;
                  sc_lastFireAt := sc_lastFireAt s; sc_lastSeenAt := timestamp |})
      else
        let bumped := sc_lastEpoch s <? so_configEpoch o in
        let bumps := if bumped then sc_epochBumpTimes s ++ [timestamp] else sc_epochBumpTimes s in
        let trail :=
          if bumped then
            let tr := sc_epochTrail s ++ [so_configEpoch o] in
            if EPOCH_TRAIL_LIMIT <? js_len tr then tail tr else tr
          else sc_epochTrail s in
        let flips := if str_eqb (so_ownerId o) (sc_lastOwner s) then sc_ownerFlipTimes s
                     else sc_ownerFlipTimes s ++ [timestamp] in
        let s' := {| sc_lastEpoch := so_configEpoch o; sc_lastOwner := so_ownerId o;
                     sc_epochBumpTimes := inWindow bumps timestamp;
                     sc_ownerFlipTimes := inWindow flips timestamp; sc_epochTrail := trail;
                     sc_lastFireAt := sc_lastFireAt s; sc_lastSeenAt := timestamp |} in
        let changes := Z.max (js_len (sc_epochBumpTimes s')) (js_len (sc_ownerFlipTimes s')) in
        if changes <? FAILOVER_CHURN_MIN_CHANGES then (None, s')
        else
          let continued := match sc_lastFireAt s with
                           | Some t => timestamp - t <=? ESCALATION_HORIZON_MS
                           | None => false
                           end in
          (Some {| fc_shardKey := so_shardKey o; fc_ownerId := so_ownerId o; fc_changes := changes;
                   fc_windowMs := FAILOVER_CHURN_WINDOW_MS; fc_epochTrail := trail;
                   fc_severity := if continued then churn_critical else churn_warning;
                   fc_message := buildMessage (so_shardKey o) changes FAILOVER_CHURN_WINDOW_MS trail |},
           s')
  end.

Definition observe_all (flappingClaimants : list string) (timestamp : Z)
    (observations : list ShardObservation) (state : FailoverChurnStateMap)
    : list FailoverChurnFinding * FailoverChurnStateMap :=
  foldl (λ '(findings, st) o,
           let '(f, s) := observe_shard flappingClaimants timestamp o (jm_get (so_shardKey o) st) in
           (findings ++ option_list f, jm_set (so_shardKey o) s st))
    ([], state) observations.

(** The loop that forgets the shards not seen for long *)
Definition forget_shards (seenShards : list string) (timestamp : Z) (state : FailoverChurnStateMap)
    : FailoverChurnStateMap :=
  js_filter (λ kv, js_includes kv.1 seenShards
                   || negb (SHARD_STATE_TTL_MS <? timestamp - sc_lastSeenAt kv.2)) state.

Definition evaluateFailoverChurn (nodes : list ClusterNode) (timestamp : Z)
    (state : FailoverChurnStateMap) : list FailoverChurnFinding * FailoverChurnStateMap :=
  let observations := extractShardOwnership nodes in
  let '(findings, state') :=
    observe_all (unhealthyClaimantIds nodes) timestamp observations state in
  (findings, forget_shards (so_shardKey <$> observations) timestamp state').

Definition acknowledgeChurnFinding (shardKey : string) (timestamp : Z)
    (state : FailoverChurnStateMap) : FailoverChurnStateMap :=
  match jm_get shardKey state with
  | None => state
  | Some s =>
      jm_set shardKey
        {| sc_lastEpoch := sc_lastEpoch s; sc_lastOwner := sc_lastOwner s; sc_epochBumpTimes := [];
           sc_ownerFlipTimes := []; sc_epochTrail := [sc_lastEpoch s];
           sc_lastFireAt := Some timestamp; sc_lastSeenAt := sc_lastSeenAt s |} state
  end.

(** ** Specification *)

(** A history: snapshots with their times and the shards whose alerts could be
    delivered. *)
Record Snapshot := { sn_nodes : list ClusterNode; sn_time : Z; sn_delivered : list string }.

Definition acknowledge_all (p : Snapshot) (findings : list FailoverChurnFinding)
    (st : FailoverChurnStateMap) : FailoverChurnStateMap :=
  foldl (λ st f, if js_includes (fc_shardKey f) (sn_delivered p)
                 then acknowledgeChurnFinding (fc_shardKey f) (sn_time p) st else st) st findings.
Definition churn_poll (p : Snapshot) (st : FailoverChurnStateMap)
    : list FailoverChurnFinding * FailoverChurnStateMap :=
  let '(findings, st') := evaluateFailoverChurn (sn_nodes p) (sn_time p) st in
  (findings, acknowledge_all p findings st').
Fixpoint churn_run (l : list Snapshot) (st : FailoverChurnStateMap)
    : list (Snapshot * list FailoverChurnFinding) :=
  match l with
  | [] => []
  | p :: l' => (p, (churn_poll p st).1) :: churn_run l' (churn_poll p st).2
  end.

(** The observations of one shard in a history, with their times *)
Definition observed (key : string) (l : list Snapshot) : list (Z * ShardObservation) :=
  omap (λ p, (λ o, (sn_time p, o)) <$> jm_get key (by_shard (sn_nodes p))) l.

(** The times at which the epoch rose from one observation to the next, and the
    number of times the owner changed *)
Fixpoint rise_times (l : list (Z * ShardObservation)) : list Z :=
  match l with
  | a :: (b :: _) as l' =>
      (if so_configEpoch a.2 <? so_configEpoch b.2 then [b.1] else []) ++ rise_times l'
  | _ => []
  end.
Fixpoint owner_changes (l : list (Z * ShardObservation)) : Z :=
  match l with
  | a :: (b :: _) as l' =>
      (if str_eqb (so_ownerId a.2) (so_ownerId b.2) then 0 else 1) + owner_changes l'
  | _ => 0
  end.

(** What the state of a shard knows of its observations *)
Definition accounted (l : list (Z * ShardObservation)) (s : ShardChurnState) : Prop :=
  ∃ a, last l = Some a ∧ so_configEpoch a.2 ≤ sc_lastEpoch s
    ∧ sc_epochBumpTimes s `sublist_of` rise_times l
    ∧ js_len (sc_ownerFlipTimes s) + (if str_eqb (so_ownerId a.2) (sc_lastOwner s) then 0 else 1)
      ≤ owner_changes l.

(** ** Lemmas *)
Lemma rise_times_snoc l a b :
  last l = Some a →
  rise_times (l ++ [b])
  = rise_times l ++ (if so_configEpoch a.2 <? so_configEpoch b.2 then [b.1] else []).
Proof.
  induction l as [|x l IH]; [done|]. destruct l as [|y l]; intros Ha.
  - simpl in Ha. simplify_eq. simpl. by rewrite app_nil_r.
  - change (last (x :: y :: l)) with (last (y :: l)) in Ha.
    cbn [rise_times app] in *. by rewrite IH, app_assoc.
Qed.

Lemma owner_changes_snoc l a b :
  last l = Some a →
  owner_changes (l ++ [b])
  = owner_changes l + (if str_eqb (so_ownerId a.2) (so_ownerId b.2) then 0 else 1).
Proof.
  induction l as [|x l IH]; [done|]. destruct l as [|y l]; intros Ha.
  - simpl in Ha. simplify_eq. simpl. lia.
  - change (last (x :: y :: l)) with (last (y :: l)) in Ha.
    cbn [owner_changes app] in *. rewrite IH by done. lia.
Qed.

Lemma owner_changes_nonneg l : 0 ≤ owner_changes l.
Proof.
  induction l as [|x l IH]; [done|]. destruct l as [|y l]; [done|].
  cbn [owner_changes] in *. destruct (str_eqb _ _); lia.
Qed.

Lemma inWindow_sublist l t : inWindow l t `sublist_of` l.
Proof. apply js_filter_sublist. Qed.

Lemma inWindow_mono l k t : l `sublist_of` k → inWindow l t `sublist_of` inWindow k t.
Proof.
  unfold inWindow. induction 1 as [|x l k _ IH|x l k _ IH]; simpl; [done| |];
    destruct (_ <=? _); by try constructor.
Qed.

Lemma inWindow_idemp l t : inWindow (inWindow l t) t = inWindow l t.
Proof.
  apply js_filter_all. intros x Hx. by apply js_filter_elem in Hx as [? _].
Qed.

(** Enough changes for an alert: rises of the epoch within the window, or changes of
    the owner *)
Definition churned (l : list (Z * ShardObservation)) (timestamp : Z) : Prop :=
  FAILOVER_CHURN_MIN_CHANGES ≤ js_len (inWindow (rise_times l) timestamp)
  ∨ FAILOVER_CHURN_MIN_CHANGES ≤ owner_changes l.

(** One observation of a shard: the state accounts for it, and an alert is due to
    changes that were observed. *)
Lemma observe_shard_accounted fl t o l s0 :
  accounted l s0 →
  let r := observe_shard fl t o (Some s0) in
  accounted (l ++ [(t, o)]) r.2
  ∧ ∀ f, r.1 = Some f → churned (l ++ [(t, o)]) t ∧ fc_shardKey f = so_shardKey o.
Proof.
  intros (a & Ha & Hep & Hbump & Hflip). unfold accounted, churned.
  rewrite last_snoc, (rise_times_snoc l a (t, o) Ha), (owner_changes_snoc l a (t, o) Ha). cbn [fst snd].
  pose proof (owner_changes_nonneg l) as Hnn.
  assert (Hskip : (∃ a0 : Z * ShardObservation, Some (t, o) = Some a0) → so_configEpoch o ≤ sc_lastEpoch s0 →
    js_len (sc_ownerFlipTimes s0) + (if str_eqb (so_ownerId o) (sc_lastOwner s0) then 0 else 1)
    ≤ owner_changes l + (if str_eqb (so_ownerId a.2) (so_ownerId o) then 0 else 1)).
  { intros _ _. unfold str_eqb in *. repeat case_bool_decide; congruence || lia. }
  assert (Hbump' : ∀ x, sc_epochBumpTimes s0 `sublist_of` rise_times l ++ x).
  { intros x. by apply sublist_inserts_r. }
  unfold observe_shard. cbn [sc_lastEpoch sc_lastOwner sc_epochBumpTimes sc_ownerFlipTimes].
  destruct (Z.ltb_spec (so_configEpoch o) (sc_lastEpoch s0)) as [Hlow|Hhigh].
  { split; [|done]. exists (t, o). cbn. split_and!; [done|lia|done|]. apply Hskip; [by eexists|lia]. }
  destruct ((so_configEpoch o =? sc_lastEpoch s0) && _ && _) eqn:Hcontest.
  { apply andb_true_iff in Hcontest as [[Heq%Z.eqb_eq _]%andb_true_iff _].
    split; [|done]. exists (t, o). cbn. split_and!; [done|lia|done|]. apply Hskip; [by eexists|lia]. }
  destruct (so_resharding o).
  { split; [|done]. exists (t, o). cbn. unfold str_eqb at 1. rewrite bool_decide_eq_true_2 by done.
    split_and!; [done|lia|done|]. destruct (str_eqb (so_ownerId a.2) (so_ownerId o)), (str_eqb _ _); lia. }
  set (bumps := if sc_lastEpoch s0 <? so_configEpoch o then _ else _).
  set (flips := if str_eqb (so_ownerId o) (sc_lastOwner s0) then _ else _).
  assert (Hb : bumps `sublist_of` rise_times l ++ (if so_configEpoch a.2 <? so_configEpoch o then [t] else [])).
  { unfold bumps. destruct (Z.ltb_spec (sc_lastEpoch s0) (so_configEpoch o)); [|done].
    rewrite (proj2 (Z.ltb_lt _ _)) by lia. by apply sublist_app. }
  assert (Hf : js_len flips ≤ owner_changes l + (if str_eqb (so_ownerId a.2) (so_ownerId o) then 0 else 1)).
  { unfold flips, str_eqb, js_len in *. repeat case_bool_decide; rewrite ?length_app; simpl;
      try (congruence || lia). }
  assert (Hfw : js_len (inWindow flips t) ≤ js_len flips).
  { unfold js_len. pose proof (js_filter_length (λ x, t - x <=? FAILOVER_CHURN_WINDOW_MS) flips).
    unfold inWindow. lia. }
  assert (Hacc : ∀ s', sc_lastEpoch s' = so_configEpoch o → sc_lastOwner s' = so_ownerId o →
    sc_epochBumpTimes s' = inWindow bumps t → sc_ownerFlipTimes s' = inWindow flips t →
    ∃ a0, Some (t, o) = Some a0 ∧ so_configEpoch a0.2 ≤ sc_lastEpoch s'
      ∧ sc_epochBumpTimes s' `sublist_of`
        rise_times l ++ (if so_configEpoch a.2 <? so_configEpoch o then [t] else [])
      ∧ js_len (sc_ownerFlipTimes s') + (if str_eqb (so_ownerId a0.2) (sc_lastOwner s') then 0 else 1)
        ≤ owner_changes l + (if str_eqb (so_ownerId a.2) (so_ownerId o) then 0 else 1)).
  { intros s' -> -> -> ->. exists (t, o). cbn [snd]. unfold str_eqb at 1.
    rewrite bool_decide_eq_true_2 by done. split_and!; [done|done| |lia].
    etrans; [apply inWindow_sublist|done]. }
  destruct (Z.ltb_spec (js_len (inWindow bumps t) `max` js_len (inWindow flips t)) FAILOVER_CHURN_MIN_CHANGES)
    as [Hlt|Hge]; (split; [by apply Hacc|]); [done|].
  intros f [= <-]. split; [|done].
  destruct (Z.max_spec (js_len (inWindow bumps t)) (js_len (inWindow flips t))) as [[_ Hm]|[_ Hm]];
    rewrite Hm in Hge; [right; lia|left].
  apply (inWindow_mono _ _ t), sublist_length in Hb. unfold js_len in *. lia.
Qed.

(** ** The loop over the observations *)
Lemma by_shard_keyed nodes : keyed so_shardKey (by_shard nodes).
Proof.
  unfold by_shard.
  enough (∀ m, keyed so_shardKey m → keyed so_shardKey (foldl extract_step m nodes)) as H
    by apply H, keyed_nil.
  induction nodes as [|c nodes IH]; intros m Hm; simpl; [done|]. apply IH. unfold extract_step.
  destruct (negb _); [done|]. destruct (takesOwnership _ _); [by apply keyed_set|done].
Qed.

Lemma extract_keys nodes : so_shardKey <$> extractShardOwnership nodes = (by_shard nodes).*1.
Proof.
  pose proof (by_shard_keyed nodes) as [_ Hid]. unfold extractShardOwnership, jm_values.
  rewrite <-list_fmap_compose. apply list_fmap_ext. intros i [k o] Hi. simpl.
  apply Hid. by apply list_elem_of_lookup_2 in Hi.
Qed.

Lemma extract_elem nodes o :
  o ∈ extractShardOwnership nodes ↔ jm_get (so_shardKey o) (by_shard nodes) = Some o.
Proof.
  pose proof (by_shard_keyed nodes) as Hk. split.
  - intros [k Hg]%jm_values_elem; [|apply Hk]. pose proof (keyed_get _ _ _ _ Hk Hg). by subst.
  - intros Hg. apply jm_values_elem; [apply Hk|by eexists].
Qed.

Lemma observe_all_snoc fl t obs o st :
  observe_all fl t (obs ++ [o]) st
  = let r := observe_all fl t obs st in
    let q := observe_shard fl t o (jm_get (so_shardKey o) r.2) in
    (r.1 ++ option_list q.1, jm_set (so_shardKey o) q.2 r.2).
Proof.
  unfold observe_all. rewrite foldl_app. cbn [foldl].
  match goal with |- context [foldl ?f ?a obs] => destruct (foldl f a obs) as [fs st'] end.
  cbn [fst snd]. by destruct (observe_shard _ _ _ _).
Qed.

Lemma observe_all_spec fl t obs st :
  NoDup (so_shardKey <$> obs) → jm_wf st →
  let r := observe_all fl t obs st in
  jm_wf r.2
  ∧ (∀ key, key ∉ so_shardKey <$> obs → jm_get key r.2 = jm_get key st)
  ∧ (∀ o, o ∈ obs → jm_get (so_shardKey o) r.2
                    = Some (observe_shard fl t o (jm_get (so_shardKey o) st)).2)
  ∧ (∀ f, f ∈ r.1 → ∃ o, o ∈ obs ∧ (observe_shard fl t o (jm_get (so_shardKey o) st)).1 = Some f).
Proof.
  induction obs as [|o obs IH] using rev_ind; intros Hnd Hwf.
  { split_and!; [done|done| |]; intros ? []%not_elem_of_nil. }
  rewrite fmap_app, NoDup_app in Hnd. destruct Hnd as (Hnd & Hdis & _).
  destruct (IH Hnd Hwf) as (Hwf' & Hother & Hobs & Hfs).
  assert (Hne : so_shardKey o ∉ so_shardKey <$> obs).
  { intros Hin. apply (Hdis _ Hin). by left. }
  rewrite observe_all_snoc. cbn [fst snd]. rewrite (Hother _ Hne). split_and!.
  - by apply jm_wf_set.
  - intros key. rewrite fmap_app, elem_of_app. intros Hk. rewrite jm_get_set_ne; [apply Hother; tauto|].
    intros ->. apply Hk. right. by left.
  - intros o' [Hin| ->%list_elem_of_singleton]%elem_of_app.
    + rewrite jm_get_set_ne; [by apply Hobs|]. intros Heq. apply Hne. rewrite <-Heq.
      by apply list_elem_of_fmap_2.
    + by rewrite jm_get_set_eq.
  - intros f [(o' & Hin & Hf)%Hfs|Hf]%elem_of_app.
    + exists o'. split; [apply elem_of_app; by left|done].
    + exists o. split; [apply elem_of_app; right; by left|].
      by destruct (observe_shard _ _ _ _).1; [apply list_elem_of_singleton in Hf as ->|apply not_elem_of_nil in Hf].
Qed.

(** ** The invariant of a run *)
Definition churn_state_ok (l : list Snapshot) (st : FailoverChurnStateMap) : Prop :=
  jm_wf st ∧ ∀ key s, jm_get key st = Some s → accounted (observed key l) s.

Lemma accounted_new l o t : accounted (l ++ [(t, o)]) (new_shard o t).
Proof.
  exists (t, o). rewrite last_snoc. cbn. unfold str_eqb. rewrite bool_decide_eq_true_2 by done.
  split_and!; [done|lia|apply sublist_nil_l|apply owner_changes_nonneg].
Qed.

Lemma observed_snoc key l p :
  observed key (l ++ [p])
  = observed key l ++ match jm_get key (by_shard (sn_nodes p)) with
                      | Some o => [(sn_time p, o)] | None => [] end.
Proof. unfold observed. rewrite omap_app. csimpl. by destruct (jm_get _ _). Qed.

Lemma acknowledge_ok l key t st :
  churn_state_ok l st → churn_state_ok l (acknowledgeChurnFinding key t st).
Proof.
  intros [Hwf Hst]. unfold acknowledgeChurnFinding. destruct (jm_get key st) as [s|] eqn:Hs; [|done].
  split; [by apply jm_wf_set|]. intros key' s'. rewrite jm_get_set. case_decide as Hk; [|apply Hst].
  intros [= <-]. subst key'. destruct (Hst _ _ Hs) as (a & Ha & He & Hb & Hf). exists a.
  cbn. split_and!; [done|done|apply sublist_nil_l|]. unfold js_len in *. simpl. lia.
Qed.

Lemma acknowledge_all_ok l p fs st :
  churn_state_ok l st → churn_state_ok l (acknowledge_all p fs st).
Proof.
  revert st. induction fs as [|f fs IH]; intros st Hst; [done|]. cbn. apply IH.
  destruct (js_includes _ _); [by apply acknowledge_ok|done].
Qed.

Lemma forget_get seen t st key s :
  jm_wf st → jm_get key (forget_shards seen t st) = Some s → jm_get key st = Some s.
Proof.
  intros Hwf Hg. apply jm_elem_get; [done|]. apply jm_get_elem, js_filter_elem in Hg. tauto.
Qed.

Lemma evaluate_ok l p st :
  churn_state_ok l st →
  let r := evaluateFailoverChurn (sn_nodes p) (sn_time p) st in
  churn_state_ok (l ++ [p]) r.2
  ∧ ∀ f, f ∈ r.1 → churned (observed (fc_shardKey f) (l ++ [p])) (sn_time p).
Proof.
  intros [Hwf Hst]. unfold evaluateFailoverChurn.
  pose proof (observe_all_spec (unhealthyClaimantIds (sn_nodes p)) (sn_time p)
    (extractShardOwnership (sn_nodes p)) st) as Hspec.
  rewrite extract_keys in Hspec. specialize (Hspec (proj1 (by_shard_keyed _)) Hwf). cbv zeta in Hspec.
  destruct (observe_all _ _ _ st) as [fs st']. cbn [fst snd] in *.
  destruct Hspec as (Hwf' & Hother & Hobs & Hfs).
  assert (Hone : ∀ o, o ∈ extractShardOwnership (sn_nodes p) →
    let r := observe_shard (unhealthyClaimantIds (sn_nodes p)) (sn_time p) o
               (jm_get (so_shardKey o) st) in
    accounted (observed (so_shardKey o) (l ++ [p])) r.2
    ∧ ∀ f, r.1 = Some f →
        churned (observed (so_shardKey o) (l ++ [p])) (sn_time p) ∧ fc_shardKey f = so_shardKey o).
  { intros o Ho. rewrite observed_snoc, (proj1 (extract_elem _ _) Ho).
    destruct (jm_get (so_shardKey o) st) as [s|] eqn:Hs.
    - apply observe_shard_accounted. by apply Hst.
    - split; [apply accounted_new|done]. }
  split; [split; [by apply js_filter_wf|]|].
  - intros key s Hg%forget_get; [|done].
    destruct (jm_get key (by_shard (sn_nodes p))) as [o|] eqn:Ho.
    + pose proof (keyed_get _ _ _ _ (by_shard_keyed _) Ho) as <-. apply extract_elem in Ho.
      rewrite Hobs in Hg by done. injection Hg as <-. by apply Hone.
    + rewrite observed_snoc, Ho, app_nil_r. apply Hst. rewrite <-Hother; [done|].
      by apply jm_get_None.
  - intros f (o & Ho & Hf)%Hfs. destruct (Hone o Ho) as [_ H]. by destruct (H f Hf) as [? ->].
Qed.

Lemma churn_poll_ok l p st :
  churn_state_ok l st →
  churn_state_ok (l ++ [p]) (churn_poll p st).2
  ∧ ∀ f, f ∈ (churn_poll p st).1 → churned (observed (fc_shardKey f) (l ++ [p])) (sn_time p).
Proof.
  intros Hst. unfold churn_poll. pose proof (evaluate_ok l p st Hst) as H.
  destruct (evaluateFailoverChurn _ _ _) as [fs st']. cbn [fst snd] in *.
  split; [apply acknowledge_all_ok, H|apply H].
Qed.

Lemma churn_run_ok pre l st j p fs f :
  churn_state_ok pre st → churn_run l st !! j = Some (p, fs) → f ∈ fs →
  churned (observed (fc_shardKey f) (pre ++ take (S j) l)) (sn_time p).
Proof.
  revert pre st j. induction l as [|q l IH]; intros pre st j Hst; [done|].
  destruct (churn_poll_ok pre q st Hst) as [Hst' Hf].
  destruct j as [|j]; cbn [churn_run lookup list_lookup].
  - intros [= <- <-] Hin. cbn. by apply Hf.
  - intros Hj Hin. rewrite firstn_cons, cons_middle, app_assoc. exact (IH _ _ _ Hst' Hj Hin).
Qed.

(** A churn alert for a shard is due to churn that was observed: in every history of
    topology snapshots, whatever order the node lines come in, whichever shards come
    and go and whichever alerts could be delivered, when a poll reports a shard then
    among the snapshots seen so far the configuration epoch of that shard rose at least
    three times within the last minute, or its owner changed at least three times.  A
    single failover, one rise of the epoch and one change of owner, is never reported. *)
Theorem churn_needs_changes (l : list Snapshot) (j : nat) (p : Snapshot)
    (fs : list FailoverChurnFinding) (f : FailoverChurnFinding) :
  churn_run l [] !! j = Some (p, fs) → f ∈ fs →
  churned (observed (fc_shardKey f) (take (S j) l)) (sn_time p).
Proof.
  intros Hj Hf. apply (churn_run_ok [] l [] j p fs f); [|done|done]. by split; [apply jm_wf_nil|].
Qed.

(** Three elections of one shard in twenty seconds *)
Definition churn_node (id : string) (epoch : Z) : ClusterNode :=
  {| cn_id := id; cn_address := "10.0.0.1:6379"; cn_flags := ["master"]; cn_master := "-";
     cn_pingSent := 0; cn_pongReceived := 0; cn_configEpoch := epoch; cn_linkState := "connected";
     cn_slots := [(0, 16383)]; cn_migratingSlots := None; cn_importingSlots := None; cn_hostname := None |}.
Definition churn_history : list Snapshot :=
  (λ '(id, e, t), {| sn_nodes := [churn_node id e]; sn_time := t; sn_delivered := [] |})
  <$> [("a", 1, 0); ("b", 2, 5000); ("a", 3, 10000); ("b", 4, 20000)].

Definition churn_alert (j : nat) : option (Snapshot * FailoverChurnFinding) :=
  '(p, fs) ← churn_run churn_history [] !! j; f ← head fs; Some (p, f).

Lemma churn_needs_changes_witness :
  ∃ p f, churn_alert 3 = Some (p, f) ∧ fc_severity f = churn_warning
    ∧ churned (observed (fc_shardKey f) (take 4 churn_history)) (sn_time p).
Proof.
  assert (Ha : is_Some (churn_alert 3)) by (apply (bool_decide_unpack (is_Some _)); vm_compute; exact I).
  destruct Ha as [[p f] Ha]. exists p, f. split; [exact Ha|].
  assert (Hs : fc_severity <$> (snd <$> churn_alert 3) = Some churn_warning) by (vm_compute; reflexivity).
  rewrite Ha in Hs. injection Hs as Hs. split; [exact Hs|].
  apply bind_Some in Ha as ([p' fs] & Hj & Hh). apply bind_Some in Hh as (f' & Hh & [= -> ->]).
  destruct fs as [|f0 fs]; [discriminate|]. injection Hh as ->.
  exact (churn_needs_changes churn_history 3 p (f :: fs) f Hj (list_elem_of_here _ _)).
Defined.
