(* ===== verification/FleetDrift.v ===== *)
(** * Drift between the nodes of a replication group, and large replies

    [config-drift-detector.ts], [acl-drift-detector.ts] and
    [large-reply-pressure-detector.ts].  The groups of the first two are the arrays of a
    map keyed by [groupKey] ([js_group]); SHA-256 is a parameter, a function to
    hexadecimal strings. *)
From S2P Require Export MemoryOverhead Json.
From stdpp Require Import options.

(** ** Definitions *)

(** *** Configuration drift *)
Record ConfigDriftNode := {
  cdn_connectionId : string;
  cdn_name : option string;
  cdn_groupKey : string;
  cdn_config : list (string * string)
}.
Record ConfigDriftValue := {
  cdv_connectionId : string; cdv_name : option string; cdv_value : string
}.
Record ConfigDrift := {
  cd_groupKey : string; cd_key : string; cd_values : list ConfigDriftValue
}.

Definition DEFAULT_CONFIG_DRIFT_KEYS : list string :=
  ["maxmemory"; "maxmemory-policy"; "appendonly"; "save"; "timeout"; "maxclients";
   "maxmemory-clients"].
Definition ENCODING_THRESHOLD_CONFIG_DRIFT_KEYS : list string :=
  ["hash-max-listpack-entries"; "hash-max-listpack-value"; "list-max-listpack-size";
   "set-max-intset-entries"; "set-max-listpack-entries"; "set-max-listpack-value";
   "zset-max-listpack-entries"; "zset-max-listpack-value"].
Definition isEncodingThresholdKey (key : string) : bool :=
  js_includes key ENCODING_THRESHOLD_CONFIG_DRIFT_KEYS.

(** The groups of the nodes that have a group key *)
Definition config_groups (nodes : list ConfigDriftNode) : list (string * list ConfigDriftNode) :=
  js_group cdn_groupKey (js_filter (λ n, negb (is_empty (cdn_groupKey n))) nodes).

Definition reported (key : string) (groupNodes : list ConfigDriftNode) : list ConfigDriftValue :=
  omap (λ node, (λ value, {| cdv_connectionId := cdn_connectionId node;
                             cdv_name := cdn_name node; cdv_value := value |})
                <$> jm_get key (cdn_config node)) groupNodes.
Definition key_drift (groupKey : string) (groupNodes : list ConfigDriftNode) (key : string)
    : option ConfigDrift :=
  let values := reported key groupNodes in
  if js_len values <? 2 then None
  else if 1 <? js_len (js_set (cdv_value <$> values))
  then Some {| cd_groupKey := groupKey; cd_key := key; cd_values := values |} else None.
Definition group_drifts (keys : list string) (g : string * list ConfigDriftNode)
    : list ConfigDrift :=
  if js_len g.2 <? 2 then [] else omap (key_drift g.1 g.2) keys.
Definition detectConfigDrift (nodes : list ConfigDriftNode) (keys : list string)
    : list ConfigDrift :=
  mjoin (group_drifts keys <$> config_groups nodes).

Definition configDriftSignature (drift : ConfigDrift) : string :=
  let valuePart := join "," (sort_strings ((λ v, cdv_connectionId v +:+ "=" +:+ cdv_value v)
                                           <$> cd_values drift)) in
  cd_groupKey drift +:+ "|" +:+ cd_key drift +:+ "|" +:+ valuePart.

(** *** ACL drift *)
Definition DIGEST_BYTES : nat := 8.

Record AclDriftNode := {
  ad_connectionId : string;
  ad_name : option string;
  ad_groupKey : string;
  ad_userDigests : list (string * string);
  ad_digest : string
}.
Record AclDriftNodeDigest := {
  adn_connectionId : string; adn_name : option string; adn_digest : string
}.
Record AclDrift := {
  acl_groupKey : string; acl_usernames : list string; acl_nodes : list AclDriftNodeDigest
}.

(** The loop of [tokenizeAclLine]: [k] bytes of a white-space character remain to be
    skipped or kept, [current] is the token read so far, reversed. *)
Fixpoint tokenize_go (k depth : nat) (keep : bool) (current s : string) : list string :=
  match s with
  | EmptyString => if is_empty current then [] else [String.rev current]
  | String c s' =>
      match k with
      | S k' => tokenize_go k' depth keep (if keep then String c current else current) s'
      | O =>
          let depth := if ascii_dec c "(" then S depth else depth in
          let depth := if ascii_dec c ")" then Nat.pred depth else depth in
          match ws_len s, depth with
          | S k', O =>
              (if is_empty current then [] else [String.rev current])
              ++ tokenize_go k' depth false EmptyString s'
          | S k', _ => tokenize_go k' depth true (String c current) s'
          | O, _ => tokenize_go 0 depth true (String c current) s'
          end
      end
  end.
Definition tokenizeAclLine (line : string) : list string := tokenize_go 0 0 true EmptyString line.

Definition parseAclLine (line : string) : option (string * list string) :=
  match tokenizeAclLine line with
  | user :: username :: rules =>
      if str_eqb (to_lower user) "user" then Some (username, rules) else None
  | _ => None
  end.

(** [rule.slice(1, -1)] of a rule that starts and ends with a parenthesis *)
Definition inside (rule : string) : string :=
  str_take (Nat.pred (Nat.pred (String.length rule))) (str_drop 1 rule).
Definition normalizeAclRule (rule : string) : string :=
  if negb (starts_with "(" rule) || negb (ends_with ")" rule) then rule
  else "(" +:+ join " " (sort_strings (ws_tokens (inside rule))) +:+ ")".

(** [Buffer.from(s, 'hex')] stops at the first pair that is not two digits. *)
Definition hex_value (c : ascii) : option N :=
  let x := code c in
  if in_range 48 57 c then Some (x - 48)%N
  else if in_range 97 102 c then Some (x - 87)%N
  else if in_range 65 70 c then Some (x - 55)%N else None.
Fixpoint from_hex (s : string) : list N :=
  match s with
  | String a (String b s') =>
      match hex_value a, hex_value b with
      | Some x, Some y => (x * 16 + y)%N :: from_hex s'
      | _, _ => []
      end
  | _ => []
  end.
Fixpoint to_hex (bytes : list N) : string :=
  match bytes with
  | [] => EmptyString
  | x :: l => String (hex_digit (x `div` 16)%N) (String (hex_digit (x `mod` 16)%N) (to_hex l))
  end.
Definition EMPTY_DIGEST : string := to_hex (replicate DIGEST_BYTES 0%N).
Definition xorHex (left right : string) : string :=
  let a := from_hex left in
  let b := from_hex right in
  to_hex ((λ i, N.lxor (default 0%N (a !! i)) (default 0%N (b !! i))) <$> seq 0 DIGEST_BYTES).

Section digest.
Context (sha256 : string → string).

Definition aclUserDigest (username : string) (rules : list string) : string :=
  let normalized := join " " (sort_strings (normalizeAclRule <$> rules)) in
  str_take (DIGEST_BYTES * 2) (sha256 (username +:+ String newline normalized)).

Definition digest_line (acc : string * list (string * string)) (line : string)
    : string * list (string * string) :=
  match parseAclLine line with
  | None => acc
  | Some (username, rules) =>
      let userDigest := aclUserDigest username rules in
      (xorHex acc.1 userDigest, jm_set username userDigest acc.2)
  end.
Definition nodeAclDigest (aclList : list string) : string * list (string * string) :=
  foldl digest_line (EMPTY_DIGEST, []) aclList.
End digest.

Section acl_drift.
(** [String.prototype.localeCompare] depends on the locale of the process. *)
Context (localeCompare : string → string → Z).

Definition acl_groups (nodes : list AclDriftNode) : list (string * list AclDriftNode) :=
  js_group ad_groupKey (js_filter (λ n, negb (is_empty (ad_groupKey n))) nodes).
Definition user_digest (username : string) (node : AclDriftNode) : string :=
  default "absent" (jm_get username (ad_userDigests node)).
Definition allUsernames (group : list AclDriftNode) : list string :=
  js_set (mjoin ((λ n, (ad_userDigests n).*1) <$> group)).
Definition differing (group : list AclDriftNode) : list string :=
  js_filter (λ username, 1 <? js_len (js_set (user_digest username <$> group)))
    (allUsernames group).
Definition group_acl_drift (g : string * list AclDriftNode) : option AclDrift :=
  if js_len g.2 <? 2 then None
  else if js_len (js_set (ad_digest <$> g.2)) =? 1 then None
  else Some {| acl_groupKey := g.1; acl_usernames := sort_strings (differing g.2);
               acl_nodes := js_sort (λ a b, localeCompare (adn_connectionId a) (adn_connectionId b))
                 ((λ n, {| adn_connectionId := ad_connectionId n; adn_name := ad_name n;
                           adn_digest := ad_digest n |}) <$> g.2) |}.
Definition detectAclDrift (nodes : list AclDriftNode) : list AclDrift :=
  omap group_acl_drift (acl_groups nodes).
End acl_drift.

Definition aclDriftSignature (drift : AclDrift) : string :=
  let nodePart := join "," ((λ n, adn_connectionId n +:+ ":" +:+ adn_digest n) <$> acl_nodes drift) in
  acl_groupKey drift +:+ "|" +:+ join "," (acl_usernames drift) +:+ "|" +:+ nodePart.

(** *** Large replies *)
Definition LARGE_REPLY_MIN_CROSSINGS : Z := 5.

Record LargeReplyEntry := { lr_command : string; lr_replyBytes : Z; lr_timestamp : Z }.
Record LargeReplyOffender := {
  lo_command : string;
  lo_crossings : Z;
  lo_worstBytes : Z;
  lo_avgBytes : number;
  lo_totalBytes : Z;
  lo_lastTimestamp : Z;
  lo_message : string
}.
Record OffenderAccumulator := {
  oa_crossings : Z; oa_worstBytes : Z; oa_totalBytes : Z; oa_lastTimestamp : Z
}.
Definition new_accumulator : OffenderAccumulator :=
  {| oa_crossings := 0; oa_worstBytes := 0; oa_totalBytes := 0; oa_lastTimestamp := 0 |}.

Definition count_reply (acc : OffenderAccumulator) (e : LargeReplyEntry) : OffenderAccumulator :=
  {| oa_crossings := oa_crossings acc + 1;
     oa_worstBytes := Z.max (oa_worstBytes acc) (lr_replyBytes e);
     oa_totalBytes := oa_totalBytes acc + lr_replyBytes e;
     oa_lastTimestamp := Z.max (oa_lastTimestamp acc) (lr_timestamp e) |}.
Definition reply_step (thresholdBytes : Z) (byCommand : list (string * OffenderAccumulator))
    (e : LargeReplyEntry) : list (string * OffenderAccumulator) :=
  if lr_replyBytes e <? thresholdBytes then byCommand
  else
    let command := to_upper (lr_command e) in
    jm_set command (count_reply (default new_accumulator (jm_get command byCommand)) e) byCommand.

Definition large_reply_message (command : string) (acc : OffenderAccumulator) (avgBytes : number)
    (thresholdBytes : Z) : string :=
  "WARNING: " +:+ command +:+ " has produced " +:+ string_of_Z (oa_crossings acc)
  +:+ " large replies at/above the commandlog-reply-larger-than threshold ("
  +:+ formatBytes (num_of_Z thresholdBytes) +:+ "; worst "
  +:+ formatBytes (num_of_Z (oa_worstBytes acc)) +:+ ", avg " +:+ formatBytes avgBytes
  +:+ ") in the recent COMMANDLOG LARGE-REPLY window. A hot command repeatedly crossing this threshold pays the large-reply logging/copy path on every call — reply-copy avoidance stops applying once a reply is large enough to be logged, a regression observed to cost up to ~25% GET throughput and still unfixed upstream (valkey#2926; PR #3397 only raised the default threshold). Consider raising commandlog-reply-larger-than, reducing how often "
  +:+ command
  +:+ " returns oversized replies (pagination/projection instead of whole-collection reads), or disabling the large-reply log (commandlog-reply-larger-than -1) if the visibility isn't needed.".

Definition offender_of (minCrossings thresholdBytes : Z) (kv : string * OffenderAccumulator)
    : option LargeReplyOffender :=
  let '(command, acc) := kv in
  if oa_crossings acc <? minCrossings then None
  else
    let avgBytes := num_div (num_of_Z (oa_totalBytes acc)) (num_of_Z (oa_crossings acc)) in
    Some {| lo_command := command; lo_crossings := oa_crossings acc;
            lo_worstBytes := oa_worstBytes acc; lo_avgBytes := avgBytes;
            lo_totalBytes := oa_totalBytes acc; lo_lastTimestamp := oa_lastTimestamp acc;
            lo_message := large_reply_message command acc avgBytes thresholdBytes |}.

Definition detectLargeReplyPressure (entries : list LargeReplyEntry) (thresholdBytes : Z)
    (minCrossings : option Z) : list LargeReplyOffender :=
  if (thresholdBytes <? 0) || (js_len entries =? 0) then []
  else
    let minCrossings := default LARGE_REPLY_MIN_CROSSINGS minCrossings in
    let byCommand := foldl (reply_step thresholdBytes) [] entries in
    js_sort (by_desc lo_crossings) (omap (offender_of minCrossings thresholdBytes) byCommand).

Definition largeReplyPressureSignature (offender : LargeReplyOffender) : string :=
  lo_command offender.

(** ** Lemmas *)

(** *** Groups and distinct values *)
Lemma group_elem_config key nodes n :
  n ∈ js_filter (λ n, bool_decide (cdn_groupKey n = key)) nodes ↔ n ∈ nodes ∧ cdn_groupKey n = key.
Proof. rewrite js_filter_elem, bool_decide_eq_true. tauto. Qed.

Lemma reported_elem key group v :
  v ∈ reported key group ↔
  ∃ n, n ∈ group ∧ jm_get key (cdn_config n) = Some (cdv_value v)
       ∧ cdv_connectionId v = cdn_connectionId n ∧ cdv_name v = cdn_name n.
Proof.
  unfold reported. rewrite list_elem_of_omap. split.
  - intros (n & Hn & Hv). exists n. apply fmap_Some in Hv as (value & Hg & ->). by rewrite Hg.
  - intros (n & Hn & Hg & Hc & Hname). exists n. split; [done|]. rewrite Hg. simpl.
    destruct v; simpl in *; subst. done.
Qed.

Lemma two_elements {A} (l : list A) x y : x ∈ l → y ∈ l → x ≠ y → 1 < js_len l.
Proof.
  unfold js_len. destruct l as [|a [|b l]]; simpl; [by intros ?%not_elem_of_nil| |lia].
  intros ->%list_elem_of_singleton ->%list_elem_of_singleton. done.
Qed.

Lemma key_drift_spec groupKey group key d :
  key_drift groupKey group key = Some d ↔
  cd_groupKey d = groupKey ∧ cd_key d = key ∧ cd_values d = reported key group
  ∧ ∃ a b va vb, a ∈ group ∧ b ∈ group ∧ jm_get key (cdn_config a) = Some va
      ∧ jm_get key (cdn_config b) = Some vb ∧ va ≠ vb.
Proof.
  assert (Htwo : 1 < js_len (js_set (cdv_value <$> reported key group)) ↔
    ∃ a b va vb, a ∈ group ∧ b ∈ group ∧ jm_get key (cdn_config a) = Some va
      ∧ jm_get key (cdn_config b) = Some vb ∧ va ≠ vb).
  { rewrite js_set_two. split.
    - intros (va & vb & Ha & Hb & Hne). apply list_elem_of_fmap in Ha as (x & -> & Ha).
      apply list_elem_of_fmap in Hb as (y & -> & Hb).
      apply reported_elem in Ha as (a & ? & ? & _). apply reported_elem in Hb as (b & ? & ? & _).
      by exists a, b, (cdv_value x), (cdv_value y).
    - intros (a & b & va & vb & Ha & Hb & Hva & Hvb & Hne). exists va, vb. split_and!; [| |done].
      + apply list_elem_of_fmap. exists {| cdv_connectionId := cdn_connectionId a; cdv_name := cdn_name a; cdv_value := va |}.
        split; [done|]. apply reported_elem. by exists a.
      + apply list_elem_of_fmap. exists {| cdv_connectionId := cdn_connectionId b; cdv_name := cdn_name b; cdv_value := vb |}.
        split; [done|]. apply reported_elem. by exists b. }
  rewrite <-Htwo. unfold key_drift.
  destruct (Z.ltb_spec (js_len (reported key group)) 2) as [Hlt|Hge];
    [|destruct (Z.ltb_spec 1 (js_len (js_set (cdv_value <$> reported key group)))) as [H1|H1]].
  - split; [done|]. intros (_ & _ & _ & H1). exfalso.
    apply js_set_two in H1 as (x & y & Hx & Hy & Hne).
    apply (two_elements _ x y Hx Hy) in Hne. unfold js_len in *. rewrite length_fmap in Hne. lia.
  - split; [intros [= <-]; done|]. intros (<- & <- & <- & _). by destruct d.
  - split; [done|]. intros (_ & _ & _ & H2). lia.
Qed.

Lemma keyed_filter_same {A} (key : A → string) k (l : list A) :
  k ≠ EmptyString →
  js_filter (λ n, bool_decide (key n = k)) (js_filter (λ n, negb (is_empty (key n))) l)
  = js_filter (λ n, bool_decide (key n = k)) l.
Proof.
  intros Hk. induction l as [|n l IH]; [done|]. csimpl. destruct (decide (key n = k)) as [Hn|Hn].
  - assert (is_empty (key n) = false) as -> by (rewrite Hn; by destruct k). csimpl.
    rewrite bool_decide_eq_true_2 by done. by rewrite IH.
  - rewrite (bool_decide_eq_false_2 (key n = k)) by done.
    destruct (negb _); [|done]. csimpl. by rewrite bool_decide_eq_false_2.
Qed.

Lemma keyed_groups {A} (key : A → string) (l : list A) k g :
  (k, g) ∈ js_group key (js_filter (λ n, negb (is_empty (key n))) l) ↔
  k ≠ EmptyString ∧ g = js_filter (λ n, bool_decide (key n = k)) l ∧ g ≠ [].
Proof.
  rewrite js_group_elem. destruct (decide (k = EmptyString)) as [->|Hk].
  - split; [|naive_solver]. intros [-> Hne]. destruct Hne. apply js_filter_none.
    intros n [Hn _]%js_filter_elem. apply bool_decide_eq_false_2. intros Heq. by rewrite Heq in Hn.
  - rewrite keyed_filter_same by done. naive_solver.
Qed.

Lemma config_group nodes g :
  g ∈ config_groups nodes ↔
  g.1 ≠ EmptyString ∧ g.2 = js_filter (λ n, bool_decide (cdn_groupKey n = g.1)) nodes ∧ g.2 ≠ [].
Proof. destruct g as [k group]. apply keyed_groups. Qed.

(** Configuration drift is reported exactly.  A finding names a key of the list and a
    non-empty group key, lists the values of that key that the nodes of the group reported,
    one for each node that knows the key and in the order of the nodes, and is there exactly
    when two nodes of the group report different values; a node that does not report the
    key never counts as different. *)
Theorem config_drift_exact nodes keys d :
  d ∈ detectConfigDrift nodes keys ↔
  cd_key d ∈ keys ∧ cd_groupKey d ≠ EmptyString
  ∧ cd_values d
    = reported (cd_key d) (js_filter (λ n, bool_decide (cdn_groupKey n = cd_groupKey d)) nodes)
  ∧ ∃ a b va vb, a ∈ nodes ∧ b ∈ nodes
      ∧ cdn_groupKey a = cd_groupKey d ∧ cdn_groupKey b = cd_groupKey d
      ∧ jm_get (cd_key d) (cdn_config a) = Some va
      ∧ jm_get (cd_key d) (cdn_config b) = Some vb ∧ va ≠ vb.
Proof.
  unfold detectConfigDrift. rewrite list_elem_of_join. split.
  - intros (l & Hd & Hl). apply list_elem_of_fmap in Hl as (g & -> & Hg).
    apply config_group in Hg as (Hk & Hg & _). unfold group_drifts in Hd.
    destruct (_ <? 2); [by apply not_elem_of_nil in Hd|].
    apply list_elem_of_omap in Hd as (key & Hin & Hd).
    apply key_drift_spec in Hd as (Hgk & <- & Hv & a & b & va & vb & Ha & Hb & H).
    rewrite Hg in Ha, Hb, Hv. rewrite <-Hgk in *.
    apply group_elem_config in Ha as [??], Hb as [??]. split_and!; [done..|].
    by exists a, b, va, vb.
  - intros (Hin & Hk & Hv & a & b & va & vb & Ha & Hb & Hga & Hgb & Hva & Hvb & Hne).
    set (group := js_filter _ nodes) in *.
    assert (Ha' : a ∈ group) by by apply group_elem_config.
    assert (Hb' : b ∈ group) by by apply group_elem_config.
    exists (group_drifts keys (cd_groupKey d, group)). split.
    + unfold group_drifts.
      assert (1 < js_len group) by (apply (two_elements _ a b); [done|done|congruence]).
      cbn [fst snd]. destruct (Z.ltb_spec (js_len group) 2); [lia|].
      apply list_elem_of_omap. exists (cd_key d). split; [done|]. apply key_drift_spec.
      split_and!; [done..|]. by exists a, b, va, vb.
    + apply list_elem_of_fmap. exists (cd_groupKey d, group). split; [done|].
      apply config_group. split_and!; [done|done|]. cbn [snd]. intros Hg. rewrite Hg in Ha'.
      by apply not_elem_of_nil in Ha'.
Qed.

(** *** Digests *)
Lemma hex_value_digit n : (n < 16)%N → hex_value (hex_digit n) = Some n.
Proof.
  intros Hn. assert (n ∈ (N.of_nat <$> seq 0 16)) as Hin.
  { apply list_elem_of_fmap. exists (N.to_nat n). split; [lia|]. apply elem_of_seq. lia. }
  assert (Hall : Forall (λ n, hex_value (hex_digit n) = Some n) (N.of_nat <$> seq 0 16))
    by repeat constructor.
  rewrite Forall_forall in Hall. by apply Hall.
Qed.

Lemma from_to_hex bytes : Forall (λ x, x < 256)%N bytes → from_hex (to_hex bytes) = bytes.
Proof.
  induction 1 as [|x l Hx _ IH]; [done|]. cbn [to_hex from_hex].
  rewrite !hex_value_digit, IH.
  - f_equal. pose proof (N.div_mod x 16). lia.
  - apply N.mod_lt. lia.
  - apply N.Div0.div_lt_upper_bound. lia.
Qed.

Lemma lxor_byte a b : (a < 256)%N → (b < 256)%N → (N.lxor a b < 256)%N.
Proof.
  intros Ha Hb. destruct (decide (N.lxor a b = 0)%N) as [->|Hne]; [done|].
  apply N.log2_lt_pow2 with (b := 8%N); [lia|].
  eapply N.le_lt_trans; [apply N.log2_lxor|].
  apply N.max_lub_lt.
  - destruct (decide (a = 0)%N) as [->|]; [done|]. apply N.log2_lt_pow2; [lia|done].
  - destruct (decide (b = 0)%N) as [->|]; [done|]. apply N.log2_lt_pow2; [lia|done].
Qed.

Lemma from_hex_bytes s : Forall (λ x, x < 256)%N (from_hex s).
Proof.
  assert (Hv : ∀ c x, hex_value c = Some x → (x < 16)%N).
  { intros c x. unfold hex_value, in_range.
    repeat match goal with |- context [if ?b then _ else _] => destruct b eqn:? end;
      intros [= <-]; rewrite ?andb_true_iff, ?N.leb_le in *; lia. }
  revert s. fix IH 1. intros [|a [|b s]]; cbn [from_hex]; [constructor..|].
  destruct (hex_value a) as [x|] eqn:Ha; [|constructor].
  destruct (hex_value b) as [y|] eqn:Hb; [|constructor].
  apply Hv in Ha, Hb. constructor; [lia|apply IH].
Qed.

(** The bytes a digest contributes to a combination *)
Definition digest_byte (s : string) (i : nat) : N := default 0%N (from_hex s !! i).

Lemma digest_byte_lt s i : (digest_byte s i < 256)%N.
Proof.
  unfold digest_byte. destruct (from_hex s !! i) as [x|] eqn:Hx; [|done]. simpl.
  pose proof (from_hex_bytes s) as Hall. rewrite Forall_lookup in Hall. by eapply Hall.
Qed.

Lemma from_xorHex a b :
  from_hex (xorHex a b)
  = (λ i, N.lxor (digest_byte a i) (digest_byte b i)) <$> seq 0 DIGEST_BYTES.
Proof.
  unfold xorHex. apply from_to_hex. apply Forall_fmap, Forall_forall. intros i _. simpl.
  apply lxor_byte; apply digest_byte_lt.
Qed.

Lemma xorHex_swap d a b : xorHex (xorHex d a) b = xorHex (xorHex d b) a.
Proof.
  unfold xorHex at 1 3. rewrite !from_xorHex. f_equal. apply list_fmap_ext.
  intros i k Hk. apply lookup_seq in Hk as [-> Hi]. rewrite !list_lookup_fmap, lookup_seq_lt by done.
  simpl. fold (digest_byte b i) (digest_byte a i).
  rewrite !N.lxor_assoc. f_equal. apply N.lxor_comm.
Qed.

Lemma xorHex_fold_perm l k : l ≡ₚ k → ∀ d, foldl xorHex d l = foldl xorHex d k.
Proof.
  induction 1 as [|x l k _ IH|x y l|l k m _ IH1 _ IH2]; intros d; cbn [foldl].
  - done.
  - apply IH.
  - by rewrite xorHex_swap.
  - by rewrite IH1.
Qed.

Section acl_lemmas.
Context (sha256 : string → string).

Lemma node_digest_fold l :
  (nodeAclDigest sha256 l).1
  = foldl xorHex EMPTY_DIGEST
      ((λ u : string * list string, aclUserDigest sha256 u.1 u.2) <$> omap parseAclLine l).
Proof using Type.
  unfold nodeAclDigest.
  enough (∀ d m, (foldl (digest_line sha256) (d, m) l).1
    = foldl xorHex d ((λ u, aclUserDigest sha256 u.1 u.2) <$> omap parseAclLine l)) as H by apply H.
  induction l as [|line l IH]; intros d m; [done|]. cbn [foldl]. unfold digest_line at 2.
  csimpl. destruct (parseAclLine line) as [[u rules]|]; csimpl; apply IH.
Qed.

(** The same user with the same rules in any order *)
Definition same_user (a b : string * list string) : Prop :=
  a.1 = b.1 ∧ normalizeAclRule <$> a.2 ≡ₚ normalizeAclRule <$> b.2
  ∧ units_distinct (normalizeAclRule <$> a.2).
(** The same users in any order *)
Definition same_acl (l l' : list string) : Prop :=
  ∃ k, omap parseAclLine l ≡ₚ k ∧ Forall2 same_user k (omap parseAclLine l').

Lemma same_user_digest a b :
  same_user a b → aclUserDigest sha256 a.1 a.2 = aclUserDigest sha256 b.1 b.2.
Proof using Type.
  intros (Hu & Hp & Hd). unfold aclUserDigest. by rewrite Hu, (sort_strings_perm _ _ Hd Hp).
Qed.

Lemma same_acl_digest l l' :
  same_acl l l' → (nodeAclDigest sha256 l).1 = (nodeAclDigest sha256 l').1.
Proof using Type.
  intros (k & Hp & Hk). rewrite !node_digest_fold.
  transitivity (foldl xorHex EMPTY_DIGEST ((λ u, aclUserDigest sha256 u.1 u.2) <$> k)).
  { apply xorHex_fold_perm. by apply Permutation_map. }
  f_equal. induction Hk as [|a b k k' Hab Hk IH] in Hp |- *; [done|]. clear Hp.
  assert (IH' : (λ u, aclUserDigest sha256 u.1 u.2) <$> k = (λ u, aclUserDigest sha256 u.1 u.2) <$> k').
  { clear -Hk sha256. induction Hk as [|x y k k' Hxy _ IH]; [done|]. csimpl.
    by rewrite IH, (same_user_digest _ _ Hxy). }
  csimpl. by rewrite IH', (same_user_digest _ _ Hab).
Qed.
End acl_lemmas.

Definition acl_group (key : string) (nodes : list AclDriftNode) : list AclDriftNode :=
  js_filter (λ n, bool_decide (ad_groupKey n = key)) nodes.
Lemma acl_group_elem key nodes n : n ∈ acl_group key nodes ↔ n ∈ nodes ∧ ad_groupKey n = key.
Proof. unfold acl_group. rewrite js_filter_elem, bool_decide_eq_true. tauto. Qed.

Lemma differing_elem group u :
  u ∈ differing group ↔
  (∃ n, n ∈ group ∧ u ∈ (ad_userDigests n).*1)
  ∧ ∃ a b, a ∈ group ∧ b ∈ group ∧ user_digest u a ≠ user_digest u b.
Proof.
  unfold differing, allUsernames. rewrite js_filter_elem, Z.ltb_lt, js_set_two, js_set_elem, list_elem_of_join.
  split.
  - intros [(x & y & Hx & Hy & Hne) (l & Hu & Hl)].
    apply list_elem_of_fmap in Hl as (n & -> & Hn), Hx as (a & -> & Ha), Hy as (b & -> & Hb).
    split; [by exists n|by exists a, b].
  - intros [(n & Hn & Hu) (a & b & Ha & Hb & Hne)]. split.
    + exists (user_digest u a), (user_digest u b). split_and!; [by apply list_elem_of_fmap_2..|done].
    + exists ((ad_userDigests n).*1). split; [done|]. apply list_elem_of_fmap. by exists n.
Qed.

(** ACL drift is reported for exactly the replication groups whose nodes do not all have
    one digest, and names exactly the users at fault: a user is named when some node of the
    group knows it and two nodes of the group, a node without the user counted as different,
    have different digests for it; every node of the group is listed.  Nodes whose ACL LIST
    replies hold the same users with the same rules, lines and rules in any order, have one
    digest, whatever the hash function. *)
Theorem acl_drift_exact (sha256 : string → string) (localeCompare : string → string → Z) nodes :
  (∀ d, d ∈ detectAclDrift localeCompare nodes →
     let group := acl_group (acl_groupKey d) nodes in
     acl_groupKey d ≠ EmptyString
     ∧ (∃ a b, a ∈ group ∧ b ∈ group ∧ ad_digest a ≠ ad_digest b)
     ∧ (∀ u, u ∈ acl_usernames d ↔
          (∃ n, n ∈ group ∧ u ∈ (ad_userDigests n).*1)
          ∧ ∃ a b, a ∈ group ∧ b ∈ group ∧ user_digest u a ≠ user_digest u b)
     ∧ adn_connectionId <$> acl_nodes d ≡ₚ ad_connectionId <$> group)
  ∧ (∀ a b, a ∈ nodes → b ∈ nodes → ad_groupKey a = ad_groupKey b →
       ad_groupKey a ≠ EmptyString → ad_digest a ≠ ad_digest b →
       ∃ d, d ∈ detectAclDrift localeCompare nodes ∧ acl_groupKey d = ad_groupKey a)
  ∧ ∀ l l', same_acl l l' → (nodeAclDigest sha256 l).1 = (nodeAclDigest sha256 l').1.
Proof.
  split_and!; [| |apply same_acl_digest].
  - intros d Hd. apply list_elem_of_omap in Hd as ([k g] & Hg & Hd).
    apply keyed_groups in Hg as (Hk & Hg & Hne). unfold group_acl_drift in Hd. cbn [fst snd] in Hd.
    destruct (Z.ltb_spec (js_len g) 2) as [|Hlen]; [done|].
    destruct (Z.eqb_spec (js_len (js_set (ad_digest <$> g))) 1) as [|Hone]; [done|].
    injection Hd as <-. cbn. fold (acl_group k nodes) in Hg. rewrite <-Hg. split_and!; [done| | |].
    + assert (Htwo : 1 < js_len (js_set (ad_digest <$> g))).
      { assert (js_len (js_set (ad_digest <$> g)) ≠ 0); [|unfold js_len in *; lia].
        destruct g as [|n g]; [done|]. pose proof (js_set_elem (ad_digest n) (ad_digest <$> n :: g)) as He.
        destruct (js_set _) as [|x l]; [|unfold js_len; simpl; lia].
        assert (Hin : ad_digest n ∈ ad_digest <$> n :: g) by by left.
        apply He in Hin. by apply not_elem_of_nil in Hin. }
      apply js_set_two in Htwo as (x & y & Hx & Hy & Hxy).
      apply list_elem_of_fmap in Hx as (a & -> & Ha), Hy as (b & -> & Hb). by exists a, b.
    + intros u. unfold sort_strings. rewrite js_sort_elem. apply differing_elem.
    + rewrite js_sort_perm. by rewrite <-list_fmap_compose.
  - intros a b Ha Hb Hkey Hk Hne. set (group := acl_group (ad_groupKey a) nodes).
    assert (Ha' : a ∈ group) by by apply acl_group_elem.
    assert (Hb' : b ∈ group) by by apply acl_group_elem.
    assert (Hlen : 1 < js_len group) by (apply (two_elements _ a b); [done|done|congruence]).
    assert (Htwo : 1 < js_len (js_set (ad_digest <$> group))).
    { apply js_set_two. exists (ad_digest a), (ad_digest b).
      split_and!; [by apply list_elem_of_fmap_2..|done]. }
    eexists. split.
    + apply list_elem_of_omap. exists (ad_groupKey a, group). split.
      * apply keyed_groups. split_and!; [done|done|]. intros Hg. fold group in Hg. rewrite Hg in Ha'.
        by apply not_elem_of_nil in Ha'.
      * unfold group_acl_drift. cbn [fst snd]. destruct (Z.ltb_spec (js_len group) 2); [lia|].
        destruct (Z.eqb_spec (js_len (js_set (ad_digest <$> group))) 1); [lia|]. reflexivity.
    + done.
Qed.

(** *** Large replies *)
Definition crossing (thresholdBytes : Z) (command : string) (entries : list LargeReplyEntry)
    : list LargeReplyEntry :=
  js_filter (λ e, (thresholdBytes <=? lr_replyBytes e)
                  && bool_decide (to_upper (lr_command e) = command)) entries.
Definition total_bytes (entries : list LargeReplyEntry) : Z :=
  foldr Z.add 0 (lr_replyBytes <$> entries).

Lemma reply_fold t entries :
  let m := foldl (reply_step t) [] entries in
  jm_wf m ∧ ∀ c, jm_get c m = match crossing t c entries with
                              | [] => None
                              | g => Some (foldl count_reply new_accumulator g)
                              end.
Proof.
  induction entries as [|e entries [IHwf IH]] using rev_ind; [split; [apply jm_wf_nil|done]|].
  cbv zeta in *. rewrite foldl_app. cbn [foldl]. unfold crossing. setoid_rewrite js_filter_app.
  unfold reply_step at 1 3. csimpl.
  destruct (Z.ltb_spec (lr_replyBytes e) t) as [Hlt|Hge].
  - destruct (Z.leb_spec t (lr_replyBytes e)); [lia|]. simpl. setoid_rewrite app_nil_r. done.
  - destruct (Z.leb_spec t (lr_replyBytes e)); [|lia]. simpl. split; [by apply jm_wf_set|].
    intros c. rewrite jm_get_set, IH. fold (crossing t c entries).
    destruct (decide (c = to_upper (lr_command e))) as [->|Hne].
    + rewrite bool_decide_eq_true_2 by done. fold (crossing t (to_upper (lr_command e)) entries).
      destruct (crossing t _ entries) as [|x g]; [done|]. cbn [app default].
      change (x :: g ++ [e]) with ((x :: g) ++ [e]). by rewrite foldl_app.
    + rewrite bool_decide_eq_false_2, app_nil_r by congruence. done.
Qed.

Lemma count_replies g :
  let acc := foldl count_reply new_accumulator g in
  oa_crossings acc = js_len g ∧ oa_totalBytes acc = total_bytes g
  ∧ Forall (λ e, lr_replyBytes e ≤ oa_worstBytes acc) g
  ∧ Forall (λ e, lr_timestamp e ≤ oa_lastTimestamp acc) g.
Proof.
  induction g as [|e g (IH1 & IH2 & IH3 & IH4)] using rev_ind; [done|].
  cbv zeta in *. rewrite foldl_app. cbn [foldl count_reply oa_crossings oa_totalBytes oa_worstBytes oa_lastTimestamp].
  unfold js_len, total_bytes in *. rewrite length_app, fmap_app, foldr_app, IH1, IH2. csimpl. split_and!.
  - lia.
  - clear. induction (lr_replyBytes <$> g) as [|x l IH]; simpl; lia.
  - rewrite Forall_app, Forall_singleton. split; [|lia].
    eapply Forall_impl; [exact IH3|]. simpl. lia.
  - rewrite Forall_app, Forall_singleton. split; [|lia].
    eapply Forall_impl; [exact IH4|]. simpl. lia.
Qed.

(** Large-reply pressure is reported exactly: with a threshold that is set, a command is
    reported, once, when it has an entry and at least the required number of entries whose
    reply is at or above the threshold, whatever the case its name is written in; the report
    counts these entries, adds up their bytes and bounds each of them by the worst; the
    reports come in decreasing order of crossings. *)
Theorem large_replies_exact entries thresholdBytes minCrossings :
  let offenders := detectLargeReplyPressure entries thresholdBytes minCrossings in
  (∀ c, c ∈ lo_command <$> offenders ↔
        0 ≤ thresholdBytes ∧ crossing thresholdBytes c entries ≠ []
        ∧ default LARGE_REPLY_MIN_CROSSINGS minCrossings
          ≤ js_len (crossing thresholdBytes c entries))
  ∧ NoDup (lo_command <$> offenders)
  ∧ (∀ o, o ∈ offenders → let g := crossing thresholdBytes (lo_command o) entries in
        lo_crossings o = js_len g ∧ lo_totalBytes o = total_bytes g
        ∧ Forall (λ e, lr_replyBytes e ≤ lo_worstBytes o) g)
  ∧ StronglySorted (λ a b, lo_crossings b ≤ lo_crossings a) offenders.
Proof.
  cbv zeta. unfold detectLargeReplyPressure.
  destruct (Z.ltb_spec thresholdBytes 0) as [Hneg|Hpos]; simpl.
  { split_and!; [|constructor|by intros o ?%not_elem_of_nil|constructor].
    intros c. split; [by intros ?%not_elem_of_nil|lia]. }
  destruct (Z.eqb_spec (js_len entries) 0) as [Hempty|_].
  { destruct entries; [|done]. simpl.
    split_and!; [|constructor|by intros o ?%not_elem_of_nil|constructor].
    intros c. split; [by intros ?%not_elem_of_nil|naive_solver]. }
  destruct (reply_fold thresholdBytes entries) as [Hwf Hget]. cbv zeta in *.
  set (m := foldl _ [] entries) in *. set (min := default _ _).
  assert (Hoff : ∀ o, o ∈ omap (offender_of min thresholdBytes) m ↔
    ∃ acc, jm_get (lo_command o) m = Some acc ∧ offender_of min thresholdBytes (lo_command o, acc) = Some o).
  { intros o. rewrite list_elem_of_omap. split.
    - intros ([c acc] & Hin & Ho). pose proof Ho as Ho'. unfold offender_of in Ho.
      destruct (_ <? _); [done|]. injection Ho as <-. exists acc. by split; [apply jm_elem_get|].
    - intros (acc & Hg & Ho). exists (lo_command o, acc). by split; [apply jm_get_elem|]. }
  assert (Hspec : ∀ o, o ∈ omap (offender_of min thresholdBytes) m →
    let g := crossing thresholdBytes (lo_command o) entries in
    g ≠ [] ∧ min ≤ js_len g ∧ lo_crossings o = js_len g ∧ lo_totalBytes o = total_bytes g
    ∧ Forall (λ e, lr_replyBytes e ≤ lo_worstBytes o) g).
  { intros o (acc & Hg & Ho)%Hoff. rewrite Hget in Hg. cbv zeta.
    set (g := crossing _ _ _) in *.
    assert (Hne : g ≠ []) by (intros Heq; by rewrite Heq in Hg).
    assert (Some (foldl count_reply new_accumulator g) = Some acc) as [= <-] by (by destruct g).
    destruct (count_replies g) as (Hc & Ht & Hw & _). unfold offender_of in Ho.
    destruct (Z.ltb_spec (oa_crossings (foldl count_reply new_accumulator g)) min); [done|].
    injection Ho as <-. cbn. rewrite Hc in *. by split_and!. }
  split_and!.
  - intros c. rewrite list_elem_of_fmap. split.
    + intros (o & -> & Ho%js_sort_elem). apply Hspec in Ho. naive_solver.
    + intros (_ & Hne & Hmin). destruct (count_replies (crossing thresholdBytes c entries)) as (Hc & _).
      eexists {| lo_command := c |}. split; [done|]. apply js_sort_elem, Hoff. cbn [lo_command].
      rewrite Hget. exists (foldl count_reply new_accumulator (crossing thresholdBytes c entries)).
      split; [by destruct (crossing _ _ _)|]. unfold offender_of.
      destruct (Z.ltb_spec (oa_crossings (foldl count_reply new_accumulator (crossing thresholdBytes c entries))) min).
      * subst min. lia.
      * reflexivity.
  - rewrite js_sort_perm. clear Hspec Hoff Hget. unfold jm_wf in Hwf.
    induction m as [|[c acc] m IH]; [constructor|]. apply NoDup_cons in Hwf as [Hc Hwf]. csimpl.
    destruct (oa_crossings acc <? min); [by apply IH|]. csimpl. constructor; [|by apply IH].
    intros (o & -> & Ho)%list_elem_of_fmap. apply Hc. cbn.
    apply list_elem_of_omap in Ho as ([c' acc'] & Hin & Ho). unfold offender_of in Ho.
    destruct (_ <? _); [done|]. injection Ho as <-. cbn. apply list_elem_of_fmap. by exists (c', acc').
  - intros o Ho%js_sort_elem. apply Hspec in Ho. naive_solver.
  - apply js_sort_desc_sorted.
Qed.
