(* ===== verification/NodeViews.v ===== *)
(** * Detectors over one node's views of the cluster and of Sentinel

    [hostname-staleness-detector.ts], [replica-slot-state-detector.ts],
    [orphaned-slot-keys-detector.ts] and [sentinel-drift-detector.ts].  All are pure; the
    anomaly service requires their findings to persist over several polls. *)
From S2P Require Export ClusterTopology FleetDrift.
From stdpp Require Import options.

(** ** Definitions *)
Record ClusterShardNode := {
  csn_id : string; csn_role : string; csn_health : option string; csn_endpoint : option string;
  csn_hostname : option string; csn_port : option Z; csn_replicationOffset : option Z
}.
Record ClusterShard := { csh_slots : list (Z * Z); csh_nodes : list ClusterShardNode }.

(** *** Hostname staleness *)
Inductive HostnameStalenessReason := missing_hostname | hostname_mismatch.
#[global] Instance HostnameStalenessReason_eq : EqDecision HostnameStalenessReason.
Proof. solve_decision. Defined.
Definition hostname_reason (r : HostnameStalenessReason) : string :=
  match r with
  | missing_hostname => "missing_hostname"
  | hostname_mismatch => "hostname_mismatch"
  end.
Record HostnameStaleness := {
  hs_nodeId : string;
  hs_address : string;
  hs_reason : HostnameStalenessReason;
  hs_nodesHostname : option string;
  hs_shardsHostname : option string
}.

Definition NON_LIVE_FLAGS : list string := ["handshake"; "noaddr"; "fail"; "fail?"].
Definition isLiveNode (node : ClusterNode) : bool :=
  negb (is_empty (cn_id node)) && negb (js_some (has_flag node) NON_LIVE_FLAGS).

Definition missing_of (n : ClusterNode) : HostnameStaleness :=
  {| hs_nodeId := cn_id n; hs_address := cn_address n; hs_reason := missing_hostname;
     hs_nodesHostname := None; hs_shardsHostname := None |}.
Definition shard_hostnames (shards : list ClusterShard) : list (string * string) :=
  foldl (λ m n, match csn_hostname n with
                | Some (String _ _ as h) => jm_set (csn_id n) h m
                | _ => m
                end) [] (mjoin (csh_nodes <$> shards)).
Definition mismatch_of (shardHostnameById : list (string * string)) (n : ClusterNode)
    : option HostnameStaleness :=
  match cn_hostname n, jm_get (cn_id n) shardHostnameById with
  | Some (String _ _ as h), Some (String _ _ as shardsHostname) =>
      if str_eqb h shardsHostname then None
      else Some {| hs_nodeId := cn_id n; hs_address := cn_address n;
                   hs_reason := hostname_mismatch; hs_nodesHostname := Some h;
                   hs_shardsHostname := Some shardsHostname |}
  | _, _ => None
  end.
Definition detectHostnameStaleness (nodes : list ClusterNode) (shards : option (list ClusterShard))
    : list HostnameStaleness :=
  let known := js_filter isLiveNode nodes in
  if js_len known =? 0 then []
  else
    let anyHostnamePresent := js_some (λ n, truthy_string (cn_hostname n)) known in
    (if anyHostnamePresent
     then missing_of <$> js_filter (λ n, negb (truthy_string (cn_hostname n))) known else [])
    ++ match shards with
       | Some ((_ :: _) as shards) => omap (mismatch_of (shard_hostnames shards)) known
       | _ => []
       end.
Definition hostnameStalenessSignature (finding : HostnameStaleness) : string :=
  hs_nodeId finding +:+ "|" +:+ hostname_reason (hs_reason finding).

(** *** Slot state on a replica *)
Inductive ReplicaSlotReason := replica_migrating | replica_importing | slot_view_divergence.
#[global] Instance ReplicaSlotReason_eq : EqDecision ReplicaSlotReason.
Proof. solve_decision. Defined.
Definition slot_reason (r : ReplicaSlotReason) : string :=
  match r with
  | replica_migrating => "replica_migrating"
  | replica_importing => "replica_importing"
  | slot_view_divergence => "slot_view_divergence"
  end.
Record ShardInfo := { si_shardId : string; si_shardSlots : list (Z * Z) }.
Record ReplicaSlotAnomaly := {
  rsa_replicaId : string;
  rsa_replicaAddress : string;
  rsa_reason : ReplicaSlotReason;
  rsa_affectedSlots : list Z;
  rsa_ownedSlots : option (list (Z * Z));
  rsa_shard : option ShardInfo
}.

Definition replica_flagged (node : ClusterNode) : bool :=
  has_flag node "slave" || has_flag node "replica".

Definition shard_id (shard : ClusterShard) : string :=
  let master := match js_find (λ n, str_eqb (csn_role n) "master") (csh_nodes shard) with
                | Some n => Some n
                | None => head (csh_nodes shard)
                end in
  default EmptyString (csn_id <$> master).
Definition index_shard (acc : list (string * string) * list (string * ShardInfo))
    (shard : ClusterShard) : list (string * string) * list (string * ShardInfo) :=
  foldl (λ '(roleByNode, shardByNode) n,
           (jm_set (csn_id n) (csn_role n) roleByNode,
            jm_set (csn_id n) {| si_shardId := shard_id shard; si_shardSlots := csh_slots shard |}
              shardByNode)) acc (csh_nodes shard).
Definition indexShards (shards : list ClusterShard)
    : list (string * string) * list (string * ShardInfo) :=
  foldl index_shard ([], []) shards.

Definition sortedUnique (nums : list Z) : list Z := js_sort (by_asc id) (js_set nums).

Definition slot_anomalies (hasShards : bool) (roleByNode : list (string * string))
    (shardByNode : list (string * ShardInfo)) (node : ClusterNode) : list ReplicaSlotAnomaly :=
  if negb (replica_flagged node) then []
  else if hasShards && bool_decide (jm_get (cn_id node) roleByNode = Some "master") then []
  else
    let report reason slots owned :=
      {| rsa_replicaId := cn_id node; rsa_replicaAddress := cn_address node; rsa_reason := reason;
         rsa_affectedSlots := sortedUnique slots; rsa_ownedSlots := owned;
         rsa_shard := jm_get (cn_id node) shardByNode |} in
    let migrating := default [] (cn_migratingSlots node) in
    let importing := default [] (cn_importingSlots node) in
    (if 0 <? js_len migrating then [report replica_migrating migrating.*1 None] else [])
    ++ (if 0 <? js_len importing then [report replica_importing importing.*1 None] else [])
    ++ (let hasMigrationMarkers := (0 <? js_len migrating) || (0 <? js_len importing) in
        if hasShards && negb hasMigrationMarkers && (0 <? js_len (cn_slots node))
        then [report slot_view_divergence (mjoin ((λ r : Z * Z, [r.1; r.2]) <$> cn_slots node))
                (Some (cn_slots node))] else []).
Definition detectReplicaSlotState (nodes : list ClusterNode) (shards : option (list ClusterShard))
    : list ReplicaSlotAnomaly :=
  let hasShards := match shards with Some (_ :: _) => true | _ => false end in
  let '(roleByNode, shardByNode) := if hasShards then indexShards (default [] shards) else ([], []) in
  mjoin (slot_anomalies hasShards roleByNode shardByNode <$> nodes).
Definition replicaSlotSignature (a : ReplicaSlotAnomaly) : string :=
  rsa_replicaId a +:+ "|" +:+ slot_reason (rsa_reason a) +:+ "|"
  +:+ join "," (string_of_Z <$> rsa_affectedSlots a).

(** *** Orphaned keys *)
Record SlotStatsMetric := {
  ssm_key_count : Z; ssm_expires_count : Z; ssm_total_reads : Z; ssm_total_writes : Z
}.
Record OrphanedSlotKeysInput := {
  oi_clusterEnabled : bool;
  oi_isClusterPrimary : bool;
  oi_importingSlots : list Z;
  oi_slotStats : list (string * SlotStatsMetric);
  oi_dbsize : option Z
}.
Definition ORPHANED_DBSIZE_DELTA_MIN_KEYS : Z := 100.
Record OrphanedSlotKeysFinding := { of_totalOrphanedKeys : Z }.

Definition reported_keys (slotStats : list (string * SlotStatsMetric)) : Z :=
  foldl (λ total kv,
           match parse_int kv.1 with
           | None => total
           | Some _ => if ssm_key_count kv.2 <=? 0 then total else total + ssm_key_count kv.2
           end) 0 slotStats.
Definition detectOrphanedSlotKeys (input : OrphanedSlotKeysInput) : option OrphanedSlotKeysFinding :=
  if negb (oi_clusterEnabled input) || negb (oi_isClusterPrimary input) then None
  else if 0 <? js_len (oi_importingSlots input) then None
  else
    match oi_dbsize input with
    | None => None
    | Some dbsize =>
        let invisibleKeys := dbsize - reported_keys (oi_slotStats input) in
        if invisibleKeys <? ORPHANED_DBSIZE_DELTA_MIN_KEYS then None
        else Some {| of_totalOrphanedKeys := invisibleKeys |}
    end.
Definition orphanedSlotKeysSignature (_ : OrphanedSlotKeysFinding) : string := "dbsize-delta".

(** *** Sentinel *)
Definition isSentinelMode (info : list (string * string)) : bool :=
  js_some (λ mode, bool_decide (mode = Some "sentinel"))
    [jm_get "server_mode" info; jm_get "redis_mode" info; jm_get "valkey_mode" info].

Inductive SentinelDriftReason := ip_for_hostname | stale_master_pointer | self_replication.
#[global] Instance SentinelDriftReason_eq : EqDecision SentinelDriftReason.
Proof. solve_decision. Defined.
Definition drift_reason (r : SentinelDriftReason) : string :=
  match r with
  | ip_for_hostname => "ip_for_hostname"
  | stale_master_pointer => "stale_master_pointer"
  | self_replication => "self_replication"
  end.
Inductive SentinelRole := SR_master | SR_replica.
Record SentinelNodeInfo := {
  sn_name : string;
  sn_ip : string;
  sn_port : Z;
  sn_runid : string;
  sn_flags : list string;
  sn_masterHost : option string;
  sn_masterPort : option Z;
  sn_fields : list (string * string)
}.
Record SentinelDrift := {
  sdr_reason : SentinelDriftReason;
  sdr_masterName : string;
  sdr_endpoint : string;
  sdr_nodeName : string;
  sdr_role : SentinelRole;
  sdr_expectedStyle : string
}.

Definition ip_part (s : string) : bool :=
  str_forall is_digit s && (1 <=? byte_length s) && (byte_length s <=? 3).
(** [/^\d{1,3}(\.\d{1,3}){3}$/] *)
Definition IPV4 (value : string) : bool :=
  let parts := split_char "." value in
  (js_len parts =? 4) && js_every ip_part parts.
(** [.replace(/^\[/, '').replace(/\]$/, '')] *)
Definition strip_open (s : string) : string :=
  match s with String "[" s' => s' | _ => s end.
Fixpoint strip_close (s : string) : string :=
  match s with
  | EmptyString => EmptyString
  | String "]" EmptyString => EmptyString
  | String c s' => String c (strip_close s')
  end.
Definition isIpLiteral (host : string) : bool :=
  let value := strip_close (strip_open (trim host)) in
  if is_empty value then false
  else if includes ":" value then true else IPV4 value.
Definition has_letter (s : string) : bool :=
  negb (str_forall (λ c, negb (in_range 97 122 (lower_char c))) s).
Definition isHostname (value : string) : bool :=
  let trimmed := trim value in
  if is_empty trimmed || str_eqb trimmed "?" then false
  else if isIpLiteral trimmed then false else has_letter trimmed.
Definition endpointOf (node : SentinelNodeInfo) : string :=
  sn_ip node +:+ ":" +:+ string_of_Z (sn_port node).
Definition hostnamesInUse (master : SentinelNodeInfo) (replicas : list SentinelNodeInfo) : bool :=
  js_some (λ m, isHostname (sn_ip m)) (master :: replicas).
Definition sampleHostname (master : SentinelNodeInfo) (replicas : list SentinelNodeInfo) : string :=
  default EmptyString (sn_ip <$> js_find (λ m, isHostname (sn_ip m)) (master :: replicas)).
Definition isSelfReplicating (replica : SentinelNodeInfo) : bool :=
  match sn_masterHost replica, sn_masterPort replica with
  | Some (String _ _ as host), Some port => (port =? sn_port replica) && str_eqb host (sn_ip replica)
  | _, _ => false
  end.

Definition drift_of (masterName expectedStyle : string) (reason : SentinelDriftReason)
    (role : SentinelRole) (endpoint : string) (node : SentinelNodeInfo) : SentinelDrift :=
  {| sdr_reason := reason; sdr_masterName := masterName; sdr_endpoint := endpoint;
     sdr_nodeName := sn_name node; sdr_role := role; sdr_expectedStyle := expectedStyle |}.
Definition ip_drift (masterName expectedStyle : string) (c : SentinelNodeInfo * SentinelRole)
    : option SentinelDrift :=
  if is_empty (sn_ip c.1) || negb (isIpLiteral (sn_ip c.1)) then None
  else Some (drift_of masterName expectedStyle ip_for_hostname c.2 (endpointOf c.1) c.1).
Definition pointer_drift (masterName expectedStyle : string) (pointerHostnameInUse : bool)
    (replica : SentinelNodeInfo) : option SentinelDrift :=
  match sn_masterHost replica with
  | Some (String _ _ as host) =>
      if negb (isIpLiteral host) || negb pointerHostnameInUse then None
      else
        let endpoint := match sn_masterPort replica with
                        | None => host
                        | Some port => host +:+ ":" +:+ string_of_Z port
                        end in
        Some (drift_of masterName expectedStyle stale_master_pointer SR_replica endpoint replica)
  | _ => None
  end.
Definition master_pointers (replicas : list SentinelNodeInfo) : list string :=
  js_filter (λ h, negb (is_empty h)) (omap sn_masterHost replicas).
Definition detectSentinelDrift (master : SentinelNodeInfo) (replicas : list SentinelNodeInfo)
    : list SentinelDrift :=
  let masterName := sn_name master in
  let self :=
    (λ r, drift_of masterName EmptyString self_replication SR_replica (endpointOf r) r)
    <$> js_filter isSelfReplicating replicas in
  if negb (hostnamesInUse master replicas) then self
  else
    let expectedStyle := sampleHostname master replicas in
    let candidates := (master, SR_master) :: ((λ r, (r, SR_replica)) <$> replicas) in
    let pointerHostnameInUse := js_some isHostname (master_pointers replicas) in
    self ++ omap (ip_drift masterName expectedStyle) candidates
    ++ omap (pointer_drift masterName expectedStyle pointerHostnameInUse) replicas.

(** [encodeURIComponent] on the UTF-8 form *)
Definition uri_plain (c : ascii) : bool :=
  in_range 48 57 c || in_range 65 90 c || in_range 97 122 c
  || js_includes c ["-"; "_"; "."; "!"; "~"; "*"; "'"; "("; ")"]%char.
Definition hex_upper (n : N) : ascii := ascii_of_N (if (n <? 10)%N then 48 + n else 55 + n).
Definition uri_char (c : ascii) : string :=
  if uri_plain c then String c EmptyString
  else String "%" (String (hex_upper (code c `div` 16)%N)
                     (String (hex_upper (code c `mod` 16)%N) EmptyString)).
Definition encodeURIComponent : string → string := str_flat_map uri_char.

(** A string of bytes is the UTF-8 form of some characters. *)
Definition continuation (lo hi : N) (s : string) : option string :=
  match s with
  | String c s' => if in_range lo hi c then Some s' else None
  | EmptyString => None
  end.
Fixpoint utf8_valid (s : string) : bool :=
  match s with
  | EmptyString => true
  | String a s1 =>
      if in_range 0 127 a then utf8_valid s1
      else match s1 with
      | EmptyString => false
      | String b s2 =>
          if in_range 194 223 a then in_range 128 191 b && utf8_valid s2
          else match s2 with
          | EmptyString => false
          | String c s3 =>
              let second := if ascii_dec a "224"%char then in_range 160 191 b
                            else if ascii_dec a "237"%char then in_range 128 159 b
                            else in_range 128 191 b in
              if in_range 224 239 a then second && in_range 128 191 c && utf8_valid s3
              else match s3 with
              | EmptyString => false
              | String d s4 =>
                  let second := if ascii_dec a "240"%char then in_range 144 191 b
                                else if ascii_dec a "244"%char then in_range 128 143 b
                                else in_range 128 191 b in
                  in_range 240 244 a && second && in_range 128 191 c && in_range 128 191 d
                  && utf8_valid s4
              end
          end
      end
  end.
Fixpoint percent_decode (s : string) : option string :=
  match s with
  | EmptyString => Some EmptyString
  | String "%" (String a (String b s')) =>
      x ← hex_value a; y ← hex_value b; rest ← percent_decode s';
      Some (String (ascii_of_N (x * 16 + y)) rest)
  | String "%" _ => None
  | String c s' => String c <$> percent_decode s'
  end.
(** [decodeURIComponent]; [None] is a thrown URIError. *)
Definition decodeURIComponent (s : string) : option string :=
  t ← percent_decode s; if utf8_valid t then Some t else None.

Definition sentinelDriftSignature (drift : SentinelDrift) : string :=
  join "|" (encodeURIComponent <$> [drift_reason (sdr_reason drift); sdr_masterName drift;
                                    sdr_nodeName drift; sdr_endpoint drift]).
Definition sentinelDriftSignatureMaster (signature : string) : option string :=
  match split_char "|" signature with
  | _ :: encoded :: _ => decodeURIComponent encoded
  | _ => Some EmptyString
  end.

(** ** Signatures of Sentinel drifts *)
Lemma hex_upper_value n : (n < 16)%N → hex_value (hex_upper n) = Some n.
Proof.
  intros Hn. assert (Hall : Forall (λ n, hex_value (hex_upper n) = Some n) (N.of_nat <$> seq 0 16))
    by repeat constructor.
  rewrite Forall_forall in Hall. apply Hall. apply list_elem_of_fmap.
  exists (N.to_nat n). split; [lia|]. apply elem_of_seq. lia.
Qed.

Lemma code_lt c : (code c < 256)%N.
Proof. apply N_ascii_bounded. Qed.

Lemma percent_decode_char c s :
  percent_decode (uri_char c +:+ s) = String c <$> percent_decode s.
Proof.
  unfold uri_char. destruct (uri_plain c) eqn:Hc.
  - destruct c as [[] [] [] [] [] [] [] []]; try reflexivity; discriminate Hc.
  - cbn [String.append percent_decode]. pose proof (code_lt c). rewrite !hex_upper_value.
    + cbn [mbind option_bind]. replace (code c `div` 16 * 16 + code c `mod` 16)%N with (code c)
        by (pose proof (N.div_mod (code c) 16); lia).
      unfold code. rewrite ascii_N_embedding. by destruct (percent_decode s).
    + apply N.Div0.div_lt_upper_bound. lia.
    + apply N.mod_lt. lia.
Qed.

Lemma percent_decode_encode s : percent_decode (encodeURIComponent s) = Some s.
Proof.
  induction s as [|c s IH]; [done|]. unfold encodeURIComponent in *. cbn [str_flat_map].
  by rewrite percent_decode_char, IH.
Qed.

Lemma encode_inj s t : encodeURIComponent s = encodeURIComponent t → s = t.
Proof. intros H%(f_equal percent_decode). rewrite !percent_decode_encode in H. by injection H. Qed.

Lemma encode_no_bar s : str_forall (λ c, negb (bool_decide (c = "|"%char))) (encodeURIComponent s) = true.
Proof.
  induction s as [|c s IH]; [done|]. unfold encodeURIComponent in *. cbn [str_flat_map].
  rewrite str_forall_app, IH, andb_true_r. destruct c as [[] [] [] [] [] [] [] []]; reflexivity.
Qed.

Lemma signature_split d :
  split_char "|" (sentinelDriftSignature d)
  = encodeURIComponent <$> [drift_reason (sdr_reason d); sdr_masterName d; sdr_nodeName d;
                            sdr_endpoint d].
Proof.
  apply split_join; [done|]. intros s (t & -> & _)%list_elem_of_fmap. apply encode_no_bar.
Qed.

(** The signature of a Sentinel drift loses nothing: the master's name is read back from
    it whatever separators the name holds, and two drifts with one signature agree on the
    reason, the master, the node and the endpoint, so a change in any of them alerts again. *)
Theorem sentinel_signature_faithful d d' :
  (utf8_valid (sdr_masterName d) = true →
     sentinelDriftSignatureMaster (sentinelDriftSignature d) = Some (sdr_masterName d))
  ∧ (sentinelDriftSignature d = sentinelDriftSignature d' →
     sdr_reason d = sdr_reason d' ∧ sdr_masterName d = sdr_masterName d'
     ∧ sdr_nodeName d = sdr_nodeName d' ∧ sdr_endpoint d = sdr_endpoint d').
Proof.
  split.
  - intros Hv. unfold sentinelDriftSignatureMaster. rewrite signature_split. csimpl.
    unfold decodeURIComponent. rewrite percent_decode_encode. simpl. by rewrite Hv.
  - intros H%(f_equal (split_char "|")). rewrite !signature_split in H. csimpl in H.
    injection H as Hr Hm Hn He. apply encode_inj in Hr, Hm, Hn, He. split_and!; [|done..].
    by destruct (sdr_reason d), (sdr_reason d').
Qed.

(** ** Sentinel *)
Lemma filled_string s : is_empty s = false ↔ s ≠ EmptyString.
Proof. by destruct s. Qed.

Lemma hostname_nonempty s : isHostname s = true → s ≠ EmptyString.
Proof. by intros H ->. Qed.

Lemma self_replicating_spec r :
  isSelfReplicating r = true ↔
  sn_masterHost r = Some (sn_ip r) ∧ sn_ip r ≠ EmptyString ∧ sn_masterPort r = Some (sn_port r).
Proof.
  unfold isSelfReplicating. destruct (sn_masterHost r) as [[|c h]|].
  - split; [done|]. intros ([= <-] & ? & _). done.
  - destruct (sn_masterPort r) as [port|]; [|by split; [|intros (_ & _ & ?)]].
    rewrite andb_true_iff, Z.eqb_eq. unfold str_eqb. rewrite bool_decide_eq_true. split.
    + by intros [-> <-].
    + by intros ([= <-] & _ & [= <-]).
  - by split; [|intros (? & _)].
Qed.

Lemma ip_drift_spec m e c d :
  ip_drift m e c = Some d ↔
  isIpLiteral (sn_ip c.1) = true ∧ sn_ip c.1 ≠ EmptyString
  ∧ d = drift_of m e ip_for_hostname c.2 (endpointOf c.1) c.1.
Proof.
  unfold ip_drift. rewrite <-filled_string.
  destruct (is_empty (sn_ip c.1)), (isIpLiteral (sn_ip c.1)); naive_solver.
Qed.

Definition pointer_endpoint (host : string) (port : option Z) : string :=
  host +:+ match port with None => EmptyString | Some port => ":" +:+ string_of_Z port end.
Lemma pointer_drift_spec m e inUse r d :
  pointer_drift m e inUse r = Some d ↔
  inUse = true ∧ ∃ host, sn_masterHost r = Some host ∧ host ≠ EmptyString ∧ isIpLiteral host = true
    ∧ d = drift_of m e stale_master_pointer SR_replica (pointer_endpoint host (sn_masterPort r)) r.
Proof.
  unfold pointer_drift, pointer_endpoint.
  destruct (sn_masterHost r) as [[|c h]|]; [naive_solver| |naive_solver].
  set (host := String c h). assert (Hne : host ≠ EmptyString) by done. clearbody host.
  destruct (isIpLiteral host) eqn:Hip, inUse; cbn [negb orb].
  - split.
    + intros [= <-]. split; [done|]. exists host. split_and!; [done..|].
      destruct (sn_masterPort r); [done|by rewrite str_app_nil_r].
    + intros (_ & host' & [= <-] & _ & _ & ->).
      destruct (sn_masterPort r); [done|by rewrite str_app_nil_r].
  - naive_solver.
  - split; [done|]. intros (_ & host' & [= <-] & _ & H & _). congruence.
  - naive_solver.
Qed.

Lemma pointer_hostname_spec replicas :
  js_some isHostname (master_pointers replicas) = true ↔
  ∃ r host, r ∈ replicas ∧ sn_masterHost r = Some host ∧ isHostname host = true.
Proof.
  rewrite js_some_true. split.
  - intros (host & [_ Hin]%js_filter_elem & Hh). apply list_elem_of_omap in Hin as (r & Hr & Hm).
    by exists r, host.
  - intros (r & host & Hr & Hm & Hh). exists host. split; [|done]. apply js_filter_elem. split.
    + by apply negb_true_iff, filled_string, hostname_nonempty.
    + apply list_elem_of_omap. by exists r.
Qed.

(** What is reported of a Sentinel's view.  A group recorded under raw addresses only
    gives no address finding, however many hostnames its replicas point at; when some member
    is recorded under a hostname, exactly the members recorded under a raw address are
    reported; a raw pointer to the primary is reported exactly when, in addition, another
    pointer of the group is a hostname; and exactly the replicas that point at their own host
    and port are reported as replicating themselves. *)
Theorem sentinel_drift_exact master replicas d :
  d ∈ detectSentinelDrift master replicas ↔
  sdr_masterName d = sn_name master
  ∧ let announced := ∃ m, m ∈ master :: replicas ∧ isHostname (sn_ip m) = true in
    (sdr_reason d = self_replication ∧ sdr_role d = SR_replica ∧ sdr_expectedStyle d = EmptyString
     ∧ ∃ r, r ∈ replicas ∧ sn_masterHost r = Some (sn_ip r) ∧ sn_ip r ≠ EmptyString
         ∧ sn_masterPort r = Some (sn_port r)
         ∧ sdr_nodeName d = sn_name r ∧ sdr_endpoint d = endpointOf r)
    ∨ (sdr_reason d = ip_for_hostname ∧ announced
       ∧ sdr_expectedStyle d = sampleHostname master replicas
       ∧ ∃ n, (n = master ∧ sdr_role d = SR_master ∨ n ∈ replicas ∧ sdr_role d = SR_replica)
           ∧ isIpLiteral (sn_ip n) = true ∧ sn_ip n ≠ EmptyString
           ∧ sdr_nodeName d = sn_name n ∧ sdr_endpoint d = endpointOf n)
    ∨ (sdr_reason d = stale_master_pointer ∧ announced ∧ sdr_role d = SR_replica
       ∧ sdr_expectedStyle d = sampleHostname master replicas
       ∧ ∃ r r' host host', r ∈ replicas ∧ r' ∈ replicas ∧ sn_masterHost r = Some host
           ∧ host ≠ EmptyString ∧ isIpLiteral host = true
           ∧ sn_masterHost r' = Some host' ∧ isHostname host' = true
           ∧ sdr_nodeName d = sn_name r
           ∧ sdr_endpoint d = pointer_endpoint host (sn_masterPort r)).
Proof.
  assert (Hself : d ∈ (λ r, drift_of (sn_name master) EmptyString self_replication SR_replica (endpointOf r) r)
                      <$> js_filter isSelfReplicating replicas ↔
    sdr_masterName d = sn_name master ∧ sdr_reason d = self_replication ∧ sdr_role d = SR_replica
    ∧ sdr_expectedStyle d = EmptyString
    ∧ ∃ r, r ∈ replicas ∧ sn_masterHost r = Some (sn_ip r) ∧ sn_ip r ≠ EmptyString
        ∧ sn_masterPort r = Some (sn_port r)
        ∧ sdr_nodeName d = sn_name r ∧ sdr_endpoint d = endpointOf r).
  { rewrite list_elem_of_fmap. split.
    - intros (r & -> & [Hs Hr]%js_filter_elem). apply self_replicating_spec in Hs. naive_solver.
    - intros (? & ? & ? & ? & r & Hr & ? & ? & ? & ? & ?). exists r. split; [destruct d; simpl in *; subst; done|].
      apply js_filter_elem. by rewrite self_replicating_spec. }
  unfold detectSentinelDrift, hostnamesInUse.
  destruct (js_some (λ m, isHostname (sn_ip m)) (master :: replicas)) eqn:Hann; cbn [negb].
  - apply js_some_true in Hann. rewrite !elem_of_app, Hself, !list_elem_of_omap. split.
    + intros [?|[([n role] & Hn & Hd)|(r & Hr & Hd)]].
      * naive_solver.
      * apply ip_drift_spec in Hd as (Hip & Hne & ->). cbn in *. split; [done|]. right; left.
        split_and!; [done|done|done|]. exists n. split_and!; [|done..].
        apply elem_of_cons in Hn as [[= -> ->]|(r & [= -> ->] & Hr)%list_elem_of_fmap]; naive_solver.
      * apply pointer_drift_spec in Hd as (Huse & host & Hh & Hne & Hip & ->).
        apply pointer_hostname_spec in Huse as (r' & host' & Hr' & Hm' & Hh').
        split; [done|]. right; right. split_and!; [done..|]. by exists r, r', host, host'.
    + intros (Hm & [(?&?&?&?)|[(Hr & _ & He & n & Hn & Hip & Hne & Hname & Hend)
                    |(Hr & _ & Hrole & He & r & r' & host & host' & Hin & Hin' & Hh & Hne & Hip & Hh' & Hu & Hname & Hend)]]).
      * by left.
      * right; left. exists (n, sdr_role d). split.
        -- apply elem_of_cons. destruct Hn as [[-> ->]|[Hn ->]]; [by left|right].
           apply list_elem_of_fmap. by exists n.
        -- apply ip_drift_spec. split_and!; [done|done|]. destruct d; simpl in *; subst; done.
      * right; right. exists r. split; [done|]. apply pointer_drift_spec. split.
        -- apply pointer_hostname_spec. by exists r', host'.
        -- exists host. split_and!; [done..|]. destruct d; simpl in *; subst; done.
  - assert (Hno : ¬ ∃ m, m ∈ master :: replicas ∧ isHostname (sn_ip m) = true).
    { intros Hm%(js_some_true (λ m, isHostname (sn_ip m))). congruence. }
    rewrite Hself. naive_solver.
Qed.

(** ** Hostnames *)
Lemma truthy_string_spec o : truthy_string o = true ↔ ∃ h, o = Some h ∧ h ≠ EmptyString.
Proof. destruct o as [[|c h]|]; simpl; naive_solver. Qed.

Lemma mismatch_spec m n f :
  mismatch_of m n = Some f ↔
  ∃ h h', cn_hostname n = Some h ∧ jm_get (cn_id n) m = Some h' ∧ h ≠ EmptyString
    ∧ h' ≠ EmptyString ∧ h ≠ h'
    ∧ f = {| hs_nodeId := cn_id n; hs_address := cn_address n; hs_reason := hostname_mismatch;
             hs_nodesHostname := Some h; hs_shardsHostname := Some h' |}.
Proof.
  unfold mismatch_of. destruct (cn_hostname n) as [[|c h]|];
    [by split; [|intros (? & ? & [= <-] & ? & ? & _)]| |by split; [|intros (? & ? & ? & _)]].
  destruct (jm_get (cn_id n) m) as [[|c' h']|];
    [by split; [|intros (? & ? & _ & [= <-] & ? & ? & _)]| |by split; [|intros (? & ? & ? & ? & _)]].
  unfold str_eqb. case_bool_decide as Heq.
  - split; [done|]. intros (? & ? & [= <-] & [= <-] & _ & _ & ? & _). done.
  - split; [intros [= <-]; by eexists _, _|]. by intros (? & ? & [= <-] & [= <-] & _ & _ & _ & ->).
Qed.

(** A stale hostname is reported exactly for a live node that lacks a hostname while some
    live node has one, or whose hostname in CLUSTER NODES differs from a hostname CLUSTER
    SHARDS gives for it; a node that one of the views leaves without hostname never counts as
    a mismatch, and a node that is failed, without address or in handshake is never reported
    and never makes the cluster look as if it used hostnames. *)
Theorem hostname_staleness_exact nodes shards f :
  f ∈ detectHostnameStaleness nodes shards ↔
  ∃ n, n ∈ nodes ∧ isLiveNode n = true
    ∧ ((truthy_string (cn_hostname n) = false ∧ f = missing_of n
        ∧ ∃ p, p ∈ nodes ∧ isLiveNode p = true ∧ truthy_string (cn_hostname p) = true)
       ∨ mismatch_of (shard_hostnames (default [] shards)) n = Some f).
Proof.
  unfold detectHostnameStaleness. set (known := js_filter isLiveNode nodes).
  assert (Hknown : ∀ n, n ∈ known ↔ n ∈ nodes ∧ isLiveNode n = true).
  { intros n. unfold known. rewrite js_filter_elem. tauto. }
  destruct (Z.eqb_spec (js_len known) 0) as [Hnone|_].
  { split; [by intros ?%not_elem_of_nil|]. intros (n & Hn & Hl & _).
    assert (Hin : n ∈ known) by by apply Hknown. destruct known; [|done]. by apply not_elem_of_nil in Hin. }
  assert (Hshards : match shards with
                    | Some ((_ :: _) as shards) => omap (mismatch_of (shard_hostnames shards)) known
                    | _ => []
                    end = omap (mismatch_of (shard_hostnames (default [] shards))) known).
  { assert (Hnil : omap (mismatch_of (shard_hostnames [])) known = []).
    { clear. induction known as [|n known IH]; [done|]. csimpl.
      unfold mismatch_of at 1. simpl. destruct (cn_hostname n) as [[]|]; exact IH. }
    destruct shards as [[|? ?]|]; [exact (eq_sym Hnil)|reflexivity|exact (eq_sym Hnil)]. }
  rewrite Hshards, elem_of_app, list_elem_of_omap. clear Hshards.
  assert (Hmiss : f ∈ (if js_some (λ n, truthy_string (cn_hostname n)) known
      then missing_of <$> js_filter (λ n, negb (truthy_string (cn_hostname n))) known else []) ↔
    ∃ n, n ∈ known ∧ truthy_string (cn_hostname n) = false ∧ f = missing_of n
      ∧ ∃ p, p ∈ known ∧ truthy_string (cn_hostname p) = true).
  { destruct (js_some _ known) eqn:Hany.
    - pose proof (proj1 (js_some_true _ _) Hany) as Hp. rewrite list_elem_of_fmap. split.
      + intros (n & -> & [Hh%negb_true_iff Hn]%js_filter_elem). by exists n.
      + intros (n & Hn & Hh & -> & _). exists n. split; [done|]. apply js_filter_elem. by rewrite Hh.
    - split; [by intros ?%not_elem_of_nil|]. intros (_ & _ & _ & _ & Hp).
      apply (js_some_true (λ n, truthy_string (cn_hostname n))) in Hp. congruence. }
  rewrite Hmiss. setoid_rewrite Hknown. split.
  - intros [(n & [Hn Hl] & Hh & Hf & p & [Hp Hpl] & Hph)|(n & [Hn Hl] & Hf)]; exists n; naive_solver.
  - intros (n & Hn & Hl & [(Hh & Hf & p & Hp & Hpl & Hph)|Hf]); [left|right]; exists n; naive_solver.
Qed.

(** ** Orphaned keys *)

(** The count of orphaned keys errs on the quiet side.  Let the node own some keys when
    each of the two DBSIZE reads and the slot statistics in between are taken, and hold
    leaked keys in slots it does not own; if the owned keys only grow or only shrink over the
    three reads then a finding never counts more keys than have leaked, so none is made
    without a leak of at least the floor; and on a steady primary outside a reshard a leak at
    or above the floor is found with its exact count. *)
Theorem orphan_count_conservative input before during after leaked :
  oi_dbsize input = Some (Z.min (before + leaked) (after + leaked)) →
  reported_keys (oi_slotStats input) = during →
  before ≤ during ≤ after ∨ after ≤ during ≤ before →
  (∀ f, detectOrphanedSlotKeys input = Some f →
     of_totalOrphanedKeys f ≤ leaked ∧ ORPHANED_DBSIZE_DELTA_MIN_KEYS ≤ leaked)
  ∧ (oi_clusterEnabled input = true → oi_isClusterPrimary input = true →
     oi_importingSlots input = [] → before = after → ORPHANED_DBSIZE_DELTA_MIN_KEYS ≤ leaked →
     detectOrphanedSlotKeys input = Some {| of_totalOrphanedKeys := leaked |}).
Proof.
  intros Hdb Hrep Hmono. unfold detectOrphanedSlotKeys. rewrite Hdb, Hrep. split.
  - intros f. destruct (negb _ || negb _); [done|]. destruct (0 <? _); [done|].
    destruct (Z.ltb_spec (Z.min (before + leaked) (after + leaked) - during) ORPHANED_DBSIZE_DELTA_MIN_KEYS);
      [done|]. intros [= <-]. simpl. lia.
  - intros -> -> -> -> Hl. simpl.
    destruct (Z.ltb_spec (Z.min (after + leaked) (after + leaked) - during) ORPHANED_DBSIZE_DELTA_MIN_KEYS); [lia|].
    do 2 f_equal. lia.
Qed.

Definition orphan_sample : OrphanedSlotKeysInput :=
  {| oi_clusterEnabled := true; oi_isClusterPrimary := true; oi_importingSlots := [];
     oi_slotStats := [("12", {| ssm_key_count := 40; ssm_expires_count := 0; ssm_total_reads := 0;
                                ssm_total_writes := 0 |});
                      ("13", {| ssm_key_count := 20; ssm_expires_count := 0; ssm_total_reads := 0;
                                ssm_total_writes := 0 |})];
     oi_dbsize := Some 210 |}.
Lemma orphan_count_conservative_witness :
  detectOrphanedSlotKeys orphan_sample = Some {| of_totalOrphanedKeys := 150 |}.
Proof.
  apply (orphan_count_conservative orphan_sample 60 60 60 150);
    first [reflexivity | left; split; reflexivity | vm_compute; discriminate].
Defined.
