(* ===== verification/GhostMembership.v ===== *)
(** * Ghost members of a cluster

    [ghost-membership-detector.ts]: endpoints of one CLUSTER NODES view whose node ids do not
    resolve to one healthy identity; [ghost-membership-history.ts]: ids that leave the
    membership set and come back.  [localeCompare] is a parameter. *)
From S2P Require Export NodeViews.
From stdpp Require Import options.

(** ** Definitions *)
Inductive GhostReason := stale_twin | live_endpoint_collision | loopback_flip.
#[global] Instance GhostReason_eq : EqDecision GhostReason.
Proof. solve_decision. Defined.
Definition ghost_reason (r : GhostReason) : string :=
  match r with
  | stale_twin => "stale_twin"
  | live_endpoint_collision => "live_endpoint_collision"
  | loopback_flip => "loopback_flip"
  end.
Record GhostMember := {
  gm_reason : GhostReason;
  gm_endpoint : string;
  gm_ghostIds : list string;
  gm_liveId : string;
  gm_liveFlags : list string;
  gm_collidingIds : list string;
  gm_selfReplicatingIds : list string;
  gm_stableIds : list string
}.

Definition GHOST_FLAGS : list string := ["fail"; "fail?"; "noaddr"].
Definition isGhost (node : ClusterNode) : bool := js_some (has_flag node) GHOST_FLAGS.
Definition countsForCensus (node : ClusterNode) : bool :=
  if has_flag node "handshake" then false
  else negb (has_flag node "fail") && negb (has_flag node "noaddr").
Definition isEstablished (node : ClusterNode) : bool :=
  if isGhost node then false else negb (has_flag node "handshake").

(** The parts before and after the last [c], [None] when there is none *)
Fixpoint rsplit (c : ascii) (s : string) : option (string * string) :=
  match s with
  | EmptyString => None
  | String a s' =>
      match rsplit c s' with
      | Some (p, q) => Some (String a p, q)
      | None => if ascii_dec a c then Some (EmptyString, s') else None
      end
  end.
Definition before_last (c : ascii) (s : string) : string :=
  match rsplit c s with Some (p, _) => p | None => s end.

Definition canonicalEndpoint (address : string) : string :=
  let hostPort := default EmptyString (head (split_char "@" address)) in
  if is_empty (before_last ":" hostPort) then EmptyString else hostPort.
Definition endpointHost (endpoint : string) : string :=
  strip_close (strip_open (before_last ":" endpoint)).
Definition isLoopbackHost (host : string) : bool :=
  let normalized := to_lower host in
  if str_eqb normalized "localhost" || str_eqb normalized "::1" then true
  else starts_with "127." normalized.

Definition sortedDistinctIds (nodes : list ClusterNode) : list string :=
  sort_strings (js_set (cn_id <$> nodes)).

Section detector.
Context (localeCompare : string → string → Z).

(** Of a list that is not empty *)
Definition preferredOccupant (live : list ClusterNode) : option ClusterNode :=
  let sorted := js_sort (λ a b, localeCompare (cn_id a) (cn_id b)) live in
  match js_find isEstablished sorted with
  | Some n => Some n
  | None => head sorted
  end.

Definition by_endpoint (nodes : list ClusterNode) : list (string * list ClusterNode) :=
  js_group (λ n, canonicalEndpoint (cn_address n))
    (js_filter (λ n, negb (is_empty (canonicalEndpoint (cn_address n)))) nodes).

Definition self_replicating (nodes : list ClusterNode) : list string :=
  cn_id <$> js_filter (λ n, negb (is_empty (cn_master n)) && negb (str_eqb (cn_master n) "-")
                            && str_eqb (cn_master n) (cn_id n)) nodes.

Definition censusEndpoints (nodes : list ClusterNode) : list (string * bool) :=
  foldl (λ m n,
           if negb (countsForCensus n) then m
           else let nodeEndpoint := canonicalEndpoint (cn_address n) in
                if is_empty nodeEndpoint then m
                else jm_set nodeEndpoint (isLoopbackHost (endpointHost nodeEndpoint)) m) [] nodes.
Definition loopbackIsOddOneOut (nodes : list ClusterNode) : bool :=
  let census := jm_values (censusEndpoints nodes) in
  let loopbackEndpoints := js_len (js_filter id census) in
  let routableEndpoints := js_len (js_filter negb census) in
  (0 <? routableEndpoints) && (loopbackEndpoints <? routableEndpoints).

Definition selfReplicatingAmong (selfReplicating ids : list string) : list string :=
  sort_strings (js_filter (λ i, js_includes i selfReplicating) ids).

(** The fault of the live ids of one endpoint *)
Definition live_fault (odd : bool) (selfReplicating : list string) (endpoint : string)
    (group : list ClusterNode) : list GhostMember :=
  let live := js_filter (λ n, negb (isGhost n)) group in
  let established := js_filter isEstablished group in
  if odd && isLoopbackHost (endpointHost endpoint) && (0 <? js_len live) then
    match preferredOccupant live with
    | None => []
    | Some occupant =>
        let collidingIds := sortedDistinctIds live in
        let establishedIds := sortedDistinctIds established in
        [{| gm_reason := loopback_flip; gm_endpoint := endpoint; gm_ghostIds := [];
            gm_liveId := cn_id occupant; gm_liveFlags := cn_flags occupant;
            gm_collidingIds := collidingIds;
            gm_stableIds := if 0 <? js_len establishedIds then establishedIds else [cn_id occupant];
            gm_selfReplicatingIds := selfReplicatingAmong selfReplicating collidingIds |}]
    end
  else if 2 <=? js_len (sortedDistinctIds established) then
    match preferredOccupant established with
    | None => []
    | Some occupant =>
        let collidingIds := sortedDistinctIds established in
        [{| gm_reason := live_endpoint_collision; gm_endpoint := endpoint; gm_ghostIds := [];
            gm_liveId := cn_id occupant; gm_liveFlags := cn_flags occupant;
            gm_collidingIds := collidingIds; gm_stableIds := collidingIds;
            gm_selfReplicatingIds := selfReplicatingAmong selfReplicating collidingIds |}]
    end
  else [].

(** The stale ids of one endpoint *)
Definition stale_fault (selfReplicating : list string) (endpoint : string)
    (group : list ClusterNode) : list GhostMember :=
  let ghosts := js_filter isGhost group in
  let live := js_filter (λ n, negb (isGhost n)) group in
  if (js_len ghosts =? 0) || (js_len live =? 0) then []
  else
    match preferredOccupant live with
    | None => []
    | Some occupant =>
        let ghostIds := js_filter (λ i, negb (str_eqb i (cn_id occupant))) (sortedDistinctIds ghosts) in
        if js_len ghostIds =? 0 then []
        else [{| gm_reason := stale_twin; gm_endpoint := endpoint; gm_ghostIds := ghostIds;
                 gm_liveId := cn_id occupant; gm_liveFlags := cn_flags occupant;
                 gm_collidingIds := []; gm_stableIds := sort_strings (cn_id occupant :: ghostIds);
                 gm_selfReplicatingIds :=
                   selfReplicatingAmong selfReplicating (cn_id occupant :: ghostIds) |}]
    end.

Definition endpoint_faults (odd : bool) (selfReplicating : list string)
    (g : string * list ClusterNode) : list GhostMember :=
  live_fault odd selfReplicating g.1 g.2 ++ stale_fault selfReplicating g.1 g.2.
Definition detectGhostMembers (nodes : list ClusterNode) : list GhostMember :=
  mjoin (endpoint_faults (loopbackIsOddOneOut nodes) (self_replicating nodes) <$> by_endpoint nodes).
End detector.

Definition ghostMemberSignature (g : GhostMember) : string :=
  let selfReplicating := if 0 <? js_len (gm_selfReplicatingIds g) then "selfrep" else "norep" in
  ghost_reason (gm_reason g) +:+ "|" +:+ gm_endpoint g +:+ "|"
  +:+ join "," (sort_strings (gm_stableIds g)) +:+ "|" +:+ selfReplicating.

(** *** Rejoining after a FORGET *)
Record ForgetRejoin := {
  fr_nodeId : string;
  fr_endpoint : string;
  fr_flags : list string;
  fr_departedAt : Z;
  fr_returnedAt : Z;
  fr_absentPolls : Z
}.
Record DepartedEntry := { de_departedAt : Z; de_absentPolls : Z }.

Definition MIN_ABSENT_POLLS : Z := 2.
Definition MIN_ABSENT_MS : Z := 60000.
Definition DEPARTED_RETENTION_MS : Z := 6 * 60 * 60 * 1000.
Definition MAX_DEPARTED_ENTRIES : Z := 512.
Definition DEAD_FLAGS : list string := ["fail"; "fail?"; "noaddr"].
Definition isLive (node : ClusterNode) : bool := negb (js_some (has_flag node) DEAD_FLAGS).

Record GhostMembershipHistory := {
  gh_present : list string;
  gh_departed : list (string * DepartedEntry)
}.
Definition new_history : GhostMembershipHistory := {| gh_present := []; gh_departed := [] |}.

Definition set_add (x : string) (l : list string) : list string :=
  if js_includes x l then l else l ++ [x].

(** The ids still missing are one poll older. *)
Definition age (seen : list string) (kv : string * DepartedEntry) : string * DepartedEntry :=
  if js_includes kv.1 seen then kv
  else (kv.1, {| de_departedAt := de_departedAt kv.2; de_absentPolls := de_absentPolls kv.2 + 1 |}).

Definition arrive (timestamp : Z) (acc : list ForgetRejoin * GhostMembershipHistory)
    (node : ClusterNode) : list ForgetRejoin * GhostMembershipHistory :=
  let '(findings, h) := acc in
  match jm_get (cn_id node) (gh_departed h) with
  | None => (findings, {| gh_present := set_add (cn_id node) (gh_present h);
                          gh_departed := gh_departed h |})
  | Some entry =>
      if negb (isLive node) then (findings, h)
      else
        let h' := {| gh_present := set_add (cn_id node) (gh_present h);
                     gh_departed := jm_delete (cn_id node) (gh_departed h) |} in
        if de_absentPolls entry <? MIN_ABSENT_POLLS then (findings, h')
        else if timestamp - de_departedAt entry <? MIN_ABSENT_MS then (findings, h')
        else (findings ++ [{| fr_nodeId := cn_id node;
                              fr_endpoint := canonicalEndpoint (cn_address node);
                              fr_flags := cn_flags node;
                              fr_departedAt := de_departedAt entry; fr_returnedAt := timestamp;
                              fr_absentPolls := de_absentPolls entry |}], h')
  end.

Definition evictStaleDepartures (timestamp : Z) (departed : list (string * DepartedEntry))
    : list (string * DepartedEntry) :=
  let kept := js_filter (λ kv, timestamp - de_departedAt kv.2 <=? DEPARTED_RETENTION_MS) departed in
  if js_len kept <=? MAX_DEPARTED_ENTRIES then kept
  else
    let oldestFirst := js_sort (by_asc (λ kv : string * DepartedEntry, de_departedAt kv.2)) kept in
    let excess := js_len kept - MAX_DEPARTED_ENTRIES in
    jm_deletes (js_slice 0 excess oldestFirst).*1 kept.

Definition observe (nodes : list ClusterNode) (timestamp : Z) (h : GhostMembershipHistory)
    : list ForgetRejoin * GhostMembershipHistory :=
  let seenThisPoll := js_set (cn_id <$> nodes) in
  let h1 := {| gh_present := gh_present h; gh_departed := age seenThisPoll <$> gh_departed h |} in
  let '(findings, h2) := foldl (arrive timestamp) ([], h1) nodes in
  let departing := js_filter (λ i, negb (js_includes i seenThisPoll)) (gh_present h2) in
  let viewReset := (2 <=? js_len departing) && (js_len seenThisPoll <=? 1) in
  let present := js_filter (λ i, negb (js_includes i departing)) (gh_present h2) in
  let departed :=
    if viewReset then []
    else foldl (λ m i, jm_set i {| de_departedAt := timestamp; de_absentPolls := 1 |} m)
           (gh_departed h2) departing in
  (findings, {| gh_present := present; gh_departed := evictStaleDepartures timestamp departed |}).

Definition departedCount (h : GhostMembershipHistory) : Z := js_len (gh_departed h).

(** ** The signature does not depend on the order of the view *)

(** What the detector relies on of [localeCompare]: on the ids of a view it is a total order. *)
Record collation (localeCompare : string → string → Z) (ids : list string) : Prop := {
  lc_total : ∀ s t, 0 < localeCompare s t → localeCompare t s ≤ 0;
  lc_trans : ∀ s t u, localeCompare s t ≤ 0 → localeCompare t u ≤ 0 → localeCompare s u ≤ 0;
  lc_antisym : ∀ s t, s ∈ ids → t ∈ ids → localeCompare s t ≤ 0 → localeCompare t s ≤ 0 → s = t
}.

Lemma js_set_perm {A} `{EqDecision A} (l k : list A) : l ≡ₚ k → js_set l ≡ₚ js_set k.
Proof.
  intros Hp. apply NoDup_Permutation; [apply js_set_NoDup..|].
  intros x. rewrite !js_set_elem. by rewrite Hp.
Qed.

Lemma units_distinct_sub l k : (∀ x, x ∈ k → x ∈ l) → units_distinct l → units_distinct k.
Proof. intros Hsub Hd s t Hs Ht. apply Hd; by apply Hsub. Qed.

Lemma js_sort_nil {A} (cmp : A → A → Z) l : js_sort cmp l = [] → l = [].
Proof. intros H. apply Permutation_nil_r. by rewrite <-H, js_sort_perm. Qed.

Section order_free.
Context (lc : string → string → Z) (all : list string).
Hypothesis Hlc : collation lc all.
Hypothesis Hunits : units_distinct all.
Implicit Types (l k : list ClusterNode).
Let ids_in l : Prop := ∀ n, n ∈ l → cn_id n ∈ all.

Lemma find_sorted_min {A} (R : A → A → Prop) (p : A → bool) (l : list A) x :
  StronglySorted R l → js_find p l = Some x → ∀ y, y ∈ l → p y = true → x = y ∨ R x y.
Proof using Type.
  induction 1 as [|z l Hs IH Hz]; [done|]. simpl. destruct (p z) eqn:Hpz.
  - intros [= ->] y Hy _. apply elem_of_cons in Hy as [->|Hy]; [by left|right].
    rewrite Forall_forall in Hz. by apply Hz.
  - intros Hf y Hy Hpy. apply elem_of_cons in Hy as [->|Hy]; [congruence|by apply IH].
Qed.

(** The occupant is the least id among the established nodes, or among all of them. *)
Lemma occupant_least l o :
  preferredOccupant lc l = Some o →
  o ∈ l ∧ isEstablished o = js_some isEstablished l
  ∧ ∀ n, n ∈ l → isEstablished n = js_some isEstablished l ∨ js_some isEstablished l = false →
      cn_id o = cn_id n ∨ lc (cn_id o) (cn_id n) ≤ 0.
Proof using Hlc.
  unfold preferredOccupant. set (sorted := js_sort _ l).
  assert (Hs : StronglySorted (λ a b, lc (cn_id a) (cn_id b) ≤ 0) sorted).
  { apply js_sort_sorted; intros *; [apply (lc_total _ _ Hlc)|apply (lc_trans _ _ Hlc)]. }
  assert (Hin : ∀ n, n ∈ sorted ↔ n ∈ l) by (intros n; apply js_sort_elem).
  destruct (js_find isEstablished sorted) as [o'|] eqn:Hf.
  - intros [= ->]. pose proof (js_find_Some _ _ _ Hf) as [He Ho].
    assert (Hany : js_some isEstablished l = true) by (apply js_some_true; exists o; by rewrite <-Hin).
    rewrite Hany. split_and!; [by apply Hin|done|]. intros n Hn [Hen|]; [|done].
    apply Hin in Hn. destruct (find_sorted_min _ _ _ _ Hs Hf n Hn Hen) as [->|]; [by left|by right].
  - intros Ho. assert (Hany : js_some isEstablished l = false).
    { destruct (js_some isEstablished l) eqn:H; [|done]. apply js_some_true in H as (n & Hn & He).
      rewrite js_find_None in Hf. apply Hin, Hf in Hn. congruence. }
    rewrite Hany. destruct sorted as [|z sorted]; [done|]. injection Ho as ->. split_and!.
    + apply Hin. by left.
    + rewrite js_find_None in Hf. apply Hf. by left.
    + intros n Hn _. apply Hin, elem_of_cons in Hn as [->|Hn]; [by left|right].
      inversion Hs as [|? ? ? Hz]; subst. rewrite Forall_forall in Hz. by apply Hz.
Qed.

Lemma js_some_perm {A} (p : A → bool) (l k : list A) : l ≡ₚ k → js_some p l = js_some p k.
Proof using Type.
  intros Hp. apply eq_true_iff_eq. rewrite !js_some_true. by setoid_rewrite Hp.
Qed.

Lemma occupant_perm l k :
  l ≡ₚ k → ids_in l → cn_id <$> preferredOccupant lc l = cn_id <$> preferredOccupant lc k.
Proof using Hlc.
  intros Hp Hall.
  assert (Hsome : ∀ l, l ≠ [] → is_Some (preferredOccupant lc l)).
  { intros m Hm. unfold preferredOccupant. destruct (js_find _ _); [by eexists|].
    destruct (js_sort _ m) eqn:Hs; [by apply js_sort_nil in Hs|by eexists]. }
  destruct l as [|n l].
  { apply Permutation_nil_l in Hp as <-. done. }
  destruct (Hsome (n :: l)) as [o Ho]; [done|].
  destruct (Hsome k) as [o' Ho']; [intros ->; by apply Permutation_nil_r in Hp|].
  rewrite Ho, Ho'. simpl. f_equal.
  apply occupant_least in Ho as (Ho & He & Hleast), Ho' as (Ho' & He' & Hleast').
  rewrite <-Hp in Ho'. rewrite <-(js_some_perm _ _ _ Hp) in He', Hleast'.
  destruct (Hleast o' Ho') as [|H1]; [by left|done|].
  rewrite Hp in Ho. destruct (Hleast' o Ho) as [|H2]; [by left|done|]. rewrite <-Hp in Ho.
  by apply (lc_antisym _ _ Hlc); [apply Hall|apply Hall| |].
Qed.

Lemma sortedDistinctIds_perm l k :
  l ≡ₚ k → ids_in l → sortedDistinctIds l = sortedDistinctIds k.
Proof using Hunits.
  intros Hp Hall. apply sort_strings_perm; [|apply js_set_perm; by rewrite Hp].
  apply (units_distinct_sub all); [|done]. intros x Hx.
  apply (proj1 (js_set_elem _ _)) in Hx.
  apply list_elem_of_fmap in Hx as (n & -> & Hn). by apply Hall.
Qed.

Lemma js_includes_perm (i : string) (s t : list string) : s ≡ₚ t → js_includes i s = js_includes i t.
Proof using Type. intros Hp. unfold js_includes. apply bool_decide_ext. by rewrite Hp. Qed.

Lemma js_filter_ext {A} (p q : A → bool) (l : list A) :
  (∀ x, x ∈ l → p x = q x) → js_filter p l = js_filter q l.
Proof using Type.
  induction l as [|x l IH]; intros Hpq; [done|]. simpl. rewrite (Hpq x) by by left.
  rewrite IH; [done|]. intros y Hy. apply Hpq. by right.
Qed.

Lemma js_len_perm {A} (l k : list A) : l ≡ₚ k → js_len l = js_len k.
Proof using Type. unfold js_len. by intros ->. Qed.

Lemma among_perm s t ids : s ≡ₚ t → selfReplicatingAmong s ids = selfReplicatingAmong t ids.
Proof using Type.
  intros Hp. unfold selfReplicatingAmong. f_equal. apply js_filter_ext. intros x _.
  by apply js_includes_perm.
Qed.

Lemma ids_in_filter p l : ids_in l → ids_in (js_filter p l).
Proof using Type. intros Hl n [_ Hn]%js_filter_elem. by apply Hl. Qed.

#[local] Opaque selfReplicatingAmong sort_strings.
Lemma live_fault_perm odd s t e l k :
  s ≡ₚ t → l ≡ₚ k → ids_in l →
  ghostMemberSignature <$> live_fault lc odd s e l = ghostMemberSignature <$> live_fault lc odd t e k.
Proof using Hlc Hunits.
  intros Hst Hp Hall. unfold live_fault.
  pose proof (js_filter_perm (λ n, negb (isGhost n)) _ _ Hp) as Hlive.
  pose proof (js_filter_perm isEstablished _ _ Hp) as Hest.
  rewrite (js_len_perm _ _ Hlive).
  rewrite <-!(sortedDistinctIds_perm _ _ Hlive), <-!(sortedDistinctIds_perm _ _ Hest)
    by by apply ids_in_filter.
  pose proof (occupant_perm _ _ Hlive (ids_in_filter _ _ Hall)) as Hol.
  pose proof (occupant_perm _ _ Hest (ids_in_filter _ _ Hall)) as Hoe.
  destruct (odd && _ && _); [|destruct (2 <=? _); [|done]].
  - destruct (preferredOccupant lc (js_filter _ l)), (preferredOccupant lc (js_filter _ k)); try done.
    injection Hol as Hol. csimpl. unfold ghostMemberSignature. cbn.
    by rewrite Hol, (among_perm s t _ Hst).
  - destruct (preferredOccupant lc (js_filter isEstablished l)),
      (preferredOccupant lc (js_filter isEstablished k)); try done.
    csimpl. unfold ghostMemberSignature. cbn. by rewrite (among_perm s t _ Hst).
Qed.

Lemma stale_fault_perm s t e l k :
  s ≡ₚ t → l ≡ₚ k → ids_in l →
  ghostMemberSignature <$> stale_fault lc s e l = ghostMemberSignature <$> stale_fault lc t e k.
Proof using Hlc Hunits.
  intros Hst Hp Hall. unfold stale_fault.
  pose proof (js_filter_perm isGhost _ _ Hp) as Hgh.
  pose proof (js_filter_perm (λ n, negb (isGhost n)) _ _ Hp) as Hlive.
  rewrite (js_len_perm _ _ Hlive), (js_len_perm _ _ Hgh).
  rewrite <-!(sortedDistinctIds_perm _ _ Hgh) by by apply ids_in_filter.
  pose proof (occupant_perm _ _ Hlive (ids_in_filter _ _ Hall)) as Hol.
  destruct (_ || _); [done|].
  destruct (preferredOccupant lc (js_filter _ l)) as [o|], (preferredOccupant lc (js_filter _ k)) as [o'|];
    try done.
  injection Hol as Hol. rewrite <-Hol. destruct (js_len _ =? 0); [done|].
  csimpl. unfold ghostMemberSignature. cbn. by rewrite (among_perm s t _ Hst).
Qed.

End order_free.

(** The census of endpoints *)
Lemma census_spec l :
  jm_wf (censusEndpoints l)
  ∧ (∀ e b, (e, b) ∈ censusEndpoints l → b = isLoopbackHost (endpointHost e))
  ∧ ∀ e, e ∈ (censusEndpoints l).*1 ↔
         e ≠ EmptyString ∧ ∃ n, n ∈ l ∧ countsForCensus n = true ∧ canonicalEndpoint (cn_address n) = e.
Proof.
  induction l as [|n l (IHwf & IHv & IHk)] using rev_ind.
  { split_and!; [apply jm_wf_nil|by intros ? ? ?%not_elem_of_nil|].
    intros e. split; [by intros ?%not_elem_of_nil|]. by intros (_ & n & ?%not_elem_of_nil & _). }
  unfold censusEndpoints in *. rewrite foldl_app. cbn [foldl].
  set (m := foldl _ [] l) in *.
  assert (Hsnoc : ∀ e P, (e ≠ EmptyString ∧ ∃ x, x ∈ l ++ [n] ∧ P x ∧ canonicalEndpoint (cn_address x) = e) ↔
    (e ≠ EmptyString ∧ ∃ x, x ∈ l ∧ P x ∧ canonicalEndpoint (cn_address x) = e)
    ∨ (e ≠ EmptyString ∧ P n ∧ canonicalEndpoint (cn_address n) = e)).
  { intros e P. setoid_rewrite elem_of_app. setoid_rewrite list_elem_of_singleton. naive_solver. }
  setoid_rewrite Hsnoc. setoid_rewrite <-IHk. clear IHk.
  destruct (countsForCensus n) eqn:Hc; cbn [negb]; [|split; [done|split; [done|]]; naive_solver].
  destruct (is_empty (canonicalEndpoint (cn_address n))) eqn:He; [split; [done|split; [done|]]|].
  { intros e. split; [by left|]. intros [?|(Hne & _ & <-)]; [done|]. by destruct (canonicalEndpoint _). }
  apply filled_string in He. split; [by apply jm_wf_set|split].
  - intros e b [[-> ->]|?]%jm_set_elem; [done|by apply IHv].
  - intros e. destruct (decide (canonicalEndpoint (cn_address n) ∈ m.*1)) as [Hin|Hnin].
    + rewrite jm_set_keys_old by done. naive_solver.
    + rewrite jm_set_keys_new by done. rewrite elem_of_app, list_elem_of_singleton. naive_solver.
Qed.

Lemma keyed_map {K V} (f : K → V) (m : list (K * V)) :
  (∀ k v, (k, v) ∈ m → v = f k) → m = (λ k, (k, f k)) <$> m.*1.
Proof.
  induction m as [|[k v] m IH]; intros Hf; [done|]. csimpl. rewrite <-(Hf k v) by by left.
  f_equal. apply IH. intros k' v' Hin. apply Hf. by right.
Qed.

Lemma loopback_perm l k : l ≡ₚ k → loopbackIsOddOneOut l = loopbackIsOddOneOut k.
Proof.
  intros Hp. unfold loopbackIsOddOneOut.
  assert (Hv : jm_values (censusEndpoints l) ≡ₚ jm_values (censusEndpoints k)).
  { destruct (census_spec l) as (Hwl & Hvl & Hkl), (census_spec k) as (Hwk & Hvk & Hkk).
    apply fmap_Permutation. rewrite (keyed_map _ _ Hvl), (keyed_map _ _ Hvk).
    apply fmap_Permutation, NoDup_Permutation; [done|done|].
    intros e. rewrite Hkl, Hkk. by setoid_rewrite Hp. }
  by rewrite !(js_len_perm _ _ (js_filter_perm _ _ _ Hv)).
Qed.

Definition endpoint_group (nodes : list ClusterNode) (e : string) : list ClusterNode :=
  js_filter (λ n, bool_decide (canonicalEndpoint (cn_address n) = e)) nodes.

Lemma by_endpoint_keys l :
  by_endpoint l = (λ e, (e, endpoint_group l e)) <$> (by_endpoint l).*1.
Proof.
  apply keyed_map. intros e g (_ & -> & _)%keyed_groups. done.
Qed.

Lemma by_endpoint_elem l e :
  e ∈ (by_endpoint l).*1 ↔ e ≠ EmptyString ∧ endpoint_group l e ≠ [].
Proof.
  rewrite list_elem_of_fmap. split.
  - intros ([e' g] & -> & (Hne & -> & Hg)%keyed_groups). done.
  - intros [Hne Hg]. exists (e, endpoint_group l e). split; [done|]. by apply keyed_groups.
Qed.

Lemma by_endpoint_keys_perm l k : l ≡ₚ k → (by_endpoint l).*1 ≡ₚ (by_endpoint k).*1.
Proof.
  intros Hp. apply NoDup_Permutation; [apply js_group_wf..|].
  intros e. rewrite !by_endpoint_elem.
  pose proof (js_filter_perm (λ n, bool_decide (canonicalEndpoint (cn_address n) = e)) _ _ Hp) as Hg.
  fold (endpoint_group l e) (endpoint_group k e) in Hg.
  split; intros [Hne H]; (split; [done|]); intros Heq; rewrite Heq in Hg; apply H.
  - by apply Permutation_nil_r.
  - symmetry. by apply Permutation_nil_l.
Qed.

Lemma fmap_mjoin {A B} (f : A → B) (ls : list (list A)) : f <$> mjoin ls = mjoin (fmap f <$> ls).
Proof. induction ls as [|l ls IH]; csimpl; [done|]. by rewrite fmap_app, IH. Qed.

Lemma faults_by_endpoint lc nodes :
  ghostMemberSignature <$> detectGhostMembers lc nodes
  = mjoin ((λ e, ghostMemberSignature <$> endpoint_faults lc (loopbackIsOddOneOut nodes)
              (self_replicating nodes) (e, endpoint_group nodes e)) <$> (by_endpoint nodes).*1).
Proof.
  unfold detectGhostMembers. rewrite fmap_mjoin. f_equal.
  rewrite (by_endpoint_keys nodes) at 1. induction (by_endpoint nodes).*1 as [|e es IH]; [done|].
  csimpl. by rewrite IH.
Qed.

(** The alerts of the ghost detector do not depend on the order of the lines of CLUSTER
    NODES, which differs from poll to poll: two views with the same lines give the same
    findings up to order, with the same signatures, so neither the deduplication nor the
    grace window of a finding restarts. *)
Theorem ghost_signatures_order_free lc nodes nodes' :
  collation lc (cn_id <$> nodes) → units_distinct (cn_id <$> nodes) → nodes ≡ₚ nodes' →
  ghostMemberSignature <$> detectGhostMembers lc nodes
  ≡ₚ ghostMemberSignature <$> detectGhostMembers lc nodes'.
Proof.
  intros Hlc Hunits Hp. rewrite !faults_by_endpoint.
  rewrite <-(loopback_perm _ _ Hp).
  assert (Hself : self_replicating nodes ≡ₚ self_replicating nodes').
  { unfold self_replicating. by apply fmap_Permutation, js_filter_perm. }
  transitivity (mjoin ((λ e, ghostMemberSignature <$>
    endpoint_faults lc (loopbackIsOddOneOut nodes) (self_replicating nodes') (e, endpoint_group nodes' e))
    <$> (by_endpoint nodes).*1)).
  - match goal with |- ?a ≡ₚ ?b => assert (a = b) as ->; [|done] end.
    f_equal. apply list_fmap_ext. intros _ e _. simpl.
    pose proof (js_filter_perm (λ n, bool_decide (canonicalEndpoint (cn_address n) = e)) _ _ Hp) as Hg.
    fold (endpoint_group nodes e) (endpoint_group nodes' e) in Hg.
    assert (Hall : ∀ n, n ∈ endpoint_group nodes e → cn_id n ∈ cn_id <$> nodes).
    { intros n [_ Hn]%js_filter_elem. by apply list_elem_of_fmap_2. }
    unfold endpoint_faults. cbn [fst snd]. rewrite !fmap_app.
    by rewrite (live_fault_perm lc _ Hlc Hunits _ _ _ _ _ _ Hself Hg Hall),
      (stale_fault_perm lc _ Hlc Hunits _ _ _ _ _ Hself Hg Hall).
  - apply join_Permutation, fmap_Permutation. by apply by_endpoint_keys_perm.
Qed.


(** ** A reported rejoin is a real one

    The accounting a departed entry stands for, over the polls [ps] made so far (each with
    its time and node list): the id was listed at one poll and missing from the next, which
    dates the departure; since then it was never listed as a live node; and the count is
    that of the polls that did not list it at all. *)
Definition poll : Type := Z * list ClusterNode.
Definition listed (i : string) (p : poll) : bool := js_includes i (cn_id <$> p.2).
Definition listed_live (i : string) (p : poll) : Prop :=
  ∃ n, n ∈ p.2 ∧ cn_id n = i ∧ isLive n = true.

Definition departure (ps : list poll) (i : string) (at_ polls : Z) : Prop :=
  ∃ before prev gone since,
    ps = before ++ [prev; gone] ++ since
    ∧ listed i prev = true ∧ gone.1 = at_ ∧ listed i gone = false
    ∧ (∀ p, p ∈ since → ¬ listed_live i p)
    ∧ polls = 1 + js_len (js_filter (λ p, negb (listed i p)) since).

(** The polls folded into a history, with the findings of the last one *)
Definition run_history (ps : list poll) : list ForgetRejoin * GhostMembershipHistory :=
  foldl (λ acc p, observe p.2 p.1 acc.2) ([], new_history) ps.

Definition history_accounts (ps : list poll) (h : GhostMembershipHistory) : Prop :=
  (∀ i e, (i, e) ∈ gh_departed h → departure ps i (de_departedAt e) (de_absentPolls e))
  ∧ ∀ i, i ∈ gh_present h → ∃ before p, ps = before ++ [p] ∧ listed i p = true.

Lemma seen_listed (p : poll) i : js_includes i (js_set (cn_id <$> p.2)) = listed i p.
Proof. unfold listed, js_includes. apply bool_decide_ext. apply js_set_elem. Qed.

Lemma departure_snoc ps p i d n :
  departure ps i d n → ¬ listed_live i p →
  departure (ps ++ [p]) i d (if listed i p then n else n + 1).
Proof.
  intros (before & prev & gone & since & -> & Hprev & Hd & Hgone & Hsince & ->) Hp.
  exists before, prev, gone, (since ++ [p]). split_and!; [by rewrite <-!app_assoc|done..| |].
  - intros q [?| ->%list_elem_of_singleton]%elem_of_app; [by apply Hsince|done].
  - rewrite js_filter_app. unfold js_len. rewrite length_app. simpl.
    destruct (listed i p); simpl; lia.
Qed.

Lemma set_add_elem x y l : x ∈ set_add y l ↔ x ∈ l ∨ x = y.
Proof.
  unfold set_add. destruct (js_includes y l) eqn:H.
  - apply js_includes_true in H. naive_solver.
  - by rewrite elem_of_app, list_elem_of_singleton.
Qed.

(** A finding: the departed entry it closes and the live line that closes it *)
Definition rejoin_of (p : poll) (h : GhostMembershipHistory) (nodes : list ClusterNode)
    (f : ForgetRejoin) : Prop :=
  ∃ e n, (fr_nodeId f, e) ∈ gh_departed h ∧ n ∈ nodes ∧ isLive n = true
    ∧ MIN_ABSENT_POLLS ≤ de_absentPolls e ∧ MIN_ABSENT_MS ≤ p.1 - de_departedAt e
    ∧ f = {| fr_nodeId := cn_id n; fr_endpoint := canonicalEndpoint (cn_address n);
             fr_flags := cn_flags n; fr_departedAt := de_departedAt e; fr_returnedAt := p.1;
             fr_absentPolls := de_absentPolls e |}.

(** What the pass over the nodes leaves: the entries of the ids no live line lists, the
    findings of the entries a live line lists. *)
Definition pass_ok (p : poll) (h1 : GhostMembershipHistory) (done_ : list ClusterNode)
    (acc : list ForgetRejoin * GhostMembershipHistory) : Prop :=
  (∀ i e, (i, e) ∈ gh_departed acc.2 →
     (i, e) ∈ gh_departed h1 ∧ ∀ n, n ∈ done_ → cn_id n = i → isLive n = false)
  ∧ (∀ i, i ∈ gh_present acc.2 → i ∈ gh_present h1 ∨ i ∈ cn_id <$> done_)
  ∧ ∀ f, f ∈ acc.1 → rejoin_of p h1 done_ f.

Lemma arrive_ok p h1 l n acc :
  pass_ok p h1 l acc → pass_ok p h1 (l ++ [n]) (arrive p.1 acc n).
Proof.
  destruct acc as [fs h]. intros (Hdep & Hpres & Hfs). cbn [fst snd] in *.
  assert (Hfs' : ∀ f, f ∈ fs → rejoin_of p h1 (l ++ [n]) f).
  { intros f (e & x & ? & ? & ?)%Hfs. exists e, x. rewrite elem_of_app. naive_solver. }
  assert (Hpres' : ∀ i, i ∈ set_add (cn_id n) (gh_present h) →
    i ∈ gh_present h1 ∨ i ∈ cn_id <$> (l ++ [n])).
  { intros i [Hi| ->]%set_add_elem; rewrite fmap_app, elem_of_app.
    - destruct (Hpres i Hi); auto.
    - right. right. by left. }
  assert (Hpres0 : ∀ i, i ∈ gh_present h → i ∈ gh_present h1 ∨ i ∈ cn_id <$> (l ++ [n])).
  { intros i Hi. apply Hpres', set_add_elem. by left. }
  assert (Hdone : ∀ i e, (i, e) ∈ gh_departed h → (i = cn_id n → isLive n = false) →
    (i, e) ∈ gh_departed h1 ∧ ∀ x, x ∈ l ++ [n] → cn_id x = i → isLive x = false).
  { intros i e Hi Hn. destruct (Hdep i e Hi) as [? Hold]. split; [done|].
    intros x [?| ->%list_elem_of_singleton]%elem_of_app Hx; [by apply Hold|by apply Hn]. }
  unfold arrive. destruct (jm_get (cn_id n) (gh_departed h)) as [entry|] eqn:Hget.
  - destruct (isLive n) eqn:Hlive; cbn [negb]; [|by split_and!; [auto|auto|]].
    assert (Hdel : ∀ i e, (i, e) ∈ jm_delete (cn_id n) (gh_departed h) →
      (i, e) ∈ gh_departed h1 ∧ ∀ x, x ∈ l ++ [n] → cn_id x = i → isLive x = false).
    { intros i e [Hne Hi]%list_elem_of_filter. apply Hdone; [done|]. intros ->. by destruct Hne. }
    destruct (Z.ltb_spec (de_absentPolls entry) MIN_ABSENT_POLLS); [by split_and!|].
    destruct (Z.ltb_spec (p.1 - de_departedAt entry) MIN_ABSENT_MS); [by split_and!|].
    split_and!; [done|done|]. cbn [fst snd].
    intros f [?| ->%list_elem_of_singleton]%elem_of_app; [by apply Hfs'|].
    apply jm_get_elem in Hget. destruct (Hdep _ _ Hget) as [? _].
    exists entry, n. rewrite elem_of_app, list_elem_of_singleton. cbn. split_and!; auto.
  - split_and!; [|done|done]. cbn [fst snd gh_departed]. intros i e Hi. apply Hdone; [done|].
    intros ->. apply jm_get_None in Hget. destruct Hget. by apply (list_elem_of_fmap_2 fst _ (cn_id n, e)).
Qed.

Lemma arrive_all p h1 l :
  pass_ok p h1 l (foldl (arrive p.1) ([], h1) l).
Proof.
  induction l as [|n l IH] using rev_ind.
  - split; [|split]; cbn.
    + intros i e ?. split; [done|]. intros n Hn. by apply not_elem_of_nil in Hn.
    + auto.
    + intros f Hf. by apply not_elem_of_nil in Hf.
  - rewrite foldl_app. by apply arrive_ok.
Qed.

Lemma jm_deletes_elem {V} (ks : list string) (m : list (string * V)) x :
  x ∈ jm_deletes ks m → x ∈ m.
Proof.
  revert m. induction ks as [|k ks IH]; intros m Hx; [done|].
  apply (IH (jm_delete k m)) in Hx. apply list_elem_of_filter in Hx as [_ Hx]. done.
Qed.

Lemma evict_elem now m x : x ∈ evictStaleDepartures now m → x ∈ m.
Proof.
  unfold evictStaleDepartures. destruct (_ <=? _); [|intros Hx%jm_deletes_elem; revert Hx];
    intros Hx; apply js_filter_elem in Hx; naive_solver.
Qed.

Lemma depart_elem {V} (v : V) (ks : list string) m i w :
  (i, w) ∈ foldl (λ m k, jm_set k v m) m ks → (i ∈ ks ∧ w = v) ∨ (i, w) ∈ m.
Proof.
  induction ks as [|k ks IH] using rev_ind; [by right|]. rewrite foldl_app. cbn [foldl].
  intros [[-> ->]|[[? ->]|?]%IH]%jm_set_elem; [left|left|by right];
    rewrite elem_of_app, list_elem_of_singleton; auto.
Qed.

(** One poll keeps the accounting, and each of its findings closes a departure. *)
Lemma observe_accounts ps p h :
  history_accounts ps h →
  history_accounts (ps ++ [p]) (observe p.2 p.1 h).2
  ∧ ∀ f, f ∈ (observe p.2 p.1 h).1 →
      departure ps (fr_nodeId f) (fr_departedAt f) (fr_absentPolls f)
      ∧ MIN_ABSENT_POLLS ≤ fr_absentPolls f
      ∧ MIN_ABSENT_MS ≤ fr_returnedAt f - fr_departedAt f
      ∧ fr_returnedAt f = p.1 ∧ listed_live (fr_nodeId f) p.
Proof.
  intros [Hdep Hpres]. unfold observe.
  set (h1 := {| gh_present := gh_present h;
                gh_departed := age (js_set (cn_id <$> p.2)) <$> gh_departed h |}).
  assert (Haged : ∀ i e, (i, e) ∈ gh_departed h1 → ∃ n,
    departure ps i (de_departedAt e) n ∧ de_absentPolls e = if listed i p then n else n + 1).
  { intros i e Hi. apply list_elem_of_fmap in Hi as ([j e0] & Heq & Hi).
    apply Hdep in Hi. unfold age in Heq. rewrite seen_listed in Heq. cbn [fst snd] in Heq.
    exists (de_absentPolls e0). destruct (listed j p) eqn:Hl; simplify_eq; cbn; by rewrite Hl. }
  pose proof (arrive_all p h1 p.2) as Hpass.
  destruct (foldl (arrive p.1) ([], h1) p.2) as [fs h2]. destruct Hpass as (Hdep2 & Hpres2 & Hfs).
  cbn [fst snd] in *. split; [split|].
  - cbn [gh_departed]. intros i e Hi%evict_elem.
    destruct (_ && _); [by apply not_elem_of_nil in Hi|].
    apply depart_elem in Hi as [[Hi ->]|Hi].
    + apply js_filter_elem in Hi as [Hi Hin]. rewrite seen_listed in Hi. apply negb_true_iff in Hi.
      apply Hpres2 in Hin as [Hin|Hin].
      * apply Hpres in Hin as (before & q & -> & Hq). exists before, q, p, []. cbn.
        split_and!; [by rewrite <-app_assoc|done..| |done]. by intros ? ?%not_elem_of_nil.
      * apply js_includes_true in Hin. unfold listed in Hi. congruence.
    + apply Hdep2 in Hi as [Hi Hno]. apply Haged in Hi as (n & Hn & ->).
      apply departure_snoc; [done|]. intros (x & Hx & Hid & Hlive). rewrite (Hno x Hx Hid) in Hlive. done.
  - cbn [gh_present]. intros i [Hi Hin]%js_filter_elem. exists ps, p. split; [done|].
    apply negb_true_iff in Hi. rewrite <-seen_listed. destruct (js_includes i (js_set _)) eqn:Hs; [done|].
    apply js_includes_false in Hi. destruct Hi. apply js_filter_elem. by rewrite Hs.
  - intros f (e & n & Hin & Hn & Hlive & Hpolls & Hms & ->)%Hfs. cbn in *.
    assert (Hl : listed (cn_id n) p = true) by by apply js_includes_true, list_elem_of_fmap_2.
    apply Haged in Hin as (k & Hk & Heq). rewrite Hl in Heq. subst k.
    split_and!; [done..|]. by exists n.
Qed.

Lemma run_accounts ps : history_accounts ps (run_history ps).2.
Proof.
  induction ps as [|p ps IH] using rev_ind.
  { split; [by intros ? ? ?%not_elem_of_nil|by intros ? ?%not_elem_of_nil]. }
  unfold run_history. rewrite foldl_app. by apply observe_accounts.
Qed.

(** A reported rejoin is a real one, whatever the polls were: the id was listed by one
    poll and missing from the next, no poll after that listed it as a live node until the one
    that reports it, at least two polls did not list it at all and at least a minute passed.
    A node seen again within the window, or only as a failed line, is not reported. *)
Theorem rejoin_is_real ps p f :
  f ∈ (run_history (ps ++ [p])).1 →
  departure ps (fr_nodeId f) (fr_departedAt f) (fr_absentPolls f)
  ∧ 2 ≤ fr_absentPolls f ∧ 60000 ≤ fr_returnedAt f - fr_departedAt f
  ∧ fr_returnedAt f = p.1 ∧ listed_live (fr_nodeId f) p.
Proof.
  unfold run_history. rewrite foldl_app. intros Hf.
  by apply (observe_accounts ps p _ (run_accounts ps)) in Hf.
Qed.

Definition cluster_line (nodeId address : string) (flags : list string) (slots : list (Z * Z))
    : ClusterNode :=
  {| cn_id := nodeId; cn_address := address; cn_flags := flags; cn_master := "-";
     cn_pingSent := 0; cn_pongReceived := 0; cn_configEpoch := 1; cn_linkState := "connected";
     cn_slots := slots; cn_migratingSlots := None; cn_importingSlots := None;
     cn_hostname := None |}.
Definition peer_a := cluster_line "a" "10.0.0.1:6379@16379" ["myself"; "master"] [(0, 8191)].
Definition peer_b := cluster_line "b" "10.0.0.2:6379@16379" ["master"] [(8192, 16383)].
Definition peer_b_old := cluster_line "c" "10.0.0.2:6379@16379" ["master"; "fail"; "noaddr"] [].
Definition by_units (s t : string) : Z := units_cmp (utf16 s) (utf16 t).

(** A replaced node's dead line is found next to its successor, whatever the order. *)
Lemma ghost_signatures_order_free_witness :
  ghostMemberSignature <$> detectGhostMembers by_units [peer_a; peer_b; peer_b_old]
  ≡ₚ ghostMemberSignature <$> detectGhostMembers by_units [peer_b_old; peer_b; peer_a]
  ∧ ghostMemberSignature <$> detectGhostMembers by_units [peer_a; peer_b; peer_b_old]
    = ["stale_twin|10.0.0.2:6379|b,c|norep"].
Proof.
  assert (Hd : units_distinct (cn_id <$> [peer_a; peer_b; peer_b_old])).
  { intros s t Hs Ht. cbn in Hs, Ht. rewrite !elem_of_cons, elem_of_nil in Hs, Ht.
    destruct Hs as [->|[->|[->|[]]]], Ht as [->|[->|[->|[]]]]; vm_compute; congruence. }
  split; [|vm_compute; reflexivity].
  apply (ghost_signatures_order_free by_units [peer_a; peer_b; peer_b_old]); [|exact Hd|].
  - split; unfold by_units.
    + intros s t. rewrite (units_cmp_swap (utf16 s)). lia.
    + intros s t u. apply units_cmp_trans.
    + intros s t Hs Ht H1 H2. apply Hd; [done|done|]. apply units_cmp_eq.
      rewrite (units_cmp_swap (utf16 s)) in H2. lia.
  - change [peer_b_old; peer_b; peer_a] with (reverse [peer_a; peer_b; peer_b_old]).
    by rewrite reverse_Permutation.
Defined.

(** [b] is forgotten before the poll at 10 s, listed as a failed line at 80 s, and live again
    at 90 s. *)
Definition rejoin_polls : list poll :=
  [(0, [peer_a; peer_b; cluster_line "d" "10.0.0.3:6379" ["slave"] []]);
   (10000, [peer_a; cluster_line "d" "10.0.0.3:6379" ["slave"] []]);
   (40000, [peer_a; cluster_line "d" "10.0.0.3:6379" ["slave"] []]);
   (80000, [peer_a; cluster_line "b" "10.0.0.2:6379" ["master"; "fail"] [];
            cluster_line "d" "10.0.0.3:6379" ["slave"] []])].
Lemma rejoin_is_real_witness :
  departure rejoin_polls "b" 10000 2 ∧ 2 ≤ 2 ∧ 60000 ≤ 90000 - 10000
  ∧ 90000 = 90000 ∧ listed_live "b" (90000, [peer_a; peer_b]).
Proof.
  apply (rejoin_is_real rejoin_polls (90000, [peer_a; peer_b])
    {| fr_nodeId := "b"; fr_endpoint := "10.0.0.2:6379"; fr_flags := ["master"];
       fr_departedAt := 10000; fr_returnedAt := 90000; fr_absentPolls := 2 |}).
  vm_compute. by left.
Defined.
