(* ===== verification/CobPressure.v ===== *)
(** * Output-buffer pressure of replicas

    [cob-pressure-detector.ts]: the output buffer of each replica against
    client-output-buffer-limit, with the alert contract of the level detectors per replica,
    and full resyncs that follow an overflow.  The limit, the buffer sizes and the ratios are
    JavaScript numbers; timestamps and counters are integers. *)
From S2P Require Export Hysteresis.
From stdpp Require Import options.

(** ** Definitions *)
Definition COB_WARN_RATIO : number := num_of_decimal false 6 (-1).
Definition COB_CRIT_RATIO : number := num_of_decimal false 9 (-1).
Definition COB_PRESSURE_MEMORY_MS : Z := 5 * 60000.
Definition COB_RESYNC_REFIRE_MS : Z := 5 * 60000.
Definition AGGREGATE_KEY : string := "(aggregate)".
Definition SYNC_TIMES_LIMIT : Z := 20.

Record SlaveOutputBufferLimit := { sl_hardBytes : number; sl_softBytes : number; sl_softSeconds : number }.
Record ReplicaObservation := { ro_addr : string; ro_omem : number }.
Record ReplicaPressureState := {
  rp_ackedLevel : RiskLevel;
  rp_softBreachSince : option Z;
  rp_lastPressuredAt : option Z;
  rp_lastSeenAt : Z
}.
Record CobConnectionState := {
  cs_replicas : list (string * ReplicaPressureState);
  cs_syncFullTimes : list Z;
  cs_lastConnectedSlaves : option Z;
  cs_resyncFiredAt : option Z
}.
Record CobEvaluationInput := {
  ci_replicas : option (list ReplicaObservation);
  ci_limit : option SlaveOutputBufferLimit;
  ci_memClientsSlaves : option number;
  ci_connectedSlaves : Z;
  ci_syncFullDelta : Z;
  ci_timestamp : Z
}.
Inductive CobFindingKind := hard_approach | soft_sustained | aggregate | resync_loop.
#[global] Instance CobFindingKind_eq : EqDecision CobFindingKind.
Proof. solve_decision. Defined.
Record CobPressureFinding := {
  cf_replicaAddr : option string;
  cf_ratio : option number;
  cf_level : RiskLevel;
  cf_kind : CobFindingKind;
  cf_message : string;
  cf_timestamp : Z
}.

Definition createCobConnectionState : CobConnectionState :=
  {| cs_replicas := []; cs_syncFullTimes := []; cs_lastConnectedSlaves := None;
     cs_resyncFiredAt := None |}.

Fixpoint slave_class (tokens : list string) : option SlaveOutputBufferLimit :=
  match tokens with
  | t :: ((h :: s :: secs :: _) as rest) =>
      if str_eqb t "slave" || str_eqb t "replica" then
        let limit := {| sl_hardBytes := num_of_string h; sl_softBytes := num_of_string s;
                        sl_softSeconds := num_of_string secs |} in
        if is_finite (sl_hardBytes limit) && is_finite (sl_softBytes limit)
           && is_finite (sl_softSeconds limit) then Some limit else None
      else slave_class rest
  | _ => None
  end.
Definition parseSlaveOutputBufferLimit (raw : option string) : option SlaveOutputBufferLimit :=
  match raw with
  | None | Some EmptyString => None
  | Some raw => slave_class (split_ws (trim raw))
  end.

Definition n_zero : number := num_of_Z 0.
Definition isUnlimited (limit : SlaveOutputBufferLimit) : bool :=
  num_eqb (sl_hardBytes limit) n_zero && num_eqb (sl_softBytes limit) n_zero.

Definition formatBytes (bytes : number) : string :=
  let mb := num_div bytes (num_of_Z (1024 * 1024)) in
  if num_leb (num_of_Z 1024) mb then num_to_fixed 1 (num_div mb (num_of_Z 1024)) +:+ "GB"
  else num_to_string (math_round mb) +:+ "MB".

Definition REMEDY : string := "Raise the limit or reduce the write burst.".

Definition getReplicaState (addr : string) (timestamp : Z)
    (replicas : list (string * ReplicaPressureState)) : ReplicaPressureState :=
  match jm_get addr replicas with
  | Some r => {| rp_ackedLevel := rp_ackedLevel r; rp_softBreachSince := rp_softBreachSince r;
                 rp_lastPressuredAt := rp_lastPressuredAt r; rp_lastSeenAt := timestamp |}
  | None => {| rp_ackedLevel := L_none; rp_softBreachSince := None; rp_lastPressuredAt := None;
               rp_lastSeenAt := timestamp |}
  end.

Record RatioAssessment := {
  ra_level : RiskLevel; ra_kind : CobFindingKind; ra_ratio : number; ra_pressured : bool
}.
Definition set_breach (since : option Z) (r : ReplicaPressureState) : ReplicaPressureState :=
  {| rp_ackedLevel := rp_ackedLevel r; rp_softBreachSince := since;
     rp_lastPressuredAt := rp_lastPressuredAt r; rp_lastSeenAt := rp_lastSeenAt r |}.

Definition assessRatio (omem : number) (limit : SlaveOutputBufferLimit) (timestamp : Z)
    (r : ReplicaPressureState) : RatioAssessment * ReplicaPressureState :=
  let hardRatio := if num_ltb n_zero (sl_hardBytes limit)
                   then num_div omem (sl_hardBytes limit) else n_zero in
  let hard level pressured :=
    {| ra_level := level; ra_kind := hard_approach; ra_ratio := hardRatio;
       ra_pressured := pressured |} in
  if num_ltb n_zero (sl_hardBytes limit) && num_leb COB_CRIT_RATIO hardRatio
  then (hard L_critical true, r)
  else if num_ltb n_zero (sl_hardBytes limit) && num_leb COB_WARN_RATIO hardRatio
  then (hard L_warning true, r)
  else
    let softThreshold := num_mul (sl_softBytes limit) COB_WARN_RATIO in
    if num_ltb n_zero (sl_softBytes limit) && num_ltb n_zero (sl_softSeconds limit)
       && num_leb softThreshold omem then
      let since := default timestamp (rp_softBreachSince r) in
      let r' := set_breach (Some since) r in
      let sustainedMs := timestamp - since in
      if num_ltb (num_mul (sl_softSeconds limit) (num_of_Z 1000)) (num_of_Z sustainedMs) then
        ({| ra_level := L_warning; ra_kind := soft_sustained;
            ra_ratio := num_div omem (sl_softBytes limit); ra_pressured := true |}, r')
      else (hard L_none true, r')
    else (hard L_none false, set_breach None r).

Definition percent_of (ratio : number) : string :=
  num_to_string (math_round (num_mul ratio (num_of_Z 100))).
Definition buildRatioMessage (addr : string) (omem : number) (assessment : RatioAssessment)
    (limit : SlaveOutputBufferLimit) : string :=
  if decide (ra_kind assessment = soft_sustained) then
    let secs := num_to_string (sl_softSeconds limit) in
    "Replica " +:+ addr +:+ " output buffer (" +:+ formatBytes omem +:+ ") has stayed above "
    +:+ percent_of COB_WARN_RATIO +:+ "% of the client-output-buffer-limit slave soft limit ("
    +:+ formatBytes (sl_softBytes limit) +:+ ") for over " +:+ secs
    +:+ "s — early warning: if it crosses the soft limit and stays there for " +:+ secs
    +:+ "s, the server forces a disconnect + full resync (valkey#3963). " +:+ REMEDY
  else
    "Replica " +:+ addr +:+ " output buffer at " +:+ percent_of (ra_ratio assessment)
    +:+ "% of the client-output-buffer-limit slave hard limit (" +:+ formatBytes omem +:+ " / "
    +:+ formatBytes (sl_hardBytes limit)
    +:+ ") — approaching a forced disconnect + full resync (valkey#3963). " +:+ REMEDY.

Definition reported_addr (addr : string) : option string :=
  if str_eqb addr AGGREGATE_KEY then None else Some addr.

(** The findings are returned, the replica's state threaded. *)
Definition applyLevel (assessment : RatioAssessment) (timestamp : Z) (message addr : string)
    (r : ReplicaPressureState) : list CobPressureFinding * ReplicaPressureState :=
  let r' := {| rp_ackedLevel := rp_ackedLevel r; rp_softBreachSince := rp_softBreachSince r;
               rp_lastPressuredAt := if ra_pressured assessment then Some timestamp else None;
               rp_lastSeenAt := rp_lastSeenAt r |} in
  let level := LEVEL_RANK (ra_level assessment) in
  if LEVEL_RANK (rp_ackedLevel r') <? level then
    ([{| cf_replicaAddr := reported_addr addr; cf_ratio := Some (ra_ratio assessment);
         cf_level := if decide (ra_level assessment = L_critical) then L_critical else L_warning;
         cf_kind := ra_kind assessment; cf_message := message; cf_timestamp := timestamp |}], r')
  else if level <? LEVEL_RANK (rp_ackedLevel r') then
    ([], {| rp_ackedLevel := ra_level assessment; rp_softBreachSince := rp_softBreachSince r';
            rp_lastPressuredAt := rp_lastPressuredAt r'; rp_lastSeenAt := rp_lastSeenAt r' |})
  else ([], r').

Definition resyncRefireOpen (state : CobConnectionState) (timestamp : Z) : bool :=
  match cs_resyncFiredAt state with
  | None => true
  | Some t => COB_RESYNC_REFIRE_MS <? timestamp - t
  end.

(** One replica of CLIENT LIST *)
Definition observe_replica (limit : SlaveOutputBufferLimit) (timestamp : Z)
    (acc : list CobPressureFinding * list (string * ReplicaPressureState))
    (replica : ReplicaObservation)
    : list CobPressureFinding * list (string * ReplicaPressureState) :=
  let '(findings, replicas) := acc in
  let '(assessment, r) :=
    assessRatio (ro_omem replica) limit timestamp
      (getReplicaState (ro_addr replica) timestamp replicas) in
  let '(fs, r') :=
    applyLevel assessment timestamp
      (buildRatioMessage (ro_addr replica) (ro_omem replica) assessment limit)
      (ro_addr replica) r in
  (findings ++ fs, jm_set (ro_addr replica) r' replicas).

(** The aggregate of INFO memory *)
Definition observe_aggregate (limit : SlaveOutputBufferLimit) (mem : number) (input : CobEvaluationInput)
    (replicas : list (string * ReplicaPressureState))
    : list CobPressureFinding * list (string * ReplicaPressureState) :=
  let timestamp := ci_timestamp input in
  let combined := num_mul (sl_hardBytes limit) (num_of_Z (ci_connectedSlaves input)) in
  let ratio := if num_ltb n_zero combined then num_div mem combined else n_zero in
  let level := if num_leb COB_CRIT_RATIO ratio then L_critical
               else if num_leb COB_WARN_RATIO ratio then L_warning else L_none in
  let assessment := {| ra_level := level; ra_kind := aggregate; ra_ratio := ratio;
                       ra_pressured := negb (bool_decide (level = L_none)) |} in
  let message :=
    "Replica output buffers at " +:+ percent_of ratio
    +:+ "% of the combined client-output-buffer-limit slave hard limit (mem_clients_slaves aggregate; reduced fidelity — CLIENT LIST unavailable) (valkey#3963). "
    +:+ REMEDY in
  let '(fs, r') :=
    applyLevel assessment timestamp message AGGREGATE_KEY
      (getReplicaState AGGREGATE_KEY timestamp replicas) in
  (fs, jm_set AGGREGATE_KEY r' replicas).

Definition ratio_limit (input : CobEvaluationInput) : option SlaveOutputBufferLimit :=
  match ci_limit input with
  | Some limit => if isUnlimited limit then None else Some limit
  | None => None
  end.

Definition ratio_pass (input : CobEvaluationInput) (replicas : list (string * ReplicaPressureState))
    : list CobPressureFinding * list (string * ReplicaPressureState) :=
  match ratio_limit input with
  | None => ([], replicas)
  | Some limit =>
      match ci_replicas input, ci_memClientsSlaves input with
      | Some observed, _ =>
          foldl (observe_replica limit (ci_timestamp input)) ([], jm_delete AGGREGATE_KEY replicas)
            observed
      | None, Some mem =>
          if 0 <? ci_connectedSlaves input then observe_aggregate limit mem input replicas
          else ([], replicas)
      | None, None => ([], replicas)
      end
  end.

(** The addresses under pressure lately, latest first *)
Definition previouslyPressured (timestamp : Z) (replicas : list (string * ReplicaPressureState))
    : list string :=
  (js_sort (by_desc (λ kv : string * ReplicaPressureState, default 0 (rp_lastPressuredAt kv.2)))
     (js_filter (λ kv, match rp_lastPressuredAt kv.2 with
                       | Some t => timestamp - t <=? COB_PRESSURE_MEMORY_MS
                       | None => false
                       end) replicas)).*1.

(** [replicas] is the map after the pass, whose objects the list above shares. *)
Definition overflow_candidate (input : CobEvaluationInput)
    (replicas : list (string * ReplicaPressureState)) (addr : string) : bool :=
  match ci_replicas input with
  | None => true
  | Some _ =>
      if str_eqb addr AGGREGATE_KEY then false
      else match jm_get addr replicas with
           | Some r => negb (rp_lastSeenAt r =? ci_timestamp input)
           | None => false
           end
  end.

Definition resync_finding (replicaAddr : option string) (message : string) (timestamp : Z)
    : CobPressureFinding :=
  {| cf_replicaAddr := replicaAddr; cf_ratio := None; cf_level := L_critical;
     cf_kind := resync_loop; cf_message := message; cf_timestamp := timestamp |}.

(** A full sync while the ratios are visible *)
Definition overflow_resync (input : CobEvaluationInput) (pressured : list string)
    (replicas : list (string * ReplicaPressureState)) (open : bool) : list CobPressureFinding :=
  match js_filter (overflow_candidate input replicas) pressured with
  | addr :: _ =>
      if open then
        let name := if str_eqb addr AGGREGATE_KEY then "(aggregate)" else addr in
        [resync_finding (reported_addr addr)
           ("Replica " +:+ name +:+ " was dropped after output-buffer pressure — sync_full incremented and a full-resync loop is likely live (valkey#3963). "
            +:+ REMEDY) (ci_timestamp input)]
      else []
  | [] => []
  end.

(** [while (times.length > SYNC_TIMES_LIMIT) times.shift()] *)
Definition keep_last (times : list Z) : list Z :=
  drop (Z.to_nat (js_len times - SYNC_TIMES_LIMIT)) times.
Definition recent_syncs (input : CobEvaluationInput) (previous : option Z) (times : list Z) : list Z :=
  let timestamp := ci_timestamp input in
  let replicaGrowth := match previous with
                       | None => 0
                       | Some n => Z.max 0 (ci_connectedSlaves input - n)
                       end in
  let unexplained := Z.max 0 (ci_syncFullDelta input - replicaGrowth) in
  let increments := Z.min unexplained SYNC_TIMES_LIMIT in
  js_filter (λ t, timestamp - t <=? COB_PRESSURE_MEMORY_MS)
    (keep_last (times ++ replicate (Z.to_nat increments) timestamp)).

(** A full sync without the ratios *)
Definition blind_resync (input : CobEvaluationInput) (recent : list Z) (open : bool)
    : list CobPressureFinding :=
  let timestamp := ci_timestamp input in
  match recent with
  | first :: _ :: _ =>
      if open then
        let spanSeconds := math_round (num_div (num_of_Z (timestamp - first)) (num_of_Z 1000)) in
        let limitContext :=
          match ci_limit input with
          | None => "client-output-buffer-limit slave could not be read (CONFIG GET denied), so buffer pressure could not be correlated — verify the limit and replica health directly"
          | Some _ => "an unlimited client-output-buffer-limit slave — a resync loop with unlimited COB indicates memory pressure or an unstable replica"
          end in
        [resync_finding None
           (string_of_Z (js_len recent) +:+ " full syncs in " +:+ num_to_string spanSeconds
            +:+ "s without matching replica-count growth; " +:+ limitContext +:+ " (valkey#3963).")
           timestamp]
      else []
  | _ => []
  end.

Definition forget_replicas (timestamp : Z) (replicas : list (string * ReplicaPressureState))
    : list (string * ReplicaPressureState) :=
  js_filter (λ kv, (rp_lastSeenAt kv.2 =? timestamp)
                   || negb (COB_PRESSURE_MEMORY_MS <? timestamp - rp_lastSeenAt kv.2)) replicas.

Definition evaluateCobPressure (input : CobEvaluationInput) (state : CobConnectionState)
    : list CobPressureFinding * CobConnectionState :=
  let timestamp := ci_timestamp input in
  let pressured := previouslyPressured timestamp (cs_replicas state) in
  let '(findings, replicas) := ratio_pass input (cs_replicas state) in
  let open := resyncRefireOpen state timestamp in
  let '(resyncs, times) :=
    if 0 <? ci_syncFullDelta input then
      match ratio_limit input with
      | Some _ => (overflow_resync input pressured replicas open, cs_syncFullTimes state)
      | None =>
          let recent := recent_syncs input (cs_lastConnectedSlaves state) (cs_syncFullTimes state) in
          (blind_resync input recent open, recent)
      end
    else ([], cs_syncFullTimes state) in
  (findings ++ resyncs,
   {| cs_replicas := forget_replicas timestamp replicas; cs_syncFullTimes := times;
      cs_lastConnectedSlaves := Some (ci_connectedSlaves input);
      cs_resyncFiredAt := cs_resyncFiredAt state |}).

Definition acknowledgeCobFinding (finding : CobPressureFinding) (state : CobConnectionState)
    : CobConnectionState :=
  if decide (cf_kind finding = resync_loop) then
    {| cs_replicas := cs_replicas state; cs_syncFullTimes := cs_syncFullTimes state;
       cs_lastConnectedSlaves := cs_lastConnectedSlaves state;
       cs_resyncFiredAt := Some (cf_timestamp finding) |}
  else
    let addr := default AGGREGATE_KEY (cf_replicaAddr finding) in
    match jm_get addr (cs_replicas state) with
    | None => state
    | Some r =>
        {| cs_replicas := jm_set addr {| rp_ackedLevel := cf_level finding;
                                         rp_softBreachSince := rp_softBreachSince r;
                                         rp_lastPressuredAt := rp_lastPressuredAt r;
                                         rp_lastSeenAt := rp_lastSeenAt r |} (cs_replicas state);
           cs_syncFullTimes := cs_syncFullTimes state;
           cs_lastConnectedSlaves := cs_lastConnectedSlaves state;
           cs_resyncFiredAt := cs_resyncFiredAt state |}
    end.

(** ** Specification *)

(** The level machine of one replica, whose samples are its assessments *)
#[global] Instance cob_detector
    : HysteresisDetector ReplicaPressureState (RatioAssessment * Z) CobPressureFinding := {
  hd_create := getReplicaState AGGREGATE_KEY 0 [];
  hd_evaluate i r := let '(fs, r') := applyLevel i.1 i.2 EmptyString AGGREGATE_KEY r in (head fs, r');
  hd_acknowledge f r := {| rp_ackedLevel := cf_level f; rp_softBreachSince := rp_softBreachSince r;
                           rp_lastPressuredAt := rp_lastPressuredAt r;
                           rp_lastSeenAt := rp_lastSeenAt r |};
  hd_score i := Some (LEVEL_RANK (ra_level i.1));
  hd_finding_score f := Some (LEVEL_RANK (cf_level f));
  hd_hold := 1;
  hd_means r a := al_acked a = LEVEL_RANK (rp_ackedLevel r) ∧ 0 ≤ al_run a
}.

(** The polls of a connection, each with which findings could be delivered *)
Definition cob_poll (p : CobEvaluationInput * (CobPressureFinding → bool)) (s : CobConnectionState)
    : list CobPressureFinding * CobConnectionState :=
  let '(fs, s') := evaluateCobPressure p.1 s in
  (fs, foldl (λ s f, acknowledgeCobFinding f s) s' (js_filter p.2 fs)).
Definition cob_run (ps : list (CobEvaluationInput * (CobPressureFinding → bool))) : CobConnectionState :=
  foldl (λ s p, (cob_poll p s).2) createCobConnectionState ps.

(** CLIENT LIST showed the address at this poll, with these buffers, under this limit. *)
Definition shown (input : CobEvaluationInput) (addr : string) (omem : number)
    (limit : SlaveOutputBufferLimit) : Prop :=
  ratio_limit input = Some limit
  ∧ ∃ l, ci_replicas input = Some l ∧ {| ro_addr := addr; ro_omem := omem |} ∈ l.
(** 60 % of the hard limit, or 60 % of a soft limit that is enforced *)
Definition under_pressure (omem : number) (limit : SlaveOutputBufferLimit) : bool :=
  num_ltb n_zero (sl_hardBytes limit)
    && (num_leb COB_CRIT_RATIO (num_div omem (sl_hardBytes limit))
        || num_leb COB_WARN_RATIO (num_div omem (sl_hardBytes limit)))
  || num_ltb n_zero (sl_softBytes limit) && num_ltb n_zero (sl_softSeconds limit)
     && num_leb (num_mul (sl_softBytes limit) COB_WARN_RATIO) omem.

(** ** Lemmas *)
#[global] Instance cob_laws
    : HysteresisLaws ReplicaPressureState (RatioAssessment * Z) CobPressureFinding.
Proof.
  split.
  - intros [a t] s [= <-]. by destruct (ra_level a).
  - done.
  - intros [a t] r al (Ha & Hr) Hacked. cbn -[alarm_step].
    destruct (alarm_step_now (LEVEL_RANK (ra_level a)) al) as (-> & -> & Hr');
      [by destruct (ra_level a)|done|done|].
    rewrite Ha. revert Hr'. unfold applyLevel.
    destruct a as [level k q pr], r as [acked sb lp ls]. destruct level, acked, pr; cbn; done.
  - intros f r a (Ha & Hr). done.
Qed.

#[local] Opaque num_leb num_ltb num_div num_mul num_of_Z COB_WARN_RATIO COB_CRIT_RATIO n_zero.

Lemma applyLevel_spec a now msg addr r :
  let '(fs, r') := applyLevel a now msg addr r in
  rp_lastPressuredAt r' = (if ra_pressured a then Some now else None)
  ∧ rp_lastSeenAt r' = rp_lastSeenAt r
  ∧ ∀ f, f ∈ fs → cf_kind f = ra_kind a ∧ cf_timestamp f = now.
Proof.
  unfold applyLevel. cbn. destruct (_ <? _).
  - split_and!; [done|done|]. by intros f ->%list_elem_of_singleton.
  - destruct (_ <? _); (split_and!; [done|done|]; intros f Hf; by apply not_elem_of_nil in Hf).
Qed.

Lemma assessRatio_spec omem limit now r :
  let '(a, r') := assessRatio omem limit now r in
  ra_pressured a = under_pressure omem limit
  ∧ ra_kind a ≠ resync_loop
  ∧ rp_lastSeenAt r' = rp_lastSeenAt r ∧ rp_lastPressuredAt r' = rp_lastPressuredAt r.
Proof.
  unfold assessRatio, under_pressure. cbn.
  destruct (num_ltb n_zero (sl_hardBytes limit)); cbn.
  - destruct (num_leb COB_CRIT_RATIO _); [done|]. destruct (num_leb COB_WARN_RATIO _); [done|]. cbn.
    destruct (_ && _ && _); [|done]. by destruct (num_ltb _ _).
  - destruct (_ && _ && _); [|done]. by destruct (num_ltb _ _).
Qed.

Definition quiet_finding (now : Z) (f : CobPressureFinding) : Prop :=
  cf_kind f ≠ resync_loop ∧ cf_timestamp f = now.

(** What the pass over CLIENT LIST leaves of an address *)
Lemma observed_spec limit now l rs0 :
  jm_wf rs0 →
  let '(fs, rs) := foldl (observe_replica limit now) ([], rs0) l in
  jm_wf rs ∧ (∀ f, f ∈ fs → quiet_finding now f)
  ∧ ∀ addr r, jm_get addr rs = Some r →
      ((∃ omem, {| ro_addr := addr; ro_omem := omem |} ∈ l) ∧ rp_lastSeenAt r = now
       ∧ ∀ t, rp_lastPressuredAt r = Some t → t = now
           ∧ ∃ omem, {| ro_addr := addr; ro_omem := omem |} ∈ l ∧ under_pressure omem limit = true)
      ∨ ((∀ omem, {| ro_addr := addr; ro_omem := omem |} ∉ l) ∧ jm_get addr rs0 = Some r).
Proof.
  intros Hwf. induction l as [|[a omem] l IH] using rev_ind.
  { cbn. split_and!; [done|by intros f Hf; apply not_elem_of_nil in Hf|].
    intros addr r Hr. right. split; [|done]. intros omem Hf. by apply not_elem_of_nil in Hf. }
  rewrite foldl_app. destruct (foldl _ _ l) as [fs rs]. destruct IH as (Hwf' & Hfs & Hrs). cbn -[assessRatio applyLevel].
  pose proof (assessRatio_spec omem limit now (getReplicaState a now rs)) as Has.
  destruct (assessRatio _ _ _ _) as [as_ r1]. destruct Has as (Hpr & Hk & Hseen & _).
  pose proof (applyLevel_spec as_ now (buildRatioMessage a omem as_ limit) a r1) as Hap.
  destruct (applyLevel _ _ _ _ _) as [fs' r2]. destruct Hap as (Hlp & Hls & Hfs').
  split_and!; [by apply jm_wf_set| |].
  - intros f [Hf|Hf]%elem_of_app; [by apply Hfs|]. apply Hfs' in Hf as [Hfk Hft]. split; congruence.
  - intros addr r. rewrite jm_get_set. destruct (decide (addr = a)) as [->|Hne].
    + intros [= <-]. left. split; [exists omem; apply elem_of_app; right; by left|].
      split; [rewrite Hls, Hseen; unfold getReplicaState; by destruct (jm_get _ _)|].
      intros t. rewrite Hlp, Hpr. destruct (under_pressure omem limit) eqn:Hu; [|done].
      intros [= <-]. split; [done|]. exists omem. split; [apply elem_of_app; right; by left|done].
    + intros [(Hin & Hs & Hp)|(Hno & Hg)]%Hrs; [left|right].
      * destruct Hin as [o Ho]. split; [exists o; apply elem_of_app; by left|]. split; [done|].
        intros t [? (o' & ? & ?)]%Hp. split; [done|]. exists o'. split; [apply elem_of_app; by left|done].
      * split; [|done]. intros o [Ho|Ho]%elem_of_app; [by eapply Hno|].
        apply list_elem_of_singleton in Ho. congruence.
Qed.

Lemma observe_aggregate_spec limit mem input rs0 :
  jm_wf rs0 →
  let '(fs, rs) := observe_aggregate limit mem input rs0 in
  jm_wf rs ∧ (∀ f, f ∈ fs → quiet_finding (ci_timestamp input) f)
  ∧ ∀ addr, addr ≠ AGGREGATE_KEY → jm_get addr rs = jm_get addr rs0.
Proof.
  intros Hwf. unfold observe_aggregate.
  match goal with |- context [applyLevel ?a ?t ?m ?k ?r] =>
    pose proof (applyLevel_spec a t m k r) as Hap; destruct (applyLevel a t m k r) as [fs r'] end.
  destruct Hap as (_ & _ & Hfs). split_and!; [by apply jm_wf_set| |].
  - intros f Hf. apply Hfs in Hf as [Hk Ht]. by split; [rewrite Hk|].
  - intros addr Hne. by rewrite jm_get_set_ne.
Qed.

Definition seen_at (input : CobEvaluationInput) (addr : string) : Prop :=
  ∃ omem limit, shown input addr omem limit.

(** What the ratio pass leaves of a replica's address *)
Lemma ratio_pass_spec input rs0 :
  jm_wf rs0 →
  let '(fs, rs) := ratio_pass input rs0 in
  jm_wf rs ∧ (∀ f, f ∈ fs → quiet_finding (ci_timestamp input) f)
  ∧ ∀ addr r, addr ≠ AGGREGATE_KEY → jm_get addr rs = Some r →
      (rp_lastSeenAt r = ci_timestamp input ∧ seen_at input addr
       ∧ ∀ t, rp_lastPressuredAt r = Some t → t = ci_timestamp input
           ∧ ∃ omem limit, shown input addr omem limit ∧ under_pressure omem limit = true)
      ∨ (¬ seen_at input addr ∧ jm_get addr rs0 = Some r).
Proof.
  intros Hwf. unfold ratio_pass.
  assert (Hnil : ∀ f : CobPressureFinding, f ∈ [] → quiet_finding (ci_timestamp input) f).
  { intros f Hf. by apply not_elem_of_nil in Hf. }
  destruct (ratio_limit input) as [limit|] eqn:Hl.
  2: { split_and!; [done|done|]. intros addr r _ Hr. right. split; [|done]. intros (o & l & Hs & _). congruence. }
  destruct (ci_replicas input) as [obs|] eqn:Ho.
  - pose proof (observed_spec limit (ci_timestamp input) obs (jm_delete AGGREGATE_KEY rs0)
      (jm_wf_delete _ _ Hwf)) as Hspec.
    destruct (foldl _ _ obs) as [fs rs]. destruct Hspec as (Hwf' & Hfs & Hrs).
    split_and!; [done|done|]. intros addr r Hne Hr.
    assert (Hshown : ∀ o, {| ro_addr := addr; ro_omem := o |} ∈ obs → shown input addr o limit).
    { intros o Hin. split; [done|]. by exists obs. }
    destruct (Hrs addr r Hr) as [([o Hin] & Hs & Hp)|(Hno & Hg)]; [left|right].
    + split; [done|]. split; [exists o, limit; by apply Hshown|]. intros t Ht.
      destruct (Hp t Ht) as [-> (o' & Hin' & Hu)]. split; [done|]. exists o', limit. auto.
    + split.
      * intros (o & l & _ & obs' & Hobs & Hin). rewrite Ho in Hobs. injection Hobs as <-. by eapply Hno.
      * by rewrite jm_get_delete, decide_False in Hg.
  - assert (Hns : ∀ addr, ¬ seen_at input addr).
    { intros addr (o & l & _ & obs & Hobs & _). congruence. }
    destruct (ci_memClientsSlaves input) as [mem|]; [destruct (0 <? _)|]; [|by split_and!; [..|auto]..].
    pose proof (observe_aggregate_spec limit mem input rs0 Hwf) as Hspec.
    destruct (observe_aggregate _ _ _ _) as [fs rs]. destruct Hspec as (Hwf' & Hfs & Hrs).
    split_and!; [done|done|]. intros addr r Hne Hr. right. split; [done|]. by rewrite <-Hrs.
Qed.

(** The last poll that showed the address, at time [t], showed it under pressure. *)
Definition last_shown_pressured (ps : list (CobEvaluationInput * (CobPressureFinding → bool)))
    (addr : string) (t : Z) : Prop :=
  ∃ before p after,
    ps = before ++ p :: after ∧ ci_timestamp p.1 = t
    ∧ (∃ omem limit, shown p.1 addr omem limit ∧ under_pressure omem limit = true)
    ∧ ∀ q, q ∈ after → ¬ seen_at q.1 addr.

Definition cob_means (ps : list (CobEvaluationInput * (CobPressureFinding → bool)))
    (s : CobConnectionState) : Prop :=
  jm_wf (cs_replicas s)
  ∧ ∀ addr r t, addr ≠ AGGREGATE_KEY → jm_get addr (cs_replicas s) = Some r →
      rp_lastPressuredAt r = Some t → last_shown_pressured ps addr t.

Lemma forget_elem now rs addr r :
  jm_wf rs → jm_get addr (forget_replicas now rs) = Some r → jm_get addr rs = Some r.
Proof.
  intros Hwf Hr%jm_get_elem. unfold forget_replicas in Hr. apply js_filter_elem in Hr as [_ Hr].
  by apply jm_elem_get.
Qed.

Lemma evaluate_means ps p s :
  cob_means ps s → cob_means (ps ++ [p]) (evaluateCobPressure p.1 s).2.
Proof.
  intros [Hwf Hs]. unfold evaluateCobPressure.
  pose proof (ratio_pass_spec p.1 (cs_replicas s) Hwf) as Hspec.
  destruct (ratio_pass _ _) as [fs rs]. destruct Hspec as (Hwf' & _ & Hrs).
  match goal with |- context [if 0 <? _ then ?a else ?b] =>
    destruct (if 0 <? _ then a else b) as [resyncs times] end.
  split; cbn [cs_replicas snd]; [by apply js_filter_wf|].
  intros addr r t Hne Hr%forget_elem Ht; [|done].
  destruct (Hrs addr r Hne Hr) as [(_ & _ & Hp)|(Hno & Hold)].
  - destruct (Hp t Ht) as [-> Hin]. exists ps, p, []. split_and!; [done|done|done|].
    intros q Hq. by apply not_elem_of_nil in Hq.
  - destruct (Hs addr r t Hne Hold Ht) as (before & q & after & -> & Hq & Hin & Hafter).
    exists before, q, (after ++ [p]). split_and!; [by rewrite <-app_assoc|done|done|].
    intros x [Hx|Hx]%elem_of_app; [by apply Hafter|]. apply list_elem_of_singleton in Hx as ->. done.
Qed.

Lemma acknowledge_means ps f s : cob_means ps s → cob_means ps (acknowledgeCobFinding f s).
Proof.
  intros [Hwf Hs]. unfold acknowledgeCobFinding. case_decide; [done|].
  destruct (jm_get (default AGGREGATE_KEY (cf_replicaAddr f)) (cs_replicas s)) as [r|] eqn:Hr; [|done].
  split; cbn; [by apply jm_wf_set|]. intros addr r' t Hne. rewrite jm_get_set. case_decide as Ha.
  - intros [= <-]. cbn. subst. by eapply Hs.
  - by eapply Hs.
Qed.

Lemma cob_run_means ps : cob_means ps (cob_run ps).
Proof.
  induction ps as [|p ps IH] using rev_ind; [by split; [apply jm_wf_nil|]|].
  unfold cob_run. rewrite foldl_app. cbn [foldl]. fold (cob_run ps). unfold cob_poll.
  pose proof (evaluate_means ps p _ IH) as He. destruct (evaluateCobPressure _ _) as [fs s']. cbn in *.
  induction (js_filter p.2 fs) as [|f l IHl] using rev_ind; [done|].
  rewrite foldl_app. by apply acknowledge_means.
Qed.

(** A finding of a resync, with the ratios of all replicas visible *)
Lemma resync_found input s f l limit :
  jm_wf (cs_replicas s) → ci_replicas input = Some l → ratio_limit input = Some limit →
  f ∈ (evaluateCobPressure input s).1 → cf_kind f = resync_loop →
  ∃ addr r t,
    addr ≠ AGGREGATE_KEY ∧ jm_get addr (cs_replicas s) = Some r ∧ rp_lastPressuredAt r = Some t
    ∧ ci_timestamp input - t ≤ COB_PRESSURE_MEMORY_MS ∧ ¬ seen_at input addr
    ∧ 0 < ci_syncFullDelta input ∧ cf_replicaAddr f = Some addr.
Proof.
  intros Hwf Hl Hlim. unfold evaluateCobPressure.
  pose proof (ratio_pass_spec input (cs_replicas s) Hwf) as Hspec.
  destruct (ratio_pass _ _) as [fs rs]. destruct Hspec as (Hwf' & Hfs & Hrs). rewrite Hlim.
  destruct (Z.ltb_spec 0 (ci_syncFullDelta input)) as [Hd|_]; cbn [fst];
    intros [Hf|Hf]%elem_of_app Hk; try by destruct (Hfs f Hf) as [? _].
  2: by apply not_elem_of_nil in Hf.
  unfold overflow_resync in Hf.
  destruct (js_filter _ _) as [|addr rest] eqn:Hc; [by apply not_elem_of_nil in Hf|].
  destruct (resyncRefireOpen _ _); [|by apply not_elem_of_nil in Hf].
  apply list_elem_of_singleton in Hf as ->.
  assert (Hin : addr ∈ js_filter (overflow_candidate input rs)
    (previouslyPressured (ci_timestamp input) (cs_replicas s))) by (rewrite Hc; by left).
  apply js_filter_elem in Hin as [Hcand Hin]. unfold previouslyPressured in Hin.
  apply list_elem_of_fmap in Hin as ([addr' r0] & -> & Hin). cbn [fst] in *.
  apply js_sort_elem, js_filter_elem in Hin as [Hp Hin]. cbn in Hp.
  destruct (rp_lastPressuredAt r0) as [t|] eqn:Ht; [|done]. apply Z.leb_le in Hp.
  unfold overflow_candidate in Hcand. rewrite Hl in Hcand.
  destruct (str_eqb addr' AGGREGATE_KEY) eqn:Heq; [done|].
  assert (Hne : addr' ≠ AGGREGATE_KEY).
  { intros ->. vm_compute in Heq. done. }
  destruct (jm_get addr' rs) as [r|] eqn:Hr; [|done].
  apply negb_true_iff, Z.eqb_neq in Hcand.
  destruct (Hrs addr' r Hne Hr) as [(Hseen & _)|(Hno & Hold)]; [done|].
  exists addr', r0, t. split_and!; try done.
  - by apply jm_elem_get.
  - cbn. unfold reported_addr. by rewrite Heq.
Qed.

(** The re-emission gate *)
Lemma finding_time input s f :
  jm_wf (cs_replicas s) → f ∈ (evaluateCobPressure input s).1 → cf_timestamp f = ci_timestamp input.
Proof.
  intros Hwf. unfold evaluateCobPressure.
  pose proof (ratio_pass_spec input (cs_replicas s) Hwf) as Hspec.
  destruct (ratio_pass _ _) as [fs rs]. destruct Hspec as (_ & Hfs & _).
  assert (Hnil : f ∈ [] → cf_timestamp f = ci_timestamp input) by by intros Hf%not_elem_of_nil.
  destruct (0 <? _); [destruct (ratio_limit input)|]; cbn [fst]; intros [Hf|Hf]%elem_of_app;
    try (by apply Hfs); [| |by apply Hnil].
  - unfold overflow_resync in Hf. destruct (js_filter _ _); [by apply Hnil|].
    destruct (resyncRefireOpen _ _); [|by apply Hnil]. by apply list_elem_of_singleton in Hf as ->.
  - unfold blind_resync in Hf. destruct (recent_syncs _ _ _) as [|? [|? ?]]; [by apply Hnil..|].
    destruct (resyncRefireOpen _ _); [|by apply Hnil]. by apply list_elem_of_singleton in Hf as ->.
Qed.

Lemma resync_gated input s f :
  jm_wf (cs_replicas s) → f ∈ (evaluateCobPressure input s).1 → cf_kind f = resync_loop →
  resyncRefireOpen s (ci_timestamp input) = true.
Proof.
  intros Hwf. unfold evaluateCobPressure.
  pose proof (ratio_pass_spec input (cs_replicas s) Hwf) as Hspec.
  destruct (ratio_pass _ _) as [fs rs]. destruct Hspec as (_ & Hfs & _).
  destruct (resyncRefireOpen s (ci_timestamp input)); [done|]. intros Hf Hk.
  assert (Hq : f ∈ fs → False) by (intros Hin; by destruct (Hfs f Hin)).
  destruct (0 <? _); [destruct (ratio_limit input)|]; cbn [fst] in Hf;
    apply elem_of_app in Hf as [Hf|Hf]; try (by destruct (Hq Hf)); [| |by apply not_elem_of_nil in Hf].
  - unfold overflow_resync in Hf. destruct (js_filter _ _); by apply not_elem_of_nil in Hf.
  - unfold blind_resync in Hf.
    destruct (recent_syncs _ _ _) as [|? [|? ?]]; by apply not_elem_of_nil in Hf.
Qed.

Lemma evaluate_fired input s : cs_resyncFiredAt (evaluateCobPressure input s).2 = cs_resyncFiredAt s.
Proof.
  unfold evaluateCobPressure. destruct (ratio_pass _ _).
  by match goal with |- context [if 0 <? _ then ?a else ?b] => destruct (if 0 <? _ then a else b) end.
Qed.

(** Acknowledging findings of one time sets the gate to that time, if one of them is a resync. *)
Lemma acknowledge_fired now fs s :
  (∀ f, f ∈ fs → cf_timestamp f = now) →
  cs_resyncFiredAt (foldl (λ s f, acknowledgeCobFinding f s) s fs)
  = if js_some (λ f, bool_decide (cf_kind f = resync_loop)) fs then Some now else cs_resyncFiredAt s.
Proof.
  revert s. induction fs as [|f fs IH]; intros s Hfs; [done|]. cbn [foldl].
  rewrite IH by (intros g Hg; apply Hfs; by right). cbn [js_some existsb].
  fold (js_some (λ f, bool_decide (cf_kind f = resync_loop)) fs).
  destruct (js_some _ fs); [by rewrite orb_true_r|]. rewrite orb_false_r.
  unfold acknowledgeCobFinding. case_decide as Hk.
  - rewrite bool_decide_true by done. cbn. f_equal. apply Hfs. by left.
  - rewrite bool_decide_false by done. by destruct (jm_get _ _).
Qed.

(** Once a resync was delivered the gate remembers a time no earlier. *)
Definition fired_since (t : Z) (s : CobConnectionState) : Prop :=
  ∃ t', cs_resyncFiredAt s = Some t' ∧ t ≤ t'.

Lemma poll_fired t p s :
  jm_wf (cs_replicas s) → t ≤ ci_timestamp p.1 →
  (fired_since t s ∨ ∃ f, f ∈ (cob_poll p s).1 ∧ p.2 f = true ∧ cf_kind f = resync_loop) →
  fired_since t (cob_poll p s).2.
Proof.
  intros Hwf Ht. unfold cob_poll.
  pose proof (evaluate_fired p.1 s) as Hfired.
  pose proof (λ f, finding_time p.1 s f Hwf) as Htime.
  destruct (evaluateCobPressure p.1 s) as [fs s']. cbn [fst snd] in *.
  intros Hor. unfold fired_since. rewrite (acknowledge_fired (ci_timestamp p.1)).
  2: { intros f [_ Hf]%js_filter_elem. by apply Htime. }
  destruct (js_some _ _) eqn:Hs; [by exists (ci_timestamp p.1)|].
  destruct Hor as [Hsince|(f & Hf & Hd & Hk)]; [by rewrite Hfired|].
  assert (js_some (λ f, bool_decide (cf_kind f = resync_loop)) (js_filter p.2 fs) = true); [|congruence].
  apply js_some_true. exists f. split; [by apply js_filter_elem|]. by apply bool_decide_eq_true.
Qed.

(** A full-resync alarm is about a connection that really overflowed.  Over any history
    of polls, when CLIENT LIST and the limit are readable, an alarm names a replica that the
    last poll listing its connection, at most five minutes ago, showed above 60 % of an
    enforced limit, whose connection is gone now, while a full sync was counted; and while
    the clock does not go back, two alarms are more than five minutes apart once the first
    was delivered. *)
Theorem cob_resync_sound ps p f :
  f ∈ (cob_poll p (cob_run ps)).1 → cf_kind f = resync_loop →
  (∀ l limit, ci_replicas p.1 = Some l → ratio_limit p.1 = Some limit →
     0 < ci_syncFullDelta p.1
     ∧ ∃ addr t, cf_replicaAddr f = Some addr ∧ last_shown_pressured ps addr t
       ∧ ci_timestamp p.1 - t ≤ 300000 ∧ ¬ seen_at p.1 addr)
  ∧ ∀ before q between g,
      ps = before ++ q :: between →
      StronglySorted (λ a b, ci_timestamp a.1 ≤ ci_timestamp b.1) (q :: between) →
      g ∈ (cob_poll q (cob_run before)).1 → q.2 g = true → cf_kind g = resync_loop →
      300000 < ci_timestamp p.1 - ci_timestamp q.1.
Proof.
  intros Hf Hk. unfold cob_poll in Hf.
  assert (Hf' : f ∈ (evaluateCobPressure p.1 (cob_run ps)).1).
  { revert Hf. by destruct (evaluateCobPressure p.1 (cob_run ps)). }
  clear Hf. split.
  - intros l limit Hl Hlim. destruct (cob_run_means ps) as [Hwf Hmeans].
    destruct (resync_found _ _ _ _ _ Hwf Hl Hlim Hf' Hk) as (addr & r & t & Hne & Hr & Ht & Hmem & Hns & Hd & Ha).
    split; [done|]. exists addr, t. split_and!; try done. by eapply Hmeans.
  - intros before q between g -> Hsort Hg Hdel Hkg.
    assert (Hsince : fired_since (ci_timestamp q.1) (cob_run (before ++ q :: between))).
    { change (q :: between) with ([q] ++ between). rewrite app_assoc.
      inversion Hsort as [|? ? Hs Hq]; subst. clear Hsort Hf' Hs.
      induction between as [|x between IH] using rev_ind.
      - rewrite app_nil_r. unfold cob_run. rewrite foldl_app. cbn [foldl].
        apply poll_fired; [apply (cob_run_means before)|done|]. right. by exists g.
      - apply Forall_app in Hq as [Hq Hx]. rewrite app_assoc. unfold cob_run. rewrite foldl_app.
        cbn [foldl]. apply poll_fired; [apply (cob_run_means _)|apply Forall_inv in Hx; exact Hx|].
        left. by apply IH. }
    destruct Hsince as (t & Hfired & Ht).
    apply resync_gated in Hf'; [|apply (cob_run_means _)|done].
    unfold resyncRefireOpen in Hf'. rewrite Hfired in Hf'. apply Z.ltb_lt in Hf'.
    unfold COB_RESYNC_REFIRE_MS in Hf'. lia.
Qed.

(** A replica fills its buffer, drops off and a full sync is counted. *)
Definition cob_sample (replicas : list ReplicaObservation) (delta timestamp : Z) : CobEvaluationInput :=
  {| ci_replicas := Some replicas;
     ci_limit := parseSlaveOutputBufferLimit (Some "normal 0 0 0 slave 268435456 67108864 60 pubsub 33554432 8388608 60");
     ci_memClientsSlaves := None; ci_connectedSlaves := 1; ci_syncFullDelta := delta;
     ci_timestamp := timestamp |}.
Definition cob_history : list (CobEvaluationInput * (CobPressureFinding → bool)) :=
  [(cob_sample [{| ro_addr := "10.0.0.2:51000"; ro_omem := num_of_Z 250000000 |}] 0 1000, λ _, true)].
Lemma cob_resync_sound_witness :
  ∃ addr t, last_shown_pressured cob_history addr t
    ∧ ¬ seen_at (cob_sample [{| ro_addr := "10.0.0.2:51022"; ro_omem := num_of_Z 0 |}] 1 11000) addr.
Proof.
  set (p := (cob_sample [{| ro_addr := "10.0.0.2:51022"; ro_omem := num_of_Z 0 |}] 1 11000,
             λ _ : CobPressureFinding, true)).
  set (f := default (resync_finding None EmptyString 0)
              (head (cob_poll p (cob_run cob_history)).1)).
  assert (Hf : (cob_poll p (cob_run cob_history)).1 = [f]) by (vm_compute; reflexivity).
  destruct (cob_resync_sound cob_history p f) as [Hsound _];
    [rewrite Hf; by left|vm_compute; reflexivity|].
  destruct (ratio_limit p.1) as [limit|] eqn:Hlim; [|vm_compute in Hlim; discriminate].
  destruct (Hsound _ limit eq_refl eq_refl) as (_ & addr & t & _ & Hlast & _ & Hns).
  exists addr, t. split; [exact Hlast|exact Hns].
Defined.

(** The level alerts of one replica keep the contract of the level detectors: after a
    delivered alert the next one is higher, unless the level went below it in between, and
    one that was not delivered comes again. *)
Theorem cob_levels_keep_contract :
  keeps_contract ReplicaPressureState (RatioAssessment * Z) CobPressureFinding.
Proof. apply contract; apply _. Qed.
