(* ===== verification/AuthFailures.v ===== *)
(** * Bursts of failed authentications

    [auth-failure-detector.ts]: failed AUTHs per client address, from the rows of the ACL log
    in the audit store.  A row carries the cumulative count of its entry, so the detector adds
    up what each entry grew by from scan to scan, over a sliding window. *)
From S2P Require Export GhostMembership.
From stdpp Require Import options.

(** ** Definitions *)
Record StoredAclEntry := {
  ae_id : Z;
  ae_count : option Z;  (* [None]: not a finite number *)
  ae_reason : string;
  ae_context : string;
  ae_object : string;
  ae_username : string;
  ae_ageSeconds : Z;
  ae_clientInfo : string;
  ae_timestampCreated : Z;
  ae_timestampLastUpdated : Z;
  ae_capturedAt : Z;
  ae_sourceHost : string;
  ae_sourcePort : Z;
  ae_connectionId : option string
}.

Definition AUTH_FAILURE_WINDOW_MS : Z := 5 * 60 * 1000.
Definition AUTH_FAILURE_MIN_COUNT : Z := 10.
Definition AUTH_FAILURE_ALERT_COOLDOWN_MS : Z := 15 * 60 * 1000.
Definition AUTH_REASON : string := "auth".

Record AuthFailureSource := {
  as_clientAddress : string;
  as_authFailures : Z;
  as_usernames : list string;
  as_reasonBreakdown : list (string * Z)
}.
Record DeltaSample := { ds_at : Z; ds_delta : Z }.
Record AuthFailureState := {
  af_lastAlertedAt : list (string * Z);
  af_lastCount : list (string * Z);
  af_deltas : list (string * list DeltaSample);
  af_lastSeenAt : list (string * Z)
}.
Definition createAuthFailureState : AuthFailureState :=
  {| af_lastAlertedAt := []; af_lastCount := []; af_deltas := []; af_lastSeenAt := [] |}.

(** [/(?:^|\s)addr=(\S+)/] takes the rest of the first word that starts with [addr=] and has
    more. *)
Definition addr_word (w : string) : bool :=
  starts_with "addr=" w && negb (is_empty (str_drop 5 w)).
(** [/^\[(.+)\]:\d+$/] on a word *)
Definition bracketed (addr : string) : option string :=
  match rsplit ":" addr with
  | Some (String "[" inner, port) =>
      if negb (is_empty port) && str_forall is_digit port then
        match rsplit "]" inner with
        | Some ((String _ _) as host, EmptyString) => Some host
        | _ => None
        end
      else None
  | _ => None
  end.
Definition clientAddressFrom (clientInfo : string) : string :=
  match js_find addr_word (split_ws clientInfo) with
  | None => EmptyString
  | Some w =>
      let addr := str_drop 5 w in
      match bracketed addr with
      | Some host => host
      | None => before_last ":" addr
      end
  end.

Definition entryKey (entry : StoredAclEntry) : string :=
  join "|" [string_of_Z (ae_timestampCreated entry); ae_username entry; ae_reason entry;
            ae_context entry; ae_object entry].

Definition count_of (entry : StoredAclEntry) : Z := default 0 (ae_count entry).
Definition sum_deltas (samples : list DeltaSample) : Z :=
  foldl (λ total sample, total + ds_delta sample) 0 samples.

(** What one row adds *)
Definition delta_of (state : AuthFailureState) (windowStart : Z) (entry : StoredAclEntry) : Z :=
  match jm_get (entryKey entry) (af_lastCount state) with
  | None => if windowStart <=? ae_timestampCreated entry then count_of entry else 0
  | Some previous => Z.max 0 (count_of entry - previous)
  end.
Definition samples_at (key : string) (state : AuthFailureState) : list DeltaSample :=
  default [] (jm_get key (af_deltas state)).
(** The samples of the row's entry that are in the window, with that of this scan *)
Definition in_window (state : AuthFailureState) (now windowMs : Z) (entry : StoredAclEntry)
    : list DeltaSample :=
  let windowStart := now - windowMs in
  let delta := delta_of state windowStart entry in
  let samples := samples_at (entryKey entry) state in
  let samples := if 0 <? delta then samples ++ [{| ds_at := now; ds_delta := delta |}] else samples in
  js_filter (λ sample, windowStart <? ds_at sample) samples.
Definition accumulate_step (now windowMs : Z)
    (acc : list (StoredAclEntry * Z) * AuthFailureState) (entry : StoredAclEntry)
    : list (StoredAclEntry * Z) * AuthFailureState :=
  let '(results, state) := acc in
  let key := entryKey entry in
  let inWindow := in_window state now windowMs entry in
  let deltas := if 0 <? js_len inWindow then jm_set key inWindow (af_deltas state)
                else jm_delete key (af_deltas state) in
  let windowCount := sum_deltas inWindow in
  (if 0 <? windowCount then results ++ [(entry, windowCount)] else results,
   {| af_lastAlertedAt := af_lastAlertedAt state;
      af_lastCount := jm_set key (count_of entry) (af_lastCount state);
      af_deltas := deltas; af_lastSeenAt := jm_set key now (af_lastSeenAt state) |}).
Definition accumulate (state : AuthFailureState) (entries : list StoredAclEntry) (now windowMs : Z)
    : list (StoredAclEntry * Z) * AuthFailureState :=
  foldl (accumulate_step now windowMs) ([], state) entries.

Definition pruneState (state : AuthFailureState) (now windowMs : Z) : AuthFailureState :=
  let cutoff := now - windowMs * 4 in
  let gone := (js_filter (λ kv : string * Z, kv.2 <=? cutoff) (af_lastSeenAt state)).*1 in
  {| af_lastAlertedAt := af_lastAlertedAt state;
     af_lastCount := jm_deletes gone (af_lastCount state);
     af_deltas := jm_deletes gone (af_deltas state);
     af_lastSeenAt := jm_deletes gone (af_lastSeenAt state) |}.

Record Bucket := {
  bk_authFailures : Z; bk_usernames : list (string * Z); bk_reasonBreakdown : list (string * Z)
}.
Definition new_bucket : Bucket :=
  {| bk_authFailures := 0; bk_usernames := []; bk_reasonBreakdown := [] |}.
Definition add_to (k : string) (n : Z) (m : list (string * Z)) : list (string * Z) :=
  jm_set k (default 0 (jm_get k m) + n) m.
Definition fill_bucket (bucket : Bucket) (entry : StoredAclEntry) (count : Z) : Bucket :=
  let reasonBreakdown := add_to (ae_reason entry) count (bk_reasonBreakdown bucket) in
  if str_eqb (ae_reason entry) AUTH_REASON then
    {| bk_authFailures := bk_authFailures bucket + count;
       bk_usernames := add_to (ae_username entry) count (bk_usernames bucket);
       bk_reasonBreakdown := reasonBreakdown |}
  else {| bk_authFailures := bk_authFailures bucket; bk_usernames := bk_usernames bucket;
          bk_reasonBreakdown := reasonBreakdown |}.
Definition bucket_step (byAddress : list (string * Bucket)) (r : StoredAclEntry * Z)
    : list (string * Bucket) :=
  let address := clientAddressFrom (ae_clientInfo r.1) in
  if is_empty address then byAddress
  else jm_set address (fill_bucket (default new_bucket (jm_get address byAddress)) r.1 r.2) byAddress.

Definition source_of (minCount : Z) (kv : string * Bucket) : option AuthFailureSource :=
  if bk_authFailures kv.2 <? minCount then None
  else Some {| as_clientAddress := kv.1; as_authFailures := bk_authFailures kv.2;
               as_usernames := (js_sort (by_desc (λ uv : string * Z, uv.2)) (bk_usernames kv.2)).*1;
               as_reasonBreakdown := bk_reasonBreakdown kv.2 |}.
Definition observeAuthFailures (state : AuthFailureState) (entries : list StoredAclEntry)
    (now windowMs minCount : Z) : list AuthFailureSource * AuthFailureState :=
  let '(results, state) := accumulate state entries now windowMs in
  let byAddress := foldl bucket_step [] results in
  let sources := omap (source_of minCount) byAddress in
  (js_sort (by_desc as_authFailures) sources, pruneState state now windowMs).

Definition alert_step (now cooldownMs : Z)
    (acc : list AuthFailureSource * list (string * Z)) (source : AuthFailureSource)
    : list AuthFailureSource * list (string * Z) :=
  let '(alertable, lastAlertedAt) := acc in
  let cooling := match jm_get (as_clientAddress source) lastAlertedAt with
                 | Some alertedAt => now - alertedAt <=? cooldownMs
                 | None => false
                 end in
  if cooling then acc
  else (alertable ++ [source], jm_set (as_clientAddress source) now lastAlertedAt).
Definition takeAlertable (state : AuthFailureState) (sources : list AuthFailureSource)
    (now cooldownMs : Z) : list AuthFailureSource * AuthFailureState :=
  let kept := js_filter (λ kv : string * Z, now - kv.2 <=? cooldownMs) (af_lastAlertedAt state) in
  let '(alertable, lastAlertedAt) := foldl (alert_step now cooldownMs) ([], kept) sources in
  (alertable,
   {| af_lastAlertedAt := lastAlertedAt; af_lastCount := af_lastCount state;
      af_deltas := af_deltas state; af_lastSeenAt := af_lastSeenAt state |}).

(** One scan of a connection *)
Definition scan_auth (entries : list StoredAclEntry) (now : Z) (state : AuthFailureState)
    : list AuthFailureSource * AuthFailureState :=
  let '(sources, state) :=
    observeAuthFailures state entries now AUTH_FAILURE_WINDOW_MS AUTH_FAILURE_MIN_COUNT in
  takeAlertable state sources now AUTH_FAILURE_ALERT_COOLDOWN_MS.

(** ** Specification *)
Definition scan : Type := Z * list StoredAclEntry.
Definition lists_entry (k : string) (p : scan) : Prop := ∃ e, e ∈ p.2 ∧ entryKey e = k.
Definition auth_run (ps : list scan) : AuthFailureState :=
  foldl (λ s p, (scan_auth p.2 p.1 s).2) createAuthFailureState ps.

(** An ACL log seen through scans: [failures k t] is how many failures the entry with key [k]
    had seen before time [t].  Within a scan the keys are distinct; a count covers failures
    since the entry was created, and two counts differ by no more than the failures between
    the scans (the log may be reset in between). *)
Record log_ok (failures : string → Z → Z) (ps : list scan) : Prop := {
  lo_mono k t t' : t ≤ t' → failures k t ≤ failures k t';
  lo_clock : StronglySorted (λ p q, p.1 ≤ q.1) ps;
  lo_keys p : p ∈ ps → NoDup (entryKey <$> p.2);
  lo_created p e : p ∈ ps → e ∈ p.2 →
    ae_timestampCreated e ≤ p.1
    ∧ count_of e ≤ failures (entryKey e) p.1 - failures (entryKey e) (ae_timestampCreated e);
  lo_growth before p between q after e e' :
    ps = before ++ p :: between ++ q :: after → e ∈ p.2 → e' ∈ q.2 → entryKey e = entryKey e' →
    count_of e' - count_of e ≤ failures (entryKey e) q.1 - failures (entryKey e) p.1
}.

(** The time [b] a reported count reaches back to: within two windows, or the last scan that
    listed the entry before the window opened. *)
Definition window_base (ps : list scan) (k : string) (now b : Z) : Prop :=
  now - 2 * AUTH_FAILURE_WINDOW_MS < b
  ∨ ∃ before p after, ps = before ++ p :: after ∧ p.1 = b ∧ lists_entry k p
      ∧ ∀ q, q ∈ after → lists_entry k q → now - AUTH_FAILURE_WINDOW_MS < q.1.

(** ** Lemmas *)
(** The keys of a scan evolve independently. *)
Lemma accumulate_spec s l now w :
  NoDup (entryKey <$> l) →
  let '(results, s') := accumulate s l now w in
  (∀ k, k ∉ entryKey <$> l →
     jm_get k (af_lastCount s') = jm_get k (af_lastCount s) ∧ samples_at k s' = samples_at k s)
  ∧ (∀ e, e ∈ l → jm_get (entryKey e) (af_lastCount s') = Some (count_of e)
       ∧ samples_at (entryKey e) s' = in_window s now w e)
  ∧ (∀ e n, (e, n) ∈ results → e ∈ l ∧ n = sum_deltas (in_window s now w e))
  ∧ results.*1 `sublist_of` l.
Proof.
  induction l as [|e l IH] using rev_ind.
  { intros _. cbn. split_and!; [done| | |done].
    - intros e He. by apply not_elem_of_nil in He.
    - intros e n He. by apply not_elem_of_nil in He. }
  rewrite fmap_app, NoDup_app. intros (Hl & Hdisj & _). specialize (IH Hl).
  unfold accumulate in *. rewrite foldl_app. destruct (foldl _ _ l) as [results s'].
  destruct IH as (Hout & Hin & Hres & Hsub).
  assert (He : entryKey e ∉ entryKey <$> l).
  { intros He. apply (Hdisj _ He). by left. }
  destruct (Hout _ He) as [Hc Hs].
  assert (Hwin : in_window s' now w e = in_window s now w e).
  { unfold in_window, delta_of. by rewrite Hc, Hs. }
  cbn [foldl]. unfold accumulate_step. rewrite Hwin.
  set (m := if 0 <? js_len _ then _ else _).
  assert (Hm : ∀ k, default [] (jm_get k m) = if decide (k = entryKey e) then in_window s now w e
                                                else samples_at k s').
  { intros k. unfold m, samples_at. destruct (Z.ltb_spec 0 (js_len (in_window s now w e))) as [|Hlen].
    - rewrite jm_get_set. by case_decide.
    - rewrite jm_get_delete. case_decide; [|done]. destruct (in_window s now w e); [done|].
      unfold js_len in Hlen. cbn in Hlen. lia. }
  unfold samples_at at 1 3. cbn [af_lastCount af_deltas]. split_and!.
  - intros k Hk. rewrite Hm. cbn in Hk. rewrite elem_of_app, list_elem_of_singleton in Hk. apply Decidable.not_or in Hk as [Hk Hne].
    rewrite jm_get_set_ne, decide_False by done. by apply Hout.
  - intros x [Hx|Hx]%elem_of_app.
    + assert (entryKey x ≠ entryKey e).
      { intros Heq. apply He. rewrite <-Heq. by apply list_elem_of_fmap_2. }
      rewrite jm_get_set_ne, Hm, decide_False by done. by apply Hin.
    + apply list_elem_of_singleton in Hx as ->. by rewrite jm_get_set_eq, Hm, decide_True.
  - intros x n. assert (Hold : (x, n) ∈ results → x ∈ l ++ [e] ∧ n = sum_deltas (in_window s now w x)).
    { intros [Hx ->]%Hres. split; [|done]. apply elem_of_app. by left. }
    destruct (0 <? sum_deltas (in_window s now w e)); [|exact Hold]. intros [Hx|Hx]%elem_of_app; [by apply Hold|].
    apply list_elem_of_singleton in Hx as [= -> ->]. split; [|done]. apply elem_of_app. right. by left.
  - destruct (0 <? sum_deltas (in_window s now w e)); [|by apply sublist_inserts_r]. rewrite fmap_app. by apply sublist_app.
Qed.

Section accounting.
Context (failures : string → Z → Z).

(** Where the growth of a sample taken at [at_] was counted from: the entry's creation, or the
    last scan that listed it. *)
Definition sample_origin (ps : list scan) (k : string) (from at_ : Z) : Prop :=
  at_ - AUTH_FAILURE_WINDOW_MS ≤ from
  ∨ ∃ before p after, ps = before ++ p :: after ∧ p.1 = from ∧ lists_entry k p
      ∧ ∀ q, q ∈ after → lists_entry k q → at_ ≤ q.1.

(** The samples of an entry follow each other in time, each within its failures. *)
Inductive chain (ps : list scan) (k : string) : Z → list DeltaSample → Prop :=
  | chain_nil t : chain ps k t []
  | chain_snoc t samples from at_ d t' :
      chain ps k t samples → t ≤ from ∨ samples = [] → from ≤ at_ → at_ ≤ t' →
      d ≤ failures k at_ - failures k from → sample_origin ps k from at_ →
      chain ps k t' (samples ++ [{| ds_at := at_; ds_delta := d |}]).

Lemma chain_weaken ps k t t' l : chain ps k t l → t ≤ t' → chain ps k t' l.
Proof using Type. destruct 1; intros Ht; econstructor; try done; lia. Qed.

Lemma chain_filter ps k t l p : chain ps k t l → chain ps k t (js_filter p l).
Proof using Type.
  induction 1 as [t|t l from at_ d t' Hl IH Hor Hle Hat Hd Ho]; [constructor|].
  rewrite js_filter_app. cbn. destruct (p _).
  - econstructor; try done. destruct Hor as [| ->]; [by left|by right].
  - rewrite app_nil_r. destruct Hor as [Ht|Hnil]; [apply (chain_weaken _ _ t); [done|lia]|].
    rewrite Hnil. constructor.
Qed.

Lemma chain_later ps p k t l :
  chain ps k t l → t ≤ p.1 → chain (ps ++ [p]) k t l.
Proof using Type.
  induction 1 as [t|t l from at_ d t' Hl IH Hor Hle Hat Hd Ho]; intros Ht; [constructor|].
  econstructor; [|done..|].
  - destruct Hor as [Htf| ->]; [apply IH; lia|constructor].
  - destruct Ho as [Ho|(before & q & after & -> & Hq & Hl' & Hafter)]; [by left|right].
    exists before, q, (after ++ [p]). split_and!; [by rewrite <-app_assoc|done|done|].
    intros x [Hx|Hx]%elem_of_app; [by apply Hafter|]. apply list_elem_of_singleton in Hx as ->. lia.
Qed.

Lemma sum_snoc l x : sum_deltas (l ++ [x]) = sum_deltas l + ds_delta x.
Proof using Type. unfold sum_deltas. by rewrite foldl_app. Qed.

(** The samples after [ws] add up to no more than the failures since the first one's origin. *)
Lemma chain_bound ps k t l ws :
  (∀ k t t', t ≤ t' → failures k t ≤ failures k t') → chain ps k t l →
  js_filter (λ s, ws <? ds_at s) l ≠ [] →
  ∃ from at_, ws < at_ ∧ sample_origin ps k from at_ ∧ from ≤ t
    ∧ sum_deltas (js_filter (λ s, ws <? ds_at s) l) ≤ failures k t - failures k from.
Proof using Type.
  intros Hmono. induction 1 as [t|t l from at_ d t' Hl IH Hor Hle Hat Hd Ho]; [done|].
  rewrite js_filter_app. cbn. destruct (Z.ltb_spec ws at_) as [Hws|Hws].
  - intros _. rewrite sum_snoc. cbn [ds_delta].
    pose proof (Hmono k at_ t' Hat). pose proof (Hmono k from at_ Hle).
    destruct (js_filter (λ s, ws <? ds_at s) l) as [|x l'] eqn:Hf.
    + exists from, at_. split_and!; [done|done|lia|]. cbn. lia.
    + destruct IH as (from' & at' & Hat' & Ho' & Hft & Hsum); [done|].
      destruct Hor as [Htf| ->]; [|done]. pose proof (Hmono k t from Htf).
      exists from', at'. split_and!; [done|done|lia|lia].
  - rewrite app_nil_r. intros Hne. destruct (IH Hne) as (from' & at' & ? & ? & ? & ?).
    destruct Hor as [Htf| ->]; [|done]. pose proof (Hmono k t t' ltac:(lia)).
    exists from', at'. split_and!; [done|done|lia|lia].
Qed.

(** What the state holds of an entry *)
Definition entry_means (ps : list scan) (s : AuthFailureState) (k : string) : Prop :=
  match jm_get k (af_lastCount s) with
  | None => samples_at k s = []
  | Some c => ∃ before p after e,
      ps = before ++ p :: after ∧ e ∈ p.2 ∧ entryKey e = k ∧ count_of e = c
      ∧ (∀ q, q ∈ after → ¬ lists_entry k q)
      ∧ chain ps k p.1 (samples_at k s)
  end.

Lemma log_ok_prefix ps qs : log_ok failures (ps ++ qs) → log_ok failures ps.
Proof using Type.
  intros [Hm Hc Hk Hcr Hg]. split; [done| | | |].
  - by eapply StronglySorted_app_1_l.
  - intros p Hp. apply Hk, elem_of_app. by left.
  - intros p e Hp. apply Hcr, elem_of_app. by left.
  - intros before p between q after e e' ->. apply (Hg before p between q (after ++ qs)).
    by rewrite <-!app_assoc; cbn; rewrite <-!app_assoc.
Qed.

Lemma clock_le ps p q : log_ok failures (ps ++ [p]) → q ∈ ps → q.1 ≤ p.1.
Proof using Type.
  intros Hlog Hq. eapply (StronglySorted_app_1_elem_of _ _ _ _ _ (lo_clock _ _ Hlog)); [done|by left].
Qed.

Lemma in_window_chain ps p s e :
  log_ok failures (ps ++ [p]) → e ∈ p.2 → entry_means ps s (entryKey e) →
  chain (ps ++ [p]) (entryKey e) p.1 (in_window s p.1 AUTH_FAILURE_WINDOW_MS e).
Proof using Type.
  intros Hlog He. unfold entry_means, in_window, delta_of. intros Hs. apply chain_filter.
  assert (Hp : p ∈ ps ++ [p]) by (apply elem_of_app; right; by left).
  destruct (jm_get _ (af_lastCount s)) as [c|].
  - destruct Hs as (before & q & after & e0 & -> & He0 & Hk & Hc & Hafter & Hchain).
    pose proof (clock_le _ p q Hlog ltac:(apply elem_of_app; right; by left)) as Hqp.
    pose proof (chain_later _ p _ _ _ Hchain Hqp) as Hchain'.
    destruct (Z.ltb_spec 0 (Z.max 0 (count_of e - c))) as [Hpos|_]; [|by eapply chain_weaken].
    apply (chain_snoc _ _ q.1 _ q.1); [done|left; lia|done|lia| |].
    + pose proof (lo_growth _ _ Hlog before q after p [] e0 e) as Hg.
      rewrite Hk in Hg. rewrite Z.max_r, <-Hc by lia. apply Hg; try done. by rewrite <-app_assoc.
    + right. exists before, q, (after ++ [p]). split_and!; [by rewrite <-app_assoc|done|by exists e0|].
      intros x [Hx|Hx]%elem_of_app Hl; [by destruct (Hafter x Hx)|].
      apply list_elem_of_singleton in Hx as ->. lia.
  - rewrite Hs. cbn [app]. destruct (lo_created _ _ Hlog p e Hp He) as [Hcr Hcount].
    destruct (Z.leb_spec (p.1 - AUTH_FAILURE_WINDOW_MS) (ae_timestampCreated e)) as [Hin|_];
      [|destruct (Z.ltb_spec 0 0); [lia|constructor]].
    destruct (0 <? count_of e); [|constructor].
    apply (chain_snoc _ _ p.1 [] (ae_timestampCreated e)); [constructor|by right|done|lia|done|by left].
Qed.

Lemma scan_means ps p s :
  log_ok failures (ps ++ [p]) → (∀ k, entry_means ps s k) →
  ∀ k, entry_means (ps ++ [p]) (scan_auth p.2 p.1 s).2 k.
Proof using Type.
  intros Hlog Hs k. unfold scan_auth, observeAuthFailures.
  pose proof (accumulate_spec s p.2 p.1 AUTH_FAILURE_WINDOW_MS
    (lo_keys _ _ Hlog p ltac:(apply elem_of_app; right; by left))) as Hacc.
  destruct (accumulate _ _ _ _) as [results s']. destruct Hacc as (Hout & Hin & _ & _).
  unfold takeAlertable. destruct (foldl _ _ (js_sort _ _)) as [al m]. cbn [snd].
  unfold entry_means, samples_at. cbn [af_lastCount af_deltas pruneState]. rewrite !jm_get_deletes.
  destruct (decide (k ∈ _)); [done|]. fold (samples_at k s').
  destruct (decide (k ∈ entryKey <$> p.2)) as [Hk|Hk].
  - apply list_elem_of_fmap in Hk as (e & -> & He). destruct (Hin e He) as [-> ->].
    exists ps, p, [], e. split_and!; try done; [intros q Hq; by apply not_elem_of_nil in Hq|].
    by apply in_window_chain.
  - destruct (Hout k Hk) as [-> ->]. specialize (Hs k). unfold entry_means in Hs.
    destruct (jm_get k (af_lastCount s)) as [c|]; [|done].
    destruct Hs as (before & q & after & e0 & -> & He0 & Hkq & Hc & Hafter & Hchain).
    exists before, q, (after ++ [p]), e0. split_and!; [by rewrite <-app_assoc|done..| |].
    + intros x [Hx|Hx]%elem_of_app; [by apply Hafter|]. apply list_elem_of_singleton in Hx as ->.
      intros (e & He & <-). apply Hk. by apply list_elem_of_fmap_2.
    + apply chain_later; [done|]. apply (clock_le _ p q Hlog). apply elem_of_app. right. by left.
Qed.

Lemma auth_run_means ps : log_ok failures ps → ∀ k, entry_means ps (auth_run ps) k.
Proof using Type.
  induction ps as [|p ps IH] using rev_ind; [done|]. intros Hlog. unfold auth_run. rewrite foldl_app.
  apply scan_means; [done|]. apply IH. by eapply log_ok_prefix.
Qed.

(** What the scan counts for an entry *)
Lemma in_window_bound ps p e :
  log_ok failures (ps ++ [p]) → e ∈ p.2 →
  let n := sum_deltas (in_window (auth_run ps) p.1 AUTH_FAILURE_WINDOW_MS e) in
  0 < n →
  ∃ b, n ≤ failures (entryKey e) p.1 - failures (entryKey e) b
       ∧ window_base (ps ++ [p]) (entryKey e) p.1 b.
Proof using Type.
  intros Hlog He n Hn.
  pose proof (in_window_chain ps p (auth_run ps) e Hlog He
    (auth_run_means ps (log_ok_prefix _ _ Hlog) _)) as Hchain.
  assert (Hfilter : js_filter (λ s, p.1 - AUTH_FAILURE_WINDOW_MS <? ds_at s)
      (in_window (auth_run ps) p.1 AUTH_FAILURE_WINDOW_MS e)
    = in_window (auth_run ps) p.1 AUTH_FAILURE_WINDOW_MS e).
  { apply js_filter_all. intros x Hx. unfold in_window in Hx. by apply js_filter_elem in Hx as [Hx _]. }
  destruct (chain_bound _ _ _ _ (p.1 - AUTH_FAILURE_WINDOW_MS) (lo_mono _ _ Hlog) Hchain)
    as (from & at_ & Hat & Ho & _ & Hsum).
  { rewrite Hfilter. intros Hnil. unfold n in Hn. by rewrite Hnil in Hn. }
  rewrite Hfilter in Hsum. exists from. split; [done|].
  destruct Ho as [Ho|(before & q & after & Heq & Hq & Hl & Hafter)]; [left; lia|right].
  exists before, q, after. split_and!; [done..|]. intros x Hx Hlx. specialize (Hafter x Hx Hlx). lia.
Qed.
End accounting.

Lemma accumulate_pos s l now w : ∀ e n, (e, n) ∈ (accumulate s l now w).1 → 0 < n.
Proof.
  unfold accumulate. induction l as [|x l IH] using rev_ind.
  { intros e n Hin. cbn in Hin. by apply not_elem_of_nil in Hin. }
  intros e n. rewrite foldl_app. destruct (foldl _ _ l) as [results s']. cbn [foldl].
  unfold accumulate_step. destruct (Z.ltb_spec 0 (sum_deltas (in_window s' now w x))); [|apply IH].
  cbn [fst]. intros [Hin|Hin]%elem_of_app; [by eapply IH|].
  apply list_elem_of_singleton in Hin as [= -> ->]. done.
Qed.

(** *** Totals per address *)
Definition auth_part (address : string) (r : StoredAclEntry * Z) : bool :=
  str_eqb (ae_reason r.1) AUTH_REASON && str_eqb (clientAddressFrom (ae_clientInfo r.1)) address.
Definition total (l : list (StoredAclEntry * Z)) : Z := foldl (λ t r, t + r.2) 0 l.

Lemma total_snoc l r : total (l ++ [r]) = total l + r.2.
Proof. unfold total. by rewrite foldl_app. Qed.

Lemma str_eqb_iff s t : str_eqb s t = true ↔ s = t.
Proof. apply bool_decide_eq_true. Qed.

Lemma buckets_total results a :
  a ≠ EmptyString →
  bk_authFailures (default new_bucket (jm_get a (foldl bucket_step [] results)))
  = total (js_filter (auth_part a) results).
Proof.
  intros Ha. induction results as [|r l IH] using rev_ind; [done|].
  rewrite foldl_app, js_filter_app. cbn [foldl js_filter]. unfold bucket_step at 1, auth_part at 2.
  set (m := foldl bucket_step [] l) in *. set (addr := clientAddressFrom (ae_clientInfo r.1)).
  destruct (is_empty addr) eqn:He.
  { destruct addr; [|done]. replace (str_eqb EmptyString a) with false.
    - by rewrite andb_false_r, app_nil_r.
    - symmetry. apply not_true_iff_false. by rewrite str_eqb_iff. }
  rewrite jm_get_set. destruct (decide (a = addr)) as [Heq|Hne].
  - rewrite <-Heq. replace (str_eqb a a) with true by (symmetry; by apply str_eqb_iff).
    rewrite andb_true_r. cbn [default]. unfold fill_bucket.
    destruct (str_eqb (ae_reason r.1) AUTH_REASON); cbn [bk_authFailures].
    + by rewrite total_snoc, IH.
    + by rewrite app_nil_r, IH.
  - replace (str_eqb addr a) with false.
    + by rewrite andb_false_r, app_nil_r.
    + symmetry. apply not_true_iff_false. rewrite str_eqb_iff. congruence.
Qed.

Lemma buckets_wf results :
  jm_wf (foldl bucket_step [] results)
  ∧ EmptyString ∉ (foldl bucket_step [] results).*1.
Proof.
  induction results as [|r l [Hwf Hne]] using rev_ind; [split; [apply jm_wf_nil|apply not_elem_of_nil]|].
  rewrite foldl_app. cbn [foldl]. unfold bucket_step at 1 3.
  destruct (is_empty _) eqn:He; [done|]. split; [by apply jm_wf_set|].
  intros Hin. apply list_elem_of_fmap in Hin as ([k b] & Hk & [[-> _]|Hin]%jm_set_elem).
  - cbn in Hk. by rewrite <-Hk in He.
  - apply Hne. rewrite Hk. by apply list_elem_of_fmap_2.
Qed.

(** A source reported for an address has the address's total. *)
Lemma observed_source s l now w minCount f :
  f ∈ (observeAuthFailures s l now w minCount).1 ↔
  ∃ b, (as_clientAddress f, b) ∈ foldl bucket_step [] (accumulate s l now w).1
     ∧ source_of minCount (as_clientAddress f, b) = Some f.
Proof.
  unfold observeAuthFailures. destruct (accumulate s l now w) as [results s']. cbn [fst].
  rewrite js_sort_elem, list_elem_of_omap. split.
  - intros ([a b] & Hin & Hs). assert (a = as_clientAddress f) as <-; [|by exists b].
    unfold source_of in Hs. destruct (_ <? _); [done|]. by injection Hs as <-.
  - intros (b & Hin & Hs). by eexists.
Qed.

(** A reported burst is made of real failures, whatever the ACL log does: its count is the
    sum of one part per entry of the log, each for failed authentications whose latest client
    is the reported address, and no part is more than the failures its entry saw since a time
    at most two windows ago, or since the last scan that listed the entry before the window
    opened.  Cumulative counts, repeated rows and resets of the log are never counted twice. *)
Theorem auth_failures_real failures ps p f :
  log_ok failures (ps ++ [p]) →
  f ∈ (observeAuthFailures (auth_run ps) p.2 p.1 AUTH_FAILURE_WINDOW_MS AUTH_FAILURE_MIN_COUNT).1 →
  ∃ parts,
    as_authFailures f = total parts ∧ 10 ≤ total parts ∧ NoDup (entryKey <$> parts.*1)
    ∧ ∀ e n, (e, n) ∈ parts →
        e ∈ p.2 ∧ ae_reason e = "auth" ∧ clientAddressFrom (ae_clientInfo e) = as_clientAddress f
        ∧ ∃ b, n ≤ failures (entryKey e) p.1 - failures (entryKey e) b
               ∧ window_base (ps ++ [p]) (entryKey e) p.1 b.
Proof.
  intros Hlog (b & Hb & Hs)%observed_source.
  pose proof (lo_keys _ _ Hlog p ltac:(apply elem_of_app; right; by left)) as Hkeys.
  pose proof (accumulate_spec (auth_run ps) p.2 p.1 AUTH_FAILURE_WINDOW_MS Hkeys) as Hacc.
  pose proof (accumulate_pos (auth_run ps) p.2 p.1 AUTH_FAILURE_WINDOW_MS) as Hpos.
  destruct (accumulate _ _ _ _) as [results s']. destruct Hacc as (_ & _ & Hres & Hsub). cbn [fst] in *.
  destruct (buckets_wf results) as [Hwf Hne].
  assert (Ha : as_clientAddress f ≠ EmptyString).
  { intros Heq. rewrite Heq in Hb. apply Hne. by apply (list_elem_of_fmap_2 fst _ (EmptyString, b)). }
  pose proof (buckets_total results _ Ha) as Htotal. rewrite (jm_elem_get _ _ _ Hwf Hb) in Htotal.
  exists (js_filter (auth_part (as_clientAddress f)) results). rewrite <-Htotal. cbn [default].
  unfold source_of in Hs. cbn [fst snd] in Hs. destruct (Z.ltb_spec (bk_authFailures b) AUTH_FAILURE_MIN_COUNT) as [|Hmin]; [done|].
  injection Hs as <-. cbn [as_authFailures as_clientAddress snd fst] in *. split_and!; [done|exact Hmin| |].
  - eapply sublist_NoDup; [exact Hkeys|]. apply fmap_sublist. etrans; [|exact Hsub].
    apply fmap_sublist, js_filter_sublist.
  - intros e n [Hpart Hin]%js_filter_elem. destruct (Hres e n Hin) as [He Hn].
    unfold auth_part in Hpart. apply andb_true_iff in Hpart as [Hr%str_eqb_iff Hc%str_eqb_iff].
    split_and!; [done..|]. rewrite Hn. apply in_window_bound; [done|done|]. rewrite <-Hn. by eapply Hpos.
Qed.

Definition acl_row (count created : Z) (user clientInfo : string) : StoredAclEntry :=
  {| ae_id := 1; ae_count := Some count; ae_reason := "auth"; ae_context := "toplevel";
     ae_object := "AUTH"; ae_username := user; ae_ageSeconds := 0; ae_clientInfo := clientInfo;
     ae_timestampCreated := created; ae_timestampLastUpdated := created; ae_capturedAt := created;
     ae_sourceHost := "db"; ae_sourcePort := 6379; ae_connectionId := Some "c1" |}.
Definition acl_scans : list scan :=
  [(30000, [acl_row 6 10000 "admin" "id=5 addr=10.1.2.3:53124 laddr=10.0.0.1:6379"])].
Definition acl_last : scan :=
  (60000, [acl_row 14 10000 "admin" "id=9 addr=10.1.2.3:53340 laddr=10.0.0.1:6379"]).
(** Fourteen failures, one each 3.5 s from 10 s on *)
Definition acl_failures (k : string) (t : Z) : Z := Z.max 0 (Z.min 14 ((t - 6501) / 3500)).

Lemma auth_failures_real_witness :
  ∃ f, (observeAuthFailures (auth_run acl_scans) acl_last.2 acl_last.1 AUTH_FAILURE_WINDOW_MS
          AUTH_FAILURE_MIN_COUNT).1 = [f]
       ∧ as_clientAddress f = "10.1.2.3"
       ∧ ∃ parts, as_authFailures f = total parts ∧ 10 ≤ total parts.
Proof.
  set (f := {| as_clientAddress := "10.1.2.3"; as_authFailures := 14; as_usernames := ["admin"];
               as_reasonBreakdown := [("auth", 14)] |}).
  exists f. split; [vm_compute; reflexivity|]. split; [reflexivity|].
  destruct (auth_failures_real acl_failures acl_scans acl_last f) as (parts & H1 & H2 & _);
    [|vm_compute; by left|by exists parts].
  split.
  - intros k t t' Ht. unfold acl_failures.
    assert ((t - 6501) / 3500 ≤ (t' - 6501) / 3500) by (apply Z.div_le_mono; lia). lia.
  - repeat constructor. vm_compute. discriminate.
  - intros p [->|[->|[]%not_elem_of_nil]%elem_of_cons]%elem_of_cons; vm_compute;
      (constructor; [apply not_elem_of_nil|constructor]).
  - intros p e [->|[->|[]%not_elem_of_nil]%elem_of_cons]%elem_of_cons He;
      apply list_elem_of_singleton in He as ->; vm_compute; split; discriminate.
  - intros before p between q after e e' Heq He He' _.
    destruct before as [|x [|y before]]; cbn in Heq.
    + injection Heq as <- Heq. destruct between as [|x between]; cbn in Heq.
      * injection Heq as <- _. apply list_elem_of_singleton in He as ->.
        apply list_elem_of_singleton in He' as ->. vm_compute. discriminate.
      * injection Heq as _ Heq. by destruct between.
    + injection Heq as _ _ Heq. by destruct between.
    + injection Heq as _ _ Heq. by destruct before.
Defined.

(** *** The cooldown of an address *)
Lemma alerts_spec now kept sources :
  let '(al, m) := foldl (alert_step now AUTH_FAILURE_ALERT_COOLDOWN_MS) ([], kept) sources in
  let cooling a := ∃ t, jm_get a kept = Some t ∧ now - t ≤ AUTH_FAILURE_ALERT_COOLDOWN_MS in
  (∀ f, f ∈ al → f ∈ sources ∧ ¬ cooling (as_clientAddress f))
  ∧ (∀ a, jm_get a m = if decide (a ∈ as_clientAddress <$> al) then Some now else jm_get a kept)
  ∧ (∀ f, f ∈ sources → as_clientAddress f ∈ as_clientAddress <$> al ∨ cooling (as_clientAddress f)).
Proof.
  induction sources as [|f l IH] using rev_ind.
  { cbn. split_and!; [intros f Hf; by apply not_elem_of_nil in Hf|done|].
    intros f Hf. by apply not_elem_of_nil in Hf. }
  rewrite foldl_app. destruct (foldl _ _ l) as [al m]. destruct IH as (Hal & Hm & Hall).
  cbn [foldl]. unfold alert_step. rewrite (Hm (as_clientAddress f)).
  assert (Hstep : ∀ al', al `prefix_of` al' → as_clientAddress f ∈ as_clientAddress <$> al' ∨
      (∃ t, jm_get (as_clientAddress f) kept = Some t ∧ now - t ≤ AUTH_FAILURE_ALERT_COOLDOWN_MS) →
    ∀ g, g ∈ l ++ [f] → as_clientAddress g ∈ as_clientAddress <$> al'
      ∨ ∃ t, jm_get (as_clientAddress g) kept = Some t ∧ now - t ≤ AUTH_FAILURE_ALERT_COOLDOWN_MS).
  { intros al' [k ->] Hf g [Hg|Hg]%elem_of_app.
    - destruct (Hall g Hg) as [H|H]; [|by right]. left. rewrite fmap_app. apply elem_of_app. by left.
    - by apply list_elem_of_singleton in Hg as ->. }
  assert (Hold : ∀ g, g ∈ al → g ∈ l ++ [f] ∧ ¬ ∃ t, jm_get (as_clientAddress g) kept = Some t
      ∧ now - t ≤ AUTH_FAILURE_ALERT_COOLDOWN_MS).
  { intros g Hg. destruct (Hal g Hg) as [Hin Hno]. split; [apply elem_of_app; by left|done]. }
  case_decide as Ha.
  - rewrite Z.sub_diag. cbn. split_and!; [done|done|]. apply Hstep; [done|by left].
  - destruct (jm_get (as_clientAddress f) kept) as [t|] eqn:Ht;
      [destruct (Z.leb_spec (now - t) AUTH_FAILURE_ALERT_COOLDOWN_MS) as [Hle|Hgt]|].
    + split_and!; [done|done|]. apply Hstep; [done|]. right. by exists t.
    + split_and!.
      * intros g [Hg|Hg]%elem_of_app; [by apply Hold|]. apply list_elem_of_singleton in Hg as ->.
        split; [apply elem_of_app; right; by left|]. intros (t' & Ht' & Hle). rewrite Ht in Ht'.
        injection Ht' as <-. lia.
      * intros a. rewrite jm_get_set, Hm, fmap_app. cbn.
        repeat case_decide; set_solver.
      * apply Hstep; [by eexists|]. left. rewrite fmap_app. apply elem_of_app. right. by left.
    + split_and!.
      * intros g [Hg|Hg]%elem_of_app; [by apply Hold|]. apply list_elem_of_singleton in Hg as ->.
        split; [apply elem_of_app; right; by left|]. intros (t' & Ht' & Hle). congruence.
      * intros a. rewrite jm_get_set, Hm, fmap_app. cbn.
        repeat case_decide; set_solver.
      * apply Hstep; [by eexists|]. left. rewrite fmap_app. apply elem_of_app. right. by left.
Qed.

(** An alert of the address at the last scan of [ps] *)
Definition alerted (ps : list scan) (p : scan) (a : string) : Prop :=
  a ∈ as_clientAddress <$> (scan_auth p.2 p.1 (auth_run ps)).1.

(** What the cooldown map holds: the alerts of the past, and all of them that may still cool. *)
Definition cooldown_means (ps : list scan) (s : AuthFailureState) : Prop :=
  jm_wf (af_lastAlertedAt s)
  ∧ (∀ a t, jm_get a (af_lastAlertedAt s) = Some t →
       ∃ before p after, ps = before ++ p :: after ∧ p.1 = t ∧ alerted before p a)
  ∧ ∀ before p after a, ps = before ++ p :: after → alerted before p a →
      (∃ t, jm_get a (af_lastAlertedAt s) = Some t ∧ p.1 ≤ t)
      ∨ ∃ q, q ∈ ps ∧ AUTH_FAILURE_ALERT_COOLDOWN_MS < q.1 - p.1.

Lemma kept_get now m a t :
  jm_wf m →
  jm_get a (js_filter (λ kv : string * Z, now - kv.2 <=? AUTH_FAILURE_ALERT_COOLDOWN_MS) m) = Some t ↔
  jm_get a m = Some t ∧ now - t ≤ AUTH_FAILURE_ALERT_COOLDOWN_MS.
Proof.
  intros Hwf. split.
  - intros Hg%jm_get_elem. apply js_filter_elem in Hg as [Hle Hin]. cbn in Hle.
    split; [by apply jm_elem_get|lia].
  - intros [Hg Hle]. apply jm_elem_get; [by apply js_filter_wf|]. apply js_filter_elem. cbn.
    split; [by apply Z.leb_le|by apply jm_get_elem].
Qed.

Lemma alerts_wf now kept sources :
  jm_wf kept → jm_wf (foldl (alert_step now AUTH_FAILURE_ALERT_COOLDOWN_MS) ([], kept) sources).2.
Proof.
  intros Hwf. induction sources as [|f l IH] using rev_ind; [done|]. rewrite foldl_app.
  destruct (foldl _ _ l) as [al m]. cbn [foldl alert_step snd] in *.
  destruct (jm_get _ m); [destruct (_ <=? _); [done|]|]; by apply jm_wf_set.
Qed.

Lemma accumulate_alerted s l now w : af_lastAlertedAt (accumulate s l now w).2 = af_lastAlertedAt s.
Proof.
  unfold accumulate. induction l as [|x l IH] using rev_ind; [done|]. rewrite foldl_app.
  by destruct (foldl _ _ l).
Qed.

(** A scan in terms of what it observed *)
Lemma scan_auth_alerts entries now s :
  let sources := (observeAuthFailures s entries now AUTH_FAILURE_WINDOW_MS AUTH_FAILURE_MIN_COUNT).1 in
  let r := foldl (alert_step now AUTH_FAILURE_ALERT_COOLDOWN_MS)
    ([], js_filter (λ kv : string * Z, now - kv.2 <=? AUTH_FAILURE_ALERT_COOLDOWN_MS)
           (af_lastAlertedAt s)) sources in
  (scan_auth entries now s).1 = r.1 ∧ af_lastAlertedAt (scan_auth entries now s).2 = r.2.
Proof.
  unfold scan_auth, observeAuthFailures.
  pose proof (accumulate_alerted s entries now AUTH_FAILURE_WINDOW_MS) as Ha.
  destruct (accumulate _ _ _ _) as [results s']. cbn [fst snd] in *. unfold takeAlertable.
  cbn [af_lastAlertedAt pruneState]. rewrite Ha. by destruct (foldl _ _ (js_sort _ _)).
Qed.

Lemma cooldown_step ps p :
  StronglySorted (λ p q : scan, p.1 ≤ q.1) (ps ++ [p]) → cooldown_means ps (auth_run ps) →
  cooldown_means (ps ++ [p]) (auth_run (ps ++ [p])).
Proof.
  intros Hclock (Hwf & Hpast & Hall). unfold auth_run at 1. rewrite foldl_app. cbn [foldl].
  fold (auth_run ps). destruct (scan_auth_alerts p.2 p.1 (auth_run ps)) as [Hal Hm].
  set (kept := js_filter _ _) in *. set (sources := fst (observeAuthFailures _ _ _ _ _)) in *.
  pose proof (alerts_spec p.1 kept sources) as Hspec. pose proof (alerts_wf p.1 kept sources) as Hwf'.
  destruct (foldl _ _ sources) as [al m]. destruct Hspec as (_ & Hget & _). cbn [fst snd] in *.
  assert (Hnow : ∀ a, alerted ps p a ↔ a ∈ as_clientAddress <$> al).
  { intros a. unfold alerted. by rewrite Hal. }
  unfold cooldown_means. rewrite Hm. split_and!; [by apply Hwf', js_filter_wf| |].
  - intros a t. rewrite Hget. case_decide as Ha.
    + intros [= <-]. exists ps, p, []. split_and!; [done|done|by apply Hnow].
    + intros [Hg _]%kept_get; [|done]. destruct (Hpast a t Hg) as (before & q & after & -> & ? & ?).
      exists before, q, (after ++ [p]). by rewrite <-app_assoc.
  - intros before q after a Heq Hq. destruct after as [|x after' _] using rev_ind.
    + apply app_inj_tail in Heq as [<- <-]. left. exists p.1. rewrite Hget.
      rewrite decide_True by by apply Hnow. done.
    + change (q :: after' ++ [x]) with ((q :: after') ++ [x]) in Heq. rewrite app_assoc in Heq.
      apply app_inj_tail in Heq as [-> <-].
      assert (Hqp : q.1 ≤ p.1).
      { eapply (StronglySorted_app_1_elem_of _ _ _ _ _ Hclock); [|by left].
        apply elem_of_app. right. by left. }
      destruct (Hall before q after' a eq_refl Hq) as [(t & Ht & Hle)|(r & Hr & Hgap)].
      2: { right. exists r. split; [apply elem_of_app; by left|done]. }
      destruct (decide (a ∈ as_clientAddress <$> al)) as [Ha|Ha].
      { left. exists p.1. rewrite Hget. by rewrite decide_True. }
      destruct (Z.le_gt_cases (p.1 - t) AUTH_FAILURE_ALERT_COOLDOWN_MS) as [Hc|Hc].
      * left. exists t. rewrite Hget, decide_False by done. split; [|done]. by apply kept_get.
      * right. exists p. split; [apply elem_of_app; right; by left|lia].
Qed.

Lemma cooldown_run ps :
  StronglySorted (λ p q : scan, p.1 ≤ q.1) ps → cooldown_means ps (auth_run ps).
Proof.
  induction ps as [|p ps IH] using rev_ind.
  - intros _. split_and!; [apply jm_wf_nil|done|]. intros before p after a Heq. by destruct before.
  - intros Hclock. apply cooldown_step; [done|]. apply IH. by eapply StronglySorted_app_1_l.
Qed.

(** Alerts about one address are more than fifteen minutes apart while the clock does not
    go back, and the cooldown is all that keeps one back: every burst observed is alerted,
    unless an alert of the same address was taken within the last fifteen minutes. *)
Theorem auth_alerts_cooldown ps p :
  StronglySorted (λ p q : scan, p.1 ≤ q.1) (ps ++ [p]) →
  (∀ a before q between,
     ps = before ++ q :: between → alerted before q a → alerted ps p a → 900000 < p.1 - q.1)
  ∧ ∀ f, f ∈ (observeAuthFailures (auth_run ps) p.2 p.1 AUTH_FAILURE_WINDOW_MS
                AUTH_FAILURE_MIN_COUNT).1 →
      alerted ps p (as_clientAddress f)
      ∨ ∃ before q between, ps = before ++ q :: between
          ∧ alerted before q (as_clientAddress f) ∧ p.1 - q.1 ≤ 900000.
Proof.
  intros Hclock.
  destruct (cooldown_run ps) as (Hwf & Hpast & Hall); [by eapply StronglySorted_app_1_l|].
  unfold alerted at 2 3. destruct (scan_auth_alerts p.2 p.1 (auth_run ps)) as [-> _].
  set (kept := js_filter _ _). set (sources := fst (observeAuthFailures _ _ _ _ _)).
  pose proof (alerts_spec p.1 kept sources) as Hspec.
  destruct (foldl _ _ sources) as [al m]. destruct Hspec as (Hal & _ & Hcover). cbn [fst] in *.
  split.
  - intros a before q between -> Hq Ha.
    destruct (Hall before q between a eq_refl Hq) as [(t & Ht & Hle)|(r & Hr & Hgap)].
    + apply list_elem_of_fmap in Ha as (f & -> & Hf). destruct (Hal f Hf) as [_ Hno].
      destruct (Z.le_gt_cases (p.1 - t) AUTH_FAILURE_ALERT_COOLDOWN_MS) as [Hc|Hc];
        [|unfold AUTH_FAILURE_ALERT_COOLDOWN_MS in Hc; lia].
      destruct Hno. exists t. split; [by apply kept_get|done].
    + assert (r.1 ≤ p.1) by (eapply (StronglySorted_app_1_elem_of _ _ _ _ _ Hclock); [done|by left]).
      unfold AUTH_FAILURE_ALERT_COOLDOWN_MS in Hgap. lia.
  - intros f Hf. destruct (Hcover f Hf) as [Ha|(t & Hg & Hc)]; [by left|right].
    apply kept_get in Hg as [Hg _]; [|done].
    destruct (Hpast _ _ Hg) as (before & q & after & -> & <- & Hq). by exists before, q, after.
Qed.

Lemma auth_alerts_cooldown_witness :
  alerted acl_scans acl_last "10.1.2.3"
  ∨ ∃ before q between, acl_scans = before ++ q :: between
      ∧ alerted before q "10.1.2.3" ∧ acl_last.1 - q.1 ≤ 900000.
Proof.
  set (f := {| as_clientAddress := "10.1.2.3"; as_authFailures := 14; as_usernames := ["admin"];
               as_reasonBreakdown := [("auth", 14)] |}).
  apply (proj2 (auth_alerts_cooldown acl_scans acl_last
                  ltac:(repeat constructor; vm_compute; discriminate)) f).
  vm_compute. by left.
Defined.

(** The distinct keys are needed: the audit store keeps one row per source host and port, which
    the key leaves out, and two rows of one entry are not collapsed.  After the monitored
    address of a connection changed, the row of the old address stays, and at every scan the
    entry seems to grow from the old count to the new one. *)
Definition two_rows : list StoredAclEntry :=
  [acl_row 14 10000 "admin" "addr=10.1.2.3:53340"; acl_row 8 10000 "admin" "addr=10.1.2.3:53124"].
Lemma repeated_rows_recount :
  as_authFailures
    <$> (observeAuthFailures (auth_run [(400000, two_rows); (430000, two_rows)]) two_rows 460000
           AUTH_FAILURE_WINDOW_MS AUTH_FAILURE_MIN_COUNT).1 = [24].
Proof. vm_compute. reflexivity. Qed.
