(* ===== verification/AnomalyStorage.v ===== *)
(** * Storage of anomalies

    The anomaly tables of [memory.adapter.ts] with the rows and queries of
    [storage-port.interface.ts].  [AnomalyStore] is what the anomaly service relies on of a
    storage adapter; its laws state what a row is and that a query returns the newest rows
    that match. *)
From S2P Require Export AnomalyTypes.
From stdpp Require Import options.

(** ** Definitions *)
Record StoredAnomalyEvent := {
  sa_id : string;
  sa_timestamp : Z;
  sa_metricType : string;
  sa_anomalyType : string;
  sa_severity : string;
  sa_value : number;
  sa_baseline : number;
  sa_stdDev : number;
  sa_zScore : number;
  sa_threshold : number;
  sa_message : string;
  sa_correlationId : option string;
  sa_relatedMetrics : option (list string);
  sa_resolved : bool;
  sa_resolvedAt : option Z;
  sa_durationMs : option Z;
  sa_sourceHost : option string;
  sa_sourcePort : option Z;
  sa_connectionId : option string
}.
Record StoredCorrelatedGroup := {
  sg_correlationId : string;
  sg_timestamp : Z;
  sg_pattern : string;
  sg_severity : string;
  sg_diagnosis : string;
  sg_recommendations : list string;
  sg_anomalyCount : Z;
  sg_metricTypes : list string;
  sg_sourceHost : option string;
  sg_sourcePort : option Z;
  sg_connectionId : option string
}.
Record AnomalyQueryOptions := {
  aq_startTime : option Z;
  aq_endTime : option Z;
  aq_severity : option string;
  aq_metricType : option string;
  aq_pattern : option string;
  aq_resolved : option bool;
  aq_limit : option Z;
  aq_offset : option Z;
  aq_connectionId : option string
}.
Record AnomalyStats := {
  st_totalEvents : Z;
  st_bySeverity : list (string * Z);
  st_byMetric : list (string * Z);
  st_unresolvedCount : Z
}.

(** The tables of the adapter *)
Record AnomalyTables := {
  tb_anomalyEvents : list StoredAnomalyEvent;
  tb_correlatedGroups : list StoredCorrelatedGroup
}.
Definition empty_tables : AnomalyTables := {| tb_anomalyEvents := []; tb_correlatedGroups := [] |}.

Definition with_connection (connectionId : string) (e : StoredAnomalyEvent) : StoredAnomalyEvent :=
  {| sa_id := sa_id e; sa_timestamp := sa_timestamp e; sa_metricType := sa_metricType e;
     sa_anomalyType := sa_anomalyType e; sa_severity := sa_severity e; sa_value := sa_value e;
     sa_baseline := sa_baseline e; sa_stdDev := sa_stdDev e; sa_zScore := sa_zScore e;
     sa_threshold := sa_threshold e; sa_message := sa_message e;
     sa_correlationId := sa_correlationId e; sa_relatedMetrics := sa_relatedMetrics e;
     sa_resolved := sa_resolved e; sa_resolvedAt := sa_resolvedAt e; sa_durationMs := sa_durationMs e;
     sa_sourceHost := sa_sourceHost e; sa_sourcePort := sa_sourcePort e;
     sa_connectionId := Some connectionId |}.
Definition group_with_connection (connectionId : string) (g : StoredCorrelatedGroup)
    : StoredCorrelatedGroup :=
  {| sg_correlationId := sg_correlationId g; sg_timestamp := sg_timestamp g;
     sg_pattern := sg_pattern g; sg_severity := sg_severity g; sg_diagnosis := sg_diagnosis g;
     sg_recommendations := sg_recommendations g; sg_anomalyCount := sg_anomalyCount g;
     sg_metricTypes := sg_metricTypes g; sg_sourceHost := sg_sourceHost g;
     sg_sourcePort := sg_sourcePort g; sg_connectionId := Some connectionId |}.

Definition set_events (l : list StoredAnomalyEvent) (t : AnomalyTables) : AnomalyTables :=
  {| tb_anomalyEvents := l; tb_correlatedGroups := tb_correlatedGroups t |}.
Definition set_groups (l : list StoredCorrelatedGroup) (t : AnomalyTables) : AnomalyTables :=
  {| tb_anomalyEvents := tb_anomalyEvents t; tb_correlatedGroups := l |}.

Definition saveAnomalyEvent (event : StoredAnomalyEvent) (connectionId : string) (t : AnomalyTables)
    : string * AnomalyTables :=
  (sa_id event, set_events (tb_anomalyEvents t ++ [with_connection connectionId event]) t).
Definition saveAnomalyEvents (events : list StoredAnomalyEvent) (connectionId : string)
    (t : AnomalyTables) : Z * AnomalyTables :=
  (js_len events,
   foldl (λ t event, set_events (tb_anomalyEvents t ++ [with_connection connectionId event]) t)
     t events).

(** A filter [if (option)] with an option that is a string or a number *)
Definition when_string (o : option string) (p : string → bool) : bool :=
  match o with Some ((String _ _) as s) => p s | _ => true end.
Definition when_number (o : option Z) (p : Z → bool) : bool :=
  match o with Some n => (n =? 0) || p n | None => true end.
Definition same_string (s : string) (o : option string) : bool := bool_decide (o = Some s).

Definition event_matches (options : AnomalyQueryOptions) (e : StoredAnomalyEvent) : bool :=
  when_string (aq_connectionId options) (λ c, same_string c (sa_connectionId e))
  && when_number (aq_startTime options) (λ t, t <=? sa_timestamp e)
  && when_number (aq_endTime options) (λ t, sa_timestamp e <=? t)
  && when_string (aq_severity options) (λ s, str_eqb (sa_severity e) s)
  && when_string (aq_metricType options) (λ m, str_eqb (sa_metricType e) m)
  && when_some (aq_resolved options) (λ r, bool_decide (sa_resolved e = r)).
(** [.slice(offset ?? 0, (offset ?? 0) + (limit ?? n))] *)
Definition page {A} (options : AnomalyQueryOptions) (n : Z) (l : list A) : list A :=
  let offset := default 0 (aq_offset options) in
  js_slice offset (offset + default n (aq_limit options)) l.
Definition getAnomalyEvents (options : AnomalyQueryOptions) (t : AnomalyTables)
    : list StoredAnomalyEvent :=
  page options 100
    (js_sort (by_desc sa_timestamp) (js_filter (event_matches options) (tb_anomalyEvents t))).

Definition bump (k : string) (m : list (string * Z)) : list (string * Z) :=
  jm_set k (default 0 (jm_get k m) + 1) m.
Definition getAnomalyStats (startTime endTime : option Z) (connectionId : option string)
    (t : AnomalyTables) : AnomalyStats :=
  let filtered :=
    js_filter (λ e, when_string connectionId (λ c, same_string c (sa_connectionId e))
                    && when_number startTime (λ s, s <=? sa_timestamp e)
                    && when_number endTime (λ s, sa_timestamp e <=? s)) (tb_anomalyEvents t) in
  {| st_totalEvents := js_len filtered;
     st_bySeverity := foldl (λ m e, bump (sa_severity e) m) [] filtered;
     st_byMetric := foldl (λ m e, bump (sa_metricType e) m) [] filtered;
     st_unresolvedCount := js_len (js_filter (λ e, negb (sa_resolved e)) filtered) |}.

Definition mark_resolved (resolvedAt : Z) (e : StoredAnomalyEvent) : StoredAnomalyEvent :=
  if sa_resolved e then e
  else {| sa_id := sa_id e; sa_timestamp := sa_timestamp e; sa_metricType := sa_metricType e;
          sa_anomalyType := sa_anomalyType e; sa_severity := sa_severity e; sa_value := sa_value e;
          sa_baseline := sa_baseline e; sa_stdDev := sa_stdDev e; sa_zScore := sa_zScore e;
          sa_threshold := sa_threshold e; sa_message := sa_message e;
          sa_correlationId := sa_correlationId e; sa_relatedMetrics := sa_relatedMetrics e;
          sa_resolved := true; sa_resolvedAt := Some resolvedAt;
          sa_durationMs := Some (resolvedAt - sa_timestamp e);
          sa_sourceHost := sa_sourceHost e; sa_sourcePort := sa_sourcePort e;
          sa_connectionId := sa_connectionId e |}.
(** The row found is changed in place. *)
Definition resolveAnomaly (id : string) (resolvedAt : Z) (t : AnomalyTables) : bool * AnomalyTables :=
  match js_find_index (λ e, str_eqb (sa_id e) id) (tb_anomalyEvents t) with
  | None => (false, t)
  | Some i => (true, set_events (alter (mark_resolved resolvedAt) i (tb_anomalyEvents t)) t)
  end.

Definition too_old {A} (time : A → Z) (conn : A → option string) (cutoff : Z)
    (connectionId : option string) (x : A) : bool :=
  (time x <? cutoff) && when_string connectionId (λ c, same_string c (conn x)).
Definition pruneOldAnomalyEvents (cutoffTimestamp : Z) (connectionId : option string)
    (t : AnomalyTables) : Z * AnomalyTables :=
  let kept := js_filter (λ e, negb (too_old sa_timestamp sa_connectionId cutoffTimestamp connectionId e))
                (tb_anomalyEvents t) in
  (js_len (tb_anomalyEvents t) - js_len kept, set_events kept t).

Definition same_group (g g' : StoredCorrelatedGroup) : bool :=
  str_eqb (sg_correlationId g') (sg_correlationId g)
  && bool_decide (sg_connectionId g' = sg_connectionId g).
Definition saveCorrelatedGroup (group : StoredCorrelatedGroup) (connectionId : string)
    (t : AnomalyTables) : string * AnomalyTables :=
  let g := group_with_connection connectionId group in
  (sg_correlationId group,
   match js_find_index (same_group g) (tb_correlatedGroups t) with
   | Some i => set_groups (<[i := g]> (tb_correlatedGroups t)) t
   | None => set_groups (tb_correlatedGroups t ++ [g]) t
   end).
Definition getCorrelatedGroups (options : AnomalyQueryOptions) (t : AnomalyTables)
    : list StoredCorrelatedGroup :=
  page options 50
    (js_sort (by_desc sg_timestamp)
       (js_filter (λ g, when_string (aq_connectionId options) (λ c, same_string c (sg_connectionId g))
                        && when_number (aq_startTime options) (λ t, t <=? sg_timestamp g)
                        && when_number (aq_endTime options) (λ t, sg_timestamp g <=? t)
                        && when_string (aq_severity options) (λ s, str_eqb (sg_severity g) s)
                        && when_string (aq_pattern options) (λ p, str_eqb (sg_pattern g) p))
          (tb_correlatedGroups t))).
Definition pruneOldCorrelatedGroups (cutoffTimestamp : Z) (connectionId : option string)
    (t : AnomalyTables) : Z * AnomalyTables :=
  let kept := js_filter (λ g, negb (too_old sg_timestamp sg_connectionId cutoffTimestamp connectionId g))
                (tb_correlatedGroups t) in
  (js_len (tb_correlatedGroups t) - js_len kept, set_groups kept t).

(** *** The SQLite adapter

    The statements of [sqlite.adapter.ts] on the table [anomaly_events], whose primary key is
    [id]: the insert updates four columns on a conflict.  The order of the rows of a query is
    that of [ORDER BY timestamp DESC], which leaves ties to the database. *)
Definition or_null_string (o : option string) : option string :=
  match o with Some EmptyString => None | _ => o end.
Definition or_null_number (o : option Z) : option Z :=
  match o with Some n => if n =? 0 then None else o | None => None end.
Definition sqlite_row (connectionId : string) (e : StoredAnomalyEvent) : StoredAnomalyEvent :=
  {| sa_id := sa_id e; sa_timestamp := sa_timestamp e; sa_metricType := sa_metricType e;
     sa_anomalyType := sa_anomalyType e; sa_severity := sa_severity e; sa_value := sa_value e;
     sa_baseline := sa_baseline e; sa_stdDev := sa_stdDev e; sa_zScore := sa_zScore e;
     sa_threshold := sa_threshold e; sa_message := sa_message e;
     sa_correlationId := or_null_string (sa_correlationId e);
     sa_relatedMetrics := sa_relatedMetrics e; sa_resolved := sa_resolved e;
     sa_resolvedAt := or_null_number (sa_resolvedAt e);
     sa_durationMs := or_null_number (sa_durationMs e);
     sa_sourceHost := or_null_string (sa_sourceHost e);
     sa_sourcePort := or_null_number (sa_sourcePort e); sa_connectionId := Some connectionId |}.
(** [DO UPDATE SET correlation_id, resolved, resolved_at, duration_ms] *)
Definition sqlite_update (e row : StoredAnomalyEvent) : StoredAnomalyEvent :=
  {| sa_id := sa_id row; sa_timestamp := sa_timestamp row; sa_metricType := sa_metricType row;
     sa_anomalyType := sa_anomalyType row; sa_severity := sa_severity row;
     sa_value := sa_value row; sa_baseline := sa_baseline row; sa_stdDev := sa_stdDev row;
     sa_zScore := sa_zScore row; sa_threshold := sa_threshold row; sa_message := sa_message row;
     sa_correlationId := or_null_string (sa_correlationId e);
     sa_relatedMetrics := sa_relatedMetrics row; sa_resolved := sa_resolved e;
     sa_resolvedAt := or_null_number (sa_resolvedAt e);
     sa_durationMs := or_null_number (sa_durationMs e);
     sa_sourceHost := sa_sourceHost row; sa_sourcePort := sa_sourcePort row;
     sa_connectionId := sa_connectionId row |}.
Definition sqlite_saveAnomalyEvent (event : StoredAnomalyEvent) (connectionId : string)
    (t : AnomalyTables) : string * AnomalyTables :=
  (sa_id event,
   set_events
     (if js_some (λ row, str_eqb (sa_id row) (sa_id event)) (tb_anomalyEvents t)
      then (λ row, if str_eqb (sa_id row) (sa_id event) then sqlite_update event row else row)
           <$> tb_anomalyEvents t
      else tb_anomalyEvents t ++ [sqlite_row connectionId event]) t).
(** [UPDATE ... SET resolved = 1 ... WHERE id = ? AND resolved = 0], then a look for the row *)
Definition sqlite_resolveAnomaly (id : string) (resolvedAt : Z) (t : AnomalyTables)
    : bool * AnomalyTables :=
  (js_some (λ row, str_eqb (sa_id row) id) (tb_anomalyEvents t),
   set_events ((λ row, if str_eqb (sa_id row) id then mark_resolved resolvedAt row else row)
               <$> tb_anomalyEvents t) t).
(** [ORDER BY timestamp DESC LIMIT ? OFFSET ?] *)
Definition sqlite_getAnomalyEvents (order : list StoredAnomalyEvent → list StoredAnomalyEvent)
    (options : AnomalyQueryOptions) (t : AnomalyTables) : list StoredAnomalyEvent :=
  let rows :=
    drop (Z.to_nat (default 0 (aq_offset options)))
      (order (js_filter (event_matches options) (tb_anomalyEvents t))) in
  let limit := default 100 (aq_limit options) in
  if limit <? 0 then rows else take (Z.to_nat limit) rows.

(** ** The interface of the anomaly service *)
(** What the service relies on of the storage port *)
Class AnomalyStore (X : Type) := {
  an_saveAnomalyEvent : StoredAnomalyEvent → string → M X unit string;
  an_getAnomalyEvents : AnomalyQueryOptions → M X unit (list StoredAnomalyEvent);
  an_resolveAnomaly : string → Z → M X unit bool;
  an_saveCorrelatedGroup : StoredCorrelatedGroup → string → M X unit string;
  an_getCorrelatedGroups : AnomalyQueryOptions → M X unit (list StoredCorrelatedGroup)
}.
#[global] Instance memory_anomalies : AnomalyStore AnomalyTables := {
  an_saveAnomalyEvent e c t := let '(r, t') := saveAnomalyEvent e c t in (Ok r, t');
  an_getAnomalyEvents o t := (Ok (getAnomalyEvents o t), t);
  an_resolveAnomaly i now t := let '(r, t') := resolveAnomaly i now t in (Ok r, t');
  an_saveCorrelatedGroup g c t := let '(r, t') := saveCorrelatedGroup g c t in (Ok r, t');
  an_getCorrelatedGroups o t := (Ok (getCorrelatedGroups o t), t)
}.
Definition sqlite_anomalies (order : list StoredAnomalyEvent → list StoredAnomalyEvent)
    : AnomalyStore AnomalyTables := {|
  an_saveAnomalyEvent e c t := let '(r, t') := sqlite_saveAnomalyEvent e c t in (Ok r, t');
  an_getAnomalyEvents o t := (Ok (sqlite_getAnomalyEvents order o t), t);
  an_resolveAnomaly i now t := let '(r, t') := sqlite_resolveAnomaly i now t in (Ok r, t');
  an_saveCorrelatedGroup g c t := let '(r, t') := saveCorrelatedGroup g c t in (Ok r, t');
  an_getCorrelatedGroups o t := (Ok (getCorrelatedGroups o t), t)
|}.

(** What a query can see of a row, other than whether it is resolved *)
Definition row_key (e : StoredAnomalyEvent) : string * Z * string * string * option string :=
  (sa_id e, sa_timestamp e, sa_severity e, sa_metricType e, sa_connectionId e).

(** Saving an event leaves the rows of other events and the keys of its own; it makes a row
    when there was none, and reopens none. *)
Record saved (e : StoredAnomalyEvent) (c : string) (l l' : list StoredAnomalyEvent) : Prop := {
  sv_others row : sa_id row ≠ sa_id e → row ∈ l' ↔ row ∈ l;
  sv_kept row : row ∈ l → sa_id row = sa_id e →
    ∃ row', row' ∈ l' ∧ row_key row' = row_key row
      ∧ (sa_resolved e = false → sa_resolved row = false → sa_resolved row' = false);
  sv_new : (∀ row, row ∈ l → sa_id row ≠ sa_id e) →
    ∃ row', row' ∈ l' ∧ row_key row' = row_key (with_connection c e) ∧ sa_resolved row' = sa_resolved e
}.
(** A page that is large enough is a permutation of the matching rows. *)
Class AnomalyStoreLaws (X : Type) `{AnomalyStore X} := {
  an_rows : X → list StoredAnomalyEvent;
  an_save_law e c x :
    let '(r, x') := an_saveAnomalyEvent e c x in
    match r with Ok _ => saved e c (an_rows x) (an_rows x') | Throw _ => an_rows x' = an_rows x end;
  an_query_law o x :
    let '(r, x') := an_getAnomalyEvents o x in
    an_rows x' = an_rows x
    ∧ ∀ l, r = Ok l → (∀ row, row ∈ l → row ∈ an_rows x ∧ event_matches o row = true)
        ∧ ∀ n, aq_limit o = Some n → js_len (an_rows x) ≤ n → default 0 (aq_offset o) = 0 →
          l ≡ₚ js_filter (event_matches o) (an_rows x);
  an_resolve_law i now x :
    let '(r, x') := an_resolveAnomaly i now x in
    ∀ row, sa_id row ≠ i → row ∈ an_rows x' ↔ row ∈ an_rows x;
  an_group_law g c x : an_rows (an_saveCorrelatedGroup g c x).2 = an_rows x
}.
Class DurableStore (X : Type) `{AnomalyStoreLaws X} := {
  du_resolve i now x x' :
    an_resolveAnomaly i now x = (Ok true, x') →
    ∀ row, row ∈ an_rows x' → sa_id row = i → sa_resolved row = true;
  du_keep i now x :
    (∀ row, row ∈ an_rows x → sa_id row = i → sa_resolved row = true) →
    ∀ row, row ∈ an_rows (an_resolveAnomaly i now x).2 → sa_id row = i → sa_resolved row = true
}.

(** ** Lemmas *)
Lemma memory_query o t :
  (∀ row, row ∈ getAnomalyEvents o t → row ∈ tb_anomalyEvents t ∧ event_matches o row = true)
  ∧ ∀ n, aq_limit o = Some n → js_len (tb_anomalyEvents t) ≤ n → default 0 (aq_offset o) = 0 →
      getAnomalyEvents o t ≡ₚ js_filter (event_matches o) (tb_anomalyEvents t).
Proof.
  unfold getAnomalyEvents, page. split.
  - intros row Hr%js_slice_sub. apply js_sort_elem, js_filter_elem in Hr. naive_solver.
  - intros n -> Hn ->. cbn [default from_option id]. rewrite js_slice_prefix by (unfold js_len in Hn; lia).
    rewrite take_ge, js_sort_perm; [done|]. rewrite js_sort_length.
    pose proof (js_filter_length (event_matches o) (tb_anomalyEvents t)). unfold js_len in Hn. lia.
Qed.

Lemma alter_found {A} (p : A → bool) (f : A → A) i l x :
  js_find_index p l = Some i → p x = false → (∀ y, p (f y) = p y) → x ∈ alter f i l ↔ x ∈ l.
Proof.
  intros (y & Hy & Hp & _)%js_find_index_Some Hx Hf.
  rewrite !list_elem_of_lookup. split; intros [j Hj]; exists j.
  - destruct (decide (i = j)) as [<-|Hne].
    + rewrite list_lookup_alter_eq, Hy in Hj. injection Hj as <-. rewrite Hf in Hx. congruence.
    + by rewrite list_lookup_alter_ne in Hj.
  - destruct (decide (i = j)) as [<-|Hne]; [congruence|]. by rewrite list_lookup_alter_ne.
Qed.

Lemma mark_resolved_id now e : sa_id (mark_resolved now e) = sa_id e.
Proof. unfold mark_resolved. by destruct (sa_resolved e). Qed.

Lemma str_neq_eqb (s t : string) : s ≠ t → str_eqb s t = false.
Proof. apply bool_decide_eq_false_2. Qed.

#[global] Instance memory_laws : AnomalyStoreLaws AnomalyTables.
Proof.
  refine {| an_rows := tb_anomalyEvents |}.
  - intros e c t. cbn. split.
    + intros row Hne. rewrite elem_of_app, list_elem_of_singleton. split; [|by left].
      intros [?| ->]; [done|]. by destruct Hne.
    + intros row Hrow _. exists row. split_and!; [apply elem_of_app; by left|done..].
    + intros _. exists (with_connection c e). split_and!; [apply elem_of_app; right; by left|done..].
  - intros o t. cbn. split; [done|]. intros l [= <-]. apply memory_query.
  - intros i now t. cbn. unfold resolveAnomaly.
    destruct (js_find_index _ _) as [j|] eqn:Hj; [|done]. cbn. intros row Hne.
    eapply alter_found; [exact Hj|by apply str_neq_eqb|].
    intros y. cbv beta. by rewrite mark_resolved_id.
  - intros g c t. cbn. by destruct (js_find_index _ _).
Defined.

Section sqlite.
Context (order : list StoredAnomalyEvent → list StoredAnomalyEvent).
Hypothesis order_perm : ∀ l, order l ≡ₚ l.
#[local] Existing Instance sqlite_anomalies.
#[local] Remove Hints memory_anomalies memory_laws : typeclass_instances.

Lemma sqlite_query o t :
  (∀ row, row ∈ sqlite_getAnomalyEvents order o t →
     row ∈ tb_anomalyEvents t ∧ event_matches o row = true)
  ∧ ∀ n, aq_limit o = Some n → js_len (tb_anomalyEvents t) ≤ n → default 0 (aq_offset o) = 0 →
      sqlite_getAnomalyEvents order o t ≡ₚ js_filter (event_matches o) (tb_anomalyEvents t).
Proof using order_perm.
  unfold sqlite_getAnomalyEvents. split.
  - intros row Hr. assert (Hin : row ∈ order (js_filter (event_matches o) (tb_anomalyEvents t))).
    { destruct (_ <? 0); [by apply subseteq_drop in Hr|]. apply subseteq_take in Hr.
      by apply subseteq_drop in Hr. }
    rewrite order_perm in Hin. apply js_filter_elem in Hin. naive_solver.
  - intros n -> Hn ->. cbn [default from_option id]. rewrite drop_0.
    destruct (Z.ltb_spec n 0) as [Hneg|_]; [unfold js_len in Hn; lia|].
    rewrite take_ge, order_perm; [done|]. rewrite order_perm.
    pose proof (js_filter_length (event_matches o) (tb_anomalyEvents t)). unfold js_len in Hn. lia.
Qed.

Lemma map_found {A} (p : A → bool) (f : A → A) (l : list A) x :
  p x = false → (∀ y, p (f y) = p y) → x ∈ (λ y, if p y then f y else y) <$> l ↔ x ∈ l.
Proof using Type.
  intros Hx Hf. rewrite list_elem_of_fmap. split.
  - intros (y & -> & Hy). destruct (p y) eqn:Hp; [|done]. rewrite Hf in Hx. congruence.
  - intros Hin. exists x. by rewrite Hx.
Qed.

Definition sqlite_laws : @AnomalyStoreLaws AnomalyTables (sqlite_anomalies order).
Proof using order_perm.
  unshelve refine {| an_rows := tb_anomalyEvents |}.
  - intros e c t. cbn.
    destruct (js_some _ (tb_anomalyEvents t)) eqn:Hs; cbn; split.
    + intros row Hne. apply (map_found (λ row, str_eqb (sa_id row) (sa_id e)) (sqlite_update e));
        [by apply str_neq_eqb|done].
    + intros row Hrow Hid. exists (sqlite_update e row). split_and!; [|done|by intros He _].
      apply list_elem_of_fmap. exists row. split; [|done]. unfold str_eqb. by rewrite Hid, bool_decide_eq_true_2.
    + intros Hnone. apply js_some_true in Hs as (row & Hrow & Hid%bool_decide_eq_true).
      by destruct (Hnone row Hrow).
    + intros row Hne. rewrite elem_of_app, list_elem_of_singleton. split; [|by left].
      intros [?| ->]; [done|]. by destruct Hne.
    + intros row Hrow _. exists row. split_and!; [apply elem_of_app; by left|done..].
    + intros _. exists (sqlite_row c e). split_and!; [apply elem_of_app; right; by left|done..].
  - intros o t. cbn. split; [done|]. intros l [= <-]. apply sqlite_query.
  - intros i now t. cbn. intros row Hne.
    apply (map_found (λ row, str_eqb (sa_id row) i) (mark_resolved now)); [by apply str_neq_eqb|].
    intros y. cbv beta. by rewrite mark_resolved_id.
  - intros g c t. cbn. by destruct (js_find_index _ _).
Defined.

Lemma mark_all_rows i now t row :
  row ∈ an_rows (AnomalyStoreLaws := sqlite_laws) (sqlite_resolveAnomaly i now t).2 →
  sa_id row = i → sa_resolved row = true.
Proof using Type.
  cbn. intros Hrow Hid. apply list_elem_of_fmap in Hrow as (y & -> & Hy).
  destruct (str_eqb (sa_id y) i) eqn:He.
  - unfold mark_resolved. destruct (sa_resolved y) eqn:Hr; cbn; congruence.
  - apply bool_decide_eq_false in He. done.
Qed.

Definition sqlite_durable : @DurableStore AnomalyTables (sqlite_anomalies order) sqlite_laws.
Proof using order_perm.
  split.
  - intros i now x x' Hr row. cbn in Hr. injection Hr as _ <-. apply mark_all_rows.
  - intros i now x _ row. cbn. apply mark_all_rows.
Defined.
End sqlite.
