(* ===== verification/AnomalyFeed.v ===== *)
(** * The anomaly feed

    The part of [anomaly.service.ts] that records anomalies and serves them: adding an event
    to the cache and to storage, correlating the cache, the recent and the active feed, and
    resolving.  The cache and the groups hold references to shared event objects; the storage
    adapter is a parameter whose operations may throw. *)
From S2P Require Export AnomalyStorage Correlator.
From stdpp Require Import options.

(** ** Definitions *)

Record ConnectionContext := {
  cx_connectionId : string; cx_connectionName : string; cx_host : string; cx_port : Z
}.

(** [a || b] on values that are strings or [undefined] *)
Definition or_string (a b : option string) : option string :=
  match a with Some (String _ _) => a | _ => b end.
Definition or_number (a b : option Z) : option Z :=
  match a with Some n => if n =? 0 then b else a | None => b end.

(** An event as the API returns it.  The fields an event read from storage does not have are
    [None]. *)
Record FeedEvent := {
  fe_id : string;
  fe_timestamp : Z;
  fe_metricType : string;
  fe_anomalyType : string;
  fe_severity : string;
  fe_value : number;
  fe_baseline : number;
  fe_stdDev : number;
  fe_zScore : number;
  fe_threshold : number;
  fe_message : string;
  fe_correlationId : option string;
  fe_relatedMetrics : option (list string);
  fe_resolved : bool;
  fe_connectionId : option string;
  fe_syntheticPattern : option AnomalyPattern;
  fe_persisted : option bool
}.
Definition feed_event (e : AnomalyEvent) : FeedEvent :=
  {| fe_id := ev_id e; fe_timestamp := ev_timestamp e;
     fe_metricType := metric_string (ev_metricType e);
     fe_anomalyType := type_string (ev_anomalyType e);
     fe_severity := severity_string (ev_severity e); fe_value := ev_value e;
     fe_baseline := ev_baseline e; fe_stdDev := ev_stdDev e; fe_zScore := ev_zScore e;
     fe_threshold := ev_threshold e; fe_message := ev_message e;
     fe_correlationId := ev_correlationId e;
     fe_relatedMetrics := fmap (M:=list) metric_string <$> ev_relatedMetrics e;
     fe_resolved := ev_resolved e; fe_connectionId := ev_connectionId e;
     fe_syntheticPattern := ev_syntheticPattern e; fe_persisted := ev_persisted e |}.
Definition storedToAnomalyEvent (s : StoredAnomalyEvent) : FeedEvent :=
  {| fe_id := sa_id s; fe_timestamp := sa_timestamp s; fe_metricType := sa_metricType s;
     fe_anomalyType := if str_eqb (sa_anomalyType s) "spike" then type_string SPIKE
                       else type_string DROP;
     fe_severity := sa_severity s; fe_value := sa_value s; fe_baseline := sa_baseline s;
     fe_stdDev := sa_stdDev s; fe_zScore := sa_zScore s; fe_threshold := sa_threshold s;
     fe_message := sa_message s; fe_correlationId := sa_correlationId s;
     fe_relatedMetrics := sa_relatedMetrics s; fe_resolved := sa_resolved s;
     fe_connectionId := sa_connectionId s; fe_syntheticPattern := None; fe_persisted := None |}.

Definition maxRecentEvents : Z := 1000.
Definition maxRecentGroups : Z := 100.
(** [l.slice(-n)] when the list is longer than [n] *)
Definition keep_recent {A} (n : Z) (l : list A) : list A :=
  if n <? js_len l then js_slice (- n) (js_len l) l else l.

Inductive ResolveOutcome := RO_resolved | RO_retry | RO_gone.
#[global] Instance ResolveOutcome_eq : EqDecision ResolveOutcome.
Proof. solve_decision. Defined.

Section feed.
Context {X : Type} `{!AnomalyStore X}.
(** [configService.get('database.host' / 'database.port')] *)
Context (configHost : option string) (configPort : option Z).

Record FeedState := {
  fd_events : EventStore;
  fd_recentAnomalies : list ref;
  fd_recentGroups : list CorrelatedAnomalyGroup;
  fd_storage : X
}.
Definition set_events_of (h : EventStore) (s : FeedState) : FeedState :=
  {| fd_events := h; fd_recentAnomalies := fd_recentAnomalies s; fd_recentGroups := fd_recentGroups s;
     fd_storage := fd_storage s |}.
Definition set_storage (x : X) (s : FeedState) : FeedState :=
  {| fd_events := fd_events s; fd_recentAnomalies := fd_recentAnomalies s;
     fd_recentGroups := fd_recentGroups s; fd_storage := x |}.
(** A call of the storage; its outcome and the state it leaves *)
Definition ask {A} (m : M X unit A) (s : FeedState) : outcome unit A * FeedState :=
  let '(r, x) := m (fd_storage s) in (r, set_storage x s).

Definition toStoredAnomalyEvent (anomaly : AnomalyEvent) (ctx : option ConnectionContext)
    : StoredAnomalyEvent :=
  {| sa_id := ev_id anomaly; sa_timestamp := ev_timestamp anomaly;
     sa_metricType := metric_string (ev_metricType anomaly);
     sa_anomalyType := type_string (ev_anomalyType anomaly);
     sa_severity := severity_string (ev_severity anomaly); sa_value := ev_value anomaly;
     sa_baseline := ev_baseline anomaly; sa_stdDev := ev_stdDev anomaly;
     sa_zScore := ev_zScore anomaly; sa_threshold := ev_threshold anomaly;
     sa_message := ev_message anomaly; sa_correlationId := ev_correlationId anomaly;
     sa_relatedMetrics := fmap (M:=list) metric_string <$> ev_relatedMetrics anomaly;
     sa_resolved := ev_resolved anomaly; sa_resolvedAt := None; sa_durationMs := None;
     sa_sourceHost := or_string (cx_host <$> ctx) configHost;
     sa_sourcePort := or_number (cx_port <$> ctx) configPort;
     sa_connectionId := or_string (cx_connectionId <$> ctx) (ev_connectionId anomaly) |}.

(** The event is a new object. *)
Definition addAnomaly (anomaly : AnomalyEvent) (ctx : option ConnectionContext) (s : FeedState)
    : FeedState :=
  let r := length (fd_events s) in
  let s1 := {| fd_events := fd_events s ++ [anomaly];
               fd_recentAnomalies := keep_recent maxRecentEvents (fd_recentAnomalies s ++ [r]);
               fd_recentGroups := fd_recentGroups s; fd_storage := fd_storage s |} in
  match or_string (cx_connectionId <$> ctx) (ev_connectionId anomaly) with
  | Some ((String _ _) as connectionId) =>
      match ask (an_saveAnomalyEvent (toStoredAnomalyEvent anomaly ctx) connectionId) s1 with
      | (Ok _, s2) => set_events_of (assign set_persisted r (fd_events s2)) s2
      | (Throw _, s2) => s2
      end
  | _ => s1
  end.

Definition stored_group (h : EventStore) (group : CorrelatedAnomalyGroup) : StoredCorrelatedGroup :=
  {| sg_correlationId := g_correlationId group; sg_timestamp := g_timestamp group;
     sg_pattern := pattern_string (g_pattern group);
     sg_severity := severity_string (g_severity group); sg_diagnosis := g_diagnosis group;
     sg_recommendations := g_recommendations group;
     sg_anomalyCount := js_len (deref h (g_anomalies group));
     sg_metricTypes := metric_string ∘ ev_metricType <$> deref h (g_anomalies group);
     sg_sourceHost := configHost; sg_sourcePort := configPort; sg_connectionId := None |}.
Definition group_connection (h : EventStore) (group : CorrelatedAnomalyGroup) : option string :=
  head (deref h (g_anomalies group)) ≫= ev_connectionId.
(** The rows of the members, until a save throws *)
Fixpoint save_members (connectionId : string) (l : list AnomalyEvent) (s : FeedState) : FeedState :=
  match l with
  | [] => s
  | a :: l' =>
      match ask (an_saveAnomalyEvent (toStoredAnomalyEvent a None) connectionId) s with
      | (Ok _, s') => save_members connectionId l' s'
      | (Throw _, s') => s'
      end
  end.
Definition persist_group (s : FeedState) (group : CorrelatedAnomalyGroup) : FeedState :=
  match group_connection (fd_events s) group with
  | Some ((String _ _) as connectionId) =>
      match ask (an_saveCorrelatedGroup (stored_group (fd_events s) group) connectionId) s with
      | (Ok _, s') => save_members connectionId (deref (fd_events s) (g_anomalies group)) s'
      | (Throw _, s') => s'
      end
  | _ => s
  end.

Definition is_uncorrelated (h : EventStore) (r : ref) : bool :=
  match h !! r with
  | Some a => negb (truthy_string (ev_correlationId a)) && negb (ev_resolved a)
  | None => false
  end.
Definition correlateAnomalies (correlationWindowMs : Z) (uuid : nat → string) (s : FeedState)
    : FeedState :=
  let uncorrelated := js_filter (is_uncorrelated (fd_events s)) (fd_recentAnomalies s) in
  if js_len uncorrelated =? 0 then s
  else
    let '(newGroups, h) := correlate correlationWindowMs uuid uncorrelated (fd_events s) in
    if js_len newGroups =? 0 then set_events_of h s
    else
      let s1 := foldl persist_group (set_events_of h s) newGroups in
      {| fd_events := fd_events s1; fd_recentAnomalies := fd_recentAnomalies s1;
         fd_recentGroups := keep_recent maxRecentGroups (fd_recentGroups s1 ++ newGroups);
         fd_storage := fd_storage s1 |}.

(** *** Reading *)
Definition cached (s : FeedState) : list AnomalyEvent := deref (fd_events s) (fd_recentAnomalies s).

Definition getRecentEvents (limit : Z) (metricType : option MetricType) (s : FeedState)
    : list AnomalyEvent :=
  let events := reverse (cached s) in
  let events := match metricType with
                | Some m => js_filter (of_metric m) events
                | None => events
                end in
  js_slice 0 limit events.

Record FeedQuery := {
  fq_startTime : option Z;
  fq_endTime : option Z;
  fq_severity : option AnomalySeverity;
  fq_metricType : option MetricType;
  fq_limit : Z;
  fq_connectionId : option string;
  fq_activeOnly : bool
}.
Definition cache_matches (q : FeedQuery) (seen : list string) (e : AnomalyEvent) : bool :=
  negb (js_includes (ev_id e) seen)
  && when_string (fq_connectionId q) (λ c, same_string c (ev_connectionId e))
  && when_some (fq_metricType q) (λ m, of_metric m e)
  && when_some (fq_severity q) (λ v, bool_decide (ev_severity e = v))
  && when_number (fq_endTime q) (λ t, ev_timestamp e <=? t).
Definition newest (limit : Z) (l : list FeedEvent) : list FeedEvent :=
  js_slice 0 limit (js_sort (by_desc fe_timestamp) l).
Definition storage_query (q : FeedQuery) (startTime : option Z) (resolved : option bool)
    : AnomalyQueryOptions :=
  {| aq_startTime := startTime; aq_endTime := fq_endTime q;
     aq_severity := severity_string <$> fq_severity q;
     aq_metricType := metric_string <$> fq_metricType q; aq_pattern := None;
     aq_resolved := resolved; aq_limit := Some (fq_limit q); aq_offset := None;
     aq_connectionId := fq_connectionId q |}.

Definition getRecentAnomalies (q : FeedQuery) (now cacheTtlMs : Z) (s : FeedState)
    : outcome unit (list FeedEvent) * FeedState :=
  if fq_activeOnly q then
    match ask (an_getAnomalyEvents (storage_query q None (Some false))) s with
    | (Throw e, s') => (Throw e, s')
    | (Ok stored, s') =>
        let storedEvents := storedToAnomalyEvent <$> stored in
        let seen := js_set (fe_id <$> storedEvents) in
        let inMemory := js_filter (λ e, negb (ev_resolved e) && cache_matches q seen e) (cached s') in
        (Ok (newest (fq_limit q) (storedEvents ++ (feed_event <$> inMemory))), s')
    end
  else
    match ask (an_getAnomalyEvents (storage_query q (fq_startTime q) None)) s with
    | (Throw e, s') => (Throw e, s')
    | (Ok stored, s') =>
        let storedEvents := storedToAnomalyEvent <$> stored in
        let cacheThreshold := now - cacheTtlMs in
        if when_number (fq_startTime q) (λ t, cacheThreshold <=? t) then
          let seen := js_set (fe_id <$> storedEvents) in
          let inCache :=
            js_filter (λ e, cache_matches q seen e
                            && when_number (fq_startTime q) (λ t, t <=? ev_timestamp e)) (cached s') in
          (Ok (newest (fq_limit q) (storedEvents ++ (feed_event <$> inCache))), s')
        else (Ok storedEvents, s')
    end.

Definition getRecentGroups (limit : Z) (pattern : option AnomalyPattern) (s : FeedState)
    : list CorrelatedAnomalyGroup :=
  let groups := reverse (fd_recentGroups s) in
  let groups := match pattern with
                | Some p => js_filter (λ g, bool_decide (g_pattern g = p)) groups
                | None => groups
                end in
  js_slice 0 limit groups.

(** *** Resolving *)
Definition find_cached (anomalyId : string) (s : FeedState) : option ref :=
  js_find (λ r, match fd_events s !! r with
                | Some a => str_eqb (ev_id a) anomalyId
                | None => false
                end) (fd_recentAnomalies s).
Definition is_persisted (e : AnomalyEvent) : bool := default false (ev_persisted e).
Definition resolve_ref (r : ref) (s : FeedState) : FeedState :=
  set_events_of (assign set_resolved r (fd_events s)) s.

Definition resolveAnomalyOutcome (anomalyId : string) (now : Z) (s : FeedState)
    : ResolveOutcome * FeedState :=
  let anomaly := find_cached anomalyId s in
  let durable :=
    match ask (an_resolveAnomaly anomalyId now) s with
    | (Throw _, s') => (RO_retry, s')
    | (Ok false, s') => (match anomaly with Some _ => RO_retry | None => RO_gone end, s')
    | (Ok true, s') =>
        (RO_resolved, match anomaly with Some r => resolve_ref r s' | None => s' end)
    end in
  match anomaly with
  | Some r =>
      match fd_events s !! r with
      | Some a => if is_persisted a then durable else (RO_resolved, resolve_ref r s)
      | None => durable
      end
  | None => durable
  end.
Definition feed_resolveAnomaly (anomalyId : string) (now : Z) (s : FeedState) : bool * FeedState :=
  let '(outcome, s') := resolveAnomalyOutcome anomalyId now s in
  (bool_decide (outcome = RO_resolved), s').

Definition resolve_member (resolvedAt : Z) (acc : bool * FeedState) (r : ref) : bool * FeedState :=
  let '(allResolved, s) := acc in
  match fd_events s !! r with
  | None => acc
  | Some anomaly =>
      if negb (is_persisted anomaly) then (allResolved, resolve_ref r s)
      else
        match ask (an_resolveAnomaly (ev_id anomaly) resolvedAt) s with
        | (Ok true, s') => (allResolved, resolve_ref r s')
        | (_, s') => (false, s')
        end
  end.
Definition resolveGroup (correlationId : string) (now : Z) (s : FeedState) : bool * FeedState :=
  match js_find (λ g, str_eqb (g_correlationId g) correlationId) (fd_recentGroups s) with
  | None => (false, s)
  | Some group => foldl (resolve_member now) (true, s) (g_anomalies group)
  end.

Definition clearResolved (s : FeedState) : Z * FeedState :=
  let kept := js_filter (λ r, match fd_events s !! r with
                              | Some a => negb (ev_resolved a)
                              | None => false
                              end) (fd_recentAnomalies s) in
  (js_len (fd_recentAnomalies s) - js_len kept,
   {| fd_events := fd_events s; fd_recentAnomalies := kept; fd_recentGroups := fd_recentGroups s;
      fd_storage := fd_storage s |}).
End feed.
Arguments FeedState X : clear implicits.

(** ** Specification *)
Section specification.
Context {X : Type} `{!AnomalyStore X}.
Context (configHost : option string) (configPort : option Z).
Implicit Types (s : FeedState X).

(** The operations of the service between two reads, where [allowed] are the ids that may be
    resolved and events with id [own] are not added again *)
Inductive feed_step (own : string) (allowed : string → Prop) : FeedState X → FeedState X → Prop :=
  | step_add e ctx s :
      ev_id e ≠ own → feed_step own allowed s (addAnomaly configHost configPort e ctx s)
  | step_correlate ms uuid s :
      feed_step own allowed s (correlateAnomalies configHost configPort ms uuid s)
  | step_resolve i now s : allowed i → feed_step own allowed s (feed_resolveAnomaly i now s).2
  | step_resolve_group c now s :
      (∀ g r a, g ∈ fd_recentGroups s → g_correlationId g = c → r ∈ g_anomalies g →
         fd_events s !! r = Some a → allowed (ev_id a)) →
      feed_step own allowed s (resolveGroup c now s).2
  | step_clear s : feed_step own allowed s (clearResolved s).2
  | step_read q now ttl s : feed_step own allowed s (getRecentAnomalies q now ttl s).2.

(** ** Lemmas *)
Lemma ask_spec {A} (m : M X unit A) s :
  (ask m s).1 = (m (fd_storage s)).1 ∧ fd_storage (ask m s).2 = (m (fd_storage s)).2
  ∧ fd_events (ask m s).2 = fd_events s ∧ fd_recentAnomalies (ask m s).2 = fd_recentAnomalies s
  ∧ fd_recentGroups (ask m s).2 = fd_recentGroups s.
Proof using Type. unfold ask. by destruct (m (fd_storage s)). Qed.

(** What marking and resolving leave alone of an event *)
Definition ev_frame (e : AnomalyEvent) : string * bool := (ev_id e, ev_resolved e).

Lemma make_groups_frame {B} (f : AnomalyEvent → B) uuid n ws h r :
  (∀ c l e, f (set_correlation c l e) = f e) →
  f <$> (make_groups uuid n ws h).2 !! r = f <$> h !! r.
Proof using Type.
  intros Hf. revert n h. induction ws as [|w ws IH]; intros n h; [done|]. cbn [make_groups].
  destruct (createGroup (uuid n) w (group_rule (deref h w)) h) as [g h1] eqn:Hc.
  specialize (IH (S n) h1). destruct (make_groups uuid (S n) ws h1) as [gs h2]. cbn [snd] in *.
  rewrite IH. unfold createGroup in Hc. injection Hc as _ <-. rewrite mark_all_lookup.
  case_decide; [|done]. destruct (h !! r); cbn; [by rewrite Hf|done].
Qed.

Lemma make_groups_refs uuid n ws h : g_anomalies <$> (make_groups uuid n ws h).1 = ws.
Proof using Type.
  revert n h. induction ws as [|w ws IH]; intros n h; [done|]. cbn [make_groups].
  destruct (createGroup (uuid n) w (group_rule (deref h w)) h) as [g h1] eqn:Hc.
  specialize (IH (S n) h1). destruct (make_groups uuid (S n) ws h1) as [gs h2]. csimpl in *.
  rewrite IH. unfold createGroup in Hc. by injection Hc as <- _.
Qed.

Lemma correlate_frame {B} (f : AnomalyEvent → B) ms uuid refs h r :
  (∀ c l e, f (set_correlation c l e) = f e) →
  f <$> (correlate ms uuid refs h).2 !! r = f <$> h !! r.
Proof using Type.
  intros Hf. unfold correlate. destruct (_ =? 0); [done|]. by apply make_groups_frame.
Qed.

Lemma windows_refs ms h l : mjoin (windows ms h l) = l.
Proof using Type.
  unfold windows. destruct l as [|r l]; [done|].
  assert (Hloop : ∀ l ws w t, let '(ws', w', _) := foldl (window_step ms h) (ws, w, t) l in
    mjoin ws' ++ w' = mjoin ws ++ w ++ l).
  { clear. intros l. induction l as [|x l IH]; intros ws w t; cbn [foldl]; [by rewrite app_nil_r|].
    unfold window_step at 2. destruct (_ <=? ms).
    - specialize (IH ws (w ++ [x]) t). destruct (foldl _ _ l) as [[ws' w'] t'].
      rewrite IH. by rewrite <-app_assoc.
    - specialize (IH (if 0 <? js_len w then ws ++ [w] else ws) [x] (time_at h x)).
      destruct (foldl _ _ l) as [[ws' w'] t']. rewrite IH. destruct w as [|y w]; [done|].
      rewrite (proj2 (Z.ltb_lt 0 (js_len (y :: w)))) by (unfold js_len; simpl; lia).
      rewrite join_app. cbn. rewrite app_nil_r, <-!app_assoc. done. }
  specialize (Hloop (r :: l) [] [] (time_at h r)). destruct (foldl _ _ _) as [[ws w] t].
  cbn in Hloop. destruct w as [|x w]; [by rewrite app_nil_r in Hloop|].
  rewrite (proj2 (Z.ltb_lt 0 (js_len (x :: w)))) by (unfold js_len; simpl; lia).
  rewrite join_app. cbn. by rewrite app_nil_r.
Qed.

(** An event is left alone, or marked by its group. *)
Lemma correlate_marked ms uuid refs h r a :
  h !! r = Some a →
  (correlate ms uuid refs h).2 !! r = Some a
  ∨ ∃ c l, (correlate ms uuid refs h).2 !! r = Some (set_correlation c l a).
Proof using Type.
  unfold correlate. destruct (_ =? 0); [by left|]. generalize 0%nat.
  generalize (windows ms h (js_sort (by_asc (time_at h)) refs)). intros ws.
  assert (Hgen : ∀ h n b, h !! r = Some b → (b = a ∨ ∃ c l, b = set_correlation c l a) →
    (make_groups uuid n ws h).2 !! r = Some a
    ∨ ∃ c l, (make_groups uuid n ws h).2 !! r = Some (set_correlation c l a)).
  { clear h. induction ws as [|w ws IH]; intros h n b Hb Hor; cbn [make_groups].
    - destruct Hor as [->|(c & l & ->)]; [by left|right; by exists c, l].
    - destruct (createGroup (uuid n) w (group_rule (deref h w)) h) as [g h1] eqn:Hc.
      unfold createGroup in Hc. injection Hc as _ Hh1.
      pose proof (mark_all_lookup (uuid n) w h r) as Hm. rewrite Hh1, Hb in Hm.
      assert (Hnext : ∃ b', h1 !! r = Some b' ∧ (b' = a ∨ ∃ c l, b' = set_correlation c l a)).
      { case_decide; cbn in Hm; eexists; (split; [exact Hm|]); [|done].
        right. destruct Hor as [->|(c & l & ->)]; by do 2 eexists. }
      destruct Hnext as (b' & Hb' & Hor'). specialize (IH h1 (S n) b' Hb' Hor').
      by destruct (make_groups uuid (S n) ws h1). }
  intros n Ha. apply (Hgen h n a); [done|by left].
Qed.

Lemma correlate_refs ms uuid refs h g r :
  g ∈ (correlate ms uuid refs h).1 → r ∈ g_anomalies g → r ∈ refs.
Proof using Type.
  unfold correlate. destruct (_ =? 0); [by intros ?%not_elem_of_nil|]. intros Hg Hr.
  set (sorted := js_sort _ refs) in *.
  pose proof (make_groups_refs uuid 0 (windows ms h sorted) h) as Hrefs.
  apply (js_sort_elem (by_asc (time_at h))). fold sorted. rewrite <-(windows_refs ms h sorted), <-Hrefs.
  apply list_elem_of_join. exists (g_anomalies g). split; [done|]. by apply list_elem_of_fmap_2.
Qed.

(** *** What the operations do to the rows *)
Section rows.
Context `{!AnomalyStoreLaws X}.
Definition rows_of s : list StoredAnomalyEvent := an_rows (fd_storage s).

(** A property of the table that saving an acceptable event keeps *)
Context (P : list StoredAnomalyEvent → Prop) (acceptable : AnomalyEvent → Prop).
Hypothesis P_saved : ∀ a ctx c l l',
  acceptable a → saved (toStoredAnomalyEvent configHost configPort a ctx) c l l' → P l → P l'.

Lemma save_keeps a ctx c s :
  acceptable a → P (rows_of s) →
  P (rows_of (ask (an_saveAnomalyEvent (toStoredAnomalyEvent configHost configPort a ctx) c) s).2).
Proof using P_saved.
  intros Ha HP. unfold rows_of, ask.
  pose proof (an_save_law (toStoredAnomalyEvent configHost configPort a ctx) c (fd_storage s)) as Hlaw.
  destruct (an_saveAnomalyEvent _ _ _) as [[r|e] x]; cbn.
  - by eapply P_saved.
  - by rewrite Hlaw.
Qed.

Lemma members_keep c l s :
  Forall acceptable l → P (rows_of s) →
  P (rows_of (save_members configHost configPort c l s))
  ∧ fd_events (save_members configHost configPort c l s) = fd_events s
  ∧ fd_recentAnomalies (save_members configHost configPort c l s) = fd_recentAnomalies s.
Proof using P_saved.
  revert s. induction l as [|a l IH]; intros s Hl HP; [done|]. apply Forall_cons in Hl as [Ha Hl].
  cbn [save_members]. pose proof (save_keeps a None c s Ha HP) as HP'.
  destruct (ask_spec (an_saveAnomalyEvent (toStoredAnomalyEvent configHost configPort a None) c) s)
    as (_ & _ & He & Hr & _).
  destruct (ask _ s) as [[r|e] s'] eqn:Hask; cbn [fst snd] in *; [|done].
  destruct (IH s' Hl HP') as (? & ? & ?). split_and!; [done|congruence..].
Qed.

Lemma persist_group_keeps s g :
  Forall acceptable (deref (fd_events s) (g_anomalies g)) → P (rows_of s) →
  let s' := persist_group configHost configPort s g in
  P (rows_of s') ∧ fd_events s' = fd_events s ∧ fd_recentAnomalies s' = fd_recentAnomalies s.
Proof using P_saved.
  intros Hl HP. cbn zeta. unfold persist_group.
  destruct (group_connection _ _) as [[|ch str]|]; [done| |done].
  pose proof (an_group_law (stored_group configHost configPort (fd_events s) g) (String ch str)
                (fd_storage s)) as Hlaw.
  unfold ask. destruct (an_saveCorrelatedGroup _ _ _) as [[r|e] x]; cbn [fst snd] in *.
  - destruct (members_keep (String ch str) (deref (fd_events s) (g_anomalies g)) (set_storage x s) Hl)
      as (? & ? & ?); [|done]. unfold rows_of. cbn. by rewrite Hlaw.
  - split_and!; [|done..]. unfold rows_of. cbn. by rewrite Hlaw.
Qed.

Lemma correlate_keeps ms uuid s :
  (∀ r a c l, r ∈ fd_recentAnomalies s → fd_events s !! r = Some a → ev_resolved a = false →
     acceptable a ∧ acceptable (set_correlation c l a)) →
  P (rows_of s) → P (rows_of (correlateAnomalies configHost configPort ms uuid s)).
Proof using P_saved.
  intros Hok HP. unfold correlateAnomalies.
  set (refs := js_filter _ (fd_recentAnomalies s)). destruct (_ =? 0); [done|].
  destruct (correlate ms uuid refs (fd_events s)) as [gs h] eqn:Hc.
  assert (Hmembers : ∀ g, g ∈ gs → Forall acceptable (deref h (g_anomalies g))).
  { intros g Hg. apply Forall_forall. intros a (r & Hr & Ha)%deref_elem.
    assert (Hin : r ∈ refs).
    { apply (correlate_refs ms uuid refs (fd_events s) g); [by rewrite Hc|done]. }
    apply js_filter_elem in Hin as [Hun Hin]. unfold is_uncorrelated in Hun.
    destruct (fd_events s !! r) as [b|] eqn:Hb; [|done]. apply andb_true_iff in Hun as [_ Hres].
    apply negb_true_iff in Hres.
    destruct (correlate_marked ms uuid refs (fd_events s) r b) as [Hsame|(c & l & Hsame)]; [done|..];
      rewrite Hc in Hsame; cbn in Hsame; rewrite Ha in Hsame; injection Hsame as ->.
    - by destruct (Hok r b EmptyString [] Hin Hb Hres).
    - by destruct (Hok r b c l Hin Hb Hres). }
  destruct (_ =? 0); [done|]. cbn.
  assert (Hfold : ∀ l s0, (∀ g, g ∈ l → g ∈ gs) → fd_events s0 = h → P (rows_of s0) →
    P (rows_of (foldl (persist_group configHost configPort) s0 l))).
  { intros l. induction l as [|g l IH]; intros s0 Hl Hh H0; [done|]. cbn [foldl].
    destruct (persist_group_keeps s0 g) as (HP' & He & _); [|done|].
    - rewrite Hh. apply Hmembers, Hl. by left.
    - apply IH; [intros; apply Hl; by right|congruence|done]. }
  apply (Hfold gs (set_events_of h s)); [done|done|exact HP].
Qed.

Context (allowed : string → Prop).
Hypothesis P_resolved : ∀ i now x,
  allowed i → P (an_rows x) → P (an_rows (an_resolveAnomaly i now x).2).

Lemma ask_resolve_keeps i now s :
  allowed i → P (rows_of s) → P (rows_of (ask (an_resolveAnomaly i now) s).2).
Proof using P_resolved.
  intros Hi HP. pose proof (P_resolved i now (fd_storage s) Hi HP) as H. unfold rows_of, ask.
  by destruct (an_resolveAnomaly i now (fd_storage s)).
Qed.

Lemma resolve_keeps i now s :
  allowed i → P (rows_of s) → P (rows_of (feed_resolveAnomaly i now s).2).
Proof using P_resolved.
  intros Hi HP. pose proof (ask_resolve_keeps i now s Hi HP) as Hask.
  unfold feed_resolveAnomaly, resolveAnomalyOutcome.
  destruct (ask (an_resolveAnomaly i now) s) as [[[]|e] s']; cbn [snd] in Hask;
    (destruct (find_cached i s) as [r|]; [destruct (fd_events s !! r) as [a|];
      [destruct (is_persisted a)|]|]; exact Hask || exact HP).
Qed.

Lemma resolve_members_keep now l s b :
  (∀ r a, r ∈ l → fd_events s !! r = Some a → allowed (ev_id a)) →
  P (rows_of s) → P (rows_of (foldl (resolve_member now) (b, s) l).2).
Proof using P_resolved.
  revert s b. induction l as [|r l IH]; intros s b Hl HP; [done|]. cbn [foldl].
  destruct (fd_events s !! r) as [a|] eqn:Ha.
  2: { unfold resolve_member at 2. rewrite Ha. apply IH; [|done]. intros x y Hx. apply Hl. by right. }
  assert (Hframe : ∀ s' x y, fd_events s' = fd_events s → fd_events (resolve_ref r s') !! x = Some y →
    ∃ z, fd_events s !! x = Some z ∧ ev_id z = ev_id y).
  { intros s' x y He. unfold resolve_ref. cbn. rewrite He, assign_lookup. case_decide; [|by exists y].
    intros Hy. destruct (fd_events s !! x) as [z|]; [|done]. injection Hy as <-. by exists z. }
  assert (Hnext : ∀ s' b', fd_events s' = fd_events s → P (rows_of s') →
    P (rows_of (foldl (resolve_member now) (b', resolve_ref r s') l).2)).
  { intros s' b' He HP'. apply IH; [|exact HP']. intros x y Hx Hy.
    destruct (Hframe s' x y He Hy) as (z & Hz & <-). apply (Hl x); [by right|done]. }
  unfold resolve_member at 2. rewrite Ha. destruct (is_persisted a); cbn [negb]; [|by apply Hnext].
  pose proof (ask_resolve_keeps (ev_id a) now s (Hl r a (list_elem_of_here _ _) Ha) HP) as Hask.
  destruct (ask_spec (an_resolveAnomaly (ev_id a) now) s) as (_ & _ & He & _).
  assert (Hrest : ∀ x y s' , fd_events s' = fd_events s → x ∈ l → fd_events s' !! x = Some y → allowed (ev_id y)).
  { intros x y s' Hs' Hx. rewrite Hs'. apply Hl. by right. }
  destruct (ask _ s) as [[[]|e] s']; cbn [snd] in *; [by apply Hnext|by apply IH; eauto..].
Qed.

Lemma group_keeps c now s :
  (∀ g r a, g ∈ fd_recentGroups s → g_correlationId g = c → r ∈ g_anomalies g →
     fd_events s !! r = Some a → allowed (ev_id a)) →
  P (rows_of s) → P (rows_of (resolveGroup c now s).2).
Proof using P_resolved.
  intros Hg HP. unfold resolveGroup. destruct (js_find _ _) as [g|] eqn:Hf; [|done].
  apply js_find_Some in Hf as [Hc%bool_decide_eq_true Hin]. apply resolve_members_keep; [|done].
  intros r a. by apply Hg.
Qed.

Lemma add_keeps e ctx s :
  acceptable e → P (rows_of s) → P (rows_of (addAnomaly configHost configPort e ctx s)).
Proof using P_saved.
  intros He HP. unfold addAnomaly. destruct (or_string _ _) as [[|ch str]|]; [done| |done].
  match goal with |- context [ask ?m ?s1] => pose proof (save_keeps e ctx (String ch str) s1 He HP) as H;
    destruct (ask m s1) as [[r|x] s2] end; exact H.
Qed.

Lemma read_keeps q now ttl s : P (rows_of s) → P (rows_of (getRecentAnomalies q now ttl s).2).
Proof using Type.
  intros HP. unfold getRecentAnomalies.
  assert (Hask : ∀ o, rows_of (ask (an_getAnomalyEvents o) s).2 = rows_of s).
  { intros o. pose proof (an_query_law o (fd_storage s)) as Hq. unfold rows_of, ask.
    destruct (an_getAnomalyEvents o (fd_storage s)) as [r x]. by destruct Hq. }
  destruct (fq_activeOnly q);
    match goal with |- context [ask (an_getAnomalyEvents ?o) s] =>
      specialize (Hask o); destruct (ask (an_getAnomalyEvents o) s) as [[r|x] s'] end;
    cbn [snd] in *; try (destruct (when_number _ _)); cbn [snd]; by rewrite Hask.
Qed.
End rows.

(** *** The cache *)
(** Every cached event with the id is resolved. *)
Definition closed_in_cache (own : string) s : Prop :=
  ∀ r a, r ∈ fd_recentAnomalies s → fd_events s !! r = Some a → ev_id a = own → ev_resolved a = true.

Lemma closed_mono own s s' :
  (∀ r, r ∈ fd_recentAnomalies s' → r ∈ fd_recentAnomalies s) →
  (∀ r a', fd_events s' !! r = Some a' →
     ∃ a, fd_events s !! r = Some a ∧ ev_id a = ev_id a'
          ∧ (ev_resolved a = true → ev_resolved a' = true)) →
  closed_in_cache own s → closed_in_cache own s'.
Proof using Type.
  intros Hr He Hs r a' Hin Ha Hid. destruct (He r a' Ha) as (a & Ha0 & Heq & Hres).
  apply Hres, (Hs r a); [by apply Hr|done|congruence].
Qed.

(** Resolving an object, or none, keeps the rest. *)
Lemma resolved_view h r x a' :
  assign set_resolved r h !! x = Some a' →
  ∃ a, h !! x = Some a ∧ ev_id a = ev_id a' ∧ (ev_resolved a = true → ev_resolved a' = true).
Proof using Type.
  rewrite assign_lookup. case_decide; [|by exists a']. intros Ha. destruct (h !! x) as [a|]; [|done].
  injection Ha as <-. by exists a.
Qed.

Lemma keep_recent_elem {A} n (l : list A) x : x ∈ keep_recent n l → x ∈ l.
Proof using Type. unfold keep_recent. destruct (_ <? _); [apply js_slice_sub|done]. Qed.

Lemma add_closed own e ctx s :
  ev_id e ≠ own → closed_in_cache own s → closed_in_cache own (addAnomaly configHost configPort e ctx s).
Proof using Type.
  intros Hne Hs.
  set (s1 := {| fd_events := fd_events s ++ [e];
               fd_recentAnomalies := keep_recent maxRecentEvents (fd_recentAnomalies s ++ [length (fd_events s)]);
               fd_recentGroups := fd_recentGroups s; fd_storage := fd_storage s |}).
  assert (H1 : closed_in_cache own s1).
  { intros r a Hr Ha Hid. cbn in Hr, Ha. apply lookup_app_Some in Ha as [Ha|[Hlen Ha]].
    - apply keep_recent_elem, elem_of_app in Hr as [Hr|Hr]; [by apply (Hs r a)|].
      apply list_elem_of_singleton in Hr as ->. apply lookup_lt_Some in Ha. lia.
    - apply list_lookup_singleton_Some in Ha as [_ <-]. done. }
  unfold addAnomaly. fold s1. destruct (or_string _ _) as [[|ch str]|]; [done| |done].
  unfold ask. destruct (an_saveAnomalyEvent _ _ _) as [[r|x] st].
  - eapply closed_mono; [| |exact H1]; [done|]. intros r' a'. cbn. rewrite assign_lookup.
    case_decide; [|by exists a']. intros Ha. destruct (_ !! r') as [a|]; [|done].
    injection Ha as <-. by exists a.
  - by eapply closed_mono; [| |exact H1]; [done|]; intros r' a' Ha; exists a'.
Qed.

Lemma persist_group_cache s g :
  fd_events (persist_group configHost configPort s g) = fd_events s
  ∧ fd_recentAnomalies (persist_group configHost configPort s g) = fd_recentAnomalies s.
Proof using Type.
  unfold persist_group. destruct (group_connection _ _) as [[|ch str]|]; [done| |done].
  assert (Hm : ∀ l s, fd_events (save_members configHost configPort (String ch str) l s) = fd_events s
    ∧ fd_recentAnomalies (save_members configHost configPort (String ch str) l s) = fd_recentAnomalies s).
  { intros l. induction l as [|a l IH]; intros s0; [done|]. cbn [save_members]. unfold ask.
    destruct (an_saveAnomalyEvent _ _ _) as [[r|x] st]; [|done].
    destruct (IH (set_storage st s0)) as [-> ->]. done. }
  unfold ask. destruct (an_saveCorrelatedGroup _ _ _) as [[r|x] st]; [|done].
  by destruct (Hm (deref (fd_events s) (g_anomalies g)) (set_storage st s)) as [-> ->].
Qed.

Lemma correlate_closed own ms uuid s :
  closed_in_cache own s → closed_in_cache own (correlateAnomalies configHost configPort ms uuid s).
Proof using Type.
  intros Hs. unfold correlateAnomalies. set (refs := js_filter _ _). destruct (_ =? 0); [done|].
  pose proof (λ r, correlate_frame ev_frame ms uuid refs (fd_events s) r ltac:(done)) as Hframe.
  destruct (correlate ms uuid refs (fd_events s)) as [gs h]. cbn [snd] in Hframe.
  assert (Hview : ∀ r a', h !! r = Some a' → ∃ a, fd_events s !! r = Some a ∧ ev_id a = ev_id a'
      ∧ (ev_resolved a = true → ev_resolved a' = true)).
  { intros r a' Ha. specialize (Hframe r). rewrite Ha in Hframe.
    destruct (fd_events s !! r) as [a|]; [|done]. cbn in Hframe. injection Hframe as H1 H2.
    exists a. split_and!; [done|done|congruence]. }
  destruct (_ =? 0); [by eapply closed_mono; [| |exact Hs]|].
  assert (Hfold : ∀ l s0, fd_events (foldl (persist_group configHost configPort) s0 l) = fd_events s0
    ∧ fd_recentAnomalies (foldl (persist_group configHost configPort) s0 l) = fd_recentAnomalies s0).
  { intros l. induction l as [|g l IH]; intros s0; [done|]. cbn [foldl].
    destruct (IH (persist_group configHost configPort s0 g)) as [-> ->]. apply persist_group_cache. }
  destruct (Hfold gs (set_events_of h s)) as [He Hr].
  eapply closed_mono; [| |exact Hs]; cbn; [by rewrite Hr|by rewrite He].
Qed.

Lemma ask_closed own {A} (m : M X unit A) s : closed_in_cache own s → closed_in_cache own (ask m s).2.
Proof using Type.
  intros Hs. destruct (ask_spec m s) as (_ & _ & He & Hr & _). intros r a. rewrite He, Hr. apply Hs.
Qed.

Lemma resolve_ref_closed own r s : closed_in_cache own s → closed_in_cache own (resolve_ref r s).
Proof using Type. apply closed_mono; [done|]. intros x a'. apply resolved_view. Qed.

Lemma resolve_closed own i now s :
  closed_in_cache own s → closed_in_cache own (feed_resolveAnomaly i now s).2.
Proof using Type.
  intros Hs. pose proof (ask_closed own (an_resolveAnomaly i now) s Hs) as Hask.
  unfold feed_resolveAnomaly, resolveAnomalyOutcome.
  destruct (ask (an_resolveAnomaly i now) s) as [[[]|e] s']; cbn [snd] in Hask;
    (destruct (find_cached i s) as [r|]; [destruct (fd_events s !! r) as [a|];
      [destruct (is_persisted a)|]|]; cbn [snd]; first [exact Hask|by apply resolve_ref_closed]).
Qed.

Lemma resolve_group_closed own c now s :
  closed_in_cache own s → closed_in_cache own (resolveGroup c now s).2.
Proof using Type.
  intros Hs. unfold resolveGroup. destruct (js_find _ _) as [g|]; [|done].
  generalize true as b. revert s Hs. induction (g_anomalies g) as [|r l IH]; intros s Hs b; [done|].
  cbn [foldl]. unfold resolve_member at 2. destruct (fd_events s !! r) as [a|]; [|by apply IH].
  destruct (is_persisted a); cbn [negb]; [|by apply IH, resolve_ref_closed].
  pose proof (ask_closed own (an_resolveAnomaly (ev_id a) now) s Hs) as Hask.
  destruct (ask _ s) as [[[]|e] s']; cbn [snd] in Hask;
    [by apply IH, resolve_ref_closed|by apply IH..].
Qed.

Lemma read_closed own q now ttl s :
  closed_in_cache own s → closed_in_cache own (getRecentAnomalies q now ttl s).2.
Proof using Type.
  intros Hs. unfold getRecentAnomalies. destruct (fq_activeOnly q);
    match goal with |- context [ask ?m s] =>
      pose proof (ask_closed own m s Hs) as Hask; destruct (ask m s) as [[r|x] s'] end;
    cbn [snd] in *; try (destruct (when_number _ _)); exact Hask.
Qed.

Lemma step_closed own allowed s s' :
  feed_step own allowed s s' → closed_in_cache own s → closed_in_cache own s'.
Proof using Type.
  destruct 1; intros Hs.
  - by apply add_closed.
  - by apply correlate_closed.
  - by apply resolve_closed.
  - by apply resolve_group_closed.
  - eapply closed_mono; [| |exact Hs]; [|intros r a' Ha; by exists a'].
    intros r [_ Hr]%js_filter_elem. done.
  - by apply read_closed.
Qed.

(** ** Theorems *)
Context `{HL : !AnomalyStoreLaws X}.

Lemma steps_keep own allowed (P : list StoredAnomalyEvent → Prop) s s' :
  (∀ a ctx c l l', (ev_id a ≠ own ∨ ev_resolved a = false ∧ ¬ closed_in_cache own s) →
     saved (toStoredAnomalyEvent configHost configPort a ctx) c l l' → P l → P l') →
  (∀ i now x, allowed i → P (an_rows x) → P (an_rows (an_resolveAnomaly i now x).2)) →
  feed_step own allowed s s' → P (rows_of s) → P (rows_of s').
Proof using Type.
  intros Hsave Hres Hstep HP.
  set (acc a := ev_id a ≠ own ∨ ev_resolved a = false ∧ ¬ closed_in_cache own s).
  assert (Hclosed : ∀ r a, r ∈ fd_recentAnomalies s → fd_events s !! r = Some a →
    ev_resolved a = false → acc a).
  { intros r a Hr Ha Hra. destruct (decide (ev_id a = own)) as [Hid|]; [right|by left].
    split; [done|]. intros Hc. rewrite (Hc r a Hr Ha Hid) in Hra. done. }
  destruct Hstep.
  - apply (add_keeps P acc); [done|by left|done].
  - apply (correlate_keeps P acc); [done| |done]. intros r a c l Hr Ha Hra.
    split; [by apply (Hclosed r)|]. exact (Hclosed r a Hr Ha Hra).
  - by apply (resolve_keeps P allowed).
  - by apply (group_keeps P allowed).
  - done.
  - by apply read_keeps.
Qed.

Lemma event_matches_key o r1 r2 :
  row_key r1 = row_key r2 → sa_resolved r1 = sa_resolved r2 → event_matches o r1 = event_matches o r2.
Proof using Type.
  unfold row_key. intros [= Hid Ht Hsev Hm Hc] Hr. unfold event_matches. by rewrite Ht, Hsev, Hm, Hc, Hr.
Qed.

Lemma newest_all limit l fe : js_len l ≤ limit → fe ∈ newest limit l ↔ fe ∈ l.
Proof using Type.
  intros Hlen. unfold newest. replace limit with (0 + limit) by lia.
  rewrite js_slice_prefix by (unfold js_len in Hlen; lia).
  rewrite take_ge by (rewrite js_sort_length; unfold js_len in Hlen; lia). apply js_sort_elem.
Qed.

Lemma deref_len h rs : js_len (deref h rs) ≤ js_len rs.
Proof using Type.
  unfold deref, js_len. induction rs as [|r rs IH]; [done|]. csimpl.
  destruct (h !! r); cbn [length]; lia.
Qed.

(** C35: An anomaly that nobody resolves stays in the active feed, of whatever age.  Once an
    open event was saved for a connection, then after any further operations of the service
    (events added and evicted from the cache, correlation, which saves rows again, resolving
    others, clearing) a read of the active feed whose filters it matches, with room for all,
    lists it as open; with any storage adapter that keeps the laws. *)
Theorem open_anomaly_stays_listed e ctx c s s' q now ttl l i s2 :
  ev_resolved e = false →
  or_string (cx_connectionId <$> ctx) (ev_connectionId e) = Some c → c ≠ EmptyString →
  (∀ row, row ∈ rows_of s → sa_id row ≠ ev_id e) →
  (an_saveAnomalyEvent (toStoredAnomalyEvent configHost configPort e ctx) c (fd_storage s)).1 = Ok i →
  rtc (feed_step (ev_id e) (λ i, i ≠ ev_id e)) (addAnomaly configHost configPort e ctx s) s' →
  fq_activeOnly q = true →
  event_matches (storage_query q None (Some false))
    (with_connection c (toStoredAnomalyEvent configHost configPort e ctx)) = true →
  js_len (rows_of s') + js_len (fd_recentAnomalies s') ≤ fq_limit q →
  getRecentAnomalies q now ttl s' = (Ok l, s2) →
  ∃ fe, fe ∈ l ∧ fe_id fe = ev_id e ∧ fe_resolved fe = false.
Proof using Type.
  intros Hopen Hconn Hc Hfresh Hsave Hsteps Hactive Hmatch Hlimit Hread.
  set (saved_row := with_connection c (toStoredAnomalyEvent configHost configPort e ctx)) in *.
  set (P := λ l : list StoredAnomalyEvent,
    ∃ row, row ∈ l ∧ row_key row = row_key saved_row ∧ sa_resolved row = false).
  assert (HP : P (rows_of s')).
  { assert (H0 : P (rows_of (addAnomaly configHost configPort e ctx s))).
    { unfold addAnomaly. rewrite Hconn. destruct c as [|ch str]; [done|]. unfold ask. cbn [fd_storage].
      pose proof (an_save_law (toStoredAnomalyEvent configHost configPort e ctx) (String ch str)
        (fd_storage s)) as Hlaw.
      destruct (an_saveAnomalyEvent _ _ _) as [[r|x] st]; [|done]. cbn in Hlaw.
      destruct (sv_new _ _ _ _ Hlaw Hfresh) as (row & Hrow & Hkey & Hres).
      exists row. split_and!; [exact Hrow|done|by rewrite Hres]. }
    induction Hsteps as [|s1 s3 s4 Hstep _ IH]; [done|]. apply IH; [done|done|].
    revert H0. eapply (steps_keep _ _ P); [| |exact Hstep].
    - intros a cx c' l1 l2 Ha Hsv (row & Hrow & Hkey & Hr).
      destruct (decide (ev_id a = ev_id e)) as [Hid|Hid].
      + destruct Ha as [Ha|[Ha _]]; [done|].
        destruct (sv_kept _ _ _ _ Hsv row Hrow) as (row' & Hrow' & Hkey' & Hres').
        { injection Hkey as Hk _ _ _ _. by rewrite Hk. }
        exists row'. split_and!; [done|congruence|by apply Hres'].
      + exists row. split_and!; [|done|done]. apply (sv_others _ _ _ _ Hsv); [|done].
        injection Hkey as Hk _ _ _ _. rewrite Hk. cbn. congruence.
    - intros j now' x Hj (row & Hrow & Hkey & Hr). pose proof (an_resolve_law j now' x) as Hlaw.
      destruct (an_resolveAnomaly j now' x) as [r x']. exists row. split_and!; [|done|done].
      apply Hlaw; [|done]. injection Hkey as Hk _ _ _ _. rewrite Hk. cbn. congruence. }
  destruct HP as (row & Hrow & Hkey & Hr). unfold getRecentAnomalies in Hread. rewrite Hactive in Hread.
  pose proof (an_query_law (storage_query q None (Some false)) (fd_storage s')) as Hquery.
  unfold ask in Hread. destruct (an_getAnomalyEvents _ _) as [[stored|x] st]; [|done].
  destruct Hquery as [_ Hquery]. destruct (Hquery stored eq_refl) as [_ Hpage].
  assert (Hlr : js_len (an_rows (fd_storage s')) ≤ fq_limit q).
  { unfold rows_of, js_len in *. lia. }
  specialize (Hpage (fq_limit q) eq_refl Hlr eq_refl). injection Hread as <- _.
  exists (storedToAnomalyEvent row). split_and!; [|by injection Hkey|done].
  apply newest_all.
  - unfold js_len in *. rewrite length_app, !length_fmap, Hpage.
    pose proof (js_filter_length (event_matches (storage_query q None (Some false))) (an_rows (fd_storage s'))).
    match goal with |- context [js_filter ?p (cached ?x)] =>
      pose proof (js_filter_length p (cached x)); pose proof (deref_len (fd_events x) (fd_recentAnomalies x)) end.
    unfold cached, js_len, rows_of in *. cbn in *. lia.
  - apply elem_of_app. left. apply list_elem_of_fmap_2. rewrite Hpage. apply js_filter_elem.
    split; [|done]. rewrite <-Hmatch. by apply event_matches_key; [|rewrite Hr; cbn].
Qed.

Lemma same_ref (h : EventStore) rs r r' a a' :
  NoDup (ev_id <$> deref h rs) → r ∈ rs → r' ∈ rs → h !! r = Some a → h !! r' = Some a' →
  ev_id a = ev_id a' → r = r'.
Proof using Type.
  intros Hnd Hr Hr' Ha Ha' Hid. induction rs as [|x rs IH]; [by apply not_elem_of_nil in Hr|].
  assert (Hmem : ∀ y b, y ∈ rs → h !! y = Some b → ev_id b ∈ ev_id <$> deref h rs).
  { intros y b Hy Hb. apply list_elem_of_fmap_2, deref_elem. by exists y. }
  destruct (h !! x) as [b|] eqn:Hx.
  - rewrite (deref_cons _ _ _ _ Hx) in Hnd. apply NoDup_cons in Hnd as [Hnin Hnd].
    apply elem_of_cons in Hr as [->|Hr], Hr' as [->|Hr']; [done| | |by apply IH].
    + destruct Hnin. simplify_eq. rewrite Hid. by apply (Hmem r').
    + destruct Hnin. simplify_eq. rewrite <-Hid. by apply (Hmem r).
  - unfold deref in Hnd. csimpl in *. rewrite Hx in Hnd.
    apply elem_of_cons in Hr as [->|Hr], Hr' as [->|Hr']; [done|congruence..|by apply IH].
Qed.

(** Resolving closes the event in the cache and in storage. *)
Lemma resolved_now `{!DurableStore X} i now s s1 :
  NoDup (ev_id <$> cached s) →
  (∀ a, a ∈ cached s → ev_id a = i → is_persisted a = true) →
  feed_resolveAnomaly i now s = (true, s1) →
  closed_in_cache i s1 ∧ ∀ row, row ∈ rows_of s1 → sa_id row = i → sa_resolved row = true.
Proof using Type.
  intros Hnd Hpers. unfold feed_resolveAnomaly, resolveAnomalyOutcome.
  destruct (find_cached i s) as [r|] eqn:Hf.
  - apply js_find_Some in Hf as [Hid Hr]. destruct (fd_events s !! r) as [a|] eqn:Ha; [|done].
    apply bool_decide_eq_true in Hid. rewrite (Hpers a); [|apply deref_elem; by exists r|done].
    unfold ask. destruct (an_resolveAnomaly i now (fd_storage s)) as [[[]|e] x] eqn:Hres; try done.
    cbn. intros [= <-]. split; [|exact (du_resolve _ _ _ _ Hres)].
    intros r' b' Hr' Hb' Hidb. cbn in Hr', Hb'. rewrite assign_lookup in Hb'. case_decide as Heq.
    + destruct (fd_events s !! r') as [b|]; [|done]. by injection Hb' as <-.
    + destruct Heq. by apply (same_ref (fd_events s) (fd_recentAnomalies s) r r' a b'); [..|congruence].
  - unfold ask. destruct (an_resolveAnomaly i now (fd_storage s)) as [[[]|e] x] eqn:Hres; try done.
    cbn. intros [= <-]. split; [|exact (du_resolve _ _ _ _ Hres)].
    intros r' b Hr' Hb Hid. cbn in Hr', Hb. unfold find_cached in Hf. rewrite js_find_None in Hf.
    specialize (Hf r' Hr'). cbn in Hf. rewrite Hb in Hf. apply bool_decide_eq_false in Hf. done.
Qed.

(** Once resolving an anomaly reports success it never comes back: no later read of the
    active feed lists it, whatever happens in between other than the same event being added
    again, for a storage adapter where resolving closes every row of an id (the SQLite one),
    and an event that the cache, if it still has it, knows to be in storage.  Correlation,
    which saves the rows of open events again, never reopens it. *)
Theorem resolved_anomaly_stays_unlisted `{!DurableStore X} i now s s1 s' q now' ttl l s2 :
  NoDup (ev_id <$> cached s) →
  (∀ a, a ∈ cached s → ev_id a = i → is_persisted a = true) →
  feed_resolveAnomaly i now s = (true, s1) →
  rtc (feed_step i (λ _, True)) s1 s' →
  fq_activeOnly q = true → getRecentAnomalies q now' ttl s' = (Ok l, s2) →
  ∀ fe, fe ∈ l → fe_id fe ≠ i.
Proof using Type.
  intros Hnd Hpers Hres Hsteps Hactive Hread.
  destruct (resolved_now i now s s1 Hnd Hpers Hres) as [Hcache Hrows].
  assert (Hinv : closed_in_cache i s' ∧ ∀ row, row ∈ rows_of s' → sa_id row = i → sa_resolved row = true).
  { clear Hread Hres. induction Hsteps as [|sa sb sc Hstep _ IH]; [done|]. apply IH.
    - by eapply step_closed.
    - revert Hrows. eapply (steps_keep _ _ (λ l, ∀ row, row ∈ l → sa_id row = i → sa_resolved row = true));
        [| |exact Hstep].
      + intros a cx c l1 l2 Ha Hsv Hl row Hrow Hid. apply Hl; [|done].
        apply (sv_others _ _ _ _ Hsv); [|done]. cbn. destruct Ha as [Ha|[_ Ha]]; [congruence|done].
      + intros j nw x _ Hl. destruct (decide (j = i)) as [->|Hne]; [by apply du_keep|].
        pose proof (an_resolve_law j nw x) as Hlaw. destruct (an_resolveAnomaly j nw x) as [r x'].
        intros row Hrow Hid. apply Hl; [|done]. apply Hlaw; [congruence|done]. }
  destruct Hinv as [Hc Hr]. unfold getRecentAnomalies in Hread. rewrite Hactive in Hread.
  pose proof (an_query_law (storage_query q None (Some false)) (fd_storage s')) as Hquery.
  unfold ask in Hread. destruct (an_getAnomalyEvents _ _) as [[stored|x] st]; [|done].
  destruct Hquery as [Hst Hquery]. destruct (Hquery stored eq_refl) as [Hin _].
  injection Hread as <- _. intros fe Hfe Hid. unfold newest in Hfe.
  apply js_slice_sub, js_sort_elem, elem_of_app in Hfe as [Hfe|Hfe].
  - apply list_elem_of_fmap in Hfe as (row & -> & Hrow). destruct (Hin row Hrow) as [Hrow' Hm].
    unfold event_matches in Hm. apply andb_true_iff in Hm as [_ Hm]. apply bool_decide_eq_true in Hm.
    rewrite (Hr row Hrow' Hid) in Hm. done.
  - apply list_elem_of_fmap in Hfe as (e & -> & He). apply js_filter_elem in He as [Hopen He].
    apply deref_elem in He as (r & Hrr & Her). cbn in Hrr, Her.
    apply andb_true_iff in Hopen as [Hopen _]. by rewrite (Hc r e Hrr Her Hid) in Hopen.
Qed.
End specification.

(** ** Instances *)
Definition empty_feed : FeedState AnomalyTables :=
  {| fd_events := []; fd_recentAnomalies := []; fd_recentGroups := []; fd_storage := empty_tables |}.
Definition feed_sample : AnomalyEvent := sample_event "e1" 1000 CLUSTER_TOPOLOGY WARNING "c1".
Definition active_query : FeedQuery :=
  {| fq_startTime := None; fq_endTime := None; fq_severity := None; fq_metricType := None;
     fq_limit := 100; fq_connectionId := Some "c1"; fq_activeOnly := true |}.

Lemma open_anomaly_stays_listed_witness :
  ∃ fe l s2,
    getRecentAnomalies active_query 9000 1000
      (correlateAnomalies None None 5000 group_id (addAnomaly None None feed_sample None empty_feed))
    = (Ok l, s2) ∧ fe ∈ l ∧ fe_id fe = "e1".
Proof.
  set (s' := correlateAnomalies None None 5000 group_id (addAnomaly None None feed_sample None empty_feed)).
  destruct (getRecentAnomalies active_query 9000 1000 s') as [[l|x] s2] eqn:Hread;
    [|vm_compute in Hread; discriminate].
  destruct (open_anomaly_stays_listed None None feed_sample None "c1" empty_feed s' active_query 9000 1000
              l "e1" s2) as (fe & Hfe & Hid & _);
    [reflexivity|reflexivity|discriminate|intros row Hrow; by apply not_elem_of_nil in Hrow|reflexivity|
     |reflexivity|vm_compute; reflexivity|vm_compute; discriminate|exact Hread|by exists fe, l, s2].
  eapply rtc_l; [apply step_correlate|apply rtc_refl].
Defined.

(** The SQLite adapter with the stable order *)
Definition by_time (l : list StoredAnomalyEvent) : list StoredAnomalyEvent :=
  js_sort (by_desc sa_timestamp) l.
Lemma by_time_perm l : by_time l ≡ₚ l.
Proof. apply js_sort_perm. Qed.

Section sqlite_sample.
#[local] Remove Hints memory_anomalies memory_laws : typeclass_instances.
#[local] Instance sqlite_store : AnomalyStore AnomalyTables := sqlite_anomalies by_time.
#[local] Instance sqlite_store_laws : AnomalyStoreLaws AnomalyTables := sqlite_laws by_time by_time_perm.
#[local] Instance sqlite_store_durable : DurableStore AnomalyTables := sqlite_durable by_time by_time_perm.

Lemma resolved_anomaly_stays_unlisted_witness :
  ∃ l s2,
    getRecentAnomalies active_query 9000 1000
      (correlateAnomalies None None 5000 group_id
         (feed_resolveAnomaly "e1" 2000
            (correlateAnomalies None None 5000 group_id
               (addAnomaly None None feed_sample None empty_feed))).2) = (Ok l, s2)
    ∧ Forall (λ fe, fe_id fe ≠ "e1") l.
Proof.
  set (s := correlateAnomalies None None 5000 group_id (addAnomaly None None feed_sample None empty_feed)).
  set (s' := correlateAnomalies None None 5000 group_id (feed_resolveAnomaly "e1" 2000 s).2).
  destruct (getRecentAnomalies active_query 9000 1000 s') as [[l|x] s2] eqn:Hread;
    [|vm_compute in Hread; discriminate].
  exists l, s2. split; [reflexivity|]. apply Forall_forall.
  apply (resolved_anomaly_stays_unlisted None None "e1" 2000 s (feed_resolveAnomaly "e1" 2000 s).2
           s' active_query 9000 1000 l s2).
  - vm_compute. constructor; [apply not_elem_of_nil|constructor].
  - vm_compute. intros a Ha _. apply list_elem_of_singleton in Ha as ->. reflexivity.
  - vm_compute. reflexivity.
  - unfold s'. eapply rtc_l; [apply step_correlate|apply rtc_refl].
  - reflexivity.
  - exact Hread.
Defined.
End sqlite_sample.

(** With the memory adapter it does come back: saving appends, so correlating an event makes a
    second row of it, and resolving closes the first. *)
Lemma memory_adapter_resurfaces :
  let s := correlateAnomalies None None 5000 group_id (addAnomaly None None feed_sample None empty_feed) in
  (feed_resolveAnomaly "e1" 2000 s).1 = true
  ∧ ∃ l s2, getRecentAnomalies active_query 9000 1000 (feed_resolveAnomaly "e1" 2000 s).2 = (Ok l, s2)
            ∧ fe_id <$> l = ["e1"].
Proof. split; [vm_compute; reflexivity|]. eexists _, _. split; vm_compute; reflexivity. Qed.

(** The correlator does not look at connections: two events of different connections within
    the window make one group, whose rows are all saved for the connection of the first. *)
Lemma group_rows_cross_connections :
  let s := addAnomaly None None (sample_event "e2" 1500 CPU_UTILIZATION WARNING "c2") None
             (addAnomaly None None feed_sample None empty_feed) in
  (λ row, (sa_id row, sa_connectionId row))
    <$> tb_anomalyEvents (fd_storage (correlateAnomalies None None 5000 group_id s))
  = [("e1", Some "c1"); ("e2", Some "c2"); ("e1", Some "c1"); ("e2", Some "c1")].
Proof. vm_compute. reflexivity. Qed.
