(* ===== verification/PersistenceGate.v ===== *)
(** * The persistence gate of the snapshot detectors

    [applyTopologyPersistenceGate] of [anomaly.service.ts]: the findings of one poll become
    events once their signature has persisted, once per episode.  The state is the entry of
    one connection in the maps of the service; the findings, their signatures and the events
    built of them are arguments.  With tracked event ids (the slot-state detector) the gate
    looks whether the event is still open and resolves it on recovery. *)
From S2P Require Export AnomalyFeed.
From stdpp Require Import options.

(** ** Definitions *)
Record GateState := {
  gs_firstSeen : list (string * Z);
  gs_active : list string;
  gs_eventIds : list (string * string)
}.
Definition new_gate : GateState := {| gs_firstSeen := []; gs_active := []; gs_eventIds := [] |}.
Definition set_first (m : list (string * Z)) (g : GateState) : GateState :=
  {| gs_firstSeen := m; gs_active := gs_active g; gs_eventIds := gs_eventIds g |}.
Definition set_active (l : list string) (g : GateState) : GateState :=
  {| gs_firstSeen := gs_firstSeen g; gs_active := l; gs_eventIds := gs_eventIds g |}.
Definition set_ids (m : list (string * string)) (g : GateState) : GateState :=
  {| gs_firstSeen := gs_firstSeen g; gs_active := gs_active g; gs_eventIds := m |}.
(** [set.add(x)] and [set.delete(x)] *)
Definition set_insert (x : string) (l : list string) : list string :=
  if js_includes x l then l else l ++ [x].
Definition set_remove (x : string) (l : list string) : list string :=
  js_filter (λ y, negb (str_eqb y x)) l.

Section gate.
Context {X : Type} `{!AnomalyStore X}.
Context (configHost : option string) (configPort : option Z).
Context {T : Type} (signatureOf : T → string) (minPersistMs : Z).
Context (tracked : bool) (metricType : option MetricType).
Context (ctx : ConnectionContext).

(** One poll: its time, its findings, which signatures are an observation gap, and the event
    a finding becomes. *)
Record Poll := {
  pl_timestamp : Z;
  pl_findings : list T;
  pl_preserve : string → bool;
  pl_buildEvent : T → string → AnomalyEvent
}.

Definition isAnomalyUnresolvedInStorage (id : string) (s : FeedState X) : bool * FeedState X :=
  match ask (an_getAnomalyEvents
               {| aq_startTime := None; aq_endTime := None; aq_severity := None;
                  aq_metricType := metric_string <$> metricType; aq_pattern := None;
                  aq_resolved := Some false; aq_limit := None; aq_offset := None;
                  aq_connectionId := Some (cx_connectionId ctx) |}) s with
  | (Ok open, s') => (js_some (λ e, str_eqb (sa_id e) id) open, s')
  | (Throw _, s') => (true, s')
  end.
Definition stillOpen (id : string) (s : FeedState X) : bool * FeedState X :=
  match find_cached id s with
  | Some r =>
      match fd_events s !! r with
      | Some a => (negb (ev_resolved a), s)
      | None => isAnomalyUnresolvedInStorage id s
      end
  | None => isAnomalyUnresolvedInStorage id s
  end.

(** The findings reported so far in the poll, the gate and the service *)
Definition GateAcc : Type := list T * GateState * FeedState X.

Definition emit (p : Poll) (finding : T) (acc : GateAcc) : GateAcc :=
  let '(emitted, g, s) := acc in
  let signature := signatureOf finding in
  let event := pl_buildEvent p finding signature in
  let s := addAnomaly configHost configPort event (Some ctx) s in
  let g := set_active (set_insert signature (gs_active g)) g in
  (emitted ++ [finding],
   if tracked then set_ids (jm_set signature (ev_id event) (gs_eventIds g)) g else g, s).

Definition gate_finding (p : Poll) (acc : GateAcc) (finding : T) : GateAcc :=
  let '(emitted, g, s) := acc in
  let signature := signatureOf finding in
  let timestamp := pl_timestamp p in
  let seenAt := default timestamp (jm_get signature (gs_firstSeen g)) in
  let g := if jm_has signature (gs_firstSeen g) then g
           else set_first (jm_set signature timestamp (gs_firstSeen g)) g in
  if timestamp - seenAt <? minPersistMs then (emitted, g, s)
  else if tracked then
    match jm_get signature (gs_eventIds g) with
    | Some ((String _ _) as existingId) =>
        let '(open, s) := stillOpen existingId s in
        if open then (emitted, set_active (set_insert signature (gs_active g)) g, s)
        else
          let g := set_ids (jm_delete signature (gs_eventIds g)) g in
          emit p finding (emitted, set_active (set_remove signature (gs_active g)) g, s)
    | _ => emit p finding (emitted, g, s)
    end
  else if js_includes signature (gs_active g) then (emitted, g, s)
  else emit p finding (emitted, g, s).

Definition signatures (p : Poll) : list string := signatureOf <$> pl_findings p.
(** Present in the poll, or a gap *)
Definition kept (p : Poll) (signature : string) : bool :=
  js_includes signature (js_set (signatures p)) || pl_preserve p signature.

(** The auto-resolution of one tracked signature; [now] is [Date.now()]. *)
Definition auto_resolve (now : Z) (p : Poll) (acc : GateState * FeedState X) (kv : string * string)
    : GateState * FeedState X :=
  let '(g, s) := acc in
  if kept p kv.1 then acc
  else
    let '(outcome, s) := resolveAnomalyOutcome kv.2 now s in
    (if decide (outcome = RO_retry) then g else set_ids (jm_delete kv.1 (gs_eventIds g)) g, s).

Definition applyTopologyPersistenceGate (now : Z) (p : Poll) (g : GateState) (s : FeedState X)
    : GateAcc :=
  let g := set_first (js_filter (λ kv, kept p kv.1) (gs_firstSeen g)) g in
  let '(emitted, g, s) := foldl (gate_finding p) ([], g, s) (pl_findings p) in
  let '(g, s) := if tracked then foldl (auto_resolve now p) (g, s) (gs_eventIds g) else (g, s) in
  (emitted, set_active (js_filter (kept p) (gs_active g)) g, s).
End gate.

(** ** Specification *)
Section untracked.
Context {X : Type} `{!AnomalyStore X}.
Context (configHost : option string) (configPort : option Z).
Context {T : Type} (signatureOf : T → string) (minPersistMs : Z) (metricType : option MetricType).
Context (ctx : ConnectionContext) (s0 : FeedState X).

(** The polls of a connection, each with the time at its end, from a new gate *)
Definition gate_poll (np : Z * Poll (T:=T)) (g : GateState) (s : FeedState X)
    : list T * GateState * FeedState X :=
  applyTopologyPersistenceGate configHost configPort signatureOf minPersistMs false metricType ctx
    np.1 np.2 g s.
Definition gate_run (ps : list (Z * Poll (T:=T))) : GateState * FeedState X :=
  foldl (λ acc np, let '(_, g, s) := gate_poll np acc.1 acc.2 in (g, s)) (new_gate, s0) ps.
(** The findings reported by the poll after [ps], and their signatures *)
Definition reported_at (ps : list (Z * Poll (T:=T))) (np : Z * Poll (T:=T)) : list T :=
  (gate_poll np (gate_run ps).1 (gate_run ps).2).1.1.
Definition alerted_at (ps : list (Z * Poll (T:=T))) (np : Z * Poll (T:=T)) : list string :=
  signatureOf <$> reported_at ps np.
(** The events of findings, added to the feed in order *)
Definition add_events (p : Poll (T:=T)) (fs : list T) (s : FeedState X) : FeedState X :=
  foldl (λ s f, addAnomaly configHost configPort (pl_buildEvent p f (signatureOf f)) (Some ctx) s) s fs.

Definition present (np : Z * Poll (T:=T)) (signature : string) : Prop :=
  signature ∈ signatures signatureOf np.2.
Definition not_recovered (np : Z * Poll (T:=T)) (signature : string) : Prop :=
  kept signatureOf np.2 signature = true.
#[local] Instance present_dec np signature : Decision (present np signature).
Proof using Type. unfold present. apply _. Defined.
Definition at_ (np : Z * Poll (T:=T)) : Z := pl_timestamp np.2.

(** A poll of [ps] satisfies [P], and the signature has not recovered after it. *)
Definition since (P : list (Z * Poll (T:=T)) → Z * Poll (T:=T) → Prop)
    (ps : list (Z * Poll (T:=T))) (signature : string) : Prop :=
  ∃ before q after, ps = before ++ q :: after ∧ P before q ∧ Forall (λ r, not_recovered r signature) after.

(** ** Lemmas *)
Lemma since_snoc P ps np σ :
  since P (ps ++ [np]) σ ↔ P ps np ∨ (since P ps σ ∧ not_recovered np σ).
Proof using Type.
  split.
  - intros (b & q & a & Heq & HP & Ha). destruct a as [|r a _] using rev_ind.
    + apply app_inj_tail in Heq as [-> ->]. by left.
    + right. rewrite app_comm_cons, app_assoc in Heq. apply app_inj_tail in Heq as [-> ->].
      apply Forall_app in Ha as [Ha Hr]. split; [by exists b, q, a|by inversion Hr].
  - intros [HP|[(b & q & a & -> & HP & Ha) Hk]].
    + exists ps, np, []. done.
    + exists b, q, (a ++ [np]). rewrite <-app_assoc. cbn. split; [done|]. split; [done|].
      apply Forall_app. by repeat constructor.
Qed.

Lemma set_insert_elem x y l : x ∈ set_insert y l ↔ x ∈ l ∨ x = y.
Proof using Type.
  unfold set_insert. destruct (js_includes y l) eqn:H.
  - apply js_includes_true in H. naive_solver.
  - by rewrite elem_of_app, list_elem_of_singleton.
Qed.

Lemma jm_get_filter {V} (p : string → bool) (m : list (string * V)) k :
  jm_get k (js_filter (λ kv, p kv.1) m) = if p k then jm_get k m else None.
Proof using Type.
  induction m as [|[k' v] m IH]; cbn; [by destruct (p k)|].
  destruct (decide (k = k')) as [->|Hne]; destruct (p k') eqn:Hk'; cbn; rewrite ?Hk'; try done.
  - by rewrite decide_True.
  - by rewrite decide_False.
Qed.

Lemma present_kept np signature : present np signature → not_recovered np signature.
Proof using Type.
  intros Hp. unfold not_recovered, kept. apply orb_true_iff. left. by apply js_includes_true, js_set_elem.
Qed.

(** The findings of one poll, for one signature *)
Lemma findings_spec p g s l σ :
  let '(reported, g', s') :=
    foldl (gate_finding configHost configPort signatureOf minPersistMs false metricType ctx p)
      ([], g, s) l in
  let emitted := signatureOf <$> reported in
  let first := jm_get σ (gs_firstSeen g) in
  jm_get σ (gs_firstSeen g')
    = (if decide (σ ∈ (signatureOf <$> l)) then Some (default (pl_timestamp p) first) else first)
  ∧ (σ ∈ emitted ↔ σ ∈ (signatureOf <$> l) ∧ (σ ∉ gs_active g)
       ∧ minPersistMs ≤ pl_timestamp p - default (pl_timestamp p) first)
  ∧ (σ ∈ gs_active g' ↔ σ ∈ gs_active g ∨ σ ∈ emitted)
  ∧ (∀ x, x ∈ emitted → x ∈ gs_active g') ∧ NoDup emitted
  ∧ reported `sublist_of` l ∧ s' = add_events p reported s.
Proof using Type.
  induction l as [|f l IH] using rev_ind.
  { cbn. split; [done|]. split; [|split; [|split; [|split; [constructor|done]]]].
    - split; [intros H; by apply not_elem_of_nil in H|]. intros (H & _). by apply not_elem_of_nil in H.
    - split; [by left|]. intros [H|H]; [done|by apply not_elem_of_nil in H].
    - intros x H. by apply not_elem_of_nil in H. }
  rewrite foldl_app. destruct (foldl _ _ l) as [[em g1] s1]. destruct IH as (Hf & Hem & Hact & Hsub & Hnd & Hsl & Hs).
  cbn [foldl]. unfold gate_finding. set (τ := signatureOf f).
  set (g2 := if jm_has τ (gs_firstSeen g1) then g1 else _).
  assert (Hfirst : ∀ k, jm_get k (gs_firstSeen g2)
    = if decide (k = τ) then Some (default (pl_timestamp p) (jm_get τ (gs_firstSeen g1)))
      else jm_get k (gs_firstSeen g1)).
  { intros k. unfold g2. destruct (jm_has τ (gs_firstSeen g1)) eqn:Hh.
    - apply jm_has_spec in Hh as [v Hv]. destruct (decide (k = τ)) as [->|]; [by rewrite Hv|reflexivity].
    - apply jm_has_false in Hh. cbn. rewrite jm_get_set, Hh. done. }
  assert (Ha2 : gs_active g2 = gs_active g1) by (unfold g2; by destruct (jm_has _ _)).
  assert (Hmem : σ ∈ (signatureOf <$> (l ++ [f])) ↔ σ ∈ (signatureOf <$> l) ∨ σ = τ).
  { rewrite fmap_app, elem_of_app. change (signatureOf <$> [f]) with [τ].
    by rewrite list_elem_of_singleton. }
  assert (Hfirst' : jm_get σ (gs_firstSeen g2)
    = if decide (σ ∈ (signatureOf <$> (l ++ [f])))
      then Some (default (pl_timestamp p) (jm_get σ (gs_firstSeen g))) else jm_get σ (gs_firstSeen g)).
  { rewrite Hfirst. destruct (decide (σ = τ)) as [->|Hne].
    - rewrite decide_True by (by apply Hmem; right). rewrite Hf. by case_decide.
    - rewrite Hf. destruct (decide (σ ∈ (signatureOf <$> l))).
      + by rewrite decide_True by (by apply Hmem; left).
      + by rewrite decide_False by (intros [?|?]%Hmem; done). }
  assert (Hseen : σ = τ → default (pl_timestamp p) (jm_get τ (gs_firstSeen g1))
                          = default (pl_timestamp p) (jm_get σ (gs_firstSeen g))).
  { intros Hσ. rewrite <-Hσ, Hf. by destruct (decide (σ ∈ _)). }
  destruct (Z.ltb_spec (pl_timestamp p - default (pl_timestamp p) (jm_get τ (gs_firstSeen g1))) minPersistMs)
    as [Hyoung|Hold].
  { split_and!; [done| |by rewrite Ha2|by rewrite Ha2|done|by apply sublist_inserts_r|done]. rewrite Hem, Hmem.
    split; [naive_solver|]. intros ([?| ->] & ? & Hp); [done|]. rewrite (Hseen eq_refl) in Hyoung. lia. }
  rewrite Ha2. destruct (js_includes τ (gs_active g1)) eqn:Hin.
  - apply js_includes_true in Hin. split_and!; [done| |by rewrite Ha2|by rewrite Ha2|done|by apply sublist_inserts_r|done].
    rewrite Hem, Hmem. split; [naive_solver|]. intros ([?| ->] & Hna & Hp); [done|].
    apply Hact in Hin as [Hin|Hin]; [done|by apply Hem in Hin].
  - apply js_includes_false in Hin. unfold emit. fold τ. cbn [gs_firstSeen set_active gs_active].
    rewrite (fmap_app signatureOf em [f]). change (signatureOf <$> [f]) with [τ]. set (emσ := signatureOf <$> em) in *.
    assert (Hem' : σ ∈ emσ ++ [τ] ↔ σ ∈ emσ ∨ σ = τ) by (by rewrite elem_of_app, list_elem_of_singleton).
    split_and!; [done| | | | |by apply sublist_app|by rewrite Hs; unfold add_events; rewrite foldl_app].
    + rewrite Hem', Hem, Hmem. split; [|naive_solver].
      intros [(?&?&?)| ->]; [naive_solver|]. rewrite <-(Hseen eq_refl). split_and!; [by right| |done].
      intros Hg. apply Hin, Hact. by left.
    + rewrite set_insert_elem, Ha2, Hem', Hact. naive_solver.
    + intros x. rewrite elem_of_app, list_elem_of_singleton, set_insert_elem, Ha2.
      intros [Hx|Hx]; [left; by apply Hsub|by right].
    + apply NoDup_app. split_and!; [done| |apply NoDup_singleton].
      intros x Hx ->%list_elem_of_singleton. by apply Hin, Hsub.
Qed.

(** One poll, for one signature *)
Lemma poll_spec ps np σ :
  let g := (gate_run ps).1 in
  let g' := (gate_run (ps ++ [np])).1 in
  let first := jm_get σ (gs_firstSeen g) in
  jm_get σ (gs_firstSeen g')
    = (if decide (present np σ) then Some (default (at_ np) first)
       else if kept signatureOf np.2 σ then first else None)
  ∧ (σ ∈ alerted_at ps np ↔ present np σ ∧ (σ ∉ gs_active g)
       ∧ minPersistMs ≤ at_ np - default (at_ np) first)
  ∧ (σ ∈ gs_active g' ↔ not_recovered np σ ∧ (σ ∈ gs_active g ∨ σ ∈ alerted_at ps np)).
Proof using Type.
  unfold alerted_at, reported_at, gate_run. rewrite foldl_app.
  destruct (foldl _ _ ps) as [g s]. cbn [fst snd foldl].
  unfold gate_poll, applyTopologyPersistenceGate, present, not_recovered, at_.
  set (g0 := set_first _ g).
  pose proof (findings_spec np.2 g0 s (pl_findings np.2) σ) as H. fold (signatures signatureOf np.2) in H.
  destruct (foldl _ _ (pl_findings np.2)) as [[em g1] s1]. cbn [fst snd] in *.
  destruct H as (Hf & Hem & Hact & _).
  assert (Hg0 : jm_get σ (gs_firstSeen g0) = if kept signatureOf np.2 σ then jm_get σ (gs_firstSeen g) else None).
  { unfold g0. cbn. apply jm_get_filter. }
  assert (Hpk : σ ∈ signatures signatureOf np.2 → kept signatureOf np.2 σ = true) by apply (present_kept np).
  cbn [gs_firstSeen gs_active set_active]. split; [|split].
  - rewrite Hf, Hg0. unfold present_dec, present.
    destruct (decide (σ ∈ signatures _ _)) as [Hp|Hp]; [by rewrite Hpk|done].
  - rewrite Hem. split; intros (Hp & Hna & Hm); rewrite Hg0, Hpk in * by done; done.
  - rewrite js_filter_elem, Hact. naive_solver.
Qed.

Lemma active_spec ps σ :
  σ ∈ gs_active (gate_run ps).1
  ↔ since (λ before q, σ ∈ alerted_at before q) ps σ.
Proof using Type.
  induction ps as [|np ps IH] using rev_ind.
  - split; [intros H; by apply not_elem_of_nil in H|]. by intros ([] & ? & ? & ? & _).
  - destruct (poll_spec ps np σ) as (_ & Hal & ->). rewrite since_snoc, IH.
    pose proof (present_kept np σ). naive_solver.
Qed.

Definition clock_sorted (ps : list (Z * Poll (T:=T))) : Prop :=
  StronglySorted (λ p q, at_ p ≤ at_ q) ps.

Lemma first_seen_spec ps σ :
  clock_sorted ps →
  match jm_get σ (gs_firstSeen (gate_run ps).1) with
  | Some t => since (λ _ q, present q σ ∧ at_ q = t) ps σ ∧ ∀ t', since (λ _ q, present q σ ∧ at_ q = t') ps σ → t ≤ t'
  | None => ∀ t', ¬ since (λ _ q, present q σ ∧ at_ q = t') ps σ
  end.
Proof using Type.
  induction ps as [|np ps IH] using rev_ind; intros Hs.
  { cbn. intros t. by intros ([] & ? & ? & ? & _). }
  pose proof (StronglySorted_app_1_l _ _ _ Hs) as Hs'. specialize (IH Hs').
  assert (Hle : ∀ t, since (λ _ q, present q σ ∧ at_ q = t) ps σ → t ≤ at_ np).
  { intros t (b & q & a & -> & [_ <-] & _).
    refine (StronglySorted_app_1_elem_of _ _ _ q np Hs _ _); [|by left].
    apply elem_of_app. right. by left. }
  destruct (poll_spec ps np σ) as (-> & _).
  pose proof (present_kept np σ) as Hpk. unfold not_recovered in Hpk.
  destruct (decide (present np σ)) as [Hp|Hp].
  - specialize (Hpk Hp). destruct (jm_get σ _) as [t|]; cbn.
    + destruct IH as [Hin Hmin]. split; [by apply since_snoc; right|].
      intros t' [[_ <-]|[Ht' _]]%since_snoc; [by apply Hle|by apply Hmin].
    + split; [by apply since_snoc; left|].
      intros t' [[_ <-]|[Ht' _]]%since_snoc; [lia|by apply IH in Ht'].
  - destruct (kept signatureOf np.2 σ) eqn:Hk.
    + destruct (jm_get σ _) as [t|].
      * destruct IH as [Hin Hmin]. split; [by apply since_snoc; right|].
        intros t' [[? _]|[Ht' _]]%since_snoc; [done|by apply Hmin].
      * intros t' [[? _]|[Ht' _]]%since_snoc; [done|by apply IH in Ht'].
    + intros t' [[? _]|[_ Hk']]%since_snoc; [done|]. unfold not_recovered in Hk'. congruence.
Qed.

(** ** Properties *)

End untracked.

(** ** Instances *)
Definition sample_poll (t : Z) (findings : list string) (gap : bool) : Z * Poll (T:=string) :=
  (t, {| pl_timestamp := t; pl_findings := findings; pl_preserve := λ _, gap;
         pl_buildEvent := λ _ sig, sample_event sig t CLUSTER_TOPOLOGY WARNING "c1" |}).
Definition sample_context : ConnectionContext :=
  {| cx_connectionId := "c1"; cx_connectionName := "primary"; cx_host := "h"; cx_port := 6379 |}.

