(* ===== verification/WebhookTypes.v ===== *)
(** * Webhook events, tiers and subscriptions

    [packages/shared/src/webhooks/types.ts] and [defaults.ts]: the event types,
    the licence tier each needs (in the two forms the code keeps, lists per tier
    and a tier per event), the records of subscriptions and deliveries, and the
    per-webhook settings merged with their defaults.

    The numbers of a retry policy are integers here; a threshold is an integer
    (the request validation demands one) and the hysteresis factor a binary64
    number. *)
From S2P Require Export Json.
From stdpp Require Import options.

(** ** Definitions *)
Inductive WebhookEventType :=
  | INSTANCE_DOWN | INSTANCE_UP | MEMORY_CRITICAL | CONNECTION_CRITICAL | ANOMALY_DETECTED
  | SLOWLOG_THRESHOLD | LATENCY_SPIKE | CONNECTION_SPIKE | CLIENT_BLOCKED | ACL_VIOLATION
  | ACL_MODIFIED | CONFIG_CHANGED | REPLICATION_LAG | CLUSTER_FAILOVER | FAILOVER_STARTED
  | FAILOVER_COMPLETED | DATA_LOSS_DETECTED | LATENCY_REGRESSION_DETECTED
  | AUDIT_POLICY_VIOLATION | COMPLIANCE_ALERT | METRIC_FORECAST_LIMIT | INFERENCE_SLA_BREACH
  | MONITOR_SESSION_STARTED | MONITOR_SESSION_COMPLETED | MONITOR_SESSION_TRUNCATED
  | MONITOR_SESSION_SKIPPED | MONITOR_TRIGGER_CREATED.

#[export] Instance WebhookEventType_eq_dec : EqDecision WebhookEventType.
Proof. solve_decision. Defined.

(** [Object.values(WebhookEventType)] *)
Definition all_events : list WebhookEventType :=
  [INSTANCE_DOWN; INSTANCE_UP; MEMORY_CRITICAL; CONNECTION_CRITICAL; ANOMALY_DETECTED;
   SLOWLOG_THRESHOLD; LATENCY_SPIKE; CONNECTION_SPIKE; CLIENT_BLOCKED; ACL_VIOLATION;
   ACL_MODIFIED; CONFIG_CHANGED; REPLICATION_LAG; CLUSTER_FAILOVER; FAILOVER_STARTED;
   FAILOVER_COMPLETED; DATA_LOSS_DETECTED; LATENCY_REGRESSION_DETECTED;
   AUDIT_POLICY_VIOLATION; COMPLIANCE_ALERT; METRIC_FORECAST_LIMIT; INFERENCE_SLA_BREACH;
   MONITOR_SESSION_STARTED; MONITOR_SESSION_COMPLETED; MONITOR_SESSION_TRUNCATED;
   MONITOR_SESSION_SKIPPED; MONITOR_TRIGGER_CREATED].

(** The string value of each member. *)
Definition event_name (e : WebhookEventType) : string :=
  match e with
  | INSTANCE_DOWN => "instance.down" | INSTANCE_UP => "instance.up"
  | MEMORY_CRITICAL => "memory.critical" | CONNECTION_CRITICAL => "connection.critical"
  | ANOMALY_DETECTED => "anomaly.detected" | SLOWLOG_THRESHOLD => "slowlog.threshold"
  | LATENCY_SPIKE => "latency.spike" | CONNECTION_SPIKE => "connection.spike"
  | CLIENT_BLOCKED => "client.blocked" | ACL_VIOLATION => "acl.violation"
  | ACL_MODIFIED => "acl.modified" | CONFIG_CHANGED => "config.changed"
  | REPLICATION_LAG => "replication.lag" | CLUSTER_FAILOVER => "cluster.failover"
  | FAILOVER_STARTED => "failover.started" | FAILOVER_COMPLETED => "failover.completed"
  | DATA_LOSS_DETECTED => "data.loss.detected"
  | LATENCY_REGRESSION_DETECTED => "latency.regression.detected"
  | AUDIT_POLICY_VIOLATION => "audit.policy.violation" | COMPLIANCE_ALERT => "compliance.alert"
  | METRIC_FORECAST_LIMIT => "metric_forecast.limit"
  | INFERENCE_SLA_BREACH => "inference.sla.breach"
  | MONITOR_SESSION_STARTED => "monitor.session.started"
  | MONITOR_SESSION_COMPLETED => "monitor.session.completed"
  | MONITOR_SESSION_TRUNCATED => "monitor.session.truncated"
  | MONITOR_SESSION_SKIPPED => "monitor.session.skipped"
  | MONITOR_TRIGGER_CREATED => "monitor.trigger.created"
  end.

Definition FREE_EVENTS : list WebhookEventType :=
  [INSTANCE_DOWN; INSTANCE_UP; MEMORY_CRITICAL; CONNECTION_CRITICAL; CLIENT_BLOCKED;
   MONITOR_SESSION_STARTED; MONITOR_SESSION_COMPLETED; MONITOR_SESSION_TRUNCATED;
   MONITOR_SESSION_SKIPPED].

Definition PRO_EVENTS : list WebhookEventType :=
  FREE_EVENTS ++
  [ANOMALY_DETECTED; SLOWLOG_THRESHOLD; REPLICATION_LAG; CLUSTER_FAILOVER; LATENCY_SPIKE;
   CONNECTION_SPIKE; METRIC_FORECAST_LIMIT; FAILOVER_STARTED; FAILOVER_COMPLETED;
   DATA_LOSS_DETECTED; LATENCY_REGRESSION_DETECTED; INFERENCE_SLA_BREACH;
   MONITOR_TRIGGER_CREATED].

Definition ENTERPRISE_EVENTS : list WebhookEventType :=
  PRO_EVENTS ++
  [AUDIT_POLICY_VIOLATION; COMPLIANCE_ALERT; ACL_VIOLATION; ACL_MODIFIED; CONFIG_CHANGED].

Inductive Tier := community | pro | enterprise.
#[export] Instance Tier_eq_dec : EqDecision Tier.
Proof. solve_decision. Defined.

Definition tier_name (t : Tier) : string :=
  match t with community => "community" | pro => "pro" | enterprise => "enterprise" end.

Definition WEBHOOK_EVENT_TIERS (e : WebhookEventType) : Tier :=
  match e with
  | INSTANCE_DOWN | INSTANCE_UP | MEMORY_CRITICAL | CONNECTION_CRITICAL | CLIENT_BLOCKED
  | MONITOR_SESSION_STARTED | MONITOR_SESSION_COMPLETED | MONITOR_SESSION_TRUNCATED
  | MONITOR_SESSION_SKIPPED => community
  | ANOMALY_DETECTED | SLOWLOG_THRESHOLD | REPLICATION_LAG | CLUSTER_FAILOVER | LATENCY_SPIKE
  | CONNECTION_SPIKE | METRIC_FORECAST_LIMIT | FAILOVER_STARTED | FAILOVER_COMPLETED
  | DATA_LOSS_DETECTED | LATENCY_REGRESSION_DETECTED | INFERENCE_SLA_BREACH
  | MONITOR_TRIGGER_CREATED => pro
  | AUDIT_POLICY_VIOLATION | COMPLIANCE_ALERT | ACL_VIOLATION | ACL_MODIFIED
  | CONFIG_CHANGED => enterprise
  end.

Definition TIER_HIERARCHY (t : Tier) : Z :=
  match t with community => 0 | pro => 1 | enterprise => 2 end.

Definition getRequiredTierForEvent (event : WebhookEventType) : Tier := WEBHOOK_EVENT_TIERS event.

Definition isEventAllowedForTier (event : WebhookEventType) (userTier : Tier) : bool :=
  let requiredTier := WEBHOOK_EVENT_TIERS event in
  TIER_HIERARCHY requiredTier <=? TIER_HIERARCHY userTier.

Definition getEventsForTier (tier : Tier) : list WebhookEventType :=
  match tier with
  | community => FREE_EVENTS
  | pro => PRO_EVENTS
  | enterprise => ENTERPRISE_EVENTS
  end.

Definition getLockedEventsForTier (tier : Tier) : list WebhookEventType :=
  let allowedEvents := getEventsForTier tier in
  js_filter (λ event, negb (js_includes event allowedEvents)) all_events.

Definition getEventsByTierCategory : list (Tier * list WebhookEventType) :=
  [(community, FREE_EVENTS);
   (pro, js_filter (λ e, negb (js_includes e FREE_EVENTS)) PRO_EVENTS);
   (enterprise, js_filter (λ e, negb (js_includes e PRO_EVENTS)) ENTERPRISE_EVENTS)].

Definition validateEventsForTier (events : list WebhookEventType) (userTier : Tier)
    : list WebhookEventType :=
  js_filter (λ event, negb (isEventAllowedForTier event userTier)) events.

(** *** Subscriptions and deliveries *)
Inductive DeliveryStatus := PENDING | SUCCESS | FAILED | RETRYING | DEAD_LETTER.
#[export] Instance DeliveryStatus_eq_dec : EqDecision DeliveryStatus.
Proof. solve_decision. Defined.

Record RetryPolicy := {
  rp_maxRetries : Z;
  rp_backoffMultiplier : Z;
  rp_initialDelayMs : Z;
  rp_maxDelayMs : Z;
}.

Definition DEFAULT_RETRY_POLICY : RetryPolicy :=
  {| rp_maxRetries := 3; rp_backoffMultiplier := 2; rp_initialDelayMs := 1000;
     rp_maxDelayMs := 60000 |}.

Record WebhookDeliveryConfig := {
  dc_timeoutMs : option Z;
  dc_maxResponseBodyBytes : option Z;
}.

Record WebhookAlertConfig := { alc_hysteresisFactor : option number }.

(** The keys of [WebhookThresholds]; a thresholds object is a partial map. *)
Inductive ThresholdKey :=
  | memoryCriticalPercent | connectionCriticalPercent | complianceMemoryPercent | slowlogCount
  | replicationLagSeconds | latencySpikeMs | connectionSpikeCount.
#[export] Instance ThresholdKey_eq_dec : EqDecision ThresholdKey.
Proof. solve_decision. Defined.
Definition WebhookThresholds : Type := list (ThresholdKey * Z).

Definition threshold_key_name (k : ThresholdKey) : string :=
  match k with
  | memoryCriticalPercent => "memoryCriticalPercent"
  | connectionCriticalPercent => "connectionCriticalPercent"
  | complianceMemoryPercent => "complianceMemoryPercent"
  | slowlogCount => "slowlogCount"
  | replicationLagSeconds => "replicationLagSeconds"
  | latencySpikeMs => "latencySpikeMs"
  | connectionSpikeCount => "connectionSpikeCount"
  end.

Record Webhook := {
  wh_id : string;
  wh_name : string;
  wh_url : string;
  wh_secret : option string;
  wh_enabled : bool;
  wh_events : list WebhookEventType;
  wh_headers : option (list (string * string));
  wh_retryPolicy : RetryPolicy;
  wh_deliveryConfig : option WebhookDeliveryConfig;
  wh_alertConfig : option WebhookAlertConfig;
  wh_thresholds : option WebhookThresholds;
  wh_connectionId : option string;
  wh_createdAt : Z;
  wh_updatedAt : Z;
}.

Record WebhookInstanceInfo := {
  wi_host : string;
  wi_port : Z;
  wi_connectionId : option string;
}.

Record WebhookPayload := {
  wp_id : option string;
  wp_event : WebhookEventType;
  wp_timestamp : Z;
  wp_instance : option WebhookInstanceInfo;
  wp_data : list (string * json);
}.

Record WebhookDelivery := {
  wd_id : string;
  wd_webhookId : string;
  wd_eventType : WebhookEventType;
  wd_payload : WebhookPayload;
  wd_status : DeliveryStatus;
  wd_statusCode : option Z;
  wd_responseBody : option string;
  wd_attempts : Z;
  wd_nextRetryAt : option Z;
  wd_connectionId : option string;
  wd_createdAt : Z;
  wd_completedAt : option Z;
  wd_durationMs : option Z;
}.

(** *** Effective settings *)
(** [timeoutMs] and [maxResponseBodyBytes] *)
Definition DEFAULT_DELIVERY_CONFIG : Z * Z := (30000, 10000).

Definition DEFAULT_ALERT_CONFIG : number := parse_float "0.9".

Definition DEFAULT_THRESHOLDS : WebhookThresholds :=
  [(memoryCriticalPercent, 90); (connectionCriticalPercent, 90); (complianceMemoryPercent, 80);
   (slowlogCount, 100); (replicationLagSeconds, 10); (latencySpikeMs, 0);
   (connectionSpikeCount, 0)].

(** The timeout and the size limit in force. *)
Definition getDeliveryConfig (webhook : Webhook) : Z * Z :=
  let over := default {| dc_timeoutMs := None; dc_maxResponseBodyBytes := None |}
                      (wh_deliveryConfig webhook) in
  (default DEFAULT_DELIVERY_CONFIG.1 (dc_timeoutMs over),
   default DEFAULT_DELIVERY_CONFIG.2 (dc_maxResponseBodyBytes over)).

(** The hysteresis factor in force. *)
Definition getAlertConfig (webhook : Webhook) : number :=
  match wh_alertConfig webhook with
  | Some c => default DEFAULT_ALERT_CONFIG (alc_hysteresisFactor c)
  | None => DEFAULT_ALERT_CONFIG
  end.

Definition getThresholds (webhook : Webhook) : WebhookThresholds :=
  js_spread DEFAULT_THRESHOLDS (default [] (wh_thresholds webhook)).

Definition getThreshold (webhook : Webhook) (key : ThresholdKey) : Z :=
  default 0 (jm_get key (getThresholds webhook)).

(** ** Lemmas *)
Lemma all_events_complete e : e ∈ all_events.
Proof. destruct e; vm_compute; set_solver. Qed.

Lemma validateEventsForTier_empty events t :
  validateEventsForTier events t = [] ↔ Forall (λ e, isEventAllowedForTier e t = true) events.
Proof.
  unfold validateEventsForTier. rewrite Forall_forall. split.
  - intros H e He. destruct (isEventAllowedForTier e t) eqn:E; [done|].
    exfalso. apply (not_elem_of_nil e). rewrite <-H. apply js_filter_elem.
    by rewrite E.
  - intros H. apply js_filter_none. intros e He. by rewrite H.
Qed.

(** ** Theorems *)

(** The two forms in which the code keeps the licence tiers agree: the list of
    events offered to a tier holds exactly the events the subscription check
    admits for it, the locked events are the others, and a higher tier loses
    nothing. *)
Theorem tier_tables_agree tier event :
  (event ∈ getEventsForTier tier ↔ isEventAllowedForTier event tier = true)
  ∧ (event ∈ getLockedEventsForTier tier ↔ isEventAllowedForTier event tier = false)
  ∧ (∀ tier', TIER_HIERARCHY tier ≤ TIER_HIERARCHY tier' →
       event ∈ getEventsForTier tier → event ∈ getEventsForTier tier').
Proof.
  assert (H : ∀ t, js_includes event (getEventsForTier t) = isEventAllowedForTier event t).
  { intros t. by destruct t, event; vm_compute. }
  assert (Hin : ∀ t, event ∈ getEventsForTier t ↔ isEventAllowedForTier event t = true).
  { intros t. by rewrite <-H, js_includes_true. }
  split_and!; [apply Hin| |].
  - unfold getLockedEventsForTier. rewrite js_filter_elem, H.
    pose proof (all_events_complete event). rewrite negb_true_iff. tauto.
  - intros tier' Hle. rewrite !Hin. unfold isEventAllowedForTier.
    rewrite !Z.leb_le. lia.
Qed.
