(* ===== verification/WebhookStorage.v ===== *)
(** * Webhook storage

    The webhook part of the storage port as the in-memory adapter implements it
    ([apps/api/src/storage/adapters/repositories/webhook.memory.repository.ts]):
    subscriptions and deliveries in two [Map]s, the cap on the deliveries kept
    per webhook, the query for deliveries whose retry is due.

    [crypto.randomUUID()] and [Date.now()] are arguments.  A query hands out
    copies ([{ ...w }]), so values of the model are shared freely. *)
From S2P Require Export WebhookTypes.
From stdpp Require Import options.

(** ** Definitions *)
Record WebhookStore := {
  ws_webhooks : list (string * Webhook);
  ws_deliveries : list (string * WebhookDelivery);
}.
Definition empty_webhook_store : WebhookStore := {| ws_webhooks := []; ws_deliveries := [] |}.

(** [Omit<Webhook, 'id' | 'createdAt' | 'updatedAt'>] is a webhook whose three
    fields the adapter fills in. *)
Definition stamp_webhook (id : string) (createdAt updatedAt : Z) (w : Webhook) : Webhook :=
  {| wh_id := id; wh_name := wh_name w; wh_url := wh_url w; wh_secret := wh_secret w;
     wh_enabled := wh_enabled w; wh_events := wh_events w; wh_headers := wh_headers w;
     wh_retryPolicy := wh_retryPolicy w; wh_deliveryConfig := wh_deliveryConfig w;
     wh_alertConfig := wh_alertConfig w; wh_thresholds := wh_thresholds w;
     wh_connectionId := wh_connectionId w; wh_createdAt := createdAt;
     wh_updatedAt := updatedAt |}.

Definition stamp_delivery (id : string) (webhookId : string) (createdAt : Z)
    (d : WebhookDelivery) : WebhookDelivery :=
  {| wd_id := id; wd_webhookId := webhookId; wd_eventType := wd_eventType d;
     wd_payload := wd_payload d; wd_status := wd_status d; wd_statusCode := wd_statusCode d;
     wd_responseBody := wd_responseBody d; wd_attempts := wd_attempts d;
     wd_nextRetryAt := wd_nextRetryAt d; wd_connectionId := wd_connectionId d;
     wd_createdAt := createdAt; wd_completedAt := wd_completedAt d;
     wd_durationMs := wd_durationMs d |}.

(** A partial update of a webhook; [undefined] members are filtered out. *)
Record WebhookUpdates := {
  wu_name : option string;
  wu_url : option string;
  wu_secret : option string;
  wu_enabled : option bool;
  wu_events : option (list WebhookEventType);
  wu_headers : option (list (string * string));
  wu_retryPolicy : option RetryPolicy;
  wu_deliveryConfig : option WebhookDeliveryConfig;
  wu_alertConfig : option WebhookAlertConfig;
  wu_thresholds : option WebhookThresholds;
}.
Definition no_updates : WebhookUpdates :=
  {| wu_name := None; wu_url := None; wu_secret := None; wu_enabled := None; wu_events := None;
     wu_headers := None; wu_retryPolicy := None; wu_deliveryConfig := None;
     wu_alertConfig := None; wu_thresholds := None |}.

Definition or_else {A} (o p : option A) : option A := match o with Some _ => o | None => p end.

Definition apply_updates (u : WebhookUpdates) (w : Webhook) : Webhook :=
  {| wh_id := wh_id w; wh_name := default (wh_name w) (wu_name u);
     wh_url := default (wh_url w) (wu_url u); wh_secret := or_else (wu_secret u) (wh_secret w);
     wh_enabled := default (wh_enabled w) (wu_enabled u);
     wh_events := default (wh_events w) (wu_events u);
     wh_headers := or_else (wu_headers u) (wh_headers w);
     wh_retryPolicy := default (wh_retryPolicy w) (wu_retryPolicy u);
     wh_deliveryConfig := or_else (wu_deliveryConfig u) (wh_deliveryConfig w);
     wh_alertConfig := or_else (wu_alertConfig u) (wh_alertConfig w);
     wh_thresholds := or_else (wu_thresholds u) (wh_thresholds w);
     wh_connectionId := wh_connectionId w; wh_createdAt := wh_createdAt w;
     wh_updatedAt := wh_updatedAt w |}.

(** A partial update of a delivery is spread over the row as it is: a member
    that is present and [undefined] ([Some None]) erases the field. *)
Record DeliveryUpdates := {
  du_status : option DeliveryStatus;
  du_statusCode : option (option Z);
  du_responseBody : option (option string);
  du_attempts : option Z;
  du_nextRetryAt : option Z;
  du_completedAt : option Z;
  du_durationMs : option Z;
}.

Definition spread_delivery (u : DeliveryUpdates) (d : WebhookDelivery) : WebhookDelivery :=
  {| wd_id := wd_id d; wd_webhookId := wd_webhookId d; wd_eventType := wd_eventType d;
     wd_payload := wd_payload d; wd_status := default (wd_status d) (du_status u);
     wd_statusCode := default (wd_statusCode d) (du_statusCode u);
     wd_responseBody := default (wd_responseBody d) (du_responseBody u);
     wd_attempts := default (wd_attempts d) (du_attempts u);
     wd_nextRetryAt := or_else (du_nextRetryAt u) (wd_nextRetryAt d);
     wd_connectionId := wd_connectionId d; wd_createdAt := wd_createdAt d;
     wd_completedAt := or_else (du_completedAt u) (wd_completedAt d);
     wd_durationMs := or_else (du_durationMs u) (wd_durationMs d) |}.

Definition with_webhooks (f : list (string * Webhook) → list (string * Webhook))
    (st : WebhookStore) : WebhookStore :=
  {| ws_webhooks := f (ws_webhooks st); ws_deliveries := ws_deliveries st |}.
Definition with_deliveries (f : list (string * WebhookDelivery) → list (string * WebhookDelivery))
    (st : WebhookStore) : WebhookStore :=
  {| ws_webhooks := ws_webhooks st; ws_deliveries := f (ws_deliveries st) |}.

(** *** Webhooks *)
Definition createWebhook (id : string) (now : Z) (webhook : Webhook) (st : WebhookStore)
    : Webhook * WebhookStore :=
  let newWebhook := stamp_webhook id now now webhook in
  (newWebhook, with_webhooks (jm_set id newWebhook) st).

Definition getWebhook (id : string) (st : WebhookStore) : option Webhook :=
  jm_get id (ws_webhooks st).

(** [w.connectionId === connectionId || !w.connectionId], or a global webhook
    when no connection is given. *)
Definition in_scope (connectionId : option string) (w : Webhook) : bool :=
  if truthy_string connectionId
  then bool_decide (wh_connectionId w = connectionId) || negb (truthy_string (wh_connectionId w))
  else negb (truthy_string (wh_connectionId w)).

Definition getWebhooksByInstance (connectionId : option string) (st : WebhookStore)
    : list Webhook :=
  js_sort (by_desc wh_createdAt) (js_filter (in_scope connectionId) (jm_values (ws_webhooks st))).

Definition getWebhooksByEvent (event : WebhookEventType) (connectionId : option string)
    (st : WebhookStore) : list Webhook :=
  js_filter (in_scope connectionId)
    (js_filter (λ w, wh_enabled w && js_includes event (wh_events w))
       (jm_values (ws_webhooks st))).

Definition updateWebhook (id : string) (updates : WebhookUpdates) (now : Z) (st : WebhookStore)
    : option Webhook * WebhookStore :=
  match jm_get id (ws_webhooks st) with
  | None => (None, st)
  | Some webhook =>
      let updated := stamp_webhook id (wh_createdAt webhook) now (apply_updates updates webhook) in
      (Some updated, with_webhooks (jm_set id updated) st)
  end.

Definition deleteWebhook (id : string) (st : WebhookStore) : bool * WebhookStore :=
  if jm_has id (ws_webhooks st) then
    let deliveriesToDelete :=
      (js_filter (λ e, str_eqb (wd_webhookId e.2) id) (ws_deliveries st)).*1 in
    (true, with_deliveries (jm_deletes deliveriesToDelete)
             (with_webhooks (jm_delete id) st))
  else (false, st).

(** *** Deliveries *)
Definition createDelivery (maxDeliveriesPerWebhook : Z) (id : string) (now : Z)
    (delivery : WebhookDelivery) (st : WebhookStore) : WebhookDelivery * WebhookStore :=
  let newDelivery := stamp_delivery id (wd_webhookId delivery) now delivery in
  let m := jm_set id newDelivery (ws_deliveries st) in
  let webhookDeliveries :=
    js_sort (by_desc wd_createdAt)
      (js_filter (λ d, str_eqb (wd_webhookId d) (wd_webhookId delivery)) (jm_values m)) in
  let toDelete :=
    if maxDeliveriesPerWebhook <? js_len webhookDeliveries
    then js_slice maxDeliveriesPerWebhook (js_len webhookDeliveries) webhookDeliveries else [] in
  (newDelivery, with_deliveries (λ _, jm_deletes (wd_id <$> toDelete) m) st).

Definition getDelivery (id : string) (st : WebhookStore) : option WebhookDelivery :=
  jm_get id (ws_deliveries st).

Definition getDeliveriesByWebhook (webhookId : string) (limit offset : Z) (st : WebhookStore)
    : list WebhookDelivery :=
  js_slice offset (offset + limit)
    (js_sort (by_desc wd_createdAt)
       (js_filter (λ d, str_eqb (wd_webhookId d) webhookId) (jm_values (ws_deliveries st)))).

Definition updateDelivery (id : string) (updates : DeliveryUpdates) (st : WebhookStore)
    : bool * WebhookStore :=
  match jm_get id (ws_deliveries st) with
  | None => (false, st)
  | Some delivery =>
      let updated := stamp_delivery id (wd_webhookId delivery) (wd_createdAt delivery)
                       (spread_delivery updates delivery) in
      (true, with_deliveries (jm_set id updated) st)
  end.

(** [d.status === 'retrying' && d.nextRetryAt && d.nextRetryAt <= now] *)
Definition retry_due (now : Z) (d : WebhookDelivery) : bool :=
  bool_decide (wd_status d = RETRYING) &&
  match wd_nextRetryAt d with
  | Some t => negb (t =? 0) && (t <=? now)
  | None => false
  end.

Definition retry_at (d : WebhookDelivery) : Z := default 0 (wd_nextRetryAt d).

Definition getRetriableDeliveries (limit : Z) (connectionId : option string) (now : Z)
    (st : WebhookStore) : list WebhookDelivery :=
  let deliveries := js_filter (retry_due now) (jm_values (ws_deliveries st)) in
  let deliveries :=
    if truthy_string connectionId
    then js_filter (λ d, bool_decide (wd_connectionId d = connectionId)) deliveries
    else deliveries in
  js_slice 0 limit (js_sort (by_asc retry_at) deliveries).

Definition delivery_prunable (cutoffTimestamp : Z) (connectionId : option string)
    (d : WebhookDelivery) : bool :=
  (wd_createdAt d <? cutoffTimestamp) &&
  (negb (truthy_string connectionId) || bool_decide (wd_connectionId d = connectionId)).

Definition pruneOldDeliveries (cutoffTimestamp : Z) (connectionId : option string)
    (st : WebhookStore) : Z * WebhookStore :=
  let before := js_len (ws_deliveries st) in
  let ids := (js_filter (λ e, delivery_prunable cutoffTimestamp connectionId e.2)
                (ws_deliveries st)).*1 in
  let m := jm_deletes ids (ws_deliveries st) in
  (before - js_len m, with_deliveries (λ _, m) st).

(** ** Specification *)
Record webhook_store_wf (st : WebhookStore) : Prop := {
  wswf_webhooks : keyed wh_id (ws_webhooks st);
  wswf_deliveries : keyed wd_id (ws_deliveries st);
}.

(** The deliveries of a webhook. *)
Definition deliveries_of (webhookId : string) (st : WebhookStore) : list WebhookDelivery :=
  js_filter (λ d, str_eqb (wd_webhookId d) webhookId) (jm_values (ws_deliveries st)).

(** *** Sample rows, used by the witnesses *)
Definition sample_webhook (id : string) : Webhook :=
  {| wh_id := id; wh_name := "ops"; wh_url := "https://example.com/hook"; wh_secret := Some "whsec_0123";
     wh_enabled := true; wh_events := [INSTANCE_DOWN; MEMORY_CRITICAL]; wh_headers := None;
     wh_retryPolicy := DEFAULT_RETRY_POLICY; wh_deliveryConfig := None; wh_alertConfig := None;
     wh_thresholds := None; wh_connectionId := None; wh_createdAt := 0; wh_updatedAt := 0 |}.

Definition sample_payload : WebhookPayload :=
  {| wp_id := Some "p"; wp_event := INSTANCE_DOWN; wp_timestamp := 1000; wp_instance := None;
     wp_data := [("reason", JStr "timeout")] |}.

Definition sample_delivery (id webhookId : string) (createdAt : Z) : WebhookDelivery :=
  {| wd_id := id; wd_webhookId := webhookId; wd_eventType := INSTANCE_DOWN;
     wd_payload := sample_payload; wd_status := PENDING; wd_statusCode := None;
     wd_responseBody := None; wd_attempts := 0; wd_nextRetryAt := None; wd_connectionId := None;
     wd_createdAt := createdAt; wd_completedAt := None; wd_durationMs := None |}.

Definition sample_webhook_store : WebhookStore :=
  {| ws_webhooks := [("w", sample_webhook "w")];
     ws_deliveries := [("a", sample_delivery "a" "w" 1); ("b", sample_delivery "b" "w" 2);
                       ("c", sample_delivery "c" "v" 0)] |}.

(** ** Lemmas *)
Lemma keyed_deletes_values {V} (id : V → string) ks m :
  keyed id m →
  jm_values (jm_deletes ks m) = js_filter (λ v, negb (js_includes (id v) ks)) (jm_values m).
Proof.
  intros Hk. unfold jm_deletes. revert m Hk.
  induction ks as [|k ks IH]; intros m Hk; cbn [foldl].
  - symmetry. apply js_filter_all. intros v _. by rewrite (proj2 (js_includes_false _ _)) by set_solver.
  - rewrite IH by by apply keyed_delete. destruct Hk as [_ Hid]. clear IH.
    unfold jm_delete, jm_values. induction m as [|[k0 v] m IHm]; csimpl; [done|].
    assert (id v = k0) as <- by (apply Hid; set_solver).
    assert (IHm' := IHm ltac:(set_solver)). clear IHm.
    rewrite filter_cons. csimpl. destruct (decide (id v = k)) as [->|Hne].
    + rewrite decide_False by tauto. rewrite IHm'.
      by rewrite (proj2 (js_includes_true k (k :: ks))) by set_solver.
    + rewrite decide_True by done. csimpl. rewrite IHm'.
      replace (js_includes (id v) (k :: ks)) with (js_includes (id v) ks); [done|].
      apply bool_decide_ext. set_solver.
Qed.

(** Leaving out the tail of a list by key leaves its head. *)
Lemma filter_out_tail {A} (f : A → string) (n : nat) l :
  NoDup (f <$> l) →
  js_filter (λ x, negb (js_includes (f x) (f <$> drop n l))) l = take n l.
Proof.
  revert n. induction l as [|x l IH]; intros n; [by destruct n|].
  csimpl. rewrite NoDup_cons. intros [Hx Hnd]. destruct n as [|n]; csimpl.
  - rewrite (proj2 (js_includes_true _ _)) by set_solver. simpl.
    apply js_filter_none. intros y Hy.
    rewrite (proj2 (js_includes_true _ _)); [done|]. apply elem_of_cons. right.
    by apply list_elem_of_fmap_2.
  - rewrite (proj2 (js_includes_false _ _)); simpl; [by rewrite IH|].
    intros Hin. apply Hx. apply list_elem_of_fmap in Hin as (y & -> & Hy).
    apply list_elem_of_fmap_2. by apply subseteq_drop in Hy.
Qed.

Lemma keyed_values_nodup {V} (id : V → string) m : keyed id m → NoDup (id <$> jm_values m).
Proof.
  intros [Hwf Hid]. unfold jm_values, jm_wf in *. rewrite <-list_fmap_compose.
  replace ((id ∘ snd) <$> m) with (m.*1); [done|].
  apply list_fmap_ext. intros i [k v] Hi. simpl. symmetry. apply Hid.
  by eapply list_elem_of_lookup_2.
Qed.

Lemma js_filter_fmap_nodup {A} (f : A → string) p l : NoDup (f <$> l) → NoDup (f <$> js_filter p l).
Proof. intros H. eapply sublist_NoDup; [exact H|]. apply fmap_sublist, js_filter_sublist. Qed.

Lemma js_filter_comm {A} (p q : A → bool) l :
  js_filter p (js_filter q l) = js_filter q (js_filter p l).
Proof.
  induction l as [|x l IH]; simpl; [done|].
  destruct (q x) eqn:Hq, (p x) eqn:Hp; simpl; rewrite ?Hq, ?Hp; by rewrite ?IH.
Qed.

(** The rows of the webhook once the new delivery is in, newest first. *)
Definition history_after (id : string) (now : Z) (d : WebhookDelivery) (st : WebhookStore)
    : list WebhookDelivery :=
  js_sort (by_desc wd_createdAt)
    (js_filter (λ x, str_eqb (wd_webhookId x) (wd_webhookId d))
       (jm_values (jm_set id (stamp_delivery id (wd_webhookId d) now d) (ws_deliveries st)))).

Lemma history_after_fields id now d st x :
  x ∈ history_after id now d st →
  wd_webhookId x = wd_webhookId d
  ∧ x ∈ jm_values (jm_set id (stamp_delivery id (wd_webhookId d) now d) (ws_deliveries st)).
Proof.
  unfold history_after. rewrite js_sort_elem, js_filter_elem. intros [Hw Hx].
  split; [|done]. by apply bool_decide_eq_true in Hw.
Qed.

Lemma createDelivery_deletes max id now d st :
  0 ≤ max →
  ws_deliveries (createDelivery max id now d st).2
  = jm_deletes (wd_id <$> drop (Z.to_nat max) (history_after id now d st))
      (jm_set id (stamp_delivery id (wd_webhookId d) now d) (ws_deliveries st)).
Proof.
  intros Hmax. unfold createDelivery. cbn [snd ws_deliveries with_deliveries].
  fold (history_after id now d st). destruct (Z.ltb_spec max (js_len (history_after id now d st))).
  - by rewrite js_slice_rest.
  - unfold js_len in *. by rewrite drop_ge by lia.
Qed.

Lemma history_after_length id now d st :
  getDelivery id st = None →
  length (history_after id now d st) = S (length (deliveries_of (wd_webhookId d) st)).
Proof.
  intros Hfresh. unfold history_after. rewrite js_sort_length.
  rewrite jm_values_set_fresh by by apply jm_get_None. rewrite js_filter_app, length_app. simpl.
  unfold str_eqb at 2. rewrite bool_decide_eq_true_2 by done. simpl. unfold deliveries_of. lia.
Qed.

Section createDelivery.
Context (max : Z) (id : string) (now : Z) (d : WebhookDelivery) (st : WebhookStore).
Context (Hmax : 0 ≤ max) (Hwf : webhook_store_wf st).

Lemma keyed_after :
  keyed wd_id (jm_set id (stamp_delivery id (wd_webhookId d) now d) (ws_deliveries st)).
Proof using Hwf. apply keyed_set; [done|]. apply Hwf. Qed.

Lemma history_after_nodup : NoDup (wd_id <$> history_after id now d st).
Proof using Hwf.
  unfold history_after. rewrite js_sort_perm. apply js_filter_fmap_nodup, keyed_values_nodup.
  apply keyed_after.
Qed.

(** The rows kept for the webhook are the newest [max]. *)
Lemma deliveries_after :
  deliveries_of (wd_webhookId d) (createDelivery max id now d st).2
  ≡ₚ take (Z.to_nat max) (history_after id now d st).
Proof using All.
  unfold deliveries_of. rewrite createDelivery_deletes by done.
  rewrite (keyed_deletes_values wd_id) by apply keyed_after. rewrite js_filter_comm.
  rewrite <-(filter_out_tail wd_id (Z.to_nat max) (history_after id now d st))
    by apply history_after_nodup.
  apply js_filter_perm. unfold history_after. by rewrite js_sort_perm.
Qed.

(** The rows of other webhooks are not touched. *)
Lemma getDelivery_other k x :
  getDelivery k st = Some x → wd_webhookId x ≠ wd_webhookId d → k ≠ id →
  getDelivery k (createDelivery max id now d st).2 = Some x.
Proof using All.
  unfold getDelivery. intros Hk Hw Hne. rewrite createDelivery_deletes by done.
  rewrite jm_get_deletes. rewrite decide_False; [by rewrite jm_get_set_ne|].
  intros Hin. apply list_elem_of_fmap in Hin as (y & Hy & Hin).
  apply subseteq_drop, history_after_fields in Hin as [Hyw Hin].
  apply (keyed_elem wd_id) in Hin; [|apply keyed_after].
  rewrite <-Hy, jm_get_set_ne in Hin by done. congruence.
Qed.
End createDelivery.

Lemma createDelivery_wf max id now d st :
  0 ≤ max → webhook_store_wf st → webhook_store_wf (createDelivery max id now d st).2.
Proof.
  intros Hmax Hwf. split; [apply Hwf|]. rewrite createDelivery_deletes by done.
  apply keyed_deletes. apply keyed_after. by apply Hwf.
Qed.

Lemma createWebhook_wf id now w st :
  webhook_store_wf st → webhook_store_wf (createWebhook id now w st).2.
Proof. intros [Hw Hd]. split; [|done]. by apply keyed_set. Qed.

Lemma updateWebhook_wf id u now st :
  webhook_store_wf st → webhook_store_wf (updateWebhook id u now st).2.
Proof.
  intros [Hw Hd]. unfold updateWebhook. case_match; [|done].
  split; [|done]. by apply keyed_set.
Qed.

Lemma deleteWebhook_wf id st : webhook_store_wf st → webhook_store_wf (deleteWebhook id st).2.
Proof.
  intros [Hw Hd]. unfold deleteWebhook. case_match; [|done].
  split; simpl; auto with js.
Qed.

Lemma updateDelivery_wf id u st : webhook_store_wf st → webhook_store_wf (updateDelivery id u st).2.
Proof.
  intros [Hw Hd]. unfold updateDelivery. case_match; [|done].
  split; [done|]. by apply keyed_set.
Qed.

Lemma pruneOldDeliveries_wf cut c st :
  webhook_store_wf st → webhook_store_wf (pruneOldDeliveries cut c st).2.
Proof. intros [Hw Hd]. split; [done|]. simpl. auto with js. Qed.

#[export] Hint Resolve createDelivery_wf createWebhook_wf updateWebhook_wf deleteWebhook_wf
  updateDelivery_wf pruneOldDeliveries_wf : js.

Lemma getDelivery_update k id u st :
  getDelivery k (updateDelivery id u st).2
  = if decide (k = id)
    then (λ d, stamp_delivery id (wd_webhookId d) (wd_createdAt d) (spread_delivery u d))
           <$> getDelivery id st
    else getDelivery k st.
Proof.
  unfold getDelivery, updateDelivery. destruct (jm_get id (ws_deliveries st)) as [x|] eqn:E; simpl.
  - rewrite jm_get_set. by case_decide.
  - case_decide as Hk; [by rewrite Hk, E|done].
Qed.

Lemma getWebhook_updateDelivery k id u st :
  getWebhook k (updateDelivery id u st).2 = getWebhook k st.
Proof. unfold updateDelivery. by case_match. Qed.

(** What the query for due retries returns. *)
Lemma getRetriableDeliveries_list limit now st :
  0 ≤ limit →
  getRetriableDeliveries limit None now st
  = take (Z.to_nat limit)
      (js_sort (by_asc retry_at) (js_filter (retry_due now) (jm_values (ws_deliveries st)))).
Proof. intros Hl. unfold getRetriableDeliveries. simpl. by rewrite (js_slice_prefix limit). Qed.

Lemma getRetriableDeliveries_elem limit now st x :
  0 ≤ limit → webhook_store_wf st →
  x ∈ getRetriableDeliveries limit None now st →
  retry_due now x = true ∧ getDelivery (wd_id x) st = Some x.
Proof.
  intros Hl [_ Hd]. rewrite getRetriableDeliveries_list by done.
  intros H%subseteq_take. rewrite js_sort_elem, js_filter_elem in H. destruct H as [Hx Hin].
  split; [done|]. by apply (keyed_elem wd_id).
Qed.

(** ** Theorems *)

(** The history of a webhook is bounded and keeps the newest deliveries:
    recording a delivery leaves at most [maxDeliveriesPerWebhook] rows of its
    webhook, drops none unless the bound is exceeded, never drops a row newer
    than one it keeps, and leaves the rows of every other webhook as they were. *)
Theorem delivery_history_bounded max id now d st :
  0 ≤ max → webhook_store_wf st → getDelivery id st = None →
  let st' := (createDelivery max id now d st).2 in
  js_len (deliveries_of (wd_webhookId d) st') ≤ max
  ∧ (js_len (deliveries_of (wd_webhookId d) st) < max →
       getDelivery id st' = Some (stamp_delivery id (wd_webhookId d) now d)
       ∧ ∀ k x, getDelivery k st = Some x → getDelivery k st' = Some x)
  ∧ (∀ k x y, getDelivery k st = Some x → wd_webhookId x = wd_webhookId d →
       getDelivery k st' = None → y ∈ deliveries_of (wd_webhookId d) st' →
       wd_createdAt x ≤ wd_createdAt y)
  ∧ (∀ k x, getDelivery k st = Some x → wd_webhookId x ≠ wd_webhookId d →
       getDelivery k st' = Some x).
Proof.
  intros Hmax Hwf Hfresh st'.
  pose proof (deliveries_after max id now d st Hmax Hwf) as Hafter. fold st' in Hafter.
  assert (Hne : ∀ k x, getDelivery k st = Some x → k ≠ id) by (intros ? ? ? ->; congruence).
  split_and!.
  - unfold js_len. rewrite Hafter, length_take. lia.
  - intros Hlt.
    assert (Hdrop : drop (Z.to_nat max) (history_after id now d st) = []).
    { apply drop_ge. rewrite history_after_length by done. unfold js_len in Hlt. lia. }
    unfold getDelivery, st'. rewrite createDelivery_deletes, Hdrop by done. cbn.
    split; [by rewrite jm_get_set_eq|]. intros k x Hk. rewrite jm_get_set_ne; eauto.
  - intros k x y Hk Hw Hgone. unfold st'. rewrite deliveries_after by done.
    intros Hy. eapply (sorted_take_drop (λ a b, wd_createdAt b ≤ wd_createdAt a));
      [apply js_sort_desc_sorted|exact Hy|].
    unfold getDelivery, st' in Hgone. rewrite createDelivery_deletes, jm_get_deletes in Hgone by done.
    rewrite jm_get_set_ne in Hgone by eauto. unfold getDelivery in Hk. rewrite Hk in Hgone.
    case_decide as Hin; [|done]. apply list_elem_of_fmap in Hin as (x' & -> & Hin).
    replace x with x'; [done|].
    assert (H := Hin). apply subseteq_drop, history_after_fields in H as [_ H].
    apply (keyed_elem wd_id) in H; [|by apply keyed_after]. rewrite jm_get_set_ne in H by eauto. congruence.
  - intros k x Hk Hw. apply getDelivery_other; eauto.
Qed.

Lemma sample_webhook_store_wf : webhook_store_wf sample_webhook_store.
Proof.
  split; (split; [apply (bool_decide_unpack _); vm_compute; done|]); simpl; set_solver.
Qed.

Lemma delivery_history_bounded_witness :
  getDelivery "a" (createDelivery 2 "d" 3 (sample_delivery "d" "w" 3) sample_webhook_store).2 = None
  ∧ js_len (deliveries_of "w"
      (createDelivery 2 "d" 3 (sample_delivery "d" "w" 3) sample_webhook_store).2) ≤ 2.
Proof.
  split; [vm_compute; done|].
  exact (proj1 (delivery_history_bounded 2 "d" 3 (sample_delivery "d" "w" 3) sample_webhook_store
    ltac:(lia) sample_webhook_store_wf eq_refl)).
Defined.

(** Deleting a webhook deletes its deliveries and nothing else. *)
Theorem delete_cascades id st w :
  webhook_store_wf st → getWebhook id st = Some w →
  let st' := (deleteWebhook id st).2 in
  getWebhook id st' = None
  ∧ (∀ k x, getDelivery k st' = Some x ↔ getDelivery k st = Some x ∧ wd_webhookId x ≠ id)
  ∧ (∀ k, k ≠ id → getWebhook k st' = getWebhook k st).
Proof.
  intros [Hw Hd] Hg st'. unfold st', deleteWebhook, getDelivery, getWebhook in *.
  rewrite (proj2 (jm_has_spec id (ws_webhooks st))) by eauto. cbn.
  split_and!.
  - by rewrite jm_get_delete, decide_True.
  - intros k x. rewrite jm_get_deletes. case_decide as Hin.
    + split; [done|]. intros [Hk Hne].
      apply list_elem_of_fmap in Hin as ([k' y] & -> & Hin).
      apply js_filter_elem in Hin as [Hy Hin]. apply bool_decide_eq_true in Hy. simpl in *.
      apply jm_elem_get in Hin; [|apply Hd]. congruence.
    + split; [|tauto]. intros Hk. split; [done|]. intros Heq. apply Hin.
      apply list_elem_of_fmap. exists (k, x). split; [done|]. apply js_filter_elem. split.
      * by apply bool_decide_eq_true.
      * by apply jm_get_elem.
  - intros k Hne. by rewrite jm_get_delete, decide_False.
Qed.

Lemma delete_cascades_witness :
  getDelivery "a" (deleteWebhook "w" sample_webhook_store).2 = None
  ∧ getWebhook "w" (deleteWebhook "w" sample_webhook_store).2 = None.
Proof.
  split; [vm_compute; done|].
  exact (proj1 (delete_cascades "w" sample_webhook_store _ sample_webhook_store_wf eq_refl)).
Defined.
