(* ===== verification/WebhooksService.v ===== *)
(** * The webhook service

    [apps/api/src/webhooks/webhooks.service.ts]: the check that keeps webhook
    URLs away from internal addresses, the licence check on subscribed events,
    creation and update, the signature, and the redaction of secrets in
    responses.

    What Node provides is a parameter: the URL parser ([parse_url], the four
    members the code reads), the resolver ([dns_resolve]), the HMAC
    ([createHmac], which may throw) and the random part of a generated secret.
    The environment variable, the default connection and the licence tier are
    arguments. *)
From S2P Require Export WebhookStorage.
From stdpp Require Import options.

(** ** Definitions *)

(** The exceptions the service throws. *)
Inductive HttpError :=
  | BadRequest (message : string)
  | NotFound (message : string)
  | Forbidden (message : string).

Record ParsedUrl := {
  pu_protocol : string;
  pu_username : string;
  pu_password : string;
  pu_hostname : string;
}.

(** [/^172\.(1[6-9]|2[0-9]|3[01])\./] *)
Definition private_172 (ip : string) : bool :=
  starts_with "172." ip &&
  match str_drop 4 ip with
  | String a (String b (String dot _)) =>
      ((bool_decide (a = "1"%char) && in_range 54 57 b)
       || (bool_decide (a = "2"%char) && is_digit b)
       || (bool_decide (a = "3"%char) && in_range 48 49 b))
      && bool_decide (dot = "."%char)
  | _ => false
  end.

Definition BLOCKED_IP_PATTERNS : list (string → bool) :=
  [starts_with "127."; starts_with "10."; private_172; starts_with "192.168.";
   starts_with "169.254."; str_eqb "::1"; starts_with "fe80:"; starts_with "fc00:"].

Definition isBlockedIp (ip : string) : bool := js_some (λ pattern, pattern ip) BLOCKED_IP_PATTERNS.

Definition resolveConnectionId (defaultId connectionId : option string) : option string :=
  if truthy_string connectionId then connectionId
  else if truthy_string defaultId then defaultId else None.

(** The data of a create request. *)
Record CreateWebhookDto := {
  cw_name : string;
  cw_url : string;
  cw_secret : option string;
  cw_enabled : option bool;
  cw_events : list WebhookEventType;
  cw_headers : option (list (string * string));
  cw_retryPolicy : option RetryPolicy;
  cw_deliveryConfig : option WebhookDeliveryConfig;
  cw_alertConfig : option WebhookAlertConfig;
  cw_thresholds : option WebhookThresholds;
  cw_connectionId : option string;
}.

Definition generateSecret (randomHex : string) : string := "whsec_" +:+ randomHex.

(** The tier the service works with: the licence's, or community. *)
Definition user_tier (licence : option Tier) : Tier := default community licence.

Definition event_detail (event : WebhookEventType) : string :=
  event_name event +:+ " (requires " +:+ to_upper (tier_name (getRequiredTierForEvent event))
  +:+ " tier)".

Definition validateEventTiers (licence : option Tier) (events : list WebhookEventType)
    : outcome HttpError unit :=
  let userTier := user_tier licence in
  match validateEventsForTier events userTier with
  | [] => Ok tt
  | disallowedEvents =>
      Throw (Forbidden ("Your " +:+ to_upper (tier_name userTier)
        +:+ " tier does not have access to the following events: "
        +:+ join ", " (event_detail <$> disallowedEvents)
        +:+ ". Please upgrade your license to subscribe to these events."))
  end.

Definition redact_text (secret : string) : string :=
  if starts_with "whsec_" secret then
    let rest := str_drop 6 secret in
    "whsec_" +:+ utf16_take (Z.to_nat (Z.min 4 (js_length rest))) rest +:+ "***"
  else
    let visibleChars := if js_length secret <? 8 then 2 else 4 in
    utf16_take (Z.to_nat (Z.min visibleChars (js_length secret))) secret +:+ "***".

Definition with_secret (s : option string) (w : Webhook) : Webhook :=
  {| wh_id := wh_id w; wh_name := wh_name w; wh_url := wh_url w; wh_secret := s;
     wh_enabled := wh_enabled w; wh_events := wh_events w; wh_headers := wh_headers w;
     wh_retryPolicy := wh_retryPolicy w; wh_deliveryConfig := wh_deliveryConfig w;
     wh_alertConfig := wh_alertConfig w; wh_thresholds := wh_thresholds w;
     wh_connectionId := wh_connectionId w; wh_createdAt := wh_createdAt w;
     wh_updatedAt := wh_updatedAt w |}.

Definition redactSecret (webhook : Webhook) : Webhook :=
  match wh_secret webhook with
  | Some (String _ _ as secret) => with_secret (Some (redact_text secret)) webhook
  | _ => webhook
  end.

(** *** Lookups *)
Definition service_getWebhook (id : string) (st : WebhookStore) : outcome HttpError Webhook :=
  match getWebhook id st with
  | Some webhook => Ok webhook
  | None => Throw (NotFound ("Webhook with ID " +:+ id +:+ " not found"))
  end.

Definition getWebhookRedacted (id : string) (st : WebhookStore) : outcome HttpError Webhook :=
  match service_getWebhook id st with
  | Ok webhook => Ok (redactSecret webhook)
  | Throw e => Throw e
  end.

Definition getAllWebhooks (defaultId connectionId : option string) (st : WebhookStore)
    : list Webhook :=
  getWebhooksByInstance (resolveConnectionId defaultId connectionId) st.

Definition getAllWebhooksRedacted (defaultId connectionId : option string) (st : WebhookStore)
    : list Webhook :=
  redactSecret <$> getAllWebhooks defaultId connectionId st.

Definition service_getWebhooksByEvent (defaultId : option string) (event : WebhookEventType)
    (connectionId : option string) (st : WebhookStore) : list Webhook :=
  getWebhooksByEvent event (resolveConnectionId defaultId connectionId) st.

Definition service_getDelivery (id : string) (st : WebhookStore)
    : outcome HttpError WebhookDelivery :=
  match getDelivery id st with
  | Some delivery => Ok delivery
  | None => Throw (NotFound ("Delivery with ID " +:+ id +:+ " not found"))
  end.

Definition getAllowedEvents (licence : option Tier)
    : Tier * list WebhookEventType * list WebhookEventType :=
  let tier := user_tier licence in
  (tier, getEventsForTier tier, getLockedEventsForTier tier).

Definition service_deleteWebhook (id : string) : M WebhookStore HttpError unit := λ st,
  match deleteWebhook id st with
  | (true, st) => (Ok tt, st)
  | (false, st) => (Throw (NotFound ("Webhook with ID " +:+ id +:+ " not found")), st)
  end.

Definition service_pruneOldDeliveries (retentionDays now : Z) (st : WebhookStore)
    : Z * WebhookStore :=
  pruneOldDeliveries (now - retentionDays * 24 * 60 * 60 * 1000) None st.

Section service.
Context (parse_url : string → option ParsedUrl).
Context (dns_resolve : string → outcome string (list string)).
Context (createHmac : string → string → outcome string string).

Definition is_localhost (hostname : string) : bool :=
  str_eqb hostname "localhost" || str_eqb hostname "0.0.0.0" || str_eqb hostname "127.0.0.1"
  || starts_with "127." hostname.

(** The addresses the resolver gives for a hostname, checked in order. *)
Definition check_addresses (addresses : list string) : outcome HttpError unit :=
  match js_find isBlockedIp addresses with
  | Some addr => Throw (BadRequest ("Webhook URL resolves to blocked IP address: " +:+ addr))
  | None => Ok tt
  end.

Definition validateUrl (isProduction : bool) (url : string) : outcome HttpError unit :=
  match parse_url url with
  | None => Throw (BadRequest "Invalid webhook URL")
  | Some parsed =>
      let hostname := pu_hostname parsed in
      if negb (js_includes (pu_protocol parsed) ["http:"; "https:"])
      then Throw (BadRequest "Only HTTP and HTTPS protocols are allowed")
      else if is_localhost hostname && negb isProduction then Ok tt
      else if str_eqb hostname "localhost" || str_eqb hostname "0.0.0.0"
      then Throw (BadRequest "Cannot use localhost or 0.0.0.0 as webhook URL in production")
      else if isBlockedIp hostname
      then Throw (BadRequest "Cannot use private IP addresses as webhook URL")
      else if includes "127." hostname || includes "localhost" hostname
      then Throw (BadRequest "Suspicious hostname detected")
      else if isProduction then
        match dns_resolve hostname with
        | Ok addresses => check_addresses addresses
        | Throw _ => Throw (BadRequest "Failed to resolve webhook URL hostname")
        end
      else Ok tt
  end.

Definition generateSignature (payload secret : string) : outcome string string :=
  createHmac secret payload.

Definition verifySignature (payload signature secret : string) : outcome string bool :=
  match generateSignature payload secret with
  | Ok expectedSignature => Ok (str_eqb signature expectedSignature)
  | Throw e => Throw e
  end.

(** The webhook a create request asks for; the adapter fills in the id and the
    two timestamps. *)
Definition new_webhook (randomHex : string) (defaultId : option string) (dto : CreateWebhookDto)
    : Webhook :=
  {| wh_id := EmptyString; wh_name := cw_name dto; wh_url := cw_url dto;
     wh_secret := Some (match cw_secret dto with
                        | Some (String _ _ as s) => s
                        | _ => generateSecret randomHex
                        end);
     wh_enabled := default true (cw_enabled dto); wh_events := cw_events dto;
     wh_headers := Some (default [] (cw_headers dto));
     wh_retryPolicy := default DEFAULT_RETRY_POLICY (cw_retryPolicy dto);
     wh_deliveryConfig := cw_deliveryConfig dto; wh_alertConfig := cw_alertConfig dto;
     wh_thresholds := cw_thresholds dto;
     wh_connectionId := resolveConnectionId defaultId (cw_connectionId dto);
     wh_createdAt := 0; wh_updatedAt := 0 |}.

(** The environment of a request: mode, licence, default connection, clock and
    the random values drawn. *)
Record ServiceEnv := {
  sv_isProduction : bool;
  sv_licence : option Tier;
  sv_defaultId : option string;
  sv_now : Z;
  sv_id : string;
  sv_randomHex : string;
}.

Definition service_createWebhook (env : ServiceEnv) (dto : CreateWebhookDto)
    : M WebhookStore HttpError Webhook := λ st,
  match validateUrl (sv_isProduction env) (cw_url dto) with
  | Throw e => (Throw e, st)
  | Ok _ =>
      match validateEventTiers (sv_licence env) (cw_events dto) with
      | Throw e => (Throw e, st)
      | Ok _ =>
          let '(webhook, st) := createWebhook (sv_id env) (sv_now env)
            (new_webhook (sv_randomHex env) (sv_defaultId env) dto) st in
          (Ok webhook, st)
      end
  end.

Definition service_updateWebhook (env : ServiceEnv) (id : string) (dto : WebhookUpdates)
    : M WebhookStore HttpError Webhook := λ st,
  let url_check := match wu_url dto with
                   | Some (String _ _ as url) => validateUrl (sv_isProduction env) url
                   | _ => Ok tt
                   end in
  match url_check with
  | Throw e => (Throw e, st)
  | Ok _ =>
      let events_check := match wu_events dto with
                          | Some events => validateEventTiers (sv_licence env) events
                          | None => Ok tt
                          end in
      match events_check with
      | Throw e => (Throw e, st)
      | Ok _ =>
          match updateWebhook id dto (sv_now env) st with
          | (Some updated, st) => (Ok updated, st)
          | (None, st) => (Throw (NotFound ("Webhook with ID " +:+ id +:+ " not found")), st)
          end
      end
  end.
End service.

(** ** Specification *)

(** The private and local IPv4 ranges: 127/8, 10/8, 172.16/12, 192.168/16 and
    169.254/16. *)
Definition private_range (a b : Z) : bool :=
  (a =? 127) || (a =? 10) || ((a =? 172) && (16 <=? b) && (b <=? 31))
  || ((a =? 192) && (b =? 168)) || ((a =? 169) && (b =? 254)).

(** A dotted address by its first two octets. *)
Definition dotted (a b : Z) (rest : string) : string :=
  string_of_Z a +:+ "." +:+ string_of_Z b +:+ "." +:+ rest.

Section policy.
Context (parse_url : string → option ParsedUrl).
Context (dns_resolve : string → outcome string (list string)).

(** What an admitted subscription looks like under a licence. *)
Definition admissible (env : ServiceEnv) (w : Webhook) : Prop :=
  (is_empty (wh_url w) = true ∨
   validateUrl parse_url dns_resolve (sv_isProduction env) (wh_url w) = Ok tt)
  ∧ Forall (λ e, isEventAllowedForTier e (user_tier (sv_licence env)) = true) (wh_events w).

(** The requests that change the subscriptions, in one mode and under one licence. *)
Inductive service_op (mode : bool) (licence : option Tier) : WebhookStore → WebhookStore → Prop :=
  | op_create env dto st :
      sv_isProduction env = mode → sv_licence env = licence →
      service_op mode licence st (service_createWebhook parse_url dns_resolve env dto st).2
  | op_update env id dto st :
      sv_isProduction env = mode → sv_licence env = licence →
      service_op mode licence st (service_updateWebhook parse_url dns_resolve env id dto st).2
  | op_delete id st : service_op mode licence st (service_deleteWebhook id st).2.
End policy.

(** *** Samples, used by the witnesses *)
Definition sample_parse_url (url : string) : option ParsedUrl :=
  if starts_with "https://" url
  then Some {| pu_protocol := "https:"; pu_username := EmptyString; pu_password := EmptyString;
               pu_hostname := str_drop 8 url |}
  else None.

(** A resolver that knows three names. *)
Definition sample_dns (name : string) : outcome string (list string) :=
  if str_eqb name "hooks.example.com" then Ok ["93.184.216.34"]
  else if str_eqb name "intranet.example.com" then Ok ["10.0.0.7"]
  else if str_eqb name "zero.example.com" then Ok ["0.0.0.0"]
  else Throw "ENOTFOUND".

Definition sample_env (isProduction : bool) : ServiceEnv :=
  {| sv_isProduction := isProduction; sv_licence := Some pro; sv_defaultId := None; sv_now := 5;
     sv_id := "n"; sv_randomHex := "00ff" |}.

Definition sample_create (url : string) : CreateWebhookDto :=
  {| cw_name := "ops"; cw_url := url; cw_secret := None; cw_enabled := None;
     cw_events := [INSTANCE_DOWN; SLOWLOG_THRESHOLD]; cw_headers := None; cw_retryPolicy := None;
     cw_deliveryConfig := None; cw_alertConfig := None; cw_thresholds := None;
     cw_connectionId := None |}.

(** ** Lemmas *)
Definition two_octet_range (a : Z) : bool := (a =? 172) || (a =? 192) || (a =? 169).

Lemma one_octet_patterns t :
  forallb (λ a, two_octet_range a
    || Bool.eqb (isBlockedIp (string_of_Z a +:+ "." +:+ t)) ((a =? 127) || (a =? 10)))
    (seqZ 0 256) = true.
Proof. vm_compute. reflexivity. Qed.

Lemma two_octet_patterns c rest :
  forallb (λ a, forallb (λ b,
    Bool.eqb (isBlockedIp (dotted a b (String c rest))) (private_range a b)) (seqZ 0 256))
    [172; 192; 169] = true.
Proof. vm_compute. reflexivity. Qed.

Lemma forallb_elem {A} (p : A → bool) l x : forallb p l = true → x ∈ l → p x = true.
Proof. rewrite forallb_forall. intros H Hx. by apply H, list_elem_of_In. Qed.

Lemma isBlockedIp_dotted a b c rest :
  0 ≤ a < 256 → 0 ≤ b < 256 → isBlockedIp (dotted a b (String c rest)) = private_range a b.
Proof.
  intros Ha Hb. apply Bool.eqb_prop.
  assert (a ∈ seqZ 0 256) as Hia by (apply elem_of_seqZ; lia).
  assert (b ∈ seqZ 0 256) as Hib by (apply elem_of_seqZ; lia). clear Ha Hb.
  destruct (two_octet_range a) eqn:Ht.
  - assert (Hin : a ∈ [172; 192; 169]).
    { unfold two_octet_range in Ht. rewrite !orb_true_iff, !Z.eqb_eq in Ht.
      destruct Ht as [[->| ->]| ->]; set_solver. }
    pose proof (forallb_elem _ _ _ (two_octet_patterns c rest) Hin) as H. cbv beta in H.
    exact (forallb_elem _ _ _ H Hib).
  - pose proof (forallb_elem _ _ _ (one_octet_patterns (string_of_Z b +:+ "." +:+ String c rest)) Hia)
      as H. cbv beta in H. rewrite Ht in H. unfold dotted.
    replace (private_range a b) with ((a =? 127) || (a =? 10)); [exact H|].
    unfold private_range, two_octet_range in *. apply orb_false_iff in Ht as [Ht H169].
    apply orb_false_iff in Ht as [H172 H192]. rewrite H172, H192, H169.
    by rewrite !andb_false_l, !orb_false_r.
Qed.

Lemma validateEventTiers_ok licence events :
  validateEventTiers licence events = Ok tt ↔
  Forall (λ e, isEventAllowedForTier e (user_tier licence) = true) events.
Proof.
  rewrite <-validateEventsForTier_empty. unfold validateEventTiers.
  destruct (validateEventsForTier _ _); naive_solver.
Qed.

Section service_lemmas.
Context (parse_url : string → option ParsedUrl).
Context (dns_resolve : string → outcome string (list string)).
#[local] Abbreviation validateUrl := (validateUrl parse_url dns_resolve).
#[local] Abbreviation admissible := (admissible parse_url dns_resolve).

Lemma validateUrl_production url :
  validateUrl true url = Ok tt →
  ∃ parsed addresses, parse_url url = Some parsed
    ∧ pu_protocol parsed ∈ ["http:"; "https:"]
    ∧ pu_hostname parsed ≠ "localhost" ∧ pu_hostname parsed ≠ "0.0.0.0"
    ∧ isBlockedIp (pu_hostname parsed) = false
    ∧ dns_resolve (pu_hostname parsed) = Ok addresses
    ∧ ∀ addr, addr ∈ addresses → isBlockedIp addr = false.
Proof.
  unfold validateUrl. destruct (parse_url url) as [parsed|]; [|done].
  destruct (js_includes _ _) eqn:Hp; [|done]. apply js_includes_true in Hp.
  rewrite andb_false_r. simpl.
  destruct (str_eqb _ "localhost" || _) eqn:Hl; [done|].
  destruct (isBlockedIp _) eqn:Hb; [done|]. destruct (includes _ _ || _); [done|].
  destruct (dns_resolve _) as [addresses|] eqn:Hd; [|done]. unfold check_addresses.
  destruct (js_find _ _) eqn:Hf; [done|]. intros _. unfold str_eqb in Hl. js_bools.
  exists parsed, addresses. split_and!; try done. by apply js_find_None.
Qed.

Lemma createWebhook_admissible env dto st w st' :
  service_createWebhook parse_url dns_resolve env dto st = (Ok w, st') →
  admissible env w ∧ st' = (createWebhook (sv_id env) (sv_now env)
    (new_webhook (sv_randomHex env) (sv_defaultId env) dto) st).2
  ∧ wh_url w = cw_url dto ∧ getWebhook (sv_id env) st' = Some w.
Proof.
  unfold service_createWebhook. destruct (validateUrl _ _) as [[]|] eqn:Hu; [|done].
  destruct (validateEventTiers _ _) as [[]|] eqn:He; [|done]. simpl. intros [= <- <-].
  split_and!; try done.
  - split; [right; done|]. simpl. by apply validateEventTiers_ok.
  - unfold getWebhook. simpl. apply jm_get_set_eq.
Qed.

Lemma create_failed env dto st e st' :
  service_createWebhook parse_url dns_resolve env dto st = (Throw e, st') → st' = st.
Proof. unfold service_createWebhook. repeat case_match; simplify_eq/=; naive_solver. Qed.

Lemma updateWebhook_admissible env id dto st w :
  (∀ x, getWebhook id st = Some x → admissible env x) →
  (service_updateWebhook parse_url dns_resolve env id dto st).1 = Ok w →
  admissible env w ∧ (service_updateWebhook parse_url dns_resolve env id dto st).2
                     = (updateWebhook id dto (sv_now env) st).2
  ∧ (updateWebhook id dto (sv_now env) st).1 = Some w.
Proof.
  intros Hold. unfold service_updateWebhook.
  destruct (match wu_url dto with Some (String _ _ as u) => _ | _ => _ end) as [[]|] eqn:Hu; [|done].
  destruct (match wu_events dto with Some _ => _ | _ => _ end) as [[]|] eqn:He; [|done].
  unfold updateWebhook, getWebhook in *. destruct (jm_get id (ws_webhooks st)) as [x|]; [|done].
  simpl. intros [= <-]. split_and!; try done. destruct (Hold x eq_refl) as [Hxu Hxe]. split; simpl.
  - destruct (wu_url dto) as [[|c u]|]; simpl in *; auto.
  - destruct (wu_events dto); simpl in *; [|done]. by apply validateEventTiers_ok.
Qed.

Lemma update_failed env id dto st e :
  (service_updateWebhook parse_url dns_resolve env id dto st).1 = Throw e →
  (service_updateWebhook parse_url dns_resolve env id dto st).2 = st.
Proof.
  unfold service_updateWebhook, updateWebhook. repeat case_match; simplify_eq/=; naive_solver.
Qed.

Lemma admissible_env env env' w :
  sv_isProduction env' = sv_isProduction env → sv_licence env' = sv_licence env →
  admissible env' w ↔ admissible env w.
Proof. unfold WebhooksService.admissible. by intros -> ->. Qed.

(** Every request keeps the stored subscriptions within the rules. *)
Lemma service_op_admissible env st st' :
  service_op parse_url dns_resolve (sv_isProduction env) (sv_licence env) st st' →
  (∀ id w, getWebhook id st = Some w → admissible env w) →
  ∀ id w, getWebhook id st' = Some w → admissible env w.
Proof.
  intros [env' dto st1 Hm Hl|env' id' dto st1 Hm Hl|id' st1] Hst id w.
  - destruct (service_createWebhook _ _ env' dto st1) as [[w'|e] st2] eqn:E; simpl.
    + apply createWebhook_admissible in E as (Ha & -> & _ & Hg).
      unfold getWebhook in *. simpl in *. rewrite jm_get_set_eq in Hg. injection Hg as <-.
      rewrite jm_get_set. case_decide; [|apply Hst]. intros [= <-].
      by apply (admissible_env env env').
    + apply create_failed in E as ->. apply Hst.
  - destruct (service_updateWebhook _ _ env' id' dto st1) as [[w'|e] st2] eqn:E; simpl.
    + destruct (updateWebhook_admissible env' id' dto st1 w') as (Ha & Hst2 & Hu);
        [intros x Hx; apply (admissible_env env env'); [done..|by eapply Hst]|by rewrite E|].
      rewrite E in Hst2. simpl in Hst2. subst st2. unfold updateWebhook, getWebhook in *.
      destruct (jm_get id' (ws_webhooks st1)) as [x|]; [|done].
      cbn -[stamp_webhook] in Hu |- *. injection Hu as Hu. rewrite Hu.
      rewrite jm_get_set. case_decide; [|apply Hst]. intros [= <-].
      by apply (admissible_env env env').
    + pose proof (update_failed env' id' dto st1 e) as Hf. rewrite E in Hf.
      simpl in Hf. rewrite Hf by done. apply Hst.
  - unfold service_deleteWebhook, deleteWebhook, getWebhook in *.
    destruct (jm_has id' (ws_webhooks st1)); simpl; [|apply Hst].
    rewrite jm_get_delete. case_decide; [done|apply Hst].
Qed.
End service_lemmas.

(** ** Theorems *)

(** C33: In production no webhook is created for an internal address: when a create
    request succeeds, its URL is HTTP or HTTPS, its host is neither localhost
    nor 0.0.0.0, the name was resolved, and neither the host nor any address it
    resolved to is a dotted address of a private or local IPv4 range. *)
Theorem ssrf_guard parse_url dns_resolve env dto st w st' :
  sv_isProduction env = true →
  service_createWebhook parse_url dns_resolve env dto st = (Ok w, st') →
  ∃ parsed addresses, parse_url (wh_url w) = Some parsed
    ∧ pu_protocol parsed ∈ ["http:"; "https:"]
    ∧ pu_hostname parsed ≠ "localhost" ∧ pu_hostname parsed ≠ "0.0.0.0"
    ∧ dns_resolve (pu_hostname parsed) = Ok addresses
    ∧ ∀ a b c rest, 0 ≤ a < 256 → 0 ≤ b < 256 →
        dotted a b (String c rest) ∈ pu_hostname parsed :: addresses → private_range a b = false.
Proof.
  intros Hmode H. assert (Hu : validateUrl parse_url dns_resolve true (cw_url dto) = Ok tt).
  { unfold service_createWebhook in H. rewrite Hmode in H.
    by destruct (validateUrl parse_url dns_resolve true (cw_url dto)) as [[]|]. }
  apply createWebhook_admissible in H as (_ & _ & -> & _).
  apply validateUrl_production in Hu
    as (parsed & addresses & Hp & Hproto & Hl & Hz & Hb & Hd & Hall).
  exists parsed, addresses. split_and!; try done.
  intros a b c rest Ha Hb' Hin. rewrite <-(isBlockedIp_dotted a b c rest) by done.
  apply elem_of_cons in Hin as [->|Hin]; [done|by apply Hall].
Qed.

Lemma ssrf_guard_witness :
  ran_ok (service_createWebhook sample_parse_url sample_dns (sample_env true)
    (sample_create "https://intranet.example.com") empty_webhook_store).1 = false
  ∧ ∃ parsed addresses, sample_parse_url "https://hooks.example.com" = Some parsed
    ∧ sample_dns (pu_hostname parsed) = Ok addresses.
Proof.
  split; [vm_compute; done|].
  destruct (ssrf_guard sample_parse_url sample_dns (sample_env true)
    (sample_create "https://hooks.example.com") empty_webhook_store
    _ _ eq_refl eq_refl) as (parsed & addresses & Hp & _ & _ & _ & Hd & _).
  exists parsed, addresses. split; [exact Hp|exact Hd].
Defined.

(** The resolved addresses are not held against the rule for the literal host:
    0.0.0.0, which reaches the machine itself and is refused as a host name in
    production, is accepted as the address of another name. *)
Theorem ssrf_zero_address :
  ∃ parse_url dns_resolve,
    ran_ok (validateUrl parse_url dns_resolve true "https://0.0.0.0") = false
    ∧ dns_resolve "zero.example.com" = Ok ["0.0.0.0"]
    ∧ validateUrl parse_url dns_resolve true "https://zero.example.com" = Ok tt.
Proof. exists sample_parse_url, sample_dns. vm_compute. done. Qed.

(** Subscriptions stay within the rules: under one licence and mode, whatever is
    created, updated and deleted, every stored webhook has a validated URL and
    subscribes only to events its licence admits, and a request that fails
    changes nothing. *)
Theorem webhooks_stay_admissible parse_url dns_resolve env st st' :
  rtc (service_op parse_url dns_resolve (sv_isProduction env) (sv_licence env)) st st' →
  (∀ id w, getWebhook id st = Some w → admissible parse_url dns_resolve env w) →
  (∀ id w, getWebhook id st' = Some w → admissible parse_url dns_resolve env w)
  ∧ (∀ dto e, (service_createWebhook parse_url dns_resolve env dto st').1 = Throw e →
       (service_createWebhook parse_url dns_resolve env dto st').2 = st')
  ∧ (∀ id dto e, (service_updateWebhook parse_url dns_resolve env id dto st').1 = Throw e →
       (service_updateWebhook parse_url dns_resolve env id dto st').2 = st').
Proof.
  intros Hrtc Hst. split_and!.
  - induction Hrtc as [|st1 st2 st3 Hop _ IH]; [done|]. apply IH.
    by eapply service_op_admissible.
  - intros dto e H. destruct (service_createWebhook _ _ _ _ _) eqn:E. simpl in *. subst.
    by eapply create_failed.
  - intros id dto e. apply update_failed.
Qed.

Lemma webhooks_stay_admissible_witness :
  ∃ st' w, getWebhook "n" st' = Some w
    ∧ admissible sample_parse_url sample_dns (sample_env true) w.
Proof.
  set (env := sample_env true).
  set (st' := (service_createWebhook sample_parse_url sample_dns env
    (sample_create "https://hooks.example.com") empty_webhook_store).2).
  destruct (webhooks_stay_admissible sample_parse_url sample_dns env empty_webhook_store st')
    as [H _].
  - apply rtc_once. by apply op_create.
  - intros id w. done.
  - exists st'. eexists. split; [vm_compute; reflexivity|]. apply (H "n"). vm_compute. reflexivity.
Defined.

(** A redacted secret shows at most four characters of it, two when it is
    shorter than eight, apart from the fixed prefix. *)
Theorem redaction_shows_little secret :
  ∃ shown, redact_text secret = shown +:+ "***"
    ∧ ∃ rest, (secret = "whsec_" +:+ rest ∧ ∃ n, (n ≤ 4)%nat ∧ shown = "whsec_" +:+ utf16_take n rest)
              ∨ (∃ n, (n ≤ 4)%nat ∧ (js_length secret < 8 → (n ≤ 2)%nat) ∧ shown = utf16_take n secret).
Proof.
  unfold redact_text. destruct (starts_with "whsec_" secret) eqn:Hs.
  - apply starts_with_spec in Hs as [rest ->]. eexists. split; [by rewrite <-str_app_assoc|].
    exists rest. left. split; [done|]. exists (Z.to_nat (Z.min 4 (js_length rest))).
    split; [lia|done].
  - eexists. split; [done|]. exists EmptyString. right. eexists. split_and!; [| |done].
    + destruct (_ <? _); lia.
    + intros Hl. destruct (Z.ltb_spec (js_length secret) 8); lia.
Qed.
