(* ===== verification/WebhookDispatcher.v ===== *)
(** * The webhook dispatcher

    [apps/api/src/webhooks/webhook-dispatcher.service.ts]: threshold alerts with
    hysteresis, the signed HTTP request, one delivery attempt and what it writes
    on the delivery's row, the dispatch of an event to the subscribed webhooks,
    and the test request.

    The alert states live in the [lru-cache] package, which is an interface here
    ([AlertCache] with [AlertCacheLaws], what its documentation promises); a
    least-recently-used list with expiry implements it.  [createHmac] and the
    answer of [fetch] are parameters; the clock values an attempt reads are the
    fields of [SendEnv].  [Promise.allSettled] over the webhooks of an event is
    modelled in their order: each works on its own delivery.  The HTTP requests
    an operation makes are part of its result. *)
From S2P Require Export WebhooksService.
From stdpp Require Import options.

(** ** Definitions *)
Record AlertState := { al_fired : bool; al_firedAt : Z; al_value : number }.

Definition ALERT_STATE_CACHE_MAX_SIZE : nat := 1000.
Definition ALERT_STATE_CACHE_TTL_MS : Z := 24 * 60 * 60 * 1000.
Definition BLOCKED_HEADERS : list string :=
  ["host"; "content-length"; "transfer-encoding"; "connection"; "upgrade"].
Definition MAX_TEST_RESPONSE_PREVIEW_BYTES : Z := 1000.
Definition MAX_DELIVERIES_PER_WEBHOOK : Z := 1000.

(** The calls of the cache the dispatcher makes, and the entry a key has at a
    time. *)
Class AlertCache (C : Type) := {
  ac_get : Z → string → C → option AlertState * C;
  ac_set : Z → string → AlertState → C → C;
  ac_delete : string → C → C;
  ac_live : Z → string → C → option AlertState;
}.

Class AlertCacheLaws (C : Type) `{AlertCache C} := {
  ac_get_live now k c : (ac_get now k c).1 = ac_live now k c;
  ac_get_keeps now t k k' c : now ≤ t → ac_live t k' (ac_get now k c).2 = ac_live t k' c;
  ac_set_live now t k v c :
    now ≤ t → t - now ≤ ALERT_STATE_CACHE_TTL_MS → ac_live t k (ac_set now k v c) = Some v;
  ac_set_other now t k k' v v' c :
    k ≠ k' → ac_live t k' (ac_set now k v c) = Some v' → ac_live t k' c = Some v';
  ac_delete_live t k c : ac_live t k (ac_delete k c) = None;
  ac_delete_other t k k' c : k ≠ k' → ac_live t k' (ac_delete k c) = ac_live t k' c;
  ac_live_earlier t t' k v c : t ≤ t' → ac_live t' k c = Some v → ac_live t k c = Some v;
}.

(** A cache with those laws: entries with the time they were set, the most
    recently used first. *)
Definition LruCache : Type := list (string * (AlertState * Z)).
Definition lru_live (now : Z) (k : string) (c : LruCache) : option AlertState :=
  match jm_get k c with
  | Some (v, t) => if now - t <=? ALERT_STATE_CACHE_TTL_MS then Some v else None
  | None => None
  end.
#[export] Instance lru_cache : AlertCache LruCache := {
  ac_get now k c :=
    match jm_get k c with
    | Some (v, t) =>
        if now - t <=? ALERT_STATE_CACHE_TTL_MS
        then (Some v, (k, (v, t)) :: jm_delete k c) else (None, jm_delete k c)
    | None => (None, c)
    end;
  ac_set now k v c := take ALERT_STATE_CACHE_MAX_SIZE ((k, (v, now)) :: jm_delete k c);
  ac_delete k c := jm_delete k c;
  ac_live := lru_live;
}.

(** [conditionMet] *)
Definition breached (threshold : number) (isAbove : bool) (currentValue : number) : bool :=
  if isAbove then num_leb threshold currentValue else num_leb currentValue threshold.

Definition recovered (threshold : number) (isAbove : bool) (hysteresisFactor currentValue : number)
    : bool :=
  let recoveryThreshold :=
    if isAbove then num_mul threshold hysteresisFactor
    else num_mul threshold (num_sub (num_of_Z 2) hysteresisFactor) in
  if isAbove then num_ltb currentValue recoveryThreshold
  else num_ltb recoveryThreshold currentValue.
Arguments breached : simpl never.
Arguments recovered : simpl never.

Definition shouldFireAlert `{AlertCache C} (now : Z) (alertKey : string)
    (currentValue threshold : number) (isAbove : bool) (hysteresisFactor : number) (c : C)
    : bool * C :=
  let '(state, c) := ac_get now alertKey c in
  match state with
  | None =>
      if breached threshold isAbove currentValue
      then (true, ac_set now alertKey
                    {| al_fired := true; al_firedAt := now; al_value := currentValue |} c)
      else (false, c)
  | Some _ =>
      (false, if recovered threshold isAbove hysteresisFactor currentValue
              then ac_delete alertKey c else c)
  end.

(** *** The request *)
Definition sanitizeHeaders (headers : list (string * string)) : list (string * string) :=
  foldl (λ sanitized kv,
    if js_includes (to_lower kv.1) BLOCKED_HEADERS then sanitized
    else jm_set kv.1 kv.2 sanitized) [] headers.

Record HttpRequest := {
  rq_url : string;
  rq_headers : list (string * string);
  rq_body : string;
}.

Definition instance_json (i : WebhookInstanceInfo) : json :=
  JObj ([("host", JStr (wi_host i)); ("port", JInt (wi_port i))]
        ++ json_opt "connectionId" JStr (wi_connectionId i)).

(** [JSON.stringify(payload)] *)
Definition payload_string (p : WebhookPayload) : string :=
  stringify (JObj (json_opt "id" JStr (wp_id p)
    ++ [("event", JStr (event_name (wp_event p))); ("timestamp", JInt (wp_timestamp p))]
    ++ json_opt "instance" instance_json (wp_instance p)
    ++ [("data", JObj (wp_data p))])).

(** What [fetch] gives: a response with its status and its text ([None] when the
    body cannot be read), an abort by the timeout, or another error. *)
Inductive FetchOutcome :=
  | Response (status : Z) (text : option string)
  | AbortError
  | FetchError (message : string).

Definition response_ok (status : Z) : bool := (200 <=? status) && (status <=? 299).

(** The clock and the network of one attempt: the answer, the time the response
    is in minus the time the attempt began, and the time the row is updated. *)
Record SendEnv := {
  sn_reply : FetchOutcome;
  sn_durationMs : Z;
  sn_updatedAt : Z;
}.

(** The delay before attempt [attempts + 1]. *)
Definition backoff_delay (p : RetryPolicy) (attempts : Z) : Z :=
  Z.min (rp_initialDelayMs p * rp_backoffMultiplier p ^ (attempts - 1)) (rp_maxDelayMs p).

Definition attempt_updates (p : RetryPolicy) (now attempts : Z) (status : DeliveryStatus)
    (statusCode : option Z) (responseBody : option string) (durationMs : Z) : DeliveryUpdates :=
  let retry := bool_decide (status = RETRYING) && (attempts <? rp_maxRetries p) in
  let exhausted := bool_decide (status = RETRYING) && negb retry in
  {| du_attempts := Some attempts;
     du_status := Some (if exhausted then DEAD_LETTER else status);
     du_statusCode := Some statusCode;
     du_responseBody := Some responseBody;
     du_durationMs := Some durationMs;
     du_completedAt :=
       if bool_decide (status = SUCCESS) || exhausted then Some now else None;
     du_nextRetryAt := if retry then Some (now + backoff_delay p attempts) else None |}.

(** [updateDelivery] of the dispatcher *)
Definition record_attempt (deliveryId : string) (webhook : Webhook) (now : Z)
    (status : DeliveryStatus) (statusCode : option Z) (responseBody : option string)
    (durationMs : Z) (st : WebhookStore) : WebhookStore :=
  match getDelivery deliveryId st with
  | None => st
  | Some delivery =>
      let attempts := wd_attempts delivery + 1 in
      (updateDelivery deliveryId
         (attempt_updates (wh_retryPolicy webhook) now attempts status statusCode responseBody
            durationMs) st).2
  end.

Section dispatcher.
Context (createHmac : string → string → outcome string string).
Context (getConfig : string → option (string * Z)).
Context (sourceHost : string) (sourcePort : Z).
Context (defaultId : option string).

Definition getInstanceInfo (connectionId : option string) : string * Z :=
  match connectionId with
  | Some (String _ _ as c) => default (sourceHost, sourcePort) (getConfig c)
  | _ => (sourceHost, sourcePort)
  end.

Definition generateSignatureWithTimestamp (payload secret : string) (timestamp : Z)
    : outcome string string :=
  generateSignature createHmac (string_of_Z timestamp +:+ "." +:+ payload) secret.

Definition build_request (webhook : Webhook) (extra : list (string * string))
    (payload : WebhookPayload) : outcome string HttpRequest :=
  let payloadString := payload_string payload in
  let timestamp := wp_timestamp payload in
  match generateSignatureWithTimestamp payloadString (default EmptyString (wh_secret webhook))
          timestamp with
  | Throw e => Throw e
  | Ok signature =>
      let base := [("Content-Type", "application/json");
                   ("User-Agent", "BetterDB-Monitor/1.0");
                   ("X-Webhook-Signature", signature);
                   ("X-Webhook-Timestamp", string_of_Z timestamp);
                   ("X-Webhook-Id", wh_id webhook)] ++ extra in
      Ok {| rq_url := wh_url webhook;
            rq_headers := js_spread base (sanitizeHeaders (default [] (wh_headers webhook)));
            rq_body := payloadString |}
  end.

Definition delivery_request (webhook : Webhook) (deliveryId : string) (payload : WebhookPayload)
    : outcome string HttpRequest :=
  build_request webhook [("X-Webhook-Delivery-Id", deliveryId);
                         ("X-Webhook-Event", event_name (wp_event payload))] payload.

(** The status, status code and response body an attempt ends with. *)
Definition send_result (webhook : Webhook) (deliveryId : string) (payload : WebhookPayload)
    (reply : FetchOutcome) : DeliveryStatus * option Z * option string :=
  match delivery_request webhook deliveryId payload with
  | Throw message => (FAILED, None, Some (if is_empty message then "Unknown error" else message))
  | Ok _ =>
      match reply with
      | Response statusCode text =>
          let responseBody := default EmptyString text in
          let status := if response_ok statusCode then SUCCESS
                        else if (400 <=? statusCode) && (statusCode <? 500) then FAILED
                        else RETRYING in
          (status, Some statusCode, Some responseBody)
      | AbortError => (RETRYING, None, Some "Request timeout")
      | FetchError message =>
          (RETRYING, None, Some (if is_empty message then "Network error" else message))
      end
  end.

Definition send_requests (webhook : Webhook) (deliveryId : string) (payload : WebhookPayload)
    : list HttpRequest :=
  match delivery_request webhook deliveryId payload with Ok r => [r] | Throw _ => [] end.

Definition sendWebhook (env : SendEnv) (webhook : Webhook) (deliveryId : string)
    (payload : WebhookPayload) (st : WebhookStore) : WebhookStore :=
  let '(_, maxResponseBodyBytes) := getDeliveryConfig webhook in
  let '(status, statusCode, responseBody) := send_result webhook deliveryId payload (sn_reply env) in
  record_attempt deliveryId webhook (sn_updatedAt env) status statusCode
    (utf16_take (Z.to_nat maxResponseBodyBytes) <$> responseBody) (sn_durationMs env) st.

(** *** Dispatch *)
Record DispatchEnv := {
  ds_payloadId : string;
  ds_timestamp : Z;
  ds_deliveryId : string;
  ds_createdAt : Z;
  ds_send : SendEnv;
}.

Definition new_payload (env : DispatchEnv) (eventType : WebhookEventType)
    (data : list (string * json)) (connectionId : option string) : WebhookPayload :=
  let '(host, port) := getInstanceInfo connectionId in
  {| wp_id := Some (ds_payloadId env); wp_event := eventType; wp_timestamp := ds_timestamp env;
     wp_instance := Some {| wi_host := host; wi_port := port; wi_connectionId := connectionId |};
     wp_data := data |}.

Definition new_delivery (env : DispatchEnv) (webhook : Webhook) (eventType : WebhookEventType)
    (data : list (string * json)) (connectionId : option string) : WebhookDelivery :=
  {| wd_id := EmptyString; wd_webhookId := wh_id webhook; wd_eventType := eventType;
     wd_payload := new_payload env eventType data connectionId; wd_status := PENDING;
     wd_statusCode := None; wd_responseBody := None; wd_attempts := 0; wd_nextRetryAt := None;
     wd_connectionId := connectionId; wd_createdAt := 0; wd_completedAt := None;
     wd_durationMs := None |}.

Definition dispatchToWebhook (env : DispatchEnv) (webhook : Webhook)
    (eventType : WebhookEventType) (data : list (string * json)) (connectionId : option string)
    (st : WebhookStore) : WebhookStore * list HttpRequest :=
  if negb (wh_enabled webhook) then (st, [])
  else
    let '(delivery, st) := createDelivery MAX_DELIVERIES_PER_WEBHOOK (ds_deliveryId env)
      (ds_createdAt env) (new_delivery env webhook eventType data connectionId) st in
    (sendWebhook (ds_send env) webhook (wd_id delivery) (wd_payload delivery) st,
     send_requests webhook (wd_id delivery) (wd_payload delivery)).

(** The webhooks of an event one after the other, each with its own random
    values, clock and answer. *)
Fixpoint dispatch_all (envs : nat → DispatchEnv) (webhooks : list Webhook)
    (eventType : WebhookEventType) (data : list (string * json)) (connectionId : option string)
    (st : WebhookStore) : WebhookStore * list HttpRequest :=
  match webhooks with
  | [] => (st, [])
  | webhook :: webhooks =>
      let '(st, requests) := dispatchToWebhook (envs 0%nat) webhook eventType data connectionId st in
      let '(st, more) := dispatch_all (λ i, envs (S i)) webhooks eventType data connectionId st in
      (st, requests ++ more)
  end.

Definition dispatchEvent (envs : nat → DispatchEnv) (eventType : WebhookEventType)
    (data : list (string * json)) (connectionId : option string) (st : WebhookStore)
    : WebhookStore * list HttpRequest :=
  let webhooks := service_getWebhooksByEvent defaultId eventType connectionId st in
  let enrichedData := match connectionId with
                      | Some (String _ _ as c) => json_set "connectionId" (JStr c) data
                      | _ => data
                      end in
  dispatch_all envs webhooks eventType enrichedData connectionId st.

Definition dispatchHealthChange := dispatchEvent.

Section alerts.
Context `{AlertCache C}.

Definition dispatchThresholdAlert (envs : nat → DispatchEnv) (now : Z)
    (eventType : WebhookEventType) (alertKey : string) (currentValue threshold : number)
    (isAbove : bool) (data : list (string * json)) (connectionId : option string)
    (cs : C * WebhookStore) : bool * (C * WebhookStore) * list HttpRequest :=
  let '(c, st) := cs in
  let '(fire, c) := shouldFireAlert now alertKey currentValue threshold isAbove
                      DEFAULT_ALERT_CONFIG c in
  if negb fire then (false, (c, st), [])
  else let '(st, requests) := dispatchEvent envs eventType data connectionId st in
       (true, (c, st), requests).

Definition alert_key (alertKeyPrefix : string) (connectionId : option string) (webhook : Webhook)
    : string :=
  match connectionId with
  | Some (String _ _ as c) => alertKeyPrefix +:+ ":" +:+ c +:+ ":" +:+ wh_id webhook
  | _ => alertKeyPrefix +:+ ":" +:+ wh_id webhook
  end.

Definition alert_data (data : list (string * json)) (threshold : Z) (thresholdKey : ThresholdKey)
    (connectionId : option string) : list (string * json) :=
  let enriched := json_set "thresholdKey" (JStr (threshold_key_name thresholdKey))
                    (json_set "threshold" (JInt threshold) data) in
  match connectionId with
  | Some (String _ _ as c) => json_set "connectionId" (JStr c) enriched
  | _ => enriched
  end.

Fixpoint alert_webhooks (envs : nat → DispatchEnv) (now : Z) (webhooks : list Webhook)
    (eventType : WebhookEventType) (alertKeyPrefix : string) (currentValue : number)
    (thresholdKey : ThresholdKey) (isAbove : bool) (data : list (string * json))
    (connectionId : option string) (cs : C * WebhookStore)
    : (C * WebhookStore) * list HttpRequest :=
  match webhooks with
  | [] => (cs, [])
  | webhook :: webhooks =>
      let '(c, st) := cs in
      let threshold := getThreshold webhook thresholdKey in
      let '(fire, c) := shouldFireAlert now (alert_key alertKeyPrefix connectionId webhook)
        currentValue (num_of_Z threshold) isAbove (getAlertConfig webhook) c in
      let '(st, requests) :=
        if fire then dispatchToWebhook (envs 0%nat) webhook eventType
                       (alert_data data threshold thresholdKey connectionId) connectionId st
        else (st, []) in
      let '(cs, more) := alert_webhooks (λ i, envs (S i)) now webhooks eventType alertKeyPrefix
        currentValue thresholdKey isAbove data connectionId (c, st) in
      (cs, requests ++ more)
  end.

Definition dispatchThresholdAlertPerWebhook (envs : nat → DispatchEnv) (now : Z)
    (eventType : WebhookEventType) (alertKeyPrefix : string) (currentValue : number)
    (thresholdKey : ThresholdKey) (isAbove : bool) (data : list (string * json))
    (connectionId : option string) (cs : C * WebhookStore)
    : (C * WebhookStore) * list HttpRequest :=
  let webhooks := service_getWebhooksByEvent defaultId eventType connectionId cs.2 in
  alert_webhooks envs now webhooks eventType alertKeyPrefix currentValue thresholdKey isAbove data
    connectionId cs.
End alerts.

(** *** The test request *)
Record TestResult := {
  te_success : bool;
  te_statusCode : option Z;
  te_responseBody : option string;
  te_error : option string;
  te_durationMs : Z;
}.

Definition test_payload (payloadId : string) (now : Z) (webhook : Webhook) : WebhookPayload :=
  let '(host, port) := getInstanceInfo (wh_connectionId webhook) in
  {| wp_id := Some payloadId; wp_event := default INSTANCE_DOWN (head (wh_events webhook));
     wp_timestamp := now;
     wp_instance := Some {| wi_host := host; wi_port := port;
                            wi_connectionId := wh_connectionId webhook |};
     wp_data := [("test", JBool true);
                 ("message", JStr "This is a test webhook from BetterDB Monitor")] |}.

Definition testWebhook (payloadId : string) (now : Z) (env : SendEnv) (webhook : Webhook)
    : TestResult * list HttpRequest :=
  let failure message :=
    {| te_success := false; te_statusCode := None; te_responseBody := None;
       te_error := Some (if is_empty message then "Unknown error" else message);
       te_durationMs := sn_durationMs env |} in
  let payload := test_payload payloadId now webhook in
  match build_request webhook [("X-Webhook-Event", event_name (wp_event payload));
                               ("X-Webhook-Test", "true")] payload with
  | Throw message => (failure message, [])
  | Ok request =>
      (match sn_reply env with
       | Response status text =>
           {| te_success := response_ok status; te_statusCode := Some status;
              te_responseBody := Some (utf16_take (Z.to_nat MAX_TEST_RESPONSE_PREVIEW_BYTES)
                                         (default EmptyString text));
              te_error := None; te_durationMs := sn_durationMs env |}
       | AbortError => failure "This operation was aborted"
       | FetchError message => failure message
       end, [request])
  end.
End dispatcher.

(** ** Specification *)

(** Observations of one alert: time and value. *)
Fixpoint alert_run `{AlertCache C} (key : string) (threshold : number) (isAbove : bool)
    (factor : number) (observations : list (Z * number)) (c : C) : list bool :=
  match observations with
  | [] => []
  | (now, v) :: rest =>
      let '(fire, c) := shouldFireAlert now key v threshold isAbove factor c in
      fire :: alert_run key threshold isAbove factor rest c
  end.

(** The promise: one alert per episode.  An armed alert fires at the first
    breach and disarms; a disarmed one fires never and rearms when the value has
    recovered past the hysteresis threshold. *)
Fixpoint episodes (armed : bool) (threshold : number) (isAbove : bool) (factor : number)
    (values : list number) : list bool :=
  match values with
  | [] => []
  | v :: rest =>
      if armed then
        breached threshold isAbove v
        :: episodes (negb (breached threshold isAbove v)) threshold isAbove factor rest
      else false :: episodes (recovered threshold isAbove factor v) threshold isAbove factor rest
  end.

(** Times in order, none later than a bound. *)
Fixpoint in_window (from until : Z) (times : list Z) : Prop :=
  match times with
  | [] => True
  | t :: rest => from ≤ t ∧ t ≤ until ∧ in_window t until rest
  end.

(** The headers a webhook's settings may not override. *)
Definition signed_header (headers : list (string * string)) : Prop :=
  ("X-Webhook-Signature" ∉ headers.*1) ∧ ("X-Webhook-Timestamp" ∉ headers.*1).

(** What an answer means for a delivery: HTTP 2xx delivers it, 4xx refuses it for
    good, anything else may succeed later. *)
Inductive verdict := Delivered | Refused | Transient.
#[export] Instance verdict_eq_dec : EqDecision verdict.
Proof. solve_decision. Defined.
Definition verdict_of (reply : FetchOutcome) : verdict :=
  match reply with
  | Response status _ => if status / 100 =? 2 then Delivered
                         else if status / 100 =? 4 then Refused else Transient
  | _ => Transient
  end.

(** Where a delivery stands after its [n]-th attempt. *)
Definition status_after (p : RetryPolicy) (n : Z) (v : verdict) : DeliveryStatus :=
  match v with
  | Delivered => SUCCESS
  | Refused => FAILED
  | Transient => if n <? rp_maxRetries p then RETRYING else DEAD_LETTER
  end.

(** Attempts one after the other. *)
Definition attempts_run (createHmac : string → string → outcome string string)
    (envs : list SendEnv) (w : Webhook) (id : string) (p : WebhookPayload) (st : WebhookStore)
    : WebhookStore :=
  foldl (λ st env, sendWebhook createHmac env w id p st) st envs.

(** *** Samples, used by the witnesses *)
Definition sample_hmac (secret content : string) : outcome string string :=
  Ok ("mac(" +:+ secret +:+ ")").
Definition sample_send (reply : FetchOutcome) (now : Z) : SendEnv :=
  {| sn_reply := reply; sn_durationMs := 20; sn_updatedAt := now |}.
Definition forging_webhook : Webhook :=
  apply_updates {| wu_name := None; wu_url := None; wu_secret := None; wu_enabled := None;
                   wu_events := None; wu_headers := Some [("X-Webhook-Signature", "forged")];
                   wu_retryPolicy := None; wu_deliveryConfig := None; wu_alertConfig := None;
                   wu_thresholds := None |} (sample_webhook "w").

(** ** Lemmas *)

(** *** The cache *)
Lemma lru_get_take n k (c : LruCache) v : jm_get k (take n c) = Some v → jm_get k c = Some v.
Proof.
  revert n. induction c as [|[k' v'] c IH]; intros n; [by rewrite take_nil|].
  destruct n as [|n]; csimpl; [done|]. case_decide; [done|apply IH].
Qed.

#[export] Instance lru_cache_laws : AlertCacheLaws LruCache.
Proof.
  assert (Hget : ∀ k k' (c : LruCache) v, jm_get k c = Some v →
    jm_get k' ((k, v) :: jm_delete k c) = jm_get k' c).
  { intros k k' c v Hk. csimpl. rewrite jm_get_delete. repeat case_decide; congruence. }
  split; simpl; unfold lru_live.
  - intros now k c. destruct (jm_get k c) as [[v t]|]; [|done]. by destruct (_ <=? _).
  - intros now t k k' c Ht. destruct (jm_get k c) as [[v t0]|] eqn:Hk; [|done].
    destruct (Z.leb_spec (now - t0) ALERT_STATE_CACHE_TTL_MS) as [Hl|Hl]; simpl.
    + pose proof (Hget k k' c _ Hk) as E. simpl in E. by rewrite E.
    + rewrite jm_get_delete. case_decide as Hkk; [|done]. subst k'. rewrite Hk.
      destruct (Z.leb_spec (t - t0) ALERT_STATE_CACHE_TTL_MS); [lia|done].
  - intros now t k v c Hnow Ht. csimpl. rewrite decide_True by done.
    by destruct (Z.leb_spec (t - now) ALERT_STATE_CACHE_TTL_MS); [|lia].
  - intros now t k k' v v' c Hne. csimpl. rewrite decide_False by done.
    destruct (jm_get k' (take _ _)) as [[w t0]|] eqn:E; [|done].
    apply lru_get_take in E. rewrite jm_get_delete, decide_False in E by done. by rewrite E.
  - intros t k c. by rewrite jm_get_delete, decide_True.
  - intros t k k' c Hne. by rewrite jm_get_delete, decide_False.
  - intros t t' k v c Ht. destruct (jm_get k c) as [[w t0]|]; [|done].
    destruct (Z.leb_spec (t' - t0) ALERT_STATE_CACHE_TTL_MS); [|done].
    by destruct (Z.leb_spec (t - t0) ALERT_STATE_CACHE_TTL_MS); [|lia].
Qed.

Section alert_lemmas.
Context `{AlertCacheLaws C}.
Context (key : string) (threshold : number) (isAbove : bool) (factor : number).

(** The key is armed from a time on, or disarmed until the end of a window. *)
Definition alert_inv (armed : bool) (from until : Z) (c : C) : Prop :=
  if armed then ∀ t, from ≤ t → ac_live t key c = None
  else ∀ t, from ≤ t → t ≤ until → is_Some (ac_live t key c).

Lemma live_none_later t t' c : t ≤ t' → ac_live t key c = None → ac_live t' key c = None.
Proof using All.
  intros Ht Hn. destruct (ac_live t' key c) as [v|] eqn:E; [|done].
  by rewrite (ac_live_earlier t t' key v c Ht E) in Hn.
Qed.

(** One observation behaves like one step of an episode. *)
Lemma shouldFireAlert_step armed from until now v c :
  alert_inv armed from until c → from ≤ now → now ≤ until →
  until - now ≤ ALERT_STATE_CACHE_TTL_MS →
  let r := shouldFireAlert now key v threshold isAbove factor c in
  r.1 = armed && breached threshold isAbove v
  ∧ alert_inv (if armed then negb (breached threshold isAbove v)
               else recovered threshold isAbove factor v) now until r.2.
Proof using All.
  intros Hinv Hfrom Huntil Hwin r. unfold r, shouldFireAlert.
  pose proof (ac_get_live now key c) as Hlive.
  pose proof (λ t, ac_get_keeps now t key key c) as Hkeeps.
  destruct (ac_get now key c) as [state c1]. simpl in Hlive, Hkeeps. subst state.
  destruct armed; simpl in *.
  - rewrite Hinv by done. destruct (breached threshold isAbove v); simpl.
    + split; [done|]. intros t Ht Ht'. rewrite ac_set_live by lia. by eexists.
    + split; [done|]. intros t Ht. rewrite Hkeeps by done. apply Hinv. lia.
  - destruct (Hinv now Hfrom Huntil) as [w ->]. simpl. split; [done|].
    destruct (recovered threshold isAbove factor v); simpl.
    + intros t Ht. apply ac_delete_live.
    + intros t Ht Ht'. rewrite Hkeeps by done. apply Hinv; lia.
Qed.

Lemma alert_run_episodes observations armed from until c :
  alert_inv armed from until c → in_window from until observations.*1 →
  until - from ≤ ALERT_STATE_CACHE_TTL_MS →
  alert_run key threshold isAbove factor observations c
  = episodes armed threshold isAbove factor observations.*2.
Proof using All.
  revert armed from c. induction observations as [|[now v] rest IH]; intros armed from c Hinv; [done|].
  intros Hw Hwin. destruct Hw as (Hfrom & Huntil & Hrest).
  cbn [alert_run fmap list_fmap episodes fst snd] in *.
  destruct (shouldFireAlert_step armed from until now v c) as [Hfire Hinv']; [done|lia..|].
  destruct (shouldFireAlert now key v threshold isAbove factor c) as [fire c1]. cbn [fst snd] in Hfire, Hinv'. subst fire.
  rewrite (IH _ now c1 Hinv') by (done || lia). by destruct armed.
Qed.
End alert_lemmas.

(** *** The request *)
Lemma sanitize_get_go acc k (headers : list (string * string)) :
  jm_wf headers →
  jm_get k (foldl (λ sanitized kv,
    if js_includes (to_lower kv.1) BLOCKED_HEADERS then sanitized
    else jm_set kv.1 kv.2 sanitized) acc headers)
  = match jm_get k headers with
    | Some v => if js_includes (to_lower k) BLOCKED_HEADERS then jm_get k acc else Some v
    | None => jm_get k acc
    end.
Proof.
  unfold jm_wf. revert acc. induction headers as [|[k' v'] headers IH]; intros acc; csimpl; [done|].
  rewrite NoDup_cons. intros [Hk Hwf]. rewrite IH by done. clear IH.
  destruct (decide (k = k')) as [->|Hne].
  - rewrite (proj2 (jm_get_None k' headers) Hk).
    destruct (js_includes _ _); [done|apply jm_get_set_eq].
  - destruct (js_includes (to_lower k') _); [done|]. by rewrite !jm_get_set_ne.
Qed.

Lemma sanitize_get k (headers : list (string * string)) :
  jm_wf headers →
  jm_get k (sanitizeHeaders headers)
  = if js_includes (to_lower k) BLOCKED_HEADERS then None else jm_get k headers.
Proof.
  intros Hwf. unfold sanitizeHeaders. rewrite sanitize_get_go by done. simpl.
  destruct (jm_get k headers); by destruct (js_includes _ _).
Qed.

Lemma sanitize_wf headers : jm_wf (sanitizeHeaders headers).
Proof.
  unfold sanitizeHeaders. generalize (jm_wf_nil (K:=string) (V:=string)).
  generalize ([] : list (string * string)). induction headers as [|kv headers IH]; intros acc Hacc; [done|].
  simpl. apply IH. case_match; [done|]. by apply jm_wf_set.
Qed.

(** *** One attempt *)
Section attempt_lemmas.
Context (createHmac : string → string → outcome string string).
Context (w : Webhook) (id : string) (p : WebhookPayload) (r : HttpRequest).
Context (Hreq : delivery_request createHmac w id p = Ok r).

Lemma send_result_status reply :
  let s := (send_result createHmac w id p reply).1.1 in
  s = match verdict_of reply with Delivered => SUCCESS | Refused => FAILED
                                | Transient => RETRYING end.
Proof using Hreq.
  unfold send_result. rewrite Hreq. destruct reply as [status text| |]; simpl; [|done..].
  unfold response_ok.
  pose proof (Z.div_mod status 100 ltac:(done)). pose proof (Z.mod_pos_bound status 100 ltac:(done)).
  destruct (Z.eqb_spec (status / 100) 2), (Z.eqb_spec (status / 100) 4);
    destruct (Z.leb_spec 200 status), (Z.leb_spec status 299), (Z.leb_spec 400 status),
      (Z.ltb_spec status 500); simpl; done || lia.
Qed.

(** The row an attempt leaves. *)
Lemma sendWebhook_row env st d :
  getDelivery id st = Some d →
  ∃ d', getDelivery id (sendWebhook createHmac env w id p st) = Some d'
    ∧ wd_attempts d' = wd_attempts d + 1
    ∧ wd_status d' = status_after (wh_retryPolicy w) (wd_attempts d + 1) (verdict_of (sn_reply env))
    ∧ wd_webhookId d' = wd_webhookId d ∧ wd_payload d' = wd_payload d
    ∧ wd_nextRetryAt d' = (if decide (wd_status d' = RETRYING)
        then Some (sn_updatedAt env + backoff_delay (wh_retryPolicy w) (wd_attempts d + 1))
        else wd_nextRetryAt d)
    ∧ wd_completedAt d' = (if decide (wd_status d' = SUCCESS ∨ wd_status d' = DEAD_LETTER)
        then Some (sn_updatedAt env) else wd_completedAt d).
Proof using Hreq.
  intros Hd. unfold sendWebhook. destruct (getDeliveryConfig w) as [t m].
  pose proof (send_result_status (sn_reply env)) as Hs. cbv zeta in Hs.
  destruct (send_result _ _ _ _ _) as [[status code] body]. simpl in Hs. subst status.
  unfold record_attempt. rewrite Hd. rewrite getDelivery_update, decide_True by done.
  rewrite Hd. eexists. split; [reflexivity|]. simpl. unfold status_after.
  destruct (verdict_of _); simpl; [repeat split..|].
  destruct (_ <? _); simpl; repeat split.
Qed.
End attempt_lemmas.

Lemma sendWebhook_frame createHmac env w id p st :
  (∀ k, k ≠ id → getDelivery k (sendWebhook createHmac env w id p st) = getDelivery k st)
  ∧ (∀ k, getWebhook k (sendWebhook createHmac env w id p st) = getWebhook k st)
  ∧ (getDelivery id st = None → sendWebhook createHmac env w id p st = st).
Proof.
  unfold sendWebhook, record_attempt. destruct (getDeliveryConfig w).
  destruct (send_result _ _ _ _ _) as [[status code] body].
  destruct (getDelivery id st); [|done]. split_and!; [|intros; apply getWebhook_updateDelivery|done].
  intros k Hk. by rewrite getDelivery_update, decide_False.
Qed.

Lemma sendWebhook_wf createHmac env w id p st :
  webhook_store_wf st → webhook_store_wf (sendWebhook createHmac env w id p st).
Proof.
  intros Hwf. unfold sendWebhook, record_attempt. repeat case_match; auto with js.
Qed.
#[export] Hint Resolve sendWebhook_wf : js.

(** ** Theorems *)



(** Every request is signed as documented: its body is the payload's JSON, no
    header of the restricted names is sent on behalf of the webhook, every other
    custom header is, and unless the webhook's settings name the two signature
    headers themselves, these carry the time stamp and the HMAC, under the
    webhook's secret, of the time stamp, a dot and the body. *)
Theorem request_signed createHmac w id p r :
  jm_wf (default [] (wh_headers w)) →
  delivery_request createHmac w id p = Ok r →
  rq_body r = payload_string p ∧ rq_url r = wh_url w
  ∧ (∀ k v, jm_get k (rq_headers r) = Some v → to_lower k ∉ BLOCKED_HEADERS)
  ∧ (∀ k v, jm_get k (default [] (wh_headers w)) = Some v → to_lower k ∉ BLOCKED_HEADERS →
       jm_get k (rq_headers r) = Some v)
  ∧ (signed_header (default [] (wh_headers w)) →
     ∃ sig, jm_get "X-Webhook-Signature" (rq_headers r) = Some sig
       ∧ jm_get "X-Webhook-Timestamp" (rq_headers r) = Some (string_of_Z (wp_timestamp p))
       ∧ createHmac (default EmptyString (wh_secret w))
           (string_of_Z (wp_timestamp p) +:+ "." +:+ rq_body r) = Ok sig).
Proof.
  intros Hwf. unfold delivery_request, build_request, generateSignatureWithTimestamp, generateSignature.
  set (custom := default [] (wh_headers w)) in *.
  destruct (createHmac _ _) as [sig|] eqn:Hsig; [|done]. intros [= <-].
  cbn [rq_body rq_url rq_headers]. split_and!; try done.
  - intros k v. rewrite jm_get_spread, sanitize_get by (done || apply sanitize_wf).
    destruct (js_includes (to_lower k) BLOCKED_HEADERS) eqn:Hb; [|by intros _; apply js_includes_false].
    intros H%jm_get_elem. exfalso. apply js_includes_true in Hb. revert Hb.
    repeat (apply elem_of_cons in H as [H|H];
      [injection H as -> _; vm_compute; set_solver|]).
    by apply not_elem_of_nil in H.
  - intros k v Hk Hb. rewrite jm_get_spread, sanitize_get by (done || apply sanitize_wf).
    by rewrite (proj2 (js_includes_false _ _) Hb), Hk.
  - intros [Hs Ht]. exists sig.
    apply jm_get_None in Hs. apply jm_get_None in Ht.
    rewrite !jm_get_spread, !sanitize_get by (done || apply sanitize_wf). rewrite Hs, Ht.
    done.
Qed.

Lemma request_signed_witness :
  ∃ r, delivery_request sample_hmac (sample_webhook "w") "d" sample_payload = Ok r
    ∧ jm_get "X-Webhook-Signature" (rq_headers r) = Some "mac(whsec_0123)".
Proof.
  destruct (delivery_request sample_hmac (sample_webhook "w") "d" sample_payload) as [r|] eqn:E;
    [|vm_compute in E; done].
  destruct (request_signed sample_hmac (sample_webhook "w") "d" sample_payload r)
    as (_ & _ & _ & _ & H); [apply jm_wf_nil|exact E|].
  destruct H as (sig & Hsig & _ & Hmac); [split; simpl; set_solver|].
  exists r. split; [done|]. rewrite Hsig. by injection Hmac as <-.
Defined.

(** The signature is not protected: a custom header of its name replaces it, so
    the receiver sees a value that is no HMAC of the request. *)
Theorem signature_overridable :
  ∃ r, delivery_request sample_hmac forging_webhook "d" sample_payload = Ok r
    ∧ jm_get "X-Webhook-Signature" (rq_headers r) = Some "forged".
Proof. eexists. split; vm_compute; reflexivity. Qed.



(** The retry schedule: as long as every attempt fails transiently, the delivery
    is retrying after each of the first attempts, due after the exponential
    backoff of its policy, and dead-lettered by attempt [maxRetries], the first
    attempt included: [maxRetries] bounds the attempts, not the retries. *)
Theorem retry_schedule createHmac w id p r envs env st d :
  delivery_request createHmac w id p = Ok r → getDelivery id st = Some d → wd_attempts d = 0 →
  Forall (λ e, verdict_of (sn_reply e) = Transient) (envs ++ [env]) →
  let n := js_len (envs ++ [env]) in
  ∃ d', getDelivery id (attempts_run createHmac (envs ++ [env]) w id p st) = Some d'
    ∧ wd_attempts d' = n
    ∧ (n < rp_maxRetries (wh_retryPolicy w) → wd_status d' = RETRYING
         ∧ wd_nextRetryAt d' = Some (sn_updatedAt env + backoff_delay (wh_retryPolicy w) n))
    ∧ (rp_maxRetries (wh_retryPolicy w) ≤ n → wd_status d' = DEAD_LETTER).
Proof.
  intros Hreq Hd Hz Hall n.
  assert (Hrun : ∃ d1, getDelivery id (attempts_run createHmac envs w id p st) = Some d1
                       ∧ wd_attempts d1 = js_len envs).
  { clear n Hall. induction envs as [|e envs IH] using rev_ind; [by exists d|].
    destruct IH as (d1 & Hd1 & Ha1). unfold attempts_run in *. rewrite foldl_app. simpl.
    destruct (sendWebhook_row createHmac w id p r Hreq e _ d1 Hd1) as (d2 & Hd2 & Ha2 & _).
    exists d2. split; [done|]. rewrite Ha2, Ha1. unfold js_len. rewrite length_app. simpl. lia. }
  destruct Hrun as (d1 & Hd1 & Ha1).
  assert (Hn : wd_attempts d1 + 1 = n) by (unfold n, js_len in *; rewrite length_app; simpl; lia).
  unfold attempts_run in *. rewrite foldl_app. simpl.
  destruct (sendWebhook_row createHmac w id p r Hreq env _ d1 Hd1)
    as (d2 & Hd2 & Ha2 & Hs2 & _ & _ & Hr2 & _).
  apply Forall_app in Hall as [_ Henv]. rewrite Forall_singleton in Henv.
  rewrite Henv, Hn in Hs2. rewrite Hn in Hr2. unfold status_after in Hs2.
  exists d2. split_and!; [done|lia| |].
  - intros Hlt. rewrite (proj2 (Z.ltb_lt _ _) Hlt) in Hs2. split; [done|]. by rewrite Hr2, decide_True.
  - intros Hle. by rewrite (proj2 (Z.ltb_ge _ _) Hle) in Hs2.
Qed.

(** With the default policy the delivery is dead after three attempts. *)
Lemma retry_schedule_witness :
  ∃ d', getDelivery "a" (attempts_run sample_hmac
      (sample_send AbortError <$> [100; 2000; 5000]) (sample_webhook "w") "a" sample_payload
      sample_webhook_store) = Some d'
    ∧ wd_attempts d' = 3 ∧ wd_status d' = DEAD_LETTER.
Proof.
  destruct (retry_schedule sample_hmac (sample_webhook "w") "a" sample_payload _
    (sample_send AbortError <$> [100; 2000]) (sample_send AbortError 5000) sample_webhook_store _
    eq_refl eq_refl eq_refl) as (d' & Hg & Ha & _ & Hdead); [by repeat constructor|].
  exists d'. split_and!; [exact Hg|exact Ha|]. apply Hdead. vm_compute. done.
Defined.
