(* ===== verification/WebhookProcessor.v ===== *)
(** * Retries, the dead letter queue and webhook health

    - [apps/api/src/webhooks/webhook-processor.service.ts]: the retry poll and
      the manual retry;
    - [proprietary/webhook-pro/webhook-dlq.service.ts]: the dead letter queue;
    - [apps/api/src/webhooks/webhook-health.service.ts]: the health check that
      disables failing webhooks.

    The functions named after the methods run them in one go.  Deliveries take
    as long as the receiver likes, so the interleaving matters, and [System]
    models it: [begin_send] is the part of an attempt before the answer of
    [fetch], [sys_complete] the part after it, and between them the request is
    in flight while the poll, further events, manual retries and requests on
    the subscriptions go on.  [sy_sent] logs the delivery of every HTTP request. *)
From S2P Require Export WebhookDispatcher.
From stdpp Require Import options.

(** ** Definitions *)
Definition MAX_CONCURRENT_RETRIES : Z := 10.
Definition BASE_RETRY_CHECK_INTERVAL_MS : Z := 10000.
Definition FAST_RETRY_CHECK_INTERVAL_MS : Z := 2000.

Definition failed_updates (now : Z) (reason : string) : DeliveryUpdates :=
  {| du_status := Some FAILED; du_statusCode := None; du_responseBody := Some (Some reason);
     du_attempts := None; du_nextRetryAt := None; du_completedAt := Some now;
     du_durationMs := None |}.

(** The part of [retryDelivery] before the attempt: the webhook to send to, or a
    delivery marked failed because it cannot be retried. *)
Definition retry_start (now : Z) (delivery : WebhookDelivery) (st : WebhookStore)
    : option Webhook * WebhookStore :=
  match service_getWebhook (wd_webhookId delivery) st with
  | Ok webhook =>
      if negb (wh_enabled webhook)
      then (None, (updateDelivery (wd_id delivery) (failed_updates now "Webhook disabled") st).2)
      else (Some webhook, st)
  | Throw (BadRequest m | NotFound m | Forbidden m) =>
      (None, (updateDelivery (wd_id delivery)
                (failed_updates now (if is_empty m then "Retry failed" else m)) st).2)
  end.

(** The part of [manualRetry] before the attempt: the row read and reset. *)
Definition manual_start (now : Z) (deliveryId : string) (st : WebhookStore)
    : outcome string WebhookDelivery * WebhookStore :=
  match getDelivery deliveryId st with
  | None => (Throw ("Delivery " +:+ deliveryId +:+ " not found"), st)
  | Some delivery =>
      if bool_decide (wd_status delivery = SUCCESS)
      then (Throw "Cannot retry successful delivery", st)
      else
        match service_getWebhook (wd_webhookId delivery) st with
        | Throw (BadRequest m | NotFound m | Forbidden m) => (Throw m, st)
        | Ok webhook =>
            let maxRetries := rp_maxRetries (wh_retryPolicy webhook) in
            if maxRetries <=? wd_attempts delivery
            then (Throw ("Cannot retry: max attempts reached ("
                         +:+ string_of_Z (wd_attempts delivery) +:+ "/"
                         +:+ string_of_Z maxRetries +:+ ")"), st)
            else (Ok delivery,
                  (updateDelivery deliveryId
                     {| du_status := Some RETRYING; du_statusCode := None; du_responseBody := None;
                        du_attempts := None; du_nextRetryAt := Some now; du_completedAt := None;
                        du_durationMs := None |} st).2)
        end
  end.

Section processor.
Context (createHmac : string → string → outcome string string).
Context (getConfig : string → option (string * Z)).
Context (sourceHost : string) (sourcePort : Z).

Definition retryDelivery (env : SendEnv) (delivery : WebhookDelivery) (st : WebhookStore)
    : WebhookStore :=
  match retry_start (sn_updatedAt env) delivery st with
  | (Some webhook, st) => sendWebhook createHmac env webhook (wd_id delivery) (wd_payload delivery) st
  | (None, st) => st
  end.

(** [processRetries], given whether a run is in progress; the result is whether
    it found deliveries. *)
Definition processRetries (envs : nat → SendEnv) (now : Z) (isProcessing : bool)
    (st : WebhookStore) : bool * WebhookStore :=
  if isProcessing then (false, st)
  else
    let retriableDeliveries := getRetriableDeliveries MAX_CONCURRENT_RETRIES None now st in
    match retriableDeliveries with
    | [] => (false, st)
    | _ => (true, foldl (λ st e, retryDelivery (envs e.1) e.2 st) st
                    (imap pair retriableDeliveries))
    end.

(** The delay after which the processor schedules itself again. *)
Definition next_poll_delay (hadRetries : bool) : Z :=
  if hadRetries then FAST_RETRY_CHECK_INTERVAL_MS else BASE_RETRY_CHECK_INTERVAL_MS.

Definition manualRetry (env : SendEnv) (now : Z) (deliveryId : string)
    : M WebhookStore string unit := λ st,
  match manual_start now deliveryId st with
  | (Throw e, st) => (Throw e, st)
  | (Ok delivery, st) => (Ok tt, retryDelivery env delivery st)
  end.

Definition getRetryStats (now : Z) (st : WebhookStore) : Z * option Z :=
  let retriableDeliveries := getRetriableDeliveries 1000 None now st in
  let due d := match wd_nextRetryAt d with
               | Some t => if t =? 0 then now else t
               | None => now
               end in
  (js_len retriableDeliveries,
   match due <$> retriableDeliveries with
   | [] => None
   | t :: ts => Some (foldl Z.min t ts)
   end).

(** *** Attempts in flight *)
Inductive Origin := FromDispatch | FromPoll | FromManual.

Record InFlight := {
  if_id : string;
  if_webhook : Webhook;
  if_payload : WebhookPayload;
  if_origin : Origin;
}.

(** [sy_processing] is [isProcessing]; [sy_queue] holds the deliveries the
    running poll has read and not yet started. *)
Record System := {
  sy_store : WebhookStore;
  sy_processing : bool;
  sy_queue : list WebhookDelivery;
  sy_inflight : list InFlight;
  sy_sent : list string;
}.
Definition initial_system : System :=
  {| sy_store := empty_webhook_store; sy_processing := false; sy_queue := []; sy_inflight := [];
     sy_sent := [] |}.

Definition with_store (f : WebhookStore → WebhookStore) (s : System) : System :=
  {| sy_store := f (sy_store s); sy_processing := sy_processing s; sy_queue := sy_queue s;
     sy_inflight := sy_inflight s; sy_sent := sy_sent s |}.

Definition begin_send (env : SendEnv) (origin : Origin) (webhook : Webhook) (deliveryId : string)
    (payload : WebhookPayload) (s : System) : System :=
  match delivery_request createHmac webhook deliveryId payload with
  | Ok _ =>
      {| sy_store := sy_store s; sy_processing := sy_processing s; sy_queue := sy_queue s;
         sy_inflight := sy_inflight s ++ [{| if_id := deliveryId; if_webhook := webhook;
                                             if_payload := payload; if_origin := origin |}];
         sy_sent := sy_sent s ++ [deliveryId] |}
  | Throw _ => with_store (sendWebhook createHmac env webhook deliveryId payload) s
  end.

(** [dispatchToWebhook] up to its request. *)
Definition sys_dispatch (env : DispatchEnv) (webhook : Webhook) (eventType : WebhookEventType)
    (data : list (string * json)) (connectionId : option string) (s : System) : System :=
  let '(delivery, st) := createDelivery MAX_DELIVERIES_PER_WEBHOOK (ds_deliveryId env)
    (ds_createdAt env)
    (new_delivery getConfig sourceHost sourcePort env webhook eventType data connectionId)
    (sy_store s) in
  begin_send (ds_send env) FromDispatch webhook (wd_id delivery) (wd_payload delivery)
    (with_store (λ _, st) s).

(** [processRetries] up to the requests: nothing when a run is in progress. *)
Definition sys_poll (now : Z) (s : System) : System :=
  if sy_processing s then s
  else {| sy_store := sy_store s; sy_processing := true;
          sy_queue := getRetriableDeliveries MAX_CONCURRENT_RETRIES None now (sy_store s);
          sy_inflight := sy_inflight s; sy_sent := sy_sent s |}.

(** The poll starts [retryDelivery] for the next delivery it read. *)
Definition sys_next (env : SendEnv) (s : System) : System :=
  match sy_queue s with
  | [] => s
  | delivery :: queue =>
      let s := {| sy_store := sy_store s; sy_processing := sy_processing s; sy_queue := queue;
                  sy_inflight := sy_inflight s; sy_sent := sy_sent s |} in
      match retry_start (sn_updatedAt env) delivery (sy_store s) with
      | (Some webhook, st) =>
          begin_send env FromPoll webhook (wd_id delivery) (wd_payload delivery)
            (with_store (λ _, st) s)
      | (None, st) => with_store (λ _, st) s
      end
  end.

Definition from_poll (x : InFlight) : bool :=
  match if_origin x with FromPoll => true | _ => false end.

(** [finally { this.isProcessing = false }], once every retry has settled. *)
Definition sys_poll_end (s : System) : System :=
  match sy_queue s, js_some from_poll (sy_inflight s) with
  | [], false =>
      {| sy_store := sy_store s; sy_processing := false; sy_queue := [];
         sy_inflight := sy_inflight s; sy_sent := sy_sent s |}
  | _, _ => s
  end.

(** The answer of the [k]-th request in flight. *)
Definition sys_complete (k : nat) (env : SendEnv) (s : System) : System :=
  match sy_inflight s !! k with
  | None => s
  | Some x =>
      {| sy_store := sendWebhook createHmac env (if_webhook x) (if_id x) (if_payload x) (sy_store s);
         sy_processing := sy_processing s; sy_queue := sy_queue s;
         sy_inflight := delete k (sy_inflight s); sy_sent := sy_sent s |}
  end.

Definition sys_manual (env : SendEnv) (now : Z) (deliveryId : string) (s : System) : System :=
  match manual_start now deliveryId (sy_store s) with
  | (Throw _, st) => with_store (λ _, st) s
  | (Ok delivery, st) =>
      match retry_start (sn_updatedAt env) delivery st with
      | (Some webhook, st) =>
          begin_send env FromManual webhook (wd_id delivery) (wd_payload delivery)
            (with_store (λ _, st) s)
      | (None, st) => with_store (λ _, st) s
      end
  end.
End processor.

(** *** The dead letter queue *)
Definition DEFAULT_MAX_RETRIES : Z := 3.

Definition max_retries_of (webhook : option Webhook) : Z :=
  match webhook with
  | Some w => rp_maxRetries (wh_retryPolicy w)
  | None => DEFAULT_MAX_RETRIES
  end.

(** The webhooks looked up in the last minute. *)
Definition WebhookCache : Type := list (string * option Webhook).

Definition getMaxRetriesForWebhook (webhookId : string) (st : WebhookStore) (cache : WebhookCache)
    : Z * WebhookCache :=
  match jm_get webhookId cache with
  | Some cached => (max_retries_of cached, cache)
  | None =>
      let webhook := getWebhook webhookId st in
      (max_retries_of webhook, jm_set webhookId webhook cache)
  end.

Definition isDeadLettered (st : WebhookStore) (delivery : WebhookDelivery) (cache : WebhookCache)
    : bool * WebhookCache :=
  if negb (bool_decide (wd_status delivery = FAILED)) then (false, cache)
  else
    let '(maxRetries, cache) := getMaxRetriesForWebhook (wd_webhookId delivery) st cache in
    (maxRetries <=? wd_attempts delivery, cache).

Definition getRecentFailedDeliveries (limit : Z) (st : WebhookStore) : list WebhookDelivery :=
  let webhooks := getWebhooksByInstance None st in
  let deliveries :=
    mjoin ((λ webhook, js_filter (λ d, bool_decide (wd_status d = FAILED))
                         (getDeliveriesByWebhook (wh_id webhook) limit 0 st)) <$> webhooks) in
  js_slice 0 limit (js_sort (by_desc wd_createdAt) deliveries).

Fixpoint dead_lettered_among (st : WebhookStore) (l : list WebhookDelivery) (cache : WebhookCache)
    : list WebhookDelivery * WebhookCache :=
  match l with
  | [] => ([], cache)
  | d :: l =>
      let '(dead, cache) := isDeadLettered st d cache in
      let '(rest, cache) := dead_lettered_among st l cache in
      (if dead then d :: rest else rest, cache)
  end.

Definition getDeadLetteredDeliveries (limit : Z) (st : WebhookStore) (cache : WebhookCache)
    : list WebhookDelivery * WebhookCache :=
  let allDeliveries := getRecentFailedDeliveries (limit * 2) st in
  let '(deadLettered, cache) := dead_lettered_among st allDeliveries cache in
  (js_slice 0 limit deadLettered, cache).

Definition getDeadLetteredDeliveriesForWebhook (webhookId : string) (limit : Z)
    (st : WebhookStore) (cache : WebhookCache) : list WebhookDelivery * WebhookCache :=
  let deliveries := getDeliveriesByWebhook webhookId (limit * 2) 0 st in
  let '(maxRetries, cache) := getMaxRetriesForWebhook webhookId st cache in
  (js_slice 0 limit
     (js_filter (λ d, bool_decide (wd_status d = FAILED) && (maxRetries <=? wd_attempts d))
        deliveries), cache).

Definition requeueDelivery (now : Z) (deliveryId : string) : M WebhookStore string unit := λ st,
  match getDelivery deliveryId st with
  | None => (Throw ("Delivery " +:+ deliveryId +:+ " not found"), st)
  | Some delivery =>
      if negb (bool_decide (wd_status delivery = FAILED))
      then (Throw ("Delivery " +:+ deliveryId +:+ " is not in failed state"), st)
      else (Ok tt,
            (updateDelivery deliveryId
               {| du_status := Some RETRYING; du_statusCode := None; du_responseBody := None;
                  du_attempts := Some 0; du_nextRetryAt := Some now; du_completedAt := None;
                  du_durationMs := None |} st).2)
  end.

Definition purgeDlqDeliveries (olderThanDays now : Z) (st : WebhookStore) (cache : WebhookCache)
    : Z * WebhookCache :=
  let cutoffTimestamp := now - olderThanDays * 24 * 60 * 60 * 1000 in
  let '(deadLettered, cache) := getDeadLetteredDeliveries 10000 st cache in
  (js_len (js_filter (λ d, wd_createdAt d <? cutoffTimestamp) deadLettered), cache).

(** *** Health *)
Definition HEALTH_CHECK_SAMPLE_SIZE : Z := 100.
Definition UNHEALTHY_CONSECUTIVE_FAILURES_THRESHOLD : Z := 5.
Definition UNHEALTHY_SUCCESS_RATE_THRESHOLD : number := parse_float "0.5".

Record WebhookHealthMetrics := {
  hm_webhookId : string;
  hm_successRate : number;
  hm_totalDeliveries : Z;
  hm_successfulDeliveries : Z;
  hm_failedDeliveries : Z;
  hm_lastDeliveryAt : option Z;
  hm_consecutiveFailures : Z;
  hm_isHealthy : bool;
}.

(** The loop over the deliveries, newest first. *)
Fixpoint consecutive_failures (sorted : list WebhookDelivery) (acc : Z) : Z :=
  match sorted with
  | [] => acc
  | d :: sorted =>
      match wd_status d with
      | FAILED => consecutive_failures sorted (acc + 1)
      | SUCCESS => acc
      | _ => consecutive_failures sorted acc
      end
  end.
Definition countConsecutiveFailures (deliveries : list WebhookDelivery) : Z :=
  consecutive_failures (js_sort (by_desc wd_createdAt) deliveries) 0.

Definition with_status (s : DeliveryStatus) (d : WebhookDelivery) : bool :=
  bool_decide (wd_status d = s).

Definition checkWebhookHealth (webhook : Webhook) (st : WebhookStore) : WebhookHealthMetrics :=
  let deliveries := getDeliveriesByWebhook (wh_id webhook) HEALTH_CHECK_SAMPLE_SIZE 0 st in
  match deliveries with
  | [] => {| hm_webhookId := wh_id webhook; hm_successRate := num_of_Z 1; hm_totalDeliveries := 0;
             hm_successfulDeliveries := 0; hm_failedDeliveries := 0; hm_lastDeliveryAt := None;
             hm_consecutiveFailures := 0; hm_isHealthy := true |}
  | first :: _ =>
      let successfulDeliveries := js_len (js_filter (with_status SUCCESS) deliveries) in
      let failedDeliveries := js_len (js_filter (with_status FAILED) deliveries) in
      let totalDeliveries := js_len deliveries in
      let successRate := num_div (num_of_Z successfulDeliveries) (num_of_Z totalDeliveries) in
      let consecutiveFailures := countConsecutiveFailures deliveries in
      {| hm_webhookId := wh_id webhook; hm_successRate := successRate;
         hm_totalDeliveries := totalDeliveries; hm_successfulDeliveries := successfulDeliveries;
         hm_failedDeliveries := failedDeliveries; hm_lastDeliveryAt := Some (wd_createdAt first);
         hm_consecutiveFailures := consecutiveFailures;
         hm_isHealthy := num_leb UNHEALTHY_SUCCESS_RATE_THRESHOLD successRate
                         && (consecutiveFailures <? UNHEALTHY_CONSECUTIVE_FAILURES_THRESHOLD) |}
  end.

(** [updateWebhook(webhook.id, { enabled: false })] *)
Definition disable : WebhookUpdates :=
  {| wu_name := None; wu_url := None; wu_secret := None; wu_enabled := Some false;
     wu_events := None; wu_headers := None; wu_retryPolicy := None; wu_deliveryConfig := None;
     wu_alertConfig := None; wu_thresholds := None |}.

Definition handleUnhealthyWebhook (now : Z) (metrics : WebhookHealthMetrics) (st : WebhookStore)
    : WebhookStore :=
  match service_getWebhook (hm_webhookId metrics) st with
  | Throw _ => st
  | Ok webhook => if negb (wh_enabled webhook) then st
                  else (updateWebhook (wh_id webhook) disable now st).2
  end.

Definition checkAllWebhooksHealth (defaultId : option string) (now : Z) (st : WebhookStore)
    : WebhookStore :=
  let webhooks := getAllWebhooks defaultId None st in
  let healthChecks := (λ w, checkWebhookHealth w st) <$> webhooks in
  foldl (λ st metrics, handleUnhealthyWebhook now metrics st) st
    (js_filter (λ m, negb (hm_isHealthy m)) healthChecks).

Record HealthSummary := {
  hu_totalWebhooks : Z;
  hu_healthyWebhooks : Z;
  hu_unhealthyWebhooks : Z;
  hu_disabledWebhooks : Z;
  hu_overallSuccessRate : number;
}.
Definition getHealthSummary (defaultId : option string) (st : WebhookStore) : HealthSummary :=
  let webhooks := getAllWebhooks defaultId None st in
  let metrics := (λ w, checkWebhookHealth w st) <$> webhooks in
  let sum f := foldl (λ acc m, acc + f m) 0 metrics in
  let totalSuccessful := sum hm_successfulDeliveries in
  let totalDeliveries := sum hm_totalDeliveries in
  {| hu_totalWebhooks := js_len webhooks;
     hu_healthyWebhooks := js_len (js_filter hm_isHealthy metrics);
     hu_unhealthyWebhooks := js_len (js_filter (λ m, negb (hm_isHealthy m)) metrics);
     hu_disabledWebhooks := js_len (js_filter (λ w, negb (wh_enabled w)) webhooks);
     hu_overallSuccessRate :=
       if 0 <? totalDeliveries then num_div (num_of_Z totalSuccessful) (num_of_Z totalDeliveries)
       else num_of_Z 1 |}.

(** ** Specification *)
Section machine.
Context (createHmac : string → string → outcome string string).
Context (getConfig : string → option (string * Z)).
Context (sourceHost : string) (sourcePort : Z).
(** The retry policy each webhook keeps. *)
Context (policy : string → RetryPolicy).

(** A delivery id the store and the attempts have never seen. *)
Definition fresh_id (id : string) (s : System) : Prop :=
  getDelivery id (sy_store s) = None ∧ (id ∉ sy_sent s)
  ∧ (id ∉ if_id <$> sy_inflight s) ∧ (id ∉ wd_id <$> sy_queue s).

(** Requests on the subscriptions that leave the retry policies alone, and pruning. *)
Inductive admin_step : WebhookStore → WebhookStore → Prop :=
  | admin_create id now w st :
      wh_retryPolicy w = policy id → getWebhook id st = None →
      admin_step st (createWebhook id now w st).2
  | admin_update id u now st :
      wu_retryPolicy u = None → admin_step st (updateWebhook id u now st).2
  | admin_delete id st : admin_step st (deleteWebhook id st).2
  | admin_prune cutoff c st : admin_step st (pruneOldDeliveries cutoff c st).2.

(** What happens without manual intervention. *)
Inductive system_step : System → System → Prop :=
  | step_dispatch env w eventType data connectionId s :
      getWebhook (wh_id w) (sy_store s) = Some w → wh_enabled w = true →
      fresh_id (ds_deliveryId env) s →
      system_step s (sys_dispatch createHmac getConfig sourceHost sourcePort env w eventType data
                       connectionId s)
  | step_poll now s : system_step s (sys_poll now s)
  | step_next env s : system_step s (sys_next createHmac env s)
  | step_poll_end s : system_step s (sys_poll_end s)
  | step_complete k env s : system_step s (sys_complete createHmac k env s)
  | step_admin st' s : admin_step (sy_store s) st' → system_step s (with_store (λ _, st') s).

(** The same with manual retries. *)
Inductive manual_step : System → System → Prop :=
  | manual_auto s s' : system_step s s' → manual_step s s'
  | manual_retry env now id s : manual_step s (sys_manual createHmac env now id s).

Definition max_attempts (d : WebhookDelivery) : Z :=
  Z.max 1 (rp_maxRetries (policy (wd_webhookId d))).

Definition times_sent (id : string) (s : System) : Z :=
  js_len (filter (λ x, x = id) (sy_sent s)).

Definition in_flight (id : string) (s : System) : bool :=
  js_includes id (if_id <$> sy_inflight s).
Definition queued (id : string) (s : System) : bool :=
  js_includes id (wd_id <$> sy_queue s).

(** A row and the attempts on it. *)
Record row_ok (s : System) (d : WebhookDelivery) : Prop := {
  ro_attempts : 0 ≤ wd_attempts d;
  ro_sent : times_sent (wd_id d) s ≤ wd_attempts d + (if in_flight (wd_id d) s then 1 else 0);
  ro_pending : wd_status d = PENDING → wd_attempts d = 0;
  ro_retrying : wd_status d = RETRYING →
    1 ≤ wd_attempts d ∧ wd_attempts d < rp_maxRetries (policy (wd_webhookId d));
  ro_dead : wd_status d = DEAD_LETTER →
    rp_maxRetries (policy (wd_webhookId d)) ≤ wd_attempts d;
  ro_bound : wd_attempts d ≤ max_attempts d;
  ro_queued : queued (wd_id d) s = true → wd_status d = RETRYING;
}.

(** An attempt in flight and its row: the initial attempt has a pending row, a
    retry a retrying one. *)
Definition flight_ok (s : System) (x : InFlight) : Prop :=
  if_origin x ≠ FromManual
  ∧ wh_retryPolicy (if_webhook x) = policy (wh_id (if_webhook x))
  ∧ (from_poll x = true → sy_processing s = true)
  ∧ ∀ d, getDelivery (if_id x) (sy_store s) = Some d →
      wd_webhookId d = wh_id (if_webhook x)
      ∧ wd_status d = (if from_poll x then RETRYING else PENDING).

Record system_ok (s : System) : Prop := {
  so_wf : webhook_store_wf (sy_store s);
  so_policy : ∀ id w, getWebhook id (sy_store s) = Some w → wh_retryPolicy w = policy id;
  so_once : NoDup ((wd_id <$> sy_queue s) ++ (if_id <$> sy_inflight s));
  so_queue : sy_queue s ≠ [] → sy_processing s = true;
  so_queue_rows : ∀ q d, q ∈ sy_queue s → getDelivery (wd_id q) (sy_store s) = Some d →
    wd_webhookId d = wd_webhookId q;
  so_rows : ∀ id d, getDelivery id (sy_store s) = Some d → row_ok s d;
  so_flight : ∀ x, x ∈ sy_inflight s → flight_ok s x;
}.
End machine.

(** The newest deliveries the health check looks at, newest first. *)
Definition health_sample (webhookId : string) (st : WebhookStore) : list WebhookDelivery :=
  take 100 (js_sort (by_desc wd_createdAt) (deliveries_of webhookId st)).

(** Failures since the last success. *)
Fixpoint since_success (l : list WebhookDelivery) : list WebhookDelivery :=
  match l with
  | [] => []
  | d :: l => if with_status SUCCESS d then [] else d :: since_success l
  end.
Definition recent_failures (l : list WebhookDelivery) : Z :=
  js_len (js_filter (with_status FAILED) (since_success l)).

(** The webhook [w], switched off. *)
Definition disabled (now : Z) (w : Webhook) : Webhook :=
  stamp_webhook (wh_id w) (wh_createdAt w) now (apply_updates disable w).

(** A webhook is unhealthy when more than half of its sample did not succeed, or
    five deliveries failed since the last success. *)
Definition unhealthy (webhookId : string) (st : WebhookStore) : bool :=
  let sample := health_sample webhookId st in
  (2 * js_len (js_filter (with_status SUCCESS) sample) <? js_len sample)
  || (5 <=? recent_failures sample).

(** *** A sample run, used by the witnesses: a webhook that allows two attempts, an
    event whose first attempt fails, a manual retry, and a poll. *)
Definition sample_policy (_ : string) : RetryPolicy :=
  {| rp_maxRetries := 2; rp_backoffMultiplier := 2; rp_initialDelayMs := 1000;
     rp_maxDelayMs := 60000 |}.
Definition impatient_webhook : Webhook :=
  apply_updates {| wu_name := None; wu_url := None; wu_secret := None; wu_enabled := None;
                   wu_events := None; wu_headers := None; wu_retryPolicy := Some (sample_policy "w");
                   wu_deliveryConfig := None; wu_alertConfig := None; wu_thresholds := None |}
    (sample_webhook "w").
Definition no_config (_ : string) : option (string * Z) := None.
Definition sample_dispatch_env : DispatchEnv :=
  {| ds_payloadId := "p"; ds_timestamp := 10; ds_deliveryId := "d"; ds_createdAt := 10;
     ds_send := sample_send AbortError 10 |}.
Definition run_created : System :=
  with_store (λ _, (createWebhook "w" 0 impatient_webhook empty_webhook_store).2) initial_system.
Definition run_dispatched : System :=
  sys_dispatch sample_hmac no_config "localhost" 6379 sample_dispatch_env impatient_webhook
    INSTANCE_DOWN [] None run_created.
Definition run_failed_once : System :=
  sys_complete sample_hmac 0 (sample_send (Response 503 None) 100) run_dispatched.
Definition run_polled : System :=
  sys_next sample_hmac (sample_send AbortError 1200) (sys_poll 1200 run_failed_once).
Definition run_dead : System := sys_complete sample_hmac 0 (sample_send AbortError 1300) run_polled.
Definition run_manual : System :=
  sys_manual sample_hmac (sample_send AbortError 200) 200 "d" run_failed_once.
Definition run_twice : System :=
  sys_next sample_hmac (sample_send AbortError 300) (sys_poll 300 run_manual).

(** Five dead letters on top of five successes. *)
Definition with_delivery_status (status : DeliveryStatus) (d : WebhookDelivery) : WebhookDelivery :=
  spread_delivery {| du_status := Some status; du_statusCode := None; du_responseBody := None;
                     du_attempts := Some 3; du_nextRetryAt := None; du_completedAt := None;
                     du_durationMs := None |} d.
Definition health_rows (status : DeliveryStatus) : list (string * WebhookDelivery) :=
  (λ e : string * Z, (e.1, with_delivery_status (if e.2 <? 6 then SUCCESS else status)
                             (sample_delivery e.1 "w" e.2)))
  <$> [("1", 1); ("2", 2); ("3", 3); ("4", 4); ("5", 5);
       ("6", 6); ("7", 7); ("8", 8); ("9", 9); ("10", 10)].
Definition health_store (status : DeliveryStatus) : WebhookStore :=
  {| ws_webhooks := [("w", sample_webhook "w")]; ws_deliveries := health_rows status |}.

(** A store with a delivery that failed for good after three attempts. *)
Definition failed_store : WebhookStore :=
  (updateDelivery "a" {| du_status := Some FAILED; du_statusCode := None; du_responseBody := None;
                         du_attempts := Some 3; du_nextRetryAt := None; du_completedAt := None;
                         du_durationMs := None |} sample_webhook_store).2.
Lemma failed_store_wf : webhook_store_wf failed_store.
Proof. apply updateDelivery_wf, sample_webhook_store_wf. Qed.

(** ** Lemmas *)
Lemma sendWebhook_row_any createHmac w id p env st d :
  getDelivery id st = Some d →
  ∃ d' v, getDelivery id (sendWebhook createHmac env w id p st) = Some d'
    ∧ wd_attempts d' = wd_attempts d + 1 ∧ wd_webhookId d' = wd_webhookId d
    ∧ wd_status d' = status_after (wh_retryPolicy w) (wd_attempts d + 1) v.
Proof.
  intros Hd. destruct (delivery_request createHmac w id p) as [r|e] eqn:Hreq.
  - destruct (sendWebhook_row createHmac w id p r Hreq env st d Hd)
      as (d' & Hg & Ha & Hs & Hw & _). eauto 10.
  - unfold sendWebhook, send_result. rewrite Hreq. destruct (getDeliveryConfig w).
    unfold record_attempt. rewrite Hd, getDelivery_update, decide_True by done. rewrite Hd.
    eexists _, Refused. split; [reflexivity|]. simpl. done.
Qed.

Lemma getDelivery_id st k d : webhook_store_wf st → getDelivery k st = Some d → wd_id d = k.
Proof. intros [_ Hd]. by apply keyed_get. Qed.

Lemma times_sent_zero id s : id ∉ sy_sent s → times_sent id s = 0.
Proof.
  intros H. unfold times_sent. replace (filter _ _) with ([] : list string); [done|].
  symmetry. apply elem_of_nil_inv. intros x Hx. apply list_elem_of_filter in Hx as [-> Hx]. done.
Qed.

Lemma queued_true id s : queued id s = true ↔ id ∈ wd_id <$> sy_queue s.
Proof. apply js_includes_true. Qed.
Lemma in_flight_true id s : in_flight id s = true ↔ id ∈ if_id <$> sy_inflight s.
Proof. apply js_includes_true. Qed.
Lemma in_flight_false id s : in_flight id s = false ↔ id ∉ if_id <$> sy_inflight s.
Proof. apply js_includes_false. Qed.

Section machine_lemmas.
Context (createHmac : string → string → outcome string string).
Context (policy : string → RetryPolicy).
#[local] Abbreviation system_ok := (system_ok policy).
#[local] Abbreviation row_ok := (row_ok policy).
#[local] Abbreviation flight_ok := (flight_ok policy).

Lemma row_ok_ext s s' d :
  row_ok s d → sy_sent s' = sy_sent s →
  (in_flight (wd_id d) s = true → in_flight (wd_id d) s' = true) →
  (queued (wd_id d) s' = true → queued (wd_id d) s = true) → row_ok s' d.
Proof.
  intros [] Hsent Hflight Hq. split; try done; [|by auto].
  unfold times_sent in *. rewrite Hsent.
  destruct (in_flight (wd_id d) s), (in_flight (wd_id d) s'); lia.
Qed.

(** A store whose rows are among the old ones and whose policies are kept. *)
Lemma ok_fewer_rows s st' :
  system_ok s → webhook_store_wf st' →
  (∀ id w, getWebhook id st' = Some w → wh_retryPolicy w = policy id) →
  (∀ k d, getDelivery k st' = Some d → getDelivery k (sy_store s) = Some d) →
  system_ok (with_store (λ _, st') s).
Proof.
  intros [] Hwf Hpol Hsub. split; simpl; try done.
  - intros q d Hq Hd. by eapply so_queue_rows0, Hsub.
  - intros id d Hd. eapply row_ok_ext; [by eapply so_rows0, Hsub|done..].
  - intros x Hx. destruct (so_flight0 x Hx) as (Ho & Hp & Hproc & Hrow). split_and!; try done.
    intros d Hd. by apply Hrow, Hsub.
Qed.

(** One row rewritten, of a delivery no attempt is working on. *)
Lemma ok_set_row s st' id d d' :
  system_ok s → webhook_store_wf st' →
  (∀ k, getWebhook k st' = getWebhook k (sy_store s)) →
  (∀ k, k ≠ id → getDelivery k st' = getDelivery k (sy_store s)) →
  getDelivery id (sy_store s) = Some d → getDelivery id st' = Some d' →
  id ∉ (wd_id <$> sy_queue s) ++ (if_id <$> sy_inflight s) →
  row_ok s d' → system_ok (with_store (λ _, st') s).
Proof.
  intros [] Hwf Hweb Hother Hd Hd' Hfree Hrow. rewrite not_elem_of_app in Hfree.
  destruct Hfree as [Hq Hf]. split; simpl; try done.
  - intros k w. rewrite Hweb. apply so_policy0.
  - intros q x Hin Hx. rewrite Hother in Hx; [by eapply so_queue_rows0|].
    intros Heq. apply Hq. rewrite <-Heq. by apply list_elem_of_fmap_2.
  - intros k x Hx. destruct (decide (k = id)) as [->|Hne].
    + rewrite Hd' in Hx. injection Hx as <-. by eapply row_ok_ext.
    + rewrite Hother in Hx by done. eapply row_ok_ext; [by eapply so_rows0|done..].
  - intros x Hx. destruct (so_flight0 x Hx) as (Ho & Hp & Hproc & Hr). split_and!; try done.
    intros y Hy. rewrite Hother in Hy; [by apply Hr|].
    intros Heq. apply Hf. rewrite <-Heq. by apply list_elem_of_fmap_2.
Qed.

(** The row an attempt writes is in order. *)
Lemma attempt_row_ok s s' w d d' v :
  row_ok s d → wd_id d' = wd_id d → wd_webhookId d' = wd_webhookId d →
  wh_retryPolicy w = policy (wd_webhookId d) →
  wd_status d = PENDING ∨ wd_status d = RETRYING →
  wd_attempts d' = wd_attempts d + 1 →
  wd_status d' = status_after (wh_retryPolicy w) (wd_attempts d + 1) v →
  sy_sent s' = sy_sent s → queued (wd_id d) s' = false →
  row_ok s' d'.
Proof.
  intros [] Hid Hweb Hpol Hst Ha Hs Hsent Hq.
  unfold max_attempts in *.
  split; unfold max_attempts in *; rewrite ?Hid, ?Hweb, ?Hsent, ?Ha; unfold times_sent in *; rewrite ?Hsent;
    rewrite ?Hs, ?Hpol; unfold status_after.
  - lia.
  - destruct (in_flight (wd_id d) s), (in_flight (wd_id d) s'); lia.
  - by destruct v; [..|destruct (_ <? _)].
  - destruct v; try done. destruct (Z.ltb_spec (wd_attempts d + 1) (rp_maxRetries (policy (wd_webhookId d)))); [lia|done].
  - destruct v; try done. destruct (Z.ltb_spec (wd_attempts d + 1) (rp_maxRetries (policy (wd_webhookId d)))); [done|lia].
  - destruct Hst as [Hst|Hst]; [apply ro_pending0 in Hst|apply ro_retrying0 in Hst]; lia.
  - by rewrite Hq.
Qed.

(** The first part of an attempt on a delivery nothing is working on. *)
Lemma ok_begin s env origin w id p :
  system_ok s →
  id ∉ (wd_id <$> sy_queue s) ++ (if_id <$> sy_inflight s) →
  origin ≠ FromManual → wh_retryPolicy w = policy (wh_id w) →
  (origin = FromPoll → sy_processing s = true) →
  (∀ d, getDelivery id (sy_store s) = Some d →
     wd_webhookId d = wh_id w
     ∧ wd_status d = match origin with FromPoll => RETRYING | _ => PENDING end) →
  system_ok (begin_send createHmac env origin w id p s).
Proof.
  intros Hok Hfree Horigin Hpol Hproc Hrow. unfold begin_send.
  destruct (delivery_request createHmac w id p) as [r|e].
  - pose proof Hok as []. pose proof Hfree as Hfree'.
    apply not_elem_of_app in Hfree' as [Hq Hf].
    split; simpl; try done.
    + rewrite fmap_app, app_assoc. simpl. apply NoDup_app. split_and!; [done| |apply NoDup_singleton].
      intros x Hx ->%list_elem_of_singleton. by apply Hfree.
    + intros k d Hd. pose proof (so_rows0 k d Hd) as Hr.
      assert (Hk : wd_id d = k) by (by eapply getDelivery_id).
      destruct Hr. split; try done. unfold times_sent, in_flight in *. simpl.
      rewrite filter_app, fmap_app. unfold js_len in *. rewrite length_app.
      rewrite filter_cons, filter_nil. rewrite Hk in *.
      destruct (decide (id = k)) as [->|Hne].
      * rewrite (proj2 (js_includes_true _ _)) by set_solver.
        rewrite (proj2 (js_includes_false _ _) Hf) in ro_sent0. simpl. lia.
      * simpl. replace (js_includes k ((if_id <$> sy_inflight s) ++ [id]))
          with (js_includes k (if_id <$> sy_inflight s)); [lia|].
        apply bool_decide_ext. set_solver.
    + intros x Hx. apply elem_of_app in Hx as [Hx|Hx]; [by apply so_flight0|].
      apply list_elem_of_singleton in Hx as ->. red; unfold from_poll. simpl.
      split_and!; [done..|by destruct origin; auto|].
      intros d Hd. destruct (Hrow d Hd) as [Hw Hs]. split; [done|]. by destruct origin.
  - destruct (getDelivery id (sy_store s)) as [d|] eqn:Hd.
    + destruct (sendWebhook_row_any createHmac w id p env _ d Hd) as (d' & v & Hd' & Ha & Hw & Hs).
      destruct (sendWebhook_frame createHmac env w id p (sy_store s)) as (Hother & Hweb & _).
      destruct (Hrow d eq_refl) as [Hdw Hds].
      pose proof (so_wf _ _ Hok) as Hwf.
      assert (Hwf' := sendWebhook_wf createHmac env w id p _ Hwf).
      eapply ok_set_row; try done.
      eapply (attempt_row_ok s s w d d' v); try done.
      * by eapply so_rows.
      * by rewrite (getDelivery_id _ _ _ Hwf' Hd'), (getDelivery_id _ _ _ Hwf Hd).
      * by rewrite Hpol, Hdw.
      * destruct origin; auto.
      * rewrite (getDelivery_id _ _ _ Hwf Hd). apply js_includes_false.
        by apply not_elem_of_app in Hfree as [? _].
    + destruct (sendWebhook_frame createHmac env w id p (sy_store s)) as (_ & _ & Hsame).
      unfold with_store. rewrite Hsame by done. by destruct s.
Qed.

(** The poll gives up a delivery it has read. *)
Lemma ok_pop s q queue :
  system_ok s → sy_queue s = q :: queue →
  let s' := {| sy_store := sy_store s; sy_processing := sy_processing s; sy_queue := queue;
               sy_inflight := sy_inflight s; sy_sent := sy_sent s |} in
  system_ok s' ∧ sy_processing s = true
  ∧ (wd_id q ∉ (wd_id <$> queue) ++ (if_id <$> sy_inflight s))
  ∧ ∀ d, getDelivery (wd_id q) (sy_store s) = Some d →
      row_ok s' d ∧ wd_status d = RETRYING ∧ wd_webhookId d = wd_webhookId q.
Proof using All.
  intros [] Hq s'. rewrite Hq in so_once0, so_queue0, so_queue_rows0.
  cbn [fmap list_fmap app] in so_once0. apply NoDup_cons in so_once0 as [Hfree Hnd].
  assert (Hrows : ∀ id d, getDelivery id (sy_store s) = Some d → row_ok s' d).
  { intros id d Hd. eapply row_ok_ext; [by eapply so_rows0|done..|].
    unfold queued. rewrite Hq. simpl. rewrite !js_includes_true. set_solver. }
  assert (Hproc : sy_processing s = true) by by apply so_queue0.
  split_and!; [split; simpl; try done|done|done|].
  - intros x d Hx. apply so_queue_rows0. set_solver.
  - intros d Hd. split_and!; [by eapply Hrows| |].
    + eapply ro_queued; [by eapply so_rows0|]. unfold queued. rewrite Hq. simpl.
      rewrite js_includes_true. rewrite (getDelivery_id _ _ _ so_wf0 Hd). set_solver.
    + apply so_queue_rows0; [set_solver|done].
Qed.

(** A delivery marked failed. *)
Lemma ok_failed s id now reason :
  system_ok s →
  id ∉ (wd_id <$> sy_queue s) ++ (if_id <$> sy_inflight s) →
  system_ok (with_store (λ st, (updateDelivery id (failed_updates now reason) st).2) s).
Proof.
  intros Hok Hfree. pose proof (so_wf _ _ Hok) as Hwf.
  destruct (getDelivery id (sy_store s)) as [d|] eqn:Hd.
  - assert (Hrow := so_rows _ _ Hok id d Hd). pose proof (getDelivery_id _ _ _ Hwf Hd) as Hid.
    eapply (ok_set_row s _ id d (stamp_delivery id (wd_webhookId d) (wd_createdAt d)
              (spread_delivery (failed_updates now reason) d))); try done.
    + auto with js.
    + intros k. apply getWebhook_updateDelivery.
    + intros k Hk. by rewrite getDelivery_update, decide_False.
    + by rewrite getDelivery_update, decide_True, Hd by done.
    + destruct Hrow. rewrite Hid in *. split; simpl; try done. unfold queued.
      rewrite (proj2 (js_includes_false _ _)); [done|]. by apply not_elem_of_app in Hfree as [? _].
  - unfold updateDelivery, with_store. unfold getDelivery in Hd. rewrite Hd. by destruct s.
Qed.

Lemma ok_next env s : system_ok s → system_ok (sys_next createHmac env s).
Proof using All.
  intros Hok. unfold sys_next. destruct (sy_queue s) as [|q queue] eqn:Hq; [done|].
  destruct (ok_pop s q queue Hok Hq) as (Hpop & Hproc & Hfree & Hrow).
  set (s1 := {| sy_store := _ |}) in *. unfold retry_start, service_getWebhook. simpl.
  destruct (getWebhook (wd_webhookId q) (sy_store s)) as [w|] eqn:Hw.
  - destruct (wh_enabled w); simpl.
    + assert (Hid : wh_id w = wd_webhookId q).
      { eapply (keyed_get wh_id); [apply (so_wf _ _ Hok)|exact Hw]. }
      apply ok_begin; try done.
      * rewrite Hid. by eapply so_policy.
      * intros d Hd. destruct (Hrow d Hd) as (_ & Hs & Hwid). split; [congruence|done].
    + exact (ok_failed s1 (wd_id q) _ _ Hpop Hfree).
  - exact (ok_failed s1 (wd_id q) _ _ Hpop Hfree).
Qed.

Lemma ok_poll now s : system_ok s → system_ok (sys_poll now s).
Proof using All.
  intros Hok. unfold sys_poll. destruct (sy_processing s) eqn:Hproc; [done|].
  pose proof Hok as []. assert (Hq : sy_queue s = []).
  { destruct (sy_queue s) eqn:E; [done|]. rewrite so_queue0 in Hproc by done. done. }
  set (picked := getRetriableDeliveries _ _ _ _).
  assert (Hpick : ∀ d, d ∈ picked → wd_status d = RETRYING ∧ getDelivery (wd_id d) (sy_store s) = Some d).
  { intros d Hd. apply getRetriableDeliveries_elem in Hd as [Hdue Hg]; [|done..]. split; [|done].
    apply andb_true_iff in Hdue as [Hdue _]. by apply bool_decide_eq_true in Hdue. }
  split; simpl; try done.
  - apply NoDup_app. split_and!.
    + unfold picked. rewrite getRetriableDeliveries_list by done.
      eapply sublist_NoDup; [|apply fmap_sublist, sublist_take]. rewrite js_sort_perm.
      apply js_filter_fmap_nodup, keyed_values_nodup, so_wf0.
    + intros id Hin Hfl. apply list_elem_of_fmap in Hin as (d & -> & Hd).
      apply list_elem_of_fmap in Hfl as (x & Hx & Hfl). destruct (Hpick d Hd) as [Hs Hg].
      destruct (so_flight0 x Hfl) as (_ & _ & Hp & Hrow). rewrite Hx in Hg.
      destruct (Hrow d Hg) as [_ Hst]. destruct (from_poll x); [|congruence].
      by rewrite Hp in Hproc.
    + rewrite Hq in so_once0. done.
  - intros q d Hd Hg. destruct (Hpick q Hd) as [_ Hg']. congruence.
  - intros id d Hd. destruct (so_rows0 id d Hd). split; try done.
    rewrite queued_true. simpl. intros Hin. apply list_elem_of_fmap in Hin as (q & Hq' & Hin).
    destruct (Hpick q Hin) as [Hs Hg]. pose proof (getDelivery_id _ _ _ so_wf0 Hd). congruence.
  - intros x Hx. destruct (so_flight0 x Hx) as (Ho & Hpol & Hp & Hrow). by split_and!.
Qed.

Lemma ok_poll_end s : system_ok s → system_ok (sys_poll_end s).
Proof using All.
  intros Hok. unfold sys_poll_end. destruct (sy_queue s) as [|q queue] eqn:Hq; [|done].
  destruct (js_some from_poll (sy_inflight s)) eqn:Hs; [done|]. pose proof Hok as [].
  split; simpl; try done.
  - by rewrite Hq in so_once0.
  - intros q d Hin. by apply elem_of_nil in Hin.
  - intros id d Hd. eapply row_ok_ext; [by eapply so_rows0|done..].
  - intros x Hx. destruct (so_flight0 x Hx) as (Ho & Hpol & Hp & Hrow). split_and!; try done.
    intros Hpoll. exfalso. assert (js_some from_poll (sy_inflight s) = true); [|congruence].
    apply js_some_true. by exists x.
Qed.

Lemma ok_complete k env s : system_ok s → system_ok (sys_complete createHmac k env s).
Proof using All.
  intros Hok. unfold sys_complete. destruct (sy_inflight s !! k) as [x|] eqn:Hx; [|done].
  pose proof Hok as []. set (s' := {| sy_store := _ |}).
  assert (Hin := list_elem_of_lookup_2 _ _ _ Hx).
  destruct (so_flight0 x Hin) as (_ & Hpol & _ & Hrow).
  destruct (sendWebhook_frame createHmac env (if_webhook x) (if_id x) (if_payload x) (sy_store s))
    as (Hother & Hweb & Hnone).
  assert (Hperm : sy_inflight s ≡ₚ x :: delete k (sy_inflight s)) by by apply delete_Permutation.
  assert (Hsplit : ∀ y, y ∈ if_id <$> sy_inflight s ↔ y = if_id x ∨ y ∈ if_id <$> delete k (sy_inflight s)).
  { intros y. rewrite Hperm at 1. simpl. set_solver. }
  assert (Hnd := so_once0). rewrite Hperm in Hnd. cbn [fmap list_fmap] in Hnd.
  rewrite <-Permutation_middle in Hnd.
  apply NoDup_cons in Hnd as [Hfree Hnd].
  assert (Hfl : ∀ y, y ≠ if_id x → in_flight y s' = in_flight y s).
  { intros y Hy. apply bool_decide_ext. rewrite Hsplit. simpl. set_solver. }
  split; simpl.
  - by apply sendWebhook_wf.
  - intros id w. rewrite Hweb. apply so_policy0.
  - exact Hnd.
  - done.
  - intros q d Hq Hd. rewrite Hother in Hd; [by eapply so_queue_rows0|].
    intros Heq. apply Hfree. rewrite <-Heq. apply elem_of_app. left. by apply list_elem_of_fmap_2.
  - intros id d Hd. destruct (decide (id = if_id x)) as [->|Hne].
    + destruct (getDelivery (if_id x) (sy_store s)) as [d0|] eqn:Hd0;
        [|rewrite Hnone in Hd by done; congruence].
      destruct (sendWebhook_row_any createHmac (if_webhook x) (if_id x) (if_payload x) env _ d0 Hd0)
        as (d' & v & Hd' & Ha & Hw & Hs). rewrite Hd' in Hd. injection Hd as ->.
      destruct (Hrow d0 eq_refl) as [Hdw Hds].
      assert (Hid0 := getDelivery_id _ _ _ so_wf0 Hd0).
      eapply (attempt_row_ok s s' (if_webhook x) d0 d v); try done.
      * by eapply so_rows0.
      * rewrite Hid0. eapply getDelivery_id; [|exact Hd']. by apply sendWebhook_wf.
      * by rewrite Hpol, Hdw.
      * destruct (from_poll x); auto.
      * rewrite Hid0. apply js_includes_false. simpl. by apply not_elem_of_app in Hfree as [? _].
    + rewrite Hother in Hd by done. assert (Hid := getDelivery_id _ _ _ so_wf0 Hd).
      eapply row_ok_ext; [by eapply so_rows0|done| |done].
      rewrite Hid, Hfl by done. done.
  - intros y Hy. assert (Hy' : y ∈ sy_inflight s) by (rewrite Hperm; set_solver).
    destruct (so_flight0 y Hy') as (Ho & Hp & Hproc & Hr). split_and!; try done.
    intros d Hd. rewrite Hother in Hd; [by apply Hr|]. intros Heq. apply Hfree.
    rewrite <-Heq. apply elem_of_app. right. by apply list_elem_of_fmap_2.
Qed.

Lemma ok_new_delivery max id now d s :
  system_ok s → fresh_id id s → 0 ≤ max → wd_status d = PENDING → wd_attempts d = 0 →
  system_ok (with_store (λ _, (createDelivery max id now d (sy_store s)).2) s)
  ∧ ∀ x, getDelivery id (createDelivery max id now d (sy_store s)).2 = Some x →
      wd_webhookId x = wd_webhookId d ∧ wd_status x = PENDING.
Proof using All.
  intros Hok (Hnone & Hsent & Hfl & Hq) Hmax Hp Ha. pose proof Hok as [].
  assert (Hrows : ∀ k x, getDelivery k (createDelivery max id now d (sy_store s)).2 = Some x →
    (k = id ∧ x = stamp_delivery id (wd_webhookId d) now d)
    ∨ (k ≠ id ∧ getDelivery k (sy_store s) = Some x)).
  { intros k x. unfold getDelivery. rewrite createDelivery_deletes, jm_get_deletes by done.
    case_decide; [done|]. rewrite jm_get_set. case_decide; [|auto]. intros [= <-]. auto. }
  split.
  - split; simpl; try done.
    + by apply createDelivery_wf.
    + intros q x Hin Hx. destruct (Hrows _ _ Hx) as [[Heq _]|[_ Hx']]; [|by eapply so_queue_rows0].
      exfalso. apply Hq. rewrite <-Heq. by apply list_elem_of_fmap_2.
    + intros k x Hx. destruct (Hrows k x Hx) as [[-> ->]|[_ Hx']].
      * split; unfold max_attempts, times_sent; simpl; rewrite ?Hp, ?Ha; try done; try lia.
        -- fold (times_sent id s). rewrite times_sent_zero by done. destruct (in_flight _ _); lia.
        -- rewrite queued_true. done.
      * eapply row_ok_ext; [by eapply so_rows0|done..].
    + intros x Hx. destruct (so_flight0 x Hx) as (Ho & Hpol & Hproc & Hr). split_and!; try done.
      intros y Hy. destruct (Hrows _ _ Hy) as [[Heq _]|[_ Hy']]; [|by apply Hr].
      exfalso. apply Hfl. rewrite <-Heq. by apply list_elem_of_fmap_2.
  - intros x Hx. destruct (Hrows id x Hx) as [[_ ->]|[Hne _]]; done.
Qed.

Lemma ok_dispatch getConfig sourceHost sourcePort env w eventType data connectionId s :
  system_ok s → getWebhook (wh_id w) (sy_store s) = Some w → fresh_id (ds_deliveryId env) s →
  system_ok (sys_dispatch createHmac getConfig sourceHost sourcePort env w eventType data
               connectionId s).
Proof using All.
  intros Hok Hw Hfresh. unfold sys_dispatch.
  set (d := new_delivery _ _ _ _ _ _ _ _).
  destruct (ok_new_delivery MAX_DELIVERIES_PER_WEBHOOK (ds_deliveryId env) (ds_createdAt env) d s)
    as [Hok' Hrow]; try done.
  destruct (createDelivery _ _ _ d (sy_store s)) as [x st] eqn:E. cbn [snd] in *.
  assert (wd_id x = ds_deliveryId env) as -> by (unfold createDelivery in E; by injection E as <- _).
  destruct Hfresh as (_ & _ & Hfl & Hq).
  apply ok_begin; try done.
  - simpl. rewrite not_elem_of_app. done.
  - exact (so_policy policy s Hok _ _ Hw).
Qed.

Lemma ok_admin s st' :
  system_ok s → admin_step policy (sy_store s) st' → system_ok (with_store (λ _, st') s).
Proof using All.
  intros Hok Hadmin. pose proof Hok as []. apply ok_fewer_rows; [done|destruct Hadmin; auto with js|..].
  - destruct Hadmin as [id now w st Hp Hnew|id u now st Hu|id st|cut c st]; intros k x.
    + unfold getWebhook. simpl. rewrite jm_get_set. case_decide; [|by apply so_policy0].
      intros [= <-]. by subst.
    + unfold updateWebhook, getWebhook. destruct (jm_get id (ws_webhooks st)) as [y|] eqn:E;
        [|by apply so_policy0]. simpl. rewrite jm_get_set. case_decide; [|by apply so_policy0].
      intros [= <-]. simpl. rewrite Hu. simpl. subst. by apply so_policy0.
    + unfold deleteWebhook, getWebhook. destruct (jm_has id (ws_webhooks st)); [|by apply so_policy0].
      simpl. rewrite jm_get_delete. case_decide; [done|by apply so_policy0].
    + apply so_policy0.
  - destruct Hadmin as [id now w st Hp Hnew|id u now st Hu|id st|cut c st]; intros k x; try done.
    + unfold updateWebhook. by case_match.
    + unfold deleteWebhook, getDelivery. case_match; [|done]. simpl. rewrite jm_get_deletes.
      by case_decide.
    + unfold pruneOldDeliveries, getDelivery. simpl. rewrite jm_get_deletes. by case_decide.
Qed.

Lemma ok_initial : system_ok initial_system.
Proof using All.
  split; simpl; try done; try set_solver.
  - split; apply keyed_nil.
  - constructor.
Qed.
End machine_lemmas.

Lemma system_step_ok createHmac getConfig sourceHost sourcePort policy s s' :
  system_step createHmac getConfig sourceHost sourcePort policy s s' →
  system_ok policy s → system_ok policy s'.
Proof.
  intros Hstep Hok. destruct Hstep.
  - by apply ok_dispatch.
  - by apply ok_poll.
  - by apply ok_next.
  - by apply ok_poll_end.
  - by apply ok_complete.
  - by apply ok_admin.
Qed.

Lemma system_reachable_ok createHmac getConfig sourceHost sourcePort policy s :
  rtc (system_step createHmac getConfig sourceHost sourcePort policy) initial_system s →
  system_ok policy s.
Proof.
  intros H. assert (Hgen : ∀ s1 s2,
    rtc (system_step createHmac getConfig sourceHost sourcePort policy) s1 s2 →
    system_ok policy s1 → system_ok policy s2).
  { induction 1; eauto using system_step_ok. }
  eapply Hgen; [exact H|]. by apply ok_initial.
Qed.

(** The dead letter queue lists failed deliveries of global webhooks only. *)
Lemma dead_lettered_sub st l cache d :
  d ∈ (dead_lettered_among st l cache).1 → d ∈ l ∧ wd_status d = FAILED.
Proof.
  revert cache. induction l as [|x l IH]; intros cache; simpl; [intros H; by apply elem_of_nil in H|].
  unfold isDeadLettered. destruct (bool_decide (wd_status x = FAILED)) eqn:Hf; simpl.
  - destruct (getMaxRetriesForWebhook _ _ _) as [m cache']. specialize (IH cache').
    destruct (dead_lettered_among st l cache') as [rest c]. simpl in *.
    apply bool_decide_eq_true in Hf. destruct (m <=? wd_attempts x); rewrite ?elem_of_cons; naive_solver.
  - specialize (IH cache). destruct (dead_lettered_among st l cache) as [rest c]. simpl in *.
    rewrite elem_of_cons. naive_solver.
Qed.

Lemma getDeliveriesByWebhook_elem webhookId limit offset st d :
  d ∈ getDeliveriesByWebhook webhookId limit offset st →
  d ∈ jm_values (ws_deliveries st) ∧ wd_webhookId d = webhookId.
Proof.
  unfold getDeliveriesByWebhook. intros H%js_slice_sub. rewrite js_sort_elem, js_filter_elem in H.
  destruct H as [Hw H]. split; [done|]. by apply bool_decide_eq_true in Hw.
Qed.

Lemma dlq_elem limit st cache d :
  webhook_store_wf st → d ∈ (getDeadLetteredDeliveries limit st cache).1 →
  wd_status d = FAILED
  ∧ ∃ w, getWebhook (wd_webhookId d) st = Some w ∧ truthy_string (wh_connectionId w) = false.
Proof.
  intros Hwf. unfold getDeadLetteredDeliveries.
  destruct (dead_lettered_among _ _ _) as [dead c] eqn:E. simpl. intros H%js_slice_sub.
  assert (Hd : d ∈ (dead_lettered_among st (getRecentFailedDeliveries (limit * 2) st) cache).1)
    by by rewrite E.
  apply dead_lettered_sub in Hd as [Hd Hs]. split; [done|].
  unfold getRecentFailedDeliveries in Hd. apply js_slice_sub in Hd. rewrite js_sort_elem in Hd.
  apply list_elem_of_join in Hd as (l & Hd & Hl). apply list_elem_of_fmap in Hl as (w & -> & Hw).
  apply js_filter_elem in Hd as [_ Hd]. apply getDeliveriesByWebhook_elem in Hd as [_ Hd].
  unfold getWebhooksByInstance in Hw. rewrite js_sort_elem, js_filter_elem in Hw.
  destruct Hw as [Hscope Hw]. apply (keyed_elem wh_id) in Hw; [|apply Hwf].
  exists w. rewrite Hd. split; [done|]. by apply negb_true_iff in Hscope.
Qed.

(** *** Health *)
(** A rate is at least one half when the quotient of the two counts, rounded,
    is: the rounding never crosses the threshold on samples of up to 100. *)
Definition rate_table (n : nat) : bool :=
  forallb (λ t, forallb (λ s, Bool.eqb
      (num_leb UNHEALTHY_SUCCESS_RATE_THRESHOLD (num_div (num_of_Z (Z.of_nat s)) (num_of_Z (Z.of_nat t))))
      (Z.of_nat t <=? 2 * Z.of_nat s)) (seq 0 (S t))) (seq 1 n).

Lemma rate_table_100 : rate_table 100 = true.
Proof. vm_compute. reflexivity. Qed.

Lemma rate_exact s t :
  (s ≤ t)%nat → (1 ≤ t ≤ 100)%nat →
  num_leb UNHEALTHY_SUCCESS_RATE_THRESHOLD
    (num_div (num_of_Z (Z.of_nat s)) (num_of_Z (Z.of_nat t))) = (Z.of_nat t <=? 2 * Z.of_nat s).
Proof.
  intros Hs Ht. pose proof rate_table_100 as H. unfold rate_table in H.
  rewrite List.forallb_forall in H. specialize (H t ltac:(apply in_seq; lia)).
  rewrite List.forallb_forall in H. specialize (H s ltac:(apply in_seq; lia)).
  by apply Bool.eqb_prop in H.
Qed.

Lemma consecutive_failures_acc l acc :
  consecutive_failures l acc = acc + recent_failures l.
Proof.
  unfold recent_failures, js_len. revert acc. induction l as [|d l IH]; intros acc; simpl; [lia|].
  assert (Hs : with_status SUCCESS d = bool_decide (wd_status d = SUCCESS)) by done.
  assert (Hf : with_status FAILED d = bool_decide (wd_status d = FAILED)) by done.
  destruct (wd_status d); rewrite ?IH, ?Hs; simpl; rewrite ?Hf; simpl; lia.
Qed.

Lemma health_sample_read webhookId st :
  getDeliveriesByWebhook webhookId HEALTH_CHECK_SAMPLE_SIZE 0 st = health_sample webhookId st.
Proof.
  unfold getDeliveriesByWebhook, health_sample. unfold HEALTH_CHECK_SAMPLE_SIZE.
  by rewrite js_slice_prefix by lia.
Qed.

Lemma health_sample_resort webhookId st :
  js_sort (by_desc wd_createdAt) (health_sample webhookId st) = health_sample webhookId st.
Proof.
  apply js_sort_id. unfold health_sample.
  pose proof (js_sort_desc_sorted wd_createdAt (deliveries_of webhookId st)) as H.
  rewrite <-(take_drop 100 (js_sort _ _)) in H. apply StronglySorted_app in H as (_ & H & _).
  induction H as [|x l _ IH Hx]; constructor; [done|].
  eapply Forall_impl; [exact Hx|]. unfold by_desc. simpl. lia.
Qed.

Lemma js_filter_length_le {A} (p : A → bool) l : (length (js_filter p l) ≤ length l)%nat.
Proof. apply sublist_length, js_filter_sublist. Qed.

(** The verdict of the check, without its floating-point rate. *)
Lemma health_verdict w st : hm_isHealthy (checkWebhookHealth w st) = negb (unhealthy (wh_id w) st).
Proof.
  unfold checkWebhookHealth, unhealthy. rewrite health_sample_read.
  pose proof (health_sample_resort (wh_id w) st) as Hsort.
  assert (Hlen : (length (health_sample (wh_id w) st) ≤ 100)%nat)
    by (unfold health_sample; rewrite length_take; lia).
  destruct (health_sample (wh_id w) st) as [|d l] eqn:E; [done|].
  rewrite <-E in *. cbn [hm_isHealthy]. unfold countConsecutiveFailures.
  rewrite Hsort, consecutive_failures_acc. unfold js_len at 1 2.
  rewrite rate_exact.
  - unfold js_len, UNHEALTHY_CONSECUTIVE_FAILURES_THRESHOLD. rewrite negb_orb, Z.add_0_l.
    by rewrite <-Z.leb_antisym, <-Z.ltb_antisym.
  - apply js_filter_length_le.
  - rewrite E in *. simpl in *. lia.
Qed.

Lemma checkWebhookHealth_id w st : hm_webhookId (checkWebhookHealth w st) = wh_id w.
Proof. unfold checkWebhookHealth. by case_match. Qed.

Lemma since_success_sub d l : d ∈ since_success l → d ∈ l.
Proof.
  induction l as [|x l IH]; simpl; [done|]. destruct (with_status SUCCESS x); [set_solver|].
  rewrite !elem_of_cons. naive_solver.
Qed.

Lemma health_store_wf s : webhook_store_wf (health_store s).
Proof.
  split; (split; [apply (bool_decide_unpack _); vm_compute; done|]); simpl; [set_solver|].
  unfold health_rows. simpl. intros k v Hin. repeat (apply elem_of_cons in Hin as [[= -> ->]|Hin]; [done|]).
  by apply elem_of_nil in Hin.
Qed.

Lemma handleUnhealthy_get now m st k :
  webhook_store_wf st →
  getWebhook k (handleUnhealthyWebhook now m st)
  = (λ w, if decide (k = hm_webhookId m) then (if wh_enabled w then disabled now w else w) else w)
      <$> getWebhook k st.
Proof.
  intros Hwf. unfold handleUnhealthyWebhook, service_getWebhook.
  destruct (getWebhook (hm_webhookId m) st) as [w|] eqn:Hw.
  - assert (Hid : wh_id w = hm_webhookId m) by (by apply (keyed_get wh_id _ _ (ws_webhooks st)); [apply Hwf|]).
    destruct (wh_enabled w) eqn:Hen; simpl.
    + unfold updateWebhook. rewrite Hid. unfold getWebhook in *. rewrite Hw. simpl.
      rewrite jm_get_set. case_decide as Hk; [|by destruct (jm_get k _)].
      rewrite Hk, Hw. simpl. rewrite Hen. unfold disabled. by rewrite Hid.
    + case_decide as Hk; [|by destruct (getWebhook k st)]. rewrite Hk, Hw. simpl. by rewrite Hen.
  - case_decide as Hk; [by rewrite Hk, Hw|by destruct (getWebhook k st)].
Qed.

Lemma handleUnhealthy_wf now m st :
  webhook_store_wf st →
  webhook_store_wf (handleUnhealthyWebhook now m st)
  ∧ ws_deliveries (handleUnhealthyWebhook now m st) = ws_deliveries st.
Proof.
  intros Hwf. unfold handleUnhealthyWebhook. destruct (service_getWebhook _ _); [|done].
  destruct (negb _); [done|]. split; [by apply updateWebhook_wf|].
  unfold updateWebhook. by case_match.
Qed.

Lemma handle_all now ms st :
  webhook_store_wf st →
  ws_deliveries (foldl (λ st m, handleUnhealthyWebhook now m st) st ms) = ws_deliveries st
  ∧ ∀ k, getWebhook k (foldl (λ st m, handleUnhealthyWebhook now m st) st ms)
         = (λ w, if decide (k ∈ hm_webhookId <$> ms)
                 then (if wh_enabled w then disabled now w else w) else w) <$> getWebhook k st.
Proof.
  revert st. induction ms as [|m ms IH]; intros st Hwf; csimpl.
  - split; [done|]. intros k. by destruct (getWebhook k st).
  - destruct (handleUnhealthy_wf now m st Hwf) as [Hwf' Hd].
    destruct (IH _ Hwf') as [IHd IHw]. split; [congruence|].
    intros k. rewrite IHw, handleUnhealthy_get by done.
    destruct (getWebhook k st) as [w|]; simpl; [|done]. f_equal.
    repeat case_decide; try set_solver; destruct (wh_enabled w) eqn:Hen; rewrite ?Hen; done.
Qed.

(** *** The sample run *)
#[local] Abbreviation sample_step :=
  (system_step sample_hmac no_config "localhost" 6379 sample_policy).

Lemma run_failed_once_reachable : rtc sample_step initial_system run_failed_once.
Proof.
  apply rtc_l with run_created; [apply step_admin, admin_create; done|].
  apply rtc_l with run_dispatched; [apply step_dispatch|apply rtc_once, step_complete].
  - vm_compute. done.
  - done.
  - repeat split; vm_compute; set_solver.
Qed.

Lemma run_dead_reachable : rtc sample_step initial_system run_dead.
Proof.
  etrans; [apply run_failed_once_reachable|].
  eapply rtc_l; [apply step_poll|]. eapply rtc_l; [apply step_next|]. apply rtc_once, step_complete.
Qed.

Lemma run_twice_reachable :
  rtc (manual_step sample_hmac no_config "localhost" 6379 sample_policy) initial_system run_twice.
Proof.
  etrans; [|eapply rtc_l; [apply manual_retry|eapply rtc_l; [|apply rtc_once]];
    apply manual_auto; [apply step_poll|apply step_next]].
  pose proof run_failed_once_reachable as H. induction H as [|s1 s2 s3 Hs _ IH]; [done|].
  eapply rtc_l; [by apply manual_auto|done].
Qed.

(** ** Theorems *)



(** Manual retries break both bounds: the row is queued for the poll and sent at
    once, so the poll sends it a second time while the first request is still in
    flight, and a delivery allowed two attempts is sent three times. *)
Theorem manual_retry_double_send :
  ∃ s d, rtc (manual_step sample_hmac no_config "localhost" 6379 sample_policy) initial_system s
    ∧ getDelivery "d" (sy_store s) = Some d
    ∧ if_id <$> sy_inflight s = ["d"; "d"]
    ∧ rp_maxRetries (sample_policy (wd_webhookId d)) = 2 ∧ times_sent "d" s = 3.
Proof.
  eexists run_twice, _. split; [apply run_twice_reachable|].
  repeat split; vm_compute; reflexivity.
Qed.

(** A dead letter is final: no reachable dead-lettered delivery can be retried
    by hand, requeued from the dead letter queue, or found in it; each attempt
    to do so throws and changes nothing. *)
Theorem dead_letter_stuck createHmac getConfig sourceHost sourcePort policy s id d :
  rtc (system_step createHmac getConfig sourceHost sourcePort policy) initial_system s →
  getDelivery id (sy_store s) = Some d → wd_status d = DEAD_LETTER →
  (∀ env now, ∃ e, manualRetry createHmac env now id (sy_store s) = (Throw e, sy_store s))
  ∧ (∀ now, ∃ e, requeueDelivery now id (sy_store s) = (Throw e, sy_store s))
  ∧ (∀ limit cache, d ∉ (getDeadLetteredDeliveries limit (sy_store s) cache).1).
Proof.
  intros Hok%system_reachable_ok Hd Hdead. split_and!.
  - intros env now. unfold manualRetry, manual_start, service_getWebhook. rewrite Hd, Hdead. simpl.
    destruct (getWebhook (wd_webhookId d) (sy_store s)) as [w|] eqn:Hw; [|by eexists].
    rewrite (so_policy _ _ Hok _ _ Hw). apply (ro_dead _ _ _ (so_rows _ _ Hok id d Hd)) in Hdead.
    apply Z.leb_le in Hdead as ->. by eexists.
  - intros now. unfold requeueDelivery. rewrite Hd, Hdead. by eexists.
  - intros limit cache Hin. apply dlq_elem in Hin as [Hs _]; [congruence|]. by apply Hok.
Qed.

Lemma dead_letter_stuck_witness :
  ∃ d e, getDelivery "d" (sy_store run_dead) = Some d ∧ wd_status d = DEAD_LETTER
    ∧ requeueDelivery 2000 "d" (sy_store run_dead) = (Throw e, sy_store run_dead).
Proof.
  destruct (getDelivery "d" (sy_store run_dead)) as [d|] eqn:E; [|vm_compute in E; done].
  assert (Hd : wd_status d = DEAD_LETTER) by (vm_compute in E; injection E as <-; done).
  destruct (dead_letter_stuck _ _ _ _ _ _ "d" d run_dead_reachable E Hd) as (_ & H & _).
  destruct (H 2000) as [e He]. by exists d, e.
Defined.

(** The dead letter queue shows less than it says: whatever it lists is a failed
    delivery of a webhook bound to no connection, so the deliveries of the
    webhooks of a connection, which is what creation makes by default, never
    appear. *)
Theorem dlq_global_only limit st cache d :
  webhook_store_wf st → d ∈ (getDeadLetteredDeliveries limit st cache).1 →
  wd_status d = FAILED
  ∧ ∃ w, getWebhook (wd_webhookId d) st = Some w ∧ truthy_string (wh_connectionId w) = false.
Proof. apply dlq_elem. Qed.

Lemma dlq_global_only_witness :
  ∃ d, d ∈ (getDeadLetteredDeliveries 10 failed_store []).1 ∧ wd_status d = FAILED.
Proof.
  destruct ((getDeadLetteredDeliveries 10 failed_store []).1) as [|d l] eqn:E; [vm_compute in E; done|].
  assert (Hd : d ∈ (getDeadLetteredDeliveries 10 failed_store []).1) by (rewrite E; set_solver).
  exists d. split; [set_solver|]. exact (proj1 (dlq_global_only 10 failed_store [] d failed_store_wf Hd)).
Defined.

(** The poll serves the most overdue retries: when no run is in progress, it reads
    every delivery whose retry is due, or ten that are due at least as long. *)
Theorem poll_serves_earliest now s d :
  webhook_store_wf (sy_store s) → sy_processing s = false →
  getDelivery (wd_id d) (sy_store s) = Some d → retry_due now d = true →
  d ∈ sy_queue (sys_poll now s)
  ∨ (js_len (sy_queue (sys_poll now s)) = MAX_CONCURRENT_RETRIES
     ∧ ∀ q, q ∈ sy_queue (sys_poll now s) → retry_due now q = true ∧ retry_at q ≤ retry_at d).
Proof.
  intros Hwf Hproc Hd Hdue. unfold sys_poll. rewrite Hproc. simpl.
  assert (Hall : ∀ q, q ∈ getRetriableDeliveries MAX_CONCURRENT_RETRIES None now (sy_store s) →
    retry_due now q = true) by (intros q Hq; by eapply getRetriableDeliveries_elem in Hq as [? _]).
  rewrite getRetriableDeliveries_list in * by done.
  set (due := js_sort (by_asc retry_at) _) in *.
  assert (Hin : d ∈ due).
  { unfold due. rewrite js_sort_elem, js_filter_elem. split; [done|].
    apply (keyed_elem wd_id); [apply Hwf|done]. }
  rewrite <-(take_drop (Z.to_nat MAX_CONCURRENT_RETRIES) due) in Hin.
  apply elem_of_app in Hin as [Hin|Hin]; [by left|]. right. split.
  - unfold js_len. rewrite length_take. assert (drop (Z.to_nat MAX_CONCURRENT_RETRIES) due ≠ [])
      by (intros E; rewrite E in Hin; by apply elem_of_nil in Hin).
    assert (Z.to_nat MAX_CONCURRENT_RETRIES < length due)%nat; [|unfold MAX_CONCURRENT_RETRIES in *; lia].
    apply Nat.nle_gt. intros Hle. by rewrite drop_ge in H by done.
  - intros q Hq. split; [by apply Hall|].
    eapply (sorted_take_drop (λ a b, retry_at a ≤ retry_at b)); [apply js_sort_asc_sorted|done..].
Qed.

Lemma poll_serves_earliest_witness :
  ∃ d, getDelivery "d" (sy_store run_failed_once) = Some d ∧ d ∈ sy_queue (sys_poll 1200 run_failed_once).
Proof.
  destruct (getDelivery "d" (sy_store run_failed_once)) as [d|] eqn:E; [|vm_compute in E; done].
  assert (Hid : wd_id d = "d" ∧ retry_due 1200 d = true)
    by (vm_compute in E; injection E as <-; vm_compute; done).
  destruct Hid as [Hid Hdue]. exists d. split; [done|].
  destruct (poll_serves_earliest 1200 run_failed_once d) as [H|[H _]]; [| | | |exact H|].
  - apply (so_wf _ _ (system_reachable_ok _ _ _ _ _ _ run_failed_once_reachable)).
  - vm_compute. done.
  - by rewrite Hid.
  - done.
  - vm_compute in H. done.
Defined.

(** The health check switches off exactly the enabled unhealthy webhooks of the
    default connection and of no connection, judged on their last 100
    deliveries in exact arithmetic; the webhooks of every other connection, the
    healthy ones and all deliveries stay as they are. *)
Theorem health_check_exact defaultId now st id :
  webhook_store_wf st →
  ws_deliveries (checkAllWebhooksHealth defaultId now st) = ws_deliveries st
  ∧ getWebhook id (checkAllWebhooksHealth defaultId now st)
    = (λ w, if in_scope (resolveConnectionId defaultId None) w && wh_enabled w && unhealthy id st
            then disabled now w else w) <$> getWebhook id st.
Proof.
  intros Hwf. unfold checkAllWebhooksHealth.
  edestruct (handle_all now) as [Hd Hw]; [done|]. split; [apply Hd|]. rewrite Hw.
  destruct (getWebhook id st) as [w|] eqn:E; simpl; [|done]. f_equal.
  assert (Hid : wh_id w = id) by (by apply (keyed_get wh_id _ _ (ws_webhooks st)); [apply Hwf|]).
  assert (Hin : id ∈ hm_webhookId <$> js_filter (λ m, negb (hm_isHealthy m))
                  ((λ w, checkWebhookHealth w st) <$> getAllWebhooks defaultId None st)
                ↔ in_scope (resolveConnectionId defaultId None) w = true ∧ unhealthy id st = true).
  { unfold getAllWebhooks, getWebhooksByInstance. split.
    - intros (m & -> & Hm)%list_elem_of_fmap. apply js_filter_elem in Hm as [Hm Hin].
      apply list_elem_of_fmap in Hin as (w' & -> & Hw'). rewrite checkWebhookHealth_id in *.
      rewrite js_sort_elem, js_filter_elem in Hw'. destruct Hw' as [Hs Hw'].
      apply (keyed_elem wh_id) in Hw'; [|apply Hwf]. unfold getWebhook in E. simplify_eq.
      rewrite health_verdict, negb_involutive in Hm. done.
    - intros [Hs Hu]. apply list_elem_of_fmap. exists (checkWebhookHealth w st).
      rewrite checkWebhookHealth_id. split; [done|]. apply js_filter_elem.
      rewrite health_verdict, negb_involutive, Hid. split; [done|].
      apply list_elem_of_fmap. exists w. split; [done|]. rewrite js_sort_elem, js_filter_elem. split; [done|].
      apply (keyed_elem wh_id); [apply Hwf|]. by rewrite Hid. }
  destruct (in_scope _ w), (unhealthy id st), (wh_enabled w); simpl;
    case_decide as Hc; rewrite Hin in Hc; naive_solver.
Qed.

Lemma health_check_exact_witness :
  wh_enabled <$> getWebhook "w" (checkAllWebhooksHealth None 99 (health_store FAILED)) = Some false.
Proof.
  destruct (health_check_exact None 99 (health_store FAILED) "w") as [_ ->];
    [apply health_store_wf|]. vm_compute. reflexivity.
Defined.

(** Dead letters are no failures to the health check: as long as half of the
    sample succeeded and nothing in it is marked failed, the webhook stays
    enabled, however many of its newest deliveries ran out of attempts. *)
Theorem dead_letters_are_healthy webhook st :
  (∀ d, d ∈ health_sample (wh_id webhook) st → wd_status d ≠ FAILED) →
  js_len (health_sample (wh_id webhook) st)
    ≤ 2 * js_len (js_filter (with_status SUCCESS) (health_sample (wh_id webhook) st)) →
  hm_isHealthy (checkWebhookHealth webhook st) = true
  ∧ hm_consecutiveFailures (checkWebhookHealth webhook st) = 0.
Proof.
  intros Hf Hhalf.
  assert (Hr : recent_failures (health_sample (wh_id webhook) st) = 0).
  { unfold recent_failures. rewrite js_filter_none; [done|]. intros d Hd.
    apply bool_decide_eq_false, Hf. by apply since_success_sub. }
  split.
  - rewrite health_verdict. unfold unhealthy. rewrite Hr. apply negb_true_iff, orb_false_iff.
    split; [|done]. by apply Z.ltb_ge.
  - unfold checkWebhookHealth. rewrite health_sample_read.
    destruct (health_sample (wh_id webhook) st) as [|d l] eqn:E; [done|]. rewrite <-E in *.
    cbn [hm_consecutiveFailures]. unfold countConsecutiveFailures.
    by rewrite health_sample_resort, consecutive_failures_acc, Hr.
Qed.

Lemma dead_letters_are_healthy_witness :
  wd_status <$> health_sample "w" (health_store DEAD_LETTER)
    = repeat DEAD_LETTER 5 ++ repeat SUCCESS 5
  ∧ hm_isHealthy (checkWebhookHealth (sample_webhook "w") (health_store DEAD_LETTER)) = true.
Proof.
  split; [vm_compute; reflexivity|].
  apply (dead_letters_are_healthy (sample_webhook "w") (health_store DEAD_LETTER)).
  - intros d Hd. assert (wd_status d ∈ wd_status <$> health_sample "w" (health_store DEAD_LETTER)) as H
      by by apply list_elem_of_fmap_2.
    intros E. rewrite E in H. revert H. apply (bool_decide_unpack (FAILED ∉ _)). vm_compute. done.
  - vm_compute. discriminate.
Defined.
