(* ===== verification/BulkDelete.v ===== *)
(** * Bulk delete by pattern

    [proprietary/bulk-delete]: [bulk-delete-engine.ts] (the validated parameters and the walk
    of SCAN and UNLINK over the nodes) and [valkey-scan-target.ts] (the target over a client).
    The client, the pause and the cancel flag are the interface [ValkeyClient]; what the server
    documents of SCAN and UNLINK are its laws. *)
From S2P Require Export JsNumber.
From stdpp Require Import options.

(** ** Definitions *)

(** *** Parameters *)
Inductive BulkDeleteMode := dry_run | execute.
#[global] Instance BulkDeleteMode_eq : EqDecision BulkDeleteMode.
Proof. solve_decision. Defined.
Inductive BulkDeleteScope := scope_node | scope_cluster.

Definition DEFAULT_COUNT : Z := 500.
Definition MIN_COUNT : Z := 1.
Definition MAX_COUNT : Z := 10000.
Definition DEFAULT_SAMPLE_LIMIT : Z := 100.
Definition MIN_BATCH_PAUSE_MS : Z := 0.
Definition MAX_BATCH_PAUSE_MS : Z := 60000.
Definition DEFAULT_PREVIEW_MAX_KEYS : Z := 10000.
Definition DEFAULT_PREVIEW_SAMPLE_LIMIT : Z := 50.

(** [/^\*+$/.test(pattern)] *)
Definition matchesEverything (pattern : string) : bool :=
  negb (is_empty pattern) && str_forall (λ c, bool_decide (c = "*"%char)) pattern.

(** [Math.trunc] of a finite number *)
Definition trunc (x : number) : Z :=
  match x with
  | S754_finite s m e => if s then - floor_Z false m e else floor_Z false m e
  | _ => 0
  end.
Definition clampInt (value : option number) (min max fallback : Z) : Z :=
  match value with
  | Some x => if is_finite x then Z.min max (Z.max min (trunc x)) else fallback
  | None => fallback
  end.

Record BulkDeleteRequestInput := {
  bi_match : option string;
  bi_type : option string;
  bi_count : option number;
  bi_scope : option BulkDeleteScope;
  bi_maxKeys : option number;
  bi_batchPauseMs : option number;
  bi_confirmDeleteAll : bool
}.
(** [maxKeys] is [None] for [Infinity]. *)
Record BulkDeleteParams := {
  bp_match : string;
  bp_type : option string;
  bp_count : Z;
  bp_mode : BulkDeleteMode;
  bp_maxKeys : option Z;
  bp_batchPauseMs : Z;
  bp_sampleLimit : Z
}.

Definition required_message : string := "A non-empty match pattern is required.".
Definition catch_all_message (pattern : string) : string :=
  "Refusing to run catch-all pattern " +:+ String quote_char pattern +:+
  String quote_char " without confirmDeleteAll. This would delete every key.".
Definition normalize_max (mode : BulkDeleteMode) (maxKeys : option number) : option Z :=
  let defaultMaxKeys := match mode with dry_run => Some DEFAULT_PREVIEW_MAX_KEYS | execute => None end in
  match maxKeys with
  | Some x => if is_finite x && num_ltb (num_of_Z 0) x then Some (trunc x) else defaultMaxKeys
  | None => defaultMaxKeys
  end.
Definition normalizeBulkDeleteParams (input : BulkDeleteRequestInput) (mode : BulkDeleteMode)
    : outcome string BulkDeleteParams :=
  let pattern := trim (default EmptyString (bi_match input)) in
  if is_empty pattern then Throw required_message
  else if matchesEverything pattern && negb (bi_confirmDeleteAll input)
  then Throw (catch_all_message pattern)
  else
    let type := match trim <$> bi_type input with Some EmptyString => None | t => t end in
    Ok {| bp_match := pattern; bp_type := type;
          bp_count := clampInt (bi_count input) MIN_COUNT MAX_COUNT DEFAULT_COUNT;
          bp_mode := mode; bp_maxKeys := normalize_max mode (bi_maxKeys input);
          bp_batchPauseMs := clampInt (bi_batchPauseMs input) MIN_BATCH_PAUSE_MS
                               MAX_BATCH_PAUSE_MS MIN_BATCH_PAUSE_MS;
          bp_sampleLimit := match mode with
                            | dry_run => DEFAULT_PREVIEW_SAMPLE_LIMIT
                            | execute => DEFAULT_SAMPLE_LIMIT
                            end |}.

(** *** Progress *)
Record NodeProgress := {
  np_node : string; np_matched : Z; np_deleted : Z; np_batches : Z; np_cursorDone : bool
}.
Record BulkDeleteProgress := {
  pg_mode : BulkDeleteMode;
  pg_matched : Z;
  pg_deleted : Z;
  pg_batches : Z;
  pg_nodesTotal : Z;
  pg_nodesDone : Z;
  pg_truncated : bool;
  pg_cancelled : bool;
  pg_sampleKeys : list string;
  pg_perNode : list NodeProgress
}.
Definition createBulkDeleteProgress (mode : BulkDeleteMode) (nodesTotal : Z) : BulkDeleteProgress :=
  {| pg_mode := mode; pg_matched := 0; pg_deleted := 0; pg_batches := 0;
     pg_nodesTotal := nodesTotal; pg_nodesDone := 0; pg_truncated := false; pg_cancelled := false;
     pg_sampleKeys := []; pg_perNode := [] |}.
Definition set_nodesTotal (n : Z) (p : BulkDeleteProgress) : BulkDeleteProgress :=
  {| pg_mode := pg_mode p; pg_matched := pg_matched p; pg_deleted := pg_deleted p;
     pg_batches := pg_batches p; pg_nodesTotal := n; pg_nodesDone := pg_nodesDone p;
     pg_truncated := pg_truncated p; pg_cancelled := pg_cancelled p;
     pg_sampleKeys := pg_sampleKeys p; pg_perNode := pg_perNode p |}.
Definition set_flags (truncated cancelled : bool) (p : BulkDeleteProgress) : BulkDeleteProgress :=
  {| pg_mode := pg_mode p; pg_matched := pg_matched p; pg_deleted := pg_deleted p;
     pg_batches := pg_batches p; pg_nodesTotal := pg_nodesTotal p; pg_nodesDone := pg_nodesDone p;
     pg_truncated := pg_truncated p || truncated; pg_cancelled := pg_cancelled p || cancelled;
     pg_sampleKeys := pg_sampleKeys p; pg_perNode := pg_perNode p |}.
Definition set_perNode (l : list NodeProgress) (p : BulkDeleteProgress) : BulkDeleteProgress :=
  {| pg_mode := pg_mode p; pg_matched := pg_matched p; pg_deleted := pg_deleted p;
     pg_batches := pg_batches p; pg_nodesTotal := pg_nodesTotal p; pg_nodesDone := pg_nodesDone p;
     pg_truncated := pg_truncated p; pg_cancelled := pg_cancelled p;
     pg_sampleKeys := pg_sampleKeys p; pg_perNode := l |}.
(** Add to the counters of the run and of the node at [i]. *)
Definition tally (i : nat) (matched deleted batches : Z) (samples : list string)
    (p : BulkDeleteProgress) : BulkDeleteProgress :=
  {| pg_mode := pg_mode p; pg_matched := pg_matched p + matched;
     pg_deleted := pg_deleted p + deleted; pg_batches := pg_batches p + batches;
     pg_nodesTotal := pg_nodesTotal p; pg_nodesDone := pg_nodesDone p;
     pg_truncated := pg_truncated p; pg_cancelled := pg_cancelled p;
     pg_sampleKeys := pg_sampleKeys p ++ samples;
     pg_perNode :=
       alter (λ n, {| np_node := np_node n; np_matched := np_matched n + matched;
                      np_deleted := np_deleted n + deleted; np_batches := np_batches n + batches;
                      np_cursorDone := np_cursorDone n |}) i (pg_perNode p) |}.
Definition finish_node (i : nat) (cursorDone : bool) (p : BulkDeleteProgress) : BulkDeleteProgress :=
  {| pg_mode := pg_mode p; pg_matched := pg_matched p; pg_deleted := pg_deleted p;
     pg_batches := pg_batches p; pg_nodesTotal := pg_nodesTotal p;
     pg_nodesDone := if cursorDone then pg_nodesDone p + 1 else pg_nodesDone p;
     pg_truncated := pg_truncated p; pg_cancelled := pg_cancelled p;
     pg_sampleKeys := pg_sampleKeys p;
     pg_perNode :=
       alter (λ n, {| np_node := np_node n; np_matched := np_matched n;
                      np_deleted := np_deleted n; np_batches := np_batches n;
                      np_cursorDone := cursorDone |}) i (pg_perNode p) |}.

(** *** The target over a client *)
(** The reply of SCAN when it is an array; its second element when that is one *)
Inductive ScanReply :=
  | SR_array (cursor : string) (keys : option (list string))
  | SR_other.
(** The commands of a client of type [C] in the world [W]: SCAN with its arguments, a pipeline
    of one UNLINK per key with an error and a number per command, the pause between batches,
    and the flag a cancel request sets. *)
Class ValkeyClient (W C : Type) := {
  vc_scan : C → list string → M W string ScanReply;
  vc_unlink : C → list string → M W string (option (list (option string * option Z)));
  vc_sleep : Z → W → W;
  vc_cancelled : W → bool
}.
Record ScanTarget (C : Type) := { tg_name : string; tg_client : C }.
Arguments tg_name {C} _.
Arguments tg_client {C} _.

Definition scan_args (cursor pattern : string) (count : Z) (type : option string) : list string :=
  [cursor; "MATCH"; pattern; "COUNT"; string_of_Z count]
  ++ match type with Some ((String _ _) as t) => ["TYPE"; t] | _ => [] end.

Section engine.
Context {W C : Type} `{!ValkeyClient W C}.

Definition target_scan (client : C) (cursor pattern : string) (count : Z) (type : option string)
    : M W string (string * list string) :=
  reply ← vc_scan client (scan_args cursor pattern count type);
  mret match reply with
       | SR_array cursor keys => (cursor, default [] keys)
       | SR_other => ("0", [])
       end.
Definition removed_of (result : option string * option Z) : Z :=
  match result with (None, Some n) => n | _ => 0 end.
Definition target_unlink (client : C) (keys : list string) : M W string Z :=
  match keys with
  | [] => mret 0
  | _ =>
      results ← vc_unlink client keys;
      mret (foldl (λ n result, n + removed_of result) 0 (default [] results))
  end.

(** *** The walk *)
Record EngineState := { es_world : W; es_progress : BulkDeleteProgress }.
Definition on_world {A} (m : M W string A) : M EngineState string A := λ s,
  let '(r, w) := m (es_world s) in (r, {| es_world := w; es_progress := es_progress s |}).
Definition on_progress (f : BulkDeleteProgress → BulkDeleteProgress) : M EngineState string unit :=
  modify (λ s, {| es_world := es_world s; es_progress := f (es_progress s) |}).
Definition progress : M EngineState string BulkDeleteProgress := gets es_progress.

(** [params.maxKeys - progress.matched], and the keys of a batch cut to it *)
Definition remaining (params : BulkDeleteParams) (p : BulkDeleteProgress) : option Z :=
  (λ m, m - pg_matched p) <$> bp_maxKeys params.
Definition over (remaining : option Z) (keys : list string) : bool :=
  match remaining with Some n => n <? js_len keys | None => false end.
Definition cut (remaining : option Z) (keys : list string) : list string :=
  match remaining with
  | Some n => if n <? js_len keys then js_slice 0 n keys else keys
  | None => keys
  end.
Definition new_samples (params : BulkDeleteParams) (p : BulkDeleteProgress) (keys : list string)
    : list string :=
  take (Z.to_nat (bp_sampleLimit params - js_len (pg_sampleKeys p))) keys.

(** A batch that found keys *)
Definition act (params : BulkDeleteParams) (client : C) (i : nat) (cursor : string)
    (keys : list string) : M EngineState string unit :=
  p ← progress;
  on_progress (tally i (js_len keys) 0 0 (new_samples params p keys));;
  (if decide (bp_mode params = execute) then
     on_world (target_unlink client keys) ≫= λ removed, on_progress (tally i 0 removed 0 [])
   else mret tt : M EngineState string unit);;
  on_progress (tally i 0 0 1 []);;
  (if (0 <? bp_batchPauseMs params) && negb (str_eqb cursor "0")
   then on_world (modify (vc_sleep (bp_batchPauseMs params)))
   else mret tt : M EngineState string unit).

(** The body of the [do] loop: the cursor it leaves, and whether the run stops *)
Definition one_batch (params : BulkDeleteParams) (client : C) (i : nat) (cursor : string)
    : M EngineState string (string * bool) :=
  s ← get_state;
  if vc_cancelled (es_world s) then
    on_progress (set_flags false true);; mret (cursor, true)
  else
    p ← progress;
    let left := remaining params p in
    if match left with Some n => n <=? 0 | None => false end then
      on_progress (set_flags true false);; mret (cursor, true)
    else
      '(cursor, found) ← on_world (target_scan client cursor (bp_match params) (bp_count params)
                                     (bp_type params));
      on_progress (set_flags (over left found) false);;
      (match cut left found with
       | [] => mret tt : M EngineState string unit
       | keys => act params client i cursor keys
       end);;
      p ← progress;
      mret (cursor, pg_truncated p && when_some (bp_maxKeys params) (λ m, m <=? pg_matched p)).

(** The [do] loop; [None] when the fuel runs out before the cursor returns to 0. *)
Fixpoint walk (fuel : nat) (params : BulkDeleteParams) (client : C) (i : nat) (cursor : string)
    : M EngineState string (option (string * bool)) :=
  match fuel with
  | 0%nat => mret None
  | S fuel =>
      one_batch params client i cursor ≫= λ next : string * bool,
      if next.2 then mret (Some next)
      else if str_eqb next.1 "0" then mret (Some next)
      else walk fuel params client i next.1
  end.

Definition new_node (name : string) : NodeProgress :=
  {| np_node := name; np_matched := 0; np_deleted := 0; np_batches := 0; np_cursorDone := false |}.
(** The nodes in turn; [false] when the fuel of a node runs out. *)
Fixpoint walk_all (fuel : nat) (params : BulkDeleteParams) (targets : list (ScanTarget C))
    : M EngineState string bool :=
  match targets with
  | [] => mret true
  | target :: targets =>
      p ← progress;
      let i := length (pg_perNode p) in
      on_progress (set_perNode (pg_perNode p ++ [new_node (tg_name target)]));;
      walk fuel params (tg_client target) i "0" ≫= λ ended : option (string * bool),
      match ended with
      | None => mret false
      | Some (cursor, stopAll) =>
          on_progress (finish_node i (str_eqb cursor "0" && negb stopAll));;
          if stopAll then mret true else walk_all fuel params targets
      end
  end.
Definition runBulkDelete (fuel : nat) (targets : list (ScanTarget C)) (params : BulkDeleteParams)
    : M EngineState string bool :=
  on_progress (set_nodesTotal (js_len targets));; walk_all fuel params targets.
End engine.
Arguments EngineState W : clear implicits.

(** ** Specification *)

(** What UNLINK does to the presence [h] of the keys of one node: a command without an error
    removes its key and says whether there was one; after an error the key may be gone. *)
Inductive unlinked :
    list string → list (option string * option Z) → (string → bool) → (string → bool) → Prop :=
  | unlinked_nil h h' : (∀ k, h' k = h k) → unlinked [] [] h h'
  | unlinked_ok k ks results h h1 h' :
      h1 k = false → (∀ k', k' ≠ k → h1 k' = h k') → unlinked ks results h1 h' →
      unlinked (k :: ks) ((None, Some (if h k then 1 else 0)) :: results) h h'
  | unlinked_err k ks e n results h h1 h' :
      (h1 k = true → h k = true) → (∀ k', k' ≠ k → h1 k' = h k') → unlinked ks results h1 h' →
      unlinked (k :: ks) ((Some e, n) :: results) h h'.

(** What the server documents: [sl_has] tells the keys of a node, [sl_selects] those a pattern
    and a type select.  A cursor other than 0 is a point of an iteration: [sl_seen] tells the
    keys before it and [sl_left] bounds the calls that follow.  A call of SCAN removes nothing,
    returns only selected keys, and every selected key that is present between its two cursors. *)
Class ScanLaws (W C : Type) `{ValkeyClient W C} := {
  #[global] sl_eq_dec :: EqDecision C;
  sl_has : W → C → string → bool;
  sl_selects : C → string → option string → string → bool;
  sl_seen : C → string → string → bool;
  sl_left : C → string → nat;
  sl_sleep_keeps ms w c k : sl_has (vc_sleep ms w) c k = sl_has w c k;
  sl_scan_keeps c args w c' k : sl_has (vc_scan c args w).2 c' k = sl_has w c' k;
  sl_scan_reply c cursor pattern count type w reply :
    (vc_scan c (scan_args cursor pattern count type) w).1 = Ok reply →
    ∃ cursor' keys, reply = SR_array cursor' (Some keys)
      ∧ (∀ k, k ∈ keys → sl_selects c pattern type k = true)
      ∧ (∀ k, sl_has w c k = true → sl_selects c pattern type k = true →
           (cursor = "0" ∨ sl_seen c cursor k = false) →
           (cursor' = "0" ∨ sl_seen c cursor' k = true) → k ∈ keys)
      ∧ (cursor' = "0" ∨ (sl_left c cursor' < sl_left c cursor)%nat);
  sl_unlink_others c ks w c' k : c' ≠ c → sl_has (vc_unlink c ks w).2 c' k = sl_has w c' k;
  sl_unlink_only c ks w k :
    (sl_has (vc_unlink c ks w).2 c k = true → sl_has w c k = true)
    ∧ (k ∉ ks → sl_has (vc_unlink c ks w).2 c k = sl_has w c k);
  sl_unlink_results c ks w results :
    (vc_unlink c ks w).1 = Ok (Some results) →
    unlinked ks results (sl_has w c) (sl_has (vc_unlink c ks w).2 c)
}.

(** ** Lemmas *)
Lemma cut_spec left keys :
  (∀ n, left = Some n → 0 < n → js_len (cut left keys) ≤ n) ∧ (∀ k, k ∈ cut left keys → k ∈ keys)
  ∧ (over left keys = false → cut left keys = keys).
Proof.
  unfold cut, over. destruct left as [n|]; [|split; [done|split; [done|done]]].
  destruct (Z.ltb_spec n (js_len keys)) as [Hlt|Hge].
  - split; [|split; [|done]].
    + intros ? [= <-] Hn. change (js_slice 0 n keys) with (js_slice 0 (0 + n) keys).
      rewrite js_slice_prefix by lia. unfold js_len. rewrite length_take. lia.
    + intros k Hk. by apply js_slice_sub in Hk.
  - split; [by intros ? [= <-] _|done].
Qed.

Lemma removed_total results n :
  foldl (λ n r, n + removed_of r) n results = n + foldl (λ n r, n + removed_of r) 0 results.
Proof.
  revert n. induction results as [|r results IH]; intros n; cbn [foldl]; [lia|].
  rewrite IH, (IH (0 + _)). lia.
Qed.

Lemma unlinked_count ks results h h' :
  unlinked ks results h h' →
  ∃ D, NoDup D ∧ (∀ k, k ∈ D → k ∈ ks ∧ h k = true ∧ h' k = false)
       ∧ 0 ≤ foldl (λ n r, n + removed_of r) 0 results ≤ js_len D
       ∧ js_len D ≤ js_len ks
       ∧ (foldl (λ n r, n + removed_of r) 0 results = js_len ks → ∀ k, k ∈ ks → h' k = false).
Proof.
  assert (Hmono : ∀ ks results h h', unlinked ks results h h' → ∀ k, h k = false → h' k = false).
  { clear. intros ks results h h' Hu. induction Hu as [h h' Hh|k ks results h h1 h' Hk Hne _ IH|k ks e n results h h1 h' Hk Hne _ IH];
      intros x Hx; [by rewrite Hh|..]; apply IH; destruct (decide (x = k)) as [->|]; try done; try (by rewrite Hne).
    destruct (h1 k); [|done]. rewrite Hk in Hx by done. done. }
  intros Hu. induction Hu as [h h' Hh|k ks results h h1 h' Hk Hne Hu IH|k ks e n results h h1 h' Hk Hne Hu IH].
  - exists []. cbn. split; [constructor|]. split; [intros k Hk; by apply not_elem_of_nil in Hk|].
    split; [done|]. split; [done|]. intros _ k Hk. by apply not_elem_of_nil in Hk.
  - destruct IH as (D & Hnd & HD & Hn & Hlen & Hall). cbn [foldl]. rewrite removed_total. cbn [removed_of].
    assert (HkD : k ∉ D) by (intros Hin; destruct (HD k Hin) as (_ & ? & _); congruence).
    assert (HD' : ∀ x, x ∈ D → x ∈ k :: ks ∧ h x = true ∧ h' x = false).
    { intros x Hx. destruct (HD x Hx) as (? & Hx1 & ?). rewrite <-Hne by congruence. split; [by right|done]. }
    pose proof (Hmono _ _ _ _ Hu k Hk) as Hk'. unfold js_len in *. cbn [length].
    exists (if h k then k :: D else D). destruct (h k) eqn:Hhk.
    + split; [by constructor|]. split.
      { intros x [->|Hx]%elem_of_cons; [split; [by left|done]|by apply HD']. }
      cbn [length]. split; [lia|]. split; [lia|].
      intros Heq x [->|Hx]%elem_of_cons; [done|]. apply Hall; [lia|done].
    + split; [done|]. split; [done|]. split; [lia|]. split; [lia|]. intros Heq. lia.
  - destruct IH as (D & Hnd & HD & Hn & Hlen & Hall). cbn [foldl]. rewrite removed_total. cbn [removed_of].
    unfold js_len in *. cbn [length]. exists D. split; [done|]. split.
    { intros x Hx. destruct (HD x Hx) as (? & Hx1 & ?). split; [by right|]. split; [|done].
      destruct (decide (x = k)) as [->|]; [by apply Hk|by rewrite <-Hne]. }
    split; [lia|]. split; [lia|]. intros Heq. lia.
Qed.

Section correctness.
Context {W C : Type} `{ScanLaws W C}.
Implicit Types (s : EngineState W).

Definition has s (c : C) (k : string) : bool := sl_has (es_world s) c k.
Definition matched s : Z := pg_matched (es_progress s).
Definition deleted s : Z := pg_deleted (es_progress s).
Definition truncated s : bool := pg_truncated (es_progress s).
Definition cancelled s : bool := pg_cancelled (es_progress s).
Definition samples s : list string := pg_sampleKeys (es_progress s).

(** What a batch did to the node [c]: the keys [found] were counted and those in [D] removed. *)
Record effect (params : BulkDeleteParams) (c : C) s s' (found D : list string) : Prop := {
  ef_has c' k : has s' c' k = true ↔ has s c' k = true ∧ ¬ (c' = c ∧ k ∈ D);
  ef_real k : k ∈ D → k ∈ found ∧ has s c k = true;
  ef_nodup : NoDup D;
  ef_matched : matched s' = matched s + js_len found;
  ef_deleted : deleted s ≤ deleted s' ≤ deleted s + js_len D;
  ef_len : js_len D ≤ js_len found;
  ef_dry : bp_mode params = dry_run → D = [];
  ef_truncated : truncated s = true → truncated s' = true;
  ef_cancelled : cancelled s = true → cancelled s' = true;
  ef_samples : js_len (samples s) ≤ Z.max 0 (bp_sampleLimit params) →
               js_len (samples s') ≤ Z.max 0 (bp_sampleLimit params);
  ef_all : bp_mode params = execute → deleted s' - deleted s = js_len found →
           ∀ k, k ∈ found → has s' c k = false
}.

Lemma unlink_effect c keys w :
  let '(r, w') := target_unlink c keys w in
  ∃ D, NoDup D ∧ js_len D ≤ js_len keys
    ∧ (∀ c' k, sl_has w' c' k = true ↔ sl_has w c' k = true ∧ ¬ (c' = c ∧ k ∈ D))
    ∧ (∀ k, k ∈ D → k ∈ keys ∧ sl_has w c k = true)
    ∧ ∀ n, r = Ok n → 0 ≤ n ≤ js_len D ∧ (n = js_len keys → ∀ k, k ∈ keys → sl_has w' c k = false).
Proof.
  assert (Ht : keys = [] ∨ target_unlink c keys w =
    match vc_unlink c keys w with
    | (Ok results, w') => (Ok (foldl (λ n r, n + removed_of r) 0 (default [] results)), w')
    | (Throw e, w') => (Throw e, w')
    end) by (destruct keys; [by left|by right]).
  destruct Ht as [->|Ht].
  { cbn. exists []. split; [constructor|]. split; [done|]. split.
    - intros c' k. split; [|naive_solver]. intros Hk. split; [done|].
      intros [_ Hin]. by apply not_elem_of_nil in Hin.
    - split; [intros k Hk; by apply not_elem_of_nil in Hk|]. intros n [= <-]. split; [done|].
      intros _ k Hk. by apply not_elem_of_nil in Hk. }
  rewrite Ht. clear Ht.
  pose proof (sl_unlink_others c keys w) as Hoth. pose proof (sl_unlink_only c keys w) as Honly.
  pose proof (sl_unlink_results c keys w) as Hres.
  destruct (vc_unlink c keys w) as [r w']. cbn [fst snd] in *.
  set (D := filter (λ k, sl_has w c k = true ∧ sl_has w' c k = false) (remove_dups keys)).
  assert (HD : ∀ k, k ∈ D ↔ k ∈ keys ∧ sl_has w c k = true ∧ sl_has w' c k = false).
  { intros k. unfold D. rewrite list_elem_of_filter, elem_of_remove_dups. naive_solver. }
  assert (Hnd : NoDup D) by apply NoDup_filter, NoDup_remove_dups.
  assert (Hlen : js_len D ≤ js_len keys).
  { unfold js_len. apply inj_le, submseteq_length, NoDup_submseteq; [done|]. intros k Hk. by apply HD. }
  assert (Hhas : ∀ c' k, sl_has w' c' k = true ↔ sl_has w c' k = true ∧ ¬ (c' = c ∧ k ∈ D)).
  { intros c' k. destruct (decide (c' = c)) as [->|Hne]; [|rewrite (Hoth c' k Hne); naive_solver].
    destruct (Honly k) as [Hdown Hkeep]. rewrite HD. split.
    - intros Hk. split; [by apply Hdown|]. intros (_ & _ & _ & ?). congruence.
    - intros [Hk Hno]. destruct (decide (k ∈ keys)) as [Hin|Hin]; [|by rewrite Hkeep].
      destruct (sl_has w' c k) eqn:Hk'; [done|]. exfalso. naive_solver. }
  assert (Hreal : ∀ k, k ∈ D → k ∈ keys ∧ sl_has w c k = true) by naive_solver.
  destruct r as [results|e]; [|by exists D].
  exists D. split; [done|]. split; [done|]. split; [done|]. split; [done|]. intros n [= <-].
  destruct results as [results|]; cbn [default from_option id foldl].
  - destruct (unlinked_count _ _ _ _ (Hres _ eq_refl)) as (D' & Hnd' & HD' & Hn & _ & Hall).
    split; [|done]. enough (js_len D' ≤ js_len D) by lia.
    unfold js_len. apply inj_le, submseteq_length, NoDup_submseteq; [done|].
    intros k Hk. apply HD. by apply HD'.
  - split; [unfold js_len; lia|]. intros Hz. destruct keys; [|done]. intros k Hk. by apply not_elem_of_nil in Hk.
Qed.

Lemma sample_bound params s keys :
  js_len (samples s) ≤ Z.max 0 (bp_sampleLimit params) →
  js_len (samples s ++ new_samples params (es_progress s) keys) ≤ Z.max 0 (bp_sampleLimit params).
Proof.
  unfold samples, new_samples, js_len. rewrite length_app, length_take. lia.
Qed.

Lemma act_effect params c i cursor keys s :
  let '(r, s') := act params c i cursor keys s in
  ∃ D, effect params c s s' keys D
    ∧ truncated s' = truncated s ∧ cancelled s' = cancelled s.
Proof.
  pose proof (unlink_effect c keys (es_world s)) as Hu.
  pose proof (sample_bound params s keys) as Hsamples. pose proof sl_sleep_keeps as Hsleep.
  unfold act, progress, gets, on_progress, on_world, modify, mbind, M_bind, mret, M_ret.
  destruct (decide (bp_mode params = execute)) as [Hx|Hx]; cbn [es_world es_progress].
  - destruct (target_unlink c keys (es_world s)) as [[n|e] w'].
    + destruct Hu as (D & Hnd & Hlen & Hhas & Hreal & Hn). destruct (Hn n eq_refl) as [Hcount Hall].
      destruct (_ && _); exists D; (split; [|done]); constructor; cbn; rewrite ?app_nil_r;
        try done; unfold has, matched, deleted; cbn; intros; rewrite ?Hsleep; try done; try lia.
      all: try (by rewrite Hx in * ). all: try (apply Hall; [lia|done]). all: try congruence.
    + destruct Hu as (D & Hnd & Hlen & Hhas & Hreal & _).
      exists D; (split; [|done]); constructor; cbn; rewrite ?app_nil_r;
        try done; unfold has, matched, deleted; cbn; try done; try lia; try congruence.
      { unfold js_len. lia. }
      intros _ Heq k Hk. unfold js_len in *. destruct keys; [by apply not_elem_of_nil in Hk|cbn in Heq; lia].
  - destruct (_ && _); exists []; (split; [|done]); constructor; cbn; rewrite ?app_nil_r;
      try done; unfold has, matched, deleted, js_len; cbn; intros; rewrite ?Hsleep; try done; try lia; try congruence.
  all: try (by constructor).
  all: try (by match goal with Hk : _ ∈ [] |- _ => apply not_elem_of_nil in Hk end).
  all: split; [|by intros [??]]; intros Hk; split; [done|]; intros [_ Hin]; by apply not_elem_of_nil in Hin.
Qed.

(** A step that touches no key *)
Lemma effect_idle params c s s' :
  (∀ c' k, has s' c' k = has s c' k) → matched s' = matched s → deleted s' = deleted s →
  samples s' = samples s → (truncated s = true → truncated s' = true) →
  (cancelled s = true → cancelled s' = true) → effect params c s s' [] [].
Proof.
  intros Hh Hm Hd Hs Ht Hc. constructor; try done; rewrite ?Hh, ?Hm, ?Hd, ?Hs; try done; unfold js_len; cbn; try lia.
  - intros c' k. rewrite Hh. split; [|by intros [??]]. intros Hk. split; [done|].
    intros [_ Hin]. by apply not_elem_of_nil in Hin.
  - intros k Hk. by apply not_elem_of_nil in Hk.
  - constructor.
  - intros _ _ k Hk. by apply not_elem_of_nil in Hk.
Qed.

(** A step before which nothing but flags and the world beside the keys changed *)
Lemma effect_after params c s s0 s' found D :
  (∀ c' k, has s0 c' k = has s c' k) → matched s0 = matched s → deleted s0 = deleted s →
  samples s0 = samples s → (truncated s = true → truncated s0 = true) →
  (cancelled s = true → cancelled s0 = true) →
  effect params c s0 s' found D → effect params c s s' found D.
Proof.
  intros Hh Hm Hd Hs Ht Hc [].
  constructor; rewrite <-?Hm, <-?Hd, <-?Hs; auto; intros; rewrite <-?Hh; auto.
Qed.

Definition unseen (c : C) (cursor k : string) : Prop := cursor = "0" ∨ sl_seen c cursor k = false.
Definition now_seen (c : C) (cursor k : string) : Prop := cursor = "0" ∨ sl_seen c cursor k = true.

(** One pass of the loop *)
Lemma one_batch_spec params c i cursor s :
  let '(r, s') := one_batch params c i cursor s in
  ∃ found D, effect params c s s' found D
    ∧ (∀ k, k ∈ found → sl_selects c (bp_match params) (bp_type params) k = true)
    ∧ (∀ m, bp_maxKeys params = Some m → matched s' ≤ Z.max (matched s) m)
    ∧ ∀ next, r = Ok next →
        (next.2 = true → truncated s' = true ∨ cancelled s' = true)
        ∧ (next.2 = false →
             (next.1 = "0" ∨ (sl_left c next.1 < sl_left c cursor)%nat)
             ∧ (truncated s' = false → ∀ k, has s c k = true →
                  sl_selects c (bp_match params) (bp_type params) k = true →
                  unseen c cursor k → now_seen c next.1 k → k ∈ found)).
Proof.
  unfold one_batch, progress, gets, on_progress, get_state, modify, mbind, M_bind.
  destruct (vc_cancelled (es_world s)).
  { exists [], []. split.
    { apply effect_idle; unfold truncated, cancelled; cbn; try done; intros ->; done. }
    split; [intros k Hk; by apply not_elem_of_nil in Hk|]. split; [unfold matched; cbn; intros; lia|].
    intros next [= <-]. split; [intros _; right|done]. unfold cancelled. cbn. by destruct (pg_cancelled _). }
  set (left := remaining params (es_progress s)).
  destruct (match left with Some n => n <=? 0 | None => false end) eqn:Hleft.
  { exists [], []. split.
    { apply effect_idle; unfold truncated, cancelled; cbn; try done; intros ->; done. }
    split; [intros k Hk; by apply not_elem_of_nil in Hk|]. split; [unfold matched; cbn; intros; lia|].
    intros next [= <-]. split; [intros _; left|done]. unfold truncated. cbn. by destruct (pg_truncated _). }
  unfold on_world at 1, target_scan, mbind, M_bind.
  pose proof (sl_scan_reply c cursor (bp_match params) (bp_count params) (bp_type params) (es_world s)) as Hreply.
  pose proof (sl_scan_keeps c (scan_args cursor (bp_match params) (bp_count params) (bp_type params)) (es_world s))
    as Hkeep.
  destruct (vc_scan c _ (es_world s)) as [[reply|e] w']; cbn [fst snd] in *.
  2:{ exists [], []. split; [by apply effect_idle|].
      split; [intros k Hk; by apply not_elem_of_nil in Hk|]. split; [unfold matched; cbn; intros; lia|done]. }
  destruct (Hreply reply eq_refl) as (cursor' & keys & -> & Hsel & Hcover & Hends). clear Hreply.
  destruct (cut_spec left keys) as (Hcap & Hcut & Hwhole).
  set (s1 := {| es_world := w'; es_progress := set_flags (over left keys) false (es_progress s) |}).
  assert (Ht1 : truncated s1 = truncated s || over left keys) by done.
  assert (Hcut' : ∀ m, bp_maxKeys params = Some m → js_len (cut left keys) ≤ m - matched s).
  { intros m Hm. unfold left, remaining, matched in *. rewrite Hm in *. cbn in *. apply Hcap; [done|].
    apply Z.leb_gt in Hleft. lia. }
  assert (Hseen : truncated s1 = false → ∀ k, has s c k = true →
            sl_selects c (bp_match params) (bp_type params) k = true →
            unseen c cursor k → now_seen c cursor' k → k ∈ cut left keys).
  { rewrite Ht1. intros [_ Hov]%orb_false_iff k Hk Hsk Hun Hnow. rewrite Hwhole by done. by apply Hcover. }
  unfold mret, M_ret. cbn [default from_option id fst snd es_world es_progress]. fold s1.
  destruct (cut left keys) as [|k0 l0] eqn:Hl.
  - cbn. exists [], []. split.
    { apply effect_idle; unfold truncated, cancelled; cbn; try done; intros ->; done. }
    split; [intros k Hk; by apply not_elem_of_nil in Hk|]. split; [unfold matched; cbn; intros; lia|].
    intros next [= <-]. cbn [fst snd]. split.
    + intros [Ht _]%andb_true_iff. by left.
    + intros _. split; [done|]. intros Ht. by apply Hseen.
  - rewrite <-Hl in *. clear Hl k0 l0.
    pose proof (act_effect params c i cursor' (cut left keys) s1) as Hact. cbn [es_progress] in *.
    destruct (act params c i cursor' (cut left keys) s1) as [[[]|e] s'];
      destruct Hact as (D & Heff & Ht' & Hc'); exists (cut left keys), D;
      (split; [apply (effect_after params c s s1); try done;
               [by rewrite Ht1; intros ->|unfold cancelled; cbn; by intros ->]|]);
      (split; [intros k Hk; by apply Hsel, Hcut|]);
      (split; [intros m Hm; specialize (Hcut' m Hm); rewrite (ef_matched _ _ _ _ _ _ Heff);
               change (matched s1) with (matched s); lia|]); [|done].
    intros next [= <-]. cbn [fst snd]. split.
    + intros [Ht _]%andb_true_iff. by left.
    + intros _. split; [done|]. rewrite Ht'. exact Hseen.
Qed.

(** What the steps of a run from [w0] over the nodes [cs] did so far: the pairs [D] of a node
    and a key are those removed. *)
Record walked (params : BulkDeleteParams) (cs : list C) (w0 : W) s (D : list (C * string)) : Prop := {
  wk_gone c k : has s c k = true ↔ sl_has w0 c k = true ∧ (c, k) ∉ D;
  wk_real c k : (c, k) ∈ D → c ∈ cs ∧ sl_has w0 c k = true
                  ∧ sl_selects c (bp_match params) (bp_type params) k = true;
  wk_nodup : NoDup D;
  wk_deleted : 0 ≤ deleted s ≤ js_len D;
  wk_matched : js_len D ≤ matched s;
  wk_cap m : bp_maxKeys params = Some m → matched s ≤ Z.max 0 m;
  wk_dry : bp_mode params = dry_run → D = [];
  wk_samples : js_len (samples s) ≤ Z.max 0 (bp_sampleLimit params)
}.

Lemma walked_step params cs w0 c s s' found D D1 :
  walked params cs w0 s D → effect params c s s' found D1 → c ∈ cs →
  (∀ k, k ∈ found → sl_selects c (bp_match params) (bp_type params) k = true) →
  (∀ m, bp_maxKeys params = Some m → matched s' ≤ Z.max (matched s) m) →
  walked params cs w0 s' (D ++ (pair c <$> D1)).
Proof.
  intros Hw He Hc Hsel Hcap. destruct Hw, He.
  assert (Hin : ∀ c' k, (c', k) ∈ (pair c <$> D1) ↔ c' = c ∧ k ∈ D1).
  { intros c' k. rewrite list_elem_of_fmap. naive_solver. }
  assert (Hlen1 : js_len (D ++ (pair c <$> D1)) = js_len D + js_len D1).
  { unfold js_len. rewrite length_app, length_fmap. lia. }
  constructor; rewrite ?Hlen1; try lia.
  - intros c' k. rewrite ef_has0, wk_gone0, elem_of_app, Hin. naive_solver.
  - intros c' k [Hk|Hk]%elem_of_app; [by apply wk_real0|]. apply Hin in Hk as [-> Hk].
    destruct (ef_real0 k Hk) as [Hf Hh]. split; [done|]. split; [by apply wk_gone0|by apply Hsel].
  - apply NoDup_app. split; [done|]. split; [|by apply NoDup_fmap_2; [intros ?? [= ->]|]].
    intros [c' k] Hk [-> Hk1]%Hin. destruct (ef_real0 k Hk1) as [_ Hh]. by apply wk_gone0 in Hh as [_ ?].
  - intros m Hm. specialize (Hcap m Hm). specialize (wk_cap0 m Hm). lia.
  - intros Hd. by rewrite wk_dry0, ef_dry0.
Qed.

Lemma walked_idle params cs w0 c s s' D :
  walked params cs w0 s D → effect params c s s' [] [] → walked params cs w0 s' D.
Proof.
  intros [] []. unfold js_len in ef_matched0. cbn in ef_matched0.
  constructor; auto; try lia.
  - intros c' k. rewrite ef_has0, wk_gone0. split; [naive_solver|]. intros Hk. split; [done|].
    intros [_ Hin]. by apply not_elem_of_nil in Hin.
  - unfold js_len in *. cbn in *. lia.
  - intros m Hm. specialize (wk_cap0 m Hm). lia.
Qed.

(** A relation that every pass and every note about the nodes keeps holds of a whole run. *)
Definition with_progress (f : BulkDeleteProgress → BulkDeleteProgress) s : EngineState W :=
  {| es_world := es_world s; es_progress := f (es_progress s) |}.
Definition keeps_counters (f : BulkDeleteProgress → BulkDeleteProgress) : Prop :=
  ∀ p, pg_matched (f p) = pg_matched p ∧ pg_deleted (f p) = pg_deleted p
       ∧ pg_truncated (f p) = pg_truncated p ∧ pg_cancelled (f p) = pg_cancelled p
       ∧ pg_sampleKeys (f p) = pg_sampleKeys p.

Section run.
Context (params : BulkDeleteParams) (cs : list C) (R : EngineState W → EngineState W → Prop).
Context `{!PreOrder R}.
Hypothesis R_batch : ∀ c i cursor s, c ∈ cs → R s (one_batch params c i cursor s).2.
Hypothesis R_note : ∀ f s, keeps_counters f → R s (with_progress f s).

Lemma walk_run fuel c i cursor s : c ∈ cs → R s (walk fuel params c i cursor s).2.
Proof using R_batch PreOrder0.
  intros Hc. revert cursor s. induction fuel as [|fuel IH]; intros cursor s; [reflexivity|].
  cbn [walk]. unfold mbind, M_bind. pose proof (R_batch c i cursor s Hc) as Hb.
  destruct (one_batch params c i cursor s) as [[[cursor' stop]|e] s']; cbn [fst snd] in *; [|done].
  destruct stop; [done|]. destruct (str_eqb cursor' "0"); [done|]. by etrans.
Qed.

Lemma walk_all_run fuel targets s :
  (∀ t, t ∈ targets → tg_client t ∈ cs) → R s (walk_all fuel params targets s).2.
Proof using All.
  revert s. induction targets as [|t targets IH]; intros s Ht; [reflexivity|].
  cbn [walk_all]. unfold progress, gets, on_progress, modify, mbind, M_bind.
  set (s1 := {| es_world := es_world s; es_progress := set_perNode _ _ |}).
  assert (H1 : R s s1) by by apply (R_note (set_perNode _)).
  pose proof (walk_run fuel (tg_client t) (length (pg_perNode (es_progress s))) "0" s1 (Ht t ltac:(by left)))
    as Hw.
  destruct (walk fuel params (tg_client t) _ "0" s1) as [[[[cursor stop]|]|e] s2]; cbn [fst snd] in *;
    [|by etrans..].
  set (s3 := {| es_world := es_world s2; es_progress := finish_node _ _ _ |}).
  assert (H3 : R s2 s3) by by apply (R_note (finish_node _ _)).
  assert (H13 : R s s3) by (etrans; [exact H1|]; by etrans).
  destruct stop; [done|]. etrans; [exact H13|]. apply IH. intros t' Ht'. apply Ht. by right.
Qed.

Lemma bulk_run fuel targets s :
  (∀ t, t ∈ targets → tg_client t ∈ cs) → R s (runBulkDelete fuel targets params s).2.
Proof using All.
  intros Ht. unfold runBulkDelete, on_progress, modify, mbind, M_bind.
  etrans; [apply (R_note (set_nodesTotal (js_len targets))); done|by apply walk_all_run].
Qed.
End run.

Lemma run_walked params w0 fuel targets s D :
  walked params (tg_client <$> targets) w0 s D →
  ∃ D', walked params (tg_client <$> targets) w0 (runBulkDelete fuel targets params s).2 D'.
Proof.
  intros Hw. refine (bulk_run params (tg_client <$> targets)
    (λ s s', ∀ D, walked params (tg_client <$> targets) w0 s D →
             ∃ D', walked params (tg_client <$> targets) w0 s' D') _ _ fuel targets s _ D Hw).
  - split; [by intros s1 D1; exists D1|]. intros s1 s2 s3 H1 H2 D1 Hs. destruct (H1 D1 Hs) as [D2 H12]. by apply (H2 D2).
  - intros c i cursor s1 Hc D1 Hs. pose proof (one_batch_spec params c i cursor s1) as Hb.
    destruct (one_batch params c i cursor s1) as [r s2]. destruct Hb as (found & D2 & He & Hsel & Hcap & _).
    eexists. by eapply walked_step.
  - intros f s1 Hf D1 Hs. exists D1. destruct (Hf (es_progress s1)) as (Hm & Hd & _ & _ & Hsa). destruct Hs.
    constructor; auto; unfold matched, deleted, samples in *; cbn; rewrite ?Hm, ?Hd, ?Hsa; auto.
  - intros t Ht. by apply list_elem_of_fmap_2.
Qed.

(** Keys only go, flags only rise, and the keys counted but not deleted only grow. *)
Record later s s' : Prop := {
  lt_has c k : has s' c k = true → has s c k = true;
  lt_truncated : truncated s = true → truncated s' = true;
  lt_cancelled : cancelled s = true → cancelled s' = true;
  lt_left : matched s - deleted s ≤ matched s' - deleted s'
}.
#[local] Instance later_preorder : PreOrder later.
Proof.
  split; [by intros s; constructor; [|..|lia]|].
  intros s1 s2 s3 [] []. constructor; auto. lia.
Qed.
Lemma effect_later params c s s' found D : effect params c s s' found D → later s s'.
Proof.
  intros []. constructor; auto; [|lia]. intros c' k Hk. by apply ef_has0 in Hk as [? _].
Qed.
Lemma batch_later params c i cursor s : later s (one_batch params c i cursor s).2.
Proof.
  pose proof (one_batch_spec params c i cursor s) as Hb.
  destruct (one_batch params c i cursor s) as [r s']. destruct Hb as (found & D & He & _).
  by eapply effect_later.
Qed.
Lemma note_later f s : keeps_counters f → later s (with_progress f s).
Proof.
  intros Hf. destruct (Hf (es_progress s)) as (Hm & Hd & Ht & Hc & _).
  constructor; unfold matched, deleted, truncated, cancelled; cbn; rewrite ?Hm, ?Hd, ?Ht, ?Hc; auto. lia.
Qed.
Lemma walk_later params fuel c i cursor s : later s (walk fuel params c i cursor s).2.
Proof.
  apply (walk_run params [c] later);
    [by intros; apply batch_later|by apply list_elem_of_singleton].
Qed.
Lemma walk_all_later params fuel targets s : later s (walk_all fuel params targets s).2.
Proof.
  apply (walk_all_run params (tg_client <$> targets) later);
    [by intros; apply batch_later|by intros; apply note_later|by intros t Ht; apply list_elem_of_fmap_2].
Qed.

(** The run that ends in [s'] deleted each key it counted, and was not stopped. *)
Definition unstopped s s' : Prop :=
  truncated s' = false ∧ cancelled s' = false ∧ matched s' - deleted s' ≤ matched s - deleted s.
Lemma unstopped_later s0 s1 s' : later s0 s1 → unstopped s0 s' → unstopped s1 s'.
Proof. intros [] (Ht & Hc & Hl). split; [done|]. split; [done|lia]. Qed.

Lemma walk_complete params fuel c i cursor s next s' :
  bp_mode params = execute →
  walk fuel params c i cursor s = (Ok (Some next), s') → unstopped s s' →
  next = ("0", false)
  ∧ ∀ k, sl_selects c (bp_match params) (bp_type params) k = true → unseen c cursor k →
         has s' c k = false.
Proof.
  intros Hx. revert cursor s. induction fuel as [|fuel IH]; intros cursor s; [done|].
  cbn [walk]. unfold mbind, M_bind. pose proof (one_batch_spec params c i cursor s) as Hb.
  pose proof (batch_later params c i cursor s) as Hlat.
  destruct (one_batch params c i cursor s) as [[[cursor' stop]|e] s1]; [|done]. cbn [fst snd] in *.
  destruct Hb as (found & D & He & _ & _ & Hnext). destruct (Hnext _ eq_refl) as [Hstop Hgo]. cbn [fst snd] in *.
  assert (Hdone : ∀ s2, later s1 s2 → unstopped s s2 → ∀ k,
            sl_selects c (bp_match params) (bp_type params) k = true → unseen c cursor k →
            truncated s1 = false → stop = false → now_seen c cursor' k → has s2 c k = false).
  { intros s2 [Hh _ _ Hl] (_ & _ & Hpend) k Hsel Hun Ht -> Hnow. destruct (has s2 c k) eqn:Hk; [|done].
    apply Hh in Hk. assert (Hk0 : has s c k = true) by (destruct Hlat; auto).
    destruct (Hgo eq_refl) as [_ Hcov]. specialize (Hcov Ht k Hk0 Hsel Hun Hnow).
    pose proof (ef_deleted _ _ _ _ _ _ He) as Hd. pose proof (ef_len _ _ _ _ _ _ He) as Hlen.
    pose proof (ef_matched _ _ _ _ _ _ He) as Hm.
    rewrite (ef_all _ _ _ _ _ _ He Hx) in Hk by (done || lia). done. }
  destruct stop.
  { intros [= <- <-] (Ht & Hc & _). destruct (Hstop eq_refl); congruence. }
  destruct (str_eqb cursor' "0") eqn:Hz.
  - apply bool_decide_eq_true in Hz as ->. intros [= <- <-] Hun. split; [done|].
    intros k Hsel Hk.
    apply (Hdone s1); [reflexivity|done|done|done|by destruct Hun|done|by left].
  - intros Hwalk Hun. pose proof (walk_later params fuel c i cursor' s1) as Hl2. unfold mret in *. rewrite Hwalk in Hl2. cbn in Hl2.
    destruct (IH cursor' s1 Hwalk (unstopped_later _ _ _ Hlat Hun)) as [Hnx Hrest]. split; [done|].
    intros k Hsel Hk. destruct (sl_seen c cursor' k) eqn:Hseen.
    + apply (Hdone s'); [done..| |done|by right]. destruct Hun as (Ht & _), Hl2.
      destruct (truncated s1); [|done]. by rewrite lt_truncated0 in Ht.
    + apply Hrest; [done|by right].
Qed.

Lemma batch_nodesDone n params c i cursor :
  preserves (λ s, pg_nodesDone (es_progress s) = n) (one_batch params c i cursor).
Proof.
  assert (Hw : ∀ A (m : M W string A), preserves (λ s, pg_nodesDone (es_progress s) = n) (on_world m)).
  { intros A m s Hs. unfold on_world. by destruct (m (es_world s)). }
  assert (Hp : ∀ f, (∀ p, pg_nodesDone (f p) = pg_nodesDone p) →
                    preserves (λ s : EngineState W, pg_nodesDone (es_progress s) = n) (on_progress f)).
  { intros f Hf. apply preserves_modify. intros s Hs. cbn. by rewrite Hf. }
  unfold one_batch, act, progress.
  repeat first [ apply preserves_ret | apply preserves_gets | apply Hw | apply Hp; done
               | apply preserves_bind; [|intros ?] | case_match | case_decide
               | apply (preserves_gets _ id) ].
Qed.
Lemma walk_nodesDone params fuel c i cursor s :
  pg_nodesDone (es_progress (walk fuel params c i cursor s).2) = pg_nodesDone (es_progress s).
Proof.
  assert (PreOrder (λ s s', pg_nodesDone (es_progress s') = pg_nodesDone (es_progress s))).
  { split; [done|]. intros s1 s2 s3 H1 H2. congruence. }
  apply (walk_run params [c] (λ s s', pg_nodesDone (es_progress s') = pg_nodesDone (es_progress s)));
    [intros c' i' cursor' s1 _; by apply batch_nodesDone|by apply list_elem_of_singleton].
Qed.

Lemma walk_all_complete params fuel targets s s' :
  bp_mode params = execute →
  walk_all fuel params targets s = (Ok true, s') → unstopped s s' →
  pg_nodesDone (es_progress s') = pg_nodesDone (es_progress s) + js_len targets
  ∧ ∀ t k, t ∈ targets → sl_selects (tg_client t) (bp_match params) (bp_type params) k = true →
           has s' (tg_client t) k = false.
Proof.
  intros Hx. revert s. induction targets as [|t targets IH]; intros s.
  { intros [= <-] _. split; [unfold js_len; cbn; lia|]. intros t k Ht. by apply not_elem_of_nil in Ht. }
  cbn [walk_all]. unfold progress, gets, on_progress, modify, mbind, M_bind.
  set (s1 := {| es_world := es_world s; es_progress := set_perNode _ _ |}).
  assert (H1 : later s s1) by by apply (note_later (set_perNode _)).
  pose proof (walk_later params fuel (tg_client t) (length (pg_perNode (es_progress s))) "0" s1) as Hl.
  pose proof (walk_complete params fuel (tg_client t) (length (pg_perNode (es_progress s))) "0" s1) as Hcomp.
  destruct (walk fuel params (tg_client t) _ "0" s1) as [[[[cursor stop]|]|e] s2] eqn:Hw; [|done..].
  cbn [fst snd] in *.
  set (s3 := {| es_world := es_world s2; es_progress := finish_node _ _ _ |}).
  assert (H3 : later s2 s3) by by apply (note_later (finish_node _ _)).
  intros Hrest Hun.
  assert (H3' : later s3 s').
  { destruct stop; [by injection Hrest as <-|]. pose proof (walk_all_later params fuel targets s3) as Hla.
    by rewrite Hrest in Hla. }
  assert (Hun2 : unstopped s1 s2).
  { destruct H1, Hl, H3, H3', Hun as (Ht & Hc & Hp). split; [|split; [|lia]].
    - destruct (truncated s2); [|done]. by rewrite lt_truncated3 in Ht by auto.
    - destruct (cancelled s2); [|done]. by rewrite lt_cancelled3 in Hc by auto. }
  destruct (Hcomp _ _ Hx eq_refl Hun2) as [[= -> ->] Hgone].
  assert (Hun3 : unstopped s3 s').
  { eapply unstopped_later, Hun. etrans; [exact H1|]. by etrans. }
  destruct (IH s3 Hrest Hun3) as [Hdone Hall]. split.
  - pose proof (walk_nodesDone params fuel (tg_client t) (length (pg_perNode (es_progress s))) "0" s1) as Hnd.
    rewrite Hw in Hnd. cbn in Hnd. rewrite Hdone. unfold s3, js_len.
    change (str_eqb "0" "0" && negb false) with true. cbn. rewrite Hnd. lia.
  - intros t' k [->|Ht']%elem_of_cons Hsel; [|by apply Hall].
    destruct (has s' (tg_client t) k) eqn:Hk; [|done].
    assert (Hk2 : has s2 (tg_client t) k = true) by (destruct H3, H3'; auto).
    rewrite Hgone in Hk2; [done|done|by left].
Qed.

Lemma walk_terminates params fuel c i cursor s :
  (sl_left c cursor < fuel)%nat → (walk fuel params c i cursor s).1 ≠ Ok None.
Proof.
  revert cursor s. induction fuel as [|fuel IH]; intros cursor s Hf; [lia|].
  cbn [walk]. unfold mbind, M_bind. pose proof (one_batch_spec params c i cursor s) as Hb.
  destruct (one_batch params c i cursor s) as [[[cursor' stop]|e] s1]; [|done].
  destruct Hb as (found & D & _ & _ & _ & Hnext). destruct (Hnext _ eq_refl) as [_ Hgo]. cbn [fst snd] in *.
  destruct stop; [done|]. destruct (str_eqb cursor' "0") eqn:Hz; [done|].
  apply IH. destruct (Hgo eq_refl) as [[->|Hlt] _]; [done|lia].
Qed.

(** ** Properties *)



(** a bulk delete ends.  With more fuel than SCAN needs calls from the start of each node,
    the run does not run out of it: it returns or it throws the error of a client. *)
Theorem bulk_delete_terminates params targets fuel s :
  (∀ t, t ∈ targets → (sl_left (tg_client t) "0" < fuel)%nat) →
  (runBulkDelete fuel targets params s).1 ≠ Ok false.
Proof.
  intros Hf. unfold runBulkDelete, on_progress, modify, mbind, M_bind.
  generalize {| es_world := es_world s; es_progress := set_nodesTotal (js_len targets) (es_progress s) |} as s1.
  induction targets as [|t targets IH]; intros s1; [done|].
  cbn [walk_all]. unfold progress, gets, on_progress, modify, mbind, M_bind.
  set (s2 := {| es_world := es_world s1; es_progress := set_perNode _ _ |}).
  pose proof (walk_terminates params fuel (tg_client t) (length (pg_perNode (es_progress s1))) "0" s2
                (Hf t ltac:(by left))) as Hw.
  destruct (walk fuel params (tg_client t) _ "0" s2) as [[[[cursor stop]|]|e] s3]; cbn [fst snd] in *; try done.
  destruct stop; [done|]. apply IH. intros t' Ht'. apply Hf. by right.
Qed.
End correctness.

(** *** The parameters of a request *)
Lemma clampInt_bounds value lo hi fallback :
  lo ≤ hi → lo ≤ fallback ≤ hi → lo ≤ clampInt value lo hi fallback ≤ hi.
Proof. intros Hb Hf. unfold clampInt. destruct value as [x|]; [destruct (is_finite x)|]; lia. Qed.

Lemma trunc_positive x : num_ltb (num_of_Z 0) x = true → 0 ≤ trunc x.
Proof.
  destruct x as [s|s| |s m e]; cbn; try lia. destruct s; [done|]. intros _.
  unfold floor_Z. apply Z.shiftl_nonneg. cbn. lia.
Qed.

Lemma str_forall_spec p s : str_forall p s = true ↔ ∀ i c, String.get i s = Some c → p c = true.
Proof.
  induction s as [|a s IH]; cbn; [split; [intros _ [] ? ?; done|done]|].
  rewrite andb_true_iff, IH. split.
  - intros [Ha Hs] [|i] c; cbn; [by intros [= <-]|apply Hs].
  - intros Hall. split; [by apply (Hall 0%nat)|]. intros i c. apply (Hall (S i)).
Qed.

Lemma str_forall_false p s :
  str_forall p s = false → ∃ i c, String.get i s = Some c ∧ p c = false.
Proof.
  induction s as [|a s IH]; cbn; [done|]. intros [Ha|Hs]%andb_false_iff; [by exists 0%nat, a|].
  destruct (IH Hs) as (i & c & Hc). by exists (S i), c.
Qed.

(** the guard of a bulk delete request.  Parameters that are accepted have a pattern that is
    not empty and, unless the caller confirmed it, one with a character other than a star; the
    batch size and the pause lie within their bounds, a dry run always has a cap, and a cap is
    never negative.  A request is refused exactly when its trimmed pattern is empty or consists
    of stars without confirmation. *)
Theorem bulk_delete_request_guard input mode :
  match normalizeBulkDeleteParams input mode with
  | Ok p =>
      bp_match p = trim (default EmptyString (bi_match input)) ∧ bp_match p ≠ EmptyString
      ∧ (bi_confirmDeleteAll input = false →
           ∃ i c, String.get i (bp_match p) = Some c ∧ c ≠ "*"%char)
      ∧ bp_mode p = mode ∧ 1 ≤ bp_count p ≤ 10000 ∧ 0 ≤ bp_batchPauseMs p ≤ 60000
      ∧ (mode = dry_run → ∃ m, bp_maxKeys p = Some m) ∧ (∀ m, bp_maxKeys p = Some m → 0 ≤ m)
  | Throw _ =>
      ∀ i c, String.get i (trim (default EmptyString (bi_match input))) = Some c → c = "*"%char
  end.
Proof.
  unfold normalizeBulkDeleteParams. set (p := trim _).
  destruct (is_empty p) eqn:Hempty.
  { destruct p; [|done]. intros i c. by destruct i. }
  destruct (matchesEverything p && negb (bi_confirmDeleteAll input)) eqn:Hguard.
  { apply andb_true_iff in Hguard as [Hall _]. unfold matchesEverything in Hall.
    apply andb_true_iff in Hall as [_ Hall]. intros i c Hc.
    apply (proj1 (str_forall_spec _ _) Hall) in Hc. by apply bool_decide_eq_true in Hc. }
  cbn. split; [done|]. split; [by intros Hp; rewrite Hp in Hempty|]. split; [|split; [done|]].
  { intros Hconf. rewrite Hconf, andb_true_r in Hguard. unfold matchesEverything in Hguard.
    rewrite Hempty in Hguard. apply str_forall_false in Hguard as (i & c & Hc & Hne).
    exists i, c. split; [done|]. by apply bool_decide_eq_false in Hne. }
  split; [by apply clampInt_bounds|]. split; [by apply clampInt_bounds|].
  unfold normalize_max, DEFAULT_PREVIEW_MAX_KEYS. split.
  - intros ->. destruct (bi_maxKeys input); [case_match|]; eauto.
  - destruct (bi_maxKeys input) as [x|].
    + destruct (is_finite x && num_ltb (num_of_Z 0) x) eqn:Hx.
      * apply andb_true_iff in Hx as [_ Hx]. intros m [= <-]. by apply trunc_positive.
      * destruct mode; [by intros m [= <-]|done].
    + destruct mode; [by intros m [= <-]|done].
Qed.

(** ** Instances *)

(** Two nodes that hold the keys of a fixed list, less those removed; an iteration returns the
    first two keys of the list and then the rest.  Patterns are prefixes, types are ignored. *)
Module Demo.
Definition slots : list string := ["user:1"; "session:1"; "user:2"; "user:3"].
Record World := { removed : list (bool * string); cancel : bool }.
Definition holds (w : World) (c : bool) (k : string) : bool :=
  js_includes k slots && negb (js_includes (c, k) (removed w)).
Definition selects (c : bool) (pattern : string) (type : option string) (k : string) : bool :=
  starts_with pattern k.
Definition part (cursor : string) : option (string * list string) :=
  if str_eqb cursor "0" then Some ("2", take 2 slots)
  else if str_eqb cursor "2" then Some ("0", drop 2 slots) else None.
Definition scan (c : bool) (args : list string) : M World string ScanReply := λ w,
  match args with
  | cursor :: _ :: pattern :: _ =>
      match part cursor with
      | Some (next, keys) =>
          (Ok (SR_array next (Some (js_filter (λ k, holds w c k && selects c pattern None k) keys))), w)
      | None => (Throw "ERR invalid cursor", w)
      end
  | _ => (Throw "ERR wrong number of arguments for 'scan' command", w)
  end.
Fixpoint unlink (c : bool) (ks : list string) (w : World)
    : list (option string * option Z) * World :=
  match ks with
  | [] => ([], w)
  | k :: ks =>
      let n := if holds w c k then 1 else 0 in
      let '(results, w') := unlink c ks {| removed := (c, k) :: removed w; cancel := cancel w |} in
      ((None, Some n) :: results, w')
  end.
#[global] Instance client : ValkeyClient World bool := {
  vc_scan := scan;
  vc_unlink c ks w := let '(results, w') := unlink c ks w in (Ok (Some results), w');
  vc_sleep _ w := w;
  vc_cancelled := cancel
}.

Lemma unlink_spec c ks w :
  unlinked ks (unlink c ks w).1 (holds w c) (holds (unlink c ks w).2 c)
  ∧ (∀ c' k, c' ≠ c → holds (unlink c ks w).2 c' k = holds w c' k)
  ∧ ∀ k, (holds (unlink c ks w).2 c k = true → holds w c k = true)
         ∧ (k ∉ ks → holds (unlink c ks w).2 c k = holds w c k).
Proof.
  revert w. induction ks as [|k ks IH]; intros w; cbn [unlink].
  { split; [by constructor|done]. }
  set (w1 := {| removed := (c, k) :: removed w; cancel := cancel w |}).
  assert (Hother : ∀ c' k', (c', k') ≠ (c, k) → holds w1 c' k' = holds w c' k').
  { intros c' k' Hne. unfold holds, js_includes. cbn. do 2 f_equal. apply bool_decide_ext.
    rewrite elem_of_cons. naive_solver. }
  assert (Hgone : holds w1 c k = false).
  { unfold holds, js_includes. cbn. rewrite (bool_decide_eq_true_2 ((c, k) ∈ _)) by by left.
    apply andb_false_r. }
  destruct (IH w1) as (Hu & Hc & Honly). destruct (unlink c ks w1) as [results w']. cbn [fst snd] in *.
  split; [|split].
  - econstructor; [exact Hgone| |exact Hu]. intros k' Hne. apply Hother. congruence.
  - intros c' k' Hne. rewrite Hc by done. apply Hother. congruence.
  - intros k'. destruct (Honly k') as [Hdown Hkeep]. split.
    + intros Hk'. apply Hdown in Hk'. destruct (decide (k' = k)) as [->|]; [congruence|].
      rewrite Hother in Hk' by congruence. done.
    + intros [Hne Hin]%not_elem_of_cons. rewrite Hkeep by done. apply Hother. congruence.
Qed.

#[local] Opaque slots.
#[global] Program Instance laws : ScanLaws World bool := {
  sl_has := holds;
  sl_selects := selects;
  sl_seen _ cursor k := str_eqb cursor "2" && js_includes k (take 2 slots);
  sl_left _ cursor := if str_eqb cursor "0" then 1%nat else 0%nat
}.
Next Obligation. done. Qed.
Next Obligation.
  intros c args w c' k. cbn. unfold scan. destruct args as [|a [|b [|d l]]]; try done.
  by destruct (part a) as [[]|].
Qed.
Next Obligation.
  intros c cursor pattern count type w reply. cbn. unfold part.
  destruct (str_eqb cursor "0") eqn:H0; [|destruct (str_eqb cursor "2") eqn:H2; [|done]];
    intros [= <-]; eexists _, _; (split; [reflexivity|]).
  - apply bool_decide_eq_true in H0 as ->. split; [|split].
    + intros k [[_ Hs]%andb_true_iff _]%js_filter_elem. done.
    + intros k Hk Hs _ [?|Hn]; [done|]. apply js_filter_elem. split; [by rewrite Hk|].
      by apply andb_true_iff in Hn as [_ ?%js_includes_true].
    + right. vm_compute. constructor.
  - apply bool_decide_eq_true in H2 as ->. split; [|split].
    + intros k [[_ Hs]%andb_true_iff _]%js_filter_elem. done.
    + intros k Hk Hs [?|Hn] _; [done|]. apply js_filter_elem. split; [by rewrite Hk|].
      apply andb_true_iff in Hk as [Hin%js_includes_true _].
      apply andb_false_iff in Hn as [?|Hn%js_includes_false]; [done|].
      rewrite <-(take_drop 2 slots) in Hin. by apply elem_of_app in Hin as [?|?]; [|done].
    + by left.
Qed.
Next Obligation.
  intros c ks w c' k Hne. cbn. destruct (unlink_spec c ks w) as (_ & Hc & _).
  destruct (unlink c ks w). by apply Hc.
Qed.
Next Obligation.
  intros c ks w k. cbn. destruct (unlink_spec c ks w) as (_ & _ & Ho).
  destruct (unlink c ks w). apply Ho.
Qed.
Next Obligation.
  intros c ks w results. cbn. destruct (unlink_spec c ks w) as (Hu & _).
  destruct (unlink c ks w). by intros [= <-].
Qed.

#[local] Transparent slots.

Definition params : BulkDeleteParams :=
  {| bp_match := "user:"; bp_type := None; bp_count := 2; bp_mode := execute; bp_maxKeys := None;
     bp_batchPauseMs := 10; bp_sampleLimit := 100 |}.
Definition targets : list (ScanTarget bool) :=
  [{| tg_name := "n1"; tg_client := false |}; {| tg_name := "n2"; tg_client := true |}].
Definition fresh : World := {| removed := []; cancel := false |}.
Definition start : EngineState World :=
  {| es_world := fresh; es_progress := createBulkDeleteProgress execute 0 |}.
#[global] Abbreviation run := (runBulkDelete 2 targets params start).
End Demo.


Lemma bulk_delete_terminates_witness : Demo.run.1 ≠ Ok false.
Proof.
  apply (bulk_delete_terminates Demo.params Demo.targets 2). intros t Ht. vm_compute. constructor.
Defined.

