(* ===== verification/BulkDeleteJobs.v ===== *)
(** * Bulk delete jobs

    [proprietary/bulk-delete/bulk-delete.service.ts] with the audit table of
    [memory.adapter.ts]: starting, cancelling, finishing and forgetting jobs, the targets of a
    run and the audit rows.  A job is an object of a heap that the map of the service and the
    running walk share; the events of [service_step] are what can happen between two awaits. *)
From S2P Require Export BulkDelete.
From stdpp Require Import options.

(** ** Definitions *)
Inductive BulkDeleteJobStatus := JS_running | JS_completed | JS_failed | JS_cancelled.
#[global] Instance BulkDeleteJobStatus_eq : EqDecision BulkDeleteJobStatus.
Proof. solve_decision. Defined.

Record SkippedNode := { sk_node : string; sk_error : string }.

Record BulkDeleteJob := {
  jb_id : string;
  jb_connectionId : string;
  jb_mode : BulkDeleteMode;
  jb_scope : BulkDeleteScope;
  jb_params : BulkDeleteParams;
  jb_progress : BulkDeleteProgress;
  jb_status : BulkDeleteJobStatus;
  jb_startedAt : Z;
  jb_completedAt : option Z;
  jb_error : option string;
  jb_cancelRequested : bool;
  jb_host : option string;
  jb_port : option Z;
  jb_skipped : list SkippedNode
}.
Definition set_job_progress (p : BulkDeleteProgress) (j : BulkDeleteJob) : BulkDeleteJob :=
  {| jb_id := jb_id j; jb_connectionId := jb_connectionId j; jb_mode := jb_mode j;
     jb_scope := jb_scope j; jb_params := jb_params j; jb_progress := p; jb_status := jb_status j;
     jb_startedAt := jb_startedAt j; jb_completedAt := jb_completedAt j; jb_error := jb_error j;
     jb_cancelRequested := jb_cancelRequested j; jb_host := jb_host j; jb_port := jb_port j;
     jb_skipped := jb_skipped j |}.
Definition set_skipped (l : list SkippedNode) (j : BulkDeleteJob) : BulkDeleteJob :=
  {| jb_id := jb_id j; jb_connectionId := jb_connectionId j; jb_mode := jb_mode j;
     jb_scope := jb_scope j; jb_params := jb_params j; jb_progress := jb_progress j;
     jb_status := jb_status j; jb_startedAt := jb_startedAt j; jb_completedAt := jb_completedAt j;
     jb_error := jb_error j; jb_cancelRequested := jb_cancelRequested j; jb_host := jb_host j;
     jb_port := jb_port j; jb_skipped := l |}.
Definition request_cancel (j : BulkDeleteJob) : BulkDeleteJob :=
  {| jb_id := jb_id j; jb_connectionId := jb_connectionId j; jb_mode := jb_mode j;
     jb_scope := jb_scope j; jb_params := jb_params j; jb_progress := jb_progress j;
     jb_status := jb_status j; jb_startedAt := jb_startedAt j; jb_completedAt := jb_completedAt j;
     jb_error := jb_error j; jb_cancelRequested := true; jb_host := jb_host j; jb_port := jb_port j;
     jb_skipped := jb_skipped j |}.
Definition settle_job (status : BulkDeleteJobStatus) (error : option string) (completedAt : Z)
    (j : BulkDeleteJob) : BulkDeleteJob :=
  {| jb_id := jb_id j; jb_connectionId := jb_connectionId j; jb_mode := jb_mode j;
     jb_scope := jb_scope j; jb_params := jb_params j; jb_progress := jb_progress j;
     jb_status := status; jb_startedAt := jb_startedAt j; jb_completedAt := Some completedAt;
     jb_error := error; jb_cancelRequested := jb_cancelRequested j; jb_host := jb_host j;
     jb_port := jb_port j; jb_skipped := jb_skipped j |}.

(** *** The audit table *)
Record StoredBulkDeleteAudit := {
  ba_id : string;
  ba_connectionId : string;
  ba_timestamp : Z;
  ba_completedAt : option Z;
  ba_status : BulkDeleteJobStatus;
  ba_match : string;
  ba_type : option string;
  ba_scope : BulkDeleteScope;
  ba_matched : Z;
  ba_deleted : Z;
  ba_batches : Z;
  ba_nodes : Z;
  ba_truncated : bool;
  ba_skippedNodes : list string;
  ba_error : option string;
  ba_sourceHost : option string;
  ba_sourcePort : option Z
}.
Definition audit_of (job : BulkDeleteJob) : StoredBulkDeleteAudit :=
  let p := jb_progress job in
  {| ba_id := jb_id job; ba_connectionId := jb_connectionId job; ba_timestamp := jb_startedAt job;
     ba_completedAt := jb_completedAt job; ba_status := jb_status job;
     ba_match := bp_match (jb_params job); ba_type := bp_type (jb_params job);
     ba_scope := jb_scope job; ba_matched := pg_matched p; ba_deleted := pg_deleted p;
     ba_batches := pg_batches p; ba_nodes := js_len (pg_perNode p);
     ba_truncated := pg_truncated p; ba_skippedNodes := sk_node <$> jb_skipped job;
     ba_error := jb_error job; ba_sourceHost := jb_host job; ba_sourcePort := jb_port job |}.

Definition saveBulkDeleteAudit (record : StoredBulkDeleteAudit) (rows : list StoredBulkDeleteAudit)
    : list StoredBulkDeleteAudit :=
  match js_find_index (λ r, str_eqb (ba_id r) (ba_id record)) rows with
  | Some i => <[i := record]> rows
  | None => rows ++ [record]
  end.
Definition truthy_time (o : option Z) (p : Z → bool) : bool :=
  match o with Some n => (n =? 0) || p n | None => true end.
Definition getBulkDeleteAudits (connectionId : option string) (startTime endTime limit : option Z)
    (rows : list StoredBulkDeleteAudit) : list StoredBulkDeleteAudit :=
  let filtered :=
    js_filter (λ r, match connectionId with
                    | Some ((String _ _) as c) => str_eqb (ba_connectionId r) c
                    | _ => true
                    end
                    && truthy_time startTime (λ t, t <=? ba_timestamp r)
                    && truthy_time endTime (λ t, ba_timestamp r <=? t)) rows in
  js_slice 0 (default 100 limit) (js_sort (by_desc ba_timestamp) filtered).
Definition interrupted (error : string) (completedAt : Z) (r : StoredBulkDeleteAudit)
    : StoredBulkDeleteAudit :=
  if decide (ba_status r = JS_running) then
    {| ba_id := ba_id r; ba_connectionId := ba_connectionId r; ba_timestamp := ba_timestamp r;
       ba_completedAt := Some completedAt; ba_status := JS_failed; ba_match := ba_match r;
       ba_type := ba_type r; ba_scope := ba_scope r; ba_matched := ba_matched r;
       ba_deleted := ba_deleted r; ba_batches := ba_batches r; ba_nodes := ba_nodes r;
       ba_truncated := ba_truncated r; ba_skippedNodes := ba_skippedNodes r;
       ba_error := Some error; ba_sourceHost := ba_sourceHost r;
       ba_sourcePort := ba_sourcePort r |}
  else r.
Definition markInterruptedBulkDeleteRuns (error : string) (completedAt : Z)
    (rows : list StoredBulkDeleteAudit) : Z * list StoredBulkDeleteAudit :=
  (js_len (js_filter (λ r, bool_decide (ba_status r = JS_running)) rows),
   interrupted error completedAt <$> rows).

(** *** The targets of a run *)
Inductive NodeRole := NR_master | NR_replica.
#[global] Instance NodeRole_eq : EqDecision NodeRole.
Proof. solve_decision. Defined.
Record DiscoveredNode := { dn_id : string; dn_address : string; dn_role : NodeRole }.

Section targets.
Context {C : Type}.
(** [clusterDiscovery.discoverNodes] and [getNodeConnection], and the client of the connection *)
Context (discovered : outcome string (list DiscoveredNode)).
Context (getNodeConnection : string → outcome string C) (client : C).

Definition discoverPrimaries : list DiscoveredNode :=
  match discovered with
  | Ok nodes => js_filter (λ n, bool_decide (dn_role n = NR_master)) nodes
  | Throw _ => []
  end.
Definition label_of (address : string) : string := default EmptyString (head (split_char "@" address)).
Definition add_primary (acc : list (ScanTarget C) * list SkippedNode) (primary : DiscoveredNode)
    : list (ScanTarget C) * list SkippedNode :=
  let label := label_of (dn_address primary) in
  match getNodeConnection (dn_id primary) with
  | Ok c => (acc.1 ++ [{| tg_name := label; tg_client := c |}], acc.2)
  | Throw message => (acc.1, acc.2 ++ [{| sk_node := label; sk_error := message |}])
  end.
Definition buildTargets (scope : BulkDeleteScope) : list (ScanTarget C) * list SkippedNode :=
  match scope, discoverPrimaries with
  | scope_cluster, (_ :: _) as primaries => foldl add_primary ([], []) primaries
  | _, _ => ([{| tg_name := "primary"; tg_client := client |}], [])
  end.
Definition no_targets_message (skipped : list SkippedNode) : string :=
  "No reachable nodes to scan (" +:+ string_of_Z (js_len skipped) +:+
  " primary node(s) unreachable)".
End targets.

(** *** The service *)
Definition JOB_TTL_MS : Z := 60 * 60 * 1000.
Definition MAX_JOBS : Z := 200.

(** Where the walk of a job is: in its body, waiting for the first audit write, or writing the
    last one *)
Inductive Phase := P_body | P_wait_first | P_last_write (record : StoredBulkDeleteAudit).
Record Service := {
  bs_heap : list (string * BulkDeleteJob);
  bs_jobs : list string;
  bs_runs : list (string * Phase);
  bs_firstWrites : list (string * StoredBulkDeleteAudit);
  bs_audits : list StoredBulkDeleteAudit
}.
Definition new_service (audits : list StoredBulkDeleteAudit) : Service :=
  {| bs_heap := []; bs_jobs := []; bs_runs := []; bs_firstWrites := []; bs_audits := audits |}.
Definition set_heap (h : list (string * BulkDeleteJob)) (s : Service) : Service :=
  {| bs_heap := h; bs_jobs := bs_jobs s; bs_runs := bs_runs s;
     bs_firstWrites := bs_firstWrites s; bs_audits := bs_audits s |}.
Definition set_jobs (l : list string) (s : Service) : Service :=
  {| bs_heap := bs_heap s; bs_jobs := l; bs_runs := bs_runs s;
     bs_firstWrites := bs_firstWrites s; bs_audits := bs_audits s |}.
Definition set_runs (m : list (string * Phase)) (s : Service) : Service :=
  {| bs_heap := bs_heap s; bs_jobs := bs_jobs s; bs_runs := m;
     bs_firstWrites := bs_firstWrites s; bs_audits := bs_audits s |}.
Definition set_firstWrites (m : list (string * StoredBulkDeleteAudit)) (s : Service) : Service :=
  {| bs_heap := bs_heap s; bs_jobs := bs_jobs s; bs_runs := bs_runs s;
     bs_firstWrites := m; bs_audits := bs_audits s |}.
Definition set_audits (l : list StoredBulkDeleteAudit) (s : Service) : Service :=
  {| bs_heap := bs_heap s; bs_jobs := bs_jobs s; bs_runs := bs_runs s;
     bs_firstWrites := bs_firstWrites s; bs_audits := l |}.

Definition job (id : string) (s : Service) : option BulkDeleteJob := jm_get id (bs_heap s).
Definition update_job (id : string) (f : BulkDeleteJob → BulkDeleteJob) (s : Service) : Service :=
  match job id s with
  | Some j => set_heap (jm_set id (f j) (bs_heap s)) s
  | None => s
  end.
(** The jobs of the map, in its order *)
Definition mapped_jobs (s : Service) : list BulkDeleteJob := omap (λ id, job id s) (bs_jobs s).

Definition expired (now : Z) (j : BulkDeleteJob) : bool :=
  match jb_completedAt j with Some t => JOB_TTL_MS <? now - t | None => false end.
Definition finished (j : BulkDeleteJob) : bool :=
  match jb_completedAt j with Some _ => true | None => false end.
Definition drop_job (l : list string) (j : BulkDeleteJob) : list string :=
  if js_len l <=? MAX_JOBS then l else js_filter (λ id, negb (str_eqb id (jb_id j))) l.
(** The ids [pruneJobs] keeps of a map [l] over the heap [h] *)
Definition kept_jobs (now : Z) (h : list (string * BulkDeleteJob)) (l : list string) : list string :=
  let kept := js_filter (λ id, match jm_get id h with Some j => negb (expired now j) | None => true end) l in
  if MAX_JOBS <? js_len kept then
    foldl drop_job kept
      (js_sort (by_asc (λ j, default 0 (jb_completedAt j)))
         (js_filter finished (omap (λ id, jm_get id h) kept)))
  else kept.
Definition pruneJobs (now : Z) (s : Service) : Service :=
  set_jobs (kept_jobs now (bs_heap s) (bs_jobs s)) s.

Definition findActiveJob (connectionId : string) (s : Service) : option BulkDeleteJob :=
  js_find (λ j, str_eqb (jb_connectionId j) connectionId && bool_decide (jb_status j = JS_running))
    (mapped_jobs s).
Definition conflict_message (id connectionId : string) : string :=
  "A bulk-delete job (" +:+ id +:+ ") is already running for connection '" +:+ connectionId +:+
  "'. Wait for it to finish or cancel it before starting another.".

(** The host and the port of a connection *)
Definition ConnectionConfig : Type := string * Z.
Definition new_job (connectionId : string) (input : BulkDeleteRequestInput) (mode : BulkDeleteMode)
    (params : BulkDeleteParams) (config : option ConnectionConfig) (id : string) (now : Z)
    : BulkDeleteJob :=
  {| jb_id := id; jb_connectionId := connectionId; jb_mode := mode;
     jb_scope := default scope_node (bi_scope input); jb_params := params;
     jb_progress := createBulkDeleteProgress mode 0; jb_status := JS_running;
     jb_startedAt := now; jb_completedAt := None; jb_error := None;
     jb_cancelRequested := false; jb_host := fst <$> config; jb_port := snd <$> config;
     jb_skipped := [] |}.
Definition map_job (id : string) (j : BulkDeleteJob) (s : Service) : Service :=
  set_jobs (bs_jobs s ++ [id]) (set_heap (jm_set id j (bs_heap s)) s).
(** The first audit write of an execute job, and the start of the body of its run *)
Definition first_write (id : string) (j : BulkDeleteJob) (s : Service) : Service :=
  if decide (jb_mode j = execute)
  then set_firstWrites (jm_set id (audit_of j) (bs_firstWrites s)) s else s.
Definition start_run (id : string) (s : Service) : Service :=
  set_runs (jm_set id P_body (bs_runs s)) s.
(** [registry] is what [connectionRegistry.get] does and [config] what [getConfig] returns; [id] is
    the new UUID.  The body of the run starts with the job. *)
Definition startJob (connectionId : string) (input : BulkDeleteRequestInput) (mode : BulkDeleteMode)
    (registry : outcome string unit) (config : option ConnectionConfig) (id : string) (now : Z)
    (s : Service) : outcome string string * Service :=
  match normalizeBulkDeleteParams input mode with
  | Throw e => (Throw e, s)
  | Ok params =>
      match registry with
      | Throw e => (Throw e, s)
      | Ok _ =>
          match findActiveJob connectionId s with
          | Some active => (Throw (conflict_message (jb_id active) connectionId), s)
          | None =>
              let j := new_job connectionId input mode params config id now in
              (Ok id, start_run id (first_write id j (pruneJobs now (map_job id j s))))
          end
      end
  end.

Definition getJob (jobId connectionId : string) (s : Service) : option BulkDeleteJob :=
  if js_includes jobId (bs_jobs s) then
    match job jobId s with
    | Some j => if str_eqb (jb_connectionId j) connectionId then Some j else None
    | None => None
    end
  else None.
Definition cancelJob (jobId connectionId : string) (s : Service) : option bool * Service :=
  match getJob jobId connectionId s with
  | None => (None, s)
  | Some j => if decide (jb_status j = JS_running) then (Some true, update_job jobId request_cancel s)
              else (Some false, s)
  end.

(** The end of the body of a run, with the outcome of the [try] block: the job settles, and an
    execute job writes its audit row once the first write is over. *)
Definition job_outcome (r : outcome string unit) (now : Z) (j : BulkDeleteJob) : BulkDeleteJob :=
  match r with
  | Ok _ => settle_job (if pg_cancelled (jb_progress j) then JS_cancelled else JS_completed) None now j
  | Throw e => settle_job JS_failed (Some e) now j
  end.
Definition last_write (id : string) (s : Service) : Service :=
  match job id s with
  | Some j => set_runs (jm_set id (P_last_write (audit_of j)) (bs_runs s)) s
  | None => s
  end.
Definition end_run (id : string) (now : Z) (s : Service) : Service :=
  pruneJobs now (set_runs (jm_delete id (bs_runs s)) s).
Definition body_ends (id : string) (r : outcome string unit) (now : Z) (s : Service) : Service :=
  match job id s with
  | None => s
  | Some j =>
      let s := update_job id (job_outcome r now) s in
      if decide (jb_mode j = execute) then
        if jm_has id (bs_firstWrites s) then set_runs (jm_set id P_wait_first (bs_runs s)) s
        else last_write id s
      else end_run id now s
  end.
(** An audit write settles; a write that fails is logged. *)
Definition land (ok : bool) (record : StoredBulkDeleteAudit) (s : Service) : Service :=
  if ok then set_audits (saveBulkDeleteAudit record (bs_audits s)) s else s.
Definition first_write_settles (id : string) (ok : bool) (s : Service) : Service :=
  match jm_get id (bs_firstWrites s) with
  | None => s
  | Some record =>
      let s := set_firstWrites (jm_delete id (bs_firstWrites s)) (land ok record s) in
      match jm_get id (bs_runs s) with
      | Some P_wait_first => last_write id s
      | _ => s
      end
  end.
Definition last_write_settles (id : string) (ok : bool) (now : Z) (s : Service) : Service :=
  match jm_get id (bs_runs s) with
  | Some (P_last_write record) => end_run id now (land ok record s)
  | _ => s
  end.

Definition interrupted_error : string := "Interrupted by monitor restart".
(** [onModuleInit] of a new process, whose storage call may fail *)
Definition onModuleInit (ok : bool) (now : Z) (audits : list StoredBulkDeleteAudit) : Service :=
  new_service (if ok then (markInterruptedBulkDeleteRuns interrupted_error now audits).2 else audits).

Section body.
Context {W C : Type} `{!ValkeyClient W C}.
(** The [try] block of [runJob] after the targets are built, and the progress it leaves *)
Definition run_body (fuel : nat) (targets : list (ScanTarget C)) (skipped : list SkippedNode)
    (j : BulkDeleteJob) (w : W) : outcome string bool * EngineState W :=
  let s := {| es_world := w;
              es_progress := set_nodesTotal (js_len targets) (jb_progress j) |} in
  if js_len targets =? 0 then (Throw (no_targets_message skipped), s)
  else runBulkDelete fuel targets (jb_params j) s.
End body.

(** ** Specification *)

(** What can happen between two awaits of a service that runs.  A new job has an id that no
    other has; while the body of a run is under way it writes its progress and the nodes it
    skipped. *)
Inductive service_step : Service → Service → Prop :=
  | step_start c input mode registry config id now s :
      job id s = None → id ∉ (ba_id <$> bs_audits s) →
      service_step s (startJob c input mode registry config id now s).2
  | step_cancel id c s : service_step s (cancelJob id c s).2
  | step_progress id p s :
      jm_get id (bs_runs s) = Some P_body →
      service_step s (update_job id (set_job_progress p) s)
  | step_skipped id l s :
      jm_get id (bs_runs s) = Some P_body → service_step s (update_job id (set_skipped l) s)
  | step_body_ends id r now s :
      jm_get id (bs_runs s) = Some P_body → service_step s (body_ends id r now s)
  | step_first_write id ok s : service_step s (first_write_settles id ok s)
  | step_last_write id ok now s : service_step s (last_write_settles id ok now s).

(** A process starts with the rows of the one before. *)
Inductive service_reachable : Service → Prop :=
  | reach_boot ok now audits :
      NoDup (ba_id <$> audits) → service_reachable (onModuleInit ok now audits)
  | reach_step s s' : service_reachable s → service_step s s' → service_reachable s'.

(** ** Lemmas *)
Definition running (j : BulkDeleteJob) : Prop := jb_status j = JS_running.

(** How the entries of one id fit together: the job [o], its phase, its first write *)
Inductive coherent (id : string) (s : Service) :
    option BulkDeleteJob → option Phase → option StoredBulkDeleteAudit → Prop :=
  | co_none : id ∉ bs_jobs s → coherent id s None None None
  | co_body j first :
      jb_id j = id → running j → jb_completedAt j = None → id ∈ bs_jobs s →
      match first with
      | Some r => ba_id r = id ∧ ba_status r = JS_running ∧ jb_mode j = execute
      | None => True
      end → coherent id s (Some j) (Some P_body) first
  | co_waiting j r :
      jb_id j = id → ¬ running j → finished j = true → ba_id r = id → ba_status r = JS_running →
      coherent id s (Some j) (Some P_wait_first) (Some r)
  | co_writing j :
      jb_id j = id → ¬ running j → finished j = true →
      coherent id s (Some j) (Some (P_last_write (audit_of j))) None
  | co_done j :
      jb_id j = id → ¬ running j → finished j = true → coherent id s (Some j) None None.

Record consistent (s : Service) : Prop := {
  cs_coherent id : coherent id s (job id s) (jm_get id (bs_runs s)) (jm_get id (bs_firstWrites s));
  cs_jobs : NoDup (bs_jobs s);
  cs_rows : NoDup (ba_id <$> bs_audits s);
  cs_row r j : r ∈ bs_audits s → job (ba_id r) s = Some j →
    ba_status r = JS_running ∨ (r = audit_of j ∧ jm_get (ba_id r) (bs_runs s) = None);
  cs_one id id' j j' : job id s = Some j → job id' s = Some j' → running j → running j' →
    jb_connectionId j = jb_connectionId j' → id = id'
}.

Lemma coherent_mono id s s' o p f :
  coherent id s o p f → (id ∈ bs_jobs s' → id ∈ bs_jobs s) →
  (∀ j, o = Some j → finished j = false → id ∈ bs_jobs s → id ∈ bs_jobs s') →
  coherent id s' o p f.
Proof.
  intros Hco Hdown Hup. destruct Hco; constructor; auto.
  apply (Hup j); [done| |done]. unfold finished. by match goal with H : jb_completedAt j = None |- _ => rewrite H end.
Qed.

Lemma coherent_id id s o p f j : coherent id s o p f → o = Some j → jb_id j = id.
Proof. by destruct 1; intros [= <-]. Qed.
Lemma coherent_body id s o f :
  coherent id s o (Some P_body) f →
  ∃ j, o = Some j ∧ jb_id j = id ∧ running j ∧ jb_completedAt j = None ∧ id ∈ bs_jobs s
       ∧ match f with
         | Some r => ba_id r = id ∧ ba_status r = JS_running ∧ jb_mode j = execute
         | None => True
         end.
Proof. inversion 1; subst. eauto 10. Qed.
Lemma coherent_first id s o p r :
  coherent id s o p (Some r) → ba_id r = id ∧ ∃ q, p = Some q.
Proof. inversion 1; subst; naive_solver. Qed.
Lemma coherent_running id s o p f j :
  coherent id s o p f → o = Some j → running j → p = Some P_body.
Proof. by destruct 1; intros [= <-]. Qed.

(** *** Forgetting jobs *)
Lemma drop_jobs_sub old l id : id ∈ foldl drop_job l old → id ∈ l.
Proof.
  revert l. induction old as [|j old IH]; intros l; [done|]. cbn. intros Hin%IH. unfold drop_job in Hin.
  destruct (js_len l <=? MAX_JOBS); [done|]. by apply js_filter_elem in Hin as [_ Hin].
Qed.
Lemma drop_jobs_keep old l id :
  id ∈ l → (∀ j, j ∈ old → jb_id j ≠ id) → id ∈ foldl drop_job l old.
Proof.
  revert l. induction old as [|j old IH]; intros l Hin Hold; [done|]. cbn. apply IH; [|intros j' Hj'; apply Hold; by right].
  unfold drop_job. destruct (js_len l <=? MAX_JOBS); [done|]. apply js_filter_elem. split; [|done].
  apply negb_true_iff, bool_decide_eq_false_2. intros ->. by apply (Hold j); [left|].
Qed.
Lemma drop_jobs_nodup old l : NoDup l → NoDup (foldl drop_job l old).
Proof.
  revert l. induction old as [|j old IH]; intros l Hl; [done|]. cbn. apply IH. unfold drop_job.
  destruct (js_len l <=? MAX_JOBS); [done|]. eapply sublist_NoDup; [exact Hl|apply js_filter_sublist].
Qed.

(** Pruning never forgets a job that is not finished. *)
Lemma kept_spec now h l :
  (∀ id, id ∈ kept_jobs now h l → id ∈ l) ∧ (NoDup l → NoDup (kept_jobs now h l))
  ∧ ((∀ id j, jm_get id h = Some j → jb_id j = id) →
     ∀ id j, jm_get id h = Some j → finished j = false → id ∈ l → id ∈ kept_jobs now h l).
Proof.
  unfold kept_jobs. set (kept := js_filter _ l).
  assert (Hsub : ∀ id, id ∈ kept → id ∈ l) by (intros id [_ ?]%js_filter_elem; done).
  assert (Hkeep : ∀ id j, jm_get id h = Some j → finished j = false → id ∈ l → id ∈ kept).
  { intros id j Hj Hf Hin. apply js_filter_elem. split; [|done]. rewrite Hj.
    unfold expired, finished in *. by destruct (jb_completedAt j). }
  assert (Hnd : NoDup l → NoDup kept).
  { intros H. eapply sublist_NoDup; [exact H|apply js_filter_sublist]. }
  cbv zeta. destruct (MAX_JOBS <? js_len kept); [|naive_solver].
  split; [|split].
  - intros id Hin. by eapply Hsub, drop_jobs_sub.
  - intros H. by apply drop_jobs_nodup, Hnd.
  - intros Hids id j Hj Hf Hin. apply drop_jobs_keep; [by eapply Hkeep|].
    intros j' Hj' Hid. rewrite js_sort_elem in Hj'. apply js_filter_elem in Hj' as [Hf' Hj'].
    apply list_elem_of_omap in Hj' as (id' & _ & Hid').
    rewrite (Hids id' j' Hid') in Hid. subst id'. congruence.
Qed.

Lemma prune_consistent now s : consistent s → consistent (pruneJobs now s).
Proof.
  intros []. destruct (kept_spec now (bs_heap s) (bs_jobs s)) as (Hsub & Hnd & Hkeep).
  constructor; auto. intros id. apply (coherent_mono id s); [apply cs_coherent0|apply Hsub|].
  intros j Ho Hfin Hin. apply Hkeep with j; try done.
  intros id' j' Ho'. by eapply coherent_id.
Qed.

(** A step that concerns one id *)
Lemma consistent_update id s s' :
  consistent s →
  (∀ id', id' ≠ id → job id' s' = job id' s ∧ jm_get id' (bs_runs s') = jm_get id' (bs_runs s)
     ∧ jm_get id' (bs_firstWrites s') = jm_get id' (bs_firstWrites s)
     ∧ (id' ∈ bs_jobs s' ↔ id' ∈ bs_jobs s)) →
  coherent id s' (job id s') (jm_get id (bs_runs s')) (jm_get id (bs_firstWrites s')) →
  NoDup (bs_jobs s') → NoDup (ba_id <$> bs_audits s') →
  (∀ r, r ∈ bs_audits s' → (ba_id r ≠ id ∧ r ∈ bs_audits s)
     ∨ (ba_id r = id ∧ ∀ j, job id s' = Some j →
          ba_status r = JS_running ∨ (r = audit_of j ∧ jm_get id (bs_runs s') = None))) →
  (∀ j id' j', job id s' = Some j → running j → id' ≠ id → job id' s = Some j' → running j' →
     jb_connectionId j ≠ jb_connectionId j') →
  consistent s'.
Proof.
  intros [] Hoth Hco Hnd Hrows Hrow Hone. constructor; auto.
  - intros id'. destruct (decide (id' = id)) as [->|Hne]; [done|].
    destruct (Hoth id' Hne) as (-> & -> & -> & Hj). apply (coherent_mono id' s); [done|naive_solver|naive_solver].
  - intros r j Hr Hj. destruct (Hrow r Hr) as [[Hne Hin]|[Heq Hall]].
    + destruct (Hoth _ Hne) as (Hj' & -> & _). rewrite Hj' in Hj. by apply cs_row0.
    + rewrite Heq in *. by apply Hall.
  - intros id1 id2 j1 j2 H1 H2 Hr1 Hr2 Hc.
    destruct (decide (id1 = id)) as [->|Hn1], (decide (id2 = id)) as [->|Hn2]; [done|..].
    + destruct (Hoth id2 Hn2) as (E & _). rewrite E in H2. by destruct (Hone j1 id2 j2 H1 Hr1 Hn2 H2 Hr2).
    + destruct (Hoth id1 Hn1) as (E & _). rewrite E in H1. by destruct (Hone j2 id1 j1 H2 Hr2 Hn1 H1 Hr1).
    + destruct (Hoth id1 Hn1) as (E1 & _), (Hoth id2 Hn2) as (E2 & _). rewrite E1 in H1. rewrite E2 in H2.
      by eapply cs_one0.
Qed.

Lemma find_active_none c s :
  findActiveJob c s = None → ∀ id j, id ∈ bs_jobs s → job id s = Some j → running j →
  jb_connectionId j ≠ c.
Proof.
  intros Hnone id j Hin Hj Hr Hc. unfold findActiveJob in Hnone.
  assert (Hm : j ∈ mapped_jobs s) by (unfold mapped_jobs; apply list_elem_of_omap; eauto).
  apply (proj1 (js_find_None _ _) Hnone) in Hm. unfold str_eqb in Hm. rewrite !bool_decide_eq_true_2 in Hm; done.
Qed.

Lemma consistent_running_mapped id j s :
  consistent s → job id s = Some j → running j → id ∈ bs_jobs s.
Proof.
  intros [] Hj Hr. specialize (cs_coherent0 id). rewrite Hj in *.
  pose proof (coherent_running _ _ _ _ _ _ cs_coherent0 eq_refl Hr) as Hp. rewrite Hp in *.
  apply coherent_body in cs_coherent0 as (j' & [= <-] & _ & _ & _ & ? & _). done.
Qed.

Lemma start_prune now id j s :
  start_run id (first_write id j (pruneJobs now s)) = pruneJobs now (start_run id (first_write id j s)).
Proof.
  unfold first_write. by case_decide.
Qed.

Lemma start_consistent c input mode registry config id now s :
  job id s = None → id ∉ (ba_id <$> bs_audits s) → consistent s →
  consistent (startJob c input mode registry config id now s).2.
Proof.
  intros Hfresh Hrow Hs. unfold startJob.
  destruct (normalizeBulkDeleteParams input mode) as [params|e]; [|done].
  destruct registry as [u|e]; [|done].
  destruct (findActiveJob c s) as [active|] eqn:Hact; [done|]. cbn [snd].
  set (j := new_job c input mode params config id now).
  rewrite start_prune. apply prune_consistent.
  pose proof (cs_coherent _ Hs id) as Hco. rewrite Hfresh in Hco.
  assert (Hnone : jm_get id (bs_runs s) = None ∧ jm_get id (bs_firstWrites s) = None ∧ id ∉ bs_jobs s)
    by by inversion Hco.
  destruct Hnone as (Hr & Hf & Hn).
  assert (Hj : bs_heap (start_run id (first_write id j (map_job id j s))) = jm_set id j (bs_heap s)
    ∧ bs_jobs (start_run id (first_write id j (map_job id j s))) = bs_jobs s ++ [id]
    ∧ bs_audits (start_run id (first_write id j (map_job id j s))) = bs_audits s
    ∧ bs_runs (start_run id (first_write id j (map_job id j s))) = jm_set id P_body (bs_runs s)
    ∧ (bs_firstWrites (start_run id (first_write id j (map_job id j s))) = bs_firstWrites s
       ∨ mode = execute ∧ bs_firstWrites (start_run id (first_write id j (map_job id j s)))
         = jm_set id (audit_of j) (bs_firstWrites s))).
  { unfold first_write. case_decide; cbn; split_and!; auto. }
  revert Hj. generalize (start_run id (first_write id j (map_job id j s))) as s'. intros s' (Hh & Hm & Ha & Hru & Hfw).
  assert (Hjob : ∀ id', job id' s' = if decide (id' = id) then Some j else job id' s)
    by (intros id'; unfold job; by rewrite Hh, jm_get_set).
  apply (consistent_update id s); [done| | | | | |].
  - intros id' Hne. rewrite Hjob, decide_False, Hru, jm_get_set_ne, Hm by done.
    split; [done|]. split; [done|]. split.
    + destruct Hfw as [->|[_ ->]]; [done|by rewrite jm_get_set_ne].
    + rewrite elem_of_app, list_elem_of_singleton. naive_solver.
  - rewrite Hjob, decide_True, Hru, jm_get_set_eq by done.
    constructor; try done; [rewrite Hm; apply elem_of_app; right; by left|].
    destruct Hfw as [->|[Hx ->]]; [by rewrite Hf|by rewrite jm_get_set_eq].
  - rewrite Hm. apply NoDup_app. split; [apply Hs|]. split; [|apply NoDup_singleton].
    intros id' Hin ->%list_elem_of_singleton. done.
  - rewrite Ha. apply Hs.
  - rewrite Ha. intros r Hin. left. split; [|done]. intros <-. apply Hrow. by apply list_elem_of_fmap_2.
  - intros j1 id' j' Hj1 Hrun Hne Hj' Hrun'. rewrite Hjob, decide_True in Hj1 by done. injection Hj1 as <-.
    intros Hc. eapply (find_active_none c s Hact id' j'); try done.
    by eapply consistent_running_mapped.
Qed.

Definition keeps_job (f : BulkDeleteJob → BulkDeleteJob) : Prop :=
  ∀ j, jb_id (f j) = jb_id j ∧ jb_connectionId (f j) = jb_connectionId j ∧ jb_status (f j) = jb_status j
       ∧ jb_completedAt (f j) = jb_completedAt j ∧ jb_mode (f j) = jb_mode j.

Lemma update_consistent id f s :
  keeps_job f → jm_get id (bs_runs s) = Some P_body → consistent s → consistent (update_job id f s).
Proof.
  intros Hf Hp Hs. pose proof (cs_coherent _ Hs id) as Hco. rewrite Hp in Hco.
  apply coherent_body in Hco as (j & Hj & Hid & Hr & Hc & Hin & Hfirst).
  destruct (Hf j) as (Fid & Fc & Fs & Ft & Fm).
  assert (Hu : update_job id f s = set_heap (jm_set id (f j) (bs_heap s)) s) by (unfold update_job; by rewrite Hj).
  rewrite Hu. assert (Hjob : ∀ id', job id' (set_heap (jm_set id (f j) (bs_heap s)) s)
                                    = if decide (id' = id) then Some (f j) else job id' s)
    by (intros id'; unfold job; cbn; by rewrite jm_get_set).
  apply (consistent_update id s); [done| | |apply Hs|apply Hs| |].
  - intros id' Hne. rewrite Hjob, decide_False by done. done.
  - rewrite Hjob, decide_True by done. cbn. rewrite Hp. constructor; unfold running in *; try congruence; [done|].
    destruct (jm_get id (bs_firstWrites s)); [|done]. by rewrite Fm.
  - cbn. intros r Hr'. destruct (decide (ba_id r = id)) as [Heq|Hne]; [|by left].
    right. split; [done|]. intros j' _. left.
    assert (Hjr : job (ba_id r) s = Some j) by (by rewrite Heq).
    destruct (cs_row _ Hs r j Hr' Hjr) as [?|[_ ?]]; [done|congruence].
  - intros j1 id' j' Hj1 _ Hne Hj' Hr'. rewrite Hjob, decide_True in Hj1 by done. injection Hj1 as <-.
    rewrite Fc. intros Heq. apply Hne. symmetry. by eapply (cs_one _ Hs).
Qed.

Lemma cancel_consistent id c s : consistent s → consistent (cancelJob id c s).2.
Proof.
  intros Hs. unfold cancelJob, getJob. destruct (js_includes id (bs_jobs s)); [|done].
  destruct (job id s) as [j|] eqn:Hj; [|done]. destruct (str_eqb _ _); [|done].
  case_decide as Hr; [|done]. cbn [snd]. apply update_consistent; [done| |done].
  by eapply coherent_running; [apply (cs_coherent _ Hs id)|exact Hj|].
Qed.

(** *** The audit table *)
Lemma find_index_none {A} (p : A → bool) l :
  js_find_index p l = None → ∀ x, x ∈ l → p x = false.
Proof.
  induction l as [|y l IH]; cbn; [intros _ x Hx; by apply not_elem_of_nil in Hx|].
  destruct (p y) eqn:Hy; [done|]. destruct (js_find_index p l); [done|].
  intros _ x [->|Hx]%elem_of_cons; [done|by apply IH].
Qed.
Lemma save_spec r rows :
  NoDup (ba_id <$> rows) →
  NoDup (ba_id <$> saveBulkDeleteAudit r rows)
  ∧ ∀ r', r' ∈ saveBulkDeleteAudit r rows ↔ r' = r ∨ (r' ∈ rows ∧ ba_id r' ≠ ba_id r).
Proof.
  intros Hnd. unfold saveBulkDeleteAudit.
  destruct (js_find_index (λ r', str_eqb (ba_id r') (ba_id r)) rows) as [i|] eqn:Hi.
  - apply js_find_index_Some in Hi as (r0 & Hr0 & Heq & _). apply bool_decide_eq_true in Heq.
    assert (Hids : ba_id <$> <[i:=r]> rows = ba_id <$> rows).
    { rewrite list_fmap_insert. apply list_insert_id. by rewrite list_lookup_fmap, Hr0, <-Heq. }
    rewrite Hids. split; [done|]. intros r'. rewrite !list_elem_of_lookup. split.
    + intros (k & Hk). apply list_lookup_insert_Some in Hk as [(<- & -> & _)|(Hne & Hk)]; [by left|].
      right. split; [by exists k|]. intros Hid. apply Hne.
      eapply (NoDup_lookup _ _ _ (ba_id r) Hnd); rewrite list_lookup_fmap; [by rewrite Hr0, <-Heq|by rewrite Hk, <-Hid].
    + intros [->|[(k & Hk) Hne]].
      * exists i. apply list_lookup_insert_eq. by eapply lookup_lt_Some.
      * exists k. rewrite list_lookup_insert_ne; [done|]. intros ->. congruence.
  - assert (Hno : ∀ r', r' ∈ rows → ba_id r' ≠ ba_id r).
    { intros r' Hr' Heq. pose proof (find_index_none _ _ Hi r' Hr') as Hn. by apply bool_decide_eq_false in Hn. }
    split.
    + rewrite fmap_app. apply NoDup_app. split; [done|]. split; [|apply NoDup_singleton].
      intros x Hx Hx'. apply list_elem_of_fmap in Hx as (r' & -> & Hr').
      apply list_elem_of_singleton in Hx'. by apply (Hno r').
    + intros r'. rewrite elem_of_app, list_elem_of_singleton. naive_solver.
Qed.

(** A record with the id of a job whose run is not over is written, and the phase moves on. *)
Lemma land_consistent id (ok : bool) record j p' s s' :
  consistent s → ba_id record = id → job id s = Some j →
  jm_get id (bs_runs s) ≠ None →
  bs_heap s' = bs_heap s → bs_jobs s' = bs_jobs s →
  bs_audits s' = (if ok then saveBulkDeleteAudit record (bs_audits s) else bs_audits s) →
  (∀ id', id' ≠ id → jm_get id' (bs_runs s') = jm_get id' (bs_runs s)
                     ∧ jm_get id' (bs_firstWrites s') = jm_get id' (bs_firstWrites s)) →
  jm_get id (bs_runs s') = p' →
  coherent id s (Some j) p' (jm_get id (bs_firstWrites s')) →
  (ba_status record = JS_running ∨ (record = audit_of j ∧ p' = None)) →
  consistent s'.
Proof.
  intros Hs Hid Hj Hrun Hh Hm Ha Hoth Hp' Hco Hrec.
  assert (Hjob : ∀ id', job id' s' = job id' s) by (intros id'; unfold job; by rewrite Hh).
  destruct (save_spec record (bs_audits s) (cs_rows _ Hs)) as [Hnd Hsave].
  apply (consistent_update id s); [done| | |by rewrite Hm; apply Hs|rewrite Ha; destruct ok; [done|apply Hs]| |].
  - intros id' Hne. rewrite Hjob, Hm. destruct (Hoth id' Hne) as [-> ->]. done.
  - rewrite Hjob, Hj, Hp'. apply (coherent_mono id s); [done|by rewrite Hm..].
  - assert (Hold : ∀ r, r ∈ bs_audits s → (ba_id r ≠ id ∧ r ∈ bs_audits s) ∨ (ba_id r = id ∧ ba_status r = JS_running)).
    { intros r Hr. destruct (decide (ba_id r = id)) as [Heq|Hne]; [|by left]. right. split; [done|].
      assert (Hjr : job (ba_id r) s = Some j) by (by rewrite Heq).
      destruct (cs_row _ Hs r j Hr Hjr) as [?|[_ Hn]]; [done|]. rewrite Heq in Hn. congruence. }
    rewrite Ha. intros r Hr. rewrite Hjob, Hj, Hp'. destruct ok.
    + apply Hsave in Hr as [->|[Hr Hne]]; [|left; rewrite <-Hid; done].
      right. split; [done|]. intros j' [= <-]. done.
    + destruct (Hold r Hr) as [?|[Heq Hst]]; [by left|]. right. split; [done|]. intros j' _. by left.
  - intros j1 id' j' Hj1 Hr1 Hne Hj' Hr'. rewrite Hjob, Hj in Hj1. injection Hj1 as <-.
    intros Heq. apply Hne. symmetry. by eapply (cs_one _ Hs).
Qed.

Lemma first_write_consistent id ok s : consistent s → consistent (first_write_settles id ok s).
Proof.
  intros Hs. unfold first_write_settles.
  destruct (jm_get id (bs_firstWrites s)) as [record|] eqn:Hf; [|done].
  pose proof (cs_coherent _ Hs id) as Hco. rewrite Hf in Hco.
  set (s1 := set_firstWrites _ (land ok record s)).
  assert (H1 : bs_heap s1 = bs_heap s ∧ bs_jobs s1 = bs_jobs s ∧ bs_runs s1 = bs_runs s
    ∧ bs_audits s1 = (if ok then saveBulkDeleteAudit record (bs_audits s) else bs_audits s)
    ∧ bs_firstWrites s1 = jm_delete id (bs_firstWrites s)) by (unfold s1, land; by destruct ok).
  clearbody s1. destruct H1 as (Hh & Hm & Hr & Ha & Hfw).
  assert (Hfid : jm_get id (bs_firstWrites s1) = None) by (by rewrite Hfw, jm_get_delete, decide_True).
  assert (Hfoth : ∀ id', id' ≠ id → jm_get id' (bs_firstWrites s1) = jm_get id' (bs_firstWrites s))
    by (intros id' Hne; by rewrite Hfw, jm_get_delete, decide_False).
  rewrite Hr.
  remember (jm_get id (bs_runs s)) as p eqn:Hp. remember (Some record) as f eqn:Hfe.
  remember (job id s) as o eqn:Ho. symmetry in Hp, Ho.
  destruct Hco as [|j first Hid Hrun Hc Hin Hfirst|j r Hid Hrun Hfin Hrid Hrst|j Hid Hrun Hfin|j Hid Hrun Hfin];
    simplify_eq.
  - destruct Hfirst as (Hrid & Hrst & _).
    apply (land_consistent (jb_id j) ok record j (Some P_body) s s1); try done; [congruence| |by rewrite Hr| |by left].
    + intros id' Hne. by rewrite Hr, Hfoth.
    + rewrite Hfid. by constructor.
  - unfold last_write, job. rewrite Hh. unfold job in Ho. rewrite Ho.
    apply (land_consistent (jb_id j) ok record j (Some (P_last_write (audit_of j))) s); try done;
      [congruence| |cbn; by rewrite jm_get_set_eq| |by left].
    + intros id' Hne. cbn. by rewrite jm_get_set_ne, Hr, Hfoth.
    + cbn. rewrite Hfid. by constructor.
Qed.

Lemma last_write_consistent id ok now s : consistent s → consistent (last_write_settles id ok now s).
Proof.
  intros Hs. unfold last_write_settles.
  destruct (jm_get id (bs_runs s)) as [[| |record]|] eqn:Hp; [done..| |done].
  pose proof (cs_coherent _ Hs id) as Hco. rewrite Hp in Hco.
  unfold end_run. apply prune_consistent.
  inversion Hco as [| | |j Hid Hrun Hfin Ho Hr Hf|]; subst record.
  apply (land_consistent (jb_id j) ok (audit_of j) j None s); try done; rewrite ?Hid; try done; [congruence|..].
  - by destruct ok.
  - by destruct ok.
  - by destruct ok.
  - intros id' Hne. cbn. rewrite jm_get_delete, decide_False by done. by destruct ok.
  - cbn. by rewrite jm_get_delete, decide_True.
  - destruct ok; cbn; rewrite <-Hf; by constructor.
  - by right.
Qed.

Lemma job_outcome_settles r now j :
  let j' := job_outcome r now j in
  jb_id j' = jb_id j ∧ jb_connectionId j' = jb_connectionId j ∧ jb_mode j' = jb_mode j
  ∧ ¬ running j' ∧ finished j' = true.
Proof. unfold job_outcome, running. destruct r; cbn; [by destruct (pg_cancelled _)|done]. Qed.

Lemma body_ends_consistent id r now s :
  jm_get id (bs_runs s) = Some P_body → consistent s → consistent (body_ends id r now s).
Proof.
  intros Hp Hs. pose proof (cs_coherent _ Hs id) as Hco. rewrite Hp in Hco.
  apply coherent_body in Hco as (j & Hj & Hid & Hr & Hc & Hin & Hfirst).
  unfold body_ends, update_job. rewrite Hj. set (j' := job_outcome r now j).
  destruct (job_outcome_settles r now j) as (Jid & Jc & Jm & Jr & Jf). fold j' in Jid, Jc, Jm, Jr, Jf.
  set (s1 := set_heap (jm_set id j' (bs_heap s)) s).
  assert (Hstep : ∀ s', bs_heap s' = bs_heap s1 → bs_jobs s' = bs_jobs s → bs_audits s' = bs_audits s →
    bs_firstWrites s' = bs_firstWrites s →
    (∀ id', id' ≠ id → jm_get id' (bs_runs s') = jm_get id' (bs_runs s)) →
    coherent id s' (Some j') (jm_get id (bs_runs s')) (jm_get id (bs_firstWrites s)) → consistent s').
  { intros s' Hh Hm Ha Hf Hoth Hco.
    assert (Hjob : ∀ id', job id' s' = if decide (id' = id) then Some j' else job id' s)
      by (intros id'; unfold job; rewrite Hh; cbn; by rewrite jm_get_set).
    apply (consistent_update id s); [done| | |by rewrite Hm; apply Hs|by rewrite Ha; apply Hs| |].
    - intros id' Hne. by rewrite Hjob, decide_False, Hoth, Hf, Hm by done.
    - by rewrite Hjob, decide_True, Hf by done.
    - rewrite Ha. intros r' Hr'. destruct (decide (ba_id r' = id)) as [Heq|Hne]; [|by left].
      right. split; [done|]. intros j1 _. left.
      assert (Hjr : job (ba_id r') s = Some j) by (by rewrite Heq).
      destruct (cs_row _ Hs r' j Hr' Hjr) as [?|[_ Hn]]; [done|]. rewrite Heq in Hn. congruence.
    - intros j1 id' j2 Hj1 Hr1 _ _ _. rewrite Hjob, decide_True in Hj1 by done. by injection Hj1 as <-. }
  destruct (decide (jb_mode j = execute)) as [Hx|Hx].
  - change (bs_firstWrites s1) with (bs_firstWrites s).
    destruct (jm_has id (bs_firstWrites s)) eqn:Hhas.
    + apply jm_has_spec in Hhas as [record Hrec]. rewrite Hrec in Hfirst. destruct Hfirst as (Hrid & Hrst & _).
      apply Hstep; try done.
      * intros id' Hne. cbn. by rewrite jm_get_set_ne.
      * rewrite Hrec. cbn. rewrite jm_get_set_eq. constructor; congruence.
    + apply jm_has_false in Hhas. unfold last_write, job. cbn. rewrite jm_get_set_eq.
      apply Hstep; try done.
      * intros id' Hne. cbn. by rewrite jm_get_set_ne.
      * rewrite Hhas. cbn. rewrite jm_get_set_eq. constructor; congruence.
  - unfold end_run. apply prune_consistent, Hstep; try done.
    + intros id' Hne. cbn [bs_runs set_runs]. by rewrite jm_get_delete, decide_False.
    + cbn [bs_runs set_runs]. change (bs_runs s1) with (bs_runs s). rewrite jm_get_delete, decide_True by done.
      destruct (jm_get id (bs_firstWrites s)); [by destruct Hfirst as (_ & _ & ?)|].
      constructor; congruence.
Qed.

Lemma boot_consistent ok now audits :
  NoDup (ba_id <$> audits) → consistent (onModuleInit ok now audits).
Proof.
  intros Hnd. constructor; cbn; try done.
  - intros id. constructor. apply not_elem_of_nil.
  - constructor.
  - destruct ok; [|done]. cbn. rewrite <-list_fmap_compose.
    erewrite list_fmap_ext; [exact Hnd|]. intros i r _. unfold interrupted. cbn. by case_decide.
Qed.

Lemma step_consistent s s' : service_step s s' → consistent s → consistent s'.
Proof.
  intros Hstep Hs. destruct Hstep; [by apply start_consistent|by apply cancel_consistent
    |by apply update_consistent..|by apply body_ends_consistent|by apply first_write_consistent
    |by apply last_write_consistent].
Qed.
Lemma reachable_consistent s : service_reachable s → consistent s.
Proof.
  induction 1 as [ok now audits Hnd|s s' _ IH Hstep]; [by apply boot_consistent|].
  by eapply step_consistent.
Qed.

(** *** What a finished job keeps *)
Lemma pruned_job now s id : job id (pruneJobs now s) = job id s.
Proof. done. Qed.

Lemma step_finished s s' id j :
  consistent s → service_step s s' → job id s = Some j → ¬ running j → job id s' = Some j.
Proof.
  intros Hs Hstep Hj Hr.
  assert (Hbody : ∀ id' f, jm_get id' (bs_runs s) = Some P_body → job id (update_job id' f s) = Some j).
  { intros id' f Hp. pose proof (cs_coherent _ Hs id') as Hco. rewrite Hp in Hco.
    apply coherent_body in Hco as (j' & Hj' & _ & Hr' & _). unfold update_job. rewrite Hj'.
    unfold job. cbn. rewrite jm_get_set_ne; [done|]. intros ->. congruence. }
  destruct Hstep as [c input mode registry config i now s Hf _|i c s|i p s Hp|i l s Hp|i r now s Hp|i ok s|i ok now s].
  - unfold startJob. destruct (normalizeBulkDeleteParams _ _); [|done]. destruct registry; [|done].
    destruct (findActiveJob _ _); [done|]. cbn [snd]. unfold first_write.
    case_decide; cbn; unfold job; cbn; rewrite jm_get_set_ne; try done; intros ->; congruence.
  - unfold cancelJob, getJob. destruct (js_includes _ _); [|done]. destruct (job i s) as [j'|] eqn:Hj'; [|done].
    destruct (str_eqb _ _); [|done]. case_decide as Hr'; [|done]. cbn [snd].
    apply Hbody. by eapply coherent_running; [apply (cs_coherent _ Hs i)|exact Hj'|].
  - by apply Hbody.
  - by apply Hbody.
  - specialize (Hbody i (job_outcome r now) Hp). unfold body_ends. destruct (job i s) as [j'|] eqn:Hj'; [|done].
    case_decide; [|exact Hbody]. destruct (jm_has _ _); [exact Hbody|]. unfold last_write.
    destruct (job i (update_job _ _ _)); exact Hbody.
  - unfold first_write_settles. destruct (jm_get i (bs_firstWrites s)); [|done].
    assert (Hl : ∀ s1, bs_heap s1 = bs_heap s → job id (last_write i s1) = Some j).
    { intros s1 Hh. unfold last_write, job. rewrite Hh.
      destruct (jm_get i (bs_heap s)); cbn; rewrite Hh; exact Hj. }
    destruct ok; cbn; destruct (jm_get i (bs_runs s)) as [[]|]; try done; by apply Hl.
  - unfold last_write_settles. destruct (jm_get i (bs_runs s)) as [[]|]; try done. by destruct ok.
Qed.

Lemma step_row s s' r j :
  consistent s → service_step s s' → r ∈ bs_audits s → job (ba_id r) s = Some j → ¬ running j →
  jm_get (ba_id r) (bs_runs s) = None →
  r ∈ bs_audits s' ∧ jm_get (ba_id r) (bs_runs s') = None.
Proof.
  intros Hs Hstep Hr Hj Hnr Hrun.
  assert (Hland : ∀ ok record s1, ba_id record ≠ ba_id r → bs_audits s1 = bs_audits s →
            r ∈ bs_audits (land ok record s1)).
  { intros ok record s1 Hne Ha. unfold land. destruct ok; cbn; rewrite Ha; [|done].
    apply (save_spec record (bs_audits s) (cs_rows _ Hs)). right. split; [done|congruence]. }
  assert (Hother : ∀ id p, jm_get id (bs_runs s) = Some p → ba_id r ≠ id)
    by (intros id p Hp Heq; congruence).
  destruct Hstep as [c input mode registry config i now s Hf _|i c s|i p s Hp|i l s Hp|i o now s Hp|i ok s|i ok now s].
  - unfold startJob. destruct (normalizeBulkDeleteParams _ _); [|done]. destruct registry; [|done].
    destruct (findActiveJob _ _); [done|]. cbn [snd]. unfold first_write.
    assert (Hne : ba_id r ≠ i) by (intros Heq; congruence).
    case_decide; cbn; by rewrite jm_get_set_ne.
  - unfold cancelJob. destruct (getJob _ _ _); [|done]. case_decide; [|done]. cbn [snd].
    unfold update_job. by destruct (job i s).
  - unfold update_job. by destruct (job i s).
  - unfold update_job. by destruct (job i s).
  - specialize (Hother i _ Hp). unfold body_ends. destruct (job i s) as [j'|] eqn:Hj'; [|done].
    assert (Hu : bs_audits (update_job i (job_outcome o now) s) = bs_audits s
                 ∧ bs_runs (update_job i (job_outcome o now) s) = bs_runs s)
      by (unfold update_job; by rewrite Hj').
    destruct Hu as [Hua Hur]. revert Hua Hur. generalize (update_job i (job_outcome o now) s) as s1. intros s1 Hua Hur.
    case_decide; [destruct (jm_has _ _)|].
    + cbn. by rewrite Hua, jm_get_set_ne, Hur.
    + unfold last_write. destruct (job i s1); cbn; [by rewrite Hua, jm_get_set_ne, Hur|by rewrite Hua, Hur].
    + unfold end_run. cbn [bs_audits bs_runs set_runs set_jobs pruneJobs]. by rewrite Hua, jm_get_delete, decide_False, Hur.
  - unfold first_write_settles. destruct (jm_get i (bs_firstWrites s)) as [record|] eqn:Hf; [|done].
    pose proof (cs_coherent _ Hs i) as Hco. rewrite Hf in Hco.
    apply coherent_first in Hco as [Hri (p & Hp)]. pose proof (Hother i p Hp) as Hne.
    assert (Hl : ∀ s1, r ∈ bs_audits s1 → bs_runs s1 = bs_runs s →
              r ∈ bs_audits (last_write i s1) ∧ jm_get (ba_id r) (bs_runs (last_write i s1)) = None).
    { intros s1 Hin Hruns. unfold last_write. destruct (job i s1); cbn; rewrite ?jm_get_set_ne, ?Hruns by done; done. }
    assert (H1 : r ∈ bs_audits (land ok record s)) by (apply Hland; [congruence|done]).
    assert (H2 : bs_runs (land ok record s) = bs_runs s) by (by destruct ok).
    cbn [bs_runs set_firstWrites]. rewrite H2.
    destruct (jm_get i (bs_runs s)) as [[]|]; try (by cbn; rewrite H2). by apply Hl.
  - unfold last_write_settles. destruct (jm_get i (bs_runs s)) as [[| |record]|] eqn:Hp; try done.
    pose proof (cs_coherent _ Hs i) as Hco. rewrite Hp in Hco.
    specialize (Hother i _ Hp).
    assert (Hri : ba_id record = i) by (by inversion Hco; subst).
    unfold end_run. cbn [bs_audits bs_runs set_runs set_jobs pruneJobs]. rewrite jm_get_delete, decide_False by done.
    split; [apply Hland; [congruence|done]|by destruct ok].
Qed.

(** ** Properties *)

(** C38: one walk per connection.  In every reachable state two runs whose bodies are under way
    belong to different connections; such a job is in the map, so that it can be polled and
    cancelled however many jobs were pruned, and any further request on its connection is
    refused without an effect. *)
Theorem one_walk_per_connection s id j :
  service_reachable s → job id s = Some j → jm_get id (bs_runs s) = Some P_body →
  getJob id (jb_connectionId j) s = Some j
  ∧ (∀ id' j', job id' s = Some j' → jm_get id' (bs_runs s) = Some P_body →
       jb_connectionId j' = jb_connectionId j → id' = id)
  ∧ ∀ input mode config new now params,
      normalizeBulkDeleteParams input mode = Ok params →
      startJob (jb_connectionId j) input mode (Ok tt) config new now s
      = (Throw (conflict_message id (jb_connectionId j)), s).
Proof.
  intros Hreach Hj Hp. pose proof (reachable_consistent s Hreach) as Hs.
  assert (Hbody : ∀ id' j', job id' s = Some j' → jm_get id' (bs_runs s) = Some P_body →
            running j' ∧ id' ∈ bs_jobs s).
  { intros id' j' Hj' Hp'. pose proof (cs_coherent _ Hs id') as Hco. rewrite Hp', Hj' in Hco.
    apply coherent_body in Hco as (? & [= <-] & _ & ? & _ & ? & _). done. }
  destruct (Hbody id j Hj Hp) as [Hrun Hin].
  assert (Hone : ∀ id' j', job id' s = Some j' → running j' → jb_connectionId j' = jb_connectionId j → id' = id).
  { intros id' j' Hj' Hr' Hc. by eapply (cs_one _ Hs). }
  split; [|split].
  - unfold getJob. assert (js_includes id (bs_jobs s) = true) as -> by (by apply js_includes_true).
    rewrite Hj. unfold str_eqb. by rewrite bool_decide_eq_true_2.
  - intros id' j' Hj' Hp' Hc. apply (Hone id' j'); try done. by apply (Hbody id' j').
  - intros input mode config new now params Hn. unfold startJob. rewrite Hn.
    destruct (findActiveJob (jb_connectionId j) s) as [active|] eqn:Hact.
    + apply js_find_Some in Hact as [Hpr Hm]. apply andb_true_iff in Hpr as [Hc Hst].
      apply bool_decide_eq_true in Hc, Hst. apply list_elem_of_omap in Hm as (id' & _ & Hid').
      pose proof (Hone id' active Hid' Hst Hc) as ->.
      by rewrite (coherent_id _ _ _ _ _ active (cs_coherent _ Hs id) Hid').
    + by destruct (find_active_none _ _ Hact id j Hin Hj Hrun).
Qed.

(** the audit trail is true and final.  A row of the table that belongs to a job and does
    not say running is the final record of that job: whatever happens later, to the job, to
    other jobs or to writes in flight, the row and the job stay as they are, and the row also
    survives a restart. *)
Theorem audit_trail_final s s' r j :
  service_reachable s → rtc service_step s s' → r ∈ bs_audits s → job (ba_id r) s = Some j →
  ba_status r ≠ JS_running →
  r = audit_of j ∧ finished j = true ∧ r ∈ bs_audits s' ∧ job (ba_id r) s' = Some j
  ∧ (∀ ok now, r ∈ bs_audits (onModuleInit ok now (bs_audits s'))).
Proof.
  intros Hreach Hsteps Hr Hj Hst. pose proof (reachable_consistent s Hreach) as Hs.
  destruct (cs_row _ Hs r j Hr Hj) as [?|[Heq Hrun]]; [done|].
  pose proof (cs_coherent _ Hs (ba_id r)) as Hco. rewrite Hj, Hrun in Hco.
  assert (Hfin : ¬ running j ∧ finished j = true) by (inversion Hco; naive_solver).
  destruct Hfin as [Hnr Hfin]. split; [done|]. split; [done|].
  assert (Hkeep : r ∈ bs_audits s' ∧ job (ba_id r) s' = Some j).
  { clear Hco Hreach. induction Hsteps as [s|s1 s2 s3 Hstep _ IH]; [done|].
    pose proof (step_consistent _ _ Hstep Hs) as Hs2.
    destruct (step_row _ _ r j Hs Hstep Hr Hj Hnr Hrun) as [Hr2 Hrun2].
    apply IH; try done. exact (step_finished _ _ _ j Hs Hstep Hj Hnr). }
  destruct Hkeep as [Hr' Hj']. split; [done|]. split; [done|].
  intros ok now. destruct ok; cbn; [|done]. apply list_elem_of_fmap. exists r. split; [|done].
  unfold interrupted. by rewrite decide_False.
Qed.

(** The last write of a job, when it succeeds, leaves its final record; a restart leaves no row
    that says running. *)
Lemma last_write_lands s id record now :
  service_reachable s → jm_get id (bs_runs s) = Some (P_last_write record) →
  ∃ j, job id s = Some j ∧ record = audit_of j ∧ ¬ running j
       ∧ record ∈ bs_audits (last_write_settles id true now s).
Proof.
  intros Hreach Hp. pose proof (reachable_consistent s Hreach) as Hs.
  pose proof (cs_coherent _ Hs id) as Hco. rewrite Hp in Hco.
  inversion Hco as [| | |j Hid Hrun Hfin Ho Hr Hf|]; subst record. exists j.
  split; [done|]. split; [done|]. split; [done|]. unfold last_write_settles. rewrite Hp. cbn.
  apply (save_spec (audit_of j) (bs_audits s) (cs_rows _ Hs)). by left.
Qed.
Lemma restart_closes_rows now audits r :
  r ∈ bs_audits (onModuleInit true now audits) → ba_status r ≠ JS_running.
Proof.
  cbn. intros Hr. apply list_elem_of_fmap in Hr as (r0 & -> & _). unfold interrupted. by case_decide.
Qed.

(** ** Instances *)
Definition demo_input : BulkDeleteRequestInput :=
  {| bi_match := Some "session:*"; bi_type := None; bi_count := None; bi_scope := None;
     bi_maxKeys := None; bi_batchPauseMs := None; bi_confirmDeleteAll := false |}.
Definition demo_start (id : string) (s : Service) : Service :=
  (startJob "c1" demo_input execute (Ok tt) (Some ("h", 6379)) id 1000 s).2.
Definition demo_s1 : Service := demo_start "j1" (new_service []).
Definition demo_s2 : Service :=
  last_write_settles "j1" true 3000
    (first_write_settles "j1" true (body_ends "j1" (Ok tt) 2000 demo_s1)).
Lemma demo_s1_reachable : service_reachable demo_s1.
Proof.
  apply (reach_step (new_service [])); [apply (reach_boot false 0 []); constructor|].
  apply step_start; [done|]. apply not_elem_of_nil.
Qed.
Lemma demo_s2_reachable : service_reachable demo_s2.
Proof.
  eapply reach_step; [|apply step_last_write]. eapply reach_step; [|apply step_first_write].
  eapply reach_step; [apply demo_s1_reachable|]. by apply step_body_ends.
Qed.

Lemma one_walk_per_connection_witness :
  (startJob "c1" demo_input dry_run (Ok tt) None "j2" 1500 demo_s1).1
  = Throw (conflict_message "j1" "c1").
Proof.
  destruct (job "j1" demo_s1) as [j|] eqn:Hj; [|vm_compute in Hj; discriminate].
  destruct (normalizeBulkDeleteParams demo_input dry_run) as [params|e] eqn:Hn;
    [|vm_compute in Hn; discriminate].
  destruct (one_walk_per_connection demo_s1 "j1" j demo_s1_reachable Hj eq_refl) as (_ & _ & Href).
  assert (Hc : jb_connectionId j = "c1") by (vm_compute in Hj; injection Hj as <-; reflexivity).
  rewrite Hc in Href. rewrite (Href demo_input dry_run None "j2" 1500 params Hn). reflexivity.
Defined.

Lemma audit_trail_final_witness :
  ∃ r, r ∈ bs_audits (demo_start "j2" demo_s2) ∧ ba_status r = JS_completed.
Proof.
  destruct (bs_audits demo_s2) as [|r rows] eqn:Hrows; [vm_compute in Hrows; discriminate|].
  destruct (job "j1" demo_s2) as [j|] eqn:Hj; [|vm_compute in Hj; discriminate].
  assert (Hr : ba_id r = "j1" ∧ ba_status r = JS_completed)
    by (vm_compute in Hrows; injection Hrows as <- _; split; reflexivity).
  destruct Hr as [Hid Hst].
  destruct (audit_trail_final demo_s2 (demo_start "j2" demo_s2) r j demo_s2_reachable) as (_ & _ & Hin & _).
  - apply rtc_once, step_start; [vm_compute; reflexivity|].
    intros Hin. vm_compute in Hin. apply list_elem_of_singleton in Hin. discriminate.
  - rewrite Hrows. left.
  - rewrite Hid. exact Hj.
  - rewrite Hst. discriminate.
  - exists r. split; [exact Hin|exact Hst].
Defined.
