(* ===== verification/MigrationKeys.v ===== *)
(** * Migrating one key

    [apps/api/src/migration/execution/type-handlers.ts]: a key is read from the source with
    the commands of its type, written to the target under a temporary name of the same hash
    slot and renamed over the final one together with its time to live.  The two servers are
    the interfaces [Source] and [Target]; values are the bytes the commands return. *)
From S2P Require Export JsString Hoare.
From stdpp Require Import options.

(** ** Definitions *)
Definition LARGE_KEY_THRESHOLD : Z := 10000.
Definition LIST_CHUNK : Z := 1000.
Definition STREAM_CHUNK : Z := 1000.

(** [s.indexOf(c)] and [s.indexOf(c, from)], in bytes *)
Fixpoint index_of (c : ascii) (s : string) : option nat :=
  match s with
  | EmptyString => None
  | String a s' => if ascii_dec a c then Some 0%nat else S <$> index_of c s'
  end.
Definition open_brace : ascii := "{".
Definition close_brace : ascii := "}".
(** The text from the first opening brace to the next closing one, both included *)
Definition brace_tag (s : string) : option string :=
  i ← index_of open_brace s;
  let rest := str_drop (S i) s in
  j ← index_of close_brace rest;
  if (0 <? j)%nat then Some (String open_brace (str_take (S j) rest)) else None.

(** [suffix] is [randomBytes(8).toString('hex')]. *)
Definition tempKey (suffix key : string) : option string :=
  match index_of open_brace key with
  | Some _ =>
      match brace_tag key with
      | Some tag => Some ("__betterdb_mig_" +:+ suffix +:+ ":" +:+ tag)
      | None => None
      end
  | None => Some ("__betterdb_mig_" +:+ suffix +:+ ":" +:+ String open_brace key +:+ "}")
  end.

(** What SCAN-like commands return: the next cursor and a page of elements *)
Definition Page (A : Type) : Type := string * list A.

(** The commands sent to the source.  HGETALL-like replies are flat lists. *)
Class Source (W : Type) := {
  so_get : string → M W string (option string);
  so_pttl : string → M W string Z;
  so_hlen : string → M W string Z;
  so_hscan : string → string → M W string (Page string);
  so_llen : string → M W string Z;
  so_lrange : string → Z → Z → M W string (list string);
  so_scard : string → M W string Z;
  so_smembers : string → M W string (list string);
  so_sscan : string → string → M W string (Page string);
  so_zcard : string → M W string Z;
  so_zrange : string → M W string (list string);
  so_zscan : string → string → M W string (Page string);
  so_xrange : string → string → M W string (list (string * list string))
}.
(** The commands sent to the target.  The pipeline of ZADDs resolves when the commands were sent;
    what each of them replied is dropped by the code. *)
Class Target (W : Type) := {
  tg_del : string → M W string unit;
  tg_set : string → string → option Z → M W string unit;
  tg_hset : string → list string → M W string unit;
  tg_rpush : string → list string → M W string unit;
  tg_llen : string → M W string Z;
  tg_sadd : string → list string → M W string unit;
  tg_zadds : string → list (string * string) → M W string unit;
  tg_xadd : string → string → list string → M W string unit;
  tg_rename : string → string → M W string unit;
  tg_pexpire : string → Z → M W string unit;
  tg_eval : string → string → Z → M W string unit
}.

Section handlers.
Context {W : Type} `{!Source W, !Target W}.

(** [RENAME_WITH_TTL_LUA], which [tg_eval] asks the target to run in one step *)
Definition rename_with_ttl (tmp key : string) (pttl : Z) : M W string unit :=
  tg_rename tmp key;;
  if 0 <? pttl then tg_pexpire key pttl
  else if (pttl =? -2) || (pttl =? 0) then tg_del key
  else mret tt.

Definition applyTtl (key : string) (pttl : Z) : M W string unit :=
  if 0 <? pttl then tg_pexpire key pttl
  else if (pttl =? -2) || (pttl =? 0) then tg_del key
  else mret tt.

(** [/NOSCRIPT|unknown command|DENIED|NOPERM/i.test(msg)] *)
Definition eval_blocked (msg : string) : bool :=
  let m := to_lower msg in
  includes "noscript" m || includes "unknown command" m || includes "denied" m
  || includes "noperm" m.
Definition atomicRenameWithTtl (tmp key : string) (pttl : Z) : M W string unit :=
  try_catch (tg_eval tmp key pttl) (λ e : string,
    if eval_blocked e then rename_with_ttl tmp key pttl else throw e).

(** The [catch] of each handler: the temporary key is deleted, best effort. *)
Definition drop_temp (tmp : option string) : M W string unit :=
  match tmp with
  | Some t => try_catch (tg_del t) (λ _ : string, mret tt)
  | None => mret tt
  end.
Definition guarded {A} (tmp : option string) (body : M W string A) : M W string A :=
  try_catch body (λ e : string, drop_temp tmp;; throw e).
Definition clear_target (tmp : option string) (key : string) : M W string unit :=
  match tmp with Some _ => mret tt | None => tg_del key end.
Definition write_key (tmp : option string) (key : string) : string := default key tmp.
Definition settle_ttl (tmp : option string) (key : string) : M W string unit :=
  so_pttl key ≫= λ pttl : Z,
  match tmp with
  | Some t => atomicRenameWithTtl t key pttl
  | None => applyTtl key pttl
  end.

(** A [do { ... } while (cursor !== '0')] over pages; [false] when the fuel runs out *)
Fixpoint scan_loop {A} (fuel : nat) (scan : string → M W string (Page A))
    (body : list A → M W string unit) (cursor : string) : M W string bool :=
  match fuel with
  | 0%nat => mret false
  | S fuel =>
      scan cursor ≫= λ page : Page A,
      match page.2 with [] => mret tt | items => body items end;;
      if str_eqb page.1 "0" then mret true else scan_loop fuel scan body page.1
  end.

(** Handlers return whether they wrote, [None] when a loop ran out of fuel. *)
Definition migrateString (key : string) : M W string (option bool) :=
  so_get key ≫= λ value : option string,
  so_pttl key ≫= λ pttl : Z,
  match value with
  | None => mret (Some false)
  | Some v =>
      if 0 <? pttl then tg_set key v (Some pttl);; mret (Some true)
      else if (pttl =? -2) || (pttl =? 0) then tg_del key;; mret (Some false)
      else tg_set key v None;; mret (Some true)
  end.

(** What follows a copy loop that ended or not *)
Definition settled (tmp : option string) (key : string) (ended : bool) : M W string (option bool) :=
  if ended then settle_ttl tmp key;; mret (Some true) else mret None.

Definition migrateHash (fuel : nat) (suffix key : string) : M W string (option bool) :=
  so_hlen key ≫= λ len : Z,
  if len =? 0 then mret (Some false)
  else
    let tmp := tempKey suffix key in
    guarded tmp
      (clear_target tmp key;;
       scan_loop fuel (so_hscan key) (tg_hset (write_key tmp key)) "0" ≫= settled tmp key).

(** [for (let start = 0; start < len; start += LIST_CHUNK)], which an empty reply ends *)
Fixpoint list_chunks (fuel : nat) (key writeKey : string) (start len : Z) : M W string bool :=
  if len <=? start then mret true
  else match fuel with
  | 0%nat => mret false
  | S fuel =>
      let stop := Z.min (start + LIST_CHUNK - 1) (len - 1) in
      so_lrange key start stop ≫= λ items : list string,
      match items with
      | [] => mret true
      | _ => tg_rpush writeKey items;; list_chunks fuel key writeKey (start + LIST_CHUNK) len
      end
  end.
Definition migrateList (suffix key : string) : M W string (option bool) :=
  so_llen key ≫= λ len : Z,
  if len =? 0 then mret (Some false)
  else
    let tmp := tempKey suffix key in
    guarded tmp
      (clear_target tmp key;;
       list_chunks (Z.to_nat len) key (write_key tmp key) 0 len ≫= settled tmp key).

Definition migrateSet (fuel : nat) (suffix key : string) : M W string (option bool) :=
  so_scard key ≫= λ card : Z,
  if card =? 0 then mret (Some false)
  else
    let tmp := tempKey suffix key in
    guarded tmp
      (clear_target tmp key;;
       if card <=? LARGE_KEY_THRESHOLD then
         so_smembers key ≫= λ members : list string,
         match members with
         | [] => drop_temp tmp;; mret (Some false)
         | _ => tg_sadd (write_key tmp key) members;; settled tmp key true
         end
       else scan_loop fuel (so_sscan key) (tg_sadd (write_key tmp key)) "0" ≫= settled tmp key).

(** [[member, score, ...]] as the arguments of the pipeline, score first *)
Fixpoint score_pairs (raw : list string) : list (string * string) :=
  match raw with
  | member :: score :: raw' => (score, member) :: score_pairs raw'
  | _ => []
  end.
Definition migrateZset (fuel : nat) (suffix key : string) : M W string (option bool) :=
  so_zcard key ≫= λ card : Z,
  if card =? 0 then mret (Some false)
  else
    let tmp := tempKey suffix key in
    guarded tmp
      (clear_target tmp key;;
       if card <=? LARGE_KEY_THRESHOLD then
         so_zrange key ≫= λ raw : list string,
         match raw with
         | [] => drop_temp tmp;; mret (Some false)
         | _ => tg_zadds (write_key tmp key) (score_pairs raw);; settled tmp key true
         end
       else
         scan_loop fuel (so_zscan key)
           (λ raw, tg_zadds (write_key tmp key) (score_pairs raw)) "0" ≫= settled tmp key).

(** The entries of a page in turn; the id of the last one *)
Fixpoint add_entries (writeKey : string) (entries : list (string * list string)) (lastId : string)
    : M W string string :=
  match entries with
  | [] => mret lastId
  | (id, fields) :: entries =>
      tg_xadd writeKey id fields;; add_entries writeKey entries id
  end.
(** [while (hasMore)]: whether an entry was written *)
Fixpoint stream_loop (fuel : nat) (key writeKey lastId : string) (wrote : bool)
    : M W string (option bool) :=
  match fuel with
  | 0%nat => mret None
  | S fuel =>
      let start := if str_eqb lastId "-" then "-" else String "(" lastId in
      so_xrange key start ≫= λ raw : list (string * list string),
      match raw with
      | [] => mret (Some wrote)
      | _ =>
          add_entries writeKey raw lastId ≫= λ lastId : string,
          if js_len raw <? STREAM_CHUNK then mret (Some true)
          else stream_loop fuel key writeKey lastId true
      end
  end.
Definition migrateStream (fuel : nat) (suffix key : string) : M W string (option bool) :=
  let tmp := tempKey suffix key in
  guarded tmp
    (clear_target tmp key;;
     stream_loop fuel key (write_key tmp key) "-" false ≫= λ wrote : option bool,
     match wrote with
     | Some true => settled tmp key true
     | _ => mret wrote
     end).

Record MigratedKey := {
  mk_key : string; mk_type : string; mk_ok : bool; mk_error : option string;
  mk_warning : option string
}.
Definition migrated (key type : string) (warning : option string) : MigratedKey :=
  {| mk_key := key; mk_type := type; mk_ok := true; mk_error := None; mk_warning := warning |}.
Definition failed (key type error : string) : MigratedKey :=
  {| mk_key := key; mk_type := type; mk_ok := false; mk_error := Some error; mk_warning := None |}.
Definition length_warning (migrated current : Z) : string :=
  "list length changed during migration (migrated: " +:+ string_of_Z migrated +:+
  ", current source: " +:+ string_of_Z current +:+ ")".
Definition list_check (key : string) : M W string (option string) :=
  try_catch
    (tg_llen key ≫= λ targetLen : Z, so_llen key ≫= λ sourceLen : Z,
     mret (if targetLen =? sourceLen then None else Some (length_warning targetLen sourceLen)))
    (λ _ : string, mret None).
Definition handler (fuel : nat) (suffix key type : string) : option (M W string (option bool)) :=
  if str_eqb type "string" then Some (migrateString key)
  else if str_eqb type "hash" then Some (migrateHash fuel suffix key)
  else if str_eqb type "list" then Some (migrateList suffix key)
  else if str_eqb type "set" then Some (migrateSet fuel suffix key)
  else if str_eqb type "zset" then Some (migrateZset fuel suffix key)
  else if str_eqb type "stream" then Some (migrateStream fuel suffix key)
  else None.
(** [None] when a loop ran out of fuel *)
Definition migrateKey (fuel : nat) (suffix key type : string) : M W string (option MigratedKey) :=
  match handler fuel suffix key type with
  | None => mret (Some (failed key type ("Unsupported type: " +:+ type)))
  | Some migrate =>
      try_catch
        (migrate ≫= λ wrote : option bool,
         match wrote with
         | None => mret None
         | Some wrote =>
             (if wrote && str_eqb type "list" then list_check key else mret None) ≫= λ warning,
             mret (Some (migrated key type warning))
         end)
        (λ e : string, mret (Some (failed key type e)))
  end.
End handlers.

(** ** Specification *)

(** *** Hash slots
    The server hashes the text between the first opening brace and the next closing one when
    there is any, the whole key otherwise. *)
Definition hash_tag (key : string) : string :=
  match index_of open_brace key with
  | Some i =>
      let rest := str_drop (S i) key in
      match index_of close_brace rest with
      | Some (S j) => str_take (S j) rest
      | _ => key
      end
  | None => key
  end.

(** *** The data of a server *)
Inductive Value :=
  | VString (s : string)
  | VHash (m : gmap string string)
  | VList (l : list string)
  | VSet (s : gset string)
  | VZset (m : gmap string string)
  | VStream (l : list (string * list string)).
(** [en_pttl]: the milliseconds to live of a key that expires *)
Record Entry := { en_value : Value; en_pttl : option Z }.
#[global] Instance Value_eq_dec : EqDecision Value.
Proof. solve_decision. Defined.
#[global] Instance Entry_eq_dec : EqDecision Entry.
Proof. solve_decision. Defined.
Abbreviation DB := (gmap string Entry).
Definition persistent (v : Value) : Entry := {| en_value := v; en_pttl := None |}.

Definition type_name (v : Value) : string :=
  match v with
  | VString _ => "string" | VHash _ => "hash" | VList _ => "list" | VSet _ => "set"
  | VZset _ => "zset" | VStream _ => "stream"
  end.
(** The elements of a collection as the commands transmit them *)
Definition field_value (fv : string * string) : list string := [fv.1; fv.2].
Definition elements (v : Value) : list (list string) :=
  match v with
  | VHash m | VZset m => field_value <$> map_to_list m
  | VSet s => (λ x, [x]) <$> base.elements s
  | _ => []
  end.
Definition collection (v : Value) : bool :=
  match v with VHash _ | VSet _ | VZset _ => true | _ => false end.

(** What a command that adds to a value makes of the one stored; [None]: it is of another type *)
Fixpoint pairs_of (flat : list string) : list (string * string) :=
  match flat with
  | x :: y :: flat => (x, y) :: pairs_of flat
  | _ => []
  end.
Definition put_pairs (l : list (string * string)) (m : gmap string string) : gmap string string :=
  foldl (λ m fv, <[fv.1 := fv.2]> m) m l.
Definition hset_value (fields : list string) (v : option Value) : option Value :=
  match v with
  | None => Some (VHash (put_pairs (pairs_of fields) ∅))
  | Some (VHash m) => Some (VHash (put_pairs (pairs_of fields) m))
  | _ => None
  end.
Definition sadd_value (members : list string) (v : option Value) : option Value :=
  match v with
  | None => Some (VSet (list_to_set members))
  | Some (VSet s) => Some (VSet (list_to_set members ∪ s))
  | _ => None
  end.
(** [canon] is the text the server keeps of a score. *)
Definition zadd_value (canon : string → string) (l : list (string * string)) (v : option Value)
    : option Value :=
  let l := (λ sm, (sm.2, canon sm.1)) <$> l in
  match v with
  | None => Some (VZset (put_pairs l ∅))
  | Some (VZset m) => Some (VZset (put_pairs l m))
  | _ => None
  end.
Definition rpush_value (items : list string) (v : option Value) : option Value :=
  match v with
  | None => Some (VList items)
  | Some (VList l) => Some (VList (l ++ items))
  | _ => None
  end.
Definition xadd_value (id : string) (fields : list string) (v : option Value) : option Value :=
  match v with
  | None => Some (VStream [(id, fields)])
  | Some (VStream l) => Some (VStream (l ++ [(id, fields)]))
  | _ => None
  end.

(** *** The effect of commands on the data of the target *)
Definition stored (key : string) (d : DB) : option Value := en_value <$> d !! key.
Definition added (f : option Value → option Value) (key : string) (d d' : DB) : Prop :=
  ∃ v, f (stored key d) = Some v
       ∧ d' = <[key := {| en_value := v; en_pttl := d !! key ≫= en_pttl |}]> d.
Definition was_set (key value : string) (pttl : option Z) (d d' : DB) : Prop :=
  d' = <[key := {| en_value := VString value; en_pttl := pttl |}]> d.
Definition deleted (key : string) (d d' : DB) : Prop := d' = delete key d.
Definition renamed (tmp key : string) (d d' : DB) : Prop :=
  ∃ e, d !! tmp = Some e ∧ d' = <[key := e]> (delete tmp d).
Definition expires (key : string) (pttl : Z) (d d' : DB) : Prop :=
  d' = alter (λ e, {| en_value := en_value e; en_pttl := Some pttl |}) key d.
Definition ttl_applied (key : string) (pttl : Z) (d d' : DB) : Prop :=
  if 0 <? pttl then expires key pttl d d'
  else if (pttl =? -2) || (pttl =? 0) then deleted key d d'
  else d' = d.
(** Only [key] can differ. *)
Definition only_at (key : string) (d d' : DB) : Prop := ∀ k, k ≠ key → d' !! k = d !! k.

(** What PTTL replies on an entry: time goes on between two commands. *)
Definition pttl_reply (e : option Entry) (p : Z) : Prop :=
  match e with
  | None => p = -2
  | Some e => match en_pttl e with
              | None => p = -1
              | Some t => p = -2 ∨ 0 ≤ p ≤ t
              end
  end.

(** *** The documented behaviour of the two servers

    The data of the source stays as it is while the key is copied.  A command that throws may
    have run all the same: an error of the connection does not tell.  The calls of a SCAN-like
    command from cursor 0 until it returns 0 visit every element of the collection, some of them
    perhaps twice: [sv_seen] tells the elements before a cursor, [sv_left] bounds the calls that
    follow.  Of a pipeline of ZADDs, which resolves also when commands fail, any may have run. *)
Class Servers (W : Type) := {
  sv_source : W → DB;
  sv_target : W → DB;
  sv_seen : DB → string → string → list string → bool;
  sv_left : DB → string → string → nat;
  sv_canon : string → string
}.
Section laws.
Context {W : Type} `{!Source W, !Target W, !Servers W}.

(** A command that only reads replies something in [P]. *)
Definition same_data (w w' : W) : Prop :=
  sv_source w' = sv_source w ∧ sv_target w' = sv_target w.
Definition reads {A} (m : M W string A) (P : W → A → Prop) : Prop :=
  ∀ w, wp m (λ a w', same_data w w' ∧ P w a) (λ _ w', same_data w w') w.
(** A reply to a question about the value of a key of the source *)
Definition asks {A} (m : M W string A) (key : string) (P : Value → A → Prop) : Prop :=
  reads m (λ w a, ∀ v, stored key (sv_source w) = Some v → P v a).
(** A command to the target does [step] or throws, and then perhaps did it. *)
Definition writes (m : M W string unit) (step : DB → DB → Prop) : Prop :=
  ∀ w, wp m (λ _ w', sv_source w' = sv_source w ∧ step (sv_target w) (sv_target w'))
            (λ _ w', sv_source w' = sv_source w
                     ∧ (sv_target w' = sv_target w ∨ step (sv_target w) (sv_target w'))) w.

(** A page of the elements of [v] from a cursor *)
Definition page_of (d : DB) (key cursor : string) (v : Value) (page : Page string) : Prop :=
  ∃ es, page.2 = concat es ∧ (∀ e, e ∈ es → e ∈ elements v)
    ∧ (∀ e, e ∈ elements v → (cursor = "0" ∨ sv_seen d key cursor e = false) →
         (page.1 = "0" ∨ sv_seen d key page.1 e = true) → e ∈ es)
    ∧ (page.1 = "0" ∨ (sv_left d key page.1 < sv_left d key cursor)%nat).
Definition pages (m : M W string (Page string)) (key cursor : string) : Prop :=
  reads m (λ w r, ∀ v, stored key (sv_source w) = Some v → page_of (sv_source w) key cursor v r).
Definition size_reply (v : Value) (n : Z) : Prop :=
  collection v = true → n = js_len (elements v).
(** [XRANGE key - + COUNT 1000] and [XRANGE key (id + COUNT 1000] *)
Definition first_entries (v : Value) (r : list (string * list string)) : Prop :=
  ∀ l, v = VStream l → r = take (Z.to_nat STREAM_CHUNK) l.
Definition entries_after (id : string) (v : Value) (r : list (string * list string)) : Prop :=
  ∀ pre fields post, v = VStream (pre ++ (id, fields) :: post) → NoDup (pre ++ (id, fields) :: post).*1 →
    r = take (Z.to_nat STREAM_CHUNK) post.
(** Of the commands of a pipeline, the ones in [sub] ran. *)
Definition zadded (key : string) (l : list (string * string)) (d d' : DB) : Prop :=
  ∃ sub, sub `sublist_of` l
    ∧ (d' = d ∨ added (zadd_value sv_canon sub) key d d').

Class ServerLaws := {
  sv_get k : asks (so_get k) k (λ v r, ∀ s, v = VString s → r = Some s);
  sv_pttl k : reads (so_pttl k) (λ w p, pttl_reply (sv_source w !! k) p);
  sv_hlen k : asks (so_hlen k) k size_reply;
  sv_scard k : asks (so_scard k) k size_reply;
  sv_zcard k : asks (so_zcard k) k size_reply;
  sv_llen k : asks (so_llen k) k (λ v n, ∀ l, v = VList l → n = js_len l);
  sv_lrange k a b : 0 ≤ a → a ≤ b →
    asks (so_lrange k a b) k (λ v r, ∀ l, v = VList l →
      r = take (Z.to_nat (b - a + 1)) (drop (Z.to_nat a) l));
  sv_smembers k : asks (so_smembers k) k (λ v r, ∃ es, r = concat es ∧ es ≡ₚ elements v);
  sv_zrange k : asks (so_zrange k) k (λ v r, ∃ es, r = concat es ∧ es ≡ₚ elements v);
  sv_hscan k c : pages (so_hscan k c) k c;
  sv_sscan k c : pages (so_sscan k c) k c;
  sv_zscan k c : pages (so_zscan k c) k c;
  sv_xrange k : asks (so_xrange k "-") k first_entries;
  sv_xrange_after k id : asks (so_xrange k (String "(" id)) k (entries_after id);
  sv_tlen k : reads (tg_llen k) (λ _ _, True);
  sv_del k : writes (tg_del k) (deleted k);
  sv_set k v t : writes (tg_set k v t) (was_set k v t);
  sv_hset k args : args ≠ [] → writes (tg_hset k args) (added (hset_value args) k);
  sv_rpush k args : args ≠ [] → writes (tg_rpush k args) (added (rpush_value args) k);
  sv_sadd k args : args ≠ [] → writes (tg_sadd k args) (added (sadd_value args) k);
  sv_zadds k args : writes (tg_zadds k args) (zadded k args);
  sv_xadd k id fields : writes (tg_xadd k id fields) (added (xadd_value id fields) k);
  sv_rename tmp k : writes (tg_rename tmp k) (renamed tmp k);
  sv_pexpire k t : writes (tg_pexpire k t) (expires k t);
  sv_eval tmp k t : writes (tg_eval tmp k t)
    (λ d d', ∃ d1, renamed tmp k d d1 ∧ ttl_applied k t d1 d')
}.
(** No command of a pipeline fails on a key of the right type. *)
Class PipelinesRun := {
  sv_zadds_all k args w :
    args ≠ [] → is_Some (zadd_value sv_canon args (stored k (sv_target w))) →
    wp (tg_zadds k args)
      (λ _ w', sv_source w' = sv_source w
               ∧ added (zadd_value sv_canon args) k (sv_target w) (sv_target w'))
      (λ _ _, True) w
}.

(** What the source holds under [key]: an entry as a server stores it.  A stream can be empty;
    such a key is not copied. *)
Definition well_formed (v : Value) : Prop :=
  match v with
  | VString _ => True
  | VHash m => m ≠ ∅
  | VList l => l ≠ []
  | VSet s => s ≠ ∅
  | VZset m => m ≠ ∅ ∧ ∀ x score, m !! x = Some score → sv_canon score = score
  | VStream l => l ≠ [] ∧ NoDup l.*1 ∧ "-" ∉ l.*1
  end.
(** [fuel] is enough for the loop that copies [v]. *)
Definition enough (fuel : nat) (d : DB) (key : string) (v : Value) : Prop :=
  match v with
  | VStream l => (length l / Z.to_nat STREAM_CHUNK < fuel)%nat
  | _ => (sv_left d key "0" < fuel)%nat
  end.
End laws.
Arguments ServerLaws W {_ _ _}.
Arguments PipelinesRun W {_ _}.

(** The entry that a complete copy of [e] is: its time to live goes on, and it can be over. *)
Definition arrived (e : Entry) (o : option Entry) : Prop :=
  match en_pttl e with
  | None => o = Some e
  | Some t => o = None
              ∨ ∃ p, 0 < p ≤ t ∧ o = Some {| en_value := en_value e; en_pttl := Some p |}
  end.
(** All of [e] or nothing of it *)
Definition whole (e : Entry) (old now : option Entry) : Prop :=
  now = old ∨ now = None ∨ ∃ p, now = Some {| en_value := en_value e; en_pttl := p |}.

(** ** Lemmas *)

(** *** Collections *)
Definition elems (o : option Value) : list (list string) :=
  match o with Some u => elements u | None => [] end.
Definition part_of (o : option Value) (v : Value) : Prop :=
  match o with
  | Some u => type_name u = type_name v ∧ ∀ x, x ∈ elements u → x ∈ elements v
  | None => True
  end.

Lemma field_value_inj : Inj (=) (=) field_value.
Proof. by intros [??] [??] [= -> ->]. Qed.
Lemma elem_of_pairs (m : gmap string string) f x :
  ([f; x] ∈ (field_value <$> map_to_list m)) ↔ m !! f = Some x.
Proof.
  change [f; x] with (field_value (f, x)).
  split; [intros (p & Hp & Hin)%list_elem_of_fmap|intros ?].
  - apply field_value_inj in Hp as <-. by apply elem_of_map_to_list.
  - by apply list_elem_of_fmap_2, elem_of_map_to_list.
Qed.
Lemma elem_of_singles (s : gset string) x : ([x] ∈ ((λ y, [y]) <$> base.elements s)) ↔ x ∈ s.
Proof.
  split; [intros (y & [= ->] & Hin)%list_elem_of_fmap; by apply elem_of_elements|intros Hin].
  change [x] with ((λ y : string, [y]) x). by apply list_elem_of_fmap_2, elem_of_elements.
Qed.
Lemma part_full o v :
  collection v = true → elements v ≠ [] → part_of o v → (∀ x, x ∈ elements v → x ∈ elems o) →
  o = Some v.
Proof.
  intros Hc Hne Hp Hall. destruct o as [u|]; cbn in *.
  2:{ destruct (elements v) as [|x l]; [done|].
      exfalso. by apply (not_elem_of_nil x), Hall, list_elem_of_here. }
  destruct Hp as [Ht Hsub]. f_equal.
  destruct u as [? | m' | ? | s' | m' | ?], v as [? | m | ? | s0 | m | ?]; try done; cbn in *; f_equal.
  - apply map_eq. intros f. apply option_eq. intros x. rewrite <-!elem_of_pairs. naive_solver.
  - apply set_eq. intros x. rewrite <-!elem_of_singles. naive_solver.
  - apply map_eq. intros f. apply option_eq. intros x. rewrite <-!elem_of_pairs. naive_solver.
Qed.

Lemma pairs_of_concat ps : pairs_of (concat (field_value <$> ps)) = ps.
Proof. induction ps as [|[x y] ps IH]; [done|]. cbn. by rewrite IH. Qed.
Lemma score_pairs_concat ps :
  score_pairs (concat (field_value <$> ps)) = (λ p, (p.2, p.1)) <$> ps.
Proof. induction ps as [|[x y] ps IH]; [done|]. cbn. by rewrite IH. Qed.
Lemma concat_singles xs : concat ((λ y : string, [y]) <$> xs) = xs.
Proof. induction xs as [|x xs IH]; [done|]. cbn. by rewrite IH. Qed.
(** Elements all of one shape are the image of a list. *)
Lemma shaped {A} (f : A → list string) (es : list (list string)) (l : list A) :
  (∀ e, e ∈ es → e ∈ (f <$> l)) → ∃ ps, es = f <$> ps ∧ ∀ p, p ∈ ps → f p ∈ (f <$> l).
Proof.
  induction es as [|e es IH]; intros Hes; [by exists []; split; [|intros p Hp; apply not_elem_of_nil in Hp]|].
  destruct IH as (ps & -> & Hps); [intros e' He'; apply Hes; by right|].
  destruct (proj1 (list_elem_of_fmap f l e) (Hes e (list_elem_of_here _ _))) as (p & -> & Hp).
  exists (p :: ps). split; [done|]. intros p' [->|Hp']%elem_of_cons; [by apply list_elem_of_fmap_2|auto].
Qed.

Lemma put_pairs_sub ps (m' m : gmap string string) :
  m' ⊆ m → (∀ f x, (f, x) ∈ ps → m !! f = Some x) →
  put_pairs ps m' ⊆ m
  ∧ ∀ f x, put_pairs ps m' !! f = Some x ↔ (f, x) ∈ ps ∨ m' !! f = Some x.
Proof.
  revert m'. induction ps as [|[g y] ps IH]; intros m' Hm Hps; cbn.
  { split; [done|]. intros f x. rewrite elem_of_nil. tauto. }
  assert (Hg : m !! g = Some y) by (apply Hps; by left).
  destruct (IH (<[g := y]> m')) as [Hs Hl].
  - by apply insert_subseteq_l.
  - intros f x Hin. apply Hps. by right.
  - split; [done|]. intros f x. unfold put_pairs in Hl. rewrite Hl, elem_of_cons.
    destruct (decide (f = g)) as [->|Hne].
    + rewrite lookup_insert_eq. split; [intros [?|[= ->]]; auto|].
      intros [[[= ->]|?]|Hx]; [by right|by left|]. right.
      rewrite <-Hg. by eapply lookup_weaken.
    + rewrite lookup_insert_ne by done. naive_solver.
Qed.

(** *** Adding elements of a collection to a part of it *)
Definition adds (f : list string → option Value → option Value) (v : Value) : Prop :=
  ∀ es o, (∀ x, x ∈ es → x ∈ elements v) → part_of o v →
    ∃ u, f (concat es) o = Some u ∧ part_of (Some u) v
         ∧ ∀ x, x ∈ elements u ↔ x ∈ es ∨ x ∈ elems o.

Lemma elem_of_fields (ps : list (string * string)) f x :
  ([f; x] ∈ (field_value <$> ps)) ↔ (f, x) ∈ ps.
Proof. change [f; x] with (field_value (f, x)). apply list_elem_of_fmap_inj, field_value_inj. Qed.
Lemma field_shape x (ps : list (string * string)) :
  (x ∈ (field_value <$> ps)) → ∃ f y, x = [f; y] ∧ (f, y) ∈ ps.
Proof. intros ([f y] & -> & Hin)%list_elem_of_fmap. by exists f, y. Qed.

(** The common part of hashes and sorted sets *)
Lemma adds_pairs (ps : list (string * string)) (m' m : gmap string string) :
  (∀ f x, (f, x) ∈ ps → m !! f = Some x) → m' ⊆ m →
  (∀ x, (x ∈ (field_value <$> map_to_list (put_pairs ps m'))) →
        (x ∈ (field_value <$> map_to_list m)))
  ∧ ∀ x, (x ∈ (field_value <$> map_to_list (put_pairs ps m')))
         ↔ (x ∈ (field_value <$> ps)) ∨ (x ∈ (field_value <$> map_to_list m')).
Proof.
  intros Hps Hm. destruct (put_pairs_sub ps m' m Hm Hps) as [Hs Hl]. split.
  - intros x (f & y & -> & Hin)%field_shape. apply elem_of_pairs.
    apply elem_of_map_to_list in Hin. by eapply lookup_weaken.
  - intros x. split.
    + intros (f & y & -> & Hin)%field_shape. rewrite elem_of_fields, elem_of_pairs.
      apply elem_of_map_to_list in Hin. by apply Hl.
    + intros [(f & y & -> & Hin)%field_shape|(f & y & -> & Hin)%field_shape];
        apply elem_of_pairs, Hl; [by left|right]. by apply elem_of_map_to_list.
Qed.
Lemma part_subseteq (m' m : gmap string string) :
  (∀ x, (x ∈ (field_value <$> map_to_list m')) → (x ∈ (field_value <$> map_to_list m))) → m' ⊆ m.
Proof.
  intros H. apply map_subseteq_spec. intros f x Hx. by apply elem_of_pairs, H, elem_of_pairs.
Qed.
Lemma shaped_pairs (es : list (list string)) (m : gmap string string) :
  (∀ e, e ∈ es → (e ∈ (field_value <$> map_to_list m))) →
  ∃ ps : list (string * string), es = field_value <$> ps ∧ ∀ f x, (f, x) ∈ ps → m !! f = Some x.
Proof.
  intros Hes. destruct (shaped _ _ _ Hes) as (ps & -> & Hps). exists ps. split; [done|].
  intros f x Hin. apply elem_of_pairs. by apply (Hps (f, x)).
Qed.

Lemma adds_hset (m : gmap string string) : adds hset_value (VHash m).
Proof.
  intros es o Hes Ho. destruct (shaped_pairs _ _ Hes) as (ps & -> & Hps).
  assert (∃ m', m' ⊆ m ∧ elems o = field_value <$> map_to_list m'
                ∧ hset_value (concat (field_value <$> ps)) o = Some (VHash (put_pairs ps m')))
    as (m' & Hm & He & Hf).
  { destruct o as [u|]; cbn in *.
    - destruct Ho as [Ht Hsub], u as [| m' | | | |]; try done.
      exists m'. rewrite pairs_of_concat. split_and!; [by apply part_subseteq|done..].
    - exists ∅. rewrite pairs_of_concat, map_to_list_empty.
      split_and!; [apply map_empty_subseteq|done..]. }
  destruct (adds_pairs ps m' m Hps Hm) as [Hs Hi].
  exists (VHash (put_pairs ps m')). rewrite He. split_and!; [done|by split|exact Hi].
Qed.
Lemma adds_zadd canon (m : gmap string string) :
  (∀ x score, m !! x = Some score → canon score = score) →
  adds (λ flat, zadd_value canon (score_pairs flat)) (VZset m).
Proof.
  intros Hcanon es o Hes Ho. destruct (shaped_pairs _ _ Hes) as (ps & -> & Hps).
  assert (Hp : (λ sm : string * string, (sm.2, canon sm.1)) <$> score_pairs (concat (field_value <$> ps)) = ps).
  { rewrite score_pairs_concat, <-list_fmap_compose. rewrite <-(list_fmap_id ps) at 2.
    apply list_fmap_ext. intros i [x score] Hi. cbn. f_equal.
    eapply Hcanon, Hps, list_elem_of_lookup_2, Hi. }
  assert (∃ m', m' ⊆ m ∧ elems o = field_value <$> map_to_list m'
                ∧ zadd_value canon (score_pairs (concat (field_value <$> ps))) o
                  = Some (VZset (put_pairs ps m')))
    as (m' & Hm & He & Hf).
  { destruct o as [u|]; cbn in *.
    - destruct Ho as [Ht Hsub], u as [| | | | m' |]; try done.
      exists m'. rewrite Hp. split_and!; [by apply part_subseteq|done..].
    - exists ∅. rewrite Hp, map_to_list_empty.
      split_and!; [apply map_empty_subseteq|done..]. }
  destruct (adds_pairs ps m' m Hps Hm) as [Hs Hi].
  exists (VZset (put_pairs ps m')). rewrite He. split_and!; [done|by split|exact Hi].
Qed.
Lemma adds_sadd (s : gset string) : adds sadd_value (VSet s).
Proof.
  intros es o Hes Ho.
  destruct (shaped (λ y : string, [y]) es (base.elements s) Hes) as (xs & -> & Hxs).
  assert (∃ s', s' ⊆ s ∧ elems o = (λ y, [y]) <$> base.elements s'
                ∧ sadd_value (concat ((λ y : string, [y]) <$> xs)) o = Some (VSet (list_to_set xs ∪ s')))
    as (s' & Hs & He & Hf).
  { destruct o as [u|]; cbn in *.
    - destruct Ho as [Ht Hsub], u as [| | | s' | |]; try done.
      exists s'. rewrite concat_singles. split_and!; [|done..].
      intros x Hx. by apply elem_of_singles, Hsub, elem_of_singles.
    - exists ∅. rewrite concat_singles, elements_empty. split_and!; [set_solver|done|].
      do 2 f_equal. set_solver. }
  exists (VSet (list_to_set xs ∪ s')). rewrite He. split_and!; [done| |].
  - split; [done|]. cbn. intros x (y & -> & Hy)%list_elem_of_fmap. apply elem_of_singles.
    apply elem_of_elements, elem_of_union in Hy as [Hy%elem_of_list_to_set|Hy]; [|by apply Hs].
    apply elem_of_singles. by apply Hxs.
  - cbn. intros x. split.
    + intros (y & -> & Hy)%list_elem_of_fmap.
      apply elem_of_elements, elem_of_union in Hy as [Hy%elem_of_list_to_set|Hy].
      * left. by apply (list_elem_of_fmap_2 (λ y : string, [y])).
      * right. by apply elem_of_singles.
    + intros [(y & -> & Hy)%list_elem_of_fmap|(y & -> & Hy)%list_elem_of_fmap]; apply elem_of_singles.
      * apply elem_of_union_l. by apply elem_of_list_to_set.
      * apply elem_of_union_r. by apply elem_of_elements in Hy.
Qed.

(** *** The stages of a copy *)
Lemma persistent_eta (e : Entry) : en_pttl e = None → persistent (en_value e) = e.
Proof. destruct e; cbn. by intros ->. Qed.
Section copy.
Context {W : Type} `{!Source W, !Target W, !Servers W} {HL : ServerLaws W}.
Context (S0 D0 : DB) (key : string) (e : Entry) (tmp : option string).
Hypothesis Hsrc : S0 !! key = Some e.
Hypothesis Hfresh : match tmp with Some t => t ≠ key ∧ D0 !! t = None | None => True end.

(** The data of both servers *)
Definition holds (d : DB) (w : W) : Prop := sv_source w = S0 ∧ sv_target w = d.
(** Where the copy is built, on a target cleared for it, and what it holds of the value *)
Definition base_db : DB := match tmp with Some _ => D0 | None => delete key D0 end.
Definition fill (o : option Value) : DB :=
  match o with Some u => <[write_key tmp key := persistent u]> base_db | None => base_db end.
(** What a copy that failed can leave *)
Definition spoiled (d : DB) : Prop :=
  match tmp with
  | Some t => (∀ k, k ≠ key → k ≠ t → d !! k = D0 !! k) ∧ whole e (D0 !! key) (d !! key)
  | None => only_at key D0 d
  end.
Definition fails (_ : string) (w : W) : Prop := sv_source w = S0 ∧ spoiled (sv_target w).
Definition copied (w : W) : Prop :=
  sv_source w = S0 ∧ arrived e (sv_target w !! key) ∧ only_at key D0 (sv_target w).

Lemma base_absent : base_db !! write_key tmp key = None.
Proof using Hfresh. unfold base_db. destruct tmp; [apply Hfresh|apply lookup_delete_eq]. Qed.
Lemma stored_source : stored key S0 = Some (en_value e).
Proof using Hsrc. unfold stored. by rewrite Hsrc. Qed.
Lemma only_at_spoiled d : only_at (write_key tmp key) base_db d → spoiled d.
Proof using Hfresh.
  unfold only_at, base_db, spoiled. destruct tmp as [t|]; cbn; intros Hd.
  - split; [intros k _ Hk; by apply Hd|]. left. apply Hd. destruct Hfresh. congruence.
  - intros k Hk. rewrite Hd, lookup_delete_ne by done. done.
Qed.
Lemma fill_only o : only_at (write_key tmp key) base_db (fill o).
Proof. intros k Hk. destruct o; [|done]. by apply lookup_insert_ne. Qed.
Lemma fill_spoiled o : spoiled (fill o).
Proof using Hfresh. apply only_at_spoiled, fill_only. Qed.
Lemma holds_fails o err w : holds (fill o) w → fails err w.
Proof using Hfresh. intros [? Hd]. split; [done|]. rewrite Hd. apply fill_spoiled. Qed.
Lemma stored_fill o : stored (write_key tmp key) (fill o) = o.
Proof using Hfresh.
  unfold stored, fill. destruct o; [by rewrite lookup_insert_eq|by rewrite base_absent].
Qed.
Lemma added_fill f o d' :
  added f (write_key tmp key) (fill o) d' → ∃ u, f o = Some u ∧ d' = fill (Some u).
Proof using Hfresh.
  intros (u & Hf & ->). rewrite stored_fill in Hf. exists u. split; [done|].
  unfold fill. destruct o; cbn; [by rewrite lookup_insert_eq, insert_insert_eq|by rewrite base_absent].
Qed.

Lemma wp_reads {A} (m : M W string A) P d w :
  reads m P → holds d w → wp m (λ a w', holds d w' ∧ P w a) (λ _, holds d) w.
Proof.
  intros Hm [Hs Ht]. eapply wp_mono; [apply Hm| |].
  - intros a w' [[Hs' Ht'] HP]. split; [|done]. split; congruence.
  - intros _ w' [Hs' Ht']. split; congruence.
Qed.
Lemma wp_asks {A} (m : M W string A) P d w :
  asks m key P → holds d w → wp m (λ a w', holds d w' ∧ P (en_value e) a) (λ _, holds d) w.
Proof using Hsrc.
  intros Hm Hh. eapply wp_mono; [by apply (wp_reads m _ d w Hm)| |done].
  intros a w' [Hh' HP]. split; [done|]. apply HP. destruct Hh as [-> _]. apply stored_source.
Qed.
(** A command that adds to the copy *)
Lemma wp_adds m f o w :
  writes m (added f (write_key tmp key)) → holds (fill o) w →
  wp m (λ _ w', ∃ u, f o = Some u ∧ holds (fill (Some u)) w') fails w.
Proof using Hfresh.
  intros Hm [Hs Ht]. eapply wp_mono; [apply Hm| |].
  - intros _ w' [Hs' Ha]. rewrite Ht in Ha. apply added_fill in Ha as (u & Hu & Hd).
    exists u. split; [done|]. split; congruence.
  - intros err w' [Hs' [Hd|Ha]]; (split; [congruence|]).
    + rewrite Hd, Ht. apply fill_spoiled.
    + rewrite Ht in Ha. apply added_fill in Ha as (u & _ & ->). apply fill_spoiled.
Qed.

Lemma clear_ok w :
  holds D0 w → wp (clear_target tmp key) (λ _, holds (fill None)) fails w.
Proof using Hfresh HL.
  intros [Hs Ht]. unfold clear_target, fill, base_db, fails, spoiled. destruct tmp as [t|]; [by split|].
  eapply wp_mono; [apply sv_del| |].
  - intros _ w' [Hs' Hd]. unfold deleted in Hd. split; congruence.
  - intros err w' [Hs' Hd]. split; [congruence|]. intros k Hk.
    destruct Hd as [->| ->]; rewrite Ht; [done|by rewrite lookup_delete_ne].
Qed.

(** Leaving a handler by its [catch] *)
Lemma drop_temp_fails err w :
  fails err w → wp (drop_temp tmp) (λ _, fails err) fails w.
Proof using Hfresh HL.
  intros Hf. unfold drop_temp, fails, spoiled in *. destruct tmp as [t|]; [|done].
  apply wp_catch. destruct Hf as (Hs & Ho & Hw), Hfresh as [Hne _]. eapply wp_mono; [apply sv_del| |].
  - intros _ w' [Hs' Hd]. rewrite Hd. split; [congruence|]. split.
    + intros k Hk Hkt. rewrite lookup_delete_ne by done. by apply Ho.
    + by rewrite lookup_delete_ne.
  - intros err' w' [Hs' Hd]. apply wp_ret. split; [congruence|].
    destruct Hd as [->| ->]; [done|]. split.
    + intros k Hk Hkt. rewrite lookup_delete_ne by done. by apply Ho.
    + by rewrite lookup_delete_ne.
Qed.
Lemma guarded_ok {A} (body : M W string A) Q w :
  wp body Q fails w → wp (guarded tmp body) Q fails w.
Proof using Hfresh HL.
  intros Hb. apply wp_catch. eapply wp_mono; [exact Hb|done|].
  intros err w' Hf. apply wp_bind. eapply wp_mono; [by apply drop_temp_fails| |done].
  intros [] w'' Hf'. by apply wp_throw.
Qed.

(** The time to live that arrives *)
Lemma ttl_arrived p (d d' : DB) :
  pttl_reply (Some e) p → d !! key = Some (persistent (en_value e)) → ttl_applied key p d d' →
  arrived e (d' !! key) ∧ only_at key d d'.
Proof.
  unfold pttl_reply, ttl_applied, arrived, expires, deleted, only_at. intros Hp Hd Hstep.
  destruct (en_pttl e) as [t|] eqn:He.
  - destruct (0 <? p) eqn:Hpos.
    + apply Z.ltb_lt in Hpos. subst d'. rewrite lookup_alter_eq, Hd. cbn. split.
      * right. exists p. split; [lia|done].
      * intros k Hk. by rewrite lookup_alter_ne.
    + apply Z.ltb_ge in Hpos. destruct ((p =? -2) || (p =? 0)) eqn:Hz; [|lia].
      subst d'. rewrite lookup_delete_eq. split; [by left|].
      intros k Hk. by rewrite lookup_delete_ne.
  - subst p. cbn in Hstep. subst d'. rewrite Hd. split; [|done].
    by rewrite persistent_eta.
Qed.
Lemma arrived_whole old now : arrived e now → whole e old now.
Proof.
  unfold arrived, whole. destruct (en_pttl e) as [t|] eqn:He.
  - intros [->|(p & _ & ->)]; [by right; left|right; right; by exists (Some p)].
  - intros ->. right; right. exists None. f_equal. symmetry. by apply persistent_eta.
Qed.
Lemma ttl_partial p (d d' : DB) :
  d !! key = Some (persistent (en_value e)) → d' = d ∨ ttl_applied key p d d' →
  whole e (D0 !! key) (d' !! key) ∧ only_at key d d'.
Proof.
  unfold ttl_applied, expires, deleted, only_at. intros Hd Hstep.
  assert (Hw : whole e (D0 !! key) (d !! key)) by (rewrite Hd; right; right; by exists None).
  destruct Hstep as [->|Hstep]; [done|].
  destruct (0 <? p).
  - subst d'. rewrite lookup_alter_eq, Hd. split; [right; right; by exists (Some p)|].
    intros k Hk. by rewrite lookup_alter_ne.
  - destruct ((p =? -2) || (p =? 0)); subst d'; [|done].
    rewrite lookup_delete_eq. split; [by right; left|]. intros k Hk. by rewrite lookup_delete_ne.
Qed.

Lemma whole_spoiled d : whole e (D0 !! key) (d !! key) → only_at key D0 d → spoiled d.
Proof. clear Hfresh. unfold spoiled. intros Hw Ho. destruct tmp; [|done]. split; [|done]. intros k Hk _. by apply Ho. Qed.
Lemma only_at_trans (k : string) (d1 d2 d3 : DB) : only_at k d1 d2 → only_at k d2 d3 → only_at k d1 d3.
Proof. intros H12 H23 k' Hk. rewrite H23 by done. by apply H12. Qed.
Lemma arrived_copied d w :
  sv_source w = S0 → arrived e (sv_target w !! key) → only_at key d (sv_target w) → only_at key D0 d →
  copied w.
Proof. intros Hs Ha Ho Hd. split_and!; [done..|]. by eapply only_at_trans. Qed.

Lemma wp_ttl d p w :
  holds d w → d !! key = Some (persistent (en_value e)) → only_at key D0 d →
  pttl_reply (Some e) p → wp (applyTtl key p) (λ _, copied) fails w.
Proof using HL.
  intros [Hs Ht] Hd Ho Hp.
  assert (Hend : ∀ w', sv_source w' = S0 → ttl_applied key p d (sv_target w') → copied w').
  { intros w' Hs' Hstep. destruct (ttl_arrived p d _ Hp Hd Hstep). by eapply arrived_copied. }
  assert (Hbad : ∀ w', sv_source w' = S0 → sv_target w' = d ∨ ttl_applied key p d (sv_target w') →
                  ∀ err, fails err w').
  { intros w' Hs' Hstep err. destruct (ttl_partial p d _ Hd Hstep) as [Hw Ho'].
    split; [done|]. apply whole_spoiled; [done|]. by eapply only_at_trans. }
  unfold applyTtl, ttl_applied in *. destruct (0 <? p); [|destruct ((p =? -2) || (p =? 0))].
  - eapply wp_mono; [apply sv_pexpire| |]; rewrite Hs, Ht; naive_solver.
  - eapply wp_mono; [apply sv_del| |]; rewrite Hs, Ht; naive_solver.
  - apply wp_ret. by apply Hend.
Qed.
End copy.

Section settle.
Context {W : Type} `{!Source W, !Target W, !Servers W} {HL : ServerLaws W}.
Context (S0 D0 : DB) (key : string) (e : Entry) (tmp : string).
Hypothesis Hsrc : S0 !! key = Some e.
Hypothesis Hne : tmp ≠ key.
Hypothesis Habsent : D0 !! tmp = None.
#[local] Abbreviation built := (fill D0 key (Some tmp) (Some (en_value e))).
#[local] Abbreviation fails := (fails S0 D0 key e (Some tmp)).
#[local] Abbreviation copied := (copied S0 D0 key e).

Lemma built_tmp : built !! tmp = Some (persistent (en_value e)).
Proof. apply lookup_insert_eq. Qed.
Lemma renamed_built d : renamed tmp key built d →
  d !! key = Some (persistent (en_value e)) ∧ only_at key D0 d.
Proof using Habsent.
  intros (e' & He & ->). rewrite built_tmp in He. injection He as <-.
  rewrite lookup_insert_eq. split; [done|]. intros k Hk. rewrite lookup_insert_ne by done.
  cbn. rewrite delete_insert_eq. destruct (decide (k = tmp)) as [->|Hkt].
  - by rewrite lookup_delete_eq.
  - by rewrite lookup_delete_ne.
Qed.
Lemma moved_fails d w err :
  holds S0 d w → d !! key = Some (persistent (en_value e)) → only_at key D0 d → fails err w.
Proof.
  intros [Hs Ht] Hd Ho. split; [done|]. rewrite Ht. apply whole_spoiled; [|done].
  rewrite Hd. right; right. by exists None.
Qed.
Lemma wp_rename p w :
  holds S0 built w → pttl_reply (Some e) p → wp (rename_with_ttl tmp key p) (λ _, copied) fails w.
Proof using HL Hne Habsent.
  intros [Hs Ht] Hp. apply wp_bind. eapply wp_mono; [apply sv_rename| |]; rewrite Hs, Ht.
  - intros [] w' [Hs' Hr]. destruct (renamed_built _ Hr). change (wp (applyTtl key p) (λ _, copied) fails w').
    by eapply wp_ttl.
  - intros err w' [Hs' [Hd|Hr]].
    + by apply (holds_fails S0 D0 key e (Some tmp)) with (o := Some (en_value e)).
    + destruct (renamed_built _ Hr). by eapply moved_fails.
Qed.
(** The script ran although its call failed: the second RENAME finds no temporary key. *)
Lemma wp_rename_gone p w :
  sv_source w = S0 → spoiled D0 key e (Some tmp) (sv_target w) → sv_target w !! tmp = None →
  wp (rename_with_ttl tmp key p) (λ _, copied) fails w.
Proof using HL.
  intros Hs Hd Hgone. apply wp_bind. eapply wp_mono; [apply sv_rename| |].
  - intros [] w' [_ (e' & He & _)]. congruence.
  - intros err w' [Hs' [Ht|(e' & He & _)]]; [|congruence]. split; [congruence|]. by rewrite Ht.
Qed.
Lemma wp_settle_tmp p w :
  holds S0 built w → pttl_reply (Some e) p →
  wp (atomicRenameWithTtl tmp key p) (λ _, copied) fails w.
Proof using HL Hne Habsent.
  intros Hh Hp. destruct Hh as [Hs Ht]. apply wp_catch. eapply wp_mono; [apply sv_eval| |]; rewrite Hs, Ht.
  - intros [] w' (Hs' & d1 & Hr & Hstep). destruct (renamed_built _ Hr) as [Hd Ho].
    destruct (ttl_arrived key e p _ _ Hp Hd Hstep). by eapply arrived_copied.
  - intros err w' [Hs' [Hd|(d1 & Hr & Hstep)]].
    + assert (Hh' : holds S0 built w') by by split.
      destruct (eval_blocked err); [by apply wp_rename|].
      apply wp_throw. by apply (holds_fails S0 D0 key e (Some tmp)) with (o := Some (en_value e)).
    + destruct (renamed_built _ Hr) as [Hd Ho].
      destruct (ttl_arrived key e p _ _ Hp Hd Hstep) as [Ha Ho'].
      assert (Hall : only_at key D0 (sv_target w')) by by eapply only_at_trans.
      assert (Hsp : spoiled D0 key e (Some tmp) (sv_target w')).
      { apply whole_spoiled; [|done]. by apply arrived_whole. }
      destruct (eval_blocked err); [|by apply wp_throw].
      apply wp_rename_gone; [done..|]. by rewrite Hall.
Qed.
End settle.

(** *** The handlers *)
Lemma element_nonempty v x : x ∈ elements v → x ≠ [].
Proof.
  destruct v; cbn; try by intros ?%not_elem_of_nil.
  - by intros (? & ? & -> & _)%field_shape.
  - by intros (? & -> & _)%list_elem_of_fmap.
  - by intros (? & ? & -> & _)%field_shape.
Qed.
Lemma concat_nonempty v es :
  (∀ x, x ∈ es → x ∈ elements v) → concat es = [] → es = [].
Proof.
  destruct es as [|x es]; [done|]. cbn. intros Hes [Hx _]%app_eq_nil.
  by destruct (element_nonempty v x (Hes x (list_elem_of_here _ _))).
Qed.

(** The first elements of a list, or entries of a stream, on the target *)
Definition list_part (l : list string) : option Value :=
  match l with [] => None | _ => Some (VList l) end.
Definition stream_part (l : list (string * list string)) : option Value :=
  match l with [] => None | _ => Some (VStream l) end.
Lemma rpush_part l items : items ≠ [] → rpush_value items (list_part l) = list_part (l ++ items).
Proof. by destruct l, items. Qed.
Lemma xadd_part l id fields :
  xadd_value id fields (stream_part l) = stream_part (l ++ [(id, fields)]).
Proof. by destruct l. Qed.
Lemma part_list l : l ≠ [] → list_part l = Some (VList l).
Proof. by destruct l. Qed.
Lemma part_stream l : l ≠ [] → stream_part l = Some (VStream l).
Proof. by destruct l. Qed.
(** A chunk of LRANGE is what follows the copied part. *)
Lemma chunk_next {A} (l : list A) start :
  0 ≤ start < js_len l →
  let stop := Z.min (start + LIST_CHUNK - 1) (js_len l - 1) in
  let items := take (Z.to_nat (stop - start + 1)) (drop (Z.to_nat start) l) in
  start ≤ stop ∧ items ≠ []
  ∧ take (Z.to_nat start) l ++ items = take (Z.to_nat (start + LIST_CHUNK)) l.
Proof.
  intros Hs stop items. unfold js_len, LIST_CHUNK in *.
  assert (Hlen : length items ≠ 0%nat) by (subst items stop; rewrite length_take, length_drop; lia).
  split; [lia|]. split; [intros Hi; by rewrite Hi in Hlen|]. subst items. rewrite take_take_drop.
  destruct (decide (start + 1000 ≤ Z.of_nat (length l))).
  - f_equal. lia.
  - rewrite !take_ge; [done|lia..].
Qed.

Section handlers_copy.
Context {W : Type} `{!Source W, !Target W, !Servers W} {HL : ServerLaws W}.
Context (S0 D0 : DB) (key : string) (e : Entry) (tmp : option string).
Hypothesis Hsrc : S0 !! key = Some e.
Hypothesis Hfresh : match tmp with Some t => t ≠ key ∧ D0 !! t = None | None => True end.
#[local] Abbreviation holds o := (holds S0 (fill D0 key tmp o)).
#[local] Abbreviation fails := (fails S0 D0 key e tmp).
#[local] Abbreviation copied := (copied S0 D0 key e).
#[local] Abbreviation wk := (write_key tmp key).

Lemma settle_ok w : holds (Some (en_value e)) w → wp (settle_ttl tmp key) (λ _, copied) fails w.
Proof using HL Hfresh Hsrc.
  intros Hh. apply wp_bind. eapply wp_mono; [apply (wp_reads S0 _ _ _ _ (sv_pttl key) Hh)| |].
  - intros p w' [Hh' Hp]. destruct Hh as [Hs _]. rewrite Hs, Hsrc in Hp. destruct tmp as [t|].
    + destruct Hfresh. by eapply wp_settle_tmp.
    + apply (wp_ttl S0 D0 key e None _ _ _ Hh'); [|intros k Hk|done]; cbn.
      * by rewrite lookup_insert_eq.
      * by rewrite lookup_insert_ne, lookup_delete_ne.
  - intros err w' Hh'. exact (holds_fails S0 D0 key e tmp Hfresh _ err w' Hh').
Qed.
Lemma settled_ok w :
  holds (Some (en_value e)) w →
  wp (settled tmp key true) (λ r w', r = Some true ∧ copied w') fails w.
Proof using HL Hfresh Hsrc.
  intros Hh. apply wp_bind. eapply wp_mono; [by apply settle_ok| |done]. by intros [] w' Hc.
Qed.

(** A command that adds a page to the copy, and the loop that adds them all *)
Definition adding (add : list string → M W string unit)
    (f : list string → option Value → option Value) : Prop :=
  ∀ es o w, (∀ x, x ∈ es → x ∈ elements (en_value e)) → part_of o (en_value e) →
    concat es ≠ [] → holds o w →
    wp (add (concat es)) (λ _ w', ∃ u, f (concat es) o = Some u ∧ holds (Some u) w') fails w.
Lemma writes_adding add f :
  (∀ items, items ≠ [] → writes (add items) (added (f items) wk)) → adding add f.
Proof using Hfresh. intros Hw es o w _ _ Hne Hh. apply wp_adds; auto. Qed.
Lemma zadds_adding `{!PipelinesRun W} m :
  en_value e = VZset m → (∀ x score, m !! x = Some score → sv_canon score = score) →
  adding (λ raw, tg_zadds wk (score_pairs raw)) (λ raw, zadd_value sv_canon (score_pairs raw)).
Proof using HL Hfresh.
  intros Hv Hcanon es o w Hes Ho Hne [Hs Ht]. rewrite Hv in Hes, Ho.
  assert (Hsp : score_pairs (concat es) ≠ []).
  { destruct (shaped_pairs _ _ Hes) as (ps & -> & _). rewrite score_pairs_concat.
    by destruct ps. }
  assert (Hsome : is_Some (zadd_value sv_canon (score_pairs (concat es)) (stored wk (sv_target w)))).
  { rewrite Ht, stored_fill by done. destruct (adds_zadd sv_canon m Hcanon es o Hes Ho) as (u & Hu & _).
    by exists u. }
  eapply wp_mono; [apply wp_and; [by apply (sv_zadds_all wk)|apply (sv_zadds wk)]| |].
  - intros [] w' [[Hs' Ha] _]. rewrite Ht in Ha. destruct (added_fill D0 key tmp Hfresh _ _ _ Ha) as (u & Hu & Hd).
    exists u. split; [done|]. split; congruence.
  - intros err w' [_ [Hs' Hd]]. split; [congruence|].
    assert (Hcase : sv_target w' = sv_target w
                    ∨ ∃ sub, added (zadd_value sv_canon sub) wk (sv_target w) (sv_target w')).
    { destruct Hd as [Hd|(sub & _ & [Hd|Hd])]; [by left|by left|right; by exists sub]. }
    destruct Hcase as [Hd'|(sub & Ha)].
    + rewrite Hd', Ht. by apply fill_spoiled.
    + rewrite Ht in Ha. destruct (added_fill D0 key tmp Hfresh _ _ _ Ha) as (u & _ & ->).
      by apply fill_spoiled.
Qed.

(** A page is added, unless it is empty. *)
Lemma page_added add f es o w :
  adding add f → adds f (en_value e) → (∀ x, x ∈ es → x ∈ elements (en_value e)) →
  part_of o (en_value e) → holds o w →
  wp (match concat es with [] => mret tt | items => add items end)
    (λ _ w', ∃ o', holds o' w' ∧ part_of o' (en_value e) ∧ ∀ x, x ∈ es ∨ x ∈ elems o → x ∈ elems o')
    fails w.
Proof.
  intros Hadd Hf Hes Ho Hh. destruct (Hf es o Hes Ho) as (u & Hu & Hp & Hx).
  destruct (concat es) as [|a items] eqn:Hc.
  - apply wp_ret. exists o. split; [done|]. split; [done|]. rewrite (concat_nonempty _ _ Hes Hc).
    intros x [Hx0|?]; [by apply not_elem_of_nil in Hx0|done].
  - rewrite <-Hc in *. eapply wp_mono; [apply (Hadd es o); [done|done|congruence|done]| |done].
    intros _ w' (u' & Hu' & Hh').
    rewrite Hu in Hu'. injection Hu' as <-. exists (Some u). split_and!; [done..|].
    intros x. apply Hx.
Qed.
Lemma scan_copy scan add f fuel cursor o w :
  (∀ c, pages (scan c) key c) → adding add f → adds f (en_value e) →
  collection (en_value e) = true → elements (en_value e) ≠ [] →
  (sv_left S0 key cursor < fuel)%nat → holds o w → part_of o (en_value e) →
  (∀ x, x ∈ elements (en_value e) → cursor ≠ "0" → sv_seen S0 key cursor x = true → x ∈ elems o) →
  wp (scan_loop fuel scan add cursor)
    (λ b w', b = true ∧ holds (Some (en_value e)) w') fails w.
Proof using Hfresh Hsrc.
  intros Hscan Hadd Hf Hcol Hne. revert cursor o w.
  induction fuel as [|fuel IH]; intros cursor o w Hfuel Hh Ho Hseen; [lia|].
  cbn [scan_loop]. apply wp_bind. eapply wp_mono; [apply (wp_reads S0 _ _ _ _ (Hscan cursor) Hh)| |].
  2:{ intros err w' Hh'. exact (holds_fails S0 D0 key e tmp Hfresh _ err w' Hh'). }
  intros page w' [Hh' Hpage]. destruct Hh as [Hs _]. rewrite Hs in Hpage.
  destruct (Hpage _ (stored_source S0 key e Hsrc)) as (es & Hes & Hsub & Hall & Hleft).
  rewrite Hes. apply wp_bind. eapply wp_mono; [by eapply page_added| |done].
  intros [] w2 (o2 & Hh2 & Ho2 & Hin2).
  destruct (str_eqb page.1 "0") eqn:Hz.
  - apply bool_decide_eq_true in Hz. apply wp_ret. split; [done|].
    rewrite <-(part_full o2 (en_value e)); [done..|]. intros x Hx. apply Hin2.
    destruct (decide (cursor = "0")) as [Hc|Hc]; [left; apply Hall; auto|].
    destruct (sv_seen S0 key cursor x) eqn:Hsx; [right; auto|left; apply Hall; auto].
  - apply bool_decide_eq_false in Hz. destruct Hleft as [?|Hleft]; [done|].
    apply (IH _ o2); [lia|done..|]. intros x Hx _ Hsx. apply Hin2.
    destruct (decide (cursor = "0")) as [Hc|Hc]; [left; apply Hall; auto|].
    destruct (sv_seen S0 key cursor x) eqn:Hsx'; [right; auto|left; apply Hall; auto].
Qed.
(** The collection in one command *)
Lemma bulk_copy add f es w :
  adding add f → adds f (en_value e) → collection (en_value e) = true →
  elements (en_value e) ≠ [] → es ≡ₚ elements (en_value e) → holds None w →
  concat es ≠ [] ∧ wp (add (concat es)) (λ _, holds (Some (en_value e))) fails w.
Proof.
  intros Hadd Hf Hcol Hne Hes Hh.
  assert (Hsub : ∀ x, x ∈ es → x ∈ elements (en_value e)) by (intros x; by rewrite Hes).
  assert (Hc : concat es ≠ []).
  { intros Hc. rewrite (concat_nonempty _ _ Hsub Hc) in Hes. by apply Permutation_nil_l in Hes. }
  split; [done|]. destruct (Hf es None Hsub I) as (u & Hu & Hp & Hx).
  eapply wp_mono; [by apply (Hadd es None)| |done]. intros _ w' (u' & Hu' & Hh').
  rewrite Hu in Hu'. injection Hu' as <-.
  assert (Some u = Some (en_value e)) as [= ->]; [|done].
  apply part_full; [done..|]. cbn. intros x Hin. apply Hx. left. by rewrite Hes.
Qed.

Lemma chunks_copy fuel l start w :
  en_value e = VList l → 0 ≤ start → js_len l ≤ start + Z.of_nat fuel →
  holds (list_part (take (Z.to_nat start) l)) w →
  wp (list_chunks fuel key wk start (js_len l)) (λ b w', b = true ∧ holds (list_part l) w') fails w.
Proof using HL Hfresh Hsrc.
  intros Hv. revert start w.
  induction fuel as [|fuel IH]; intros start w Hs Hfuel Hh; cbn [list_chunks];
    (destruct (Z.leb_spec (js_len l) start) as [Hend|Hend];
     [apply wp_ret; split; [done|]; rewrite take_ge in Hh by (unfold js_len in *; lia); exact Hh|]).
  { lia. }
  destruct (chunk_next l start) as (Hstop & Hne & Hnext); [lia|].
  apply wp_bind. eapply wp_mono; [apply (wp_asks S0 key e Hsrc _ _ _ _ (sv_lrange key _ _ Hs Hstop) Hh)| |].
  2:{ intros err w' Hh'. exact (holds_fails S0 D0 key e tmp Hfresh _ err w' Hh'). }
  intros items w' [Hh' Hitems]. specialize (Hitems l Hv). subst items.
  set (items := take _ (drop _ l)) in *. clearbody items.
  destruct items as [|x items]; [done|].
  apply wp_bind. eapply wp_mono; [apply (wp_adds S0 D0 key e tmp Hfresh _ _ _ _ (sv_rpush _ _ Hne) Hh')| |done].
  intros [] w2 (u & Hu & Hh2). rewrite rpush_part, Hnext in Hu by done.
  apply IH; [unfold LIST_CHUNK; lia..|]. by rewrite Hu.
Qed.

Lemma entries_copy entries : ∀ pre lastId w,
  holds (stream_part pre) w →
  wp (add_entries wk entries lastId)
    (λ r w', holds (stream_part (pre ++ entries)) w'
             ∧ r = default lastId (last entries.*1)) fails w.
Proof using HL Hfresh.
  induction entries as [|[id fields] entries IH]; intros pre lastId w Hh; cbn [add_entries].
  { apply wp_ret. by rewrite app_nil_r. }
  apply wp_bind. eapply wp_mono; [apply (wp_adds S0 D0 key e tmp Hfresh _ _ _ _ (sv_xadd _ id fields) Hh)| |done].
  intros [] w' (u & Hu & Hh'). rewrite xadd_part in Hu. rewrite <-Hu in Hh'.
  eapply wp_mono; [by apply IH| |done]. intros r w2 [Hh2 ->]. rewrite <-app_assoc in Hh2.
  split; [done|]. rewrite fmap_cons, last_cons. by destruct (last entries.*1).
Qed.
Lemma stream_copy l fuel : en_value e = VStream l → l ≠ [] → NoDup l.*1 → "-" ∉ l.*1 →
  ∀ pre post lastId wrote w, l = pre ++ post →
  (length post / Z.to_nat STREAM_CHUNK < fuel)%nat →
  (pre = [] ∧ lastId = "-" ∨ wrote = true ∧ ∃ pre' fields, pre = pre' ++ [(lastId, fields)]) →
  holds (stream_part pre) w →
  wp (stream_loop fuel key wk lastId wrote)
    (λ r w', r = Some true ∧ holds (stream_part l) w') fails w.
Proof using HL Hfresh Hsrc.
  intros Hv Hne Hnd Hdash.
  induction fuel as [|fuel IH]; intros pre post lastId wrote w Hl Hfuel Hlast Hh; [lia|].
  cbn [stream_loop]. apply wp_bind.
  assert (Hpage : wp (so_xrange key (if str_eqb lastId "-" then "-" else String "(" lastId))
    (λ r w', holds (stream_part pre) w' ∧ r = take (Z.to_nat STREAM_CHUNK) post)
    (λ _, holds (stream_part pre)) w).
  { destruct Hlast as [[-> ->]|(_ & pre' & fields & ->)].
    - eapply wp_mono; [apply (wp_asks S0 key e Hsrc _ _ _ _ (sv_xrange key) Hh)| |done].
      intros r w' [Hh' Hr]. split; [done|]. by apply Hr; rewrite Hv, Hl.
    - unfold str_eqb. rewrite bool_decide_eq_false_2.
      2:{ intros ->. apply Hdash. rewrite Hl, !fmap_app. set_solver. }
      eapply wp_mono; [apply (wp_asks S0 key e Hsrc _ _ _ _ (sv_xrange_after key lastId) Hh)| |done].
      intros r w' [Hh' Hr]. split; [done|]. rewrite <-app_assoc in Hl. cbn in Hl. apply (Hr pre' fields).
      + by rewrite Hv, Hl.
      + by rewrite <-Hl. }
  eapply wp_mono; [exact Hpage| |].
  2:{ intros err w' Hh'. exact (holds_fails S0 D0 key e tmp Hfresh _ err w' Hh'). }
  clear Hpage. intros raw w' [Hh' Hraw].
  assert (Hn : (0 < Z.to_nat STREAM_CHUNK)%nat) by (unfold STREAM_CHUNK; lia).
  assert (Hfull : (js_len raw <? STREAM_CHUNK) = false → length raw = Z.to_nat STREAM_CHUNK).
  { rewrite Z.ltb_ge. unfold js_len. pose proof (length_take post (Z.to_nat STREAM_CHUNK)). subst raw. lia. }
  assert (Hpart : (js_len raw <? STREAM_CHUNK) = true → raw = post).
  { rewrite Z.ltb_lt. unfold js_len. subst raw. rewrite length_take. intros ?. apply take_ge. lia. }
  set (n := Z.to_nat STREAM_CHUNK) in *. clearbody n.
  destruct raw as [|x raw0] eqn:Hx.
  - apply wp_ret. assert (post = []) as -> by (destruct post, n; (done || lia)).
    rewrite app_nil_r in Hl. subst pre. destruct Hlast as [[? _]|[-> _]]; done.
  - rewrite <-Hx in *. assert (Hrne : raw ≠ []) by congruence. clear Hx.
    apply wp_bind. eapply wp_mono; [by apply entries_copy| |done].
    intros lastId' w2 [Hh2 ->]. destruct (js_len raw <? STREAM_CHUNK) eqn:Hlt.
    + apply wp_ret. rewrite (Hpart eq_refl), <-Hl in Hh2. done.
    + specialize (Hfull eq_refl). apply (IH (pre ++ raw) (drop n post)); [|..|done].
      * by rewrite <-app_assoc, Hraw, take_drop.
      * rewrite length_drop. assert (n ≤ length post)%nat.
        { rewrite Hraw, length_take in Hfull. lia. }
        replace (length post) with (length post - n + 1 * n)%nat in Hfuel by lia.
        rewrite Nat.div_add in Hfuel by lia. lia.
      * right. split; [done|]. destruct raw as [|y raw1] using rev_ind; [done|].
        clear IHraw1. destruct y as [id fields]. rewrite fmap_last, last_snoc. cbn.
        exists (pre ++ raw1), fields. by rewrite <-app_assoc.
Qed.

(** Each handler that uses a temporary key, from a target where it is absent *)
#[local] Abbreviation finishes := (λ (r : option bool) w', is_Some r ∧ copied w').
#[local] Abbreviation handled m w := (wp m finishes fails w).
Lemma settled_after (m : M W string bool) o w :
  o = Some (en_value e) →
  wp m (λ b w', b = true ∧ holds o w') fails w → handled (m ≫= settled tmp key) w.
Proof using HL Hfresh Hsrc.
  intros -> Hm. apply wp_bind. eapply wp_mono; [exact Hm| |done]. intros b w' [-> Hh].
  eapply wp_mono; [by apply settled_ok| |done]. intros r w2 [-> Hc]. by split.
Qed.
(** The guards in front: the size and, when writing directly, the DEL *)
Lemma start_fails err w : sv_source w = S0 ∧ sv_target w = D0 → fails err w.
Proof.
  clear Hfresh. intros [Hs Ht]. split; [done|]. rewrite Ht. unfold spoiled.
  destruct tmp; [|done]. split; [done|by left].
Qed.
Lemma prepared_ok body w :
  sv_source w = S0 ∧ sv_target w = D0 → (∀ w', holds None w' → handled body w') →
  handled (guarded tmp (clear_target tmp key;; body)) w.
Proof using HL Hfresh.
  intros Hh Hbody. apply guarded_ok; [done|]. apply wp_bind.
  eapply wp_mono; [by apply (clear_ok S0 D0 key e tmp Hfresh)| |done]. intros [] w'. apply Hbody.
Qed.
Lemma sized_ok (ask : M W string Z) P body w :
  asks ask key P → (∀ n, P (en_value e) n → n ≠ 0) → sv_source w = S0 ∧ sv_target w = D0 →
  (∀ n w', P (en_value e) n → holds None w' → handled (body n) w') →
  handled (ask ≫= λ n : Z, if n =? 0 then mret (Some false)
                           else guarded tmp (clear_target tmp key;; body n)) w.
Proof using HL Hfresh Hsrc.
  intros Hask HP Hh Hbody. apply wp_bind.
  eapply wp_mono; [apply (wp_asks S0 key e Hsrc _ _ _ _ Hask Hh)| |].
  - intros n w' [Hh' Hn]. destruct (Z.eqb_spec n 0) as [Hz|_]; [by destruct (HP n Hn)|].
    apply prepared_ok; [done|]. intros w2. by apply Hbody.
  - intros err w' Hh'. by apply start_fails.
Qed.
(** The two ways to read a set or a sorted set *)
Lemma collected_ok (bulk : M W string (list string)) scan add f fuel (small : bool) w :
  asks bulk key (λ v r, ∃ es, r = concat es ∧ es ≡ₚ elements v) →
  (∀ c, pages (scan c) key c) → adding add f → adds f (en_value e) →
  collection (en_value e) = true → elements (en_value e) ≠ [] →
  (sv_left S0 key "0" < fuel)%nat → holds None w →
  handled (if small then
             bulk ≫= λ items : list string,
             match items with
             | [] => drop_temp tmp;; mret (Some false)
             | _ => add items;; settled tmp key true
             end
           else scan_loop fuel scan add "0" ≫= settled tmp key) w.
Proof using HL Hfresh Hsrc.
  intros Hbulk Hscan Hadd Hf Hcol Hne Hfuel Hh. destruct small.
  - apply wp_bind. eapply wp_mono; [apply (wp_asks S0 key e Hsrc _ _ _ _ Hbulk Hh)| |].
    2:{ intros err w' Hh'. exact (holds_fails S0 D0 key e tmp Hfresh None err w' Hh'). }
    intros items w' [Hh' (es & -> & Hes)].
    destruct (bulk_copy add f es w' Hadd Hf Hcol Hne Hes Hh') as [Hc Hadded].
    destruct (concat es) as [|x items]; [done|].
    apply wp_bind. eapply wp_mono; [exact Hadded| |done]. intros [] w2 Hh2.
    eapply wp_mono; [by apply settled_ok| |done]. intros r w3 [-> Hcp]. by split.
  - apply (settled_after _ (Some (en_value e))); [done|].
    apply (scan_copy _ _ f _ _ None); [done..|]. by intros.
Qed.

Lemma hash_ok suffix fuel m w :
  tempKey suffix key = tmp → en_value e = VHash m → m ≠ ∅ → (sv_left S0 key "0" < fuel)%nat →
  sv_source w = S0 ∧ sv_target w = D0 → handled (migrateHash fuel suffix key) w.
Proof using HL Hfresh Hsrc.
  intros Htmp Hv Hm Hfuel Hh. unfold migrateHash. rewrite Htmp.
  assert (Hne : elements (en_value e) ≠ []).
  { rewrite Hv. cbn. intros Hnil%fmap_nil_inv. by apply map_to_list_empty_iff in Hnil. }
  apply (sized_ok _ size_reply (λ _, _)); [apply sv_hlen| |done|].
  - intros n Hn ->. rewrite Hv in Hne, Hn. specialize (Hn eq_refl). by destruct (elements (VHash m)).
  - intros _ w' _ Hh'. apply (settled_after _ (Some (en_value e))); [done|].
    apply (scan_copy _ _ hset_value _ _ None); [apply sv_hscan| | |by rewrite Hv|done..|by intros].
    + apply writes_adding. intros items. apply sv_hset.
    + rewrite Hv. apply adds_hset.
Qed.
Lemma set_ok suffix fuel s w :
  tempKey suffix key = tmp → en_value e = VSet s → s ≠ ∅ → (sv_left S0 key "0" < fuel)%nat →
  sv_source w = S0 ∧ sv_target w = D0 → handled (migrateSet fuel suffix key) w.
Proof using HL Hfresh Hsrc.
  intros Htmp Hv Hs Hfuel Hh. unfold migrateSet. rewrite Htmp.
  assert (Hne : elements (en_value e) ≠ []).
  { rewrite Hv. cbn. intros Hnil%fmap_nil_inv. apply elements_empty_iff in Hnil. set_solver. }
  apply (sized_ok _ size_reply (λ _, _)); [apply sv_scard| |done|].
  - intros n Hn ->. rewrite Hv in Hne, Hn. specialize (Hn eq_refl). by destruct (elements (VSet s)).
  - intros n w' _ Hh'. apply (collected_ok _ _ _ sadd_value);
      [apply sv_smembers|apply sv_sscan| | |by rewrite Hv|done..].
    + apply writes_adding. intros items. apply sv_sadd.
    + rewrite Hv. apply adds_sadd.
Qed.
Lemma zset_ok `{!PipelinesRun W} suffix fuel m w :
  tempKey suffix key = tmp → en_value e = VZset m → m ≠ ∅ →
  (∀ x score, m !! x = Some score → sv_canon score = score) → (sv_left S0 key "0" < fuel)%nat →
  sv_source w = S0 ∧ sv_target w = D0 → handled (migrateZset fuel suffix key) w.
Proof using HL Hfresh Hsrc.
  intros Htmp Hv Hm Hcanon Hfuel Hh. unfold migrateZset. rewrite Htmp.
  assert (Hne : elements (en_value e) ≠ []).
  { rewrite Hv. cbn. intros Hnil%fmap_nil_inv. by apply map_to_list_empty_iff in Hnil. }
  apply (sized_ok _ size_reply (λ _, _)); [apply sv_zcard| |done|].
  - intros n Hn ->. rewrite Hv in Hne, Hn. specialize (Hn eq_refl). by destruct (elements (VZset m)).
  - intros n w' _ Hh'.
    apply (collected_ok _ _ (λ raw, tg_zadds wk (score_pairs raw)) (λ raw, zadd_value sv_canon (score_pairs raw)));
      [apply sv_zrange|apply sv_zscan| | |by rewrite Hv|done..].
    + by eapply zadds_adding.
    + rewrite Hv. by apply adds_zadd.
Qed.
Lemma list_ok suffix l w :
  tempKey suffix key = tmp → en_value e = VList l → l ≠ [] →
  sv_source w = S0 ∧ sv_target w = D0 → handled (migrateList suffix key) w.
Proof using HL Hfresh Hsrc.
  intros Htmp Hv Hl Hh. unfold migrateList. rewrite Htmp.
  apply (sized_ok _ (λ v n, ∀ l, v = VList l → n = js_len l)); [apply sv_llen| |done|].
  - intros n Hn ->. specialize (Hn l Hv). by destruct l.
  - intros n w' Hn Hh'. rewrite (Hn l Hv). apply (settled_after _ (list_part l)).
    + by rewrite Hv, part_list.
    + apply chunks_copy; [done|lia|unfold js_len; lia|done].
Qed.
Lemma stream_ok suffix l fuel w :
  tempKey suffix key = tmp → en_value e = VStream l → well_formed (en_value e) →
  enough fuel S0 key (en_value e) →
  sv_source w = S0 ∧ sv_target w = D0 → handled (migrateStream fuel suffix key) w.
Proof using HL Hfresh Hsrc.
  intros Htmp Hv Hwf Hfuel Hh. rewrite Hv in Hwf, Hfuel. destruct Hwf as (Hl & Hnd & Hdash).
  unfold migrateStream. rewrite Htmp. apply prepared_ok; [done|]. intros w' Hh'.
  apply wp_bind. eapply wp_mono;
    [apply (stream_copy l fuel Hv Hl Hnd Hdash [] l); [done|done|by left|done]| |done].
  intros r w2 [-> Hh2]. rewrite part_stream, <-Hv in Hh2 by done.
    eapply wp_mono; [by apply settled_ok| |done]. intros r w3 [-> Hc]. by split.
Qed.
(** A string is written by one command: a failure leaves the old value or the new one. *)
Lemma string_ok s w :
  en_value e = VString s → sv_source w = S0 ∧ sv_target w = D0 →
  wp (migrateString key) finishes
    (λ _ w', sv_source w' = S0 ∧ only_at key D0 (sv_target w')
             ∧ whole e (D0 !! key) (sv_target w' !! key)) w.
Proof using HL Hsrc.
  clear Hfresh. intros Hv Hh.
  set (R := λ (_ : string) w', sv_source w' = S0 ∧ only_at key D0 (sv_target w')
                               ∧ whole e (D0 !! key) (sv_target w' !! key)).
  assert (HR : ∀ err w', sv_source w' = S0 ∧ sv_target w' = D0 → R err w').
  { intros err w' [Hs Ht]. split; [done|]. rewrite Ht. split; [done|by left]. }
  assert (Hset : ∀ p w', sv_source w' = S0 ∧ sv_target w' = D0 →
            match en_pttl e with None => p = None | Some t => ∃ q, p = Some q ∧ 0 < q ≤ t end →
            wp (tg_set key s p;; mret (Some true)) finishes R w').
  { intros p w' [Hs' Ht'] Hp. apply wp_bind.
    assert (Ha : ∀ d', was_set key s p D0 d' → arrived e (d' !! key) ∧ only_at key D0 d').
    { intros d' ->. split; [|intros k Hk; by apply lookup_insert_ne].
      rewrite lookup_insert_eq, <-Hv. unfold arrived. destruct (en_pttl e) eqn:He.
      - destruct Hp as (q & -> & Hq). right. by exists q.
      - subst p. f_equal. by apply persistent_eta. }
    eapply wp_mono; [apply sv_set| |]; rewrite Hs', Ht'.
    - intros [] w2 [Hs2 Hd]. apply wp_ret. split; [by eexists|]. destruct (Ha _ Hd).
      by split_and!.
    - intros err w2 [Hs2 [Hd|Hd]]; [apply HR; split; congruence|].
      destruct (Ha _ Hd). split_and!; [done..|]. by apply arrived_whole. }
  apply wp_bind. eapply wp_mono; [apply (wp_asks S0 key e Hsrc _ _ _ _ (sv_get key) Hh)| |apply HR].
  intros value w' [Hh' Hvalue]. specialize (Hvalue s Hv) as ->. apply wp_bind.
  eapply wp_mono; [apply (wp_reads S0 _ _ _ _ (sv_pttl key) Hh')| |apply HR].
  intros p w2 [Hh2 Hp]. destruct Hh' as [Hs' _]. rewrite Hs', Hsrc in Hp. cbn in Hp.
  destruct (Z.ltb_spec 0 p) as [Hpos|Hneg].
  - apply Hset; [done|]. destruct (en_pttl e); [|lia]. exists p. split; [done|lia].
  - destruct (en_pttl e) as [t|] eqn:He; [|subst p; apply Hset; [done|by rewrite ?He]].
    destruct ((p =? -2) || (p =? 0)) eqn:Hz; [|lia].
    apply wp_bind. destruct Hh2 as [Hs2 Ht2]. unfold deleted.
    assert (Ho : ∀ d, d = delete key D0 → only_at key D0 d ∧ d !! key = None).
    { intros d ->. split; [|apply lookup_delete_eq]. intros k Hk. by apply lookup_delete_ne. }
    eapply wp_mono; [apply sv_del| |]; rewrite Hs2, Ht2.
    + intros [] w3 [Hs3 Hd]. apply wp_ret. destruct (Ho _ Hd) as [Ho1 Ho2].
      split; [by eexists|]. split_and!; [done| |done]. unfold arrived. rewrite He. by left.
    + intros err w3 [Hs3 [Hd|Hd]]; [apply HR; split; congruence|].
      destruct (Ho _ Hd). split_and!; [done..|]. by right; left.
Qed.
End handlers_copy.

(** *** One key *)
Section migrate_key.
Context {W : Type} `{!Source W, !Target W, !Servers W} {HL : ServerLaws W}.

(** The temporary key is not in use. *)
Definition fresh (suffix key : string) (d : DB) : Prop :=
  match tempKey suffix key with Some t => t ≠ key ∧ d !! t = None | None => True end.
(** What is left of the old data of the target when the copy failed *)
Definition aborted (suffix key : string) (e : Entry) (d d' : DB) : Prop :=
  (∀ k, k ≠ key → tempKey suffix key ≠ Some k → d' !! k = d !! k)
  ∧ (type_name (en_value e) = "string" ∨ is_Some (tempKey suffix key) →
     whole e (d !! key) (d' !! key)).

Lemma list_check_ok key w :
  wp (list_check key) (λ _ w', same_data w w') (λ _ _, False) w.
Proof using HL.
  apply wp_catch, wp_bind. eapply wp_mono; [apply (sv_tlen key)| |].
  - intros n w1 [[Hs1 Ht1] _]. apply wp_bind. eapply wp_mono; [apply (sv_llen key)| |].
    + intros n2 w2 [[Hs2 Ht2] _]. apply wp_ret. split; congruence.
    + intros err w2 [Hs2 Ht2]. apply wp_ret. split; congruence.
  - intros err w1 Hd. by apply wp_ret.
Qed.
Lemma fails_aborted suffix key e d err w w' :
  type_name (en_value e) ≠ "string" →
  fails (sv_source w) d key e (tempKey suffix key) err w' →
  sv_source w' = sv_source w ∧ aborted suffix key e d (sv_target w').
Proof.
  intros Ht [Hs Hd]. split; [done|]. unfold spoiled, aborted in *.
  destruct (tempKey suffix key) as [t|].
  - destruct Hd as [Ho Hw]. split; [|done]. intros k Hk Hkt. apply Ho; congruence.
  - split; [intros k Hk _; by apply Hd|]. intros [?|[??]]; done.
Qed.

Lemma handler_ok fuel suffix key e w :
  sv_source w !! key = Some e → well_formed (en_value e) →
  enough fuel (sv_source w) key (en_value e) → fresh suffix key (sv_target w) →
  (type_name (en_value e) = "zset" → PipelinesRun W) →
  ∃ m, handler fuel suffix key (type_name (en_value e)) = Some m
    ∧ wp m (λ r w', is_Some r ∧ copied (sv_source w) (sv_target w) key e w')
           (λ _ w', sv_source w' = sv_source w
                    ∧ aborted suffix key e (sv_target w) (sv_target w')) w.
Proof using HL.
  intros Hsrc Hwf Hfuel Hfresh Hz. unfold handler.
  destruct (en_value e) as [s|m|l|s|m|l] eqn:Hv; cbn [type_name]; (eexists; split; [reflexivity|]).
  - eapply wp_mono; [by eapply (string_ok _ _ _ _ Hsrc)|done|].
    intros err w' (Hs & Ho & Hw). split; [done|]. split; [intros k Hk _; by apply Ho|done].
  - eapply wp_mono; [by eapply (hash_ok _ _ _ _ _ Hsrc Hfresh)|done|].
    intros err w'. apply fails_aborted. by rewrite Hv.
  - eapply wp_mono; [by eapply (list_ok _ _ _ _ _ Hsrc Hfresh)|done|].
    intros err w'. apply fails_aborted. by rewrite Hv.
  - eapply wp_mono; [by eapply (set_ok _ _ _ _ _ Hsrc Hfresh)|done|].
    intros err w'. apply fails_aborted. by rewrite Hv.
  - destruct Hwf as [Hne Hcanon]. specialize (Hz eq_refl).
    eapply wp_mono; [by eapply (zset_ok _ _ _ _ _ Hsrc Hfresh)|done|].
    intros err w'. apply fails_aborted. by rewrite Hv.
  - rewrite <-Hv in Hwf, Hfuel. eapply wp_mono; [by eapply (stream_ok _ _ _ _ _ Hsrc Hfresh)|done|].
    intros err w'. apply fails_aborted. by rewrite Hv.
Qed.
Lemma migrateKey_ok fuel suffix key e w :
  sv_source w !! key = Some e → well_formed (en_value e) →
  enough fuel (sv_source w) key (en_value e) → fresh suffix key (sv_target w) →
  (type_name (en_value e) = "zset" → PipelinesRun W) →
  wp (migrateKey fuel suffix key (type_name (en_value e)))
    (λ r w', ∃ k, r = Some k ∧ sv_source w' = sv_source w
       ∧ if mk_ok k then arrived e (sv_target w' !! key) ∧ only_at key (sv_target w) (sv_target w')
         else aborted suffix key e (sv_target w) (sv_target w'))
    (λ _ _, False) w.
Proof using HL.
  intros Hsrc Hwf Hfuel Hfresh Hz. unfold migrateKey.
  destruct (handler_ok fuel suffix key e w Hsrc Hwf Hfuel Hfresh Hz) as (m & -> & Hm).
  apply wp_catch, wp_bind. eapply wp_mono; [exact Hm| |].
  - intros r w' [[wrote ->] (Hs & Ha & Ho)]. apply wp_bind.
    set (type := type_name (en_value e)). clearbody type.
    assert (Hcheck : wp (if wrote && str_eqb type "list" then list_check key else mret None)
                       (λ _ w2, same_data w' w2) (λ _ _, False) w').
    { destruct (_ && _); [apply list_check_ok|by apply wp_ret]. }
    eapply wp_mono; [exact Hcheck| |done]. intros warning w2 [Hs2 Ht2]. apply wp_ret.
    eexists. split; [reflexivity|]. cbn. rewrite Ht2. split; [congruence|done].
  - intros err w' [Hs Ha]. apply wp_ret. eexists. split; [reflexivity|]. by split.
Qed.
End migrate_key.

(** *** Hash slots *)
Lemma index_of_app c s t :
  index_of c (s +:+ t) = match index_of c s with
                         | Some i => Some i
                         | None => (λ i, (String.length s + i)%nat) <$> index_of c t
                         end.
Proof.
  induction s as [|a s IH]; cbn; [by destruct (index_of c t)|].
  destruct (ascii_dec a c); [done|]. rewrite IH. destruct (index_of c s); [done|].
  by destruct (index_of c t).
Qed.
Lemma index_of_split c s i :
  index_of c s = Some i →
  ∃ s1 s2, s = s1 +:+ String c s2 ∧ index_of c s1 = None ∧ i = String.length s1.
Proof.
  revert i. induction s as [|a s IH]; intros i; cbn; [done|].
  destruct (ascii_dec a c) as [->|Hne].
  - intros [= <-]. by exists EmptyString, s.
  - intros (j & Hj & ->)%fmap_Some. destruct (IH j Hj) as (s1 & s2 & -> & Hn & ->).
    exists (String a s1), s2. cbn. rewrite Hn. by destruct (ascii_dec a c).
Qed.
(** The tag of a text whose first opening brace follows [s1] *)
Lemma hash_tag_open s1 s2 :
  index_of open_brace s1 = None →
  hash_tag (s1 +:+ String open_brace s2)
  = match index_of close_brace s2 with
    | Some (S j) => str_take (S j) s2
    | _ => s1 +:+ String open_brace s2
    end.
Proof.
  intros Hs1. unfold hash_tag. rewrite index_of_app, Hs1. cbn -[str_drop].
  rewrite Nat.add_0_r.
  assert (str_drop (S (String.length s1)) (s1 +:+ String open_brace s2) = s2) as ->.
  { clear Hs1. induction s1 as [|a s1 IH]; [done|]. exact IH. }
  done.
Qed.
Definition temp_prefix (suffix : string) : string := "__betterdb_mig_" +:+ suffix +:+ ":".
Lemma temp_prefix_open suffix :
  index_of open_brace suffix = None → index_of open_brace (temp_prefix suffix) = None.
Proof. intros Hs. unfold temp_prefix. rewrite !index_of_app, Hs. done. Qed.
Lemma temp_prefix_app suffix s :
  "__betterdb_mig_" +:+ suffix +:+ ":" +:+ s = temp_prefix suffix +:+ s.
Proof. unfold temp_prefix. by rewrite !str_app_assoc. Qed.
Lemma str_take_length n s : (String.length (str_take n s) ≤ n)%nat.
Proof. revert s. induction n as [|n IH]; intros [|a s]; cbn; [lia..|]. specialize (IH s). lia. Qed.
Lemma wrapped_longer p c k : String.length (p +:+ String c (k +:+ "}")) ≠ String.length k.
Proof. rewrite str_app_length. cbn. rewrite str_app_length. cbn. lia. Qed.
(** The tag that a key of valid tag hands to its temporary key *)
Lemma brace_tag_spec key t :
  brace_tag key = Some t →
  ∃ tag, t = String open_brace (tag +:+ String close_brace EmptyString)
         ∧ tag ≠ EmptyString ∧ index_of close_brace tag = None ∧ hash_tag key = tag.
Proof.
  unfold brace_tag. intros (i & Hi & Ht)%bind_Some.
  destruct (index_of_split _ _ _ Hi) as (s1 & s2 & -> & Hs1 & ->).
  assert (Hdrop : str_drop (S (String.length s1)) (s1 +:+ String open_brace s2) = s2).
  { clear. induction s1 as [|a s1 IH]; [done|]. exact IH. }
  rewrite Hdrop in Ht. apply bind_Some in Ht as (j & Hj & Ht).
  destruct (Nat.ltb_spec 0 j) as [Hpos|]; [|done].
  destruct (index_of_split _ _ _ Hj) as (tag & s3 & -> & Htag & ->).
  assert (Htake : str_take (S (String.length tag)) (tag +:+ String close_brace s3)
                  = tag +:+ String close_brace EmptyString).
  { clear. induction tag as [|a tag IH]; cbn; [by destruct s3|]. f_equal. exact IH. }
  rewrite Htake in Ht. injection Ht as <-. exists tag. rewrite hash_tag_open, Hj by done.
  split_and!; [done|intros ->; cbn in Hpos; lia|done|].
  destruct (String.length tag) as [|n] eqn:Hn; [lia|]. rewrite <-Hn. apply str_take_app.
Qed.
Lemma hash_tag_wrapped suffix tag s :
  index_of open_brace suffix = None → index_of close_brace tag = None → tag ≠ EmptyString →
  hash_tag (temp_prefix suffix +:+ String open_brace (tag +:+ String close_brace s)) = tag.
Proof.
  intros Hs Htag Hne. rewrite hash_tag_open by by apply temp_prefix_open.
  rewrite index_of_app, Htag. cbn [index_of]. destruct (ascii_dec close_brace close_brace); [|done].
  cbn. rewrite Nat.add_0_r. destruct tag as [|a tag]; [done|]. cbn. f_equal. apply str_take_app.
Qed.

(** ** Theorems *)
Section migration.
Context {W : Type} `{!Source W, !Target W, !Servers W} {HL : ServerLaws W}.


End migration.

(** The temporary key of a key is in the same hash slot, so that it can be renamed in a
    cluster, exactly when the key is not empty and holds an opening brace or no closing one; a
    key like [a}b] gets a temporary key in another slot. *)
Theorem temp_key_same_slot suffix key t :
  index_of open_brace suffix = None → tempKey suffix key = Some t →
  hash_tag t = hash_tag key
  ↔ key ≠ EmptyString ∧ (index_of open_brace key ≠ None ∨ index_of close_brace key = None).
Proof.
  intros Hs Ht. unfold tempKey in Ht. destruct (index_of open_brace key) as [i|] eqn:Hi.
  - destruct (brace_tag key) as [b|] eqn:Hb; [|done].
    destruct (brace_tag_spec _ _ Hb) as (tag & -> & Hne & Hc & Hk).
    assert (t = temp_prefix suffix +:+ String open_brace (tag +:+ String close_brace EmptyString)) as ->.
    { rewrite <-temp_prefix_app. by injection Ht as <-. }
    rewrite hash_tag_wrapped by done. split; [intros _|done].
    split; [by intros ->|by left].
  - assert (t = temp_prefix suffix +:+ String open_brace (key +:+ "}")) as ->.
    { rewrite <-temp_prefix_app. by injection Ht as <-. }
    assert (Hkey : hash_tag key = key) by (unfold hash_tag; by rewrite Hi). rewrite Hkey.
    destruct (index_of close_brace key) as [j|] eqn:Hj.
    + split; [|intros [_ [?|?]]; done]. rewrite hash_tag_open by by apply temp_prefix_open.
      rewrite index_of_app, Hj. intros Heq. exfalso. apply (f_equal String.length) in Heq.
      destruct j as [|j]; [by apply wrapped_longer in Heq|].
      destruct (index_of_split _ _ _ Hj) as (s1 & s2 & -> & _ & Hlen).
      pose proof (str_take_length (S j) ((s1 +:+ String close_brace s2) +:+ "}")) as Hle.
      rewrite Heq, str_app_length in Hle. cbn in Hle. lia.
    + destruct key as [|a key].
      * split; [|by intros [? _]]. intros Heq. exfalso.
        rewrite hash_tag_open in Heq by by apply temp_prefix_open.
        apply (f_equal String.length) in Heq. by apply (wrapped_longer _ _ "") in Heq.
      * rewrite hash_tag_wrapped by done. split; [intros _|done]. split; [done|by right].
Qed.

(** ** Instances *)

(** Two servers in memory.  [dm_scripts]: whether the target runs scripts; [reject]: the members
    that the target refuses to add to a sorted set. *)
Module Demo.
Record World := { dm_source : DB; dm_target : DB; dm_scripts : bool }.
Definition wrong_type : string := "WRONGTYPE Operation against a key holding the wrong kind of value".
Definition ask {A} (key : string) (f : option Value → option A) : M World string A := λ w,
  (match f (stored key (dm_source w)) with Some a => Ok a | None => Throw wrong_type end, w).
Definition set_target (d : DB) (w : World) : World :=
  {| dm_source := dm_source w; dm_target := d; dm_scripts := dm_scripts w |}.
Definition tell (f : DB → option DB) : M World string unit := λ w,
  match f (dm_target w) with
  | Some d => (Ok tt, set_target d w)
  | None => (Throw wrong_type, w)
  end.
Definition add (f : option Value → option Value) (key : string) : M World string unit :=
  tell (λ d, (λ v, <[key := {| en_value := v; en_pttl := d !! key ≫= en_pttl |}]> d) <$> f (stored key d)).
Definition size (v : option Value) : option Z :=
  match v with
  | None => Some 0
  | Some (VList l) => Some (js_len l)
  | Some v => if collection v then Some (js_len (elements v)) else None
  end.
Definition flat (v : option Value) : option (list string) :=
  match v with
  | None => Some []
  | Some v => if collection v then Some (concat (elements v)) else None
  end.
Definition page (v : option Value) : option (Page string) := (λ l, ("0", l)) <$> flat v.
Fixpoint after (id : string) (l : list (string * list string)) : list (string * list string) :=
  match l with
  | [] => []
  | (id', _) :: l => if str_eqb id' id then l else after id l
  end.
Definition entries (start : string) (v : option Value) : option (list (string * list string)) :=
  match v with
  | None => Some []
  | Some (VStream l) =>
      Some (take (Z.to_nat STREAM_CHUNK)
              (if str_eqb start "-" then l else after (str_drop 1 start) l))
  | _ => None
  end.
#[local] Instance source : Source World := {
  so_get k := ask k (λ v, match v with
                          | None => Some None
                          | Some (VString s) => Some (Some s)
                          | _ => None
                          end);
  so_pttl k w := (Ok match dm_source w !! k with
                     | None => -2
                     | Some e => match en_pttl e with
                                 | None => -1
                                 | Some t => if t <? 0 then -2 else t
                                 end
                     end, w);
  so_hlen k := ask k size; so_scard k := ask k size; so_zcard k := ask k size;
  so_llen k := ask k size;
  so_hscan k _ := ask k page; so_sscan k _ := ask k page; so_zscan k _ := ask k page;
  so_lrange k a b := ask k (λ v, match v with
    | None => Some []
    | Some (VList l) => Some (take (Z.to_nat (b - a + 1)) (drop (Z.to_nat a) l))
    | _ => None
    end);
  so_smembers k := ask k flat; so_zrange k := ask k flat;
  so_xrange k start := ask k (entries start)
}.
Definition accepted (reject : string → bool) (l : list (string * string)) : list (string * string) :=
  js_filter (λ sm, negb (reject sm.2)) l.
Definition apply_ttl (k : string) (t : Z) (d : DB) : DB :=
  if 0 <? t then alter (λ e, {| en_value := en_value e; en_pttl := Some t |}) k d
  else if (t =? -2) || (t =? 0) then delete k d else d.
Definition move (tmp k : string) (d : DB) : option DB :=
  (λ e, <[k := e]> (delete tmp d)) <$> d !! tmp.
#[local] Instance target (reject : string → bool) : Target World := {
  tg_del k := tell (λ d, Some (delete k d));
  tg_set k v t := tell (λ d, Some (<[k := {| en_value := VString v; en_pttl := t |}]> d));
  tg_hset k l := add (hset_value l) k;
  tg_rpush k l := add (rpush_value l) k;
  tg_llen k w := (Ok (match stored k (dm_target w) with Some (VList l) => js_len l | _ => 0 end), w);
  tg_sadd k l := add (sadd_value l) k;
  tg_zadds k l := match accepted reject l with
                  | [] => mret tt
                  | l => try_catch (add (zadd_value (λ s, s) l) k) (λ _ : string, mret tt)
                  end;
  tg_xadd k id l := add (xadd_value id l) k;
  tg_rename tmp k := tell (move tmp k);
  tg_pexpire k t := tell (λ d, Some (alter (λ e, {| en_value := en_value e; en_pttl := Some t |}) k d));
  tg_eval tmp k t w :=
    if dm_scripts w then tell (λ d, apply_ttl k t <$> move tmp k d) w
    else (Throw "OOM command not allowed when used memory > 'maxmemory'.", w)
}.
#[local] Instance servers : Servers World := {
  sv_source := dm_source; sv_target := dm_target;
  sv_seen _ _ _ _ := false; sv_left _ _ _ := 0%nat; sv_canon s := s
}.

Lemma after_split id fields pre post :
  NoDup (pre ++ (id, fields) :: post).*1 → after id (pre ++ (id, fields) :: post) = post.
Proof.
  induction pre as [|[id' f'] pre IH]; cbn; intros Hnd.
  - unfold str_eqb. by rewrite bool_decide_eq_true_2.
  - apply NoDup_cons in Hnd as [Hnin Hnd]. unfold str_eqb. rewrite bool_decide_eq_false_2; [by apply IH|].
    intros ->. apply Hnin. rewrite fmap_app. set_solver.
Qed.

Section laws.
Context (reject : string → bool).
Lemma ask_asks {A} key (f : option Value → option A) P :
  (∀ v a, f (Some v) = Some a → P v a) →
  @asks World servers A (ask key f) key P.
Proof.
  intros Hf w. unfold ask, wp. cbn. destruct (f _) as [a|] eqn:Ha; [|done].
  split; [done|]. intros v Hv. apply Hf. by rewrite <-Hv.
Qed.
Lemma tell_writes (f : DB → option DB) step :
  (∀ d d', f d = Some d' → step d d') →
  @writes World servers (tell f) step.
Proof.
  intros Hf w. unfold tell, wp. cbn. destruct (f _) as [d|] eqn:Hd; cbn; [|by split; [|left]].
  split; [done|]. by apply Hf.
Qed.
Lemma add_writes f key :
  @writes World servers (add f key) (added f key).
Proof. apply tell_writes. intros d d' (v & Hv & ->)%fmap_Some. by exists v. Qed.
Lemma page_pages key c :
  @pages World servers (ask key page) key c.
Proof.
  intros w. unfold ask, wp, page, flat. cbn.
  destruct (stored key (dm_source w)) as [v|] eqn:Hs; cbn; [|split; [done|by intros]].
  destruct (collection v); cbn; [|done]. split; [done|]. intros v' [= <-].
  exists (elements v). cbn. split_and!; [done|done|done|by left].
Qed.
Lemma flat_asks key :
  @asks World servers _ (ask key flat) key
    (λ v r, ∃ es, r = concat es ∧ es ≡ₚ elements v).
Proof.
  apply ask_asks. intros v r. unfold flat. destruct (collection v); [|done].
  intros [= <-]. by exists (elements v).
Qed.
Lemma size_asks key :
  @asks World servers _ (ask key size) key
    (λ v n, size_reply v n ∧ ∀ l, v = VList l → n = js_len l).
Proof.
  apply ask_asks. intros v n. unfold size, size_reply. destruct v; cbn; try done;
    intros [= <-]; (split; [done|]); try done. by intros l' [= ->].
Qed.
Lemma asks_weaken {A} (m : M World string A) key (P Q : Value → A → Prop) :
  (∀ v a, P v a → Q v a) →
  @asks World servers A m key P →
  @asks World servers A m key Q.
Proof.
  intros HPQ Hm w. eapply wp_mono; [apply Hm| |done]. intros a w' [Hd Ha]. split; [done|].
  intros v Hv. by apply HPQ, Ha.
Qed.
Lemma accepted_sublist l : accepted reject l `sublist_of` l.
Proof. apply js_filter_sublist. Qed.
Lemma zadds_writes key l :
  @writes World servers (tg_zadds (Target := target reject) key l)
    (@zadded World servers key l).
Proof.
  intros w. cbn. pose proof (accepted_sublist l) as Hsub.
  destruct (accepted reject l) as [|x acc]; cbn.
  - unfold wp; cbn. split; [done|]. exists []. split; [apply sublist_nil_l|by left].
  - apply wp_catch. eapply wp_mono; [apply add_writes| |].
    + intros [] w' [Hs Ha]. split; [done|]. exists (x :: acc). split; [done|by right].
    + intros err w' [Hs Hd]. apply wp_ret. split; [done|]. exists (x :: acc).
      split; [done|]. destruct Hd; [by left|by right].
Qed.
Lemma eval_writes tmp key t :
  @writes World servers (tg_eval (Target := target reject) tmp key t)
    (λ d d', ∃ d1, renamed tmp key d d1 ∧ ttl_applied key t d1 d').
Proof.
  intros w. cbn. unfold wp. destruct (dm_scripts w) eqn:Hsc; [|by split; [|left]].
  apply (tell_writes _ (λ d d', ∃ d1, renamed tmp key d d1 ∧ ttl_applied key t d1 d')).
  intros d d' (d1 & Hm & ->)%fmap_Some. apply fmap_Some in Hm as (e & He & ->).
  eexists. split; [by exists e|]. unfold ttl_applied, apply_ttl.
  destruct (0 <? t); [done|]. by destruct (_ || _).
Qed.
Lemma server_laws : @ServerLaws World source (target reject) servers.
Proof.
  constructor.
  - intros k. apply ask_asks. intros v a. destruct v; try done. by intros [= <-] s' [= ->].
  - intros k w. cbn. unfold wp. cbn. split; [done|]. unfold pttl_reply.
    destruct (dm_source w !! k) as [e|]; [|done]. destruct (en_pttl e) as [t|]; [|done].
    destruct (Z.ltb_spec t 0); [by left|right; lia].
  - intros k. eapply asks_weaken; [|apply size_asks]. by intros v n [? _].
  - intros k. eapply asks_weaken; [|apply size_asks]. by intros v n [? _].
  - intros k. eapply asks_weaken; [|apply size_asks]. by intros v n [? _].
  - intros k. eapply asks_weaken; [|apply size_asks]. by intros v n [_ ?].
  - intros k a b Ha Hab. apply ask_asks. intros v r. destruct v; try done.
    by intros [= <-] l' [= ->].
  - intros k. apply flat_asks.
  - intros k. apply flat_asks.
  - intros k c. apply page_pages.
  - intros k c. apply page_pages.
  - intros k c. apply page_pages.
  - intros k. apply ask_asks. intros v r. destruct v; try done.
    cbn. by intros [= <-] l' [= ->].
  - intros k id. apply ask_asks. intros v r. destruct v as [| | | | |l]; try done.
    cbn. intros [= <-] pre fields post [= ->] Hnd. by rewrite after_split.
  - intros k w. by split.
  - intros k. apply tell_writes. by intros d d' [= <-].
  - intros k v t. apply tell_writes. by intros d d' [= <-].
  - intros k l _. apply add_writes.
  - intros k l _. apply add_writes.
  - intros k l _. apply add_writes.
  - intros k l. apply zadds_writes.
  - intros k id l. apply add_writes.
  - intros tmp k. apply tell_writes. intros d d' (e & He & ->)%fmap_Some. by exists e.
  - intros k t. apply tell_writes. by intros d d' [= <-].
  - intros tmp k t. apply eval_writes.
Qed.
End laws.
End Demo.

Section samples.
#[local] Existing Instance Demo.source.
#[local] Instance demo_target : Target Demo.World := Demo.target (λ _, false).
#[local] Existing Instance Demo.servers.
#[local] Instance demo_laws : ServerLaws Demo.World := Demo.server_laws (λ _, false).

Definition demo_hash : Entry :=
  {| en_value := VHash {[ "name" := "ann"; "age" := "42" ]}; en_pttl := Some 500 |}.
(** The target has a key of the same name and another one. *)
Definition demo_world (scripts : bool) : Demo.World := {|
  Demo.dm_source := {[ "user:1" := demo_hash ]};
  Demo.dm_target := {[ "user:1" := persistent (VString "old"); "n" := persistent (VString "7") ]};
  Demo.dm_scripts := scripts
|}.
Lemma demo_well_formed : well_formed (en_value demo_hash).
Proof. cbn. intros Hm. by apply (f_equal (lookup "age")) in Hm. Qed.


Example demo_dropped :
  let '(r, w') := migrateKey 1 "00ff" "user:1" "hash" (demo_world false) in
  match r with Ok (Some k) => mk_ok k | _ => true end = false
  ∧ sv_target w' = sv_target (demo_world false).
Proof. vm_compute. by split. Qed.

Lemma temp_key_same_slot_witness :
  hash_tag "__betterdb_mig_00ff:{42}" = hash_tag "cart:{42}:items".
Proof.
  apply (temp_key_same_slot "00ff" "cart:{42}:items" "__betterdb_mig_00ff:{42}");
    [reflexivity|reflexivity|split; [discriminate|left; discriminate]].
Defined.
Example temp_key_other_slot :
  tempKey "00ff" "a}b" = Some "__betterdb_mig_00ff:{a}b}"
  ∧ hash_tag "__betterdb_mig_00ff:{a}b}" = "a" ∧ hash_tag "a}b" = "a}b".
Proof. done. Qed.

(** A stream without entries is reported as migrated, and the target has no such key. *)
Lemma empty_stream_not_created :
  let w := {| Demo.dm_source := {[ "s" := persistent (VStream []) ]}; Demo.dm_target := ∅;
              Demo.dm_scripts := true |} in
  let '(r, w') := migrateKey 1 "00ff" "s" "stream" w in
  r = Ok (Some (migrated "s" "stream" None)) ∧ sv_target w' !! "s" = None.
Proof. vm_compute. by split. Qed.
End samples.

(** The replies of a pipeline are not looked at: when the target refuses a member, a part of
    the sorted set is reported as migrated. *)
Section partial_pipeline.
#[local] Existing Instance Demo.source.
#[local] Instance picky_target : Target Demo.World := Demo.target (λ member, str_eqb member "b").
#[local] Existing Instance Demo.servers.
Lemma zset_partly_copied :
  let w := {| Demo.dm_source := {[ "z" := persistent (VZset {[ "a" := "1"; "b" := "2" ]}) ]};
              Demo.dm_target := ∅; Demo.dm_scripts := true |} in
  let '(r, w') := migrateKey 1 "00ff" "z" "zset" w in
  r = Ok (Some (migrated "z" "zset" None))
  ∧ sv_target w' !! "z" = Some (persistent (VZset {[ "a" := "1" ]})).
Proof. vm_compute. by split. Qed.
Lemma picky_laws : ServerLaws Demo.World.
Proof. apply Demo.server_laws. Qed.
End partial_pipeline.
