(* ===== verification/MigrationWorker.v ===== *)
(** * Migrating a keyspace

    [apps/api/src/migration/execution/command-migration-worker.ts]: the worker connects to the
    target and to every primary of the source, walks each primary with SCAN, asks for the types
    of a page of keys and copies them in batches with [migrateKey].  The keys of a batch are
    copied concurrently; here they take effect one after the other, in an order that the
    environment chooses. *)
From S2P Require Export JsNumber MigrationKeys.
From stdpp Require Import options.

(** ** Definitions *)
Definition TYPE_UNDEFINED : string := "undefined".
Definition MIGRATE_BATCH : nat := 50.

(** *** Masters of a cluster *)
(** [s.lastIndexOf(c)] *)
Fixpoint last_index_of (c : ascii) (s : string) : option nat :=
  match s with
  | EmptyString => None
  | String a s' =>
      match last_index_of c s' with
      | Some i => Some (S i)
      | None => if ascii_dec a c then Some 0%nat else None
      end
  end.
(** [host.slice(1, -1)] *)
Definition inner (s : string) : string := str_take (String.length s - 2) (str_drop 1 s).
(** [host:port@clusterport] *)
Definition parse_address (field : string) : string * option Z :=
  let addrPart := default EmptyString (head (split_char "@" field)) in
  match last_index_of ":" addrPart with
  | Some (S i) => (str_take (S i) addrPart, parse_int (str_drop (S (S i)) addrPart))
  | _ => (EmptyString, None)
  end.
Definition parse_master (line : string) : option (string * Z) :=
  if is_empty (trim line) then None
  else
    let parts := split_char " " line in
    let flags := default EmptyString (parts !! 2%nat) in
    if negb (includes "master" flags) then None
    else if includes "fail" flags || includes "noaddr" flags then None
    else
      let '(host, port) := parse_address (default EmptyString (parts !! 1%nat)) in
      let host := if starts_with "[" host && ends_with "]" host then inner host else host in
      match port with
      | Some port => if is_empty host then None else Some (host, port)
      | None => None
      end.
Definition parseClusterMasters (nodesRaw : string) : list (string * Z) :=
  omap parse_master (split_char newline nodesRaw).

(** *** The job and the environment *)
Record Job := {
  jb_keysTransferred : Z; jb_keysSkipped : Z; jb_totalKeys : Z; jb_logs : list string;
  jb_progress : option number
}.
(** [we_suffix]: the random part of the name of a temporary key; [we_cancelled]: whether the
    status of the job is [cancelled]; [we_order]: the order in which the copies of a batch take
    effect; [we_quit]: closing all connections. *)
Class WorkerEnv (W C : Type) := {
  we_source : C → Source W;
  we_connect_target : M W string unit;
  we_connect_source : M W string C;
  we_connect_discovery : M W string unit;
  we_cluster_nodes : M W string string;
  we_quit_discovery : M W string unit;
  we_connect_master : string → Z → M W string C;
  we_quit : list C → W → W;
  we_dbsize : C → M W string Z;
  we_scan : C → string → M W string (Page string);
  we_types : C → list string → M W string (option (list (option string * string)));
  we_suffix : M W string string;
  we_order : W → list (string * string) → list (string * string);
  we_cancelled : W → bool;
  we_timestamp : W → string
}.
Record WorkerState (W C : Type) := {
  ws_world : W; ws_job : Job; ws_clients : list C; ws_processed : Z; ws_skipped : Z
}.
Arguments ws_world {W C} _.
Arguments ws_job {W C} _.
Arguments ws_clients {W C} _.
Arguments ws_processed {W C} _.
Arguments ws_skipped {W C} _.
(** How the worker returns; [Out_of_fuel] when a loop of the model did. *)
Inductive Ending := Finished | Cancelled | Out_of_fuel.
#[global] Instance Ending_eq_dec : EqDecision Ending.
Proof. solve_decision. Defined.

Section worker.
Context {W C : Type} `{!WorkerEnv W C, !Target W}.
(** [n.toLocaleString()] *)
Context (toLocaleString : Z → string).
Abbreviation WM := (M (WorkerState W C) string).

Definition in_world {A} (m : M W string A) : WM A := λ s,
  let '(r, w) := m (ws_world s) in
  (r, {| ws_world := w; ws_job := ws_job s; ws_clients := ws_clients s;
         ws_processed := ws_processed s; ws_skipped := ws_skipped s |}).
Definition on_job (f : Job → Job) : WM unit := modify (λ s,
  {| ws_world := ws_world s; ws_job := f (ws_job s); ws_clients := ws_clients s;
     ws_processed := ws_processed s; ws_skipped := ws_skipped s |}).
Definition add_client (c : C) : WM unit := modify (λ s,
  {| ws_world := ws_world s; ws_job := ws_job s; ws_clients := ws_clients s ++ [c];
     ws_processed := ws_processed s; ws_skipped := ws_skipped s |}).
Definition count_processed : WM unit := modify (λ s,
  {| ws_world := ws_world s; ws_job := ws_job s; ws_clients := ws_clients s;
     ws_processed := ws_processed s + 1; ws_skipped := ws_skipped s |}).
Definition count_skipped : WM unit := modify (λ s,
  {| ws_world := ws_world s; ws_job := ws_job s; ws_clients := ws_clients s;
     ws_processed := ws_processed s; ws_skipped := ws_skipped s + 1 |}).

Definition set_transferred (n : Z) (j : Job) : Job :=
  {| jb_keysTransferred := n; jb_keysSkipped := jb_keysSkipped j; jb_totalKeys := jb_totalKeys j;
     jb_logs := jb_logs j; jb_progress := jb_progress j |}.
Definition set_skipped (n : Z) (j : Job) : Job :=
  {| jb_keysTransferred := jb_keysTransferred j; jb_keysSkipped := n; jb_totalKeys := jb_totalKeys j;
     jb_logs := jb_logs j; jb_progress := jb_progress j |}.
Definition set_total (n : Z) (j : Job) : Job :=
  {| jb_keysTransferred := jb_keysTransferred j; jb_keysSkipped := jb_keysSkipped j;
     jb_totalKeys := n; jb_logs := jb_logs j; jb_progress := jb_progress j |}.
Definition set_logs (l : list string) (j : Job) : Job :=
  {| jb_keysTransferred := jb_keysTransferred j; jb_keysSkipped := jb_keysSkipped j;
     jb_totalKeys := jb_totalKeys j; jb_logs := l; jb_progress := jb_progress j |}.
Definition set_progress (p : number) (j : Job) : Job :=
  {| jb_keysTransferred := jb_keysTransferred j; jb_keysSkipped := jb_keysSkipped j;
     jb_totalKeys := jb_totalKeys j; jb_logs := jb_logs j; jb_progress := Some p |}.

Definition push_log (maxLines : Z) (line : string) (j : Job) : Job :=
  let logs := jb_logs j ++ [line] in
  set_logs (if maxLines <? js_len logs then drop 1 logs else logs) j.
Definition log (maxLines : Z) (message : string) : WM unit :=
  get_state ≫= λ s : WorkerState W C,
  on_job (push_log maxLines ("[" +:+ we_timestamp (ws_world s) +:+ "] " +:+ message)).
Definition isCancelled : WM bool := gets (λ s, we_cancelled (ws_world s)).

Definition type_of_result (r : option string * string) : string :=
  match r with (Some _, _) => "none" | (None, val) => val end.
Definition batchType (client : C) (keys : list string) : WM (list string) :=
  results ← in_world (we_types client keys);
  mret (type_of_result <$> default [] results).
(** The pairs [keys[i]], [types[i]] *)
Fixpoint typed (keys types : list string) : list (string * string) :=
  match keys with
  | [] => []
  | key :: keys => (key, default TYPE_UNDEFINED (head types)) :: typed keys (tail types)
  end.

(** The copy of one key and what follows it; [false] when its loop ran out of fuel *)
Definition settle_key (maxLogLines : Z) (result : MigratedKey) : WM unit :=
  (if mk_ok result then
     on_job (λ j, set_transferred (jb_keysTransferred j + 1) j)
   else
     count_skipped;;
     get_state ≫= λ s : WorkerState W C,
     on_job (set_skipped (ws_skipped s));;
     log maxLogLines ("SKIP " +:+ mk_key result +:+ " (" +:+ mk_type result +:+ "): "
                      +:+ default TYPE_UNDEFINED (mk_error result)));;
  count_processed.
Definition run_key (fuel : nat) (maxLogLines : Z) (client : C) (key type : string) : WM bool :=
  if str_eqb type "none" then count_processed;; mret true
  else
    in_world we_suffix ≫= λ suffix : string,
    in_world (@migrateKey W (we_source client) _ fuel suffix key type) ≫= λ result,
    match result with
    | None => mret false
    | Some result => settle_key maxLogLines result;; mret true
    end.
Fixpoint run_keys (fuel : nat) (maxLogLines : Z) (client : C) (l : list (string * string))
    : WM bool :=
  match l with
  | [] => mret true
  | (key, type) :: l =>
      run_key fuel maxLogLines client key type ≫= λ ended : bool,
      if ended then run_keys fuel maxLogLines client l else mret false
  end.

Definition progress_of (processed total : Z) : number :=
  num_min (num_of_Z 99)
    (math_round (num_mul (num_div (num_of_Z processed) (num_of_Z total)) (num_of_Z 100))).
(** [for (let batchStart = 0; batchStart < keys.length; batchStart += MIGRATE_BATCH)]; [n]
    bounds the rounds. *)
Fixpoint run_batches (n fuel : nat) (maxLogLines totalKeys : Z) (client : C)
    (l : list (string * string)) : WM Ending :=
  match l, n with
  | [], _ => mret Finished
  | _, 0%nat => mret Out_of_fuel
  | _, S n =>
      isCancelled ≫= λ cancelled : bool,
      if cancelled then mret Cancelled
      else
        get_state ≫= λ s : WorkerState W C,
        run_keys fuel maxLogLines client (we_order (ws_world s) (take MIGRATE_BATCH l))
          ≫= λ ended : bool,
        if ended then
          get_state ≫= λ s : WorkerState W C,
          on_job (set_progress (progress_of (ws_processed s) totalKeys));;
          run_batches n fuel maxLogLines totalKeys client (drop MIGRATE_BATCH l)
        else mret Out_of_fuel
  end.

Definition progress_line (totalKeys : Z) (s : WorkerState W C) : string :=
  "Progress: " +:+ toLocaleString (ws_processed s) +:+ "/" +:+ toLocaleString totalKeys +:+ " keys ("
  +:+ toLocaleString (jb_keysTransferred (ws_job s)) +:+ " transferred, "
  +:+ string_of_Z (ws_skipped s) +:+ " skipped)".
(** The body of the [do] loop for a page of keys *)
Definition run_page (fuel : nat) (maxLogLines totalKeys : Z) (client : C) (keys : list string)
    : WM Ending :=
  match keys with
  | [] => mret Finished
  | _ =>
      batchType client keys ≫= λ types : list string,
      run_batches (length keys) fuel maxLogLines totalKeys client (typed keys types)
        ≫= λ ending : Ending,
      if decide (ending = Finished) then
        get_state ≫= λ s : WorkerState W C,
        (if Z.rem (ws_processed s) 5000 <? js_len keys
         then log maxLogLines (progress_line totalKeys s) else mret tt);;
        mret Finished
      else mret ending
  end.
(** [do { ... } while (cursor !== '0')] *)
Fixpoint scan_node (n fuel : nat) (maxLogLines totalKeys : Z) (client : C) (cursor : string)
    : WM Ending :=
  match n with
  | 0%nat => mret Out_of_fuel
  | S n =>
      isCancelled ≫= λ cancelled : bool,
      if cancelled then mret Cancelled
      else
        in_world (we_scan client cursor) ≫= λ page : Page string,
        run_page fuel maxLogLines totalKeys client page.2 ≫= λ ending : Ending,
        if decide (ending = Finished) then
          if str_eqb page.1 "0" then mret Finished
          else scan_node n fuel maxLogLines totalKeys client page.1
        else mret ending
  end.
(** The nodes in turn; [i] is [nodeIdx], [total] the number of nodes. *)
Fixpoint scan_nodes (fuel : nat) (maxLogLines totalKeys : Z) (i total : Z) (clients : list C)
    : WM Ending :=
  match clients with
  | [] => mret Finished
  | client :: clients =>
      isCancelled ≫= λ cancelled : bool,
      if cancelled then mret Cancelled
      else
        (if 1 <? total
         then log maxLogLines ("Scanning node " +:+ string_of_Z (i + 1) +:+ "/" +:+ string_of_Z total +:+ "...")
         else mret tt);;
        scan_node fuel fuel maxLogLines totalKeys client "0" ≫= λ ending : Ending,
        if decide (ending = Finished)
        then scan_nodes fuel maxLogLines totalKeys (i + 1) total clients
        else mret ending
  end.

(** *** The connections *)
(** [try { m } finally { f }] *)
Definition try_finally {A} (m : WM A) (f : WM unit) : WM A := λ s,
  let '(r, s') := m s in
  match f s' with
  | (Ok _, s'') => (r, s'')
  | (Throw e, s'') => (Throw e, s'')
  end.
Definition connect_masters (maxLogLines : Z) : WM unit :=
  in_world we_cluster_nodes ≫= λ nodesRaw : string,
  let masters := parseClusterMasters nodesRaw in
  log maxLogLines ("Cluster mode: " +:+ string_of_Z (js_len masters) +:+ " master(s) detected");;
  for_each masters (λ '(host, port),
    in_world (we_connect_master host port) ≫= λ client, add_client client).
Definition connect_sources (maxLogLines : Z) (sourceIsCluster : bool) : WM unit :=
  if sourceIsCluster then
    in_world we_connect_discovery;;
    try_finally (connect_masters maxLogLines) (in_world we_quit_discovery)
  else in_world we_connect_source ≫= λ client, add_client client.
Fixpoint count_keys (clients : list C) (total : Z) : WM Z :=
  match clients with
  | [] => mret total
  | client :: clients => in_world (we_dbsize client) ≫= λ n : Z, count_keys clients (total + n)
  end.
Definition complete_line (totalKeys : Z) (s : WorkerState W C) : string :=
  "Migration complete: " +:+ toLocaleString (jb_keysTransferred (ws_job s)) +:+ " transferred, "
  +:+ string_of_Z (ws_skipped s) +:+ " skipped out of " +:+ toLocaleString totalKeys +:+ " total".
Definition migrate_all (fuel : nat) (maxLogLines : Z) : WM Ending :=
  get_state ≫= λ s : WorkerState W C,
  let clients := ws_clients s in
  log maxLogLines ("Connected to source (" +:+ string_of_Z (js_len clients) +:+ " node(s))");;
  count_keys clients 0 ≫= λ totalKeys : Z,
  on_job (set_total totalKeys);;
  log maxLogLines ("Total keys to migrate: " +:+ toLocaleString totalKeys);;
  if totalKeys =? 0 then
    log maxLogLines "No keys to migrate";;
    on_job (set_progress (num_of_Z 100));;
    mret Finished
  else
    scan_nodes fuel maxLogLines totalKeys 0 (js_len clients) clients ≫= λ ending : Ending,
    if decide (ending = Finished) then
      on_job (set_progress (num_of_Z 100));;
      get_state ≫= λ s : WorkerState W C,
      log maxLogLines (complete_line totalKeys s);;
      mret Finished
    else mret ending.
Definition quit_all : WM unit := modify (λ s,
  {| ws_world := we_quit (ws_clients s) (ws_world s); ws_job := ws_job s;
     ws_clients := ws_clients s; ws_processed := ws_processed s; ws_skipped := ws_skipped s |}).
Definition runCommandMigration (fuel : nat) (maxLogLines : Z) (sourceIsCluster targetIsCluster : bool)
    : WM Ending :=
  try_finally
    (in_world we_connect_target;;
     log maxLogLines ("Connected to target" +:+ (if targetIsCluster then " (cluster mode)" else EmptyString));;
     connect_sources maxLogLines sourceIsCluster;;
     migrate_all fuel maxLogLines)
    quit_all.
Definition new_worker (w : W) (job : Job) : WorkerState W C :=
  {| ws_world := w; ws_job := job; ws_clients := []; ws_processed := 0; ws_skipped := 0 |}.
End worker.

(** ** Specification *)

(** The source and what it answers: nobody writes to it, each key is held by one of its primaries
    ([wl_owns]), SCAN visits the keys of a primary between two cursors ([wl_seen], [wl_left] bounds
    the calls that follow), no TYPE fails, and the name of a temporary key is not in use. *)
Class WorkerLaws (W C : Type) `{!WorkerEnv W C, !Target W, !Servers W} := {
  wl_source c : @ServerLaws W (we_source c) _ _;
  wl_owns : C → string → bool;
  wl_seen : C → string → string → bool;
  wl_left : C → string → nat;
  wl_connect_target : reads we_connect_target (λ _ _, True);
  wl_connect_source : reads we_connect_source (λ _ _, True);
  wl_connect_discovery : reads we_connect_discovery (λ _ _, True);
  wl_cluster_nodes : reads we_cluster_nodes (λ _ _, True);
  wl_quit_discovery : reads we_quit_discovery (λ _ _, True);
  wl_connect_master host port : reads (we_connect_master host port) (λ _ _, True);
  wl_quit cs w : same_data w (we_quit cs w);
  wl_dbsize c : reads (we_dbsize c) (λ w n, 0 ≤ n
    ∧ (n = 0 → ∀ k, is_Some (sv_source w !! k) → wl_owns c k = false));
  wl_scan c cursor : reads (we_scan c cursor) (λ w page,
    (∀ k, k ∈ page.2 → is_Some (sv_source w !! k))
    ∧ (∀ k, is_Some (sv_source w !! k) → wl_owns c k = true →
         (cursor = "0" ∨ wl_seen c cursor k = false) →
         (page.1 = "0" ∨ wl_seen c page.1 k = true) → k ∈ page.2)
    ∧ (page.1 = "0" ∨ (wl_left c page.1 < wl_left c cursor)%nat));
  wl_types c keys : reads (we_types c keys) (λ w r,
    ∀ es, Forall2 (λ k e, sv_source w !! k = Some e) keys es →
      r = Some ((λ e, (None, type_name (en_value e))) <$> es));
  wl_suffix : reads we_suffix (λ w suffix,
    ∀ k, is_Some (sv_source w !! k) → fresh suffix k (sv_target w));
  wl_order w l : we_order w l ≡ₚ l
}.

Definition new_job (j : Job) : Prop := jb_keysSkipped j = 0.

(** ** Lemmas *)
Section complete.
Context {W C : Type} `{!WorkerEnv W C, !Target W, !Servers W} {HL : WorkerLaws W C}.
Context {HP : PipelinesRun W}.
Context (S0 : DB) (fuel : nat).
Hypothesis Hwf : ∀ k e, S0 !! k = Some e → well_formed (en_value e).
Hypothesis Hfuel : ∀ k e, S0 !! k = Some e → enough fuel S0 k (en_value e).
Abbreviation State := (WorkerState W C).

(** As long as nothing was skipped, the keys in [ks] are on the target. *)
Definition good (cs : list C) (ks : list string) (s : State) : Prop :=
  sv_source (ws_world s) = S0 ∧ ws_clients s = cs ∧ 0 ≤ ws_skipped s
  ∧ jb_keysSkipped (ws_job s) = ws_skipped s
  ∧ (ws_skipped s = 0 → ∀ k e, k ∈ ks → S0 !! k = Some e → arrived e (sv_target (ws_world s) !! k)).
Abbreviation anyhow := (λ (_ : string) (_ : State), True).

Lemma good_sub cs ks ks' s : (∀ k, k ∈ ks' → k ∈ ks) → good cs ks s → good cs ks' s.
Proof. intros Hsub (? & ? & ? & ? & Ha). split_and!; try done. eauto. Qed.
Lemma good_world {A} (m : M W string A) P cs ks s :
  reads m P → good cs ks s →
  wp (in_world m) (λ a s', good cs ks s' ∧ P (ws_world s) a
                           ∧ same_data (ws_world s) (ws_world s')) anyhow s.
Proof.
  intros Hm (Hs & Hcs & Hn & Hj & Ha). specialize (Hm (ws_world s)). unfold wp, in_world in *.
  destruct (m (ws_world s)) as [[a|e] w']; [|done]. destruct Hm as [[Hs' Ht'] HP'].
  split; [|by split]. unfold good. cbn. rewrite Hs', Ht'. by split_and!.
Qed.
Lemma good_job f cs ks s :
  (∀ j, jb_keysSkipped (f j) = jb_keysSkipped j) → good cs ks s →
  wp (on_job f) (λ _, good cs ks) anyhow s.
Proof. intros Hf (? & ? & ? & ? & ?). unfold wp, on_job, modify, good. cbn. rewrite Hf. by split_and!. Qed.
Lemma good_log n message cs ks s :
  good cs ks s → wp (log n message) (λ _, good cs ks) anyhow s.
Proof. intros Hg. apply wp_bind. unfold wp at 1. cbn. by apply good_job. Qed.

Lemma run_key_ok n c key e cs ks s :
  S0 !! key = Some e → good cs ks s →
  wp (run_key fuel n c key (type_name (en_value e)))
    (λ b s', b = true ∧ good cs (key :: ks) s') anyhow s.
Proof using HL HP Hwf Hfuel.
  intros Hkey Hg. unfold run_key. assert (str_eqb (type_name (en_value e)) "none" = false) as ->.
  { by destruct (en_value e). }
  apply wp_bind. eapply wp_mono; [apply (good_world _ _ _ _ _ wl_suffix Hg)| |done].
  intros suffix s1 (Hg1 & Hfresh & Hd1). apply wp_bind.
  assert (Hf1 : fresh suffix key (sv_target (ws_world s1))).
  { destruct Hd1 as [_ ->]. apply Hfresh. destruct Hg as [-> _]. by exists e. }
  destruct Hg1 as (Hs & Hcs & Hn & Hj & Ha).
  pose proof (@migrateKey_ok W (we_source c) _ _ (wl_source c) fuel suffix key e (ws_world s1)) as Hwp.
  rewrite Hs in Hwp. specialize (Hwp Hkey (Hwf _ _ Hkey) (Hfuel _ _ Hkey) Hf1 (λ _, HP)).
  unfold wp, in_world in *.
  destruct (migrateKey fuel suffix key _ (ws_world s1)) as [[r|err] w2]; [|done].
  destruct Hwp as (k & -> & Hs2 & Hk). unfold settle_key.
  destruct (mk_ok k); cbn; (split; [done|]); unfold good; cbn.
  - destruct Hk as [Harr Honly]. split_and!; [done..|]. intros Hz k' e' Hin Hk'.
    destruct (decide (k' = key)) as [->|Hne]; [congruence|]. rewrite Honly by done.
    apply Ha; [done| |done]. apply elem_of_cons in Hin as [?|?]; done.
  - split_and!; [done|done|lia|done|lia].
Qed.
Lemma run_keys_ok n c l : ∀ cs ks s,
  (∀ key type, (key, type) ∈ l → ∃ e, S0 !! key = Some e ∧ type = type_name (en_value e)) →
  good cs ks s →
  wp (run_keys fuel n c l) (λ b s', b = true ∧ good cs (l.*1 ++ ks) s') anyhow s.
Proof using HL HP Hwf Hfuel.
  induction l as [|[key type] l IH]; intros cs ks s Hl Hg; [by apply wp_ret|].
  cbn [run_keys]. destruct (Hl key type) as (e & He & ->); [by left|]. apply wp_bind.
  eapply wp_mono; [by apply run_key_ok| |done]. intros b s1 [-> Hg1].
  eapply wp_mono; [apply (IH _ _ _ (λ k t Hin, Hl k t (list_elem_of_further _ _ _ Hin)) Hg1)| |done].
  intros b s2 [-> Hg2]. split; [done|]. eapply good_sub; [|exact Hg2].
  intros k. cbn. rewrite !elem_of_cons, !elem_of_app, elem_of_cons. tauto.
Qed.

(** How a loop ends: all its keys are done, or the job was cancelled. *)
Definition ends (cs : list C) (ks : list string) (ending : Ending) (s : State) : Prop :=
  (ending = Finished ∧ good cs ks s) ∨ ending = Cancelled.
Lemma cancel_check {B} (k : bool → M State string B) (Q : B → State → Prop) s :
  wp (k (we_cancelled (ws_world s))) Q anyhow s → wp (isCancelled ≫= k) Q anyhow s.
Proof. done. Qed.
Lemma read_state {B} (k : State → M State string B) (Q : B → State → Prop) s :
  wp (k s) Q anyhow s → wp (get_state ≫= k) Q anyhow s.
Proof. done. Qed.

Definition right_types (l : list (string * string)) : Prop :=
  ∀ key type, (key, type) ∈ l → ∃ e, S0 !! key = Some e ∧ type = type_name (en_value e).
Lemma run_batches_ok rounds n total c : ∀ l cs ks s,
  (length l ≤ rounds)%nat → right_types l → good cs ks s →
  wp (run_batches rounds fuel n total c l) (ends cs (l.*1 ++ ks)) anyhow s.
Proof using HL HP Hwf Hfuel.
  induction rounds as [|rounds IH]; intros l cs ks s Hlen Hl Hg; (destruct l as [|x l']; [left; by split|]);
    [cbn in Hlen; lia|].
  set (l := x :: l') in *. change (run_batches (S rounds) fuel n total c l) with
    (isCancelled ≫= λ cancelled : bool,
      if cancelled then mret Cancelled
      else
        get_state ≫= λ s : State,
        run_keys fuel n c (we_order (ws_world s) (take MIGRATE_BATCH l)) ≫= λ ended : bool,
        if ended then
          get_state ≫= λ s : State,
          on_job (set_progress (progress_of (ws_processed s) total));;
          run_batches rounds fuel n total c (drop MIGRATE_BATCH l)
        else mret Out_of_fuel : M State string Ending).
  apply cancel_check. destruct (we_cancelled _); [by right|]. apply read_state, wp_bind.
  pose proof (wl_order (ws_world s) (take MIGRATE_BATCH l)) as Horder.
  eapply wp_mono; [apply (run_keys_ok n c _ cs ks s); [|done]| |done].
  { intros key type Hin. apply Hl. rewrite Horder in Hin. by eapply elem_of_take in Hin as (i & Hin & _); eapply list_elem_of_lookup_2. }
  intros b s1 [-> Hg1]. apply read_state, wp_bind.
  eapply wp_mono; [by apply good_job, Hg1| |done]. intros [] s2 Hg2.
  eapply wp_mono; [eapply (IH (drop MIGRATE_BATCH l)); [| |exact Hg2]| |done].
  - rewrite length_drop. cbn in Hlen |- *. unfold MIGRATE_BATCH. lia.
  - intros key type Hin. apply Hl. rewrite <-(take_drop MIGRATE_BATCH l). set_solver.
  - intros ending s3 [[-> Hg3]| ->]; [left; split; [done|]|by right].
    eapply good_sub; [|exact Hg3]. intros k. rewrite !elem_of_app.
    rewrite (fmap_Permutation _ _ _ Horder), <-(take_drop MIGRATE_BATCH l) at 1.
    rewrite fmap_app, elem_of_app. tauto.
Qed.

(** The types of a page of present keys *)
Lemma present_entries keys :
  (∀ k, k ∈ keys → is_Some (S0 !! k)) → ∃ es, Forall2 (λ k e, S0 !! k = Some e) keys es.
Proof.
  induction keys as [|k keys IH]; intros Hk; [by exists []|].
  destruct IH as [es Hes]; [intros k' Hin; apply Hk; by right|].
  destruct (Hk k) as [e He]; [by left|]. exists (e :: es). by constructor.
Qed.
Lemma typed_right keys es :
  Forall2 (λ k e, S0 !! k = Some e) keys es →
  (typed keys ((λ e, type_name (en_value e)) <$> es)).*1 = keys
  ∧ right_types (typed keys ((λ e, type_name (en_value e)) <$> es)).
Proof.
  induction 1 as [|k e keys es He _ [IH1 IH2]]; cbn.
  { split; [done|]. intros key type Hin. by apply not_elem_of_nil in Hin. }
  split; [by f_equal|]. intros key type [[= -> ->]|Hin]%elem_of_cons; [by exists e|by apply IH2].
Qed.
Lemma typed_length keys : ∀ types, length (typed keys types) = length keys.
Proof. induction keys as [|k keys IH]; intros types; cbn; [done|]. by rewrite IH. Qed.

Lemma run_page_ok toLocaleString n total c keys cs ks s :
  (∀ k, k ∈ keys → is_Some (S0 !! k)) → good cs ks s →
  wp (run_page toLocaleString fuel n total c keys) (ends cs (keys ++ ks)) anyhow s.
Proof using HL HP Hwf Hfuel.
  intros Hk Hg. destruct keys as [|k0 keys']; [by left|]. set (keys := k0 :: keys') in *.
  change (run_page toLocaleString fuel n total c keys) with
    (batchType c keys ≫= λ types : list string,
      run_batches (length keys) fuel n total c (typed keys types) ≫= λ ending : Ending,
      if decide (ending = Finished) then
        get_state ≫= λ s : State,
        (if Z.rem (ws_processed s) 5000 <? js_len keys
         then log n (progress_line toLocaleString total s) else mret tt);;
        mret Finished
      else mret ending : M State string Ending).
  clearbody keys. apply wp_bind. unfold batchType. apply wp_bind.
  eapply wp_mono; [apply (good_world _ _ _ _ _ (wl_types c keys) Hg)| |done].
  intros results s1 (Hg1 & Hr & _). apply wp_ret. destruct Hg as [Hs _]. rewrite Hs in Hr.
  destruct (present_entries keys Hk) as [es Hes]. rewrite (Hr es Hes). cbn [from_option id].
  rewrite <-list_fmap_compose.
  assert (type_of_result ∘ (λ e : Entry, (None, type_name (en_value e)))
          = λ e : Entry, type_name (en_value e)) as -> by done.
  destruct (typed_right keys es Hes) as [Hfst Hright].
  apply wp_bind. eapply wp_mono; [apply (run_batches_ok _ n total c _ cs ks s1); [|exact Hright|exact Hg1]| |done].
  { by rewrite typed_length. }
  intros ending s2 [[-> Hg2]| ->]; [|by right]. destruct (decide _) as [_|]; [|done].
  rewrite Hfst in Hg2. apply read_state, wp_bind.
  destruct (_ <? _); [|by left]. eapply wp_mono; [by apply good_log, Hg2| |done].
  intros [] s3 Hg3. by left.
Qed.

Lemma scan_node_ok toLocaleString n total c rounds : ∀ cursor cs ks s,
  (wl_left c cursor < rounds)%nat → good cs ks s →
  (∀ k, is_Some (S0 !! k) → wl_owns c k = true → cursor ≠ "0" → wl_seen c cursor k = true → k ∈ ks) →
  wp (scan_node toLocaleString rounds fuel n total c cursor)
    (λ ending s', ending = Cancelled
       ∨ ∃ ks', ends cs (ks' ++ ks) ending s'
           ∧ ∀ k, is_Some (S0 !! k) → wl_owns c k = true → k ∈ ks' ++ ks) anyhow s.
Proof using HL HP Hwf Hfuel.
  induction rounds as [|rounds IH]; intros cursor cs ks s Hleft Hg Hseen; [lia|].
  cbn [scan_node]. apply cancel_check. destruct (we_cancelled _); [by left|].
  apply wp_bind. eapply wp_mono; [apply (good_world _ _ _ _ _ (wl_scan c cursor) Hg)| |done].
  intros page s1 (Hg1 & (Hpres & Hall & Hnext) & _). destruct Hg as [Hs _]. rewrite Hs in Hpres, Hall.
  assert (Hcover : ∀ k, is_Some (S0 !! k) → wl_owns c k = true →
                    page.1 = "0" ∨ wl_seen c page.1 k = true → k ∈ page.2 ++ ks).
  { intros k Hk Ho Hn. apply elem_of_app. destruct (decide (cursor = "0")) as [->|Hc]; [left; auto|].
    destruct (wl_seen c cursor k) eqn:Hsk; [right; by apply Hseen|left; auto]. }
  apply wp_bind. eapply wp_mono; [by apply run_page_ok| |done].
  intros ending s2 [[-> Hg2]| ->]; [|by left]. destruct (decide _) as [_|]; [|done].
  destruct (str_eqb page.1 "0") eqn:Hz.
  - apply bool_decide_eq_true in Hz. apply wp_ret. right. exists page.2. split; [by left|].
    intros k Hk Ho. apply Hcover; auto.
  - apply bool_decide_eq_false in Hz. destruct Hnext as [?|Hnext]; [done|].
    eapply wp_mono; [apply (IH page.1 cs (page.2 ++ ks)); [lia|exact Hg2|auto]| |done].
    intros ending s3 [->|(ks' & Hend & Hk)]; [by left|]. right. exists (ks' ++ page.2).
    by rewrite <-app_assoc.
Qed.

Hypothesis Hleft : ∀ c, (wl_left c "0" < fuel)%nat.
Lemma scan_nodes_ok toLocaleString n total len clients : ∀ i cs ks s,
  good cs ks s →
  wp (scan_nodes toLocaleString fuel n total i len clients)
    (λ ending s', ending = Cancelled
       ∨ ∃ ks', ends cs ks' ending s'
           ∧ (∀ k, k ∈ ks → k ∈ ks')
           ∧ ∀ c k, c ∈ clients → is_Some (S0 !! k) → wl_owns c k = true → k ∈ ks') anyhow s.
Proof using HL HP Hwf Hfuel Hleft.
  induction clients as [|c clients IH]; intros i cs ks s Hg.
  { right. exists ks. split; [by left|]. split; [done|]. intros c k Hc. by apply not_elem_of_nil in Hc. }
  cbn [scan_nodes]. apply cancel_check. destruct (we_cancelled _); [by left|].
  apply wp_bind. eapply (wp_mono _ (λ _, good cs ks)); [|intros [] s1 Hg1|done].
  { destruct (1 <? len); [by apply good_log|by apply wp_ret]. }
  apply wp_bind. eapply wp_mono; [apply (scan_node_ok _ n total c fuel "0" cs ks s1 (Hleft c) Hg1); by intros| |done].
  intros ending s2 [->|(ks1 & [[-> Hg2]| ->] & Hc)]; [by left| |by left].
  destruct (decide _) as [_|]; [|done].
  eapply wp_mono; [by apply (IH _ cs (ks1 ++ ks))| |done].
  intros ending s3 [->|(ks' & Hend & Hsub & Hk)]; [by left|]. right. exists ks'. split; [done|].
  split; [intros k Hin; apply Hsub, elem_of_app; by right|].
  intros c' k [->|Hin]%elem_of_cons Hp Ho; [by apply Hsub, Hc|by eapply Hk].
Qed.

Lemma count_keys_ok clients : ∀ total cs ks s,
  good cs ks s → 0 ≤ total →
  wp (count_keys clients total)
    (λ n s', good cs ks s' ∧ total ≤ n
       ∧ (n = total → ∀ c k, c ∈ clients → is_Some (S0 !! k) → wl_owns c k = false)) anyhow s.
Proof using HL.
  clear Hwf Hfuel Hleft HP.
  induction clients as [|c clients IH]; intros total cs ks s Hg Ht; cbn [count_keys].
  { apply wp_ret. split_and!; [done|lia|]. intros _ c k Hc. by apply not_elem_of_nil in Hc. }
  apply wp_bind. eapply wp_mono; [apply (good_world _ _ _ _ _ (wl_dbsize c) Hg)| |done].
  intros m s1 (Hg1 & [Hm Hz] & _). destruct Hg as [Hs _]. rewrite Hs in Hz.
  eapply wp_mono; [apply (IH (total + m) cs ks s1 Hg1); lia| |done].
  intros r s2 (Hg2 & Hle & Hk). split_and!; [done|lia|]. intros -> c' k [->|Hin]%elem_of_cons Hp.
  - apply Hz; [lia|done].
  - apply (Hk ltac:(lia) c' k Hin Hp).
Qed.
Lemma migrate_all_ok toLocaleString n cs s :
  good cs [] s →
  wp (migrate_all toLocaleString fuel n)
    (λ ending s', ending = Cancelled
       ∨ ∃ ks, ends cs ks ending s'
           ∧ ∀ c k, c ∈ cs → is_Some (S0 !! k) → wl_owns c k = true → k ∈ ks) anyhow s.
Proof using HL HP Hwf Hfuel Hleft.
  intros Hg. assert (Hcs : ws_clients s = cs) by apply Hg. unfold migrate_all.
  apply read_state. rewrite Hcs. apply wp_bind. eapply wp_mono; [by apply good_log, Hg| |done].
  intros [] s1 Hg1. apply wp_bind. eapply wp_mono; [by apply (count_keys_ok cs 0 cs [])| |done].
  intros total s2 (Hg2 & _ & Hnone). apply wp_bind.
  eapply wp_mono; [by apply good_job, Hg2| |done]. intros [] s3 Hg3. apply wp_bind.
  eapply wp_mono; [by apply good_log, Hg3| |done]. intros [] s4 Hg4.
  destruct (Z.eqb_spec total 0) as [Hz|_].
  - apply wp_bind. eapply wp_mono; [by apply good_log, Hg4| |done]. intros [] s5 Hg5. apply wp_bind.
    eapply wp_mono; [by apply good_job, Hg5| |done]. intros [] s6 Hg6. apply wp_ret.
    right. exists []. split; [by left|]. intros c k Hc Hp Ho.
    rewrite (Hnone Hz c k Hc Hp) in Ho. done.
  - apply wp_bind. eapply wp_mono; [by apply scan_nodes_ok, Hg4| |done].
    intros ending s5 [->|(ks & [[-> Hg5]| ->] & _ & Hk)]; [by left| |by left].
    destruct (decide _) as [_|]; [|done]. apply wp_bind.
    eapply wp_mono; [by apply good_job, Hg5| |done]. intros [] s6 Hg6. apply read_state, wp_bind.
    eapply wp_mono; [by apply good_log, Hg6| |done]. intros [] s7 Hg7. apply wp_ret.
    right. exists ks. split; [by left|done].
Qed.

(** While connecting, no key is done. *)
Definition connecting (s : State) : Prop := good (ws_clients s) [] s.
Lemma connecting_world {A} (m : M W string A) s :
  reads m (λ _ _, True) → connecting s → wp (in_world m) (λ _, connecting) anyhow s.
Proof.
  intros Hm Hg. eapply wp_mono; [apply (good_world _ _ _ _ _ Hm Hg)| |done].
  intros a s' (Hg' & _ & _). unfold connecting. assert (ws_clients s' = ws_clients s) as -> by apply Hg'.
  done.
Qed.
Lemma connecting_log n message s : connecting s → wp (log n message) (λ _, connecting) anyhow s.
Proof.
  intros Hg. eapply wp_mono; [by apply good_log, Hg| |done].
  intros [] s' Hg'. unfold connecting. assert (ws_clients s' = ws_clients s) as -> by apply Hg'. done.
Qed.
Lemma connecting_add c s : connecting s → connecting (add_client c s).2.
Proof. intros (Hs & _ & Hn & Hj & Ha). by split_and!. Qed.
Lemma finally_ok {A} (m : M State string A) f (Q Q' : A → State → Prop) s :
  wp m Q anyhow s → (∀ a s', Q a s' → wp f (λ _, Q' a) anyhow s') →
  wp (try_finally m f) Q' anyhow s.
Proof.
  unfold wp, try_finally. intros Hm Hf. destruct (m s) as [[a|e] s'].
  - specialize (Hf a s' Hm). by destruct (f s') as [[[]|e] s''].
  - by destruct (f s') as [[[]|e'] s''].
Qed.
Lemma connect_sources_ok n cluster s :
  connecting s → wp (connect_sources n cluster) (λ _, connecting) anyhow s.
Proof using HL.
  intros Hg. unfold connect_sources. destruct cluster.
  - apply wp_bind. eapply wp_mono; [by apply connecting_world, Hg; apply wl_connect_discovery| |done].
    intros [] s1 Hg1. apply (finally_ok _ _ (λ _, connecting)).
    + apply wp_bind. eapply wp_mono; [by apply connecting_world, Hg1; apply wl_cluster_nodes| |done].
      intros raw s2 Hg2. apply wp_bind. eapply wp_mono; [by apply connecting_log| |done].
      intros [] s3 Hg3. eapply wp_mono; [apply (wp_for_each _ (λ _, connecting)); [exact Hg3|]| |done]; [|done].
      intros [host port] masters s4 Hg4. apply wp_bind.
      eapply wp_mono; [by apply connecting_world, Hg4; apply wl_connect_master| |done].
      intros c s5 Hg5. by apply connecting_add.
    + intros [] s2 Hg2. apply connecting_world; [apply wl_quit_discovery|done].
  - apply wp_bind. eapply wp_mono; [by apply connecting_world, Hg; apply wl_connect_source| |done].
    intros c s1 Hg1. by apply connecting_add.
Qed.
End complete.

(** *** Counters *)
Section accounts.
Context {W C : Type} `{!WorkerEnv W C, !Target W}.
Context (maxLogLines : Z).
Hypothesis Hmax : 0 ≤ maxLogLines.
Abbreviation State := (WorkerState W C).

(** Every copied or skipped key is counted as processed; the log keeps its bound. *)
Definition accounts (s : State) : Prop :=
  0 ≤ jb_keysTransferred (ws_job s) ∧ 0 ≤ jb_keysSkipped (ws_job s)
  ∧ jb_keysTransferred (ws_job s) + jb_keysSkipped (ws_job s) ≤ ws_processed s
  ∧ jb_keysSkipped (ws_job s) = ws_skipped s
  ∧ js_len (jb_logs (ws_job s)) ≤ maxLogLines.

Lemma accounts_world {A} (m : M W string A) : preserves accounts (in_world m).
Proof. intros s Hs. unfold in_world. by destruct (m (ws_world s)). Qed.
Lemma accounts_job f :
  (∀ j, jb_keysTransferred (f j) = jb_keysTransferred j ∧ jb_keysSkipped (f j) = jb_keysSkipped j
        ∧ jb_logs (f j) = jb_logs j) → preserves accounts (on_job f).
Proof.
  intros Hf s Hs. unfold accounts, on_job, modify in *. cbn.
  destruct (Hf (ws_job s)) as (-> & -> & ->). exact Hs.
Qed.
Lemma push_log_bound line j :
  js_len (jb_logs j) ≤ maxLogLines → js_len (jb_logs (push_log maxLogLines line j)) ≤ maxLogLines.
Proof using Hmax.
  unfold push_log, js_len. cbn. intros Hl. rewrite length_app. cbn.
  destruct (Z.ltb_spec maxLogLines (Z.of_nat (length (jb_logs j) + 1))); [|rewrite length_app; cbn; lia].
  rewrite length_drop, length_app. cbn. lia.
Qed.
Lemma accounts_log message : preserves accounts (log maxLogLines message).
Proof using Hmax.
  intros s (? & ? & ? & ? & Hl). unfold accounts. cbn. split_and!; [done..|]. by apply push_log_bound.
Qed.
Lemma accounts_processed : preserves accounts count_processed.
Proof. clear Hmax. intros s (? & ? & ? & ? & Hl). unfold accounts. cbn. split_and!; try done. lia. Qed.
Lemma accounts_settle r : preserves accounts (settle_key maxLogLines r).
Proof using Hmax.
  intros s (? & ? & ? & ? & Hl). unfold settle_key, accounts, log, mbind, M_bind.
  destruct (mk_ok r); cbn -[push_log];
    (split; [cbn; lia|split; [cbn; lia|split; [cbn; lia|split; [cbn; lia|]]]]); [done|].
  by apply push_log_bound.
Qed.
Lemma accounts_client c : preserves accounts (add_client c).
Proof. by intros s Hs. Qed.
Lemma accounts_get {B} (k : State → M State string B) :
  (∀ s, preserves accounts (k s)) → preserves accounts (get_state ≫= k).
Proof. intros Hk s Hs. by apply (Hk s). Qed.
Lemma accounts_finally {A} (m : M State string A) f :
  preserves accounts m → preserves accounts f → preserves accounts (try_finally m f).
Proof.
  intros Hm Hf s Hs. unfold try_finally. specialize (Hm s Hs). destruct (m s) as [r s'].
  specialize (Hf s' Hm). by destruct (f s') as [[?|?] s''].
Qed.
Lemma accounts_quit : preserves accounts quit_all.
Proof. by intros s Hs. Qed.
End accounts.

(** Walks through a method of the worker. *)
Ltac keep_accounts :=
  repeat match goal with
  | |- preserves _ (mret _) => apply preserves_ret
  | |- preserves _ (in_world _) => apply accounts_world
  | |- preserves _ (log _ _) => by apply accounts_log
  | |- preserves _ count_processed => apply accounts_processed
  | |- preserves _ (settle_key _ _) => by apply accounts_settle
  | |- preserves _ (add_client _) => apply accounts_client
  | |- preserves _ quit_all => apply accounts_quit
  | |- preserves _ (on_job _) => apply accounts_job; by intros
  | |- preserves _ isCancelled => apply preserves_gets
  | |- preserves _ (get_state ≫= _) => apply accounts_get; intros ?
  | |- preserves _ (_ ≫= _) => apply preserves_bind; [|intros ?]
  | |- preserves _ (for_each _ _) => apply preserves_for_each; intros ?
  | |- preserves _ (try_finally _ _) => apply accounts_finally
  | |- preserves _ (let '(_, _) := ?x in _) => destruct x
  | |- preserves _ (match ?x with _ => _ end) => destruct x
  end.

Section accounts_run.
Context {W C : Type} `{!WorkerEnv W C, !Target W}.
Context (toLocaleString : Z → string) (fuel : nat) (n : Z) (Hmax : 0 ≤ n).
Abbreviation State := (WorkerState W C).

Lemma accounts_key (c : C) key type : preserves (accounts n) (run_key fuel n c key type).
Proof using Hmax. unfold run_key. keep_accounts. Qed.
Lemma accounts_keys (c : C) l : preserves (accounts n) (run_keys fuel n c l).
Proof using Hmax.
  induction l as [|[key type] l IH]; cbn [run_keys]; [apply preserves_ret|].
  apply preserves_bind; [apply accounts_key|]. intros []; [exact IH|apply preserves_ret].
Qed.
Lemma accounts_batches rounds total (c : C) : ∀ l,
  preserves (accounts n) (run_batches rounds fuel n total c l).
Proof using Hmax.
  induction rounds as [|rounds IH]; intros [|x l]; cbn [run_batches]; try apply preserves_ret.
  keep_accounts; [apply accounts_keys|apply IH].
Qed.
Lemma accounts_page total (c : C) keys :
  preserves (accounts n) (run_page toLocaleString fuel n total c keys).
Proof using Hmax. unfold run_page, batchType. keep_accounts. apply accounts_batches. Qed.
Lemma accounts_node rounds total (c : C) : ∀ cursor,
  preserves (accounts n) (scan_node toLocaleString rounds fuel n total c cursor).
Proof using Hmax.
  induction rounds as [|rounds IH]; intros cursor; cbn [scan_node]; keep_accounts;
    [apply accounts_page|apply IH].
Qed.
Lemma accounts_nodes total len : ∀ (clients : list C) i,
  preserves (accounts n) (scan_nodes toLocaleString fuel n total i len clients).
Proof using Hmax.
  induction clients as [|c clients IH]; intros i; cbn [scan_nodes]; keep_accounts;
    [apply accounts_node|apply IH].
Qed.
Lemma accounts_count : ∀ (clients : list C) total, preserves (accounts n) (count_keys clients total).
Proof. clear Hmax. induction clients as [|c clients IH]; intros total; cbn [count_keys]; keep_accounts. apply IH. Qed.
End accounts_run.

(** ** Theorems *)
Section worker_theorems.
Context {W C : Type} `{!WorkerEnv W C, !Target W, !Servers W} {HL : WorkerLaws W C}.
Context (toLocaleString : Z → string).


(** The counters of a job never claim more than was done, whatever fails or is cancelled:
    keys copied and keys skipped are non-negative and together at most the keys processed, and
    the log never exceeds its bound. *)
Theorem worker_accounts fuel maxLogLines sourceIsCluster targetIsCluster w job :
  0 ≤ maxLogLines → jb_keysTransferred job = 0 → new_job job → js_len (jb_logs job) ≤ maxLogLines →
  accounts maxLogLines
    (runCommandMigration toLocaleString fuel maxLogLines sourceIsCluster targetIsCluster
       (new_worker (C := C) w job)).2.
Proof using Type.
  clear HL. unfold new_job. intros Hmax Ht Hs Hl.
  assert (Hp : preserves (accounts maxLogLines)
    (runCommandMigration (C := C) toLocaleString fuel maxLogLines sourceIsCluster targetIsCluster)).
  { unfold runCommandMigration, connect_sources, connect_masters, migrate_all. keep_accounts.
    - apply accounts_count.
    - by apply accounts_nodes. }
  apply Hp. unfold accounts. cbn. split_and!; lia.
Qed.
End worker_theorems.

(** ** Instances *)

(** One primary with the servers of [MigrationKeys.Demo]; [broken]: the keys whose TYPE fails *)
Module WorkerDemo.
Definition keys_of (d : DB) : list string := (map_to_list d).*1.
(** Longer than every key *)
Definition long (d : DB) : nat := list_sum (String.length <$> keys_of d).
Definition suffix (w : Demo.World) : string :=
  Nat.iter (long (Demo.dm_source w) + long (Demo.dm_target w)) (String "0") EmptyString.
Definition quietly {A} (f : Demo.World → A) : M Demo.World string A := λ w, (Ok (f w), w).
#[local] Existing Instance Demo.source.
#[local] Existing Instance Demo.servers.
#[local] Instance env (broken : string → bool) : WorkerEnv Demo.World unit := {
  we_source _ := Demo.source;
  we_connect_target := quietly (λ _, tt);
  we_connect_source := quietly (λ _, tt);
  we_connect_discovery := quietly (λ _, tt);
  we_cluster_nodes := quietly (λ _, EmptyString);
  we_quit_discovery := quietly (λ _, tt);
  we_connect_master _ _ := quietly (λ _, tt);
  we_quit _ w := w;
  we_dbsize _ := quietly (λ w, js_len (keys_of (Demo.dm_source w)));
  we_scan _ _ := quietly (λ w, ("0", keys_of (Demo.dm_source w)));
  we_types _ keys := quietly (λ w, Some ((λ k,
    if broken k then (Some "NOPERM", EmptyString)
    else (None, match Demo.dm_source w !! k with
                | Some e => type_name (en_value e)
                | None => "none"
                end)) <$> keys));
  we_suffix := quietly suffix;
  we_order _ l := l;
  we_cancelled _ := false;
  we_timestamp _ := "2026-01-01 00:00:00.000"
}.

Lemma keys_of_elem d k : k ∈ keys_of d ↔ is_Some (d !! k).
Proof.
  unfold keys_of. split.
  - intros ([k' e] & -> & Hin)%list_elem_of_fmap. apply elem_of_map_to_list in Hin. by exists e.
  - intros [e He]. apply (list_elem_of_fmap_2 fst _ (k, e)). by apply elem_of_map_to_list.
Qed.
Lemma list_sum_ge x l : x ∈ l → (x ≤ list_sum l)%nat.
Proof. induction 1 as [x l|x y l _ IH]; cbn; [apply Nat.le_add_r|]. etrans; [exact IH|apply Nat.le_add_l]. Qed.
Lemma long_ge d k : is_Some (d !! k) → (String.length k ≤ long d)%nat.
Proof. intros Hk. apply list_sum_ge, list_elem_of_fmap_2. by apply keys_of_elem. Qed.
Lemma suffix_length w :
  String.length (suffix w) = (long (Demo.dm_source w) + long (Demo.dm_target w))%nat.
Proof.
  unfold suffix. generalize (long (Demo.dm_source w) + long (Demo.dm_target w))%nat as n.
  induction n as [|n IH]; [done|]. exact (f_equal S IH).
Qed.
Lemma tempKey_longer s k t : tempKey s k = Some t → (String.length s < String.length t)%nat.
Proof.
  unfold tempKey. destruct (index_of open_brace k).
  - destruct (brace_tag k) as [b|]; [|done]. intros Ht.
    assert (t = "__betterdb_mig_" +:+ (s +:+ (":" +:+ b))) as -> by congruence.
    rewrite !str_app_length. cbn. lia.
  - intros Ht.
    assert (t = "__betterdb_mig_" +:+ (s +:+ (":" +:+ (String open_brace k +:+ "}")))) as -> by congruence.
    rewrite !str_app_length. cbn. lia.
Qed.
Lemma suffix_fresh w k : is_Some (Demo.dm_source w !! k) → fresh (suffix w) k (Demo.dm_target w).
Proof.
  intros Hk. unfold fresh. destruct (tempKey (suffix w) k) as [t|] eqn:Ht; [|done].
  apply tempKey_longer in Ht. rewrite suffix_length in Ht. split.
  - intros ->. apply long_ge in Hk. lia.
  - apply eq_None_not_Some. intros Hs. apply long_ge in Hs. lia.
Qed.
Lemma quietly_reads {A} (f : Demo.World → A) P : (∀ w, P w (f w)) → reads (quietly f) P.
Proof. intros Hf w. unfold wp, quietly. split; [by split|apply Hf]. Qed.

#[local] Existing Instance Demo.target.
Lemma types_right w keys es :
  Forall2 (λ k e, Demo.dm_source w !! k = Some e) keys es →
  (λ k, (None : option string, match Demo.dm_source w !! k with
                               | Some e => type_name (en_value e)
                               | None => "none"
                               end)) <$> keys = (λ e, (None, type_name (en_value e))) <$> es.
Proof. induction 1 as [|k e keys es He _ IH]; [done|]. cbn. by rewrite He, IH. Qed.
#[local] Instance laws :
  @WorkerLaws Demo.World unit (env (λ _, false)) (Demo.target (λ _, false)) Demo.servers.
Proof.
  refine {| wl_owns := λ _ _, true; wl_seen := λ _ _ _, false; wl_left := λ _ _, 0%nat |};
    try by intros; apply quietly_reads.
  - intros c. apply Demo.server_laws.
  - done.
  - intros c. apply quietly_reads. intros w. split; [unfold js_len; lia|].
    intros Hz k Hk. apply keys_of_elem in Hk. cbn in Hk, Hz. exfalso.
    destruct (keys_of (Demo.dm_source w)); [by apply not_elem_of_nil in Hk|done].
  - intros c cursor. apply quietly_reads. intros w. cbn.
    split; [intros k; apply keys_of_elem|]. split; [|by left]. intros k Hk _ _ _. by apply keys_of_elem.
  - intros c keys. apply quietly_reads. intros w es Hes. f_equal. by apply types_right.
  - apply quietly_reads. intros w k. apply suffix_fresh.
Defined.
Lemma pipelines : @PipelinesRun Demo.World (Demo.target (λ _, false)) Demo.servers.
Proof.
  constructor. intros k args w Hne [v Hv]. cbn. unfold wp.
  assert (Demo.accepted (λ _, false) args = args) as -> by by apply js_filter_all.
  destruct args as [|a args]; [done|]. unfold try_catch, Demo.add, Demo.tell. cbn in Hv |- *.
  rewrite Hv. cbn. split; [done|]. by exists v.
Qed.
End WorkerDemo.

Section worker_samples.
#[local] Existing Instance Demo.source.
#[local] Existing Instance Demo.servers.
#[local] Instance sample_target : Target Demo.World := Demo.target (λ _, false).
#[local] Instance sample_env : WorkerEnv Demo.World unit := WorkerDemo.env (λ _, false).
#[local] Instance sample_laws : WorkerLaws Demo.World unit := WorkerDemo.laws.
#[local] Instance sample_pipelines : PipelinesRun Demo.World := WorkerDemo.pipelines.

Definition sample_world : Demo.World := {|
  Demo.dm_source := {[ "user:1" := demo_hash; "q" := persistent (VList ["x"; "y"; "x"]) ]};
  Demo.dm_target := {[ "q" := persistent (VString "old") ]};
  Demo.dm_scripts := true
|}.
Definition sample_job : Job :=
  {| jb_keysTransferred := 0; jb_keysSkipped := 0; jb_totalKeys := 0; jb_logs := [];
     jb_progress := None |}.
Definition sample_run : outcome string Ending * WorkerState Demo.World unit :=
  runCommandMigration string_of_Z 2 500 false false (new_worker sample_world sample_job).

Lemma sample_source_ok k e :
  sv_source sample_world !! k = Some e →
  well_formed (en_value e) ∧ enough 2 (sv_source sample_world) k (en_value e).
Proof.
  cbn. intros [[<- <-]|[_ [<- <-]%lookup_singleton_Some]]%lookup_insert_Some.
  - split; [exact demo_well_formed|cbn; lia].
  - split; [done|cbn; lia].
Qed.


Lemma worker_accounts_witness : accounts 2
  (runCommandMigration (C := unit) string_of_Z 2 2 false false (new_worker sample_world sample_job)).2.
Proof. apply worker_accounts; [discriminate|reflexivity|reflexivity|discriminate]. Defined.
End worker_samples.

(** A key whose TYPE fails counts as expired: the migration finishes, nothing is skipped, and
    the key is not on the target. *)
Section broken_type.
#[local] Existing Instance Demo.source.
#[local] Existing Instance Demo.servers.
#[local] Instance broken_target : Target Demo.World := Demo.target (λ _, false).
#[local] Instance broken_env : WorkerEnv Demo.World unit := WorkerDemo.env (λ k, str_eqb k "q").
Lemma type_error_loses_key :
  let '(r, s') := runCommandMigration string_of_Z 2 500 false false (new_worker sample_world sample_job) in
  r = Ok Finished ∧ jb_keysSkipped (ws_job s') = 0 ∧ jb_keysTransferred (ws_job s') = 1
  ∧ ws_processed s' = 2 ∧ sv_target (ws_world s') !! "q" = Some (persistent (VString "old")).
Proof. vm_compute. by split_and!. Qed.
End broken_type.

(** A primary that another node reports as possibly failing ([fail?]) is left out, and with it
    all its keys. *)
Lemma suspected_primary_left_out :
  parseClusterMasters ("a 10.0.0.1:7000@17000 master - 0 0 1 connected 0-8191" +:+ String newline
                       "b [::1]:7001@17001 master,fail? - 0 0 2 connected 8192-16383")
  = [("10.0.0.1", 7000)].
Proof. vm_compute. reflexivity. Qed.
Example parse_ipv6 :
  parseClusterMasters "b [::1]:7001@17001 myself,master - 0 0 2 connected 8192-16383" = [("::1", 7001)].
Proof. vm_compute. reflexivity. Qed.
