(* ===== verification/MigrationToml.v ===== *)
(** * The configuration of RedisShake

    [apps/api/src/migration/execution/toml-builder.ts] and [shouldExcludeFunctions] of
    [fork-compat.ts]: the file that tells the external RedisShake process where to read and
    write.  Addresses and credentials come from the users' connections; the specification reads
    the file back as a TOML reader does. *)
From S2P Require Export JsNumber.
From stdpp Require Import options.

(** ** Definitions *)
Inductive EngineType := valkey | redis.
#[global] Instance EngineType_eq_dec : EqDecision EngineType.
Proof. solve_decision. Defined.
Definition shouldExcludeFunctions (sourceDbType targetDbType : EngineType) : bool :=
  bool_decide (sourceDbType = valkey) && bool_decide (targetDbType = redis).

Record DatabaseConnectionConfig := {
  dc_host : string; dc_port : number; dc_username : option string; dc_password : option string;
  dc_tls : bool
}.
(** [syncReaderOptions] and [rsOptions] have one field each that the builders read. *)
Record RedisShakeTomlOptions := {
  ro_sourceIsCluster : bool; ro_targetIsCluster : bool; ro_excludeFunctions : bool;
  ro_tryDiskless : bool; ro_preferReplica : bool
}.

Definition carriage_return : ascii := "013".
Definition tab : ascii := "009".
(** [/[\x00-\x08\x0b\x0c\x0e-\x1f\x7f]/] *)
Definition control_char (c : ascii) : bool :=
  in_range 0 8 c || in_range 11 12 c || in_range 14 31 c || in_range 127 127 c.
(** [s.replace(/c/g, by)] *)
Definition replace_char (c : ascii) (by_ : string) : string → string :=
  str_flat_map (λ a, if ascii_dec a c then by_ else String a EmptyString).
Definition escaped (c : ascii) : string := String backslash (String c EmptyString).
Definition control_message : string := "Value contains disallowed control characters".
Definition escapeTomlString (value : string) : outcome string string :=
  if str_forall (λ c, negb (control_char c)) value then
    Ok (replace_char tab (escaped "t")
         (replace_char carriage_return (escaped "r")
           (replace_char newline (escaped "n")
             (replace_char quote_char (escaped quote_char)
               (replace_char backslash (escaped backslash) value)))))
  else Throw control_message.

Definition validatePort (port : number) : outcome string Z :=
  match num_to_Z port with
  | Some n => if (1 <=? n) && (n <=? 65535) then Ok n
              else Throw ("Invalid port: " +:+ num_to_string port)
  | None => Throw ("Invalid port: " +:+ num_to_string port)
  end.
(** White space, a double quote or a backslash *)
Fixpoint has_space (s : string) : bool :=
  match s with
  | EmptyString => false
  | String _ s' => negb (Nat.eqb (ws_len s) 0) || has_space s'
  end.
Definition forbidden_in_host (host : string) : bool :=
  has_space host
  || negb (str_forall (λ c, if ascii_dec c quote_char then false
                            else if ascii_dec c backslash then false else true) host).
Definition validateHost (host : string) : outcome string string :=
  if is_empty host || (253 <? js_length host) then Throw "Invalid host: empty or too long"
  else if forbidden_in_host host
  then Throw "Invalid host: contains whitespace, quotes, or backslashes"
  else Ok host.

Definition formatAddress (host : string) (port : Z) : string :=
  if includes ":" host && negb (starts_with "[" host)
  then "[" +:+ host +:+ "]:" +:+ string_of_Z port
  else host +:+ ":" +:+ string_of_Z port.

(** A template literal is a sequence of lines, each with its line end. *)
Definition unlines (lines : list string) : string :=
  foldr (λ l s, l +:+ String newline s) EmptyString lines.
Definition js_quoted (s : string) : string :=
  String quote_char (s +:+ String quote_char EmptyString).
Definition js_bool (b : bool) : string := if b then "true" else "false".
Definition buildFilterSection (excludeFunctions : bool) : list string :=
  if excludeFunctions then
    ["[filter]";
     "block_command = [" +:+ js_quoted "FUNCTION-LOAD" +:+ ", " +:+ js_quoted "FUNCTION-RESTORE"
     +:+ ", " +:+ js_quoted "FUNCTION-DELETE" +:+ ", " +:+ js_quoted "FUNCTION-FLUSH" +:+ "]";
     ""]
  else [].

(** The validated fields of a side and its lines *)
Record Side := { sd_address : string; sd_username : string; sd_password : string; sd_tls : bool }.
Definition toml_username (c : DatabaseConnectionConfig) : string :=
  match dc_username c with
  | Some u => if is_empty u || str_eqb u "default" then EmptyString else u
  | None => EmptyString
  end.
Definition validated (c : DatabaseConnectionConfig) : outcome string Side :=
  match validateHost (dc_host c) with
  | Throw e => Throw e
  | Ok host =>
      match validatePort (dc_port c) with
      | Throw e => Throw e
      | Ok port => Ok {| sd_address := formatAddress host port; sd_username := toml_username c;
                         sd_password := default EmptyString (dc_password c); sd_tls := dc_tls c |}
      end
  end.
Definition side_lines (s : Side) : outcome string (list string) :=
  match escapeTomlString (sd_address s) with
  | Throw e => Throw e
  | Ok address =>
      match escapeTomlString (sd_username s) with
      | Throw e => Throw e
      | Ok username =>
          match escapeTomlString (sd_password s) with
          | Throw e => Throw e
          | Ok password =>
              Ok ["address = " +:+ js_quoted address; "username = " +:+ js_quoted username;
                  "password = " +:+ js_quoted password; "tls = " +:+ js_bool (sd_tls s)]
          end
      end
  end.
Definition advanced_lines (opts : RedisShakeTomlOptions) : list string :=
  ["[advanced]"; "log_level = " +:+ js_quoted "info"; "pipeline_count_limit = 256";
   "try_diskless = " +:+ js_bool (ro_tryDiskless opts)].
Definition writer_lines (opts : RedisShakeTomlOptions) (target : list string) : list string :=
  ["[redis_writer]"; "cluster = " +:+ js_bool (ro_targetIsCluster opts)] ++ target
  ++ [""] ++ buildFilterSection (ro_excludeFunctions opts) ++ advanced_lines opts.
(** Both sides are validated before the first one is written. *)
Definition both_sides (source target : DatabaseConnectionConfig)
    : outcome string (list string * list string) :=
  match validated source with
  | Throw e => Throw e
  | Ok src =>
      match validated target with
      | Throw e => Throw e
      | Ok tgt =>
          match side_lines src with
          | Throw e => Throw e
          | Ok srcLines =>
              match side_lines tgt with
              | Throw e => Throw e
              | Ok tgtLines => Ok (srcLines, tgtLines)
              end
          end
      end
  end.
Definition buildScanReaderToml (source target : DatabaseConnectionConfig)
    (opts : RedisShakeTomlOptions) : outcome string string :=
  match both_sides source target with
  | Throw e => Throw e
  | Ok (src, tgt) =>
      Ok (unlines (["[scan_reader]"] ++ src
                   ++ (if ro_sourceIsCluster opts then ["cluster = true"] else [])
                   ++ [""] ++ writer_lines opts tgt))
  end.
Definition buildSyncReaderToml (source target : DatabaseConnectionConfig)
    (opts : RedisShakeTomlOptions) : outcome string string :=
  match both_sides source target with
  | Throw e => Throw e
  | Ok (src, tgt) =>
      Ok (unlines (["[sync_reader]"; "cluster = " +:+ js_bool (ro_sourceIsCluster opts)] ++ src
                   ++ ["sync_rdb = true"; "sync_aof = true";
                       "prefer_replica = " +:+ js_bool (ro_preferReplica opts); ""]
                   ++ writer_lines opts tgt))
  end.

(** ** Specification *)

(** A reader of the part of TOML the files use: tables, and keys with one-line basic strings
    or other values, which are kept as text. *)
Inductive TomlValue := TString (s : string) | TOther (s : string).
#[global] Instance TomlValue_eq_dec : EqDecision TomlValue.
Proof. solve_decision. Defined.
Definition toml_escape (c : ascii) : option ascii :=
  if ascii_dec c "n" then Some newline
  else if ascii_dec c "r" then Some carriage_return
  else if ascii_dec c "t" then Some tab
  else if ascii_dec c quote_char then Some quote_char
  else if ascii_dec c backslash then Some backslash
  else None.
(** The text of a basic string after its opening quote, which must end the line *)
Fixpoint toml_basic (s : string) : option string :=
  match s with
  | EmptyString => None
  | String c s' =>
      if ascii_dec c quote_char then if is_empty s' then Some EmptyString else None
      else if ascii_dec c backslash then
        match s' with
        | String d s'' => a ← toml_escape d; String a <$> toml_basic s''
        | EmptyString => None
        end
      else if ascii_dec c newline then None else String c <$> toml_basic s'
  end.
Definition toml_value (s : string) : option TomlValue :=
  match s with
  | String c s' => if ascii_dec c quote_char then TString <$> toml_basic s' else Some (TOther s)
  | EmptyString => None
  end.
Definition not_space (c : ascii) : bool := if ascii_dec c " " then false else true.
Definition toml_pair (line : string) : option (string * TomlValue) :=
  let '(key, rest) := span not_space line in
  match rest with
  | String _ (String e (String _ v)) =>
      if ascii_dec e "=" then (λ v, (key, v)) <$> toml_value v else None
  | _ => None
  end.
Definition TomlTable : Type := string * list (string * TomlValue).
(** The lines of a file, last one first, into its tables *)
Fixpoint toml_lines (lines : list string) : option (list (string * TomlValue) * list TomlTable) :=
  match lines with
  | [] => Some ([], [])
  | line :: lines =>
      '(pairs, tables) ← toml_lines lines;
      match line with
      | EmptyString => Some (pairs, tables)
      | String c name =>
          if ascii_dec c "[" then Some ([], (str_take (String.length name - 1) name, pairs) :: tables)
          else (λ p, (p :: pairs, tables)) <$> toml_pair line
      end
  end.
Definition read_toml (text : string) : option (list TomlTable) :=
  '(pairs, tables) ← toml_lines (split_char newline text);
  match pairs with [] => Some tables | _ => None end.

(** ** Lemmas *)
Lemma str_flat_map_flat_map f g s :
  str_flat_map f (str_flat_map g s) = str_flat_map (λ c, str_flat_map f (g c)) s.
Proof. induction s as [|c s IH]; [done|]. cbn. by rewrite str_flat_map_app, IH. Qed.
Lemma str_flat_map_ext f g s : (∀ c, f c = g c) → str_flat_map f s = str_flat_map g s.
Proof. intros Hfg. induction s as [|c s IH]; [done|]. cbn. by rewrite Hfg, IH. Qed.

(** The replacements in one pass *)
Definition escape_char (c : ascii) : string :=
  if ascii_dec c backslash then escaped backslash
  else if ascii_dec c quote_char then escaped quote_char
  else if ascii_dec c newline then escaped "n"
  else if ascii_dec c carriage_return then escaped "r"
  else if ascii_dec c tab then escaped "t"
  else String c EmptyString.
Lemma escape_spec value text :
  escapeTomlString value = Ok text → text = str_flat_map escape_char value.
Proof.
  unfold escapeTomlString. destruct (str_forall _ _); [|done].
  intros Ht. assert (text = replace_char tab (escaped "t")
         (replace_char carriage_return (escaped "r")
           (replace_char newline (escaped "n")
             (replace_char quote_char (escaped quote_char)
               (replace_char backslash (escaped backslash) value))))) as -> by congruence.
  unfold replace_char. rewrite !str_flat_map_flat_map. apply str_flat_map_ext. intros c.
  unfold escape_char.
  destruct (ascii_dec c backslash) as [->|]; [reflexivity|].
  cbn [str_flat_map]. rewrite str_app_nil_r.
  destruct (ascii_dec c quote_char) as [->|]; [reflexivity|].
  cbn [str_flat_map]. rewrite str_app_nil_r.
  destruct (ascii_dec c newline) as [->|]; [reflexivity|].
  cbn [str_flat_map]. rewrite str_app_nil_r.
  destruct (ascii_dec c carriage_return) as [->|]; [reflexivity|].
  cbn [str_flat_map]. rewrite str_app_nil_r.
  by destruct (ascii_dec c tab).
Qed.
Lemma toml_basic_escaped s :
  toml_basic (str_flat_map escape_char s +:+ String quote_char EmptyString) = Some s.
Proof.
  induction s as [|c s IH]; [reflexivity|]. cbn [str_flat_map]. rewrite str_app_assoc.
  unfold escape_char at 1.
  destruct (ascii_dec c backslash) as [->|Hb]; [cbn; by rewrite IH|].
  destruct (ascii_dec c quote_char) as [->|Hq]; [cbn; by rewrite IH|].
  destruct (ascii_dec c newline) as [->|Hn]; [cbn; by rewrite IH|].
  destruct (ascii_dec c carriage_return) as [->|Hr]; [cbn; by rewrite IH|].
  destruct (ascii_dec c tab) as [->|Ht]; [cbn; by rewrite IH|].
  cbn. destruct (ascii_dec c quote_char); [done|]. destruct (ascii_dec c backslash); [done|].
  destruct (ascii_dec c newline); [done|]. by rewrite IH.
Qed.
Abbreviation one_line := (str_forall (λ a, negb (bool_decide (a = newline)))).
Lemma escaped_one_line s : one_line (str_flat_map escape_char s) = true.
Proof.
  induction s as [|c s IH]; [done|]. cbn [str_flat_map]. rewrite str_forall_app, IH, andb_true_r.
  unfold escape_char.
  destruct (ascii_dec c backslash) as [->|Hb]; [reflexivity|].
  destruct (ascii_dec c quote_char) as [->|Hq]; [reflexivity|].
  destruct (ascii_dec c newline) as [->|Hn]; [reflexivity|].
  destruct (ascii_dec c carriage_return) as [->|Hr]; [reflexivity|].
  destruct (ascii_dec c tab) as [->|Ht]; [reflexivity|].
  cbn. by rewrite bool_decide_eq_false_2.
Qed.
Lemma split_unlines lines :
  (∀ l, l ∈ lines → one_line l = true) → split_char newline (unlines lines) = lines ++ [EmptyString].
Proof.
  induction lines as [|l lines IH]; intros Hl; [done|]. cbn [unlines foldr].
  rewrite split_char_cons by (apply Hl; by left). cbn. f_equal. apply IH. intros l' Hin.
  apply Hl. by right.
Qed.

(** What the lines of a side say *)
Definition side_pairs (s : Side) : list (string * TomlValue) :=
  [("address", TString (sd_address s)); ("username", TString (sd_username s));
   ("password", TString (sd_password s)); ("tls", TOther (js_bool (sd_tls s)))].
(** Lines that hold pairs, in front of other lines *)
Definition reads_as (lines : list string) (pairs : list (string * TomlValue)) : Prop :=
  (∀ l, l ∈ lines → one_line l = true)
  ∧ ∀ rest pairs' tables, toml_lines rest = Some (pairs', tables) →
      toml_lines (lines ++ rest) = Some (pairs ++ pairs', tables).
Lemma reads_nil : reads_as [] [].
Proof. split; [intros l Hl; by apply not_elem_of_nil in Hl|done]. Qed.
Lemma reads_app l1 l2 p1 p2 : reads_as l1 p1 → reads_as l2 p2 → reads_as (l1 ++ l2) (p1 ++ p2).
Proof.
  intros [H1 R1] [H2 R2]. split.
  - intros l [Hl|Hl]%elem_of_app; auto.
  - intros rest pairs tables Hr. rewrite <-!app_assoc. by apply R1, R2.
Qed.
Lemma reads_line line key v :
  one_line line = true → starts_with "[" line = false → toml_pair line = Some (key, v) →
  reads_as [line] [(key, v)].
Proof.
  intros Hl Hb Hp. split; [by intros l ->%list_elem_of_singleton|].
  intros rest pairs tables Hr. cbn [app toml_lines]. rewrite Hr. cbn.
  destruct line as [|c name]; [done|]. destruct (ascii_dec c "[") as [->|]; [done|]. by rewrite Hp.
Qed.
Lemma reads_blank : reads_as [EmptyString] [].
Proof.
  split; [by intros l ->%list_elem_of_singleton|]. intros rest pairs tables Hr. cbn. by rewrite Hr.
Qed.
Lemma reads_then_blank l p : reads_as l p → reads_as (l ++ [EmptyString]) p.
Proof. intros Hl. rewrite <-(app_nil_r p). apply reads_app; [done|apply reads_blank]. Qed.
Lemma js_bool_one_line b : one_line (js_bool b) = true.
Proof. by destruct b. Qed.
Lemma pair_string key value text :
  str_forall not_space key = true → escapeTomlString value = Ok text →
  toml_pair (key +:+ " = " +:+ js_quoted text) = Some (key, TString value).
Proof.
  intros Hk ->%escape_spec. unfold toml_pair.
  assert (span not_space (key +:+ " = " +:+ js_quoted (str_flat_map escape_char value))
          = (key, " = " +:+ js_quoted (str_flat_map escape_char value))) as -> by by apply span_app.
  cbn -[toml_basic quote_char]. unfold js_quoted, toml_value.
  destruct (ascii_dec quote_char quote_char); [|done]. by rewrite toml_basic_escaped.
Qed.
Lemma reads_string key value text :
  str_forall not_space key = true → one_line key = true → starts_with "[" key = false →
  is_empty key = false → escapeTomlString value = Ok text →
  reads_as [key +:+ " = " +:+ js_quoted text] [(key, TString value)].
Proof.
  intros Hk Hl Hb He Ht. apply reads_line; [| |by apply pair_string].
  - rewrite !str_forall_app, Hl. apply escape_spec in Ht as ->. cbn.
    by rewrite str_forall_app, escaped_one_line.
  - destruct key as [|c key]; [done|]. cbn in Hb |- *. by destruct (ascii_dec "[" c).
Qed.
Lemma side_reads s lines : side_lines s = Ok lines → reads_as lines (side_pairs s).
Proof.
  unfold side_lines. destruct (escapeTomlString (sd_address s)) as [address|] eqn:Ha; [|done].
  destruct (escapeTomlString (sd_username s)) as [username|] eqn:Hu; [|done].
  destruct (escapeTomlString (sd_password s)) as [password|] eqn:Hp; [|done].
  intros Hl. assert (lines = ["address" +:+ " = " +:+ js_quoted address]
    ++ ["username" +:+ " = " +:+ js_quoted username] ++ ["password" +:+ " = " +:+ js_quoted password]
    ++ ["tls = " +:+ js_bool (sd_tls s)]) as -> by (injection Hl as <-; reflexivity).
  change (side_pairs s) with ([("address", TString (sd_address s))]
    ++ [("username", TString (sd_username s))] ++ [("password", TString (sd_password s))]
    ++ [("tls", TOther (js_bool (sd_tls s)))]).
  repeat apply reads_app; try (apply reads_string; by try exact Ha; try exact Hu; try exact Hp).
  apply reads_line; by destruct (sd_tls s).
Qed.
Lemma header_name name : str_take (String.length (name +:+ "]") - 1) (name +:+ "]") = name.
Proof.
  rewrite str_app_length. cbn. replace (String.length name + 1 - 1)%nat with (String.length name) by lia.
  induction name as [|c name IH]; [done|]. cbn. by rewrite IH.
Qed.
(** A table in front of others *)
Lemma read_table name body pairs rest tables :
  reads_as body pairs → toml_lines rest = Some ([], tables) →
  toml_lines ((String "[" (name +:+ "]") :: body) ++ rest) = Some ([], (name, pairs) :: tables).
Proof.
  intros [_ Hb] Hr. cbn [app toml_lines]. rewrite (Hb _ _ _ Hr), app_nil_r, header_name. reflexivity.
Qed.

Definition filter_tables (excludeFunctions : bool) : list TomlTable :=
  if excludeFunctions then
    [("filter", [("block_command",
        TOther ("[" +:+ js_quoted "FUNCTION-LOAD" +:+ ", " +:+ js_quoted "FUNCTION-RESTORE" +:+ ", "
                +:+ js_quoted "FUNCTION-DELETE" +:+ ", " +:+ js_quoted "FUNCTION-FLUSH" +:+ "]"))])]
  else [].
Definition writer_tables (opts : RedisShakeTomlOptions) (target : Side) : list TomlTable :=
  [("redis_writer", ("cluster", TOther (js_bool (ro_targetIsCluster opts))) :: side_pairs target)]
  ++ filter_tables (ro_excludeFunctions opts)
  ++ [("advanced", [("log_level", TString "info"); ("pipeline_count_limit", TOther "256");
                    ("try_diskless", TOther (js_bool (ro_tryDiskless opts)))])].
Lemma advanced_read opts :
  toml_lines (advanced_lines opts ++ [EmptyString])
  = Some ([], [("advanced", [("log_level", TString "info"); ("pipeline_count_limit", TOther "256");
                             ("try_diskless", TOther (js_bool (ro_tryDiskless opts)))])]).
Proof. unfold advanced_lines. by destruct (ro_tryDiskless opts). Qed.
Lemma writer_read opts target lines :
  side_lines target = Ok lines →
  toml_lines (writer_lines opts lines ++ [EmptyString]) = Some ([], writer_tables opts target).
Proof.
  intros Hl%side_reads. unfold writer_lines, writer_tables.
  set (tail := filter_tables (ro_excludeFunctions opts) ++ _).
  assert (Htail : toml_lines (buildFilterSection (ro_excludeFunctions opts) ++ advanced_lines opts ++ [""])
                  = Some ([], tail)).
  { subst tail. unfold buildFilterSection, filter_tables.
    destruct (ro_excludeFunctions opts); [|apply advanced_read].
    apply (read_table "filter"); [|apply advanced_read]. split; [by apply Forall_forall; repeat constructor|].
    intros rest pairs tables Hr. cbn -[toml_pair]. by rewrite Hr. }
  apply (read_table "redis_writer" (["cluster = " +:+ js_bool (ro_targetIsCluster opts)] ++ lines ++ [""])
           ([("cluster", TOther (js_bool (ro_targetIsCluster opts)))] ++ side_pairs target)) in Htail.
  - etrans; [|exact Htail]. f_equal. generalize ("cluster = " +:+ js_bool (ro_targetIsCluster opts)) as c.
    generalize (buildFilterSection (ro_excludeFunctions opts)) (advanced_lines opts). intros f adv c.
    cbn. rewrite <-!app_assoc. cbn. by rewrite <-!app_assoc.
  - apply reads_app; [apply reads_line; by destruct (ro_targetIsCluster opts)|].
    by apply reads_then_blank.
Qed.

(** ** Theorems *)

(** What the reader of RedisShake must see for a connection *)
Definition side_of (c : DatabaseConnectionConfig) (host : string) (port : Z) : Side :=
  {| sd_address := formatAddress host port; sd_username := toml_username c;
     sd_password := default EmptyString (dc_password c); sd_tls := dc_tls c |}.
Definition usable (c : DatabaseConnectionConfig) (s : Side) : Prop :=
  ∃ port, num_to_Z (dc_port c) = Some port ∧ 1 ≤ port ≤ 65535
          ∧ s = side_of c (dc_host c) port.
Lemma validated_usable c s : validated c = Ok s → usable c s.
Proof.
  unfold validated, usable, validateHost, validatePort.
  destruct (is_empty (dc_host c) || _); [done|]. destruct (forbidden_in_host _); [done|].
  destruct (num_to_Z (dc_port c)) as [port|]; [|done].
  destruct ((1 <=? port) && (port <=? 65535)) eqn:Hp; [|done]. intros [= <-].
  exists port. split_and!; [done|lia|lia|done].
Qed.
Lemma both_sides_ok source target srcLines tgtLines :
  both_sides source target = Ok (srcLines, tgtLines) →
  ∃ src tgt, usable source src ∧ usable target tgt
    ∧ side_lines src = Ok srcLines ∧ side_lines tgt = Ok tgtLines.
Proof.
  unfold both_sides. destruct (validated source) as [src|] eqn:Hs; [|done].
  destruct (validated target) as [tgt|] eqn:Ht; [|done].
  destruct (side_lines src) as [l1|] eqn:H1; [|done]. destruct (side_lines tgt) as [l2|] eqn:H2; [|done].
  intros [= <- <-]. exists src, tgt. split_and!; try done; by apply validated_usable.
Qed.
Lemma writer_one_line opts lines l :
  (∀ l, l ∈ lines → one_line l = true) → l ∈ writer_lines opts lines → one_line l = true.
Proof.
  intros Hl. unfold writer_lines, advanced_lines, buildFilterSection.
  rewrite !elem_of_app. intros [Hin|[Hin|[Hin|[Hin|Hin]]]]; [|by apply Hl|..].
  all: revert l Hin; apply Forall_forall; destruct (ro_targetIsCluster opts), (ro_excludeFunctions opts),
    (ro_tryDiskless opts); repeat constructor.
Qed.

Lemma Ok_inj {E A} (a b : A) : @Ok E A a = Ok b → a = b.
Proof. by intros [= ->]. Qed.
(** A file that consists of a reader table and what follows it *)
Lemma file_reads name body pairs opts tgtLines tgt :
  one_line name = true → reads_as body pairs → side_lines tgt = Ok tgtLines →
  read_toml (unlines ((String "[" (name +:+ "]") :: body) ++ writer_lines opts tgtLines))
  = Some ((name, pairs) :: writer_tables opts tgt).
Proof.
  intros Hname Hbody Hlt. pose proof (side_reads _ _ Hlt) as [Htgt _].
  unfold read_toml. rewrite split_unlines, <-app_assoc.
  - by rewrite (read_table _ _ _ _ _ Hbody (writer_read opts tgt _ Hlt)).
  - intros l. rewrite elem_of_app, elem_of_cons. intros [[->|Hin]|Hin]; [|by apply Hbody|].
    + cbn. by rewrite str_forall_app, Hname.
    + by eapply writer_one_line.
Qed.

(** C16: The file that configures RedisShake says what the connections say, whatever characters
    the credentials hold: a TOML reader finds the tables of a scan, with the addresses, user
    names, passwords and flags of the two connections unchanged, the filter exactly when
    functions are excluded, and nothing else - no value can add a key or a table. *)
Theorem scan_toml_roundtrip source target opts text :
  buildScanReaderToml source target opts = Ok text →
  ∃ src tgt, usable source src ∧ usable target tgt
    ∧ read_toml text = Some
        (("scan_reader", side_pairs src
           ++ if ro_sourceIsCluster opts then [("cluster", TOther "true")] else [])
         :: writer_tables opts tgt).
Proof.
  unfold buildScanReaderToml. destruct (both_sides source target) as [[srcLines tgtLines]|] eqn:Hb; [|done].
  intros Htext. apply Ok_inj in Htext as <-.
  destruct (both_sides_ok _ _ _ _ Hb) as (src & tgt & Hs & Ht & Hls & Hlt).
  exists src, tgt. split_and!; [done|done|].
  set (extra := if ro_sourceIsCluster opts then ["cluster = true"] else []).
  assert (Hextra : reads_as extra (if ro_sourceIsCluster opts then [("cluster", TOther "true")] else [])).
  { subst extra. destruct (ro_sourceIsCluster opts); [by apply reads_line|apply reads_nil]. }
  rewrite <-(file_reads "scan_reader" (srcLines ++ extra ++ [""]) _ opts tgtLines tgt); [|done| |done].
  - do 2 f_equal. cbn [app]. by rewrite <-!app_assoc.
  - apply reads_app; [by apply side_reads|by apply reads_then_blank].
Qed.

(** The same of the file of a synchronisation *)
Theorem sync_toml_roundtrip source target opts text :
  buildSyncReaderToml source target opts = Ok text →
  ∃ src tgt, usable source src ∧ usable target tgt
    ∧ read_toml text = Some
        (("sync_reader", ("cluster", TOther (js_bool (ro_sourceIsCluster opts))) :: side_pairs src
           ++ [("sync_rdb", TOther "true"); ("sync_aof", TOther "true");
               ("prefer_replica", TOther (js_bool (ro_preferReplica opts)))])
         :: writer_tables opts tgt).
Proof.
  unfold buildSyncReaderToml. destruct (both_sides source target) as [[srcLines tgtLines]|] eqn:Hb; [|done].
  intros Htext. apply Ok_inj in Htext as <-.
  destruct (both_sides_ok _ _ _ _ Hb) as (src & tgt & Hs & Ht & Hls & Hlt).
  exists src, tgt. split_and!; [done|done|].
  set (flags := ["sync_rdb = true"; "sync_aof = true"; "prefer_replica = " +:+ js_bool (ro_preferReplica opts); ""]).
  assert (Hflags : reads_as flags [("sync_rdb", TOther "true"); ("sync_aof", TOther "true");
                                   ("prefer_replica", TOther (js_bool (ro_preferReplica opts)))]).
  { apply (reads_app ["sync_rdb = true"] _ [_]); [by apply reads_line|].
    apply (reads_app ["sync_aof = true"] _ [_]); [by apply reads_line|].
    apply (reads_app [_] _ [_]); [apply reads_line; by destruct (ro_preferReplica opts)|apply reads_blank]. }
  rewrite <-(file_reads "sync_reader"
    (["cluster = " +:+ js_bool (ro_sourceIsCluster opts)] ++ srcLines ++ flags) _ opts tgtLines tgt); [|done| |done].
  - do 2 f_equal. cbn [app]. by rewrite <-!app_assoc.
  - apply (reads_app [_] _ [_]); [apply reads_line; by destruct (ro_sourceIsCluster opts)|].
    apply reads_app; [by apply side_reads|done].
Qed.

(** When a file is refused: an unusable host or port, or a control character *)
Definition printable (s : string) : bool := str_forall (λ c, negb (control_char c)) s.
Definition acceptable (c : DatabaseConnectionConfig) : Prop :=
  ∃ host port, validateHost (dc_host c) = Ok host ∧ validatePort (dc_port c) = Ok port
    ∧ printable (formatAddress host port) = true ∧ printable (toml_username c) = true
    ∧ printable (default EmptyString (dc_password c)) = true.
Lemma escape_ok value : (∃ text, escapeTomlString value = Ok text) ↔ printable value = true.
Proof.
  unfold escapeTomlString. change (str_forall _ value) with (printable value).
  destruct (printable value); split; [done|by eexists|by intros [? ?]|done].
Qed.
Lemma acceptable_iff c : acceptable c ↔ ∃ s lines, validated c = Ok s ∧ side_lines s = Ok lines.
Proof.
  unfold acceptable, validated, side_lines. split.
  - intros (host & port & -> & -> & Ha & Hu & Hp). eexists.
    apply escape_ok in Ha as [ta Ha], Hu as [tu Hu], Hp as [tp Hp]. cbn. eexists.
    split; [reflexivity|]. cbn. by rewrite Ha, Hu, Hp.
  - destruct (validateHost (dc_host c)) as [host|]; [|by intros (? & ? & ? & _)].
    destruct (validatePort (dc_port c)) as [port|]; [|by intros (? & ? & ? & _)].
    intros (s & lines & [= <-] & Hl). cbn in Hl. exists host, port. split_and!; [done|done|..];
      apply escape_ok; repeat case_match; try done; by eexists.
Qed.
Lemma scan_toml_total source target opts :
  (∃ text, buildScanReaderToml source target opts = Ok text) ↔ acceptable source ∧ acceptable target.
Proof.
  rewrite !acceptable_iff. unfold buildScanReaderToml, both_sides. split.
  - intros [text Ht]. repeat case_match; try done; simplify_eq; eauto 10.
  - intros [(s & l & -> & Hl) (t & l' & -> & Hl')]. rewrite Hl, Hl'. by eexists.
Qed.

(** ** Instances *)
Definition sample_connection (password : string) : DatabaseConnectionConfig :=
  {| dc_host := "::1"; dc_port := num_of_Z 6379; dc_username := Some "default";
     dc_password := Some password; dc_tls := true |}.
Definition sample_options : RedisShakeTomlOptions :=
  {| ro_sourceIsCluster := true; ro_targetIsCluster := false; ro_excludeFunctions := true;
     ro_tryDiskless := false; ro_preferReplica := false |}.
(** A password that tries to open a table of its own *)
Definition hostile : string :=
  "p" +:+ String quote_char (String newline ("[filter]" +:+ String newline EmptyString)).
Lemma scan_toml_roundtrip_witness :
  ∃ text src, buildScanReaderToml (sample_connection hostile) (sample_connection "x") sample_options = Ok text
    ∧ option_map (map fst) (read_toml text) = Some ["scan_reader"; "redis_writer"; "filter"; "advanced"]
    ∧ usable (sample_connection hostile) src ∧ sd_password src = hostile.
Proof.
  destruct (buildScanReaderToml (sample_connection hostile) (sample_connection "x") sample_options)
    as [text|e] eqn:Htext; [|vm_compute in Htext; discriminate].
  destruct (scan_toml_roundtrip _ _ _ _ Htext) as (src & tgt & Hs & Ht & Hread).
  exists text, src. split; [reflexivity|]. split; [rewrite Hread; reflexivity|]. split; [exact Hs|].
  destruct Hs as (port & _ & _ & ->). reflexivity.
Defined.
