(* ===== verification/MigrationLogs.v ===== *)
(** * The output of RedisShake

    [apps/api/src/migration/execution/log-parser.ts], and of [migration-execution.service.ts] the
    redaction of log lines and the reassembly of lines from the chunks of a stream.  A regular
    expression is a matcher that returns what it matched; where one has a choice that could be
    taken back, taking it back never helps, as noted. *)
From S2P Require Export JsNumber Json.
From stdpp Require Import options.

(** ** Definitions *)

(** *** Searching and replacing *)
(** The first place where [m] matches *)
Fixpoint search {A} (m : string → option A) (s : string) : option A :=
  match m s with
  | Some a => Some a
  | None => match s with EmptyString => None | String _ s' => search m s' end
  end.
(** [s.replace(/m/g, ...)]: [m] gives the replacement of its match and what follows it.  The
    match is not empty, so a unit of fuel per byte is enough. *)
Fixpoint replace_go (fuel : nat) (m : string → option (string * string)) (s : string) : string :=
  match fuel, s with
  | S fuel, String c s' =>
      match m s with
      | Some (by_, rest) => by_ +:+ replace_go fuel m rest
      | None => String c (replace_go fuel m s')
      end
  | _, _ => s
  end.
Definition replace_all (m : string → option (string * string)) (s : string) : string :=
  replace_go (String.length s) m s.
(** [s] without its beginning [p] *)
Definition after_prefix (p s : string) : option string :=
  if starts_with p s then Some (str_drop (String.length p) s) else None.
Definition nonempty_span (p : ascii → bool) (s : string) : option (string * string) :=
  let '(a, b) := span p s in if is_empty a then None else Some (a, b).

Definition escape : ascii := "027".
(** [/\x1b\[[0-9;?]*[ -/]*[@-~]/g]; its three classes are disjoint. *)
Definition ansi_csi (s : string) : option (string * string) :=
  rest ← after_prefix (String escape "[") s;
  let '(_, rest) := span (λ c, is_digit c || in_range 59 59 c || in_range 63 63 c) rest in
  let '(_, rest) := span (in_range 32 47) rest in
  match rest with
  | String c rest => if in_range 64 126 c then Some (EmptyString, rest) else None
  | EmptyString => None
  end.
Definition stripAnsi : string → string := replace_all ansi_csi.

(** *** Stages *)
Inductive SyncStage := connecting | rdb_syncing | aof_replicating.
Definition offset_sep (c : ascii) : bool := in_range 61 61 c || in_range 58 58 c || in_range 32 32 c.
Definition starts_offset (s : string) : option unit :=
  rest ← after_prefix "offset" s;
  match rest with
  | String c _ => if offset_sep c then Some tt else None
  | EmptyString => None
  end.
(** [/receive\s+offset[=: ]/i] and [/master[_\s]offset[=: ]/i] on the lower-cased line *)
Definition receive_offset (s : string) : option unit :=
  rest ← after_prefix "receive" s;
  if Nat.eqb (ws_len rest) 0 then None else starts_offset (skip_ws rest).
Definition master_offset (s : string) : option unit :=
  rest ← after_prefix "master" s;
  match after_prefix "_" rest with
  | Some rest => starts_offset rest
  | None => match ws_len rest with
            | 0%nat => None
            | k => starts_offset (str_drop k rest)
            end
  end.
Definition found {A} (m : string → option A) (s : string) : bool :=
  match search m s with Some _ => true | None => false end.
Definition any_of (needles : list string) (s : string) : bool := js_some (λ p, includes p s) needles.
Definition detectSyncStage (line : string) : option SyncStage :=
  let lower := to_lower line in
  if any_of ["rdb send finished"; "rdb sync done"; "rdb sync finished"; "full sync done";
             "full sync finished"; "incr sync"; "send incr"; "syncing aof"] lower
     || found receive_offset lower || found master_offset lower
  then Some aof_replicating
  else if any_of ["start full sync"; "send rdb"; "receiving rdb"; "rdb receiving"; "start syncing"] lower
  then Some rdb_syncing
  else if any_of ["connect to "; "psync"; "connecting to source"] lower then Some connecting
  else None.

(** *** Progress *)
Record ParsedLogLine := {
  pl_keysTransferred : option number; pl_bytesTransferred : option number;
  pl_progress : option number; pl_syncStage : option SyncStage
}.
Definition NULL_RESULT : ParsedLogLine :=
  {| pl_keysTransferred := None; pl_bytesTransferred := None; pl_progress := None; pl_syncStage := None |}.
(** [value?.key], where [null] and [undefined] are one as far as [??] is concerned *)
Definition member (value : json) (key : string) : option json :=
  match json_member value key with
  | Some (Some JNull) | Some None | None => None
  | Some (Some v) => Some v
  end.
(** [a ?? b] *)
Definition coalesce {A} (a b : option A) : option A := match a with Some _ => a | None => b end.
Definition as_number (v : option json) : option number :=
  match v with Some (JNum n) => Some n | _ => None end.
Definition percent_of (done total : number) : number :=
  num_min (num_of_Z 100) (math_round (num_mul (num_div done total) (num_of_Z 100))).
Definition has_signal (r : ParsedLogLine) : bool :=
  match pl_keysTransferred r, pl_bytesTransferred r, pl_progress r, pl_syncStage r with
  | None, None, None, None => false
  | _, _, _, _ => true
  end.
Definition parse_json_line (line : string) (syncStage : option SyncStage) : option ParsedLogLine :=
  match json_parse line with
  | Some ((JObj _ | JArr _) as obj) =>
      let count k := coalesce (member obj "counts" ≫= λ c, member c k)
                       (coalesce (member obj "key_counts" ≫= λ c, member c k) (member obj k)) in
      let scanned := as_number (count "scanned") in
      let total := as_number (count "total") in
      let bytes := as_number (coalesce (member obj "bytes") (member obj "bytes_transferred")) in
      let progress := match scanned, total with
                      | Some scanned, Some total =>
                          if num_ltb (num_of_Z 0) total then Some (percent_of scanned total) else None
                      | _, _ => None
                      end in
      let r := {| pl_keysTransferred := scanned; pl_bytesTransferred := bytes;
                  pl_progress := progress; pl_syncStage := syncStage |} in
      if has_signal r then Some r else None
  | _ => None
  end.

(** [parseInt(digits, 10)] *)
Definition number_of_digits (ds : string) : number := num_of_decimal false (digits_value ds) 0.
(** [/write_count=\[(\d+)\]/] *)
Definition write_count (s : string) : option number :=
  rest ← after_prefix "write_count=[" s;
  '(ds, rest) ← nonempty_span is_digit rest;
  _ ← after_prefix "]" rest;
  Some (number_of_digits ds).
(** [/word[=: ]+(\d+)/i], on the lower-cased line *)
Definition labelled (word s : string) : option number :=
  rest ← after_prefix word s;
  '(_, rest) ← nonempty_span offset_sep rest;
  '(ds, _) ← nonempty_span is_digit rest;
  Some (number_of_digits ds).
(** [/(\d+(?:\.\d+)?)\s*%/]: after fewer digits, or without the fraction, the next character is
    a digit or a dot, never a per cent sign. *)
Definition percent (s : string) : option number :=
  '(ip, rest) ← nonempty_span is_digit s;
  let '(text, rest) :=
    match rest with
    | String c rest' =>
        if ascii_dec c "." then
          match nonempty_span is_digit rest' with
          | Some (fp, rest'') => (ip +:+ "." +:+ fp, rest'')
          | None => (ip, rest)
          end
        else (ip, rest)
    | EmptyString => (ip, rest)
    end in
  _ ← after_prefix "%" (skip_ws rest);
  Some (parse_float text).
Definition parse_text_line (line : string) (syncStage : option SyncStage) : ParsedLogLine :=
  let lower := to_lower line in
  let keys := coalesce (search write_count line) (search (labelled "scanned") lower) in
  let by_total := match search (labelled "total") lower, keys with
                  | Some total, Some keys =>
                      if num_ltb (num_of_Z 0) total then Some (percent_of keys total) else None
                  | _, _ => None
                  end in
  let progress := coalesce by_total
                    ((λ p, num_min (num_of_Z 100) (math_round p)) <$> search percent line) in
  {| pl_keysTransferred := keys; pl_bytesTransferred := None; pl_progress := progress;
     pl_syncStage := syncStage |}.
Definition parseLogLine (line : string) : ParsedLogLine :=
  let syncStage := detectSyncStage line in
  match parse_json_line line syncStage with
  | Some r => r
  | None =>
      let r := parse_text_line line syncStage in
      if has_signal r then r else NULL_RESULT
  end.

(** *** Failures *)
Inductive ExecutionFailureCode := BUSYKEY | UNKNOWN.
Definition is_word (c : ascii) : bool :=
  is_digit c || in_range 65 90 c || in_range 97 122 c || in_range 95 95 c.
(** [/\.(go|s):\d+/] *)
Definition source_frame (s : string) : option unit :=
  rest ← after_prefix "." s;
  rest ← match after_prefix "go" rest with Some rest => Some rest | None => after_prefix "s" rest end;
  rest ← after_prefix ":" rest;
  match rest with
  | String c _ => if is_digit c then Some tt else None
  | EmptyString => None
  end.
(** [/\bfatal\b/] on the lower-cased line; [prev] is the character before *)
Fixpoint fatal_word (prev : bool) (s : string) : bool :=
  (negb prev && match after_prefix "fatal" s with
                | Some (String c _) => negb (is_word c)
                | Some EmptyString => true
                | None => false
                end)
  || match s with EmptyString => false | String c s' => fatal_word (is_word c) s' end.
(** [/(^|\s)ERR(\s|$)/] or [/panic:|\[PANIC\]|\bFATAL\b/i] *)
Definition fatal_marker (line : string) : bool :=
  js_includes "ERR" (split_ws line)
  || let lower := to_lower line in
     includes "panic:" lower || includes "[panic]" lower || fatal_word false lower.
Definition findFatalLine (logs : list string) : option string :=
  let candidates :=
    js_filter (λ line, negb (is_empty line) && negb (found source_frame line)) (trim <$> logs) in
  coalesce (js_find fatal_marker (reverse candidates)) (last candidates).
Record RedisShakeFailure := { rf_code : ExecutionFailureCode; rf_message : string }.
Definition code_suffix (exitCode : option Z) : string :=
  match exitCode with None => "unknown" | Some n => string_of_Z n end.
Definition busy_message (suffix : string) : string :=
  "Migration failed: the target already contains one or more of the keys being "
  +:+ "migrated (BUSYKEY). RedisShake will not overwrite existing keys. Enable the option "
  +:+ "to flush the target before migration, or point the migration at an empty target, "
  +:+ "then run it again. (exit code " +:+ suffix +:+ ")".
Definition classifyRedisShakeFailure (exitCode : option Z) (logs : list string) : RedisShakeFailure :=
  let busy := match findFatalLine logs with
              | Some line => includes "busykey" (to_lower line)
              | None => false
              end in
  if busy then {| rf_code := BUSYKEY; rf_message := busy_message (code_suffix exitCode) |}
  else {| rf_code := UNKNOWN;
          rf_message := "RedisShake exited with code " +:+ code_suffix exitCode |}.

(** *** Redaction of credentials *)
Definition SENSITIVE_KEYS : list string :=
  ["password"; "username"; "auth"; "requirepass"; "masterauth"; "token"].
Definition separator (c : ascii) : bool := in_range 61 61 c || in_range 58 58 c.
(** A sensitive word, white space and a separator: the text so far and what follows.  No word
    begins another. *)
Definition sensitive_key (s : string) : option (string * string) :=
  word ← js_find (λ w, starts_with w (to_lower s)) SENSITIVE_KEYS;
  let rest := str_drop (String.length word) s in
  match skip_ws rest with
  | String c rest' =>
      if separator c
      then Some (str_take (String.length s - String.length rest') s, rest') else None
  | EmptyString => None
  end.
(** After the opening quote of a text, what follows its closing one; a backslash takes the next
    character with it. *)
Fixpoint quoted_rest (s : string) : option string :=
  match s with
  | EmptyString => None
  | String c s' =>
      if ascii_dec c quote_char then Some s'
      else if ascii_dec c backslash then
        match s' with
        | String _ s'' => if line_end_at s' then None else quoted_rest s''
        | EmptyString => None
        end
      else quoted_rest s'
  end.
Definition redact_quoted (s : string) : option (string * string) :=
  '(prefix, rest) ← sensitive_key s;
  match skip_ws rest with
  | String c body =>
      if ascii_dec c quote_char then
        rest ← quoted_rest body;
        Some (prefix +:+ " " +:+ String quote_char ("***" +:+ String quote_char EmptyString), rest)
      else None
  | EmptyString => None
  end.
(** The bytes up to the next white space *)
Fixpoint drop_word (s : string) : string :=
  match s with
  | EmptyString => EmptyString
  | String _ s' => if Nat.eqb (ws_len s) 0 then drop_word s' else s
  end.
(** White space, then a word that begins with neither a quote nor a star *)
Definition redact_plain (s : string) : option (string * string) :=
  '(prefix, rest) ← sensitive_key s;
  match skip_ws rest with
  | String c _ =>
      if ascii_dec c quote_char then None
      else if ascii_dec c "*" then None
      else Some (prefix +:+ " ***", drop_word (skip_ws rest))
  | EmptyString => None
  end.
(** [/\/\/[^:]+:[^@]+@/] *)
Definition redact_url (s : string) : option (string * string) :=
  rest ← after_prefix "//" s;
  '(_, rest) ← nonempty_span (λ c, if ascii_dec c ":" then false else true) rest;
  rest ← after_prefix ":" rest;
  '(_, rest) ← nonempty_span (λ c, if ascii_dec c "@" then false else true) rest;
  rest ← after_prefix "@" rest;
  Some ("//***:***@", rest).
Definition sanitizeLogLine (line : string) : string :=
  replace_all redact_url (replace_all redact_plain (replace_all redact_quoted line)).

(** *** Lines of a stream *)
(** [onData] of a stream handler: the lines it completes and the buffer it keeps *)
Definition on_data (buffer chunk : string) : list string * string :=
  let parts := split_char newline (buffer +:+ chunk) in
  (removelast parts, default EmptyString (last parts)).
Definition on_flush (buffer : string) : list string := if is_empty buffer then [] else [buffer].
(** All lines of a stream that arrives in [chunks] *)
Fixpoint stream_lines (buffer : string) (chunks : list string) : list string :=
  match chunks with
  | [] => on_flush buffer
  | chunk :: chunks =>
      let '(lines, buffer) := on_data buffer chunk in lines ++ stream_lines buffer chunks
  end.

(** ** Lemmas *)
Lemma split_char_nonempty c s : split_char c s ≠ [].
Proof. destruct s as [|a s]; cbn; [done|]. destruct (ascii_dec a c); [done|]. by destruct (split_char c s). Qed.
(** Splitting a text that goes on: the last part is open. *)
Lemma split_char_app c s t :
  split_char c (s +:+ t)
  = removelast (split_char c s) ++ split_char c (default EmptyString (last (split_char c s)) +:+ t).
Proof.
  induction s as [|a s IH]; [done|]. cbn. destruct (ascii_dec a c) as [->|Hne].
  - pose proof (split_char_nonempty c s) as Hs. rewrite IH. by destruct (split_char c s).
  - pose proof (split_char_nonempty c s) as Hs. rewrite IH.
    destruct (split_char c s) as [|w [|w' ws]]; [done| |done].
    cbn. destruct (ascii_dec a c); [done|]. done.
Qed.
Lemma split_char_parts c s w : w ∈ split_char c s → split_char c w = [w].
Proof.
  revert w. induction s as [|a s IH]; intros w; cbn; [by intros ->%list_elem_of_singleton|].
  destruct (ascii_dec a c) as [->|Hne]; [intros [->|?]%elem_of_cons; auto|].
  pose proof (split_char_nonempty c s) as Hs. destruct (split_char c s) as [|w' ws]; [done|].
  intros [->|Hin]%elem_of_cons; [|apply IH; by right].
  cbn. destruct (ascii_dec a c); [done|]. by rewrite IH by by left.
Qed.
Lemma last_elem {A} (l : list A) d : l ≠ [] → default d (last l) ∈ l.
Proof.
  intros Hl. destruct l as [|x l] using rev_ind; [done|]. rewrite last_snoc. cbn. set_solver.
Qed.
Lemma split_last c s :
  split_char c (default EmptyString (last (split_char c s)))
  = [default EmptyString (last (split_char c s))].
Proof. eapply split_char_parts, last_elem, split_char_nonempty. Qed.
Lemma stream_lines_split chunks : ∀ buffer,
  split_char newline buffer = [buffer] →
  stream_lines buffer chunks
  = let parts := split_char newline (buffer +:+ foldr String.append EmptyString chunks) in
    removelast parts ++ on_flush (default EmptyString (last parts)).
Proof.
  induction chunks as [|chunk chunks IH]; intros buffer Hb; cbn [stream_lines foldr].
  { by rewrite str_app_nil_r, Hb. }
  cbn [on_data]. rewrite IH by apply split_last. cbn zeta.
  rewrite <-str_app_assoc, (split_char_app newline (buffer +:+ chunk)).
  set (parts := split_char newline (buffer +:+ chunk)).
  set (more := split_char newline (_ +:+ _)).
  assert (Hm : more ≠ []) by apply split_char_nonempty.
  rewrite removelast_app, <-app_assoc by done. do 3 f_equal.
  rewrite last_app. by destruct more using rev_ind; [|rewrite last_snoc].
Qed.

Lemma fatal_line_last logs line :
  findFatalLine logs = Some line →
  ∃ raw, raw ∈ logs ∧ line = trim raw ∧ is_empty line = false ∧ found source_frame line = false.
Proof.
  unfold findFatalLine. set (candidates := js_filter _ (trim <$> logs)). intros Hl.
  assert (Hin : line ∈ candidates).
  { destruct (js_find fatal_marker (reverse candidates)) as [l|] eqn:Hf; cbn in Hl.
    - injection Hl as ->. apply js_find_Some in Hf as [_ Hf]. exact (proj1 (elem_of_reverse _ _) Hf).
    - by apply last_Some_elem_of. }
  apply js_filter_elem in Hin as [Hc Hin]. apply list_elem_of_fmap in Hin as (raw & -> & Hraw).
  exists raw. apply andb_true_iff in Hc as [H1 H2]. apply negb_true_iff in H1, H2. by split_and!.
Qed.

(** ** Theorems *)

(** How the output of the process is cut into chunks does not matter: the lines a stream
    handler passes on are those of the whole output, each once and in order, with a last line
    that has no line end included and no empty line added at the end. *)
Theorem chunks_do_not_matter chunks :
  let parts := split_char newline (foldr String.append EmptyString chunks) in
  stream_lines EmptyString chunks = removelast parts ++ on_flush (default EmptyString (last parts)).
Proof. by apply (stream_lines_split chunks EmptyString). Qed.

(** A failure is put down to occupied keys exactly when the line that aborted the run says so. *)
Theorem busykey_from_fatal_line exitCode logs :
  rf_code (classifyRedisShakeFailure exitCode logs) = BUSYKEY
  ↔ ∃ line, findFatalLine logs = Some line ∧ includes "busykey" (to_lower line) = true.
Proof.
  unfold classifyRedisShakeFailure. destruct (findFatalLine logs) as [line|].
  - destruct (includes _ _) eqn:Hb; cbn; [split; [by exists line|done]|].
    split; [done|]. intros (l & [= <-] & Hl). congruence.
  - split; [done|]. by intros (? & ? & _).
Qed.

(** ** Samples *)
Example chunk_ex : stream_lines EmptyString ["ab"; String newline "c"; "d" +:+ String newline "e"]
  = ["ab"; "cd"; "e"].
Proof. reflexivity. Qed.
Definition colour (s : string) : string := String escape ("[31m" +:+ s +:+ String escape "[0m").
Example strip_ex : stripAnsi (colour "ERR" +:+ " done") = "ERR done".
Proof. reflexivity. Qed.
Example stage_ex :
  map (λ l, detectSyncStage l) ["PSYNC handshake started"; "start full sync"; "receive  offset=1"; "x"]
  = [Some connecting; Some rdb_syncing; Some aof_replicating; None].
Proof. reflexivity. Qed.
Example text_line_ex :
  let r := parseLogLine "write_count=[500], scanned=999, total=1000, syncing aof" in
  (pl_keysTransferred r, pl_progress r, pl_syncStage r)
  = (Some (num_of_Z 500), Some (num_of_Z 50), Some aof_replicating).
Proof. vm_compute. reflexivity. Qed.
Example json_line_ex :
  let r := parseLogLine (quoted "{`key_counts`:{`scanned`:100,`total`:1000}}") in
  (pl_keysTransferred r, pl_progress r) = (Some (num_of_Z 100), Some (num_of_Z 10)).
Proof. vm_compute. reflexivity. Qed.
Example percent_ex : pl_progress (parseLogLine "12.34.56 % done") = Some (num_of_Z 35).
Proof. vm_compute. reflexivity. Qed.
Example fatal_ex :
  findFatalLine ["INF err=nil"; "ERR restore: BUSYKEY Target key"; "main.go:12 -> main()"; "INF bye"]
  = Some "ERR restore: BUSYKEY Target key".
Proof. vm_compute. reflexivity. Qed.
Example sanitize_ex :
  map sanitizeLogLine [quoted "password = `se\`cret` x"; "AUTH: tok3n user"; "redis://u:p@h:1"]
  = [quoted "password = `***` x"; "AUTH: *** user"; "redis://***:***@h:1"].
Proof. vm_compute. reflexivity. Qed.
(** In a JSON line the quote that closes the name of a field hides it: the password stays. *)
Lemma json_password_stays :
  sanitizeLogLine (quoted "{`address`:`10.0.0.1:6379`,`password`:`hunter2`}")
  = quoted "{`address`:`10.0.0.1:6379`,`password`:`hunter2`}".
Proof. vm_compute. reflexivity. Qed.
