(* ===== verification/MigrationExecution.v ===== *)
(** * Migration jobs

    [apps/api/src/migration/migration-execution.service.ts]: a job copies a keyspace with an
    external RedisShake process or with the worker of [MigrationWorker].  The methods run up to
    their next [await]; the steps below are those segments and the events of the process, in any
    order.  Job objects live on after the map has dropped them, because a run keeps its own
    reference; so the objects are one map and the ids the service lists another. *)
From S2P Require Export Hoare MigrationToml MigrationLogs.
From stdpp Require Import options.

(** ** Definitions *)
Inductive ExecutionMode := redis_shake | redis_shake_sync | command.
Inductive ExecutionJobStatus := pending | running | completed | failed | cancelled.
#[global] Instance ExecutionMode_eq_dec : EqDecision ExecutionMode.
Proof. solve_decision. Defined.
#[global] Instance ExecutionJobStatus_eq_dec : EqDecision ExecutionJobStatus.
Proof. solve_decision. Defined.
Definition terminal (s : ExecutionJobStatus) : bool :=
  match s with completed | failed | cancelled => true | pending | running => false end.

Record ExecutionJob := {
  ej_mode : ExecutionMode; ej_status : ExecutionJobStatus; ej_startedAt : Z;
  ej_completedAt : option Z; ej_error : option string; ej_failureCode : option ExecutionFailureCode;
  ej_keysTransferred : number; ej_bytesTransferred : number; ej_keysSkipped : Z; ej_totalKeys : Z;
  ej_logs : list string; ej_notices : list string; ej_progress : option number;
  ej_syncStage : option SyncStage; ej_process : bool; ej_tomlPath : option string;
  ej_pidPath : option string
}.
Definition MAX_JOBS : nat := 10.
Definition MAX_LOG_LINES : Z := 500.

Inductive FunctionPresence := present | absent | unknown.
#[global] Instance FunctionPresence_eq_dec : EqDecision FunctionPresence.
Proof. solve_decision. Defined.
(** What [runRedisShake] has to do before it spawns the process *)
Record RedisShakePreSpawn := {
  ps_excludeFunctions : bool; ps_sourceDbType : EngineType; ps_targetDbType : EngineType;
  ps_emptyDbBeforeSync : bool
}.
(** Where a run waits: for the probe, for the flush, for the process with the buffers of its
    two streams and the exit code seen so far, or for the worker *)
Inductive Run :=
  | R_probe (pre : RedisShakePreSpawn)
  | R_flush (pre : RedisShakePreSpawn)
  | R_process (out err : string) (exitCode : Z)
  | R_command.
(** What the outside sees: a flush of the target begins, a process starts or gets a signal. *)
Inductive Effect := E_flush (id : string) | E_spawn (id : string) | E_signal (id signal : string).
Record Service := {
  sx_objects : gmap string ExecutionJob; sx_jobs : list string; sx_runs : gmap string Run;
  sx_timers : list string; sx_files : gset string; sx_effects : list Effect
}.
Definition empty_service : Service :=
  {| sx_objects := ∅; sx_jobs := []; sx_runs := ∅; sx_timers := []; sx_files := ∅; sx_effects := [] |}.

Definition set_objects (o : gmap string ExecutionJob) (s : Service) : Service :=
  {| sx_objects := o; sx_jobs := sx_jobs s; sx_runs := sx_runs s; sx_timers := sx_timers s;
     sx_files := sx_files s; sx_effects := sx_effects s |}.
Definition set_jobs (l : list string) (s : Service) : Service :=
  {| sx_objects := sx_objects s; sx_jobs := l; sx_runs := sx_runs s; sx_timers := sx_timers s;
     sx_files := sx_files s; sx_effects := sx_effects s |}.
Definition set_runs (r : gmap string Run) (s : Service) : Service :=
  {| sx_objects := sx_objects s; sx_jobs := sx_jobs s; sx_runs := r; sx_timers := sx_timers s;
     sx_files := sx_files s; sx_effects := sx_effects s |}.
Definition set_timers (l : list string) (s : Service) : Service :=
  {| sx_objects := sx_objects s; sx_jobs := sx_jobs s; sx_runs := sx_runs s; sx_timers := l;
     sx_files := sx_files s; sx_effects := sx_effects s |}.
Definition set_files (f : gset string) (s : Service) : Service :=
  {| sx_objects := sx_objects s; sx_jobs := sx_jobs s; sx_runs := sx_runs s; sx_timers := sx_timers s;
     sx_files := f; sx_effects := sx_effects s |}.
Definition emit (e : Effect) (s : Service) : Service :=
  {| sx_objects := sx_objects s; sx_jobs := sx_jobs s; sx_runs := sx_runs s; sx_timers := sx_timers s;
     sx_files := sx_files s; sx_effects := sx_effects s ++ [e] |}.
Definition update_job (id : string) (f : ExecutionJob → ExecutionJob) (s : Service) : Service :=
  set_objects (alter f id (sx_objects s)) s.
Definition wait (id : string) (r : Run) (s : Service) : Service := set_runs (<[id := r]> (sx_runs s)) s.

(** *** Fields of a job *)
Definition set_outcome (status : ExecutionJobStatus) (error : option string)
    (code : option ExecutionFailureCode) (j : ExecutionJob) : ExecutionJob :=
  {| ej_mode := ej_mode j; ej_status := status; ej_startedAt := ej_startedAt j;
     ej_completedAt := ej_completedAt j; ej_error := error; ej_failureCode := code;
     ej_keysTransferred := ej_keysTransferred j; ej_bytesTransferred := ej_bytesTransferred j;
     ej_keysSkipped := ej_keysSkipped j; ej_totalKeys := ej_totalKeys j; ej_logs := ej_logs j;
     ej_notices := ej_notices j; ej_progress := ej_progress j; ej_syncStage := ej_syncStage j;
     ej_process := ej_process j; ej_tomlPath := ej_tomlPath j; ej_pidPath := ej_pidPath j |}.
Definition set_status (status : ExecutionJobStatus) (j : ExecutionJob) : ExecutionJob :=
  set_outcome status (ej_error j) (ej_failureCode j) j.
Definition set_measures (keys bytes : number) (skipped total : Z) (logs : list string)
    (progress : option number) (stage : option SyncStage) (j : ExecutionJob) : ExecutionJob :=
  {| ej_mode := ej_mode j; ej_status := ej_status j; ej_startedAt := ej_startedAt j;
     ej_completedAt := ej_completedAt j; ej_error := ej_error j; ej_failureCode := ej_failureCode j;
     ej_keysTransferred := keys; ej_bytesTransferred := bytes; ej_keysSkipped := skipped;
     ej_totalKeys := total; ej_logs := logs; ej_notices := ej_notices j; ej_progress := progress;
     ej_syncStage := stage; ej_process := ej_process j; ej_tomlPath := ej_tomlPath j;
     ej_pidPath := ej_pidPath j |}.
Definition add_notice (notice : string) (j : ExecutionJob) : ExecutionJob :=
  {| ej_mode := ej_mode j; ej_status := ej_status j; ej_startedAt := ej_startedAt j;
     ej_completedAt := ej_completedAt j; ej_error := ej_error j; ej_failureCode := ej_failureCode j;
     ej_keysTransferred := ej_keysTransferred j; ej_bytesTransferred := ej_bytesTransferred j;
     ej_keysSkipped := ej_keysSkipped j; ej_totalKeys := ej_totalKeys j; ej_logs := ej_logs j;
     ej_notices := ej_notices j ++ [notice]; ej_progress := ej_progress j;
     ej_syncStage := ej_syncStage j; ej_process := ej_process j; ej_tomlPath := ej_tomlPath j;
     ej_pidPath := ej_pidPath j |}.
Definition set_handles (process : bool) (toml pid : option string) (j : ExecutionJob) : ExecutionJob :=
  {| ej_mode := ej_mode j; ej_status := ej_status j; ej_startedAt := ej_startedAt j;
     ej_completedAt := ej_completedAt j; ej_error := ej_error j; ej_failureCode := ej_failureCode j;
     ej_keysTransferred := ej_keysTransferred j; ej_bytesTransferred := ej_bytesTransferred j;
     ej_keysSkipped := ej_keysSkipped j; ej_totalKeys := ej_totalKeys j; ej_logs := ej_logs j;
     ej_notices := ej_notices j; ej_progress := ej_progress j; ej_syncStage := ej_syncStage j;
     ej_process := process; ej_tomlPath := toml; ej_pidPath := pid |}.
(** [if (!job.completedAt) job.completedAt = Date.now()] *)
Definition stamp (now : Z) (j : ExecutionJob) : ExecutionJob :=
  {| ej_mode := ej_mode j; ej_status := ej_status j; ej_startedAt := ej_startedAt j;
     ej_completedAt := if truthy_number (ej_completedAt j) then ej_completedAt j else Some now;
     ej_error := ej_error j; ej_failureCode := ej_failureCode j;
     ej_keysTransferred := ej_keysTransferred j; ej_bytesTransferred := ej_bytesTransferred j;
     ej_keysSkipped := ej_keysSkipped j; ej_totalKeys := ej_totalKeys j; ej_logs := ej_logs j;
     ej_notices := ej_notices j; ej_progress := ej_progress j; ej_syncStage := ej_syncStage j;
     ej_process := ej_process j; ej_tomlPath := ej_tomlPath j; ej_pidPath := ej_pidPath j |}.
Definition with_progress (p : number) (j : ExecutionJob) : ExecutionJob :=
  set_measures (ej_keysTransferred j) (ej_bytesTransferred j) (ej_keysSkipped j) (ej_totalKeys j)
    (ej_logs j) (Some p) (ej_syncStage j) j.

(** *** Output of the process *)
Definition push_line (line : string) (logs : list string) : list string :=
  let logs := logs ++ [line] in
  if MAX_LOG_LINES <? js_len logs then drop 1 logs else logs.
Definition or_keep {A} (o : option A) (a : A) : A := match o with Some b => b | None => a end.
Definition processLine (rawLine : string) (j : ExecutionJob) : ExecutionJob :=
  let line := stripAnsi rawLine in
  if is_empty line then j
  else
    let parsed := parseLogLine line in
    set_measures (or_keep (pl_keysTransferred parsed) (ej_keysTransferred j))
      (or_keep (pl_bytesTransferred parsed) (ej_bytesTransferred j)) (ej_keysSkipped j)
      (ej_totalKeys j) (push_line (sanitizeLogLine line) (ej_logs j))
      (coalesce (pl_progress parsed) (ej_progress j))
      (if decide (ej_mode j = redis_shake_sync)
       then coalesce (pl_syncStage parsed) (ej_syncStage j) else ej_syncStage j) j.
Definition processLines (lines : list string) (j : ExecutionJob) : ExecutionJob :=
  foldl (λ j line, processLine line j) j lines.

(** *** The run of a RedisShake job *)
Definition status_of (id : string) (s : Service) : option ExecutionJobStatus :=
  ej_status <$> sx_objects s !! id.
Definition is_cancelled (id : string) (s : Service) : bool :=
  bool_decide (status_of id s = Some cancelled).
Definition toml_path (id : string) : string := id +:+ ".toml".
Definition pid_path (id : string) : string := id +:+ ".pid".
Definition paths_of (j : ExecutionJob) : gset string :=
  list_to_set (option_list (ej_tomlPath j) ++ option_list (ej_pidPath j)).
(** The [finally] block; deleting a file may fail ([kept]). *)
Definition finalize (now : Z) (kept : gset string) (id : string) (s : Service) : Service :=
  let files := match sx_objects s !! id with Some j => paths_of j | None => ∅ end in
  update_job id (λ j, set_handles false None None (stamp now j))
    (set_files (sx_files s ∖ (files ∖ kept)) (set_runs (delete id (sx_runs s)) s)).
(** The [catch] block *)
Definition run_failed (message : string) (id : string) (s : Service) : Service :=
  if is_cancelled id s then s
  else update_job id (λ j, set_outcome failed (Some message) (ej_failureCode j) j) s.

(** [spawn] and what follows up to the wait for its end; [pidWritten]: writing the PID file
    worked. *)
Definition spawn_process (pidWritten : bool) (id : string) (s : Service) : Service :=
  let s := update_job id (λ j, set_status running (set_handles true (ej_tomlPath j) (ej_pidPath j) j))
             (emit (E_spawn id) s) in
  let s := if pidWritten
           then update_job id (λ j, set_handles (ej_process j) (ej_tomlPath j) (Some (pid_path id)) j)
                  (set_files ({[ pid_path id ]} ∪ sx_files s) s)
           else s in
  wait id (R_process EmptyString EmptyString 1) s.
Definition flush_or_spawn (pidWritten : bool) (pre : RedisShakePreSpawn) (id : string) (s : Service)
    : Service :=
  if ps_emptyDbBeforeSync pre && negb (is_cancelled id s)
  then wait id (R_flush pre) (emit (E_flush id) s)
  else spawn_process pidWritten id s.
Definition begin_shake (now : Z) (kept : gset string) (pidWritten : bool) (pre : RedisShakePreSpawn)
    (id : string) (s : Service) : Service :=
  if is_cancelled id s then finalize now kept id s
  else if ps_excludeFunctions pre then wait id (R_probe pre) s
  else flush_or_spawn pidWritten pre id s.
Definition engine_name (e : EngineType) : string :=
  match e with valkey => "valkey" | redis => "redis" end.
Definition function_notice (pre : RedisShakePreSpawn) : string :=
  "Cross-engine migration (" +:+ engine_name (ps_sourceDbType pre) +:+ " → "
  +:+ engine_name (ps_targetDbType pre)
  +:+ "): server-side functions are excluded and will not be transferred to the target.".
Definition after_probe (now : Z) (kept : gset string) (pidWritten : bool)
    (presence : outcome string FunctionPresence) (pre : RedisShakePreSpawn) (id : string)
    (s : Service) : Service :=
  let s := match presence with
           | Ok p => if decide (p = absent) then s else update_job id (add_notice (function_notice pre)) s
           | Throw _ => s
           end in
  if is_cancelled id s then finalize now kept id s else flush_or_spawn pidWritten pre id s.
Definition after_flush (now : Z) (kept : gset string) (pidWritten : bool) (r : outcome string unit)
    (id : string) (s : Service) : Service :=
  match r with
  | Throw message => finalize now kept id (run_failed ("Target pre-flush failed: " +:+ message) id s)
  | Ok _ => if is_cancelled id s then finalize now kept id s else spawn_process pidWritten id s
  end.

(** The events of a process *)
Definition on_stdout (chunk out err : string) (code : Z) (id : string) (s : Service) : Service :=
  let '(lines, out) := on_data out chunk in
  wait id (R_process out err code) (update_job id (processLines lines) s).
Definition on_stderr (chunk out err : string) (code : Z) (id : string) (s : Service) : Service :=
  let '(lines, err) := on_data err chunk in
  wait id (R_process out err code) (update_job id (processLines lines) s).
Definition exit_status (code : Z) (j : ExecutionJob) : ExecutionJob :=
  if decide (ej_status j = cancelled) then j
  else if code =? 0 then with_progress (num_of_Z 100) (set_status completed j)
  else
    let failure := classifyRedisShakeFailure (Some code) (ej_logs j) in
    set_outcome failed (Some (rf_message failure)) (Some (rf_code failure)) j.
Definition on_close (now : Z) (kept : gset string) (out err : string) (code : Z) (id : string)
    (s : Service) : Service :=
  finalize now kept id
    (update_job id (λ j, exit_status code (processLines (on_flush out ++ on_flush err) j)) s).
Definition on_error (now : Z) (kept : gset string) (message id : string) (s : Service) : Service :=
  finalize now kept id (run_failed message id s).

(** *** The methods of the service *)
Record StartRequest := {
  rq_source : string; rq_target : string; rq_mode : option ExecutionMode;
  rq_tryDiskless : bool; rq_emptyDbBeforeSync : bool; rq_preferReplica : bool
}.
(** What the outside answers during a start: the registry of connections, INFO and the engine of
    each, the search for the binary, writing the TOML and the PID file, the id and the clock *)
Record StartEnv := {
  se_get : string → outcome string unit;
  se_config : string → option DatabaseConnectionConfig;
  se_cluster : string → outcome string bool;
  se_engine : string → EngineType;
  se_binary : outcome string unit;
  se_write : outcome string unit;
  se_pid_written : bool;
  se_id : string;
  se_now : Z
}.

Definition job_terminal (s : Service) (id : string) : bool :=
  match status_of id s with Some st => terminal st | None => false end.
Definition started_at (s : Service) (id : string) : Z :=
  match sx_objects s !! id with Some j => ej_startedAt j | None => 0 end.
(** The loop over the terminal jobs, oldest first *)
Fixpoint evict (ids jobs : list string) : list string :=
  match ids with
  | [] => jobs
  | id :: ids =>
      if (length jobs <? MAX_JOBS)%nat then jobs
      else evict ids (js_filter (λ id', negb (str_eqb id' id)) jobs)
  end.
Definition limit_message : string :=
  "Execution job limit reached (" +:+ string_of_Z (Z.of_nat MAX_JOBS)
  +:+ "). All slots occupied by running jobs — try again later.".
Definition evictOldJobs : M Service string unit := λ s,
  if (length (sx_jobs s) <? MAX_JOBS)%nat then (Ok tt, s)
  else
    let terminals := js_sort (by_asc (started_at s)) (js_filter (job_terminal s) (sx_jobs s)) in
    let s := set_jobs (evict terminals (sx_jobs s)) s in
    if (MAX_JOBS <=? length (sx_jobs s))%nat then (Throw limit_message, s) else (Ok tt, s).

Definition new_execution (mode : ExecutionMode) (now : Z) : ExecutionJob :=
  {| ej_mode := mode; ej_status := pending; ej_startedAt := now; ej_completedAt := None;
     ej_error := None; ej_failureCode := None; ej_keysTransferred := num_of_Z 0;
     ej_bytesTransferred := num_of_Z 0; ej_keysSkipped := 0; ej_totalKeys := 0; ej_logs := [];
     ej_notices := []; ej_progress := None; ej_syncStage := None; ej_process := false;
     ej_tomlPath := None; ej_pidPath := None |}.
Definition build_toml (mode : ExecutionMode) (source target : DatabaseConnectionConfig)
    (opts : RedisShakeTomlOptions) : outcome string string :=
  if decide (mode = redis_shake_sync) then buildSyncReaderToml source target opts
  else buildScanReaderToml source target opts.
Definition from_outcome {A} (r : outcome string A) : M Service string A := λ s, (r, s).
(** Step 7 of a RedisShake job: the TOML file, then the run up to its first wait *)
Definition launch_shake (K : gset string) (env : StartEnv) (req : StartRequest) (mode : ExecutionMode)
    (source target : DatabaseConnectionConfig) (sourceIsCluster targetIsCluster : bool)
    : M Service string unit :=
  let exclude := shouldExcludeFunctions (se_engine env (rq_source req)) (se_engine env (rq_target req)) in
  let opts := {| ro_sourceIsCluster := sourceIsCluster; ro_targetIsCluster := targetIsCluster;
                 ro_excludeFunctions := exclude; ro_tryDiskless := rq_tryDiskless req;
                 ro_preferReplica := rq_preferReplica req |} in
  from_outcome (build_toml mode source target opts);;
  from_outcome (se_write env);;
  modify (λ s, update_job (se_id env)
    (λ j, set_handles (ej_process j) (Some (toml_path (se_id env))) (ej_pidPath j) j)
    (set_files ({[ toml_path (se_id env) ]} ∪ sx_files s) s));;
  modify (begin_shake (se_now env) K (se_pid_written env)
            {| ps_excludeFunctions := exclude; ps_sourceDbType := se_engine env (rq_source req);
               ps_targetDbType := se_engine env (rq_target req);
               ps_emptyDbBeforeSync := rq_emptyDbBeforeSync req |} (se_id env)).
Definition launch_command (id : string) (s : Service) : Service :=
  wait id R_command (update_job id (set_status running) s).
Definition enter_job (mode : ExecutionMode) (now : Z) (id : string) (s : Service) : Service :=
  set_jobs (sx_jobs s ++ [id]) (set_objects (<[id := new_execution mode now]> (sx_objects s)) s).
Definition launch (K : gset string) (env : StartEnv) (req : StartRequest) (mode : ExecutionMode)
    (source target : DatabaseConnectionConfig) (sourceIsCluster targetIsCluster : bool)
    : M Service string unit :=
  if decide (mode = command) then modify (launch_command (se_id env))
  else launch_shake K env req mode source target sourceIsCluster targetIsCluster.
Definition startExecution (K : gset string) (env : StartEnv) (req : StartRequest)
    : M Service string string :=
  let mode := default redis_shake (rq_mode req) in
  from_outcome (se_get env (rq_source req));;
  from_outcome (se_get env (rq_target req));;
  match se_config env (rq_source req), se_config env (rq_target req) with
  | Some source, Some target =>
      if str_eqb (rq_source req) (rq_target req)
      then throw "Source and target must be different connections"
      else
        from_outcome (se_cluster env (rq_source req)) ≫= λ sourceIsCluster : bool,
        from_outcome (se_cluster env (rq_target req)) ≫= λ targetIsCluster : bool,
        (if decide (mode = command) then mret tt else from_outcome (se_binary env));;
        evictOldJobs;;
        modify (enter_job mode (se_now env) (se_id env));;
        launch K env req mode source target sourceIsCluster targetIsCluster;;
        mret (se_id env)
  | _, _ => throw "Connection config not found"
  end.

Definition stopExecution (id : string) (s : Service) : bool * Service :=
  if js_includes id (sx_jobs s) then
    match sx_objects s !! id with
    | None => (false, s)
    | Some j =>
        if terminal (ej_status j) then (true, s)
        else
          let s := update_job id (set_status cancelled) s in
          (true, if ej_process j
                 then set_timers (sx_timers s ++ [id]) (emit (E_signal id "SIGTERM") s) else s)
    end
  else (false, s).
(** The timer of three seconds after SIGTERM *)
Definition kill_timer (id : string) (s : Service) : Service :=
  let s := set_timers (js_filter (λ id', negb (str_eqb id' id)) (sx_timers s)) s in
  match sx_objects s !! id with
  | Some j => if ej_process j then emit (E_signal id "SIGKILL") s else s
  | None => s
  end.
Definition getExecution (id : string) (s : Service) : option ExecutionJob :=
  if js_includes id (sx_jobs s) then sx_objects s !! id else None.

(** The worker reports on its job, and ends. *)
Definition command_update (keys : number) (skipped total : Z) (logs : list string)
    (progress : option number) (id : string) : Service → Service :=
  update_job id (λ j, set_measures keys (ej_bytesTransferred j) skipped total logs progress
                        (ej_syncStage j) j).
Definition command_end (now : Z) (r : outcome string unit) (id : string) (s : Service) : Service :=
  let s := match r with
           | Ok _ => if is_cancelled id s then s else update_job id (set_status completed) s
           | Throw message => run_failed message id s
           end in
  update_job id (stamp now) (set_runs (delete id (sx_runs s)) s).

(** ** Specification *)

(** The segments of the methods and the events of processes, in any order; files in [K] cannot
    be deleted. *)
Inductive exec_step (K : gset string) : Service → Service → Prop :=
  | X_start env req s :
      sx_objects s !! se_id env = None → exec_step K s (startExecution K env req s).2
  | X_stop id s : exec_step K s (stopExecution id s).2
  | X_timer id s : id ∈ sx_timers s → exec_step K s (kill_timer id s)
  | X_probe id pre presence now pid s :
      sx_runs s !! id = Some (R_probe pre) → exec_step K s (after_probe now K pid presence pre id s)
  | X_flush id pre r now pid s :
      sx_runs s !! id = Some (R_flush pre) → exec_step K s (after_flush now K pid r id s)
  | X_stdout id out err code chunk s :
      sx_runs s !! id = Some (R_process out err code) → exec_step K s (on_stdout chunk out err code id s)
  | X_stderr id out err code chunk s :
      sx_runs s !! id = Some (R_process out err code) → exec_step K s (on_stderr chunk out err code id s)
  | X_exit id out err code code' s :
      sx_runs s !! id = Some (R_process out err code) →
      exec_step K s (wait id (R_process out err code') s)
  | X_close id out err code now s :
      sx_runs s !! id = Some (R_process out err code) → exec_step K s (on_close now K out err code id s)
  | X_error id out err code now message s :
      sx_runs s !! id = Some (R_process out err code) → exec_step K s (on_error now K message id s)
  | X_update id keys skipped total logs progress s :
      sx_runs s !! id = Some R_command →
      exec_step K s (command_update keys skipped total logs progress id s)
  | X_end id now r s :
      sx_runs s !! id = Some R_command → exec_step K s (command_end now r id s).
Definition exec_reachable (K : gset string) : Service → Prop := rtc (exec_step K) empty_service.

Definition destructive (id : string) (e : Effect) : bool :=
  match e with
  | E_flush id' | E_spawn id' => str_eqb id' id
  | E_signal _ _ => false
  end.
(** The flushes and process starts of a job so far *)
Definition destructions (id : string) (s : Service) : list Effect :=
  js_filter (destructive id) (sx_effects s).

(** ** Lemmas *)

(** *** What a segment does to its job, and that it leaves the others alone *)
Definition run_ok (r : Run) (st : ExecutionJobStatus) : Prop :=
  match r with
  | R_probe _ | R_flush _ => st = pending ∨ st = cancelled
  | R_process _ _ _ | R_command => st = running ∨ st = cancelled
  end.
(** A terminal job keeps its status and its error; a cancelled one does nothing more. *)
Definition settled_job (id : string) (j : ExecutionJob) (s s' : Service) (j' : ExecutionJob) : Prop :=
  (terminal (ej_status j) = true → ej_status j' = ej_status j ∧ ej_error j' = ej_error j)
  ∧ (ej_status j = cancelled → destructions id s' = destructions id s).
(** The job goes on from [j], and its run is one that fits its status. *)
Definition advances (id : string) (j : ExecutionJob) (s s' : Service) : Prop :=
  ∃ j', sx_objects s' !! id = Some j' ∧ settled_job id j s s' j'
    ∧ match sx_runs s' !! id with Some r => run_ok r (ej_status j') | None => True end.
Definition others_same (id : string) (s s' : Service) : Prop :=
  sx_jobs s' = sx_jobs s
  ∧ ∀ id', id' ≠ id → sx_objects s' !! id' = sx_objects s !! id'
      ∧ sx_runs s' !! id' = sx_runs s !! id' ∧ destructions id' s' = destructions id' s.

Lemma others_refl id s : others_same id s s.
Proof. done. Qed.
Lemma others_trans id s1 s2 s3 : others_same id s1 s2 → others_same id s2 s3 → others_same id s1 s3.
Proof.
  intros [Hj1 H1] [Hj2 H2]. split; [congruence|]. intros id' Hne.
  destruct (H1 id' Hne) as (<- & <- & <-). by apply H2.
Qed.
Lemma others_update id f s : others_same id s (update_job id f s).
Proof. split; [done|]. intros id' Hne. cbn. by rewrite lookup_alter_ne. Qed.
Lemma others_wait id r s : others_same id s (wait id r s).
Proof. split; [done|]. intros id' Hne. cbn. by rewrite lookup_insert_ne. Qed.
Lemma others_delete id s : others_same id s (set_runs (delete id (sx_runs s)) s).
Proof. split; [done|]. intros id' Hne. cbn. by rewrite lookup_delete_ne. Qed.
Lemma others_files id f s : others_same id s (set_files f s).
Proof. done. Qed.
Lemma others_timers id l s : others_same id s (set_timers l s).
Proof. done. Qed.
Lemma destructions_emit id e s :
  destructions id (emit e s) = destructions id s ++ (if destructive id e then [e] else []).
Proof. unfold destructions. cbn. rewrite js_filter_app. cbn. by destruct (destructive id e). Qed.
Lemma others_emit id e s :
  (∀ id', id' ≠ id → destructive id' e = false) → others_same id s (emit e s).
Proof.
  intros He. split; [done|]. intros id' Hne. split; [done|]. split; [done|].
  by rewrite destructions_emit, He, app_nil_r.
Qed.
Lemma destructive_other id id' : id' ≠ id → str_eqb id id' = false.
Proof. intros Hne. by apply bool_decide_eq_false. Qed.
(** Follows the text of a segment *)
Ltac others :=
  repeat match goal with
  | |- others_same ?id ?s ?s => apply others_refl
  | |- others_same ?id ?s (update_job ?id ?f ?s') =>
      apply (others_trans id s s' _); [|apply others_update]
  | |- others_same ?id ?s (wait ?id ?r ?s') => apply (others_trans id s s' _); [|apply others_wait]
  | |- others_same ?id ?s (set_runs (delete ?id _) ?s') =>
      apply (others_trans id s s' _); [|apply others_delete]
  | |- others_same ?id ?s (set_files ?f ?s') => apply (others_trans id s s' _); [|apply others_files]
  | |- others_same ?id ?s (set_timers ?f ?s') => apply (others_trans id s s' _); [|apply others_timers]
  | |- others_same ?id ?s (emit ?e ?s') =>
      apply (others_trans id s s' _); [|apply others_emit; intros; first [done|by apply destructive_other]]
  | |- others_same _ _ (if ?b then _ else _) => destruct b
  | |- others_same _ _ (match ?x with _ => _ end) => destruct x
  end.

Lemma others_finalize now K id s : others_same id s (finalize now K id s).
Proof. unfold finalize. others. Qed.
Lemma others_failed message id s : others_same id s (run_failed message id s).
Proof. unfold run_failed. others. Qed.
Lemma others_spawn pid id s : others_same id s (spawn_process pid id s).
Proof. unfold spawn_process. destruct pid; others. Qed.
Lemma others_flush_or_spawn pid pre id s : others_same id s (flush_or_spawn pid pre id s).
Proof. unfold flush_or_spawn. destruct (_ && _); [others|apply others_spawn]. Qed.
Lemma others_begin now K pid pre id s : others_same id s (begin_shake now K pid pre id s).
Proof.
  unfold begin_shake. destruct (is_cancelled id s); [apply others_finalize|].
  destruct (ps_excludeFunctions pre); [others|apply others_flush_or_spawn].
Qed.

(** A job that is not cancelled may do anything. *)
Lemma settled_open id j s s' j' :
  terminal (ej_status j) = false → settled_job id j s s' j'.
Proof. intros Ht. split; [congruence|]. intros Hc. by rewrite Hc in Ht. Qed.
Lemma is_cancelled_iff id s j :
  sx_objects s !! id = Some j → is_cancelled id s = bool_decide (ej_status j = cancelled).
Proof.
  intros Hj. unfold is_cancelled, status_of. rewrite Hj. apply bool_decide_ext. cbn.
  by split; [intros [= ->]|intros ->].
Qed.
Lemma finalize_advances now K id j s :
  sx_objects s !! id = Some j → ∃ j', sx_objects (finalize now K id s) !! id = Some j'
    ∧ ej_status j' = ej_status j ∧ ej_error j' = ej_error j
    ∧ sx_runs (finalize now K id s) !! id = None
    ∧ destructions id (finalize now K id s) = destructions id s.
Proof.
  intros Hj. unfold finalize. cbn. rewrite lookup_alter_eq, Hj, lookup_delete_eq. cbn.
  by eexists.
Qed.
Lemma spawn_advances pid id j s :
  sx_objects s !! id = Some j →
  ∃ j', sx_objects (spawn_process pid id s) !! id = Some j' ∧ ej_status j' = running
    ∧ sx_runs (spawn_process pid id s) !! id = Some (R_process EmptyString EmptyString 1).
Proof.
  intros Hj. unfold spawn_process. destruct pid; cbn; rewrite lookup_insert_eq, ?lookup_alter_eq, Hj;
    by eexists.
Qed.
Lemma flush_or_spawn_advances pid pre id j s :
  sx_objects s !! id = Some j → ej_status j = pending → advances id j s (flush_or_spawn pid pre id s).
Proof.
  intros Hj Hp. unfold flush_or_spawn, advances.
  destruct (_ && _).
  - exists j. cbn. rewrite lookup_insert_eq. split; [done|]. split; [|by left].
    apply settled_open. by rewrite Hp.
  - destruct (spawn_advances pid id j s Hj) as (j' & Hj' & Hr & Hrun). exists j'. rewrite Hrun.
    split; [done|]. split; [|by left]. apply settled_open. by rewrite Hp.
Qed.
(** Ending a run *)
Lemma end_advances now K id j j1 s s1 :
  sx_objects s1 !! id = Some j1 → settled_job id j s s1 j1 →
  advances id j s (finalize now K id s1).
Proof.
  intros Hj1 [Ht Hc]. destruct (finalize_advances now K id j1 s1 Hj1) as (j' & Hj' & Hst & Her & Hrun & Hd).
  exists j'. rewrite Hrun. split; [done|]. split; [|done]. split.
  - intros Hterm. destruct (Ht Hterm). by rewrite Hst, Her.
  - intros Hcanc. rewrite Hd. by apply Hc.
Qed.
Lemma failed_settled message id j s :
  sx_objects s !! id = Some j → terminal (ej_status j) = false ∨ ej_status j = cancelled →
  ∃ j', sx_objects (run_failed message id s) !! id = Some j'
    ∧ settled_job id j s (run_failed message id s) j'.
Proof.
  intros Hj Hcase. unfold run_failed. rewrite (is_cancelled_iff id s j Hj).
  destruct (bool_decide_reflect (ej_status j = cancelled)) as [Hc|Hc].
  - by exists j.
  - destruct Hcase as [Ht|?]; [|done]. cbn. rewrite lookup_alter_eq, Hj. eexists. split; [done|].
    by apply settled_open.
Qed.

(** *** Every step *)
Definition runs_fit (s : Service) : Prop :=
  ∀ id r, sx_runs s !! id = Some r → ∃ j, sx_objects s !! id = Some j ∧ run_ok r (ej_status j).
Definition evolves (s s' : Service) : Prop :=
  runs_fit s' ∧ ∀ id j, sx_objects s !! id = Some j →
    ∃ j', sx_objects s' !! id = Some j' ∧ settled_job id j s s' j'.

Lemma settled_refl id j s : settled_job id j s s j.
Proof. done. Qed.
Lemma settled_trans id j1 j2 j3 s1 s2 s3 :
  settled_job id j1 s1 s2 j2 → settled_job id j2 s2 s3 j3 → settled_job id j1 s1 s3 j3.
Proof.
  intros [T1 C1] [T2 C2]. split.
  - intros Ht. destruct (T1 Ht) as [Hs He]. rewrite <-Hs in Ht. destruct (T2 Ht). split; congruence.
  - intros Hc. rewrite <-(C1 Hc). apply C2. destruct (T1 ltac:(by rewrite Hc)). congruence.
Qed.
Lemma evolves_refl s : runs_fit s → evolves s s.
Proof. intros Hs. split; [done|]. intros id j Hj. by exists j. Qed.
Lemma evolves_trans s1 s2 s3 : evolves s1 s2 → evolves s2 s3 → evolves s1 s3.
Proof.
  intros [_ H12] [Hi H23]. split; [done|]. intros id j Hj. destruct (H12 id j Hj) as (j2 & Hj2 & Hs2).
  destruct (H23 id j2 Hj2) as (j3 & Hj3 & Hs3). exists j3. split; [done|]. by eapply settled_trans.
Qed.
Lemma evolves_advances id j s s' :
  runs_fit s → sx_objects s !! id = Some j → others_same id s s' → advances id j s s' → evolves s s'.
Proof.
  intros Hfit Hj [_ Ho] (j' & Hj' & Hset & Hrun). split.
  - intros id' r Hr. destruct (decide (id' = id)) as [->|Hne].
    + rewrite Hr in Hrun. by exists j'.
    + destruct (Ho id' Hne) as (-> & Hr' & _). rewrite Hr' in Hr. by apply Hfit.
  - intros id' j0 Hj0. destruct (decide (id' = id)) as [->|Hne].
    + rewrite Hj in Hj0. injection Hj0 as <-. by exists j'.
    + destruct (Ho id' Hne) as (Ho' & _ & Hd). exists j0. rewrite Ho'. by split.
Qed.
(** States that differ in the list of jobs, the timers and the files only *)
Lemma evolves_same s s' :
  runs_fit s → sx_objects s' = sx_objects s → sx_runs s' = sx_runs s →
  (∀ id, destructions id s' = destructions id s) → evolves s s'.
Proof.
  intros Hfit Ho Hr Hd. split.
  - intros id r. rewrite Hr, Ho. apply Hfit.
  - intros id j Hj. exists j. rewrite Ho. by split.
Qed.

Lemma exit_status_settled code j :
  ej_status j = running ∨ ej_status j = cancelled →
  (terminal (ej_status j) = true → ej_status (exit_status code j) = ej_status j
                                   ∧ ej_error (exit_status code j) = ej_error j).
Proof.
  intros Hst Ht. unfold exit_status. destruct (decide (ej_status j = cancelled)); [done|].
  destruct Hst as [Hr|?]; [|done]. by rewrite Hr in Ht.
Qed.
Lemma processLines_status lines : ∀ j,
  ej_status (processLines lines j) = ej_status j ∧ ej_error (processLines lines j) = ej_error j.
Proof.
  induction lines as [|l lines IH]; intros j; [done|].
  change (processLines (l :: lines) j) with (processLines lines (processLine l j)).
  destruct (IH (processLine l j)) as [-> ->].
  unfold processLine. by destruct (is_empty _).
Qed.

(** The segments, one by one *)
Section segments.
Context (K : gset string) (id : string) (j : ExecutionJob) (s : Service).
Hypothesis Hj : sx_objects s !! id = Some j.

Lemma status_update f : sx_objects (update_job id f s) !! id = Some (f j).
Proof using Hj. cbn. by rewrite lookup_alter_eq, Hj. Qed.
Lemma probe_advances now pid presence pre :
  ej_status j = pending ∨ ej_status j = cancelled →
  advances id j s (after_probe now K pid presence pre id s).
Proof using Hj.
  intros Hst. unfold after_probe.
  set (s1 := match presence with Ok _ => _ | Throw _ => s end).
  assert (Hs1 : ∃ j1, sx_objects s1 !! id = Some j1 ∧ ej_status j1 = ej_status j
                      ∧ ej_error j1 = ej_error j ∧ destructions id s1 = destructions id s).
  { subst s1. destruct presence as [p|]; [|by exists j]. destruct (decide _); [by exists j|].
    exists (add_notice (function_notice pre) j). split; [apply status_update|done]. }
  destruct Hs1 as (j1 & Hj1 & Hs1 & He1 & Hd1). clearbody s1.
  rewrite (is_cancelled_iff id s1 j1 Hj1), Hs1.
  destruct (bool_decide_reflect (ej_status j = cancelled)) as [Hc|Hc].
  - by apply (end_advances now K id j j1).
  - destruct Hst as [Hp|?]; [|done].
    destruct (flush_or_spawn_advances pid pre id j1 s1 Hj1 ltac:(congruence)) as (j' & Hj' & Hset & Hrun).
    exists j'. split; [done|]. split; [|done]. apply settled_open. by rewrite Hp.
Qed.
Lemma flush_advances now pid r :
  ej_status j = pending ∨ ej_status j = cancelled →
  advances id j s (after_flush now K pid r id s).
Proof using Hj.
  intros Hst. unfold after_flush. destruct r as [?|message].
  - rewrite (is_cancelled_iff id s j Hj).
    destruct (bool_decide_reflect (ej_status j = cancelled)) as [Hc|Hc].
    + by apply (end_advances now K id j j).
    + destruct Hst as [Hp|?]; [|done]. destruct (spawn_advances pid id j s Hj) as (j' & Hj' & Hr & Hrun).
      exists j'. rewrite Hrun. split; [done|]. split; [|by left]. apply settled_open. by rewrite Hp.
  - destruct (failed_settled ("Target pre-flush failed: " +:+ message) id j s Hj) as (j1 & Hj1 & Hs1).
    + destruct Hst as [->|?]; [by left|by right].
    + by eapply end_advances.
Qed.
Lemma output_advances lines out err code :
  ej_status j = running ∨ ej_status j = cancelled →
  advances id j s (wait id (R_process out err code) (update_job id (processLines lines) s)).
Proof using Hj.
  intros Hst. exists (processLines lines j). destruct (processLines_status lines j) as [Hs He].
  cbn. rewrite lookup_alter_eq, Hj, lookup_insert_eq. split; [done|]. split; [by split|].
  cbn. by rewrite Hs.
Qed.
Lemma close_advances now out err code :
  ej_status j = running ∨ ej_status j = cancelled →
  advances id j s (on_close now K out err code id s).
Proof using Hj.
  intros Hst. unfold on_close. set (lines := on_flush out ++ on_flush err).
  destruct (processLines_status lines j) as [Hs He].
  eapply end_advances; [apply status_update|]. split; [|done].
  intros Ht. destruct (exit_status_settled code (processLines lines j)) as [-> ->].
  - by rewrite Hs.
  - by rewrite Hs.
  - done.
Qed.
Lemma error_advances now message :
  ej_status j = running ∨ ej_status j = cancelled →
  advances id j s (on_error now K message id s).
Proof using Hj.
  intros Hst. destruct (failed_settled message id j s Hj) as (j1 & Hj1 & Hs1).
  - destruct Hst as [->|?]; [by left|by right].
  - by eapply end_advances.
Qed.
Lemma command_end_advances now r :
  ej_status j = running ∨ ej_status j = cancelled →
  advances id j s (command_end now r id s).
Proof using Hj.
  intros Hst. unfold command_end.
  set (s1 := match r with Ok _ => _ | Throw _ => _ end).
  assert (Hs1 : ∃ j1, sx_objects s1 !! id = Some j1 ∧ settled_job id j s s1 j1).
  { subst s1. destruct r as [?|message].
    - rewrite (is_cancelled_iff id s j Hj).
      destruct (bool_decide_reflect (ej_status j = cancelled)) as [Hc|Hc]; [by exists j|].
      exists (set_status completed j). split; [apply status_update|]. apply settled_open.
      by destruct Hst as [->|?].
    - apply failed_settled; [done|]. destruct Hst as [->|?]; [by left|by right]. }
  destruct Hs1 as (j1 & Hj1 & Hset). clearbody s1. exists (stamp now j1). cbn.
  rewrite lookup_alter_eq, Hj1, lookup_delete_eq. split; [done|]. split; [exact Hset|done].
Qed.
Lemma begin_advances now pid pre :
  ej_status j = pending → advances id j s (begin_shake now K pid pre id s).
Proof using Hj.
  intros Hp. unfold begin_shake. rewrite (is_cancelled_iff id s j Hj), bool_decide_eq_false_2 by congruence.
  destruct (ps_excludeFunctions pre); [|by apply flush_or_spawn_advances].
  exists j. cbn. rewrite lookup_insert_eq. split; [done|]. split; [done|by left].
Qed.
End segments.

Lemma evolves_object_update id f s :
  runs_fit s → (∀ j, ej_status (f j) = ej_status j ∧ ej_error (f j) = ej_error j) →
  evolves s (update_job id f s).
Proof.
  intros Hfit Hf. split.
  - intros id' r Hr. destruct (Hfit id' r Hr) as (j & Hj & Hok). cbn.
    destruct (decide (id' = id)) as [->|Hne].
    + rewrite lookup_alter_eq, Hj. eexists. split; [done|]. by destruct (Hf j) as [-> _].
    + rewrite lookup_alter_ne by done. by exists j.
  - intros id' j Hj. cbn. destruct (decide (id' = id)) as [->|Hne].
    + rewrite lookup_alter_eq, Hj. eexists. split; [done|]. by destruct (Hf j) as [Hs He].
    + rewrite lookup_alter_ne by done. by exists j.
Qed.
Lemma evict_sub ids jobs : evict ids jobs ⊆ jobs.
Proof.
  revert jobs. induction ids as [|id ids IH]; intros jobs; cbn [evict]; [done|].
  destruct (_ <? _)%nat; [done|]. intros x Hx. apply IH, js_filter_elem in Hx. by destruct Hx.
Qed.

Lemma wp_from_outcome {A} (r : outcome string A) (Q : A → Service → Prop) R s :
  (∀ a, r = Ok a → Q a s) → (∀ e, R e s) → wp (from_outcome r) Q R s.
Proof. unfold wp, from_outcome. intros HQ HR. destruct r; auto. Qed.
Lemma evict_ok s :
  runs_fit s →
  wp evictOldJobs (λ _ s', evolves s s' ∧ sx_objects s' = sx_objects s ∧ sx_runs s' = sx_runs s)
    (λ _ s', evolves s s') s.
Proof.
  intros Hfit. unfold wp, evictOldJobs. destruct (_ <? _)%nat; [by split; [apply evolves_refl|]|].
  cbn zeta. destruct (_ <=? _)%nat; [by apply evolves_same|]. split; [by apply evolves_same|done].
Qed.
(** A job that has just been entered *)
Definition entered (id : string) (s s' : Service) : Prop :=
  evolves s s' ∧ ∃ j, sx_objects s' !! id = Some j ∧ ej_status j = pending.
Lemma entered_evolves id s1 s2 s3 : evolves s1 s2 → entered id s2 s3 → entered id s1 s3.
Proof. intros H12 [H23 Hj]. split; [by eapply evolves_trans|done]. Qed.
Lemma enter_ok id mode now s :
  runs_fit s → sx_objects s !! id = None →
  entered id s (enter_job mode now id s).
Proof.
  intros Hfit Hnone. split; [split|].
  - intros id' r Hr. destruct (Hfit id' r Hr) as (j & Hj & Hok). cbn.
    rewrite lookup_insert_ne by congruence. by exists j.
  - intros id' j Hj. exists j. cbn. rewrite lookup_insert_ne by congruence. by split.
  - exists (new_execution mode now). cbn. by rewrite lookup_insert_eq.
Qed.
Lemma launch_shake_ok K env req mode source target c1 c2 s0 s :
  entered (se_id env) s0 s →
  wp (launch_shake K env req mode source target c1 c2) (λ _, evolves s0) (λ _, evolves s0) s.
Proof.
  intros [Hev (j & Hj & Hp)]. unfold launch_shake.
  apply wp_bind, wp_from_outcome; [intros text _|done].
  apply wp_bind, wp_from_outcome; [intros _ _|done]. apply wp_bind.
  set (f := λ j : ExecutionJob, set_handles (ej_process j) (Some (toml_path (se_id env))) (ej_pidPath j) j).
  set (s1 := update_job (se_id env) f (set_files ({[toml_path (se_id env)]} ∪ sx_files s) s)).
  eapply (wp_mono _ (λ _ s', s' = s1) _ (λ _ _, False)); [exact eq_refl| |done]. intros [] s' ->.
  assert (Hev1 : evolves s s1).
  { apply evolves_trans with (set_files ({[toml_path (se_id env)]} ∪ sx_files s) s).
    - by apply evolves_same; [apply Hev|..].
    - apply evolves_object_update; [exact (proj1 Hev)|done]. }
  assert (Hj1 : sx_objects s1 !! se_id env = Some (f j)) by (cbn; by rewrite lookup_alter_eq, Hj).
  unfold wp, modify. apply (evolves_trans _ s1); [by eapply evolves_trans|].
  apply (evolves_advances (se_id env) (f j)); [apply Hev1|done|apply others_begin|].
  by apply begin_advances.
Qed.
(** A start refuses before it changes anything, or evicts, enters its job and launches it. *)
Lemma start_wp (E I : Service → Prop) K env req s :
  I s → wp evictOldJobs (λ _, E) (λ _, I) s →
  (∀ s1 mode source target c1 c2, E s1 →
     wp (launch K env req mode source target c1 c2) (λ _, I) (λ _, I)
       (enter_job mode (se_now env) (se_id env) s1)) →
  wp (startExecution K env req) (λ _, I) (λ _, I) s.
Proof.
  intros HI Hev Hl. unfold startExecution.
  apply wp_bind, wp_from_outcome; [intros _ _|done]. apply wp_bind, wp_from_outcome; [intros _ _|done].
  destruct (se_config env (rq_source req)) as [source|]; [|done].
  destruct (se_config env (rq_target req)) as [target|]; [|done].
  destruct (str_eqb _ _); [done|].
  apply wp_bind, wp_from_outcome; [intros c1 _|done]. apply wp_bind, wp_from_outcome; [intros c2 _|done].
  apply wp_bind. eapply (wp_mono _ (λ _ s', s' = s) _ (λ _ s', s' = s));
    [|intros [] s' ->|by intros err s' ->].
  { destruct (decide _); [done|]. by apply wp_from_outcome. }
  apply wp_bind. eapply wp_mono; [exact Hev| |done]. intros [] s1 HE.
  do 2 apply wp_bind. eapply wp_mono; [by apply Hl| |done]. done.
Qed.
Lemma start_evolves K env req s :
  runs_fit s → sx_objects s !! se_id env = None →
  wp (startExecution K env req) (λ _, evolves s) (λ _, evolves s) s.
Proof.
  intros Hfit Hnone.
  apply (start_wp (λ s1, evolves s s1 ∧ sx_objects s1 = sx_objects s)); [by apply evolves_refl| |].
  { eapply wp_mono; [by apply evict_ok| |done]. by intros [] s1 (? & ? & _). }
  intros s1 mode source target c1 c2 [Hev1 Ho1].
  assert (Hent : entered (se_id env) s (enter_job mode (se_now env) (se_id env) s1)).
  { eapply entered_evolves; [exact Hev1|]. apply enter_ok; [apply Hev1|congruence]. }
  unfold launch. destruct (decide _); [|by apply launch_shake_ok].
  destruct Hent as [Hev (j & Hj & Hp)]. unfold wp, modify. eapply evolves_trans; [exact Hev|].
  apply (evolves_advances (se_id env) j); [apply Hev|done|unfold launch_command; others|].
  exists (set_status running j). cbn. cbn in Hj. rewrite lookup_insert_eq in Hj. injection Hj as <-.
  rewrite lookup_alter_eq, !lookup_insert_eq.
  split; [done|]. split; [by apply settled_open|by left].
Qed.
Lemma stop_ok id s : runs_fit s → evolves s (stopExecution id s).2.
Proof.
  intros Hfit. unfold stopExecution. destruct (js_includes _ _); [|by apply evolves_refl].
  destruct (sx_objects s !! id) as [j|] eqn:Hj; [|by apply evolves_refl].
  destruct (terminal (ej_status j)) eqn:Ht; [by apply evolves_refl|]. cbn [snd].
  assert (Hadv : ∀ s', sx_objects s' = sx_objects (update_job id (set_status cancelled) s) →
            sx_runs s' = sx_runs s → advances id j s s').
  { intros s' Ho Hr. exists (set_status cancelled j). rewrite Ho, Hr. cbn. rewrite lookup_alter_eq, Hj.
    split; [done|]. split; [by apply settled_open|].
    destruct (sx_runs s !! id) as [r|] eqn:Hrun; [|done]. destruct r; by right. }
  apply (evolves_advances id j); [done|done| |].
  - destruct (ej_process j); others.
  - destruct (ej_process j); by apply Hadv.
Qed.
Lemma kill_ok id s : runs_fit s → evolves s (kill_timer id s).
Proof.
  intros Hfit. unfold kill_timer. cbn [sx_objects set_timers].
  destruct (sx_objects s !! id) as [j|]; [|by apply evolves_same].
  destruct (ej_process j); [|by apply evolves_same]. apply evolves_same; [done..|].
  intros id'. by rewrite destructions_emit, app_nil_r.
Qed.

Lemma step_evolves K s s' : runs_fit s → exec_step K s s' → evolves s s'.
Proof.
  intros Hfit Hstep. destruct Hstep as
    [env req s Hnew|id s|id s Hin|id pre presence now pid s Hr|id pre r now pid s Hr
    |id out err code chunk s Hr|id out err code chunk s Hr|id out err code code' s Hr
    |id out err code now s Hr|id out err code now message s Hr
    |id keys skipped total logs progress s Hr|id now r s Hr].
  - pose proof (start_evolves K env req s Hfit Hnew) as Hwp. unfold wp in Hwp.
    by destruct (startExecution K env req s) as [[?|?] ?].
  - by apply stop_ok.
  - by apply kill_ok.
  - destruct (Hfit id _ Hr) as (j & Hj & Hok).
    apply (evolves_advances id j); [done|done| |by apply probe_advances].
    unfold after_probe. destruct presence as [p|].
    + destruct (decide (p = absent)).
      * destruct (is_cancelled id s); [apply others_finalize|apply others_flush_or_spawn].
      * eapply others_trans; [apply others_update|].
        destruct (is_cancelled id _); [apply others_finalize|apply others_flush_or_spawn].
    + destruct (is_cancelled id s); [apply others_finalize|apply others_flush_or_spawn].
  - destruct (Hfit id _ Hr) as (j & Hj & Hok).
    apply (evolves_advances id j); [done|done| |by apply flush_advances].
    unfold after_flush. destruct r.
    + destruct (is_cancelled id s); [apply others_finalize|apply others_spawn].
    + eapply others_trans; [apply others_failed|apply others_finalize].
  - destruct (Hfit id _ Hr) as (j & Hj & Hok). unfold on_stdout. destruct (on_data out chunk).
    apply (evolves_advances id j); [done|done|others|by apply output_advances].
  - destruct (Hfit id _ Hr) as (j & Hj & Hok). unfold on_stderr. destruct (on_data err chunk).
    apply (evolves_advances id j); [done|done|others|by apply output_advances].
  - destruct (Hfit id _ Hr) as (j & Hj & Hok).
    apply (evolves_advances id j); [done|done|others|]. exists j. cbn. rewrite lookup_insert_eq.
    by split.
  - destruct (Hfit id _ Hr) as (j & Hj & Hok).
    apply (evolves_advances id j); [done|done| |by apply close_advances].
    eapply others_trans; [apply others_update|apply others_finalize].
  - destruct (Hfit id _ Hr) as (j & Hj & Hok).
    apply (evolves_advances id j); [done|done| |by apply error_advances].
    eapply others_trans; [apply others_failed|apply others_finalize].
  - by apply evolves_object_update.
  - destruct (Hfit id _ Hr) as (j & Hj & Hok).
    apply (evolves_advances id j); [done|done| |by apply command_end_advances].
    unfold command_end. destruct r; [destruct (is_cancelled id s)|]; others; apply others_failed.
Qed.
Lemma steps_evolve K s s' : runs_fit s → rtc (exec_step K) s s' → evolves s s'.
Proof.
  intros Hfit Hsteps. induction Hsteps as [s|s1 s2 s3 Hstep _ IH]; [by apply evolves_refl|].
  pose proof (step_evolves K s1 s2 Hfit Hstep) as H12.
  eapply evolves_trans; [exact H12|]. apply IH, H12.
Qed.
Lemma empty_fits : runs_fit empty_service.
Proof. intros id r Hr. cbn in Hr. by rewrite lookup_empty in Hr. Qed.

(** *** Slots *)
Definition slots_ok (s : Service) : Prop := (length (sx_jobs s) ≤ MAX_JOBS)%nat.
Lemma others_slots id s s' : others_same id s s' → slots_ok s → slots_ok s'.
Proof. intros [Hj _]. unfold slots_ok. by rewrite Hj. Qed.
Lemma evict_length ids jobs : (length (evict ids jobs) ≤ length jobs)%nat.
Proof.
  revert jobs. induction ids as [|id ids IH]; intros jobs; cbn [evict]; [done|].
  destruct (_ <? _)%nat; [done|]. etrans; [apply IH|apply js_filter_length].
Qed.
Lemma launch_slots K env req mode source target c1 c2 s :
  wp (launch_shake K env req mode source target c1 c2)
    (λ _ s', sx_jobs s' = sx_jobs s) (λ _ s', sx_jobs s' = sx_jobs s) s.
Proof.
  unfold launch_shake. apply wp_bind, wp_from_outcome; [intros text _|done].
  apply wp_bind, wp_from_outcome; [intros _ _|done]. unfold wp, mbind, M_bind, modify.
  destruct (others_begin (se_now env) K (se_pid_written env)
    {| ps_excludeFunctions := shouldExcludeFunctions (se_engine env (rq_source req)) (se_engine env (rq_target req));
       ps_sourceDbType := se_engine env (rq_source req); ps_targetDbType := se_engine env (rq_target req);
       ps_emptyDbBeforeSync := rq_emptyDbBeforeSync req |} (se_id env)
    (update_job (se_id env)
      (λ j, set_handles (ej_process j) (Some (toml_path (se_id env))) (ej_pidPath j) j)
      (set_files ({[ toml_path (se_id env) ]} ∪ sx_files s) s))) as [Hj _]. exact Hj.
Qed.
Lemma start_jobs K env req s :
  let Q (s' : Service) :=
    sx_jobs s' = sx_jobs s ∨ sx_jobs s' = sx_jobs (evictOldJobs s).2
    ∨ (evictOldJobs s).1 = Ok tt ∧ sx_jobs s' = sx_jobs (evictOldJobs s).2 ++ [se_id env] in
  wp (startExecution K env req) (λ _, Q) (λ _, Q) s.
Proof.
  intros Q. apply (start_wp (λ s1, evictOldJobs s = (Ok tt, s1))); [by left| |].
  { unfold wp. destruct (evictOldJobs s) as [[[]|e] s1]; [done|by right; left]. }
  intros s1 mode source target c1 c2 Hev. set (s2 := enter_job _ _ _ s1).
  assert (Hs2 : ∀ s', sx_jobs s' = sx_jobs s2 → Q s').
  { intros s' Hj. right; right. by rewrite Hev, Hj. }
  unfold launch. destruct (decide _); [by apply Hs2|].
  eapply wp_mono; [by apply launch_slots| |]; intros ? s' Hj; by apply Hs2.
Qed.
(** The list after a start, whatever its result *)
Lemma start_list K env req s :
  let s' := (startExecution K env req s).2 in
  sx_jobs s' = sx_jobs s ∨ sx_jobs s' = sx_jobs (evictOldJobs s).2
  ∨ (evictOldJobs s).1 = Ok tt ∧ sx_jobs s' = sx_jobs (evictOldJobs s).2 ++ [se_id env].
Proof.
  pose proof (start_jobs K env req s) as Hwp. unfold wp in Hwp.
  by destruct (startExecution K env req s) as [[?|?] ?].
Qed.
Lemma evictOldJobs_length s :
  slots_ok s → slots_ok (evictOldJobs s).2
  ∧ ((evictOldJobs s).1 = Ok tt → (length (sx_jobs (evictOldJobs s).2) < MAX_JOBS)%nat).
Proof.
  intros Hs. unfold evictOldJobs.
  destruct (Nat.ltb_spec (length (sx_jobs s)) MAX_JOBS) as [Hlt|]; [done|]. cbn zeta.
  set (l := evict _ _). assert (Hl : (length l ≤ MAX_JOBS)%nat) by (etrans; [apply evict_length|exact Hs]).
  clearbody l. destruct (Nat.leb_spec MAX_JOBS (length (sx_jobs (set_jobs l s)))) as [Hle|Hlt]; by split.
Qed.
Lemma evict_keeps ids jobs id : id ∈ jobs → id ∉ ids → id ∈ evict ids jobs.
Proof.
  revert jobs. induction ids as [|i ids IH]; intros jobs Hin Hout; cbn [evict]; [done|].
  destruct (_ <? _)%nat; [done|]. apply not_elem_of_cons in Hout as [Hne Hout].
  apply IH; [|done]. apply js_filter_elem. split; [|done]. unfold str_eqb.
  by rewrite bool_decide_eq_false_2 by done.
Qed.
Lemma evictOldJobs_keeps s id :
  id ∈ sx_jobs s → job_terminal s id = false → id ∈ sx_jobs (evictOldJobs s).2.
Proof.
  intros Hin Ht. unfold evictOldJobs. destruct (_ <? _)%nat; [done|]. cbn zeta.
  assert (Hk : id ∈ evict (js_sort (by_asc (started_at s)) (js_filter (job_terminal s) (sx_jobs s)))
                 (sx_jobs s)).
  { apply evict_keeps; [done|]. rewrite js_sort_elem, js_filter_elem, Ht. by intros []. }
  by destruct (_ <=? _)%nat.
Qed.
Lemma start_keeps K env req s id :
  id ∈ sx_jobs s → job_terminal s id = false → id ∈ sx_jobs (startExecution K env req s).2.
Proof.
  intros Hin Ht. pose proof (evictOldJobs_keeps s id Hin Ht) as Hk.
  destruct (start_list K env req s) as [-> | [-> | [_ ->]]]; [done|done|].
  apply elem_of_app. by left.
Qed.
Lemma start_slots K env req s : slots_ok s → slots_ok (startExecution K env req s).2.
Proof.
  intros Hs. destruct (evictOldJobs_length s Hs) as [H1 H2]. unfold slots_ok in *.
  destruct (start_list K env req s) as [-> | [-> | [Hok ->]]]; [done|done|].
  specialize (H2 Hok). rewrite length_app. cbn. lia.
Qed.
Lemma step_others K s s' :
  exec_step K s s' →
  (∃ env req, sx_objects s !! se_id env = None ∧ s' = (startExecution K env req s).2)
  ∨ ∃ id, others_same id s s'.
Proof.
  destruct 1 as
    [env req s Hnew|id s|id s Hin|id pre presence now pid s Hr|id pre r now pid s Hr
    |id out err code chunk s Hr|id out err code chunk s Hr|id out err code code' s Hr
    |id out err code now s Hr|id out err code now message s Hr
    |id keys skipped total logs progress s Hr|id now r s Hr]; [left; by exists env, req|right; exists id..].
  - unfold stopExecution. destruct (js_includes _ _); [|done].
    destruct (sx_objects s !! id) as [j|]; [|done]. destruct (terminal _); [done|]. cbn [snd].
    destruct (ej_process j); others.
  - unfold kill_timer. cbn zeta. others.
  - unfold after_probe. destruct presence as [p|]; [destruct (decide (p = absent))|].
    + destruct (is_cancelled id s); [apply others_finalize|apply others_flush_or_spawn].
    + eapply others_trans; [apply others_update|].
      destruct (is_cancelled id _); [apply others_finalize|apply others_flush_or_spawn].
    + destruct (is_cancelled id s); [apply others_finalize|apply others_flush_or_spawn].
  - unfold after_flush. destruct r.
    + destruct (is_cancelled id s); [apply others_finalize|apply others_spawn].
    + eapply others_trans; [apply others_failed|apply others_finalize].
  - unfold on_stdout. destruct (on_data out chunk). others.
  - unfold on_stderr. destruct (on_data err chunk). others.
  - others.
  - eapply others_trans; [apply others_update|apply others_finalize].
  - eapply others_trans; [apply others_failed|apply others_finalize].
  - unfold command_update. others.
  - unfold command_end. destruct r; [destruct (is_cancelled id s)|]; others; apply others_failed.
Qed.
Lemma step_slots K s s' : slots_ok s → exec_step K s s' → slots_ok s'.
Proof.
  intros Hs Hstep. destruct (step_others K s s' Hstep) as [(env & req & _ & ->)|(id & Ho)];
    [|by eapply others_slots].
  by apply start_slots.
Qed.
Lemma reachable_slots K s : exec_reachable K s → slots_ok s.
Proof.
  intros Hreach. assert (H0 : slots_ok empty_service) by (unfold slots_ok; cbn; lia).
  induction Hreach as [s|s1 s2 s3 Hstep _ IH]; [done|]. by eapply IH, step_slots.
Qed.

(** *** Stopping *)
Lemma stop_cancels id s j :
  id ∈ sx_jobs s → sx_objects s !! id = Some j → terminal (ej_status j) = false →
  (stopExecution id s).1 = true
  ∧ sx_objects (stopExecution id s).2 !! id = Some (set_status cancelled j)
  ∧ destructions id (stopExecution id s).2 = destructions id s.
Proof.
  intros Hin Hj Ht. unfold stopExecution. rewrite (proj2 (js_includes_true id _) Hin), Hj, Ht.
  cbn [fst snd]. split; [done|].
  destruct (ej_process j); cbn; rewrite lookup_alter_eq, Hj; split; [done| |done|done].
  change (destructions id (emit (E_signal id "SIGTERM") s) = destructions id s).
  by rewrite destructions_emit, app_nil_r.
Qed.

(** *** Files *)
(** Every file is one that cannot be deleted, or a path of a job whose RedisShake run goes on;
    a PID file has the name of its job. *)
Definition covered (s : Service) (f : string) : Prop :=
  ∃ id j r, sx_runs s !! id = Some r ∧ r ≠ R_command ∧ sx_objects s !! id = Some j ∧ f ∈ paths_of j.
Definition files_ok (K : gset string) (s : Service) : Prop :=
  (∀ f, f ∈ sx_files s → f ∈ K ∨ covered s f)
  ∧ ∀ id j p, sx_objects s !! id = Some j → ej_pidPath j = Some p → p = pid_path id.
(** Nothing covered before is uncovered, and only covered files are new. *)
Definition keeps_files (s s' : Service) : Prop :=
  (∀ f, f ∈ sx_files s' → f ∈ sx_files s ∨ covered s' f)
  ∧ (∀ f, covered s f → covered s' f)
  ∧ ∀ id j' p, sx_objects s' !! id = Some j' → ej_pidPath j' = Some p →
      p = pid_path id ∨ ∃ j, sx_objects s !! id = Some j ∧ ej_pidPath j = Some p.
Lemma keeps_files_ok K s s' : keeps_files s s' → files_ok K s → files_ok K s'.
Proof.
  intros (Hf & Hc & Hp) [Hok Hpid]. split.
  - intros f Hin. destruct (Hf f Hin) as [Hold|]; [|by right].
    destruct (Hok f Hold) as [|Hcov]; [by left|right; by apply Hc].
  - intros id j' p Hj' Hp'. destruct (Hp id j' p Hj' Hp') as [|(j & Hj & Hpj)]; [done|].
    by eapply Hpid.
Qed.
Lemma keeps_files_refl s : keeps_files s s.
Proof. split; [auto|]. split; [done|]. intros id j p Hj Hp. right. by exists j. Qed.
Lemma keeps_files_trans s1 s2 s3 : keeps_files s1 s2 → keeps_files s2 s3 → keeps_files s1 s3.
Proof.
  intros (F1 & C1 & P1) (F2 & C2 & P2). split; [|split].
  - intros f Hf. destruct (F2 f Hf) as [Hf2|]; [|by right].
    destruct (F1 f Hf2); [by left|right; by apply C2].
  - intros f Hf. by apply C2, C1.
  - intros id j p Hj Hp. destruct (P2 id j p Hj Hp) as [|(j2 & Hj2 & Hp2)]; [by left|].
    by apply (P1 id j2 p).
Qed.
(** A change of fields that leaves the paths alone *)
Lemma keeps_update id f s :
  (∀ j, ej_tomlPath (f j) = ej_tomlPath j ∧ ej_pidPath (f j) = ej_pidPath j) →
  keeps_files s (update_job id f s).
Proof.
  intros Hf. split; [by left|]. split.
  - intros p (id' & j & r & Hr & Hne & Hj & Hp). destruct (decide (id' = id)) as [->|Hid].
    + exists id, (f j), r. cbn. rewrite lookup_alter_eq, Hj. repeat split; [done..|].
      unfold paths_of in *. by destruct (Hf j) as [-> ->].
    + exists id', j, r. cbn. by rewrite lookup_alter_ne.
  - intros id' j' p Hj' Hp. cbn in Hj'. right. destruct (decide (id' = id)) as [->|Hid].
    + rewrite lookup_alter_eq in Hj'. destruct (sx_objects s !! id) as [j|]; [|done].
      injection Hj' as <-. exists j. split; [done|]. by rewrite <-(proj2 (Hf j)).
    + rewrite lookup_alter_ne in Hj' by done. by exists j'.
Qed.
Lemma keeps_wait id r s : r ≠ R_command → keeps_files s (wait id r s).
Proof.
  intros Hr. split; [by left|]. split; [|intros id' j p Hj Hp; right; by exists j].
  intros p (id' & j & r' & Hr' & Hne & Hj & Hp). destruct (decide (id' = id)) as [->|Hid].
  - exists id, j, r. cbn. by rewrite lookup_insert_eq.
  - exists id', j, r'. cbn. by rewrite lookup_insert_ne.
Qed.
Lemma keeps_emit e s : keeps_files s (emit e s).
Proof. apply (keeps_files_refl s). Qed.
Lemma keeps_timers l s : keeps_files s (set_timers l s).
Proof. apply (keeps_files_refl s). Qed.
Lemma keeps_jobs l s : keeps_files s (set_jobs l s).
Proof. apply (keeps_files_refl s). Qed.
Lemma keeps_failed message id s : keeps_files s (run_failed message id s).
Proof. unfold run_failed. destruct (is_cancelled id s); [apply keeps_files_refl|by apply keeps_update]. Qed.
(** A new file of a job whose run goes on *)
Lemma keeps_new_file id path f r s :
  r ≠ R_command →
  (∀ j, sx_objects s !! id = Some j → {[path]} ∪ paths_of j ⊆ paths_of (f j)) →
  (∀ j p, ej_pidPath (f j) = Some p → p = pid_path id ∨ ej_pidPath j = Some p) →
  (∃ j, sx_objects s !! id = Some j) →
  keeps_files s (wait id r (update_job id f (set_files ({[path]} ∪ sx_files s) s))).
Proof.
  intros Hr Hpaths Hpid (j & Hj).
  assert (Hcov : ∀ p, p = path ∨ p ∈ paths_of j → covered (wait id r (update_job id f
            (set_files ({[path]} ∪ sx_files s) s))) p).
  { intros p Hp. exists id, (f j), r. cbn. rewrite lookup_insert_eq, lookup_alter_eq, Hj.
    repeat split; [done..|]. pose proof (Hpaths j Hj). set_solver. }
  split; [|split].
  - intros p Hp. cbn in Hp. apply elem_of_union in Hp as [Hp%elem_of_singleton|]; [|by left].
    right. apply Hcov. by left.
  - intros p (id' & j' & r' & Hr' & Hne & Hj' & Hp). destruct (decide (id' = id)) as [->|Hid].
    + apply Hcov. right. congruence.
    + exists id', j', r'. cbn. by rewrite lookup_insert_ne, lookup_alter_ne.
  - intros id' j' p Hj' Hp. cbn in Hj'. destruct (decide (id' = id)) as [->|Hid].
    + rewrite lookup_alter_eq, Hj in Hj'. injection Hj' as <-.
      destruct (Hpid j p Hp); [by left|right; by exists j].
    + rewrite lookup_alter_ne in Hj' by done. right. by exists j'.
Qed.
Lemma finalize_files K now id s : files_ok K s → files_ok K (finalize now K id s).
Proof.
  intros [Hok Hpid]. unfold finalize. split.
  - intros f Hf. cbn in Hf. apply elem_of_difference in Hf as [Hf Hnot].
    destruct (Hok f Hf) as [|(id' & j & r & Hr & Hne & Hj & Hp)]; [by left|].
    destruct (decide (id' = id)) as [->|Hid].
    + left. rewrite Hj in Hnot. destruct (decide (f ∈ K)); [done|]. set_solver.
    + right. exists id', j, r. cbn. by rewrite lookup_delete_ne, lookup_alter_ne.
  - intros id' j p Hj Hp. cbn in Hj. destruct (decide (id' = id)) as [->|Hid].
    + rewrite lookup_alter_eq in Hj. destruct (sx_objects s !! id); [|done].
      injection Hj as <-. done.
    + rewrite lookup_alter_ne in Hj by done. by eapply Hpid.
Qed.
Lemma files_update K id f s :
  (∀ j, ej_tomlPath (f j) = ej_tomlPath j ∧ ej_pidPath (f j) = ej_pidPath j) →
  files_ok K s → files_ok K (update_job id f s).
Proof. intros Hf. apply keeps_files_ok. by apply keeps_update. Qed.
Lemma files_wait K id r s : r ≠ R_command → files_ok K s → files_ok K (wait id r s).
Proof. intros Hr. apply keeps_files_ok. by apply keeps_wait. Qed.
Lemma files_failed K message id s : files_ok K s → files_ok K (run_failed message id s).
Proof. apply keeps_files_ok, keeps_failed. Qed.
Lemma spawn_files K pid id s :
  (∃ j, sx_objects s !! id = Some j) → files_ok K s → files_ok K (spawn_process pid id s).
Proof.
  intros (j & Hj) Hok. unfold spawn_process. cbn zeta.
  set (s1 := update_job id _ (emit (E_spawn id) s)).
  assert (Hok1 : files_ok K s1) by (apply files_update; [done|exact Hok]).
  assert (Hj1 : ∃ j1, sx_objects s1 !! id = Some j1) by (cbn; rewrite lookup_alter_eq, Hj; by eexists).
  clearbody s1. destruct pid; [|by apply files_wait].
  apply keeps_files_ok with s1; [|done].
  apply keeps_new_file; [done| |cbn; intros; left; congruence|done].
  intros j0 Hj0 p Hp. destruct Hok1 as [_ Hpid]. unfold paths_of in *. cbn in *.
  destruct (ej_pidPath j0) as [q|] eqn:Hq; [rewrite (Hpid id j0 q Hj0 Hq) in Hp|]; cbn in Hp; set_solver.
Qed.
Lemma flush_or_spawn_files K pid pre id s :
  (∃ j, sx_objects s !! id = Some j) → files_ok K s → files_ok K (flush_or_spawn pid pre id s).
Proof.
  intros Hj Hok. unfold flush_or_spawn. destruct (_ && _); [|by apply spawn_files].
  apply files_wait; [done|exact Hok].
Qed.
(** The run a job has is forgotten when it goes on. *)
Lemma wait_wait id r r' s : wait id r (wait id r' s) = wait id r s.
Proof. unfold wait, set_runs. cbn. by rewrite insert_insert_eq. Qed.
Lemma flush_or_spawn_wait pid pre id r s :
  flush_or_spawn pid pre id (wait id r s) = flush_or_spawn pid pre id s.
Proof.
  unfold flush_or_spawn, spawn_process, update_job, wait, emit, set_runs, set_objects, set_files. cbn.
  change (is_cancelled id _) with (is_cancelled id s).
  destruct (_ && _); [by rewrite insert_insert_eq|]. destruct pid; cbn; by rewrite insert_insert_eq.
Qed.
Lemma begin_files K now pid pre id s :
  sx_objects s !! id ≠ None → is_cancelled id s = false →
  files_ok K (wait id (R_probe pre) s) → files_ok K (begin_shake now K pid pre id s).
Proof.
  intros Hj Hc Hok. unfold begin_shake. rewrite Hc. destruct (ps_excludeFunctions pre); [done|].
  rewrite <-(flush_or_spawn_wait pid pre id (R_probe pre)). apply flush_or_spawn_files; [|done].
  cbn. destruct (sx_objects s !! id) as [j|]; [by exists j|done].
Qed.
Lemma processLines_paths lines : ∀ j,
  ej_tomlPath (processLines lines j) = ej_tomlPath j ∧ ej_pidPath (processLines lines j) = ej_pidPath j.
Proof.
  induction lines as [|l lines IH]; intros j; [done|].
  change (processLines (l :: lines) j) with (processLines lines (processLine l j)).
  destruct (IH (processLine l j)) as [-> ->]. unfold processLine. by destruct (is_empty _).
Qed.
Lemma enter_files K mode now id s :
  files_ok K s → sx_runs s !! id = None → files_ok K (enter_job mode now id s).
Proof.
  intros [Hok Hpid] Hnone. split.
  - intros f Hf. destruct (Hok f Hf) as [|(id' & j & r & Hr & Hne & Hj & Hp)]; [by left|right].
    exists id', j, r. cbn. rewrite lookup_insert_ne by congruence. done.
  - intros id' j p Hj Hp. cbn in Hj. destruct (decide (id' = id)) as [->|Hid].
    + rewrite lookup_insert_eq in Hj. by injection Hj as <-.
    + rewrite lookup_insert_ne in Hj by done. by eapply Hpid.
Qed.
(** Runs of the worker own no files. *)
Lemma files_command K id s :
  sx_runs s !! id = None → files_ok K s → files_ok K (wait id R_command s).
Proof.
  intros Hnone [Hok Hpid]. split; [|done].
  intros f Hf. destruct (Hok f Hf) as [|(id' & j & r & Hr & Hrest)]; [by left|right].
  exists id', j, r. cbn. rewrite lookup_insert_ne by congruence. done.
Qed.
Lemma files_forget K id s :
  sx_runs s !! id = Some R_command → files_ok K s → files_ok K (set_runs (delete id (sx_runs s)) s).
Proof.
  intros Hcmd [Hok Hpid]. split; [|done].
  intros f Hf. destruct (Hok f Hf) as [|(id' & j & r & Hr & Hne & Hrest)]; [by left|right].
  exists id', j, r. cbn. rewrite lookup_delete_ne by congruence. done.
Qed.
Lemma launch_files K env req mode source target c1 c2 s :
  files_ok K s → sx_runs s !! se_id env = None →
  wp (launch K env req mode source target c1 c2) (λ _, files_ok K) (λ _, files_ok K)
    (enter_job mode (se_now env) (se_id env) s).
Proof.
  intros Hok Hnone. set (id := se_id env). set (s2 := enter_job _ _ _ s).
  assert (Hok2 : files_ok K s2) by by apply enter_files.
  assert (Hj2 : sx_objects s2 !! id = Some (new_execution mode (se_now env)))
    by (cbn; by rewrite lookup_insert_eq).
  assert (Hr2 : sx_runs s2 !! id = None) by exact Hnone.
  clearbody s2. unfold launch. destruct (decide _).
  { unfold wp, modify, launch_command. apply files_command; [done|by apply files_update]. }
  unfold launch_shake. apply wp_bind, wp_from_outcome; [intros text _|done].
  apply wp_bind, wp_from_outcome; [intros _ _|done]. apply wp_bind. fold id.
  unfold wp at 1, modify. apply begin_files.
  - cbn. by rewrite lookup_alter_eq, Hj2.
  - unfold is_cancelled, status_of. cbn. by rewrite lookup_alter_eq, Hj2.
  - apply keeps_files_ok with s2; [|done]. apply keeps_new_file; [done| |by right|by eexists].
    intros j Hj. rewrite Hj2 in Hj. injection Hj as <-. intros p Hp.
    unfold paths_of in *. cbn in *. set_solver.
Qed.
Lemma start_files K env req s :
  runs_fit s → files_ok K s → sx_objects s !! se_id env = None →
  files_ok K (startExecution K env req s).2.
Proof.
  intros Hfit Hok Hnone. assert (Hrun : sx_runs s !! se_id env = None).
  { destruct (sx_runs s !! se_id env) as [r|] eqn:Hr; [|done].
    destruct (Hfit _ _ Hr) as (j & Hj & _). congruence. }
  assert (Hwp : wp (startExecution K env req) (λ _, files_ok K) (λ _, files_ok K) s).
  { apply (start_wp (λ s1, files_ok K s1 ∧ sx_runs s1 = sx_runs s)); [done| |].
    - unfold wp, evictOldJobs. destruct (_ <? _)%nat; [done|]. cbn zeta. by destruct (_ <=? _)%nat.
    - intros s1 mode source target c1 c2 [Hok1 Hr1]. apply launch_files; [done|congruence]. }
  unfold wp in Hwp. by destruct (startExecution K env req s) as [[?|?] ?].
Qed.
Lemma step_files K s s' : runs_fit s → files_ok K s → exec_step K s s' → files_ok K s'.
Proof.
  intros Hfit Hok Hstep.
  assert (Hobj : ∀ id r, sx_runs s !! id = Some r → ∃ j, sx_objects s !! id = Some j).
  { intros id r Hr. destruct (Hfit id r Hr) as (j & Hj & _). by exists j. }
  destruct Hstep as
    [env req s Hnew|id s|id s Hin|id pre presence now pid s Hr|id pre r now pid s Hr
    |id out err code chunk s Hr|id out err code chunk s Hr|id out err code code' s Hr
    |id out err code now s Hr|id out err code now message s Hr
    |id keys skipped total logs progress s Hr|id now r s Hr].
  - by apply start_files.
  - unfold stopExecution. destruct (js_includes _ _); [|done].
    destruct (sx_objects s !! id) as [j|]; [|done]. destruct (terminal _); [done|]. cbn [snd].
    destruct (ej_process j); [|by apply files_update].
    by apply (files_update K id (set_status cancelled) s).
  - unfold kill_timer. cbn. destruct (sx_objects s !! id) as [j|]; [|done]. by destruct (ej_process j).
  - unfold after_probe. set (s1 := match presence with Ok _ => _ | Throw _ => s end).
    assert (Hs1 : files_ok K s1 ∧ ∃ j, sx_objects s1 !! id = Some j).
    { destruct (Hobj id _ Hr) as [j Hj]. subst s1.
      destruct presence as [p|]; [destruct (decide _)|]; [by eauto| |by eauto].
      split; [by apply files_update|]. cbn. rewrite lookup_alter_eq, Hj. by eexists. }
    destruct Hs1 as [Hok1 Hj1]. clearbody s1.
    destruct (is_cancelled id s1); [by apply finalize_files|by apply flush_or_spawn_files].
  - unfold after_flush. destruct r.
    + destruct (is_cancelled id s); [by apply finalize_files|]. apply spawn_files; [by eapply Hobj|done].
    + by apply finalize_files, files_failed.
  - unfold on_stdout. destruct (on_data out chunk). apply files_wait; [done|].
    apply files_update; [|done]. intros j. apply processLines_paths.
  - unfold on_stderr. destruct (on_data err chunk). apply files_wait; [done|].
    apply files_update; [|done]. intros j. apply processLines_paths.
  - by apply files_wait.
  - apply finalize_files, files_update; [|done]. intros j. unfold exit_status.
    destruct (processLines_paths (on_flush out ++ on_flush err) j).
    destruct (decide _); [done|]. by destruct (code =? 0).
  - by apply finalize_files, files_failed.
  - by apply files_update.
  - unfold command_end. apply files_update; [done|]. set (s1 := match r with Ok _ => _ | Throw _ => _ end).
    assert (Hs1 : files_ok K s1 ∧ sx_runs s1 = sx_runs s).
    { subst s1. unfold run_failed. destruct r; (destruct (is_cancelled id s); [done|]); (split; [|done]);
        by apply files_update. }
    destruct Hs1 as [Hok1 Hr1]. apply files_forget; [congruence|done].
Qed.
Lemma reachable_files K s : exec_reachable K s → runs_fit s ∧ files_ok K s.
Proof.
  intros Hreach. assert (H0 : runs_fit empty_service ∧ files_ok K empty_service).
  { split; [apply empty_fits|]. split; cbn; intros *; rewrite ?lookup_empty; set_solver. }
  induction Hreach as [s|s1 s2 s3 Hstep _ IH]; [done|]. apply IH. destruct H0 as [Hfit Hok].
  split; [by apply (step_evolves K s1)|by eapply step_files].
Qed.

(** ** Properties *)

(** C15: A finished job stays as it finished: once a reachable state shows a job completed, failed
    or cancelled, every later state (further starts, stops, timers, process output, exits, errors
    and worker reports in any order) has that job with the same status and the same error. *)
Theorem terminal_job_is_final K s s' id j :
  exec_reachable K s → sx_objects s !! id = Some j → terminal (ej_status j) = true →
  rtc (exec_step K) s s' →
  ∃ j', sx_objects s' !! id = Some j' ∧ ej_status j' = ej_status j ∧ ej_error j' = ej_error j.
Proof.
  intros Hreach Hj Ht Hsteps.
  pose proof (steps_evolve K _ _ empty_fits Hreach) as [Hfit _].
  destruct (steps_evolve K _ _ Hfit Hsteps) as [_ Hev].
  destruct (Hev id j Hj) as (j' & Hj' & Hset & _). exists j'. split; [done|]. by apply Hset.
Qed.


(** The service lists at most [MAX_JOBS] jobs in every reachable state, and a start drops a
    job from the list only if that job had finished. *)
Theorem job_slots_bounded K s :
  exec_reachable K s →
  (length (sx_jobs s) ≤ MAX_JOBS)%nat
  ∧ ∀ env req id, id ∈ sx_jobs s → id ∉ sx_jobs (startExecution K env req s).2 →
      job_terminal s id = true.
Proof.
  intros Hreach. split.
  - by apply (reachable_slots K).
  - intros env req id Hin Hout. destruct (job_terminal s id) eqn:Ht; [done|].
    destruct Hout. by apply start_keeps.
Qed.

(** No credentials stay behind: in every reachable state each file of the service (a TOML file
    holds the passwords of both ends) is one whose deletion fails, or is a path of a job whose
    RedisShake run has not ended, and a job has at most its TOML and its PID file.  So with no run
    going on, only files that cannot be deleted are left. *)
Theorem credential_files_removed K s :
  exec_reachable K s →
  (∀ f, f ∈ sx_files s → f ∈ K ∨ ∃ id j r,
     sx_runs s !! id = Some r ∧ r ≠ R_command ∧ sx_objects s !! id = Some j ∧ f ∈ paths_of j)
  ∧ (sx_runs s = ∅ → sx_files s ⊆ K).
Proof.
  intros Hreach. destruct (reachable_files K s Hreach) as [_ [Hok _]]. split; [exact Hok|].
  intros Hnone f Hf. destruct (Hok f Hf) as [|(id & j & r & Hr & _)]; [done|].
  by rewrite Hnone, lookup_empty in Hr.
Qed.

(** ** Examples *)
Module demo.
Definition config (host : string) : DatabaseConnectionConfig :=
  {| dc_host := host; dc_port := num_of_Z 6379; dc_username := None; dc_password := Some "secret";
     dc_tls := false |}.
Definition env (host id : string) (now : Z) : StartEnv :=
  {| se_get := λ _, Ok tt; se_config := λ _, Some (config host); se_cluster := λ _, Ok false;
     se_engine := λ c, if str_eqb c "a" then valkey else redis; se_binary := Ok tt; se_write := Ok tt;
     se_pid_written := true; se_id := id; se_now := now |}.
Definition request (mode : ExecutionMode) (flush : bool) : StartRequest :=
  {| rq_source := "a"; rq_target := "b"; rq_mode := Some mode; rq_tryDiskless := false;
     rq_emptyDbBeforeSync := flush; rq_preferReplica := false |}.
Definition start (mode : ExecutionMode) (flush : bool) (host id : string) (s : Service) : Service :=
  (startExecution ∅ (env host id 1) (request mode flush) s).2.
Definition pre : RedisShakePreSpawn :=
  {| ps_excludeFunctions := true; ps_sourceDbType := valkey; ps_targetDbType := redis;
     ps_emptyDbBeforeSync := true |}.
(** A Valkey to Redis job that waits for the probe, then for the flush *)
Definition probing : Service := start redis_shake true "10.0.0.1" "j" empty_service.
Definition flushing : Service := after_probe 2 ∅ true (Ok absent) pre "j" probing.
(** The process of that job ends with an error, then with success. *)
Definition spawned : Service := after_flush 3 ∅ true (Ok tt) "j" flushing.
Definition failed_run : Service := on_close 4 ∅ EmptyString EmptyString 1 "j" spawned.

Lemma probing_reachable : exec_reachable ∅ probing.
Proof. apply rtc_once. by apply (X_start ∅ (env "10.0.0.1" "j" 1) (request redis_shake true)). Qed.
Lemma flushing_reachable : exec_reachable ∅ flushing.
Proof. eapply rtc_r; [apply probing_reachable|]. by apply X_probe. Qed.
Lemma spawned_reachable : exec_reachable ∅ spawned.
Proof. eapply rtc_r; [apply flushing_reachable|]. by apply (X_flush ∅ "j" pre). Qed.
Lemma failed_reachable : exec_reachable ∅ failed_run.
Proof. eapply rtc_r; [apply spawned_reachable|]. by apply (X_close ∅ "j" EmptyString EmptyString 1). Qed.
Lemma flush_shown : destructions "j" flushing = [E_flush "j"] ∧ destructions "j" probing = [].
Proof. done. Qed.
End demo.

(** A TOML file that cannot be built (here a host name with a space) refuses the start after the
    job has been entered: the job stays pending with no run that could end it.  Ten of them take
    every slot, and a valid start is then refused. *)
Definition leaked (n : nat) : Service :=
  foldl (λ s i, demo.start redis_shake false "bad host" (string_of_Z (Z.of_nat i)) s) empty_service (seq 0 n).
Lemma failed_starts_leak_slots :
  (startExecution ∅ (demo.env "bad host" "x" 1) (demo.request redis_shake false) empty_service).1 ≠ Ok "x"
  ∧ map_Forall (λ _ j, ej_status j = pending) (sx_objects (leaked 10)) ∧ sx_runs (leaked 10) = ∅
  ∧ (startExecution ∅ (demo.env "10.0.0.1" "x" 1) (demo.request redis_shake false) (leaked 10)).1
    = Throw limit_message
  ∧ (startExecution ∅ (demo.env "10.0.0.1" "x" 1) (demo.request redis_shake false) (leaked 9)).1 = Ok "x".
Proof.
  split; [by vm_compute|]. split; [|by vm_compute].
  apply (bool_decide_unpack _). by vm_compute.
Qed.

(** ** Witnesses *)
Definition demo_job (s : Service) : ExecutionJob := default (new_execution command 0) (sx_objects s !! "j").
Lemma terminal_job_is_final_witness :
  ej_status (demo_job demo.failed_run) = failed
  ∧ ∃ j', sx_objects (stopExecution "j" demo.failed_run).2 !! "j" = Some j'
      ∧ ej_status j' = ej_status (demo_job demo.failed_run) ∧ ej_error j' = ej_error (demo_job demo.failed_run).
Proof.
  split; [by vm_compute|].
  apply (terminal_job_is_final ∅ demo.failed_run (stopExecution "j" demo.failed_run).2 "j" (demo_job demo.failed_run)).
  - exact demo.failed_reachable.
  - by vm_compute.
  - by vm_compute.
  - apply rtc_once, X_stop.
Defined.
(** Stopped while it waits for the probe: the answer of the probe brings no flush. *)
Definition probe_after_stop : Service := after_probe 9 ∅ true (Ok absent) demo.pre "j" (stopExecution "j" demo.probing).2.
Lemma job_slots_bounded_witness :
  sx_jobs demo.failed_run = ["j"]
  ∧ ((length (sx_jobs demo.failed_run) ≤ MAX_JOBS)%nat
     ∧ ∀ env req id, id ∈ sx_jobs demo.failed_run →
         id ∉ sx_jobs (startExecution ∅ env req demo.failed_run).2 → job_terminal demo.failed_run id = true).
Proof. split; [by vm_compute|]. apply (job_slots_bounded ∅ demo.failed_run). exact demo.failed_reachable. Defined.
Lemma credential_files_removed_witness :
  sx_files demo.spawned = {["j.toml"; "j.pid"]}
  ∧ ((∀ f, f ∈ sx_files demo.failed_run → f ∈ (∅ : gset string) ∨ ∃ id j r,
        sx_runs demo.failed_run !! id = Some r ∧ r ≠ R_command
        ∧ sx_objects demo.failed_run !! id = Some j ∧ f ∈ paths_of j)
     ∧ (sx_runs demo.failed_run = ∅ → sx_files demo.failed_run ⊆ ∅)).
Proof.
  split; [apply (bool_decide_unpack _); by vm_compute|].
  apply (credential_files_removed ∅ demo.failed_run). exact demo.failed_reachable.
Defined.
