(* ===== verification/MemoryRecords.v ===== *)
(** * Records, queries and scores of the memory tier

    [packages/agent-memory/src]: the hash a memory is stored as and how it is read back
    ([buildMemoryRecord.ts], [parseMemoryItem.ts]), the filters sent to the search index
    ([buildRecallQuery.ts], [buildMemoryIndex.ts]), and the scores that rank recalled memories and
    the ones to evict ([compositeScore.ts], [selectEvictions.ts]).  [Math.exp] is a parameter:
    the language leaves its rounding to the implementation. *)
From S2P Require Export SearchKit FloatOrder.
From stdpp Require Import options.

(** ** Definitions *)

(** [threadId], [agentId] and [namespace], each of which may be left out *)
Record MemoryScope := {
  sc_threadId : option string; sc_agentId : option string; sc_namespace : option string
}.
Record RememberOptions := {
  ro_scope : MemoryScope; ro_importance : option number; ro_tags : list string;
  ro_source : option string; ro_subject : option string; ro_date : option string; ro_ttl : option Z
}.
(** The times are in milliseconds, [None] where the stored text is no number. *)
Record MemoryItem := {
  mi_id : string; mi_content : string; mi_importance : number; mi_tags : list string;
  mi_source : option string; mi_subject : option string; mi_date : option string;
  mi_scope : MemoryScope; mi_createdAt : option Z; mi_lastAccessedAt : option Z;
  mi_accessCount : option Z
}.

(** *** Records *)
Record MemoryWrite := { mw_key : string; mw_fields : list (string * string) }.
Definition DEFAULT_IMPORTANCE : number := parse_float "0.5".
Definition memoryKeyPrefix (name : string) : string := name +:+ ":mem:".
Definition memoryIndexName (name : string) : string := name +:+ ":mem:idx".
Definition importance_message (importance : option number) : string :=
  "importance must be a finite number in [0, 1], got: "
  +:+ match importance with Some x => num_to_string x | None => "undefined" end.
Definition comma_message (tag : string) : string :=
  "Tag '" +:+ tag +:+ "' must not contain a comma; tags are stored comma-separated".
Definition opt_field (name : string) (value : option string) : list (string * string) :=
  match value with Some v => [(name, v)] | None => [] end.
Definition nonempty (o : option string) : option string :=
  match o with Some s => if is_empty s then None else Some s | None => None end.
Definition record_fields (content : string) (vector : list number) (importance : number)
    (options : RememberOptions) (now : Z) : list (string * string) :=
  [("content", content); ("vector", encodeFloat32 vector); ("importance", num_to_string importance);
   ("created_at", string_of_Z now); ("last_accessed_at", string_of_Z now); ("access_count", "0")]
  ++ match ro_tags options with [] => [] | tags => [("tags", join "," tags)] end
  ++ opt_field "threadId" (sc_threadId (ro_scope options))
  ++ opt_field "agentId" (sc_agentId (ro_scope options))
  ++ opt_field "namespace" (sc_namespace (ro_scope options))
  ++ opt_field "source" (ro_source options) ++ opt_field "subject" (ro_subject options)
  ++ opt_field "date" (nonempty (ro_date options)).
Definition buildMemoryRecord (name id content : string) (vector : list number)
    (options : RememberOptions) (now : Z) : outcome string MemoryWrite :=
  let importance := default DEFAULT_IMPORTANCE (ro_importance options) in
  if negb (is_finite importance) || num_ltb importance (num_of_Z 0) || num_ltb (num_of_Z 1) importance
  then Throw (importance_message (ro_importance options))
  else
    match js_find (includes ",") (ro_tags options) with
    | Some tag => Throw (comma_message tag)
    | None => Ok {| mw_key := memoryKeyPrefix name +:+ id;
                    mw_fields := record_fields content vector importance options now |}
    end.

Definition item_id (name key : string) : string :=
  if starts_with (memoryKeyPrefix name) key
  then str_drop (String.length (memoryKeyPrefix name)) key else key.
Definition parseMemoryItem (name : string) (hit : FtSearchHit) : MemoryItem :=
  let field k := jm_get k (fh_fields hit) in
  {| mi_id := item_id name (fh_key hit); mi_content := default EmptyString (field "content");
     mi_importance := parse_float (default "0" (field "importance"));
     mi_tags := match nonempty (field "tags") with Some s => split_char "," s | None => [] end;
     mi_source := field "source"; mi_subject := field "subject"; mi_date := field "date";
     mi_scope := {| sc_threadId := field "threadId"; sc_agentId := field "agentId";
                    sc_namespace := field "namespace" |};
     mi_createdAt := parse_int (default "0" (field "created_at"));
     mi_lastAccessedAt := parse_int (default "0" (field "last_accessed_at"));
     mi_accessCount := parse_int (default "0" (field "access_count")) |}.

(** *** Filters *)
Definition MATCH_ALL_MEMORY_QUERY : string := "@created_at:[-inf +inf]".
Definition SCORE_FIELD : string := "__score".
Definition VECTOR_FIELD : string := "vector".
Definition scope_tags (scope : MemoryScope) (tags : list string) : list (string * string) :=
  opt_field "threadId" (sc_threadId scope) ++ opt_field "agentId" (sc_agentId scope)
  ++ opt_field "namespace" (sc_namespace scope) ++ map (λ tag, ("tags", tag)) tags.
Definition scopeClauses (scope : MemoryScope) (tags : list string) : list string :=
  map (λ '(field, value), "@" +:+ field +:+ ":{" +:+ escapeTag value +:+ "}") (scope_tags scope tags).
Definition joinClauses (clauses : list string) : string :=
  match clauses with [] => MATCH_ALL_MEMORY_QUERY | _ => "(" +:+ join " " clauses +:+ ")" end.
Definition buildScopeFilter (scope : MemoryScope) (tags : list string) : string :=
  joinClauses (scopeClauses scope tags).
Record ConsolidateFilterOptions := {
  cf_maxCreatedAt : option number; cf_maxImportance : option number;
  cf_excludeSource : option string; cf_includeSource : option string
}.
Definition upper_bound (field : string) (bound : option number) : list string :=
  match bound with Some x => ["@" +:+ field +:+ ":[-inf " +:+ num_to_string x +:+ "]"] | None => [] end.
Definition buildConsolidateFilter (scope : MemoryScope) (tags : list string)
    (options : ConsolidateFilterOptions) : string :=
  joinClauses
    (scopeClauses scope tags
     ++ upper_bound "created_at" (cf_maxCreatedAt options)
     ++ upper_bound "importance" (cf_maxImportance options)
     ++ match cf_excludeSource options with Some s => ["-@source:{" +:+ escapeTag s +:+ "}"] | None => [] end
     ++ match cf_includeSource options with Some s => ["@source:{" +:+ escapeTag s +:+ "}"] | None => [] end).
Definition knn_suffix (k : string) : string :=
  "=>[KNN " +:+ k +:+ " @" +:+ VECTOR_FIELD +:+ " $vec AS " +:+ SCORE_FIELD +:+ "]".
Definition buildRecallQuery (k : Z) (scope : MemoryScope) (tags : list string) : string :=
  buildScopeFilter scope tags +:+ knn_suffix (string_of_Z k).
Definition dims_message (dims : number) : string :=
  "memory index dimension must be a positive integer, got: " +:+ num_to_string dims.
Definition buildMemoryIndexArgs (name : string) (dims : number) : outcome string (list string) :=
  match num_to_Z dims with
  | Some d =>
      if d <=? 0 then Throw (dims_message dims)
      else Ok [memoryIndexName name; "ON"; "HASH"; "PREFIX"; "1"; memoryKeyPrefix name; "SCHEMA";
               VECTOR_FIELD; "VECTOR"; "HNSW"; "6"; "TYPE"; "FLOAT32"; "DIM"; num_to_string dims;
               "DISTANCE_METRIC"; "COSINE"; "threadId"; "TAG"; "agentId"; "TAG"; "namespace"; "TAG";
               "tags"; "TAG"; "SEPARATOR"; ","; "source"; "TAG"; "importance"; "NUMERIC";
               "created_at"; "NUMERIC"; "SORTABLE"; "last_accessed_at"; "NUMERIC"; "access_count";
               "NUMERIC"; "content"; "TEXT"]
  | None => Throw (dims_message dims)
  end.

(** *** Scores *)
Record RecallWeights := { w_similarity : number; w_recency : number; w_importance : number }.
Record EvictionCandidate := { ec_key : string; ec_importance : number; ec_lastAccessedAt : number }.
Definition LN2 : number := parse_float "0.6931471805599453".
Section scores.
Context (math_exp : number → number).
Definition recencyDecay (ageSeconds halfLifeSeconds : number) : number :=
  math_exp (num_div (num_mul (num_neg LN2) ageSeconds) halfLifeSeconds).
Definition compositeScore (similarity ageSeconds importance : number) (weights : RecallWeights)
    (halfLifeSeconds : number) : number :=
  let recency := recencyDecay ageSeconds halfLifeSeconds in
  num_add (num_add (num_mul (w_similarity weights) similarity) (num_mul (w_recency weights) recency))
    (num_mul (w_importance weights) importance).
Definition similarityFromDistance (distance : number) : number :=
  num_sub (num_of_Z 1) (num_div distance (num_of_Z 2)).
Definition evictionScore (now : Z) (halfLifeSeconds : number) (weights : RecallWeights)
    (candidate : EvictionCandidate) : number :=
  let denom := num_add (w_importance weights) (w_recency weights) in
  if num_eqb denom (num_of_Z 0) then num_of_Z 0
  else
    let ageSeconds := num_div (num_sub (num_of_Z now) (ec_lastAccessedAt candidate)) (num_of_Z 1000) in
    let recency := recencyDecay ageSeconds halfLifeSeconds in
    num_div (num_add (num_mul (w_importance weights) (ec_importance candidate))
               (num_mul (w_recency weights) recency)) denom.
(** [a.score !== b.score ? a.score - b.score : a.lastAccessedAt - b.lastAccessedAt] *)
Definition eviction_cmp (score : EvictionCandidate → number) (a b : EvictionCandidate) : Z :=
  if num_eqb (score a) (score b) then num_sign (num_sub (ec_lastAccessedAt a) (ec_lastAccessedAt b))
  else num_sign (num_sub (score a) (score b)).
Definition selectEvictions (candidates : list EvictionCandidate) (maxItems now : Z)
    (halfLifeSeconds : number) (weights : RecallWeights) : list string :=
  let dropCount := js_len candidates - Z.max 0 maxItems in
  if dropCount <=? 0 then []
  else map ec_key (js_slice 0 dropCount
         (js_sort (eviction_cmp (evictionScore now halfLifeSeconds weights)) candidates)).
End scores.

(** ** Specification *)
(** What the index is asked: the scope and every tag, or everything when nothing is asked for *)
Definition scope_reads (scope : MemoryScope) (tags : list string) : list clause :=
  map (λ '(field, value), K_tag false field [value]) (scope_tags scope tags).
Definition or_all (cs : list clause) : list clause :=
  match cs with [] => [K_range "created_at" "-inf" "+inf"] | _ => cs end.
Definition bound_reads (field : string) (bound : option number) : list clause :=
  match bound with Some x => [K_range field "-inf" (num_to_string x)] | None => [] end.
Definition consolidate_reads (scope : MemoryScope) (tags : list string)
    (options : ConsolidateFilterOptions) : list clause :=
  scope_reads scope tags ++ bound_reads "created_at" (cf_maxCreatedAt options)
  ++ bound_reads "importance" (cf_maxImportance options)
  ++ match cf_excludeSource options with Some s => [K_tag true "source" [s]] | None => [] end
  ++ match cf_includeSource options with Some s => [K_tag false "source" [s]] | None => [] end.

(** ** Lemmas *)

(** *** Numbers as text *)
Lemma digit_bound c : is_digit c = true → bound_char c = true.
Proof. intros Hc. unfold bound_char, word_char. by rewrite Hc. Qed.
Lemma string_of_Z_bound z : 0 ≤ z → str_forall bound_char (string_of_Z z) = true.
Proof. intros Hz. eapply str_forall_impl; [exact digit_bound|]. by apply string_of_Z_digits. Qed.
Lemma div_nearest_nonneg a b : 0 ≤ a → 0 ≤ b → 0 ≤ div_nearest a b.
Proof.
  intros Ha Hb. unfold div_nearest. destruct (Z.eq_dec b 0) as [->|]; [by rewrite Z.div_0_r|].
  apply Z.div_pos; lia.
Qed.
Lemma shortest_nonneg fuel m e num den n : ∀ k,
  0 ≤ num → 0 ≤ den → 0 ≤ (shortest fuel m e num den n k).1.
Proof.
  intros k Hn Hd. assert (Hs : ∀ ex, 0 ≤ (if 0 <=? ex then div_nearest num (den * 10 ^ ex)
                                          else div_nearest (num * 10 ^ (- ex)) den)).
  { intros ex. pose proof (Z.pow_nonneg 10 ex ltac:(lia)). pose proof (Z.pow_nonneg 10 (- ex) ltac:(lia)).
    destruct (0 <=? ex); apply div_nearest_nonneg; nia. }
  revert k. induction fuel as [|fuel IH]; intros k; cbn [shortest]; [apply Hs|].
  destruct (num_eqb _ _); [apply Hs|apply IH].
Qed.
Lemma num_to_string_bound x : str_forall bound_char (num_to_string x) = true.
Proof.
  destruct x as [s|s| |s m e]; [done|by destruct s|done|]. cbn [num_to_string].
  destruct (ratio m e) as [num den] eqn:Hr.
  assert (Hnd : 0 ≤ num ∧ 0 ≤ den).
  { revert Hr. unfold ratio. pose proof (Z.pow_nonneg 2 e ltac:(lia)).
    pose proof (Z.pow_nonneg 2 (- e) ltac:(lia)). destruct (0 <=? e); intros [= <- <-]; nia. }
  set (n := dec_exponent _ _ _ _). clearbody n.
  pose proof (shortest_nonneg 16 m e num den n 1 (proj1 Hnd) (proj2 Hnd)) as Hs.
  destruct (shortest 16 m e num den n 1) as [ds0 k0]. cbn [fst] in Hs.
  destruct (if ds0 =? 10 ^ k0 then (1, 1, n + 1) else (ds0, k0, n)) as [[ds k] n'] eqn:Hx.
  assert (Hs' : 0 ≤ ds) by (destruct (ds0 =? 10 ^ k0); simplify_eq; lia).
  clear Hx Hs n. rename n' into n. pose proof (string_of_Z_bound ds Hs') as Hd.
  assert (He : str_forall bound_char (string_of_Z (Z.abs (n - 1))) = true) by (apply string_of_Z_bound; lia).
  rewrite str_forall_app. apply andb_true_intro. split; [by destruct s|].
  destruct ((k <=? n) && (n <=? 21)).
  { rewrite str_forall_app, Hd. by apply str_forall_zeros. }
  destruct ((0 <? n) && (n <=? 21)).
  { rewrite !str_forall_app, str_forall_take, str_forall_drop by done. done. }
  destruct ((-6 <? n) && (n <=? 0)).
  { rewrite !str_forall_app, Hd, str_forall_zeros by done. done. }
  destruct (k =? 1); rewrite !str_forall_app, He; destruct (0 <? n - 1);
    rewrite ?Hd, ?str_forall_take, ?str_forall_drop by done; done.
Qed.

(** *** Filters *)
Lemma scope_fields scope tags p : p ∈ scope_tags scope tags → str_forall word_char p.1 = true.
Proof.
  unfold scope_tags, opt_field. intros Hp. rewrite !elem_of_app in Hp.
  destruct Hp as [Hp|[Hp|[Hp|Hp]]].
  - destruct (sc_threadId scope); [apply list_elem_of_singleton in Hp; by subst|by apply not_elem_of_nil in Hp].
  - destruct (sc_agentId scope); [apply list_elem_of_singleton in Hp; by subst|by apply not_elem_of_nil in Hp].
  - destruct (sc_namespace scope); [apply list_elem_of_singleton in Hp; by subst|by apply not_elem_of_nil in Hp].
  - apply list_elem_of_fmap in Hp as (tag & -> & _). done.
Qed.
Lemma scope_clauses_read scope tags :
  Forall2 reads_clause (scopeClauses scope tags) (scope_reads scope tags).
Proof.
  unfold scopeClauses, scope_reads. pose proof (scope_fields scope tags) as Hf.
  induction (scope_tags scope tags) as [|[field value] l IH]; [constructor|]. cbn [map]. constructor.
  - apply (tag_clause_reads false). by apply (Hf (field, value)); left.
  - apply IH. intros p Hp. apply Hf. by right.
Qed.
Lemma upper_bound_read field bound :
  str_forall word_char field = true →
  Forall2 reads_clause (upper_bound field bound) (bound_reads field bound).
Proof.
  intros Hf. destruct bound as [x|]; [|constructor]. constructor; [|constructor].
  assert (He : "@" +:+ field +:+ ":[-inf " +:+ num_to_string x +:+ "]"
               = range_clause field "-inf" (num_to_string x)) by done.
  rewrite He. apply range_clause_reads; [done|done|apply num_to_string_bound].
Qed.
(** Clauses that read one by one read as a filter. *)
Lemma filter_reads texts cs rest :
  Forall2 reads_clause texts cs → read_query (joinClauses texts +:+ rest) = Some (or_all cs, rest).
Proof.
  intros HF. destruct HF as [|t c texts cs Ht HF].
  - assert (Hr : reads_clause MATCH_ALL_MEMORY_QUERY (K_range "created_at" "-inf" "+inf")).
    { apply (range_clause_reads "created_at" "-inf" "+inf"); done. }
    unfold read_query. cbn [joinClauses]. specialize (Hr rest).
    change (read_char "(" (MATCH_ALL_MEMORY_QUERY +:+ rest)) with (@None string). cbn match. by rewrite Hr.
  - unfold joinClauses. rewrite !str_app_assoc. apply read_query_joined; [done|by constructor].
Qed.
Lemma consolidate_filter_read scope tags options rest :
  read_query (buildConsolidateFilter scope tags options +:+ rest)
  = Some (or_all (consolidate_reads scope tags options), rest).
Proof.
  apply filter_reads. unfold consolidate_reads. repeat apply Forall2_app.
  - apply scope_clauses_read.
  - by apply upper_bound_read.
  - by apply upper_bound_read.
  - destruct (cf_excludeSource options) as [s|]; [|constructor].
    constructor; [exact (tag_clause_reads true "source" s eq_refl)|constructor].
  - destruct (cf_includeSource options) as [s|]; [|constructor].
    constructor; [exact (tag_clause_reads false "source" s eq_refl)|constructor].
Qed.
Lemma scope_filter_read scope tags rest :
  read_query (buildScopeFilter scope tags +:+ rest) = Some (or_all (scope_reads scope tags), rest).
Proof. apply filter_reads, scope_clauses_read. Qed.

(** *** Records *)
Lemma opt_field_get k name value :
  jm_get k (opt_field name value) = if decide (k = name) then value else None.
Proof. destruct value; cbn; [|by destruct (decide _)]. by destruct (decide (k = name)). Qed.
Lemma jm_get_app {V} k (l l' : list (string * V)) :
  jm_get k (l ++ l') = match jm_get k l with Some v => Some v | None => jm_get k l' end.
Proof. induction l as [|[k' v] l IH]; cbn; [done|]. by destruct (decide _). Qed.
Lemma no_comma_split tag : includes "," tag = false → str_forall (λ a, negb (bool_decide (a = ","%char))) tag = true.
Proof.
  induction tag as [|c tag IH]; [done|]. cbn [includes]. intros [Hc Ht]%orb_false_elim. cbn [str_forall].
  rewrite IH by done. rewrite andb_true_r. destruct (bool_decide_reflect (c = ","%char)) as [->|]; done.
Qed.

(** ** Properties *)

(** C22: What a memory filter asks for is what was meant, whatever the ids, tags, sources and
    bounds contain: the search server reads the filter of a scope as one clause per given field and
    per tag with exactly the given value, the filter of a consolidation as those and its bounds and
    source conditions, and a recall query as its filter with the nearest-neighbour part after it;
    no value can close its braces and add, widen or drop a condition. *)
Theorem filters_read_back scope tags options k :
  read_query (buildScopeFilter scope tags) = Some (or_all (scope_reads scope tags), EmptyString)
  ∧ read_query (buildConsolidateFilter scope tags options)
    = Some (or_all (consolidate_reads scope tags options), EmptyString)
  ∧ read_query (buildRecallQuery k scope tags)
    = Some (or_all (scope_reads scope tags), knn_suffix (string_of_Z k)).
Proof.
  pose proof (scope_filter_read scope tags EmptyString) as H1.
  pose proof (consolidate_filter_read scope tags options EmptyString) as H2.
  rewrite str_app_nil_r in H1, H2. split; [done|]. split; [done|]. apply scope_filter_read.
Qed.

(** The item a stored memory reads back as *)
Definition stored_item (id content : string) (options : RememberOptions) (now : Z) : MemoryItem :=
  {| mi_id := id; mi_content := content;
     mi_importance := parse_float (num_to_string (default DEFAULT_IMPORTANCE (ro_importance options)));
     mi_tags := ro_tags options; mi_source := ro_source options; mi_subject := ro_subject options;
     mi_date := nonempty (ro_date options); mi_scope := ro_scope options;
     mi_createdAt := Some now; mi_lastAccessedAt := Some now; mi_accessCount := Some 0 |}.
Definition tag_field (tags : list string) : option string :=
  match tags with [] => None | _ => Some (join "," tags) end.
Lemma record_get content vector importance options now k :
  jm_get k (record_fields content vector importance options now)
  = if decide (k = "content") then Some content
    else if decide (k = "vector") then Some (encodeFloat32 vector)
    else if decide (k = "importance") then Some (num_to_string importance)
    else if decide (k = "created_at") then Some (string_of_Z now)
    else if decide (k = "last_accessed_at") then Some (string_of_Z now)
    else if decide (k = "access_count") then Some "0"
    else if decide (k = "tags") then tag_field (ro_tags options)
    else if decide (k = "threadId") then sc_threadId (ro_scope options)
    else if decide (k = "agentId") then sc_agentId (ro_scope options)
    else if decide (k = "namespace") then sc_namespace (ro_scope options)
    else if decide (k = "source") then ro_source options
    else if decide (k = "subject") then ro_subject options
    else if decide (k = "date") then nonempty (ro_date options) else None.
Proof.
  unfold record_fields. rewrite !jm_get_app, !opt_field_get. cbn [jm_get].
  assert (Htags : jm_get k match ro_tags options with [] => [] | tags => [("tags", join "," tags)] end
                  = if decide (k = "tags") then tag_field (ro_tags options) else None).
  { destruct (ro_tags options); cbn [jm_get tag_field]; by destruct (decide _). }
  rewrite Htags. clear Htags.
  repeat (destruct (decide (k = _)) as [->|_]; [by cbn; repeat case_match|]). done.
Qed.
(** Reading a record from a hit of the index or from the hash *)
Lemma record_read name id content vector options now w :
  0 ≤ now → ro_tags options ≠ [EmptyString] →
  buildMemoryRecord name id content vector options now = Ok w →
  parseMemoryItem name {| fh_key := mw_key w; fh_fields := mw_fields w |} = stored_item id content options now.
Proof.
  intros Hnow Htags Hw. unfold buildMemoryRecord in Hw.
  set (imp := default DEFAULT_IMPORTANCE (ro_importance options)) in *.
  destruct (_ || _); [done|]. destruct (js_find _ _) as [tag|] eqn:Hcomma; [done|].
  injection Hw as <-. unfold parseMemoryItem. cbn [fh_key fh_fields mw_key mw_fields].
  rewrite !record_get. unfold stored_item. f_equal; try reflexivity.
  - unfold item_id. by rewrite starts_with_app, str_drop_app.
  - change (match nonempty (tag_field (ro_tags options)) with Some s => split_char "," s | None => [] end
            = ro_tags options).
    destruct (ro_tags options) as [|tag tags]; [done|]. cbn [tag_field nonempty].
    destruct (is_empty (join "," (tag :: tags))) eqn:He.
    + destruct tags as [|tag' tags]; cbn in He; [by destruct tag|by destruct tag].
    + change "," with (String "," EmptyString). apply split_join; [done|]. intros s Hs.
      apply no_comma_split. exact (proj1 (js_find_None _ _) Hcomma s Hs).
  - by destruct (ro_scope options).
  - exact (parse_int_string now Hnow).
  - exact (parse_int_string now Hnow).
Qed.
Lemma opt_field_sub name value : (opt_field name value).*1 `sublist_of` [name].
Proof. destruct value; cbn; [done|apply sublist_nil_l]. Qed.
Lemma record_fields_NoDup content vector importance options now :
  NoDup (record_fields content vector importance options now).*1.
Proof.
  eapply (sublist_NoDup _ (["content"; "vector"; "importance"; "created_at"; "last_accessed_at"; "access_count"]
    ++ ["tags"] ++ ["threadId"] ++ ["agentId"] ++ ["namespace"] ++ ["source"] ++ ["subject"] ++ ["date"])).
  - apply (bool_decide_unpack _). by vm_compute.
  - unfold record_fields. rewrite !fmap_app. repeat apply sublist_app; try apply opt_field_sub; [done|].
    destruct (ro_tags options); [apply sublist_nil_l|done].
Qed.
Lemma build_ok_iff name id content vector options now :
  (∃ w, buildMemoryRecord name id content vector options now = Ok w)
  ↔ (let x := default DEFAULT_IMPORTANCE (ro_importance options) in
     is_finite x = true ∧ num_ltb x (num_of_Z 0) = false ∧ num_ltb (num_of_Z 1) x = false)
    ∧ ∀ tag, tag ∈ ro_tags options → includes "," tag = false.
Proof.
  unfold buildMemoryRecord. set (x := default DEFAULT_IMPORTANCE (ro_importance options)). cbv zeta.
  destruct (is_finite x), (num_ltb x (num_of_Z 0)), (num_ltb (num_of_Z 1) x); cbn [negb orb];
    try (split; [by intros [w Hw]|intros [(? & ? & ?) _]; congruence]).
  destruct (js_find (includes ",") (ro_tags options)) as [tag|] eqn:Hf.
  - split; [by intros [w Hw]|]. intros [_ Ht]. apply js_find_Some in Hf as [H1 H2].
    by rewrite (Ht tag H2) in H1.
  - split; [|by eexists]. intros _. split; [done|]. by apply js_find_None.
Qed.

(** *** Evictions *)
(** The comparator compares the scores, then the times of the last access. *)
Definition good_candidate (score : EvictionCandidate → number) (c : EvictionCandidate) : Prop :=
  good_number (score c) ∧ good_number (ec_lastAccessedAt c).
Definition earlier (score : EvictionCandidate → number) (a b : EvictionCandidate) : Prop :=
  val (score a) < val (score b)
  ∨ val (score a) = val (score b) ∧ val (ec_lastAccessedAt a) ≤ val (ec_lastAccessedAt b).
Definition exact_cmp (score : EvictionCandidate → number) (a b : EvictionCandidate) : Z :=
  if val (score a) =? val (score b) then val (ec_lastAccessedAt a) - val (ec_lastAccessedAt b)
  else val (score a) - val (score b).
Lemma eviction_sort score l :
  Forall (good_candidate score) l →
  js_sort (eviction_cmp score) l = js_sort (exact_cmp score) l.
Proof.
  intros Hl. rewrite Forall_forall in Hl. apply js_sort_ext. intros x y Hx Hy.
  destruct (Hl x Hx) as [[F1 C1] [F2 C2]], (Hl y Hy) as [[F3 C3] [F4 C4]].
  unfold eviction_cmp, exact_cmp. rewrite num_eqb_val, !num_sub_sign by done.
  destruct (Z.eqb_spec (val (score x)) (val (score y))).
  - destruct (Z.leb_spec (Z.sgn (val (ec_lastAccessedAt x) - val (ec_lastAccessedAt y))) 0),
      (Z.leb_spec (val (ec_lastAccessedAt x) - val (ec_lastAccessedAt y)) 0); lia.
  - destruct (Z.leb_spec (Z.sgn (val (score x) - val (score y))) 0),
      (Z.leb_spec (val (score x) - val (score y)) 0); lia.
Qed.
Lemma exact_sorted score l : StronglySorted (earlier score) (js_sort (exact_cmp score) l).
Proof.
  assert (H : StronglySorted (λ a b, exact_cmp score a b ≤ 0) (js_sort (exact_cmp score) l)).
  { apply js_sort_sorted; unfold exact_cmp; intros x y.
    - destruct (Z.eqb_spec (val (score x)) (val (score y))), (Z.eqb_spec (val (score y)) (val (score x))); lia.
    - intros z. destruct (Z.eqb_spec (val (score x)) (val (score y))),
        (Z.eqb_spec (val (score y)) (val (score z))), (Z.eqb_spec (val (score x)) (val (score z))); lia. }
  induction H as [|x l' _ IH Hx]; constructor; [done|].
  eapply Forall_impl; [exact Hx|]. unfold exact_cmp, earlier. intros y Hy.
  destruct (Z.eqb_spec (val (score x)) (val (score y))); lia.
Qed.
Lemma select_evictions_split math_exp candidates maxItems now halfLife weights :
  let score := evictionScore math_exp now halfLife weights in
  Forall (good_candidate score) candidates →
  ∃ evicted kept, candidates ≡ₚ evicted ++ kept
    ∧ selectEvictions math_exp candidates maxItems now halfLife weights = map ec_key evicted
    ∧ js_len kept = Z.min (js_len candidates) (Z.max 0 maxItems)
    ∧ ∀ x y, x ∈ evicted → y ∈ kept → earlier score x y.
Proof.
  intros score Hgood. unfold selectEvictions. set (d := js_len candidates - Z.max 0 maxItems). cbv zeta.
  fold score. destruct (Z.leb_spec d 0) as [Hd|Hd].
  - exists [], candidates. split; [done|]. split; [done|]. split; [lia|].
    intros x y Hx. by apply not_elem_of_nil in Hx.
  - rewrite eviction_sort by done. change (js_slice 0 d) with (js_slice 0 (0 + d) (A := EvictionCandidate)).
    rewrite js_slice_prefix by lia.
    set (l := js_sort (exact_cmp score) candidates). exists (take (Z.to_nat d) l), (drop (Z.to_nat d) l).
    split; [by rewrite take_drop; unfold l; rewrite js_sort_perm|]. split; [done|]. split.
    + unfold js_len. rewrite length_drop. unfold l. rewrite js_sort_length. unfold js_len in *. lia.
    + intros x y Hx Hy. eapply sorted_take_drop; [apply exact_sorted|done|done].
Qed.

(** *** Canonical scores *)
Lemma parse_float_canonical s : canonical (parse_float s).
Proof. unfold parse_float. repeat case_match; subst; solve [done | apply num_of_decimal_canonical]. Qed.
Lemma num_of_string_canonical s : canonical (num_of_string s).
Proof.
  unfold num_of_string, radix_literal.
  repeat case_match; subst; solve [done | apply num_of_decimal_canonical | apply num_of_Z_canonical].
Qed.
#[export] Hint Resolve parse_float_canonical num_of_string_canonical : canonical.
Lemma eviction_score_canonical math_exp now halfLife weights c :
  canonical (evictionScore math_exp now halfLife weights c).
Proof. unfold evictionScore. case_match; auto with canonical. Qed.
Lemma composite_score_canonical math_exp similarity age importance weights halfLife :
  (∀ x, canonical (math_exp x)) → canonical similarity → canonical importance →
  canonical (w_similarity weights) → canonical (w_recency weights) → canonical (w_importance weights) →
  canonical (compositeScore math_exp similarity age importance weights halfLife).
Proof. intros He. unfold compositeScore, recencyDecay. auto 10 with canonical. Qed.

(** ** Properties of records and evictions *)

(** C23: a memory that is written reads back from a reply of the index as it was given: its id,
    content, tags, source, subject, date (none when empty), scope, the importance as its decimal
    text reads, the time of writing as both of its times and no access; one exception is a list of
    tags with an empty tag alone, which the text of the record cannot hold. *)
Theorem memory_record_roundtrip name id content vector options now w :
  0 ≤ now → ro_tags options ≠ [EmptyString] →
  buildMemoryRecord name id content vector options now = Ok w →
  map (parseMemoryItem name)
    (parseFtSearchResponse (search_reply 1 [{| fh_key := mw_key w; fh_fields := mw_fields w |}]))
  = [stored_item id content options now].
Proof.
  intros Hnow Htags Hw. rewrite search_reply_read; [|done|].
  - cbn [map]. f_equal. by eapply record_read.
  - constructor; [|constructor]. cbn [fh_fields]. revert Hw. unfold buildMemoryRecord.
    destruct (_ || _); [done|]. destruct (js_find _ _); [done|]. intros [= <-]. apply record_fields_NoDup.
Qed.

(** the memories chosen for eviction are as many as exceed [maxItems], and the ones with the
    lowest scores: each scores below every memory that is kept, or the same and was accessed no
    later. *)
Theorem evictions_lowest math_exp candidates maxItems now halfLife weights :
  let score := evictionScore math_exp now halfLife weights in
  Forall (λ c, is_finite (score c) = true ∧ good_number (ec_lastAccessedAt c)) candidates →
  ∃ evicted kept, candidates ≡ₚ evicted ++ kept
    ∧ selectEvictions math_exp candidates maxItems now halfLife weights = map ec_key evicted
    ∧ js_len kept = Z.min (js_len candidates) (Z.max 0 maxItems)
    ∧ ∀ x y, x ∈ evicted → y ∈ kept → earlier score x y.
Proof.
  intros score Hgood. apply select_evictions_split. eapply Forall_impl; [exact Hgood|].
  intros c [Hf Hl]. split; [|done]. split; [done|apply eviction_score_canonical].
Qed.

(** ** Witnesses *)
Definition sample_scope : MemoryScope :=
  {| sc_threadId := Some "t-1"; sc_agentId := None; sc_namespace := Some "team a" |}.
Definition sample_options : RememberOptions :=
  {| ro_scope := sample_scope; ro_importance := Some (parse_float "0.25"); ro_tags := ["x"; "y z"];
     ro_source := Some "chat"; ro_subject := None; ro_date := Some "2024-05-01"; ro_ttl := None |}.
Definition written (r : outcome string MemoryWrite) : MemoryWrite :=
  match r with Ok w => w | Throw _ => {| mw_key := EmptyString; mw_fields := [] |} end.
Definition sample_write : MemoryWrite :=
  written (buildMemoryRecord "m" "id-1" "likes tea" [num_of_Z 1; parse_float "-0.5"] sample_options 1714521600000).
Lemma memory_record_roundtrip_witness :
  buildMemoryRecord "m" "id-1" "likes tea" [num_of_Z 1; parse_float "-0.5"] sample_options 1714521600000
    = Ok sample_write
  ∧ map (parseMemoryItem "m")
      (parseFtSearchResponse (search_reply 1 [{| fh_key := mw_key sample_write; fh_fields := mw_fields sample_write |}]))
    = [stored_item "id-1" "likes tea" sample_options 1714521600000].
Proof.
  assert (Hw : buildMemoryRecord "m" "id-1" "likes tea" [num_of_Z 1; parse_float "-0.5"] sample_options 1714521600000
               = Ok sample_write) by (vm_compute; reflexivity).
  split; [exact Hw|].
  exact (memory_record_roundtrip "m" "id-1" "likes tea" _ sample_options 1714521600000 sample_write
           ltac:(done) ltac:(done) Hw).
Defined.

(** An exponential for the samples: [1 / (1 - x)] *)
Definition sample_exp (x : number) : number := num_div (num_of_Z 1) (num_sub (num_of_Z 1) x).
Definition sample_weights : RecallWeights :=
  {| w_similarity := parse_float "0.6"; w_recency := parse_float "0.25"; w_importance := parse_float "0.15" |}.
Definition sample_candidates : list EvictionCandidate :=
  [{| ec_key := "a"; ec_importance := parse_float "0.9"; ec_lastAccessedAt := num_of_Z 1000 |};
   {| ec_key := "b"; ec_importance := parse_float "0.1"; ec_lastAccessedAt := num_of_Z 2000 |};
   {| ec_key := "c"; ec_importance := parse_float "0.1"; ec_lastAccessedAt := num_of_Z 900000 |}].
Lemma evictions_lowest_witness :
  let score := evictionScore sample_exp 1000000 (num_of_Z 604800) sample_weights in
  selectEvictions sample_exp sample_candidates 1 1000000 (num_of_Z 604800) sample_weights = ["b"; "c"]
  ∧ ∃ evicted kept, sample_candidates ≡ₚ evicted ++ kept
    ∧ selectEvictions sample_exp sample_candidates 1 1000000 (num_of_Z 604800) sample_weights
      = map ec_key evicted
    ∧ js_len kept = Z.min (js_len sample_candidates) (Z.max 0 1)
    ∧ ∀ x y, x ∈ evicted → y ∈ kept → earlier score x y.
Proof.
  split; [vm_compute; reflexivity|].
  apply (evictions_lowest sample_exp sample_candidates 1 1000000 (num_of_Z 604800) sample_weights).
  repeat (apply Forall_cons_2; [split; [vm_compute; reflexivity|split; [vm_compute; reflexivity|apply num_of_Z_canonical]]|]).
  apply Forall_nil_2.
Defined.
