(* ===== verification/FactReconciliation.v ===== *)
(** * Reconciling facts

    [packages/agent-memory/src/reconcileFacts.ts]: a batch of facts an extractor returns is folded
    into the facts stored for a scope, by subject; a newer dated statement supersedes an older one
    and a tombstone retracts its subject.  The specification follows one subject at a time.
    [String.prototype.toLowerCase] is a parameter. *)
From S2P Require Export MemoryRecords.
From stdpp Require Import options.

(** ** Definitions *)
Record Fact := {
  fa_subject : string; fa_statement : string; fa_date : option string; fa_tombstone : bool
}.
Inductive FactOp :=
  | F_add (fact : Fact)
  | F_update (subject : string) (fact : Fact)
  | F_delete (subject : string)
  | F_noop (subject : string)
  | F_unmatched_tombstone (subject : string).

(** An empty date counts as none. *)
Definition factDate (fact : Fact) : option string := nonempty (fa_date fact).
Definition factContent (fact : Fact) : string :=
  match factDate fact with
  | Some date => "[" +:+ date +:+ "] " +:+ fa_statement fact
  | None => fa_statement fact
  end.
Definition storedFactToFact (item : MemoryItem) : Fact :=
  let subject := default EmptyString (mi_subject item) in
  match nonempty (mi_date item) with
  | None => {| fa_subject := subject; fa_statement := mi_content item; fa_date := None;
               fa_tombstone := false |}
  | Some date =>
      let prefix := "[" +:+ date +:+ "] " in
      {| fa_subject := subject;
         fa_statement := if starts_with prefix (mi_content item)
                         then str_drop (String.length prefix) (mi_content item) else mi_content item;
         fa_date := Some date; fa_tombstone := false |}
  end.

(** [candidateDate >= (factDate(prior) ?? '')] *)
Definition isNewer (candidate prior : Fact) : bool :=
  match factDate candidate with
  | None => true
  | Some d => negb (str_ltb d (default EmptyString (factDate prior)))
  end.
Definition isStaleTombstone (tombstone prior : Fact) : bool :=
  match factDate tombstone, factDate prior with
  | Some d, Some p => str_ltb d p
  | _, _ => false
  end.
(** A restatement that carries a strictly newer date *)
Definition redated (fact prior : Fact) : bool :=
  str_ltb (default EmptyString (factDate prior)) (default EmptyString (factDate fact)).

Section reconcile.
Context (toLowerCase : string → string).
Definition subjectKey (subject : string) : string := toLowerCase (trim subject).

(** The first fact of a subject is its canonical one. *)
Definition by_subject (existing : list Fact) : list (string * Fact) :=
  foldl (λ m fact, let key := subjectKey (fa_subject fact) in if jm_has key m then m else jm_set key fact m)
    [] existing.
Fixpoint reconcile_loop (incoming : list Fact) (bySubject : list (string * Fact)) : list FactOp :=
  match incoming with
  | [] => []
  | fact :: incoming =>
      let key := subjectKey (fa_subject fact) in
      let noop := F_noop (fa_subject fact) :: reconcile_loop incoming bySubject in
      let update := F_update (fa_subject fact) fact :: reconcile_loop incoming (jm_set key fact bySubject) in
      match jm_get key bySubject with
      | None =>
          if fa_tombstone fact
          then F_unmatched_tombstone (fa_subject fact) :: reconcile_loop incoming bySubject
          else F_add fact :: reconcile_loop incoming (jm_set key fact bySubject)
      | Some prior =>
          if fa_tombstone fact then
            if isStaleTombstone fact prior then noop
            else F_delete (fa_subject fact) :: reconcile_loop incoming (jm_delete key bySubject)
          else if str_eqb (fa_statement prior) (fa_statement fact) then
            if redated fact prior then update else noop
          else if isNewer fact prior then update else noop
      end
  end.
Definition reconcile (incoming existing : list Fact) : list FactOp :=
  reconcile_loop incoming (by_subject existing).
Definition apply_op (bySubject : list (string * Fact)) (op : FactOp) : list (string * Fact) :=
  match op with
  | F_add fact => jm_set (subjectKey (fa_subject fact)) fact bySubject
  | F_update subject fact => jm_set (subjectKey subject) fact bySubject
  | F_delete subject => jm_delete (subjectKey subject) bySubject
  | F_noop _ | F_unmatched_tombstone _ => bySubject
  end.
Definition applyOps (existing : list Fact) (ops : list FactOp) : list Fact :=
  jm_values (foldl apply_op (by_subject existing) ops).

(** ** Specification *)

(** One fact of a subject against the fact that stands *)
Definition settle_fact (prior : option Fact) (fact : Fact) : option Fact :=
  match prior with
  | None => if fa_tombstone fact then None else Some fact
  | Some p =>
      if fa_tombstone fact then (if isStaleTombstone fact p then Some p else None)
      else if str_eqb (fa_statement p) (fa_statement fact)
      then (if redated fact p then Some fact else Some p)
      else if isNewer fact p then Some fact else Some p
  end.
Definition of_subject (key : string) (f : Fact) : bool := str_eqb (subjectKey (fa_subject f)) key.
(** What stands for a subject after a batch *)
Definition settle_subject (key : string) (incoming existing : list Fact) : option Fact :=
  foldl settle_fact (js_find (of_subject key) existing) (js_filter (of_subject key) incoming).
(** The facts of a list whose subjects are pairwise different, as a function of the subject *)
Definition curated (l : list Fact) (standing : string → option Fact) : Prop :=
  NoDup (map (λ f, subjectKey (fa_subject f)) l)
  ∧ ∀ key, js_find (of_subject key) l = standing key.
(** The operation for one fact *)
Definition step_op (fact : Fact) (bySubject : list (string * Fact)) : FactOp :=
  match jm_get (subjectKey (fa_subject fact)) bySubject with
  | None => if fa_tombstone fact then F_unmatched_tombstone (fa_subject fact) else F_add fact
  | Some prior =>
      if fa_tombstone fact then
        if isStaleTombstone fact prior then F_noop (fa_subject fact) else F_delete (fa_subject fact)
      else if str_eqb (fa_statement prior) (fa_statement fact) then
        if redated fact prior then F_update (fa_subject fact) fact else F_noop (fa_subject fact)
      else if isNewer fact prior then F_update (fa_subject fact) fact else F_noop (fa_subject fact)
  end.

(** ** Lemmas *)
Definition fact_key (f : Fact) : string := subjectKey (fa_subject f).

Lemma reconcile_cons fact incoming m :
  reconcile_loop (fact :: incoming) m
  = step_op fact m :: reconcile_loop incoming (apply_op m (step_op fact m)).
Proof.
  cbn [reconcile_loop]. unfold step_op. destruct (jm_get _ m) as [prior|]; [|by destruct (fa_tombstone fact)].
  destruct (fa_tombstone fact); [by destruct (isStaleTombstone fact prior)|].
  destruct (str_eqb _ _); [by destruct (redated fact prior)|by destruct (isNewer fact prior)].
Qed.
Lemma of_subject_key key f : of_subject key f = bool_decide (fact_key f = key).
Proof. done. Qed.
Lemma step_refines fact m key :
  keyed fact_key m →
  keyed fact_key (apply_op m (step_op fact m))
  ∧ jm_get key (apply_op m (step_op fact m))
    = if of_subject key fact then settle_fact (jm_get key m) fact else jm_get key m.
Proof.
  intros Hm.
  assert (Hset : keyed fact_key (jm_set (fact_key fact) fact m)) by (by apply keyed_set).
  assert (Hdel : keyed fact_key (jm_delete (fact_key fact) m)) by (by apply keyed_delete).
  assert (Hget : jm_get key (jm_set (fact_key fact) fact m)
                 = if of_subject key fact then Some fact else jm_get key m).
  { rewrite jm_get_set, of_subject_key. destruct (decide (key = fact_key fact)) as [->|Hne].
    - by rewrite bool_decide_eq_true_2.
    - by rewrite bool_decide_eq_false_2 by congruence. }
  assert (Hgd : jm_get key (jm_delete (fact_key fact) m)
                = if of_subject key fact then None else jm_get key m).
  { rewrite jm_get_delete, of_subject_key. destruct (decide (key = fact_key fact)) as [->|Hne].
    - by rewrite bool_decide_eq_true_2.
    - by rewrite bool_decide_eq_false_2 by congruence. }
  assert (Hk : of_subject key fact = true → jm_get (fact_key fact) m = jm_get key m).
  { rewrite of_subject_key. by intros ->%bool_decide_eq_true. }
  unfold step_op. fold (fact_key fact). destruct (of_subject key fact).
  - rewrite (Hk eq_refl). unfold settle_fact. destruct (jm_get key m) as [prior|] eqn:Hgm.
    + destruct (fa_tombstone fact); [by destruct (isStaleTombstone fact prior)|].
      by destruct (str_eqb _ _); [destruct (redated fact prior)|destruct (isNewer fact prior)].
    + by destruct (fa_tombstone fact).
  - destruct (jm_get (fact_key fact) m) as [prior|].
    + destruct (fa_tombstone fact); [by destruct (isStaleTombstone fact prior)|].
      by destruct (str_eqb _ _); [destruct (redated fact prior)|destruct (isNewer fact prior)].
    + by destruct (fa_tombstone fact).
Qed.
Lemma loop_refines incoming : ∀ m,
  keyed fact_key m →
  keyed fact_key (foldl apply_op m (reconcile_loop incoming m))
  ∧ ∀ key, jm_get key (foldl apply_op m (reconcile_loop incoming m))
           = foldl settle_fact (jm_get key m) (js_filter (of_subject key) incoming).
Proof.
  induction incoming as [|fact incoming IH]; intros m Hm; [done|].
  rewrite reconcile_cons. cbn [foldl]. set (m1 := apply_op m (step_op fact m)).
  assert (Hm1 : keyed fact_key m1) by exact (proj1 (step_refines fact m EmptyString Hm)).
  destruct (IH m1 Hm1) as [Hk Hg]. split; [done|]. intros key. rewrite Hg.
  destruct (step_refines fact m key Hm) as [_ Hs]. fold m1 in Hs. rewrite Hs. cbn [js_filter].
  by destruct (of_subject key fact).
Qed.
Lemma by_subject_from existing : ∀ m,
  keyed fact_key m →
  let m' := foldl (λ m fact, let key := subjectKey (fa_subject fact) in
                     if jm_has key m then m else jm_set key fact m) m existing in
  keyed fact_key m'
  ∧ ∀ key, jm_get key m' = match jm_get key m with Some f => Some f | None => js_find (of_subject key) existing end.
Proof.
  induction existing as [|fact existing IH]; intros m Hm; cbn [foldl].
  { split; [done|]. intros key. by destruct (jm_get key m). }
  fold (fact_key fact). unfold jm_has. destruct (jm_get (fact_key fact) m) as [f|] eqn:Hg.
  - destruct (IH m Hm) as [Hk Hget]. split; [done|]. intros key. rewrite Hget. cbn [js_find].
    destruct (jm_get key m) eqn:Hgk; [done|]. rewrite of_subject_key, bool_decide_eq_false_2; [done|].
    intros <-. congruence.
  - destruct (IH (jm_set (fact_key fact) fact m)) as [Hk Hget]; [by apply keyed_set|].
    split; [done|]. intros key. rewrite Hget, jm_get_set. cbn [js_find]. rewrite of_subject_key.
    destruct (decide (key = fact_key fact)) as [->|Hne].
    + by rewrite Hg, bool_decide_eq_true_2.
    + by rewrite bool_decide_eq_false_2 by congruence.
Qed.
Lemma by_subject_spec existing :
  keyed fact_key (by_subject existing)
  ∧ ∀ key, jm_get key (by_subject existing) = js_find (of_subject key) existing.
Proof. apply (by_subject_from existing []). apply keyed_nil. Qed.
(** The values of a keyed map, as a curated list *)
Lemma keyed_curated m : keyed fact_key m → curated (jm_values m) (λ key, jm_get key m).
Proof.
  intros [Hwf Hk]. unfold curated, jm_values. unfold jm_wf in Hwf.
  induction m as [|[k f] m IH]; [by split; [constructor|]|]. cbn in *. apply NoDup_cons in Hwf as [Hnot Hwf].
  assert (Hf : fact_key f = k) by (apply Hk; by left).
  destruct IH as [IH1 IH2]; [done|intros k' v Hin; apply Hk; by right|].
  assert (Hkeys : map (λ f, subjectKey (fa_subject f)) m.*2 = m.*1).
  { clear -Hk. induction m as [|[k' v] m IHm]; [done|]. cbn.
    rewrite IHm by (intros; apply Hk; set_solver). f_equal. apply Hk. right. by left. }
  split.
  - constructor; [|done]. rewrite Hkeys. change (subjectKey (fa_subject f)) with (fact_key f). by rewrite Hf.
  - intros key. rewrite of_subject_key, Hf. destruct (decide (key = k)) as [->|Hne].
    + by rewrite bool_decide_eq_true_2.
    + rewrite bool_decide_eq_false_2 by congruence. apply IH2.
Qed.
Lemma reconcile_curates incoming existing :
  curated (applyOps existing (reconcile incoming existing))
    (λ key, settle_subject key incoming existing).
Proof.
  destruct (by_subject_spec existing) as [Hk Hg].
  destruct (loop_refines incoming _ Hk) as [Hk' Hg']. destruct (keyed_curated _ Hk') as [H1 H2].
  split; [exact H1|]. intros key. unfold applyOps, reconcile. rewrite H2, Hg'.
  unfold settle_subject. by rewrite Hg.
Qed.
Lemma reconcile_length incoming m : length (reconcile_loop incoming m) = length incoming.
Proof. revert m. induction incoming as [|f inc IH]; intros m; [done|]. rewrite reconcile_cons. cbn. by rewrite IH. Qed.
End reconcile.

(** *** Dates *)
Definition date_units (f : Fact) : list N := utf16 (default EmptyString (factDate f)).
Definition date_le (a b : Fact) : Prop := units_cmp (date_units a) (date_units b) ≤ 0.
(** Two facts that say the same of their subject *)
Definition same_claim (a b : option Fact) : Prop :=
  match a, b with
  | None, None => True
  | Some f, Some g => fa_statement f = fa_statement g ∧ date_units f = date_units g
  | _, _ => False
  end.
Definition dated (f : Fact) : Prop := fa_tombstone f = false → factDate f ≠ None.
(** A tombstone without a date retracts whatever stands; other facts prevail over what is not
    later. *)
Definition final_tombstone (f : Fact) : bool :=
  fa_tombstone f && match factDate f with None => true | Some _ => false end.
Definition prevails (f : Fact) (s : option Fact) : Prop :=
  match s with None => True | Some p => final_tombstone f = true ∨ date_le p f end.

#[export] Instance same_claim_equiv : Equivalence same_claim.
Proof.
  split.
  - intros [f|]; by split.
  - intros [f|] [g|]; cbn; try done. by intros [-> ->].
  - intros [f|] [g|] [h|]; cbn; try done. by intros [-> ->].
Qed.
Lemma date_le_refl a : date_le a a.
Proof. unfold date_le. by rewrite units_cmp_refl. Qed.
Lemma date_le_trans a b c : date_le a b → date_le b c → date_le a c.
Proof. apply units_cmp_trans. Qed.
Lemma date_le_total a b : date_le a b ∨ date_le b a.
Proof. unfold date_le. rewrite (units_cmp_swap (date_units a)). lia. Qed.
#[export] Instance date_le_dec a b : Decision (date_le a b) := Z_le_dec _ _.

Lemma date_ltb a b : str_ltb (default EmptyString (factDate a)) (default EmptyString (factDate b)) = negb (bool_decide (date_le b a)).
Proof.
  unfold str_ltb. fold (date_units a) (date_units b). unfold date_le.
  rewrite (units_cmp_swap (date_units b)). case_bool_decide; cbn; [apply Z.ltb_ge|apply Z.ltb_lt]; lia.
Qed.
Lemma date_le_antisym a b : date_le a b → date_le b a → date_units a = date_units b.
Proof.
  unfold date_le. rewrite (units_cmp_swap (date_units a)). intros H1 H2. apply units_cmp_eq. lia.
Qed.
Lemma undated_first a b : factDate a = None → date_le a b.
Proof. unfold date_le, date_units. intros ->. change (utf16 (default EmptyString None)) with (@nil N). by destruct (utf16 _). Qed.
Lemma stale_tombstone f p : final_tombstone f = false → fa_tombstone f = true →
  isStaleTombstone f p = negb (bool_decide (date_le p f)).
Proof.
  unfold final_tombstone, isStaleTombstone. intros Hf Ht. rewrite Ht in Hf. cbn in Hf.
  destruct (factDate f) as [d|] eqn:Hd; [|done]. destruct (factDate p) as [e|] eqn:He.
  - rewrite <- date_ltb. by rewrite Hd, He.
  - by rewrite bool_decide_eq_true_2 by by apply undated_first.
Qed.

#[export] Instance prevails_dec f s : Decision (prevails f s).
Proof. destruct s as [p|]; cbn; apply _. Defined.
(** What a fact leaves where it prevails *)
Definition outcome_of (f : Fact) : option Fact := if fa_tombstone f then None else Some f.
Lemma settle_fact_prevails s f : dated f →
  same_claim (settle_fact s f) (if decide (prevails f s) then outcome_of f else s).
Proof.
  intros Hd. unfold outcome_of. destruct s as [p|]; cbn [settle_fact].
  2:{ rewrite decide_True by done. by destruct (fa_tombstone f). }
  destruct (fa_tombstone f) eqn:Ht.
  - destruct (final_tombstone f) eqn:Hfin.
    + rewrite decide_True by by left. unfold isStaleTombstone, final_tombstone in *. rewrite Ht in Hfin.
      by destruct (factDate f).
    + rewrite (stale_tombstone f p Hfin Ht).
      case_bool_decide as Hle; cbn [negb]; [by rewrite decide_True by by right|].
      rewrite decide_False; [done|]. intros [H|H]; [congruence|done].
  - assert (Hfin : final_tombstone f = false) by (unfold final_tombstone; by rewrite Ht).
    assert (Hpre : prevails f (Some p) ↔ date_le p f) by (cbn; rewrite Hfin; naive_solver).
    destruct (str_eqb _ _) eqn:Hst.
    + apply bool_decide_eq_true in Hst. unfold redated. rewrite date_ltb.
      destruct (decide (prevails f (Some p))) as [Hp|Hp]; rewrite Hpre in Hp.
      * case_bool_decide as Hfp; cbn; [|done]. split; [done|by apply date_le_antisym].
      * rewrite bool_decide_eq_true_2; [done|]. destruct (date_le_total p f); naive_solver.
    + assert (Hnew : isNewer f p = bool_decide (date_le p f)).
      { unfold isNewer. destruct (factDate f) as [d|] eqn:Hfd; [|by destruct (Hd Ht)].
        change d with (default EmptyString (Some d)). rewrite <- Hfd, date_ltb. apply negb_involutive. }
      rewrite Hnew. destruct (decide (prevails f (Some p))) as [Hp|Hp]; rewrite Hpre in Hp;
        [by rewrite bool_decide_eq_true_2|by rewrite bool_decide_eq_false_2].
Qed.

(** Facts that say the same are settled alike. *)
Lemma prevails_same f s t : same_claim s t → prevails f s → prevails f t.
Proof. destruct s as [p|], t as [q|]; try done. cbn. unfold date_le. by intros [_ ->]. Qed.
#[export] Instance prevails_proper f : Proper (same_claim ==> iff) (prevails f).
Proof. intros s t H. split; apply prevails_same; [done|by symmetry]. Qed.
Lemma settle_fact_same f s t : dated f → same_claim s t → same_claim (settle_fact s f) (settle_fact t f).
Proof.
  intros Hd Hst. rewrite (settle_fact_prevails s f Hd), (settle_fact_prevails t f Hd).
  destruct (decide (prevails f s)) as [Hp|Hp], (decide (prevails f t)) as [Hq|Hq]; try done;
    rewrite Hst in Hp; contradiction.
Qed.
Lemma settle_all_same F : Forall dated F → ∀ s t, same_claim s t →
  same_claim (foldl settle_fact s F) (foldl settle_fact t F).
Proof. induction 1 as [|f F Hf HF IH]; intros s t Hst; [done|]. apply IH. by apply settle_fact_same. Qed.

(** *** The latest fact of a batch *)
Definition dominates (e f : Fact) : Prop := final_tombstone e = true ∨ final_tombstone f = false ∧ date_le f e.
Lemma latest_fact F : F ≠ [] → ∃ e, e ∈ F ∧ Forall (dominates e) F.
Proof.
  induction F as [|f F IH]; [done|]. intros _. destruct (decide (F = [])) as [->|HF].
  { exists f. split; [by left|]. constructor; [|done]. unfold dominates.
    destruct (final_tombstone f); [by left|right; split; [done|apply date_le_refl]]. }
  destruct (IH HF) as (e & He & Hall). destruct (final_tombstone f) eqn:Hf.
  { exists f. split; [by left|]. apply Forall_forall. intros g _. by left. }
  destruct (final_tombstone e) eqn:Hfe.
  { exists e. split; [by right|]. apply Forall_forall. intros g _. by left. }
  destruct (decide (date_le f e)) as [Hle|Hle].
  { exists e. split; [by right|]. constructor; [by right|done]. }
  assert (Hef : date_le e f) by (by destruct (date_le_total e f)).
  exists f. split; [by left|]. constructor; [right; split; [done|apply date_le_refl]|].
  eapply Forall_impl; [exact Hall|]. intros g [Hg|[Hg Hge]]; [congruence|].
  right. split; [done|by eapply date_le_trans].
Qed.
(** What the latest fact prevails over stays so. *)
Lemma prevails_kept e F : Forall dated F → Forall (dominates e) F → ∀ s,
  prevails e s → prevails e (foldl settle_fact s F).
Proof.
  induction F as [|f F IH]; intros Hd Hall s Hs; [done|].
  apply Forall_cons in Hd as [Hdf Hd], Hall as [Hef Hall]. cbn [foldl]. apply (IH Hd Hall).
  rewrite (settle_fact_prevails s f Hdf). case_decide as Hp; [|done]. unfold outcome_of.
  destruct (fa_tombstone f); [done|]. destruct Hef as [He|[_ Hle]]; [by left|by right].
Qed.
Lemma latest_decides e F : Forall dated F → Forall (dominates e) F → e ∈ F → ∀ s t,
  prevails e s → prevails e t →
  same_claim (foldl settle_fact s F) (foldl settle_fact t F).
Proof.
  intros Hd Hall Hin s t Hs Ht. apply list_elem_of_split in Hin as (A & B & ->).
  apply Forall_app in Hd as [HdA HdB], Hall as [HaA HaB]. apply Forall_cons in HdB as [Hde HdB].
  rewrite !foldl_app. cbn [foldl]. apply settle_all_same; [done|].
  rewrite !settle_fact_prevails by done.
  by rewrite !decide_True by by apply prevails_kept.
Qed.
Lemma nothing_prevails F : Forall dated F → ∀ s, Forall (λ f, ¬ prevails f s) F →
  same_claim (foldl settle_fact s F) s.
Proof.
  induction F as [|f F IH]; intros Hd s Hall; [done|].
  apply Forall_cons in Hd as [Hdf Hd], Hall as [Hf Hall]. cbn [foldl].
  rewrite (settle_all_same F Hd _ s); [by apply IH|].
  rewrite (settle_fact_prevails s f Hdf). by rewrite decide_False.
Qed.
Lemma settle_again F s : Forall dated F →
  same_claim (foldl settle_fact (foldl settle_fact s F) F) (foldl settle_fact s F).
Proof.
  intros Hd. destruct (decide (F = [])) as [->|HF]; [done|].
  destruct (latest_fact F HF) as (e & Hin & Hall).
  destruct (decide (prevails e s)) as [Hp|Hp].
  { apply (latest_decides e); try done. by apply prevails_kept. }
  assert (Hnone : same_claim (foldl settle_fact s F) s).
  { apply nothing_prevails; [done|]. eapply Forall_impl; [exact Hall|].
    intros f Hef Hf. apply Hp. destruct s as [p|]; [|done]. cbn in *.
    destruct Hef as [He|[Hff Hle]]; [by left|]. destruct Hf as [Hf|Hf]; [congruence|].
    right. by eapply date_le_trans. }
  by apply settle_all_same.
Qed.

(** ** Properties *)

(** C24: the operations [reconcile] returns, one for each incoming fact and in their order, turn the
    stored facts into a set with one fact for each subject (whatever its case and surrounding
    blanks): what stands for a subject is what follows from the first stored fact of that subject
    when the incoming facts of that subject alone are taken in order, and facts of other subjects
    never matter. *)
Theorem reconcile_refines toLowerCase incoming existing :
  let ops := reconcile toLowerCase incoming existing in
  length ops = length incoming
  ∧ curated toLowerCase (applyOps toLowerCase existing ops)
      (λ key, settle_subject toLowerCase key incoming existing).
Proof. split; [apply reconcile_length|apply reconcile_curates]. Qed.

(** a batch whose assertions all carry a date can be run again: over what its first run leaves,
    the second run leaves for every subject the same statement with the same date, or nothing where
    the first left nothing. *)
Theorem rerun_changes_nothing toLowerCase incoming existing key :
  Forall dated incoming →
  let once := applyOps toLowerCase existing (reconcile toLowerCase incoming existing) in
  let twice := applyOps toLowerCase once (reconcile toLowerCase incoming once) in
  same_claim (js_find (of_subject toLowerCase key) twice) (js_find (of_subject toLowerCase key) once).
Proof.
  intros Hd. cbn zeta. set (once := applyOps _ existing _).
  destruct (reconcile_curates toLowerCase incoming once) as [_ ->].
  assert (Hfirst := reconcile_curates toLowerCase incoming existing). fold once in Hfirst.
  destruct Hfirst as [_ Hfirst]. unfold settle_subject. rewrite Hfirst. unfold settle_subject.
  apply settle_again. by apply js_filter_Forall.
Qed.

(** ** Witnesses *)
Definition fact_of (subject statement date : string) (tombstone : bool) : Fact :=
  {| fa_subject := subject; fa_statement := statement; fa_date := Some date;
     fa_tombstone := tombstone |}.
Definition sample_batch : list Fact :=
  [fact_of "theme" "dark" "2024-05-01" false; fact_of "Theme " "light" "2024-06-01" false;
   fact_of "city" "Oslo" "2024-01-01" false; fact_of "city" "gone" "2024-02-01" true;
   fact_of "city" "Rome" "2024-03-01" false; fact_of "name" "none" "" true].
Definition sample_facts : list Fact := [fact_of "City" "Bern" "2023-01-01" false; fact_of "theme" "blue" "2024-05-15" false].

Example sample_ops : reconcile to_lower sample_batch sample_facts =
  [F_noop "theme"; F_update "Theme " (fact_of "Theme " "light" "2024-06-01" false);
   F_update "city" (fact_of "city" "Oslo" "2024-01-01" false); F_delete "city";
   F_add (fact_of "city" "Rome" "2024-03-01" false); F_unmatched_tombstone "name"].
Proof. by vm_compute. Qed.

Lemma rerun_changes_nothing_witness :
  Forall dated sample_batch
  ∧ let once := applyOps to_lower sample_facts (reconcile to_lower sample_batch sample_facts) in
    let twice := applyOps to_lower once (reconcile to_lower sample_batch once) in
    same_claim (js_find (of_subject to_lower "city") twice) (js_find (of_subject to_lower "city") once).
Proof.
  assert (Hd : Forall dated sample_batch) by (repeat (apply Forall_cons_2; [done|]); apply Forall_nil_2).
  split; [exact Hd|]. exact (rerun_changes_nothing to_lower sample_batch sample_facts "city" Hd).
Defined.

(** An assertion without a date is the latest whenever it comes: between two runs of the same
    batch the fact that stands changes. *)
Example undated_rerun_changes :
  let batch := [fact_of "s" "y" "2020-01-01" false; fact_of "s" "y" EmptyString false] in
  let once := applyOps to_lower [fact_of "s" "z" "2025-01-01" false]
                (reconcile to_lower batch [fact_of "s" "z" "2025-01-01" false]) in
  map factContent once = ["y"] ∧ map factContent (applyOps to_lower once (reconcile to_lower batch once)) = ["[2020-01-01] y"].
Proof. by vm_compute. Qed.
