(* ===== verification/MemoryStore.v ===== *)
(** * The memory store

    [packages/agent-memory/src/MemoryStore.ts]: the configuration and its refresh, reading,
    recalling, writing, forgetting, consolidating and evicting memories.  The Valkey client, the
    embedding function, the random ids and the clock are the interface [MemoryEnv]; the functions a
    caller passes to [consolidate] are arguments.  Tracing and product analytics are left out; the
    metrics are kept as the log of their increments. *)
From S2P Require Export FactReconciliation Hoare.
From stdpp Require Import options.

(** ** Definitions *)
Definition DEFAULT_THRESHOLD : number := parse_float "0.33".
Definition RECALL_NEAR_MISS_FACTOR : Z := 2.
Definition DEFAULT_WEIGHTS : RecallWeights :=
  {| w_similarity := parse_float "0.6"; w_recency := parse_float "0.25";
     w_importance := parse_float "0.15" |}.
Definition DEFAULT_HALF_LIFE_SECONDS : Z := 604800.
Definition DEFAULT_RECALL_K : Z := 8.
Definition RECALL_OVERFETCH : Z := 4.
Definition FORGET_BATCH_SIZE : Z := 500.
Definition FORGET_MAX_BATCHES : Z := 10000.
Definition EVICTION_SCAN_LIMIT : Z := 10000.
Definition CONSOLIDATE_SCAN_LIMIT : Z := 10000.
Definition DEFAULT_SUMMARY_IMPORTANCE : number := parse_float "0.7".
Definition SUMMARY_SOURCE : string := "summary".
Definition FACT_SOURCE : string := "fact".
Definition DEFAULT_FACT_IMPORTANCE : number := parse_float "0.7".
Definition MAX_DISTANCE : Z := 2.
Definition DEFAULT_LIST_LIMIT : Z := 20.

(** *** State *)
Record MemoryConfigSnapshot := {
  cg_threshold : number; cg_weights : RecallWeights; cg_halfLifeSeconds : number;
  cg_maxItemsPerScope : option Z
}.
Record SessionCounts := {
  sn_remembered : Z; sn_recalled : Z; sn_recallHits : Z; sn_forgotten : Z; sn_consolidated : Z;
  sn_evicted : Z
}.
Record MemoryStoreOptions := {
  mo_name : string; mo_defaultThreshold : option number; mo_weights : option RecallWeights;
  mo_halfLifeSeconds : option number; mo_maxItemsPerScope : option Z;
  mo_factSource : option string; mo_factImportance : option number
}.
(** [me_call]: a command with its arguments, buffers as their bytes *)
Class MemoryEnv (W : Type) := {
  me_call : list string → M W string reply;
  me_embed : option (string → M W string (list number));
  me_uuid : M W string string;
  me_now : W → Z
}.
Record MemoryStore (W : Type) := {
  st_world : W; st_name : string; st_config : MemoryConfigSnapshot; st_initial : MemoryConfigSnapshot;
  st_dims : option Z; st_sessionCounts : SessionCounts; st_nearMissWarned : bool;
  st_factSource : string; st_defaultFactImportance : number; st_metrics : list (string * Z)
}.
Arguments st_world {W} _. Arguments st_name {W} _. Arguments st_config {W} _.
Arguments st_initial {W} _. Arguments st_dims {W} _. Arguments st_sessionCounts {W} _.
Arguments st_nearMissWarned {W} _. Arguments st_factSource {W} _.
Arguments st_defaultFactImportance {W} _. Arguments st_metrics {W} _.

Definition initial_config (options : MemoryStoreOptions) : MemoryConfigSnapshot :=
  {| cg_threshold := default DEFAULT_THRESHOLD (mo_defaultThreshold options);
     cg_weights := default DEFAULT_WEIGHTS (mo_weights options);
     cg_halfLifeSeconds := default (num_of_Z DEFAULT_HALF_LIFE_SECONDS) (mo_halfLifeSeconds options);
     cg_maxItemsPerScope := mo_maxItemsPerScope options |}.
Definition new_memory_store {W} (w : W) (options : MemoryStoreOptions) : MemoryStore W :=
  {| st_world := w; st_name := mo_name options; st_config := initial_config options;
     st_initial := initial_config options; st_dims := None;
     st_sessionCounts := {| sn_remembered := 0; sn_recalled := 0; sn_recallHits := 0;
                            sn_forgotten := 0; sn_consolidated := 0; sn_evicted := 0 |};
     st_nearMissWarned := false; st_factSource := default FACT_SOURCE (mo_factSource options);
     st_defaultFactImportance := default DEFAULT_FACT_IMPORTANCE (mo_factImportance options);
     st_metrics := [] |}.

(** *** Replies *)
Definition ftSearchTotal (raw : reply) : Z :=
  match raw with R_arr (count :: _) => Z.max 0 (default 0 (total_of count)) | _ => 0 end.
Definition parseHashReply (raw : reply) : list (string * string) :=
  match raw with
  | R_arr l => field_pairs l []
  | R_obj fields => foldl (λ out '(field, value), jm_set field (string_of_reply value) out) [] fields
  | _ => []
  end.

(** *** Configuration *)
Definition floor_of (x : number) : Z :=
  match x with S754_finite s m e => floor_Z s m e | _ => 0 end.
Definition at_least (x : number) (z : Z) : bool := num_leb (num_of_Z z) x.
Definition set_similarity (x : number) (w : RecallWeights) : RecallWeights :=
  {| w_similarity := x; w_recency := w_recency w; w_importance := w_importance w |}.
Definition set_recency (x : number) (w : RecallWeights) : RecallWeights :=
  {| w_similarity := w_similarity w; w_recency := x; w_importance := w_importance w |}.
Definition set_importance (x : number) (w : RecallWeights) : RecallWeights :=
  {| w_similarity := w_similarity w; w_recency := w_recency w; w_importance := x |}.
Definition with_threshold (x : number) (c : MemoryConfigSnapshot) : MemoryConfigSnapshot :=
  {| cg_threshold := x; cg_weights := cg_weights c; cg_halfLifeSeconds := cg_halfLifeSeconds c;
     cg_maxItemsPerScope := cg_maxItemsPerScope c |}.
Definition with_weights (w : RecallWeights) (c : MemoryConfigSnapshot) : MemoryConfigSnapshot :=
  {| cg_threshold := cg_threshold c; cg_weights := w; cg_halfLifeSeconds := cg_halfLifeSeconds c;
     cg_maxItemsPerScope := cg_maxItemsPerScope c |}.
Definition with_halfLife (x : number) (c : MemoryConfigSnapshot) : MemoryConfigSnapshot :=
  {| cg_threshold := cg_threshold c; cg_weights := cg_weights c; cg_halfLifeSeconds := x;
     cg_maxItemsPerScope := cg_maxItemsPerScope c |}.
Definition with_max (n : Z) (c : MemoryConfigSnapshot) : MemoryConfigSnapshot :=
  {| cg_threshold := cg_threshold c; cg_weights := cg_weights c;
     cg_halfLifeSeconds := cg_halfLifeSeconds c; cg_maxItemsPerScope := Some n |}.
Definition config_entry (c : MemoryConfigSnapshot) (entry : string * string) : MemoryConfigSnapshot :=
  let '(field, value) := entry in
  let num := num_of_string value in
  let w := cg_weights c in
  if negb (is_finite num) then c
  else if str_eqb field "recall.threshold" then
    if at_least num 0 && num_leb num (num_of_Z MAX_DISTANCE) then with_threshold num c else c
  else if str_eqb field "recall.weights.similarity" then
    if at_least num 0 then with_weights (set_similarity num w) c else c
  else if str_eqb field "recall.weights.recency" then
    if at_least num 0 then with_weights (set_recency num w) c else c
  else if str_eqb field "recall.weights.importance" then
    if at_least num 0 then with_weights (set_importance num w) c else c
  else if str_eqb field "recall.halfLifeSeconds" then
    if num_ltb (num_of_Z 0) num then with_halfLife num c else c
  else if str_eqb field "maxItemsPerScope" then
    if at_least num 1 then with_max (floor_of num) c else c
  else c.
Definition weight_fields : list string :=
  ["recall.weights.similarity"; "recall.weights.recency"; "recall.weights.importance"].
Definition weight_sum (w : RecallWeights) : number :=
  num_add (num_add (w_similarity w) (w_recency w)) (w_importance w).
Definition applyConfig (initial live : MemoryConfigSnapshot) (raw : list (string * string))
    : MemoryConfigSnapshot :=
  let weightFieldPresent := existsb (λ field, jm_has field raw) weight_fields in
  let start := with_weights (if weightFieldPresent then cg_weights live else cg_weights initial) initial in
  let next := foldl config_entry start raw in
  if num_ltb (num_of_Z 0) (weight_sum (cg_weights next)) then next
  else with_weights (cg_weights initial) next.

(** *** Options and results *)
Record MemoryListOptions := {
  lo_scope : MemoryScope; lo_tags : list string; lo_limit : option Z; lo_offset : option Z
}.
Record MemoryStats := { sa_itemCount : Z; sa_evictions : number; sa_config : MemoryConfigSnapshot }.
(** [rc_reinforce] is [options.reinforce !== false]. *)
Record RecallOptions := {
  rc_k : option Z; rc_threshold : option number; rc_scope : MemoryScope; rc_tags : list string;
  rc_weights : option RecallWeights; rc_reinforce : bool
}.
Record MemoryHit := { ht_item : MemoryItem; ht_similarity : number; ht_score : number }.
(** [cn_deleteSources] is [options.deleteSources !== false]. *)
Record ConsolidateOptions := {
  cn_scope : MemoryScope; cn_tags : list string; cn_olderThanSeconds : option number;
  cn_maxImportance : option number; cn_deleteSources : bool; cn_summaryImportance : option number
}.
Record ConsolidateResult := { cr_consolidated : Z; cr_created : list string; cr_deleted : option Z }.
Record ConsolidateFactsOptions := {
  co_scope : MemoryScope; co_tags : list string; co_olderThanSeconds : option number;
  co_maxImportance : option number; co_factImportance : option number
}.
Record ConsolidateFactsResult := {
  fr_candidates : Z; fr_facts : Z; fr_created : list string; fr_deleted : option Z;
  fr_unmatchedTombstones : list string
}.
Definition is_some {A} (o : option A) : bool := match o with Some _ => true | None => false end.
Definition scope_given (scope : MemoryScope) (tags : list string) : bool :=
  is_some (sc_threadId scope) || is_some (sc_agentId scope) || is_some (sc_namespace scope)
  || (0 <? js_len tags).
(** The time of an item, [NaN] where it is none *)
Definition time_of (t : option Z) : number := match t with Some z => num_of_Z z | None => nan end.
Definition opt_add (a b : option Z) : option Z := x ← a; y ← b; Some (x + y).
Definition positive (n : option Z) : bool := match n with Some z => 0 <? z | None => false end.

(** *** Operations *)
Section store.
Context {W : Type} `{!MemoryEnv W} (toLowerCase : string → string) (math_exp : number → number).
Abbreviation SM := (M (MemoryStore W) string).

Definition update_world (w : W) (st : MemoryStore W) : MemoryStore W :=
  {| st_world := w; st_name := st_name st; st_config := st_config st; st_initial := st_initial st;
     st_dims := st_dims st; st_sessionCounts := st_sessionCounts st;
     st_nearMissWarned := st_nearMissWarned st; st_factSource := st_factSource st;
     st_defaultFactImportance := st_defaultFactImportance st; st_metrics := st_metrics st |}.
Definition update_config (c : MemoryConfigSnapshot) (st : MemoryStore W) : MemoryStore W :=
  {| st_world := st_world st; st_name := st_name st; st_config := c; st_initial := st_initial st;
     st_dims := st_dims st; st_sessionCounts := st_sessionCounts st;
     st_nearMissWarned := st_nearMissWarned st; st_factSource := st_factSource st;
     st_defaultFactImportance := st_defaultFactImportance st; st_metrics := st_metrics st |}.
Definition update_dims (d : Z) (st : MemoryStore W) : MemoryStore W :=
  {| st_world := st_world st; st_name := st_name st; st_config := st_config st;
     st_initial := st_initial st; st_dims := Some d; st_sessionCounts := st_sessionCounts st;
     st_nearMissWarned := st_nearMissWarned st; st_factSource := st_factSource st;
     st_defaultFactImportance := st_defaultFactImportance st; st_metrics := st_metrics st |}.
Definition update_counts (f : SessionCounts → SessionCounts) (st : MemoryStore W) : MemoryStore W :=
  {| st_world := st_world st; st_name := st_name st; st_config := st_config st;
     st_initial := st_initial st; st_dims := st_dims st;
     st_sessionCounts := f (st_sessionCounts st); st_nearMissWarned := st_nearMissWarned st;
     st_factSource := st_factSource st; st_defaultFactImportance := st_defaultFactImportance st;
     st_metrics := st_metrics st |}.
Definition update_warned (st : MemoryStore W) : MemoryStore W :=
  {| st_world := st_world st; st_name := st_name st; st_config := st_config st;
     st_initial := st_initial st; st_dims := st_dims st; st_sessionCounts := st_sessionCounts st;
     st_nearMissWarned := true; st_factSource := st_factSource st;
     st_defaultFactImportance := st_defaultFactImportance st; st_metrics := st_metrics st |}.
Definition update_metrics (name : string) (n : Z) (st : MemoryStore W) : MemoryStore W :=
  {| st_world := st_world st; st_name := st_name st; st_config := st_config st;
     st_initial := st_initial st; st_dims := st_dims st; st_sessionCounts := st_sessionCounts st;
     st_nearMissWarned := st_nearMissWarned st; st_factSource := st_factSource st;
     st_defaultFactImportance := st_defaultFactImportance st;
     st_metrics := st_metrics st ++ [(name, n)] |}.
Definition count_with (remembered recalled recallHits forgotten consolidated evicted : Z)
    (c : SessionCounts) : SessionCounts :=
  {| sn_remembered := sn_remembered c + remembered; sn_recalled := sn_recalled c + recalled;
     sn_recallHits := sn_recallHits c + recallHits; sn_forgotten := sn_forgotten c + forgotten;
     sn_consolidated := sn_consolidated c + consolidated; sn_evicted := sn_evicted c + evicted |}.

Definition in_env {A} (m : M W string A) : SM A := λ st,
  let '(r, w) := m (st_world st) in (r, update_world w st).
Definition call (args : list string) : SM reply := in_env (me_call args).
(** A command and what its reply is read as *)
Definition call_as {A} (f : reply → A) (args : list string) : SM A :=
  call args ≫= λ raw : reply, mret (f raw).
Definition from_result {A} (r : outcome string A) : SM A := λ st, (r, st).
Definition metric (name : string) (n : Z) : SM unit := modify (update_metrics name n).
Definition now_ : SM Z := gets (λ st, me_now (st_world st)).
Definition ignore_errors {A} (m : SM A) : SM unit := try_catch (m;; mret tt) (λ _, mret tt).
Definition memory_key (name id : string) : string := name +:+ ":mem:" +:+ id.
Definition index_name (name : string) : string := name +:+ ":mem:idx".
Definition stats_key (name : string) : string := name +:+ ":__mem_stats".
Definition config_key (name : string) : string := name +:+ ":__mem_config".

Definition currentConfig : SM MemoryConfigSnapshot := gets st_config.
Definition get (id : string) : SM (option MemoryItem) :=
  gets st_name ≫= λ name : string,
  let key := memory_key name id in
  fields ← call_as parseHashReply ["HGETALL"; key];
  mret match fields with
       | [] => None
       | _ => Some (parseMemoryItem name {| fh_key := key; fh_fields := fields |})
       end.
Definition list_fields : list string :=
  ["content"; "importance"; "tags"; "created_at"; "last_accessed_at"; "access_count"; "source";
   "threadId"; "agentId"; "namespace"].
Definition list_memories (options : MemoryListOptions) : SM (list MemoryItem * Z) :=
  gets st_name ≫= λ name : string,
  raw ← call (["FT.SEARCH"; index_name name; buildScopeFilter (lo_scope options) (lo_tags options);
               "RETURN"; "10"] ++ list_fields
              ++ ["SORTBY"; "created_at"; "DESC"; "LIMIT"; string_of_Z (default 0 (lo_offset options));
                  string_of_Z (default DEFAULT_LIST_LIMIT (lo_limit options)); "DIALECT"; "2"]);
  mret (map (parseMemoryItem name) (parseFtSearchResponse raw), ftSearchTotal raw).
Definition stats : SM MemoryStats :=
  gets st_name ≫= λ name : string,
  infoRaw ← call ["FT.INFO"; memoryIndexName name];
  from_result match infoRaw with
              | R_arr l => Ok (fi_numDocs (parseFtInfoStats l))
              | R_null => Throw "TypeError: Cannot read properties of null (reading 'length')"
              | _ => Ok 0
              end ≫= λ numDocs : Z,
  statsFields ← call_as parseHashReply ["HGETALL"; stats_key name];
  let evictions := num_of_string (default "0" (jm_get "evictions" statsFields)) in
  currentConfig ≫= λ config : MemoryConfigSnapshot,
  mret {| sa_itemCount := numDocs; sa_evictions := if is_finite evictions then evictions else num_of_Z 0;
          sa_config := config |}.
Definition refreshConfig : SM unit :=
  ignore_errors
    (gets st_name ≫= λ name : string,
     raw ← call ["HGETALL"; config_key name];
     modify (λ st, update_config (applyConfig (st_initial st) (st_config st) (parseHashReply raw)) st)).

(** *** Embeddings and the index *)
Definition no_embed_message : string :=
  "MemoryStore was constructed without an embedFn; remember(), recall(), and ensureIndex() require one. Use get/list/stats/recallByVector for read-only access.".
Definition requireEmbedFn : SM (string → M W string (list number)) :=
  match me_embed with Some embedFn => mret embedFn | None => throw no_embed_message end.
Definition resolveDims : SM Z :=
  gets st_dims ≫= λ dims : option Z,
  match dims with
  | Some d => mret d
  | None =>
      requireEmbedFn ≫= λ embedFn,
      in_env (embedFn "probe") ≫= λ probe : list number,
      match probe with
      | [] => throw "Cannot resolve memory vector dimension: embedFn returned a zero-length embedding"
      | _ => modify (update_dims (js_len probe));; mret (js_len probe)
      end
  end.
Definition embed (content : string) : SM (list number) :=
  metric "embeddingCalls" 1;;
  requireEmbedFn ≫= λ embedFn,
  in_env (embedFn content) ≫= λ vector : list number,
  gets st_dims ≫= λ dims : option Z,
  match dims with
  | None => modify (update_dims (js_len vector));; mret vector
  | Some d =>
      if js_len vector =? d then mret vector
      else throw ("Embedding dimension mismatch: expected " +:+ string_of_Z d +:+ ", embedFn returned "
                  +:+ string_of_Z (js_len vector))
  end.
Definition ensureIndex : SM unit :=
  gets st_name ≫= λ name : string,
  try_catch (call ["FT.INFO"; memoryIndexName name];; mret true)
    (λ err, if isIndexNotFoundError err then mret false else throw err) ≫= λ found : bool,
  if found then mret tt
  else
    resolveDims ≫= λ dims : Z,
    from_result (buildMemoryIndexArgs name (num_of_Z dims)) ≫= λ args : list string,
    call ("FT.CREATE" :: args);; mret tt.

(** *** Recall *)
Definition hit_distance (hit : FtSearchHit) : option number :=
  rawScore ← jm_get SCORE_FIELD (fh_fields hit);
  if is_empty (trim rawScore) then None
  else let distance := num_of_string rawScore in
       if is_finite distance then Some distance else None.
Definition item_age (now : Z) (item : MemoryItem) : number :=
  let lastTouched := num_max (time_of (mi_createdAt item)) (time_of (mi_lastAccessedAt item)) in
  num_div (num_sub (num_of_Z now) lastTouched) (num_of_Z 1000).
(** A candidate within the threshold, with its score *)
Definition recall_hit (name : string) (now : Z) (threshold halfLifeSeconds : number)
    (weights : RecallWeights) (hit : FtSearchHit) : option MemoryHit :=
  distance ← hit_distance hit;
  if num_ltb threshold distance then None
  else
    let item := parseMemoryItem name hit in
    let score := compositeScore math_exp (similarityFromDistance distance) (item_age now item)
                   (mi_importance item) weights halfLifeSeconds in
    if is_finite score then Some {| ht_item := item; ht_similarity := distance; ht_score := score |}
    else None.
Definition nearest (hits : list FtSearchHit) : number :=
  foldl (λ near hit, match hit_distance hit with
                     | Some distance => if num_ltb distance near then distance else near
                     | None => near
                     end) (S754_infinity false) hits.
Definition near_miss (threshold near : number) : bool :=
  is_finite near && num_ltb threshold near
  && num_leb near (num_mul threshold (num_of_Z RECALL_NEAR_MISS_FACTOR)).
Definition rank_hits (k : Z) (hits : list MemoryHit) : list MemoryHit :=
  js_slice 0 k (js_sort (by_num_desc ht_score) hits).
Definition reinforce (hits : list MemoryHit) (now : Z) : SM unit :=
  gets st_name ≫= λ name : string,
  for_each hits (λ hit,
    let key := memory_key name (mi_id (ht_item hit)) in
    exists_ ← call_as int_of_reply ["EXISTS"; key];
    if decide (exists_ = Some 0) then mret tt
    else
      call ["HSET"; key; "last_accessed_at"; string_of_Z now];;
      call ["HINCRBY"; key; "access_count"; "1"];; mret tt).
Definition recordRecall (resultCount : Z) : SM unit :=
  metric "recallTotal" 1;; metric (if 0 <? resultCount then "recallHits" else "recallEmpty") 1.
Definition report_near_miss (threshold near : number) (resultCount : Z) : SM unit :=
  if (resultCount =? 0) && near_miss threshold near
  then metric "recallNearMiss" 1;; modify update_warned else mret tt.
Definition recall_args (name : string) (vector : list number) (options : RecallOptions) : list string :=
  let fetchK := default DEFAULT_RECALL_K (rc_k options) * RECALL_OVERFETCH in
  ["FT.SEARCH"; index_name name; buildRecallQuery fetchK (rc_scope options) (rc_tags options);
   "PARAMS"; "2"; "vec"; encodeFloat32 vector; "LIMIT"; "0"; string_of_Z fetchK; "DIALECT"; "2"].
(** The hits of a reply that qualify *)
Definition qualified (st : MemoryStore W) (options : RecallOptions) (now : Z) (raw : reply) : list MemoryHit :=
  omap (recall_hit (st_name st) now (default (cg_threshold (st_config st)) (rc_threshold options))
          (cg_halfLifeSeconds (st_config st)) (default (cg_weights (st_config st)) (rc_weights options)))
    (parseFtSearchResponse raw).
Definition runRecall (vector : list number) (options : RecallOptions) : SM (list MemoryHit) :=
  get_state ≫= λ st : MemoryStore W,
  let k := default DEFAULT_RECALL_K (rc_k options) in
  let threshold := default (cg_threshold (st_config st)) (rc_threshold options) in
  raw ← call (recall_args (st_name st) vector options);
  now_ ≫= λ now : Z,
  let result := rank_hits k (qualified st options now raw) in
  report_near_miss threshold (nearest (parseFtSearchResponse raw)) (js_len result);;
  recordRecall (js_len result);;
  modify (update_counts (count_with 0 1 (if 0 <? js_len result then 1 else 0) 0 0 0));;
  (if rc_reinforce options then ignore_errors (reinforce result now) else mret tt);;
  mret result.
Definition recallByVector (vector : list number) (options : RecallOptions) : SM (list MemoryHit) :=
  runRecall vector options.
Definition recall (query : string) (options : RecallOptions) : SM (list MemoryHit) :=
  vector ← embed query; runRecall vector options.

(** *** Forgetting *)
Definition forget (id : string) : SM bool :=
  gets st_name ≫= λ name : string,
  removed ← call_as int_of_reply ["DEL"; memory_key name id];
  (if positive removed then
     metric "items" (- default 0 removed);;
     modify (update_counts (count_with 0 0 0 (default 0 removed) 0 0))
   else mret tt);;
  mret (positive removed).
(** The rounds that are left; the result is [deleted]. *)
Fixpoint forget_rounds (rounds : nat) (name filter : string) (deleted : option Z) : SM (option Z) :=
  match rounds with
  | 0%nat => mret deleted
  | S rounds =>
      raw ← call ["FT.SEARCH"; index_name name; filter; "LIMIT"; "0"; string_of_Z FORGET_BATCH_SIZE;
                  "DIALECT"; "2"];
      match map fh_key (parseFtSearchResponse raw) with
      | [] => mret deleted
      | keys =>
          removed ← call_as int_of_reply ("DEL" :: keys);
          let deleted := opt_add deleted removed in
          if decide (removed = Some 0) then mret deleted
          else forget_rounds rounds name filter deleted
      end
  end.
Definition forgetByScope (scope : MemoryScope) (tags : list string) : SM (option Z) :=
  if negb (scope_given scope tags) then throw "forgetByScope requires at least one scope field or tag"
  else
    gets st_name ≫= λ name : string,
    deleted ← forget_rounds (Z.to_nat FORGET_MAX_BATCHES) name (buildScopeFilter scope tags) (Some 0);
    (if positive deleted then
       metric "items" (- default 0 deleted);;
       modify (update_counts (count_with 0 0 0 (default 0 deleted) 0 0))
     else mret tt);;
    mret deleted.

(** *** Writing *)
Definition flat_fields (fields : list (string * string)) : list string :=
  flat_map (λ '(field, value), [field; value]) fields.
Definition writeRecord (key : string) (fields : list (string * string)) (ttl : option Z) : SM unit :=
  let hset := call ("HSET" :: key :: flat_fields fields) in
  let lives := match ttl with Some t => 0 <? t | None => false end in
  if negb lives then hset;; mret tt
  else
    call ["MULTI"];;
    try_catch
      (hset;; call ["EXPIRE"; key; string_of_Z (default 0 ttl)];; call ["EXEC"];; mret tt)
      (λ err, ignore_errors (call ["DISCARD"]);; throw err).
Definition writeMemory (content : string) (options : RememberOptions) (now : Z) : SM string :=
  vector ← embed content;
  id ← in_env me_uuid;
  gets st_name ≫= λ name : string,
  record ← from_result (buildMemoryRecord name id content vector options now);
  writeRecord (mw_key record) (mw_fields record) (ro_ttl options);;
  metric "items" 1;;
  mret id.

(** *** Evictions *)
Definition finite_or_zero (value : option string) : number :=
  let x := match value with Some s => num_of_string s | None => nan end in
  if is_finite x then x else num_of_Z 0.
Definition eviction_candidate (hit : FtSearchHit) : EvictionCandidate :=
  {| ec_key := fh_key hit; ec_importance := finite_or_zero (jm_get "importance" (fh_fields hit));
     ec_lastAccessedAt := finite_or_zero (jm_get "last_accessed_at" (fh_fields hit)) |}.
Definition enforceCapacity (scope : MemoryScope) (tags : list string) (now : Z) : SM unit :=
  get_state ≫= λ st : MemoryStore W,
  match cg_maxItemsPerScope (st_config st) with
  | None => mret tt
  | Some max =>
      let weights := cg_weights (st_config st) in
      let halfLifeSeconds := cg_halfLifeSeconds (st_config st) in
      let filter := buildScopeFilter scope tags in
      if str_eqb filter MATCH_ALL_MEMORY_QUERY then mret tt
      else
        countRaw ← call ["FT.SEARCH"; index_name (st_name st); filter; "LIMIT"; "0"; "0"; "DIALECT"; "2"];
        let total := ftSearchTotal countRaw in
        if total <=? max then mret tt
        else
          raw ← call ["FT.SEARCH"; index_name (st_name st); filter; "RETURN"; "2"; "importance";
                      "last_accessed_at"; "LIMIT"; "0"; string_of_Z EVICTION_SCAN_LIMIT; "DIALECT"; "2"];
          let candidates := map eviction_candidate (parseFtSearchResponse raw) in
          let dropCount := Z.min (total - max) (js_len candidates) in
          match selectEvictions math_exp candidates (js_len candidates - dropCount) now
                  halfLifeSeconds weights with
          | [] => mret tt
          | evictKeys =>
              removed ← call_as int_of_reply ("DEL" :: evictKeys);
              if negb (positive removed) then mret tt
              else
                let n := default 0 removed in
                call ["HINCRBY"; stats_key (st_name st); "evictions"; string_of_Z n];;
                metric "evictions" n;; metric "items" (- n);;
                modify (update_counts (count_with 0 0 0 0 0 n))
          end
  end.
Definition remember (content : string) (options : RememberOptions) : SM string :=
  now_ ≫= λ now : Z,
  id ← writeMemory content options now;
  modify (update_counts (count_with 1 0 0 0 0 0));;
  ignore_errors (enforceCapacity (ro_scope options) (ro_tags options) now);;
  mret id.

(** *** Consolidation *)
Definition criteria_given (scope : MemoryScope) (tags : list string)
    (olderThanSeconds maxImportance : option number) : bool :=
  scope_given scope tags || is_some olderThanSeconds || is_some maxImportance.
Definition created_before (now : Z) (olderThanSeconds : option number) : option number :=
  (λ seconds, num_sub (num_of_Z now) (num_mul seconds (num_of_Z 1000))) <$> olderThanSeconds.
Definition by_created (a b : MemoryItem) : Z :=
  num_sign (num_sub (time_of (mi_createdAt a)) (time_of (mi_createdAt b))).
(** [if (deleted > 0) { items.dec(deleted) }] *)
Definition items_gone (deleted : option Z) : SM unit :=
  if positive deleted then metric "items" (- default 0 deleted) else mret tt.
Definition summary_options (options : ConsolidateOptions) : RememberOptions :=
  {| ro_scope := cn_scope options;
     ro_importance := Some (default DEFAULT_SUMMARY_IMPORTANCE (cn_summaryImportance options));
     ro_tags := cn_tags options; ro_source := Some SUMMARY_SOURCE; ro_subject := None; ro_date := None;
     ro_ttl := None |}.
Definition runConsolidate (summarize : list MemoryItem → M W string string)
    (options : ConsolidateOptions) : SM ConsolidateResult :=
  now_ ≫= λ now : Z,
  let tags := cn_tags options in
  let scope := cn_scope options in
  if negb (criteria_given scope tags (cn_olderThanSeconds options) (cn_maxImportance options))
  then throw "consolidate requires a scope, tags, olderThanSeconds, or maxImportance to select candidates"
  else
    gets st_name ≫= λ name : string,
    let filter := buildConsolidateFilter scope tags
      {| cf_maxCreatedAt := created_before now (cn_olderThanSeconds options);
         cf_maxImportance := cn_maxImportance options; cf_excludeSource := Some SUMMARY_SOURCE;
         cf_includeSource := None |} in
    raw ← call (["FT.SEARCH"; index_name name; filter; "RETURN"; "11"] ++ list_fields
                ++ ["date"; "LIMIT"; "0"; string_of_Z CONSOLIDATE_SCAN_LIMIT; "DIALECT"; "2"]);
    let candidates := js_sort by_created (map (parseMemoryItem name) (parseFtSearchResponse raw)) in
    match candidates with
    | [] => mret {| cr_consolidated := 0; cr_created := []; cr_deleted := Some 0 |}
    | _ =>
        summary ← in_env (summarize candidates);
        summaryId ← writeMemory summary (summary_options options) now;
        (if cn_deleteSources options then
           deleted ← call_as int_of_reply ("DEL" :: map (λ item, memory_key name (mi_id item)) candidates);
           items_gone deleted;; mret deleted
         else mret (Some 0)) ≫= λ deleted : option Z,
        metric "consolidations" 1;;
        modify (update_counts (count_with 0 0 0 0 1 0));;
        mret {| cr_consolidated := js_len candidates; cr_created := [summaryId]; cr_deleted := deleted |}
    end.

(** *** Consolidating facts *)
Definition loadExistingFacts (scope : MemoryScope) (tags : list string) : SM (list MemoryItem) :=
  get_state ≫= λ st : MemoryStore W,
  let filter := buildConsolidateFilter scope tags
    {| cf_maxCreatedAt := None; cf_maxImportance := None; cf_excludeSource := None;
       cf_includeSource := Some (st_factSource st) |} in
  raw ← call ["FT.SEARCH"; index_name (st_name st); filter; "RETURN"; "4"; "content"; "subject"; "source";
              "date"; "SORTBY"; "created_at"; "ASC"; "LIMIT"; "0"; string_of_Z CONSOLIDATE_SCAN_LIMIT;
              "DIALECT"; "2"];
  mret (map (parseMemoryItem (st_name st)) (parseFtSearchResponse raw)).
(** [existingBySubject], the id and the content of the first row of each subject, and
    [duplicateFactIds] *)
Definition track_fact (acc : list (string * (string * string)) * list string) (item : MemoryItem) :
    list (string * (string * string)) * list string :=
  let '(existingBySubject, duplicateFactIds) := acc in
  match mi_subject item with
  | None => acc
  | Some subject =>
      let key := subjectKey toLowerCase subject in
      if jm_has key existingBySubject then (existingBySubject, duplicateFactIds ++ [mi_id item])
      else (jm_set key (mi_id item, mi_content item) existingBySubject, duplicateFactIds)
  end.
Definition priorFacts (existingFacts : list MemoryItem) : list Fact :=
  map storedFactToFact (js_filter (λ item, is_some (mi_subject item)) existingFacts).
Definition unmatched (op : FactOp) : option string :=
  match op with F_unmatched_tombstone subject => Some subject | _ => None end.
Definition unchanged (existingBySubject : list (string * (string * string))) (fact : Fact) : bool :=
  match jm_get (subjectKey toLowerCase (fa_subject fact)) existingBySubject with
  | Some (_, content) => str_eqb content (factContent fact)
  | None => false
  end.
Definition fact_options (options : ConsolidateFactsOptions) (factSource : string)
    (defaultImportance : number) (fact : Fact) : RememberOptions :=
  {| ro_scope := co_scope options;
     ro_importance := Some (default defaultImportance (co_factImportance options));
     ro_tags := co_tags options; ro_source := Some factSource; ro_subject := Some (fa_subject fact);
     ro_date := fa_date fact; ro_ttl := None |}.
(** [for (const fact of curated)]: the ids of the facts written *)
Fixpoint write_facts (options : ConsolidateFactsOptions) (now : Z)
    (existingBySubject : list (string * (string * string))) (curated : list Fact) (created : list string)
    : SM (list string) :=
  match curated with
  | [] => mret created
  | fact :: curated =>
      if unchanged existingBySubject fact then write_facts options now existingBySubject curated created
      else
        get_state ≫= λ st : MemoryStore W,
        id ← writeMemory (factContent fact)
               (fact_options options (st_factSource st) (st_defaultFactImportance st) fact) now;
        write_facts options now existingBySubject curated (created ++ [id])
  end.
Definition superseded (curatedBySubject : list (string * Fact)) (row : string * (string * string)) : bool :=
  let '(subject, (_, content)) := row in
  match jm_get subject curatedBySubject with
  | None => true
  | Some fact => negb (str_eqb (factContent fact) content)
  end.
Definition runConsolidateFacts (extractFacts : list MemoryItem → M W string (list Fact))
    (options : ConsolidateFactsOptions) : SM ConsolidateFactsResult :=
  now_ ≫= λ now : Z,
  let tags := co_tags options in
  let scope := co_scope options in
  if negb (criteria_given scope tags (co_olderThanSeconds options) (co_maxImportance options))
  then throw "consolidateFacts requires a scope, tags, olderThanSeconds, or maxImportance to select source memories"
  else
    get_state ≫= λ st : MemoryStore W,
    let name := st_name st in
    let filter := buildConsolidateFilter scope tags
      {| cf_maxCreatedAt := created_before now (co_olderThanSeconds options);
         cf_maxImportance := co_maxImportance options; cf_excludeSource := Some (st_factSource st);
         cf_includeSource := None |} in
    raw ← call (["FT.SEARCH"; index_name name; filter; "RETURN"; "12"] ++ list_fields
                ++ ["subject"; "date"; "SORTBY"; "created_at"; "ASC"; "LIMIT"; "0";
                    string_of_Z CONSOLIDATE_SCAN_LIMIT; "DIALECT"; "2"]);
    let candidates := map (parseMemoryItem name) (parseFtSearchResponse raw) in
    match candidates with
    | [] => mret {| fr_candidates := 0; fr_facts := 0; fr_created := []; fr_deleted := Some 0;
                    fr_unmatchedTombstones := [] |}
    | _ =>
        existingFacts ← loadExistingFacts scope tags;
        let '(existingBySubject, duplicateFactIds) := foldl track_fact ([], []) existingFacts in
        let prior := priorFacts existingFacts in
        extracted ← in_env (extractFacts candidates);
        let ops := reconcile toLowerCase extracted prior in
        let curated := applyOps toLowerCase prior ops in
        let unmatchedTombstones := omap unmatched ops in
        (if 0 <? js_len unmatchedTombstones
         then metric "factTombstoneUnmatched" (js_len unmatchedTombstones) else mret tt);;
        let curatedBySubject :=
          foldl (λ m fact, jm_set (subjectKey toLowerCase (fa_subject fact)) fact m) [] curated in
        created ← write_facts options now existingBySubject curated [];
        let toDelete :=
          map (memory_key name)
            (duplicateFactIds
             ++ map (λ row, row.2.1) (js_filter (superseded curatedBySubject) existingBySubject)) in
        match toDelete with
        | [] => mret (Some 0)
        | _ => deleted ← call_as int_of_reply ("DEL" :: toDelete); items_gone deleted;; mret deleted
        end ≫= λ deleted : option Z,
        metric "consolidations" 1;;
        mret {| fr_candidates := js_len candidates; fr_facts := js_len curated; fr_created := created;
                fr_deleted := deleted; fr_unmatchedTombstones := unmatchedTombstones |}
    end.
(** [consolidate]: the mode chooses what runs. *)
Inductive ConsolidateRequest :=
  | summary_mode (summarize : list MemoryItem → M W string string) (options : ConsolidateOptions)
  | facts_mode (extractFacts : list MemoryItem → M W string (list Fact)) (options : ConsolidateFactsOptions).
Definition consolidate (request : ConsolidateRequest) : SM (ConsolidateResult + ConsolidateFactsResult) :=
  match request with
  | summary_mode summarize options => r ← runConsolidate summarize options; mret (inl r)
  | facts_mode extractFacts options => r ← runConsolidateFacts extractFacts options; mret (inr r)
  end.
End store.

Arguments summary_mode {W} _ _.
Arguments facts_mode {W} _ _.

(** A call of a method of the store *)
Inductive memory_op (W : Type) :=
  | O_get (id : string)
  | O_list (options : MemoryListOptions)
  | O_stats
  | O_refreshConfig
  | O_ensureIndex
  | O_recall (query : string) (options : RecallOptions)
  | O_recallByVector (vector : list number) (options : RecallOptions)
  | O_remember (content : string) (options : RememberOptions)
  | O_forget (id : string)
  | O_forgetByScope (scope : MemoryScope) (tags : list string)
  | O_consolidate (request : ConsolidateRequest (W := W)).
Section run.
Context {W : Type} `{!MemoryEnv W} (toLowerCase : string → string) (math_exp : number → number).
Definition run_op (op : memory_op W) : M (MemoryStore W) string unit :=
  match op with
  | O_get _ id => get id;; mret tt
  | O_list _ options => list_memories options;; mret tt
  | O_stats _ => stats;; mret tt
  | O_refreshConfig _ => refreshConfig
  | O_ensureIndex _ => ensureIndex
  | O_recall _ query options => recall math_exp query options;; mret tt
  | O_recallByVector _ vector options => recallByVector math_exp vector options;; mret tt
  | O_remember _ content options => remember math_exp content options;; mret tt
  | O_forget _ id => forget id;; mret tt
  | O_forgetByScope _ scope tags => forgetByScope scope tags;; mret tt
  | O_consolidate _ request => consolidate toLowerCase request;; mret tt
  end.
(** The methods one after the other, whatever each of them ends with *)
Definition run_ops (ops : list (memory_op W)) (st : MemoryStore W) : MemoryStore W :=
  foldl (λ st op, (run_op op st).2) st ops.
End run.

(** ** Specification *)

(** *** Configuration *)
Definition positive_number (x : number) : Prop := is_finite x = true ∧ num_ltb (num_of_Z 0) x = true.
Definition weight_ok (x : number) : Prop := is_finite x = true ∧ at_least x 0 = true.
Definition weights_ok (w : RecallWeights) : Prop :=
  weight_ok (w_similarity w) ∧ weight_ok (w_recency w) ∧ weight_ok (w_importance w).
Definition valid_weights (w : RecallWeights) : Prop :=
  weights_ok w ∧ num_ltb (num_of_Z 0) (weight_sum w) = true.
Definition valid_config (c : MemoryConfigSnapshot) : Prop :=
  weight_ok (cg_threshold c) ∧ num_leb (cg_threshold c) (num_of_Z MAX_DISTANCE) = true
  ∧ valid_weights (cg_weights c) ∧ positive_number (cg_halfLifeSeconds c)
  ∧ ∀ n, cg_maxItemsPerScope c = Some n → 1 ≤ n.

(** ** Lemmas *)

(** *** Configuration *)
Lemma floor_of_ge x : canonical x → is_finite x = true → at_least x 1 = true → 1 ≤ floor_of x.
Proof.
  intros Hc Hf. unfold at_least. rewrite num_leb_val by (done || apply num_of_Z_canonical).
  intros Hv%Z.leb_le. destruct x as [s| | |s m e]; try done.
  assert (H1 : val (num_of_Z 1) = 2 ^ (- femin)) by by vm_compute.
  rewrite H1 in Hv. cbn [val] in Hv. unfold floor_of, floor_Z. apply canonical_range in Hc as (He & _).
  destruct (Z.le_gt_cases 0 e) as [Hpos|Hneg].
  - rewrite Z.shiftl_mul_pow2 by done. replace (e - femin) with (e + - femin) in Hv by lia.
    rewrite Z.pow_add_r in Hv by (vm_compute; done || lia). pose proof (Z.pow_pos_nonneg 2 (- femin) ltac:(lia) ltac:(done)).
    nia.
  - replace e with (- (- e)) by lia. rewrite Z.shiftl_opp_r, Z.shiftr_div_pow2 by lia.
    apply Z.div_le_lower_bound; [apply Z.pow_pos_nonneg; lia|].
    replace (- femin) with (- e + (e - femin)) in Hv by lia. rewrite Z.pow_add_r in Hv by lia.
    assert (0 < 2 ^ (e - femin)) by (apply Z.pow_pos_nonneg; lia). nia.
Qed.
Lemma config_entry_ok c entry : 
  weight_ok (cg_threshold c) ∧ num_leb (cg_threshold c) (num_of_Z MAX_DISTANCE) = true
  ∧ weights_ok (cg_weights c) ∧ positive_number (cg_halfLifeSeconds c)
  ∧ (∀ n, cg_maxItemsPerScope c = Some n → 1 ≤ n) →
  let c' := config_entry c entry in
  weight_ok (cg_threshold c') ∧ num_leb (cg_threshold c') (num_of_Z MAX_DISTANCE) = true
  ∧ weights_ok (cg_weights c') ∧ positive_number (cg_halfLifeSeconds c')
  ∧ (∀ n, cg_maxItemsPerScope c' = Some n → 1 ≤ n).
Proof.
  intros (H1 & H2 & (H3 & H4 & H5) & H6 & H7). destruct entry as [field value]. unfold config_entry.
  set (num := num_of_string value). assert (Hc : canonical num) by apply num_of_string_canonical. clearbody num.
  destruct (is_finite num) eqn:Hf; cbn [negb]; [|done].
  assert (Hw : at_least num 0 = true → weight_ok num) by done.
  assert (Hh : num_ltb (num_of_Z 0) num = true → positive_number num) by done.
  destruct (str_eqb _ _).
  { destruct (at_least num 0 && _) eqn:Hb; [|done]. by apply andb_prop in Hb as [? ?]. }
  do 3 (destruct (str_eqb _ _); [destruct (at_least num 0); [specialize (Hw eq_refl)|]; cbn -[weight_ok weights_ok]; unfold weights_ok; cbn; tauto|]).
  destruct (str_eqb _ _); [destruct (num_ltb _ num); [specialize (Hh eq_refl)|]; cbn -[weight_ok weights_ok positive_number]; unfold weights_ok; tauto|].
  destruct (str_eqb _ _); [|done]. destruct (at_least num 1) eqn:Hb; [|done].
  do 4 (split; [done|]). intros n [= <-]. by apply floor_of_ge.
Qed.
Lemma apply_config_valid initial live raw :
  valid_config initial → valid_config live → valid_config (applyConfig initial live raw).
Proof.
  intros (H1 & H2 & H3 & H4 & H5) (_ & _ & (Hlive & _) & _). unfold applyConfig.
  set (start := with_weights _ initial).
  assert (Hs : weight_ok (cg_threshold start) ∧ num_leb (cg_threshold start) (num_of_Z MAX_DISTANCE) = true
    ∧ weights_ok (cg_weights start) ∧ positive_number (cg_halfLifeSeconds start)
    ∧ (∀ n, cg_maxItemsPerScope start = Some n → 1 ≤ n)).
  { unfold start. do 2 (split; [done|]). split; [|split; [exact H4|exact H5]].
    cbn [cg_weights with_weights]. destruct (existsb _ _); [exact Hlive|apply H3]. }
  clearbody start. revert start Hs. induction raw as [|entry raw IH]; intros start Hs; cbn [foldl].
  - destruct (num_ltb _ _) eqn:Hsum.
    + destruct Hs as (? & ? & ? & ? & ?). unfold valid_config, valid_weights. tauto.
    + destruct Hs as (? & ? & _ & ? & ?). unfold valid_config. cbn -[valid_weights]. tauto.
  - apply IH. by apply config_entry_ok.
Qed.

(** What only the refresh changes *)
Section config_frame.
Context {W : Type} `{!MemoryEnv W} (toLowerCase : string → string) (math_exp : number → number).
Context (I : MemoryConfigSnapshot → MemoryConfigSnapshot → Prop).
Abbreviation configured := (λ st : MemoryStore W, I (st_initial st) (st_config st)).
Lemma in_env_configured {A} (m : M W string A) : preserves configured (in_env m).
Proof. intros st H. unfold in_env. by destruct (m (st_world st)). Qed.
Lemma from_result_configured {A} (r : outcome string A) : preserves configured (from_result r).
Proof. by intros st. Qed.
Lemma metric_configured name n : preserves configured (metric name n).
Proof. by intros st. Qed.
Lemma counts_configured f : preserves configured (modify (E := string) (update_counts f)).
Proof. by intros st. Qed.
Lemma dims_configured d : preserves configured (modify (E := string) (update_dims d)).
Proof. by intros st. Qed.
Lemma warned_configured : preserves configured (modify (E := string) update_warned).
Proof. by intros st. Qed.
Lemma get_state_configured : preserves configured (get_state (E := string)).
Proof. by intros st. Qed.
Lemma ignore_configured {A} (m : M (MemoryStore W) string A) :
  preserves configured m → preserves configured (ignore_errors m).
Proof. intros Hm. unfold ignore_errors. auto with js. Qed.
End config_frame.
Create HintDb configured.
#[export] Hint Resolve in_env_configured from_result_configured metric_configured counts_configured
  dims_configured warned_configured get_state_configured ignore_configured preserves_ret preserves_throw
  preserves_gets preserves_bind preserves_try_catch preserves_for_each : configured.
(** Methods that leave the configuration alone, case by case *)
Ltac configured_tac :=
  repeat first [ progress auto 1 with configured
               | apply preserves_bind; [|intros ?]
               | apply preserves_for_each; intros ?
               | apply ignore_configured
               | apply preserves_try_catch; [|intros ?]
               | case_match ].
Section config_ops.
Context {W : Type} `{!MemoryEnv W} (toLowerCase : string → string) (math_exp : number → number).
Context (I : MemoryConfigSnapshot → MemoryConfigSnapshot → Prop).
Abbreviation configured := (λ st : MemoryStore W, I (st_initial st) (st_config st)).
Lemma embed_configured content : preserves configured (embed content).
Proof. unfold embed, requireEmbedFn. configured_tac. Qed.
Lemma call_configured args : preserves configured (call args).
Proof. apply in_env_configured. Qed.
Lemma call_as_configured {A} (f : reply → A) args : preserves configured (call_as f args).
Proof. unfold call_as. pose proof call_configured. configured_tac. Qed.
Hint Resolve embed_configured call_configured call_as_configured : configured.
Lemma now_configured : preserves configured now_.
Proof. apply preserves_gets. Qed.
Hint Resolve now_configured : configured.
Lemma write_configured content options now : preserves configured (writeMemory content options now).
Proof. unfold writeMemory, writeRecord. configured_tac. Qed.
Lemma recall_configured vector options : preserves configured (runRecall math_exp vector options).
Proof. unfold runRecall, report_near_miss, recordRecall, reinforce. configured_tac.
Qed.
Lemma capacity_configured scope tags now : preserves configured (enforceCapacity math_exp scope tags now).
Proof. unfold enforceCapacity. configured_tac. Qed.
Lemma forget_configured rounds name filter : ∀ deleted, preserves configured (forget_rounds rounds name filter deleted).
Proof. induction rounds as [|rounds IH]; intros deleted; cbn [forget_rounds]; configured_tac. Qed.
Hint Resolve write_configured recall_configured capacity_configured forget_configured : configured.
Lemma facts_configured options now rows curated : ∀ created,
  preserves configured (write_facts toLowerCase options now rows curated created).
Proof. induction curated as [|f curated IH]; intros created; cbn [write_facts]; configured_tac. Qed.
Hint Resolve facts_configured : configured.
Lemma consolidate_configured request : preserves configured (consolidate toLowerCase request).
Proof.
  destruct request; unfold consolidate, runConsolidate, runConsolidateFacts, loadExistingFacts, items_gone;
    configured_tac.
Qed.
Hint Resolve consolidate_configured : configured.
(** Every method but the refresh *)
Lemma op_configured op : op ≠ O_refreshConfig W → preserves configured (run_op toLowerCase math_exp op).
Proof.
  destruct op; intros Hop; [..|done| | | | | | |]; cbn [run_op];
    unfold get, list_memories, stats, currentConfig, ensureIndex, resolveDims, requireEmbedFn, recall,
      recallByVector, remember, forget, forgetByScope; configured_tac.
Qed.
End config_ops.
