(* ===== verification/MemoryServer.v ===== *)
(** * What the memory store does to its data

    The commands [MemoryStore] sends, as the server documents them ([MemoryServer]: the hashes and
    the open transaction; [ExactIndex]: an index that is up to date), and the properties of the
    methods of the store against them. *)
From S2P Require Export MemoryStore.
From stdpp Require Import options.

(** ** Specification *)

(** *** The commands *)
Abbreviation hashes := (gmap string (gmap string string)).
(** [mv_queue]: the commands of an open transaction *)
Record MemoryView := { mv_data : hashes; mv_queue : option (list (list string)) }.
Fixpoint hset_fields (l : list string) (row : gmap string string) : gmap string string :=
  match l with
  | field :: value :: l => hset_fields l (<[field := value]> row)
  | _ => row
  end.
Definition row_of (key : string) (d : hashes) : gmap string string := default ∅ (d !! key).
Definition int_field (field : string) (row : gmap string string) : Z :=
  default 0 (row !! field ≫= λ s, num_to_Z (num_of_string s)).
Definition run_command (cmd : list string) (d : hashes) : hashes :=
  match cmd with
  | [] => d
  | name :: args =>
      if str_eqb name "DEL" then foldr delete d args
      else match args with
           | key :: rest =>
               if str_eqb name "HSET" then <[key := hset_fields rest (row_of key d)]> d
               else if str_eqb name "HINCRBY" then
                 match rest with
                 | [field; n] =>
                     let row := row_of key d in
                     <[key := <[field := string_of_Z (int_field field row
                                          + default 0 (num_to_Z (num_of_string n)))]> row]> d
                 | _ => d
                 end
               else d
           | [] => d
           end
  end.
Definition issue (cmd : list string) (v : MemoryView) : MemoryView :=
  let name := default EmptyString (head cmd) in
  if str_eqb name "MULTI" then {| mv_data := mv_data v; mv_queue := Some [] |}
  else if str_eqb name "EXEC" then
    {| mv_data := foldl (λ d c, run_command c d) (mv_data v) (default [] (mv_queue v)); mv_queue := None |}
  else if str_eqb name "DISCARD" then {| mv_data := mv_data v; mv_queue := None |}
  else match mv_queue v with
       | Some q => {| mv_data := mv_data v; mv_queue := Some (q ++ [cmd]) |}
       | None => {| mv_data := run_command cmd (mv_data v); mv_queue := None |}
       end.
Definition mem_prefix (name : string) : string := memoryKeyPrefix name.

(** [mv_known]: the names of all keys there have ever been, and of all rows an index has listed.
    A command that fails may have been carried out or not.  A random id is new. *)
Class MemoryServer (W : Type) `{!MemoryEnv W} := {
  mv_view : W → MemoryView;
  mv_known : W → gset string;
  mv_known_keys w key : is_Some (mv_data (mv_view w) !! key) → key ∈ mv_known w;
  mv_call args w : match me_call args w with
    | (Ok r, w') => mv_view w' = issue args (mv_view w) ∧ mv_known w ⊆ mv_known w'
    | (Throw _, w') => (mv_data (mv_view w') = mv_data (mv_view w)
                        ∨ mv_data (mv_view w') = mv_data (issue args (mv_view w)))
                       ∧ mv_known w ⊆ mv_known w'
    end;
  mv_exists key w r w' : mv_queue (mv_view w) = None → me_call ["EXISTS"; key] w = (Ok r, w') →
    int_of_reply r = Some (if decide (is_Some (mv_data (mv_view w) !! key)) then 1 else 0);
  mv_del keys w r w' : mv_queue (mv_view w) = None → me_call ("DEL" :: keys) w = (Ok r, w') →
    int_of_reply r = Some (Z.of_nat (size (dom (mv_data (mv_view w)) ∩ list_to_set keys)));
  mv_search name filter opts w r w' hit : mv_queue (mv_view w) = None →
    me_call ("FT.SEARCH" :: index_name name :: filter :: opts) w = (Ok r, w') →
    hit ∈ parseFtSearchResponse r →
    starts_with (mem_prefix name) (fh_key hit) = true ∧ fh_key hit ∈ mv_known w';
  mv_embed f content w : me_embed = Some f →
    mv_view (f content w).2 = mv_view w ∧ mv_known w ⊆ mv_known (f content w).2;
  mv_uuid w : mv_view (me_uuid w).2 = mv_view w ∧ mv_known (me_uuid w).2 = mv_known w
    ∧ ∀ id name, (me_uuid w).1 = Ok id → memory_key name id ∉ mv_known w
}.

(** [matching]: the rows of the index that a query selects *)
Definition matching (name : string) (matches : list clause → gmap string string → bool) (cs : list clause)
    (d : hashes) : gset string :=
  dom (filter (λ '(key, row), starts_with (mem_prefix name) key = true ∧ matches cs row = true) d).
Fixpoint limit_of (opts : list string) : option Z :=
  match opts with
  | [] => None
  | opt :: l => if str_eqb opt "LIMIT" then l !! 1%nat ≫= parse_int else limit_of l
  end.
(** The fields a hit carries *)
Definition shown (opts : list string) (field : string) : Prop :=
  match opts with
  | opt :: n :: l => if str_eqb opt "RETURN" then field ∈ take (Z.to_nat (int_or_zero n)) l else field ≠ SCORE_FIELD
  | _ => field ≠ SCORE_FIELD
  end.
(** The index of [name] is up to date: a search counts the matching rows and lists as many of them as
    asked for, each once and with the fields it has. *)
Class ExactIndex (W : Type) `{!MemoryEnv W, !MemoryServer W} (name : string) := {
  ix_matches : list clause → gmap string string → bool;
  ix_search filter cs opts count w r w' : mv_queue (mv_view w) = None →
    read_query filter = Some (cs, EmptyString) → limit_of opts = Some count → 0 ≤ count →
    me_call ("FT.SEARCH" :: index_name name :: filter :: opts) w = (Ok r, w') →
    let found := matching name ix_matches cs (mv_data (mv_view w)) in
    let hits := parseFtSearchResponse r in
    ftSearchTotal r = Z.of_nat (size found)
    ∧ NoDup (map fh_key hits) ∧ js_len hits = Z.min count (Z.of_nat (size found))
    ∧ ∀ hit, hit ∈ hits → fh_key hit ∈ found ∧ ∃ row, mv_data (mv_view w) !! fh_key hit = Some row
        ∧ ∀ field, shown opts field → jm_get field (fh_fields hit) = row !! field
}.
(** Some call of the client fails. *)
Definition call_failed (W : Type) `{!MemoryEnv W} : Prop :=
  ∃ args w e w', me_call args w = (Throw e, w').

(** What a callback may do to the data: nothing *)
Definition keeps_data {W A} `{!MemoryEnv W, !MemoryServer W} (m : M W string A) : Prop :=
  ∀ w, mv_view (m w).2 = mv_view w ∧ mv_known w ⊆ mv_known (m w).2.

(** ** Lemmas *)
Section rules.
Context {W : Type} `{!MemoryEnv W, !MemoryServer W}.
Definition view (st : MemoryStore W) : MemoryView := mv_view (st_world st).
Definition data (st : MemoryStore W) : hashes := mv_data (view st).
Definition known (st : MemoryStore W) : gset string := mv_known (st_world st).

Lemma wp_in_env {A} (m : M W string A) Q R st :
  (∀ a w, m (st_world st) = (Ok a, w) → Q a (update_world w st)) →
  (∀ e w, m (st_world st) = (Throw e, w) → R e (update_world w st)) →
  wp (in_env m) Q R st.
Proof. unfold wp, in_env. destruct (m (st_world st)) as [[a|e] w]; auto. Qed.
(** A command that is no part of a transaction *)
Lemma wp_call args Q R st :
  (∀ r w, me_call args (st_world st) = (Ok r, w) → mv_view w = issue args (view st) →
     known st ⊆ mv_known w → Q r (update_world w st)) →
  (∀ e w, call_failed W → mv_data (mv_view w) = data st ∨ mv_data (mv_view w) = mv_data (issue args (view st)) →
     known st ⊆ mv_known w → R e (update_world w st)) →
  wp (call args) Q R st.
Proof.
  intros HQ HR. pose proof (mv_call args (st_world st)) as Hc. apply wp_in_env; intros x w Hw; rewrite Hw in Hc.
  - destruct Hc. by apply HQ.
  - destruct Hc. apply HR; [by exists args, (st_world st), x, w|done|done].
Qed.
Lemma wp_call_as {A} (f : reply → A) args Q R st :
  wp (call args) (λ r, Q (f r)) R st → wp (call_as f args) Q R st.
Proof. intros H. unfold call_as. apply wp_bind. eapply wp_mono; [exact H|done|done]. Qed.
Lemma wp_from_result {A} (r : outcome string A) Q (R : string → MemoryStore W → Prop) st :
  match r with Ok a => Q a st | Throw e => R e st end → wp (from_result r) Q R st.
Proof. unfold wp, from_result. by destruct r. Qed.
Lemma wp_ignore {A} (m : M (MemoryStore W) string A) (Q : unit → MemoryStore W → Prop) R st :
  wp m (λ _, Q tt) (λ _, Q tt) st → wp (ignore_errors m) Q R st.
Proof.
  intros H. apply wp_catch, wp_bind. eapply wp_mono; [exact H|done|done].
Qed.

Lemma issue_plain args v :
  mv_queue v = None →
  str_eqb (default EmptyString (head args)) "MULTI" = false →
  str_eqb (default EmptyString (head args)) "EXEC" = false →
  str_eqb (default EmptyString (head args)) "DISCARD" = false →
  issue args v = {| mv_data := run_command args (mv_data v); mv_queue := None |}.
Proof. unfold issue. by intros -> -> -> ->. Qed.
(** Commands that change no data *)
Definition read_only (args : list string) : bool :=
  negb (existsb (str_eqb (default EmptyString (head args))) ["MULTI"; "EXEC"; "DISCARD"; "DEL"; "HSET"; "HINCRBY"]).
Lemma issue_read args v : mv_queue v = None → read_only args = true → issue args v = v.
Proof.
  intros Hq Hr. unfold read_only in Hr. cbn [existsb] in Hr. apply negb_true_iff in Hr.
  repeat apply orb_false_elim in Hr as [? Hr]. rewrite issue_plain by done. destruct v as [d q]. cbn in *. subst q.
  f_equal. destruct args as [|name args]; [done|]. cbn [run_command]. cbn in *.
  repeat match goal with H : str_eqb name _ = false |- _ => rewrite H end. by destruct args.
Qed.
Lemma wp_read args Q R st :
  mv_queue (view st) = None → read_only args = true →
  (∀ r w, me_call args (st_world st) = (Ok r, w) → mv_view w = view st → known st ⊆ mv_known w →
     Q r (update_world w st)) →
  (∀ e w, call_failed W → mv_data (mv_view w) = data st → known st ⊆ mv_known w → R e (update_world w st)) →
  wp (call args) Q R st.
Proof.
  intros Hq Hr HQ HR. pose proof (issue_read _ _ Hq Hr) as He. apply wp_call; rewrite He.
  - intros r w Hc Hv Hk. by apply (HQ r w).
  - intros e w Hf Hv Hk. apply HR; [done|by destruct Hv|done].
Qed.
Lemma wp_del keys Q R st :
  mv_queue (view st) = None →
  (∀ r w, int_of_reply r = Some (Z.of_nat (size (dom (data st) ∩ list_to_set keys))) →
     mv_view w = {| mv_data := foldr delete (data st) keys; mv_queue := None |} → known st ⊆ mv_known w →
     Q (int_of_reply r) (update_world w st)) →
  (∀ e w, call_failed W → mv_data (mv_view w) = data st ∨ mv_data (mv_view w) = foldr delete (data st) keys →
     known st ⊆ mv_known w → R e (update_world w st)) →
  wp (call_as int_of_reply ("DEL" :: keys)) Q R st.
Proof.
  intros Hq HQ HR. pose proof (issue_plain ("DEL" :: keys) (view st) Hq eq_refl eq_refl eq_refl) as He.
  apply wp_call_as, wp_call; rewrite He.
  - intros r w Hc Hv Hk. apply HQ; [|done|done]. by eapply mv_del.
  - intros e w Hf Hv Hk. by apply HR.
Qed.

(** *** Steps that touch no data *)
Definition same_settings (st st' : MemoryStore W) : Prop :=
  st_name st' = st_name st ∧ st_config st' = st_config st ∧ st_factSource st' = st_factSource st
  ∧ st_defaultFactImportance st' = st_defaultFactImportance st.
Definition calm (st st' : MemoryStore W) : Prop :=
  same_settings st st' ∧ view st' = view st ∧ known st ⊆ known st'.
#[global] Instance same_settings_preorder : PreOrder same_settings.
Proof. split; [by intros st|]. unfold same_settings. intros s1 s2 s3 (? & ? & ? & ?) (? & ? & ? & ?). split_and!; congruence. Qed.
#[global] Instance calm_preorder : PreOrder calm.
Proof.
  split; [by intros st|]. intros s1 s2 s3 (? & ? & ?) (? & ? & ?). split; [by etrans|]. split; [congruence|set_solver].
Qed.
Lemma calm_data st st' : calm st st' → data st' = data st.
Proof. unfold data. by intros (_ & -> & _). Qed.

Lemma wp_calm_env {A} (m : M W string A) Q R st :
  (mv_view (m (st_world st)).2 = view st ∧ known st ⊆ mv_known (m (st_world st)).2) →
  (∀ a st' w, m (st_world st) = (Ok a, w) → st' = update_world w st → calm st st' → Q a st') →
  (∀ e st', calm st st' → R e st') → wp (in_env m) Q R st.
Proof.
  intros [Hv Hk] HQ HR. apply wp_in_env; intros x w Hw; rewrite Hw in Hv, Hk.
  - by eapply HQ.
  - by apply HR.
Qed.
Lemma wp_embed content (Q : list number → MemoryStore W → Prop) R st :
  (∀ v st', calm st st' → Q v st') → (∀ e st', calm st st' → R e st') → wp (embed content) Q R st.
Proof.
  intros HQ HR. unfold embed, requireEmbedFn. apply wp_bind, wp_modify, wp_bind.
  assert (Hc : calm st (update_metrics "embeddingCalls" 1 st)) by done.
  destruct me_embed as [f|] eqn:Hf; [|by apply wp_throw, HR].
  apply wp_ret, wp_bind, wp_calm_env.
  - by apply mv_embed.
  - intros v st1 _ _ _ H1. apply wp_bind, wp_gets.
    assert (H01 : calm st st1) by by etrans.
    destruct (st_dims st1) as [d|].
    + destruct (_ =? d); [by apply wp_ret, HQ|by apply wp_throw, HR].
    + apply wp_bind, wp_modify, wp_ret, HQ. by etrans.
  - intros e st1 H1. apply HR. by etrans.
Qed.
Lemma wp_uuid (Q : string → MemoryStore W → Prop) R st :
  (∀ id st', calm st st' → memory_key (st_name st) id ∉ known st → known st' = known st → Q id st') →
  (∀ e st', calm st st' → R e st') → wp (in_env me_uuid) Q R st.
Proof.
  intros HQ HR. pose proof (mv_uuid (st_world st)) as (Hv & Hk & Hnew). apply wp_calm_env.
  - split; [done|]. unfold known. by rewrite Hk.
  - intros id st' w Hw -> Hc. rewrite Hw in Hnew, Hk. apply HQ; [done|by apply Hnew|done].
  - done.
Qed.

(** *** Writing a row *)
Definition row_fields (fields : list (string * string)) : gmap string string :=
  hset_fields (flat_fields fields) ∅.
Lemma hset_get fields : ∀ row f, NoDup fields.*1 →
  hset_fields (flat_fields fields) row !! f
  = match jm_get f fields with Some v => Some v | None => row !! f end.
Proof.
  induction fields as [|[k v] fields IH]; intros row f Hnd; [done|]. cbn in Hnd.
  apply NoDup_cons in Hnd as [Hk Hnd]. cbn [flat_fields flat_map app hset_fields].
  change (flat_map (λ '(field, value), [field; value]) fields) with (flat_fields fields).
  rewrite IH by done. cbn [jm_get]. destruct (decide (f = k)) as [->|Hne].
  - rewrite lookup_insert_eq. by rewrite (proj2 (jm_get_None k fields)).
  - by rewrite lookup_insert_ne by congruence.
Qed.
Lemma row_fields_get fields f : NoDup fields.*1 → row_fields fields !! f = jm_get f fields.
Proof. intros Hnd. unfold row_fields. rewrite hset_get by done. rewrite lookup_empty. by destruct (jm_get f fields). Qed.
Definition insert_row (key : string) (fields : list (string * string)) (d : hashes) : hashes :=
  <[key := row_fields fields]> d.
Lemma hset_new key fields d : d !! key = None →
  run_command ("HSET" :: key :: flat_fields fields) d = insert_row key fields d.
Proof. intros Hk. cbn. unfold row_of. by rewrite Hk. Qed.
Lemma insert_row_extends key fields d : d !! key = None → d ⊆ insert_row key fields d.
Proof. intros Hk. by apply insert_subseteq. Qed.
Lemma not_known_new key st : key ∉ known st → data st !! key = None.
Proof.
  intros Hk. apply eq_None_not_Some. intros Hs. apply Hk. by apply (mv_known_keys (st_world st)).
Qed.

(** A call in a view that is known; where it fails the data only grows if the command makes it grow. *)
Lemma wp_call_at v args (d : hashes) Q R st :
  view st = v → d ⊆ mv_data v → d ⊆ mv_data (issue args v) →
  (∀ r st', same_settings st st' → view st' = issue args v → known st ⊆ known st' → Q r st') →
  (∀ e st', d ⊆ data st' → R e st') →
  wp (call args) Q R st.
Proof.
  intros <- H1 H2 HQ HR. apply wp_call.
  - intros r w _ Hv Hk. by apply HQ.
  - intros e w _ Hv _. apply HR. unfold data, view. cbn [st_world update_world]. by destruct Hv as [-> | ->].
Qed.
Lemma wp_discard e d (R : string → MemoryStore W → Prop) Q st :
  d ⊆ data st → (∀ st', d ⊆ data st' → R e st') →
  wp (ignore_errors (call ["DISCARD"]);; throw e : M (MemoryStore W) string unit) Q R st.
Proof.
  intros Hd HR. apply wp_bind, wp_ignore. apply (wp_call_at (view st) _ d); [done|done|done| |].
  - intros r st' _ Hv _. apply wp_throw, HR. unfold data. by rewrite Hv.
  - intros e' st' H. by apply wp_throw, HR.
Qed.
Lemma wp_write_record key fields ttl Q R st :
  mv_queue (view st) = None → data st !! key = None →
  (∀ st', same_settings st st' → view st' = {| mv_data := insert_row key fields (data st); mv_queue := None |} →
     known st ⊆ known st' → Q tt st') →
  (∀ e st', data st ⊆ data st' → R e st') →
  wp (writeRecord key fields ttl) Q R st.
Proof.
  intros Hq Hkey HQ HR. assert (Hins := insert_row_extends key fields (data st) Hkey).
  assert (Hset := hset_new key fields (data st) Hkey).
  set (hset := "HSET" :: key :: flat_fields fields) in *.
  unfold writeRecord. fold hset. destruct (match ttl with Some t => 0 <? t | None => false end); cbn [negb]; cbv zeta.
  2:{ assert (Hi : issue hset (view st) = {| mv_data := insert_row key fields (data st); mv_queue := None |}).
      { rewrite issue_plain by done. fold (data st). by rewrite Hset. }
      apply wp_bind, (wp_call_at (view st) _ (data st)); rewrite ?Hi; [done|done|exact Hins| |exact HR].
      intros r st' ? Hv ?. by apply wp_ret, HQ. }
  apply wp_bind, (wp_call_at (view st) _ (data st)); [done|done|done| |exact HR].
  intros r1 st1 Hs1 Hv1 Hk1. apply wp_catch.
  assert (Hthrow : ∀ e st', data st ⊆ data st' →
    wp (ignore_errors (call ["DISCARD"]);; throw e : M (MemoryStore W) string unit) Q R st').
  { intros e st' Hd. apply (wp_discard _ (data st)); [done|]. apply HR. }
  apply wp_bind, (wp_call_at _ _ (data st) _ _ _ Hv1); [done|done| |exact Hthrow].
  intros r2 st2 Hs2 Hv2 Hk2. apply wp_bind, (wp_call_at _ _ (data st) _ _ _ Hv2); [done|done| |exact Hthrow].
  intros r3 st3 Hs3 Hv3 Hk3. apply wp_bind.
  set (expire := ["EXPIRE"; key; string_of_Z (default 0 ttl)]) in *.
  assert (Hq3 : view st3 = {| mv_data := data st; mv_queue := Some [hset; expire] |}) by exact Hv3.
  assert (Hi : issue ["EXEC"] (view st3) = {| mv_data := insert_row key fields (data st); mv_queue := None |}).
  { rewrite Hq3. change (issue ["EXEC"] {| mv_data := data st; mv_queue := Some [hset; expire] |})
      with {| mv_data := run_command hset (data st); mv_queue := None |}. by rewrite Hset. }
  apply (wp_call_at (view st3) _ (data st)); rewrite ?Hi; [done|by rewrite Hq3|exact Hins| |exact Hthrow].
  intros r4 st4 Hs4 Hv4 Hk4. apply wp_ret, HQ; [by do 3 (etrans; [eassumption|])|done|set_solver].
Qed.
(** A memory that is written is a new row, and nothing else changes. *)
Definition new_memory (name id content : string) (options : RememberOptions) (now : Z)
    (row : gmap string string) : Prop :=
  ∃ vector w, buildMemoryRecord name id content vector options now = Ok w ∧ row = row_fields (mw_fields w).
Lemma record_key name id content vector options now w :
  buildMemoryRecord name id content vector options now = Ok w →
  mw_key w = memory_key name id ∧ NoDup (mw_fields w).*1.
Proof.
  unfold buildMemoryRecord. destruct (_ || _); [done|]. destruct (js_find _ _); [done|].
  intros [= <-]. split; [|apply record_fields_NoDup]. cbn [mw_key]. unfold memoryKeyPrefix, memory_key.
  by rewrite str_app_assoc.
Qed.
Lemma wp_write_memory content options now Q R st :
  mv_queue (view st) = None →
  (∀ id row st', same_settings st st' → memory_key (st_name st) id ∉ known st →
     new_memory (st_name st) id content options now row →
     view st' = {| mv_data := <[memory_key (st_name st) id := row]> (data st); mv_queue := None |} →
     known st ⊆ known st' → Q id st') →
  (∀ e st', data st ⊆ data st' → R e st') →
  wp (writeMemory content options now) Q R st.
Proof.
  intros Hq HQ HR. unfold writeMemory. apply wp_bind, wp_embed.
  2:{ intros e st' Hc. apply HR. by rewrite (calm_data _ _ Hc). }
  intros vector st1 Hc1. apply wp_bind, wp_uuid.
  2:{ intros e st' Hc. apply HR. by rewrite (calm_data _ _ Hc), (calm_data _ _ Hc1). }
  intros id st2 Hc2 Hnew Hk. apply wp_bind, wp_gets, wp_bind, wp_from_result.
  assert (Hc : calm st st2) by by etrans. pose proof (calm_data _ _ Hc) as Hd.
  destruct Hc as ((Hname & Hcf & Hfs & Hfi) & Hv & Hkn).
  assert (Hname1 : st_name st1 = st_name st) by (destruct Hc1 as ((? & _) & _); done).
  rewrite Hname1 in Hnew. rewrite Hname.
  destruct (buildMemoryRecord (st_name st) id content vector options now) as [w|e] eqn:Hb; [|by apply HR; rewrite Hd].
  destruct (record_key _ _ _ _ _ _ _ Hb) as [Hkey Hnd].
  apply wp_bind, wp_write_record.
  - by rewrite Hv.
  - rewrite Hkey. apply not_known_new. by rewrite Hk.
  - intros st3 Hs3 Hv3 Hk3. apply wp_bind, wp_modify, wp_ret. apply (HQ id (row_fields (mw_fields w))).
    + by etrans; [split_and!|exact Hs3].
    + set_solver.
    + by exists vector, w.
    + rewrite Hkey in Hv3. unfold insert_row in Hv3. by rewrite Hd in Hv3.
    + set_solver.
  - intros e st' Hle. apply HR. by rewrite Hd in Hle.
Qed.

(** *** Searching *)
Lemma wp_search filter opts (Q : reply → MemoryStore W → Prop) R st :
  mv_queue (view st) = None →
  (∀ r w st', me_call ("FT.SEARCH" :: index_name (st_name st) :: filter :: opts) (st_world st) = (Ok r, w) →
     st' = update_world w st → calm st st' →
     (∀ hit, hit ∈ parseFtSearchResponse r →
        starts_with (mem_prefix (st_name st)) (fh_key hit) = true ∧ fh_key hit ∈ known st') → Q r st') →
  (∀ e st', call_failed W → data st' = data st → R e st') →
  wp (call ("FT.SEARCH" :: index_name (st_name st) :: filter :: opts)) Q R st.
Proof.
  intros Hq HQ HR. apply wp_read; [done|done| |].
  - intros r w Hc Hv Hk. apply (HQ r w); [done|done|done|]. intros hit Hhit.
    by apply (mv_search (st_name st) filter opts (st_world st) r w hit).
  - intros e w Hf Hv _. by apply HR.
Qed.
Lemma prefix_split p s : starts_with p s = true → s = p +:+ str_drop (String.length p) s.
Proof.
  revert s. induction p as [|a p IH]; intros s; [done|]. destruct s as [|b s]; [done|]. cbn.
  destruct (ascii_dec a b) as [->|]; [|done]. intros H. f_equal. by apply IH.
Qed.
(** The key of an item that a hit was read as is the key of the hit. *)
Lemma item_key name hit :
  starts_with (mem_prefix name) (fh_key hit) = true →
  memory_key name (mi_id (parseMemoryItem name hit)) = fh_key hit.
Proof.
  intros H. cbn [mi_id parseMemoryItem]. unfold item_id. fold (mem_prefix name). rewrite H.
  rewrite (prefix_split _ _ H) at 2. unfold memory_key, mem_prefix, memoryKeyPrefix. by rewrite <- str_app_assoc.
Qed.

(** *** Consolidating *)
(** Every row is still as it was, apart from rows of [gone]. *)
Definition lost_only (gone : list string) (d d' : hashes) : Prop :=
  ∀ key m, d !! key = Some m → d' !! key = Some m ∨ key ∈ gone.
Lemma foldr_delete_lookup keys (d : hashes) key :
  foldr delete d keys !! key = if decide (key ∈ keys) then None else d !! key.
Proof.
  induction keys as [|k keys IH]; cbn [foldr]; [by rewrite decide_False by apply not_elem_of_nil|].
  destruct (decide (key = k)) as [->|Hne].
  - rewrite lookup_delete_eq. by rewrite decide_True by by left.
  - rewrite lookup_delete_ne by congruence. rewrite IH.
    destruct (decide (key ∈ keys)); [by rewrite decide_True by by right|].
    rewrite decide_False; [done|]. rewrite elem_of_cons. naive_solver.
Qed.
Lemma lost_only_delete keys d d' : d ⊆ d' → lost_only keys d (foldr delete d' keys).
Proof.
  intros Hle key m Hm. rewrite foldr_delete_lookup. destruct (decide (key ∈ keys)); [by right|left].
  by eapply lookup_weaken.
Qed.
(** Sources were deleted, and a summary of them is there. *)
Definition summarized (summarize : list MemoryItem → M W string string) (options : ConsolidateOptions)
    (name : string) (d d' : hashes) : Prop :=
  ∃ candidates summary id row now w w',
    cn_deleteSources options = true ∧ summarize candidates w = (Ok summary, w')
    ∧ d' !! memory_key name id = Some row ∧ new_memory name id summary (summary_options options) now row
    ∧ lost_only (map (λ item, memory_key name (mi_id item)) candidates) d d'.
Lemma consolidate_outcomes summarize options st :
  (∀ items, keeps_data (summarize items)) → mv_queue (view st) = None →
  let Post (st' : MemoryStore W) := data st ⊆ data st' ∨ summarized summarize options (st_name st) (data st) (data st') in
  wp (runConsolidate summarize options) (λ _, Post) (λ _, Post) st.
Proof.
  intros Hsum Hq Post. unfold runConsolidate. apply wp_bind, wp_gets.
  destruct (criteria_given _ _ _ _); cbn [negb]; [|by apply wp_throw; left].
  apply wp_bind, wp_gets, wp_bind, wp_search; [done| |by intros e st' _ Hd; left; rewrite Hd].
  intros raw w1 st1 _ _ Hc1 Hhits. pose proof (calm_data _ _ Hc1) as Hd1.
  set (candidates := js_sort by_created _). destruct candidates as [|item items] eqn:Hcand; [by apply wp_ret; left; rewrite Hd1|].
  rewrite <- Hcand. clear item items Hcand. apply wp_bind, wp_calm_env; [apply Hsum| |].
  2:{ intros e st2 Hc2. left. by rewrite (calm_data _ _ Hc2), Hd1. }
  intros summary st2 w2 Hrun _ Hc2. assert (Hc : calm st st2) by by etrans.
  pose proof (calm_data _ _ Hc) as Hd2. destruct Hc as ((Hname & _) & Hv2 & _).
  apply wp_bind, wp_write_memory; [by rewrite Hv2| |by intros e st3 Hle; left; rewrite <- Hd2].
  intros id row st3 Hs3 Hnew Hrow Hv3 Hk3. rewrite Hd2, Hname in Hv3. rewrite Hname in Hnew, Hrow.
  set (key := memory_key (st_name st) id) in *.
  assert (Hfresh : data st !! key = None).
  { rewrite <- Hd2. by apply not_known_new. }
  assert (Hins : data st ⊆ <[key := row]> (data st)) by by apply insert_subseteq.
  set (keys := map _ candidates). assert (Hkeys : key ∉ keys).
  { intros (item & Hk & Hin)%list_elem_of_fmap. apply js_sort_elem, list_elem_of_fmap in Hin as (hit & -> & Hhit).
    destruct (Hhits hit Hhit) as [Hpre Hkn]. rewrite item_key in Hk by done. apply Hnew. rewrite Hk.
    apply Hc2. done. }
  apply wp_bind. destruct (cn_deleteSources options) eqn:Hdel.
  2:{ apply wp_ret, wp_bind, wp_modify, wp_bind, wp_modify, wp_ret. left.
      unfold data, view in *. cbn [st_world update_counts update_metrics]. by rewrite Hv3. }
  assert (Hgone : ∀ st4, data st4 = foldr delete (data st3) keys → Post st4).
  { intros st4 Hd4. right. exists candidates, summary, id, row, (me_now (st_world st)), (st_world st1), w2.
    assert (Hd3 : data st3 = <[key := row]> (data st)) by (unfold data; by rewrite Hv3).
    split; [done|]. split; [exact Hrun|]. rewrite Hd4, Hd3. split_and!; [|done|by apply lost_only_delete].
    rewrite foldr_delete_lookup, decide_False by done. apply lookup_insert_eq. }
  apply wp_bind, wp_del; [by rewrite Hv3| |].
  - intros r w4 _ Hv4 _. apply wp_bind. unfold items_gone. destruct (positive _).
    + apply wp_modify, wp_ret, wp_bind, wp_modify, wp_bind, wp_modify, wp_ret, Hgone.
      unfold data, view. cbn [st_world update_counts update_metrics update_world]. by rewrite Hv4.
    + apply wp_ret, wp_ret, wp_bind, wp_modify, wp_bind, wp_modify, wp_ret, Hgone.
      unfold data, view. cbn [st_world update_counts update_metrics update_world]. by rewrite Hv4.
  - intros e w4 _ [Hv4|Hv4] _; [|by apply Hgone]. left. unfold data, view at 2. cbn [st_world update_world].
    rewrite Hv4. unfold data, view. unfold view in Hv3. by rewrite Hv3.
Qed.

(** *** An exact index *)
Section exact.
Context (name : string) `{!ExactIndex W name}.
Abbreviation found := (matching name ix_matches).
Lemma elem_found cs d key :
  key ∈ found cs d ↔ ∃ row, d !! key = Some row ∧ starts_with (mem_prefix name) key = true ∧ ix_matches cs row = true.
Proof.
  unfold matching. rewrite elem_of_dom. split.
  - intros [row [Hr HP]%map_lookup_filter_Some]. by exists row.
  - intros (row & Hr & HP). exists row. by apply map_lookup_filter_Some.
Qed.
Lemma found_delete cs d gone : found cs (foldr delete d gone) = found cs d ∖ list_to_set gone.
Proof.
  apply set_eq. intros key. rewrite elem_of_difference, !elem_found, elem_of_list_to_set.
  rewrite foldr_delete_lookup. destruct (decide (key ∈ gone)); naive_solver.
Qed.
Lemma found_dom cs d : found cs d ⊆ dom d.
Proof. intros key (row & Hr & _)%elem_found. by apply elem_of_dom_2 in Hr. Qed.
(** What an exact search replies *)
Definition exact_reply (cs : list clause) (opts : list string) (count : Z) (d : hashes) (r : reply) : Prop :=
  let hits := parseFtSearchResponse r in
  ftSearchTotal r = Z.of_nat (size (found cs d))
  ∧ NoDup (map fh_key hits) ∧ js_len hits = Z.min count (Z.of_nat (size (found cs d)))
  ∧ ∀ hit, hit ∈ hits → fh_key hit ∈ found cs d ∧ ∃ row, d !! fh_key hit = Some row
      ∧ ∀ field, shown opts field → jm_get field (fh_fields hit) = row !! field.
Lemma wp_exact_search filter cs opts count (Q : reply → MemoryStore W → Prop) R st :
  st_name st = name → mv_queue (view st) = None → read_query filter = Some (cs, EmptyString) →
  limit_of opts = Some count → 0 ≤ count →
  (∀ r st', calm st st' → exact_reply cs opts count (data st) r → Q r st') →
  (∀ e st', call_failed W → data st' = data st → R e st') →
  wp (call ("FT.SEARCH" :: index_name name :: filter :: opts)) Q R st.
Proof.
  intros Hname Hq Hf Hl Hcount HQ HR. rewrite <- Hname at 1. apply wp_search; [done| |done].
  intros r w st' Hc -> Hcalm _. apply HQ; [done|]. rewrite Hname in Hc.
  exact (ix_search filter cs opts count (st_world st) r w Hq Hf Hl Hcount Hc).
Qed.
Lemma size_keys (hits : list FtSearchHit) : NoDup (map fh_key hits) →
  size (list_to_set (map fh_key hits) : gset string) = length hits.
Proof. intros Hnd. rewrite size_list_to_set by done. by rewrite length_map. Qed.
(** The rows deleted are as many as the keys. *)
Lemma removed_keys cs d (keys : list string) :
  NoDup keys → (∀ k, k ∈ keys → k ∈ found cs d) →
  size (dom d ∩ list_to_set keys) = length keys.
Proof.
  intros Hnd Hin. rewrite <- (size_list_to_set (C := gset string) keys) by done. f_equal.
  apply set_eq. intros k. rewrite elem_of_intersection, elem_of_list_to_set. split; [by intros [_ ?]|].
  intros Hk. split; [|done]. apply (found_dom cs d). by apply Hin.
Qed.

(** *** Forgetting a scope *)
(** The rows [gone], each of them found, were deleted. *)
Definition erased (cs : list clause) (d : hashes) (gone : list string) (d' : hashes) : Prop :=
  NoDup gone ∧ (∀ k, k ∈ gone → k ∈ found cs d) ∧ d' = foldr delete d gone.
Lemma erased_nil cs d : erased cs d [] d.
Proof. split; [constructor|]. split; [|done]. intros k Hk. by apply not_elem_of_nil in Hk. Qed.
Lemma erased_app cs d keys gone d' :
  NoDup keys → (∀ k, k ∈ keys → k ∈ found cs d) → erased cs (foldr delete d keys) gone d' →
  erased cs d (gone ++ keys) d'.
Proof.
  intros Hnd Hin (Hg & Hsub & ->). split_and!.
  - apply NoDup_app. split_and!; [done| |done]. intros k Hk Hk'. apply Hsub in Hk.
    rewrite found_delete in Hk. set_solver.
  - intros k [Hk|Hk]%elem_of_app; [|by apply Hin]. apply Hsub in Hk. rewrite found_delete in Hk. set_solver.
  - by rewrite foldr_app.
Qed.
Lemma limit_parsed n : 0 ≤ n → limit_of ["LIMIT"; "0"; string_of_Z n; "DIALECT"; "2"] = Some n.
Proof. intros Hn. cbn. by apply parse_int_string. Qed.
Lemma forget_rounds_spec filter cs rounds : read_query filter = Some (cs, EmptyString) → ∀ acc st,
  st_name st = name → mv_queue (view st) = None →
  wp (forget_rounds rounds name filter (Some acc))
    (λ deleted st', same_settings st st' ∧ ∃ gone, erased cs (data st) gone (data st')
       ∧ deleted = Some (acc + js_len gone)
       ∧ js_len gone = Z.min (FORGET_BATCH_SIZE * Z.of_nat rounds) (Z.of_nat (size (found cs (data st)))))
    (λ _ st', call_failed W ∧ ∃ gone, erased cs (data st) gone (data st')) st.
Proof.
  intros Hf. induction rounds as [|rounds IH]; intros acc st Hname Hq; cbn [forget_rounds].
  { apply wp_ret. split; [done|]. exists []. split; [apply erased_nil|]. split; [f_equal; unfold js_len; cbn [length]; lia|].
    unfold js_len, FORGET_BATCH_SIZE. cbn [length]. lia. }
  apply wp_bind. eapply wp_exact_search; [done|done|exact Hf|by apply limit_parsed|done| |].
  2:{ intros e st' Hfail Hd. split; [done|]. exists []. rewrite Hd. apply erased_nil. }
  intros r st1 Hc1 (_ & Hnd & Hlen & Hhits). pose proof (calm_data _ _ Hc1) as Hd1.
  assert (Hq1 : mv_queue (view st1) = None) by (destruct Hc1 as (_ & -> & _); done).
  set (hits := parseFtSearchResponse r) in *. destruct (map fh_key hits) as [|key keys] eqn:Hkeys.
  { apply wp_ret. assert (hits = []) as Hnil by by destruct hits. rewrite Hnil in Hlen.
    split; [apply Hc1|]. exists []. rewrite Hd1. split; [apply erased_nil|].
    unfold js_len, FORGET_BATCH_SIZE in *. cbn [length] in *. split; [f_equal; lia|]. lia. }
  rewrite <- Hkeys in *. assert (Hne : (0 < length hits)%nat) by (destruct hits; [done|cbn; lia]).
  clear key keys Hkeys. set (keys := map fh_key hits) in *.
  assert (Hin : ∀ k, k ∈ keys → k ∈ found cs (data st)).
  { intros k (hit & -> & Hhit)%list_elem_of_fmap. by apply Hhits. }
  apply wp_bind, wp_del; [done| |].
  2:{ intros e w Hfail Hw _. split; [done|].
      change (data (update_world w st1)) with (mv_data (mv_view w)). rewrite Hd1 in Hw. destruct Hw as [-> | ->]; [exists []; apply erased_nil|].
      exists ([] ++ keys). apply erased_app; [done|done|apply erased_nil]. }
  intros r2 w Hn Hv _. rewrite Hd1 in Hn, Hv. rewrite (removed_keys cs) in Hn by done.
  assert (Hlk : length keys = length hits) by apply length_map. rewrite Hn. cbn [opt_add mbind option_bind].
  rewrite decide_False by (intros [= ?]; lia).
  set (st2 := update_world w st1). assert (Hd2 : data st2 = foldr delete (data st) keys).
  { unfold data, view, st2. cbn [st_world update_world]. by rewrite Hv. }
  assert (Hs2 : same_settings st st2) by apply Hc1.
  eapply wp_mono; [apply IH| |].
  - by destruct Hs2 as [-> _].
  - unfold view, st2. cbn [st_world update_world]. by rewrite Hv.
  - intros deleted st3 (Hs3 & gone & Her & -> & Hg). rewrite Hd2 in Her, Hg. split; [by etrans|].
    exists (gone ++ keys). split; [by apply erased_app|]. unfold js_len in *. rewrite length_app.
    rewrite found_delete, size_difference in Hg by (intros k Hk; apply Hin; set_solver).
    rewrite size_list_to_set in Hg by done. unfold FORGET_BATCH_SIZE in *. split; [f_equal; lia|]. lia.
  - intros e st3 (Hfail & gone & Her). split; [done|]. rewrite Hd2 in Her. exists (gone ++ keys). by apply erased_app.
Qed.
Lemma forget_scope_spec scope tags st :
  let cs := or_all (scope_reads scope tags) in
  scope_given scope tags = true → st_name st = name → mv_queue (view st) = None →
  wp (forgetByScope scope tags)
    (λ deleted st', ∃ gone, erased cs (data st) gone (data st') ∧ deleted = Some (js_len gone)
       ∧ js_len gone = Z.min (FORGET_BATCH_SIZE * FORGET_MAX_BATCHES) (Z.of_nat (size (found cs (data st)))))
    (λ _ st', call_failed W ∧ ∃ gone, erased cs (data st) gone (data st')) st.
Proof.
  intros cs Hscope Hname Hq. unfold forgetByScope. rewrite Hscope. cbn [negb].
  apply wp_bind, wp_gets, wp_bind. rewrite Hname.
  assert (Hread : read_query (buildScopeFilter scope tags) = Some (cs, EmptyString)).
  { pose proof (scope_filter_read scope tags EmptyString) as H. by rewrite str_app_nil_r in H. }
  eapply wp_mono; [by apply (forget_rounds_spec _ cs _ Hread)| |done].
  intros deleted st1 (_ & gone & Her & -> & Hlen). rewrite Z2Nat.id in Hlen by done.
  apply wp_bind. destruct (positive _); [apply wp_bind, wp_modify, wp_modify|apply wp_ret]; apply wp_ret; by exists gone.
Qed.

(** *** Capacity *)
Lemma scope_filter_given scope tags :
  scope_given scope tags = true → str_eqb (buildScopeFilter scope tags) MATCH_ALL_MEMORY_QUERY = false.
Proof.
  intros Hg. apply bool_decide_eq_false. unfold buildScopeFilter, joinClauses, scopeClauses.
  destruct (scope_tags scope tags) as [|p l] eqn:Ht; [|by cbn].
  exfalso. revert Hg Ht. unfold scope_given, scope_tags, opt_field.
  by destruct (sc_threadId scope), (sc_agentId scope), (sc_namespace scope), tags.
Qed.
Lemma select_evictions_keys math_exp candidates maxItems now halfLife weights :
  let evicted := selectEvictions math_exp candidates maxItems now halfLife weights in
  (∃ rest, map ec_key candidates ≡ₚ evicted ++ rest)
  ∧ js_len evicted = Z.max 0 (js_len candidates - Z.max 0 maxItems).
Proof.
  unfold selectEvictions. set (d := js_len candidates - Z.max 0 maxItems). cbv zeta.
  destruct (Z.leb_spec d 0) as [Hd|Hd].
  - split; [by exists (map ec_key candidates)|]. unfold js_len at 1. cbn. lia.
  - set (l := js_sort _ candidates). change (js_slice 0 d l) with (js_slice 0 (0 + d) l). rewrite js_slice_prefix by lia. split.
    + exists (map ec_key (drop (Z.to_nat d) l)). rewrite <- map_app, take_drop. unfold l. by rewrite js_sort_perm.
    + unfold js_len in *. rewrite length_map, length_take. unfold l. rewrite js_sort_length. lia.
Qed.
Lemma stats_key_apart n : starts_with (mem_prefix n) (stats_key n) = false.
Proof.
  unfold mem_prefix, memoryKeyPrefix, stats_key. induction n as [|c n IH]; [done|]. cbn.
  by destruct (ascii_dec c c).
Qed.
Lemma found_insert cs d key row : found cs (<[key := row]> d) ⊆ {[key]} ∪ found cs d.
Proof.
  intros k (r & Hr & HP)%elem_found. destruct (decide (k = key)) as [->|Hne]; [set_solver|].
  rewrite lookup_insert_ne in Hr by congruence. apply elem_of_union_r, elem_found. by exists r.
Qed.
Lemma found_stats cs d row : found cs (<[stats_key name := row]> d) = found cs d.
Proof.
  apply set_eq. intros k. rewrite !elem_found. destruct (decide (k = stats_key name)) as [->|Hne].
  - pose proof (stats_key_apart name). naive_solver congruence.
  - by rewrite lookup_insert_ne by congruence.
Qed.
(** Rows that neither match nor count evictions stay. *)
Definition others_kept (cs : list clause) (d d' : hashes) : Prop :=
  ∀ key, key ∉ found cs d → key ≠ stats_key name → d' !! key = d !! key.
Lemma capacity_spec math_exp scope tags now max st :
  let cs := or_all (scope_reads scope tags) in
  cg_maxItemsPerScope (st_config st) = Some max → scope_given scope tags = true →
  st_name st = name → mv_queue (view st) = None →
  wp (enforceCapacity math_exp scope tags now)
    (λ _ st', Z.of_nat (size (found cs (data st')))
                ≤ Z.max (Z.max 0 max) (Z.of_nat (size (found cs (data st))) - EVICTION_SCAN_LIMIT)
              ∧ others_kept cs (data st) (data st'))
    (λ _ st', call_failed W) st.
Proof.
  intros cs Hmax Hscope Hname Hq. unfold enforceCapacity. apply wp_bind, wp_get_state. rewrite Hmax.
  rewrite scope_filter_given by done. rewrite Hname.
  assert (Hread : read_query (buildScopeFilter scope tags) = Some (cs, EmptyString)).
  { pose proof (scope_filter_read scope tags EmptyString) as H. by rewrite str_app_nil_r in H. }
  apply wp_bind. eapply wp_exact_search; [done|done|exact Hread|by apply (limit_parsed 0)|done| |done].
  intros r1 st1 Hc1 (Htotal & _). pose proof (calm_data _ _ Hc1) as Hd1. rewrite Htotal. clear r1 Htotal.
  set (n := size (found cs (data st))) in *. destruct (Z.leb_spec (Z.of_nat n) max) as [Hle|Hgt].
  { apply wp_ret. rewrite Hd1. fold n. split; [lia|done]. }
  destruct Hc1 as ((Hname1 & _) & Hv1 & _).
  apply wp_bind. eapply wp_exact_search; [congruence|by rewrite Hv1|exact Hread|by apply parse_int_string|done| |done].
  intros r2 st2 Hc2 (_ & Hnd & Hlen & Hhits). pose proof (calm_data _ _ Hc2) as Hd2.
  destruct Hc2 as ((Hname2 & _) & Hv2 & _). rewrite Hd1 in Hlen, Hhits, Hd2. fold n in Hlen.
  set (hits := parseFtSearchResponse r2) in *. set (candidates := map eviction_candidate hits).
  assert (Hck : map ec_key candidates = map fh_key hits) by (unfold candidates; by rewrite map_map).
  assert (Hcl : js_len candidates = js_len hits) by (unfold js_len, candidates; by rewrite length_map).
  set (drops := Z.min (Z.of_nat n - max) (js_len candidates)).
  destruct (select_evictions_keys math_exp candidates (js_len candidates - drops) now
              (cg_halfLifeSeconds (st_config st)) (cg_weights (st_config st))) as [[rest Hperm] Helen].
  set (evicted := selectEvictions _ _ _ _ _ _) in *. rewrite Hck in Hperm.
  assert (Hn0 : 0 ≤ js_len hits) by (unfold js_len; lia).
  assert (Hin : ∀ k, k ∈ evicted → k ∈ found cs (data st)).
  { intros k Hk. assert (Hk' : k ∈ map fh_key hits) by (rewrite Hperm; apply elem_of_app; by left).
    apply list_elem_of_fmap in Hk' as (hit & -> & Hhit). by apply Hhits. }
  assert (HndE : NoDup evicted) by (rewrite Hperm in Hnd; by apply NoDup_app in Hnd as (? & _)).
  assert (Hsize : Z.of_nat (size (found cs (foldr delete (data st) evicted))) = Z.of_nat n - js_len evicted).
  { rewrite found_delete, size_difference by set_solver. rewrite size_list_to_set by done.
    assert (length evicted ≤ n)%nat; [|unfold js_len; fold n; lia].
    rewrite <- (size_list_to_set (C := gset string)) by done. apply subseteq_size. set_solver. }
  assert (Hbound : Z.of_nat n - js_len evicted ≤ Z.max (Z.max 0 max) (Z.of_nat n - EVICTION_SCAN_LIMIT)).
  { unfold EVICTION_SCAN_LIMIT, drops in *. lia. }
  assert (Hkeep : others_kept cs (data st) (foldr delete (data st) evicted)).
  { intros key Hk _. rewrite foldr_delete_lookup, decide_False; [done|]. intros Hke. by apply Hk, Hin. }
  assert (Hfin : ∀ row, let d' := <[stats_key name := row]> (foldr delete (data st) evicted) in
    Z.of_nat (size (found cs d')) ≤ Z.max (Z.max 0 max) (Z.of_nat n - EVICTION_SCAN_LIMIT)
    ∧ others_kept cs (data st) d').
  { intros row d'. unfold d'. rewrite found_stats, Hsize. split; [done|]. intros key Hk Hne.
    rewrite lookup_insert_ne by congruence. by apply Hkeep. }
  destruct evicted as [|key keys] eqn:Hev.
  { apply wp_ret. rewrite Hd2. fold n. split; [|done]. unfold js_len at 1 in Hbound. cbn [length] in Hbound. lia. }
  rewrite <- Hev in *. clear key keys Hev.
  assert (Hq2 : mv_queue (view st2) = None) by (rewrite Hv2, Hv1; done).
  apply wp_bind, wp_del; [done| |done].
  intros r3 w3 Hrem Hv3 _. rewrite Hd2 in Hrem, Hv3. rewrite (removed_keys cs) in Hrem by done. rewrite Hrem.
  set (st3 := update_world w3 st2). assert (Hd3 : data st3 = foldr delete (data st) evicted).
  { unfold data, view, st3. cbn [st_world update_world]. by rewrite Hv3. }
  destruct (positive _) eqn:Hpos; cbn [negb].
  2:{ apply wp_ret. rewrite Hd3, Hsize. done. }
  cbn [default]. apply wp_bind, wp_call; [|done].
  intros r4 w4 _ Hv4 _. apply wp_bind, wp_modify, wp_bind, wp_modify, wp_modify.
  assert (Hq3 : mv_queue (view st3) = None) by (unfold view, st3; cbn [st_world update_world]; by rewrite Hv3).
  rewrite issue_plain in Hv4 by done. fold (data st3) in Hv4. rewrite Hd3 in Hv4.
  unfold data, view. cbn [st_world update_counts update_metrics update_world]. rewrite Hv4.
  cbn [mv_data run_command]. apply Hfin.
Qed.
Lemma remember_spec math_exp content options max st :
  let cs := or_all (scope_reads (ro_scope options) (ro_tags options)) in
  ¬ call_failed W →
  cg_maxItemsPerScope (st_config st) = Some max → scope_given (ro_scope options) (ro_tags options) = true →
  st_name st = name → mv_queue (view st) = None →
  wp (remember math_exp content options)
    (λ id st', ∃ key, (key ∉ known st)
       ∧ Z.of_nat (size (found cs (data st')))
           ≤ Z.max (Z.max 0 max) (Z.of_nat (size (found cs (data st))) + 1 - EVICTION_SCAN_LIMIT)
       ∧ ∀ k, k ∉ found cs (data st) → k ≠ stats_key name → k ≠ key → data st' !! k = data st !! k)
    (λ _ _, True) st.
Proof.
  intros cs Hrel Hmax Hscope Hname Hq. unfold remember. apply wp_bind, wp_gets, wp_bind, wp_write_memory; [done| |done].
  intros id row st1 (Hname1 & Hcf1 & _) Hnew _ Hv1 _. set (key := memory_key _ id) in *.
  set (d1 := <[key := row]> (data st)). apply wp_bind, wp_modify, wp_bind, wp_ignore.
  set (st2 := update_counts _ st1). assert (Hd2 : data st2 = d1).
  { unfold data, view, st2. cbn [st_world update_counts]. unfold view in Hv1. by rewrite Hv1. }
  eapply wp_mono; [apply (capacity_spec math_exp _ _ _ max)| |].
  - unfold st2. cbn [st_config update_counts]. by rewrite Hcf1.
  - done.
  - unfold st2. cbn [st_name update_counts]. congruence.
  - unfold view, st2. cbn [st_world update_counts]. unfold view in Hv1. by rewrite Hv1.
  - intros _ st3 [Hsize Hkeep]. apply wp_ret. exists key. split; [done|]. rewrite Hd2 in Hsize, Hkeep.
    pose proof (subseteq_size _ _ (found_insert cs (data st) key row)) as Hle. rewrite size_union_alt in Hle.
    rewrite size_singleton in Hle. pose proof (subseteq_size (found cs (data st) ∖ {[key]}) (found cs (data st)) ltac:(set_solver)).
    split; [unfold d1 in Hsize; fold cs in Hsize; lia|]. intros k Hk Hs Hne. rewrite Hkeep; [|set_unfold|done].
    + unfold d1. by rewrite lookup_insert_ne.
    + intros Hin%found_insert. fold cs in Hk. set_solver.
  - done.
Qed.
End exact.

(** *** Recalling *)
(** Rows neither come nor go; only the marks of access change. *)
Definition touched (d d' : hashes) : Prop :=
  dom d' = dom d ∧ ∀ key row row' field,
    d !! key = Some row → d' !! key = Some row' → field ≠ "last_accessed_at" → field ≠ "access_count" →
    row' !! field = row !! field.
#[global] Instance touched_preorder : PreOrder touched.
Proof.
  split.
  - intros d. split; [done|]. intros key row row' field. by intros -> [= ->].
  - intros d1 d2 d3 [Hd12 H12] [Hd23 H23]. split; [by rewrite Hd23|]. intros key row row' field Hr Hr' Hf1 Hf2.
    assert (Hk : key ∈ dom d2) by (rewrite Hd12; by apply elem_of_dom_2 in Hr).
    apply elem_of_dom in Hk as [row2 Hr2]. rewrite (H23 key row2) by done. by apply (H12 key).
Qed.
Lemma touched_field key field value d :
  is_Some (d !! key) → field = "last_accessed_at" ∨ field = "access_count" →
  touched d (<[key := <[field := value]> (row_of key d)]> d).
Proof.
  intros [row Hr] Hf. split; [rewrite dom_insert_L; apply elem_of_dom_2 in Hr; set_solver|].
  intros k r r' f Hk Hk' Hf1 Hf2. unfold row_of in Hk'. rewrite Hr in Hk'. cbn in Hk'.
  destruct (decide (k = key)) as [->|Hne].
  - rewrite lookup_insert_eq in Hk'. injection Hk' as <-. rewrite Hr in Hk. injection Hk as ->.
    rewrite lookup_insert_ne; [done|]. destruct Hf; congruence.
  - rewrite lookup_insert_ne in Hk' by congruence. congruence.
Qed.
Lemma run_hset key field value d :
  run_command ["HSET"; key; field; value] d = <[key := <[field := value]> (row_of key d)]> d.
Proof. done. Qed.
Lemma run_hincrby key field n d :
  run_command ["HINCRBY"; key; field; n] d
  = <[key := <[field := string_of_Z (int_field field (row_of key d)
                          + default 0 (num_to_Z (num_of_string n)))]> (row_of key d)]> d.
Proof. done. Qed.
Lemma reinforce_spec hits now st :
  mv_queue (view st) = None →
  wp (reinforce hits now) (λ _ st', touched (data st) (data st')) (λ _ st', touched (data st) (data st')) st.
Proof.
  intros Hq. unfold reinforce. apply wp_bind, wp_gets.
  eapply wp_mono; [apply (wp_for_each _ (λ _ st', mv_queue (view st') = None ∧ touched (data st) (data st'))
    (λ _ st', touched (data st) (data st')))| |].
  - by split.
  - intros hit rest st1 [Hq1 Ht1]. set (key := memory_key _ _). apply wp_bind, wp_call_as, wp_read; [done|done| |].
    2:{ intros e w _ Hd _. cbv beta. change (data (update_world w st1)) with (mv_data (mv_view w)). by rewrite Hd. }
    intros r w Hc Hv _. set (st2 := update_world w st1). assert (Hv2 : view st2 = view st1) by done.
    rewrite (mv_exists key (st_world st1) r w Hq1 Hc). destruct (decide (is_Some _)) as [Hsome|Hnone].
    2:{ rewrite decide_True by done. apply wp_ret. unfold data. by rewrite Hv2. }
    rewrite decide_False by done. assert (Hd2 : data st2 = data st1) by (unfold data; by rewrite Hv2).
    fold (view st1) in Hsome. fold (data st1) in Hsome.
    assert (Hq2 : mv_queue (view st2) = None) by by rewrite Hv2.
    pose proof (issue_plain ["HSET"; key; "last_accessed_at"; string_of_Z now] (view st2) Hq2 eq_refl eq_refl eq_refl) as Hi.
    fold (data st2) in Hi. rewrite Hd2, run_hset in Hi.
    set (d3 := <[key := _]> (data st1)) in Hi.
    assert (Ht3 : touched (data st1) d3) by (apply touched_field; [done|by left]).
    apply wp_bind, wp_call; rewrite Hi.
    2:{ intros e w3 _ Hw _. cbv beta. change (data (update_world w3 st2)) with (mv_data (mv_view w3)).
        rewrite Hd2 in Hw. cbn [mv_data] in Hw. destruct Hw as [-> | ->]; [done|by etrans]. }
    intros r3 w3 _ Hv3 _. set (st3 := update_world w3 st2).
    assert (Hd3 : data st3 = d3) by (change (data st3) with (mv_data (mv_view w3)); by rewrite Hv3).
    assert (Hq3 : mv_queue (view st3) = None) by (change (view st3) with (mv_view w3); by rewrite Hv3).
    pose proof (issue_plain ["HINCRBY"; key; "access_count"; "1"] (view st3) Hq3 eq_refl eq_refl eq_refl) as Hi4.
    fold (data st3) in Hi4. rewrite Hd3, run_hincrby in Hi4.
    set (d4 := <[key := _]> d3) in Hi4.
    assert (Ht4 : touched (data st1) d4).
    { etrans; [exact Ht3|]. apply touched_field; [|by right]. unfold d3. rewrite lookup_insert_eq. by eexists. }
    apply wp_bind, wp_call; rewrite Hi4.
    2:{ intros e w4 _ Hw _. cbv beta. change (data (update_world w4 st3)) with (mv_data (mv_view w4)).
        rewrite Hd3 in Hw. cbn [mv_data] in Hw. destruct Hw as [-> | ->]; (etrans; [exact Ht1|done]). }
    intros r4 w4 _ Hv4 _. apply wp_ret. cbv beta. change (view (update_world w4 st3)) with (mv_view w4).
    change (data (update_world w4 st3)) with (mv_data (mv_view w4)). rewrite Hv4. split; [done|]. by (etrans; [exact Ht1|]).
  - by intros _ st' [_ ?].
  - done.
Qed.
Lemma recall_spec math_exp vector options st :
  mv_queue (view st) = None →
  wp (recallByVector math_exp vector options)
    (λ _ st', touched (data st) (data st')) (λ _ st', touched (data st) (data st')) st.
Proof.
  intros Hq. unfold recallByVector, runRecall. apply wp_bind, wp_get_state, wp_bind, wp_search; [done| |by intros e st' _ ->].
  intros raw w st1 _ _ Hc1 _. pose proof (calm_data _ _ Hc1) as Hd1. destruct Hc1 as (_ & Hv1 & _).
  apply wp_bind, wp_gets, wp_bind. set (result := rank_hits _ _).
  eapply (wp_mono _ (λ _ st', view st' = view st1) _ (λ _ _, False)); [| |done].
  { unfold report_near_miss. by case_match; [apply wp_bind, wp_modify, wp_modify|apply wp_ret]. }
  intros _ st2 Hv2. apply wp_bind, wp_bind, wp_modify, wp_modify, wp_bind, wp_modify, wp_bind.
  set (st3 := update_counts _ _). assert (Hv3 : view st3 = view st1) by exact Hv2.
  assert (Hd3 : data st3 = data st) by (unfold data at 1; by rewrite Hv3).
  assert (Hq3 : mv_queue (view st3) = None) by by rewrite Hv3, Hv1.
  destruct (rc_reinforce options); [|by apply wp_ret, wp_ret; rewrite Hd3].
  apply wp_ignore. pose proof (reinforce_spec result (me_now (st_world st1)) st3 Hq3) as Hr. rewrite Hd3 in Hr.
  eapply wp_mono; [exact Hr| |]; intros; by apply wp_ret.
Qed.
End rules.

(** *** The hits of a recall *)
Section ranking.
Context {W : Type} `{!MemoryEnv W} (math_exp : number → number).
Hypothesis exp_canonical : ∀ x, canonical (math_exp x).
Definition canonical_weights (w : RecallWeights) : Prop :=
  canonical (w_similarity w) ∧ canonical (w_recency w) ∧ canonical (w_importance w).

Lemma recall_hit_good name now threshold halfLife weights hit h :
  canonical_weights weights → recall_hit math_exp name now threshold halfLife weights hit = Some h →
  good_number (ht_score h) ∧ is_finite (ht_similarity h) = true ∧ num_ltb threshold (ht_similarity h) = false.
Proof using exp_canonical.
  intros (Hw1 & Hw2 & Hw3). unfold recall_hit. destruct (hit_distance hit) as [distance|] eqn:Hd; [|done].
  cbn [mbind option_bind]. destruct (num_ltb threshold distance) eqn:Ht; [done|].
  destruct (is_finite _) eqn:Hs; [|done]. intros [= <-]. cbn [ht_score ht_similarity].
  split; [split; [done|]|split; [|done]].
  - apply composite_score_canonical; try done; [|apply parse_float_canonical].
    unfold similarityFromDistance. auto with canonical.
  - revert Hd. unfold hit_distance. destruct (jm_get _ _); [|done]. cbn [mbind option_bind].
    destruct (is_empty _); [done|]. destruct (is_finite (num_of_string s)) eqn:Hf; [|done]. by intros [= <-].
Qed.
Lemma rank_hits_split k hits :
  0 ≤ k → Forall (λ h, good_number (ht_score h)) hits →
  let result := rank_hits k hits in
  StronglySorted (λ a b, val (ht_score b) ≤ val (ht_score a)) result
  ∧ js_len result = Z.min k (js_len hits)
  ∧ ∃ rest, hits ≡ₚ result ++ rest ∧ ∀ x y, x ∈ result → y ∈ rest → val (ht_score y) ≤ val (ht_score x).
Proof using Type.
  intros Hk Hgood. unfold rank_hits. rewrite by_num_desc_sorts by done.
  set (l := js_sort _ hits). change (js_slice 0 k l) with (js_slice 0 (0 + k) l). rewrite js_slice_prefix by done.
  pose proof (js_sort_desc_sorted (λ x, val (ht_score x)) hits) as Hsort. fold l in Hsort. cbv zeta. split_and!.
  - rewrite <- (take_drop (Z.to_nat k) l) in Hsort. by apply StronglySorted_app_1_l in Hsort.
  - unfold js_len. rewrite length_take. unfold l. rewrite js_sort_length. lia.
  - exists (drop (Z.to_nat k) l). split; [by rewrite take_drop; unfold l; rewrite js_sort_perm|].
    intros x y Hx Hy. exact (sorted_take_drop _ l _ x y Hsort Hx Hy).
Qed.
(** A recall whose search is answered returns. *)
Lemma recall_returns vector options st raw w :
  me_call (recall_args (st_name st) vector options) (st_world st) = (Ok raw, w) →
  wp (recallByVector math_exp vector options)
    (λ result _, result = rank_hits (default DEFAULT_RECALL_K (rc_k options))
                            (qualified math_exp st options (me_now w) raw)) (λ _ _, False) st.
Proof using Type.
  intros Hc. unfold recallByVector, runRecall. apply wp_bind, wp_get_state, wp_bind, wp_in_env;
    rewrite Hc; [|done]. intros r w' [= <- <-]. apply wp_bind, wp_gets, wp_bind.
  eapply (wp_mono _ (λ _ _, True) _ (λ _ _, False)); [| |done].
  { unfold report_near_miss. by case_match; [apply wp_bind, wp_modify, wp_modify|apply wp_ret]. }
  intros _ st2 _. apply wp_bind, wp_bind, wp_modify, wp_modify, wp_bind, wp_modify, wp_bind.
  destruct (rc_reinforce options); [|by apply wp_ret, wp_ret]. apply wp_ignore.
  unfold wp. by destruct (reinforce _ _ _) as [[[]|e] st3].
Qed.
End ranking.

(** *** Tracking the stored facts *)
Section tracking.
Context (toLowerCase : string → string).
Abbreviation key_of := (subjectKey toLowerCase).
Abbreviation rows_of acc := (map (λ row : string * (string * string), row.2.1) acc).
Definition has_subject (item : MemoryItem) : bool := is_some (mi_subject item).
Lemma map_set_new {V} (f : V → string) k v (m : list (string * V)) :
  jm_get k m = None → map (λ row, f row.2) (jm_set k v m) = map (λ row, f row.2) m ++ [f v].
Proof.
  induction m as [|[k' v'] m IH]; [done|]. cbn. destruct (decide (k = k')); [done|]. intros Hk. cbn [map]. by rewrite IH.
Qed.
(** The rows tracked and the duplicates are the rows with a subject. *)
Lemma track_ids items : ∀ rows dups,
  let '(rows', dups') := foldl (track_fact toLowerCase) (rows, dups) items in
  dups' ++ rows_of rows' ≡ₚ (dups ++ rows_of rows) ++ map mi_id (js_filter has_subject items).
Proof.
  induction items as [|item items IH]; intros rows dups; cbn [foldl].
  { by rewrite app_nil_r. }
  cbn [js_filter]. change (has_subject item) with (is_some (mi_subject item)). unfold track_fact at 2. destruct (mi_subject item) as [s|]; cbn [is_some]; [|apply IH].
  unfold jm_has. destruct (jm_get (key_of s) rows) as [v|] eqn:Hg; cbn [map].
  - specialize (IH rows (dups ++ [mi_id item])). destruct (foldl _ _ _) as [rows' dups'].
    rewrite IH. solve_Permutation.
  - specialize (IH (jm_set (key_of s) (mi_id item, mi_content item) rows) dups).
    destruct (foldl _ _ _) as [rows' dups']. rewrite IH, (map_set_new fst) by done. cbn [fst]. solve_Permutation.
Qed.
(** What is tracked of a subject is a row of it, and every row with a subject is tracked or a
    duplicate. *)
Definition tracked (items : list MemoryItem) (rows : list (string * (string * string))) (dups : list string) : Prop :=
  jm_wf rows
  ∧ (∀ key id content, jm_get key rows = Some (id, content) →
       ∃ item s, item ∈ items ∧ mi_subject item = Some s ∧ key_of s = key ∧ mi_id item = id ∧ mi_content item = content)
  ∧ ∀ item s, item ∈ items → mi_subject item = Some s →
      jm_get (key_of s) rows = Some (mi_id item, mi_content item) ∨ mi_id item ∈ dups.
Lemma track_spec items : ∀ before rows dups,
  tracked before rows dups →
  let '(rows', dups') := foldl (track_fact toLowerCase) (rows, dups) items in
  tracked (before ++ items) rows' dups'.
Proof.
  induction items as [|item items IH]; intros before rows dups Ht; cbn [foldl]; [by rewrite app_nil_r|].
  assert (Hstep : let '(rows1, dups1) := track_fact toLowerCase (rows, dups) item in tracked (before ++ [item]) rows1 dups1).
  { destruct Ht as (Hwf & H1 & H2). cbn [track_fact]. unfold jm_has.
    destruct (mi_subject item) as [s|] eqn:Hs; [destruct (jm_get (key_of s) rows) as [v|] eqn:Hg|].
    - split_and!; [done| |].
      + intros key id content (i & s' & Hi & ?)%H1. exists i, s'. split; [set_solver|done].
      + intros i s' [Hi| ->%list_elem_of_singleton]%elem_of_app Hs'; [|right; set_solver].
        destruct (H2 i s' Hi Hs') as [?|?]; [by left|right; set_solver].
    - split_and!; [by apply jm_wf_set| |].
      + intros key id content. rewrite jm_get_set. destruct (decide (key = key_of s)) as [->|Hne].
        * intros [= <- <-]. exists item, s. split; [set_solver|done].
        * intros (i & s' & Hi & ?)%H1. exists i, s'. split; [set_solver|done].
      + intros i s' [Hi| ->%list_elem_of_singleton]%elem_of_app Hs'.
        * destruct (H2 i s' Hi Hs') as [Hl|?]; [left|by right]. rewrite jm_get_set, decide_False; [done|]. congruence.
        * left. rewrite Hs in Hs'. injection Hs' as <-. by rewrite jm_get_set, decide_True.
    - split_and!; [done| |].
      + intros key id content (i & s' & Hi & ?)%H1. exists i, s'. split; [set_solver|done].
      + intros i s' [Hi| ->%list_elem_of_singleton]%elem_of_app Hs'; [by apply H2|congruence]. }
  destruct (track_fact toLowerCase (rows, dups) item) as [rows1 dups1].
  specialize (IH _ _ _ Hstep). destruct (foldl _ _ _) as [rows' dups']. by rewrite <- app_assoc in IH.
Qed.
End tracking.

(** *** Consolidating facts *)
Lemma memory_key_inj name a b : memory_key name a = memory_key name b → a = b.
Proof.
  unfold memory_key. rewrite <- !str_app_assoc. intros H.
  rewrite <- (str_drop_app (name +:+ ":mem:") a), <- (str_drop_app (name +:+ ":mem:") b). by rewrite H.
Qed.
Lemma NoDup_map_inj {A B} (f : A → B) l x y :
  NoDup (map f l) → x ∈ l → y ∈ l → f x = f y → x = y.
Proof.
  induction l as [|z l IH]; [by intros _ Hx%not_elem_of_nil|]. cbn. intros [Hz Hnd]%NoDup_cons Hx Hy Hf.
  apply elem_of_cons in Hx as [->|Hx], Hy as [->|Hy]; [done| | |by apply IH].
  - destruct Hz. rewrite Hf. by apply list_elem_of_fmap_2.
  - destruct Hz. rewrite <- Hf. by apply list_elem_of_fmap_2.
Qed.
Section facts.
Context (toLowerCase : string → string) (name : string).
Abbreviation key_of := (subjectKey toLowerCase).
(** An item that was read from a row *)
Definition read_from (d : hashes) (item : MemoryItem) : Prop :=
  ∃ row, d !! memory_key name (mi_id item) = Some row
    ∧ mi_content item = default EmptyString (row !! "content") ∧ mi_subject item = row !! "subject"
    ∧ mi_date item = row !! "date".
Definition loaded (d : hashes) (existing : list MemoryItem) : Prop :=
  NoDup (map mi_id existing) ∧ ∀ item, item ∈ existing → read_from d item.
(** A row that tells a fact *)
Definition told (d : hashes) (fact : Fact) : Prop :=
  ∃ id row subject, d !! memory_key name id = Some row ∧ row !! "subject" = Some subject
    ∧ key_of subject = key_of (fa_subject fact)
    ∧ default EmptyString (row !! "content") = factContent fact.
Definition curated_map (curated : list Fact) : list (string * Fact) :=
  foldl (λ m fact, jm_set (key_of (fa_subject fact)) fact m) [] curated.
Lemma curated_map_get curated key :
  NoDup (map (λ f, key_of (fa_subject f)) curated) →
  jm_get key (curated_map curated) = js_find (of_subject toLowerCase key) curated.
Proof.
  intros Hnd. unfold curated_map.
  enough (Hall : ∀ m, jm_get key (foldl (λ m fact, jm_set (key_of (fa_subject fact)) fact m) m curated)
    = match js_find (of_subject toLowerCase key) curated with Some f => Some f | None => jm_get key m end).
  { rewrite Hall. by destruct (js_find _ _). }
  induction curated as [|fact curated IH]; intros m; [done|]. cbn in Hnd. apply NoDup_cons in Hnd as [Hnot Hnd].
  cbn [foldl js_find]. rewrite IH by done. rewrite of_subject_key. unfold fact_key.
  rewrite jm_get_set. destruct (decide (key = key_of (fa_subject fact))) as [->|Hne].
  - rewrite bool_decide_eq_true_2 by done. destruct (js_find _ curated) as [g|] eqn:Hf; [|done].
    exfalso. apply js_find_Some in Hf as [Hg Hin]. rewrite of_subject_key in Hg. apply bool_decide_eq_true in Hg.
    apply Hnot. apply list_elem_of_fmap. by exists g.
  - by rewrite bool_decide_eq_false_2 by congruence.
Qed.
Definition to_delete (rows : list (string * (string * string))) (dups : list string) (curated : list Fact) : list string :=
  map (memory_key name) (dups ++ map (λ row, row.2.1) (js_filter (superseded (curated_map curated)) rows)).

Context (d : hashes) (existing : list MemoryItem) (curated : list Fact).
Context (rows : list (string * (string * string))) (dups : list string).
Hypothesis Hload : loaded d existing.
Hypothesis Hcur : NoDup (map (λ f, key_of (fa_subject f)) curated).
Hypothesis Htrack : foldl (track_fact toLowerCase) ([], []) existing = (rows, dups).

Lemma tracked_rows : tracked toLowerCase existing rows dups.
Proof using Htrack.
  pose proof (track_spec toLowerCase existing [] [] []) as H. rewrite Htrack in H. apply H.
  split_and!; [constructor|done|]. intros item s Hin. by apply not_elem_of_nil in Hin.
Qed.
Lemma tracked_ids : dups ++ map (λ row, row.2.1) rows ≡ₚ map mi_id (js_filter has_subject existing).
Proof using Htrack. pose proof (track_ids toLowerCase existing [] []) as H. by rewrite Htrack in H. Qed.
Lemma tracked_ids_NoDup : NoDup (dups ++ map (λ row, row.2.1) rows).
Proof using Hload Htrack.
  rewrite tracked_ids. eapply sublist_NoDup; [exact (proj1 Hload)|].
  apply (fmap_sublist mi_id), js_filter_sublist.
Qed.
Lemma deleted_ids id : memory_key name id ∈ to_delete rows dups curated →
  id ∈ dups ∨ ∃ key content, (key, (id, content)) ∈ rows ∧ superseded (curated_map curated) (key, (id, content)) = true.
Proof using Type.
  intros (id' & He & Hin)%list_elem_of_fmap. apply memory_key_inj in He as <-.
  apply elem_of_app in Hin as [Hin|Hin]; [by left|right].
  apply list_elem_of_fmap in Hin as ([key [id' content]] & -> & Hin). apply js_filter_elem in Hin as [Hs Hin].
  by exists key, content.
Qed.
Lemma deleted_loaded key : key ∈ to_delete rows dups curated →
  ∃ item, item ∈ existing ∧ has_subject item = true ∧ key = memory_key name (mi_id item).
Proof using Htrack.
  intros (id & -> & Hin)%list_elem_of_fmap.
  assert (Hid : id ∈ map mi_id (js_filter has_subject existing)).
  { rewrite <- tracked_ids. apply elem_of_app in Hin as [Hin|Hin]; apply elem_of_app; [by left|right].
    apply list_elem_of_fmap in Hin as (row & -> & Hr). apply list_elem_of_fmap. exists row.
    split; [done|]. by apply js_filter_elem in Hr as [_ ?]. }
  apply list_elem_of_fmap in Hid as (item & -> & Hi). apply js_filter_elem in Hi as [Hs Hi]. by exists item.
Qed.
(** The row of a fact that is unchanged is not deleted. *)
Lemma unchanged_kept key id content fact :
  jm_get key rows = Some (id, content) → jm_get key (curated_map curated) = Some fact →
  factContent fact = content → memory_key name id ∉ to_delete rows dups curated.
Proof using Hload Htrack.
  intros Hg Hc Hcontent Hdel. pose proof tracked_ids_NoDup as Hnd.
  apply NoDup_app in Hnd as (_ & Hdisj & Hnd). apply jm_get_elem in Hg.
  destruct (deleted_ids id Hdel) as [Hdup|(key' & content' & Hin & Hs)].
  - apply (Hdisj id Hdup). apply list_elem_of_fmap. by exists (key, (id, content)).
  - assert (Heq : (key', (id, content')) = (key, (id, content))) by (by eapply (NoDup_map_inj _ _ _ _ Hnd)).
    injection Heq as -> ->. cbn in Hs. rewrite Hc in Hs. apply negb_true_iff, bool_decide_eq_false in Hs. congruence.
Qed.
Lemma find_curated fact : fact ∈ curated →
  js_find (of_subject toLowerCase (key_of (fa_subject fact))) curated = Some fact.
Proof using Hcur.
  clear -Hcur. induction curated as [|g l IH]; [by intros Hin%not_elem_of_nil|]. cbn in Hcur.
  apply NoDup_cons in Hcur as [Hnot Hnd]. intros [->|Hin]%elem_of_cons; cbn [js_find]; rewrite of_subject_key.
  - by rewrite bool_decide_eq_true_2.
  - rewrite bool_decide_eq_false_2; [by apply IH|]. unfold fact_key. intros He. apply Hnot. rewrite He.
    by apply (list_elem_of_fmap_2 (λ f, key_of (fa_subject f))).
Qed.
(** The outcome: every curated fact is told, only rows of stored facts are gone, and those that are
    left tell what the curated fact of their subject tells. *)
Definition facts_kept (d' : hashes) : Prop :=
  (∀ fact, fact ∈ curated → told d' fact)
  ∧ lost_only (map (λ item, memory_key name (mi_id item)) (js_filter has_subject existing)) d d'
  ∧ ∀ item s, item ∈ existing → mi_subject item = Some s → is_Some (d' !! memory_key name (mi_id item)) →
      ∃ fact, fact ∈ curated ∧ key_of (fa_subject fact) = key_of s ∧ factContent fact = mi_content item.
Definition told_or_unchanged (d1 : hashes) (fact : Fact) : Prop :=
  unchanged toLowerCase rows fact = true
  ∨ ∃ id row, d1 !! memory_key name id = Some row ∧ d !! memory_key name id = None
      ∧ row !! "content" = Some (factContent fact) ∧ row !! "subject" = Some (fa_subject fact).
Lemma facts_kept_after d1 :
  d ⊆ d1 → (∀ fact, fact ∈ curated → told_or_unchanged d1 fact) →
  facts_kept (foldr delete d1 (to_delete rows dups curated)).
Proof using Hload Hcur Htrack.
  intros Hle Hw. pose proof tracked_rows as (Hwf & Hr1 & Hr2). split_and!.
  - intros fact Hin. destruct (Hw fact Hin) as [Hun|(id & row & Hrow & Hnew & Hc & Hs)].
    + unfold unchanged in Hun. destruct (jm_get _ rows) as [[id content]|] eqn:Hg; [|done].
      apply bool_decide_eq_true in Hun. destruct (Hr1 _ _ _ Hg) as (item & s & Hi & Hs & Hks & <- & Hcont).
      destruct (proj2 Hload item Hi) as (row & Hrow & Hc & Hsub & _).
      exists (mi_id item), row, s. rewrite foldr_delete_lookup, decide_False.
      * split; [by eapply lookup_weaken|]. split; [congruence|]. split; [done|]. congruence.
      * eapply unchanged_kept; [exact Hg| |by symmetry]. rewrite curated_map_get by done. by apply find_curated.
    + exists id, row, (fa_subject fact). rewrite foldr_delete_lookup, decide_False; [by rewrite Hc|].
      intros (item & Hi & _ & He)%deleted_loaded. destruct (proj2 Hload item Hi) as (row' & Hrow' & _). congruence.
  - intros key m Hm. rewrite foldr_delete_lookup. destruct (decide (key ∈ _)) as [Hdel|_].
    + right. apply deleted_loaded in Hdel as (item & Hi & Hs & ->). apply list_elem_of_fmap. exists item.
      split; [done|]. by apply js_filter_elem.
    + left. by eapply lookup_weaken.
  - intros item s Hi Hs. rewrite foldr_delete_lookup. destruct (decide (_ ∈ _)) as [_|Hkeep]; [by intros [? ?]|]. intros _.
    assert (Hdel : ∀ id, id ∈ dups ++ map (λ row, row.2.1) (js_filter (superseded (curated_map curated)) rows) →
      id ≠ mi_id item).
    { intros id Hid ->. apply Hkeep. by apply list_elem_of_fmap_2. }
    destruct (Hr2 item s Hi Hs) as [Hg|Hdup]; [|exfalso; eapply Hdel; [apply elem_of_app; by left|done]].
    destruct (superseded (curated_map curated) (key_of s, (mi_id item, mi_content item))) eqn:Hsup.
    { exfalso. apply (Hdel (mi_id item)); [|done]. apply elem_of_app. right.
      apply list_elem_of_fmap. eexists. split; [|apply js_filter_elem; split; [exact Hsup|by apply jm_get_elem]]. done. }
    cbn in Hsup. rewrite curated_map_get in Hsup by done. destruct (js_find _ curated) as [fact|] eqn:Hf; [|done].
    apply negb_false_iff, bool_decide_eq_true in Hsup. apply js_find_Some in Hf as [Hk Hin].
    rewrite of_subject_key in Hk. apply bool_decide_eq_true in Hk. by exists fact.
Qed.
End facts.

Section consolidate_facts.
Context {W : Type} `{!MemoryEnv W, !MemoryServer W} (name : string) `{!ExactIndex W name}.
Context (toLowerCase : string → string).

Lemma new_memory_fields n id content options now row :
  new_memory n id content options now row →
  row !! "content" = Some content ∧ row !! "subject" = ro_subject options ∧ row !! "source" = ro_source options.
Proof.
  intros (vector & w & Hb & ->). pose proof (record_key _ _ _ _ _ _ _ Hb) as [_ Hnd].
  rewrite !row_fields_get by done. revert Hb. unfold buildMemoryRecord. destruct (_ || _); [done|].
  destruct (js_find _ _); [done|]. intros [= <-]. cbn [mw_fields]. by rewrite !record_get.
Qed.
Lemma told_mono rows d d0 d1 d1' fact :
  d ⊆ d0 → d1 ⊆ d1' → told_or_unchanged toLowerCase name d0 rows d1 fact →
  told_or_unchanged toLowerCase name d rows d1' fact.
Proof.
  intros H0 H1 [Hun|(id & row & Hr & Hn & ?)]; [by left|right]. exists id, row.
  split; [by eapply lookup_weaken|]. split; [|done]. by eapply lookup_weaken_None.
Qed.
Lemma write_facts_spec options now rows curated : ∀ created st,
  mv_queue (view st) = None → st_name st = name →
  wp (write_facts toLowerCase options now rows curated created)
    (λ _ st', st_name st' = name ∧ mv_queue (view st') = None ∧ data st ⊆ data st'
       ∧ ∀ fact, fact ∈ curated → told_or_unchanged toLowerCase name (data st) rows (data st') fact)
    (λ _ st', data st ⊆ data st') st.
Proof.
  induction curated as [|fact curated IH]; intros created st Hq Hname; cbn [write_facts].
  { apply wp_ret. split_and!; [done..|]. by intros fact Hin%not_elem_of_nil. }
  destruct (unchanged toLowerCase rows fact) eqn:Hun.
  { eapply wp_mono; [by apply IH| |done]. intros _ st' (? & ? & ? & Hall). split_and!; [done..|].
    intros g [->|Hin]%elem_of_cons; [by left|by apply Hall]. }
  apply wp_bind, wp_get_state, wp_bind, wp_write_memory; [done| |done].
  intros id row st1 (Hname1 & _) Hnew Hrow Hv1 _. rewrite Hname in Hnew, Hrow, Hv1, Hname1.
  assert (Hd1 : data st1 = <[memory_key name id := row]> (data st)) by (unfold data at 1; by rewrite Hv1).
  assert (Hfresh : data st !! memory_key name id = None) by by apply not_known_new.
  assert (Hle : data st ⊆ data st1) by (rewrite Hd1; by apply insert_subseteq).
  eapply wp_mono; [apply IH; [by rewrite Hv1|done]| |].
  - intros _ st' (Hn' & Hq' & Hle' & Hall). split_and!; [done|done|by etrans|].
    intros g [->|Hin]%elem_of_cons.
    + right. exists id, row. apply new_memory_fields in Hrow as (Hc & Hs & _).
      split; [|done]. eapply lookup_weaken; [|exact Hle']. rewrite Hd1. apply lookup_insert_eq.
    + eapply told_mono; [exact Hle|reflexivity|by apply Hall].
  - intros e st' Hle'. by etrans.
Qed.
(** What the run leaves: the facts stored before, and the ones the callback found, settled *)
Definition facts_settled (extractFacts : list MemoryItem → M W string (list Fact)) (d d' : hashes) : Prop :=
  ∃ existing candidates extracted w w',
    loaded name d existing ∧ extractFacts candidates w = (Ok extracted, w')
    ∧ let prior := priorFacts existing in
      facts_kept toLowerCase name d existing
        (applyOps toLowerCase prior (reconcile toLowerCase extracted prior)) d'.
Lemma load_spec scope tags st :
  mv_queue (view st) = None → st_name st = name →
  wp (loadExistingFacts scope tags) (λ existing st', calm st st' ∧ loaded name (data st) existing)
    (λ _ st', data st' = data st) st.
Proof using ExactIndex0.
  intros Hq Hname. unfold loadExistingFacts. apply wp_bind, wp_get_state, wp_bind. rewrite Hname.
  set (options := {| cf_maxCreatedAt := None |}).
  assert (Hread : read_query (buildConsolidateFilter scope tags options)
                  = Some (or_all (consolidate_reads scope tags options), EmptyString)).
  { pose proof (consolidate_filter_read scope tags options EmptyString) as H. by rewrite str_app_nil_r in H. }
  eapply wp_exact_search; [done|done|exact Hread|by apply parse_int_string|done| |done].
  intros r st1 Hc (_ & Hnd & _ & Hhits). apply wp_ret. split; [done|].
  set (hits := parseFtSearchResponse r) in *.
  assert (Hkey : ∀ hit, hit ∈ hits → memory_key name (mi_id (parseMemoryItem name hit)) = fh_key hit).
  { intros hit Hhit. apply item_key. destruct (Hhits hit Hhit) as [(_ & _ & Hp & _)%elem_found _]. done. }
  split.
  - rewrite map_map. apply (NoDup_fmap_1 (memory_key name)). rewrite <- list_fmap_compose.
    replace (memory_key name ∘ _ <$> hits) with (map fh_key hits); [done|].
    apply list_fmap_ext. intros i hit Hi. symmetry. apply Hkey. by apply list_elem_of_lookup_2 in Hi.
  - intros item (hit & -> & Hhit)%list_elem_of_fmap. destruct (Hhits hit Hhit) as (_ & row & Hrow & Hf).
    exists row. rewrite Hkey by done. cbn [parseMemoryItem mi_content mi_subject mi_date].
    rewrite !Hf by (cbn; set_solver). done.
Qed.
Lemma consolidate_facts_spec extractFacts options st :
  (∀ items, keeps_data (extractFacts items)) → mv_queue (view st) = None → st_name st = name →
  wp (runConsolidateFacts toLowerCase extractFacts options)
    (λ result st', fr_candidates result = 0 ∧ data st' = data st
       ∨ facts_settled extractFacts (data st) (data st'))
    (λ _ st', data st ⊆ data st' ∨ facts_settled extractFacts (data st) (data st')) st.
Proof using ExactIndex0.
  intros Hext Hq Hname. unfold runConsolidateFacts. apply wp_bind, wp_gets.
  destruct (criteria_given _ _ _ _); cbn [negb]; [|by apply wp_throw; left].
  apply wp_bind, wp_get_state. rewrite Hname.
  apply wp_bind. rewrite <- Hname at 1. apply wp_search; [done| |by intros e st' _ ->; left].
  intros raw w0 st1 _ _ Hc1 _. pose proof (calm_data _ _ Hc1) as Hd1.
  set (candidates := map _ _). destruct candidates as [|item items] eqn:Hcand; [by apply wp_ret; left|].
  rewrite <- Hcand. clear item items Hcand.
  assert (Hq1 : mv_queue (view st1) = None) by (destruct Hc1 as (_ & -> & _); done).
  assert (Hname1 : st_name st1 = name) by (destruct Hc1 as ((-> & _) & _); done).
  apply wp_bind. eapply wp_mono; [by apply load_spec| |by intros e st' ->; left; rewrite Hd1].
  intros existing st2 [Hc2 Hload]. pose proof (calm_data _ _ Hc2) as Hd2. rewrite Hd1 in Hload, Hd2.
  assert (Hq2 : mv_queue (view st2) = None) by (destruct Hc2 as (_ & -> & _); done).
  assert (Hname2 : st_name st2 = name) by (destruct Hc2 as ((-> & _) & _); done).
  destruct (foldl (track_fact toLowerCase) ([], []) existing) as [rows dups] eqn:Htrack.
  apply wp_bind, wp_calm_env; [apply Hext| |].
  2:{ intros e st3 Hc3. left. by rewrite (calm_data _ _ Hc3), Hd2. }
  intros extracted st3 w3 Hrun _ Hc3. pose proof (calm_data _ _ Hc3) as Hd3. rewrite Hd2 in Hd3.
  assert (Hq3 : mv_queue (view st3) = None) by (destruct Hc3 as (_ & -> & _); done).
  assert (Hname3 : st_name st3 = name) by (destruct Hc3 as ((-> & _) & _); done).
  cbv zeta. set (prior := priorFacts existing). set (curated := applyOps toLowerCase prior _).
  apply wp_bind. eapply (wp_mono _ (λ _ st', view st' = view st3 ∧ st_name st' = name) _ (λ _ _, False)); [| |done].
  { case_match; [apply wp_modify|apply wp_ret]; by split. }
  intros [] st4 [Hv4 Hname4]. assert (Hd4 : data st4 = data st) by (unfold data at 1; by rewrite Hv4).
  apply wp_bind. eapply wp_mono; [apply write_facts_spec; [by rewrite Hv4|done]| |by intros e st' Hle; left; rewrite <- Hd4].
  intros created st5 (Hname5 & Hq5 & Hle & Htold). rewrite Hd4 in Hle, Htold.
  assert (Hcur : NoDup (map (λ f, subjectKey toLowerCase (fa_subject f)) curated)).
  { exact (proj1 (reconcile_curates toLowerCase extracted prior)). }
  pose proof (facts_kept_after toLowerCase name (data st) existing curated rows dups Hload Hcur Htrack
                (data st5) Hle Htold) as Hkept.
  assert (Hdone : ∀ st6, data st6 = foldr delete (data st5) (to_delete toLowerCase name rows dups curated) →
    facts_settled extractFacts (data st) (data st6)).
  { intros st6 Hd6. exists existing, candidates, extracted, (st_world st2), w3. split; [done|]. split; [exact Hrun|].
    cbv zeta. rewrite Hd6. exact Hkept. }
  fold (curated_map toLowerCase curated). fold (to_delete toLowerCase name rows dups curated).
  set (keys := to_delete toLowerCase name rows dups curated) in *.
  apply wp_bind. destruct keys as [|key keys'] eqn:Hkeys.
  { apply wp_ret, wp_bind, wp_modify, wp_ret. right. by apply Hdone. }
  rewrite <- Hkeys in *. apply wp_bind, wp_del; [done| |].
  - intros r w6 _ Hv6 _. apply wp_bind. unfold items_gone. destruct (positive _).
    + apply wp_modify, wp_ret, wp_bind, wp_modify, wp_ret. right. apply Hdone.
      unfold data at 1, view. cbn [st_world update_metrics update_world]. by rewrite Hv6.
    + apply wp_ret, wp_ret, wp_bind, wp_modify, wp_ret. right. apply Hdone.
      unfold data at 1, view. cbn [st_world update_metrics update_world]. by rewrite Hv6.
  - intros e w6 _ [Hw|Hw] _; [left|right; by apply Hdone].
    change (data (update_world w6 st5)) with (mv_data (mv_view w6)). by rewrite Hw.
Qed.
End consolidate_facts.
