(* ===== verification/MemorySafety.v ===== *)
(** * Properties of the memory store

    What holds of the memory store over every run of its methods, with the server of
    [MemoryServer]; and a server that keeps its data in a map and answers every command, the
    instance the properties are applied at. *)
From S2P Require Export MemoryServer.
From stdpp Require Import options.

(** ** Specification *)

(** *** A server in memory *)
Record MapServer := { mm_view : MemoryView; mm_known : gset string; mm_clock : Z }.
Definition range_bound (s : string) : number :=
  if str_eqb s "-inf" then S754_infinity true
  else if str_eqb s "+inf" then S754_infinity false else num_of_string s.
Definition clause_holds (row : gmap string string) (c : clause) : bool :=
  match c with
  | K_tag negated field values =>
      let tags := match row !! field with Some s => split_char "," s | None => [] end in
      xorb negated (existsb (λ v, existsb (str_eqb v) tags) values)
  | K_range field lo hi =>
      match row !! field with
      | Some s => num_leb (range_bound lo) (num_of_string s) && num_leb (num_of_string s) (range_bound hi)
      | None => false
      end
  end.
Definition map_matches (cs : list clause) (row : gmap string string) : bool := forallb (clause_holds row) cs.
Definition map_found (prefix : string) (cs : list clause) (d : hashes) : list (string * gmap string string) :=
  map_to_list (filter (λ '(key, row), starts_with prefix key = true ∧ map_matches cs row = true) d).
Definition map_hit (found : string * gmap string string) : FtSearchHit :=
  {| fh_key := found.1; fh_fields := map_to_list found.2 |}.
Definition map_answer (args : list string) (v : MemoryView) : reply :=
  match mv_queue v, args with
  | Some _, _ => R_str "QUEUED"
  | None, name :: args =>
      if str_eqb name "DEL" then R_int (Z.of_nat (size (dom (mv_data v) ∩ list_to_set args)))
      else if str_eqb name "EXISTS" then
        R_int (if decide (is_Some (mv_data v !! default EmptyString (head args))) then 1 else 0)
      else if str_eqb name "FT.SEARCH" then
        match args with
        | index :: filter :: opts =>
            match read_query filter, limit_of opts with
            | Some (cs, EmptyString), Some count =>
                let found := map_found (str_take (String.length index - 3) index) cs (mv_data v) in
                search_reply (js_len found) (map map_hit (take (Z.to_nat count) found))
            | _, _ => R_arr [R_int 0]
            end
        | _ => R_arr [R_int 0]
        end
      else R_str "OK"
  | None, [] => R_null
  end.
Fixpoint marks (n : nat) : string := match n with 0%nat => EmptyString | S n => String "x"%char (marks n) end.
Definition longest (s : gset string) : nat := max_list (map String.length (elements s)).
Definition map_known (w : MapServer) : gset string := mm_known w ∪ dom (mv_data (mm_view w)).
#[local] Instance map_env : MemoryEnv MapServer := {
  me_call args w :=
    (Ok (map_answer args (mm_view w)),
     {| mm_view := issue args (mm_view w); mm_known := map_known w; mm_clock := mm_clock w |});
  me_embed := Some (λ content w, (Ok [num_of_Z 1; num_of_Z (Z.of_nat (String.length content))], w));
  me_uuid := λ w, (Ok (marks (S (longest (map_known w)))), w);
  me_now := mm_clock
}.

(** ** Lemmas *)
Lemma marks_length n : String.length (marks n) = n.
Proof. induction n as [|n IH]; cbn; [done|by rewrite IH]. Qed.
Lemma longest_ge s (set : gset string) : s ∈ set → (String.length s ≤ longest set)%nat.
Proof.
  intros Hs. unfold longest. apply elem_of_elements in Hs. induction (elements set) as [|x l IH].
  - by apply not_elem_of_nil in Hs.
  - cbn. apply elem_of_cons in Hs as [->|Hs]; [lia|]. specialize (IH Hs). lia.
Qed.
Lemma map_uuid_new w name : memory_key name (marks (S (longest (map_known w)))) ∉ map_known w.
Proof.
  intros Hin%longest_ge. unfold memory_key in Hin. rewrite !str_app_length, marks_length in Hin. lia.
Qed.
Lemma index_prefix name : str_take (String.length (index_name name) - 3) (index_name name) = mem_prefix name.
Proof.
  unfold index_name, mem_prefix, memoryKeyPrefix. change ":mem:idx" with (":mem:" +:+ "idx").
  rewrite <- str_app_assoc. set (p := name +:+ ":mem:").
  replace (String.length (p +:+ "idx") - 3)%nat with (String.length p) by (rewrite str_app_length; cbn; lia).
  apply str_take_app.
Qed.
Lemma map_hits_wf found : Forall (λ h, NoDup (fh_fields h).*1) (map map_hit found).
Proof. apply Forall_forall. intros h (f & -> & _)%list_elem_of_fmap. apply NoDup_fst_map_to_list. Qed.
Lemma map_reply_read total found :
  (total ≤ 0 → found = []) →
  parseFtSearchResponse (search_reply total (map map_hit found)) = map map_hit found.
Proof.
  intros H0. destruct (Z.le_gt_cases total 0) as [Hle|Hgt].
  - rewrite H0 by done. cbn. by destruct (total <=? 0).
  - apply search_reply_read; [done|apply map_hits_wf].
Qed.
Lemma map_found_elem prefix cs d key row :
  (key, row) ∈ map_found prefix cs d → d !! key = Some row ∧ starts_with prefix key = true ∧ map_matches cs row = true.
Proof. unfold map_found. intros [Hr HP]%elem_of_map_to_list%map_lookup_filter_Some. done. Qed.
Lemma map_get_fields (row : gmap string string) field : jm_get field (map_to_list row) = row !! field.
Proof.
  destruct (row !! field) as [v|] eqn:Hr.
  - apply jm_elem_get; [apply NoDup_fst_map_to_list|]. by apply elem_of_map_to_list.
  - apply jm_get_None. intros ([k v] & -> & Hin%elem_of_map_to_list)%list_elem_of_fmap. cbn in Hr. congruence.
Qed.
Lemma map_search_answer index filter opts v :
  mv_queue v = None →
  map_answer ("FT.SEARCH" :: index :: filter :: opts) v
  = match read_query filter, limit_of opts with
    | Some (cs, EmptyString), Some count =>
        let found := map_found (str_take (String.length index - 3) index) cs (mv_data v) in
        search_reply (js_len found) (map map_hit (take (Z.to_nat count) found))
    | _, _ => R_arr [R_int 0]
    end.
Proof. unfold map_answer. by intros ->. Qed.
Lemma take_nil_total {A} n (l : list A) : js_len l ≤ 0 → take n l = [].
Proof. unfold js_len. destruct l; [by rewrite take_nil|cbn; lia]. Qed.
#[local] Instance map_server : MemoryServer MapServer.
Proof.
  refine {| mv_view := mm_view; mv_known := map_known |}.
  - intros w key Hk%elem_of_dom. unfold map_known. set_solver.
  - intros args w. cbn. split; [done|]. unfold map_known at 2. cbn. set_solver.
  - intros key w r w' Hq [= <- <-]. unfold map_answer. rewrite Hq. cbn. by destruct (decide _).
  - intros keys w r w' Hq [= <- <-]. unfold map_answer. by rewrite Hq.
  - intros name filter opts w r w' hit Hq [= <- <-]. rewrite map_search_answer by done.
    assert (Hnone : hit ∉ parseFtSearchResponse (R_arr [R_int 0])) by apply not_elem_of_nil.
    destruct (read_query filter) as [[cs [|c rest]]|]; [|done|done]. destruct (limit_of opts) as [count|]; [|done].
    cbv zeta. rewrite index_prefix, map_reply_read by apply take_nil_total.
    intros ([key row] & -> & Hin)%list_elem_of_fmap. apply elem_of_take in Hin as (i & Hi & _).
    apply list_elem_of_lookup_2, map_found_elem in Hi as (Hr & Hp & _). split; [exact Hp|].
    unfold map_known at 1. cbn. apply elem_of_union_l. unfold map_known. apply elem_of_union_r.
    by apply elem_of_dom_2 in Hr.
  - intros f content w [= <-]. by split.
  - intros w. split; [done|]. split; [done|]. intros id name [= <-]. apply map_uuid_new.
Defined.
#[local] Instance map_index name : ExactIndex MapServer name.
Proof.
  refine {| ix_matches := map_matches |}.
  intros filter cs opts count w r w' Hq Hf Hl Hcount [= <- <-]. rewrite map_search_answer by done.
  rewrite Hf, Hl. cbv zeta. rewrite index_prefix.
  set (d := mv_data (mv_view w)). change (mv_data (mm_view w)) with d.
  set (found := map_found (mem_prefix name) cs d).
  assert (Hsize : js_len found = Z.of_nat (size (matching name map_matches cs d))).
  { unfold js_len, found, map_found, matching. rewrite length_map_to_list, size_dom. done. }
  assert (Hnd : NoDup found.*1) by apply NoDup_fst_map_to_list.
  rewrite map_reply_read by apply take_nil_total. split_and!.
  - unfold ftSearchTotal, search_reply. cbn. unfold js_len in *. lia.
  - rewrite map_map. eapply (sublist_NoDup _ found.*1); [exact Hnd|].
    apply (fmap_sublist fst), sublist_take.
  - unfold js_len in *. rewrite length_map, length_take. lia.
  - intros hit ([key row] & -> & Hin)%list_elem_of_fmap. apply elem_of_take in Hin as (i & Hi & _).
    apply list_elem_of_lookup_2, map_found_elem in Hi as (Hr & Hp). split.
    + unfold matching. apply elem_of_dom. exists row. by apply map_lookup_filter_Some.
    + exists row. split; [done|]. intros field _. apply map_get_fields.
Defined.
Lemma map_server_answers : ¬ call_failed MapServer.
Proof. by intros (args & w & e & w' & H). Qed.

Section valid.
Context {W : Type} `{!MemoryEnv W} (toLowerCase : string → string) (math_exp : number → number).
Abbreviation both_valid := (λ initial live, valid_config initial ∧ valid_config live).
Abbreviation valid_store := (λ st : MemoryStore W, both_valid (st_initial st) (st_config st)).
Lemma refresh_valid : preserves valid_store refreshConfig.
Proof.
  unfold refreshConfig. apply (ignore_configured both_valid). apply preserves_bind; [by intros st|intros name].
  apply preserves_bind; [apply (call_configured both_valid)|intros raw].
  apply preserves_modify. intros st [Hi Hl]. split; [done|]. by apply apply_config_valid.
Qed.
Lemma op_valid op : preserves valid_store (run_op toLowerCase math_exp op).
Proof. destruct op; try (by apply (op_configured toLowerCase math_exp both_valid)). exact refresh_valid. Qed.
End valid.

(** ** Properties *)

(** whatever is called on a store, in whatever order and however its calls of the server end,
    its configuration stays valid: a finite threshold between 0 and 2, finite weights that are not
    negative and not all zero, a positive half life, and a cap of at least one memory if there is
    one; what the configuration key of the server holds is taken over only as far as it keeps to
    this. *)
Theorem config_always_valid {W} `{!MemoryEnv W} toLowerCase math_exp (w : W) options ops :
  valid_config (initial_config options) →
  valid_config (st_config (run_ops toLowerCase math_exp ops (new_memory_store w options))).
Proof.
  intros Hinit. enough (H : ∀ st, valid_config (st_initial st) ∧ valid_config (st_config st) →
    valid_config (st_config (run_ops toLowerCase math_exp ops st))) by by apply H.
  unfold run_ops. induction ops as [|op ops IH]; intros st Hst; cbn [foldl]; [apply Hst|].
  by apply IH, op_valid.
Qed.

(** C21: a recall whose search is answered returns the [k] best of the hits that qualify, in
    descending order of their scores, none of them farther than the threshold and none scored below
    a qualifying hit that is left out; failures while marking the hits as accessed change nothing of
    that. *)
Theorem recall_returns_best {W} `{!MemoryEnv W} math_exp (st : MemoryStore W) vector options raw w :
  let k := default DEFAULT_RECALL_K (rc_k options) in
  let threshold := default (cg_threshold (st_config st)) (rc_threshold options) in
  (∀ x, canonical (math_exp x)) →
  canonical_weights (default (cg_weights (st_config st)) (rc_weights options)) → 0 ≤ k →
  me_call (recall_args (st_name st) vector options) (st_world st) = (Ok raw, w) →
  ∃ result rest st', recallByVector math_exp vector options st = (Ok result, st')
    ∧ qualified math_exp st options (me_now w) raw ≡ₚ result ++ rest
    ∧ js_len result = Z.min k (js_len (result ++ rest))
    ∧ StronglySorted (λ a b, val (ht_score b) ≤ val (ht_score a)) result
    ∧ (∀ x y, x ∈ result → y ∈ rest → val (ht_score y) ≤ val (ht_score x))
    ∧ ∀ x, x ∈ result → num_ltb threshold (ht_similarity x) = false.
Proof.
  intros k threshold Hexp Hw Hk Hcall. pose proof (recall_returns math_exp vector options st raw w Hcall) as Hrun.
  set (hits := qualified math_exp st options (me_now w) raw) in *.
  assert (Hhit : ∀ h, h ∈ hits → good_number (ht_score h) ∧ num_ltb threshold (ht_similarity h) = false).
  { intros h (hit & _ & Hh)%list_elem_of_omap.
    destruct (recall_hit_good math_exp Hexp _ _ _ _ _ hit h Hw Hh) as (? & _ & ?). done. }
  destruct (rank_hits_split k hits Hk) as (Hsort & Hlen & rest & Hperm & Hbest).
  { apply Forall_forall. intros h Hh. by apply Hhit. }
  unfold wp in Hrun. destruct (recallByVector math_exp vector options st) as [[result|e] st']; [|done]. subst result.
  exists (rank_hits k hits), rest, st'. split_and!; [done|done| |done|done|].
  - rewrite Hlen. pose proof (Permutation_length Hperm) as Hl. unfold js_len. by rewrite Hl.
  - intros x Hx. apply Hhit. rewrite Hperm. apply elem_of_app. by left.
Qed.

(** a recall creates and deletes no row and changes no field of one but the time of its last
    access and the count of its accesses, even where the index lists rows that are gone, and
    wherever a call of the server fails. *)
Theorem recall_only_marks {W} `{!MemoryEnv W, !MemoryServer W} math_exp vector options (st : MemoryStore W) :
  mv_queue (view st) = None → touched (data st) (data (recallByVector math_exp vector options st).2).
Proof.
  intros Hq. pose proof (recall_spec math_exp vector options st Hq) as H. unfold wp in H.
  by destruct (recallByVector math_exp vector options st) as [[hits|e] st'].
Qed.

(** C19: where the server answers and its index is up to date, a store with a cap that remembers
    something under a scope or tags leaves no more rows that match them than the cap, or, in one
    pass over a scope that holds more than the 10000 rows a pass looks at, 10000 fewer than with the
    new row; rows outside the scope stay as they are. *)
Theorem remember_keeps_capacity {W} `{!MemoryEnv W, !MemoryServer W} name `{!ExactIndex W name}
    math_exp content options max (st st' : MemoryStore W) id :
  let cs := or_all (scope_reads (ro_scope options) (ro_tags options)) in
  let rows d := Z.of_nat (size (matching name ix_matches cs d)) in
  ¬ call_failed W → st_name st = name → mv_queue (view st) = None →
  cg_maxItemsPerScope (st_config st) = Some max → scope_given (ro_scope options) (ro_tags options) = true →
  remember math_exp content options st = (Ok id, st') →
  rows (data st') ≤ Z.max (Z.max 0 max) (rows (data st) + 1 - EVICTION_SCAN_LIMIT)
  ∧ ∃ key, (key ∉ known st)
    ∧ ∀ k, k ∉ matching name ix_matches cs (data st) → k ≠ stats_key name → k ≠ key →
        data st' !! k = data st !! k.
Proof.
  intros cs rows Hrel Hname Hq Hmax Hscope Hrun.
  pose proof (remember_spec name math_exp content options max st Hrel Hmax Hscope Hname Hq) as H.
  apply (wp_run _ _ _ _ _ _ H) in Hrun as (key & Hnew & Hsize & Hkeep). split; [done|]. by exists key.
Qed.

(** C20: where the index is up to date, forgetting a scope deletes rows that match it and no others,
    whether it returns or a call of the server fails; when it returns, its result is the number of
    rows deleted, which are all that match, up to five million in one call; and it returns unless a
    call fails. *)
Theorem forget_by_scope_exact {W} `{!MemoryEnv W, !MemoryServer W} name `{!ExactIndex W name}
    scope tags (st st' : MemoryStore W) r :
  let cs := or_all (scope_reads scope tags) in
  let rows := matching name ix_matches cs (data st) in
  scope_given scope tags = true → st_name st = name → mv_queue (view st) = None →
  forgetByScope scope tags st = (r, st') →
  ∃ gone, NoDup gone ∧ (∀ key, key ∈ gone → key ∈ rows)
    ∧ (∀ key, data st' !! key = if decide (key ∈ gone) then None else data st !! key)
    ∧ match r with
      | Ok deleted => deleted = Some (js_len gone) ∧ js_len gone = Z.min 5000000 (Z.of_nat (size rows))
      | Throw _ => call_failed W
      end.
Proof.
  intros cs rows Hscope Hname Hq Hrun.
  pose proof (wp_run _ _ _ _ _ _ (forget_scope_spec name scope tags st Hscope Hname Hq) Hrun) as H.
  assert (Her : ∀ gone, erased name cs (data st) gone (data st') →
    NoDup gone ∧ (∀ key, key ∈ gone → key ∈ rows)
    ∧ ∀ key, data st' !! key = if decide (key ∈ gone) then None else data st !! key).
  { intros gone (Hnd & Hin & Hd). split; [done|]. split; [done|]. intros key. by rewrite Hd, foldr_delete_lookup. }
  destruct r as [deleted|e].
  - destruct H as (gone & (? & ? & ?)%Her & ? & ?). by exists gone.
  - destruct H as (? & gone & (? & ? & ?)%Her). by exists gone.
Qed.

(** C18: whatever fails while memories are consolidated into a summary, none is lost: either every
    row there was is still there as it was, or the sources were to be deleted, there is a new row
    with the text [summarize] returned for the candidates, marked as a summary, and no row is gone
    but those of the candidates it was made from. *)
Theorem consolidation_keeps_content {W} `{!MemoryEnv W, !MemoryServer W} summarize options
    (st st' : MemoryStore W) r :
  (∀ items, keeps_data (summarize items)) → mv_queue (view st) = None →
  runConsolidate summarize options st = (r, st') →
  data st ⊆ data st'
  ∨ ∃ candidates summary w w' id row,
      cn_deleteSources options = true ∧ summarize candidates w = (Ok summary, w')
      ∧ data st' !! memory_key (st_name st) id = Some row
      ∧ row !! "content" = Some summary ∧ row !! "source" = Some SUMMARY_SOURCE
      ∧ lost_only (map (λ item, memory_key (st_name st) (mi_id item)) candidates) (data st) (data st').
Proof.
  intros Hsum Hq Hrun. pose proof (wp_run _ _ _ _ _ _ (consolidate_outcomes summarize options st Hsum Hq) Hrun) as H.
  assert (Hp : data st ⊆ data st' ∨ summarized summarize options (st_name st) (data st) (data st')) by by destruct r.
  destruct Hp as [Hle|(candidates & summary & id & row & now & w & w' & Hdel & Hs & Hr & Hnew & Hl)]; [by left|right].
  apply new_memory_fields in Hnew as (Hc & _ & Hsrc). by exists candidates, summary, w, w', id, row.
Qed.


(** ** Witnesses *)
Definition empty_server : MapServer :=
  {| mm_view := {| mv_data := ∅; mv_queue := None |}; mm_known := ∅; mm_clock := 1700000000000 |}.
Definition capped_options : MemoryStoreOptions :=
  {| mo_name := "app"; mo_defaultThreshold := None; mo_weights := None; mo_halfLifeSeconds := None;
     mo_maxItemsPerScope := Some 2; mo_factSource := None; mo_factImportance := None |}.
Definition thread_scope (t : string) : MemoryScope :=
  {| sc_threadId := Some t; sc_agentId := None; sc_namespace := None |}.
Definition thread_options (t : string) : RememberOptions :=
  {| ro_scope := thread_scope t; ro_importance := None; ro_tags := []; ro_source := None;
     ro_subject := None; ro_date := None; ro_ttl := None |}.
Definition sample_store : MemoryStore MapServer :=
  run_ops to_lower sample_exp
    [O_remember _ "likes tea" (thread_options "t"); O_remember _ "lives in Oslo" (thread_options "u");
     O_remember _ "owns a cat" (thread_options "t"); O_refreshConfig _]
    (new_memory_store empty_server capped_options).
Definition sample_recall : RecallOptions :=
  {| rc_k := Some 2; rc_threshold := None; rc_scope := thread_scope "t"; rc_tags := []; rc_weights := None;
     rc_reinforce := true |}.
Definition thread_rows (t : string) (st : MemoryStore MapServer) : gset string :=
  matching "app" (ix_matches (name := "app")) (or_all (scope_reads (thread_scope t) [])) (data st).

Lemma config_always_valid_witness :
  valid_config (initial_config capped_options) ∧ valid_config (st_config sample_store).
Proof.
  assert (Hv : valid_config (initial_config capped_options)).
  { unfold valid_config. repeat split; try (vm_compute; reflexivity). by intros n [= <-]. }
  split; [exact Hv|]. exact (config_always_valid to_lower sample_exp empty_server capped_options _ Hv).
Defined.
Lemma recall_only_marks_witness :
  touched (data sample_store) (data (recallByVector sample_exp [num_of_Z 1] sample_recall sample_store).2).
Proof. apply (recall_only_marks sample_exp [num_of_Z 1] sample_recall sample_store). vm_compute. reflexivity. Defined.

(** A server that answers a search with two hits and a distance that is no number *)
Definition scored (key score : string) : FtSearchHit :=
  {| fh_key := key;
     fh_fields := [("content", key); ("importance", "0.5"); ("created_at", "1000"); ("last_accessed_at", "2000");
                   (SCORE_FIELD, score)] |}.
Definition scored_reply : reply :=
  search_reply 3 [scored "app:mem:a" "0.31"; scored "app:mem:b" "0.05"; scored "app:mem:c" "nan"].
#[local] Instance scored_env : MemoryEnv Z := {|
  me_call args w := if str_eqb (default EmptyString (head args)) "FT.SEARCH" then (Ok scored_reply, w)
                    else (Throw "connection lost", w);
  me_embed := None; me_uuid := λ w, (Ok "id", w); me_now := λ w, w |}.
Lemma sample_exp_canonical x : canonical (sample_exp x).
Proof. unfold sample_exp. auto with canonical. Qed.
Definition scored_store : MemoryStore Z := new_memory_store 5000 capped_options.
Definition recalled (r : outcome string (list MemoryHit)) : list MemoryItem :=
  match r with Ok l => map ht_item l | Throw _ => [] end.
Lemma recall_returns_best_witness :
  recalled (recallByVector sample_exp [num_of_Z 1] sample_recall scored_store).1
    = map (parseMemoryItem "app") [scored "app:mem:b" "0.05"; scored "app:mem:a" "0.31"]
  ∧ ∃ result rest st', recallByVector sample_exp [num_of_Z 1] sample_recall scored_store = (Ok result, st')
    ∧ qualified sample_exp scored_store sample_recall (me_now (W := Z) 5000) scored_reply ≡ₚ result ++ rest
    ∧ js_len result = Z.min (default DEFAULT_RECALL_K (rc_k sample_recall)) (js_len (result ++ rest))
    ∧ StronglySorted (λ a b, val (ht_score b) ≤ val (ht_score a)) result
    ∧ (∀ x y, x ∈ result → y ∈ rest → val (ht_score y) ≤ val (ht_score x))
    ∧ ∀ x, x ∈ result →
        num_ltb (default (cg_threshold (st_config scored_store)) (rc_threshold sample_recall)) (ht_similarity x) = false.
Proof.
  split; [vm_compute; reflexivity|].
  refine (recall_returns_best sample_exp scored_store [num_of_Z 1] sample_recall scored_reply 5000 _ _ _ _).
  - exact sample_exp_canonical.
  - split; [|split]; apply parse_float_canonical.
  - done.
  - reflexivity.
Defined.

Lemma remember_keeps_capacity_witness :
  let st' := (remember sample_exp "plays chess" (thread_options "t") sample_store).2 in
  size (thread_rows "t" sample_store) = 2%nat ∧ size (thread_rows "t" st') = 2%nat
  ∧ Z.of_nat (size (thread_rows "t" st'))
      ≤ Z.max (Z.max 0 2) (Z.of_nat (size (thread_rows "t" sample_store)) + 1 - EVICTION_SCAN_LIMIT).
Proof.
  intros st'. split; [vm_compute; reflexivity|]. split; [vm_compute; reflexivity|].
  apply (remember_keeps_capacity "app" sample_exp "plays chess" (thread_options "t") 2 sample_store st'
           (match (remember sample_exp "plays chess" (thread_options "t") sample_store).1 with
            | Ok id => id | Throw _ => EmptyString end));
    first [exact map_server_answers | (vm_compute; reflexivity)].
Defined.
Lemma forget_by_scope_exact_witness :
  let r := forgetByScope (thread_scope "t") [] sample_store in
  r.1 = Ok (Some 2)
  ∧ ∃ gone, NoDup gone ∧ (∀ key, key ∈ gone → key ∈ thread_rows "t" sample_store)
    ∧ (∀ key, data r.2 !! key = if decide (key ∈ gone) then None else data sample_store !! key)
    ∧ match r.1 with
      | Ok deleted => deleted = Some (js_len gone)
                      ∧ js_len gone = Z.min 5000000 (Z.of_nat (size (thread_rows "t" sample_store)))
      | Throw _ => call_failed MapServer
      end.
Proof.
  intros r. split; [vm_compute; reflexivity|].
  apply (forget_by_scope_exact "app" (thread_scope "t") [] sample_store r.2 r.1);
    [reflexivity|vm_compute; reflexivity|vm_compute; reflexivity|apply surjective_pairing].
Defined.
Definition sample_summary (items : list MemoryItem) : M MapServer string string :=
  λ w, (Ok (foldr (λ item s, mi_content item +:+ ". " +:+ s) EmptyString items), w).
Definition sample_consolidation : ConsolidateOptions :=
  {| cn_scope := thread_scope "t"; cn_tags := []; cn_olderThanSeconds := None; cn_maxImportance := None;
     cn_deleteSources := true; cn_summaryImportance := None |}.
Lemma consolidation_keeps_content_witness :
  let r := runConsolidate sample_summary sample_consolidation sample_store in
  match r.1 with Ok result => cr_deleted result = Some 2 | Throw _ => False end
  ∧ (data sample_store ⊆ data r.2
  ∨ ∃ candidates summary w w' id row,
      true = true ∧ sample_summary candidates w = (Ok summary, w')
      ∧ data r.2 !! memory_key (st_name sample_store) id = Some row
      ∧ row !! "content" = Some summary ∧ row !! "source" = Some SUMMARY_SOURCE
      ∧ lost_only (map (λ item, memory_key (st_name sample_store) (mi_id item)) candidates)
          (data sample_store) (data r.2)).
Proof.
  intros r. split; [vm_compute; reflexivity|]. apply (consolidation_keeps_content sample_summary sample_consolidation sample_store r.2 r.1);
    [done|vm_compute; reflexivity|apply surjective_pairing].
Defined.
Definition sample_extract (items : list MemoryItem) : M MapServer string (list Fact) :=
  λ w, (Ok [fact_of "pet" "a cat" "2024-01-01" false; fact_of "drink" "tea" EmptyString false], w).
Definition sample_facts_options : ConsolidateFactsOptions :=
  {| co_scope := thread_scope "t"; co_tags := []; co_olderThanSeconds := None; co_maxImportance := None;
     co_factImportance := None |}.
