(* ===== verification/CanonicalJson.v ===== *)
(** * Cache keys

    [packages/agent-cache/src/utils.ts]: the text with sorted members that the keys of the agent
    cache are hashes of, and the escaping of glob patterns.  SHA-256 and [localeCompare] are
    parameters. *)
From S2P Require Export JsonText.
From stdpp Require Import options.

(** ** Definitions *)
Definition escapeGlobPattern (str : string) : string :=
  str_flat_map (λ c, if bool_decide (c ∈ ["*"; "?"; "["; "]"]%char) then String backslash (String c EmptyString)
                     else String c EmptyString)
    (str_flat_map (λ c, if ascii_dec c backslash then String backslash (String backslash EmptyString)
                        else String c EmptyString) str).

(** A property key that is an array index: the canonical form of an integer below 2^32 - 1 *)
Definition array_index (k : string) : bool :=
  negb (is_empty k) && str_forall is_digit k && str_eqb (string_of_Z (digits_value k)) k
  && (digits_value k <? 2 ^ 32 - 1).
(** The order in which an object lists the members that were assigned to it in the order [ks]:
    array indexes first, ascending. *)
Definition own_order (ks : list string) : list string :=
  js_sort (by_asc digits_value) (js_filter array_index ks) ++ js_filter (λ k, negb (array_index k)) ks.
(** The assignments [sorted[k] = value[k]]: one to [__proto__] makes no member. *)
Definition assigned (ks : list string) : list string := js_filter (λ k, negb (str_eqb k "__proto__")) ks.
Definition sorted_keys (fields : list (string * json)) : list string :=
  own_order (assigned (sort_strings fields.*1)).

(** The value that [JSON.stringify] prints under the replacer *)
Fixpoint canonical_json (value : json) : json :=
  match value with
  | JObj fields =>
      let values := map (λ '(k, v), (k, canonical_json v)) fields in
      JObj (map (λ k, (k, default JNull (jm_get k values))) (sorted_keys fields))
  | JArr l => JArr (map canonical_json l)
  | _ => value
  end.
Definition canonicalJson (obj : json) : string := stringify (canonical_json obj).

(** [JSON.parse(raw || '{}')] *)
Definition parseToolCallArgs (raw : string) : json :=
  match json_parse (if is_empty raw then "{}" else raw) with
  | Some v => v
  | None => JObj [("__raw", JStr raw)]
  end.

(** The members of an object as it is printed: those that are [undefined] are left out. *)
Definition present (members : list (string * option json)) : list (string * json) :=
  flat_map (λ '(k, o), match o with Some v => [(k, v)] | None => [] end) members.

Record LlmCacheParams := {
  lp_model : string;
  lp_messages : list json;
  lp_temperature : option number;
  lp_top_p : option number;
  lp_max_tokens : option number;
  lp_tools : option (list json);
  lp_toolChoice : option json;
  lp_seed : option number;
  lp_stop : option (list string);
  lp_responseFormat : option json;
  lp_reasoningEffort : option string;
  lp_promptCacheKey : option string
}.
(** [tool.function.name], a string by the type of a tool *)
Definition tool_name (tool : json) : string :=
  match json_member tool "function" with
  | Some (Some f) => match json_member f "name" with Some (Some (JStr s)) => s | _ => EmptyString end
  | _ => EmptyString
  end.

Section hashes.
Context (sha256 : string → string) (localeCompare : string → string → Z).

Definition sorted_tools (tools : list json) : list json :=
  js_sort (λ a b, localeCompare (tool_name a) (tool_name b)) tools.
(** The object that is hashed *)
Definition llm_members (params : LlmCacheParams) : list (string * option json) :=
  [("model", Some (JStr (lp_model params)));
   ("messages", Some (JArr (lp_messages params)));
   ("temperature", Some (JNum (default (num_of_Z 1) (lp_temperature params))));
   ("top_p", Some (JNum (default (num_of_Z 1) (lp_top_p params))));
   ("max_tokens", JNum <$> lp_max_tokens params);
   ("tools", (λ l, JArr (sorted_tools l)) <$> lp_tools params);
   ("toolChoice", lp_toolChoice params);
   ("seed", JNum <$> lp_seed params);
   ("stop", (λ l, JArr (map JStr l)) <$> lp_stop params);
   ("responseFormat", lp_responseFormat params);
   ("reasoningEffort", JStr <$> lp_reasoningEffort params);
   ("promptCacheKey", JStr <$> lp_promptCacheKey params)].
Definition llm_object (params : LlmCacheParams) : json := JObj (present (llm_members params)).
Definition llmCacheHash (params : LlmCacheParams) : string := sha256 (canonicalJson (llm_object params)).
Definition toolCacheHash (args : option json) : string := sha256 (canonicalJson (default (JObj []) args)).
End hashes.

(** ** Specification *)

(** The same data: equal but for the order of the members, with leaves that print alike.  A
    member named [__proto__] does not count. *)
Definition leaf (j : json) : bool := match j with JArr _ | JObj _ => false | _ => true end.
#[warnings="-register-all"]
Inductive same_json : json → json → Prop :=
  | same_leaf a b : leaf a = true → leaf b = true → stringify a = stringify b → same_json a b
  | same_array l l' : Forall2 same_json l l' → same_json (JArr l) (JArr l')
  | same_object f g :
      (∀ k, k ≠ "__proto__" → option_Forall2 same_json (jm_get k f) (jm_get k g)) →
      same_json (JObj f) (JObj g).

(** A value of the language: the names of an object are told apart by their code units. *)
Fixpoint json_data (j : json) : Prop :=
  match j with
  | JNum n => SpecFloat.valid_binary prec emax n = true
  | JArr l => foldr (λ x P, json_data x ∧ P) True l
  | JObj fields => NoDup (map utf16 fields.*1) ∧ foldr (λ kv P, json_data kv.2 ∧ P) True fields
  | _ => True
  end.

Example canonical_ex :
  canonicalJson <$> json_parse (quoted "{`b`:1,`10`:[{`z`:null,`y`:`x`}],`9`:0.5,`a`:{`__proto__`:1}}")
  = Some (quoted "{`9`:0.5,`10`:[{`y`:`x`,`z`:null}],`a`:{},`b`:1}").
Proof. vm_compute. reflexivity. Qed.
Example escape_glob_ex : escapeGlobPattern "a*[b]?\c" = "a\*\[b\]\?\\c".
Proof. vm_compute. reflexivity. Qed.

(** ** Lemmas *)

(** *** Texts that agree *)
Lemma str_app_inj_r s t u : s +:+ u = t +:+ u → s = t.
Proof.
  intros H. assert (Hl : String.length s = String.length t)
    by (apply (f_equal String.length) in H; rewrite !str_app_length in H; lia).
  rewrite <-(str_take_app s u), <-(str_take_app t u), H, Hl. done.
Qed.
Lemma value_prefix a b r r' :
  json_ok a → json_ok b → ends r → ends r' →
  stringify a +:+ r = stringify b +:+ r' → stringify a = stringify b ∧ reread a = reread b ∧ r = r'.
Proof.
  intros Ha Hb Hr Hr' He.
  set (f := (String.length (stringify a) + String.length (stringify b))%nat).
  pose proof (parse_value_text a Ha f ltac:(lia) r Hr) as Hpa.
  pose proof (parse_value_text b Hb f ltac:(lia) r' Hr') as Hpb.
  rewrite He, Hpb in Hpa. injection Hpa as Hab <-. split_and!; [by eapply str_app_inj_r|done|done].
Qed.
Lemma string_prefix k k' t t' : json_string k +:+ t = json_string k' +:+ t' → k = k' ∧ t = t'.
Proof.
  unfold json_string. cbn [String.append]. intros H. injection H as H.
  rewrite !str_app_assoc in H. change (String quote_char EmptyString +:+ ?u) with (String quote_char u) in H.
  set (n := S (String.length k + String.length k')).
  pose proof (parse_string_text k n t ltac:(lia)) as H1. pose proof (parse_string_text k' n t' ltac:(lia)) as H2.
  rewrite H, H2 in H1. by injection H1 as <- <-.
Qed.
(** The texts of the elements are those of the array, after a bracket that closes. *)
Lemma elements_prefix l l' :
  Forall json_ok l → Forall json_ok l' →
  join "," (map stringify l) +:+ "]" = join "," (map stringify l') +:+ "]" →
  map stringify l = map stringify l'.
Proof.
  assert (Hstart : ∀ x l u, Forall json_ok (x :: l) →
    "]" ≠ join "," (map stringify (x :: l)) +:+ u).
  { intros x k u [Hx _]%Forall_cons He. destruct (value_text x Hx) as (c & t & Ht & Hc).
    cbn [map join] in He. rewrite Ht in He. destruct (map stringify k); cbn in He; injection He as <- _; done. }
  intros Hl. revert l'. induction Hl as [|x l Hx Hl IH]; intros [|y l'] Hl' He; [done|..].
  - by apply Hstart in He.
  - symmetry in He. by apply Hstart in He; [|constructor].
  - apply Forall_cons in Hl' as [Hy Hl'].
    assert (Hcut : ∀ x l, ∃ r, join "," (map stringify (x :: l)) +:+ "]" = stringify x +:+ r ∧ ends r
              ∧ (r = "]" ∧ l = [] ∨ r = "," +:+ join "," (map stringify l) +:+ "]" ∧ l ≠ [])).
    { intros z [|w k]; [by exists "]"; split_and!; [done|by apply ends_follows|left]|].
      eexists. split; [cbn [map join]; by rewrite !str_app_assoc|]. split; [by apply ends_follows|by right]. }
    destruct (Hcut x l) as (r & Hr & He1 & Hc1), (Hcut y l') as (r' & Hr' & He2 & Hc2).
    rewrite Hr, Hr' in He. destruct (value_prefix x y r r' Hx Hy He1 He2 He) as (Hs & _ & <-).
    cbn [map]. rewrite Hs. f_equal.
    destruct Hc1 as [[-> ->]|[-> Hne]], Hc2 as [[Hr2 ->]|[Hr2 Hne']]; try done.
    injection Hr2 as Hr2. by apply IH.
Qed.
Lemma members_prefix l l' :
  Forall (λ kv, json_ok kv.2) l → Forall (λ kv, json_ok kv.2) l' →
  join "," (map member_text l) +:+ "}" = join "," (map member_text l') +:+ "}" →
  map (λ kv, (kv.1, stringify kv.2)) l = map (λ kv, (kv.1, stringify kv.2)) l'.
Proof.
  assert (Hstart : ∀ x l u, "}" ≠ join "," (map member_text (x :: l)) +:+ u).
  { intros x k u He. cbn [map join] in He. destruct (map member_text k); done. }
  intros Hl. revert l'. induction Hl as [|[k v] l Hx Hl IH]; intros [|[k' v'] l'] Hl' He; [done|..].
  - by apply Hstart in He.
  - symmetry in He. by apply Hstart in He.
  - apply Forall_cons in Hl' as [Hy Hl']. cbn [snd] in Hx, Hy.
    assert (Hcut : ∀ k v l, ∃ r, join "," (map member_text ((k, v) :: l)) +:+ "}" = json_string k +:+ ":" +:+ stringify v +:+ r ∧ ends r
              ∧ (r = "}" ∧ l = [] ∨ r = "," +:+ join "," (map member_text l) +:+ "}" ∧ l ≠ [])).
    { intros q z [|w m]; (eexists; split; [cbn [map join]; unfold member_text at 1; by rewrite !str_app_assoc|]);
        (split; [by apply ends_follows|]); [by left|by right]. }
    destruct (Hcut k v l) as (r & Hr & He1 & Hc1), (Hcut k' v' l') as (r' & Hr' & He2 & Hc2).
    rewrite Hr, Hr' in He. apply string_prefix in He as [<- [= He]].
    destruct (value_prefix v v' r r' Hx Hy He1 He2 He) as (Hs & _ & <-).
    cbn [map fst snd]. rewrite Hs. f_equal.
    destruct Hc1 as [[-> ->]|[-> Hne]], Hc2 as [[Hr2 ->]|[Hr2 Hne']]; try done.
    injection Hr2 as Hr2. by apply IH.
Qed.
Lemma stringify_object fields : stringify (JObj fields) = "{" +:+ (join "," (map member_text fields) +:+ "}").
Proof. cbn [stringify]. do 3 f_equal. apply map_ext. by intros []. Qed.
Lemma stringify_array l : stringify (JArr l) = "[" +:+ (join "," (map stringify l) +:+ "]").
Proof. done. Qed.

(** *** Sorted members *)
Lemma own_order_elem k ks : k ∈ own_order ks ↔ k ∈ ks.
Proof.
  unfold own_order. rewrite elem_of_app, js_sort_elem, !js_filter_elem.
  destruct (array_index k); naive_solver.
Qed.
Lemma own_order_NoDup ks : NoDup ks → NoDup (own_order ks).
Proof.
  intros Hks. unfold own_order. apply NoDup_app. split_and!.
  - rewrite js_sort_perm. by eapply sublist_NoDup; [|apply js_filter_sublist].
  - intros k. rewrite js_sort_elem, !js_filter_elem. by intros [-> _] [? _].
  - by eapply sublist_NoDup; [|apply js_filter_sublist].
Qed.
Lemma sorted_keys_elem k fields : k ∈ sorted_keys fields ↔ k ≠ "__proto__" ∧ k ∈ fields.*1.
Proof.
  unfold sorted_keys, assigned. rewrite own_order_elem, js_filter_elem. unfold sort_strings.
  rewrite js_sort_elem. unfold str_eqb. destruct (bool_decide_reflect (k = "__proto__")); naive_solver.
Qed.
Lemma sorted_keys_NoDup fields : NoDup fields.*1 → NoDup (sorted_keys fields).
Proof.
  intros Hnd. apply own_order_NoDup. unfold assigned. eapply sublist_NoDup; [|apply js_filter_sublist].
  unfold sort_strings. by rewrite js_sort_perm.
Qed.
Lemma sorted_filter {A} (R : A → A → Prop) p l : StronglySorted R l → StronglySorted R (js_filter p l).
Proof.
  induction 1 as [|x l Hl IH Hx]; cbn; [constructor|]. destruct (p x); [|done].
  constructor; [done|by apply js_filter_Forall].
Qed.
Lemma sorted_keys_unique f g :
  units_distinct f.*1 → NoDup f.*1 → NoDup g.*1 →
  (∀ k, k ≠ "__proto__" → k ∈ f.*1 ↔ k ∈ g.*1) → sorted_keys f = sorted_keys g.
Proof.
  intros Hu Hf Hg Hk. unfold sorted_keys. f_equal.
  assert (Hperm : assigned (sort_strings f.*1) ≡ₚ assigned (sort_strings g.*1)).
  { unfold assigned, sort_strings. apply NoDup_Permutation.
    1,2: eapply sublist_NoDup; [|apply js_filter_sublist]; by rewrite js_sort_perm.
    intros k. rewrite !js_filter_elem, !js_sort_elem. unfold str_eqb.
    destruct (bool_decide_reflect (k = "__proto__")); [naive_solver|]. by rewrite Hk. }
  apply (StronglySorted_unique_strong (λ s t, units_cmp (utf16 s) (utf16 t) ≤ 0)); [..|done].
  - intros s t Hs Ht H1 H2.
    assert (Hin : ∀ x, x ∈ assigned (sort_strings f.*1) → x ∈ f.*1)
      by (intros x [_ Hx]%js_filter_elem; by apply js_sort_elem in Hx).
    apply Hu; [by apply Hin|apply Hin; by rewrite Hperm|]. apply units_cmp_eq.
    rewrite (units_cmp_swap (utf16 s)) in H2. lia.
  - apply sorted_filter, sort_strings_sorted.
  - apply sorted_filter, sort_strings_sorted.
Qed.
Lemma jm_get_map {V W} (h : V → W) k (m : list (string * V)) :
  jm_get k (map (λ '(k, v), (k, h v)) m) = h <$> jm_get k m.
Proof. induction m as [|[k' v] m IH]; cbn; [done|]. by case_decide. Qed.
Lemma units_keys fields : NoDup (map utf16 fields.*1) → units_distinct fields.*1 ∧ NoDup (fields : list (string * json)).*1.
Proof.
  intros Hnd. split; [|exact (NoDup_fmap_1 utf16 _ Hnd)].
  intros s t Hs Ht He. apply list_elem_of_lookup in Hs as [i Hi], Ht as [j Hj].
  assert (i = j); [|by simplify_eq]. eapply NoDup_lookup; [exact Hnd|..].
  - change (map utf16 fields.*1) with (utf16 <$> fields.*1). rewrite list_lookup_fmap, Hi. done.
  - change (map utf16 fields.*1) with (utf16 <$> fields.*1). rewrite list_lookup_fmap, Hj. cbn. by rewrite He.
Qed.
Lemma data_all l : foldr (λ x P, json_data x ∧ P) True l ↔ Forall json_data l.
Proof. induction l as [|x l IH]; cbn; [by split; [constructor|]|]. by rewrite IH, Forall_cons. Qed.
Lemma data_members l :
  foldr (λ (kv : string * json) P, json_data kv.2 ∧ P) True l ↔ Forall (λ kv, json_data kv.2) l.
Proof. induction l as [|x l IH]; cbn; [by split; [constructor|]|]. by rewrite IH, Forall_cons. Qed.

(** The members of the object that is printed *)
Definition members_of (fields : list (string * json)) : list (string * json) :=
  map (λ k, (k, default JNull (canonical_json <$> jm_get k fields))) (sorted_keys fields).
Lemma canonical_object fields : canonical_json (JObj fields) = JObj (members_of fields).
Proof. cbn [canonical_json]. f_equal. apply map_ext. intros k. by rewrite jm_get_map. Qed.
Lemma members_keys fields : (members_of fields).*1 = sorted_keys fields.
Proof.
  unfold members_of. change (map ?h ?l) with (h <$> l). rewrite <-list_fmap_compose. apply list_fmap_id.
Qed.
Lemma canonical_ok j : json_data j → json_ok (canonical_json j).
Proof.
  induction j as [|b|n|s|l IH|fields IH] using json_ind'; try done.
  - cbn [json_data canonical_json json_ok]. rewrite data_all, json_ok_all. intros Hl.
    apply Forall_forall. intros x Hx. apply list_elem_of_fmap in Hx as (y & -> & Hy).
    rewrite Forall_forall in IH. rewrite Forall_forall in Hl. by apply IH, Hl.
  - rewrite canonical_object. cbn [json_data json_ok]. rewrite data_members, json_ok_members, members_keys.
    intros [[_ Hnd]%units_keys Hd]. split; [by apply sorted_keys_NoDup|].
    apply Forall_forall. intros kv Hkv. apply list_elem_of_fmap in Hkv as (k & -> & _). cbn [snd].
    destruct (jm_get k fields) as [v|] eqn:Hg; cbn; [|done]. apply jm_get_elem in Hg.
    rewrite Forall_forall in IH. rewrite Forall_forall in Hd. by apply (IH _ Hg), (Hd _ Hg).
Qed.

(** *** Equal texts and equal data *)
Lemma canonical_texts a b :
  json_data a → json_data b → canonicalJson a = canonicalJson b →
  reread (canonical_json a) = reread (canonical_json b).
Proof.
  intros Ha Hb He. apply canonical_ok in Ha, Hb. unfold canonicalJson in He.
  by destruct (value_prefix _ _ EmptyString EmptyString Ha Hb I I ltac:(by rewrite He)) as (_ & ? & _).
Qed.
Lemma leaf_canonical a : leaf a = true → canonical_json a = a ∧ leaf (reread a) = true.
Proof. destruct a as [|b|n|s|l|fields]; try done. cbn. by destruct (is_finite n). Qed.
Lemma composite_texts a b :
  json_data a → json_data b → canonicalJson a = canonicalJson b →
  match a, b with
  | JArr _, JArr _ | JObj _, JObj _ => True
  | _, _ => leaf a = true ∧ leaf b = true
  end.
Proof.
  intros Ha Hb He%canonical_texts; [|done..].
  destruct (leaf a) eqn:Hla.
  - destruct (leaf_canonical a Hla) as [Hc Hra]. rewrite Hc in He. rewrite He in Hra.
    destruct b; [..|done|by rewrite canonical_object in Hra]; by destruct a.
  - destruct (leaf b) eqn:Hlb.
    + destruct (leaf_canonical b Hlb) as [Hc Hrb]. rewrite Hc in He. rewrite <-He in Hrb.
      by destruct a.
    + destruct a as [| | | |l|f], b as [| | | |l'|g]; try done; by rewrite canonical_object in He.
Qed.
Lemma forall2_map_eq {A B} (h : A → B) (R : A → A → Prop) l l' :
  (∀ x y, x ∈ l → y ∈ l' → h x = h y ↔ R x y) → map h l = map h l' ↔ Forall2 R l l'.
Proof.
  revert l'. induction l as [|x l IH]; intros [|y l'] H; [by split; intros _; [apply Forall2_nil|]|..].
  - split; [done|by inversion 1].
  - split; [done|by inversion 1].
  - cbn. rewrite Forall2_cons, <-IH by (intros; apply H; by right).
    rewrite <-(H x y) by left. naive_solver congruence.
Qed.
Lemma canonical_array l l' :
  Forall json_data l → Forall json_data l' →
  canonicalJson (JArr l) = canonicalJson (JArr l') ↔ map canonicalJson l = map canonicalJson l'.
Proof.
  intros Hl Hl'. unfold canonicalJson. cbn [canonical_json]. rewrite !stringify_array.
  assert (Hm : ∀ l, map stringify (map canonical_json l) = map (λ x, stringify (canonical_json x)) l)
    by (intros; apply map_map).
  assert (Hok : ∀ l, Forall json_data l → Forall json_ok (map canonical_json l)).
  { intros k Hk. apply Forall_forall. intros x Hx. apply list_elem_of_fmap in Hx as (y & -> & Hy).
    rewrite Forall_forall in Hk. by apply canonical_ok, Hk. }
  split.
  - intros [= He]. apply elements_prefix in He; [|by apply Hok..]. by rewrite !Hm in He.
  - intros He. by rewrite !Hm, He.
Qed.
(** What an object prints for a member *)
Definition member_texts (fields : list (string * json)) : list (string * string) :=
  map (λ k, (k, default "null" (canonicalJson <$> jm_get k fields))) (sorted_keys fields).
Lemma member_texts_of fields :
  map (λ kv, (kv.1, stringify kv.2)) (members_of fields) = member_texts fields.
Proof.
  unfold members_of, member_texts. rewrite map_map. apply map_ext. intros k. cbn [fst snd].
  by destruct (jm_get k fields).
Qed.
Lemma canonical_object_texts f g :
  json_data (JObj f) → json_data (JObj g) →
  canonicalJson (JObj f) = canonicalJson (JObj g) ↔ member_texts f = member_texts g.
Proof.
  intros Hf%canonical_ok Hg%canonical_ok. unfold canonicalJson. rewrite !canonical_object in *.
  cbn [json_ok] in Hf, Hg. rewrite !json_ok_members in Hf. rewrite json_ok_members in Hg.
  destruct Hf as [_ Hf], Hg as [_ Hg]. rewrite !stringify_object, <-!member_texts_of. split.
  - intros [= He]. by apply members_prefix.
  - intros He. assert (Hm : map member_text (members_of f) = map member_text (members_of g)); [|by rewrite Hm].
    assert (H : ∀ l, map member_text l = map (λ p : string * string, json_string p.1 +:+ ":" +:+ p.2)
                                    (map (λ kv, (kv.1, stringify kv.2)) l)).
    { intros l. rewrite map_map. done. }
    by rewrite !H, He.
Qed.
Lemma member_texts_same f g :
  json_data (JObj f) → json_data (JObj g) →
  member_texts f = member_texts g ↔
  ∀ k, k ≠ "__proto__" → option_Forall2 (λ a b, canonicalJson a = canonicalJson b) (jm_get k f) (jm_get k g).
Proof.
  cbn [json_data]. intros [[Huf Hf]%units_keys _] [[_ Hg]%units_keys _].
  assert (Hkeys : ∀ l, map fst (member_texts l) = sorted_keys l).
  { intros l. unfold member_texts. rewrite map_map. apply map_id. }
  split.
  - intros He k Hk. assert (Hs : sorted_keys f = sorted_keys g) by (by rewrite <-!Hkeys, He).
    assert (Hin : k ∈ f.*1 ↔ k ∈ g.*1) by (pose proof (sorted_keys_elem k f); pose proof (sorted_keys_elem k g); rewrite Hs in *; naive_solver).
    destruct (jm_get k f) as [a|] eqn:Ha, (jm_get k g) as [b|] eqn:Hb.
    + constructor. assert (Hkf : k ∈ sorted_keys f).
      { apply sorted_keys_elem. split; [done|]. apply list_elem_of_fmap. exists (k, a). split; [done|by apply jm_get_elem]. }
      apply list_elem_of_lookup in Hkf as [i Hi].
      apply (f_equal (lookup i)) in He. unfold member_texts in He.
      change (map ?h ?l) with (h <$> l) in He. rewrite !list_lookup_fmap, <-Hs, Hi in He.
      cbn in He. rewrite Ha, Hb in He. by injection He.
    + exfalso. apply jm_get_None in Hb. apply jm_get_elem in Ha. apply Hb, Hin.
      apply list_elem_of_fmap. by exists (k, a).
    + exfalso. apply jm_get_None in Ha. apply jm_get_elem in Hb. apply Ha, Hin.
      apply list_elem_of_fmap. by exists (k, b).
    + constructor.
  - intros Hsame. assert (Hs : sorted_keys f = sorted_keys g).
    { apply sorted_keys_unique; [done..|]. intros k Hk. specialize (Hsame k Hk).
      pose proof (jm_get_None k f). pose proof (jm_get_None k g). 
      destruct (decide (k ∈ f.*1)), (decide (k ∈ g.*1)); try done; exfalso;
        destruct (jm_get k f), (jm_get k g); inversion Hsame; naive_solver. }
    unfold member_texts. rewrite <-Hs. apply map_ext_in. intros k Hk%list_elem_of_In.
    apply sorted_keys_elem in Hk as [Hk _]. destruct (Hsame k Hk) as [a b Hab|]; cbn; [by rewrite Hab|done].
Qed.

(** The text of two values is the same just when they are the same data. *)
Lemma canonical_same a b :
  json_data a → json_data b → canonicalJson a = canonicalJson b ↔ same_json a b.
Proof.
  revert b. induction a as [|t|n|s|l IH|f IH] using json_ind'; intros b Ha Hb.
  1-4: (split; [intros He; pose proof (composite_texts _ _ Ha Hb He) as [_ Hl];
                unfold canonicalJson in He; rewrite (proj1 (leaf_canonical b Hl)) in He; by apply same_leaf
               |inversion 1 as [? ? _ Hl He| |]; subst;
                unfold canonicalJson; by rewrite (proj1 (leaf_canonical b Hl))]).
  - cbn [json_data] in Ha. rewrite data_all in Ha.
    assert (Hiff : ∀ l', Forall json_data l' →
              canonicalJson (JArr l) = canonicalJson (JArr l') ↔ Forall2 same_json l l').
    { intros l' Hl'. rewrite canonical_array by done. apply forall2_map_eq. intros x y Hx Hy.
      rewrite Forall_forall in IH. rewrite Forall_forall in Ha. rewrite Forall_forall in Hl'.
      apply IH; [done|by apply Ha|by apply Hl']. }
    split.
    + intros He. assert (Hc := composite_texts (JArr l) b (proj2 (data_all l) Ha) Hb He).
      destruct b as [| | | |l'|g]; try by destruct Hc.
      cbn [json_data] in Hb. rewrite data_all in Hb. apply same_array. by apply Hiff.
    + inversion 1 as [|? l' Hl|]; subst; [done|].
      cbn [json_data] in Hb. rewrite data_all in Hb. by apply Hiff.
  - assert (Hiff : ∀ g, json_data (JObj g) → canonicalJson (JObj f) = canonicalJson (JObj g) ↔
              ∀ k, k ≠ "__proto__" → option_Forall2 same_json (jm_get k f) (jm_get k g)).
    { intros g Hg. rewrite canonical_object_texts, member_texts_same by done.
      cbn [json_data] in Ha, Hg. rewrite data_members in Ha. rewrite data_members in Hg.
      destruct Ha as [_ Ha], Hg as [_ Hg]. rewrite Forall_forall in IH. rewrite Forall_forall in Ha.
      rewrite Forall_forall in Hg.
      assert (Hstep : ∀ k x y, jm_get k f = Some x → jm_get k g = Some y →
                canonicalJson x = canonicalJson y ↔ same_json x y).
      { intros k x y Hka%jm_get_elem Hkb%jm_get_elem. apply (IH _ Hka); [exact (Ha _ Hka)|exact (Hg _ Hkb)]. }
      split; intros H k Hk; specialize (H k Hk); specialize (Hstep k); revert Hstep;
        inversion H as [x y Hab|]; intros Hstep; constructor; by apply (Hstep x y). }
    split.
    + intros He. assert (Hc := composite_texts (JObj f) b Ha Hb He).
      destruct b as [| | | |l'|g]; try by destruct Hc.
      apply same_object. by apply Hiff.
    + inversion 1 as [| |? g Hg]; subst; [done|]. by apply Hiff.
Qed.

(** *** Objects with members that may be absent *)
Lemma present_elem k v members : (k, v) ∈ present members ↔ (k, Some v) ∈ members.
Proof.
  unfold present. induction members as [|[k' [w|]] members IH]; cbn [flat_map app]; [by split; inversion 1|..];
    rewrite ?elem_of_cons, IH; [|set_solver]. split; intros [H|H]; [by simplify_eq; left|by right|by simplify_eq; left|by right].
Qed.
Lemma present_keys members : NoDup members.*1 → NoDup (present members).*1.
Proof.
  induction members as [|[k o] members IH]; [done|]. csimpl. intros [Hk Hnd]%NoDup_cons.
  change (present ((k, o) :: members)) with (match o with Some v => [(k, v)] | None => [] end ++ present members).
  destruct o as [v|]; [|by apply IH]. cbn [app]. csimpl. apply NoDup_cons. split; [|by apply IH].
  intros Hin. apply Hk. apply list_elem_of_fmap in Hin as ([k' w] & -> & Hin). apply present_elem in Hin.
  apply list_elem_of_fmap. by exists (k', Some w).
Qed.
Lemma present_get k o members : NoDup members.*1 → (k, o) ∈ members → jm_get k (present members) = o.
Proof.
  intros Hnd Hin. destruct o as [v|].
  - apply jm_elem_get; [by apply present_keys|by apply present_elem].
  - apply jm_get_None. intros Hk. apply list_elem_of_fmap in Hk as ([k' v] & Hk & Hv). cbn in Hk. subst k'.
    apply present_elem in Hv. apply list_elem_of_lookup in Hin as [i Hi], Hv as [j Hj].
    assert (i = j); [|by simplify_eq].
    eapply NoDup_lookup; [exact Hnd|by rewrite list_lookup_fmap, Hi|by rewrite list_lookup_fmap, Hj].
Qed.
Lemma present_absent k members : k ∉ members.*1 → jm_get k (present members) = None.
Proof.
  intros Hk. apply jm_get_None. intros Hin. apply Hk. apply list_elem_of_fmap in Hin as ([k' v] & -> & Hv).
  apply present_elem in Hv. apply list_elem_of_fmap. by exists (k', Some v).
Qed.
Lemma same_present l l' :
  l.*1 = l'.*1 → NoDup l.*1 → "__proto__" ∉ l.*1 →
  same_json (JObj (present l)) (JObj (present l')) ↔ Forall2 (option_Forall2 same_json) l.*2 l'.*2.
Proof.
  intros Hkeys Hnd Hp. assert (Hnd' : NoDup l'.*1) by (by rewrite <-Hkeys).
  assert (Hlen : length l = length l') by (rewrite <-(length_fmap fst l), Hkeys; by rewrite length_fmap).
  assert (Hat : ∀ i k o o', l !! i = Some (k, o) → l' !! i = Some (k, o') →
            jm_get k (present l) = o ∧ jm_get k (present l') = o').
  { intros i k o o' Ho%list_elem_of_lookup_2 Ho'%list_elem_of_lookup_2. by split; apply present_get. }
  assert (Hboth : ∀ i k o, l !! i = Some (k, o) → ∃ o', l' !! i = Some (k, o')).
  { intros i k o Hi. destruct (lookup_lt_is_Some_2 l' i) as [[k' o'] Hi'].
    { rewrite <-Hlen. by eapply lookup_lt_Some. }
    exists o'. rewrite Hi'. f_equal. f_equal. apply (f_equal (lookup i)) in Hkeys.
    rewrite !list_lookup_fmap, Hi, Hi' in Hkeys. by injection Hkeys. }
  split.
  - inversion 1 as [? ? Hl| |f g Hs]; subst; [done|]. apply Forall2_same_length_lookup_2.
    + by rewrite !length_fmap.
    + intros i o o' Ho Ho'. rewrite list_lookup_fmap in Ho, Ho'.
      destruct (l !! i) as [[k x]|] eqn:Hi; [|done]. cbn in Ho. injection Ho as Ho. subst x.
      destruct (Hboth i k o Hi) as [y Hi']. rewrite Hi' in Ho'. cbn in Ho'. injection Ho' as Ho'. subst y.
      assert (Hk : k ≠ "__proto__").
      { intros ->. apply Hp, list_elem_of_fmap. exists ("__proto__", o). split; [done|by eapply list_elem_of_lookup_2]. }
      destruct (Hat i k o o' Hi Hi') as [<- <-]. by apply Hs.
  - intros Hs. apply same_object. intros k Hk. destruct (decide (k ∈ l.*1)) as [Hin|Hin].
    + apply list_elem_of_fmap in Hin as ([k' o] & Hk' & Hin). cbn in Hk'. subst k'.
      apply list_elem_of_lookup in Hin as [i Hi].
      destruct (Hboth i k o Hi) as [o' Hi']. destruct (Hat i k o o' Hi Hi') as [-> ->].
      eapply Forall2_lookup_lr; [exact Hs|by rewrite list_lookup_fmap, Hi|by rewrite list_lookup_fmap, Hi'].
    + rewrite !present_absent by (by rewrite <-?Hkeys). constructor.
Qed.

(** The same data, by kind *)
Lemma same_leaves a b : leaf a = true → leaf b = true → same_json a b ↔ stringify a = stringify b.
Proof. intros Ha Hb. split; [by inversion 1; subst|by apply same_leaf]. Qed.
Lemma same_strings s t : same_json (JStr s) (JStr t) ↔ s = t.
Proof.
  rewrite same_leaves by done. cbn [stringify]. split; [|by intros ->].
  intros He. by destruct (string_prefix s t EmptyString EmptyString ltac:(by rewrite He)).
Qed.
Lemma same_numbers x y : same_json (JNum x) (JNum y) ↔ json_number x = json_number y.
Proof. by rewrite same_leaves. Qed.
Lemma same_arrays l k : same_json (JArr l) (JArr k) ↔ Forall2 same_json l k.
Proof. split; [by inversion 1|by apply same_array]. Qed.
Lemma same_string_lists l k : same_json (JArr (map JStr l)) (JArr (map JStr k)) ↔ l = k.
Proof.
  rewrite same_arrays. split; [|intros ->; induction k; constructor; [by apply same_strings|done]].
  revert k. induction l as [|s l IH]; intros [|t k]; cbn; try by inversion 1.
  intros [<-%same_strings Hl]%Forall2_cons. f_equal. by apply IH.
Qed.
Lemma option_forall2_some {A} (R : A → A → Prop) x y : option_Forall2 R (Some x) (Some y) ↔ R x y.
Proof. split; [by inversion 1|by constructor]. Qed.
Lemma option_forall2_fmap {A} (h : A → json) (R : A → A → Prop) (o o' : option A) :
  (∀ x y, same_json (h x) (h y) ↔ R x y) → option_Forall2 same_json (h <$> o) (h <$> o') ↔ option_Forall2 R o o'.
Proof.
  intros Hh. destruct o, o'; cbn; rewrite ?option_forall2_some; [done|split; inversion 1..|by split; constructor].
Qed.
Lemma option_forall2_keys {A B} (h : A → json) (key : A → B) (o o' : option A) :
  (∀ x y, same_json (h x) (h y) ↔ key x = key y) →
  option_Forall2 same_json (h <$> o) (h <$> o') ↔ key <$> o = key <$> o'.
Proof.
  intros Hh. rewrite (option_forall2_fmap h (λ x y, key x = key y)) by done.
  destruct o, o'; cbn; rewrite ?option_forall2_some; [by split; [intros ->|intros [= ?]]|by split; inversion 1..|by split; constructor].
Qed.

(** ** Theorems *)
Section keys.
Context (sha256 : string → string) (localeCompare : string → string → Z).

(** What the parameters of a request must be: data *)
Definition llm_data (p : LlmCacheParams) : Prop :=
  json_data (llm_object localeCompare p).

(** the key of a completion stands for the request: two requests have the same key just when
    every parameter is the same data, a missing temperature or top_p counting as 1 and the tools
    taken in the order of their names, as long as SHA-256 does not collide on the two texts. *)
Theorem llm_key_exact (p q : LlmCacheParams) :
  llm_data p → llm_data q →
  (∀ s t, s = canonicalJson (llm_object localeCompare p) → t = canonicalJson (llm_object localeCompare q) →
     sha256 s = sha256 t → s = t) →
  llmCacheHash sha256 localeCompare p = llmCacheHash sha256 localeCompare q ↔
  lp_model p = lp_model q
  ∧ Forall2 same_json (lp_messages p) (lp_messages q)
  ∧ json_number (default (num_of_Z 1) (lp_temperature p)) = json_number (default (num_of_Z 1) (lp_temperature q))
  ∧ json_number (default (num_of_Z 1) (lp_top_p p)) = json_number (default (num_of_Z 1) (lp_top_p q))
  ∧ json_number <$> lp_max_tokens p = json_number <$> lp_max_tokens q
  ∧ option_Forall2 (λ l k, Forall2 same_json (sorted_tools localeCompare l) (sorted_tools localeCompare k))
      (lp_tools p) (lp_tools q)
  ∧ option_Forall2 same_json (lp_toolChoice p) (lp_toolChoice q)
  ∧ json_number <$> lp_seed p = json_number <$> lp_seed q
  ∧ lp_stop p = lp_stop q
  ∧ option_Forall2 same_json (lp_responseFormat p) (lp_responseFormat q)
  ∧ lp_reasoningEffort p = lp_reasoningEffort q
  ∧ lp_promptCacheKey p = lp_promptCacheKey q.
Proof using Type.
  intros Hp Hq Hsha.
  assert (Hkey : llmCacheHash sha256 localeCompare p = llmCacheHash sha256 localeCompare q
                 ↔ same_json (llm_object localeCompare p) (llm_object localeCompare q)).
  { rewrite <-canonical_same by done. unfold llmCacheHash. split; [by apply Hsha|by intros ->]. }
  rewrite Hkey. clear Hkey Hsha. unfold llm_object. rewrite same_present; [|done| |].
  - cbn [llm_members fmap list_fmap snd].
    rewrite !Forall2_cons, !option_forall2_some, same_strings, same_arrays, !same_numbers.
    rewrite !(option_forall2_keys JNum json_number) by (intros; apply same_numbers).
    rewrite !(option_forall2_keys JStr id), !option_fmap_id by (intros; apply same_strings).
    rewrite (option_forall2_keys (λ l, JArr (map JStr l)) id), !option_fmap_id by (intros; apply same_string_lists).
    rewrite (option_forall2_fmap (λ l, JArr (sorted_tools localeCompare l))
               (λ l k, Forall2 same_json (sorted_tools localeCompare l) (sorted_tools localeCompare k)))
      by (intros; apply same_arrays).
    naive_solver.
  - cbn [llm_members fmap list_fmap fst]. by eapply bool_decide_eq_true_1.
  - cbn [llm_members fmap list_fmap fst]. by eapply bool_decide_eq_true_1.
Qed.
End keys.

(** Arguments that differ in the order of their members *)
Definition sample_args : json := JObj [("city", JStr "Sofia"); ("days", JArr [JInt 1; JObj [("b", JNull); ("a", JBool true)]])].
Definition sample_reordered : json := JObj [("days", JArr [JInt 1; JObj [("a", JBool true); ("b", JNull)]]); ("city", JStr "Sofia")].
Lemma sample_args_data : json_data sample_args ∧ json_data sample_reordered.
Proof.
  split; (split; [apply (bool_decide_unpack (NoDup _)); by vm_compute|]);
    cbn; split_and!; try done; apply (bool_decide_unpack (NoDup _)); by vm_compute.
Qed.
Definition sample_params : LlmCacheParams :=
  {| lp_model := "m"; lp_messages := [JObj [("role", JStr "user"); ("content", JStr "hi")]];
     lp_temperature := None; lp_top_p := None; lp_max_tokens := None; lp_tools := None;
     lp_toolChoice := None; lp_seed := None; lp_stop := Some ["x"]; lp_responseFormat := None;
     lp_reasoningEffort := None; lp_promptCacheKey := None |}.
Definition sample_params' : LlmCacheParams :=
  {| lp_model := "m"; lp_messages := [JObj [("content", JStr "hi"); ("role", JStr "user")]];
     lp_temperature := Some (num_of_Z 1); lp_top_p := None; lp_max_tokens := None; lp_tools := None;
     lp_toolChoice := None; lp_seed := None; lp_stop := Some ["x"]; lp_responseFormat := None;
     lp_reasoningEffort := None; lp_promptCacheKey := None |}.
Lemma sample_params_data p : p ∈ [sample_params; sample_params'] → llm_data (λ _ _, 0) p.
Proof.
  intros Hp. set_unfold in Hp. destruct_or! Hp; subst;
    (split; [apply (bool_decide_unpack (NoDup _)); by vm_compute|]);
    cbn; split_and!; try done; apply (bool_decide_unpack (NoDup _)); by vm_compute.
Qed.
Lemma llm_key_exact_witness :
  Forall2 same_json (lp_messages sample_params) (lp_messages sample_params').
Proof.
  apply (llm_key_exact (λ s, s) (λ _ _, 0) sample_params sample_params').
  - apply sample_params_data. set_solver.
  - apply sample_params_data. set_solver.
  - intros s t _ _ H. exact H.
  - vm_compute. reflexivity.
Defined.
