(* ===== verification/AgentCache.v ===== *)
(** * The agent cache

    [packages/agent-cache/src]: the cache of completions ([tiers/LlmCache.ts]), the cache of tool
    results ([tiers/ToolCache.ts]), the sessions ([tiers/SessionStore.ts]), the walk over a cluster
    ([cluster.ts]) and the whole of them with their statistics ([AgentCache.ts]).  The Valkey client
    is the interface [CacheEnv]; SHA-256, [localeCompare] and the metrics library's refusal of an
    increment are parameters.  Tracing, durations, product analytics and discovery are left out. *)
From S2P Require Export CanonicalJson Hoare.
From stdpp Require Import options.

(** ** Definitions *)

(** *** State *)
Record ModelCost := { mc_inputPer1k : number; mc_outputPer1k : number }.
(** The options of a cache that its tiers read *)
Record CacheConfig := {
  cc_name : string;
  cc_defaultTtl : option number;
  cc_llmTtl : option number;
  cc_toolTtl : option number;
  cc_sessionTtl : option number;
  cc_costTable : option (list (string * ModelCost));
  cc_maxSessions : Z
}.
Inductive CacheMetric :=
  | RequestsTotal (tier outcome tool : string)
  | CostSaved (tier model tool : string) (cost : json)
  | StoredBytes (tier : string) (bytes : Z)
  | ConfigRefreshFailed.
(** What the cache keeps in memory: the policies of the tools, the tracked sessions with the time
    of their last write, the gauge of active sessions, and the metrics that were counted *)
Record AgentCache (W : Type) := {
  ca_world : W;
  ca_policies : list (string * json);
  ca_seen : list (string * Z);
  ca_activeSessions : Z;
  ca_metrics : list CacheMetric
}.
Arguments ca_world {W} _. Arguments ca_policies {W} _. Arguments ca_seen {W} _.
Arguments ca_activeSessions {W} _. Arguments ca_metrics {W} _.

(** The options a cache is created with; the prices of the user override those that come with the
    package. *)
Record AgentCacheOptions := {
  ao_name : option string;
  ao_defaultTtl : option number;
  ao_llmTtl : option number;
  ao_toolTtl : option number;
  ao_sessionTtl : option number;
  ao_costTable : option (list (string * ModelCost));
  ao_useDefaultCostTable : option bool
}.
Definition cache_config (DEFAULT_COST_TABLE : list (string * ModelCost)) (options : AgentCacheOptions)
    : CacheConfig :=
  {| cc_name := default "betterdb_ac" (ao_name options);
     cc_defaultTtl := ao_defaultTtl options;
     cc_llmTtl := ao_llmTtl options; cc_toolTtl := ao_toolTtl options;
     cc_sessionTtl := ao_sessionTtl options;
     cc_costTable := if default true (ao_useDefaultCostTable options)
                     then Some (js_spread DEFAULT_COST_TABLE (default [] (ao_costTable options)))
                     else ao_costTable options;
     cc_maxSessions := 10000 |}.
Definition new_cache {W} (w : W) : AgentCache W :=
  {| ca_world := w; ca_policies := []; ca_seen := []; ca_activeSessions := 0; ca_metrics := [] |}.

(** The commands of a client in the world [W], for its own connection and for those of the primaries
    ([C]) of a cluster.  A time to live is passed on as it is; a pipeline answers with an error or a
    reply for each command. *)
Class CacheEnv (W C : Type) := {
  ce_now : W → Z;
  ce_nodes : W → list C;
  ce_get : string → M W string (option string);
  ce_set : string → string → option json → M W string unit;
  ce_del : string → M W string Z;
  ce_expire : string → json → M W string unit;
  ce_hincrby : string → list (string * number) → M W string unit;
  ce_hset : string → string → string → M W string unit;
  ce_hgetall : string → M W string (list (string * string));
  ce_scan : C → string → string → Z → M W string (string * list string);
  ce_get_all : C → list string → M W string (list (option string * option string));
  ce_del_all : C → list string → M W string (list (option string * option Z));
  ce_expire_all : C → list string → json → M W string unit
}.

Definition update_world {W} (w : W) (st : AgentCache W) : AgentCache W :=
  {| ca_world := w; ca_policies := ca_policies st; ca_seen := ca_seen st;
     ca_activeSessions := ca_activeSessions st; ca_metrics := ca_metrics st |}.
Definition with_policies {W} (l : list (string * json)) (st : AgentCache W) : AgentCache W :=
  {| ca_world := ca_world st; ca_policies := l; ca_seen := ca_seen st;
     ca_activeSessions := ca_activeSessions st; ca_metrics := ca_metrics st |}.
Definition with_seen {W} (l : list (string * Z)) (st : AgentCache W) : AgentCache W :=
  {| ca_world := ca_world st; ca_policies := ca_policies st; ca_seen := l;
     ca_activeSessions := ca_activeSessions st; ca_metrics := ca_metrics st |}.
Definition with_gauge {W} (n : Z) (st : AgentCache W) : AgentCache W :=
  {| ca_world := ca_world st; ca_policies := ca_policies st; ca_seen := ca_seen st;
     ca_activeSessions := n; ca_metrics := ca_metrics st |}.
Definition with_metric {W} (m : CacheMetric) (st : AgentCache W) : AgentCache W :=
  {| ca_world := ca_world st; ca_policies := ca_policies st; ca_seen := ca_seen st;
     ca_activeSessions := ca_activeSessions st; ca_metrics := ca_metrics st ++ [m] |}.

(** [new ValkeyCommandError(command, err)], thrown in place of the error [err] *)
Definition valkey_error (command err : string) : string :=
  "Valkey command failed: " +:+ command +:+ " - " +:+ err.

(** [String(value)] and [Number(value)] for JSON data *)
Fixpoint js_text (j : json) : string :=
  match j with
  | JNull => "null"
  | JBool b => if b then "true" else "false"
  | JNum n => num_to_string n
  | JStr s => s
  | JArr l => JsString.join "," (map (λ x, match x with JNull => EmptyString | _ => js_text x end) l)
  | JObj _ => "[object Object]"
  end.
Definition to_number (j : json) : number :=
  match j with
  | JNull => num_of_Z 0
  | JBool b => num_of_Z (if b then 1 else 0)
  | JNum n => n
  | _ => num_of_string (js_text j)
  end.
Definition cost_micros (cost : json) : number := math_round (num_mul (to_number cost) (num_of_Z 1000000)).
(** [value === s] *)
Definition is_string (s : string) (value : option json) : bool :=
  match value with Some (JStr t) => str_eqb t s | _ => false end.
Definition type_error : string := "TypeError".
(** [value[key]], which throws on [null] *)
Definition member_of {S} (value : json) (key : string) : M S string (option json) :=
  match json_member value key with Some o => mret o | None => throw type_error end.

Section cache.
Context {W C : Type} `{!CacheEnv W C}.
Context (sha256 : string → string) (localeCompare : string → string → Z).
Context (inc_error : json → option string) (cfg : CacheConfig).
Abbreviation St := (AgentCache W).
Abbreviation name := (cc_name cfg).

Definition in_env {A} (m : M W string A) : M St string A := λ st,
  let '(r, w) := m (ca_world st) in (r, update_world w st).
(** [try { await m } catch (err) { throw new ValkeyCommandError(command, err) }] *)
Definition command {A} (cmd : string) (m : M W string A) : M St string A :=
  try_catch (in_env m) (λ err, throw (valkey_error cmd err)).
(** [try { await m } catch {}] *)
Definition best_effort {A} (m : M W string A) : M St string unit :=
  try_catch (in_env m;; mret tt) (λ _, mret tt).
Definition count (m : CacheMetric) : M St string unit := modify (with_metric m).
Definition statsKey : string := name +:+ ":__stats".
Definition one : number := num_of_Z 1.

(** *** [cluster.ts] *)
Section scan.
Context {A : Type} (onKeys : list string → C → A → M St string A).

(** The loop over the pages of a node; [None] when the fuel runs out *)
Fixpoint scan_node (fuel : nat) (node : C) (pattern : string) (cursor : string) (acc : A)
    : M St string (option A) :=
  match fuel with
  | O => mret None
  | S fuel =>
      '(cursor, keys) ← command "SCAN" (ce_scan node cursor pattern 100);
      acc ← match keys with [] => mret acc | _ => onKeys keys node acc end;
      if str_eqb cursor "0" then mret (Some acc) else scan_node fuel node pattern cursor acc
  end.
Fixpoint scan_nodes (fuel : nat) (nodes : list C) (pattern : string) (acc : A) : M St string (option A) :=
  match nodes with
  | [] => mret (Some acc)
  | node :: nodes =>
      r ← scan_node fuel node pattern "0" acc;
      match r with Some acc => scan_nodes fuel nodes pattern acc | None => mret None end
  end.
Definition clusterScan (fuel : nat) (pattern : string) (acc : A) : M St string (option A) :=
  nodes ← gets (λ st, ce_nodes (ca_world st));
  match nodes with
  | [] => throw (valkey_error "SCAN" "cluster has no master nodes visible")
  | _ => scan_nodes fuel nodes pattern acc
  end.
End scan.

(** The results of a pipeline of DEL: the first error is thrown, the counts are added up. *)
Fixpoint sum_deleted (results : list (option string * option Z)) (n : Z) : M St string Z :=
  match results with
  | [] => mret n
  | (Some err, _) :: _ => throw (valkey_error "DEL" err)
  | (None, removed) :: results => sum_deleted results (n + default 0 removed)
  end.
Definition delete_keys (keys : list string) (node : C) (n : Z) : M St string Z :=
  results ← command "DEL" (ce_del_all node keys);
  sum_deleted results n.

(** *** [tiers/ToolCache.ts] *)
Definition validateToolName (toolName : string) : M St string unit :=
  if includes ":" toolName then
    throw ("Tool name " +:+ String quote_char toolName +:+ String quote_char " contains colon (:). "
           +:+ "Colons are not allowed in tool names as they are used as key delimiters.")
  else mret tt.
Definition tool_key (toolName hash : string) : string := name +:+ ":tool:" +:+ toolName +:+ ":" +:+ hash.
Definition tool_pattern (toolName : string) : string :=
  escapeGlobPattern name +:+ ":tool:" +:+ escapeGlobPattern toolName +:+ ":*".

Record ToolCacheResult := {
  tr_hit : bool; tr_response : option json; tr_key : option string; tr_toolName : string
}.
Definition tool_miss (toolName : string) : ToolCacheResult :=
  {| tr_hit := false; tr_response := None; tr_key := None; tr_toolName := toolName |}.
(** The statistics of a miss and of a hit *)
Definition tool_counts_miss (toolName : string) : M St string unit :=
  best_effort (ce_hincrby statsKey [("tool:misses", one); ("tool:" +:+ toolName +:+ ":misses", one)]);;
  count (RequestsTotal "tool" "miss" toolName).
(** [entry.cost] is read inside the [try] of the statistics and again outside of it. *)
Definition tool_counts_hit (toolName : string) (entry : json) : M St string unit :=
  try_catch
    (cost ← member_of entry "cost";
     in_env (ce_hincrby statsKey
       ([("tool:hits", one); ("tool:" +:+ toolName +:+ ":hits", one)]
        ++ match cost with
           | Some c => [("cost_saved_micros", cost_micros c);
                        ("tool:" +:+ toolName +:+ ":cost_saved_micros", cost_micros c)]
           | None => []
           end)))
    (λ _ : string, mret tt);;
  cost ← member_of entry "cost";
  match cost with
  | Some c => match inc_error c with
              | Some err => throw err
              | None => count (CostSaved "tool" EmptyString toolName c)
              end
  | None => mret tt
  end;;
  count (RequestsTotal "tool" "hit" toolName).
Definition tool_check (toolName : string) (args : option json) : M St string ToolCacheResult :=
  validateToolName toolName;;
  let key := tool_key toolName (toolCacheHash sha256 args) in
  raw ← command "GET" (ce_get key);
  match raw with
  | Some ((String _ _) as text) =>
      match json_parse text with
      | None =>
          best_effort (ce_del key);;
          tool_counts_miss toolName;;
          mret (tool_miss toolName)
      | Some entry =>
          tool_counts_hit toolName entry;;
          response ← member_of entry "response";
          mret {| tr_hit := true; tr_response := response; tr_key := Some key; tr_toolName := toolName |}
      end
  | _ => tool_counts_miss toolName;; mret (tool_miss toolName)
  end.

Record ToolStoreOptions := { ts_ttl : option number; ts_cost : option number }.
Definition tool_entry (toolName : string) (args : option json) (response : string) (now : Z)
    (options : option ToolStoreOptions) : json :=
  JObj (present [("response", Some (JStr response)); ("toolName", Some (JStr toolName)); ("args", args);
                 ("storedAt", Some (JInt now)); ("cost", JNum <$> (options ≫= ts_cost))]).
(** [a ?? b]: [null] counts as absent. *)
Definition nullish (a : option json) (b : option json) : option json :=
  match a with Some JNull | None => b | Some x => Some x end.
Definition policy_ttl (policy : option json) : option json :=
  policy ≫= λ p, mjoin (json_member p "ttl").
Definition tool_store (toolName : string) (args : option json) (response : string)
    (options : option ToolStoreOptions) : M St string string :=
  validateToolName toolName;;
  let key := tool_key toolName (toolCacheHash sha256 args) in
  st ← get_state;
  let valueJson := stringify (tool_entry toolName args response (ce_now (ca_world st)) options) in
  let ttl := nullish (JNum <$> (options ≫= ts_ttl))
               (nullish (policy_ttl (jm_get toolName (ca_policies st)))
                  (nullish (JNum <$> cc_toolTtl cfg) (JNum <$> cc_defaultTtl cfg))) in
  command "SET" (ce_set key valueJson ttl);;
  count (StoredBytes "tool" (byte_length valueJson));;
  mret key.
Definition policiesKey : string := name +:+ ":__tool_policies".
Definition setPolicy (toolName : string) (ttl : number) : M St string unit :=
  validateToolName toolName;;
  let policy := JObj [("ttl", JNum ttl)] in
  modify (λ st, with_policies (jm_set toolName policy (ca_policies st)) st);;
  command "HSET" (ce_hset policiesKey toolName (stringify policy)).
Definition getPolicy (toolName : string) (st : St) : option json := jm_get toolName (ca_policies st).
Definition listPolicyNames (st : St) : list string := (ca_policies st).*1.
Definition invalidateByTool (fuel : nat) (toolName : string) : M St string (option Z) :=
  clusterScan delete_keys fuel (tool_pattern toolName) 0.
Definition tool_invalidate (toolName : string) (args : option json) : M St string bool :=
  deleted ← command "DEL" (ce_del (tool_key toolName (toolCacheHash sha256 args)));
  mret (0 <? deleted).
Definition parsed_policies (raw : list (string * string)) : list (string * json) :=
  foldl (λ next '(toolName, text), match json_parse text with
                                   | Some policy => jm_set toolName policy next
                                   | None => next
                                   end) [] raw.
Definition refreshPolicies : M St string bool :=
  try_catch
    (raw ← in_env (ce_hgetall policiesKey);
     modify (with_policies (parsed_policies raw));;
     mret true)
    (λ _ : string, mret false).
Definition resetPolicies : M St string unit := modify (with_policies []).

(** *** [tiers/LlmCache.ts] *)
Definition llm_key (hash : string) : string := name +:+ ":llm:" +:+ hash.
Record LlmCacheResult := {
  lr_hit : bool; lr_response : option json; lr_contentBlocks : option json; lr_key : option string
}.
Definition llm_miss : LlmCacheResult :=
  {| lr_hit := false; lr_response := None; lr_contentBlocks := None; lr_key := None |}.
Definition llm_counts_miss : M St string unit :=
  best_effort (ce_hincrby statsKey [("llm:misses", one)]);;
  count (RequestsTotal "llm" "miss" EmptyString).
Definition llm_counts_hit (entry : json) : M St string unit :=
  try_catch
    (cost ← member_of entry "cost";
     in_env (ce_hincrby statsKey
       (("llm:hits", one) :: match cost with
                             | Some c => [("cost_saved_micros", cost_micros c)]
                             | None => []
                             end)))
    (λ _ : string, mret tt);;
  cost ← member_of entry "cost";
  match cost with
  | Some c =>
      model ← member_of entry "model";
      match inc_error c with
      | Some err => throw err
      | None => count (CostSaved "llm" (match model with Some m => js_text m | None => "undefined" end)
                         EmptyString c)
      end
  | None => mret tt
  end;;
  count (RequestsTotal "llm" "hit" EmptyString).
Definition llm_check (params : LlmCacheParams) : M St string LlmCacheResult :=
  let key := llm_key (llmCacheHash sha256 localeCompare params) in
  raw ← command "GET" (ce_get key);
  match raw with
  | Some ((String _ _) as text) =>
      match json_parse text with
      | None =>
          best_effort (ce_del key);;
          llm_counts_miss;;
          mret llm_miss
      | Some entry =>
          llm_counts_hit entry;;
          response ← member_of entry "response";
          contentBlocks ← member_of entry "contentBlocks";
          mret {| lr_hit := true; lr_response := response; lr_contentBlocks := contentBlocks;
                  lr_key := Some key |}
      end
  | _ => llm_counts_miss;; mret llm_miss
  end.

Record LlmTokens := { tk_input : number; tk_output : number }.
Record LlmStoreOptions := { ls_ttl : option number; ls_tokens : option LlmTokens }.
(** The names every object inherits: a look-up of one finds a function or the prototype, whose
    prices are [undefined]. *)
Definition inherited_names : list string :=
  ["constructor"; "__defineGetter__"; "__defineSetter__"; "hasOwnProperty"; "__lookupGetter__";
   "__lookupSetter__"; "isPrototypeOf"; "propertyIsEnumerable"; "toString"; "valueOf"; "__proto__";
   "toLocaleString"].
Definition model_cost (table : list (string * ModelCost)) (model : string) : option ModelCost :=
  match jm_get model table with
  | Some c => Some c
  | None => if bool_decide (model ∈ inherited_names)
            then Some {| mc_inputPer1k := nan; mc_outputPer1k := nan |} else None
  end.
Definition entry_cost (model : string) (options : option LlmStoreOptions) : option number :=
  table ← cc_costTable cfg;
  tokens ← options ≫= ls_tokens;
  c ← model_cost table model;
  Some (num_add (num_mul (num_div (tk_input tokens) (num_of_Z 1000)) (mc_inputPer1k c))
                (num_mul (num_div (tk_output tokens) (num_of_Z 1000)) (mc_outputPer1k c))).
Definition tokens_json (t : LlmTokens) : json :=
  JObj [("input", JNum (tk_input t)); ("output", JNum (tk_output t))].
Definition llm_entry (params : LlmCacheParams) (response : string) (contentBlocks : option json) (now : Z)
    (options : option LlmStoreOptions) : json :=
  JObj (present [("response", Some (JStr response)); ("contentBlocks", contentBlocks);
                 ("model", Some (JStr (lp_model params))); ("storedAt", Some (JInt now));
                 ("tokens", tokens_json <$> (options ≫= ls_tokens));
                 ("cost", JNum <$> entry_cost (lp_model params) options)]).
(** What [store] and [storeMultipart] have in common *)
Definition llm_put (params : LlmCacheParams) (response : string) (contentBlocks : option json)
    (options : option LlmStoreOptions) : M St string string :=
  let key := llm_key (llmCacheHash sha256 localeCompare params) in
  st ← get_state;
  let valueJson := stringify (llm_entry params response contentBlocks (ce_now (ca_world st)) options) in
  let ttl := nullish (JNum <$> (options ≫= ls_ttl))
               (nullish (JNum <$> cc_llmTtl cfg) (JNum <$> cc_defaultTtl cfg)) in
  command "SET" (ce_set key valueJson ttl);;
  count (StoredBytes "llm" (byte_length valueJson));;
  mret key.
Definition llm_store (params : LlmCacheParams) (response : string) (options : option LlmStoreOptions)
    : M St string string := llm_put params response None options.
(** A block with its fields besides [type] and [text] *)
Definition block_text (block : json) : string :=
  match block with
  | JObj fields =>
      if is_string "text" (jm_get "type" fields) then
        match jm_get "text" fields with Some (JStr s) => s | _ => EmptyString end
      else EmptyString
  | _ => EmptyString
  end.
Definition llm_storeMultipart (params : LlmCacheParams) (blocks : list json)
    (options : option LlmStoreOptions) : M St string string :=
  llm_put params (JsString.join EmptyString (map block_text blocks)) (Some (JArr blocks)) options.

(** The keys of a page whose entries are of the model *)
Definition entry_model (text : string) : option json :=
  json_parse text ≫= λ entry, mjoin (json_member entry "model").
Fixpoint keys_of_model (model : string) (keys : list string)
    (results : list (option string * option string)) : M St string (list string) :=
  match keys, results with
  | [], _ => mret []
  | _ :: _, [] => throw type_error
  | key :: keys, (err, raw) :: results =>
      rest ← keys_of_model model keys results;
      mret match err, raw with
           | None, Some ((String _ _) as text) =>
               if is_string model (entry_model text) then key :: rest else rest
           | _, _ => rest
           end
  end.
Definition delete_model (model : string) (keys : list string) (node : C) (n : Z) : M St string Z :=
  results ← command "GET (pipeline)" (ce_get_all node keys);
  keysToDelete ← keys_of_model model keys results;
  match keysToDelete with [] => mret n | _ => delete_keys keysToDelete node n end.
Definition invalidateByModel (fuel : nat) (model : string) : M St string (option Z) :=
  clusterScan (delete_model model) fuel (escapeGlobPattern name +:+ ":llm:*") 0.

(** *** [tiers/SessionStore.ts] *)

(** The loop of [SessionTracker.add] for the least time, the first of equal ones *)
Definition older (best : option (string * Z)) (entry : string * Z) : option (string * Z) :=
  match best with
  | Some (_, t) => if entry.2 <? t then Some entry else best
  | None => Some entry
  end.
Definition oldest (seen : list (string * Z)) : option string := fst <$> foldl older None seen.
(** Whether the thread is new, and which one was evicted; an empty id is never evicted. *)
Definition tracker_add (threadId : string) : M St string (bool * option string) :=
  st ← get_state;
  let now := ce_now (ca_world st) in
  if jm_has threadId (ca_seen st) then
    put_state (with_seen (jm_set threadId now (ca_seen st)) st);; mret (false, None)
  else
    let evicted := if cc_maxSessions cfg <=? js_len (ca_seen st) then
                     match oldest (ca_seen st) with Some ((String _ _) as key) => Some key | _ => None end
                   else None in
    let seen := match evicted with Some key => jm_delete key (ca_seen st) | None => ca_seen st end in
    put_state (with_seen (jm_set threadId now seen) st);; mret (true, evicted).
Definition tracker_remove (threadId : string) : M St string bool :=
  st ← get_state;
  put_state (with_seen (jm_delete threadId (ca_seen st)) st);; mret (jm_has threadId (ca_seen st)).
Definition gauge_add (n : Z) : M St string unit := modify (λ st, with_gauge (ca_activeSessions st + n) st).

Definition session_key (threadId field : string) : string :=
  name +:+ ":session:" +:+ threadId +:+ ":" +:+ field.
Definition session_pattern (threadId : string) : string :=
  escapeGlobPattern name +:+ ":session:" +:+ escapeGlobPattern threadId +:+ ":*".
Definition session_ttl : option number :=
  match cc_sessionTtl cfg with Some t => Some t | None => cc_defaultTtl cfg end.
Definition session_get (threadId field : string) : M St string (option string) :=
  let key := session_key threadId field in
  value ← command "GET" (ce_get key);
  best_effort (ce_hincrby statsKey [("session:reads", one)]);;
  match value, session_ttl with
  | Some _, Some ttl => best_effort (ce_expire key (JNum ttl))
  | _, _ => mret tt
  end;;
  mret value.
Definition session_set (threadId field value : string) (ttl : option number) : M St string unit :=
  let key := session_key threadId field in
  let effectiveTtl := match ttl with Some t => Some t | None => session_ttl end in
  command "SET" (ce_set key value (JNum <$> effectiveTtl));;
  best_effort (ce_hincrby statsKey [("session:writes", one)]);;
  '(isNew, evicted) ← tracker_add threadId;
  (if isNew : bool then gauge_add 1 else mret tt);;
  (match evicted with Some _ => gauge_add (-1) | None => mret tt end);;
  count (StoredBytes "session" (byte_length value)).

(** The fields of a page with their values, and the keys that have one; the key of a field begins
    with [prefix].  A field [__proto__] makes no member of the result. *)
Definition field_of (prefix key : string) : string := str_drop (String.length prefix) key.
Definition add_field (field value : string) (result : gmap string string) : gmap string string :=
  if str_eqb field "__proto__" then result else <[field := value]> result.
Fixpoint read_fields (prefix : string) (keys : list string) (results : list (option string * option string))
    (result : gmap string string) : M St string (gmap string string * list string) :=
  match keys, results with
  | [], _ => mret (result, [])
  | _ :: _, [] => throw type_error
  | key :: keys, (None, Some value) :: results =>
      '(result, found) ← read_fields prefix keys results (add_field (field_of prefix key) value result);
      mret (result, key :: found)
  | _ :: keys, _ :: results => read_fields prefix keys results result
  end.
Definition thread_prefix (threadId : string) : string := name +:+ ":session:" +:+ threadId +:+ ":".
Definition page_fields (threadId : string) (refresh : bool) (keys : list string) (node : C)
    (result : gmap string string) : M St string (gmap string string) :=
  results ← command "GET" (ce_get_all node keys);
  '(result, found) ← read_fields (thread_prefix threadId) keys results result;
  (match refresh, session_ttl, found with
   | true, Some ttl, _ :: _ => best_effort (ce_expire_all node found (JNum ttl))
   | _, _, _ => mret tt
   end);;
  mret result.
(** The result is a record; the order of its members is left out. *)
Definition getAll (fuel : nat) (threadId : string) : M St string (option (gmap string string)) :=
  clusterScan (page_fields threadId true) fuel (session_pattern threadId) ∅.
Definition scanFieldsByPrefix (fuel : nat) (threadId fieldPrefix : string)
    : M St string (option (gmap string string)) :=
  clusterScan (page_fields threadId false) fuel
    (escapeGlobPattern name +:+ ":session:" +:+ escapeGlobPattern threadId +:+ ":"
     +:+ escapeGlobPattern fieldPrefix +:+ "*") ∅.
Definition session_delete (threadId field : string) : M St string bool :=
  deleted ← command "DEL" (ce_del (session_key threadId field));
  mret (0 <? deleted).
Definition destroyThread (fuel : nat) (threadId : string) : M St string (option Z) :=
  r ← clusterScan delete_keys fuel (session_pattern threadId) 0;
  match r with
  | None => mret None
  | Some deletedCount =>
      removed ← tracker_remove threadId;
      (if removed : bool then gauge_add (-1) else mret tt);;
      mret (Some deletedCount)
  end.
Definition resetTracker : M St string unit := modify (λ st, with_gauge 0 (with_seen [] st)).
Definition touch_page (ttl : number) (keys : list string) (node : C) (n : Z) : M St string Z :=
  command "EXPIRE" (ce_expire_all node keys (JNum ttl));;
  mret (n + js_len keys).
Definition touch (fuel : nat) (threadId : string) : M St string (option unit) :=
  match session_ttl with
  | None => mret (Some tt)
  | Some ttl =>
      r ← clusterScan (touch_page ttl) fuel (session_pattern threadId) 0;
      mret (match r with Some _ => Some tt | None => None end)
  end.

(** *** [AgentCache.ts] *)
Record TierStats := { tt_hits : number; tt_misses : number; tt_total : number; tt_hitRate : number }.
Record ToolStats := {
  to_hits : number; to_misses : number; to_hitRate : number; to_ttl : option json;
  to_costSavedMicros : number
}.
Record AgentCacheStats := {
  as_llm : TierStats; as_tool : TierStats; as_session : number * number;
  as_costSavedMicros : number; as_perTool : list (string * ToolStats)
}.
Definition parseInt_num (s : string) : number :=
  match parse_int s with Some z => num_of_Z z | None => nan end.
Definition getInt (raw : list (string * string)) (field : string) : number :=
  match jm_get field raw with
  | Some ((String _ _) as val) => parseInt_num val
  | _ => num_of_Z 0
  end.
Definition computeHitRate (hits misses : number) : number :=
  let total := num_add hits misses in
  if num_ltb (num_of_Z 0) total then num_div hits total else num_of_Z 0.
Definition tier_stats (hits misses : number) : TierStats :=
  {| tt_hits := hits; tt_misses := misses; tt_total := num_add hits misses;
     tt_hitRate := computeHitRate hits misses |}.
(** The tool and the counter of a field [tool:<name>:<counter>] *)
Definition tool_field (field : string) : option (string * string) :=
  match split_char ":" field with
  | [tier; toolName; counter] =>
      if str_eqb tier "tool" && negb (is_empty toolName)
         && bool_decide (counter ∈ ["hits"; "misses"; "cost_saved_micros"])
      then Some (toolName, counter) else None
  | _ => None
  end.
Definition set_counter (counter : string) (n : number) (t : ToolStats) : ToolStats :=
  if str_eqb counter "hits" then
    {| to_hits := n; to_misses := to_misses t; to_hitRate := to_hitRate t; to_ttl := to_ttl t;
       to_costSavedMicros := to_costSavedMicros t |}
  else if str_eqb counter "misses" then
    {| to_hits := to_hits t; to_misses := n; to_hitRate := to_hitRate t; to_ttl := to_ttl t;
       to_costSavedMicros := to_costSavedMicros t |}
  else
    {| to_hits := to_hits t; to_misses := to_misses t; to_hitRate := to_hitRate t; to_ttl := to_ttl t;
       to_costSavedMicros := n |}.
Definition new_tool (ttl : option json) : ToolStats :=
  {| to_hits := num_of_Z 0; to_misses := num_of_Z 0; to_hitRate := num_of_Z 0; to_ttl := ttl;
     to_costSavedMicros := num_of_Z 0 |}.
(** A tool with an inherited name gets no entry: the counter lands on the inherited object. *)
Definition count_field (policies : list (string * json)) (perTool : list (string * ToolStats))
    (entry : string * string) : list (string * ToolStats) :=
  match tool_field entry.1 with
  | Some (toolName, counter) =>
      if bool_decide (toolName ∈ inherited_names) then perTool
      else jm_set toolName
             (set_counter counter (parseInt_num entry.2)
                (default (new_tool (policy_ttl (jm_get toolName policies))) (jm_get toolName perTool)))
             perTool
  | None => perTool
  end.
Definition rated (t : ToolStats) : ToolStats :=
  {| to_hits := to_hits t; to_misses := to_misses t;
     to_hitRate := computeHitRate (to_hits t) (to_misses t); to_ttl := to_ttl t;
     to_costSavedMicros := to_costSavedMicros t |}.
Definition stats_of (policies : list (string * json)) (raw : list (string * string)) : AgentCacheStats :=
  {| as_llm := tier_stats (getInt raw "llm:hits") (getInt raw "llm:misses");
     as_tool := tier_stats (getInt raw "tool:hits") (getInt raw "tool:misses");
     as_session := (getInt raw "session:reads", getInt raw "session:writes");
     as_costSavedMicros := getInt raw "cost_saved_micros";
     as_perTool := map (λ '(toolName, t), (toolName, rated t))
                     (foldl (count_field policies) [] raw) |}.
Definition stats : M St string AgentCacheStats :=
  raw ← command "HGETALL" (ce_hgetall statsKey);
  st ← get_state;
  mret (stats_of (ca_policies st) raw).

Inductive ToolRecommendation := increase_ttl | optimal | decrease_ttl_or_disable.
Record ToolEffectivenessEntry := {
  te_tool : string; te_hitRate : number; te_costSaved : number; te_recommendation : ToolRecommendation
}.
Definition recommend (hitRate : number) (effectiveTtl : option json) : ToolRecommendation :=
  if num_ltb (parse_float "0.8") hitRate then
    match effectiveTtl with
    | Some t => if num_ltb (to_number t) (num_of_Z 3600) then increase_ttl else optimal
    | None => optimal
    end
  else if num_leb (parse_float "0.4") hitRate then optimal
  else decrease_ttl_or_disable.
Definition effectiveness_entry (policies : list (string * json)) (entry : string * ToolStats)
    : ToolEffectivenessEntry :=
  let '(toolName, t) := entry in
  {| te_tool := toolName; te_hitRate := to_hitRate t;
     te_costSaved := num_div (to_costSavedMicros t) (num_of_Z 1000000);
     te_recommendation :=
       recommend (to_hitRate t)
         (nullish (policy_ttl (jm_get toolName policies))
            (nullish (JNum <$> cc_toolTtl cfg) (JNum <$> cc_defaultTtl cfg))) |}.
Definition entries_of {A} (l : list (string * A)) : list (string * A) :=
  omap (λ k, (λ v, (k, v)) <$> jm_get k l) (own_order l.*1).
Definition toolEffectiveness : M St string (list ToolEffectivenessEntry) :=
  s ← stats;
  st ← get_state;
  mret (js_sort (by_num_desc te_costSaved)
          (map (effectiveness_entry (ca_policies st)) (entries_of (as_perTool s)))).

(** The tick of the configuration refresh *)
Definition refresh_tick : M St string unit :=
  ok ← refreshPolicies;
  if ok : bool then mret tt else count ConfigRefreshFailed.

(** [finally] resets what is in memory, however the walk ends. *)
Definition flush_page (keys : list string) (node : C) (_ : unit) : M St string unit :=
  delete_keys keys node 0;; mret tt.
Definition flush (fuel : nat) : M St string (option unit) := λ st,
  let '(r, st) := clusterScan flush_page fuel (escapeGlobPattern name +:+ ":*") tt st in
  (r, snd ((resetTracker;; resetPolicies) st)).
End cache.
