(* ===== verification/AgentCacheServer.v ===== *)
(** * What the agent cache does to its keys

    What the server documents of the commands [AgentCache] sends ([CacheServer]), and the
    specifications of the methods of the cache against it. *)
From S2P Require Export AgentCache.
From stdpp Require Import options.

(** ** Specification *)

(** [cv_kv]: the string keys; [cv_volatile]: the keys with a time to live, which the server may drop
    at any time; [cv_on]: the primary that serves a key.  A cursor of SCAN other than 0 is a point of
    an iteration: [cv_seen] tells the keys before it and [cv_left] bounds the calls that follow.
    [cv_glob] is the matching of MATCH: a backslash takes the next character as it is, a star at the
    end matches anything, and a character that is none of the special ones matches itself. *)
Definition plain_glob (c : ascii) : bool := negb (bool_decide (c ∈ ["*"; "?"; "["; backslash]%char)).
Class CacheView (W C : Type) := {
  cv_kv : W → gmap string string;
  cv_volatile : W → gset string;
  cv_on : C → string → bool;
  cv_seen : C → string → string → bool;
  cv_left : C → string → nat;
  cv_glob : string → string → bool
}.
(** What a command that names the keys [ks] does to the others: those with a time to live may be gone,
    the rest is as it was. *)
Definition leaves {W C} `{!CacheView W C} (ks : list string) (w w' : W) : Prop :=
  ∀ k, k ∉ ks →
    (∀ v, cv_kv w' !! k = Some v → cv_kv w !! k = Some v)
    ∧ (k ∉ cv_volatile w → cv_kv w' !! k = cv_kv w !! k ∧ k ∉ cv_volatile w').
(** A command may have been carried out though it failed. *)
Class CacheServer (W C : Type) `{!CacheEnv W C, !CacheView W C} := {
  cv_glob_end k : cv_glob EmptyString k = is_empty k;
  cv_glob_star k : cv_glob "*" k = true;
  cv_glob_plain c p k : plain_glob c = true →
    cv_glob (String c p) k = match k with String d k' => bool_decide (c = d) && cv_glob p k' | _ => false end;
  cv_glob_escaped c p k :
    cv_glob (String backslash (String c p)) k
    = match k with String d k' => bool_decide (c = d) && cv_glob p k' | _ => false end;
  cv_serves w k : is_Some (cv_kv w !! k) → ∃ node, node ∈ ce_nodes w ∧ cv_on node k = true;
  cv_get key w : match ce_get key w with
    | (Ok r, w') => leaves [] w w' ∧ (∀ v, r = Some v → cv_kv w !! key = Some v)
                    ∧ (r = None → cv_kv w' !! key = None)
    | (Throw _, w') => leaves [] w w'
    end;
  cv_set key v ttl w : match ce_set key v ttl w with
    | (Ok _, w') => leaves [key] w w' ∧ (∀ v', cv_kv w' !! key = Some v' → v' = v)
                    ∧ (ttl = None → cv_kv w' !! key = Some v ∧ key ∉ cv_volatile w')
    | (Throw _, w') => leaves [key] w w'
                       ∧ ∀ v', cv_kv w' !! key = Some v' → v' = v ∨ cv_kv w !! key = Some v'
    end;
  cv_del key w : match ce_del key w with
    | (Ok n, w') => leaves [key] w w' ∧ cv_kv w' !! key = None ∧ (0 < n → is_Some (cv_kv w !! key))
                    ∧ (key ∉ cv_volatile w → is_Some (cv_kv w !! key) → 0 < n)
    | (Throw _, w') => leaves [key] w w' ∧ ∀ v, cv_kv w' !! key = Some v → cv_kv w !! key = Some v
    end;
  cv_expire key ttl w :
    leaves [key] w (ce_expire key ttl w).2
    ∧ ∀ v, cv_kv (ce_expire key ttl w).2 !! key = Some v → cv_kv w !! key = Some v;
  cv_hincrby key incs w : leaves [] w (ce_hincrby key incs w).2;
  cv_hset key f v w : leaves [] w (ce_hset key f v w).2;
  cv_hgetall key w : leaves [] w (ce_hgetall key w).2;
  cv_scan node cursor pattern n w : match ce_scan node cursor pattern n w with
    | (Ok (cursor', keys), w') =>
        leaves [] w w' ∧ (∀ k, k ∈ keys → cv_glob pattern k = true)
        ∧ (∀ k, is_Some (cv_kv w' !! k) → cv_on node k = true → cv_glob pattern k = true →
             (cursor = "0" ∨ cv_seen node cursor k = false) →
             (cursor' = "0" ∨ cv_seen node cursor' k = true) → k ∈ keys)
        ∧ (cursor' = "0" ∨ (cv_left node cursor' < cv_left node cursor)%nat)
    | (Throw _, w') => leaves [] w w'
    end;
  cv_get_all node keys w : match ce_get_all node keys w with
    | (Ok results, w') =>
        leaves [] w w' ∧ length results = length keys
        ∧ (∀ i k v, keys !! i = Some k → results !! i = Some (None, Some v) → cv_kv w !! k = Some v)
        ∧ (∀ i k, keys !! i = Some k → results !! i = Some (None, None) → cv_kv w' !! k = None)
    | (Throw _, w') => leaves [] w w'
    end;
  cv_del_all node keys w : match ce_del_all node keys w with
    | (Ok results, w') =>
        leaves keys w w' ∧ length results = length keys
        ∧ (∀ k v, cv_kv w' !! k = Some v → cv_kv w !! k = Some v)
        ∧ (∀ i k n, keys !! i = Some k → results !! i = Some (None, n) → cv_kv w' !! k = None)
    | (Throw _, w') => leaves keys w w' ∧ ∀ k v, cv_kv w' !! k = Some v → cv_kv w !! k = Some v
    end;
  cv_expire_all node keys ttl w :
    leaves keys w (ce_expire_all node keys ttl w).2
    ∧ ∀ k v, cv_kv (ce_expire_all node keys ttl w).2 !! k = Some v → cv_kv w !! k = Some v
}.

(** ** Lemmas *)
Section rules.
Context {W C : Type} `{!CacheEnv W C, !CacheView W C, !CacheServer W C}.
Abbreviation St := (AgentCache W).
Definition kv (st : St) : gmap string string := cv_kv (ca_world st).
Definition volatile (st : St) : gset string := cv_volatile (ca_world st).
(** A step that may name the keys in [P] *)
Definition touches (P : string → Prop) (st st' : St) : Prop :=
  ∀ k, ¬ P k →
    (∀ v, kv st' !! k = Some v → kv st !! k = Some v)
    ∧ (k ∉ volatile st → kv st' !! k = kv st !! k ∧ k ∉ volatile st').
(** ... and does not write *)
Definition erases (P : string → Prop) (st st' : St) : Prop :=
  touches P st st' ∧ ∀ k v, kv st' !! k = Some v → kv st !! k = Some v.
Definition nothing (_ : string) : Prop := False.

Lemma touches_refl P st : touches P st st.
Proof. by intros k _. Qed.
Lemma touches_trans P s1 s2 s3 : touches P s1 s2 → touches P s2 s3 → touches P s1 s3.
Proof.
  intros H1 H2 k Hk. destruct (H1 k Hk) as [Ha Hb], (H2 k Hk) as [Hc Hd]. split.
  - intros v Hv. by apply Ha, Hc.
  - intros Hv. destruct (Hb Hv) as [He Hv']. destruct (Hd Hv') as [Hf ?]. split; [by rewrite Hf|done].
Qed.
Lemma touches_mono (P Q : string → Prop) st st' : (∀ k, P k → Q k) → touches P st st' → touches Q st st'.
Proof. intros HPQ H k Hk. apply H. auto. Qed.
Lemma erases_refl P st : erases P st st.
Proof. split; [apply touches_refl|done]. Qed.
Lemma erases_trans P s1 s2 s3 : erases P s1 s2 → erases P s2 s3 → erases P s1 s3.
Proof. intros [H1 H1'] [H2 H2']. split; [by eapply touches_trans|]. intros k v Hv. by apply H1', H2'. Qed.
Lemma erases_mono (P Q : string → Prop) st st' : (∀ k, P k → Q k) → erases P st st' → erases Q st st'.
Proof. intros HPQ [H H']. split; [by eapply touches_mono|done]. Qed.
Lemma leaves_erases st w P : leaves [] (ca_world st) w → erases P st (update_world w st).
Proof.
  intros H. split; [intros k _; apply H, not_elem_of_nil|]. intros k v. apply H, not_elem_of_nil.
Qed.
(** Steps that are not of the server *)
Lemma erases_local P st st' : ca_world st' = ca_world st → erases P st st'.
Proof. intros He. unfold erases, touches, kv, volatile. rewrite He. split; [by intros|done]. Qed.

(** *** Commands *)
Lemma wp_env {A} (m : M W string A) Q R st :
  (∀ a w, m (ca_world st) = (Ok a, w) → Q a (update_world w st)) →
  (∀ e w, m (ca_world st) = (Throw e, w) → R e (update_world w st)) → wp (in_env m) Q R st.
Proof. unfold wp, in_env. destruct (m (ca_world st)) as [[a|e] w]; auto. Qed.
Lemma wp_command {A} cmd (m : M W string A) Q R st :
  wp (in_env m) Q (λ e, R (valkey_error cmd e)) st → wp (command cmd m) Q R st.
Proof. intros H. apply wp_catch. eapply wp_mono; [exact H|done|done]. Qed.
Lemma wp_best_effort {A} (m : M W string A) (Q : unit → St → Prop) (R : string → St → Prop) st :
  (∀ w, (∃ r, m (ca_world st) = (r, w)) → Q tt (update_world w st)) → wp (best_effort m) Q R st.
Proof.
  intros H. apply wp_catch, wp_bind, wp_env; intros x w Hw; (apply wp_ret; apply H; eauto).
Qed.
Lemma wp_count m (Q : unit → St → Prop) (R : string → St → Prop) st : Q tt (with_metric m st) → wp (count m) Q R st.
Proof. done. Qed.
Lemma wp_get cmd key Q R st :
  (∀ r st', erases nothing st st' → (∀ v, r = Some v → kv st !! key = Some v) →
     (r = None → kv st' !! key = None) → Q r st') →
  (∀ e st', erases nothing st st' → R (valkey_error cmd e) st') → wp (command cmd (ce_get key)) Q R st.
Proof using All.
  intros HQ HR. pose proof (cv_get key (ca_world st)) as Hl. apply wp_command, wp_env; intros x w Hw; rewrite Hw in Hl.
  - destruct Hl as (Hl & H1 & H2). apply HQ; [by apply leaves_erases|done|done].
  - apply HR. by apply leaves_erases.
Qed.

(** *** Patterns *)
Definition take_char (c : ascii) (p k : string) : bool :=
  match k with String d k' => bool_decide (c = d) && cv_glob p k' | _ => false end.
Lemma take_char_spec c p k : take_char c p k = true ↔ ∃ k', k = String c k' ∧ cv_glob p k' = true.
Proof.
  destruct k as [|d k]; cbn; [by split; [|intros (? & ? & ?)]|].
  destruct (bool_decide_reflect (c = d)) as [<-|Hne]; cbn; split; [by eauto|by intros (? & [= <-] & ?)|done|].
  by intros (? & [= ? ?] & ?).
Qed.
Lemma escape_cons c p :
  escapeGlobPattern (String c p)
  = (if plain_glob c && negb (bool_decide (c = "]"%char)) then String c EmptyString
     else String backslash (String c EmptyString)) +:+ escapeGlobPattern p.
Proof.
  unfold escapeGlobPattern. cbn [str_flat_map]. rewrite str_flat_map_app. f_equal.
  destruct c as [[] [] [] [] [] [] [] []]; reflexivity.
Qed.
Lemma glob_escape p : ∀ rest k,
  cv_glob (escapeGlobPattern p +:+ rest) k = true ↔ ∃ k', k = p +:+ k' ∧ cv_glob rest k' = true.
Proof using All.
  induction p as [|c p IH]; intros rest k.
  - change (escapeGlobPattern EmptyString) with EmptyString. cbn [String.append]. naive_solver.
  - rewrite escape_cons, str_app_assoc.
    assert (Hhead : cv_glob ((if plain_glob c && negb (bool_decide (c = "]"%char)) then String c EmptyString
                       else String backslash (String c EmptyString)) +:+ (escapeGlobPattern p +:+ rest)) k
                    = take_char c (escapeGlobPattern p +:+ rest) k).
    { destruct (plain_glob c) eqn:Hp; cbn [andb]; [destruct (negb _)|]; cbn [String.append].
      - by apply cv_glob_plain.
      - apply cv_glob_escaped.
      - apply cv_glob_escaped. }
    rewrite Hhead, take_char_spec. split.
    + intros (k' & -> & Hk). apply IH in Hk as (k'' & -> & Hk). by exists k''.
    + intros (k'' & -> & Hk). exists (p +:+ k''). split; [done|]. apply IH. by exists k''.
Qed.
Lemma glob_plain p : ∀ rest k, str_forall plain_glob p = true →
  cv_glob (p +:+ rest) k = true ↔ ∃ k', k = p +:+ k' ∧ cv_glob rest k' = true.
Proof using All.
  induction p as [|c p IH]; intros rest k Hp; cbn [String.append]; [naive_solver|].
  cbn in Hp. apply andb_prop in Hp as [Hc Hp].
  assert (Hhead : cv_glob (String c (p +:+ rest)) k = take_char c (p +:+ rest) k) by (by apply cv_glob_plain).
  rewrite Hhead, take_char_spec. split.
  + intros (k' & -> & Hk). apply IH in Hk as (k'' & -> & Hk); [|done]. by exists k''.
  + intros (k'' & -> & Hk). exists (p +:+ k''). split; [done|]. apply IH; [done|]. by exists k''.
Qed.
Lemma glob_star p k : str_forall plain_glob p = true → cv_glob (p +:+ "*") k = true ↔ ∃ k', k = p +:+ k'.
Proof using All. intros Hp. rewrite glob_plain by done. pose proof cv_glob_star. naive_solver. Qed.

(** *** The walk over the keys of a pattern *)
Section walk.
Context {A : Type} (onKeys : list string → C → A → M St string A) (pattern : string).
(** [Inv] holds of the result so far; [K] says that a key has been dealt with. *)
Context (Inv : A → St → Prop) (K : string → A → St → Prop) (R : string → St → Prop).
Definition keeps (acc acc' : A) (st st' : St) : Prop := ∀ k, K k acc st → K k acc' st'.
Context (Hscan : ∀ acc st st', Inv acc st → erases nothing st st' → Inv acc st' ∧ keeps acc acc st st').
Context (Habsent : ∀ k acc st, kv st !! k = None → K k acc st).
Context (Hfail : ∀ e acc st, Inv acc st → R (valkey_error "SCAN" e) st).
Context (Hpage : ∀ keys node acc st, Inv acc st → (∀ k, k ∈ keys → cv_glob pattern k = true) →
  wp (onKeys keys node acc) (λ acc' st', Inv acc' st' ∧ (∀ k, k ∈ keys → K k acc' st') ∧ keeps acc acc' st st') R st).

Definition settled (node : C) (acc : A) (st : St) : Prop :=
  ∀ k, cv_on node k = true → cv_glob pattern k = true → K k acc st.
Lemma wp_scan_page fuel node cursor acc st :
  Inv acc st →
  (∀ k, cv_on node k = true → cv_glob pattern k = true → cursor ≠ "0" → cv_seen node cursor k = true → K k acc st) →
  wp (scan_node onKeys fuel node pattern cursor acc)
    (λ r st', match r with
              | Some acc' => Inv acc' st' ∧ settled node acc' st' ∧ keeps acc acc' st st'
              | None => (fuel ≤ cv_left node cursor)%nat ∧ ∃ acc', Inv acc' st'
              end) R st.
Proof using All.
  revert cursor acc st. induction fuel as [|fuel IH]; intros cursor acc st HI Hk; cbn [scan_node].
  { apply wp_ret. split; [lia|by exists acc]. }
  pose proof (cv_scan node cursor pattern 100 (ca_world st)) as Hl.
  apply wp_bind, wp_command, wp_env; intros x w Hw; rewrite Hw in Hl; [destruct x as [cursor' keys]|].
  2:{ eapply Hfail, Hscan; [exact HI|]. by apply leaves_erases. }
  destruct Hl as (Hl & Hglob & Hall & Hleft). set (st1 := update_world w st).
  assert (He1 : erases nothing st st1) by (by apply leaves_erases).
  destruct (Hscan acc st st1 HI He1) as [HI1 Hk1].
  assert (Hpg : wp (match keys with [] => mret acc | _ => onKeys keys node acc end)
    (λ acc' st', Inv acc' st' ∧ (∀ k, k ∈ keys → K k acc' st') ∧ keeps acc acc' st1 st') R st1).
  { destruct keys as [|key keys]; [|by apply Hpage].
    apply wp_ret. split; [done|]. split; [|by intros k]. intros k Hin. by apply not_elem_of_nil in Hin. }
  apply wp_bind. eapply wp_mono; [exact Hpg| |done]. intros acc2 st2 (HI2 & Hin2 & Hk2).
  assert (Hkeep : keeps acc acc2 st st2) by (intros k HK; by apply Hk2, Hk1).
  assert (Hseen : ∀ k, cv_on node k = true → cv_glob pattern k = true →
            (cursor' = "0" ∨ cv_seen node cursor' k = true) → K k acc2 st2).
  { intros k Hon Hg Hs. destruct (kv st1 !! k) eqn:Hst1; [|by apply Hk2, Habsent].
    assert (Hcase : (cursor = "0" ∨ cv_seen node cursor k = false) ∨ (cursor ≠ "0" ∧ cv_seen node cursor k = true)).
    { destruct (decide (cursor = "0")); [by left; left|]. destruct (cv_seen node cursor k); auto. }
    destruct Hcase as [Hnew|[Hc Hold]]; [|by apply Hkeep, Hk].
    apply Hin2. by apply Hall; [eexists|..]. }
  destruct (bool_decide_reflect (cursor' = "0")) as [->|Hne].
  - change (str_eqb "0" "0") with true. apply wp_ret. split; [done|]. split; [|done].
    intros k Hon Hg. by apply Hseen; [..|left].
  - unfold str_eqb. rewrite bool_decide_eq_false_2 by done.
    destruct Hleft as [?|Hleft]; [done|].
    eapply wp_mono; [apply (IH cursor' acc2 st2 HI2)| |done].
    + intros k Hon Hg _ Hs. by apply Hseen; [..|right].
    + intros [acc3|] st3; [|intros (Hf & H); split; [lia|done]].
      intros (HI3 & Hs3 & Hk3). split; [done|]. split; [done|]. intros k HK. by apply Hk3, Hkeep.
Qed.
Lemma wp_scan_nodes fuel nodes acc st :
  Inv acc st →
  wp (scan_nodes onKeys fuel nodes pattern acc)
    (λ r st', match r with
              | Some acc' => Inv acc' st' ∧ (∀ node, node ∈ nodes → settled node acc' st') ∧ keeps acc acc' st st'
              | None => (∃ node, node ∈ nodes ∧ (fuel ≤ cv_left node "0")%nat) ∧ ∃ acc', Inv acc' st'
              end) R st.
Proof using All.
  revert acc st. induction nodes as [|node nodes IH]; intros acc st HI; cbn [scan_nodes].
  { apply wp_ret. split; [done|]. split; [|by intros k]. intros n Hn. by apply not_elem_of_nil in Hn. }
  apply wp_bind. eapply wp_mono; [apply (wp_scan_page fuel node "0" acc st HI)| |done].
  { intros k _ _ Hc. done. }
  intros [acc1|] st1; [|intros [Hf HI1]; apply wp_ret; split; [exists node; split; [by left|done]|done]].
  intros (HI1 & Hs1 & Hk1). eapply wp_mono; [by apply IH| |done].
  intros [acc2|] st2; [|intros [(n & Hn & Hf) ?]; split; [exists n; split; [by right|done]|done]].
  intros (HI2 & Hs2 & Hk2). split; [done|]. split; [|intros k HK; by apply Hk2, Hk1].
  intros n [->|Hn]%elem_of_cons; [|by apply Hs2]. intros k Hon Hg. by apply Hk2, Hs1.
Qed.
Definition enough (fuel : nat) (st : St) : Prop :=
  ∀ node, node ∈ ce_nodes (ca_world st) → (cv_left node "0" < fuel)%nat.
Lemma wp_clusterScan fuel acc st :
  Inv acc st →
  wp (clusterScan onKeys fuel pattern acc)
    (λ r st', match r with
              | Some acc' => Inv acc' st' ∧ ∀ k, cv_glob pattern k = true → K k acc' st'
              | None => ¬ enough fuel st ∧ ∃ acc', Inv acc' st'
              end) R st.
Proof using All.
  intros HI. unfold clusterScan. apply wp_bind, wp_gets.
  assert (Hnodes : ∀ nodes, nodes = ce_nodes (ca_world st) →
    wp (scan_nodes onKeys fuel nodes pattern acc)
    (λ r st', match r with
              | Some acc' => Inv acc' st' ∧ ∀ k, cv_glob pattern k = true → K k acc' st'
              | None => ¬ enough fuel st ∧ ∃ acc', Inv acc' st'
              end) R st).
  { intros nodes Hn. eapply wp_mono; [by apply wp_scan_nodes| |done]. intros [acc'|] st'.
    - intros (HI' & Hs & Hk). split; [done|]. intros k Hg. destruct (kv st !! k) eqn:Hst; [|by apply Hk, Habsent].
      destruct (cv_serves (ca_world st) k) as (node & Hin & Hon); [by eexists|].
      apply (Hs node); [by rewrite Hn|done..].
    - intros [(node & Hin & Hf) HI']. split; [|done]. intros He. rewrite Hn in Hin. specialize (He node Hin). lia. }
  destruct (ce_nodes (ca_world st)) as [|n l] eqn:Hn; [by eapply wp_throw, Hfail|]. by apply Hnodes.
Qed.
End walk.

(** *** Deleting *)
Lemma wp_sum_deleted results n (Q : Z → St → Prop) (R : string → St → Prop) st :
  (∀ n', (∀ i e m, results !! i ≠ Some (Some e, m)) → Q n' st) → (∀ e, R e st) → wp (sum_deleted results n) Q R st.
Proof.
  revert n. induction results as [|[[e|] m] results IH]; intros n HQ HR; cbn [sum_deleted].
  - apply wp_ret, HQ. done.
  - apply wp_throw, HR.
  - apply IH; [|done]. intros n' Hn. apply HQ. intros [|i] e' m' Hi; [done|]. by eapply Hn.
Qed.
Lemma wp_delete_keys keys node n st :
  wp (delete_keys keys node n)
    (λ _ st', erases (λ k, k ∈ keys) st st' ∧ ∀ k, k ∈ keys → kv st' !! k = None)
    (λ _ st', erases (λ k, k ∈ keys) st st') st.
Proof using All.
  unfold delete_keys. pose proof (cv_del_all node keys (ca_world st)) as Hl.
  apply wp_bind, wp_command, wp_env; intros x w Hw; rewrite Hw in Hl; [|by destruct Hl].
  destruct Hl as (Hl & Hlen & Hsub & Hgone).
  assert (He : erases (λ k, k ∈ keys) st (update_world w st)) by (by split).
  apply wp_sum_deleted; [|done]. intros _ Hno. split; [done|]. intros k Hk.
  apply list_elem_of_lookup in Hk as [i Hi]. destruct (lookup_lt_is_Some_2 x i) as [[[e|] m] Hx].
  { rewrite Hlen. by eapply lookup_lt_Some. }
  - by apply Hno in Hx.
  - by eapply Hgone.
Qed.
Lemma erases_none P st st' k : erases P st st' → kv st !! k = None → kv st' !! k = None.
Proof.
  intros [_ H] Hk. destruct (kv st' !! k) as [v|] eqn:Hv; [|done]. apply H in Hv. by rewrite Hk in Hv.
Qed.
(** A walk that deletes names only keys of the pattern; when it ends they are gone. *)
Definition selected (pattern k : string) : Prop := cv_glob pattern k = true.
Lemma wp_delete_walk {A} (onKeys : list string → C → A → M St string A) fuel pattern acc st :
  (∀ keys node n st, wp (onKeys keys node n)
     (λ _ st', erases (λ k, k ∈ keys) st st' ∧ ∀ k, k ∈ keys → kv st' !! k = None)
     (λ _ st', erases (λ k, k ∈ keys) st st') st) →
  wp (clusterScan onKeys fuel pattern acc)
    (λ r st', erases (selected pattern) st st'
              ∧ match r with
                | Some _ => ∀ k, selected pattern k → kv st' !! k = None
                | None => ¬ enough fuel st
                end)
    (λ _ st', erases (selected pattern) st st') st.
Proof using All.
  intros Hpage. eapply wp_mono.
  - apply (wp_clusterScan _ _ (λ _ st', erases (selected pattern) st st') (λ k _ st', kv st' !! k = None)
             (λ _ st', erases (selected pattern) st st')).
    + intros a s1 s2 H1 H2. split; [eapply erases_trans; [exact H1|by eapply erases_mono; [|exact H2]]|].
      intros k Hk. by eapply erases_none.
    + done.
    + done.
    + intros keys node n s1 H1 Hglob.
      assert (Hm : ∀ s2, erases (λ k, k ∈ keys) s1 s2 → erases (selected pattern) st s2)
        by (intros s2 H2; eapply erases_trans; [exact H1|eapply erases_mono; [exact Hglob|exact H2]]).
      eapply wp_mono; [apply Hpage| |].
      * intros n' s2 [H2 Hgone]. split; [by apply Hm|]. split; [done|]. intros k Hk. by eapply erases_none.
      * intros e s2 H2. by apply Hm.
    + apply erases_refl.
  - intros [n|] st'; [done|]. by intros (Hf & _ & He).
  - done.
Qed.
Lemma wp_del_key cmd key (Q : Z → St → Prop) (R : string → St → Prop) st :
  (∀ n st', erases (λ k, k = key) st st' → kv st' !! key = None → Q n st') →
  (∀ e st', erases (λ k, k = key) st st' → R (valkey_error cmd e) st') →
  wp (command cmd (ce_del key)) Q R st.
Proof using All.
  intros HQ HR. pose proof (cv_del key (ca_world st)) as Hl.
  assert (Hone : ∀ w, leaves [key] (ca_world st) w → touches (λ k, k = key) st (update_world w st)).
  { intros w Hw k Hk. apply Hw. by intros ->%list_elem_of_singleton. }
  apply wp_command, wp_env; intros x w Hw; rewrite Hw in Hl.
  - destruct Hl as (Hl & Hgone & _). apply HQ; [|done]. split; [by apply Hone|].
    intros k v Hv. destruct (decide (k = key)) as [->|Hne].
    + unfold kv in Hv. cbn in Hv. by rewrite Hgone in Hv.
    + apply (Hone w Hl k Hne). done.
  - destruct Hl as (Hl & Hsub). apply HR. split; [by apply Hone|].
    intros k v Hv. destruct (decide (k = key)) as [->|Hne]; [by apply Hsub|by apply (Hone w Hl k Hne)].
Qed.
Lemma wp_set_key cmd key v ttl (Q : unit → St → Prop) (R : string → St → Prop) st :
  (∀ st', touches (λ k, k = key) st st' → (∀ v', kv st' !! key = Some v' → v' = v) →
     (ttl = None → kv st' !! key = Some v ∧ key ∉ volatile st') → Q tt st') →
  (∀ e st', touches (λ k, k = key) st st' →
     (∀ v', kv st' !! key = Some v' → v' = v ∨ kv st !! key = Some v') → R (valkey_error cmd e) st') →
  wp (command cmd (ce_set key v ttl)) Q R st.
Proof using All.
  intros HQ HR. pose proof (cv_set key v ttl (ca_world st)) as Hl.
  assert (Hone : ∀ w, leaves [key] (ca_world st) w → touches (λ k, k = key) st (update_world w st)).
  { intros w Hw k Hk. apply Hw. by intros ->%list_elem_of_singleton. }
  apply wp_command, wp_env; intros x w Hw; rewrite Hw in Hl.
  - destruct x. destruct Hl as (Hl & H1 & H2). by apply HQ; [apply Hone|..].
  - destruct Hl as (Hl & H1). by apply HR; [apply Hone|].
Qed.
Lemma wp_quiet {A} (m : M W string A) (Q : unit → St → Prop) (R : string → St → Prop) st :
  (∀ w, leaves [] w (m w).2) → (∀ st', erases nothing st st' → Q tt st') → wp (best_effort m) Q R st.
Proof.
  intros Hm HQ. apply wp_best_effort. intros w [r Hr]. apply HQ, leaves_erases. specialize (Hm (ca_world st)).
  by rewrite Hr in Hm.
Qed.
End rules.
