(* ===== verification/AgentCacheSafety.v ===== *)
(** * Properties of the agent cache

    What holds of the agent cache over every run of its methods, with the server of
    [AgentCacheServer]: whose answer a hit is, what a walk over a tool or a thread reaches, and the
    gauge of active sessions; and a server that keeps its keys in a map, the instance the properties
    are applied at. *)
From S2P Require Export AgentCacheServer.
From stdpp Require Import options.

(** ** Calls *)
Section runs.
Context {W C : Type} `{!CacheEnv W C, !CacheView W C, !CacheServer W C}.
Context (sha256 : string → string) (localeCompare : string → string → Z).
Context (inc_error : json → option string) (cfg : CacheConfig).
Abbreviation St := (AgentCache W).

Inductive cache_call :=
  | C_tool_check (toolName : string) (args : option json)
  | C_tool_store (toolName : string) (args : option json) (response : string) (options : option ToolStoreOptions)
  | C_tool_invalidate (toolName : string) (args : option json)
  | C_invalidateByTool (fuel : nat) (toolName : string)
  | C_setPolicy (toolName : string) (ttl : number)
  | C_refresh
  | C_llm_check (params : LlmCacheParams)
  | C_llm_store (params : LlmCacheParams) (response : string) (options : option LlmStoreOptions)
  | C_llm_storeMultipart (params : LlmCacheParams) (blocks : list json) (options : option LlmStoreOptions)
  | C_invalidateByModel (fuel : nat) (model : string)
  | C_session_get (threadId field : string)
  | C_session_set (threadId field value : string) (ttl : option number)
  | C_getAll (fuel : nat) (threadId : string)
  | C_scanFieldsByPrefix (fuel : nat) (threadId fieldPrefix : string)
  | C_session_delete (threadId field : string)
  | C_destroyThread (fuel : nat) (threadId : string)
  | C_touch (fuel : nat) (threadId : string)
  | C_stats
  | C_toolEffectiveness
  | C_flush (fuel : nat).
(** A call, and whether it came to its end: [false] when the fuel of a walk ran out *)
Definition done_with {A} (m : M St string A) : M St string bool := m;; mret true.
Definition walked {A} (m : M St string (option A)) : M St string bool :=
  r ← m; mret match r with Some _ => true | None => false end.
Definition run_call (c : cache_call) : M St string bool :=
  match c with
  | C_tool_check t a => done_with (tool_check sha256 inc_error cfg t a)
  | C_tool_store t a r o => done_with (tool_store sha256 cfg t a r o)
  | C_tool_invalidate t a => done_with (tool_invalidate sha256 cfg t a)
  | C_invalidateByTool fuel t => walked (invalidateByTool cfg fuel t)
  | C_setPolicy t ttl => done_with (setPolicy cfg t ttl)
  | C_refresh => done_with (refresh_tick cfg)
  | C_llm_check p => done_with (llm_check sha256 localeCompare inc_error cfg p)
  | C_llm_store p r o => done_with (llm_store sha256 localeCompare cfg p r o)
  | C_llm_storeMultipart p b o => done_with (llm_storeMultipart sha256 localeCompare cfg p b o)
  | C_invalidateByModel fuel m => walked (invalidateByModel cfg fuel m)
  | C_session_get t f => done_with (session_get cfg t f)
  | C_session_set t f v ttl => done_with (session_set cfg t f v ttl)
  | C_getAll fuel t => walked (getAll cfg fuel t)
  | C_scanFieldsByPrefix fuel t p => walked (scanFieldsByPrefix cfg fuel t p)
  | C_session_delete t f => done_with (session_delete cfg t f)
  | C_destroyThread fuel t => walked (destroyThread cfg fuel t)
  | C_touch fuel t => walked (touch cfg fuel t)
  | C_stats => done_with (stats cfg)
  | C_toolEffectiveness => done_with (toolEffectiveness cfg)
  | C_flush fuel => walked (flush cfg fuel)
  end.

(** The keys of the entries of this cache *)
Definition tool_prefix : string := cc_name cfg +:+ ":tool:".
Definition llm_prefix : string := cc_name cfg +:+ ":llm:".
Definition is_entry (k : string) : Prop := starts_with tool_prefix k = true ∨ starts_with llm_prefix k = true.

(** What a call writes at the time [now]: the key of an entry and its text *)
Definition written (c : cache_call) (now : Z) : option (string * string) :=
  match c with
  | C_tool_store t a r o =>
      if includes ":" t then None
      else Some (tool_key cfg t (toolCacheHash sha256 a), stringify (tool_entry t a r now o))
  | C_llm_store p r o =>
      Some (llm_key cfg (llmCacheHash sha256 localeCompare p), stringify (llm_entry cfg p r None now o))
  | C_llm_storeMultipart p b o =>
      Some (llm_key cfg (llmCacheHash sha256 localeCompare p),
            stringify (llm_entry cfg p (JsString.join EmptyString (map block_text b)) (Some (JArr b)) now o))
  | _ => None
  end.
Definition writes (c : cache_call) (k v : string) : Prop := ∃ now, written c now = Some (k, v).
(** The calls after which the entry at a key is another one, or none *)
Definition replaces (c : cache_call) (k : string) : Prop :=
  (∃ v, writes c k v)
  ∨ match c with
    | C_tool_invalidate t a => k = tool_key cfg t (toolCacheHash sha256 a)
    | C_invalidateByTool _ t => starts_with (tool_prefix +:+ t +:+ ":") k = true
    | C_flush _ => True
    | _ => False
    end.

(** The calls made so far, the last one first, each with whether it came to its end without an error *)
Definition history : Type := list (cache_call * bool).
Definition succeeded (r : outcome string bool) : bool := match r with Ok b => b | Throw _ => false end.
(** A call of the cache, or the world goes on: time passes, entries expire, other clients work, but
    none of them writes the entries of this cache. *)
Inductive cache_step : history * St → history * St → Prop :=
  | cache_step_call h st c r st' :
      run_call c st = (r, st') → cache_step (h, st) ((c, succeeded r) :: h, st')
  | cache_step_world h st w :
      (∀ k v, is_entry k → cv_kv w !! k = Some v → kv st !! k = Some v) →
      cache_step (h, st) (h, update_world w st).
Definition fresh_cache (w : W) : Prop := ∀ k, is_entry k → cv_kv w !! k = None.
Definition reachable (h : history) (st : St) : Prop :=
  ∃ w, fresh_cache w ∧ rtc cache_step ([], new_cache w) (h, st).

(** The text of an entry is that of its last store: since that call no call that came to its end
    has replaced it. *)
Definition last_store (h : history) (k v : string) : Prop :=
  ∃ h1 c ok h2, h = h1 ++ (c, ok) :: h2 ∧ writes c k v ∧ ∀ c', (c', true) ∈ h1 → ¬ replaces c' k.

(** ** Lemmas *)

(** *** Steps within a relation of states *)
Record step_rel := {
  sr_rel :> St → St → Prop;
  sr_refl st : sr_rel st st;
  sr_trans s1 s2 s3 : sr_rel s1 s2 → sr_rel s2 s3 → sr_rel s1 s3
}.
Definition within {A} (R : step_rel) (m : M St string A) : Prop := ∀ st, R st (m st).2.
(** What the commands other than SET and the bookkeeping of the policies and metrics keep to *)
Record allows (R : step_rel) : Prop := {
  al_modify f : (∀ st, ca_world (f st) = ca_world st ∧ ca_seen (f st) = ca_seen st
                       ∧ ca_activeSessions (f st) = ca_activeSessions st) → within R (modify f);
  al_get key : within R (in_env (ce_get key));
  al_del key : within R (in_env (ce_del key));
  al_expire key ttl : within R (in_env (ce_expire key ttl));
  al_hincrby key incs : within R (in_env (ce_hincrby key incs));
  al_hset key f v : within R (in_env (ce_hset key f v));
  al_hgetall key : within R (in_env (ce_hgetall key));
  al_scan node cursor pattern n : within R (in_env (ce_scan node cursor pattern n));
  al_get_all node keys : within R (in_env (ce_get_all node keys));
  al_del_all node keys : within R (in_env (ce_del_all node keys));
  al_expire_all node keys ttl : within R (in_env (ce_expire_all node keys ttl))
}.
Section within.
Context (R : step_rel).
Lemma within_ret {A} (a : A) : within R (mret a).
Proof using Type. intros st. apply sr_refl. Qed.
Lemma within_throw {A} e : within R (throw e : M St string A).
Proof using Type. intros st. apply sr_refl. Qed.
Lemma within_gets {A} (f : St → A) : within R (gets f).
Proof using Type. intros st. apply sr_refl. Qed.
Lemma within_get_state : within R get_state.
Proof using Type. intros st. apply sr_refl. Qed.
Lemma within_bind {A B} (m : M St string A) (f : A → M St string B) :
  within R m → (∀ a, within R (f a)) → within R (m ≫= f).
Proof using Type.
  intros Hm Hf st. specialize (Hm st). unfold mbind, M_bind. destruct (m st) as [[a|e] s1]; [|done].
  by eapply sr_trans; [|apply Hf].
Qed.
Lemma within_catch {A} (m : M St string A) h : within R m → (∀ e, within R (h e)) → within R (try_catch m h).
Proof using Type.
  intros Hm Hf st. specialize (Hm st). unfold try_catch. destruct (m st) as [[a|e] s1]; [done|].
  by eapply sr_trans; [|apply Hf].
Qed.
Lemma within_wp {A} (m : M St string A) : (∀ st, wp m (λ _, R st) (λ _, R st) st) → within R m.
Proof using Type. intros H st. specialize (H st). unfold wp in H. by destruct (m st) as [[a|e] s1]. Qed.
Lemma wp_within {A} (m : M St string A) st : within R m → wp m (λ _, R st) (λ _, R st) st.
Proof using Type. intros H. specialize (H st). unfold wp. by destruct (m st) as [[a|e] s1]. Qed.
Lemma within_command {A} cmd (m : M W string A) : within R (in_env m) → within R (command cmd m).
Proof using Type. intros Hm. apply within_catch; [done|]. intros e. apply within_throw. Qed.
Lemma within_best_effort {A} (m : M W string A) : within R (in_env m) → within R (best_effort m).
Proof using Type.
  intros Hm. apply within_catch; [apply within_bind; [done|]|]; intros; apply within_ret.
Qed.
Lemma within_member value key : within R (member_of value key).
Proof using Type. unfold member_of. destruct (json_member value key); [apply within_ret|apply within_throw]. Qed.
Lemma within_count m : allows R → within R (count m).
Proof using Type. intros HR. by apply (al_modify _ HR). Qed.
Lemma within_policies l : allows R → within R (modify (with_policies l)).
Proof using Type. intros HR. by apply (al_modify _ HR). Qed.
Lemma within_policy f : allows R → within R (modify (λ st, with_policies (f st) st)).
Proof using Type. intros HR. by apply (al_modify _ HR). Qed.
Lemma within_done {A} (m : M St string A) : within R m → within R (done_with m).
Proof using Type. intros Hm. apply within_bind; [done|]. intros. apply within_ret. Qed.
Lemma within_walked {A} (m : M St string (option A)) : within R m → within R (walked m).
Proof using Type. intros Hm. apply within_bind; [done|]. intros. apply within_ret. Qed.
End within.
End runs.

Create HintDb within.
#[export] Hint Resolve within_ret within_throw within_gets within_get_state within_member within_count
  within_policies within_policy al_get al_del al_expire al_hincrby al_hset al_hgetall al_scan al_get_all al_del_all
  al_expire_all : within.
(** Follow the structure of a program. *)
Ltac stay_within :=
  repeat first
    [ solve [eauto 2 with within]
    | apply within_bind; [|intros]
    | apply within_catch; [|intros]
    | apply within_command | apply within_best_effort
    | apply within_done | apply within_walked
    | case_match ].

(** *** The map of the sessions *)
Lemma js_len_jm_set {V} (k : string) (v : V) m : jm_wf m → js_len (jm_set k v m) = js_len m + (if jm_has k m then 0 else 1).
Proof.
  intros Hm. unfold js_len. rewrite <-(length_fmap fst (jm_set k v m)), <-(length_fmap fst m).
  destruct (jm_has k m) eqn:Hh.
  - apply jm_has_spec in Hh as [w Hw%jm_get_elem]. rewrite jm_set_keys_old; [lia|]. by apply (list_elem_of_fmap_2 fst) in Hw.
  - apply jm_has_false, jm_get_None in Hh. rewrite jm_set_keys_new, length_app by done. cbn. lia.
Qed.
Lemma js_len_jm_delete {V} (k : string) (m : list (string * V)) :
  jm_wf m → js_len (jm_delete k m) = js_len m - (if jm_has k m then 1 else 0).
Proof.
  unfold js_len, jm_delete, jm_wf. induction m as [|[k' v] m IH]; [done|]. rewrite fmap_cons. intros [Hk Hm]%NoDup_cons.
  specialize (IH Hm). rewrite filter_cons. unfold jm_has in *. cbn [jm_get]. cbn [fst] in Hk |- *.
  case_decide as Hne; destruct (decide (k = k')) as [->|]; try done; cbn [length].
  - lia.
  - apply jm_get_None in Hk. rewrite Hk in IH. lia.
Qed.
(** The thread that is evicted is a tracked one. *)
Lemma oldest_elem seen k : oldest seen = Some k → k ∈ seen.*1.
Proof.
  unfold oldest. destruct (foldl older None seen) as [[k' t]|] eqn:Hf; [|done]. intros [= <-].
  assert (H : ∀ l b e, foldl older b l = Some e → b = Some e ∨ e ∈ l).
  { induction l as [|x l IH]; cbn; [by left|]. intros b e He. destruct (IH _ _ He) as [Ho|Hin]; [|set_solver].
    destruct b as [[kb tb]|]; cbn in Ho; [|right; injection Ho as <-; by left].
    destruct (x.2 <? tb); [right; injection Ho as <-; by left|by left]. }
  destruct (H _ _ _ Hf) as [|Hin]; [done|]. by apply (list_elem_of_fmap_2 fst) in Hin.
Qed.
Lemma oldest_some seen : seen ≠ [] → ∃ k, oldest seen = Some k.
Proof.
  unfold oldest. destruct seen as [|e seen]; [done|]. intros _. cbn [foldl older].
  assert (H : ∀ l b, is_Some (foldl older (Some b) l)).
  { induction l as [|x l IH]; intros [kb tb]; cbn; [done|]. destruct (x.2 <? tb); apply IH. }
  destruct (H seen e) as [[k t] ->]. by eexists.
Qed.

(** *** The methods that do not write *)
Section methods.
Context {W C : Type} `{!CacheEnv W C, !CacheView W C, !CacheServer W C}.
Context (sha256 : string → string) (localeCompare : string → string → Z).
Context (inc_error : json → option string) (cfg : CacheConfig).
Abbreviation St := (AgentCache W).
Section allowed.
Context (R : step_rel (W:=W)) (HR : allows R).
Lemma within_walk {A} (onKeys : list string → C → A → M St string A) fuel pattern acc :
  (∀ keys node acc, within R (onKeys keys node acc)) → within R (clusterScan onKeys fuel pattern acc).
Proof using HR.
  intros Hpage. unfold clusterScan. apply within_bind; [apply within_gets|]. intros nodes.
  assert (Hnode : ∀ fuel node cursor acc, within R (scan_node onKeys fuel node pattern cursor acc)).
  { clear fuel acc. intros fuel. induction fuel as [|fuel IH]; intros node cursor acc; cbn [scan_node]; stay_within; auto. }
  assert (Hnodes : ∀ nodes acc, within R (scan_nodes onKeys fuel nodes pattern acc)).
  { clear acc nodes. intros nodes. induction nodes as [|node nodes IH]; intros acc; cbn [scan_nodes]; stay_within; auto. }
  destruct nodes; [apply within_throw|apply Hnodes].
Qed.
Lemma within_delete_keys keys node n : within R (delete_keys keys node n).
Proof using HR.
  unfold delete_keys. apply within_bind; [stay_within|]. intros results. revert n.
  induction results as [|[[e|] m] results IH]; intros n; cbn [sum_deleted]; [stay_within..|apply IH].
Qed.
Lemma within_tool_check t a : within R (tool_check sha256 inc_error cfg t a).
Proof using HR. unfold tool_check, validateToolName, tool_counts_miss, tool_counts_hit. stay_within. Qed.
Lemma within_llm_check p : within R (llm_check sha256 localeCompare inc_error cfg p).
Proof using HR. unfold llm_check, llm_counts_miss, llm_counts_hit. stay_within. Qed.
Lemma within_tool_invalidate t a : within R (tool_invalidate sha256 cfg t a).
Proof using HR. unfold tool_invalidate. stay_within. Qed.
Lemma within_invalidateByTool fuel t : within R (invalidateByTool cfg fuel t).
Proof using HR. apply within_walk, within_delete_keys. Qed.
Lemma within_setPolicy t ttl : within R (setPolicy cfg t ttl).
Proof using HR. unfold setPolicy, validateToolName. stay_within. Qed.
Lemma within_refresh : within R (refresh_tick cfg).
Proof using HR. unfold refresh_tick, refreshPolicies. stay_within. Qed.
Lemma within_page_fields t b keys node m : within R (page_fields cfg t b keys node m).
Proof using HR.
  unfold page_fields. apply within_bind; [stay_within|]. intros results.
  apply within_bind; [|intros []; stay_within]. revert m results.
  induction keys as [|key keys IH]; intros m [|[[e|] [v|]] results]; cbn [read_fields]; stay_within; auto.
Qed.
Lemma within_delete_model m keys node n : within R (delete_model m keys node n).
Proof using HR.
  unfold delete_model. apply within_bind; [stay_within|]. intros results.
  apply within_bind; [|intros []; [stay_within|apply within_delete_keys]]. revert results.
  induction keys as [|key keys IH]; intros [|[err raw] results]; cbn [keys_of_model]; stay_within; auto.
Qed.
Lemma within_invalidateByModel fuel m : within R (invalidateByModel cfg fuel m).
Proof using HR. apply within_walk, within_delete_model. Qed.
Lemma within_session_get t f : within R (session_get cfg t f).
Proof using HR. unfold session_get. stay_within. Qed.
Lemma within_session_delete t f : within R (session_delete cfg t f).
Proof using HR. unfold session_delete. stay_within. Qed.
Lemma within_fields t b fuel pattern acc : within R (clusterScan (page_fields cfg t b) fuel pattern acc).
Proof using HR. apply within_walk, within_page_fields. Qed.
Lemma within_touch fuel t : within R (touch cfg fuel t).
Proof using HR.
  unfold touch. destruct (session_ttl cfg); [|apply within_ret]. apply within_bind; [apply within_walk|stay_within].
  intros keys node acc. unfold touch_page. stay_within.
Qed.
Lemma within_stats : within R (stats cfg).
Proof using HR. unfold stats. stay_within. Qed.
Lemma within_effectiveness : within R (toolEffectiveness cfg).
Proof using HR. unfold toolEffectiveness, stats. stay_within. Qed.
(** The calls that neither store nor track a session *)
Definition observes (c : cache_call) : bool :=
  match c with
  | C_tool_store _ _ _ _ | C_llm_store _ _ _ | C_llm_storeMultipart _ _ _ | C_session_set _ _ _ _
  | C_destroyThread _ _ | C_flush _ => false
  | _ => true
  end.
Lemma within_call c : observes c = true → within R (run_call sha256 localeCompare inc_error cfg c).
Proof using HR.
  destruct c; intros Ho; try done; cbn [run_call];
    first [apply within_done|apply within_walked];
    auto using within_tool_check, within_llm_check, within_tool_invalidate, within_invalidateByTool, within_setPolicy,
      within_refresh, within_invalidateByModel, within_session_get, within_session_delete, within_fields, within_touch,
      within_stats, within_effectiveness; apply within_fields.
Qed.
End allowed.

(** *** Steps that write no entry *)
Definition shrinks : step_rel (W:=W).
Proof using cfg CacheView0 C.
  refine {| sr_rel st st' := ∀ k v, is_entry cfg k → kv st' !! k = Some v → kv st !! k = Some v |}.
  - by intros st k v _.
  - intros s1 s2 s3 H1 H2 k v Hk Hv. by apply H1, H2.
Defined.
Lemma shrinks_env {A} (m : M W string A) :
  (∀ w, ∃ ks, leaves ks w (m w).2 ∧ ∀ k v, k ∈ ks → cv_kv (m w).2 !! k = Some v → cv_kv w !! k = Some v) →
  within shrinks (in_env m).
Proof using cfg CacheView0 C.
  intros Hm st k v _. destruct (Hm (ca_world st)) as (ks & Hl & Hks). unfold in_env, kv.
  destruct (m (ca_world st)) as [r w]. cbn in *. destruct (decide (k ∈ ks)); [by apply Hks|by apply Hl].
Qed.
Lemma shrinks_quiet {A} (m : M W string A) : (∀ w, leaves [] w (m w).2) → within shrinks (in_env m).
Proof using cfg CacheView0 C.
  intros Hm. apply shrinks_env. intros w. exists []. split; [done|]. intros k v Hk. by apply not_elem_of_nil in Hk.
Qed.
Lemma shrinks_allows : allows shrinks.
Proof using CacheServer0 cfg.
  constructor.
  - intros f Hf st k v _. cbn. unfold kv. by rewrite (proj1 (Hf st)).
  - intros key. apply shrinks_quiet. intros w. pose proof (cv_get key w) as H.
    destruct (ce_get key w) as [[r|e] w']; [by destruct H|done].
  - intros key. apply shrinks_env. intros w. exists [key]. pose proof (cv_del key w) as H.
    destruct (ce_del key w) as [[r|e] w']; cbn.
    + destruct H as (H & Hgone & _). split; [done|]. intros k v ->%list_elem_of_singleton Hv. by rewrite Hgone in Hv.
    + destruct H as (H & Hsub). split; [done|]. intros k v ->%list_elem_of_singleton. apply Hsub.
  - intros key ttl. apply shrinks_env. intros w. exists [key]. destruct (cv_expire key ttl w) as [H Hsub].
    split; [done|]. intros k v ->%list_elem_of_singleton. apply Hsub.
  - intros key incs. apply shrinks_quiet. intros w. apply cv_hincrby.
  - intros key f v. apply shrinks_quiet. intros w. apply cv_hset.
  - intros key. apply shrinks_quiet. intros w. apply cv_hgetall.
  - intros node cursor pattern n. apply shrinks_quiet. intros w. pose proof (cv_scan node cursor pattern n w) as H.
    destruct (ce_scan node cursor pattern n w) as [[[c ks]|e] w']; [by destruct H|done].
  - intros node keys. apply shrinks_quiet. intros w. pose proof (cv_get_all node keys w) as H.
    destruct (ce_get_all node keys w) as [[r|e] w']; [by destruct H|done].
  - intros node keys. apply shrinks_env. intros w. exists keys. pose proof (cv_del_all node keys w) as H.
    destruct (ce_del_all node keys w) as [[r|e] w']; cbn.
    + destruct H as (H & _ & Hsub & _). split; [done|]. intros k v _. apply Hsub.
    + destruct H as (H & Hsub). split; [done|]. intros k v _. apply Hsub.
  - intros node keys ttl. apply shrinks_env. intros w. exists keys. destruct (cv_expire_all node keys ttl w) as [H Hsub].
    split; [done|]. intros k v _. apply Hsub.
Qed.
Lemma erases_shrinks P st st' : erases P st st' → shrinks st st'.
Proof using cfg CacheView0 C. intros [_ H] k v _. apply H. Qed.
Lemma shrinks_local st st' : ca_world st' = ca_world st → shrinks st st'.
Proof using cfg CacheView0 C. intros He k v _. unfold kv. by rewrite He. Qed.
Lemma shrinks_gauge n : within shrinks (gauge_add n).
Proof using cfg CacheView0 C. intros st. by apply shrinks_local. Qed.
Lemma shrinks_tracker_remove t : within shrinks (tracker_remove t).
Proof using cfg CacheView0 C. intros st. by apply shrinks_local. Qed.
Lemma shrinks_tracker_add t : within shrinks (tracker_add cfg t).
Proof using cfg CacheView0 C. intros st. unfold tracker_add, mbind, M_bind, get_state. by destruct (jm_has _ _); apply shrinks_local. Qed.
Hint Resolve shrinks_allows shrinks_gauge shrinks_tracker_remove shrinks_tracker_add : within.

(** *** Keys and patterns *)
Lemma starts_app p q s : starts_with (p +:+ q) (p +:+ s) = starts_with q s.
Proof. induction p as [|c p IH]; [done|]. cbn. by destruct (ascii_dec c c). Qed.
Lemma tool_key_entry t hash : starts_with (tool_prefix cfg +:+ t +:+ ":") (tool_key cfg t hash) = true.
Proof.
  unfold tool_key, tool_prefix. rewrite !str_app_assoc, !starts_app.
  apply starts_with_app.
Qed.
Lemma tool_is_entry t hash : is_entry cfg (tool_key cfg t hash).
Proof. left. unfold tool_key, tool_prefix. rewrite starts_app. done. Qed.
Lemma llm_is_entry hash : is_entry cfg (llm_key cfg hash).
Proof. right. unfold llm_key, llm_prefix. rewrite starts_app. done. Qed.
Lemma session_no_entry t f : ¬ is_entry cfg (session_key cfg t f).
Proof. unfold is_entry, session_key, tool_prefix, llm_prefix. rewrite !starts_app. by intros []. Qed.
Lemma selected_tool t k : selected (W:=W) (tool_pattern cfg t) k ↔ starts_with (tool_prefix cfg +:+ t +:+ ":") k = true.
Proof using All.
  unfold selected, tool_pattern, tool_prefix. rewrite glob_escape, starts_with_spec. split.
  - intros (k1 & -> & H). apply (glob_plain ":tool:") in H as (k2 & -> & H); [|done].
    apply glob_escape in H as (k3 & -> & H). apply (glob_star ":") in H as (k4 & ->); [|done].
    exists k4. by rewrite !str_app_assoc.
  - intros (k4 & ->). exists (":tool:" +:+ t +:+ ":" +:+ k4). split; [by rewrite !str_app_assoc|].
    apply (glob_plain ":tool:"); [done|]. eexists. split; [done|]. apply glob_escape. eexists. split; [done|].
    apply (glob_star ":"); [done|by eexists].
Qed.
Lemma selected_all k : is_entry cfg k → selected (W:=W) (escapeGlobPattern (cc_name cfg) +:+ ":*") k.
Proof using All.
  unfold is_entry, tool_prefix, llm_prefix, selected. rewrite !starts_with_spec. intros Hk. apply glob_escape.
  assert (Hk' : ∃ t, k = cc_name cfg +:+ ":" +:+ t).
  { destruct Hk as [[t ->]|[t ->]]; eexists; rewrite str_app_assoc; done. }
  destruct Hk' as [t ->]. exists (":" +:+ t). split; [done|]. apply (glob_star ":"); [done|by eexists].
Qed.

(** *** What a call does to the entries *)
Abbreviation run_call' := (run_call sha256 localeCompare inc_error cfg).
Abbreviation writes' := (writes sha256 localeCompare cfg).
Abbreviation replaces' := (replaces sha256 localeCompare cfg).
Definition effect (c : cache_call) (st : St) : Prop :=
  let '(r, st') := run_call' c st in
  ∀ k v, is_entry cfg k → kv st' !! k = Some v →
    writes' c k v ∨ (kv st !! k = Some v ∧ (succeeded r = true → ¬ replaces' c k)).
Lemma effect_within c st : within shrinks (run_call' c) → (∀ k, ¬ replaces' c k) → effect c st.
Proof.
  intros Hs Hr. unfold effect. specialize (Hs st). destruct (run_call' c st) as [r st']. cbn in Hs.
  intros k v Hk Hv. right. split; [by apply Hs|]. intros _. apply Hr.
Qed.
Lemma effect_wp c st :
  wp (run_call' c)
    (λ b st', ∀ k v, is_entry cfg k → kv st' !! k = Some v →
                writes' c k v ∨ (kv st !! k = Some v ∧ (b = true → ¬ replaces' c k)))
    (λ _ st', ∀ k v, is_entry cfg k → kv st' !! k = Some v → writes' c k v ∨ kv st !! k = Some v) st →
  effect c st.
Proof.
  unfold wp, effect. destruct (run_call' c st) as [[b|e] st']; intros H k v Hk Hv; [by apply H|].
  destruct (H k v Hk Hv); [by left|right]. by split.
Qed.
Lemma no_write c : (∀ now, written sha256 localeCompare cfg c now = None) → ∀ k v, ¬ writes' c k v.
Proof. intros Hw k v [now Hn]. by rewrite Hw in Hn. Qed.
(** A store: the text at its key is the new one, or, if it failed, the old one. *)
Lemma effect_put {A} c cmd key text ttl (rest : M St string A) st :
  (writes' c key text) → (∀ k, replaces' c k → k = key) → within shrinks rest →
  wp (command cmd (ce_set key text ttl);; rest)
    (λ _ st', ∀ k v, is_entry cfg k → kv st' !! k = Some v →
                writes' c k v ∨ (kv st !! k = Some v ∧ ¬ replaces' c k))
    (λ _ st', ∀ k v, is_entry cfg k → kv st' !! k = Some v → writes' c k v ∨ kv st !! k = Some v) st.
Proof using All.
  intros Hw Hr Hrest. apply wp_bind, wp_set_key.
  - intros st1 Ht Hnew _.
    assert (H1 : ∀ k v, is_entry cfg k → kv st1 !! k = Some v → writes' c k v ∨ (kv st !! k = Some v ∧ ¬ replaces' c k)).
    { intros k v _ Hv. destruct (decide (k = key)) as [->|Hne].
      - left. by rewrite (Hnew v Hv).
      - right. split; [by apply (Ht k Hne)|]. intros H. by apply Hr in H. }
    eapply wp_mono; [by apply wp_within| |].
    + intros u st2 Hs k v Hk Hv. apply H1; [done|by apply Hs].
    + intros u st2 Hs k v Hk Hv. destruct (H1 k v Hk (Hs k v Hk Hv)) as [|[]]; auto.
  - intros e st1 Ht Hold k v _ Hv. destruct (decide (k = key)) as [->|Hne].
    + destruct (Hold v Hv) as [->|]; auto.
    + right. by apply (Ht k Hne).
Qed.
Lemma effect_llm_put c p response blocks options st :
  (∀ now, written sha256 localeCompare cfg c now
          = Some (llm_key cfg (llmCacheHash sha256 localeCompare p), stringify (llm_entry cfg p response blocks now options))) →
  run_call' c = done_with (llm_put sha256 localeCompare cfg p response blocks options) →
  (∀ k, replaces' c k → ∃ v, writes' c k v) → effect c st.
Proof using All.
  intros Hw Hrun Hrep. apply effect_wp. rewrite Hrun. unfold done_with, llm_put.
  apply wp_bind, wp_bind, wp_get_state. eapply wp_mono.
  - apply (effect_put c).
    + exists (ce_now (ca_world st)). by rewrite Hw.
    + intros k H. apply Hrep in H as (v & now & H). rewrite Hw in H. by injection H.
    + stay_within.
  - intros u st' H. apply wp_ret. intros k v Hk Hv. destruct (H k v Hk Hv) as [|[]]; auto.
  - done.
Qed.
Lemma effect_tool_store t a r o st : effect (C_tool_store t a r o) st.
Proof using All.
  apply effect_wp. cbn [run_call]. unfold done_with, tool_store, validateToolName. apply wp_bind, wp_bind.
  destruct (includes ":" t) eqn:Ht; [apply wp_throw; auto|]. apply wp_ret, wp_bind, wp_get_state. cbv zeta.
  eapply wp_mono.
  - apply (effect_put (C_tool_store t a r o)).
    + exists (ce_now (ca_world st)). cbn [written]. by rewrite Ht.
    + intros k [(v & now & H)|[]]. cbn [written] in H. rewrite Ht in H. by injection H.
    + stay_within.
  - intros u st' H. apply wp_ret. intros k v Hk Hv. destruct (H k v Hk Hv) as [|[]]; auto.
  - done.
Qed.
(** Calls that remove what they name *)
Lemma effect_gone (m : M St string bool) c st :
  run_call' c = m → (∀ k v, ¬ writes' c k v) →
  wp m (λ b st', shrinks st st' ∧ (b = true → ∀ k, is_entry cfg k → replaces' c k → kv st' !! k = None))
       (λ _ st', shrinks st st') st →
  effect c st.
Proof.
  intros Hm Hw H. apply effect_wp. rewrite Hm. eapply wp_mono; [exact H|..].
  - intros b st' [Hs Hgone] k v Hk Hv. right. split; [by apply Hs|].
    intros Hb Hr. by rewrite (Hgone Hb k Hk Hr) in Hv.
  - intros e st' Hs k v Hk Hv. right. by apply Hs.
Qed.
Lemma effect_invalidate t a st : effect (C_tool_invalidate t a) st.
Proof using All.
  eapply effect_gone; [done|by apply no_write|]. unfold done_with, tool_invalidate. apply wp_bind, wp_bind, wp_del_key.
  - intros n st' He Hgone. apply wp_ret, wp_ret. split; [by eapply erases_shrinks|].
    by intros _ k _ [[v [now [=]]]| ->].
  - intros e st' He. by eapply erases_shrinks.
Qed.
Lemma wp_walk_gone {A} (onKeys : list string → C → A → M St string A) fuel pattern acc c st :
  (∀ keys node n st, wp (onKeys keys node n)
     (λ _ st', erases (λ k, k ∈ keys) st st' ∧ ∀ k, k ∈ keys → kv st' !! k = None)
     (λ _ st', erases (λ k, k ∈ keys) st st') st) →
  (∀ k, is_entry cfg k → replaces' c k → selected (W:=W) pattern k) →
  wp (walked (clusterScan onKeys fuel pattern acc))
    (λ b st', shrinks st st' ∧ (b = true → ∀ k, is_entry cfg k → replaces' c k → kv st' !! k = None))
    (λ _ st', shrinks st st') st.
Proof using All.
  intros Hpage Hsel. apply wp_bind. eapply wp_mono; [by apply wp_delete_walk|..].
  - intros r st' [He Hr]. apply wp_ret. split; [by eapply erases_shrinks|].
    intros Hb k Hk Hrep. destruct r as [a|]; [|done]. by apply Hr, Hsel.
  - intros e st' He. exact (erases_shrinks _ _ _ He).
Qed.
Lemma effect_invalidateByTool fuel t st : effect (C_invalidateByTool fuel t) st.
Proof using All.
  eapply effect_gone; [done|by apply no_write|]. apply wp_walk_gone; [apply wp_delete_keys|].
  intros k _ [[v [now [=]]]|Hk]. by apply selected_tool.
Qed.
Lemma wp_flush_page keys node n st :
  wp (flush_page keys node n)
     (λ _ st', erases (λ k, k ∈ keys) st st' ∧ ∀ k, k ∈ keys → kv st' !! k = None)
     (λ _ st', erases (λ k, k ∈ keys) st st') st.
Proof using All.
  unfold flush_page. apply wp_bind. eapply wp_mono; [apply wp_delete_keys| |done].
  intros m st' H. by apply wp_ret.
Qed.
Lemma effect_flush fuel st : effect (C_flush fuel) st.
Proof using All.
  apply (effect_gone (walked (flush cfg fuel))); [done|by apply no_write|].
  assert (Hw : wp (walked (clusterScan flush_page fuel (escapeGlobPattern (cc_name cfg) +:+ ":*") tt))
    (λ b st', shrinks st st' ∧ (b = true → ∀ k, is_entry cfg k → replaces' (C_flush fuel) k → kv st' !! k = None))
    (λ _ st', shrinks st st') st).
  { apply wp_walk_gone; [apply wp_flush_page|]. intros k Hk _. by apply selected_all. }
  revert Hw. unfold walked, wp, flush, mbind, M_bind.
  destruct (clusterScan _ _ _ _ _) as [[[u|]|e] st']; cbn; intros Hw; exact Hw.
Qed.
Lemma not_replaced c k : observes c = true → match c with C_tool_invalidate _ _ | C_invalidateByTool _ _ => False | _ => True end →
  ¬ replaces' c k.
Proof. intros Ho Hc [[v [now Hn]]|Hr]; by destruct c. Qed.
Lemma call_effect c st : effect c st.
Proof using All.
  assert (Hquiet : observes c = true →
    match c with C_tool_invalidate _ _ | C_invalidateByTool _ _ => False | _ => True end → effect c st).
  { intros Ho Hc. apply effect_within; [by apply within_call; [apply shrinks_allows|]|]. intros k. by apply not_replaced. }
  destruct c; try (by apply Hquiet).
  - apply effect_tool_store.
  - apply effect_invalidate.
  - apply effect_invalidateByTool.
  - eapply effect_llm_put; [done|done|]. by intros k [H|[]].
  - eapply effect_llm_put; [done|done|]. by intros k [H|[]].
  - apply effect_within; [|by intros k [[v [now [=]]]|[]]]. apply within_done, within_bind.
    + apply within_wp. intros st1. apply wp_set_key.
      * intros st2 Ht _ _ k v Hk. apply (Ht k). intros ->. by apply session_no_entry in Hk.
      * intros e st2 Ht _ k v Hk. apply (Ht k). intros ->. by apply session_no_entry in Hk.
    + intros _. stay_within.
  - apply effect_within; [|by intros k [[v [now [=]]]|[]]]. apply within_walked. unfold destroyThread.
    apply within_bind; [apply within_walk, within_delete_keys; apply shrinks_allows|]. intros r. stay_within.
  - apply effect_flush.
Qed.

(** *** Every run *)
Lemma last_store_cons c ok h k v :
  writes' c k v ∨ (last_store sha256 localeCompare cfg h k v ∧ (ok = true → ¬ replaces' c k)) →
  last_store sha256 localeCompare cfg ((c, ok) :: h) k v.
Proof.
  intros [Hw|[(h1 & c1 & ok1 & h2 & -> & Hw & Hr) Hno]].
  - exists [], c, ok, h. split; [done|]. split; [done|]. intros c' Hc. by apply not_elem_of_nil in Hc.
  - exists ((c, ok) :: h1), c1, ok1, h2. split; [done|]. split; [done|].
    intros c' [Hc|Hc]%elem_of_cons; [|by apply Hr]. injection Hc as -> <-. by apply Hno.
Qed.
(** Whatever is stored under the key of an entry is the text of the last store. *)
Lemma entries_are_last h st :
  reachable sha256 localeCompare inc_error cfg h st →
  ∀ k v, is_entry cfg k → kv st !! k = Some v → last_store sha256 localeCompare cfg h k v.
Proof using All.
  intros (w & Hfresh & Hrun).
  set (I := λ p : history * St, ∀ k v, is_entry cfg k → kv p.2 !! k = Some v →
              last_store sha256 localeCompare cfg p.1 k v).
  assert (HI : I ([], new_cache w)).
  { intros k v Hk Hv. unfold kv in Hv. cbn in Hv. by rewrite Hfresh in Hv. }
  change (I (h, st)). revert HI. induction Hrun as [|x y z Hs _ IH]; [done|]. intros HI. apply IH. clear IH.
  destruct Hs as [h1 s1 c r s2 Hc|h1 s1 w' Hw]; intros k v Hk Hv; cbn in *.
  - pose proof (call_effect c s1) as He. unfold effect in He. rewrite Hc in He.
    apply last_store_cons. destruct (He k v Hk Hv) as [?|[Hold Hno]]; [by left|right].
    split; [by apply HI|done].
  - apply HI; [done|]. by apply Hw.
Qed.

(** *** What a hit returns *)
Definition hit_text (st : St) (key : string) (value : string → option json → Prop) : Prop :=
  ∃ text entry, kv st !! key = Some text ∧ json_parse text = Some entry
    ∧ ∀ field o, value field o → json_member entry field = Some o.
Lemma wp_member value key (Q : option json → St → Prop) (R : string → St → Prop) st :
  (∀ o, json_member value key = Some o → Q o st) → R type_error st → wp (member_of value key) Q R st.
Proof. unfold member_of. destruct (json_member value key); intros HQ HR; [by apply wp_ret, HQ|by apply wp_throw]. Qed.
Lemma wp_member_some value key o (Q : option json → St → Prop) (R : string → St → Prop) st :
  json_member value key = Some o → Q o st → wp (member_of value key) Q R st.
Proof. unfold member_of. intros ->. apply wp_ret. Qed.
Lemma wp_trivial {A} (m : M St string A) (st : St) : wp m (λ _ _, True) (λ _ _, True) st.
Proof. unfold wp. by destruct (m st) as [[]]. Qed.
Lemma wp_swallow {A} (m : M St string A) (a : A) st :
  wp (try_catch m (λ _ : string, mret a)) (λ _ _, True) (λ (_ : string) _, False) st.
Proof. unfold wp, try_catch. by destruct (m st) as [[]]. Qed.
Lemma tool_hit_entry t a st :
  wp (tool_check sha256 inc_error cfg t a)
    (λ r _, tr_hit r = true → includes ":" t = false
       ∧ hit_text st (tool_key cfg t (toolCacheHash sha256 a)) (λ f o, f = "response" ∧ o = tr_response r))
    (λ _ _, True) st.
Proof using All.
  unfold tool_check, validateToolName. apply wp_bind. destruct (includes ":" t); [by apply wp_throw|].
  apply wp_ret. cbv zeta. apply wp_bind, wp_get; [|done]. intros raw st1 _ Hraw _.
  assert (Hmiss : ∀ s, wp (tool_counts_miss cfg t;; mret (tool_miss t))
    (λ r _, tr_hit r = true → false = false
       ∧ hit_text st (tool_key cfg t (toolCacheHash sha256 a)) (λ f o, f = "response" ∧ o = tr_response r))
    (λ _ _, True) s).
  { intros s. apply wp_bind. eapply wp_mono; [apply wp_trivial| |done]. intros _ s' _. by apply wp_ret. }
  destruct raw as [[|c text]|]; [apply Hmiss| |apply Hmiss]. specialize (Hraw _ eq_refl).
  destruct (json_parse (String c text)) as [entry|] eqn:Hp.
  - apply wp_bind. eapply wp_mono; [apply wp_trivial| |done]. intros _ s' _. apply wp_bind, wp_member; [|done].
    intros o Ho. apply wp_ret. intros _. split; [done|]. exists (String c text), entry.
    split; [done|]. split; [done|]. by intros f o' [-> ->].
  - apply wp_bind. eapply wp_mono; [apply wp_trivial| |done]. intros _ s' _. apply Hmiss.
Qed.
Lemma llm_hit_entry p st :
  wp (llm_check sha256 localeCompare inc_error cfg p)
    (λ r _, lr_hit r = true →
       hit_text st (llm_key cfg (llmCacheHash sha256 localeCompare p))
         (λ f o, f = "response" ∧ o = lr_response r ∨ f = "contentBlocks" ∧ o = lr_contentBlocks r))
    (λ _ _, True) st.
Proof using All.
  unfold llm_check. cbv zeta. apply wp_bind, wp_get; [|done]. intros raw st1 _ Hraw _.
  assert (Hmiss : ∀ s, wp (llm_counts_miss cfg;; mret llm_miss)
    (λ r _, lr_hit r = true →
       hit_text st (llm_key cfg (llmCacheHash sha256 localeCompare p))
         (λ f o, f = "response" ∧ o = lr_response r ∨ f = "contentBlocks" ∧ o = lr_contentBlocks r))
    (λ _ _, True) s).
  { intros s. apply wp_bind. eapply wp_mono; [apply wp_trivial| |done]. intros _ s' _. by apply wp_ret. }
  destruct raw as [[|c text]|]; [apply Hmiss| |apply Hmiss]. specialize (Hraw _ eq_refl).
  destruct (json_parse (String c text)) as [entry|] eqn:Hp.
  - apply wp_bind. eapply wp_mono; [apply wp_trivial| |done]. intros _ s' _. apply wp_bind, wp_member; [|done].
    intros o Ho. apply wp_bind, wp_member; [|done]. intros o' Ho'. apply wp_ret. intros _.
    exists (String c text), entry. split; [done|]. split; [done|]. by intros f x [[-> ->]|[-> ->]].
  - apply wp_bind. eapply wp_mono; [apply wp_trivial| |done]. intros _ s' _. apply Hmiss.
Qed.
(** The text of an entry reads back. *)
Lemma present_ok l :
  NoDup l.*1 → (∀ k v, (k, Some v) ∈ l → json_ok v) → json_ok (JObj (present l)).
Proof.
  intros Hnd Hv. cbn [json_ok]. rewrite json_ok_members. split; [by apply present_keys|].
  apply Forall_forall. intros [k v] Hin%present_elem. by apply (Hv k).
Qed.
Lemma entry_member l k o :
  NoDup l.*1 → (∀ k v, (k, Some v) ∈ l → json_ok v) → (k, o) ∈ l →
  ∃ entry, json_parse (stringify (JObj (present l))) = Some entry ∧ json_member entry k = Some (reread <$> o).
Proof.
  intros Hnd Hv Hin. rewrite json_parse_stringify by (by apply present_ok). eexists. split; [done|].
  cbn [reread json_member]. f_equal. rewrite jm_get_map. f_equal. by apply present_get.
Qed.
Lemma data_ok j : json_data j → json_ok j.
Proof.
  induction j as [|b|n|s|l IH|fields IH] using json_ind'; try done.
  - cbn [json_data json_ok]. rewrite data_all, json_ok_all. intros Hl. apply Forall_forall. intros x Hx.
    rewrite Forall_forall in IH. rewrite Forall_forall in Hl. by apply IH, Hl.
  - cbn [json_data json_ok]. rewrite data_members, json_ok_members. intros [[_ Hnd]%units_keys Hd]. split; [done|].
    apply Forall_forall. intros x Hx. rewrite Forall_forall in IH. rewrite Forall_forall in Hd. by apply IH, Hd.
Qed.
(** The data a call is made with: JSON values, with numbers for the counts and the costs *)
Definition valid_num (n : number) : Prop := SpecFloat.valid_binary prec emax n = true.
Abbreviation args_data a := (json_data (default (JObj []) a)).
Definition valid_tokens (o : option LlmStoreOptions) : Prop :=
  ∀ t, o ≫= ls_tokens = Some t → valid_num (tk_input t) ∧ valid_num (tk_output t).
Definition call_data (c : cache_call) : Prop :=
  match c with
  | C_tool_store _ a _ o => args_data a ∧ ∀ n, o ≫= ts_cost = Some n → valid_num n
  | C_llm_store p _ o => llm_data localeCompare p ∧ valid_tokens o
  | C_llm_storeMultipart p b o => llm_data localeCompare p ∧ Forall json_ok b ∧ valid_tokens o
  | _ => True
  end.
Lemma tool_entry_member t a r now o k v :
  call_data (C_tool_store t a r o) → (k, v) ∈ [("response", Some (JStr r)); ("cost", JNum <$> (o ≫= ts_cost))] →
  ∃ entry, json_parse (stringify (tool_entry t a r now o)) = Some entry
           ∧ json_member entry k = Some (reread <$> v).
Proof using All.
  intros [Ha Hc] Hkv. unfold tool_entry. apply entry_member.
  - by eapply bool_decide_eq_true_1.
  - clear k v Hkv. intros k v Hin. rewrite !elem_of_cons in Hin.
    destruct Hin as [[= -> ->]|[[= -> ->]|[[= -> <-]|[[= -> ->]|[[= -> Hv]|Hin]]]]]; try done.
    + by apply data_ok.
    + apply num_of_Z_valid.
    + destruct (o ≫= ts_cost) as [n|]; [|done]. injection Hv as ->. by apply Hc.
    + by apply not_elem_of_nil in Hin.
  - rewrite !elem_of_cons in Hkv. rewrite !elem_of_cons. destruct Hkv as [->|[->|Hkv]]; [by left|tauto|].
    by apply not_elem_of_nil in Hkv.
Qed.
Definition priced (table : option (list (string * ModelCost))) : Prop :=
  ∀ l model c, table = Some l → (model, c) ∈ l → valid_num (mc_inputPer1k c) ∧ valid_num (mc_outputPer1k c).
Lemma entry_cost_valid model o n :
  priced (cc_costTable cfg) →
  valid_tokens o →
  entry_cost cfg model o = Some n → valid_num n.
Proof.
  intros Hp Ht. unfold entry_cost. destruct (cc_costTable cfg) as [table|] eqn:Htab; [|done]. cbn.
  destruct (o ≫= ls_tokens) as [tk|] eqn:Htk; [|done]. cbn. destruct (Ht tk Htk) as [H1 H2].
  destruct (model_cost table model) as [c|] eqn:Hc; [|done]. cbn. intros [= <-].
  assert (Hv : valid_num (mc_inputPer1k c) ∧ valid_num (mc_outputPer1k c)).
  { unfold model_cost in Hc. destruct (jm_get model table) as [c'|] eqn:Hg.
    - injection Hc as ->. eapply Hp; [done|by apply jm_get_elem].
    - destruct (bool_decide _); [|done]. by injection Hc as <-. }
  destruct Hv. apply num_add_valid; apply num_mul_valid; try done; apply num_div_valid.
Qed.
Lemma llm_entry_member p r blocks now o k v :
  priced (cc_costTable cfg) →
  valid_tokens o →
  match blocks with Some b => json_ok b | None => True end →
  (k, v) ∈ [("response", Some (JStr r)); ("contentBlocks", blocks)] →
  ∃ entry, json_parse (stringify (llm_entry cfg p r blocks now o)) = Some entry
           ∧ json_member entry k = Some (reread <$> v).
Proof.
  intros Hp Ht Hb Hin. unfold llm_entry. apply entry_member.
  - by eapply bool_decide_eq_true_1.
  - clear k v Hin. intros k v Hin. rewrite !elem_of_cons in Hin.
    destruct Hin as [[= -> ->]|[[= -> <-]|[[= -> ->]|[[= -> ->]|[[= -> Hv]|[[= -> Hv]|Hin]]]]]]; try done.
    + apply num_of_Z_valid.
    + destruct (o ≫= ls_tokens) as [t|] eqn:Htk; [|done]. injection Hv as ->. destruct (Ht t Htk).
      split; [by eapply bool_decide_eq_true_1|]. by cbn.
    + destruct (entry_cost cfg (lp_model p) o) as [n|] eqn:Hn; [|done]. injection Hv as ->.
      by eapply entry_cost_valid.
    + by apply not_elem_of_nil in Hin.
  - rewrite !elem_of_cons in Hin. rewrite !elem_of_cons. destruct Hin as [->|[->|Hin]]; [by left|by right; left|].
    by apply not_elem_of_nil in Hin.
Qed.
(** Keys of entries are told apart. *)
Lemma includes_colon c t : includes ":" (String c t) = false → c ≠ ":"%char ∧ includes ":" t = false.
Proof.
  change (includes ":" (String c t)) with (starts_with ":" (String c t) || includes ":" t).
  intros [Hc Ht]%orb_false_elim. split; [|done]. by intros ->.
Qed.
Lemma no_colon_app t t' h h' :
  includes ":" t = false → includes ":" t' = false → t +:+ ":" +:+ h = t' +:+ ":" +:+ h' → t = t' ∧ h = h'.
Proof.
  revert t'. induction t as [|c t IH]; intros [|c' t'] Ht Ht' He.
  - by injection He.
  - injection He as <- _. by apply includes_colon in Ht' as [? _].
  - injection He as -> _. by apply includes_colon in Ht as [? _].
  - injection He as <- He. apply includes_colon in Ht as [_ Ht]. apply includes_colon in Ht' as [_ Ht'].
    by destruct (IH t' Ht Ht' He) as [-> ->].
Qed.
Lemma str_app_inj p s t : p +:+ s = p +:+ t → s = t.
Proof. induction p as [|c p IH]; [done|]. intros He. injection He as He. by apply IH. Qed.
Lemma tool_key_inj t t' h h' :
  includes ":" t = false → includes ":" t' = false → tool_key cfg t h = tool_key cfg t' h' → t = t' ∧ h = h'.
Proof.
  unfold tool_key. intros Ht Ht' He%str_app_inj. apply (str_app_inj ":tool:") in He. by apply no_colon_app.
Qed.
Lemma llm_key_inj h h' : llm_key cfg h = llm_key cfg h' → h = h'.
Proof. unfold llm_key. intros He%str_app_inj. by apply (str_app_inj ":llm:") in He. Qed.
Lemma tool_not_llm t h h' : tool_key cfg t h ≠ llm_key cfg h'.
Proof. unfold tool_key, llm_key. by intros He%str_app_inj. Qed.

(** *** The tracked sessions *)
Definition same_tracker : step_rel (W:=W).
Proof using W.
  refine {| sr_rel st st' := ca_seen st' = ca_seen st ∧ ca_activeSessions st' = ca_activeSessions st |};
    [done|intros s1 s2 s3 [-> ->] [-> ->]; done].
Defined.
Lemma tracker_env {A} (m : M W string A) : within same_tracker (in_env m).
Proof. intros st. unfold in_env. by destruct (m (ca_world st)). Qed.
Lemma tracker_allows : allows same_tracker.
Proof. constructor; try (intros; apply tracker_env). intros f Hf st. apply (Hf st). Qed.
Hint Resolve tracker_allows tracker_env : within.
Lemma tracker_calls c :
  match c with C_session_set _ _ _ _ | C_destroyThread _ _ | C_flush _ => False | _ => True end →
  within same_tracker (run_call' c).
Proof.
  intros Hc. destruct (observes c) eqn:Ho; [by apply within_call; [apply tracker_allows|]|].
  destruct c; try done; cbn [run_call]; unfold tool_store, llm_store, llm_storeMultipart, llm_put, validateToolName; stay_within.
Qed.
(** The gauge counts the tracked threads; all were written, and no more are kept than the limit. *)
Definition tracked (h : history) (st : St) : Prop :=
  jm_wf (ca_seen st) ∧ ca_activeSessions st = js_len (ca_seen st)
  ∧ (∀ t, t ∈ (ca_seen st).*1 → ∃ f v ttl, (C_session_set t f v ttl, true) ∈ h)
  ∧ ((∀ f v ttl ok, (C_session_set EmptyString f v ttl, ok) ∉ h) → js_len (ca_seen st) ≤ cc_maxSessions cfg).

Lemma tracked_frame h st st' : same_tracker st st' → tracked h st → tracked h st'.
Proof. intros [Hs Hg]. unfold tracked. by rewrite Hs, Hg. Qed.
Lemma tracked_same c ok h st st' : same_tracker st st' → tracked h st → tracked ((c, ok) :: h) st'.
Proof.
  intros [Hs Hg] (Hwf & Hlen & Hkeys & Hmax). unfold tracked. rewrite Hs, Hg. split_and!; [done|done|..].
  - intros t Ht. destruct (Hkeys t Ht) as (f & v & ttl & Hin). exists f, v, ttl. by right.
  - intros Hno. apply Hmax. intros f v ttl ok' Hin. by apply (Hno f v ttl ok'); right.
Qed.
(** The end of [SessionStore.set] *)
Definition set_tail (threadId value : string) : M St string unit :=
  '(isNew, evicted) ← tracker_add cfg threadId;
  (if isNew : bool then gauge_add 1 else mret tt);;
  (match evicted with Some _ => gauge_add (-1) | None => mret tt end);;
  count (StoredBytes "session" (byte_length value)).
Lemma tracked_set_tail h st t f v ttl :
  0 < cc_maxSessions cfg → tracked h st →
  wp (set_tail t v) (λ _ st', tracked ((C_session_set t f v ttl, true) :: h) st') (λ _ _, False) st.
Proof.
  intros Hpos (Hwf & Hlen & Hkeys & Hmax). unfold set_tail, tracker_add.
  set (now := ce_now (ca_world st)).
  assert (Hhist : ∀ seen k, (∀ k, k ∈ seen.*1 → k ∈ (ca_seen st).*1) → k ∈ (jm_set t now seen).*1 →
    ∃ f0 v0 ttl0, (C_session_set k f0 v0 ttl0, true) ∈ (C_session_set t f v ttl, true) :: h).
  { intros seen k Hsub Hk. destruct (decide (k = t)) as [->|Hne]; [exists f, v, ttl; by left|].
    destruct (Hkeys k) as (f0 & v0 & ttl0 & Hin); [|by exists f0, v0, ttl0; right].
    apply Hsub. destruct (decide (t ∈ seen.*1)) as [Ht|Ht]; [by rewrite jm_set_keys_old in Hk|].
    rewrite jm_set_keys_new in Hk by done. apply elem_of_app in Hk as [|Hk%list_elem_of_singleton]; done. }
  assert (Hbound : (∀ f0 v0 ttl0 ok, (C_session_set EmptyString f0 v0 ttl0, ok) ∉ (C_session_set t f v ttl, true) :: h) →
    js_len (ca_seen st) ≤ cc_maxSessions cfg ∧ EmptyString ∉ (ca_seen st).*1).
  { intros Hno. split.
    - apply Hmax. intros f0 v0 ttl0 ok Hin. by apply (Hno f0 v0 ttl0 ok); right.
    - intros Hin. destruct (Hkeys _ Hin) as (f0 & v0 & ttl0 & Hh). by apply (Hno f0 v0 ttl0 true); right. }
  apply wp_bind, wp_bind, wp_get_state. fold now. destruct (jm_has t (ca_seen st)) eqn:Hhas.
  - apply wp_bind, wp_put_state, wp_ret, wp_bind, wp_ret, wp_bind, wp_ret. apply wp_count.
    unfold tracked. cbn. split_and!.
    + by apply jm_wf_set.
    + rewrite js_len_jm_set, Hhas by done. lia.
    + intros k. by apply Hhist.
    + intros Hno. rewrite js_len_jm_set, Hhas by done. destruct (Hbound Hno). lia.
  - set (evicted := if cc_maxSessions cfg <=? js_len (ca_seen st) then _ else None).
    assert (Hev : ∀ key, evicted = Some key → jm_has key (ca_seen st) = true ∧ key ≠ t).
    { intros key. unfold evicted. destruct (_ <=? _); [|done]. destruct (oldest (ca_seen st)) as [[|c k]|] eqn:Ho; try done.
      intros [= <-]. apply oldest_elem in Ho. split.
      - destruct (jm_has (String c k) (ca_seen st)) eqn:Hf; [done|].
        apply jm_has_false, jm_get_None in Hf. by destruct (Hf Ho).
      - intros <-. apply jm_has_false, jm_get_None in Hhas. by destruct (Hhas Ho). }
    assert (Hev2 : cc_maxSessions cfg ≤ js_len (ca_seen st) → EmptyString ∉ (ca_seen st).*1 → evicted ≠ None).
    { intros Hle Hno. unfold evicted. rewrite (proj2 (Z.leb_le _ _)) by done.
      destruct (oldest_some (ca_seen st)) as [k Hk].
      - intros He. rewrite He in Hle. unfold js_len in Hle. cbn in Hle. lia.
      - rewrite Hk. destruct k; [by apply oldest_elem in Hk|done]. }
    apply wp_bind, wp_put_state, wp_ret, wp_bind, wp_modify, wp_bind.
    destruct evicted as [key|].
    + destruct (Hev key eq_refl) as [Hin Hne].
      assert (Hh : jm_has t (jm_delete key (ca_seen st)) = false).
      { apply jm_has_false. apply jm_has_false in Hhas. rewrite jm_get_delete. by case_decide. }
      assert (Hwf' : jm_wf (jm_delete key (ca_seen st))) by (by apply jm_wf_delete).
      assert (Hn : js_len (jm_set t now (jm_delete key (ca_seen st))) = js_len (ca_seen st)).
      { rewrite js_len_jm_set, Hh, js_len_jm_delete, Hin by done. lia. }
      apply wp_modify, wp_count. unfold tracked. cbn [ca_seen ca_activeSessions with_metric with_gauge with_seen].
      rewrite Hn, Hlen. split_and!.
      * by apply jm_wf_set.
      * lia.
      * intros k. apply Hhist. intros k'. unfold jm_delete. intros ([k1 x] & -> & [_ H]%list_elem_of_filter)%list_elem_of_fmap.
        by apply (list_elem_of_fmap_2 fst) in H.
      * intros Hno. by destruct (Hbound Hno).
    + apply wp_ret, wp_count. unfold tracked. cbn. split_and!.
      * by apply jm_wf_set.
      * rewrite js_len_jm_set, Hhas by done. lia.
      * intros k. by apply Hhist.
      * intros Hno. rewrite js_len_jm_set, Hhas by done. destruct (Hbound Hno) as [Hle Hnot].
        destruct (decide (cc_maxSessions cfg ≤ js_len (ca_seen st))); [by destruct Hev2|lia].
Qed.

Lemma tracked_drop c ok h st st' t :
  tracked h st → ca_seen st' = jm_delete t (ca_seen st) →
  ca_activeSessions st' = ca_activeSessions st - (if jm_has t (ca_seen st) then 1 else 0) → tracked ((c, ok) :: h) st'.
Proof.
  intros Ht Hs Hg. apply (tracked_same c ok h st st) in Ht; [|done].
  destruct Ht as (Hwf & Hlen & Hkeys & Hmax). unfold tracked. rewrite Hs, Hg.
  rewrite js_len_jm_delete by done. split_and!; [by apply jm_wf_delete|lia|..].
  - intros k Hk. apply Hkeys. unfold jm_delete in Hk.
    apply list_elem_of_fmap in Hk as ([k1 x] & -> & [_ H]%list_elem_of_filter). by apply (list_elem_of_fmap_2 fst) in H.
  - intros Hno. specialize (Hmax Hno). destruct (jm_has t (ca_seen st)); lia.
Qed.
(** What remains true of the tracker after a call *)
Lemma tracked_call c h st :
  0 < cc_maxSessions cfg → tracked h st →
  let '(r, st') := run_call' c st in tracked ((c, succeeded r) :: h) st'.
Proof.
  intros Hpos Ht.
  assert (Hquiet : within same_tracker (run_call' c) →
    let '(r, st') := run_call' c st in tracked ((c, succeeded r) :: h) st').
  { intros Hw. specialize (Hw st). destruct (run_call' c st) as [r st']. by apply (tracked_same _ _ _ st). }
  assert (Hwp : wp (run_call' c) (λ b st', tracked ((c, b) :: h) st') (λ _ st', tracked ((c, false) :: h) st') st →
    let '(r, st') := run_call' c st in tracked ((c, succeeded r) :: h) st').
  { unfold wp. by destruct (run_call' c st) as [[b|e] st']. }
  destruct c; try (by apply Hquiet, tracker_calls); apply Hwp; clear Hquiet Hwp; cbn [run_call].
  - unfold done_with. change (session_set cfg threadId field value ttl) with
      (command "SET" (ce_set (session_key cfg threadId field) value
          (JNum <$> match ttl with Some t => Some t | None => session_ttl cfg end));;
       best_effort (ce_hincrby (statsKey cfg) [("session:writes", one)]);; set_tail threadId value).
    apply wp_bind, wp_bind. eapply wp_mono; [apply (wp_within same_tracker); stay_within| |].
    + intros u s1 H1. apply wp_bind. eapply wp_mono; [apply (wp_within same_tracker); stay_within| |].
      * intros u2 s2 H2.
        assert (Hs2 : tracked h s2) by (exact (tracked_frame _ _ _ H2 (tracked_frame _ _ _ H1 Ht))).
        eapply wp_mono; [by apply (tracked_set_tail h s2 threadId field value ttl)| |done]. intros u3 s3 H3. by apply wp_ret.
      * intros e s2 H2. apply (tracked_same _ _ _ s1); [done|exact (tracked_frame _ _ _ H1 Ht)].
    + intros e s1 H1. by apply (tracked_same _ _ _ st).
  - unfold walked, destroyThread. apply wp_bind, wp_bind.
    eapply wp_mono; [apply (wp_within same_tracker), within_walk, within_delete_keys; apply tracker_allows| |].
    + intros [n|] s1 H1; [|apply wp_ret, wp_ret; by apply (tracked_same _ _ _ st)].
      assert (Hs1 : tracked h s1) by (exact (tracked_frame _ _ _ H1 Ht)).
      unfold tracker_remove. apply wp_bind, wp_bind, wp_get_state, wp_bind, wp_put_state, wp_ret, wp_bind.
      destruct (jm_has threadId (ca_seen s1)) eqn:Hhas; [apply wp_modify|apply wp_ret]; apply wp_ret, wp_ret;
        apply (tracked_drop _ _ h s1 _ threadId Hs1); rewrite ?Hhas; try done; cbn; lia.
    + intros e s1 H1. by apply (tracked_same _ _ _ st).
  - assert (Hreset : ∀ (r : outcome string bool) s, tracked ((C_flush fuel, succeeded r) :: h) (snd ((resetTracker (W:=W);; resetPolicies) s))).
    { intros r s. change (tracked ((C_flush fuel, succeeded r) :: h) (with_policies [] (with_gauge 0 (with_seen [] s)))).
      unfold tracked. cbn. split_and!; [apply jm_wf_nil|done| |intros _; unfold js_len; cbn [length]; lia].
      intros t Hin. by apply not_elem_of_nil in Hin. }
    unfold walked, flush, wp, mbind, M_bind. destruct (clusterScan _ _ _ _ _) as [[[u|]|e] s1]; cbn.
    + apply (Hreset (Ok true)).
    + apply (Hreset (Ok false)).
    + apply (Hreset (Throw e)).
Qed.

(** *** The keys of a thread *)
Lemma session_key_prefix t f : session_key cfg t f = thread_prefix cfg t +:+ f.
Proof using Type. unfold session_key, thread_prefix. by rewrite !str_app_assoc. Qed.
Lemma session_key_inj t t' f f' :
  includes ":" t = false → includes ":" t' = false → session_key cfg t f = session_key cfg t' f' → t = t' ∧ f = f'.
Proof using Type.
  unfold session_key. intros Ht Ht' He%str_app_inj. apply (str_app_inj ":session:") in He. by apply no_colon_app.
Qed.
Lemma field_of_key t f : field_of (thread_prefix cfg t) (session_key cfg t f) = f.
Proof using Type. rewrite session_key_prefix. apply str_drop_app. Qed.
Lemma session_fields t f f' : session_key cfg t f = session_key cfg t f' → f = f'.
Proof using Type. intros He. by rewrite <-(field_of_key t f), He, field_of_key. Qed.
Definition of_thread (t k : string) : Prop := ∃ f, k = session_key cfg t f.
Lemma selected_session t k : selected (W:=W) (session_pattern cfg t) k ↔ of_thread t k.
Proof using All.
  unfold selected, session_pattern, of_thread, session_key. rewrite glob_escape. split.
  - intros (k1 & -> & H). apply (glob_plain ":session:") in H as (k2 & -> & H); [|done].
    apply glob_escape in H as (k3 & -> & H). apply (glob_star ":") in H as (k4 & ->); [|done]. by exists k4.
  - intros (k4 & ->). eexists. split; [done|].
    apply (glob_plain ":session:"); [done|]. eexists. split; [done|]. apply glob_escape. eexists. split; [done|].
    apply (glob_star ":"); [done|by eexists].
Qed.
(** The fields of a page: [kv0] is what was stored before the pipeline of GET, [kv2] after it. *)
Lemma read_fields_spec t (kv0 kv2 : gmap string string) (s : St) keys results acc :
  (∀ k v, kv2 !! k = Some v → kv0 !! k = Some v) →
  (∀ k, k ∈ keys → of_thread t k) →
  Forall2 (λ k (r : option string * option string),
    r.1 = None ∧ (∀ v, r.2 = Some v → kv0 !! k = Some v) ∧ (r.2 = None → kv2 !! k = None)) keys results →
  (∀ f v, acc !! f = Some v → kv0 !! session_key cfg t f = Some v) →
  ∃ acc' found, read_fields (thread_prefix cfg t) keys results acc s = (Ok (acc', found), s)
    ∧ (∀ k, k ∈ found → k ∈ keys)
    ∧ (∀ f v, acc' !! f = Some v → kv0 !! session_key cfg t f = Some v)
    ∧ (∀ f v, acc !! f = Some v → acc' !! f = Some v)
    ∧ (∀ f v, session_key cfg t f ∈ keys → f ≠ "__proto__" → kv2 !! session_key cfg t f = Some v → acc' !! f = Some v).
Proof using Type.
  intros Hsub Hkeys Hres. revert acc. induction Hres as [|k [e o] keys results (He & Hv & Hnone) _ IH]; intros acc Hacc.
  { exists acc, []. split_and!; try done. intros f v Hin. by apply not_elem_of_nil in Hin. }
  cbn [fst snd] in *. subst e. destruct (Hkeys k) as [g ->]; [by left|].
  assert (Hrest : ∀ k, k ∈ keys → of_thread t k) by (intros; apply Hkeys; by right).
  destruct o as [v|].
  - specialize (Hv v eq_refl). cbn [read_fields]. rewrite field_of_key.
    assert (Hacc1 : ∀ f w, add_field g v acc !! f = Some w → kv0 !! session_key cfg t f = Some w).
    { intros f w. unfold add_field. destruct (str_eqb g "__proto__"); [apply Hacc|].
      rewrite lookup_insert_Some. intros [[<- <-]|[_ H]]; [done|by apply Hacc]. }
    destruct (IH Hrest (add_field g v acc) Hacc1) as (acc' & found & Hr & Hf & Hs & Hmono & Hall).
    exists acc', (session_key cfg t g :: found). unfold mbind, M_bind. rewrite Hr. split_and!; [done|..].
    + intros k [->|Hk]%elem_of_cons; [by left|right; by apply Hf].
    + done.
    + intros f w Hw. apply Hmono. unfold add_field. destruct (str_eqb g "__proto__"); [done|].
      rewrite lookup_insert_Some. destruct (decide (g = f)) as [<-|Hne]; [left|by right].
      split; [done|]. apply Hacc in Hw. congruence.
    + intros f w [Hk|Hk]%elem_of_cons Hf2 Hw; [|by apply Hall]. apply session_fields in Hk as <-.
      apply Hmono. unfold add_field, str_eqb. rewrite bool_decide_eq_false_2 by done. rewrite lookup_insert_eq.
      apply Hsub in Hw. congruence.
  - cbn [read_fields]. destruct (IH Hrest acc Hacc) as (acc' & found & Hr & Hf & Hs & Hmono & Hall).
    exists acc', found. split_and!; [done|..|done|done|].
    + intros k Hk. right. by apply Hf.
    + intros f w [Hk|Hk]%elem_of_cons Hf2 Hw; [|by apply Hall]. apply session_fields in Hk as <-.
      by rewrite Hnone in Hw.
Qed.

(** No command of a pipeline of GET fails on its own. *)
Definition gets_succeed : Prop :=
  ∀ node keys w results w', ce_get_all node keys w = (Ok results, w') → Forall (λ r, r.1 = None) results.
(** A page of [getAll], in a walk that began in [st0] *)
Definition fields_sound (t : string) (st0 : St) (acc : gmap string string) (st : St) : Prop :=
  erases (of_thread t) st0 st ∧ ∀ f v, acc !! f = Some v → kv st0 !! session_key cfg t f = Some v.
Definition field_read (t k : string) (acc : gmap string string) (st : St) : Prop :=
  ∀ f v, k = session_key cfg t f → f ≠ "__proto__" → kv st !! k = Some v → acc !! f = Some v.
Lemma read_kept t k (acc acc' : gmap string string) st st' :
  (∀ k v, kv st' !! k = Some v → kv st !! k = Some v) → (∀ f v, acc !! f = Some v → acc' !! f = Some v) →
  field_read t k acc st → field_read t k acc' st'.
Proof using Type. intros Hkv Hacc H f v Hk Hf Hv. by apply Hacc, (H f v), Hkv. Qed.
Lemma wp_page_fields t st0 refresh keys node acc st :
  gets_succeed → fields_sound t st0 acc st → (∀ k, k ∈ keys → of_thread t k) →
  wp (page_fields cfg t refresh keys node acc)
    (λ acc' st', fields_sound t st0 acc' st' ∧ (∀ k, k ∈ keys → field_read t k acc' st')
                 ∧ ∀ k, field_read t k acc st → field_read t k acc' st')
    (λ _ st', erases (of_thread t) st0 st') st.
Proof using All.
  intros Hgets [He Hacc] Hkeys. unfold page_fields.
  pose proof (cv_get_all node keys (ca_world st)) as Hl.
  apply wp_bind, wp_command, wp_env; intros x w Hw; rewrite Hw in Hl; cycle 1.
  { eapply erases_trans; [exact He|by apply leaves_erases]. }
  destruct Hl as (Hl & Hlen & Hsome & Hnone). set (s1 := update_world w st).
  assert (H1 : erases (of_thread t) st s1) by (by apply leaves_erases).
  assert (He1 : erases (of_thread t) st0 s1) by (by eapply erases_trans).
  destruct (read_fields_spec t (kv st0) (kv s1) s1 keys x acc) as (acc' & found & Hr & Hfound & Hs & Hmono & Hall);
    [apply He1|done| |done|].
  { apply Forall2_same_length_lookup_2; [done|]. intros i k [e o] Hk Hx.
    pose proof (Hgets _ _ _ _ _ Hw) as Hno. rewrite Forall_lookup in Hno. specialize (Hno i _ Hx). cbn in Hno. subst e.
    cbn [fst snd]. split_and!; [done| |].
    - intros v ->. apply He. by eapply Hsome.
    - intros ->. by eapply Hnone. }
  apply wp_bind. unfold wp at 1. rewrite Hr. apply wp_bind.
  eapply (wp_mono _ (λ _ st', erases (of_thread t) s1 st') _ (λ _ _, False)); [| |done].
  - assert (Hret : wp (mret tt : M St string unit) (λ _ st', erases (of_thread t) s1 st') (λ _ _, False) s1)
      by (apply wp_ret, erases_refl).
    destruct refresh, (session_ttl cfg) as [ttl|], found as [|k found]; try exact Hret.
    apply wp_best_effort. intros w2 [r Hw2]. destruct (cv_expire_all node (k :: found) (JNum ttl) (ca_world s1)) as [Ht Hsub].
    rewrite Hw2 in Ht, Hsub. cbn [snd] in Ht, Hsub. split; [|exact Hsub].
    intros k' Hk'. apply Ht. intros Hin. by apply Hk', Hkeys, Hfound.
  - intros u s2 H2. apply wp_ret. split; [split; [by eapply erases_trans|done]|]. split.
    + intros k Hk f v -> Hf Hv. apply Hall; [done|done|]. by apply H2.
    + intros k. apply read_kept; [|done]. intros k' v Hv. by apply H1, H2.
Qed.

(** ** Theorems *)

(** The completion a call stores: the request, the text and the blocks *)
Definition stored_completion (c : cache_call) : option (LlmCacheParams * string * option json) :=
  match c with
  | C_llm_store p r _ => Some (p, r, None)
  | C_llm_storeMultipart p b _ => Some (p, JsString.join EmptyString (map block_text b), Some (JArr b))
  | _ => None
  end.

(** C26: the result of a hit of the completion cache is one that was stored for the same request (the
    same data in the object the key is made of), text and content blocks alike, and no call since
    has replaced it. *)
Theorem llm_hit_sound h st params r st' :
  reachable sha256 localeCompare inc_error cfg h st → priced (cc_costTable cfg) →
  (∀ c ok, (c, ok) ∈ h → call_data c) → llm_data localeCompare params →
  (∀ c ok p t b, (c, ok) ∈ h → stored_completion c = Some (p, t, b) →
     llmCacheHash sha256 localeCompare params = llmCacheHash sha256 localeCompare p →
     canonicalJson (llm_object localeCompare params) = canonicalJson (llm_object localeCompare p)) →
  llm_check sha256 localeCompare inc_error cfg params st = (Ok r, st') → lr_hit r = true →
  ∃ h1 c ok h2 p text blocks,
    h = h1 ++ (c, ok) :: h2 ∧ stored_completion c = Some (p, text, blocks)
    ∧ lr_response r = Some (JStr text) ∧ lr_contentBlocks r = reread <$> blocks
    ∧ same_json (llm_object localeCompare params) (llm_object localeCompare p)
    ∧ ∀ c', (c', true) ∈ h1 → ¬ replaces' c' (llm_key cfg (llmCacheHash sha256 localeCompare params)).
Proof using All.
  intros Hreach Hpriced Hdata Hargs Hsha Hrun Hhit.
  pose proof (llm_hit_entry params st) as Hentry. unfold wp in Hentry. rewrite Hrun in Hentry.
  destruct (Hentry Hhit) as (text & entry & Htext & Hparse & Hresp).
  destruct (entries_are_last h st Hreach _ _ (llm_is_entry _) Htext) as (h1 & c & ok & h2 & -> & [now Hw] & Hlast).
  assert (Hin : (c, ok) ∈ h1 ++ (c, ok) :: h2) by set_solver.
  assert (Hc : ∃ p t b o, stored_completion c = Some (p, t, b) ∧ llm_data localeCompare p ∧ valid_tokens o
    ∧ match b with Some b => json_ok b | None => True end
    ∧ llm_key cfg (llmCacheHash sha256 localeCompare p) = llm_key cfg (llmCacheHash sha256 localeCompare params)
    ∧ stringify (llm_entry cfg p t b now o) = text).
  { pose proof (Hdata _ _ Hin) as Hd. destruct c; cbn [written] in Hw; try done.
    - destruct (includes ":" toolName); [done|]. apply (inj Some), pair_eq in Hw as [Hk _]. by apply tool_not_llm in Hk.
    - apply (inj Some), pair_eq in Hw as [Hk Ht]. destruct Hd. by eexists _, _, _, options.
    - apply (inj Some), pair_eq in Hw as [Hk Ht]. destruct Hd as (? & Hb & ?). eexists _, _, _, options. split_and!; try done.
      cbn [json_ok]. by apply json_ok_all. }
  destruct Hc as (p & t & b & o & Hc & Hp & Ho & Hb & Hkey & Htxt). apply llm_key_inj in Hkey.
  assert (Hmem : ∀ k v, (k, v) ∈ [("response", Some (JStr t)); ("contentBlocks", b)] →
            json_member entry k = Some (reread <$> v)).
  { intros k v Hkv. destruct (llm_entry_member p t b now o k v Hpriced Ho Hb Hkv) as (entry' & He & Hm).
    rewrite Htxt, Hparse in He. by injection He as <-. }
  exists h1, c, ok, h2, p, t, b. split_and!; [done|done|..|done].
  - specialize (Hmem "response" (Some (JStr t)) ltac:(set_solver)).
    rewrite (Hresp "response" (lr_response r)) in Hmem by auto. by injection Hmem as ->.
  - specialize (Hmem "contentBlocks" b ltac:(set_solver)).
    rewrite (Hresp "contentBlocks" (lr_contentBlocks r)) in Hmem by auto. by injection Hmem as ->.
  - apply canonical_same; [done|done|]. by eapply Hsha.
Qed.


(** after a store without a time to live a check with the same arguments (in any order of their
    members) is a hit with the stored response, unless a command fails or the metrics refuse the cost. *)
Theorem stored_result_hits st toolName args args' response options :
  includes ":" toolName = false → call_data (C_tool_store toolName args response options) →
  args_data args' → same_json (default (JObj []) args) (default (JObj []) args') →
  nullish (JNum <$> (options ≫= ts_ttl))
    (nullish (policy_ttl (jm_get toolName (ca_policies st)))
       (nullish (JNum <$> cc_toolTtl cfg) (JNum <$> cc_defaultTtl cfg))) = None →
  wp (key ← tool_store sha256 cfg toolName args response options;
      r ← tool_check sha256 inc_error cfg toolName args';
      mret (key, r))
    (λ '(key, r) _, tr_hit r = true ∧ tr_response r = Some (JStr response) ∧ tr_key r = Some key)
    (λ e _, (∃ err, e = valkey_error "SET" err ∨ e = valkey_error "GET" err)
            ∨ ∃ cost, options ≫= ts_cost = Some cost ∧ inc_error (reread (JNum cost)) = Some e) st.
Proof using All.
  intros Hcolon Hdata Hargs Hsame Httl.
  assert (Hhash : toolCacheHash sha256 args' = toolCacheHash sha256 args).
  { unfold toolCacheHash. f_equal. symmetry. by apply canonical_same; [apply Hdata|..]. }
  unfold tool_store, tool_check, validateToolName. rewrite Hcolon, Hhash. cbv zeta.
  apply wp_bind, wp_bind, wp_ret, wp_bind, wp_get_state. rewrite Httl. set (now := ce_now (ca_world st)).
  apply wp_bind, wp_set_key; [|by eauto].
  intros s1 _ _ Hset. destruct (Hset eq_refl) as [Hkv Hvol]. apply wp_bind, wp_count, wp_ret.
  apply wp_bind, wp_bind, wp_ret, wp_bind, wp_get; [|by eauto]. intros raw s2 He Hraw Hnone.
  assert (Hkv2 : kv s2 !! tool_key cfg toolName (toolCacheHash sha256 args)
                 = Some (stringify (tool_entry toolName args response now options))).
  { destruct He as [Ht _]. destruct (Ht (tool_key cfg toolName (toolCacheHash sha256 args))) as [_ Hk]; [by intros []|].
    by rewrite (proj1 (Hk Hvol)). }
  destruct raw as [text|]; [|by rewrite Hnone in Hkv2]. specialize (Hraw text eq_refl).
  change (kv (with_metric ?m s1)) with (kv s1) in Hraw. rewrite Hkv in Hraw. apply (inj Some) in Hraw as <-.
  destruct (tool_entry_member toolName args response now options "response" (Some (JStr response)) Hdata)
    as (entry & Hp & Hresp); [by left|].
  assert (Hcost : json_member entry "cost" = Some (reread <$> (JNum <$> (options ≫= ts_cost)))).
  { destruct (tool_entry_member toolName args response now options "cost" (JNum <$> (options ≫= ts_cost)) Hdata)
      as (entry' & Hp' & Hc); [by right; left|].
    rewrite Hp in Hp'. by injection Hp' as <-. }
  destruct (stringify (tool_entry toolName args response now options)) as [|c text] eqn:Hs; [done|]. rewrite Hp.
  apply wp_bind. unfold tool_counts_hit. apply wp_bind. eapply wp_mono; [apply wp_swallow|..|done].
  intros u s3 _. apply wp_bind. eapply wp_member_some; [exact Hcost|]. apply wp_bind.
  assert (Hend : ∀ (s : St) (R : string → St → Prop), wp (count (RequestsTotal "tool" "hit" toolName) : M St string unit)
    (λ _ st', wp (response0 ← member_of entry "response";
                  mret {| tr_hit := true; tr_response := response0;
                          tr_key := Some (tool_key cfg toolName (toolCacheHash sha256 args)); tr_toolName := toolName |})
      (λ r st', wp (mret (tool_key cfg toolName (toolCacheHash sha256 args), r))
         (λ '(key, r) _, tr_hit r = true ∧ tr_response r = Some (JStr response) ∧ tr_key r = Some key) R st') R st') R s).
  { intros s R. apply wp_count, wp_bind. eapply wp_member_some; [exact Hresp|].
    by apply wp_ret, wp_ret. }
  destruct (options ≫= ts_cost) as [cost|] eqn:Hc; cbn [fmap option_fmap option_map]; [|apply wp_ret, Hend].
  destruct (inc_error (reread (JNum cost))) as [err|] eqn:Herr; [|apply wp_count, Hend].
  apply wp_throw. right. by exists cost.
Qed.


(** [getAll] reads the thread: what it returns was stored, under the fields of the thread, and it
    leaves out no field that is still there when it ends (but a field named [__proto__]), as long as
    no command of a pipeline fails on its own. *)
Theorem getAll_reads_thread fuel threadId st :
  gets_succeed →
  wp (getAll cfg fuel threadId)
    (λ r st', match r with
              | Some fields => ∀ f v, f ≠ "__proto__" →
                  (fields !! f = Some v → kv st !! session_key cfg threadId f = Some v)
                  ∧ (kv st' !! session_key cfg threadId f = Some v → fields !! f = Some v)
              | None => ¬ enough fuel st
              end
              ∧ ∀ k, is_entry cfg k → k ∉ volatile st → kv st' !! k = kv st !! k)
    (λ _ st', ∀ k v, kv st' !! k = Some v → kv st !! k = Some v) st.
Proof using All.
  intros Hgets. unfold getAll.
  assert (Hentry : ∀ st', erases (of_thread threadId) st st' → ∀ k, is_entry cfg k → k ∉ volatile st → kv st' !! k = kv st !! k).
  { intros st' [He _] k Hk Hv. apply (He k); [|done]. intros [f ->]. by apply session_no_entry in Hk. }
  eapply wp_mono.
  - apply (wp_clusterScan (page_fields cfg threadId true) (session_pattern cfg threadId)
             (fields_sound threadId st) (field_read threadId) (λ _ st', erases (of_thread threadId) st st')).
    + intros acc s1 s2 [H1 Hacc] H2. assert (H12 : erases (of_thread threadId) s1 s2) by (by eapply erases_mono; [|exact H2]).
      split; [split; [by eapply erases_trans|done]|]. intros k. apply read_kept; [apply H12|done].
    + intros k acc s Hk f v -> _ Hv. by rewrite Hk in Hv.
    + by intros e acc s [H _].
    + intros keys node acc s1 H1 Hsel. apply wp_page_fields; [done|done|].
      intros k Hk. by apply selected_session, Hsel.
    + split; [apply erases_refl|done].
  - intros [fields|] st'.
    + intros [[He Hs] Hk]. split; [|by apply Hentry]. intros f v Hf. split; [apply Hs|].
      intros Hv. apply (Hk (session_key cfg threadId f)); [|done..]. apply selected_session. by exists f.
    + intros (Hf & acc & He & _). split; [done|by apply Hentry].
  - intros e st' He. apply He.
Qed.
End methods.

(** ** A server that keeps its keys in a map *)

(** The patterns of SCAN, but for character classes *)
Fixpoint map_glob (p k : string) : bool :=
  match p with
  | EmptyString => is_empty k
  | String c p' =>
      if ascii_dec c "*" then
        (fix any (k : string) : bool :=
           map_glob p' k || match k with String _ k' => any k' | EmptyString => false end) k
      else if ascii_dec c backslash then
        match p', k with
        | String d p'', String e k' => bool_decide (d = e) && map_glob p'' k'
        | _, _ => false
        end
      else if ascii_dec c "?" then match k with String _ k' => map_glob p' k' | EmptyString => false end
      else match k with String d k' => bool_decide (c = d) && map_glob p' k' | EmptyString => false end
  end.
(** One primary holds every key, nothing expires and no command fails. *)
Abbreviation MapCache := (gmap string string).
Definition map_done {A} (f : MapCache → A) (g : MapCache → MapCache) : M MapCache string A := λ w, (Ok (f w), g w).
Definition held (k : string) (w : MapCache) : Z := match w !! k with Some _ => 1 | None => 0 end.
Definition without (keys : list string) (w : MapCache) : MapCache := foldr (λ k w, delete k w) w keys.
#[local] Instance map_cache_env : CacheEnv MapCache unit := {
  ce_now := λ _, 0;
  ce_nodes := λ _, [tt];
  ce_get key := map_done (λ w, w !! key) id;
  ce_set key v _ := map_done (λ _, tt) (<[key := v]>);
  ce_del key := map_done (λ w, held key w) (delete key);
  ce_expire _ _ := map_done (λ _, tt) id;
  ce_hincrby _ _ := map_done (λ _, tt) id;
  ce_hset _ _ _ := map_done (λ _, tt) id;
  ce_hgetall _ := map_done (λ _, []) id;
  ce_scan _ _ pattern _ := map_done (λ w, ("0", js_filter (map_glob pattern) (elements (dom w)))) id;
  ce_get_all _ keys := map_done (λ w, map (λ k, (None, w !! k)) keys) id;
  ce_del_all _ keys := map_done (λ w, map (λ k, (None, Some (held k w))) keys) (without keys);
  ce_expire_all _ _ _ := map_done (λ _, tt) id
}.
#[local] Instance map_cache_view : CacheView MapCache unit := {
  cv_kv := id; cv_volatile := λ _, ∅; cv_on := λ _ _, true; cv_seen := λ _ _ _, true; cv_left := λ _ _, O;
  cv_glob := map_glob
}.
Lemma without_lookup keys (w : MapCache) k : without keys w !! k = if decide (k ∈ keys) then None else w !! k.
Proof.
  induction keys as [|x keys IH]; [cbn; by case_decide; set_solver|].
  change (without (x :: keys) w) with (delete x (without keys w)).
  destruct (decide (x = k)) as [->|Hne]; [by rewrite lookup_delete_eq, decide_True by set_solver|].
  rewrite lookup_delete_ne, IH by done. repeat case_decide; set_solver.
Qed.
Lemma map_leaves keys (w w' : MapCache) : (∀ k, k ∉ keys → w' !! k = w !! k) → leaves (C:=unit) keys w w'.
Proof. intros H k Hk. cbn. rewrite (H k Hk). split; [done|]. intros _. split; [done|set_solver]. Qed.
Lemma map_leaves_refl keys (w : MapCache) : leaves (C:=unit) keys w w.
Proof. by apply map_leaves. Qed.
Lemma map_glob_plain c p k : plain_glob c = true →
  map_glob (String c p) k = match k with String d k' => bool_decide (c = d) && map_glob p k' | _ => false end.
Proof.
  unfold plain_glob. intros Hc%negb_true_iff%bool_decide_eq_false_1. cbn [map_glob].
  destruct (ascii_dec c "*") as [->|]; [set_solver|]. destruct (ascii_dec c backslash) as [->|]; [set_solver|].
  destruct (ascii_dec c "?") as [->|]; [set_solver|]. done.
Qed.
#[local] Instance map_cache_server : CacheServer MapCache unit.
Proof.
  constructor.
  - done.
  - intros k. cbn. by destruct k; [|induction k; cbn; rewrite ?orb_true_r in *].
  - apply map_glob_plain.
  - intros c p [|d k]; [done|]. done.
  - intros w k _. exists tt. split; [by left|done].
  - intros key w. cbn. split; [apply map_leaves_refl|done].
  - intros key v ttl w. cbn. split; [apply map_leaves; intros k Hk; apply lookup_insert_ne; set_solver|].
    rewrite lookup_insert_eq. split; [by intros v' [= <-]|]. intros _. split; [done|set_solver].
  - intros key w. cbn. split; [apply map_leaves; intros k Hk; apply lookup_delete_ne; set_solver|].
    rewrite lookup_delete_eq. split; [done|]. unfold held. destruct (w !! key); split; try done.
  - intros key ttl w. split; [apply map_leaves_refl|done].
  - intros key incs w. apply map_leaves_refl.
  - intros key f v w. apply map_leaves_refl.
  - intros key w. apply map_leaves_refl.
  - intros node cursor pattern n w. cbn. split; [apply map_leaves_refl|]. split; [by intros k [? _]%js_filter_elem|].
    split; [|by left]. intros k [v Hv] _ Hg _ _. apply js_filter_elem. split; [done|].
    apply elem_of_elements, elem_of_dom. by exists v.
  - intros node keys w. cbn. split; [apply map_leaves_refl|]. rewrite length_map. split; [done|].
    split; intros i k; [intros v|]; intros Hk Hr; rewrite list_lookup_fmap, Hk in Hr; by injection Hr.
  - intros node keys w. cbn [ce_del_all map_cache_env map_done cv_kv map_cache_view].
    split; [apply map_leaves; intros k Hk; rewrite without_lookup, decide_False; done|].
    rewrite length_map. split; [done|]. split.
    + intros k v. unfold id. rewrite without_lookup. by case_decide.
    + intros i k n Hk _. unfold id. rewrite without_lookup, decide_True; [done|]. by eapply list_elem_of_lookup_2.
  - intros node keys ttl w. split; [apply map_leaves_refl|done].
Qed.
Lemma map_gets_succeed : gets_succeed (W:=MapCache) (C:=unit).
Proof.
  intros node keys w results w' [= <- <-]. apply Forall_forall. intros r Hr.
  by apply list_elem_of_fmap in Hr as (k & -> & _).
Qed.

(** ** Runs on it *)
Definition demo_config : CacheConfig :=
  {| cc_name := "ac"; cc_defaultTtl := None; cc_llmTtl := None; cc_toolTtl := None; cc_sessionTtl := None;
     cc_costTable := None; cc_maxSessions := 2 |}.
Abbreviation demo_call := (run_call (W:=MapCache) (C:=unit) id (λ _ _, 0) (λ _, None) demo_config).
Definition demo_world : AgentCache MapCache := new_cache ∅.
(** The calls of a list, the first one first *)
Fixpoint demo_run (calls : list cache_call) (h : history) (st : AgentCache MapCache) : history * AgentCache MapCache :=
  match calls with
  | [] => (h, st)
  | c :: calls => let '(r, st') := demo_call c st in demo_run calls ((c, succeeded r) :: h) st'
  end.
Lemma demo_reachable calls :
  reachable (W:=MapCache) (C:=unit) id (λ _ _, 0) (λ _, None) demo_config
    (demo_run calls [] demo_world).1 (demo_run calls [] demo_world).2.
Proof.
  exists ∅. split; [done|].
  assert (H : ∀ calls h st, rtc (cache_step (W:=MapCache) (C:=unit) id (λ _ _, 0) (λ _, None) demo_config) (h, st)
             ((demo_run calls h st).1, (demo_run calls h st).2)).
  { clear calls. induction calls as [|c calls IH]; intros h st; cbn [demo_run]; [apply rtc_refl|].
    destruct (demo_call c st) as [r st'] eqn:Hc. eapply rtc_l; [by apply cache_step_call|apply IH]. }
  apply H.
Qed.
Definition demo_store : cache_call := C_tool_store "weather" (Some sample_args) "sunny" None.
Definition demo_tools := demo_run [C_tool_check "weather" None; demo_store] [] demo_world.
Definition demo_check := tool_check (W:=MapCache) (C:=unit) id (λ _, None) demo_config "weather" (Some sample_reordered).
(** The thread [a:b] is a part of the thread [a]. *)
Example threads_overlap : session_key demo_config "a" "b:f" = session_key demo_config "a:b" "f".
Proof. done. Qed.
Example destroying_takes_others :
  (demo_run [C_session_set "a:b" "f" "v" None; C_destroyThread 1 "a"] [] demo_world).2.(ca_world)
    !! session_key demo_config "a:b" "f" = None.
Proof. vm_compute. reflexivity. Qed.
(** With a session under the empty id tracked first, the tracker keeps more than its limit of 2. *)
Example tracker_over_limit :
  js_len (demo_run [C_session_set "" "f" "v" None; C_session_set "b" "f" "v" None; C_session_set "c" "f" "v" None;
                    C_session_set "d" "f" "v" None] [] demo_world).2.(ca_seen) = 4.
Proof. vm_compute. reflexivity. Qed.

Lemma stored_result_hits_witness :
  wp (key ← tool_store (W:=MapCache) (C:=unit) id demo_config "weather" (Some sample_args) "sunny" None;
      r ← tool_check id (λ _, None) demo_config "weather" (Some sample_reordered);
      mret (key, r))
    (λ '(key, r) _, tr_hit r = true ∧ tr_response r = Some (JStr "sunny") ∧ tr_key r = Some key)
    (λ e _, (∃ err, e = valkey_error "SET" err ∨ e = valkey_error "GET" err)
            ∨ ∃ cost, (None : option ToolStoreOptions) ≫= ts_cost = Some cost ∧ None = Some e) demo_world.
Proof.
  apply (stored_result_hits (W:=MapCache) (C:=unit) id (λ _ _, 0) (λ _, None) demo_config demo_world).
  - reflexivity.
  - split; [apply sample_args_data|done].
  - apply sample_args_data.
  - apply canonical_same; [apply sample_args_data..|]. vm_compute. reflexivity.
  - reflexivity.
Defined.
Definition demo_blocks : list json := [JObj [("type", JStr "text"); ("text", JStr "hello")]].
Lemma demo_blocks_ok : Forall json_ok demo_blocks.
Proof.
  apply Forall_singleton. cbn. split; [|done]. apply NoDup_cons. split; [|apply NoDup_singleton].
  by intros [=]%list_elem_of_singleton.
Qed.
Definition demo_llm := demo_run [C_llm_storeMultipart sample_params demo_blocks None] [] demo_world.
Definition demo_llm_check := llm_check (W:=MapCache) (C:=unit) id (λ _ _, 0) (λ _, None) demo_config sample_params'.
Lemma llm_hit_sound_witness :
  ∃ c ok p text blocks, (c, ok) ∈ demo_llm.1 ∧ stored_completion c = Some (p, text, blocks)
    ∧ lr_response <$> (match (demo_llm_check demo_llm.2).1 with Ok r => Some r | _ => None end) = Some (Some (JStr text)).
Proof.
  set (r := {| lr_hit := true; lr_response := Some (JStr "hello"); lr_contentBlocks := Some (JArr demo_blocks);
               lr_key := Some (llm_key demo_config (llmCacheHash id (λ _ _, 0) sample_params)) |}).
  assert (Hr : (demo_llm_check demo_llm.2).1 = Ok r) by (vm_compute; reflexivity).
  destruct (llm_hit_sound (W:=MapCache) (C:=unit) id (λ _ _, 0) (λ _, None) demo_config demo_llm.1 demo_llm.2 sample_params' r
    (demo_llm_check demo_llm.2).2)
    as (h1 & c & ok & h2 & p & t & b & Hh & Hc & Ht & _).
  - apply demo_reachable.
  - done.
  - assert (He : demo_llm.1 = [(C_llm_storeMultipart sample_params demo_blocks None, true)]) by (by vm_compute).
    intros c ok Hin. rewrite He, !elem_of_cons in Hin.
    destruct Hin as [[= -> ->]|Hin]; [|by apply not_elem_of_nil in Hin]. split; [|split; [|done]].
    + apply (sample_params_data sample_params). by left.
    + apply demo_blocks_ok.
  - apply sample_params_data. by right; left.
  - intros c ok p t b _ _ H. exact H.
  - exact (eq_trans (surjective_pairing (demo_llm_check demo_llm.2)) (f_equal (λ x, (x, (demo_llm_check demo_llm.2).2)) Hr)).
  - reflexivity.
  - exists c, ok, p, t, b. split; [rewrite Hh; apply elem_of_app; right; by left|]. split; [done|]. rewrite Hr, <-Ht. reflexivity.
Defined.
Definition demo_sessions := demo_run [C_session_set "a" "f" "v" None; C_session_set "b" "f" "v" None;
                                      C_session_set "c" "f" "v" None; C_destroyThread 1 "b"] [] demo_world.
Lemma getAll_reads_thread_witness :
  wp (getAll (W:=MapCache) (C:=unit) demo_config 1 "a")
    (λ r st', match r with
              | Some fields => ∀ f v, f ≠ "__proto__" →
                  (fields !! f = Some v → kv (C:=unit) demo_sessions.2 !! session_key demo_config "a" f = Some v)
                  ∧ (kv (C:=unit) st' !! session_key demo_config "a" f = Some v → fields !! f = Some v)
              | None => ¬ enough (C:=unit) 1 demo_sessions.2
              end
              ∧ ∀ k, is_entry demo_config k → k ∉ volatile (C:=unit) demo_sessions.2 →
                  kv (C:=unit) st' !! k = kv (C:=unit) demo_sessions.2 !! k)
    (λ (_ : string) st', ∀ k v, kv (C:=unit) st' !! k = Some v → kv (C:=unit) demo_sessions.2 !! k = Some v)
    demo_sessions.2.
Proof. apply (getAll_reads_thread (W:=MapCache) (C:=unit) id (λ _ _, 0) (λ _, None) demo_config 1 "a"). exact map_gets_succeed. Defined.
