(* ===== verification/LatencyRegression.v ===== *)
(** * The guard against regressions of the p99 latency

    [proprietary/latency-regression/regression-detector.ts]: one detector follows the commands of a
    connection.  It compares their latest p99 with what it was before a major upgrade of the server,
    and with that of the last day.  The service that reads the samples from the storage and saves
    the findings is left out. *)
From S2P Require Export FloatOrder.
From stdpp Require Import options.

(** ** Definitions *)
Record CommandP99Point := {
  cp_command : string; cp_p99Us : number; cp_serverVersion : string; cp_capturedAt : Z
}.
Record CommandRegression := {
  cr_command : string; cr_baselineP99Us : number; cr_currentP99Us : number;
  cr_degradationFactor : number; cr_callsPerMin : number
}.
Record ClusterRefreshPoint := { rp_capturedAt : Z; rp_callsDelta : number }.
Record DetectorInput := {
  di_nowMs : Z;
  di_samples : list CommandP99Point;
  di_callsPerMin : list (string * number);
  di_clusterRefreshDeltas : list ClusterRefreshPoint
}.
Inductive RegressionKind := upgrade_regression | sustained_degradation.
Inductive RegressionSeverity := R_warning | R_critical.
Record RegressionFinding := {
  rf_kind : RegressionKind;
  rf_previousVersion : option string;
  rf_currentVersion : string;
  rf_severity : RegressionSeverity;
  rf_commands : list CommandRegression;
  rf_topologyRefreshCorrelated : bool;
  rf_message : string;
  rf_timestamp : Z
}.

Definition UPGRADE_WINDOW_MS : Z := 24 * 60 * 60 * 1000.
Definition UPGRADE_BASELINE_LOOKBACK_MS : Z := 6 * 60 * 60 * 1000.
Definition UPGRADE_MIN_BASELINE_SAMPLES : Z := 5.
Definition UPGRADE_DEGRADATION_FACTOR : number := parse_float "1.5".
Definition SUSTAINED_DEGRADATION_FACTOR : number := num_of_Z 2.
Definition SUSTAINED_MIN_BASELINE_SAMPLES : Z := 30.
Definition SUSTAINED_BASELINE_EXCLUDE_MS : Z := 5 * 60 * 1000.
Definition SUSTAINED_COOLDOWN_MS : Z := 30 * 60 * 1000.
Definition MIN_ABS_DEGRADATION_US : number := num_of_Z 1000.
Definition CONSECUTIVE_REQUIRED : Z := 5.
Definition MIN_CALLS_PER_MIN : number := num_of_Z 60.
Definition TOP_K_COMMANDS : Z := 20.
Definition STALE_SAMPLE_MS : Z := 150000.
Definition CRITICAL_UPGRADE_FACTOR : number := num_of_Z 3.
Definition CRITICAL_P99_US : number := num_of_Z 100000.
Definition CRITICAL_SUSTAINED_FACTOR : number := num_of_Z 4.
Definition TOPOLOGY_CORRELATION_WINDOW_MS : Z := CONSECUTIVE_REQUIRED * 60000.
Definition TOPOLOGY_BURST_MIN_CALLS : number := num_of_Z 10.
Definition TOPOLOGY_BURST_MEDIAN_FACTOR : number := num_of_Z 2.

Definition by_num_asc (a b : number) : Z := num_sign (num_sub a b).
Definition median (values : list number) : number :=
  match values with
  | [] => num_of_Z 0
  | _ =>
      let sorted := js_sort by_num_asc values in
      let mid := (length sorted / 2)%nat in
      if Nat.odd (length sorted) then default nan (sorted !! mid)
      else num_div (num_add (default nan (sorted !! (mid - 1)%nat)) (default nan (sorted !! mid))) (num_of_Z 2)
  end.
Definition parseMajorVersion (version : string) : number :=
  match parse_int version with
  | Some z => if is_finite (num_of_Z z) then num_of_Z z else num_of_Z 0
  | None => num_of_Z 0
  end.
Definition isDegraded (currentP99Us baselineP99Us factor : number) : bool :=
  num_ltb (num_of_Z 0) baselineP99Us
  && num_leb (num_mul factor baselineP99Us) currentP99Us
  && num_leb MIN_ABS_DEGRADATION_US (num_sub currentP99Us baselineP99Us).
Definition isTopologyRefreshCorrelated (deltas : list ClusterRefreshPoint) (windowStartMs windowEndMs : Z) : bool :=
  match deltas with
  | [] => false
  | _ =>
      let hourMedian := median (map rp_callsDelta deltas) in
      let threshold := num_max TOPOLOGY_BURST_MIN_CALLS (num_mul TOPOLOGY_BURST_MEDIAN_FACTOR hourMedian) in
      js_some (λ d, (windowStartMs <=? rp_capturedAt d) && (rp_capturedAt d <=? windowEndMs)
                    && num_ltb threshold (rp_callsDelta d)) deltas
  end.

Definition formatMs (us : number) : string := num_to_fixed 1 (num_div us (num_of_Z 1000)) +:+ "ms".
Definition describeCommands (commands : list CommandRegression) : string :=
  join "; " (map (λ c, cr_command c +:+ " p99 " +:+ formatMs (cr_currentP99Us c) +:+ " (baseline "
                       +:+ formatMs (cr_baselineP99Us c) +:+ ", " +:+ num_to_fixed 1 (cr_degradationFactor c) +:+ "x)")
                 commands).
Definition TOPOLOGY_NOTE : string :=
  " Spikes correlate with cluster topology refresh (cluster|slots/cluster|shards bursts) — check the client topology refresh interval.".
Definition noted (correlated : bool) (message : string) : string :=
  if correlated then message +:+ TOPOLOGY_NOTE else message.

Record UpgradeWindowState := {
  uw_fromVersion : string;
  uw_toVersion : string;
  uw_openedAtMs : Z;
  uw_baselines : list (string * number);
  uw_consecutive : list (string * Z);
  uw_lastCountedAt : list (string * Z);
  uw_fired : bool
}.
Record SustainedState := { su_consecutive : Z; su_lastFiredAt : Z; su_lastCountedAt : Z }.
Record RegressionDetector := {
  rd_lastVersion : option string;
  rd_upgrade : option UpgradeWindowState;
  rd_sustained : list (string * SustainedState)
}.
Definition new_detector : RegressionDetector :=
  {| rd_lastVersion := None; rd_upgrade := None; rd_sustained := [] |}.
Definition with_upgrade (u : option UpgradeWindowState) (d : RegressionDetector) : RegressionDetector :=
  {| rd_lastVersion := rd_lastVersion d; rd_upgrade := u; rd_sustained := rd_sustained d |}.
Definition with_sustained (l : list (string * SustainedState)) (d : RegressionDetector) : RegressionDetector :=
  {| rd_lastVersion := rd_lastVersion d; rd_upgrade := rd_upgrade d; rd_sustained := l |}.
Definition set_consecutive (command : string) (n : Z) (u : UpgradeWindowState) : UpgradeWindowState :=
  {| uw_fromVersion := uw_fromVersion u; uw_toVersion := uw_toVersion u; uw_openedAtMs := uw_openedAtMs u;
     uw_baselines := uw_baselines u; uw_consecutive := jm_set command n (uw_consecutive u);
     uw_lastCountedAt := uw_lastCountedAt u; uw_fired := uw_fired u |}.
Definition set_counted (command : string) (t : Z) (u : UpgradeWindowState) : UpgradeWindowState :=
  {| uw_fromVersion := uw_fromVersion u; uw_toVersion := uw_toVersion u; uw_openedAtMs := uw_openedAtMs u;
     uw_baselines := uw_baselines u; uw_consecutive := uw_consecutive u;
     uw_lastCountedAt := jm_set command t (uw_lastCountedAt u); uw_fired := uw_fired u |}.
Definition set_fired (b : bool) (u : UpgradeWindowState) : UpgradeWindowState :=
  {| uw_fromVersion := uw_fromVersion u; uw_toVersion := uw_toVersion u; uw_openedAtMs := uw_openedAtMs u;
     uw_baselines := uw_baselines u; uw_consecutive := uw_consecutive u;
     uw_lastCountedAt := uw_lastCountedAt u; uw_fired := b |}.

Definition latest_step (latest : list (string * CommandP99Point)) (s : CommandP99Point)
    : list (string * CommandP99Point) :=
  match jm_get (cp_command s) latest with
  | Some prev => if cp_capturedAt prev <=? cp_capturedAt s then jm_set (cp_command s) s latest else latest
  | None => jm_set (cp_command s) s latest
  end.
Definition latestByCommand (samples : list CommandP99Point) : list (string * CommandP99Point) :=
  foldl latest_step [] samples.
(** [currentVersion] of a list that is not empty: its first sample and the rest *)
Definition currentVersion (first : CommandP99Point) (rest : list CommandP99Point) : string :=
  cp_serverVersion
    (foldl (λ newest s, if cp_capturedAt newest <=? cp_capturedAt s then s else newest) first (first :: rest)).
(** The arrays that a loop fills per command *)
Definition p99_by_command (samples : list CommandP99Point) : list (string * list number) :=
  map (λ '(command, l), (command, map cp_p99Us l)) (js_group cp_command samples).
Definition upgrade_baselines (fromVersion : string) (nowMs : Z) (samples : list CommandP99Point)
    : list (string * number) :=
  let fromMajor := parseMajorVersion fromVersion in
  let old := js_filter (λ s, num_eqb (parseMajorVersion (cp_serverVersion s)) fromMajor
                             && negb (cp_capturedAt s <? nowMs - UPGRADE_BASELINE_LOOKBACK_MS)) samples in
  omap (λ '(command, values), if UPGRADE_MIN_BASELINE_SAMPLES <=? js_len values
                              then Some (command, median values) else None) (p99_by_command old).
Definition open_window (fromVersion toVersion : string) (nowMs : Z) (samples : list CommandP99Point)
    : UpgradeWindowState :=
  {| uw_fromVersion := fromVersion; uw_toVersion := toVersion; uw_openedAtMs := nowMs;
     uw_baselines := upgrade_baselines fromVersion nowMs samples;
     uw_consecutive := []; uw_lastCountedAt := []; uw_fired := false |}.
Definition with_version (v : string) (d : RegressionDetector) : RegressionDetector :=
  {| rd_lastVersion := Some v; rd_upgrade := rd_upgrade d; rd_sustained := rd_sustained d |}.
Definition trackVersion (version : string) (nowMs : Z) (samples : list CommandP99Point) (d : RegressionDetector)
    : RegressionDetector :=
  if is_empty version then d
  else match rd_lastVersion d with
       | None => with_version version d
       | Some fromVersion =>
           if str_eqb version fromVersion then d
           else
             let d := with_version version d in
             if num_leb (parseMajorVersion version) (parseMajorVersion fromVersion) then
               match rd_upgrade d with
               | Some u => if num_ltb (parseMajorVersion version) (parseMajorVersion (uw_toVersion u))
                           then with_upgrade None d else d
               | None => d
               end
             else with_sustained [] (with_upgrade (Some (open_window fromVersion version nowMs samples)) d)
       end.
Definition eligibleCommands (callsPerMin : list (string * number)) : list string :=
  js_set (map fst (js_slice 0 TOP_K_COMMANDS
            (js_sort (by_num_desc snd) (js_filter (λ '(_, cpm), num_leb MIN_CALLS_PER_MIN cpm) callsPerMin)))).

(** One command of the loop over the baselines *)
Definition count_upgrade (input : DetectorInput) (latest : list (string * CommandP99Point)) (eligible : list string)
    (u : UpgradeWindowState) (entry : string * number) : UpgradeWindowState :=
  let '(command, baseline) := entry in
  if negb (js_includes command eligible) then set_consecutive command 0 u
  else match jm_get command latest with
       | None => set_consecutive command 0 u
       | Some s =>
           if (di_nowMs input - STALE_SAMPLE_MS <=? cp_capturedAt s)
              && num_leb (parseMajorVersion (uw_toVersion u)) (parseMajorVersion (cp_serverVersion s)) then
             if cp_capturedAt s <=? default (-1) (jm_get command (uw_lastCountedAt u)) then u
             else
               let u := set_counted command (cp_capturedAt s) u in
               set_consecutive command
                 (if isDegraded (cp_p99Us s) baseline UPGRADE_DEGRADATION_FACTOR
                  then default 0 (jm_get command (uw_consecutive u)) + 1 else 0) u
           else set_consecutive command 0 u
       end.
(** The commands with a full count; [latest.p99Us] of a command without a sample throws. *)
Definition type_error : string := "TypeError".
Fixpoint regressed_commands (input : DetectorInput) (latest : list (string * CommandP99Point))
    (baselines : list (string * number)) (counts : list (string * Z)) : sum string (list CommandRegression) :=
  match counts with
  | [] => inr []
  | (command, n) :: counts =>
      if n <? CONSECUTIVE_REQUIRED then regressed_commands input latest baselines counts
      else match jm_get command latest with
           | None => inl type_error
           | Some s =>
               let baseline := default nan (jm_get command baselines) in
               match regressed_commands input latest baselines counts with
               | inl err => inl err
               | inr rest =>
                   inr ({| cr_command := command; cr_baselineP99Us := baseline; cr_currentP99Us := cp_p99Us s;
                           cr_degradationFactor := num_div (cp_p99Us s) baseline;
                           cr_callsPerMin := default (num_of_Z 0) (jm_get command (di_callsPerMin input)) |} :: rest)
               end
           end
  end.
Definition correlated_now (input : DetectorInput) : bool :=
  isTopologyRefreshCorrelated (di_clusterRefreshDeltas input) (di_nowMs input - TOPOLOGY_CORRELATION_WINDOW_MS)
    (di_nowMs input).
Definition upgrade_finding (input : DetectorInput) (u : UpgradeWindowState) (regressed : list CommandRegression)
    : RegressionFinding :=
  let critical := js_some (λ c, num_leb CRITICAL_UPGRADE_FACTOR (cr_degradationFactor c)
                                || num_leb CRITICAL_P99_US (cr_currentP99Us c)) regressed in
  let correlated := correlated_now input in
  {| rf_kind := upgrade_regression; rf_previousVersion := Some (uw_fromVersion u); rf_currentVersion := uw_toVersion u;
     rf_severity := if critical then R_critical else R_warning; rf_commands := regressed;
     rf_topologyRefreshCorrelated := correlated;
     rf_message := noted correlated ("P99 latency regression after upgrade " +:+ uw_fromVersion u +:+ " -> "
                                     +:+ uw_toVersion u +:+ ": " +:+ describeCommands regressed +:+ ".");
     rf_timestamp := di_nowMs input |}.
Definition evaluateUpgrade (input : DetectorInput) (latest : list (string * CommandP99Point)) (eligible : list string)
    (upgrade : option UpgradeWindowState) : sum string (option RegressionFinding * option UpgradeWindowState) :=
  match upgrade with
  | None => inr (None, None)
  | Some u =>
      if uw_fired u then inr (None, Some u)
      else
        let u := foldl (count_upgrade input latest eligible) u (uw_baselines u) in
        match regressed_commands input latest (uw_baselines u) (uw_consecutive u) with
        | inl err => inl err
        | inr [] => inr (None, Some u)
        | inr regressed =>
            inr (Some (upgrade_finding input u (js_sort (by_num_desc cr_degradationFactor) regressed)),
                 Some (set_fired true u))
        end
  end.

(** One command of the loop of [evaluateSustained] *)
Definition sustained_finding (input : DetectorInput) (version : string) (regression : CommandRegression)
    : RegressionFinding :=
  let correlated := correlated_now input in
  {| rf_kind := sustained_degradation; rf_previousVersion := None; rf_currentVersion := version;
     rf_severity := if num_leb CRITICAL_SUSTAINED_FACTOR (cr_degradationFactor regression) then R_critical else R_warning;
     rf_commands := [regression]; rf_topologyRefreshCorrelated := correlated;
     rf_message := noted correlated ("Sustained P99 latency degradation: " +:+ describeCommands [regression] +:+ ".");
     rf_timestamp := di_nowMs input |}.
Definition sustain_state (upgrade : option UpgradeWindowState) (input : DetectorInput)
    (latest : list (string * CommandP99Point)) (byCommand : list (string * list number)) (command : string)
    (state : SustainedState) : option CommandRegression * SustainedState :=
  let reset := {| su_consecutive := 0; su_lastFiredAt := su_lastFiredAt state; su_lastCountedAt := su_lastCountedAt state |} in
  if match upgrade with Some u => jm_has command (uw_baselines u) | None => false end then (None, reset)
  else match jm_get command latest, jm_get command byCommand with
       | Some s, Some values =>
           if (cp_capturedAt s <? di_nowMs input - STALE_SAMPLE_MS)
              || (js_len values <? SUSTAINED_MIN_BASELINE_SAMPLES) then (None, reset)
           else if cp_capturedAt s <=? su_lastCountedAt state then (None, state)
           else
             let baseline := median values in
             if negb (isDegraded (cp_p99Us s) baseline SUSTAINED_DEGRADATION_FACTOR) then
               (None, {| su_consecutive := 0; su_lastFiredAt := su_lastFiredAt state; su_lastCountedAt := cp_capturedAt s |})
             else
               let n := su_consecutive state + 1 in
               if (n <? CONSECUTIVE_REQUIRED) || (di_nowMs input - su_lastFiredAt state <? SUSTAINED_COOLDOWN_MS) then
                 (None, {| su_consecutive := n; su_lastFiredAt := su_lastFiredAt state; su_lastCountedAt := cp_capturedAt s |})
               else
                 (Some {| cr_command := command; cr_baselineP99Us := baseline; cr_currentP99Us := cp_p99Us s;
                          cr_degradationFactor := num_div (cp_p99Us s) baseline;
                          cr_callsPerMin := default (num_of_Z 0) (jm_get command (di_callsPerMin input)) |},
                  {| su_consecutive := 0; su_lastFiredAt := di_nowMs input; su_lastCountedAt := cp_capturedAt s |})
       | _, _ => (None, reset)
       end.
Definition new_state : SustainedState := {| su_consecutive := 0; su_lastFiredAt := 0; su_lastCountedAt := -1 |}.
Definition sustain_step (upgrade : option UpgradeWindowState) (input : DetectorInput)
    (latest : list (string * CommandP99Point)) (byCommand : list (string * list number)) (version : string)
    (acc : list RegressionFinding * list (string * SustainedState)) (command : string)
    : list RegressionFinding * list (string * SustainedState) :=
  let '(findings, states) := acc in
  let '(r, state) := sustain_state upgrade input latest byCommand command (default new_state (jm_get command states)) in
  (findings ++ match r with Some regression => [sustained_finding input version regression] | None => [] end,
   jm_set command state states).
Definition sustained_samples (input : DetectorInput) (eligible : list string) : list (string * list number) :=
  p99_by_command (js_filter (λ s, negb (di_nowMs input - SUSTAINED_BASELINE_EXCLUDE_MS <? cp_capturedAt s)
                                  && js_includes (cp_command s) eligible) (di_samples input)).
Definition evaluateSustained (input : DetectorInput) (latest : list (string * CommandP99Point)) (eligible : list string)
    (version : string) (upgrade : option UpgradeWindowState) (states : list (string * SustainedState))
    : list RegressionFinding * list (string * SustainedState) :=
  foldl (sustain_step upgrade input latest (sustained_samples input eligible) version) ([], states) eligible.

(** The upgrade window ends by itself. *)
Definition close_window (nowMs : Z) (d : RegressionDetector) : RegressionDetector :=
  match rd_upgrade d with
  | Some u => if UPGRADE_WINDOW_MS <? nowMs - uw_openedAtMs u then with_upgrade None d else d
  | None => d
  end.
Definition evaluate (input : DetectorInput) : M RegressionDetector string (list RegressionFinding) := λ d,
  match di_samples input with
  | [] => (Ok [], d)
  | first :: rest =>
      let latest := latestByCommand (first :: rest) in
      let version := currentVersion first rest in
      let d := close_window (di_nowMs input) (trackVersion version (di_nowMs input) (first :: rest) d) in
      let eligible := eligibleCommands (di_callsPerMin input) in
      match evaluateUpgrade input latest eligible (rd_upgrade d) with
      | inl err => (Throw err, d)
      | inr (finding, u) =>
          let '(findings, states) := evaluateSustained input latest eligible version u (rd_sustained d) in
          (Ok (match finding with Some f => [f] | None => [] end ++ findings),
           with_sustained states (with_upgrade u d))
      end
  end.
Definition rearm (states : list (string * SustainedState)) (c : CommandRegression) : list (string * SustainedState) :=
  if jm_has (cr_command c) states then
    jm_set (cr_command c) {| su_consecutive := CONSECUTIVE_REQUIRED; su_lastFiredAt := 0; su_lastCountedAt := -1 |} states
  else states.
Definition revert (finding : RegressionFinding) (d : RegressionDetector) : RegressionDetector :=
  match rf_kind finding with
  | upgrade_regression =>
      match rd_upgrade d with
      | Some u => if str_eqb (uw_toVersion u) (rf_currentVersion finding)
                  then with_upgrade (Some (set_fired false u)) d else d
      | None => d
      end
  | sustained_degradation => with_sustained (foldl rearm (rd_sustained d) (rf_commands finding)) d
  end.

(** ** Specification *)

(** What happened to a detector, the last event first: it evaluated an input, or a finding was
    taken back because it could not be saved. *)
Inductive event :=
  | E_tick (input : DetectorInput) (findings : list RegressionFinding)
  | E_revert (finding : RegressionFinding).
Inductive runs : list event → RegressionDetector → Prop :=
  | runs_new : runs [] new_detector
  | runs_tick h d input fs d' :
      runs h d → evaluate input d = (Ok fs, d') → runs (E_tick input fs :: h) d'
  | runs_revert h d input fs f :
      runs h d → E_tick input fs ∈ h → f ∈ fs → runs (E_revert f :: h) (revert f d).
Definition event_input (e : event) : option DetectorInput :=
  match e with E_tick input _ => Some input | E_revert _ => None end.
Abbreviation inputs_of := (omap event_input).
(** An upgrade regression was reported and has not been taken back. *)
Fixpoint reported (h : list event) : Prop :=
  match h with
  | [] => False
  | E_tick _ fs :: h => Exists (λ f, rf_kind f = upgrade_regression) fs ∨ reported h
  | E_revert f :: h => rf_kind f ≠ upgrade_regression ∧ reported h
  end.
Definition version_of (input : DetectorInput) (version : string) : Prop :=
  ∃ first rest, di_samples input = first :: rest ∧ currentVersion first rest = version.
Definition newer (a b : CommandP99Point) : Prop := cp_capturedAt b < cp_capturedAt a.
(** A sample that counts against a command: read while the command was eligible and the sample not
    stale, on the new major version, with a p99 that is degraded against the baseline *)
Definition degraded_sample (inputs : list DetectorInput) (toVersion command : string) (baseline : number)
    (s : CommandP99Point) : Prop :=
  cp_command s = command ∧ isDegraded (cp_p99Us s) baseline UPGRADE_DEGRADATION_FACTOR = true
  ∧ num_leb (parseMajorVersion toVersion) (parseMajorVersion (cp_serverVersion s)) = true
  ∧ ∃ input, input ∈ inputs ∧ s ∈ di_samples input ∧ di_nowMs input - STALE_SAMPLE_MS ≤ cp_capturedAt s
             ∧ command ∈ eligibleCommands (di_callsPerMin input).
(** The samples of a command before the upgrade *)
Definition baseline_samples (fromVersion : string) (input : DetectorInput) (command : string) : list CommandP99Point :=
  js_filter (λ s, bool_decide (cp_command s = command)
                  && num_eqb (parseMajorVersion (cp_serverVersion s)) (parseMajorVersion fromVersion)
                  && negb (cp_capturedAt s <? di_nowMs input - UPGRADE_BASELINE_LOOKBACK_MS)) (di_samples input).
(** The window was opened at the input by an increase of the major version. *)
Definition opened_at (input : DetectorInput) (u : UpgradeWindowState) : Prop :=
  version_of input (uw_toVersion u)
  ∧ num_leb (parseMajorVersion (uw_toVersion u)) (parseMajorVersion (uw_fromVersion u)) = false
  ∧ uw_openedAtMs u = di_nowMs input
  ∧ uw_baselines u = upgrade_baselines (uw_fromVersion u) (di_nowMs input) (di_samples input).

(** The version of the last evaluation that saw one *)
Fixpoint last_version (h : list event) : option string :=
  match h with
  | [] => None
  | E_revert _ :: h => last_version h
  | E_tick input _ :: h =>
      match di_samples input with
      | first :: rest => if is_empty (currentVersion first rest) then last_version h else Some (currentVersion first rest)
      | [] => last_version h
      end
  end.
(** The input comes with a major version above the last one. *)
Definition upgraded (input : DetectorInput) (h : list event) : bool :=
  match di_samples input, last_version h with
  | first :: rest, Some from =>
      negb (is_empty (currentVersion first rest))
      && negb (num_leb (parseMajorVersion (currentVersion first rest)) (parseMajorVersion from))
  | _, _ => false
  end.
Definition degradation_of (c : string) (f : RegressionFinding) : bool :=
  match rf_kind f with
  | sustained_degradation => js_some (λ r, bool_decide (cr_command r = c)) (rf_commands f)
  | upgrade_regression => false
  end.
(** When the degradation of a command was last reported; a finding that was taken back does not count,
    nor one from before a major upgrade. *)
Fixpoint cooling (h : list event) (c : string) : option Z :=
  match h with
  | [] => None
  | E_revert f :: h => if degradation_of c f then None else cooling h c
  | E_tick input fs :: h =>
      if js_some (degradation_of c) fs then Some (di_nowMs input)
      else if upgraded input h then None else cooling h c
  end.
(** The samples of a command that make its baseline of the last day *)
Definition daily_samples (input : DetectorInput) (c : string) : list CommandP99Point :=
  js_filter (λ s, bool_decide (cp_command s = c)
                  && negb (di_nowMs input - SUSTAINED_BASELINE_EXCLUDE_MS <? cp_capturedAt s)) (di_samples input).
Definition slow_sample (inputs : list DetectorInput) (c : string) (s : CommandP99Point) : Prop :=
  cp_command s = c
  ∧ ∃ input, input ∈ inputs ∧ s ∈ di_samples input ∧ di_nowMs input - STALE_SAMPLE_MS ≤ cp_capturedAt s
             ∧ c ∈ eligibleCommands (di_callsPerMin input)
             ∧ SUSTAINED_MIN_BASELINE_SAMPLES ≤ js_len (daily_samples input c)
             ∧ isDegraded (cp_p99Us s) (median (map cp_p99Us (daily_samples input c))) SUSTAINED_DEGRADATION_FACTOR = true.

(** *** Samples *)
Definition demo_point (version : string) (p99 at_ : Z) : CommandP99Point :=
  {| cp_command := "get"; cp_p99Us := num_of_Z p99; cp_serverVersion := version; cp_capturedAt := at_ |}.
(** A tick [k] minutes after the thirtieth calm sample: the samples so far, and the calls a minute *)
Definition demo_input (after : list CommandP99Point) (k calls : Z) : DetectorInput :=
  {| di_nowMs := (60 + k) * 60000;
     di_samples := map (λ i, demo_point "8.0.0" 1000 ((30 + Z.of_nat i) * 60000)) (seq 0 30) ++ after;
     di_callsPerMin := [("get", num_of_Z calls)]; di_clusterRefreshDeltas := [] |}.
Definition demo_after (version : string) (n : nat) : list CommandP99Point :=
  map (λ i, demo_point version 5000 ((61 + Z.of_nat i) * 60000)) (seq 0 n).
Definition demo_upgrade (n : nat) : DetectorInput := demo_input (demo_after "9.0.0" n) (Z.of_nat n) 100.
Definition demo_slow (n : nat) : DetectorInput := demo_input (demo_after "8.0.0" n) (Z.of_nat n) 100.
Fixpoint demo_run (inputs : list DetectorInput) (h : list event) (d : RegressionDetector) : list event * RegressionDetector :=
  match inputs with
  | [] => (h, d)
  | input :: inputs =>
      match evaluate input d with
      | (Ok fs, d') => demo_run inputs (E_tick input fs :: h) d'
      | _ => (h, d)
      end
  end.
Definition demo_findings (inputs : list DetectorInput) (input : DetectorInput) : list RegressionFinding :=
  match (evaluate input (demo_run inputs [] new_detector).2).1 with Ok fs => fs | Throw _ => [] end.
Definition demo_upgrades : list DetectorInput := map demo_upgrade [0; 1; 2; 3; 4]%nat.
Definition demo_slows : list DetectorInput := map demo_slow [0; 1; 2; 3; 4; 5; 6; 7]%nat.
Example demo_upgrade_ex :
  map (λ f, (rf_kind f, rf_message f)) (demo_findings demo_upgrades (demo_upgrade 5))
  = [(upgrade_regression,
      "P99 latency regression after upgrade 8.0.0 -> 9.0.0: get p99 5.0ms (baseline 1.0ms, 5.0x).")].
Proof. vm_compute. reflexivity. Qed.
Example demo_slow_ex :
  map (λ f, (rf_kind f, rf_message f)) (demo_findings demo_slows (demo_slow 8))
  = [(sustained_degradation, "Sustained P99 latency degradation: get p99 5.0ms (baseline 1.0ms, 5.0x).")].
Proof. vm_compute. reflexivity. Qed.
(** The streak of a command without enough calls is kept, so a calm sample that is read meanwhile does
    not end it: the five samples need not be consecutive. *)
Example gap_counts :
  let calm := demo_after "8.0.0" 7 ++ [demo_point "8.0.0" 1000 (68 * 60000)] in
  map rf_kind (demo_findings (map demo_slow [0; 1; 2; 3; 4; 5; 6; 7]%nat ++ [demo_input calm 8 1])
                 (demo_input (calm ++ [demo_point "8.0.0" 5000 (69 * 60000)]) 9 100))
  = [sustained_degradation].
Proof. vm_compute. reflexivity. Qed.
(** A change of the minor version opens no window. *)
Example minor_change_ex :
  rd_upgrade (demo_run [demo_slow 0; demo_input (demo_after "8.1.0" 1) 1 100] [] new_detector).2 = None.
Proof. vm_compute. reflexivity. Qed.

(** ** Lemmas *)

(** *** Samples *)
Lemma latest_spec samples c s :
  jm_get c (latestByCommand samples) = Some s →
  s ∈ samples ∧ cp_command s = c ∧ ∀ s', s' ∈ samples → cp_command s' = c → cp_capturedAt s' ≤ cp_capturedAt s.
Proof.
  unfold latestByCommand. revert s. induction samples as [|x l IH] using rev_ind; [done|]. intros s.
  rewrite foldl_app. cbn [foldl]. set (m := foldl latest_step [] l) in *. unfold latest_step.
  assert (Hnone : jm_get c m = None → ∀ s', s' ∈ l → cp_command s' ≠ c).
  { intros Hn s' Hs' Hc. assert (Hsome : is_Some (jm_get c m)); [|by rewrite Hn in Hsome; destruct Hsome].
    subst m. clear IH s Hn. revert s' Hs' Hc. induction l as [|y l IH] using rev_ind; [by intros s' ?%not_elem_of_nil|].
    intros s' [Hs'| ->%list_elem_of_singleton]%elem_of_app Hc; rewrite foldl_app; cbn [foldl]; unfold latest_step at 1.
    - specialize (IH s' Hs' Hc).
      destruct (jm_get (cp_command y) _); [case_match|]; rewrite ?jm_get_set; try case_decide; done.
    - destruct (jm_get (cp_command y) _) eqn:Hg; [case_match|]; rewrite ?jm_get_set; subst c; try by rewrite decide_True.
      by rewrite Hg. }
  assert (Hset : jm_get c (jm_set (cp_command x) x m) = Some s →
    (∀ prev, jm_get (cp_command x) m = Some prev → cp_capturedAt prev ≤ cp_capturedAt x) →
    s ∈ l ++ [x] ∧ cp_command s = c ∧ ∀ s', s' ∈ l ++ [x] → cp_command s' = c → cp_capturedAt s' ≤ cp_capturedAt s).
  { rewrite jm_get_set. case_decide as Hc; [intros [= <-] Hprev|intros Hg _].
    - split; [set_solver|]. split; [done|]. intros s' [Hs'| ->%list_elem_of_singleton]%elem_of_app Hc'; [|lia].
      subst c. destruct (jm_get (cp_command x) m) as [prev|] eqn:Hg; [|by destruct (Hnone eq_refl s' Hs')].
      destruct (IH prev eq_refl) as (_ & _ & Hmax). specialize (Hmax s' Hs' Hc'). specialize (Hprev prev eq_refl). lia.
    - destruct (IH s Hg) as (Hin & Hcs & Hmax). split; [set_solver|]. split; [done|].
      intros s' [Hs'| ->%list_elem_of_singleton]%elem_of_app Hc'; [by apply Hmax|congruence]. }
  destruct (jm_get (cp_command x) m) as [prev|] eqn:Hprev.
  - destruct (Z.leb_spec (cp_capturedAt prev) (cp_capturedAt x)) as [Hle|Hlt].
    + intros Hs. apply Hset; [done|]. by intros p [= <-].
    + intros Hg. destruct (IH s Hg) as (Hin & Hcs & Hmax). split; [set_solver|]. split; [done|].
      intros s' [Hs'| ->%list_elem_of_singleton]%elem_of_app Hc'; [by apply Hmax|].
      assert (prev = s) as -> by congruence. lia.
  - intros Hs. by apply Hset.
Qed.
Lemma js_filter_both {A} (p q : A → bool) l : js_filter p (js_filter q l) = js_filter (λ x, p x && q x) l.
Proof. induction l as [|x l IH]; cbn; [done|]. destruct (p x) eqn:Hp, (q x) eqn:Hq; cbn; rewrite ?Hp, ?IH; done. Qed.
Lemma upgrade_baselines_spec fromVersion input c b :
  (c, b) ∈ upgrade_baselines fromVersion (di_nowMs input) (di_samples input) →
  UPGRADE_MIN_BASELINE_SAMPLES ≤ js_len (baseline_samples fromVersion input c)
  ∧ b = median (map cp_p99Us (baseline_samples fromVersion input c)).
Proof.
  unfold upgrade_baselines, p99_by_command. rewrite list_elem_of_omap. intros ([c' values] & Hin & Hb).
  apply list_elem_of_fmap in Hin as ([c1 g] & [= -> ->] & Hg). apply js_group_elem in Hg as [-> _].
  destruct (Z.leb_spec UPGRADE_MIN_BASELINE_SAMPLES (js_len (map cp_p99Us
    (js_filter (λ x, bool_decide (cp_command x = c1)) (js_filter (λ s,
       num_eqb (parseMajorVersion (cp_serverVersion s)) (parseMajorVersion fromVersion)
       && negb (cp_capturedAt s <? di_nowMs input - UPGRADE_BASELINE_LOOKBACK_MS)) (di_samples input)))))) as [Hle|]; [|done].
  injection Hb as -> <-. revert Hle. rewrite js_filter_both. unfold js_len. rewrite length_map.
  assert (He : js_filter (λ x, bool_decide (cp_command x = c) && (num_eqb (parseMajorVersion (cp_serverVersion x))
      (parseMajorVersion fromVersion) && negb (cp_capturedAt x <? di_nowMs input - UPGRADE_BASELINE_LOOKBACK_MS)))
      (di_samples input) = baseline_samples fromVersion input c).
  { unfold baseline_samples. induction (di_samples input) as [|x l IH]; cbn; [done|]. by rewrite andb_assoc, IH. }
  by rewrite He.
Qed.
Lemma upgrade_baselines_wf fromVersion nowMs samples : jm_wf (upgrade_baselines fromVersion nowMs samples).
Proof.
  unfold upgrade_baselines, p99_by_command, jm_wf. set (l := js_filter _ samples).
  pose proof (js_group_wf cp_command l) as Hwf. unfold jm_wf in Hwf.
  induction (js_group cp_command l) as [|[c g] gs IH]; cbn; [constructor|].
  apply NoDup_cons in Hwf as [Hc Hwf]. specialize (IH Hwf). destruct (_ <=? _); [|done]. cbn. apply NoDup_cons. split; [|done].
  intros Hin. apply Hc. apply list_elem_of_fmap in Hin as ([c' b] & -> & Hin).
  apply list_elem_of_omap in Hin as ([c1 v] & Hin & Hb). apply list_elem_of_fmap in Hin as ([c2 g2] & [= -> ->] & Hin).
  destruct (_ <=? _); [|done]. injection Hb as -> _. by apply (list_elem_of_fmap_2 fst) in Hin.
Qed.

(** *** The counts of the upgrade window *)

(** As many samples as the count, each newer than the next one, none newer than the last counted *)
Definition streak (inputs : list DetectorInput) (u : UpgradeWindowState) (command : string) (baseline : number) (n : Z)
    : Prop :=
  ∃ l, js_len l = n ∧ StronglySorted newer l
    ∧ Forall (degraded_sample inputs (uw_toVersion u) command baseline) l
    ∧ Forall (λ s, cp_capturedAt s ≤ default (-1) (jm_get command (uw_lastCountedAt u))) l.
Definition evidence (inputs : list DetectorInput) (u : UpgradeWindowState) : Prop :=
  jm_wf (uw_consecutive u)
  ∧ ∀ command n, jm_get command (uw_consecutive u) = Some n →
    ∃ baseline, jm_get command (uw_baselines u) = Some baseline ∧ streak inputs u command baseline n.
(** What the counting leaves as it is *)
Definition same_window (u u' : UpgradeWindowState) : Prop :=
  uw_fromVersion u' = uw_fromVersion u ∧ uw_toVersion u' = uw_toVersion u ∧ uw_openedAtMs u' = uw_openedAtMs u
  ∧ uw_baselines u' = uw_baselines u ∧ uw_fired u' = uw_fired u.
Lemma streak_zero inputs u command baseline : streak inputs u command baseline 0.
Proof. exists []. split; [done|]. split; [constructor|]. by split. Qed.
Lemma evidence_zero inputs u command baseline :
  jm_get command (uw_baselines u) = Some baseline → evidence inputs u → evidence inputs (set_consecutive command 0 u).
Proof.
  intros Hb [Hwf He]. split; [by apply jm_wf_set|]. intros c n. cbn. rewrite jm_get_set.
  case_decide as Hc; [intros [= <-]; subst c|apply He]. exists baseline. split; [done|]. apply streak_zero.
Qed.
Lemma evidence_more inputs inputs' u :
  (∀ i, i ∈ inputs → i ∈ inputs') → evidence inputs u → evidence inputs' u.
Proof.
  intros Hi [Hwf He]. split; [done|]. intros c n Hn. destruct (He c n Hn) as (b & Hb & l & Hl & Hs & Hd & Hc). exists b. split; [done|].
  exists l. split_and!; try done. eapply Forall_impl; [exact Hd|].
  intros s (H1 & H2 & H3 & i & Hin & Hrest). split_and!; try done. exists i. split; [by apply Hi|done].
Qed.
Lemma count_same input latest eligible u entry : same_window u (count_upgrade input latest eligible u entry).
Proof. destruct entry as [command baseline]. unfold count_upgrade. repeat case_match; done. Qed.
Lemma count_evidence inputs input u command baseline :
  input ∈ inputs → jm_get command (uw_baselines u) = Some baseline → evidence inputs u →
  evidence inputs (count_upgrade input (latestByCommand (di_samples input)) (eligibleCommands (di_callsPerMin input)) u
                     (command, baseline)).
Proof.
  intros Hin Hb He. unfold count_upgrade. destruct (js_includes command _) eqn:Hel; cbn [negb]; [|by eapply evidence_zero].
  destruct (jm_get command (latestByCommand _)) as [s|] eqn:Hs; [|by eapply evidence_zero].
  apply latest_spec in Hs as (Hsin & Hcmd & _). apply js_includes_true in Hel.
  destruct (_ && _) eqn:Hfresh; [|by eapply evidence_zero].
  apply andb_prop in Hfresh as [Hfresh%Z.leb_le Hmajor]. destruct He as [Hwf He].
  destruct (Z.leb_spec (cp_capturedAt s) (default (-1) (jm_get command (uw_lastCountedAt u)))) as [|Hnew]; [done|].
  split; [by apply jm_wf_set|]. intros c n. cbn [uw_consecutive uw_baselines set_consecutive set_counted]. rewrite jm_get_set.
  case_decide as Hc; cycle 1.
  { intros Hn. destruct (He c n Hn) as (b & Hb' & l & Hl & Hso & Hd & Hle). exists b. split; [done|].
    exists l. split_and!; try done. unfold streak. cbn. by rewrite jm_get_set_ne. }
  subst c. intros [= <-]. exists baseline. split; [done|].
  destruct (isDegraded (cp_p99Us s) baseline UPGRADE_DEGRADATION_FACTOR) eqn:Hdeg; [|apply streak_zero].
  assert (Hst : streak inputs u command baseline (default 0 (jm_get command (uw_consecutive u)))).
  { destruct (jm_get command (uw_consecutive u)) as [n|] eqn:Hn; [|apply streak_zero].
    destruct (He command n Hn) as (b & Hb' & Hst). by simplify_eq. }
  destruct Hst as (l & Hl & Hso & Hd & Hle). exists (s :: l). unfold streak. cbn [uw_toVersion uw_lastCountedAt set_consecutive set_counted].
  rewrite jm_get_set_eq. cbn [default]. split_and!.
  - unfold js_len in *. cbn [length]. lia.
  - constructor; [done|]. eapply Forall_impl; [exact Hle|]. intros s' Hs'. unfold newer. cbn in Hs'. lia.
  - constructor; [|done]. split_and!; [done|done|done|]. by exists input.
  - constructor; [cbn; lia|]. eapply Forall_impl; [exact Hle|]. intros s' Hs'. cbn in *. lia.
Qed.
(** A command with a full count has a sample. *)
Definition counted_present (latest : list (string * CommandP99Point)) (u : UpgradeWindowState) (command : string) : Prop :=
  ∀ n, jm_get command (uw_consecutive u) = Some n → 0 < n → is_Some (jm_get command latest).
Lemma count_present input latest eligible u entry c :
  c = entry.1 ∨ counted_present latest u c → counted_present latest (count_upgrade input latest eligible u entry) c.
Proof.
  destruct entry as [command baseline]. cbn [fst]. intros Hc n. unfold count_upgrade.
  assert (Hzero : jm_get c (uw_consecutive (set_consecutive command 0 u)) = Some n → 0 < n → is_Some (jm_get c latest)).
  { cbn. rewrite jm_get_set. case_decide; [intros [= <-]; lia|]. intros Hn Hpos. destruct Hc as [|Hc]; [done|by apply (Hc n)]. }
  destruct (negb _); [exact Hzero|]. destruct (jm_get command latest) as [s|] eqn:Hs; [|exact Hzero].
  destruct (_ && _); [|exact Hzero].
  destruct (decide (c = command)) as [->|Hne]; [by rewrite Hs; eauto|].
  destruct Hc as [|Hc]; [done|]. destruct (_ <=? _); [apply Hc|]. cbn. rewrite jm_get_set_ne by done. apply Hc.
Qed.
Lemma count_all inputs input u :
  input ∈ inputs → jm_wf (uw_baselines u) → evidence inputs u →
  let latest := latestByCommand (di_samples input) in
  let u' := foldl (count_upgrade input latest (eligibleCommands (di_callsPerMin input))) u (uw_baselines u) in
  same_window u u' ∧ evidence inputs u' ∧ ∀ command, counted_present latest u' command.
Proof.
  intros Hin Hwf He latest u'.
  assert (H : ∀ es v, (∀ c b, (c, b) ∈ es → jm_get c (uw_baselines v) = Some b) → evidence inputs v →
    let v' := foldl (count_upgrade input latest (eligibleCommands (di_callsPerMin input))) v es in
    same_window v v' ∧ evidence inputs v' ∧ ∀ c, c ∈ es.*1 ∨ counted_present latest v c → counted_present latest v' c).
  { induction es as [|[c b] es IH]; intros v Hes Hv; cbn [foldl].
    { split_and!; [by split_and!|done|]. intros c [Hc|]; [by apply not_elem_of_nil in Hc|done]. }
    pose proof (count_same input latest (eligibleCommands (di_callsPerMin input)) v (c, b)) as Hsame.
    set (v1 := count_upgrade input latest _ v (c, b)) in *.
    destruct (IH v1) as (Hs & Hev & Hp).
    - intros c' b' Hin'. destruct Hsame as (_ & _ & _ & -> & _). apply Hes. by right.
    - apply count_evidence; [done| |done]. apply Hes. by left.
    - split_and!; [|done|].
      + destruct Hsame as (? & ? & ? & ? & ?), Hs as (? & ? & ? & ? & ?). split_and!; congruence.
      + intros c' Hc'. apply Hp. destruct (decide (c' ∈ es.*1)); [by left|right]. apply count_present.
        destruct Hc' as [[->|]%elem_of_cons|]; [by left|done|by right]. }
  destruct (H (uw_baselines u) u) as (Hs & Hev & Hp); [|done|].
  { intros c b Hcb. by apply jm_elem_get. }
  split_and!; [done|done|]. intros c n Hn Hpos.
  destruct (proj2 Hev c n Hn) as (b & Hb & _). destruct Hs as (_ & _ & _ & Hbase & _). refine (Hp c _ n Hn Hpos). left.
  rewrite Hbase in Hb. apply jm_get_elem in Hb. by apply (list_elem_of_fmap_2 fst) in Hb.
Qed.
Lemma regressed_spec input latest baselines counts :
  (∀ c n, (c, n) ∈ counts → CONSECUTIVE_REQUIRED ≤ n → is_Some (jm_get c latest)) →
  ∃ l, regressed_commands input latest baselines counts = inr l
    ∧ ∀ r, r ∈ l → ∃ n s, (cr_command r, n) ∈ counts ∧ CONSECUTIVE_REQUIRED ≤ n ∧ jm_get (cr_command r) latest = Some s
         ∧ cr_currentP99Us r = cp_p99Us s ∧ cr_baselineP99Us r = default nan (jm_get (cr_command r) baselines).
Proof.
  induction counts as [|[c n] counts IH]; intros Hp; cbn [regressed_commands].
  { exists []. split; [done|]. intros r Hr. by apply not_elem_of_nil in Hr. }
  destruct IH as (l & Hl & Hr); [intros c' n' Hc'; apply Hp; by right|].
  destruct (Z.ltb_spec n CONSECUTIVE_REQUIRED) as [|Hn].
  { exists l. split; [done|]. intros r Hin. destruct (Hr r Hin) as (n' & s & H1 & H2). exists n', s. split; [by right|done]. }
  destruct (Hp c n) as [s Hs]; [by left|done|]. rewrite Hs, Hl. eexists. split; [done|].
  intros r [->|Hin]%elem_of_cons.
  - exists n, s. cbn. split_and!; try done. by left.
  - destruct (Hr r Hin) as (n' & s' & H1 & H2). exists n', s'. split; [by right|done].
Qed.

(** *** The window over a run *)
Definition seen_version (h : list event) (v : string) : Prop := ∃ i fs, E_tick i fs ∈ h ∧ version_of i v.
(** The window as the evaluation of [input] finds it, after the events [since] it was opened (none if
    this input opens it) and those before *)
Definition found_window (input : DetectorInput) (since before : list event) (u : UpgradeWindowState) : Prop :=
  ∃ opening,
    (since = [] ∧ opening = input ∨ ∃ later fs, since = later ++ [E_tick opening fs])
    ∧ opened_at opening u ∧ seen_version before (uw_fromVersion u)
    ∧ evidence (input :: inputs_of since) u ∧ (uw_fired u = false → ¬ reported since).
Definition window (since before : list event) (u : UpgradeWindowState) : Prop :=
  ∃ opening later fs,
    since = later ++ [E_tick opening fs]
    ∧ opened_at opening u ∧ seen_version before (uw_fromVersion u)
    ∧ evidence (inputs_of since) u ∧ (uw_fired u = false → ¬ reported since).
Definition detector_ok (h : list event) (d : RegressionDetector) : Prop :=
  (∀ v, rd_lastVersion d = Some v → seen_version h v)
  ∧ ∀ u, rd_upgrade d = Some u → ∃ since before, h = since ++ before ∧ window since before u.
Lemma window_wf since before u : window since before u → jm_wf (uw_baselines u).
Proof. intros (o & l & fs & _ & (_ & _ & _ & ->) & _). apply upgrade_baselines_wf. Qed.
Lemma found_wf input since before u : found_window input since before u → jm_wf (uw_baselines u).
Proof. intros (o & _ & (_ & _ & _ & ->) & _). apply upgrade_baselines_wf. Qed.
Lemma opened_same input u u' : same_window u u' → opened_at input u → opened_at input u'.
Proof. intros (H1 & H2 & H3 & H4 & _). unfold opened_at. by rewrite H1, H2, H3, H4. Qed.
Lemma found_next input since before u : window since before u → found_window input since before u.
Proof.
  intros (o & later & fs & -> & Ho & Hs & He & Hr). exists o. split_and!; try done; [right; eauto|].
  eapply evidence_more; [|exact He]. intros i Hi. by right.
Qed.
(** After the evaluation the window has seen one event more. *)
Lemma window_next input since before u u' fs :
  found_window input since before u → same_window u (set_fired (uw_fired u) u') →
  evidence (input :: inputs_of since) u' →
  (uw_fired u' = false → uw_fired u = false ∧ Forall (λ f, rf_kind f ≠ upgrade_regression) fs) →
  window (E_tick input fs :: since) before u'.
Proof.
  intros (o & Hsince & Ho & Hs & _ & Hr) Hsame He Hf.
  assert (Hlast : ∃ later fs0, E_tick input fs :: since = later ++ [E_tick o fs0]).
  { destruct Hsince as [[-> ->]|(later & fs0 & ->)]; [by exists [], fs|by exists (E_tick input fs :: later), fs0]. }
  destruct Hlast as (later & fs0 & Hl). exists o, later, fs0. split_and!; try done.
  - by apply (opened_same o u (set_fired (uw_fired u) u')).
  - destruct Hsame as (Hfrom & _). cbn in Hfrom. by rewrite Hfrom.
  - intros Hfired. destruct (Hf Hfired) as [Hf1 Hfs]. cbn [reported]. intros [Hex|Hrep]; [|by apply (Hr Hf1)].
    rewrite Exists_exists in Hex. destruct Hex as (f & Hin & Hk). rewrite Forall_forall in Hfs. by apply (Hfs f).
Qed.
(** What the tracking of the version and the end of the window leave *)
Lemma tracked_window input first rest h d :
  di_samples input = first :: rest → detector_ok h d →
  let d' := close_window (di_nowMs input) (trackVersion (currentVersion first rest) (di_nowMs input) (first :: rest) d) in
  (∀ v fs, rd_lastVersion d' = Some v → seen_version (E_tick input fs :: h) v)
  ∧ ∀ u, rd_upgrade d' = Some u →
      di_nowMs input - uw_openedAtMs u ≤ UPGRADE_WINDOW_MS
      ∧ ∃ since before, h = since ++ before ∧ found_window input since before u.
Proof.
  intros Hsamples [Hlast Hup] d'. set (version := currentVersion first rest) in *.
  assert (Hversion : version_of input version) by (by exists first, rest).
  set (d1 := trackVersion version (di_nowMs input) (first :: rest) d) in *.
  assert (Hold : ∀ v fs, seen_version h v → seen_version (E_tick input fs :: h) v).
  { intros v fs (i & fs' & Hin & Hv). exists i, fs'. split; [by right|done]. }
  assert (H1 : (∀ v fs, rd_lastVersion d1 = Some v → seen_version (E_tick input fs :: h) v)
    ∧ ∀ u, rd_upgrade d1 = Some u → ∃ since before, h = since ++ before ∧ found_window input since before u).
  { assert (Hkeep : ∀ u, rd_upgrade d = Some u → ∃ since before, h = since ++ before ∧ found_window input since before u).
    { intros u Hu. destruct (Hup u Hu) as (since & before & -> & Hw). exists since, before. split; [done|by apply found_next]. }
    assert (Hnew : ∀ v fs, Some version = Some v → seen_version (E_tick input fs :: h) v).
    { intros v fs [= <-]. exists input, fs. split; [by left|done]. }
    subst d1. unfold trackVersion. destruct (is_empty version); [by split; [intros v fs ?; apply Hold, Hlast|]|].
    destruct (rd_lastVersion d) as [from|] eqn:Hfrom; [|by split].
    destruct (str_eqb version from); [by split; [intros v fs ?; apply Hold, Hlast; congruence|]|].
    destruct (num_leb _ _) eqn:Hmajor.
    { cbn [rd_upgrade with_version]. destruct (rd_upgrade d) as [u|] eqn:Hu; [|by split; [|cbn; rewrite Hu]].
      destruct (num_ltb _ _); [by split|]. split; [done|]. cbn. rewrite Hu. apply Hkeep. }
    split; [done|]. cbn. intros u [= <-]. exists [], h. split; [done|]. exists input. split_and!; [by left| |by apply Hlast|..].
    - split_and!; [done|done|done|]. cbn. by rewrite Hsamples.
    - split; [apply jm_wf_nil|done].
    - by intros _ []. }
  destruct H1 as [H1 H2]. subst d'. unfold close_window.
  destruct (rd_upgrade d1) as [u|] eqn:Hu; [|by split; [|rewrite Hu]].
  destruct (Z.ltb_spec UPGRADE_WINDOW_MS (di_nowMs input - uw_openedAtMs u)); [by split|].
  split; [done|]. rewrite Hu. intros u' [= <-]. split; [done|by apply H2].
Qed.
(** The rule for upgrades *)
Definition real_upgrade (input : DetectorInput) (since : list event) (u : UpgradeWindowState) (f : RegressionFinding) : Prop :=
  rf_kind f = upgrade_regression ∧ rf_previousVersion f = Some (uw_fromVersion u) ∧ rf_currentVersion f = uw_toVersion u
  ∧ rf_commands f ≠ []
  ∧ ∀ c, c ∈ rf_commands f →
      (cr_command c, cr_baselineP99Us c) ∈ uw_baselines u
      ∧ ∃ l, CONSECUTIVE_REQUIRED ≤ js_len l ∧ StronglySorted newer l
             ∧ Forall (degraded_sample (input :: inputs_of since) (uw_toVersion u) (cr_command c) (cr_baselineP99Us c)) l.
Lemma evaluateUpgrade_spec input since before u :
  found_window input since before u →
  ∃ o u', evaluateUpgrade input (latestByCommand (di_samples input)) (eligibleCommands (di_callsPerMin input)) (Some u)
          = inr (o, Some u')
    ∧ same_window u (set_fired (uw_fired u) u') ∧ evidence (input :: inputs_of since) u'
    ∧ (uw_fired u' = false → uw_fired u = false ∧ o = None)
    ∧ ∀ f, o = Some f → uw_fired u = false ∧ real_upgrade input since u f.
Proof.
  intros Hfound. pose proof (found_wf _ _ _ _ Hfound) as Hwf. destruct Hfound as (o & _ & _ & _ & He & _).
  unfold evaluateUpgrade. destruct (uw_fired u) eqn:Hfired.
  { exists None, u. split_and!; try done. by rewrite Hfired. }
  destruct (count_all (input :: inputs_of since) input u) as (Hs & Hev & Hp); [by left|done|done|].
  set (latest := latestByCommand (di_samples input)) in *.
  set (u1 := foldl (count_upgrade input latest _) u (uw_baselines u)) in *.
  assert (Hget : ∀ c n, (c, n) ∈ uw_consecutive u1 → jm_get c (uw_consecutive u1) = Some n)
    by (intros c n; apply jm_elem_get, Hev).
  destruct (regressed_spec input latest (uw_baselines u1) (uw_consecutive u1)) as (l & Hl & Hr).
  { intros c n Hin Hn. apply (Hp c n); [by apply Hget|]. unfold CONSECUTIVE_REQUIRED in Hn. lia. }
  rewrite Hl. destruct Hs as (Hs1 & Hs2 & Hs3 & Hs4 & Hs5).
  destruct l as [|r l].
  { exists None, u1. split_and!; try done. }
  exists (Some (upgrade_finding input u1 (js_sort (by_num_desc cr_degradationFactor) (r :: l)))), (set_fired true u1).
  split_and!; [done|by split_and!|done|done|].
  intros f Hf. apply (inj Some) in Hf. subst f. split; [done|].
  unfold real_upgrade. cbn [rf_kind rf_previousVersion rf_currentVersion rf_commands upgrade_finding].
  rewrite Hs1, Hs2. split_and!; try done.
  { intros Hnil. apply (not_elem_of_nil r). rewrite <-Hnil. apply (js_sort_elem (by_num_desc cr_degradationFactor) (r :: l)).
    by left. }
  intros c Hc%js_sort_elem. destruct (Hr c Hc) as (n & s & Hin & Hn & _ & _ & Hb).
  destruct (proj2 Hev _ _ (Hget _ _ Hin)) as (b & Hb' & k & Hk & Hso & Hd & _).
  rewrite Hb' in Hb. cbn in Hb. rewrite Hb. split; [rewrite <-Hs4; by apply jm_get_elem|].
  exists k. split; [lia|]. split; [done|]. by rewrite Hs2 in Hd.
Qed.
Lemma sustained_kind input latest eligible version upgrade states f :
  f ∈ (evaluateSustained input latest eligible version upgrade states).1 → rf_kind f = sustained_degradation.
Proof.
  unfold evaluateSustained. set (byCommand := sustained_samples input eligible). clearbody byCommand.
  assert (H : ∀ l acc, (∀ f, f ∈ acc.1 → rf_kind f = sustained_degradation) →
    ∀ f, f ∈ (foldl (sustain_step upgrade input latest byCommand version) acc l).1 → rf_kind f = sustained_degradation).
  { induction l as [|c l IH]; intros [fs st] Ha; [done|]. cbn [foldl]. apply IH. cbn.
    destruct (sustain_state _ _ _ _ _ _) as [[r|] s]; cbn; [|by rewrite app_nil_r].
    intros g [Hg|Hg%list_elem_of_singleton]%elem_of_app; [by apply Ha|by subst]. }
  apply H. intros g Hg. by apply not_elem_of_nil in Hg.
Qed.
(** An evaluation returns, and what it reports of an upgrade is real. *)
Lemma evaluate_spec input h d :
  detector_ok h d →
  ∃ fs d', evaluate input d = (Ok fs, d') ∧ detector_ok (E_tick input fs :: h) d'
    ∧ ∀ f, f ∈ fs → rf_kind f = upgrade_regression →
        ∃ since before u, h = since ++ before ∧ found_window input since before u
          ∧ di_nowMs input - uw_openedAtMs u ≤ UPGRADE_WINDOW_MS ∧ uw_fired u = false ∧ real_upgrade input since u f.
Proof.
  intros Hd. unfold evaluate. destruct (di_samples input) as [|first rest] eqn:Hsamples.
  { exists [], d. split; [done|]. split; [|intros f Hf; by apply not_elem_of_nil in Hf]. destruct Hd as [Hl Hu]. split.
    - intros v Hv. destruct (Hl v Hv) as (i & fs & Hin & Hver). exists i, fs. split; [by right|done].
    - intros u Hw. destruct (Hu u Hw) as (since & before & -> & Hwin). exists (E_tick input [] :: since), before.
      split; [done|]. pose proof (found_next input since before u Hwin) as Hf. apply (window_next input since before u u); try done.
      by destruct Hf as (o & _ & _ & _ & He & _). }
  destruct (tracked_window input first rest h d Hsamples Hd) as [Hlast Hup].
  set (d1 := close_window _ _) in *. rewrite <-Hsamples.
  set (latest := latestByCommand (di_samples input)). set (eligible := eligibleCommands (di_callsPerMin input)).
  destruct (rd_upgrade d1) as [u|] eqn:Hu; cycle 1.
  { cbn [evaluateUpgrade].
    destruct (evaluateSustained input latest eligible (currentVersion first rest) None (rd_sustained d1)) as [fs st] eqn:Hev.
    eexists _, _. split; [done|]. cbn [app]. split; [split; [by intros v; apply Hlast|done]|].
    intros f Hf Hk. assert (Hs : rf_kind f = sustained_degradation); [|by rewrite Hs in Hk].
    eapply sustained_kind. by rewrite Hev. }
  destruct (Hup u eq_refl) as (Hage & since & before & Hh & Hfound).
  destruct (evaluateUpgrade_spec input since before u Hfound) as (o & u' & Ho & Hsame & Hevid & Hfired & Hreal).
  fold latest eligible in Ho. rewrite Ho.
  destruct (evaluateSustained input latest eligible (currentVersion first rest) (Some u') (rd_sustained d1)) as [fs st] eqn:Hev.
  assert (Hkind : ∀ f, f ∈ fs → rf_kind f = sustained_degradation).
  { intros f Hf. eapply sustained_kind. by rewrite Hev. }
  eexists _, _. split; [done|]. split; [split|].
  - intros v. apply Hlast.
  - cbn. intros v [= <-]. exists (E_tick input (match o with Some f => [f] | None => [] end ++ fs) :: since), before.
    split; [by rewrite Hh|]. apply (window_next input since before u u'); try done.
    intros Hf. destruct (Hfired Hf) as [? ->]. split; [done|]. apply Forall_forall. intros f Hin. by rewrite Hkind.
  - intros f [Hin|Hin]%elem_of_app Hk; [|by rewrite Hkind in Hk].
    destruct o as [g|]; [|by apply not_elem_of_nil in Hin]. apply list_elem_of_singleton in Hin as ->.
    destruct (Hreal g eq_refl) as [Hfu Hr]. by exists since, before, u.
Qed.
Lemma revert_ok h d f : detector_ok h d → detector_ok (E_revert f :: h) (revert f d).
Proof.
  intros [Hl Hu].
  assert (Hseen : ∀ v, seen_version h v → seen_version (E_revert f :: h) v).
  { intros v (i & fs & Hin & Hv). exists i, fs. split; [by right|done]. }
  assert (Hwin : ∀ u u', rd_upgrade d = Some u → same_window u (set_fired (uw_fired u) u') →
    uw_consecutive u' = uw_consecutive u → uw_lastCountedAt u' = uw_lastCountedAt u →
    (uw_fired u' = false → rf_kind f = upgrade_regression ∨ uw_fired u = false) →
    ∃ since before, E_revert f :: h = since ++ before ∧ window since before u').
  { intros u u' Hup Hsame Hc Hlc Hf. destruct (Hu u Hup) as (since & before & -> & o & later & fs & -> & Ho & Hs & [Hwf He] & Hr).
    exists (E_revert f :: later ++ [E_tick o fs]), before. split; [done|]. exists o, (E_revert f :: later), fs. split_and!; [done|..].
    - by apply (opened_same o u (set_fired (uw_fired u) u')).
    - destruct Hsame as (Hfrom & _). cbn in Hfrom. by rewrite Hfrom.
    - destruct Hsame as (_ & Hto & _ & Hb & _). cbn in Hto, Hb. split; [by rewrite Hc|]. intros c n. rewrite Hc, Hb. intros Hn.
      destruct (He c n Hn) as (b & Hb' & Hst). exists b. split; [done|]. unfold streak in *. by rewrite Hto, Hlc.
    - intros Hf'. cbn [reported]. intros [Hk Hrep]. destruct (Hf Hf') as [|Hf1]; [done|]. by apply (Hr Hf1). }
  unfold revert. destruct (rf_kind f) eqn:Hk.
  - destruct (rd_upgrade d) as [u|] eqn:Hup; [|by split; [intros v Hv; by apply Hseen, Hl|rewrite Hup]].
    destruct (str_eqb _ _).
    + split; [intros v Hv; by apply Hseen, Hl|]. cbn. intros u' [= <-]. apply (Hwin u); try done. by left.
    + split; [intros v Hv; by apply Hseen, Hl|]. rewrite Hup. intros u' [= <-]. apply (Hwin u); try done. by left.
  - split; [intros v Hv; by apply Hseen, Hl|]. cbn. intros u Hup. apply (Hwin u); try done. by right.
Qed.
Lemma runs_ok h d : runs h d → detector_ok h d.
Proof.
  induction 1 as [|h d input fs d' _ IH He|h d input fs f _ IH _ _]; [by split|..|by apply revert_ok].
  destruct (evaluate_spec input h d IH) as (fs' & d1 & He' & Hok & _). rewrite He in He'. by simplify_eq.
Qed.

(** *** The rule for degradation without an upgrade *)

(** As many samples as the count, each newer than the next one; when a finding was taken back, at least
    the samples of that finding *)
Definition slow_streak (inputs : list DetectorInput) (c : string) (st : SustainedState) : Prop :=
  ∃ l, StronglySorted newer l ∧ Forall (slow_sample inputs c) l
    ∧ (js_len l = su_consecutive st ∧ Forall (λ s, cp_capturedAt s ≤ su_lastCountedAt st) l
       ∨ CONSECUTIVE_REQUIRED ≤ js_len l).
Definition real_degradation (inputs : list DetectorInput) (f : RegressionFinding) : Prop :=
  ∃ r, rf_commands f = [r] ∧ rf_kind f = sustained_degradation
    ∧ ∃ l, CONSECUTIVE_REQUIRED ≤ js_len l ∧ StronglySorted newer l ∧ Forall (slow_sample inputs (cr_command r)) l.
Lemma slow_more inputs inputs' c s : (∀ i, i ∈ inputs → i ∈ inputs') → slow_sample inputs c s → slow_sample inputs' c s.
Proof. intros Hi (Hc & i & Hin & Hrest). split; [done|]. exists i. split; [by apply Hi|done]. Qed.
Lemma streak_more inputs inputs' c st : (∀ i, i ∈ inputs → i ∈ inputs') → slow_streak inputs c st → slow_streak inputs' c st.
Proof.
  intros Hi (l & Hs & Hl & Hc). exists l. split_and!; [done| |done]. eapply Forall_impl; [exact Hl|]. intros s. by apply slow_more.
Qed.
Lemma streak_reset inputs c st : su_consecutive st = 0 → slow_streak inputs c st.
Proof. intros H0. exists []. split; [constructor|]. split; [done|]. left. split; [by rewrite H0|done]. Qed.
Lemma p99_get c samples : jm_get c (p99_by_command samples) = map cp_p99Us <$> jm_get c (js_group cp_command samples).
Proof.
  unfold p99_by_command. induction (js_group cp_command samples) as [|[k g] gs IH]; cbn; [done|]. by case_decide.
Qed.
Lemma sustained_samples_spec input c values :
  c ∈ eligibleCommands (di_callsPerMin input) →
  jm_get c (sustained_samples input (eligibleCommands (di_callsPerMin input))) = Some values →
  values = map cp_p99Us (daily_samples input c).
Proof.
  intros Hc Hg. unfold sustained_samples in Hg. rewrite p99_get in Hg.
  destruct (jm_get c (js_group _ _)) as [g|] eqn:Hgr; [|done]. injection Hg as <-.
  apply jm_get_elem, js_group_elem in Hgr as [-> _]. f_equal. rewrite js_filter_both. unfold daily_samples.
  induction (di_samples input) as [|x l IH]; cbn; [done|]. rewrite IH.
  destruct (bool_decide_reflect (cp_command x = c)) as [->|]; cbn [andb]; [|done].
  by rewrite (proj2 (js_includes_true c _) Hc), andb_true_r.
Qed.
Lemma sustain_state_spec input h upgrade c st :
  c ∈ eligibleCommands (di_callsPerMin input) → slow_streak (input :: inputs_of h) c st →
  let '(o, st') := sustain_state upgrade input (latestByCommand (di_samples input))
                     (sustained_samples input (eligibleCommands (di_callsPerMin input))) c st in
  slow_streak (input :: inputs_of h) c st'
  ∧ match o with
    | None => su_lastFiredAt st' = su_lastFiredAt st
    | Some r => su_lastFiredAt st' = di_nowMs input ∧ SUSTAINED_COOLDOWN_MS ≤ di_nowMs input - su_lastFiredAt st
                ∧ cr_command r = c
                ∧ ∃ l, CONSECUTIVE_REQUIRED ≤ js_len l ∧ StronglySorted newer l
                       ∧ Forall (slow_sample (input :: inputs_of h) c) l
    end.
Proof.
  intros Hel Hst. unfold sustain_state. destruct (match upgrade with Some _ => _ | None => _ end); [by split; [apply streak_reset|]|].
  destruct (jm_get c (latestByCommand _)) as [s|] eqn:Hs; [|by split; [apply streak_reset|]].
  destruct (jm_get c (sustained_samples _ _)) as [values|] eqn:Hv; [|by split; [apply streak_reset|]].
  apply latest_spec in Hs as (Hsin & Hcmd & _). apply sustained_samples_spec in Hv as ->; [|done].
  destruct (_ || _) eqn:Hstale; [by split; [apply streak_reset|]|].
  apply orb_false_elim in Hstale as [Hfresh%Z.ltb_ge Hmany%Z.ltb_ge].
  destruct (Z.leb_spec (cp_capturedAt s) (su_lastCountedAt st)) as [|Hnew]; [by split|].
  destruct (isDegraded _ _ _) eqn:Hdeg; cbn [negb]; [|by split; [apply streak_reset|]].
  assert (Hslow : slow_sample (input :: inputs_of h) c s).
  { split; [done|]. exists input. split_and!; try done; [by left|]. unfold js_len in *. by rewrite length_map in Hmany. }
  assert (Hnext : ∃ l, StronglySorted newer l ∧ Forall (slow_sample (input :: inputs_of h) c) l
    ∧ (js_len l = su_consecutive st + 1 ∧ Forall (λ s', cp_capturedAt s' ≤ cp_capturedAt s) l ∨ CONSECUTIVE_REQUIRED ≤ js_len l)).
  { destruct Hst as (l & Hso & Hl & [[Hn Hle]|Hn]); [|exists l; split_and!; try done; by right].
    exists (s :: l). split_and!; [constructor; [done|]|by constructor|left; split; [|constructor; [lia|]]].
    - eapply Forall_impl; [exact Hle|]. intros s' Hs'. unfold newer. cbn in Hs'. lia.
    - unfold js_len in *. cbn [length]. lia.
    - eapply Forall_impl; [exact Hle|]. intros s' Hs'. cbn in *. lia. }
  destruct Hnext as (l & Hso & Hl & Hn). destruct (_ || _) eqn:Hfire.
  - split; [|done]. exists l. split; [done|]. split; [done|]. destruct Hn as [[Hn Hle]|Hn]; [by left|by right].
  - apply orb_false_elim in Hfire as [Hfull%Z.ltb_ge Hcool%Z.ltb_ge]. split; [by apply streak_reset|]. split_and!; try done.
    exists l. split; [|done]. destruct Hn as [[Hn _]|Hn]; [by rewrite Hn|done].
Qed.
(** The loop over the eligible commands *)
Definition loop_ok (input : DetectorInput) (h : list event) (states : list (string * SustainedState))
    (acc : list RegressionFinding * list (string * SustainedState)) : Prop :=
  (∀ c st, jm_get c acc.2 = Some st → slow_streak (input :: inputs_of h) c st)
  ∧ (∀ f, f ∈ acc.1 → real_degradation (input :: inputs_of h) f)
  ∧ (∀ c, js_some (degradation_of c) acc.1 = true →
       (∃ st, jm_get c acc.2 = Some st ∧ su_lastFiredAt st = di_nowMs input)
       ∧ ∀ st, jm_get c states = Some st → SUSTAINED_COOLDOWN_MS ≤ di_nowMs input - su_lastFiredAt st)
  ∧ ∀ c st, js_some (degradation_of c) acc.1 = false → jm_get c states = Some st →
       ∃ st', jm_get c acc.2 = Some st' ∧ su_lastFiredAt st' = su_lastFiredAt st.
Lemma js_some_append {A} (p : A → bool) l k : js_some p (l ++ k) = js_some p l || js_some p k.
Proof. apply existsb_app. Qed.
Lemma js_some_single {A} (p : A → bool) x : js_some p [x] = p x.
Proof. apply orb_false_r. Qed.
Lemma major_refl v : num_leb (parseMajorVersion v) (parseMajorVersion v) = true.
Proof.
  assert (H : ∀ x, is_finite x = true → num_leb x x = true).
  { intros [s|s| |s m e] Hx; try done. unfold num_leb, SFleb, SFcompare.
    rewrite Z.compare_refl, Pos.compare_cont_refl. by destruct s. }
  apply H. unfold parseMajorVersion. destruct (parse_int v) as [z|]; [|done]. by destruct (is_finite (num_of_Z z)) eqn:Hz.
Qed.
Lemma degradation_one c input version r :
  degradation_of c (sustained_finding input version r) = bool_decide (cr_command r = c).
Proof. unfold degradation_of. cbn. by rewrite orb_false_r. Qed.
Lemma loop_step input h upgrade version states acc c :
  c ∈ eligibleCommands (di_callsPerMin input) → loop_ok input h states acc →
  loop_ok input h states
    (sustain_step upgrade input (latestByCommand (di_samples input))
       (sustained_samples input (eligibleCommands (di_callsPerMin input))) version acc c).
Proof.
  destruct acc as [fs sts]. intros Hel (HA & HB & HC & HD). cbn [fst snd] in *. unfold sustain_step.
  set (st := default new_state (jm_get c sts)).
  assert (Hst : slow_streak (input :: inputs_of h) c st).
  { subst st. destruct (jm_get c sts) as [s|] eqn:Hs; [by apply HA|by apply streak_reset]. }
  pose proof (sustain_state_spec input h upgrade c st Hel Hst) as Hspec.
  destruct (sustain_state _ _ _ _ _ _) as [o st']. destruct Hspec as [Hst' Ho].
  assert (HA' : ∀ c0 s0, jm_get c0 (jm_set c st' sts) = Some s0 → slow_streak (input :: inputs_of h) c0 s0).
  { intros c0 s0. rewrite jm_get_set. case_decide as Hc; [by intros [= <-]; subst c0|apply HA]. }
  destruct o as [r|]; cycle 1.
  { rewrite app_nil_r. split_and!; cbn [fst snd]; [done|done|..].
    - intros c0 Hf. destruct (HC c0 Hf) as [(s & Hs & Ht) Hcool]. split; [|done]. rewrite jm_get_set.
      case_decide as Hc; [|by exists s]. subst c0. exists st'. split; [done|]. rewrite Ho. subst st. by rewrite Hs.
    - intros c0 s0 Hf Hs0. destruct (HD c0 s0 Hf Hs0) as (s & Hs & Ht). rewrite jm_get_set.
      case_decide as Hc; [|by exists s]. subst c0. exists st'. split; [done|]. rewrite Ho. subst st. by rewrite Hs. }
  destruct Ho as (Hfired & Hcool & Hcmd & l & Hl & Hso & Hd).
  assert (Hfresh : js_some (degradation_of c) fs = false).
  { destruct (js_some (degradation_of c) fs) eqn:Hf; [|done]. destruct (HC c Hf) as [(s & Hs & Ht) _].
    subst st. rewrite Hs in Hcool. cbn in Hcool. rewrite Ht in Hcool. unfold SUSTAINED_COOLDOWN_MS in Hcool. lia. }
  split_and!; cbn [fst snd]; [done|..].
  - intros f [Hf|Hf%list_elem_of_singleton]%elem_of_app; [by apply HB|]. subst f. exists r. split; [done|]. split; [done|].
    exists l. by rewrite Hcmd.
  - intros c0. rewrite js_some_append, js_some_single, degradation_one, Hcmd, jm_get_set.
    intros [Hf|Hc%bool_decide_eq_true]%orb_prop.
    + destruct (HC c0 Hf) as [Hs Hcool0]. split; [|done]. case_decide as Hc; [|done]. subst c0. by rewrite Hf in Hfresh.
    + subst c0. rewrite decide_True by done. split; [by exists st'|]. intros s0 Hs0.
      destruct (HD c s0 Hfresh Hs0) as (s & Hs & Ht). subst st. rewrite Hs in Hcool. cbn in Hcool. by rewrite Ht in Hcool.
  - intros c0 s0. rewrite js_some_append, js_some_single, degradation_one, Hcmd, jm_get_set.
    intros [Hf Hc%bool_decide_eq_false]%orb_false_elim Hs0. rewrite decide_False by congruence. by apply HD.
Qed.
Lemma loop_all input h upgrade version states :
  (∀ c st, jm_get c states = Some st → slow_streak (inputs_of h) c st) →
  loop_ok input h states
    (evaluateSustained input (latestByCommand (di_samples input)) (eligibleCommands (di_callsPerMin input)) version
       upgrade states).
Proof.
  intros Hst. unfold evaluateSustained.
  assert (H : ∀ l acc, (∀ c, c ∈ l → c ∈ eligibleCommands (di_callsPerMin input)) → loop_ok input h states acc →
    loop_ok input h states (foldl (sustain_step upgrade input (latestByCommand (di_samples input))
       (sustained_samples input (eligibleCommands (di_callsPerMin input))) version) acc l)).
  { induction l as [|c l IH]; intros acc Hl Hacc; [done|]. cbn [foldl]. apply IH; [intros; apply Hl; by right|].
    apply loop_step; [|done]. apply Hl. by left. }
  apply H; [done|]. split_and!; cbn [fst snd].
  - intros c st Hs. eapply streak_more; [|by apply Hst]. intros i Hi. by right.
  - intros f Hf. by apply not_elem_of_nil in Hf.
  - done.
  - intros c st _ Hs. by exists st.
Qed.
Lemma track_state input first rest h d :
  di_samples input = first :: rest → rd_lastVersion d = last_version h →
  let d' := close_window (di_nowMs input) (trackVersion (currentVersion first rest) (di_nowMs input) (first :: rest) d) in
  (∀ fs, rd_lastVersion d' = last_version (E_tick input fs :: h))
  ∧ rd_sustained d' = if upgraded input h then [] else rd_sustained d.
Proof.
  intros Hs Hl d'. set (d1 := trackVersion (currentVersion first rest) (di_nowMs input) (first :: rest) d) in *.
  assert (H : (∀ fs, rd_lastVersion d1 = last_version (E_tick input fs :: h))
    ∧ rd_sustained d1 = if upgraded input h then [] else rd_sustained d).
  { subst d1. cbn [last_version]. unfold upgraded. rewrite Hs. unfold trackVersion. rewrite <-Hl.
    destruct (is_empty _) eqn:Hempty; [by destruct (rd_lastVersion d)|]. destruct (rd_lastVersion d) as [from|] eqn:Hfrom; [|done].
    unfold str_eqb. destruct (bool_decide_reflect (currentVersion first rest = from)) as [He|Hne].
    - rewrite He, Hfrom. rewrite major_refl. done.
    - cbn [negb andb]. destruct (num_leb _ _); [|done]. cbn [rd_upgrade with_version].
      destruct (rd_upgrade d); [destruct (num_ltb _ _)|]; done. }
  subst d'. unfold close_window. destruct (rd_upgrade d1); [destruct (_ <? _)|]; exact H.
Qed.
Lemma upgrade_kind input latest eligible up f u :
  evaluateUpgrade input latest eligible up = inr (Some f, u) → rf_kind f = upgrade_regression.
Proof.
  unfold evaluateUpgrade. destruct up as [w|]; [|done]. destruct (uw_fired w); [done|].
  destruct (regressed_commands _ _ _ _) as [|[|r l]]; [done|done|]. intros H. by injection H as <- _.
Qed.
(** What an evaluation reports and keeps of the commands *)
Lemma evaluate_slow input h d fs d' :
  rd_lastVersion d = last_version h → (∀ c st, jm_get c (rd_sustained d) = Some st → slow_streak (inputs_of h) c st) →
  evaluate input d = (Ok fs, d') →
  rd_lastVersion d' = last_version (E_tick input fs :: h)
  ∧ ∃ sfs, (∀ c, js_some (degradation_of c) fs = js_some (degradation_of c) sfs)
      ∧ (∀ f, f ∈ fs → rf_kind f = sustained_degradation → f ∈ sfs)
      ∧ loop_ok input h (if upgraded input h then [] else rd_sustained d) (sfs, rd_sustained d').
Proof.
  intros Hlast Hst. unfold evaluate. destruct (di_samples input) as [|first rest] eqn:Hs.
  { intros [= <- <-]. cbn [last_version]. rewrite Hs. split; [done|]. exists []. split_and!; [done|done|].
    assert (Hup : upgraded input h = false) by (unfold upgraded; by rewrite Hs). rewrite Hup. split_and!; cbn [fst snd].
    - intros c st Hc. eapply streak_more; [|by apply Hst]. intros i Hi. by right.
    - intros f Hf. by apply not_elem_of_nil in Hf.
    - done.
    - intros c st _ Hc. by exists st. }
  destruct (track_state input first rest h d Hs Hlast) as [Hv Hsus]. set (d1 := close_window _ _) in *. rewrite <-Hs.
  destruct (evaluateUpgrade _ _ _ _) as [|[o u]] eqn:Hup; [done|].
  pose proof (loop_all input h u (currentVersion first rest) (rd_sustained d1)) as Hloop.
  destruct (evaluateSustained _ _ _ _ _ _) as [sfs states]. intros [= <- <-]. cbn [rd_lastVersion rd_sustained with_sustained with_upgrade].
  split; [apply Hv|]. exists sfs. rewrite <-Hsus. split_and!.
  - intros c. rewrite js_some_append. destruct o as [f|]; [|done]. rewrite js_some_single. unfold degradation_of at 1.
    by rewrite (upgrade_kind _ _ _ _ _ _ Hup).
  - intros f [Hf|]%elem_of_app Hk; [|done]. destruct o as [g|]; [|by apply not_elem_of_nil in Hf].
    apply list_elem_of_singleton in Hf as ->. by rewrite (upgrade_kind _ _ _ _ _ _ Hup) in Hk.
  - apply Hloop. intros c st. rewrite Hsus. destruct (upgraded input h); [done|]. apply Hst.
Qed.
Definition slow_ok (h : list event) (d : RegressionDetector) : Prop :=
  rd_lastVersion d = last_version h
  ∧ (∀ c st, jm_get c (rd_sustained d) = Some st → slow_streak (inputs_of h) c st)
  ∧ (∀ c t, cooling h c = Some t → ∃ st, jm_get c (rd_sustained d) = Some st ∧ su_lastFiredAt st = t)
  ∧ ∀ input fs f, E_tick input fs ∈ h → f ∈ fs → rf_kind f = sustained_degradation → real_degradation (inputs_of h) f.
Lemma real_more inputs inputs' f : (∀ i, i ∈ inputs → i ∈ inputs') → real_degradation inputs f → real_degradation inputs' f.
Proof.
  intros Hi (r & Hr & Hk & l & Hl & Hs & Hd). exists r. split; [done|]. split; [done|]. exists l. split; [done|]. split; [done|].
  eapply Forall_impl; [exact Hd|]. intros s. by apply slow_more.
Qed.
Lemma slow_tick h d input fs d' : slow_ok h d → evaluate input d = (Ok fs, d') → slow_ok (E_tick input fs :: h) d'.
Proof.
  intros (Hlast & Hst & Hcool & Hreal) He.
  destruct (evaluate_slow input h d fs d' Hlast Hst He) as (Hv & sfs & Hsome & Hin & HA & HB & HC & HD).
  cbn [fst snd] in *. split_and!; [done|exact HA|..].
  - intros c t. cbn [cooling]. rewrite Hsome. destruct (js_some (degradation_of c) sfs) eqn:Hf.
    + intros [= <-]. by destruct (HC c Hf).
    + destruct (upgraded input h); [done|]. intros Hc. destruct (Hcool c t Hc) as (st & Hst' & <-). by apply HD.
  - intros i fs' f [Heq|Hold]%elem_of_cons Hf Hk.
    + injection Heq as -> ->. apply HB. by apply Hin.
    + eapply real_more; [|by apply (Hreal i fs')]. intros j Hj. by right.
Qed.
Lemma slow_revert h d f :
  slow_ok h d → (rf_kind f = sustained_degradation → real_degradation (inputs_of h) f) → slow_ok (E_revert f :: h) (revert f d).
Proof.
  intros (Hlast & Hst & Hcool & Hreal) Hf.
  assert (Hlv : rd_lastVersion (revert f d) = last_version (E_revert f :: h)).
  { unfold revert. cbn. rewrite <-Hlast. destruct (rf_kind f); [|done]. destruct (rd_upgrade d); [|done]. by destruct (str_eqb _ _). }
  assert (Hev : ∀ input fs g, E_tick input fs ∈ E_revert f :: h → g ∈ fs → rf_kind g = sustained_degradation →
    real_degradation (inputs_of (E_revert f :: h)) g).
  { intros input fs g [|Hin]%elem_of_cons; [done|]. by apply (Hreal input fs). }
  destruct (rf_kind f) eqn:Hk.
  - assert (Hs : rd_sustained (revert f d) = rd_sustained d).
    { unfold revert. rewrite Hk. destruct (rd_upgrade d); [|done]. by destruct (str_eqb _ _). }
    split_and!; [done|..|done]; rewrite Hs; [exact Hst|]. intros c t. cbn [cooling]. unfold degradation_of. rewrite Hk. apply Hcool.
  - destruct (Hf eq_refl) as (r & Hr & _ & l & Hl & Hso & Hd).
    assert (Hs : rd_sustained (revert f d) = rearm (rd_sustained d) r) by (unfold revert; by rewrite Hk, Hr).
    split_and!; [done|..|done]; rewrite Hs; unfold rearm.
    + intros c st. destruct (jm_has _ _); [|apply Hst]. rewrite jm_get_set. case_decide as Hc; [|apply Hst].
      intros [= <-]. subst c. exists l. split; [done|]. split; [done|]. by right.
    + intros c t. cbn [cooling]. unfold degradation_of at 1. rewrite Hk, Hr, js_some_single.
      destruct (bool_decide_reflect (cr_command r = c)) as [|Hne]; [done|]. intros Hc.
      destruct (Hcool c t Hc) as (st & Hst' & Ht). exists st. split; [|done].
      destruct (jm_has _ _); [|done]. by rewrite jm_get_set_ne.
Qed.
Lemma runs_slow h d : runs h d → slow_ok h d.
Proof.
  induction 1 as [|h d input fs d' _ IH He|h d input fs f _ IH Hin Hf].
  - split_and!; try done. intros input fs f Hin. by apply not_elem_of_nil in Hin.
  - by eapply slow_tick.
  - apply slow_revert; [done|]. intros Hk. destruct IH as (_ & _ & _ & Hreal). by apply (Hreal input fs).
Qed.

(** ** Theorems *)

(** a sustained degradation is real and not repeated too soon: each of five distinct samples of the
    command was, when it was read, fresh and twice (and 1 ms) above the median of at least thirty
    samples older than five minutes; and the last report on the command that was not taken back is at
    least thirty minutes old, unless the major version has gone up since. *)
Theorem sustained_degradation_real h input fs d f :
  runs (E_tick input fs :: h) d → f ∈ fs → rf_kind f = sustained_degradation →
  ∃ r, rf_commands f = [r]
    ∧ (∃ l, CONSECUTIVE_REQUIRED ≤ js_len l ∧ StronglySorted newer l
            ∧ Forall (slow_sample (input :: inputs_of h) (cr_command r)) l)
    ∧ ∀ t, cooling h (cr_command r) = Some t → upgraded input h = false → SUSTAINED_COOLDOWN_MS ≤ di_nowMs input - t.
Proof.
  intros Hruns Hf Hk. inversion Hruns as [|h0 d0 i0 fs0 d1 Hr He|]; subst.
  destruct (runs_slow h d0 Hr) as (Hlast & Hst & Hcool & _).
  destruct (evaluate_slow input h d0 fs d Hlast Hst He) as (_ & sfs & _ & Hin & _ & HB & HC & _). cbn [fst snd] in *.
  specialize (Hin f Hf Hk). destruct (HB f Hin) as (r & Hcmd & _ & Hl). exists r. split; [done|]. split; [done|].
  intros t Ht Hup. destruct (HC (cr_command r)) as [_ Hold].
  { apply js_some_true. exists f. split; [done|]. unfold degradation_of. rewrite Hk, Hcmd, js_some_single. by apply bool_decide_eq_true. }
  rewrite Hup in Hold. destruct (Hcool _ _ Ht) as (st & Hs & <-). by apply Hold.
Qed.
(** an evaluation always returns: whatever happened to the detector before, no input makes it throw. *)
Theorem evaluate_returns h d input : runs h d → ∃ fs d', evaluate input d = (Ok fs, d').
Proof.
  intros Hr. destruct (evaluate_spec input h d (runs_ok h d Hr)) as (fs & d' & He & _). by exists fs, d'.
Qed.

Lemma demo_runs inputs h d : runs h d → runs (demo_run inputs h d).1 (demo_run inputs h d).2.
Proof.
  revert h d. induction inputs as [|input inputs IH]; intros h d Hr; [done|]. cbn [demo_run].
  destruct (evaluate input d) as [[fs|e] d'] eqn:He; [|done]. apply IH. by eapply runs_tick.
Qed.
Lemma demo_last inputs input :
  runs (E_tick input (demo_findings inputs input) :: (demo_run inputs [] new_detector).1)
    (evaluate input (demo_run inputs [] new_detector).2).2.
Proof.
  pose proof (demo_runs inputs [] new_detector runs_new) as Hr.
  destruct (evaluate_spec input _ _ (runs_ok _ _ Hr)) as (fs & d' & He & _).
  unfold demo_findings. rewrite He. cbn. by eapply runs_tick.
Qed.
Lemma sustained_degradation_real_witness :
  ∃ f r, f ∈ demo_findings demo_slows (demo_slow 8) ∧ rf_commands f = [r]
    ∧ ∃ l, CONSECUTIVE_REQUIRED ≤ js_len l ∧ StronglySorted newer l.
Proof.
  assert (Hf : js_some (λ f, match rf_kind f with sustained_degradation => true | _ => false end)
                 (demo_findings demo_slows (demo_slow 8)) = true) by (vm_compute; reflexivity).
  apply js_some_true in Hf as (f & Hf & Hk).
  destruct (sustained_degradation_real (demo_run demo_slows [] new_detector).1 (demo_slow 8)
    (demo_findings demo_slows (demo_slow 8)) (evaluate (demo_slow 8) (demo_run demo_slows [] new_detector).2).2 f)
    as (r & Hr & (l & Hl & Hs & _) & _).
  - apply demo_last.
  - exact Hf.
  - by destruct (rf_kind f).
  - exists f, r. split; [exact Hf|]. split; [exact Hr|]. exists l. split; [exact Hl|exact Hs].
Defined.
Lemma evaluate_returns_witness :
  ∃ fs d', evaluate (demo_slow 8) (demo_run demo_slows [] new_detector).2 = (Ok fs, d').
Proof. apply (evaluate_returns (demo_run demo_slows [] new_detector).1). apply demo_runs, runs_new. Defined.
